(* ===== verification/_CoqProject ===== *)
-Q . S2P
Prelude.v
MemblockDefs.v
MemblockOps.v
MemblockRegions.v
MemblockSplit.v
MemblockSpec.v
MemblockProps.v
MemblockIter.v
MemblockFind.v
MemblockAlloc.v
MemblockQueries.v
MemblockResize.v
MemblockLimits.v
Resource.v
ResourceRegion.v
ResourceTree.v
ResourceProps.v
ResourceAlloc.v
Bootmem.v
BootmemMark.v
BootmemProps.v
BootmemAlloc.v
BootmemLive.v
BootmemFree.v
Notifier.v
NotifierProps.v
Timecounter.v
Hexdump.v
HexdumpProps.v
Buddy.v
BuddyInv.v
BuddyFree.v
BuddyAlloc.v
BuddySteal.v
BuddyBlocks.v
BuddyFallback.v
BuddyProps.v
BuddyMarks.v
BuddyBulk.v
PerCpu.v
PerCpuProps.v
WaitQueue.v
WaitQueueProps.v
WaitEvent.v
Gfp.v
Runs.v
RadixTree.v
RadixInv.v
RadixLookup.v
RadixSteps.v
RadixInsert.v
RadixTags.v
RadixDelete.v
RadixPool.v
RadixIter.v
RadixProps.v
Mempool.v
MempoolSteps.v
MempoolInv.v
MempoolProps.v
MempoolSlab.v
MempoolRun.v
DmaPool.v
DmaPoolInv.v
DmaPoolSteps.v
DmaPoolRuns.v
DmaPoolProps.v
DmaPoolRun.v
Cma.v
CmaInv.v
CmaProps.v
CmaDeclare.v
CmaRun.v
TimeConv.v
TimeProps.v
Clocksource.v
ClocksourceInv.v
ClocksourceProps.v
ClocksourceScale.v
ClocksourceRun.v
