(* ===== verification/Prelude.v ===== *)
(** * Memory management and core services of the annotated kernel tree

    The repository holds annotated sources of the Linux kernel: [src/new] is the
    main tree (about version 4.20), [src/bootmem.c] and [src/bootmem.h] the
    allocator it dropped, [src/bak] older trees.  This development models the
    parts whose behaviour is a function of their own state: how memory is found,
    handed out and given back from the first instruction of the boot to the page
    allocator, the tree of address ranges the devices claim, and a few services
    the rest of the kernel builds on.

    ** Parts and files

    - Physical memory at boot, [src/new/mm/memblock.c]: [MemblockDefs] (region
      arrays), [MemblockOps] (iterators, searches, operations that resize),
      [MemblockAlloc] (allocation interface, queries, limits).  The state is the
      record [memblock] of the module's variables, an operation returns the new
      one.  [MemblockRegions], [MemblockSplit] and [MemblockSpec] read an array
      as a partial map from addresses to attributes and show what every
      operation does to that map; [MemblockIter] and [MemblockFind] show that the
      lock-step iterators enumerate exactly the free memory and that a search
      returns the best place; [MemblockProps], [MemblockQueries] and
      [MemblockLimits] have the theorems, [MemblockResize] those about adding and
      removing memory when the array has to be doubled.
    - Bitmap allocator, [src/bootmem.c]: [Bootmem]; marking ranges across nodes
      ([BootmemMark], [BootmemProps]), first-fit allocation ([BootmemAlloc]),
      sequences of operations ([BootmemLive]) and the hand-over of free pages to
      the page allocator ([BootmemFree]).
    - Page allocator, the free lists of [src/new/mm/page_alloc.c] with the
      pageblock bitmap: [Buddy] (freeing, splitting, bitmap) and [BuddySteal]
      (fallback between migrate types).  [BuddyInv] has the invariant and the two
      steps all operations consist of; [BuddyFree], [BuddyAlloc],
      [BuddyFallback] and [BuddyBlocks] follow the operations; [BuddyProps] has
      the theorems and what it means that blocks in use stay apart,
      [BuddyMarks] the watermark checks and the isolation of blocks, [BuddyBulk]
      the batches for the per-CPU lists.  [PerCpu] is the layer above: the page
      lists of the CPUs, the checks of page descriptors and [rmqueue];
      [PerCpuProps] follows the requests of several CPUs through it.
    - Resource tree, [src/new/kernel/resource.c]: [Resource] (a heap of resources
      linked by parent, sibling and child pointers, chased and written as in the
      code), [ResourceRegion] (busy regions, splitting reservations, hot-remove).
      [ResourceTree] has the invariant, [ResourceProps] and [ResourceAlloc] the
      theorems.
    - Notifier chains, [src/new/kernel/notifier.c]: [Notifier] (chain heads and
      blocks in a store, callbacks are functions on the store), theorems in
      [NotifierProps].
    - Time counters, [src/new/kernel/time/timecounter.c]: [Timecounter].
    - Hexadecimal conversion and dumps, [src/new/lib/hexdump.c]: [Hexdump] and
      [HexdumpProps].
    - Wait queues, [src/new/kernel/sched/wait.c] and [include/linux/wait.h]:
      [WaitQueue] (entries, queue and task states; what runs under the lock of the
      queue is one function), [WaitQueueProps] (the walk of a waker, in sections
      with a bookmark).  [WaitEvent] is the loop of [___wait_event]: tasks and
      wakers as a transition system whose steps are the sections of the code
      between which others can run, with its invariant by induction on the steps.
    - Radix tree, [src/new/lib/radix-tree.c]: [RadixTree] (nodes in memory, the
      preload pool of the CPU, nodes that wait for a grace period; insertion, lookup,
      replacement, deletion, tags, iteration), over the flags of [Gfp].  [RadixInv]
      reads the memory as a tree and has the invariant, [RadixLookup] the walks
      down, [RadixSteps] what single writes do to the tree; [RadixInsert],
      [RadixTags], [RadixDelete], [RadixPool] and [RadixIter] follow the operations,
      [RadixProps] has the theorems.
    - Memory pools, [src/new/mm/mempool.c]: [Mempool] (the sections that run under
      the lock of the pool), [MempoolSteps] (tasks in [mempool_alloc],
      [mempool_free] and [mempool_resize] as a transition system), [MempoolInv] and
      [MempoolProps] (invariant and theorems), [MempoolSlab] (a slab cache as the
      allocator of a pool), [MempoolRun] (the steps as a function, concrete runs).
    - DMA pools, [src/new/mm/dmapool.c]: [DmaPool] (pages whose free blocks are chained
      through their own bytes), [DmaPoolInv] (which offsets are blocks, the chain of
      one page), [DmaPoolSteps] (calls that interleave where the lock is dropped, and
      the writes of drivers), [DmaPoolRuns] (the invariant), [DmaPoolProps]
      (theorems), [DmaPoolRun] (concrete pools).
    - Contiguous memory areas, [src/new/mm/cma.c]: [Cma] (areas, their activation, the
      bitmap of their pages), [CmaInv] (calls of [cma_alloc] and [cma_release] that
      interleave where they do not hold the lock) with [CmaProps] (every set
      bit belongs to one call or one holder of pages), [CmaDeclare] (which memory
      memblock gives to an area, and its activation), [CmaRun] (concrete areas).
    - Conversions of time, [src/new/kernel/time/time.c] with [jiffies.h] and [time64.h]:
      [TimeConv] (dates, seconds with nanoseconds, ticks, and what [settimeofday] does),
      [TimeProps] (exact nanoseconds, the calendar, exact ticks, comparisons of counters
      that wrap, sequences of calls that set the time).
    - Clock sources, [src/new/kernel/time/clocksource.c]: [Clocksource] (the list of
      counters, the choices among them, the watchdog, the conversion factors),
      [ClocksourceInv] (the invariant, kept by each operation), [ClocksourceProps]
      (sequences of operations, the best choice), [ClocksourceScale] (the factors),
      [ClocksourceRun] (a machine with three counters).

    [Runs] turns a sequence of actions of a transition system into a reachable state;
    the concrete runs of the pools and areas use it.

    memblock allocates the arrays it grows into from itself; bootmem hands its
    pages to the page allocator through the list of freed blocks that
    [free_all_bootmem_core] produces.  A memory pool has a wait queue, with the
    operations of [WaitQueue] and the wakeup theorem of [WaitQueueProps]; pools and
    radix trees take their objects from a slab cache, an interface ([KmemCache] with
    [KmemSpec], [Backend] with [BackendSpec]) against which they are proved, and DMA
    pools their pages from [Coherent] with [CoherentSpec].  Contiguous areas are cut
    out of memblock: their theorem is proved from those about its searches and
    reservations; the bitmap library and the part of the page allocator that empties a
    range are the interfaces [BitmapOps] with [BitmapSpec] and [Contig] with
    [ContigSpec].  Clock sources use the constants of the time
    conversions and call timekeeping and the counters through [ClockMath] with
    [ClockMathSpec] and [ClockHw]; [settimeofday] calls [Timekeeper].  The other parts
    do not call each other.

    ** Conventions

    A machine integer is a [Z]; wherever the arithmetic of the code can leave its
    type the model writes [u64], [u32], [s32] or [s64].  A pointer into a
    structure is an address in an explicit heap or store; an array or a list that
    is only reached through its owner is a list.  Locks are held for whole
    operations, which are functions from state to state; sequences of operations
    are explicit ([BootmemLive], [PerCpuProps], [Timecounter], [TimeProps],
    [ClocksourceProps], where the timer of the watchdog runs between operations), and where the code
    drops a lock in the middle or reads without it, all interleavings are
    ([WaitEvent], [MempoolSteps], [DmaPoolSteps] and [CmaInv], with sequentially
    consistent memory; for pools a call of [wake_up] is one step).  Fallible code
    returns [outcome]: [Bug] for [BUG_ON], [VM_BUG_ON] and accesses outside of a
    buffer, [Panic] for [panic]; error numbers are values.  What the code takes
    from headers outside of the tree (character classes, [lowmem] limits,
    [ALIGN], the zone bits of a page, the isolation predicates, [pfn_valid], the
    layout constants of radix trees, the slab and resizing backends, hardware
    counters) are fields of type classes or
    arguments; what is relied on is a field of the matching [...Spec] class, with
    instances under which every theorem is run on concrete data.

    ** Fuel

    Loops that are not structural take fuel, and [NoFuel] is the one result that
    stands for nothing in the code; the theorems about such operations state
    that they return, under the conditions they name.  (Two theorems are about the
    calls that return: those on [memblock_setclr_flag] and [memblock_set_node],
    which resize the array in the same way as [memblock_remove_range].)  The bounds: one unit per region or pair of regions for the
    memblock loops (each turn advances an index), 64 rounds of doubling an array (two
    are enough for the array of memory) with doublings nested four deep (one is enough
    when the reserved array has room for what it has to hold), the number of resources for
    walks of the tree, pages per node for the bitmap loops, the number of blocks
    for a chain, twice the number of orders for merging (each turn raises one of
    two bounds), one unit per page for moving a range, one unit per free
    block and two more for the retries of [__rmqueue] (each moves a block to the list
    of the type; outside of [ALLOC_NOFRAGMENT] one retry is enough), one unit per page of
    a drain (each turn takes one) and per page of the zone for the checks of new
    pages (each page that fails is lost), one unit per byte for a dump, one per
    entry on a wait queue for a walk and for its sections, [turns] = 66 for walks up
    or down a radix tree (more than the levels 64 bits of index can give), one per
    restart for the search of [radix_tree_next_chunk] (each is at a larger index),
    one per element for the loops of a memory pool, one per byte of a page for the
    loops over blocks of a DMA pool, one per bit for the retries of [cma_alloc] (each
    starts further up), one per page for the activation of an area, one per second for
    [set_normalized_timespec64] (each turn moves one second), 33 for the bits of a
    32-bit number in [clocks_calc_mult_shift].

    ** What the theorems show

    - Functional behaviour on every branch: each operation of memblock, bootmem,
      the resource tree and the notifier chains changes exactly what it should
      and keeps the invariant of its structure, or fails with the documented
      error and changes nothing.
    - Completeness of searches: memblock, bootmem, the resource tree and the page
      allocator answer "none" only if nothing fits.
    - Liveness: a zone that passes the watermark check serves the request, unless
      the flags let the check count pages that the request must not use.
    - Safety over sequences: blocks of bootmem and of the page allocator that are
      in use never overlap; pages are neither lost nor handed out twice, also
      while CPUs cache them, and a drain returns all of them.
    - Safety over interleavings: no task sleeps in [wait_event] after its condition
      was set and the wakers are done, and a wait queue never holds an entry or a
      bookmark of a stack that is gone; elements of a memory pool are never handed
      out twice and no section leaves the array, as long as one task resizes; blocks of a DMA pool are apart, aligned, within
      their boundary and within memory, whatever drivers write to them; pages of
      a contiguous area are apart and aligned, however often a call has to go
      back, and a call ends.
    - Refinement: a radix tree serves any sequence of requests as a map with three
      sets of tagged indices; its nodes stay well-typed and none is leaked.
    - Guarantees: a preloaded insertion into a radix tree cannot run out of memory;
      a task that sleeps for an element of a pool sleeps only while the whole
      reserve is in use.
    - Canonical form: the free lists of the page allocator are determined by the
      set of free pages, so that freeing an allocated block restores them.
    - Round trips, equivalence of the iterators with a nested enumeration, of a
      walk that is broken off and resumed with one in one go, of the time counter and
      of conversions to ticks with exact arithmetic, of [mktime64] with a calendar that
      counts, buffer bounds of the dumps.
    - Clock sources: no pointer is left to a counter that is gone, the best counter is
      used and an unstable one given up, and conversion factors neither overflow nor
      waste precision.
    - Where the code does something else than it means to, an [Example] or lemma
      shows it on concrete data: [memblock_trim_memory_total_stale], [arrays_overlap],
      [full_reserved_array_bug],
      [alloc_after_free_overlaps], [alloc_low_node_ignores_limit],
      [free_all_unaligned_leaks], [cyc2time_underflow],
      [nofragment_steals_for_nothing], [nofragment_retries_per_block],
      [watermark_fast_wraps], [oom_mark_not_served],
      [failed_insert_keeps_nodes], [resize_race_overflows],
      [large_boundary_overruns], [boundary_wastes_blocks], [far_vaddr_not_refused],
      [declare_failure_keeps_reservation], [small_limit_is_no_limit],
      [failed_activation_null_bitmap], [mktime64_wraps], [usecs_limit_truncated],
      [failed_call_sets_zone], [mult_without_its_shift], [unstable_watchdog_stays].

    ** Not modelled

    Messages and debug output; kmemleak, tracing and statistics that nothing
    reads; the [/proc] and [debugfs] files; device-managed wrappers.  Of the page
    allocator: zone lists, slow path and reclaim, compound and guard pages, memory
    cgroups and zone setup.  Of the wait queues: the variants of [wait_event] with
    timeouts or locks of the caller, and what of [try_to_wake_up] is beyond the
    state of the task.  Of the radix tree: [idr_get_free] and what else serves trees
    with the IDR flag, the gang lookups (their loops are macros of a header that the
    tree does not have) and readers that run during an update.  Of the memory pools:
    poisoning, and the allocators over [kmalloc] and pages.  Of the DMA pools: the
    device-managed wrappers.  Of the contiguous areas: names and [cma_for_each_area].
    Of the time conversions: the other system calls and the copies from and to user
    space.  Of the clock sources: the variant without a watchdog, and the files that
    show names.
    Scheduling, file systems, virtual memory, interrupts,
    drivers and architecture code need hardware, concurrency or headers that the
    tree does not have.  [src/bak] repeats the same subsystems in older versions.
    Next in line: [kernel/time/timekeeping.c], [mm/percpu.c], [lib/extable.c]. *)

From Stdlib Require Export ZArith Lia.
From stdpp Require Export base list numbers option.

#[global] Set Default Goal Selector "!".
#[export] Set Default Goal Selector "!".
#[global] Open Scope Z_scope.

(** ** Machine integers

    A w-bit value is a [Z]; every place where the C arithmetic can leave the
    range of its type writes the wrap-around out with one of these. *)
Definition u64 (z : Z) : Z := z mod 2 ^ 64.
Definition u32 (z : Z) : Z := z mod 2 ^ 32.
Definition s64 (z : Z) : Z := (z + 2 ^ 63) mod 2 ^ 64 - 2 ^ 63.
Definition s32 (z : Z) : Z := (z + 2 ^ 31) mod 2 ^ 32 - 2 ^ 31.

Definition U64_MAX : Z := 2 ^ 64 - 1.

Definition is_u64 (z : Z) : Prop := 0 <= z < 2 ^ 64.

(** ** Results of operations that can stop the machine

    [Bug] is a [BUG_ON] whose condition held, [Panic] a call of [panic], and
    [NoFuel] the one value that stands for nothing in the code: the bound on a
    loop or a recursion of the model was too small.  The totality theorems show
    that it is not reached. *)
Inductive outcome (A : Type) : Type :=
| Done (a : A)
| Bug
| Panic
| NoFuel.
Arguments Done {A} _.
Arguments Bug {A}.
Arguments Panic {A}.
Arguments NoFuel {A}.

#[export] Instance outcome_ret : MRet outcome := fun A a => Done a.
#[export] Instance outcome_bind : MBind outcome := fun A B k m =>
  match m with
  | Done a => k a
  | Bug => Bug
  | Panic => Panic
  | NoFuel => NoFuel
  end.

(** [BUG_ON (c)]. *)
Definition BUG_ON (c : bool) : outcome unit := if c then Bug else Done tt.

(** An assignment to one place. *)
Definition upd {A} (f : Z -> A) (k : Z) (v : A) : Z -> A := fun x => if x =? k then v else f x.

(** A C truth value. *)
Definition bool_of (z : Z) : bool := negb (z =? 0).

Lemma bool_of_true z : z <> 0 -> bool_of z = true.
Proof. intros Hz. unfold bool_of. by destruct (Z.eqb_spec z 0). Qed.

(** ** Rounding macros of [include/linux/kernel.h], at 64 bits *)
Definition __round_mask (y : Z) : Z := u64 (y - 1).
Definition round_up (x y : Z) : Z := u64 (Z.lor (u64 (x - 1)) (__round_mask y) + 1).
Definition round_down (x y : Z) : Z := Z.land x (u64 (Z.lnot (__round_mask y))).
Definition clamp (val lo hi : Z) : Z := Z.min (Z.max val lo) hi.

(** * Lemmas *)

Create HintDb kernel.

Lemma upd_same {A} (f : Z -> A) k v : upd f k v k = v.
Proof. unfold upd. by rewrite Z.eqb_refl. Qed.
Lemma upd_other {A} (f : Z -> A) k v x : x <> k -> upd f k v x = f x.
Proof. intros Hne. unfold upd. by destruct (Z.eqb_spec x k). Qed.

Lemma u64_small z : is_u64 z -> u64 z = z.
Proof. unfold is_u64, u64. intros. apply Z.mod_small. lia. Qed.

Lemma u64_range z : is_u64 (u64 z).
Proof. apply Z.mod_pos_bound. lia. Qed.

Lemma u32_small z : 0 <= z < 2 ^ 32 -> u32 z = z.
Proof. apply Z.mod_small. Qed.

Lemma s32_small z : - 2 ^ 31 <= z < 2 ^ 31 -> s32 z = z.
Proof. intros. unfold s32. rewrite Z.mod_small; lia. Qed.

Lemma s64_small z : - 2 ^ 63 <= z < 2 ^ 63 -> s64 z = z.
Proof. intros. unfold s64. rewrite Z.mod_small; lia. Qed.

#[export] Hint Resolve u64_range : kernel.

Lemma u64_add_idemp_l a b : u64 (u64 a + b) = u64 (a + b).
Proof. unfold u64. apply Zplus_mod_idemp_l. Qed.

Lemma u64_add_idemp_r a b : u64 (a + u64 b) = u64 (a + b).
Proof. unfold u64. apply Zplus_mod_idemp_r. Qed.

Lemma u64_sub_idemp_l a b : u64 (u64 a - b) = u64 (a - b).
Proof. unfold u64. apply Zminus_mod_idemp_l. Qed.

(** *** The monad *)
Lemma bind_Done {A B} (m : outcome A) (k : A -> outcome B) b :
  m ≫= k = Done b <-> exists a, m = Done a /\ k a = Done b.
Proof.
  split; [|by intros (a & -> & H)].
  destruct m as [a| | |]; simpl; intros H; try discriminate. by exists a.
Qed.

Lemma BUG_ON_Done c : BUG_ON c = Done tt <-> c = false.
Proof. by destruct c. Qed.

Lemma Done_pair {A B} (a c : A) (b d : B) : a = c -> b = d -> Done (a, b) = Done (c, d).
Proof. by intros -> ->. Qed.

(** Turns a hypothesis that a sequence of binds returned into one hypothesis
    per step. *)
Ltac mdestruct H :=
  repeat match type of H with
  | (_ ≫= _) = Done _ =>
      let a := fresh "r" in let H1 := fresh H in
      apply bind_Done in H as (a & H1 & H); try (destruct a as [? ?]);
      try mdestruct H1
  | BUG_ON _ = Done _ => apply BUG_ON_Done in H
  | Done _ = Done _ => injection H as H; subst
  | mret _ = Done _ => injection H as H; subst
  end.

(** Reads the boolean comparisons of the code as propositions. *)
Ltac zb :=
  repeat match goal with
  | H : (_ && _)%bool = true |- _ => apply andb_prop in H as [? ?]
  | H : (_ || _)%bool = false |- _ => apply orb_false_elim in H as [? ?]
  | H : negb _ = true |- _ => apply negb_true_iff in H
  | H : negb _ = false |- _ => apply negb_false_iff in H
  | H : (_ =? _) = true |- _ => apply Z.eqb_eq in H
  | H : (_ =? _) = false |- _ => apply Z.eqb_neq in H
  | H : (_ <? _) = true |- _ => apply Z.ltb_lt in H
  | H : (_ <? _) = false |- _ => apply Z.ltb_ge in H
  | H : (_ <=? _) = true |- _ => apply Z.leb_le in H
  | H : (_ <=? _) = false |- _ => apply Z.leb_gt in H
  | H : (_ >? _) = true |- _ => rewrite Z.gtb_ltb in H
  | H : (_ >? _) = false |- _ => rewrite Z.gtb_ltb in H
  | H : (_ >=? _) = true |- _ => rewrite Z.geb_leb in H
  | H : (_ >=? _) = false |- _ => rewrite Z.geb_leb in H
  end.

(** Case split on the first comparison in the goal. *)
Ltac zcase :=
  match goal with
  | |- context [if ?x <? ?y then _ else _] => destruct (x <? y) eqn:?; zb
  | |- context [if ?x <=? ?y then _ else _] => destruct (x <=? y) eqn:?; zb
  | |- context [if ?x >? ?y then _ else _] => destruct (x >? y) eqn:?; zb
  | |- context [if ?x >=? ?y then _ else _] => destruct (x >=? y) eqn:?; zb
  | |- context [if ?x =? ?y then _ else _] => destruct (x =? y) eqn:?; zb
  end.

(** *** Rounding *)
Lemma round_mask_ones k : 0 <= k < 64 -> __round_mask (2 ^ k) = Z.ones k.
Proof.
  intros. unfold __round_mask. rewrite Z.ones_equiv, <- Z.sub_1_r.
  apply u64_small. unfold is_u64.
  assert (0 < 2 ^ k) by (apply Z.pow_pos_nonneg; lia).
  assert (2 ^ k < 2 ^ 64) by (apply Z.pow_lt_mono_r; lia). lia.
Qed.

Lemma land_lnot_ones_64 x k :
  is_u64 x -> 0 <= k < 64 ->
  Z.land x (u64 (Z.lnot (Z.ones k))) = x - x mod 2 ^ k.
Proof.
  intros Hx Hk.
  assert (Hld : Z.ldiff x (Z.ones k) = x - x mod 2 ^ k).
  { rewrite Z.ldiff_ones_r by lia. rewrite Z.shiftl_mul_pow2, Z.shiftr_div_pow2 by lia.
    pose proof (Z.div_mod x (2 ^ k)). lia. }
  rewrite <- Hld. unfold u64. rewrite <- Z.land_ones by lia.
  apply Z.bits_inj'. intros n Hn.
  rewrite !Z.land_spec, Z.ldiff_spec, Z.lnot_spec by lia.
  destruct (Z.ltb_spec n 64).
  - rewrite (Z.ones_spec_low 64) by lia. by rewrite andb_true_r.
  - rewrite (Z.bits_above_log2 x n); [done| destruct Hx; lia|].
    destruct (Z.eq_dec x 0) as [->|]; [simpl; lia|].
    apply Z.log2_lt_pow2; unfold is_u64 in Hx; [lia|].
    apply Z.lt_le_trans with (2 ^ 64); [lia|]. apply Z.pow_le_mono_r; lia.
Qed.

Lemma round_down_pow2 x k :
  is_u64 x -> 0 <= k < 64 -> round_down x (2 ^ k) = x - x mod 2 ^ k.
Proof.
  intros. unfold round_down. rewrite round_mask_ones by lia.
  by apply land_lnot_ones_64.
Qed.

Lemma lor_ones x k : 0 <= k -> Z.lor x (Z.ones k) = x - x mod 2 ^ k + Z.ones k.
Proof.
  intros Hk.
  assert (Hld : Z.ldiff x (Z.ones k) = x - x mod 2 ^ k).
  { rewrite Z.ldiff_ones_r by lia. rewrite Z.shiftl_mul_pow2, Z.shiftr_div_pow2 by lia.
    pose proof (Z.div_mod x (2 ^ k)). lia. }
  rewrite <- Hld, Z.add_nocarry_lxor.
  - apply Z.bits_inj'. intros n Hn.
    rewrite Z.lor_spec, Z.lxor_spec, Z.ldiff_spec.
    by destruct (Z.testbit x n), (Z.testbit (Z.ones k) n).
  - apply Z.bits_inj'. intros n Hn.
    rewrite Z.land_spec, Z.ldiff_spec, Z.bits_0.
    by destruct (Z.testbit x n), (Z.testbit (Z.ones k) n).
Qed.

(** [round_up] by a power of two is the least multiple that is not below [x],
    reduced modulo 2^64. *)
Lemma round_up_pow2 x k :
  is_u64 x -> 0 <= k < 64 ->
  round_up x (2 ^ k) = u64 (2 ^ k * ((x + 2 ^ k - 1) / 2 ^ k)).
Proof.
  intros Hx Hk. unfold round_up. rewrite round_mask_ones by lia.
  assert (Hp : 0 < 2 ^ k) by (apply Z.pow_pos_nonneg; lia).
  rewrite lor_ones, Z.ones_equiv by lia.
  unfold is_u64 in Hx.
  assert (Hc : x = 0 \/ 0 < x) by lia. destruct Hc as [->|Hc].
  - replace (0 + 2 ^ k - 1) with (2 ^ k - 1) by lia.
    rewrite (Z.div_small (2 ^ k - 1)) by lia.
    assert (H64 : 2 ^ 64 = 2 ^ k * 2 ^ (64 - k)) by (rewrite <- Z.pow_add_r; f_equal; lia).
    replace (u64 (0 - 1)) with (2 ^ 64 - 1) by reflexivity.
    replace ((2 ^ 64 - 1) mod 2 ^ k) with (2 ^ k - 1).
    + unfold u64. replace (2 ^ 64 - 1 - (2 ^ k - 1) + Z.pred (2 ^ k) + 1) with (2 ^ 64) by lia.
      rewrite Z.mul_0_r. reflexivity.
    + apply Z.mod_unique with (2 ^ (64 - k) - 1); [lia|]. rewrite H64. lia.
  - rewrite (u64_small (x - 1)) by (unfold is_u64; lia). f_equal.
    replace (x + 2 ^ k - 1) with ((x - 1) + 1 * 2 ^ k) by lia.
    rewrite Z.div_add by lia. pose proof (Z.div_mod (x - 1) (2 ^ k)). lia.
Qed.

(** The test for a power of two. *)
Lemma pow2_of_land x : 0 < x -> Z.land x (x - 1) = 0 -> exists k, 0 <= k /\ x = 2 ^ k.
Proof.
  intros Hx Hl. exists (Z.log2 x). split; [apply Z.log2_nonneg|]. pose proof (Z.log2_spec x Hx) as [Hlo Hhi].
  destruct (Z.eq_dec x (2 ^ Z.log2 x)) as [|Hne]; [done|]. exfalso.
  assert (Hb : Z.testbit (Z.land x (x - 1)) (Z.log2 x) = true); [|by rewrite Hl, Z.bits_0 in Hb].
  rewrite Z.land_spec, Z.bit_log2 by done. cbn [andb]. assert (0 < 2 ^ Z.log2 x) by (apply Z.pow_pos_nonneg; [lia|apply Z.log2_nonneg]).
  rewrite <- (Z.log2_unique (x - 1) (Z.log2 x)) at 1; [apply Z.bit_log2; lia|apply Z.log2_nonneg|lia].
Qed.

Lemma land_shiftl_low a b k : 0 <= k -> 0 <= a < 2 ^ k -> Z.land a (Z.shiftl b k) = 0.
Proof.
  intros Hk Ha. apply Z.bits_inj'. intros n Hn. rewrite Z.land_spec, Z.bits_0.
  destruct (Z.ltb_spec n k).
  - rewrite Z.shiftl_spec_low by done. apply andb_false_r.
  - destruct (Z.eq_dec a 0) as [->|]; [by rewrite Z.bits_0|].
    rewrite (Z.bits_above_log2 a); [done|lia|].
    apply Z.log2_lt_pow2; [lia|]. apply Z.lt_le_trans with (2 ^ k); [lia|].
    apply Z.pow_le_mono_r; lia.
Qed.

(** *** Half-open intervals *)
Definition in_range (base end_ a : Z) : bool := (base <=? a) && (a <? end_).

Lemma in_range_true base end_ a : in_range base end_ a = true <-> base <= a < end_.
Proof. unfold in_range. rewrite andb_true_iff, Z.leb_le, Z.ltb_lt. lia. Qed.

Lemma in_range_false base end_ a : in_range base end_ a = false <-> a < base \/ end_ <= a.
Proof. unfold in_range. rewrite andb_false_iff, Z.leb_gt, Z.ltb_ge. lia. Qed.

(** *** Lists *)
Lemma lookup_middle {A} (l1 l2 : list A) x n :
  n = length l1 -> (l1 ++ x :: l2) !! n = Some x.
Proof. intros ->. by apply list_lookup_middle. Qed.

Lemma last_cons {A} (l : list A) a b : List.last (a :: l) b = List.last l a.
Proof.
  revert a b. induction l as [|x l IH]; intros a b; [done|].
  change (List.last (x :: l) b = List.last (x :: l) a). by rewrite !IH.
Qed.

Lemma take_drop_split {A} (l1 l2 : list A) n :
  n = length l1 -> take n (l1 ++ l2) = l1 /\ drop n (l1 ++ l2) = l2.
Proof. intros ->. by rewrite take_app_length, drop_app_length. Qed.

Lemma insert_split {A} (l1 l2 : list A) x y n :
  n = length l1 -> <[n := y]> (l1 ++ x :: l2) = l1 ++ y :: l2.
Proof. intros ->. rewrite insert_app_r_alt by lia. by rewrite Nat.sub_diag. Qed.

Lemma lookup_split {A} (l : list A) n x :
  l !! n = Some x -> exists l1 l2, l = l1 ++ x :: l2 /\ n = length l1.
Proof.
  intros H. exists (take n l), (drop (S n) l).
  split; [by rewrite take_drop_middle|].
  apply lookup_lt_Some in H. rewrite length_take. lia.
Qed.

Lemma filter_ne_id (p : Z) (l : list Z) : p ∉ l -> filter (fun q => q <> p) l = l.
Proof.
  induction l as [|x l IH]; intros Hp; [done|]. rewrite not_elem_of_cons in Hp. destruct Hp.
  rewrite filter_cons_True by done. by rewrite IH.
Qed.
