(* ===== verification/MemblockDefs.v ===== *)
(** * memblock: data model and operations

    The boot-time allocator of [src/new/mm/memblock.c] and the inline helpers of
    [src/new/include/linux/memblock.h].  The module-level variables
    ([memblock], [memblock_can_resize], [memblock_memory_in_slab], ...) are the
    record [memblock]; an operation takes it and returns the new one.
    [phys_addr_t] is 64 bits wide (the arm64 target of the tree) and
    CONFIG_HAVE_MEMBLOCK_NODE_MAP and CONFIG_NO_BOOTMEM are set, as there.
    [pr_*], [memblock_dbg], [WARN_ON] and kmemleak only log and are left out. *)

From S2P Require Import Prelude.

(** What the allocator takes from the architecture, from the linker script and
    from the slab allocator. *)
Class Arch := {
  PAGE_SIZE : Z;
  SMP_CACHE_BYTES : Z;
  MAX_NUMNODES : Z;
  sizeof_memblock_region : Z;
  (** [__pa_symbol(_end)] *)
  kernel_end_pa : Z;
  movable_node_is_enabled : bool;
  slab_is_available : bool;
  (** physical address of a [kmalloc]ed block, 0 when it fails *)
  kmalloc_pa : Z -> Z;
  kzalloc_node : Z -> Z -> Z;
  phys_to_virt : Z -> Z;
  PAGE_ALIGN : Z -> Z;
  PFN_UP : Z -> Z;
  PFN_DOWN : Z -> Z;
  PFN_PHYS : Z -> Z;
}.

Definition ENOMEM : Z := 12.
Definition NUMA_NO_NODE : Z := -1.
Definition ULLONG_MAX : Z := 2 ^ 64 - 1.
Definition PHYS_ADDR_MAX : Z := 2 ^ 64 - 1.
Definition MEMBLOCK_ALLOC_ANYWHERE : Z := 2 ^ 64 - 1.
Definition MEMBLOCK_ALLOC_ACCESSIBLE : Z := 0.
Definition INIT_MEMBLOCK_REGIONS : Z := 128.

(** ** [enum memblock_flags] *)
Definition MEMBLOCK_NONE : Z := 0.
Definition MEMBLOCK_HOTPLUG : Z := 1.
Definition MEMBLOCK_MIRROR : Z := 2.
Definition MEMBLOCK_NOMAP : Z := 4.

Record memblock_region := mk_region {
  r_base : Z;
  r_size : Z;
  r_flags : Z;
  r_nid : Z;
}.

(** Where a [regions] array lives: the static array of the type, or memory at a
    physical address that came from memblock itself or from the slab. *)
Inductive regions_array := InitRegions | RegionsAt (pa : Z).

(** [struct memblock_type].  The list holds the [cnt] live slots of the array;
    no operation reads a slot past [cnt]. *)
Record memblock_type := mk_type {
  mt_max : Z;
  total_size : Z;
  regions : list memblock_region;
  mt_array : regions_array;
}.

Definition cnt (t : memblock_type) : Z := Z.of_nat (length (regions t)).

Record memblock := mk_memblock {
  bottom_up : bool;
  current_limit : Z;
  memory : memblock_type;
  reserved : memblock_type;
  memblock_can_resize : bool;
  memblock_memory_in_slab : bool;
  memblock_reserved_in_slab : bool;
  system_has_some_mirror : bool;
}.

(** A [struct memblock_type *] argument is one of [&memblock.memory] and
    [&memblock.reserved]. *)
Inductive mtype := MEMORY | RESERVED.

Definition get_type (w : mtype) (m : memblock) : memblock_type :=
  match w with MEMORY => memory m | RESERVED => reserved m end.

Definition set_memory (t : memblock_type) (m : memblock) : memblock :=
  mk_memblock (bottom_up m) (current_limit m) t (reserved m) (memblock_can_resize m)
    (memblock_memory_in_slab m) (memblock_reserved_in_slab m) (system_has_some_mirror m).

Definition set_reserved (t : memblock_type) (m : memblock) : memblock :=
  mk_memblock (bottom_up m) (current_limit m) (memory m) t (memblock_can_resize m)
    (memblock_memory_in_slab m) (memblock_reserved_in_slab m) (system_has_some_mirror m).

Definition set_type (w : mtype) (t : memblock_type) (m : memblock) : memblock :=
  match w with MEMORY => set_memory t m | RESERVED => set_reserved t m end.

Definition set_regions (rs : list memblock_region) (t : memblock_type) : memblock_type :=
  mk_type (mt_max t) (total_size t) rs (mt_array t).

Definition set_total (z : Z) (t : memblock_type) : memblock_type :=
  mk_type (mt_max t) z (regions t) (mt_array t).

(** A zeroed slot, as in the static arrays. *)
Definition zero_region : memblock_region := mk_region 0 0 0 0.

(** [type->regions[i]]. *)
Definition region_at (t : memblock_type) (i : nat) : memblock_region :=
  default zero_region (regions t !! i).

(** [struct memblock memblock = { ... }]: one empty dummy entry per type. *)
Definition init_type : memblock_type :=
  mk_type INIT_MEMBLOCK_REGIONS 0 [zero_region] InitRegions.

Definition memblock_init : memblock :=
  mk_memblock false MEMBLOCK_ALLOC_ANYWHERE init_type init_type false false false false.

(** ** Inline helpers *)
Definition memblock_is_hotpluggable (r : memblock_region) : bool :=
  bool_of (Z.land (r_flags r) MEMBLOCK_HOTPLUG).
Definition memblock_is_mirror (r : memblock_region) : bool :=
  bool_of (Z.land (r_flags r) MEMBLOCK_MIRROR).
Definition memblock_is_nomap (r : memblock_region) : bool :=
  bool_of (Z.land (r_flags r) MEMBLOCK_NOMAP).
Definition memblock_set_region_flags (flags : Z) (r : memblock_region) : memblock_region :=
  mk_region (r_base r) (r_size r) (Z.lor (r_flags r) flags) (r_nid r).
Definition memblock_clear_region_flags (flags : Z) (r : memblock_region) : memblock_region :=
  mk_region (r_base r) (r_size r) (Z.land (r_flags r) (Z.lnot flags)) (r_nid r).
Definition memblock_set_region_node (nid : Z) (r : memblock_region) : memblock_region :=
  mk_region (r_base r) (r_size r) (r_flags r) nid.
Definition memblock_get_region_node (r : memblock_region) : Z := r_nid r.

Definition choose_memblock_flags (m : memblock) : Z :=
  if system_has_some_mirror m then MEMBLOCK_MIRROR else MEMBLOCK_NONE.

(** [base + size] of a region, at 64 bits. *)
Definition r_end (r : memblock_region) : Z := u64 (r_base r + r_size r).

(** Adjusts [size] so that [base + size] does not overflow. *)
Definition memblock_cap_size (base size : Z) : Z := Z.min size (u64 (PHYS_ADDR_MAX - base)).

Definition memblock_addrs_overlap (base1 size1 base2 size2 : Z) : bool :=
  (base1 <? u64 (base2 + size2)) && (base2 <? u64 (base1 + size1)).

(** The search stops at the first region that overlaps; the function returns
    whether there is one. *)
Definition memblock_overlaps_region (t : memblock_type) (base size : Z) : bool :=
  existsb (fun r => memblock_addrs_overlap base size (r_base r) (r_size r)) (regions t).

(** ** Region array operations *)
Section Regions.
Context `{Arch}.

Definition memblock_remove_region (t : memblock_type) (r : nat) : memblock_type :=
  let t1 := set_total (u64 (total_size t - r_size (region_at t r))) t in
  let t2 := set_regions (take r (regions t) ++ drop (S r) (regions t)) t1 in
  if cnt t2 =? 0 then set_regions [mk_region 0 0 0 MAX_NUMNODES] t2 else t2.

Definition memblock_insert_region (t : memblock_type) (idx : nat)
    (base size nid flags : Z) : outcome memblock_type :=
  _ ← BUG_ON (cnt t >=? mt_max t);
  Done (set_total (u64 (total_size t + size))
         (set_regions (take idx (regions t) ++ mk_region base size flags nid
                       :: drop idx (regions t)) t)).

(** The loop of [memblock_merge_regions]; a round either advances [i] or
    removes a region, so [cnt] rounds are enough. *)
Fixpoint merge_loop (fuel : nat) (i : nat) (t : memblock_type) : outcome memblock_type :=
  match fuel with
  | O => NoFuel
  | S fuel' =>
      match regions t !! i, regions t !! S i with
      | Some this, Some next =>
          if negb (u64 (r_base this + r_size this) =? r_base next)
             || negb (memblock_get_region_node this =? memblock_get_region_node next)
             || negb (r_flags this =? r_flags next)
          then
            _ ← BUG_ON (u64 (r_base this + r_size this) >? r_base next);
            merge_loop fuel' (S i) t
          else
            let this' := mk_region (r_base this) (u64 (r_size this + r_size next))
                           (r_flags this) (r_nid this) in
            merge_loop fuel' i
              (set_regions (take i (regions t) ++ this' :: drop (S (S i)) (regions t)) t)
      | _, _ => Done t
      end
  end.

Definition memblock_merge_regions (t : memblock_type) : outcome memblock_type :=
  merge_loop (S (length (regions t))) 0 t.

(** The [for_each_memblock_type] loop of [memblock_add_range], run with
    [insert] false to count and then true to insert.  Returns the loop
    variables [idx], [base] and [nr_new] and the type. *)
Fixpoint add_loop (fuel : nat) (insert : bool) (end_ nid flags : Z)
    (idx : nat) (base nr_new : Z) (t : memblock_type)
    : outcome (nat * Z * Z * memblock_type) :=
  match fuel with
  | O => NoFuel
  | S fuel' =>
      match regions t !! idx with
      | None => Done (idx, base, nr_new, t)
      | Some rgn =>
          let rbase := r_base rgn in
          let rend := u64 (rbase + r_size rgn) in
          if rbase >=? end_ then Done (idx, base, nr_new, t)
          else if rend <=? base then
            add_loop fuel' insert end_ nid flags (S idx) base nr_new t
          else if rbase >? base then
            if insert then
              t' ← memblock_insert_region t idx base (u64 (rbase - base)) nid flags;
              add_loop fuel' insert end_ nid flags (S (S idx)) (Z.min rend end_) (nr_new + 1) t'
            else
              add_loop fuel' insert end_ nid flags (S idx) (Z.min rend end_) (nr_new + 1) t
          else add_loop fuel' insert end_ nid flags (S idx) (Z.min rend end_) nr_new t
      end
  end.

(** One round from [repeat:]: the loop and the remaining portion. *)
Definition add_pass (insert : bool) (end_ nid flags obase : Z) (t : memblock_type)
    : outcome (Z * memblock_type) :=
  r ← add_loop (S (length (regions t))) insert end_ nid flags 0 obase 0 t;
  let '(idx, base, nr_new, t1) := r in
  if base <? end_ then
    if insert then
      t2 ← memblock_insert_region t1 idx base (u64 (end_ - base)) nid flags;
      Done (nr_new + 1, t2)
    else Done (nr_new + 1, t1)
  else Done (nr_new, t1).

(** The loop of [memblock_isolate_range].  In the second split the code does
    [idx--] and the loop [idx++]: the next round looks at [idx] again. *)
Fixpoint isolate_loop (fuel : nat) (base end_ : Z) (idx start_rgn end_rgn : nat)
    (t : memblock_type) : outcome (nat * nat * memblock_type) :=
  match fuel with
  | O => NoFuel
  | S fuel' =>
      match regions t !! idx with
      | None => Done (start_rgn, end_rgn, t)
      | Some rgn =>
          let rbase := r_base rgn in
          let rend := u64 (rbase + r_size rgn) in
          if rbase >=? end_ then Done (start_rgn, end_rgn, t)
          else if rend <=? base then
            isolate_loop fuel' base end_ (S idx) start_rgn end_rgn t
          else if rbase <? base then
            let rgn' := mk_region base (u64 (r_size rgn - (base - rbase))) (r_flags rgn) (r_nid rgn) in
            let t1 := set_total (u64 (total_size t - (base - rbase)))
                        (set_regions (<[idx := rgn']> (regions t)) t) in
            t2 ← memblock_insert_region t1 idx rbase (u64 (base - rbase))
                   (memblock_get_region_node rgn') (r_flags rgn');
            isolate_loop fuel' base end_ (S idx) start_rgn end_rgn t2
          else if rend >? end_ then
            let rgn' := mk_region end_ (u64 (r_size rgn - (end_ - rbase))) (r_flags rgn) (r_nid rgn) in
            let t1 := set_total (u64 (total_size t - (end_ - rbase)))
                        (set_regions (<[idx := rgn']> (regions t)) t) in
            t2 ← memblock_insert_region t1 idx rbase (u64 (end_ - rbase))
                   (memblock_get_region_node rgn') (r_flags rgn');
            isolate_loop fuel' base end_ idx start_rgn end_rgn t2
          else
            let start' := if (end_rgn =? 0)%nat then idx else start_rgn in
            isolate_loop fuel' base end_ (S idx) start' (S idx) t
      end
  end.

(** [for (i = end_rgn - 1; i >= start_rgn; i--) memblock_remove_region(type, i)],
    with [n] rounds left. *)
Fixpoint remove_loop (n start_rgn : nat) (t : memblock_type) : memblock_type :=
  match n with
  | O => t
  | S n' => remove_loop n' start_rgn (memblock_remove_region t (start_rgn + n'))
  end.

(** [for (i = start_rgn; i < end_rgn; i++) f(&type->regions[i])], with [n]
    rounds left. *)
Fixpoint update_loop (f : memblock_region -> memblock_region) (n i : nat)
    (t : memblock_type) : memblock_type :=
  match n with
  | O => t
  | S n' => update_loop f n' (S i) (set_regions (alter f i (regions t)) t)
  end.

End Regions.
