(* ===== verification/MemblockOps.v ===== *)
(** * memblock: iteration, search, allocation

    The rest of [src/new/mm/memblock.c]: the lock-step iterators
    [__next_mem_range] and [__next_mem_range_rev], the searches on top of them,
    the operations that may have to double a region array, and the allocation
    interface.  Doubling an array reserves the new one and frees the old one, so
    [memblock_double_array], [memblock_add_range] and [memblock_isolate_range]
    are mutually recursive; the operations are written over the function that
    doubles and the recursion is closed with a depth bound. *)

From S2P Require Import Prelude MemblockDefs.

Section Ops.
Context `{Arch}.

(** ** Iterators *)

(** The tests that make an iterator skip a region of [type_a]. *)
Definition should_skip_region (nid flags : Z) (m : memblock_region) : bool :=
  (negb (nid =? NUMA_NO_NODE) && negb (nid =? memblock_get_region_node m))
  || (movable_node_is_enabled && memblock_is_hotpluggable m)
  || (bool_of (Z.land flags MEMBLOCK_MIRROR) && negb (memblock_is_mirror m))
  || (negb (bool_of (Z.land flags MEMBLOCK_NOMAP)) && memblock_is_nomap m).

(** [r_start] and [r_end] of the area before region [idx_b] of [type_b]. *)
Definition gap_start (tb : memblock_type) (idx_b : Z) : Z :=
  if idx_b =? 0 then 0 else r_end (region_at tb (Z.to_nat (idx_b - 1))).
Definition gap_end (tb : memblock_type) (idx_b : Z) : Z :=
  if idx_b <? cnt tb then r_base (region_at tb (Z.to_nat idx_b)) else PHYS_ADDR_MAX.

(** [(u32)idx_a | (u64)idx_b << 32] and its inverse. *)
Definition pack_idx (idx_a idx_b : Z) : Z :=
  Z.lor (u32 idx_a) (u64 (Z.shiftl (u64 idx_b) 32)).
Definition unpack_a (idx : Z) : Z := s32 (Z.land idx 0xffffffff).
Definition unpack_b (idx : Z) : Z := s32 (Z.shiftr idx 32).

(** How an iteration ends: the out parameters and the new index, or
    [*idx = ULLONG_MAX] with the out parameters untouched. *)
Inductive next_res := NextEnd | Next (idx out_start out_end out_nid : Z).

Inductive scan_res := NoMatch (idx_b : Z) | Match (idx_b r_start r_end : Z).

(** [for (; idx_b < type_b->cnt + 1; idx_b++)], with [n] rounds left. *)
Fixpoint scan_b (n : nat) (m_start m_end : Z) (tb : memblock_type) (idx_b : Z) : scan_res :=
  match n with
  | O => NoMatch idx_b
  | S n' =>
      let r_start := gap_start tb idx_b in
      let r_end := gap_end tb idx_b in
      if r_start >=? m_end then NoMatch idx_b
      else if m_start <? r_end then Match idx_b r_start r_end
      else scan_b n' m_start m_end tb (idx_b + 1)
  end.

(** Rounds of a [for (i = from; i < bound; i++)] over an [unsigned long] bound:
    a negative [int] converts to a value above it. *)
Definition rounds (from bound : Z) : nat :=
  if from <? 0 then O else Z.to_nat (bound - from).

(** [for (; idx_a < type_a->cnt; idx_a++)], with [n] rounds left. *)
Fixpoint scan_a (n : nat) (nid flags : Z) (ta : memblock_type) (type_b : option memblock_type)
    (idx_a idx_b : Z) : next_res :=
  match n with
  | O => NextEnd
  | S n' =>
      let m := region_at ta (Z.to_nat idx_a) in
      let m_start := r_base m in
      let m_end := r_end m in
      let m_nid := memblock_get_region_node m in
      if should_skip_region nid flags m then
        scan_a n' nid flags ta type_b (idx_a + 1) idx_b
      else
        match type_b with
        | None => Next (pack_idx (idx_a + 1) idx_b) m_start m_end m_nid
        | Some tb =>
            match scan_b (rounds idx_b (cnt tb + 1)) m_start m_end tb idx_b with
            | NoMatch idx_b' => scan_a n' nid flags ta type_b (idx_a + 1) idx_b'
            | Match idx_b' r_start r_end =>
                Next (if m_end <=? r_end then pack_idx (idx_a + 1) idx_b'
                      else pack_idx idx_a (idx_b' + 1))
                     (Z.max m_start r_start) (Z.min m_end r_end) m_nid
            end
        end
  end.

Definition __next_mem_range (idx nid flags : Z) (ta : memblock_type)
    (type_b : option memblock_type) : next_res :=
  let idx_a := unpack_a idx in
  let idx_b := unpack_b idx in
  let nid := if nid =? MAX_NUMNODES then NUMA_NO_NODE else nid in
  scan_a (rounds idx_a (cnt ta)) nid flags ta type_b idx_a idx_b.

(** [for (; idx_b >= 0; idx_b--)], with [n] rounds left. *)
Fixpoint scan_b_rev (n : nat) (m_start m_end : Z) (tb : memblock_type) (idx_b : Z) : scan_res :=
  match n with
  | O => NoMatch idx_b
  | S n' =>
      let r_start := gap_start tb idx_b in
      let r_end := gap_end tb idx_b in
      if r_end <=? m_start then NoMatch idx_b
      else if m_end >? r_start then Match idx_b r_start r_end
      else scan_b_rev n' m_start m_end tb (idx_b - 1)
  end.

(** [for (; idx_a >= 0; idx_a--)], with [n] rounds left. *)
Fixpoint scan_a_rev (n : nat) (nid flags : Z) (ta : memblock_type) (type_b : option memblock_type)
    (idx_a idx_b : Z) : next_res :=
  match n with
  | O => NextEnd
  | S n' =>
      let m := region_at ta (Z.to_nat idx_a) in
      let m_start := r_base m in
      let m_end := r_end m in
      let m_nid := memblock_get_region_node m in
      if should_skip_region nid flags m then
        scan_a_rev n' nid flags ta type_b (idx_a - 1) idx_b
      else
        match type_b with
        | None => Next (pack_idx (idx_a - 1) idx_b) m_start m_end m_nid
        | Some tb =>
            match scan_b_rev (Z.to_nat (idx_b + 1)) m_start m_end tb idx_b with
            | NoMatch idx_b' => scan_a_rev n' nid flags ta type_b (idx_a - 1) idx_b'
            | Match idx_b' r_start r_end =>
                Next (if m_start >=? r_start then pack_idx (idx_a - 1) idx_b'
                      else pack_idx idx_a (idx_b' - 1))
                     (Z.max m_start r_start) (Z.min m_end r_end) m_nid
            end
        end
  end.

Definition __next_mem_range_rev (idx nid flags : Z) (ta : memblock_type)
    (type_b : option memblock_type) : next_res :=
  let nid := if nid =? MAX_NUMNODES then NUMA_NO_NODE else nid in
  let '(idx_a, idx_b) :=
    if idx =? ULLONG_MAX
    then (cnt ta - 1, match type_b with Some tb => cnt tb | None => 0 end)
    else (unpack_a idx, unpack_b idx) in
  scan_a_rev (Z.to_nat (idx_a + 1)) nid flags ta type_b idx_a idx_b.

(** [for_each_reserved_mem_region]: base, last byte, next index. *)
Definition __next_reserved_mem_region (idx : Z) (m : memblock) : option (Z * Z * Z) :=
  if idx <? cnt (reserved m) then
    let r := region_at (reserved m) (Z.to_nat idx) in
    Some (r_base r, u64 (r_base r + r_size r - 1), u64 (idx + 1))
  else None.

(** ** Search for a free area *)

(** Rounds of a [for_each_free_mem_range] loop: every round but the last
    advances one of the two indices. *)
Definition range_fuel (m : memblock) : nat :=
  (length (regions (memory m)) + length (regions (reserved m)) + 3)%nat.

Fixpoint find_bottom_up_loop (fuel : nat) (m : memblock) (start end_ size align nid flags idx : Z)
    : outcome Z :=
  match fuel with
  | O => NoFuel
  | S fuel' =>
      match __next_mem_range idx nid flags (memory m) (Some (reserved m)) with
      | NextEnd => Done 0
      | Next idx' out_start out_end _ =>
          let this_start := clamp out_start start end_ in
          let this_end := clamp out_end start end_ in
          let cand := round_up this_start align in
          if (cand <? this_end) && (u64 (this_end - cand) >=? size) then Done cand
          else find_bottom_up_loop fuel' m start end_ size align nid flags idx'
      end
  end.

Definition __memblock_find_range_bottom_up (m : memblock) (start end_ size align nid flags : Z)
    : outcome Z :=
  find_bottom_up_loop (range_fuel m) m start end_ size align nid flags 0.

Fixpoint find_top_down_loop (fuel : nat) (m : memblock) (start end_ size align nid flags idx : Z)
    : outcome Z :=
  match fuel with
  | O => NoFuel
  | S fuel' =>
      match __next_mem_range_rev idx nid flags (memory m) (Some (reserved m)) with
      | NextEnd => Done 0
      | Next idx' out_start out_end _ =>
          let this_start := clamp out_start start end_ in
          let this_end := clamp out_end start end_ in
          if this_end <? size then
            find_top_down_loop fuel' m start end_ size align nid flags idx'
          else
            let cand := round_down (u64 (this_end - size)) align in
            if cand >=? this_start then Done cand
            else find_top_down_loop fuel' m start end_ size align nid flags idx'
      end
  end.

Definition __memblock_find_range_top_down (m : memblock) (start end_ size align nid flags : Z)
    : outcome Z :=
  find_top_down_loop (range_fuel m) m start end_ size align nid flags ULLONG_MAX.

Definition memblock_find_in_range_node (m : memblock) (size align start end_ nid flags : Z)
    : outcome Z :=
  let end_ := if end_ =? MEMBLOCK_ALLOC_ACCESSIBLE then current_limit m else end_ in
  let start := Z.max start PAGE_SIZE in
  let end_ := Z.max start end_ in
  let kernel_end := kernel_end_pa in
  ret ← (if bottom_up m && (end_ >? kernel_end)
         then __memblock_find_range_bottom_up m (Z.max start kernel_end) end_ size align nid flags
         else Done 0);
  if bool_of ret then Done ret
  else __memblock_find_range_top_down m start end_ size align nid flags.

(** The second round starts with MEMBLOCK_MIRROR cleared, so there is no third. *)
Definition memblock_find_in_range (m : memblock) (start end_ size align : Z) : outcome Z :=
  let flags := choose_memblock_flags m in
  ret ← memblock_find_in_range_node m size align start end_ NUMA_NO_NODE flags;
  if (ret =? 0) && bool_of (Z.land flags MEMBLOCK_MIRROR)
  then memblock_find_in_range_node m size align start end_ NUMA_NO_NODE
         (Z.land flags (Z.lnot MEMBLOCK_MIRROR))
  else Done ret.

(** ** Operations that may resize a region array *)
Section Resizing.
Variable double_array : mtype -> Z -> Z -> memblock -> outcome (Z * memblock).

(** [while (type->cnt + need > type->max) if (memblock_double_array(...) < 0)
    return -ENOMEM;]  A round that does not fail doubles [type->max]. *)
Fixpoint ensure_room (fuel : nat) (w : mtype) (need base size : Z) (m : memblock)
    : outcome (Z * memblock) :=
  match fuel with
  | O => NoFuel
  | S fuel' =>
      if cnt (get_type w m) + need >? mt_max (get_type w m) then
        r ← double_array w base size m;
        let '(rc, m') := r in
        if rc <? 0 then Done (- ENOMEM, m') else ensure_room fuel' w need base size m'
      else Done (0, m)
  end.

Definition ROOM_FUEL : nat := 64.

Definition memblock_add_range_ (w : mtype) (base size nid flags : Z) (m : memblock)
    : outcome (Z * memblock) :=
  let size := memblock_cap_size base size in
  let end_ := u64 (base + size) in
  if size =? 0 then Done (0, m) else
  let t := get_type w m in
  if r_size (region_at t 0) =? 0 then
    Done (0, set_type w (set_total size
               (set_regions (<[0%nat := mk_region base size flags nid]> (regions t)) t)) m)
  else
  r ← add_pass false end_ nid flags base t;
  let '(nr_new, _) := r in
  if nr_new =? 0 then Done (0, m) else
  r ← ensure_room ROOM_FUEL w nr_new base size m;
  let '(rc, m1) := r in
  if rc <? 0 then Done (rc, m1) else
  r ← add_pass true end_ nid flags base (get_type w m1);
  let '(nr_new2, t2) := r in
  if nr_new2 =? 0 then Done (0, set_type w t2 m1) else
  t3 ← memblock_merge_regions t2;
  Done (0, set_type w t3 m1).

(** Returns the code's return value, [*start_rgn], [*end_rgn] and the state. *)
Definition memblock_isolate_range_ (w : mtype) (base size : Z) (m : memblock)
    : outcome (Z * nat * nat * memblock) :=
  let size := memblock_cap_size base size in
  let end_ := u64 (base + size) in
  if size =? 0 then Done (0, 0%nat, 0%nat, m) else
  r ← ensure_room ROOM_FUEL w 2 base size m;
  let '(rc, m1) := r in
  if rc <? 0 then Done (rc, 0%nat, 0%nat, m1) else
  r ← isolate_loop (length (regions (get_type w m1)) + 4) base end_ 0 0 0 (get_type w m1);
  let '(start_rgn, end_rgn, t) := r in
  Done (0, start_rgn, end_rgn, set_type w t m1).

Definition memblock_remove_range_ (w : mtype) (base size : Z) (m : memblock)
    : outcome (Z * memblock) :=
  r ← memblock_isolate_range_ w base size m;
  let '(ret, start_rgn, end_rgn, m1) := r in
  if bool_of ret then Done (ret, m1) else
  Done (0, set_type w (remove_loop (end_rgn - start_rgn) start_rgn (get_type w m1)) m1).

Definition memblock_free_ (base size : Z) (m : memblock) : outcome (Z * memblock) :=
  memblock_remove_range_ RESERVED base size m.

Definition memblock_reserve_ (base size : Z) (m : memblock) : outcome (Z * memblock) :=
  memblock_add_range_ RESERVED base size MAX_NUMNODES 0 m.

End Resizing.

Definition in_slab (w : mtype) (m : memblock) : bool :=
  match w with
  | MEMORY => memblock_memory_in_slab m
  | RESERVED => memblock_reserved_in_slab m
  end.

Definition set_in_slab (w : mtype) (b : bool) (m : memblock) : memblock :=
  mk_memblock (bottom_up m) (current_limit m) (memory m) (reserved m) (memblock_can_resize m)
    (match w with MEMORY => b | RESERVED => memblock_memory_in_slab m end)
    (match w with MEMORY => memblock_reserved_in_slab m | RESERVED => b end)
    (system_has_some_mirror m).

(** Where the doubled array goes: 0 when no place was found. *)
Definition find_new_array (w : mtype) (new_area_start new_area_size new_size : Z) (m : memblock)
    : outcome Z :=
  if slab_is_available then Done (kmalloc_pa new_size) else
  let new_alloc_size := PAGE_ALIGN new_size in
  let new_area_start := match w with RESERVED => new_area_start | MEMORY => 0 end in
  let new_area_size := match w with RESERVED => new_area_size | MEMORY => 0 end in
  addr ← memblock_find_in_range m (u64 (new_area_start + new_area_size)) (current_limit m)
           new_alloc_size PAGE_SIZE;
  if (addr =? 0) && bool_of new_area_size then
    memblock_find_in_range m 0 (Z.min new_area_start (current_limit m)) new_alloc_size PAGE_SIZE
  else Done addr.

(** [type->max <<= 1] stays in Z: the array of that many regions was just found
    in a 64-bit address space. *)
Fixpoint memblock_double_array (depth : nat) (w : mtype) (new_area_start new_area_size : Z)
    (m : memblock) : outcome (Z * memblock) :=
  match depth with
  | O => NoFuel
  | S depth' =>
      if negb (memblock_can_resize m) then Done (-1, m) else
      let t := get_type w m in
      let old_size := u64 (mt_max t * sizeof_memblock_region) in
      let new_size := u64 (Z.shiftl old_size 1) in
      let old_alloc_size := PAGE_ALIGN old_size in
      let new_alloc_size := PAGE_ALIGN new_size in
      addr ← find_new_array w new_area_start new_area_size new_size m;
      if addr =? 0 then Done (-1, m) else
      let t1 := mk_type (Z.shiftl (mt_max t) 1) (total_size t) (regions t) (RegionsAt addr) in
      let m1 := set_type w t1 m in
      m2 ← (if in_slab w m then Done m1 else
            match mt_array t with
            | InitRegions => Done m1
            | RegionsAt pa =>
                r ← memblock_free_ (memblock_double_array depth') pa old_alloc_size m1;
                Done (snd r)
            end);
      m3 ← (if slab_is_available then Done m2 else
            r ← memblock_reserve_ (memblock_double_array depth') addr new_alloc_size m2;
            _ ← BUG_ON (bool_of (fst r));
            Done (snd r));
      Done (0, set_in_slab w slab_is_available m3)
  end.

(** Doubling [memory] may have to double [reserved], whose array is then large
    enough for the entries that go back to it. *)
Definition RESIZE_DEPTH : nat := 4.

Definition double_array := memblock_double_array RESIZE_DEPTH.
Definition memblock_add_range := memblock_add_range_ double_array.
Definition memblock_isolate_range := memblock_isolate_range_ double_array.
Definition memblock_remove_range := memblock_remove_range_ double_array.

Definition memblock_add_node (base size nid : Z) (m : memblock) : outcome (Z * memblock) :=
  memblock_add_range MEMORY base size nid 0 m.

Definition memblock_add (base size : Z) (m : memblock) : outcome (Z * memblock) :=
  memblock_add_range MEMORY base size MAX_NUMNODES 0 m.

Definition memblock_remove (base size : Z) (m : memblock) : outcome (Z * memblock) :=
  memblock_remove_range MEMORY base size m.

Definition memblock_free (base size : Z) (m : memblock) : outcome (Z * memblock) :=
  memblock_remove_range RESERVED base size m.

Definition memblock_reserve (base size : Z) (m : memblock) : outcome (Z * memblock) :=
  memblock_add_range RESERVED base size MAX_NUMNODES 0 m.

(** [memblock_setclr_flag] and [memblock_set_node] isolate the range, update the
    regions inside it and merge. *)
Definition isolate_update_merge (w : mtype) (f : memblock_region -> memblock_region)
    (base size : Z) (m : memblock) : outcome (Z * memblock) :=
  r ← memblock_isolate_range w base size m;
  let '(ret, start_rgn, end_rgn, m1) := r in
  if bool_of ret then Done (ret, m1) else
  let t := update_loop f (end_rgn - start_rgn) start_rgn (get_type w m1) in
  t' ← memblock_merge_regions t;
  Done (0, set_type w t' m1).

Definition memblock_setclr_flag (base size : Z) (set : bool) (flag : Z) (m : memblock)
    : outcome (Z * memblock) :=
  isolate_update_merge MEMORY
    (if set then memblock_set_region_flags flag else memblock_clear_region_flags flag)
    base size m.

Definition memblock_mark_hotplug (base size : Z) := memblock_setclr_flag base size true MEMBLOCK_HOTPLUG.
Definition memblock_clear_hotplug (base size : Z) := memblock_setclr_flag base size false MEMBLOCK_HOTPLUG.
Definition memblock_mark_mirror (base size : Z) (m : memblock) : outcome (Z * memblock) :=
  memblock_setclr_flag base size true MEMBLOCK_MIRROR
    (mk_memblock (bottom_up m) (current_limit m) (memory m) (reserved m) (memblock_can_resize m)
      (memblock_memory_in_slab m) (memblock_reserved_in_slab m) true).
Definition memblock_mark_nomap (base size : Z) := memblock_setclr_flag base size true MEMBLOCK_NOMAP.
Definition memblock_clear_nomap (base size : Z) := memblock_setclr_flag base size false MEMBLOCK_NOMAP.

Definition memblock_set_node (base size : Z) (w : mtype) (nid : Z) (m : memblock)
    : outcome (Z * memblock) :=
  isolate_update_merge w (memblock_set_region_node nid) base size m.

End Ops.
