(* ===== verification/MemblockRegions.v ===== *)
(** * memblock: what the region arrays denote

    A region array denotes a partial function from physical addresses to
    attributes (flags and node), [attr].  This file states the invariant of an
    array ([wf_from], [type_wf]) and shows what the loops of
    [MemblockDefs] do to the function an array denotes. *)

From S2P Require Import Prelude MemblockDefs.

(** ** The invariant and the denotation *)

(** First address after a region, in unbounded arithmetic. *)
Definition rend (r : memblock_region) : Z := r_base r + r_size r.

Definition region_ok (r : memblock_region) : Prop :=
  0 <= r_base r /\ 0 < r_size r /\ rend r <= PHYS_ADDR_MAX.

(** Regions in increasing order, disjoint, from [lo] on. *)
Fixpoint wf_from (lo : Z) (rs : list memblock_region) : Prop :=
  match rs with
  | [] => True
  | r :: rs' => lo <= r_base r /\ region_ok r /\ wf_from (rend r) rs'
  end.

Fixpoint last_end (lo : Z) (rs : list memblock_region) : Z :=
  match rs with
  | [] => lo
  | r :: rs' => last_end (rend r) rs'
  end.

Fixpoint sizes (rs : list memblock_region) : Z :=
  match rs with
  | [] => 0
  | r :: rs' => r_size r + sizes rs'
  end.

Definition contains (r : memblock_region) (a : Z) : bool := (r_base r <=? a) && (a <? rend r).

(** The attributes of address [a]: flags and node of the region that holds it. *)
Fixpoint attr (rs : list memblock_region) (a : Z) : option (Z * Z) :=
  match rs with
  | [] => None
  | r :: rs' => if contains r a then Some (r_flags r, r_nid r) else attr rs' a
  end.

(** The empty array holds one dummy entry of size 0. *)
Definition empty_regions (rs : list memblock_region) : Prop :=
  exists nid, rs = [mk_region 0 0 0 nid].

Definition regions_wf (rs : list memblock_region) : Prop :=
  empty_regions rs \/ (rs <> [] /\ wf_from 0 rs).

Definition type_wf (t : memblock_type) : Prop :=
  regions_wf (regions t) /\ total_size t = sizes (regions t) /\ cnt t <= mt_max t.

(** No two neighbours could be merged. *)
Definition mergeable (r1 r2 : memblock_region) : bool :=
  (rend r1 =? r_base r2) && (r_nid r1 =? r_nid r2) && (r_flags r1 =? r_flags r2).

Fixpoint minimal (rs : list memblock_region) : Prop :=
  match rs with
  | r1 :: (r2 :: _) as rs' => mergeable r1 r2 = false /\ minimal rs'
  | _ => True
  end.

(** ** Facts about the denotation *)

Lemma r_end_rend r : region_ok r -> r_end r = rend r.
Proof.
  unfold region_ok, r_end, rend, PHYS_ADDR_MAX. intros.
  apply u64_small. unfold is_u64. lia.
Qed.

Lemma wf_from_weaken lo lo' rs : lo' <= lo -> wf_from lo rs -> wf_from lo' rs.
Proof. destruct rs; simpl; [done|]. intros ? (? & ? & ?). split; [lia|done]. Qed.

Lemma wf_from_app lo l1 l2 :
  wf_from lo (l1 ++ l2) <-> wf_from lo l1 /\ wf_from (last_end lo l1) l2.
Proof.
  revert lo. induction l1 as [|r l1 IH]; intros lo; simpl; [tauto|].
  rewrite IH. tauto.
Qed.

Lemma last_end_app lo l1 l2 : last_end lo (l1 ++ l2) = last_end (last_end lo l1) l2.
Proof. revert lo. induction l1; simpl; auto. Qed.

Lemma last_end_ge lo rs : wf_from lo rs -> lo <= last_end lo rs.
Proof.
  revert lo. induction rs as [|r rs IH]; intros lo; simpl; [lia|].
  intros (Hlo & (Hb & Hs & He) & Hr). apply IH in Hr. unfold rend in *. lia.
Qed.

Lemma wf_from_Forall lo rs : wf_from lo rs -> Forall (fun r => lo <= r_base r /\ region_ok r) rs.
Proof.
  revert lo. induction rs as [|r rs IH]; intros lo; simpl; [constructor|].
  intros (Hlo & Hok & Hr). constructor; [done|].
  apply IH in Hr. revert Hr. apply Forall_impl. intros r' [Hb ?]. split; [|done].
  destruct Hok as (_ & Hs & _). unfold rend in Hb. lia.
Qed.

Lemma last_end_max lo rs :
  lo <= PHYS_ADDR_MAX -> wf_from lo rs -> last_end lo rs <= PHYS_ADDR_MAX.
Proof.
  revert lo. induction rs as [|r rs IH]; intros lo Hlo; simpl; [done|].
  intros (_ & (_ & _ & He) & Hr). by apply IH.
Qed.

Lemma sizes_app l1 l2 : sizes (l1 ++ l2) = sizes l1 + sizes l2.
Proof. induction l1; simpl; lia. Qed.

Lemma sizes_bound lo rs : wf_from lo rs -> 0 <= sizes rs <= last_end lo rs - lo.
Proof.
  revert lo. induction rs as [|r rs IH]; intros lo; simpl; [lia|].
  intros (Hlo & (Hb & Hs & He) & Hr). apply IH in Hr. unfold rend in *. lia.
Qed.

Lemma sizes_u64 rs : wf_from 0 rs -> is_u64 (sizes rs).
Proof.
  intros H. pose proof (sizes_bound 0 rs H).
  pose proof (last_end_max 0 rs ltac:(unfold PHYS_ADDR_MAX; lia) H).
  unfold is_u64, PHYS_ADDR_MAX in *. lia.
Qed.

Lemma attr_app l1 l2 a :
  attr (l1 ++ l2) a = match attr l1 a with Some x => Some x | None => attr l2 a end.
Proof. induction l1 as [|r l1 IH]; simpl; [done|]. by destruct (contains r a). Qed.

Lemma contains_iff r a : contains r a = true <-> r_base r <= a < rend r.
Proof. unfold contains. rewrite andb_true_iff, Z.leb_le, Z.ltb_lt. lia. Qed.

Lemma contains_false r a : contains r a = false <-> a < r_base r \/ rend r <= a.
Proof. unfold contains. rewrite andb_false_iff, Z.leb_gt, Z.ltb_ge. lia. Qed.

Lemma attr_below lo rs a : wf_from lo rs -> a < lo -> attr rs a = None.
Proof.
  intros Hwf Ha. apply wf_from_Forall in Hwf.
  induction Hwf as [|r rs [Hb Hok] _ IH]; simpl; [done|].
  replace (contains r a) with false; [done|]. symmetry. apply contains_false. lia.
Qed.

Lemma attr_above lo rs a : wf_from lo rs -> last_end lo rs <= a -> attr rs a = None.
Proof.
  revert lo. induction rs as [|r rs IH]; intros lo; simpl; [done|].
  intros (Hlo & Hok & Hr) Ha. pose proof (last_end_ge _ _ Hr).
  replace (contains r a) with false; [by eapply IH|].
  symmetry. apply contains_false. unfold rend in *. lia.
Qed.

(** An address has attributes when some region holds it. *)
Lemma attr_Some_in rs a x :
  attr rs a = Some x -> exists r, r ∈ rs /\ contains r a = true /\ x = (r_flags r, r_nid r).
Proof.
  induction rs as [|r rs IH]; simpl; [done|].
  destruct (contains r a) eqn:Hc.
  - intros [= <-]. exists r. split; [by left|done].
  - intros (r' & ? & ?)%IH. exists r'. split; [by right|done].
Qed.

Lemma attr_in lo rs r a :
  wf_from lo rs -> r ∈ rs -> contains r a = true -> attr rs a = Some (r_flags r, r_nid r).
Proof.
  revert lo. induction rs as [|r' rs IH]; intros lo Hwf Hin Hc; [by apply elem_of_nil in Hin|].
  destruct Hwf as (Hlo & Hok & Hr). apply elem_of_cons in Hin as [->|Hin]; simpl.
  - by rewrite Hc.
  - pose proof Hc as Hc'. rewrite contains_iff in Hc'.
    pose proof (wf_from_Forall _ _ Hr) as HF. rewrite list.Forall_forall in HF.
    apply HF in Hin as Hb. destruct Hb as [Hb _].
    replace (contains r' a) with false by (symmetry; apply contains_false; lia).
    eapply IH; eauto.
Qed.

(** ** Insertion *)

(** What the counting and the inserting pass of [memblock_add_range] compute. *)
Fixpoint ins (end_ nid flags : Z) (rest : list memblock_region) (base : Z)
    : list memblock_region :=
  let tail := if base <? end_ then [mk_region base (end_ - base) flags nid] else [] in
  match rest with
  | [] => tail
  | r :: rest' =>
      if r_base r >=? end_ then tail ++ r :: rest'
      else if rend r <=? base then r :: ins end_ nid flags rest' base
      else if r_base r >? base then
        mk_region base (r_base r - base) flags nid :: r
          :: ins end_ nid flags rest' (Z.min (rend r) end_)
      else r :: ins end_ nid flags rest' (Z.min (rend r) end_)
  end.

Lemma ins_length end_ nid flags rest base :
  (length rest <= length (ins end_ nid flags rest base))%nat.
Proof.
  revert base. induction rest as [|r rest IH]; intros base; simpl.
  - destruct (_ <? _); simpl; lia.
  - repeat zcase; simpl; rewrite ?length_app; simpl; try lia;
      pose proof (IH base); pose proof (IH (Z.min (rend r) end_)); lia.
Qed.

Lemma ins_past end_ nid flags rest base lo :
  end_ <= base -> end_ <= lo -> wf_from lo rest -> ins end_ nid flags rest base = rest.
Proof.
  intros Hb He. destruct rest as [|r rest]; simpl.
  - intros _. by replace (base <? end_) with false by lia.
  - intros (Hlo & _). replace (base <? end_) with false by lia.
    by replace (r_base r >=? end_) with true by lia.
Qed.

Lemma ins_wf end_ nid flags rest base lo :
  0 <= lo <= base -> end_ <= PHYS_ADDR_MAX -> wf_from lo rest ->
  wf_from lo (ins end_ nid flags rest base).
Proof.
  revert base lo. induction rest as [|r rest IH]; intros base lo Hlo He; simpl.
  { intros _. zcase; simpl; [|done]. unfold region_ok, rend; simpl. lia. }
  intros (Hb & Hok & Hr). pose proof Hok as (Hb0 & Hs & Hm).
  assert (Hrest : wf_from (rend r) (ins end_ nid flags rest (Z.min (rend r) end_))).
  { destruct (Z.le_gt_cases (rend r) end_).
    - rewrite Z.min_l by lia. apply IH; unfold rend in *; [lia|lia|done].
    - rewrite Z.min_r by lia. rewrite ins_past with (lo := rend r); [done|lia|lia|done]. }
  repeat zcase; simpl; unfold region_ok; simpl; repeat split; try tauto;
    try (unfold rend in *; simpl; lia);
    first [ eapply wf_from_weaken; [|exact Hr]; unfold rend in *; simpl; lia
          | apply IH; unfold rend in *; [lia|lia|done] ].
Qed.

(** Nothing is inserted when the length does not change. *)
Lemma ins_same end_ nid flags rest base lo :
  wf_from lo rest -> length (ins end_ nid flags rest base) = length rest ->
  ins end_ nid flags rest base = rest.
Proof.
  revert base lo. induction rest as [|r rest IH]; intros base lo; simpl.
  - intros _. by destruct (base <? end_).
  - intros (_ & _ & Hr).
    pose proof (ins_length end_ nid flags rest (Z.min (rend r) end_)).
    repeat zcase; simpl; try done; try lia; intros Hl; f_equal; eapply IH; eauto; lia.
Qed.

(** Case analysis on the interval tests of the goal. *)
Ltac icase :=
  repeat match goal with
  | |- context [contains ?r ?a] =>
      let E := fresh "Hc" in
      destruct (contains r a) eqn:E;
      [apply contains_iff in E | apply contains_false in E]
  | |- context [in_range ?b ?e ?a] =>
      let E := fresh "Hi" in
      destruct (in_range b e a) eqn:E;
      [apply in_range_true in E | apply in_range_false in E]
  end; unfold rend in *; simpl in *.

(** Existing regions keep their attributes, the rest of the range gets the new ones. *)
Lemma attr_ins end_ nid flags rest base lo a :
  wf_from lo rest ->
  attr (ins end_ nid flags rest base) a =
  match attr rest a with
  | Some x => Some x
  | None => if in_range base end_ a then Some (flags, nid) else None
  end.
Proof.
  revert base lo. induction rest as [|r rest IH]; intros base lo; simpl.
  { intros _. zcase; simpl; icase; try done; lia. }
  intros (Hb & Hok & Hr). pose proof Hok as (Hb0 & Hs & Hm).
  pose proof (fun b => IH b _ Hr) as IHr. clear IH.
  pose proof (attr_below _ _ a Hr) as Hlow.
  repeat zcase; simpl; rewrite ?IHr; icase; try done; try lia;
    try (rewrite Hlow by lia; try done; lia);
    destruct (attr rest a); try done; lia.
Qed.

Lemma sizes_ins_cases end_ nid flags rest base lo :
  0 <= lo <= base -> end_ <= PHYS_ADDR_MAX -> wf_from lo rest ->
  sizes rest <= sizes (ins end_ nid flags rest base).
Proof.
  revert base lo. induction rest as [|r rest IH]; intros base lo Hlo He; simpl.
  { intros _. zcase; simpl; lia. }
  intros (Hb & Hok & Hr). pose proof Hok as (Hb0 & Hs & Hm).
  assert (Hrest : sizes rest <= sizes (ins end_ nid flags rest (Z.min (rend r) end_))).
  { destruct (Z.le_gt_cases (rend r) end_).
    - rewrite Z.min_l by lia. eapply (IH _ (rend r)); unfold rend in *; [lia|lia|done].
    - rewrite Z.min_r by lia. rewrite ins_past with (lo := rend r); [done|lia|lia|done]. }
  repeat zcase; simpl; try lia;
    (enough (sizes rest <= sizes (ins end_ nid flags rest base)) by lia;
     eapply (IH _ (rend r)); unfold rend in *; [lia|lia|done]).
Qed.

(** ** The insertion loop computes [ins] *)
Section AddLoop.
Context `{Arch}.
Variables (end_ nid flags : Z).
Hypothesis Hend : 0 <= end_ <= PHYS_ADDR_MAX.

Definition finish (insert : bool) (r : nat * Z * Z * memblock_type) : outcome (Z * memblock_type) :=
  let '(idx, base, nr_new, t1) := r in
  if base <? end_ then
    if insert then
      t2 ← memblock_insert_region t1 idx base (u64 (end_ - base)) nid flags;
      Done (nr_new + 1, t2)
    else Done (nr_new + 1, t1)
  else Done (nr_new, t1).

(** Number of regions an insertion adds. *)
Definition new_regions (rest : list memblock_region) (base : Z) : Z :=
  Z.of_nat (length (ins end_ nid flags rest base)) - Z.of_nat (length rest).

Lemma insert_region_ok t pre rest base size :
  regions t = pre ++ rest -> cnt t < mt_max t ->
  memblock_insert_region t (length pre) base size nid flags =
  Done (set_total (u64 (total_size t + size))
         (set_regions (pre ++ mk_region base size flags nid :: rest) t)).
Proof.
  intros Hr Hc. unfold memblock_insert_region.
  replace (cnt t >=? mt_max t) with false by lia. simpl.
  destruct (take_drop_split pre rest (length pre) eq_refl) as [Ht Hd].
  by rewrite Hr, Ht, Hd.
Qed.

Lemma add_count_loop rest pre base nr t fuel lo :
  regions t = pre ++ rest -> 0 <= lo -> wf_from lo rest -> (length rest < fuel)%nat ->
  add_loop fuel false end_ nid flags (length pre) base nr t ≫= finish false
  = Done (nr + new_regions rest base, t).
Proof.
  revert pre base nr fuel lo. induction rest as [|r rest IH];
    intros pre base nr fuel lo Hreg Hlo Hwf Hfuel; (destruct fuel as [|fuel]; [simpl in Hfuel; lia|]);
    simpl in Hfuel; unfold new_regions; simpl.
  - rewrite Hreg, lookup_ge_None_2 by (rewrite length_app; simpl; lia). simpl.
    zcase; simpl; do 2 f_equal; lia.
  - destruct Hwf as (Hb & Hok & Hr). rewrite Hreg, list_lookup_middle by done.
    assert (Hu : u64 (r_base r + r_size r) = rend r) by (by apply r_end_rend).
    rewrite Hu. pose proof Hok as (Hb0 & Hs & Hm).
    assert (HregS : regions t = (pre ++ [r]) ++ rest) by (by rewrite <- app_assoc).
    assert (Hlen : S (length pre) = length (pre ++ [r])) by (rewrite length_app; simpl; lia).
    destruct (r_base r >=? end_) eqn:?; zb.
    { simpl. rewrite ?length_app. zcase; simpl; do 2 f_equal; lia. }
    destruct (rend r <=? base) eqn:?; zb.
    { rewrite Hlen. erewrite IH with (lo := rend r); [|done|unfold rend in *; lia|done|lia].
      unfold new_regions. simpl. do 2 f_equal. lia. }
    destruct (r_base r >? base) eqn:?; zb;
      (rewrite Hlen; erewrite IH with (lo := rend r); [|done|unfold rend in *; lia|done|lia]);
      unfold new_regions; simpl; do 2 f_equal; lia.
Qed.

(** The type after an insertion: [rs] in place of the old list and the sizes of
    the new regions added to the total. *)
Definition grown (t : memblock_type) (added : Z) (rs : list memblock_region) : memblock_type :=
  set_total (u64 (total_size t + added)) (set_regions rs t).

Lemma grown_id t rs : is_u64 (total_size t) -> regions t = rs -> grown t 0 rs = t.
Proof.
  intros Hu <-. unfold grown. rewrite Z.add_0_r, u64_small by done. by destruct t.
Qed.

Lemma grown_eq t a b rs rs' : a = b -> rs = rs' -> grown t a rs = grown t b rs'.
Proof. by intros -> ->. Qed.

Lemma grown_grown t a b rs rs' : grown (grown t a rs) b rs' = grown t (a + b) rs'.
Proof.
  unfold grown, set_total, set_regions. simpl.
  by rewrite u64_add_idemp_l, Z.add_assoc.
Qed.

Lemma add_insert_loop rest pre base nr t fuel lo :
  regions t = pre ++ rest -> is_u64 (total_size t) -> 0 <= base -> 0 <= lo ->
  wf_from lo rest -> (length rest < fuel)%nat ->
  cnt t + new_regions rest base <= mt_max t ->
  add_loop fuel true end_ nid flags (length pre) base nr t ≫= finish true
  = Done (nr + new_regions rest base,
          grown t (sizes (ins end_ nid flags rest base) - sizes rest)
                  (pre ++ ins end_ nid flags rest base)).
Proof.
  revert pre base nr fuel lo t. induction rest as [|r rest IH];
    intros pre base nr fuel lo t Hreg Htot Hbase Hlo Hwf Hfuel Hroom;
    (destruct fuel as [|fuel]; [simpl in Hfuel; lia|]);
    simpl in Hfuel; unfold new_regions in *; simpl in *.
  - rewrite Hreg, lookup_ge_None_2 by (rewrite length_app; simpl; lia). simpl.
    destruct (base <? end_) eqn:?; zb; simpl in *.
    + rewrite (insert_region_ok t pre []) by (done || lia). simpl.
      rewrite (u64_small (end_ - base)) by (unfold is_u64, PHYS_ADDR_MAX in *; lia).
      apply Done_pair; [lia|]. apply grown_eq; [lia|done].
    + do 2 f_equal; [lia|]. symmetry. by apply grown_id.
  - destruct Hwf as (Hb & Hok & Hr). rewrite Hreg, list_lookup_middle by done.
    assert (Hu : u64 (r_base r + r_size r) = rend r) by (by apply r_end_rend).
    rewrite Hu. pose proof Hok as (Hb0 & Hs & Hm).
    assert (HregS : regions t = (pre ++ [r]) ++ rest) by (by rewrite <- app_assoc).
    assert (Hlen : S (length pre) = length (pre ++ [r])) by (rewrite length_app; simpl; lia).
    assert (Happ : forall l, pre ++ r :: l = (pre ++ [r]) ++ l) by (intros; by rewrite <- app_assoc).
    destruct (r_base r >=? end_) eqn:?; zb.
    { simpl. destruct (base <? end_) eqn:?; zb; simpl in *.
      - rewrite (insert_region_ok t pre (r :: rest)) by (done || lia). simpl.
        rewrite (u64_small (end_ - base)) by (unfold is_u64, PHYS_ADDR_MAX in *; lia).
        apply Done_pair; [lia|]. apply grown_eq; [lia|done].
      - do 2 f_equal; [lia|]. symmetry. rewrite Z.sub_diag. by apply grown_id. }
    destruct (rend r <=? base) eqn:?; zb.
    { simpl in Hroom. rewrite Hlen.
      erewrite IH with (lo := rend r); try done; try (unfold rend in *; lia).
      rewrite <- Happ. simpl. apply Done_pair; [lia|apply grown_eq; [lia|done]]. }
    destruct (r_base r >? base) eqn:?; zb; simpl in Hroom.
    + pose proof (ins_length end_ nid flags rest (Z.min (rend r) end_)).
      rewrite (insert_region_ok t pre (r :: rest)) by (done || lia). cbn [mbind outcome_bind].
      rewrite (u64_small (r_base r - base)) by (unfold is_u64, PHYS_ADDR_MAX, rend in *; lia).
      set (n := mk_region base (r_base r - base) flags nid).
      change (set_total _ _) with (grown t (r_base r - base) (pre ++ n :: r :: rest)).
      replace (S (S (length pre))) with (length (pre ++ [n; r])) by (rewrite length_app; simpl; lia).
      erewrite IH with (lo := rend r); try done; try (unfold rend in *; lia).
      * rewrite grown_grown, <- app_assoc. simpl. apply Done_pair; [lia|apply grown_eq; [lia|done]].
      * simpl. by rewrite <- app_assoc.
      * apply u64_range.
      * unfold cnt. simpl. rewrite length_app. simpl. unfold cnt in Hroom.
        rewrite Hreg, length_app in Hroom. simpl in Hroom. lia.
    + rewrite Hlen. erewrite IH with (lo := rend r); try done; try (unfold rend in *; lia).
      rewrite <- Happ. simpl. apply Done_pair; [lia|apply grown_eq; [lia|done]].
Qed.

(** The inserting pass returns only when the array had room: an insertion into a
    full array is a [BUG_ON]. *)
Lemma add_insert_room rest pre base nr t fuel lo r :
  regions t = pre ++ rest -> 0 <= lo -> wf_from lo rest -> cnt t <= mt_max t ->
  add_loop fuel true end_ nid flags (length pre) base nr t ≫= finish true = Done r ->
  cnt t + new_regions rest base <= mt_max t.
Proof.
  revert pre base nr fuel lo t. induction rest as [|x rest IH];
    intros pre base nr fuel lo t Hreg Hlo Hwf Hcnt HD; (destruct fuel as [|fuel]; [done|]);
    unfold new_regions in *; simpl in *.
  - rewrite Hreg, lookup_ge_None_2 in HD by (rewrite length_app; simpl; lia). simpl in HD.
    zcase; [|simpl; lia]. simpl. unfold memblock_insert_region in HD.
    destruct (cnt t >=? mt_max t) eqn:?; [done|zb; lia].
  - destruct Hwf as (Hb & Hok & Hr). rewrite Hreg, list_lookup_middle in HD by done.
    assert (Hu : u64 (r_base x + r_size x) = rend x) by (by apply r_end_rend).
    rewrite Hu in HD. pose proof Hok as (Hb0 & Hs & Hm).
    assert (HregS : regions t = (pre ++ [x]) ++ rest) by (by rewrite <- app_assoc).
    replace (S (length pre)) with (length (pre ++ [x])) in HD by (rewrite length_app; simpl; lia).
    destruct (r_base x >=? end_) eqn:?; zb.
    { simpl in HD. destruct (base <? end_) eqn:?; zb; [|simpl; lia].
      unfold memblock_insert_region in HD.
      destruct (cnt t >=? mt_max t) eqn:?; [done|zb; simpl; lia]. }
    destruct (rend x <=? base) eqn:?; zb.
    { apply (IH _ _ _ _ (rend x)) in HD; try done; [simpl; lia|unfold rend in *; lia]. }
    destruct (r_base x >? base) eqn:?; zb.
    + destruct (cnt t >=? mt_max t) eqn:Hfull; [unfold memblock_insert_region in HD; by rewrite Hfull in HD|].
      zb. rewrite (insert_region_ok t pre (x :: rest)) in HD by (done || lia). cbn [mbind outcome_bind] in HD.
      set (n := mk_region base (u64 (r_base x - base)) flags nid) in HD.
      replace (S (length (pre ++ [x]))) with (length (pre ++ [n; x])) in HD by (rewrite !length_app; simpl; lia).
      assert (Hcnt' : forall z, cnt (set_total z (set_regions (pre ++ n :: x :: rest) t)) = cnt t + 1).
      { intros. unfold cnt. simpl. rewrite Hreg, !length_app. simpl. lia. }
      apply (IH _ _ _ _ (rend x)) in HD; rewrite ?Hcnt' in *; simpl in *; try lia; try done;
        first [unfold rend in *; lia|by rewrite <- app_assoc].
    + apply (IH _ _ _ _ (rend x)) in HD; try done; [simpl; lia|unfold rend in *; lia].
Qed.

End AddLoop.

(** ** Merging *)
Definition merged (r1 r2 : memblock_region) : memblock_region :=
  mk_region (r_base r1) (r_size r1 + r_size r2) (r_flags r1) (r_nid r1).

Fixpoint merge_spec (cur : memblock_region) (rest : list memblock_region) : list memblock_region :=
  match rest with
  | [] => [cur]
  | r :: rest' =>
      if mergeable cur r then merge_spec (merged cur r) rest' else cur :: merge_spec r rest'
  end.

Lemma mergeable_iff r1 r2 :
  mergeable r1 r2 = true <-> rend r1 = r_base r2 /\ r_nid r1 = r_nid r2 /\ r_flags r1 = r_flags r2.
Proof. unfold mergeable. rewrite !andb_true_iff, !Z.eqb_eq. tauto. Qed.

Lemma merged_wf lo cur r rest :
  mergeable cur r = true -> wf_from lo (cur :: r :: rest) -> wf_from lo (merged cur r :: rest).
Proof.
  intros (He & _)%mergeable_iff (Hlo & Hok & _ & Hok2 & Hr).
  simpl. unfold region_ok, merged, rend in *; simpl in *.
  repeat split; try lia. eapply wf_from_weaken; [|exact Hr]. lia.
Qed.

Lemma merge_spec_wf cur rest lo : wf_from lo (cur :: rest) -> wf_from lo (merge_spec cur rest).
Proof.
  revert cur lo. induction rest as [|r rest IH]; intros cur lo Hwf; [done|]. simpl.
  destruct (mergeable cur r) eqn:Hm; [by apply IH, merged_wf|].
  destruct Hwf as (? & ? & ?). by split_and!; [| |apply IH].
Qed.

Lemma merge_spec_attr cur rest lo a :
  wf_from lo (cur :: rest) -> attr (merge_spec cur rest) a = attr (cur :: rest) a.
Proof.
  revert cur lo. induction rest as [|r rest IH]; intros cur lo Hwf; [done|]. simpl merge_spec.
  destruct (mergeable cur r) eqn:Hm.
  - rewrite (IH _ lo) by (by apply merged_wf).
    apply mergeable_iff in Hm as (He & Hn & Hf). destruct Hwf as (_ & Hok & _ & Hok2 & _).
    unfold region_ok in *. simpl. rewrite <- Hn, <- Hf. icase; try done; lia.
  - destruct Hwf as (? & ? & Hwf). simpl. by rewrite (IH _ _ Hwf).
Qed.

Lemma merge_spec_sizes cur rest : sizes (merge_spec cur rest) = sizes (cur :: rest).
Proof.
  revert cur. induction rest as [|r rest IH]; intros cur; [done|]. simpl merge_spec.
  destruct (mergeable cur r); simpl; rewrite IH; simpl; lia.
Qed.

Lemma merge_spec_length cur rest : (length (merge_spec cur rest) <= length (cur :: rest))%nat.
Proof.
  revert cur. induction rest as [|r rest IH]; intros cur; simpl; [lia|].
  pose proof (IH (merged cur r)) as H1. pose proof (IH r) as H2. simpl in H1, H2.
  destruct (mergeable cur r); simpl; lia.
Qed.

Lemma merge_spec_head cur rest : exists l, exists r, merge_spec cur rest = r :: l /\
  r_base r = r_base cur /\ r_nid r = r_nid cur /\ r_flags r = r_flags cur.
Proof.
  revert cur. induction rest as [|r rest IH]; intros cur; simpl; [by exists [], cur|].
  destruct (mergeable cur r); [|by exists (merge_spec r rest), cur].
  destruct (IH (merged cur r)) as (l & r' & -> & ? & ? & ?). by exists l, r'.
Qed.

Lemma merge_spec_minimal cur rest : minimal (merge_spec cur rest).
Proof.
  revert cur. induction rest as [|r rest IH]; intros cur; simpl; [done|].
  destruct (mergeable cur r) eqn:Hm; [done|].
  pose proof (IH r) as Hmin. destruct (merge_spec_head r rest) as (l & r' & Heq & Hb & Hn & Hf).
  rewrite Heq in *. split; [|done]. unfold mergeable in *. congruence.
Qed.

Lemma merge_loop_spec rest pre cur t fuel lo :
  regions t = pre ++ cur :: rest -> wf_from lo (cur :: rest) -> (length rest < fuel)%nat ->
  merge_loop fuel (length pre) t = Done (set_regions (pre ++ merge_spec cur rest) t).
Proof.
  revert pre cur t fuel lo. induction rest as [|r rest IH];
    intros pre cur t fuel lo Hreg Hwf Hfuel; (destruct fuel as [|fuel]; [simpl in Hfuel; lia|]);
    simpl in Hfuel |- *; rewrite Hreg, list_lookup_middle by done.
  - rewrite lookup_ge_None_2 by (rewrite length_app; simpl; lia).
    simpl. f_equal. rewrite <- Hreg. by destruct t.
  - replace (pre ++ cur :: r :: rest) with ((pre ++ [cur]) ++ r :: rest) by (by rewrite <- app_assoc).
    rewrite lookup_middle by (rewrite length_app; simpl; lia).
    assert (Hok : region_ok cur) by apply Hwf.
    change (u64 (r_base cur + r_size cur)) with (r_end cur). rewrite r_end_rend by done.
    replace (negb (rend cur =? r_base r) || negb (memblock_get_region_node cur =? memblock_get_region_node r)
             || negb (r_flags cur =? r_flags r)) with (negb (mergeable cur r))
      by (unfold mergeable, memblock_get_region_node; by rewrite !negb_andb).
    destruct (mergeable cur r) eqn:Hm; simpl.
    + rewrite <- app_assoc. simpl.
      destruct (take_drop_split pre (cur :: r :: rest) (length pre) eq_refl) as [-> _].
      replace (drop (S (S (length pre))) (pre ++ cur :: r :: rest)) with rest.
      2:{ rewrite drop_app_ge by lia. by replace (S (S (length pre)) - length pre)%nat with 2%nat by lia. }
      rewrite (u64_small (r_size cur + r_size r)).
      2:{ apply mergeable_iff in Hm as (He & _). destruct Hwf as (_ & _ & _ & Hok2 & _).
          unfold region_ok, rend, is_u64, PHYS_ADDR_MAX in *. lia. }
      rewrite (IH pre (merged cur r) _ _ lo); [done|done|by apply merged_wf|lia].
    + destruct Hwf as (Hlo & _ & Hwf).
      replace (rend cur >? r_base r) with false by (destruct Hwf; lia). simpl.
      replace (S (length pre)) with (length (pre ++ [cur])) by (rewrite length_app; simpl; lia).
      rewrite (IH (pre ++ [cur]) r _ _ (rend cur)); [by rewrite <- app_assoc| |done|lia].
      by rewrite Hreg, <- app_assoc.
Qed.

(** [memblock_merge_regions] on a whole array. *)
Lemma memblock_merge_regions_spec t :
  regions t <> [] -> wf_from 0 (regions t) ->
  exists rs, memblock_merge_regions t = Done (set_regions rs t) /\
    rs <> [] /\ wf_from 0 rs /\ minimal rs /\ sizes rs = sizes (regions t) /\
    (length rs <= length (regions t))%nat /\ (forall a, attr rs a = attr (regions t) a).
Proof.
  intros Hne Hwf. destruct (regions t) as [|cur rest] eqn:Hreg; [done|].
  exists (merge_spec cur rest). split_and!.
  - unfold memblock_merge_regions. rewrite Hreg.
    apply (merge_loop_spec rest [] cur t _ 0); [done|done|simpl; lia].
  - by destruct (merge_spec_head cur rest) as (l & r & -> & _).
  - by apply merge_spec_wf.
  - apply merge_spec_minimal.
  - apply merge_spec_sizes.
  - apply merge_spec_length.
  - intros a. by eapply merge_spec_attr.
Qed.

(** ** Splitting at the boundaries of a range *)

(** The part of a region that lies in [lo, hi). *)
Definition clip (lo hi : Z) (r : memblock_region) : list memblock_region :=
  let b := Z.max (r_base r) lo in
  let e := Z.min (rend r) hi in
  if b <? e then [mk_region b (e - b) (r_flags r) (r_nid r)] else [].

Fixpoint clips (lo hi : Z) (rs : list memblock_region) : list memblock_region :=
  match rs with
  | [] => []
  | r :: rs' => clip lo hi r ++ clips lo hi rs'
  end.

(** The array after [memblock_isolate_range]: what lies below, in and above. *)
Definition isolated (base end_ : Z) (rs : list memblock_region) : list memblock_region :=
  clips 0 base rs ++ clips base end_ rs ++ clips end_ PHYS_ADDR_MAX rs.

Lemma region_eta r b s : b = r_base r -> s = r_size r -> mk_region b s (r_flags r) (r_nid r) = r.
Proof. intros -> ->. by destruct r. Qed.

Lemma clip_inside lo hi r : region_ok r -> lo <= r_base r -> rend r <= hi -> clip lo hi r = [r].
Proof.
  unfold clip, region_ok. intros. rewrite Z.max_l, Z.min_l by lia.
  replace (r_base r <? rend r) with true by (unfold rend in *; lia).
  by rewrite region_eta by (unfold rend in *; lia).
Qed.

Lemma clip_outside lo hi r : rend r <= lo \/ hi <= r_base r -> clip lo hi r = [].
Proof. unfold clip. intros. by replace (_ <? _) with false by lia. Qed.

Lemma clips_above lo hi b rs : hi <= b -> wf_from b rs -> clips lo hi rs = [].
Proof.
  intros Hb Hwf%wf_from_Forall. induction Hwf as [|r rs [? ?] _ IH]; simpl; [done|].
  rewrite IH, clip_outside; [done|]. right. lia.
Qed.

Lemma clips_inside lo b rs : lo <= b -> wf_from b rs -> clips lo PHYS_ADDR_MAX rs = rs.
Proof.
  intros Hb Hwf%wf_from_Forall. induction Hwf as [|r rs [? Hok] _ IH]; simpl; [done|].
  rewrite IH, clip_inside; [done|done|lia|]. apply Hok.
Qed.

Lemma clips_attr lo hi rs a :
  attr (clips lo hi rs) a = if in_range lo hi a then attr rs a else None.
Proof.
  induction rs as [|r rs IH]; simpl; [by destruct (in_range _ _ _)|].
  rewrite attr_app, IH. unfold clip. zcase; simpl; icase; try done; lia.
Qed.

Lemma clips_bound lo hi rs : Forall (fun r => lo <= r_base r /\ rend r <= hi) (clips lo hi rs).
Proof.
  induction rs as [|r rs IH]; simpl; [constructor|]. apply Forall_app. split; [|done].
  unfold clip. zcase; repeat constructor; unfold rend in *; simpl; lia.
Qed.

Lemma last_end_bound x hi rs : Forall (fun r => rend r <= hi) rs -> last_end x rs <= Z.max x hi.
Proof. intros HF. revert x. induction HF as [|r rs Hr _ IH]; intros x; simpl; [lia|]. specialize (IH (rend r)). lia. Qed.

Lemma clips_last_end x lo hi rs : last_end x (clips lo hi rs) <= Z.max x hi.
Proof.
  apply last_end_bound. eapply Forall_impl; [|apply (clips_bound lo hi rs)].
  by intros r [_ ?].
Qed.

Lemma clips_wf lo hi b rs :
  0 <= lo -> wf_from b rs -> wf_from (Z.max b lo) (clips lo hi rs).
Proof.
  intros Hlo. revert b. induction rs as [|r rs IH]; intros b; simpl; [done|].
  intros (Hb & Hok & Hr). specialize (IH _ Hr).
  destruct Hok as (Hb0 & Hs & Hm). unfold clip. zcase; simpl.
  - unfold region_ok, rend in *. simpl in *.
    repeat split; try lia. eapply wf_from_weaken; [|exact IH]. lia.
  - eapply wf_from_weaken; [|exact IH]. unfold rend. lia.
Qed.

Lemma clip_sizes lo mid hi r :
  lo <= mid <= hi -> sizes (clip lo mid r) + sizes (clip mid hi r) = sizes (clip lo hi r).
Proof. intros. unfold clip. repeat zcase; simpl; lia. Qed.

Lemma clips_sizes lo mid hi rs :
  lo <= mid <= hi -> sizes (clips lo mid rs) + sizes (clips mid hi rs) = sizes (clips lo hi rs).
Proof.
  intros Hm. induction rs as [|r rs IH]; simpl; [lia|].
  rewrite !sizes_app. pose proof (clip_sizes lo mid hi r Hm). lia.
Qed.

Section Isolated.
Variables (base end_ : Z).
Hypothesis Hrange : 0 <= base < end_.
Hypothesis Hmax : end_ <= PHYS_ADDR_MAX.

Lemma isolated_attr rs a : wf_from 0 rs -> attr (isolated base end_ rs) a = attr rs a.
Proof.
  intros Hwf. unfold isolated. rewrite !attr_app, !clips_attr.
  pose proof (last_end_max 0 rs ltac:(unfold PHYS_ADDR_MAX; lia) Hwf) as Hle.
  pose proof (attr_below 0 rs a Hwf) as Hlow. pose proof (attr_above 0 rs a Hwf) as Hhigh.
  icase; try lia; destruct (attr rs a) eqn:Ha; try done.
  assert (Hc : a < 0 \/ last_end 0 rs <= a) by lia.
  destruct Hc as [Hc|Hc]; [by specialize (Hlow Hc)|by specialize (Hhigh Hc)].
Qed.

Lemma isolated_sizes rs : wf_from 0 rs -> sizes (isolated base end_ rs) = sizes rs.
Proof.
  intros Hwf. unfold isolated. rewrite !sizes_app, clips_sizes, clips_sizes by lia.
  by rewrite (clips_inside 0 0) by (done || lia).
Qed.

Lemma isolated_wf rs : wf_from 0 rs -> wf_from 0 (isolated base end_ rs).
Proof.
  intros Hwf. unfold isolated.
  pose proof (clips_wf 0 base 0 rs ltac:(lia) Hwf) as H1.
  pose proof (clips_wf base end_ 0 rs ltac:(lia) Hwf) as H2.
  pose proof (clips_wf end_ PHYS_ADDR_MAX 0 rs ltac:(lia) Hwf) as H3.
  pose proof (clips_last_end 0 0 base rs) as L1.
  pose proof (clips_last_end (last_end 0 (clips 0 base rs)) base end_ rs) as L2.
  rewrite !wf_from_app. split; [exact H1|]. split.
  - eapply wf_from_weaken; [|exact H2]. lia.
  - eapply wf_from_weaken; [|exact H3]. lia.
Qed.

End Isolated.
