(* ===== verification/MemblockSplit.v ===== *)
(** * memblock: isolation, removal and update of a range

    [isolate_loop] computes [isolated]; removing or updating the regions between
    the two indices it returns then acts on exactly the addresses of the range. *)

From S2P Require Import Prelude MemblockDefs MemblockRegions.

Section Isolate.
Context `{Arch}.
Variables (base end_ : Z).
Hypothesis Hrange : 0 <= base < end_.
Hypothesis Hmax : end_ <= PHYS_ADDR_MAX.

(** The two indices, when the loop starts at [n] with [s] and [e]. *)
Definition isolate_idx (n s e : nat) (rest : list memblock_region) : nat * nat :=
  match clips base end_ rest with
  | [] => (s, e)
  | mid => let n' := (n + length (clips 0 base rest))%nat in
           (if (e =? 0)%nat then n' else s, (n' + length mid)%nat)
  end.

(** *** How [isolated] unfolds in each branch of the loop *)
Lemma isolated_done b rest : end_ <= b -> wf_from b rest ->
  isolated base end_ rest = rest /\ clips base end_ rest = [].
Proof.
  intros Hb Hwf. unfold isolated.
  rewrite (clips_above 0 base b), (clips_above base end_ b), (clips_inside end_ b); done || lia.
Qed.

Lemma isolated_below r rest : region_ok r -> rend r <= base ->
  isolated base end_ (r :: rest) = r :: isolated base end_ rest /\
  clips base end_ (r :: rest) = clips base end_ rest /\
  clips 0 base (r :: rest) = r :: clips 0 base rest.
Proof.
  intros Hok Hr. unfold isolated. simpl.
  rewrite (clip_inside 0 base), (clip_outside base end_), (clip_outside end_ PHYS_ADDR_MAX);
    try done; try (left; lia). apply Hok.
Qed.

(** A region that crosses [base] from below, cut there. *)
Definition low_half (r : memblock_region) : memblock_region :=
  mk_region (r_base r) (base - r_base r) (r_flags r) (r_nid r).
Definition top_half (r : memblock_region) : memblock_region :=
  mk_region base (rend r - base) (r_flags r) (r_nid r).

Lemma isolated_cross_base r rest : region_ok r -> r_base r < base -> base < rend r ->
  wf_from (rend r) rest ->
  isolated base end_ (r :: rest) = low_half r :: isolated base end_ (top_half r :: rest) /\
  clips base end_ (r :: rest) = clips base end_ (top_half r :: rest) /\
  clips 0 base (r :: rest) = [low_half r] /\ clips 0 base (top_half r :: rest) = [].
Proof.
  intros Hok Hb He Hwf.
  assert (Hl : clip 0 base r = [low_half r]).
  { unfold clip, low_half. rewrite Z.max_l, Z.min_r by (destruct Hok; lia).
    by replace (_ <? _) with true by lia. }
  assert (Hm : forall hi, clip base hi r = clip base hi (top_half r)).
  { intros. unfold clip, top_half, rend in *; simpl. rewrite Z.max_r, Z.max_id by lia.
    by replace (base + (r_base r + r_size r - base)) with (r_base r + r_size r) by lia. }
  assert (Hh : clip end_ PHYS_ADDR_MAX r = clip end_ PHYS_ADDR_MAX (top_half r)).
  { unfold clip, top_half, rend in *; simpl. rewrite !Z.max_r by lia.
    by replace (base + (r_base r + r_size r - base)) with (r_base r + r_size r) by lia. }
  unfold isolated. simpl. rewrite Hl, Hm, Hh, (clips_above 0 base (rend r) rest) by (done || lia).
  rewrite (clip_outside 0 base (top_half r)) by (right; simpl; lia). done.
Qed.

(** A region that starts in the range and crosses its end, cut there. *)
Definition in_half (r : memblock_region) : memblock_region :=
  mk_region (r_base r) (end_ - r_base r) (r_flags r) (r_nid r).
Definition out_half (r : memblock_region) : memblock_region :=
  mk_region end_ (rend r - end_) (r_flags r) (r_nid r).

Lemma isolated_cross_end r rest : base <= r_base r -> r_base r < end_ -> end_ < rend r ->
  wf_from (rend r) rest ->
  isolated base end_ (r :: rest) = isolated base end_ (in_half r :: out_half r :: rest) /\
  clips base end_ (r :: rest) = clips base end_ (in_half r :: out_half r :: rest) /\
  clips 0 base (r :: rest) = clips 0 base (in_half r :: out_half r :: rest).
Proof.
  intros Hb Hbe He Hwf.
  assert (Hl : clip 0 base r = [] /\ clip 0 base (in_half r) = [] /\ clip 0 base (out_half r) = []).
  { split_and!; apply clip_outside; right; simpl; lia. }
  assert (Hm : clip base end_ r = clip base end_ (in_half r) /\ clip base end_ (out_half r) = []).
  { unfold clip, in_half, out_half, rend in *; simpl. split; [|by replace (_ <? _) with false by lia].
    rewrite !Z.min_r, !Z.max_l by lia. done. }
  assert (Hh : clip end_ PHYS_ADDR_MAX r = clip end_ PHYS_ADDR_MAX (out_half r) /\
               clip end_ PHYS_ADDR_MAX (in_half r) = []).
  { unfold clip, in_half, out_half, rend in *; simpl. split; [|by replace (_ <? _) with false by lia].
    rewrite Z.max_r, Z.max_id by lia.
    by replace (end_ + (r_base r + r_size r - end_)) with (r_base r + r_size r) by lia. }
  destruct Hl as (L1 & L2 & L3). destruct Hm as (M1 & M2). destruct Hh as (H1 & H2).
  unfold isolated. simpl. by rewrite L1, L2, L3, M1, M2, H1, H2.
Qed.

Lemma isolated_inside r rest : region_ok r -> base <= r_base r -> rend r <= end_ ->
  wf_from (rend r) rest ->
  isolated base end_ (r :: rest) = r :: isolated base end_ rest /\
  clips base end_ (r :: rest) = r :: clips base end_ rest /\
  clips 0 base (r :: rest) = [] /\ clips 0 base rest = [].
Proof.
  intros Hok Hb He Hwf. unfold isolated. simpl.
  rewrite (clip_outside 0 base r), (clip_inside base end_ r), (clip_outside end_ PHYS_ADDR_MAX r),
    (clips_above 0 base (rend r) rest); try done;
    try (destruct Hok as (? & ? & ?); unfold rend in *; lia).
Qed.

(** *** The loop *)

(** A split: the region at [idx] is shortened from below and the piece cut off
    is inserted in front of it; the total does not change. *)
Lemma split_region_ok t pre r rest cut (r1 := mk_region (r_base r) (cut - r_base r) (r_flags r) (r_nid r))
    (r2 := mk_region cut (rend r - cut) (r_flags r) (r_nid r)) :
  regions t = pre ++ r :: rest -> is_u64 (total_size t) -> region_ok r ->
  r_base r < cut < rend r -> cnt t < mt_max t ->
  memblock_insert_region
    (set_total (u64 (total_size t - (cut - r_base r)))
      (set_regions (<[length pre := mk_region cut (u64 (r_size r - (cut - r_base r)))
                                      (r_flags r) (r_nid r)]> (regions t)) t))
    (length pre) (r_base r) (u64 (cut - r_base r)) (r_nid r) (r_flags r)
  = Done (set_regions (pre ++ r1 :: r2 :: rest) t).
Proof.
  intros Hreg Htot (Hb0 & Hs & Hm) Hcut Hcnt.
  unfold PHYS_ADDR_MAX, rend, is_u64 in *.
  rewrite (u64_small (r_size r - _)), (u64_small (cut - _)) by (unfold is_u64; lia).
  rewrite Hreg, insert_split by done.
  rewrite (insert_region_ok _ _ _ pre (r2 :: rest)).
  - unfold set_total, set_regions. simpl. rewrite u64_add_idemp_l.
    replace (total_size t - (cut - r_base r) + (cut - r_base r)) with (total_size t) by lia.
    by rewrite u64_small.
  - simpl. do 3 f_equal. lia.
  - unfold cnt in *. simpl. rewrite length_app. simpl. rewrite Hreg, length_app in Hcnt. exact Hcnt.
Qed.

(** What the loop computes with a given number of rounds left.  [b1] and [b2]
    count the splits that are still possible. *)
Definition isolate_ok (fuel : nat) : Prop := forall rest pre s e t lo (b1 b2 : nat),
  regions t = pre ++ rest -> is_u64 (total_size t) -> 0 <= lo -> wf_from lo rest ->
  (length rest + 1 + b1 + 2 * b2 <= fuel)%nat ->
  (b1 = 0%nat -> Forall (fun r => base <= r_base r) rest) ->
  (b2 = 0%nat -> Forall (fun r => end_ <= r_base r \/ rend r <= end_) rest) ->
  cnt t + Z.of_nat b1 + Z.of_nat b2 <= mt_max t ->
  isolate_loop fuel base end_ (length pre) s e t =
  Done (isolate_idx (length pre) s e rest, set_regions (pre ++ isolated base end_ rest) t).

Lemma cnt_split t pre r r1 r2 rest :
  regions t = pre ++ r :: rest ->
  cnt (set_regions (pre ++ r1 :: r2 :: rest) t) = cnt t + 1.
Proof. intros Hreg. unfold cnt. simpl. rewrite Hreg, !length_app. simpl. lia. Qed.

Lemma wf_from_later b rest (P : memblock_region -> Prop) :
  wf_from b rest -> (forall r, b <= r_base r -> P r) -> Forall P rest.
Proof. intros Hwf HP. eapply Forall_impl; [|apply (wf_from_Forall _ _ Hwf)]. intros r [? _]. auto. Qed.

(** The round that splits a region at [base]. *)
Lemma isolate_step_base fuel pre r rest s e t b1 b2 :
  isolate_ok fuel -> regions t = pre ++ r :: rest -> is_u64 (total_size t) ->
  region_ok r -> wf_from (rend r) rest -> r_base r < base < rend r ->
  (length (r :: rest) + 1 + S b1 + 2 * b2 <= S fuel)%nat ->
  (b2 = 0%nat -> Forall (fun r => end_ <= r_base r \/ rend r <= end_) (r :: rest)) ->
  cnt t + Z.of_nat (S b1) + Z.of_nat b2 <= mt_max t ->
  isolate_loop fuel base end_ (S (length pre)) s e
    (set_regions (pre ++ low_half r :: top_half r :: rest) t) =
  Done (isolate_idx (length pre) s e (r :: rest),
        set_regions (pre ++ isolated base end_ (r :: rest)) t).
Proof.
  intros IH Hreg Htot Hok Hwf Hcut Hfuel H2 Hroom. simpl in Hfuel.
  destruct (isolated_cross_base r rest) as (Hi & Hm & Hl & Hnil); try done; try lia.
  replace (S (length pre)) with (length (pre ++ [low_half r])) by (rewrite length_app; simpl; lia).
  rewrite (IH (top_half r :: rest) (pre ++ [low_half r]) s e _ base 0%nat b2); try done; try lia.
  - unfold isolate_idx. rewrite Hi, Hm, Hl, Hnil, <- app_assoc, length_app. simpl.
    destruct (clip base end_ (top_half r) ++ clips base end_ rest); [done|].
    by rewrite !Nat.add_0_r.
  - simpl. by rewrite <- app_assoc.
  - simpl. unfold top_half, region_ok, rend in *; simpl. repeat split; try lia.
    eapply wf_from_weaken; [|exact Hwf]. lia.
  - simpl. lia.
  - intros _. constructor; [simpl; lia|]. eapply wf_from_later; [exact Hwf|]. intros; lia.
  - intros Hz. specialize (H2 Hz). inversion H2; subst. constructor; [|done].
    unfold top_half, rend in *; simpl. lia.
  - erewrite cnt_split by done. simpl. lia.
Qed.

(** The round that splits a region at [end_]. *)
Lemma isolate_step_end fuel pre r rest s e t b1 b2 :
  isolate_ok fuel -> regions t = pre ++ r :: rest -> is_u64 (total_size t) ->
  region_ok r -> wf_from (rend r) rest -> base <= r_base r -> r_base r < end_ < rend r ->
  (length (r :: rest) + 1 + b1 + 2 * S b2 <= S fuel)%nat ->
  cnt t + Z.of_nat b1 + Z.of_nat (S b2) <= mt_max t ->
  isolate_loop fuel base end_ (length pre) s e
    (set_regions (pre ++ in_half r :: out_half r :: rest) t) =
  Done (isolate_idx (length pre) s e (r :: rest),
        set_regions (pre ++ isolated base end_ (r :: rest)) t).
Proof.
  intros IH Hreg Htot Hok Hwf Hb Hcut Hfuel Hroom. simpl in Hfuel.
  destruct (isolated_cross_end r rest) as (Hi & Hm & Hl); try done; try lia.
  rewrite (IH (in_half r :: out_half r :: rest) pre s e _ base b1 b2); try done; try lia.
  - unfold isolate_idx. by rewrite Hi, Hm, Hl.
  - simpl. unfold in_half, out_half, region_ok, rend in *; simpl. repeat split; try lia.
    eapply wf_from_weaken; [|exact Hwf]. lia.
  - simpl. lia.
  - intros _. do 2 (constructor; [simpl; lia|]).
    eapply wf_from_later; [exact Hwf|]. intros; lia.
  - intros _. constructor; [right; unfold rend; simpl; lia|]. constructor; [left; simpl; lia|].
    eapply wf_from_later; [exact Hwf|]. intros; lia.
  - erewrite cnt_split by done. simpl. lia.
Qed.

Lemma isolate_loop_spec fuel : isolate_ok fuel.
Proof.
  induction fuel as [|fuel IH]; intros rest pre s e t lo b1 b2 Hreg Htot Hlo Hwf Hfuel H1 H2 Hroom;
    [lia|]. cbn [isolate_loop]. destruct rest as [|r rest].
  { rewrite Hreg, lookup_ge_None_2 by (rewrite length_app; simpl; lia).
    unfold isolate_idx, isolated. simpl. rewrite <- Hreg. by destruct t. }
  rewrite Hreg at 1. rewrite list_lookup_middle by done.
  destruct Hwf as (Hb & Hok & Hwf). change (u64 (r_base r + r_size r)) with (r_end r).
  cbn zeta. rewrite (r_end_rend r Hok). pose proof Hok as (Hb0 & Hs & Hm).
  assert (Htl : forall P, Forall P (r :: rest) -> Forall P rest) by (intros P HF; by inversion HF).
  assert (HregS : regions t = (pre ++ [r]) ++ rest) by (by rewrite <- app_assoc).
  assert (Hlen : S (length pre) = length (pre ++ [r])) by (rewrite length_app; simpl; lia).
  unfold memblock_get_region_node. cbn [r_nid r_flags].
  destruct (r_base r >=? end_) eqn:?; zb.
  { unfold isolate_idx.
    destruct (isolated_done (r_base r) (r :: rest)) as [-> ->]; [lia|by split_and!|].
    rewrite <- Hreg. by destruct t. }
  destruct (rend r <=? base) eqn:?; zb.
  { destruct (isolated_below r rest) as (Hi & Hc & Hl); [done|lia|]. simpl in Hfuel.
    rewrite Hlen. rewrite (IH rest (pre ++ [r]) s e t (rend r) b1 b2); try done; try lia;
      [|unfold rend in *; lia|by intros ?%H1%Htl|by intros ?%H2%Htl].
    unfold isolate_idx. rewrite Hi, Hc, Hl, <- app_assoc, length_app. simpl.
    destruct (clips base end_ rest); [done|]. by rewrite <- Nat.add_assoc. }
  destruct (r_base r <? base) eqn:?; zb.
  { destruct b1 as [|b1]; [specialize (H1 eq_refl); inversion H1; lia|].
    rewrite (split_region_ok t pre r rest base) by (done || lia). cbn [mbind outcome_bind].
    by apply isolate_step_base with b1 b2. }
  destruct (rend r >? end_) eqn:?; zb.
  { destruct b2 as [|b2]; [specialize (H2 eq_refl); inversion H2; lia|].
    rewrite (split_region_ok t pre r rest end_) by (done || lia). cbn [mbind outcome_bind].
    apply isolate_step_end with b1 b2; done || lia. }
  destruct (isolated_inside r rest) as (Hi & Hc & Hl & Hnil); try done; try lia. simpl in Hfuel.
  rewrite Hlen. rewrite (IH rest (pre ++ [r]) _ _ t (rend r) b1 b2); try done; try lia;
    [|by intros ?%H1%Htl|by intros ?%H2%Htl].
  unfold isolate_idx. rewrite Hi, Hc, Hl, Hnil, <- app_assoc, length_app. simpl.
  rewrite !Nat.add_0_r. destruct (clips base end_ rest); simpl; [done|].
  replace (length pre + 1 =? 0)%nat with false by (symmetry; apply Nat.eqb_neq; lia).
  do 3 f_equal. lia.
Qed.

End Isolate.

(** ** Removing and updating the isolated regions *)
Section RemoveUpdate.
Context `{Arch}.

Definition dummy_region : memblock_region := mk_region 0 0 0 MAX_NUMNODES.

(** An array that lost its last region holds the dummy entry. *)
Definition or_dummy (rs : list memblock_region) : list memblock_region :=
  match rs with [] => [dummy_region] | _ => rs end.

Lemma or_dummy_attr rs a : attr (or_dummy rs) a = attr rs a.
Proof.
  destruct rs; [|done]. simpl. replace (contains dummy_region a) with false; [done|].
  symmetry. apply contains_false. unfold dummy_region, rend. simpl. lia.
Qed.

Lemma or_dummy_sizes rs : sizes (or_dummy rs) = sizes rs.
Proof. by destruct rs. Qed.

Lemma or_dummy_wf rs : wf_from 0 rs -> regions_wf (or_dummy rs).
Proof.
  destruct rs as [|r rs]; intros Hwf; [left; by exists MAX_NUMNODES|right; by split].
Qed.

Lemma remove_region_ok t pre r rest :
  regions t = pre ++ r :: rest ->
  memblock_remove_region t (length pre) =
  set_total (u64 (total_size t - r_size r)) (set_regions (or_dummy (pre ++ rest)) t).
Proof.
  intros Hreg. unfold memblock_remove_region, region_at.
  rewrite Hreg, list_lookup_middle by done. simpl.
  destruct (take_drop_split pre (r :: rest) (length pre) eq_refl) as [-> _].
  replace (drop (S (length pre)) (pre ++ r :: rest)) with rest
    by (rewrite drop_app_ge by lia; by replace (S (length pre) - length pre)%nat with 1%nat by lia).
  unfold cnt, set_regions, set_total. simpl. by destruct (pre ++ rest).
Qed.

Lemma remove_loop_ok mid low high t :
  mid <> [] -> regions t = low ++ mid ++ high ->
  is_u64 (sizes (regions t)) -> 0 <= sizes (low ++ high) ->
  Forall (fun r => 0 <= r_size r) mid -> total_size t = sizes (regions t) ->
  remove_loop (length mid) (length low) t =
  set_total (sizes (low ++ high)) (set_regions (or_dummy (low ++ high)) t).
Proof.
  revert t. induction mid as [|x mid IH] using rev_ind; intros t Hne Hreg Hu Hpos HF Htot; [done|].
  apply Forall_app in HF as [HF Hx]. inversion Hx as [|? ? Hx0 _]; subst.
  rewrite length_app, Nat.add_comm. simpl.
  rewrite <- length_app.
  rewrite (remove_region_ok t (low ++ mid) x high) by (by rewrite Hreg, <- !app_assoc).
  assert (Hsum : sizes (regions t) = sizes (low ++ mid ++ high) + r_size x).
  { rewrite Hreg, !sizes_app. simpl. lia. }
  assert (Hmid : sizes (low ++ high) <= sizes (low ++ mid ++ high)).
  { rewrite !sizes_app. clear -HF. induction HF; simpl in *; lia. }
  assert (Hu2 : is_u64 (sizes (low ++ mid ++ high))) by (unfold is_u64 in *; simpl in *; lia).
  rewrite <- app_assoc, Htot, Hsum.
  replace (sizes (low ++ mid ++ high) + r_size x - r_size x) with (sizes (low ++ mid ++ high)) by lia.
  rewrite u64_small by done.
  destruct mid as [|y mid]; [done|].
  assert (Hor : or_dummy (low ++ (y :: mid) ++ high) = low ++ (y :: mid) ++ high)
    by (by destruct low).
  by rewrite Hor, IH.
Qed.

Lemma update_loop_ok f mid pre rest t :
  regions t = pre ++ mid ++ rest ->
  update_loop f (length mid) (length pre) t = set_regions (pre ++ map f mid ++ rest) t.
Proof.
  revert pre t. induction mid as [|r mid IH]; intros pre t Hreg; simpl in *.
  - rewrite <- Hreg. by destruct t.
  - replace (S (length pre)) with (length (pre ++ [f r])) by (rewrite length_app; simpl; lia).
    rewrite IH; simpl; [by rewrite <- app_assoc|].
    rewrite Hreg. simpl. rewrite alter_app_r_alt by lia.
    rewrite Nat.sub_diag. simpl. by rewrite <- app_assoc.
Qed.

Lemma update_wf f lo rs :
  (forall r, r_base (f r) = r_base r /\ r_size (f r) = r_size r) ->
  wf_from lo rs -> wf_from lo (map f rs) /\ last_end lo (map f rs) = last_end lo rs /\
  sizes (map f rs) = sizes rs.
Proof.
  intros Hf. revert lo. induction rs as [|r rs IH]; intros lo; simpl; [done|].
  intros (Hlo & Hok & Hr). destruct (Hf r) as [Hb Hs].
  assert (He : rend (f r) = rend r) by (unfold rend; lia).
  rewrite He. destruct (IH _ Hr) as (? & ? & ?).
  unfold region_ok in *. rewrite Hb, Hs, He. split_and!; done || lia.
Qed.

(** The effect of a per-region update on attributes. *)
Lemma update_attr f (g : Z * Z -> Z * Z) rs a :
  (forall r, r_base (f r) = r_base r /\ r_size (f r) = r_size r /\
             (r_flags (f r), r_nid (f r)) = g (r_flags r, r_nid r)) ->
  attr (map f rs) a = g <$> attr rs a.
Proof.
  intros Hf. induction rs as [|r rs IH]; simpl; [done|].
  destruct (Hf r) as (Hb & Hs & Hg).
  assert (Hc : contains (f r) a = contains r a) by (unfold contains, rend; by rewrite Hb, Hs).
  rewrite Hc, IH, Hg. by destruct (contains r a).
Qed.

End RemoveUpdate.
