(* ===== verification/MemblockSpec.v ===== *)
(** * memblock: what adding, removing and marking a range promises

    The functional specification of [memblock_add_range],
    [memblock_remove_range], [memblock_setclr_flag] and [memblock_set_node], in
    terms of the attributes of addresses.  What the operations need from
    [memblock_double_array] is the class [ResizeSpec]; the theorems are proved
    against it and [memblock_double_array] is shown to be an instance. *)

From S2P Require Import Prelude MemblockDefs MemblockOps MemblockRegions MemblockSplit.

(** First address after the range once [memblock_cap_size] limited it. *)
Definition range_end (base size : Z) : Z := base + Z.min size (PHYS_ADDR_MAX - base).

(** The specification of an addition: addresses that had attributes keep them,
    the others of the range get the new ones. *)
Definition attr_added (base end_ flags nid : Z) (old : option (Z * Z)) (a : Z) : option (Z * Z) :=
  match old with
  | Some x => Some x
  | None => if in_range base end_ a then Some (flags, nid) else None
  end.

Definition attr_removed (base end_ : Z) (old : option (Z * Z)) (a : Z) : option (Z * Z) :=
  if in_range base end_ a then None else old.

Definition attr_updated (base end_ : Z) (g : Z * Z -> Z * Z) (old : option (Z * Z)) (a : Z)
    : option (Z * Z) :=
  if in_range base end_ a then g <$> old else old.

Definition tattr (t : memblock_type) (a : Z) : option (Z * Z) := attr (regions t) a.

Definition memblock_wf (m : memblock) : Prop :=
  type_wf (memory m) /\ type_wf (reserved m).

(** ** Facts about types *)
Lemma cap_end base size :
  is_u64 base -> is_u64 size ->
  memblock_cap_size base size = range_end base size - base /\
  u64 (base + memblock_cap_size base size) = range_end base size /\
  base <= range_end base size <= PHYS_ADDR_MAX.
Proof.
  unfold memblock_cap_size, range_end, is_u64, PHYS_ADDR_MAX. intros.
  rewrite (u64_small (2 ^ 64 - 1 - base)) by (unfold is_u64; lia).
  rewrite u64_small by (unfold is_u64; lia). lia.
Qed.

Lemma type_wf_get w m : memblock_wf m -> type_wf (get_type w m).
Proof. by destruct w; intros []. Qed.

Lemma type_wf_set w t m : memblock_wf m -> type_wf t -> memblock_wf (set_type w t m).
Proof. destruct w; intros [] ?; by split. Qed.

Lemma get_set_type w t m : get_type w (set_type w t m) = t.
Proof. by destruct w. Qed.

Lemma empty_first t : type_wf t ->
  (r_size (region_at t 0) =? 0) = true <-> empty_regions (regions t).
Proof.
  intros (Hrs & _). unfold region_at. split.
  - intros Hz. destruct Hrs as [He|(Hne & Hwf)]; [done|].
    destruct (regions t) as [|r rs]; [done|]. simpl in *. destruct Hwf as (_ & (_ & Hs & _) & _). lia.
  - intros (n & Hr). by rewrite Hr.
Qed.

Lemma type_wf_full t : type_wf t -> (r_size (region_at t 0) =? 0) = false ->
  regions t <> [] /\ wf_from 0 (regions t).
Proof.
  intros Hwf Hz. destruct (proj1 Hwf) as [He|?]; [|done].
  apply (empty_first t Hwf) in He. congruence.
Qed.

Lemma attr_empty rs a : empty_regions rs -> attr rs a = None.
Proof.
  intros (n & ->). simpl. replace (contains _ a) with false; [done|].
  symmetry. apply contains_false. unfold rend. simpl. lia.
Qed.

Lemma type_wf_total t : type_wf t -> is_u64 (total_size t).
Proof.
  intros ([(n & Hr)|(_ & Hwf)] & Ht & _); rewrite Ht; [rewrite Hr; done|by apply sizes_u64].
Qed.

(** Merging a well-formed array keeps what it denotes. *)
Lemma merge_type_ok t :
  regions t <> [] -> wf_from 0 (regions t) -> total_size t = sizes (regions t) ->
  cnt t <= mt_max t ->
  exists t', memblock_merge_regions t = Done t' /\ type_wf t' /\ minimal (regions t') /\
    mt_max t' = mt_max t /\ forall a, tattr t' a = tattr t a.
Proof.
  intros Hne Hwf Htot Hcnt.
  destruct (memblock_merge_regions_spec t Hne Hwf) as (rs & Hm & Hne' & Hwf' & Hmin & Hs & Hl & Ha).
  exists (set_regions rs t). split; [done|]. split; [|done].
  split; [by right|]. unfold cnt in *. simpl. split; [congruence|]. lia.
Qed.

Section Adding.
Context `{Arch}.
Variables (base end_ nid flags : Z).
Hypothesis Hbase : 0 <= base.
Hypothesis Hrange : base < end_ <= PHYS_ADDR_MAX.

Lemma add_pass_finish insert t :
  add_pass insert end_ nid flags base t =
  add_loop (S (length (regions t))) insert end_ nid flags 0 base 0 t ≫= finish end_ nid flags insert.
Proof.
  unfold add_pass, finish.
  destruct (add_loop _ _ _ _ _ _ _ _ _) as [[[[? ?] ?] ?]| | |]; done.
Qed.

Definition added_regions (t : memblock_type) : Z := new_regions end_ nid flags (regions t) base.

Lemma add_pass_count t : wf_from 0 (regions t) ->
  add_pass false end_ nid flags base t = Done (added_regions t, t).
Proof.
  intros Hwf. rewrite add_pass_finish.
  rewrite (add_count_loop end_ nid flags (regions t) [] base 0 t _ 0); done || lia.
Qed.

(** Inserting and merging when the array has room. *)
Lemma add_pass_merge t :
  type_wf t -> regions t <> [] -> wf_from 0 (regions t) ->
  cnt t + added_regions t <= mt_max t ->
  exists t2 t3, add_pass true end_ nid flags base t = Done (added_regions t, t2) /\
    memblock_merge_regions t2 = Done t3 /\ type_wf t3 /\ minimal (regions t3) /\
    mt_max t3 = mt_max t /\
    (forall a, tattr t3 a = attr_added base end_ flags nid (tattr t a) a).
Proof.
  intros Ht Hne Hwf Hroom.
  set (rs := ins end_ nid flags (regions t) base).
  assert (Hrs : wf_from 0 rs) by (apply ins_wf; done || lia).
  assert (Hlen := ins_length end_ nid flags (regions t) base). fold rs in Hlen.
  set (t2 := grown t (sizes rs - sizes (regions t)) rs).
  assert (Hpass : add_pass true end_ nid flags base t = Done (added_regions t, t2)).
  { rewrite add_pass_finish.
    rewrite (add_insert_loop end_ nid flags ltac:(lia) (regions t) [] base 0 t _ 0);
      try done; try lia. by apply type_wf_total. }
  destruct (merge_type_ok t2) as (t3 & Hm & Hwf3 & Hmin & Hmax & Ha).
  - simpl. intros Hnil. rewrite Hnil in Hlen. destruct (regions t); [done|simpl in Hlen; lia].
  - done.
  - unfold t2, grown. simpl. destruct Ht as (_ & -> & _).
    replace (sizes (regions t) + (sizes rs - sizes (regions t))) with (sizes rs) by lia.
    apply u64_small. by apply sizes_u64.
  - unfold added_regions, new_regions in Hroom. fold rs in Hroom. unfold cnt in *. simpl. lia.
  - exists t2, t3. split_and!; try done. intros a. rewrite Ha. unfold tattr, t2, grown. simpl.
    by apply attr_ins with 0.
Qed.

End Adding.

(** ** What doubling an array promises *)

(** Resizing an array, of either type, leaves the memory type as it was, but
    for a larger array, and does not touch the allocation policy. *)
Record resized (m m' : memblock) : Prop := {
  resized_memory : regions (memory m') = regions (memory m);
  resized_total : total_size (memory m') = total_size (memory m);
  resized_max : 0 <= mt_max (memory m) -> mt_max (memory m) <= mt_max (memory m');
  resized_limit : current_limit m' = current_limit m;
  resized_bottom_up : bottom_up m' = bottom_up m;
  resized_mirror : system_has_some_mirror m' = system_has_some_mirror m;
}.

#[export] Instance resized_preorder : PreOrder resized.
Proof.
  split; [by intros m|].
  intros m1 m2 m3 [? ? ? ? ? ?] [? ? ? ? ? ?]. split; try congruence. lia.
Qed.

Class ResizeSpec (dbl : mtype -> Z -> Z -> memblock -> outcome (Z * memblock)) : Prop := {
  resize_frame w b s m rc m' : dbl w b s m = Done (rc, m') -> resized m m';
}.

Section WithResize.
Context `{Arch} (dbl : mtype -> Z -> Z -> memblock -> outcome (Z * memblock)).

Lemma ensure_room_now fuel w need b s m :
  cnt (get_type w m) + need <= mt_max (get_type w m) ->
  ensure_room dbl (S fuel) w need b s m = Done (0, m).
Proof. intros Hroom. simpl. by replace (_ >? _) with false by lia. Qed.

(** The three ways through [memblock_add_range]: nothing to add, an empty array,
    and the counting pass followed by the inserting one. *)
Lemma add_range_zero w base size nid flags m :
  is_u64 base -> is_u64 size -> range_end base size = base ->
  memblock_add_range_ dbl w base size nid flags m = Done (0, m).
Proof.
  intros Hb Hs He. destruct (cap_end base size Hb Hs) as (Hc & _). unfold memblock_add_range_.
  by replace (memblock_cap_size base size =? 0) with true by lia.
Qed.

Lemma add_range_empty w base size nid flags m :
  type_wf (get_type w m) -> is_u64 base -> is_u64 size -> range_end base size <> base ->
  empty_regions (regions (get_type w m)) ->
  exists t', memblock_add_range_ dbl w base size nid flags m = Done (0, set_type w t' m) /\
    type_wf t' /\ minimal (regions t') /\
    (forall a, tattr t' a = attr_added base (range_end base size) flags nid (tattr (get_type w m) a) a).
Proof.
  intros Ht Hb Hs He Hemp.
  destruct (cap_end base size Hb Hs) as (Hc & Hu & Hle).
  unfold memblock_add_range_. rewrite Hc.
  replace (range_end base size - base =? 0) with false by lia.
  rewrite (proj2 (empty_first _ Ht) Hemp). destruct Hemp as (n & Hr). rewrite Hr. simpl.
  eexists. split; [done|]. unfold is_u64 in *. split; [|split; [done|]].
  - split; [right; split; [done|]|].
    + simpl. unfold region_ok, rend. simpl. repeat split; lia.
    + unfold cnt. simpl. split; [lia|]. destruct Ht as (_ & _ & Hcnt).
      unfold cnt in Hcnt. rewrite Hr in Hcnt. exact Hcnt.
  - intros a. unfold tattr. simpl. rewrite (attr_empty (regions (get_type w m))) by (by exists n).
    unfold attr_added. icase; try done; lia.
Qed.

Lemma add_range_full w base size nid flags m (e := range_end base size) :
  type_wf (get_type w m) -> is_u64 base -> is_u64 size -> e <> base ->
  regions (get_type w m) <> [] -> wf_from 0 (regions (get_type w m)) ->
  memblock_add_range_ dbl w base size nid flags m =
  if added_regions base e nid flags (get_type w m) =? 0 then Done (0, m) else
  r ← ensure_room dbl ROOM_FUEL w (added_regions base e nid flags (get_type w m)) base (e - base) m;
  let '(rc, m1) := r in
  if rc <? 0 then Done (rc, m1) else
  r ← add_pass true e nid flags base (get_type w m1);
  let '(nr_new2, t2) := r in
  if nr_new2 =? 0 then Done (0, set_type w t2 m1) else
  t3 ← memblock_merge_regions t2;
  Done (0, set_type w t3 m1).
Proof.
  intros Hwf Hb Hs He Hne Hw. destruct (cap_end base size Hb Hs) as (Hc & Hu & Hle).
  fold e in Hc, Hu, Hle. unfold memblock_add_range_. rewrite Hu, Hc.
  replace (e - base =? 0) with false by lia.
  replace (r_size (region_at (get_type w m) 0) =? 0) with false.
  - by rewrite add_pass_count.
  - unfold region_at. destruct (regions (get_type w m)) as [|r rs]; [done|]. simpl.
    destruct Hw as (_ & (_ & Hsz & _) & _). lia.
Qed.

(** When the counting pass finds nothing to insert, every address of the range
    had attributes. *)
Lemma added_none base e nid flags t a :
  wf_from 0 (regions t) -> added_regions base e nid flags t = 0 ->
  tattr t a = attr_added base e flags nid (tattr t a) a.
Proof.
  intros Hw Hz. unfold added_regions, new_regions in Hz.
  assert (Hsame : ins e nid flags (regions t) base = regions t) by (eapply ins_same; [done|lia]).
  pose proof (attr_ins e nid flags (regions t) base 0 a Hw) as Hins.
  rewrite Hsame in Hins. exact Hins.
Qed.

(** With room in the array, adding a range always returns, and gives exactly the
    specified attributes in a minimal array. *)
Lemma add_range_room w base size nid flags m :
  type_wf (get_type w m) -> is_u64 base -> is_u64 size ->
  cnt (get_type w m) + added_regions base (range_end base size) nid flags (get_type w m)
    <= mt_max (get_type w m) ->
  exists t', memblock_add_range_ dbl w base size nid flags m = Done (0, set_type w t' m) /\
    type_wf t' /\
    (forall a, tattr t' a = attr_added base (range_end base size) flags nid (tattr (get_type w m) a) a) /\
    (minimal (regions (get_type w m)) -> minimal (regions t')).
Proof.
  intros Ht Hb Hs Hroom.
  destruct (cap_end base size Hb Hs) as (_ & _ & Hle).
  assert (Hid : set_type w (get_type w m) m = m) by (destruct w, m; done).
  destruct (Z.eq_dec (range_end base size) base) as [Hz|Hnz].
  { exists (get_type w m). rewrite Hid, add_range_zero by done. split_and!; try done.
    intros a. unfold attr_added. rewrite Hz.
    replace (in_range base base a) with false by (symmetry; apply in_range_false; lia).
    by destruct (tattr _ a). }
  destruct (proj1 Ht) as [Hemp|(Hne & Hw)].
  { destruct (add_range_empty w base size nid flags m) as (t' & ? & ? & ? & ?); try done.
    exists t'. by split_and!. }
  rewrite add_range_full by done.
  destruct (added_regions _ _ _ _ _ =? 0) eqn:Hadd; zb.
  { exists (get_type w m). rewrite Hid. split_and!; try done. intros a. by apply added_none. }
  destruct (add_pass_merge base (range_end base size) nid flags ltac:(unfold is_u64 in *; lia)
    ltac:(lia) (get_type w m) Ht Hne Hw Hroom) as (t2 & t3 & Hp & Hm & Hwf3 & Hmin & _ & Ha).
  unfold ROOM_FUEL. rewrite ensure_room_now by done. cbn [mbind outcome_bind].
  change (0 <? 0) with false. cbn match. rewrite Hp. cbn [mbind outcome_bind].
  replace (added_regions _ _ _ _ _ =? 0) with false by lia.
  rewrite Hm. cbn [mbind outcome_bind]. exists t3. by split_and!.
Qed.

End WithResize.

(** ** Isolating, then removing or updating *)
Section IsolateType.
Context `{Arch}.
Variables (base end_ : Z).
Hypothesis Hrange : 0 <= base < end_.
Hypothesis Hmax : end_ <= PHYS_ADDR_MAX.

(** A split adds a region at each end of the range at most. *)
Lemma isolated_length lo rs : wf_from lo rs ->
  Z.of_nat (length (isolated base end_ rs)) <=
  Z.of_nat (length rs) + (if lo <? base then 1 else 0) + (if lo <? end_ then 1 else 0).
Proof.
  assert (Hlen : forall l, length (isolated base end_ l) =
    (length (clips 0 base l) + length (clips base end_ l) + length (clips end_ PHYS_ADDR_MAX l))%nat)
    by (intros; unfold isolated; rewrite !length_app; lia).
  revert lo. induction rs as [|r rs IH]; intros lo Hwf.
  { rewrite Hlen. simpl. repeat zcase; lia. }
  destruct Hwf as (Hlo & Hok & Hwf). specialize (IH _ Hwf). rewrite Hlen in IH |- *. simpl.
  rewrite !length_app. unfold clip. destruct Hok as (Hb & Hs & Hm).
  revert IH. unfold rend in *. repeat zcase; simpl; intros; lia.
Qed.

Lemma isolated_nonempty rs : rs <> [] -> wf_from 0 rs -> isolated base end_ rs <> [].
Proof.
  intros Hne Hwf Hnil. pose proof (isolated_sizes base end_ Hrange Hmax rs Hwf) as Hsz.
  rewrite Hnil in Hsz. destruct rs as [|r rs]; [done|]. simpl in Hwf, Hsz.
  destruct Hwf as (_ & (_ & ? & _) & Hw). pose proof (sizes_bound _ _ Hw). lia.
Qed.

Lemma isolated_type_wf t :
  type_wf t -> regions t <> [] -> wf_from 0 (regions t) -> cnt t + 2 <= mt_max t ->
  type_wf (set_regions (isolated base end_ (regions t)) t).
Proof.
  intros (_ & Htot & _) Hne Hwf Hroom. split; [right; split|].
  - by apply isolated_nonempty.
  - by apply isolated_wf.
  - simpl. rewrite isolated_sizes by done. split; [done|].
    pose proof (isolated_length 0 (regions t) Hwf). unfold cnt in *. simpl.
    revert H0. repeat zcase; lia.
Qed.

(** The loop never runs out of rounds, never inserts into a full array, and
    gives the indices of the regions inside the range. *)
Lemma isolate_type t :
  type_wf t -> cnt t + 2 <= mt_max t ->
  exists s e t1, isolate_loop (length (regions t) + 4) base end_ 0 0 0 t = Done (s, e, t1) /\
    type_wf t1 /\ mt_max t1 = mt_max t /\ (forall a, tattr t1 a = tattr t a) /\
    ((empty_regions (regions t) /\ t1 = t /\ e = s) \/
     (exists mid, mid = clips base end_ (regions t) /\
       regions t1 = clips 0 base (regions t) ++ mid ++ clips end_ PHYS_ADDR_MAX (regions t) /\
       regions t <> [] /\ wf_from 0 (regions t) /\
       (e - s)%nat = length mid /\ (mid <> [] -> s = length (clips 0 base (regions t))))).
Proof.
  intros Ht Hroom. pose proof Ht as (Hrs & Htot & Hcnt). destruct Hrs as [Hemp|(Hne & Hwf)].
  - exists 0%nat, 0%nat, t. split; [|split_and!; try done; by left].
    replace (length (regions t) + 4)%nat with (S (S (length (regions t) + 2))) by lia.
    generalize (length (regions t) + 2)%nat as f. intros f. cbn [isolate_loop].
    destruct Hemp as (n & Hr). rewrite Hr. simpl.
    replace (0 >=? end_) with false by lia. change (u64 (0 + 0)) with 0.
    by replace (0 <=? base) with true by lia.
  - pose proof (isolate_loop_spec base end_ Hrange Hmax (length (regions t) + 4)
      (regions t) [] 0%nat 0%nat t 0 1%nat 1%nat eq_refl (type_wf_total t Ht) ltac:(lia) Hwf
      ltac:(lia) ltac:(done) ltac:(done) ltac:(lia)) as Hloop.
    simpl in Hloop. unfold isolate_idx in Hloop.
    assert (Hres : exists s e,
      isolate_loop (length (regions t) + 4) base end_ 0 0 0 t =
        Done (s, e, set_regions (isolated base end_ (regions t)) t) /\
      (e - s)%nat = length (clips base end_ (regions t)) /\
      (clips base end_ (regions t) <> [] -> s = length (clips 0 base (regions t)))).
    { destruct (clips base end_ (regions t)) as [|x mid]; do 2 eexists; (split; [exact Hloop|]).
      - done.
      - simpl. split; [lia|done]. }
    destruct Hres as (s & e & Hl & He & Hs). do 3 eexists. split; [exact Hl|].
    split_and!; [by apply isolated_type_wf|done| |].
    + intros a. unfold tattr. simpl. by apply isolated_attr.
    + right. by exists (clips base end_ (regions t)).
Qed.

Lemma clips_positive lo hi rs : Forall (fun r => 0 <= r_size r) (clips lo hi rs).
Proof.
  induction rs as [|r rs IH]; simpl; [constructor|]. apply Forall_app. split; [|done].
  unfold clip. zcase; repeat constructor; simpl; lia.
Qed.

Lemma sizes_nonneg rs : Forall (fun r => 0 <= r_size r) rs -> 0 <= sizes rs.
Proof. induction 1; simpl in *; lia. Qed.

(** Below and above the range, put together. *)
Lemma outside_wf rs : wf_from 0 rs -> wf_from 0 (clips 0 base rs ++ clips end_ PHYS_ADDR_MAX rs).
Proof.
  intros Hwf. apply wf_from_app. split; [exact (clips_wf 0 base 0 rs ltac:(lia) Hwf)|].
  eapply wf_from_weaken; [|exact (clips_wf end_ PHYS_ADDR_MAX 0 rs ltac:(lia) Hwf)].
  pose proof (clips_last_end 0 0 base rs). lia.
Qed.

Lemma outside_attr rs a : wf_from 0 rs ->
  attr (clips 0 base rs ++ clips end_ PHYS_ADDR_MAX rs) a = attr_removed base end_ (attr rs a) a.
Proof.
  intros Hwf. pose proof (isolated_attr base end_ Hrange rs a Hwf) as Hi.
  unfold isolated in Hi. rewrite !attr_app, !clips_attr in Hi. unfold attr_removed.
  rewrite attr_app, !clips_attr. revert Hi. icase; intros Heq; try done; try lia;
    destruct (attr rs a); done.
Qed.

Lemma remove_type t :
  type_wf t -> cnt t + 2 <= mt_max t ->
  exists s e t1 t2, isolate_loop (length (regions t) + 4) base end_ 0 0 0 t = Done (s, e, t1) /\
    t2 = remove_loop (e - s) s t1 /\ type_wf t2 /\
    (forall a, tattr t2 a = attr_removed base end_ (tattr t a) a) /\
    total_size t2 = sizes (clips 0 base (regions t) ++ clips end_ PHYS_ADDR_MAX (regions t)).
Proof.
  intros Ht Hroom. destruct (isolate_type t Ht Hroom) as (s & e & t1 & Hl & Ht1 & Hm & Ha & Hcase).
  exists s, e, t1, (remove_loop (e - s) s t1). split; [done|]. split; [done|].
  destruct Hcase as [(Hemp & -> & ->)|(mid & Hmid & Hreg & Hne & Hwf & Hes & Hs)].
  { rewrite Nat.sub_diag. simpl. split; [done|]. split.
    - intros a. unfold tattr, attr_removed.
      rewrite attr_empty by done. by destruct (in_range _ _ _).
    - destruct Ht1 as (_ & -> & _). destruct Hemp as [n ->]. simpl.
      by rewrite !clip_outside by (left; unfold rend; simpl; lia). }
  rewrite Hes. destruct mid as [|x mid].
  { simpl. split; [done|]. split; [|destruct Ht1 as (_ & -> & _); by rewrite Hreg]. intros a. rewrite Ha. unfold attr_removed.
    destruct (in_range base end_ a) eqn:Hin; [|done].
    pose proof (clips_attr base end_ (regions t) a) as Hc. rewrite <- Hmid, Hin in Hc. by symmetry. }
  pose proof Ht1 as (Hrs1 & Htot1 & Hcnt1).
  set (low := clips 0 base (regions t)) in *. set (high := clips end_ PHYS_ADDR_MAX (regions t)) in *.
  rewrite Hs, remove_loop_ok with (high := high); try done.
  - split.
    + split; [by apply or_dummy_wf, outside_wf|]. simpl. rewrite or_dummy_sizes. split; [done|].
      unfold cnt in *. rewrite Hreg, !length_app in Hcnt1. simpl in *.
      assert (Hor : (length (or_dummy (low ++ high)) <= S (length (low ++ high)))%nat)
        by (destruct (low ++ high); simpl; lia).
      rewrite length_app in Hor. lia.
    + split; [|by simpl]. intros a. unfold tattr. simpl. rewrite or_dummy_attr. by apply outside_attr.
  - rewrite <- Htot1. by apply type_wf_total.
  - apply sizes_nonneg, Forall_app. split; apply clips_positive.
  - rewrite Hmid. apply clips_positive.
Qed.

(** An update of the isolated regions followed by a merge. *)
Lemma update_type t (f : memblock_region -> memblock_region) (g : Z * Z -> Z * Z) :
  (forall r, r_base (f r) = r_base r /\ r_size (f r) = r_size r /\
             (r_flags (f r), r_nid (f r)) = g (r_flags r, r_nid r)) ->
  type_wf t -> regions t <> [] -> wf_from 0 (regions t) -> cnt t + 2 <= mt_max t ->
  exists s e t1 t2, isolate_loop (length (regions t) + 4) base end_ 0 0 0 t = Done (s, e, t1) /\
    memblock_merge_regions (update_loop f (e - s) s t1) = Done t2 /\ type_wf t2 /\
    minimal (regions t2) /\
    (forall a, tattr t2 a = attr_updated base end_ g (tattr t a) a).
Proof.
  intros Hf Ht Hne Hwf Hroom.
  destruct (isolate_type t Ht Hroom) as (s & e & t1 & Hl & Ht1 & Hm & Ha & Hcase).
  destruct Hcase as [(Hemp & _)|(mid & Hmid & Hreg & _ & _ & Hes & Hs)].
  { destruct Hemp as (n & Hr). rewrite Hr in Hwf. destruct Hwf as (_ & (_ & Hz & _) & _). done. }
  set (low := clips 0 base (regions t)) in *. set (high := clips end_ PHYS_ADDR_MAX (regions t)) in *.
  assert (Hupd : update_loop f (e - s) s t1 = set_regions (low ++ map f mid ++ high) t1).
  { rewrite Hes. destruct mid as [|x mid].
    - simpl in *. rewrite <- Hreg. by destruct t1.
    - rewrite Hs by done. by apply update_loop_ok. }
  pose proof (isolated_wf base end_ Hrange _ Hwf) as Hiwf. unfold isolated in Hiwf.
  fold low high in Hiwf. rewrite <- Hmid in Hiwf. rewrite !wf_from_app in Hiwf.
  destruct Hiwf as (W1 & W2 & W3).
  destruct (update_wf f _ mid ltac:(intros r; destruct (Hf r) as (? & ? & ?); done) W2)
    as (W2' & L2 & S2).
  destruct Ht1 as (Hrs1 & Htot1 & Hcnt1).
  destruct (merge_type_ok (set_regions (low ++ map f mid ++ high) t1)) as (t2 & Hm2 & Hwf2 & Hmin & _ & Ha2).
  - simpl. intros Hnil. pose proof (isolated_nonempty (regions t) Hne Hwf) as Hin.
    apply Hin. unfold isolated. fold low high. rewrite <- Hmid.
    destruct low; [|done]. destruct mid; [|done]. by destruct high.
  - simpl. rewrite !wf_from_app, L2. done.
  - simpl. rewrite Htot1, Hreg, !sizes_app, S2. done.
  - unfold cnt in *. simpl. rewrite Hreg, !length_app, ?length_map in *. done.
  - exists s, e, t1, t2. rewrite Hupd. split_and!; try done.
    intros a. rewrite Ha2, <- Ha. unfold tattr. simpl. rewrite Hreg, !attr_app.
    rewrite (update_attr f g) by done. unfold attr_updated.
    pose proof (isolated_attr base end_ Hrange (regions t) a Hwf) as Hi.
    unfold isolated in Hi. rewrite !attr_app, !clips_attr in Hi. subst low high mid.
    rewrite !clips_attr. revert Hi. icase; intros Heq; try lia; destruct (attr (regions t) a); done.
Qed.

End IsolateType.

Lemma set_set_type w t t' m : set_type w t (set_type w t' m) = set_type w t m.
Proof. by destruct w. Qed.

(** With room for two more regions, removing a range always returns and removes
    the attributes of exactly that range. *)
Lemma remove_range_room `{Arch} dbl w base size m :
  type_wf (get_type w m) -> is_u64 base -> is_u64 size ->
  cnt (get_type w m) + 2 <= mt_max (get_type w m) ->
  exists t', memblock_remove_range_ dbl w base size m = Done (0, set_type w t' m) /\ type_wf t' /\
    (forall a, tattr t' a = attr_removed base (range_end base size) (tattr (get_type w m) a) a) /\
    (base < range_end base size -> total_size t' = sizes (clips 0 base (regions (get_type w m)) ++
       clips (range_end base size) PHYS_ADDR_MAX (regions (get_type w m)))).
Proof.
  intros Ht Hb Hs Hroom. destruct (cap_end base size Hb Hs) as (Hc & Hu & Hle).
  unfold memblock_remove_range_, memblock_isolate_range_. rewrite Hu, Hc.
  destruct (range_end base size - base =? 0) eqn:Hz; zb.
  - exists (get_type w m). split; [by destruct w, m|]. split; [done|]. split; [|lia].
    intros a. unfold attr_removed.
    by replace (in_range _ _ a) with false by (symmetry; apply in_range_false; lia).
  - unfold ROOM_FUEL. rewrite ensure_room_now by done. cbn [mbind outcome_bind].
    change (0 <? 0) with false. cbn match.
    destruct (remove_type base (range_end base size) ltac:(unfold is_u64 in *; lia) ltac:(lia)
      (get_type w m) Ht Hroom) as (s & e & t1 & t2 & Hl & -> & Hwf & Ha & Hsz).
    rewrite Hl. cbn [mbind outcome_bind bool_of]. change (bool_of 0) with false. cbn match.
    rewrite get_set_type, set_set_type. eexists. by split_and!.
Qed.

(** ** The memory type, with any resizing function that keeps its promise *)
Lemma resized_set_reserved m m1 t : resized m m1 -> resized m (set_type RESERVED t m1).
Proof. intros [? ? ? ? ? ?]. by split. Qed.

Lemma resized_type_wf m m1 : resized m m1 -> type_wf (memory m) -> type_wf (memory m1).
Proof.
  intros [Hr Ht Hm _ _ _] (H1 & H2 & H3). unfold type_wf, cnt in *. rewrite Hr, Ht.
  split_and!; try done. specialize (Hm ltac:(lia)). lia.
Qed.

(** What an operation on the memory type did: attributes as [spec] says, and the
    reserved type at most resized. *)
Definition memory_changed (spec : option (Z * Z) -> Z -> option (Z * Z)) (m m' : memblock) : Prop :=
  type_wf (memory m') /\ forall a, tattr (memory m') a = spec (tattr (memory m) a) a.

Lemma memory_changed_set spec m m1 t :
  resized m m1 -> type_wf t -> (forall a, tattr t a = spec (tattr (memory m1) a) a) ->
  memory_changed spec m (set_type MEMORY t m1).
Proof.
  intros Hr Ht Ha. split; [done|]. intros a. simpl. rewrite Ha. unfold tattr.
  by rewrite (resized_memory _ _ Hr).
Qed.

(** The outcome of an operation on the memory type. *)
Definition memory_result (spec : option (Z * Z) -> Z -> option (Z * Z)) (m : memblock)
    (rc : Z) (m' : memblock) : Prop :=
  (rc = 0 /\ memory_changed spec m m') \/
  (rc = - ENOMEM /\ type_wf (memory m') /\ forall a, tattr (memory m') a = tattr (memory m) a).

Section Sound.
Context `{Arch} (dbl : mtype -> Z -> Z -> memblock -> outcome (Z * memblock)) `{!ResizeSpec dbl}.

Lemma ensure_room_spec fuel w need b s m rc m1 :
  ensure_room dbl fuel w need b s m = Done (rc, m1) ->
  resized m m1 /\
  ((rc = 0 /\ cnt (get_type w m1) + need <= mt_max (get_type w m1)) \/ rc = - ENOMEM).
Proof.
  revert m. induction fuel as [|fuel IH]; intros m HD; [done|]. simpl in HD.
  destruct (_ >? _) eqn:?; zb.
  - destruct (dbl w b s m) as [[rc' m']| | |] eqn:Hd; simpl in HD; try done.
    apply resize_frame in Hd as Hr.
    destruct (rc' <? 0); [injection HD as <- <-; split; auto|].
    apply IH in HD as (? & ?). split; [by etransitivity|done].
  - injection HD as <- <-. split; [done|]. left. split; [done|lia].
Qed.

Lemma enomem_result spec m m1 :
  type_wf (memory m) -> resized m m1 -> memory_result spec m (- ENOMEM) m1.
Proof.
  intros Hwf Hr. right. split; [done|]. split; [by eapply resized_type_wf|].
  intros a. unfold tattr. by rewrite (resized_memory _ _ Hr).
Qed.

Lemma add_memory_sound base size nid flags m rc m' :
  type_wf (memory m) -> is_u64 base -> is_u64 size ->
  memblock_add_range_ dbl MEMORY base size nid flags m = Done (rc, m') ->
  memory_result (attr_added base (range_end base size) flags nid) m rc m'.
Proof.
  intros Ht Hb Hs HD. destruct (cap_end base size Hb Hs) as (_ & _ & Hle).
  destruct (Z.eq_dec (range_end base size) base) as [Hz|Hnz].
  { rewrite add_range_zero in HD by done. injection HD as <- <-. left. split; [done|].
    split; [done|]. intros a. unfold attr_added. rewrite Hz.
    replace (in_range base base a) with false by (symmetry; apply in_range_false; lia).
    by destruct (tattr _ a). }
  destruct (proj1 Ht) as [Hemp|(Hne & Hw)].
  { destruct (add_range_empty dbl MEMORY base size nid flags m) as (t' & Heq & Hwf' & _ & Ha); try done.
    rewrite Heq in HD. injection HD as <- <-. left. split; [done|]. by apply memory_changed_set. }
  rewrite add_range_full in HD by done. set (e := range_end base size) in *.
  destruct (added_regions _ _ _ _ _ =? 0) eqn:Hadd; zb.
  { injection HD as <- <-. left. split; [done|]. split; [done|]. intros a. by apply added_none. }
  apply bind_Done in HD as ([rc1 m1] & Hroom1 & HD).
  apply ensure_room_spec in Hroom1 as (Hr1 & Hrc).
  destruct Hrc as [(-> & Hr)| ->]; [|injection HD as <- <-; by apply enomem_result].
  change (0 <? 0) with false in HD. cbn match in HD.
  assert (Hadd1 : added_regions base e nid flags (memory m1) = added_regions base e nid flags (memory m))
    by (unfold added_regions; by rewrite (resized_memory _ _ Hr1)).
  destruct (add_pass_merge base e nid flags ltac:(unfold is_u64 in *; lia) ltac:(lia) (memory m1))
    as (t2 & t3 & Hp & Hm & Hwf3 & _ & _ & Ha); try (by rewrite (resized_memory _ _ Hr1)).
  - by eapply resized_type_wf.
  - rewrite Hadd1. exact Hr.
  - simpl in HD. rewrite Hp in HD. cbn [mbind outcome_bind] in HD.
    replace (added_regions base e nid flags (memory m1) =? 0) with false in HD by (simpl in Hadd; lia).
    rewrite Hm in HD. injection HD as <- <-. left. split; [done|]. by apply memory_changed_set.
Qed.

(** Isolation of a range of the memory type, with what may follow it. *)
Lemma isolate_memory_cases base size m rc s e m' :
  type_wf (memory m) -> is_u64 base -> is_u64 size ->
  memblock_isolate_range_ dbl MEMORY base size m = Done (rc, s, e, m') ->
  (rc = - ENOMEM /\ resized m m') \/
  (rc = 0 /\ range_end base size = base /\ s = 0%nat /\ e = 0%nat /\ m' = m) \/
  (rc = 0 /\ base < range_end base size <= PHYS_ADDR_MAX /\ exists m1 t, resized m m1 /\
     type_wf (memory m1) /\ cnt (memory m1) + 2 <= mt_max (memory m1) /\
     isolate_loop (length (regions (memory m1)) + 4) base (range_end base size) 0 0 0 (memory m1)
       = Done (s, e, t) /\ m' = set_type MEMORY t m1).
Proof.
  intros Ht Hb Hs. destruct (cap_end base size Hb Hs) as (Hc & Hu & Hle).
  unfold memblock_isolate_range_. rewrite Hu, Hc.
  destruct (range_end base size - base =? 0) eqn:Hz; zb.
  { intros [= <- <- <- <-]. right. left. split_and!; try done. lia. }
  intros HD. apply bind_Done in HD as ([rc1 m1] & Hroom & HD).
  apply ensure_room_spec in Hroom as (Hr & Hrc).
  destruct Hrc as [(-> & Hroom)| ->]; [|injection HD as <- <- <- <-; by left].
  change (0 <? 0) with false in HD. cbn match in HD.
  apply bind_Done in HD as ([[s' e'] t] & Hl & HD). injection HD as <- <- <- <-.
  right. right. split; [done|]. split; [lia|]. exists m1, t. split_and!; try done.
  by eapply resized_type_wf.
Qed.

Lemma remove_memory_sound base size m rc m' :
  type_wf (memory m) -> is_u64 base -> is_u64 size ->
  memblock_remove_range_ dbl MEMORY base size m = Done (rc, m') ->
  memory_result (attr_removed base (range_end base size)) m rc m'.
Proof.
  intros Ht Hb Hs HD. unfold memblock_remove_range_ in HD.
  apply bind_Done in HD as ([[[rc1 s] e] m1] & Hi & HD).
  apply isolate_memory_cases in Hi; try done.
  destruct Hi as [(-> & Hr)|[(-> & Hz & -> & -> & ->)|(-> & He & m2 & t & Hr & Ht2 & Hroom & Hl & ->)]].
  - injection HD as <- <-. by apply enomem_result.
  - simpl in HD. injection HD as <- <-. left. split; [done|]. split; [done|]. intros a.
    unfold attr_removed. rewrite Hz. simpl.
    by replace (in_range base base a) with false by (symmetry; apply in_range_false; lia).
  - simpl in HD. injection HD as <- <-. left. split; [done|].
    destruct (remove_type base (range_end base size) ltac:(unfold is_u64 in *; lia) ltac:(lia)
      (memory m2) Ht2 Hroom) as (s' & e' & t1 & t2 & Hl' & -> & Hwf & Ha & _).
    rewrite Hl in Hl'. injection Hl' as <- <- <-.
    change (set_memory ?t (set_memory _ m2)) with (set_type MEMORY t m2).
    by apply memory_changed_set.
Qed.

End Sound.

(** An empty array has nothing to update or merge. *)
Lemma merge_empty t : empty_regions (regions t) -> memblock_merge_regions t = Done t.
Proof. intros (n & Hr). unfold memblock_merge_regions. rewrite Hr. simpl. by rewrite Hr. Qed.

Lemma minimal_empty rs : empty_regions rs -> minimal rs.
Proof. by intros (n & ->). Qed.

(** ** [memblock_double_array] keeps the promise *)
Section DoubleArray.
Context `{Arch}.

(** Operations on the reserved type, resizing included, frame the memory type. *)
Lemma reserve_frame dbl `{!ResizeSpec dbl} base size nid flags m rc m' :
  memblock_add_range_ dbl RESERVED base size nid flags m = Done (rc, m') -> resized m m'.
Proof.
  unfold memblock_add_range_. set (sz := memblock_cap_size base size).
  destruct (sz =? 0); [by intros [= <- <-]|].
  destruct (r_size _ =? 0); [intros [= <- <-]; by apply resized_set_reserved|].
  intros HD. apply bind_Done in HD as ([nr t0] & _ & HD).
  destruct (nr =? 0); [by injection HD as <- <-|].
  apply bind_Done in HD as ([rc1 m1] & Hroom & HD). apply ensure_room_spec in Hroom as (Hr & _); [|done].
  destruct (rc1 <? 0); [by injection HD as <- <-|].
  apply bind_Done in HD as ([nr2 t2] & _ & HD).
  destruct (nr2 =? 0); [injection HD as <- <-; by apply resized_set_reserved|].
  apply bind_Done in HD as (t3 & _ & HD). injection HD as <- <-. by apply resized_set_reserved.
Qed.

Lemma isolate_reserved_frame dbl `{!ResizeSpec dbl} base size m rc s e m' :
  memblock_isolate_range_ dbl RESERVED base size m = Done (rc, s, e, m') -> resized m m'.
Proof.
  unfold memblock_isolate_range_. destruct (_ =? 0); [by intros [= <- <- <- <-]|].
  intros HD. apply bind_Done in HD as ([rc1 m1] & Hroom & HD).
  apply ensure_room_spec in Hroom as (Hr & _); [|done].
  destruct (rc1 <? 0); [by injection HD as <- <- <- <-|].
  apply bind_Done in HD as ([[s' e'] t] & _ & HD). injection HD as <- <- <- <-.
  by apply resized_set_reserved.
Qed.

Lemma free_frame dbl `{!ResizeSpec dbl} base size m rc m' :
  memblock_remove_range_ dbl RESERVED base size m = Done (rc, m') -> resized m m'.
Proof.
  unfold memblock_remove_range_. intros HD. apply bind_Done in HD as ([[[rc1 s] e] m1] & Hi & HD).
  apply isolate_reserved_frame in Hi; [|done].
  destruct (bool_of rc1); injection HD as <- <-; [done|]. by apply resized_set_reserved.
Qed.

Lemma resized_new_array w m addr :
  resized m (set_type w (mk_type (Z.shiftl (mt_max (get_type w m)) 1) (total_size (get_type w m))
                          (regions (get_type w m)) (RegionsAt addr)) m).
Proof.
  destruct w; split; simpl; try done; intros; rewrite ?Z.shiftl_mul_pow2 by lia; lia.
Qed.

Lemma resized_in_slab w b m m' : resized m m' -> resized m (set_in_slab w b m').
Proof. intros [? ? ? ? ? ?]. by split. Qed.

#[export] Instance double_array_resize depth : ResizeSpec (memblock_double_array depth).
Proof.
  induction depth as [|depth IH]; split; intros w b s m rc m' HD; [done|]. simpl in HD.
  destruct (memblock_can_resize m); simpl in HD; [|by injection HD as <- <-].
  apply bind_Done in HD as (addr & _ & HD). destruct (addr =? 0); [by injection HD as <- <-|].
  pose proof (resized_new_array w m addr) as Hr1. set (m1 := set_type w _ m) in *.
  apply bind_Done in HD as (m2 & H2 & HD). apply bind_Done in HD as (m3 & H3 & HD).
  injection HD as <- <-. apply resized_in_slab.
  assert (Hr2 : resized m m2).
  { destruct (in_slab w m); [by injection H2 as <-|].
    destruct (mt_array (get_type w m)) as [|pa]; [by injection H2 as <-|].
    apply bind_Done in H2 as ([rc2 m2'] & Hf & H2). injection H2 as <-.
    etransitivity; [exact Hr1|]. by eapply free_frame. }
  destruct slab_is_available; [by injection H3 as <-|].
  apply bind_Done in H3 as ([rc3 m3'] & Ha & H3). apply bind_Done in H3 as (u & _ & H3).
  injection H3 as <-. etransitivity; [exact Hr2|]. by eapply reserve_frame.
Qed.

#[export] Instance double_array_closed : ResizeSpec double_array := double_array_resize RESIZE_DEPTH.

End DoubleArray.

(** Updating the regions of a range of the memory type. *)
Lemma update_memory_sound `{Arch} f g base size m rc m' :
  (forall r, r_base (f r) = r_base r /\ r_size (f r) = r_size r /\
             (r_flags (f r), r_nid (f r)) = g (r_flags r, r_nid r)) ->
  type_wf (memory m) -> is_u64 base -> is_u64 size ->
  isolate_update_merge MEMORY f base size m = Done (rc, m') ->
  memory_result (attr_updated base (range_end base size) g) m rc m' /\
  (rc = 0 -> minimal (regions (memory m'))).
Proof.
  intros Hf Ht Hb Hs HD. unfold isolate_update_merge in HD.
  apply bind_Done in HD as ([[[rc1 s] e] m1] & Hi & HD).
  apply isolate_memory_cases in Hi; try done; [|apply _].
  destruct Hi as [(-> & Hr)|[(-> & Hz & -> & -> & ->)|(-> & He & m2 & t & Hr & Ht2 & Hroom & Hl & ->)]].
  - injection HD as <- <-. split; [by apply enomem_result|done].
  - simpl in HD. assert (Hout : forall a, tattr (memory m) a =
      attr_updated base (range_end base size) g (tattr (memory m) a) a).
    { intros a. unfold attr_updated. rewrite Hz.
      by replace (in_range base base a) with false by (symmetry; apply in_range_false; lia). }
    destruct (proj1 Ht) as [Hemp|(Hne & Hw)].
    + rewrite merge_empty in HD by done. injection HD as <- <-. split; [|intros _; by apply minimal_empty].
      left. split; [done|]. split; [done|exact Hout].
    + destruct (merge_type_ok (memory m) Hne Hw) as (t' & Hm & Hwf' & Hmin & _ & Ha); try apply Ht.
      rewrite Hm in HD. injection HD as <- <-. split; [|done]. left. split; [done|].
      split; [done|]. intros a. simpl. by rewrite Ha, <- Hout.
  - cbn [bool_of] in HD. change (bool_of 0) with false in HD. cbn match in HD.
    rewrite get_set_type in HD.
    destruct (proj1 Ht2) as [Hemp|(Hne & Hw)].
    + destruct (isolate_type base (range_end base size) ltac:(unfold is_u64 in *; lia) ltac:(lia)
        (memory m2) Ht2 Hroom) as (s' & e' & t1 & Hl' & Ht1 & _ & Ha & Hcase).
      rewrite Hl in Hl'. injection Hl' as <- <- <-.
      destruct Hcase as [(_ & -> & ->)|(mid & _ & _ & _ & Hw & _)];
        [|destruct Hemp as (n & Hrr); rewrite Hrr in Hw; by destruct Hw as (_ & (_ & ? & _) & _)].
      rewrite Nat.sub_diag in HD. simpl in HD. rewrite merge_empty in HD by done.
      injection HD as <- <-. split; [|intros _; by apply minimal_empty].
      left. split; [done|]. change (set_memory ?t (set_memory _ m2)) with (set_type MEMORY t m2).
      apply memory_changed_set; try done.
      intros a. unfold attr_updated, tattr. rewrite attr_empty by done. by destruct (in_range _ _ _).
    + destruct (update_type base (range_end base size) ltac:(unfold is_u64 in *; lia) ltac:(lia)
        (memory m2) f g Hf Ht2 Hne Hw Hroom) as (s' & e' & t1 & t2 & Hl' & Hm & Hwf & Hmin & Ha).
      rewrite Hl in Hl'. injection Hl' as <- <- <-. rewrite Hm in HD. injection HD as <- <-.
      split; [|done]. left. split; [done|].
      change (set_memory ?t (set_memory _ m2)) with (set_type MEMORY t m2).
      by apply memory_changed_set.
Qed.
