(* ===== verification/MemblockProps.v ===== *)
(** * memblock: properties of the region operations

    [memblock_add_range] and [memblock_remove_range] with room in the array,
    [memblock_setclr_flag] and [memblock_set_node], each with a run on a concrete
    machine.  Resizing is in [MemblockResize]. *)

From S2P Require Import Prelude MemblockDefs MemblockOps MemblockRegions MemblockSplit MemblockSpec.

(** A 4 KiB-page arm64 machine before the slab allocator is up. *)
Definition arm64 : Arch := {|
  PAGE_SIZE := 4096;
  SMP_CACHE_BYTES := 64;
  MAX_NUMNODES := 16;
  sizeof_memblock_region := 24;
  kernel_end_pa := 0x41000000;
  movable_node_is_enabled := false;
  slab_is_available := false;
  kmalloc_pa := fun _ => 0;
  kzalloc_node := fun _ _ => 0;
  phys_to_virt := fun a => u64 (a + 0xffff800000000000);
  PAGE_ALIGN := fun a => round_up a 4096;
  PFN_UP := fun a => Z.shiftr (u64 (a + 4095)) 12;
  PFN_DOWN := fun a => Z.shiftr a 12;
  PFN_PHYS := fun p => u64 (Z.shiftl p 12);
|}.

(** Memory [0x40000000, 0x80000000) and [0xc0000000, 0xd0000000) on node 0. *)
Definition demo_memory : list memblock_region :=
  [mk_region 0x40000000 0x40000000 0 0; mk_region 0xc0000000 0x10000000 0 0].
Definition demo : memblock :=
  set_memory (mk_type 128 0x50000000 demo_memory InitRegions) memblock_init.

Lemma demo_memory_wf : type_wf (memory demo).
Proof.
  split; [right; split; [done|]|by split; vm_compute].
  simpl. unfold region_ok, rend. simpl. repeat split; vm_compute; done.
Defined.

Lemma is_u64_dec z : ((0 <=? z) && (z <? 2 ^ 64))%bool = true -> is_u64 z.
Proof. unfold is_u64. rewrite andb_true_iff, Z.leb_le, Z.ltb_lt. tauto. Defined.

(** When the region array has room, adding a range to either type returns 0
    without resizing, stops at no BUG_ON, gives exactly the specified attributes
    and keeps the array minimal (no two mergeable neighbours). *)
Theorem memblock_add_range_total `{Arch} w base size nid flags m :
  type_wf (get_type w m) -> is_u64 base -> is_u64 size ->
  cnt (get_type w m) + added_regions base (range_end base size) nid flags (get_type w m)
    <= mt_max (get_type w m) ->
  exists t', memblock_add_range w base size nid flags m = Done (0, set_type w t' m) /\ type_wf t' /\
    (forall a, tattr t' a = attr_added base (range_end base size) flags nid (tattr (get_type w m) a) a) /\
    (minimal (regions (get_type w m)) -> minimal (regions t')).
Proof. apply add_range_room. Qed.

Lemma memblock_add_range_total_witness :
  exists t', memblock_add_range (H := arm64) MEMORY 0x7f000000 0x42000000 0 0 demo
               = Done (0, set_type MEMORY t' demo) /\ minimal (regions t').
Proof.
  destruct (@memblock_add_range_total arm64 MEMORY 0x7f000000 0x42000000 0 0 demo) as (t' & Heq & _ & _ & Hmin).
  - apply demo_memory_wf.
  - by apply is_u64_dec.
  - by apply is_u64_dec.
  - by vm_compute.
  - exists t'. split; [exact Heq|]. apply Hmin. by vm_compute.
Defined.

(** With two free slots in its array, removing a range from either type
    (freeing reserved memory in particular) returns 0 and removes exactly the
    range, also when the last region goes. *)
Theorem memblock_remove_range_total `{Arch} w base size m :
  type_wf (get_type w m) -> is_u64 base -> is_u64 size ->
  cnt (get_type w m) + 2 <= mt_max (get_type w m) ->
  exists t', memblock_remove_range w base size m = Done (0, set_type w t' m) /\ type_wf t' /\
    forall a, tattr t' a = attr_removed base (range_end base size) (tattr (get_type w m) a) a.
Proof.
  intros Ht Hb Hs Hroom.
  destruct (remove_range_room double_array w base size m Ht Hb Hs Hroom) as (t' & ? & ? & ? & _).
  by exists t'.
Qed.

Lemma memblock_remove_range_total_witness :
  exists t', memblock_remove_range (H := arm64) MEMORY 0 0xffffffffffffffff demo
               = Done (0, set_type MEMORY t' demo) /\ tattr t' 0x40000000 = None.
Proof.
  destruct (@memblock_remove_range_total arm64 MEMORY 0 0xffffffffffffffff demo) as (t' & Heq & _ & Ha).
  - apply demo_memory_wf.
  - by apply is_u64_dec.
  - by apply is_u64_dec.
  - by vm_compute.
  - exists t'. split; [exact Heq|]. rewrite Ha. by vm_compute.
Defined.

(** The effect of [memblock_setclr_flag] on the attributes of an address. *)
Definition setclr_attr (set : bool) (flag : Z) (x : Z * Z) : Z * Z :=
  (if set then Z.lor x.1 flag else Z.land x.1 (Z.lnot flag), x.2).

(** Marking a range (hotplug, mirror, nomap) sets or clears the flag on
    exactly the addresses of memory in the range, splitting regions at its ends
    and merging afterwards; every node is kept, and the array ends up minimal. *)
Theorem memblock_setclr_flag_spec `{Arch} base size set flag m rc m' :
  type_wf (memory m) -> is_u64 base -> is_u64 size ->
  memblock_setclr_flag base size set flag m = Done (rc, m') ->
  memory_result (attr_updated base (range_end base size) (setclr_attr set flag)) m rc m' /\
  (rc = 0 -> minimal (regions (memory m'))).
Proof. apply update_memory_sound. by intros r; destruct set. Qed.

Lemma memblock_setclr_flag_spec_witness :
  exists m', memblock_setclr_flag (H := arm64) 0x48000000 0x1000 true MEMBLOCK_NOMAP demo = Done (0, m') /\
    length (regions (memory m')) = 4%nat /\
    memory_result (attr_updated 0x48000000 0x48001000 (setclr_attr true MEMBLOCK_NOMAP)) demo 0 m'.
Proof.
  eexists. split; [vm_compute; reflexivity|]. split; [reflexivity|].
  apply (@memblock_setclr_flag_spec arm64 0x48000000 0x1000 true MEMBLOCK_NOMAP);
    [apply demo_memory_wf|by apply is_u64_dec|by apply is_u64_dec|vm_compute; reflexivity].
Defined.

(** Assigning a node to a range of memory sets the node of exactly the
    addresses of memory in the range and no flag. *)
Theorem memblock_set_node_spec `{Arch} base size nid m rc m' :
  type_wf (memory m) -> is_u64 base -> is_u64 size ->
  memblock_set_node base size MEMORY nid m = Done (rc, m') ->
  memory_result (attr_updated base (range_end base size) (fun x => (x.1, nid))) m rc m' /\
  (rc = 0 -> minimal (regions (memory m'))).
Proof. by apply update_memory_sound. Qed.

Lemma memblock_set_node_spec_witness :
  exists m', memblock_set_node (H := arm64) 0x60000000 0x70000000 MEMORY 1 demo = Done (0, m') /\
    length (regions (memory m')) = 3%nat /\
    memory_result (attr_updated 0x60000000 0xd0000000 (fun x => (x.1, 1))) demo 0 m'.
Proof.
  eexists. split; [vm_compute; reflexivity|]. split; [reflexivity|].
  apply (@memblock_set_node_spec arm64 0x60000000 0x70000000 1);
    [apply demo_memory_wf|by apply is_u64_dec|by apply is_u64_dec|vm_compute; reflexivity].
Defined.
