(* ===== verification/MemblockIter.v ===== *)
(** * memblock: the lock-step iterators

    [__next_mem_range] and [__next_mem_range_rev] walk the memory regions and
    the gaps between reserved regions in lock step.  The reference is the nested
    enumeration of all intersecting pairs, [free_ranges]; this file shows that
    iterating either function to the end enumerates it, forwards and
    backwards. *)

From S2P Require Import Prelude MemblockDefs MemblockOps MemblockRegions MemblockSpec.

Section Iter.
Context `{Arch}.
Variables (nid flags : Z) (ta tb : memblock_type).

Definition start_a (i : Z) : Z := r_base (region_at ta (Z.to_nat i)).
Definition end_a (i : Z) : Z := r_end (region_at ta (Z.to_nat i)).
Definition nid_a (i : Z) : Z := r_nid (region_at ta (Z.to_nat i)).

(** Region [i] of [ta] meets the gap before region [j] of [tb]. *)
Definition hit (i j : Z) : bool := (gap_start tb j <? end_a i) && (start_a i <? gap_end tb j).

Definition range_of (i j : Z) : Z * Z * Z :=
  (Z.max (start_a i) (gap_start tb j), Z.min (end_a i) (gap_end tb j), nid_a i).

Definition skipped (i : Z) : bool := should_skip_region nid flags (region_at ta (Z.to_nat i)).

(** The ranges of region [i] with [n] gaps from [j] on. *)
Fixpoint row (n : nat) (i j : Z) : list (Z * Z * Z) :=
  match n with
  | O => []
  | S n' => (if hit i j then [range_of i j] else []) ++ row n' i (j + 1)
  end.

Definition row_from (i j : Z) : list (Z * Z * Z) :=
  if skipped i then [] else row (Z.to_nat (cnt tb + 1 - j)) i j.

(** The ranges of [n] regions from [i] on. *)
Fixpoint rows (n : nat) (i : Z) : list (Z * Z * Z) :=
  match n with
  | O => []
  | S n' => row_from i 0 ++ rows n' (i + 1)
  end.

Definition rows_from (i : Z) : list (Z * Z * Z) := rows (Z.to_nat (cnt ta - i)) i.

(** All free ranges of [ta], in increasing order. *)
Definition free_ranges : list (Z * Z * Z) := rows_from 0.

(** Iterating [next] from [idx] to the end of the iteration. *)
Fixpoint iterate (next : Z -> next_res) (fuel : nat) (idx : Z) : option (list (Z * Z * Z)) :=
  match fuel with
  | O => None
  | S fuel' =>
      match next idx with
      | NextEnd => Some []
      | Next idx' s e n => cons (s, e, n) <$> iterate next fuel' idx'
      end
  end.

(** *** Index packing *)
Lemma pack_eq a b : 0 <= b < 2 ^ 32 -> pack_idx a b = u32 a + b * 2 ^ 32.
Proof.
  intros Hb. unfold pack_idx. rewrite (u64_small b) by (unfold is_u64; lia).
  rewrite u64_small by (rewrite Z.shiftl_mul_pow2 by lia; unfold is_u64; lia).
  rewrite <- Z.shiftl_mul_pow2 by lia. symmetry. apply Z.add_nocarry_lor.
  apply land_shiftl_low; [lia|]. apply Z.mod_pos_bound. lia.
Qed.

Lemma unpack_pack a b :
  -1 <= a < 2 ^ 31 -> 0 <= b < 2 ^ 31 ->
  unpack_a (pack_idx a b) = a /\ unpack_b (pack_idx a b) = b /\ pack_idx a b <> ULLONG_MAX.
Proof.
  intros Ha Hb. rewrite pack_eq by lia.
  assert (Hu : 0 <= u32 a < 2 ^ 32) by (apply Z.mod_pos_bound; lia).
  unfold unpack_a, unpack_b. split_and!.
  - change 0xffffffff with (Z.ones 32). rewrite Z.land_ones by lia.
    rewrite Z.mod_add by lia. rewrite (Z.mod_small (u32 a)) by lia.
    destruct (Z.eq_dec a (-1)) as [->|]; [reflexivity|].
    rewrite u32_small by lia. by rewrite s32_small by lia.
  - rewrite Z.shiftr_div_pow2 by lia. rewrite Z.div_add by lia.
    rewrite (Z.div_small (u32 a)) by lia. by rewrite s32_small by lia.
  - unfold ULLONG_MAX. lia.
Qed.

(** *** Order *)

(** What the iterators need of the two arrays. *)
Hypothesis a_ordered : forall i k, 0 <= i -> i < k -> k < cnt ta -> end_a i <= start_a k.
Hypothesis a_region : forall i, 0 <= i < cnt ta -> start_a i <= end_a i.
Hypothesis b_gap : forall j k, 0 <= j -> j < k -> k <= cnt tb -> gap_end tb j <= gap_start tb k.
Hypothesis b_region : forall j, 0 <= j <= cnt tb -> gap_start tb j <= gap_end tb j.
Hypothesis a_small : cnt ta < 2 ^ 31 - 1.
Hypothesis b_small : cnt tb < 2 ^ 31 - 1.

Lemma start_a_mono i k : 0 <= i <= k -> k < cnt ta -> start_a i <= start_a k.
Proof.
  intros Hi Hk. destruct (Z.eq_dec i k) as [->|]; [lia|].
  pose proof (a_region i ltac:(lia)). pose proof (a_ordered i k ltac:(lia) ltac:(lia) Hk). lia.
Qed.

Lemma gap_start_mono j k : 0 <= j <= k -> k <= cnt tb -> gap_start tb j <= gap_start tb k.
Proof.
  intros Hj Hk. destruct (Z.eq_dec j k) as [->|]; [lia|].
  pose proof (b_region j ltac:(lia)). pose proof (b_gap j k ltac:(lia) ltac:(lia) Hk). lia.
Qed.

Lemma gap_end_mono j k : 0 <= j <= k -> k <= cnt tb -> gap_end tb j <= gap_end tb k.
Proof.
  intros Hj Hk. destruct (Z.eq_dec j k) as [->|]; [lia|].
  pose proof (b_region k ltac:(lia)). pose proof (b_gap j k ltac:(lia) ltac:(lia) Hk). lia.
Qed.

Lemma hit_iff i j : hit i j = true <-> gap_start tb j < end_a i /\ start_a i < gap_end tb j.
Proof. unfold hit. by rewrite andb_true_iff, !Z.ltb_lt. Qed.

Lemma hit_false i j : hit i j = false <-> end_a i <= gap_start tb j \/ gap_end tb j <= start_a i.
Proof. unfold hit. by rewrite andb_false_iff, !Z.ltb_ge. Qed.

(** *** Rows *)
Lemma row_nil n i j : (forall k, j <= k < j + Z.of_nat n -> hit i k = false) -> row n i j = [].
Proof.
  revert j. induction n as [|n IH]; intros j Hh; simpl; [done|].
  rewrite (Hh j) by lia. apply IH. intros; apply Hh. lia.
Qed.

Lemma row_app n1 n2 i j : row (n1 + n2) i j = row n1 i j ++ row n2 i (j + Z.of_nat n1).
Proof.
  revert j. induction n1 as [|n1 IH]; intros j; simpl.
  - by rewrite Z.add_0_r.
  - rewrite IH, <- app_assoc. do 3 f_equal. lia.
Qed.

(** Gaps without a hit can be left out. *)
Lemma row_from_skip i j j' :
  0 <= j <= j' -> j' <= cnt tb + 1 -> (forall k, j <= k < j' -> hit i k = false) ->
  row_from i j = row_from i j'.
Proof.
  intros Hj Hj' Hh. unfold row_from. destruct (skipped i); [done|].
  replace (Z.to_nat (cnt tb + 1 - j)) with (Z.to_nat (j' - j) + Z.to_nat (cnt tb + 1 - j'))%nat by lia.
  rewrite row_app, row_nil; [simpl; f_equal; lia|]. intros k Hk. apply Hh. lia.
Qed.

Lemma row_from_nil i j :
  0 <= j -> (forall k, j <= k <= cnt tb -> hit i k = false) -> row_from i j = [].
Proof.
  intros Hj Hh. unfold row_from. destruct (skipped i); [done|]. apply row_nil. intros. apply Hh. lia.
Qed.

Lemma row_from_hit i j :
  skipped i = false -> 0 <= j <= cnt tb -> hit i j = true ->
  row_from i j = range_of i j :: row_from i (j + 1).
Proof.
  intros Hs Hj Hh. unfold row_from. rewrite Hs.
  replace (Z.to_nat (cnt tb + 1 - j)) with (S (Z.to_nat (cnt tb + 1 - (j + 1)))) by lia.
  simpl. by rewrite Hh.
Qed.

Lemma rows_from_step i : 0 <= i < cnt ta -> rows_from i = row_from i 0 ++ rows_from (i + 1).
Proof.
  intros Hi. unfold rows_from.
  replace (Z.to_nat (cnt ta - i)) with (S (Z.to_nat (cnt ta - (i + 1)))) by lia. done.
Qed.

Lemma rows_from_end i : cnt ta <= i -> rows_from i = [].
Proof. intros Hi. unfold rows_from. by replace (Z.to_nat (cnt ta - i)) with 0%nat by lia. Qed.

(** *** The forward iterator *)

(** What is left to enumerate at indices [a] and [b]. *)
Definition todo (a b : Z) : list (Z * Z * Z) :=
  if a <? cnt ta then row_from a b ++ rows_from (a + 1) else [].

(** No later region meets a gap that was left behind. *)
Definition behind (a b : Z) : Prop := forall i j, a < i < cnt ta -> 0 <= j < b -> hit i j = false.

Lemma todo_next a b : 0 <= a -> 0 <= b <= cnt tb + 1 -> behind a b ->
  rows_from (a + 1) = todo (a + 1) b.
Proof.
  intros Ha Hb Hbeh. unfold todo. destruct (a + 1 <? cnt ta) eqn:Hc; zb.
  - rewrite rows_from_step by lia. f_equal. apply row_from_skip; [lia|lia|].
    intros k Hk. apply Hbeh; lia.
  - by apply rows_from_end.
Qed.

Lemma scan_b_spec n a b :
  0 <= a < cnt ta -> 0 <= b -> Z.of_nat n = cnt tb + 1 - b ->
  match scan_b n (start_a a) (end_a a) tb b with
  | NoMatch b' => b <= b' <= cnt tb + 1 /\ (forall j, b <= j < b' -> gap_end tb j <= start_a a) /\
      (forall j, b' <= j <= cnt tb -> hit a j = false)
  | Match b' rs re => b <= b' <= cnt tb /\ (forall j, b <= j < b' -> gap_end tb j <= start_a a) /\
      hit a b' = true /\ rs = gap_start tb b' /\ re = gap_end tb b'
  end.
Proof.
  intros Ha. revert b. induction n as [|n IH]; intros b Hb Hn; simpl.
  - split_and!; [lia|lia|intros; lia|intros; lia].
  - destruct (gap_start tb b >=? end_a a) eqn:H1; zb.
    { split_and!; [lia|lia|intros; lia|]. intros j Hj. apply hit_false. left.
      pose proof (gap_start_mono b j ltac:(lia) ltac:(lia)). lia. }
    destruct (start_a a <? gap_end tb b) eqn:H2; zb.
    { split_and!; try done; try lia. apply hit_iff. lia. }
    specialize (IH (b + 1) ltac:(lia) ltac:(lia)).
    assert (Hcov : forall P : Z -> Prop, P b -> forall x, (forall j, b + 1 <= j < x -> P j) ->
      forall j, b <= j < x -> P j).
    { intros P Pb x Hx j Hj. destruct (Z.eq_dec j b) as [->|]; [done|]. apply Hx. lia. }
    destruct (scan_b n _ _ tb (b + 1)) as [b'|b' rs re].
    + destruct IH as (? & ? & ?). split_and!; [lia|lia|by apply Hcov|done].
    + destruct IH as (? & ? & ? & ? & ?). split_and!; [lia|lia|by apply Hcov|done|done|done].
Qed.

(** What one call of the iterator does to what is left. *)
Definition next_ok (a b : Z) (r : next_res) : Prop :=
  match r with
  | NextEnd => todo a b = []
  | Next idx s e n => exists a' b', idx = pack_idx a' b' /\ 0 <= a' <= cnt ta /\
      0 <= b' <= cnt tb + 1 /\ behind a' b' /\ a + b < a' + b' /\
      todo a b = (s, e, n) :: todo a' b'
  end.

Lemma scan_a_spec n a b :
  0 <= a -> Z.of_nat n = cnt ta - a -> 0 <= b <= cnt tb + 1 -> behind a b ->
  next_ok a b (scan_a n nid flags ta (Some tb) a b).
Proof.
  revert a b. induction n as [|n IH]; intros a b Ha Hn Hb Hbeh; simpl.
  { unfold next_ok, todo. by replace (a <? cnt ta) with false by lia. }
  assert (Htodo : todo a b = row_from a b ++ rows_from (a + 1))
    by (unfold todo; by replace (a <? cnt ta) with true by lia).
  assert (Hlater : forall b', b <= b' -> (forall j, b <= j < b' -> gap_end tb j <= start_a a) -> behind a b').
  { intros b' Hbb Hge i j Hi Hj. destruct (Z.lt_ge_cases j b); [apply Hbeh; lia|].
    apply hit_false. right. pose proof (Hge j ltac:(lia)).
    pose proof (start_a_mono a i ltac:(lia) ltac:(lia)). lia. }
  assert (Hstep : forall b', b <= b' <= cnt tb + 1 -> behind a b' -> row_from a b = [] ->
    next_ok a b (scan_a n nid flags ta (Some tb) (a + 1) b')).
  { intros b' Hbb Hbeh' Hnil.
    specialize (IH (a + 1) b' ltac:(lia) ltac:(lia) ltac:(lia)).
    assert (Hbeh1 : behind (a + 1) b') by (intros i j Hi Hj; apply Hbeh'; lia).
    specialize (IH Hbeh1). unfold next_ok in *.
    rewrite Htodo, Hnil, (todo_next a b') by (done || lia). simpl.
    destruct (scan_a n _ _ _ _ _ _); [done|].
    destruct IH as (a' & b'' & ? & ? & ? & ? & ? & ?). exists a', b''. split_and!; try done; lia. }
  fold (skipped a). destruct (skipped a) eqn:Hskip.
  { apply Hstep; [lia|done|]. unfold row_from. by rewrite Hskip. }
  fold (start_a a) (end_a a).
  replace (rounds b (cnt tb + 1)) with (Z.to_nat (cnt tb + 1 - b))
    by (unfold rounds; by replace (b <? 0) with false by lia).
  pose proof (scan_b_spec (Z.to_nat (cnt tb + 1 - b)) a b ltac:(lia) ltac:(lia) ltac:(lia)) as Hscan.
  destruct (scan_b _ _ _ tb b) as [b'|b' rs re].
  - destruct Hscan as (Hb' & Hge & Hno). apply Hstep; [lia|apply Hlater; [lia|done]|].
    apply row_from_nil; [lia|]. intros k Hk. destruct (Z.lt_ge_cases k b'); [|apply Hno; lia].
    apply hit_false. right. apply Hge. lia.
  - destruct Hscan as (Hb' & Hge & Hhit & -> & ->).
    assert (Hbeh' : behind a b') by (apply Hlater; [lia|done]).
    assert (Hrow : row_from a b = range_of a b' :: row_from a (b' + 1)).
    { rewrite (row_from_skip a b b') by (lia || (intros; apply hit_false; right; apply Hge; lia)).
      apply row_from_hit; done || lia. }
    unfold next_ok. rewrite Htodo, Hrow. apply hit_iff in Hhit as Hhit'.
    destruct (end_a a <=? gap_end tb b') eqn:Hadv; zb.
    + exists (a + 1), b'. split_and!; try lia; [intros i j ? ?; apply Hbeh'; lia|].
      rewrite (row_from_nil a (b' + 1)); [|lia|].
      * by rewrite (todo_next a b') by (done || lia).
      * intros k Hk. apply hit_false. left. pose proof (b_gap b' k ltac:(lia) ltac:(lia) ltac:(lia)). lia.
    + exists a, (b' + 1). split_and!; try lia; [|].
      * intros i j Hi Hj. destruct (Z.eq_dec j b') as [->|]; [|apply Hbeh'; lia].
        apply hit_false. right. pose proof (a_ordered a i ltac:(lia) ltac:(lia) ltac:(lia)). lia.
      * unfold todo. by replace (a <? cnt ta) with true by lia.
Qed.

Hypothesis nid_valid : nid <> MAX_NUMNODES.

Lemma next_mem_range_ok a b :
  0 <= a <= cnt ta -> 0 <= b <= cnt tb + 1 -> behind a b ->
  next_ok a b (__next_mem_range (pack_idx a b) nid flags ta (Some tb)).
Proof.
  intros Ha Hb Hbeh. unfold __next_mem_range.
  destruct (unpack_pack a b ltac:(lia) ltac:(lia)) as (-> & -> & _).
  replace (nid =? MAX_NUMNODES) with false by lia.
  apply scan_a_spec; [lia| |lia|done]. unfold rounds. replace (a <? 0) with false by lia. lia.
Qed.

Lemma iterate_next fuel a b :
  0 <= a <= cnt ta -> 0 <= b <= cnt tb + 1 -> behind a b ->
  cnt ta + cnt tb + 1 - a - b < Z.of_nat fuel ->
  iterate (fun idx => __next_mem_range idx nid flags ta (Some tb)) fuel (pack_idx a b) = Some (todo a b).
Proof.
  revert a b. induction fuel as [|fuel IH]; intros a b Ha Hb Hbeh Hf; [lia|]. simpl.
  pose proof (next_mem_range_ok a b Ha Hb Hbeh) as Hn. unfold next_ok in Hn.
  destruct (__next_mem_range _ _ _ _ _) as [|idx s e n]; [by rewrite Hn|].
  destruct Hn as (a' & b' & -> & Ha' & Hb' & Hbeh' & Hlt & ->).
  by rewrite IH by (done || lia).
Qed.

Lemma behind_start : behind 0 0.
Proof. intros i j ? ?. lia. Qed.

(** Iterating forwards from index 0 enumerates the free ranges. *)
Lemma iterate_forward fuel :
  cnt ta + cnt tb + 1 < Z.of_nat fuel ->
  iterate (fun idx => __next_mem_range idx nid flags ta (Some tb)) fuel 0 = Some free_ranges.
Proof.
  intros Hf. change 0 with (pack_idx 0 0) at 1.
  rewrite iterate_next; [|unfold cnt in *; lia|unfold cnt in *; lia|apply behind_start|lia].
  unfold todo, free_ranges. destruct (0 <? cnt ta) eqn:Hc; zb.
  - by rewrite (rows_from_step 0) by lia.
  - by rewrite rows_from_end by lia.
Qed.

(** *** The reverse iterator *)

(** The ranges of region [i] with the gaps up to [j]. *)
Definition row_upto (i j : Z) : list (Z * Z * Z) :=
  if skipped i then [] else row (Z.to_nat (j + 1)) i 0.

Lemma row_upto_skip i j j' :
  -1 <= j' <= j -> (forall k, j' < k <= j -> hit i k = false) -> row_upto i j = row_upto i j'.
Proof.
  intros Hj Hh. unfold row_upto. destruct (skipped i); [done|].
  replace (Z.to_nat (j + 1)) with (Z.to_nat (j' + 1) + Z.to_nat (j - j'))%nat by lia.
  rewrite row_app, (row_nil (Z.to_nat (j - j'))), app_nil_r; [done|]. intros k Hk. apply Hh. lia.
Qed.

Lemma row_upto_nil i j : (forall k, 0 <= k <= j -> hit i k = false) -> row_upto i j = [].
Proof.
  intros Hh. unfold row_upto. destruct (skipped i); [done|]. apply row_nil. intros. apply Hh. lia.
Qed.

Lemma row_upto_hit i j :
  skipped i = false -> 0 <= j -> hit i j = true -> row_upto i j = row_upto i (j - 1) ++ [range_of i j].
Proof.
  intros Hs Hj Hh. unfold row_upto. rewrite Hs.
  replace (Z.to_nat (j + 1)) with (Z.to_nat (j - 1 + 1) + 1)%nat by lia.
  rewrite row_app. f_equal. replace (0 + Z.of_nat (Z.to_nat (j - 1 + 1))) with j by lia.
  simpl. by rewrite Hh.
Qed.

Lemma rows_app n1 n2 i : rows (n1 + n2) i = rows n1 i ++ rows n2 (i + Z.of_nat n1).
Proof.
  revert i. induction n1 as [|n1 IH]; intros i; simpl.
  - by rewrite Z.add_0_r.
  - rewrite IH, <- app_assoc. do 3 f_equal. lia.
Qed.

Definition rows_upto (a : Z) : list (Z * Z * Z) := rows (Z.to_nat (a + 1)) 0.

Lemma rows_upto_step a : 0 <= a -> rows_upto a = rows_upto (a - 1) ++ row_upto a (cnt tb).
Proof.
  intros Ha. unfold rows_upto.
  replace (Z.to_nat (a + 1)) with (Z.to_nat (a - 1 + 1) + 1)%nat by lia.
  rewrite rows_app. f_equal. replace (0 + Z.of_nat (Z.to_nat (a - 1 + 1))) with a by lia.
  simpl. rewrite app_nil_r. unfold row_upto, row_from. by rewrite Z.sub_0_r.
Qed.

(** What is left to enumerate backwards at indices [a] and [b]. *)
Definition todo_rev (a b : Z) : list (Z * Z * Z) :=
  if a <? 0 then [] else rows_upto (a - 1) ++ row_upto a b.

(** No earlier region meets a gap that was left behind. *)
Definition ahead (a b : Z) : Prop := forall i j, 0 <= i < a -> b < j <= cnt tb -> hit i j = false.

Lemma todo_rev_next a b : 0 <= a -> -1 <= b <= cnt tb -> ahead a b -> rows_upto (a - 1) = todo_rev (a - 1) b.
Proof.
  intros Ha Hb Hah. unfold todo_rev. destruct (a - 1 <? 0) eqn:Hc; zb.
  - unfold rows_upto. by replace (Z.to_nat (a - 1 + 1)) with 0%nat by lia.
  - rewrite rows_upto_step by lia. f_equal. apply row_upto_skip; [lia|]. intros k Hk. apply Hah; lia.
Qed.

Lemma scan_b_rev_spec n a b :
  0 <= a < cnt ta -> b <= cnt tb -> Z.of_nat n = b + 1 ->
  match scan_b_rev n (start_a a) (end_a a) tb b with
  | NoMatch b' => -1 <= b' <= b /\ (forall j, b' < j <= b -> end_a a <= gap_start tb j) /\
      (forall j, 0 <= j <= b' -> hit a j = false)
  | Match b' rs re => 0 <= b' <= b /\ (forall j, b' < j <= b -> end_a a <= gap_start tb j) /\
      hit a b' = true /\ rs = gap_start tb b' /\ re = gap_end tb b'
  end.
Proof.
  intros Ha. revert b. induction n as [|n IH]; intros b Hb Hn; simpl.
  - split_and!; [lia|lia|intros; lia|intros; lia].
  - destruct (gap_end tb b <=? start_a a) eqn:H1; zb.
    { split_and!; [lia|lia|intros; lia|]. intros j Hj. apply hit_false. right.
      pose proof (gap_end_mono j b ltac:(lia) ltac:(lia)). lia. }
    destruct (end_a a >? gap_start tb b) eqn:H2; zb.
    { split_and!; try done; try lia. apply hit_iff. lia. }
    specialize (IH (b - 1) ltac:(lia) ltac:(lia)).
    assert (Hcov : forall P : Z -> Prop, P b -> forall x, (forall j, x < j <= b - 1 -> P j) ->
      forall j, x < j <= b -> P j).
    { intros P Pb x Hx j Hj. destruct (Z.eq_dec j b) as [->|]; [done|]. apply Hx. lia. }
    destruct (scan_b_rev n _ _ tb (b - 1)) as [b'|b' rs re].
    + destruct IH as (? & ? & ?). split_and!; [lia|lia|by apply Hcov|done].
    + destruct IH as (? & ? & ? & ? & ?). split_and!; [lia|lia|by apply Hcov|done|done|done].
Qed.

Definition next_rev_ok (a b : Z) (r : next_res) : Prop :=
  match r with
  | NextEnd => todo_rev a b = []
  | Next idx s e n => exists a' b', idx = pack_idx a' b' /\ -1 <= a' < cnt ta /\
      0 <= b' <= cnt tb /\ ahead a' b' /\ a' + b' < a + b /\
      todo_rev a b = todo_rev a' b' ++ [(s, e, n)]
  end.

Lemma ahead_lower a b b' :
  0 <= a < cnt ta -> ahead a b -> (forall j, b' < j <= b -> end_a a <= gap_start tb j) -> ahead a b'.
Proof.
  intros Ha Hah Hge i j Hi Hj. destruct (Z.lt_ge_cases b j); [apply Hah; lia|].
  apply hit_false. left. pose proof (Hge j ltac:(lia)). pose proof (a_region a ltac:(lia)).
  pose proof (a_ordered i a ltac:(lia) ltac:(lia) ltac:(lia)). lia.
Qed.

(** The step of the reverse iterator at a match. *)
Lemma match_rev a b b' :
  0 <= a < cnt ta -> 0 <= b' <= b -> b <= cnt tb -> ahead a b' -> skipped a = false -> 0 <= start_a a ->
  row_upto a b = row_upto a b' -> hit a b' = true ->
  next_rev_ok a b (Next (if start_a a >=? gap_start tb b' then pack_idx (a - 1) b' else pack_idx a (b' - 1))
    (Z.max (start_a a) (gap_start tb b')) (Z.min (end_a a) (gap_end tb b')) (nid_a a)).
Proof.
  intros Ha Hb' Hb Hah Hskip H0 Hrow Hhit. unfold next_rev_ok.
  assert (Htodo : todo_rev a b = rows_upto (a - 1) ++ row_upto a (b' - 1) ++ [range_of a b']).
  { unfold todo_rev. replace (a <? 0) with false by lia. rewrite Hrow. f_equal. apply row_upto_hit; done || lia. }
  rewrite Htodo. apply hit_iff in Hhit as Hhit'.
  destruct (start_a a >=? gap_start tb b') eqn:Hadv; zb.
  - exists (a - 1), b'. split_and!; try lia; [intros i j ? ?; apply Hah; lia|].
    rewrite (row_upto_nil a (b' - 1)).
    + by rewrite (todo_rev_next a b') by (done || lia).
    + intros k Hk. apply hit_false. right. pose proof (b_gap k b' ltac:(lia) ltac:(lia) ltac:(lia)). lia.
  - assert (0 < b').
    { destruct (Z.eq_dec b' 0) as [->|]; [|lia]. unfold gap_start in Hadv. simpl in Hadv. lia. }
    exists a, (b' - 1). split_and!; try lia.
    + intros i j Hi Hj. destruct (Z.eq_dec j b') as [->|]; [|apply Hah; lia].
      apply hit_false. left. pose proof (a_ordered i a ltac:(lia) ltac:(lia) ltac:(lia)). lia.
    + unfold todo_rev. replace (a <? 0) with false by lia. by rewrite <- app_assoc.
Qed.

Hypothesis a_nonneg : forall i, 0 <= i < cnt ta -> 0 <= start_a i.

Lemma scan_a_rev_spec n a b :
  a < cnt ta -> Z.of_nat n = a + 1 -> -1 <= b <= cnt tb -> ahead a b ->
  next_rev_ok a b (scan_a_rev n nid flags ta (Some tb) a b).
Proof.
  revert a b. induction n as [|n IH]; intros a b Ha Hn Hb Hah; simpl.
  { unfold next_rev_ok, todo_rev. by replace (a <? 0) with true by lia. }
  assert (Hstep : forall b', -1 <= b' <= b -> ahead a b' -> row_upto a b = [] ->
    next_rev_ok a b (scan_a_rev n nid flags ta (Some tb) (a - 1) b')).
  { intros b' Hbb Hah' Hnil.
    specialize (IH (a - 1) b' ltac:(lia) ltac:(lia) ltac:(lia)).
    assert (Hah1 : ahead (a - 1) b') by (intros i j Hi Hj; apply Hah'; lia).
    specialize (IH Hah1).
    assert (Htodo : todo_rev a b = todo_rev (a - 1) b').
    { unfold todo_rev at 1. replace (a <? 0) with false by lia.
      rewrite Hnil, app_nil_r. apply todo_rev_next; done || lia. }
    unfold next_rev_ok in *. rewrite Htodo. destruct (scan_a_rev n _ _ _ _ _ _); [done|].
    destruct IH as (a' & b'' & ? & ? & ? & ? & ? & ?). exists a', b''. split_and!; try done; lia. }
  fold (skipped a). destruct (skipped a) eqn:Hskip.
  { apply Hstep; [lia|done|]. unfold row_upto. by rewrite Hskip. }
  fold (start_a a) (end_a a).
  pose proof (scan_b_rev_spec (Z.to_nat (b + 1)) a b ltac:(lia) ltac:(lia) ltac:(lia)) as Hscan.
  destruct (scan_b_rev _ _ _ tb b) as [b'|b' rs re].
  - destruct Hscan as (Hb' & Hge & Hno). apply Hstep; [lia|by apply (ahead_lower a b); [lia| |]|].
    apply row_upto_nil. intros k Hk. destruct (Z.lt_ge_cases b' k); [|apply Hno; lia].
    apply hit_false. left. apply Hge. lia.
  - destruct Hscan as (Hb' & Hge & Hhit & -> & ->). apply match_rev; try done; try lia.
    + by apply (ahead_lower a b); [lia| |].
    + apply a_nonneg. lia.
    + apply row_upto_skip; [lia|]. intros k Hk. apply hit_false. left. apply Hge. lia.
Qed.

Lemma iterate_rev_from fuel a b :
  -1 <= a < cnt ta -> 0 <= b <= cnt tb -> ahead a b -> a + b + 1 < Z.of_nat fuel ->
  forall idx, (unpack_a idx = a /\ unpack_b idx = b /\ idx <> ULLONG_MAX) \/
    (idx = ULLONG_MAX /\ a = cnt ta - 1 /\ b = cnt tb) ->
  iterate (fun idx => __next_mem_range_rev idx nid flags ta (Some tb)) fuel idx
    = Some (rev (todo_rev a b)).
Proof.
  revert a b. induction fuel as [|fuel IH]; intros a b Ha Hb Hah Hf idx Hidx; [lia|]. simpl.
  assert (Hn : next_rev_ok a b (__next_mem_range_rev idx nid flags ta (Some tb))).
  { unfold __next_mem_range_rev. replace (nid =? MAX_NUMNODES) with false by lia.
    destruct Hidx as [(Hia & Hib & Hne)|(-> & -> & ->)].
    - replace (idx =? ULLONG_MAX) with false by lia. rewrite Hia, Hib.
      apply scan_a_rev_spec; done || lia.
    - rewrite Z.eqb_refl. apply scan_a_rev_spec; done || lia. }
  unfold next_rev_ok in Hn.
  destruct (__next_mem_range_rev _ _ _ _ _) as [|idx' s e n]; [by rewrite Hn|].
  destruct Hn as (a' & b' & -> & Ha' & Hb' & Hah' & Hlt & ->).
  rewrite (IH a' b'); try done; try lia.
  - by rewrite rev_app_distr.
  - left. apply unpack_pack; lia.
Qed.

(** Iterating backwards from ULLONG_MAX enumerates the free ranges in reverse. *)
Lemma iterate_backward fuel :
  cnt ta + cnt tb + 1 < Z.of_nat fuel ->
  iterate (fun idx => __next_mem_range_rev idx nid flags ta (Some tb)) fuel ULLONG_MAX
    = Some (rev free_ranges).
Proof.
  intros Hf. assert (Hc : 0 <= cnt ta /\ 0 <= cnt tb) by (unfold cnt; lia).
  rewrite (iterate_rev_from fuel (cnt ta - 1) (cnt tb)); [|lia|lia|intros i j ? ?; lia|lia|by right].
  do 2 f_equal. unfold todo_rev, free_ranges, rows_from.
  destruct (cnt ta - 1 <? 0) eqn:Hz; zb.
  - by replace (Z.to_nat (cnt ta - 0)) with 0%nat by lia.
  - rewrite <- rows_upto_step by lia. unfold rows_upto. f_equal. lia.
Qed.

End Iter.
