(* ===== verification/MemblockFind.v ===== *)
(** * memblock: what the searches find

    The free ranges the iterators enumerate are exactly the addresses of usable
    memory that are not reserved, and [memblock_find_in_range_node] on top of
    them returns the highest (or, bottom-up, the lowest) aligned address at which
    the request fits. *)

From S2P Require Import Prelude MemblockDefs MemblockOps MemblockRegions MemblockSpec MemblockProps MemblockIter.

(** ** Order of a well-formed array *)
Lemma regions_wf_lookup rs i r : regions_wf rs -> rs !! i = Some r ->
  0 <= r_base r /\ r_base r <= rend r /\ rend r <= PHYS_ADDR_MAX /\ r_end r = rend r.
Proof.
  intros [[nid ->]|[_ Hwf]] Hi.
  - destruct i; [|done]. simplify_eq/=. unfold rend, PHYS_ADDR_MAX. simpl. split_and!; lia || done.
  - apply wf_from_Forall in Hwf. eapply Forall_lookup_1 in Hwf as [_ Hok]; [|done].
    split_and!; try apply r_end_rend; try done; destruct Hok as (? & ? & ?); unfold rend in *; lia.
Qed.

Lemma regions_wf_order rs i k ri rk : regions_wf rs -> (i < k)%nat ->
  rs !! i = Some ri -> rs !! k = Some rk -> rend ri <= r_base rk.
Proof.
  intros [[nid ->]|[_ Hwf]] Hik Hi Hk; [by destruct k as [|[|k]]; [lia| |]|].
  apply lookup_split in Hi as (l1 & l2 & -> & ->).
  apply wf_from_app in Hwf as [_ (_ & _ & Hwf)].
  rewrite lookup_app_r in Hk by lia.
  destruct (k - length l1)%nat as [|d] eqn:Hd; [lia|]. simpl in Hk.
  apply wf_from_Forall in Hwf. eapply Forall_lookup_1 in Hwf as [? _]; [|done]. done.
Qed.

Lemma region_at_lookup t i : 0 <= i < cnt t -> regions t !! Z.to_nat i = Some (region_at t (Z.to_nat i)).
Proof.
  intros Hi. unfold region_at. destruct (regions t !! Z.to_nat i) eqn:He; [done|].
  apply lookup_ge_None in He. unfold cnt in Hi. lia.
Qed.

Lemma region_at_bounds t i (r := region_at t (Z.to_nat i)) : regions_wf (regions t) -> 0 <= i < cnt t ->
  0 <= r_base r /\ r_base r <= rend r /\ rend r <= PHYS_ADDR_MAX /\ r_end r = rend r.
Proof. intros Hwf Hi. eapply regions_wf_lookup; [done|]. by apply region_at_lookup. Qed.

Lemma region_at_order t i k : regions_wf (regions t) -> 0 <= i -> i < k -> k < cnt t ->
  r_end (region_at t (Z.to_nat i)) <= r_base (region_at t (Z.to_nat k)).
Proof.
  intros Hwf Hi Hk Hc. destruct (region_at_bounds t i Hwf ltac:(lia)) as (_ & _ & _ & ->).
  apply (regions_wf_order (regions t) (Z.to_nat i) (Z.to_nat k)); [done|lia| |];
    apply region_at_lookup; lia.
Qed.

(** The gaps between the regions, in increasing order. *)
Lemma gap_bounds t j : regions_wf (regions t) -> 0 <= j <= cnt t ->
  0 <= gap_start t j /\ gap_start t j <= gap_end t j /\ gap_end t j <= PHYS_ADDR_MAX.
Proof.
  intros Hwf Hj. unfold gap_start, gap_end.
  destruct (j =? 0) eqn:Hz; destruct (j <? cnt t) eqn:Hc; zb.
  - pose proof (region_at_bounds t j Hwf). lia.
  - unfold PHYS_ADDR_MAX. lia.
  - pose proof (region_at_bounds t (j - 1) Hwf). pose proof (region_at_bounds t j Hwf).
    pose proof (region_at_order t (j - 1) j Hwf). lia.
  - pose proof (region_at_bounds t (j - 1) Hwf). lia.
Qed.

Lemma gap_order t j k : regions_wf (regions t) -> 0 <= j -> j < k -> k <= cnt t ->
  gap_end t j <= gap_start t k.
Proof.
  intros Hwf Hj Hk Hc. unfold gap_start, gap_end.
  replace (k =? 0) with false by lia. replace (j <? cnt t) with true by lia.
  destruct (Z.eq_dec j (k - 1)) as [->|].
  - pose proof (region_at_bounds t (k - 1) Hwf ltac:(lia)). lia.
  - pose proof (region_at_order t j (k - 1) Hwf ltac:(lia) ltac:(lia) ltac:(lia)).
    pose proof (region_at_bounds t (k - 1) Hwf ltac:(lia)).
    pose proof (region_at_bounds t j Hwf ltac:(lia)). lia.
Qed.

(** An address is in no region exactly when it is in one of the gaps. *)
Lemma attr_wf_in t i a : regions_wf (regions t) -> 0 <= i < cnt t ->
  contains (region_at t (Z.to_nat i)) a = true ->
  attr (regions t) a = Some (r_flags (region_at t (Z.to_nat i)), r_nid (region_at t (Z.to_nat i))).
Proof.
  intros Hwf Hi Hc. pose proof (region_at_lookup t i Hi) as Hl.
  destruct Hwf as [[nid Heq]|[_ Hwf]].
  - rewrite Heq in Hl. apply list_lookup_singleton_Some in Hl as [_ Hl].
    rewrite <- Hl in Hc. apply contains_iff in Hc. unfold rend in Hc. simpl in Hc. lia.
  - eapply attr_in; [done| |done]. by eapply list_elem_of_lookup_2.
Qed.

Lemma attr_in_gap t k a : regions_wf (regions t) -> 0 <= k <= cnt t ->
  gap_start t k <= a < gap_end t k -> attr (regions t) a = None.
Proof.
  intros Hwf Hk Ha. destruct (attr (regions t) a) as [x|] eqn:He; [|done].
  apply attr_Some_in in He as (r & Hin & Hc & _). apply list_elem_of_lookup in Hin as [n Hn].
  apply lookup_lt_Some in Hn as Hlt.
  assert (Hr : region_at t (Z.to_nat (Z.of_nat n)) = r) by (unfold region_at; by rewrite Nat2Z.id, Hn).
  apply contains_iff in Hc. exfalso.
  pose proof (region_at_bounds t (Z.of_nat n) Hwf ltac:(unfold cnt; lia)) as Hb. rewrite Hr in Hb.
  destruct (Z.lt_ge_cases (Z.of_nat n) k).
  - assert (rend r <= gap_start t k); [|lia]. unfold gap_start. replace (k =? 0) with false by lia.
    destruct (Z.eq_dec (Z.of_nat n) (k - 1)) as [<-|]; [rewrite Hr; lia|].
    pose proof (region_at_order t (Z.of_nat n) (k - 1) Hwf ltac:(lia) ltac:(lia) ltac:(lia)) as Ho.
    pose proof (region_at_bounds t (k - 1) Hwf ltac:(lia)). rewrite Hr in Ho. lia.
  - assert (gap_end t k <= r_base r); [|lia]. unfold gap_end, cnt in *.
    replace (k <? _) with true by lia.
    destruct (Z.eq_dec (Z.of_nat n) k) as [<-|]; [rewrite Hr; lia|].
    pose proof (region_at_order t k (Z.of_nat n) Hwf ltac:(lia) ltac:(lia) ltac:(unfold cnt; lia)) as Ho.
    pose proof (region_at_bounds t k Hwf ltac:(unfold cnt; lia)). rewrite Hr in Ho. lia.
Qed.

Lemma gap_of t a : regions_wf (regions t) -> 0 <= a < PHYS_ADDR_MAX -> attr (regions t) a = None ->
  exists k, 0 <= k <= cnt t /\ gap_start t k <= a < gap_end t k.
Proof.
  intros Hwf Ha Hnone.
  assert (Hsearch : forall n : nat, Z.of_nat n <= cnt t ->
    (exists k, 0 <= k <= cnt t /\ gap_start t k <= a < gap_end t k) \/ gap_start t (Z.of_nat n) <= a).
  { induction n as [|n IH]; intros Hn; [right; unfold gap_start; simpl; lia|].
    destruct (IH ltac:(lia)) as [?|Hs]; [by left|].
    destruct (Z.lt_ge_cases a (gap_end t (Z.of_nat n))); [left; exists (Z.of_nat n); lia|]. right.
    pose proof (region_at_bounds t (Z.of_nat n) Hwf ltac:(lia)) as (_ & _ & _ & He).
    pose proof (attr_wf_in t (Z.of_nat n) a Hwf ltac:(lia)) as Hin.
    destruct (contains _ a) eqn:Hc; [rewrite Hin in Hnone; done|]. apply contains_false in Hc.
    clear IH Hs Hin. unfold gap_start, gap_end in *. replace (Z.of_nat n <? cnt t) with true in * by lia.
    replace (Z.of_nat (S n) =? 0) with false by (symmetry; apply Z.eqb_neq; lia).
    replace (Z.of_nat (S n) - 1) with (Z.of_nat n) by lia. lia. }
  destruct (Hsearch (length (regions t)) ltac:(unfold cnt; lia)) as [?|Hs]; [done|].
  exists (cnt t). unfold gap_end. rewrite Z.ltb_irrefl. unfold cnt in *. lia.
Qed.

(** ** The free ranges *)

(** The tests of an iterator, on the attributes of an address. *)
Definition skip_attr `{Arch} (nid flags : Z) (x : Z * Z) : bool :=
  should_skip_region nid flags (mk_region 0 0 x.1 x.2).

(** Address [a] is memory an allocation with [nid] and [flags] may use, and is
    not reserved. *)
Definition free_at `{Arch} (nid flags : Z) (m : memblock) (a : Z) : Prop :=
  exists x, tattr (memory m) a = Some x /\ skip_attr nid flags x = false /\ tattr (reserved m) a = None.

(** Ranges in increasing order, disjoint, from [lo] on. *)
Fixpoint ascending (lo : Z) (l : list (Z * Z * Z)) : Prop :=
  match l with
  | [] => True
  | (s, e, _) :: l' => lo <= s /\ s <= e /\ ascending e l'
  end.

Lemma ascending_weaken lo lo' l : lo' <= lo -> ascending lo l -> ascending lo' l.
Proof. destruct l as [|[[s e] n] l]; simpl; [done|]. intros ? (? & ? & ?). split_and!; done || lia. Qed.

Lemma ascending_app lo x l1 l2 :
  ascending lo l1 -> Forall (fun p => p.1.2 <= x) l1 -> lo <= x -> ascending x l2 -> ascending lo (l1 ++ l2).
Proof.
  revert lo. induction l1 as [|[[s e] n] l1 IH]; intros lo; simpl.
  - intros _ _ ? ?. by eapply ascending_weaken.
  - intros (? & ? & ?) HF Hlo ?. inversion HF; simplify_eq/=. split_and!; [done|done|]. by apply IH.
Qed.

Section Free.
Context `{Arch}.
Variables (nid flags : Z) (m : memblock).
Hypothesis wf : regions_wf (regions (memory m)) /\ regions_wf (regions (reserved m)).

Abbreviation ta := (memory m).
Abbreviation tb := (reserved m).

Lemma elem_of_row n i j p : p ∈ row ta tb n i j <->
  exists k, j <= k < j + Z.of_nat n /\ hit ta tb i k = true /\ p = range_of ta tb i k.
Proof.
  revert j. induction n as [|n IH]; intros j; simpl.
  { split; [by intros ?%elem_of_nil|]. intros (k & ? & _). lia. }
  rewrite elem_of_app, IH. split.
  - intros [Hin|(k & ? & ? & ?)].
    + destruct (hit ta tb i j) eqn:Hh; [|by apply elem_of_nil in Hin].
      apply list_elem_of_singleton in Hin. exists j. split_and!; done || lia.
    + exists k. split_and!; done || lia.
  - intros (k & Hk & Hh & ->). destruct (Z.eq_dec j k) as [->|].
    + left. rewrite Hh. by apply list_elem_of_singleton.
    + right. exists k. split_and!; done || lia.
Qed.

Lemma elem_of_rows n i p : p ∈ rows nid flags ta tb n i <->
  exists i' k, i <= i' < i + Z.of_nat n /\ skipped nid flags ta i' = false /\ 0 <= k <= cnt tb /\
    hit ta tb i' k = true /\ p = range_of ta tb i' k.
Proof.
  revert i. induction n as [|n IH]; intros i; simpl.
  { split; [by intros ?%elem_of_nil|]. intros (i' & k & ? & _). lia. }
  rewrite elem_of_app, IH. unfold row_from. split.
  - intros [Hin|(i' & k & ? & ? & ?)].
    + destruct (skipped _ _ _ i) eqn:Hs; [by apply elem_of_nil in Hin|].
      apply elem_of_row in Hin as (k & ? & ?). exists i, k. split_and!; done || lia || tauto.
    + exists i', k. split_and!; done || lia || tauto.
  - intros (i' & k & Hi & Hs & Hk & ? & ?). destruct (Z.eq_dec i i') as [->|].
    + left. rewrite Hs. apply elem_of_row. exists k. split_and!; done || lia.
    + right. exists i', k. split_and!; done || lia.
Qed.

Lemma elem_of_free s e n : (s, e, n) ∈ free_ranges nid flags ta tb <->
  exists i k, 0 <= i < cnt ta /\ skipped nid flags ta i = false /\ 0 <= k <= cnt tb /\
    hit ta tb i k = true /\ (s, e, n) = range_of ta tb i k.
Proof.
  unfold free_ranges, rows_from. rewrite elem_of_rows.
  split; intros (i & k & ? & ?); exists i, k; (split; [unfold cnt in *; lia|done]).
Qed.

Lemma skipped_attr i : skipped nid flags ta i =
  skip_attr nid flags (r_flags (region_at ta (Z.to_nat i)), r_nid (region_at ta (Z.to_nat i))).
Proof. done. Qed.

(** Exactly the free addresses are in some range, with their node. *)
Lemma free_ranges_attr a : 0 <= a < PHYS_ADDR_MAX ->
  free_at nid flags m a <-> exists s e n, (s, e, n) ∈ free_ranges nid flags ta tb /\ s <= a < e.
Proof.
  intros Ha. destruct wf as [Hwa Hwb]. unfold free_at, tattr. split.
  - intros (x & Hm & Hs & Hr). apply attr_Some_in in Hm as (r & Hin & Hc & ->).
    apply list_elem_of_lookup in Hin as [i Hi]. apply lookup_lt_Some in Hi as Hlt.
    destruct (gap_of tb a Hwb Ha Hr) as (k & Hk & Hgap).
    assert (Hreg : region_at ta (Z.to_nat (Z.of_nat i)) = r) by (unfold region_at; by rewrite Nat2Z.id, Hi).
    pose proof (regions_wf_lookup _ _ _ Hwa Hi) as (_ & _ & _ & He). apply contains_iff in Hc.
    eexists _, _, _. split.
    + apply elem_of_free. exists (Z.of_nat i), k. split_and!; [lia|unfold cnt; lia| |lia|lia| |reflexivity].
      * by rewrite skipped_attr, Hreg.
      * apply hit_iff. unfold end_a, start_a. rewrite Hreg. lia.
    + unfold end_a, start_a. rewrite Hreg. lia.
  - intros (s & e & n & Hin & Hse). apply elem_of_free in Hin as (i & k & Hi & Hs & Hk & _ & Heq).
    injection Heq as -> -> ->. unfold start_a, end_a in Hse.
    pose proof (region_at_bounds ta i Hwa Hi) as (_ & _ & _ & He).
    eexists. split_and!; [apply (attr_wf_in _ i); [done|done|apply contains_iff; lia]|by rewrite <- skipped_attr|].
    apply (attr_in_gap _ k); [done|done|lia].
Qed.

Lemma row_ascending n i j lo : 0 <= i < cnt ta -> 0 <= j -> j + Z.of_nat n <= cnt tb + 1 ->
  lo <= Z.max (start_a ta i) (gap_start tb j) ->
  ascending lo (row ta tb n i j) /\ Forall (fun p => p.1.2 <= end_a ta i) (row ta tb n i j).
Proof.
  destruct wf as [Hwa Hwb]. intros Hi. revert j lo. induction n as [|n IH]; intros j lo Hj Hn Hlo; [done|]. simpl.
  pose proof (gap_bounds tb j Hwb ltac:(lia)).
  pose proof (region_at_bounds ta i Hwa Hi).
  assert (Hnext : n <> 0%nat -> gap_end tb j <= gap_start tb (j + 1)) by (intros; apply gap_order; done || lia).
  destruct (hit ta tb i j) eqn:Hh; simpl.
  - apply hit_iff in Hh. unfold start_a, end_a in *.
    assert (ascending (Z.min (r_end (region_at ta (Z.to_nat i))) (gap_end tb j)) (row ta tb n i (j + 1)) /\
      Forall (fun p => p.1.2 <= r_end (region_at ta (Z.to_nat i))) (row ta tb n i (j + 1))) as [? ?].
    { destruct n; [done|]. specialize (Hnext ltac:(lia)). apply IH; lia. }
    split_and!; [lia|lia|done|]. constructor; [unfold range_of, end_a; simpl; lia|done].
  - destruct n; [done|]. specialize (Hnext ltac:(lia)). apply IH; lia.
Qed.

Lemma free_ascending : ascending 0 (free_ranges nid flags ta tb).
Proof.
  destruct wf as [Hwa Hwb]. unfold free_ranges, rows_from.
  assert (Hrows : forall n i lo, 0 <= i -> i + Z.of_nat n <= cnt ta ->
    (n <> 0%nat -> lo <= start_a ta i) -> ascending lo (rows nid flags ta tb n i)).
  { induction n as [|n IH]; intros i lo Hi Hn Hlo; simpl; [done|].
    pose proof (region_at_bounds ta i Hwa ltac:(lia)).
    specialize (Hlo ltac:(lia)). assert (0 <= cnt tb) by (unfold cnt; lia).
    apply (ascending_app _ (end_a ta i)).
    - unfold row_from. destruct (skipped _ _ _ i); [done|]. apply row_ascending; lia.
    - unfold row_from. destruct (skipped _ _ _ i); [done|]. eapply (row_ascending _ _ _ (start_a ta i)); lia.
    - unfold start_a, end_a in *. lia.
    - apply IH; [lia|lia|]. intros. unfold start_a, end_a. apply region_at_order; done || lia. }
  apply Hrows; [lia|unfold cnt; lia|]. intros. pose proof (region_at_bounds ta 0 Hwa).
  unfold start_a, cnt in *. lia.
Qed.

Hypothesis nid_valid : nid <> MAX_NUMNODES.
Hypothesis small : cnt ta < 2 ^ 31 - 1 /\ cnt tb < 2 ^ 31 - 1.

Lemma forward_enumerates :
  iterate (fun idx => __next_mem_range idx nid flags ta (Some tb)) (range_fuel m) 0
    = Some (free_ranges nid flags ta tb).
Proof.
  destruct wf as [Hwa Hwb]. apply iterate_forward; try done.
  - intros. by apply region_at_order.
  - intros i Hi. pose proof (region_at_bounds ta i Hwa Hi). unfold start_a, end_a. lia.
  - intros. by apply gap_order.
  - intros j Hj. pose proof (gap_bounds tb j Hwb Hj). lia.
  - apply small.
  - apply small.
  - unfold range_fuel, cnt. lia.
Qed.

Lemma backward_enumerates :
  iterate (fun idx => __next_mem_range_rev idx nid flags ta (Some tb)) (range_fuel m) ULLONG_MAX
    = Some (rev (free_ranges nid flags ta tb)).
Proof.
  destruct wf as [Hwa Hwb]. apply iterate_backward; try done.
  - intros. by apply region_at_order.
  - intros i Hi. pose proof (region_at_bounds ta i Hwa Hi). unfold start_a, end_a. lia.
  - intros. by apply gap_order.
  - intros j Hj. pose proof (gap_bounds tb j Hwb Hj). lia.
  - apply small.
  - apply small.
  - intros i Hi. pose proof (region_at_bounds ta i Hwa Hi). unfold start_a. lia.
  - unfold range_fuel, cnt. lia.
Qed.

End Free.

(** ** First fit *)

Fixpoint first_fit (cand : Z * Z * Z -> option Z) (l : list (Z * Z * Z)) : Z :=
  match l with
  | [] => 0
  | p :: l' => match cand p with Some c => c | None => first_fit cand l' end
  end.

Section Fit.
Variables (lo hi size align k : Z).
Hypothesis align_pow2 : align = 2 ^ k.
Hypothesis k_range : 0 <= k < 64.
Hypothesis lo_hi : 0 < lo <= hi.
Hypothesis hi_u64 : is_u64 hi.
Hypothesis size_u64 : 0 < size < 2 ^ 64.

(** The candidate of a range, lowest or highest. *)
Definition up_cand (p : Z * Z * Z) : option Z :=
  let c := round_up (clamp p.1.1 lo hi) align in
  if (c <? clamp p.1.2 lo hi) && (u64 (clamp p.1.2 lo hi - c) >=? size) then Some c else None.

Definition down_cand (p : Z * Z * Z) : option Z :=
  if clamp p.1.2 lo hi <? size then None else
  let c := round_down (u64 (clamp p.1.2 lo hi - size)) align in
  if c >=? clamp p.1.1 lo hi then Some c else None.

(** The request fits at [c] in the range [p]. *)
Definition fits (p : Z * Z * Z) (c : Z) : Prop :=
  Z.max p.1.1 lo <= c /\ c + size <= Z.min p.1.2 hi /\ (align | c).

Definition range_ok (p : Z * Z * Z) : Prop := 0 <= p.1.1 <= p.1.2 /\ p.1.2 < 2 ^ 64.

Lemma align_pos : 0 < align.
Proof. subst align. apply Z.pow_pos_nonneg; lia. Qed.

(** The least multiple of [align] that is not below [x]. *)
Lemma ceil_bounds x (q := align * ((x + align - 1) / align)) :
  x <= q < x + align /\ (align | q) /\ (forall c, x <= c -> (align | c) -> q <= c).
Proof.
  pose proof align_pos. subst q. set (d := (x + align - 1) / align).
  pose proof (Z.div_mod (x + align - 1) align ltac:(lia)) as Hd.
  pose proof (Z.mod_pos_bound (x + align - 1) align ltac:(lia)). fold d in Hd.
  split_and!; [lia|lia|exists d; lia|]. intros c Hc [e ->].
  assert (d < e + 1) by (apply (Z.mul_lt_mono_pos_r align); lia).
  rewrite (Z.mul_comm align). apply Z.mul_le_mono_nonneg_r; lia.
Qed.

Lemma up_cand_None p c : range_ok p -> up_cand p = None -> ~ fits p c.
Proof.
  unfold up_cand, fits, range_ok, clamp. intros Hp Hn (H1 & H2 & H3).
  unfold is_u64 in hi_u64. set (x := Z.min (Z.max p.1.1 lo) hi) in *.
  rewrite align_pow2, round_up_pow2, <- align_pow2 in Hn by (unfold is_u64; lia).
  destruct (ceil_bounds x) as (Hq & _ & Hleast). specialize (Hleast c ltac:(lia) H3).
  rewrite (u64_small (align * _)) in Hn by (unfold is_u64; lia).
  rewrite u64_small in Hn by (unfold is_u64; lia).
  case_match; [done|]. zb. apply andb_false_iff in H as [H|H]; zb; lia.
Qed.

Lemma up_cand_Some p c : range_ok p -> up_cand p = Some c -> c <> 0 ->
  fits p c /\ (forall c', Z.max p.1.1 lo <= c' -> c' <= hi -> (align | c') -> c <= c').
Proof.
  unfold up_cand, fits, range_ok, clamp. intros Hp Hs Hc.
  unfold is_u64 in hi_u64. pose proof align_pos.
  destruct (_ && _)%bool eqn:Hb in Hs; [|done]. injection Hs as Hs.
  rewrite align_pow2, round_up_pow2, <- align_pow2 in Hs by (unfold is_u64; lia).
  set (x := Z.min (Z.max p.1.1 lo) hi) in *.
  destruct (ceil_bounds x) as (Hq & Hdiv & Hleast).
  set (q := align * ((x + align - 1) / align)) in *.
  assert (Hcq : c = q).
  { destruct (Z.lt_ge_cases q (2 ^ 64)); [rewrite <- Hs; apply u64_small; unfold is_u64; lia|].
    exfalso. apply Hc. assert (q = 2 ^ 64); [|rewrite <- Hs; subst q; by rewrite H1].
    assert (Hd64 : (align | 2 ^ 64)).
    { exists (2 ^ (64 - k)). rewrite align_pow2, <- Z.pow_add_r by lia. f_equal. lia. }
    specialize (Hleast (2 ^ 64) ltac:(lia) Hd64). lia. }
  subst c. rewrite align_pow2, round_up_pow2, <- align_pow2 in Hb by (unfold is_u64; lia).
  fold x q in Hb. rewrite Hcq in Hb. apply andb_prop in Hb as [Hb1 Hb2]. zb.
  rewrite u64_small in Hb2 by (unfold is_u64; lia). rewrite Hcq.
  split; [split_and!; [lia|lia|done]|]. intros c' ? ? ?. apply Hleast; [lia|done].
Qed.

(** A candidate that wrapped around to 0: nothing fits above either. *)
Lemma up_cand_zero p c : range_ok p -> up_cand p = Some 0 -> Z.max p.1.1 lo <= c -> c + size <= hi ->
  ~ (align | c).
Proof.
  unfold up_cand, range_ok, clamp. intros Hp Hs Hc Hhi Hdiv.
  unfold is_u64 in hi_u64. destruct (_ && _)%bool in Hs; [|done]. injection Hs as Hs.
  rewrite align_pow2, round_up_pow2, <- align_pow2 in Hs by (unfold is_u64; lia).
  destruct (ceil_bounds (Z.min (Z.max p.1.1 lo) hi)) as (Hq & _ & Hleast).
  specialize (Hleast c ltac:(lia) Hdiv). rewrite u64_small in Hs by (unfold is_u64; lia). lia.
Qed.

Lemma floor_bounds x (q := x - x mod align) :
  x - align < q <= x /\ (align | q) /\ (forall c, c <= x -> (align | c) -> c <= q).
Proof.
  pose proof align_pos. subst q.
  pose proof (Z.div_mod x align ltac:(lia)) as Hd. pose proof (Z.mod_pos_bound x align ltac:(lia)).
  split_and!; [lia|lia|exists (x / align); lia|]. intros c Hc [e ->].
  assert (e < x / align + 1) by (apply (Z.mul_lt_mono_pos_r align); lia).
  assert (e * align <= x / align * align) by (apply Z.mul_le_mono_nonneg_r; lia). lia.
Qed.

Lemma down_cand_spec p : range_ok p ->
  match down_cand p with
  | Some c => fits p c /\ (forall c', fits p c' -> c' <= c)
  | None => forall c', ~ fits p c'
  end.
Proof.
  unfold down_cand, fits, range_ok, clamp. intros Hp. unfold is_u64 in hi_u64.
  set (x := Z.min (Z.max p.1.1 lo) hi). set (y := Z.min (Z.max p.1.2 lo) hi).
  destruct (y <? size) eqn:Hy; zb; [intros c (? & ? & ?); lia|].
  rewrite u64_small by (unfold is_u64; lia).
  rewrite align_pow2, round_down_pow2, <- align_pow2 by (unfold is_u64; lia).
  destruct (floor_bounds (y - size)) as (Hq & Hdiv & Hgreat).
  destruct (_ >=? _) eqn:Hx; zb.
  - split; [split_and!; [lia|lia|done]|]. intros c (? & ? & ?). apply Hgreat; [lia|done].
  - intros c (? & ? & Hd). specialize (Hgreat c ltac:(lia) Hd). lia.
Qed.

(** What a search over a list of ranges returns: 0 when the request fits
    nowhere, or the best place with respect to [better]. *)
Definition best_fit (better : Z -> Z -> Prop) (l : list (Z * Z * Z)) (c : Z) : Prop :=
  (c = 0 /\ forall p c', p ∈ l -> ~ fits p c') \/
  (exists p, p ∈ l /\ fits p c) /\ (forall p c', p ∈ l -> fits p c' -> better c c').

Lemma best_fit_cons better p l c :
  (forall c', ~ fits p c') -> best_fit better l c -> best_fit better (p :: l) c.
Proof.
  intros Hp [[-> Hno]|[(q & Hq & Hf) Hb]].
  - left. split; [done|]. intros q c' [->|Hq]%elem_of_cons; [apply Hp|by apply Hno].
  - right. split; [exists q; split; [by right|done]|].
    intros q' c' [->|Hq']%elem_of_cons Hf'; [by apply Hp in Hf'|by eapply Hb].
Qed.

Lemma best_fit_ext better l l' c :
  (forall p, p ∈ l <-> p ∈ l') -> best_fit better l c -> best_fit better l' c.
Proof.
  intros Heq [[-> Hno]|[(q & Hq & Hf) Hb]]; [left|right].
  - split; [done|]. intros p c' Hp. apply Hno. by apply Heq.
  - split; [exists q; split; [by apply Heq|done]|]. intros p c' Hp. apply Hb. by apply Heq.
Qed.

Lemma ascending_after x l p : ascending x l -> p ∈ l -> x <= p.1.1.
Proof.
  revert x. induction l as [|[[s e] n] l IH]; intros x; [by intros _ ?%elem_of_nil|].
  intros (? & ? & Ha) [->|Hin]%elem_of_cons; [done|]. specialize (IH _ Ha Hin). simpl in *. lia.
Qed.

Lemma first_fit_up x l : ascending x l -> Forall range_ok l -> best_fit Z.le l (first_fit up_cand l).
Proof.
  revert x. induction l as [|p l IH]; intros x Ha HF; simpl.
  { left. split; [done|]. intros ? ? ?%elem_of_nil. done. }
  inversion HF as [|? ? Hp HF']; subst. destruct p as [[s e] n]. destruct Ha as (Hs & He & Ha).
  pose proof (fun c => up_cand_None (s, e, n) c Hp) as Hnone.
  destruct (up_cand (s, e, n)) as [c|] eqn:Hc; [|apply best_fit_cons; [by intros; apply Hnone|by eapply IH]].
  assert (Hlow : forall q, q ∈ (s, e, n) :: l -> s <= q.1.1).
  { intros q [->|Hq]%elem_of_cons; [done|]. pose proof (ascending_after _ _ _ Ha Hq). lia. }
  destruct (Z.eq_dec c 0) as [->|Hnz].
  - left. split; [done|]. intros q c' Hq (H1 & H2 & H3). specialize (Hlow q Hq). revert H3.
    apply (up_cand_zero (s, e, n)); simpl; done || lia.
  - right. destruct (up_cand_Some _ _ Hp Hc Hnz) as [Hf Hleast]. split; [exists (s, e, n); split; [by left|done]|].
    intros q c' Hq (H1 & H2 & H3). specialize (Hlow q Hq). apply Hleast; simpl; done || lia.
Qed.

Lemma ascending_before x l1 l2 p q : ascending x (l1 ++ l2) -> p ∈ l1 -> q ∈ l2 -> p.1.2 <= q.1.1.
Proof.
  revert x. induction l1 as [|[[s e] n] l1 IH]; intros x; [by intros _ ?%elem_of_nil|]. simpl.
  intros (? & ? & Ha) [->|Hp]%elem_of_cons Hq; [|by eapply IH].
  simpl. eapply ascending_after; [done|]. apply elem_of_app. by right.
Qed.

Lemma first_fit_down x l : ascending x l -> Forall range_ok l ->
  best_fit Z.ge l (first_fit down_cand (rev l)).
Proof.
  induction l as [|p l IH] using rev_ind; intros Ha HF; simpl.
  { left. split; [done|]. intros ? ? ?%elem_of_nil. done. }
  rewrite rev_app_distr. simpl. apply Forall_app in HF as [HF Hp]. inversion Hp as [|? ? Hp' _]; subst.
  assert (Hpre : ascending x l).
  { clear -Ha. revert x Ha. induction l as [|[[s e] n] l IH]; intros x; [done|].
    simpl. intros (? & ? & ?). split_and!; [done|done|by apply IH]. }
  apply (best_fit_ext _ (p :: l)).
  { intros q. rewrite elem_of_app, list_elem_of_singleton, elem_of_cons. tauto. }
  pose proof (down_cand_spec p Hp') as Hd.
  destruct (down_cand p) as [c|]; [|by apply best_fit_cons; auto].
  destruct Hd as [Hf Hgreat]. right. split; [exists p; split; [by left|done]|].
  intros q c' [->|Hq]%elem_of_cons Hf'; [apply Hgreat in Hf'; lia|].
  pose proof (ascending_before x l [p] q p Ha Hq ltac:(by left)).
  destruct Hf as (? & _), Hf' as (_ & ? & _). lia.
Qed.

End Fit.

(** ** The searches *)
Section Search.
Context `{Arch}.
Variables (m : memblock) (nid flags lo hi size align : Z).

Lemma bottom_up_first_fit fuel idx l :
  iterate (fun i => __next_mem_range i nid flags (memory m) (Some (reserved m))) fuel idx = Some l ->
  find_bottom_up_loop fuel m lo hi size align nid flags idx = Done (first_fit (up_cand lo hi size align) l).
Proof.
  revert idx l. induction fuel as [|fuel IH]; intros idx l Hit; simpl in *; [done|].
  destruct (__next_mem_range _ _ _ _ _) as [|idx' s e n]; [by simplify_eq|].
  destruct (iterate _ fuel idx') as [l'|] eqn:Hl; [|done]. simpl in Hit. simplify_eq.
  simpl. unfold up_cand at 1. simpl. case_match; [done|]. by apply IH.
Qed.

Lemma top_down_first_fit fuel idx l :
  iterate (fun i => __next_mem_range_rev i nid flags (memory m) (Some (reserved m))) fuel idx = Some l ->
  find_top_down_loop fuel m lo hi size align nid flags idx = Done (first_fit (down_cand lo hi size align) l).
Proof.
  revert idx l. induction fuel as [|fuel IH]; intros idx l Hit; simpl in *; [done|].
  destruct (__next_mem_range_rev _ _ _ _ _) as [|idx' s e n]; [by simplify_eq|].
  destruct (iterate _ fuel idx') as [l'|] eqn:Hl; [|done]. simpl in Hit. simplify_eq.
  simpl. unfold down_cand at 1. simpl. case_match; [by apply IH|]. case_match; [done|]. by apply IH.
Qed.

Hypothesis wf : regions_wf (regions (memory m)) /\ regions_wf (regions (reserved m)).
Hypothesis nid_valid : nid <> MAX_NUMNODES.
Hypothesis small : cnt (memory m) < 2 ^ 31 - 1 /\ cnt (reserved m) < 2 ^ 31 - 1.

Lemma free_range_ok : Forall range_ok (free_ranges nid flags (memory m) (reserved m)).
Proof.
  apply list.Forall_forall. intros [[s e] n] Hin. unfold range_ok. simpl.
  pose proof (free_ascending nid flags m wf) as Ha.
  destruct (proj1 (elem_of_free nid flags m wf s e n) Hin) as (i & k & Hi & _ & Hk & _ & Heq).
  injection Heq as -> -> ->. destruct wf as [Hwa Hwb].
  pose proof (region_at_bounds _ i Hwa Hi). pose proof (gap_bounds _ k Hwb Hk).
  apply list_elem_of_split in Hin as (l1 & l2 & Hl). rewrite Hl in Ha.
  assert (Hmid : forall x l1, ascending x (l1 ++ (Z.max (start_a (memory m) i) (gap_start (reserved m) k),
    Z.min (end_a (memory m) i) (gap_end (reserved m) k), nid_a (memory m) i) :: l2) ->
    Z.max (start_a (memory m) i) (gap_start (reserved m) k) <= Z.min (end_a (memory m) i) (gap_end (reserved m) k)).
  { clear. intros x l1. revert x. induction l1 as [|[[s e] n] l1 IH]; intros x; simpl; [lia|].
    intros (_ & _ & Ha). by apply IH in Ha. }
  apply Hmid in Ha. unfold start_a, end_a, PHYS_ADDR_MAX in *. lia.
Qed.

Lemma fits_free p c : 0 <= lo -> p ∈ free_ranges nid flags (memory m) (reserved m) ->
  fits lo hi size align p c -> forall a, c <= a < c + size -> free_at nid flags m a.
Proof.
  intros Hlo Hp (H1 & H2 & _) a Ha. destruct p as [[s e] n]. simpl in *.
  pose proof free_range_ok as HF. rewrite list.Forall_forall in HF. apply HF in Hp as Hok.
  unfold range_ok in Hok. simpl in Hok.
  apply free_ranges_attr; [done|unfold PHYS_ADDR_MAX; lia|]. exists s, e, n. split; [done|lia].
Qed.

(** The place [memblock_find_in_range_node] looks for: inside [lo, hi), aligned,
    all of it free. *)
Definition usable (c : Z) : Prop :=
  lo <= c /\ c + size <= hi /\ (align | c) /\ forall a, c <= a < c + size -> free_at nid flags m a.

Lemma fits_usable p c : 0 <= lo -> p ∈ free_ranges nid flags (memory m) (reserved m) ->
  fits lo hi size align p c -> usable c.
Proof.
  intros Hlo Hp Hf. pose proof (fits_free p c Hlo Hp Hf). destruct Hf as (? & ? & ?).
  unfold usable. split_and!; done || lia.
Qed.

Variable k : Z.
Hypothesis align_pow2 : align = 2 ^ k.
Hypothesis k_range : 0 <= k < 64.
Hypothesis lo_hi : 0 < lo <= hi.
Hypothesis hi_u64 : is_u64 hi.
Hypothesis size_u64 : 0 < size < 2 ^ 64.

Lemma find_bottom_up_best : exists c,
  __memblock_find_range_bottom_up m lo hi size align nid flags = Done c /\
  best_fit lo hi size align Z.le (free_ranges nid flags (memory m) (reserved m)) c.
Proof.
  eexists. split.
  - apply bottom_up_first_fit. by apply forward_enumerates.
  - eapply (first_fit_up lo hi size align k); try done; [by apply free_ascending|apply free_range_ok].
Qed.

Lemma find_top_down_best : exists c,
  __memblock_find_range_top_down m lo hi size align nid flags = Done c /\
  best_fit lo hi size align Z.ge (free_ranges nid flags (memory m) (reserved m)) c.
Proof.
  eexists. split.
  - apply top_down_first_fit. by apply backward_enumerates.
  - eapply (first_fit_down lo hi size align k); try done; [by apply free_ascending|apply free_range_ok].
Qed.

End Search.

(** The bounds [memblock_find_in_range_node] works with. *)
Definition search_lo `{Arch} (start : Z) : Z := Z.max start PAGE_SIZE.
Definition search_hi `{Arch} (m : memblock) (start end_ : Z) : Z :=
  Z.max (search_lo start) (if end_ =? MEMBLOCK_ALLOC_ACCESSIBLE then current_limit m else end_).

(** What a search assumes of the allocator state, the machine and the request. *)
Record search_pre `{Arch} (m : memblock) (size align start end_ nid : Z) : Prop := {
  pre_memory : regions_wf (regions (memory m));
  pre_reserved : regions_wf (regions (reserved m));
  pre_cnt : cnt (memory m) < 2 ^ 31 - 1 /\ cnt (reserved m) < 2 ^ 31 - 1;
  pre_page : 0 < PAGE_SIZE < 2 ^ 64;
  pre_kernel : 0 <= kernel_end_pa;
  pre_limit : is_u64 (current_limit m);
  pre_bounds : is_u64 start /\ is_u64 end_;
  pre_size : 0 < size < 2 ^ 64;
  pre_align : exists k, 0 <= k < 64 /\ align = 2 ^ k;
  pre_nid : nid <> MAX_NUMNODES;
}.

(** The result of a search: the best place for the direction, or 0 when the
    request fits in no free range. *)
Definition search_result `{Arch} (m : memblock) (size align start end_ nid flags c : Z) : Prop :=
  let l := free_ranges nid flags (memory m) (reserved m) in
  let lo := search_lo start in
  let hi := search_hi m start end_ in
  if bottom_up m && (hi >? kernel_end_pa)
  then c <> 0 /\ best_fit (Z.max lo kernel_end_pa) hi size align Z.le l c \/
       best_fit (Z.max lo kernel_end_pa) hi size align Z.le l 0 /\ best_fit lo hi size align Z.ge l c
  else best_fit lo hi size align Z.ge l c.

Lemma find_in_range_node_ok `{Arch} m size align start end_ nid flags :
  search_pre m size align start end_ nid ->
  exists c, memblock_find_in_range_node m size align start end_ nid flags = Done c /\
    search_result m size align start end_ nid flags c /\
    (c <> 0 -> usable m nid flags (search_lo start) (search_hi m start end_) size align c).
Proof.
  intros []. destruct pre_align0 as (k & Hk & ->).
  unfold memblock_find_in_range_node, search_result.
  fold (search_lo start). fold (search_hi m start end_).
  set (lo := search_lo start). set (hi := search_hi m start end_).
  assert (Hlh : 0 < lo <= hi) by (subst lo hi; unfold search_lo, search_hi, search_lo; lia).
  assert (Hhi : is_u64 hi).
  { subst hi. unfold search_hi, search_lo, is_u64 in *. destruct (_ =? _); lia. }
  destruct (find_top_down_best m nid flags lo hi size (2 ^ k)) with k as (c1 & Htd & Hb1); try done.
  assert (Hu1 : c1 <> 0 -> usable m nid flags lo hi size (2 ^ k) c1).
  { intros Hnz. destruct Hb1 as [[? _]|[(p & Hp & Hf) _]]; [done|]. eapply fits_usable; try done. lia. }
  destruct (bottom_up m && (hi >? kernel_end_pa)) eqn:Hbu; [|simpl; rewrite Htd; by exists c1].
  apply andb_prop in Hbu as [_ Hke]. zb.
  destruct (find_bottom_up_best m nid flags (Z.max lo kernel_end_pa) hi size (2 ^ k)) with k
    as (c & Hup & Hb); try done; [lia|]. rewrite Hup. simpl.
  destruct (bool_of c) eqn:Hc; unfold bool_of in Hc; zb.
  - exists c. split_and!; [done|by left|]. intros _.
    destruct Hb as [[? _]|[(p & Hp & Hf) _]]; [done|].
    eapply fits_usable; try done; [lia|]. destruct Hf as (? & ? & ?). split_and!; done || lia.
  - subst c. exists c1. split_and!; [done|by right|done].
Qed.

(** C23: iterating [__next_mem_range] from 0 and [__next_mem_range_rev] from
    ULLONG_MAX over the gaps of the reserved array ends after at most
    [range_fuel] calls; both enumerate the same ranges, in opposite orders, the
    ranges are disjoint and ascending, and together they hold exactly the
    addresses of memory that pass the node and flag tests and are not reserved. *)
Theorem next_mem_range_enumerates `{Arch} nid flags m :
  regions_wf (regions (memory m)) -> regions_wf (regions (reserved m)) ->
  cnt (memory m) < 2 ^ 31 - 1 -> cnt (reserved m) < 2 ^ 31 - 1 -> nid <> MAX_NUMNODES ->
  exists l,
    iterate (fun i => __next_mem_range i nid flags (memory m) (Some (reserved m))) (range_fuel m) 0 = Some l /\
    iterate (fun i => __next_mem_range_rev i nid flags (memory m) (Some (reserved m))) (range_fuel m) ULLONG_MAX
      = Some (rev l) /\
    ascending 0 l /\
    (forall a, 0 <= a < PHYS_ADDR_MAX ->
       free_at nid flags m a <-> exists s e n, (s, e, n) ∈ l /\ s <= a < e).
Proof.
  intros Hwm Hwr Hcm Hcr Hnid. eexists.
  split_and!; [by apply forward_enumerates|by apply backward_enumerates|by apply free_ascending|].
  by apply free_ranges_attr.
Qed.

(** Memory with a reserved block inside. *)
Definition demo_reserved : memblock :=
  set_reserved (mk_type 128 0x2000 [mk_region 0x48000000 0x1000 0 16; mk_region 0x7ffff000 0x1000 0 16]
    InitRegions) demo.

Lemma demo_reserved_wf : type_wf (reserved demo_reserved).
Proof.
  split; [right; split; [done|]|by split; vm_compute].
  simpl. unfold region_ok, rend. simpl. repeat split; vm_compute; done.
Defined.

Lemma next_mem_range_enumerates_witness :
  exists l, iterate (fun i => __next_mem_range (H := arm64) i NUMA_NO_NODE 0 (memory demo_reserved)
                       (Some (reserved demo_reserved))) (range_fuel demo_reserved) 0 = Some l /\
    length l = 3%nat /\ ascending 0 l.
Proof.
  destruct (@next_mem_range_enumerates arm64 NUMA_NO_NODE 0 demo_reserved) as (l & Hf & _ & Ha & _);
    [apply demo_memory_wf|apply demo_reserved_wf|done|done|done|].
  exists l. split; [exact Hf|]. split; [|exact Ha].
  vm_compute in Hf. by injection Hf as <-.
Defined.

(** C3: [memblock_find_in_range_node] always returns.  Top-down it returns the
    highest aligned address at which the request fits into a free range within
    the bounds; bottom-up the lowest one above the kernel image if there is one;
    0 means that the request fits nowhere.  A non-zero result is aligned, within
    the bounds, and every byte of the block is usable memory that is not
    reserved. *)
Theorem memblock_find_in_range_node_spec `{Arch} m size align start end_ nid flags :
  search_pre m size align start end_ nid ->
  exists c, memblock_find_in_range_node m size align start end_ nid flags = Done c /\
    search_result m size align start end_ nid flags c /\
    (c <> 0 -> usable m nid flags (search_lo start) (search_hi m start end_) size align c).
Proof. apply find_in_range_node_ok. Qed.

Lemma demo_search_pre size align nid k :
  0 < size < 2 ^ 64 -> 0 <= k < 64 -> align = 2 ^ k -> nid <> 16 ->
  search_pre (H := arm64) demo_reserved size align 0 0 nid.
Proof.
  intros Hs Hk Ha Hn. split; [apply demo_memory_wf|apply demo_reserved_wf|done|done|done|
    by apply is_u64_dec|split; by apply is_u64_dec|done|by exists k|done].
Defined.

Lemma memblock_find_in_range_node_spec_witness :
  exists c, memblock_find_in_range_node (H := arm64) demo_reserved 0x100000 0x1000 0 0 NUMA_NO_NODE 0 = Done c /\
    c = 0xcff00000 /\
    usable (H := arm64) demo_reserved NUMA_NO_NODE 0 0x1000 (search_hi (H := arm64) demo_reserved 0 0) 0x100000 0x1000 c.
Proof.
  destruct (@memblock_find_in_range_node_spec arm64 demo_reserved 0x100000 0x1000 0 0 NUMA_NO_NODE 0)
    as (c & Hf & _ & Hu); [by apply (demo_search_pre _ _ _ 12)|].
  exists c. split; [exact Hf|]. vm_compute in Hf. injection Hf as <-. split; [done|]. by apply Hu.
Defined.
