(* ===== verification/MemblockAlloc.v ===== *)
(** * memblock: allocation, queries and limits

    The rest of [src/new/mm/memblock.c]: the allocation interface on top of the
    searches, the page-level interface, the binary search and the predicates on
    it, and the operations that cut the memory map to a limit or an alignment.
    [memset] of an allocated block writes memory that is not modelled. *)

From S2P Require Import Prelude MemblockDefs MemblockOps.

Section Alloc.
Context `{Arch}.

(** ** Allocation *)

(** [found = memblock_find_in_range_node(...)] followed by
    [found && !memblock_reserve(found, size)]: the address, 0 when the test
    fails. *)
Definition find_and_reserve (size align start end_ nid flags : Z) (m : memblock)
    : outcome (Z * memblock) :=
  found ← memblock_find_in_range_node m size align start end_ nid flags;
  if bool_of found then
    r ← memblock_reserve found size m;
    let '(rc, m1) := r in
    Done (if rc =? 0 then found else 0, m1)
  else Done (0, m).

Definition memblock_alloc_range_nid (size align start end_ nid flags : Z) (m : memblock)
    : outcome (Z * memblock) :=
  let align := if align =? 0 then SMP_CACHE_BYTES else align in
  find_and_reserve size align start end_ nid flags m.

Definition memblock_alloc_range (size align start end_ flags : Z) (m : memblock) :=
  memblock_alloc_range_nid size align start end_ NUMA_NO_NODE flags m.

Definition memblock_alloc_base_nid (size align max_addr nid flags : Z) (m : memblock) :=
  memblock_alloc_range_nid size align 0 max_addr nid flags m.

(** The second round starts with MEMBLOCK_MIRROR cleared, so there is no third. *)
Definition memblock_alloc_nid (size align nid : Z) (m : memblock) : outcome (Z * memblock) :=
  let flags := choose_memblock_flags m in
  r ← memblock_alloc_base_nid size align MEMBLOCK_ALLOC_ACCESSIBLE nid flags m;
  let '(ret, m1) := r in
  if (ret =? 0) && bool_of (Z.land flags MEMBLOCK_MIRROR)
  then memblock_alloc_base_nid size align MEMBLOCK_ALLOC_ACCESSIBLE nid
         (Z.land flags (Z.lnot MEMBLOCK_MIRROR)) m1
  else Done (ret, m1).

Definition __memblock_alloc_base (size align max_addr : Z) (m : memblock) :=
  memblock_alloc_base_nid size align max_addr NUMA_NO_NODE MEMBLOCK_NONE m.

Definition memblock_alloc_base (size align max_addr : Z) (m : memblock) : outcome (Z * memblock) :=
  r ← __memblock_alloc_base size align max_addr m;
  if fst r =? 0 then Panic else Done r.

Definition memblock_alloc (size align : Z) (m : memblock) :=
  memblock_alloc_base size align MEMBLOCK_ALLOC_ACCESSIBLE m.

Definition memblock_alloc_try_nid (size align nid : Z) (m : memblock) : outcome (Z * memblock) :=
  r ← memblock_alloc_nid size align nid m;
  let '(res, m1) := r in
  if bool_of res then Done (res, m1)
  else memblock_alloc_base size align MEMBLOCK_ALLOC_ACCESSIBLE m1.

(** The rounds from [again:].  A round that does not succeed clears [min_addr]
    or MEMBLOCK_MIRROR, so there are three at most.  Returns the physical
    address. *)
Fixpoint virt_alloc_again (fuel : nat) (size align min_addr max_addr nid flags : Z) (m : memblock)
    : outcome (Z * memblock) :=
  match fuel with
  | O => NoFuel
  | S fuel' =>
      r ← find_and_reserve size align min_addr max_addr nid flags m;
      let '(alloc, m1) := r in
      if bool_of alloc then Done (alloc, m1) else
      r ← (if negb (nid =? NUMA_NO_NODE)
           then find_and_reserve size align min_addr max_addr NUMA_NO_NODE flags m1
           else Done (0, m1));
      let '(alloc, m2) := r in
      if bool_of alloc then Done (alloc, m2) else
      if bool_of min_addr then virt_alloc_again fuel' size align 0 max_addr nid flags m2
      else if bool_of (Z.land flags MEMBLOCK_MIRROR) then
        virt_alloc_again fuel' size align min_addr max_addr nid
          (Z.land flags (Z.lnot MEMBLOCK_MIRROR)) m2
      else Done (0, m2)
  end.

Definition memblock_virt_alloc_internal (size align min_addr max_addr nid : Z) (m : memblock)
    : outcome (Z * memblock) :=
  let flags := choose_memblock_flags m in
  let nid := if nid =? MAX_NUMNODES then NUMA_NO_NODE else nid in
  if slab_is_available then Done (kzalloc_node size nid, m) else
  let align := if align =? 0 then SMP_CACHE_BYTES else align in
  let max_addr := if max_addr >? current_limit m then current_limit m else max_addr in
  r ← virt_alloc_again 3 size align min_addr max_addr nid flags m;
  let '(alloc, m1) := r in
  Done (if bool_of alloc then phys_to_virt alloc else 0, m1).

Definition memblock_virt_alloc_try_nid_raw := memblock_virt_alloc_internal.
Definition memblock_virt_alloc_try_nid_nopanic := memblock_virt_alloc_internal.

Definition memblock_virt_alloc_try_nid (size align min_addr max_addr nid : Z) (m : memblock)
    : outcome (Z * memblock) :=
  r ← memblock_virt_alloc_internal size align min_addr max_addr nid m;
  if bool_of (fst r) then Done r else Panic.

Definition __memblock_free_early (base size : Z) (m : memblock) : outcome memblock :=
  r ← memblock_remove_range RESERVED base size m;
  Done (snd r).

(** ** Pages *)

(** [for (; cursor < end; cursor++)], with [n] rounds left: the page frames
    handed to the buddy allocator, and [totalram_pages]. *)
Fixpoint free_late_loop (n : nat) (cursor totalram_pages : Z) : list Z * Z :=
  match n with
  | O => ([], totalram_pages)
  | S n' =>
      let '(freed, total) := free_late_loop n' (cursor + 1) (u64 (totalram_pages + 1)) in
      (cursor :: freed, total)
  end.

Definition __memblock_free_late (base size totalram_pages : Z) : list Z * Z :=
  let cursor := PFN_UP base in
  let end_ := PFN_DOWN (u64 (base + size)) in
  free_late_loop (Z.to_nat (end_ - cursor)) cursor totalram_pages.

(** The pages of the region arrays that were allocated, reserved first. *)
Definition memblock_discard (m : memblock) (totalram_pages : Z) : list Z * Z :=
  let discard (t : memblock_type) (total : Z) : list Z * Z :=
    match mt_array t with
    | InitRegions => ([], total)
    | RegionsAt addr =>
        __memblock_free_late addr (PAGE_ALIGN (u64 (sizeof_memblock_region * mt_max t))) total
    end in
  let '(freed1, total1) := discard (reserved m) totalram_pages in
  let '(freed2, total2) := discard (memory m) total1 in
  (freed1 ++ freed2, total2).

(** [while (++*idx < type->cnt)], with [n] rounds left. *)
Fixpoint pfn_scan (n : nat) (nid idx : Z) (t : memblock_type) : option (Z * Z * Z * Z) :=
  match n with
  | O => None
  | S n' =>
      let r := region_at t (Z.to_nat idx) in
      if PFN_UP (r_base r) >=? PFN_DOWN (u64 (r_base r + r_size r)) then pfn_scan n' nid (idx + 1) t
      else if (nid =? MAX_NUMNODES) || (nid =? r_nid r)
      then Some (idx, PFN_UP (r_base r), PFN_DOWN (u64 (r_base r + r_size r)), r_nid r)
      else pfn_scan n' nid (idx + 1) t
  end.

(** The new [*idx] and the out parameters; [None] is [*idx = -1]. *)
Definition __next_mem_pfn_range (idx nid : Z) (m : memblock) : option (Z * Z * Z * Z) :=
  pfn_scan (Z.to_nat (cnt (memory m) - (idx + 1))) nid (idx + 1) (memory m).

Definition memblock_region_memory_base_pfn (r : memblock_region) : Z := PFN_UP (r_base r).
Definition memblock_region_memory_end_pfn (r : memblock_region) : Z :=
  PFN_DOWN (u64 (r_base r + r_size r)).

Fixpoint mem_size_loop (rs : list memblock_region) (limit_pfn pages : Z) : Z :=
  match rs with
  | [] => pages
  | r :: rs' =>
      let start_pfn := Z.min (memblock_region_memory_base_pfn r) limit_pfn in
      let end_pfn := Z.min (memblock_region_memory_end_pfn r) limit_pfn in
      mem_size_loop rs' limit_pfn (u64 (pages + u64 (end_pfn - start_pfn)))
  end.

Definition memblock_mem_size (limit_pfn : Z) (m : memblock) : Z :=
  PFN_PHYS (mem_size_loop (regions (memory m)) limit_pfn 0).

(** ** Queries *)
Definition memblock_phys_mem_size (m : memblock) : Z := total_size (memory m).
Definition memblock_reserved_size (m : memblock) : Z := total_size (reserved m).
Definition memblock_start_of_DRAM (m : memblock) : Z := r_base (region_at (memory m) 0).
Definition memblock_end_of_DRAM (m : memblock) : Z :=
  let idx := Z.to_nat (cnt (memory m) - 1) in
  u64 (r_base (region_at (memory m) idx) + r_size (region_at (memory m) idx)).

(** The [do ... while (left < right)] of [memblock_search]; a round shrinks
    [right - left]. *)
Fixpoint search_loop (fuel : nat) (t : memblock_type) (addr left right : Z) : outcome Z :=
  match fuel with
  | O => NoFuel
  | S fuel' =>
      let mid := u32 (right + left) / 2 in
      let r := region_at t (Z.to_nat mid) in
      let continue left right :=
        if left <? right then search_loop fuel' t addr left right else Done (-1) in
      if addr <? r_base r then continue left mid
      else if addr >=? u64 (r_base r + r_size r) then continue (u32 (mid + 1)) right
      else Done (s32 mid)
  end.

Definition memblock_search (t : memblock_type) (addr : Z) : outcome Z :=
  search_loop (S (length (regions t))) t addr 0 (u32 (cnt t)).

Definition memblock_is_reserved (addr : Z) (m : memblock) : outcome bool :=
  i ← memblock_search (reserved m) addr; Done (negb (i =? -1)).

Definition memblock_is_memory (addr : Z) (m : memblock) : outcome bool :=
  i ← memblock_search (memory m) addr; Done (negb (i =? -1)).

Definition memblock_is_map_memory (addr : Z) (m : memblock) : outcome bool :=
  i ← memblock_search (memory m) addr;
  if i =? -1 then Done false
  else Done (negb (memblock_is_nomap (region_at (memory m) (Z.to_nat i)))).

(** The node, [*start_pfn] and [*end_pfn]; [None] is -1. *)
Definition memblock_search_pfn_nid (pfn : Z) (m : memblock) : outcome (option (Z * Z * Z)) :=
  mid ← memblock_search (memory m) (PFN_PHYS pfn);
  if mid =? -1 then Done None else
  let r := region_at (memory m) (Z.to_nat mid) in
  Done (Some (r_nid r, PFN_DOWN (r_base r), PFN_DOWN (u64 (r_base r + r_size r)))).

Definition memblock_is_region_memory (base size : Z) (m : memblock) : outcome bool :=
  idx ← memblock_search (memory m) base;
  let end_ := u64 (base + memblock_cap_size base size) in
  if idx =? -1 then Done false else
  let r := region_at (memory m) (Z.to_nat idx) in
  Done (u64 (r_base r + r_size r) >=? end_).

Definition memblock_is_region_reserved (base size : Z) (m : memblock) : bool :=
  memblock_overlaps_region (reserved m) base (memblock_cap_size base size).

(** ** Limits *)
Fixpoint find_max_addr_loop (rs : list memblock_region) (limit : Z) : Z :=
  match rs with
  | [] => PHYS_ADDR_MAX
  | r :: rs' =>
      if limit <=? r_size r then u64 (r_base r + limit)
      else find_max_addr_loop rs' (u64 (limit - r_size r))
  end.

Definition __find_max_addr (limit : Z) (m : memblock) : Z :=
  find_max_addr_loop (regions (memory m)) limit.

Definition memblock_enforce_memory_limit (limit : Z) (m : memblock) : outcome memblock :=
  if limit =? 0 then Done m else
  let max_addr := __find_max_addr limit m in
  if max_addr =? PHYS_ADDR_MAX then Done m else
  r1 ← memblock_remove_range MEMORY max_addr PHYS_ADDR_MAX m;
  r2 ← memblock_remove_range RESERVED max_addr PHYS_ADDR_MAX (snd r1);
  Done (snd r2).

(** [for (i = lo + n - 1; i >= lo; i--)] of [memblock_cap_memory_range]: the
    regions that are mapped go. *)
Fixpoint remove_map_loop (n lo : nat) (t : memblock_type) : memblock_type :=
  match n with
  | O => t
  | S n' =>
      let i := (lo + n')%nat in
      remove_map_loop n' lo
        (if memblock_is_nomap (region_at t i) then t else memblock_remove_region t i)
  end.

Definition memblock_cap_memory_range (base size : Z) (m : memblock) : outcome memblock :=
  if size =? 0 then Done m else
  r ← memblock_isolate_range MEMORY base size m;
  let '(ret, start_rgn, end_rgn, m1) := r in
  if bool_of ret then Done m1 else
  let t1 := remove_map_loop (length (regions (memory m1)) - end_rgn) end_rgn (memory m1) in
  let t2 := remove_map_loop start_rgn 0 t1 in
  let m2 := set_memory t2 m1 in
  r1 ← memblock_remove_range RESERVED 0 base m2;
  r2 ← memblock_remove_range RESERVED (u64 (base + size)) PHYS_ADDR_MAX (snd r1);
  Done (snd r2).

Definition memblock_mem_limit_remove_map (limit : Z) (m : memblock) : outcome memblock :=
  if limit =? 0 then Done m else
  let max_addr := __find_max_addr limit m in
  if max_addr =? PHYS_ADDR_MAX then Done m else
  memblock_cap_memory_range 0 max_addr m.

(** The [for_each_memblock] loop of [memblock_trim_memory].  After a removal
    [r--] and the loop's [r++] look at the same index again; a round advances
    the index or removes a region, the dummy entry left by the last removal is
    one more round. *)
Fixpoint trim_loop (fuel : nat) (align : Z) (i : nat) (t : memblock_type) : outcome memblock_type :=
  match fuel with
  | O => NoFuel
  | S fuel' =>
      match regions t !! i with
      | None => Done t
      | Some r =>
          let orig_start := r_base r in
          let orig_end := u64 (r_base r + r_size r) in
          let start := round_up orig_start align in
          let end_ := round_down orig_end align in
          if (start =? orig_start) && (end_ =? orig_end) then trim_loop fuel' align (S i) t
          else if start <? end_ then
            trim_loop fuel' align (S i)
              (set_regions (<[i := mk_region start (u64 (end_ - start)) (r_flags r) (r_nid r)]> (regions t)) t)
          else trim_loop fuel' align i (memblock_remove_region t i)
      end
  end.

Definition memblock_trim_memory (align : Z) (m : memblock) : outcome memblock :=
  t ← trim_loop (length (regions (memory m)) + 2) align 0 (memory m);
  Done (set_memory t m).

Definition memblock_set_current_limit (limit : Z) (m : memblock) : memblock :=
  mk_memblock (bottom_up m) limit (memory m) (reserved m) (memblock_can_resize m)
    (memblock_memory_in_slab m) (memblock_reserved_in_slab m) (system_has_some_mirror m).
Definition memblock_get_current_limit (m : memblock) : Z := current_limit m.
Definition memblock_set_bottom_up (enable : bool) (m : memblock) : memblock :=
  mk_memblock enable (current_limit m) (memory m) (reserved m) (memblock_can_resize m)
    (memblock_memory_in_slab m) (memblock_reserved_in_slab m) (system_has_some_mirror m).
Definition memblock_bottom_up (m : memblock) : bool := bottom_up m.
Definition memblock_allow_resize (m : memblock) : memblock :=
  mk_memblock (bottom_up m) (current_limit m) (memory m) (reserved m) true
    (memblock_memory_in_slab m) (memblock_reserved_in_slab m) (system_has_some_mirror m).

End Alloc.
