(* ===== verification/MemblockQueries.v ===== *)
(** * memblock: properties of searches, allocations, queries and limits *)

From S2P Require Import Prelude MemblockDefs MemblockOps MemblockRegions MemblockSplit MemblockSpec MemblockProps MemblockIter MemblockFind MemblockAlloc.

(** ** The binary search *)
Section BinarySearch.
Variable t : memblock_type.
Variable addr : Z.
Hypothesis wf : regions_wf (regions t).
Hypothesis small : cnt t < 2 ^ 31.

Abbreviation reg i := (region_at t (Z.to_nat i)).

(** Every region below [left] ends at or before the address, every region from
    [right] on starts after it. *)
Definition narrowed (left right : Z) : Prop :=
  (forall i, 0 <= i < left -> rend (reg i) <= addr) /\
  (forall i, right <= i < cnt t -> addr < r_base (reg i)).

Definition search_ok (r : Z) : Prop :=
  (0 <= r < cnt t /\ contains (reg r) addr = true) \/
  (r = -1 /\ forall i, 0 <= i < cnt t -> contains (reg i) addr = false).

Lemma base_mono i k : 0 <= i <= k -> k < cnt t -> r_base (reg i) <= r_base (reg k).
Proof.
  intros Hi Hk. destruct (Z.eq_dec i k) as [->|]; [lia|].
  pose proof (region_at_order t i k wf ltac:(lia) ltac:(lia) Hk).
  pose proof (region_at_bounds t i wf ltac:(lia)). lia.
Qed.

Lemma rend_mono i k : 0 <= i <= k -> k < cnt t -> rend (reg i) <= rend (reg k).
Proof.
  intros Hi Hk. destruct (Z.eq_dec i k) as [->|]; [lia|].
  pose proof (region_at_order t i k wf ltac:(lia) ltac:(lia) Hk).
  pose proof (region_at_bounds t i wf ltac:(lia)). pose proof (region_at_bounds t k wf ltac:(lia)). lia.
Qed.

Lemma narrowed_done left right : right <= left -> narrowed left right -> search_ok (-1).
Proof.
  intros Hle [Hl Hr]. right. split; [done|]. intros i Hi. apply contains_false.
  destruct (Z.lt_ge_cases i left) as [Hlt|Hge].
  - right. apply Hl. lia.
  - left. apply Hr. lia.
Qed.

Lemma search_loop_ok fuel left right :
  0 <= left < right -> right <= cnt t -> right - left <= Z.of_nat fuel -> narrowed left right ->
  exists r, search_loop fuel t addr left right = Done r /\ search_ok r.
Proof.
  revert left right. induction fuel as [|fuel IH]; intros left right Hlr Hc Hf Hn; [lia|]. simpl.
  rewrite (u32_small (right + left)) by lia. set (mid := (right + left) / 2).
  assert (Hmid : left <= mid < right) by (subst mid; split; [apply Z.div_le_lower_bound|apply Z.div_lt_upper_bound]; lia).
  pose proof (region_at_bounds t mid wf ltac:(lia)) as Hb. fold (r_end (reg mid)).
  destruct (addr <? r_base (reg mid)) eqn:H1; zb; [|destruct (addr >=? r_end (reg mid)) eqn:H2; zb].
  - assert (Hn' : narrowed left mid).
    { split; [apply Hn|]. intros i Hi. pose proof (base_mono mid i ltac:(lia) ltac:(lia)). lia. }
    destruct (left <? mid) eqn:H3; zb; [apply IH; done || lia|].
    exists (-1). split; [done|]. by apply (narrowed_done left mid).
  - rewrite (u32_small (mid + 1)) by lia. assert (Hn' : narrowed (mid + 1) right).
    { split; [|apply Hn]. intros i Hi. pose proof (rend_mono i mid ltac:(lia) ltac:(lia)). lia. }
    destruct (mid + 1 <? right) eqn:H3; zb; [apply IH; done || lia|].
    exists (-1). split; [done|]. by apply (narrowed_done (mid + 1) right).
  - exists mid. rewrite s32_small by lia. split; [done|]. left. split; [lia|]. apply contains_iff. lia.
Qed.

Lemma memblock_search_ok : exists r, memblock_search t addr = Done r /\ search_ok r.
Proof.
  assert (Hc : 0 < cnt t).
  { unfold cnt. destruct wf as [[n ->]|[Hne _]]; [done|]. destruct (regions t); [done|]. simpl. lia. }
  unfold memblock_search. rewrite u32_small by lia.
  apply search_loop_ok; [lia|lia|unfold cnt; lia|]. split; intros; lia.
Qed.

Lemma search_ok_attr r : search_ok r ->
  (r = -1 /\ tattr t addr = None) \/
  (0 <= r < cnt t /\ tattr t addr = Some (r_flags (reg r), r_nid (reg r))).
Proof.
  intros [[Hr Hc]|[-> Hno]]; [right|left]; (split; [done|]); unfold tattr.
  - by apply attr_wf_in.
  - destruct (attr (regions t) addr) as [x|] eqn:He; [|done].
    apply attr_Some_in in He as (r & Hin & Hc & _). apply list_elem_of_lookup in Hin as [n Hn].
    apply lookup_lt_Some in Hn as Hlt. specialize (Hno (Z.of_nat n) ltac:(unfold cnt; lia)).
    unfold region_at in Hno. rewrite Nat2Z.id, Hn in Hno. simpl in Hno. congruence.
Qed.

End BinarySearch.

Lemma search_attr t addr : regions_wf (regions t) -> cnt t < 2 ^ 31 ->
  exists r, memblock_search t addr = Done r /\
    ((r = -1 /\ tattr t addr = None) \/
     (0 <= r < cnt t /\ contains (region_at t (Z.to_nat r)) addr = true /\
      tattr t addr = Some (r_flags (region_at t (Z.to_nat r)), r_nid (region_at t (Z.to_nat r))))).
Proof.
  intros Hwf Hs. destruct (memblock_search_ok t addr Hwf Hs) as (r & Hr & Hok). exists r. split; [done|].
  destruct (search_ok_attr t addr Hwf r Hok) as [?|[? ?]]; [by left|right].
  destruct Hok as [[_ Hc]|[-> _]]; [|lia]. done.
Qed.

(** The binary search of a region array returns for every address the region
    that holds it, and -1 exactly when none does; so [memblock_is_memory],
    [memblock_is_reserved] and [memblock_is_map_memory] answer by the attributes
    of the address, NOMAP memory being memory that is not mapped. *)
Theorem memblock_search_queries addr m :
  regions_wf (regions (memory m)) -> regions_wf (regions (reserved m)) ->
  cnt (memory m) < 2 ^ 31 -> cnt (reserved m) < 2 ^ 31 ->
  memblock_is_memory addr m = Done (bool_decide (is_Some (tattr (memory m) addr))) /\
  memblock_is_reserved addr m = Done (bool_decide (is_Some (tattr (reserved m) addr))) /\
  memblock_is_map_memory addr m =
    Done (match tattr (memory m) addr with
          | Some (flags, _) => negb (bool_of (Z.land flags MEMBLOCK_NOMAP))
          | None => false
          end).
Proof.
  intros Hwm Hwr Hsm Hsr.
  destruct (search_attr (memory m) addr Hwm Hsm) as (i & Hi & Hci).
  destruct (search_attr (reserved m) addr Hwr Hsr) as (j & Hj & Hcj).
  unfold memblock_is_memory, memblock_is_reserved, memblock_is_map_memory.
  rewrite Hi, Hj. simpl.
  destruct Hci as [[-> ->]|(Hri & _ & ->)], Hcj as [[-> ->]|(Hrj & _ & ->)];
    rewrite ?(proj2 (Z.eqb_neq i (-1))), ?(proj2 (Z.eqb_neq j (-1))) by lia; by split_and!.
Qed.

Lemma memblock_search_queries_witness :
  memblock_is_map_memory 0x48000000 demo = Done true /\
  memblock_is_memory 0x80000000 demo = Done false.
Proof.
  destruct (memblock_search_queries 0x48000000 demo) as (_ & _ & H1);
    [apply demo_memory_wf|left; by exists 0|done|done|].
  destruct (memblock_search_queries 0x80000000 demo) as (H2 & _ & _);
    [apply demo_memory_wf|left; by exists 0|done|done|].
  split; [exact H1|exact H2].
Defined.

Lemma region_overlaps r base size : region_ok r -> is_u64 base -> is_u64 size -> base < range_end base size ->
  memblock_addrs_overlap base (memblock_cap_size base size) (r_base r) (r_size r) = true <->
  exists a, base <= a < range_end base size /\ contains r a = true.
Proof.
  intros Hok Hb Hs Hne. destruct (cap_end base size Hb Hs) as (Hc & Hu & _).
  unfold memblock_addrs_overlap. rewrite Hu. fold (r_end r). rewrite r_end_rend by done.
  rewrite andb_true_iff, !Z.ltb_lt. setoid_rewrite contains_iff.
  destruct Hok as (? & ? & ?). unfold rend in *. split.
  - intros [? ?]. exists (Z.max base (r_base r)). lia.
  - intros (a & ? & ?). lia.
Qed.

(** The region array seen through its list and through its indices. *)
Lemma elem_region_at t r : r ∈ regions t ->
  exists i, 0 <= i < cnt t /\ region_at t (Z.to_nat i) = r.
Proof.
  intros Hin. apply list_elem_of_lookup in Hin as [n Hn]. apply lookup_lt_Some in Hn as Hlt.
  exists (Z.of_nat n). unfold cnt, region_at. rewrite Nat2Z.id, Hn. split; [lia|done].
Qed.

Lemma is_region_memory_ok base size m :
  regions_wf (regions (memory m)) -> cnt (memory m) < 2 ^ 31 -> is_u64 base -> is_u64 size ->
  base < range_end base size ->
  exists b, memblock_is_region_memory base size m = Done b /\
    (b = true <-> exists r, r ∈ regions (memory m) /\ r_base r <= base /\ range_end base size <= rend r).
Proof.
  intros Hwm Hsm Hb Hs Hne. destruct (cap_end base size Hb Hs) as (Hc & Hu & _).
  unfold memblock_is_region_memory.
  destruct (search_attr (memory m) base Hwm Hsm) as (i & -> & Hi). simpl. rewrite Hu.
  destruct Hi as [[-> Hnone]|(Hi & Hcont & _)].
  - exists false. split; [done|]. split; [done|]. intros (r & Hin & H1 & H2).
    apply elem_region_at in Hin as (k & Hk & <-).
    unfold tattr in Hnone. rewrite (attr_wf_in _ k) in Hnone; [done|done|done|]. apply contains_iff. lia.
  - rewrite (proj2 (Z.eqb_neq i (-1))) by lia. eexists. split; [done|].
    destruct (region_at_bounds (memory m) i Hwm Hi) as (_ & _ & _ & He). unfold r_end in He. rewrite He.
    rewrite Z.geb_leb, Z.leb_le. apply contains_iff in Hcont. split.
    + intros Hle. eexists. split; [|split; [apply Hcont|done]].
      eapply list_elem_of_lookup_2. by apply region_at_lookup.
    + intros (r & Hin & H1 & H2). apply elem_region_at in Hin as (k & Hk & <-).
      destruct (Z.lt_trichotomy k i) as [Hki|[->|Hki]]; [|done|].
      * pose proof (region_at_order _ k i Hwm ltac:(lia) Hki ltac:(lia)).
        pose proof (region_at_bounds _ k Hwm Hk). lia.
      * pose proof (region_at_order _ i k Hwm ltac:(lia) Hki ltac:(lia)).
        pose proof (region_at_bounds _ i Hwm Hi). lia.
Qed.

Lemma is_region_reserved_ok base size m :
  regions_wf (regions (reserved m)) -> is_u64 base -> is_u64 size -> base < range_end base size ->
  memblock_is_region_reserved base size m = true <->
    exists a, base <= a < range_end base size /\ tattr (reserved m) a <> None.
Proof.
  intros Hwr Hb Hs Hne.
  unfold memblock_is_region_reserved, memblock_overlaps_region, tattr. rewrite existsb_exists.
  destruct Hwr as [Hemp|[_ Hwf]].
  - setoid_rewrite (attr_empty _ _ Hemp). split; [|by intros (a & _ & ?)].
    destruct Hemp as [nid ->]. intros (r & [<-|[]] & Ho). unfold memblock_addrs_overlap in Ho. simpl in Ho. zb.
    change (u64 (0 + 0)) with 0 in *. unfold is_u64 in Hb. lia.
  - pose proof (wf_from_Forall _ _ Hwf) as HF. rewrite list.Forall_forall in HF. split.
    + intros (r & Hin & Ho). apply list_elem_of_In in Hin. apply region_overlaps in Ho; try done; [|by apply HF].
      destruct Ho as (a & Ha & Hca). exists a. split; [done|]. by erewrite attr_in.
    + intros (a & Ha & Hx). destruct (attr _ a) as [x|] eqn:He; [|done].
      apply attr_Some_in in He as (r & Hin & Hca & _). exists r.
      split; [by apply list_elem_of_In|]. apply region_overlaps; try done; [by apply HF|]. by exists a.
Qed.

(** [memblock_is_region_memory] is true exactly when one memory region
    holds the whole range, and [memblock_is_region_reserved] exactly when some
    address of the (non-empty) range is reserved; ranges that pass the end of the
    address space are cut there. *)
Theorem memblock_region_queries base size m :
  regions_wf (regions (memory m)) -> regions_wf (regions (reserved m)) ->
  cnt (memory m) < 2 ^ 31 -> is_u64 base -> is_u64 size -> base < range_end base size ->
  (exists b, memblock_is_region_memory base size m = Done b /\
     (b = true <-> exists r, r ∈ regions (memory m) /\ r_base r <= base /\ range_end base size <= rend r)) /\
  (memblock_is_region_reserved base size m = true <->
     exists a, base <= a < range_end base size /\ tattr (reserved m) a <> None).
Proof. intros. split; [by apply is_region_memory_ok|by apply is_region_reserved_ok]. Qed.

Lemma memblock_region_queries_witness :
  memblock_is_region_reserved 0x40000000 0x1000 demo = true <->
    exists a, 0x40000000 <= a < 0x40001000 /\ tattr (reserved demo) a <> None.
Proof.
  apply (memblock_region_queries 0x40000000 0x1000 demo);
    [apply demo_memory_wf|left; by exists 0|done|by apply is_u64_dec|by apply is_u64_dec|done].
Defined.

(** ** Allocation *)

(** A range without attributes is inserted in one piece. *)
Lemma ins_free_length end_ nid flags rest base lo :
  wf_from lo rest -> base < end_ -> (forall a, base <= a < end_ -> attr rest a = None) ->
  length (ins end_ nid flags rest base) = S (length rest).
Proof.
  revert lo. induction rest as [|r rest IH]; intros lo Hwf Hlt Hnone; simpl.
  { by rewrite (proj2 (Z.ltb_lt _ _) Hlt). }
  rewrite (proj2 (Z.ltb_lt _ _) Hlt). destruct Hwf as (Hlo & (Hb & Hs & He) & Hwf).
  destruct (r_base r >=? end_) eqn:H1; zb; [done|].
  assert (Hrest : forall a, base <= a < end_ -> contains r a = false /\ attr rest a = None).
  { intros a Ha. specialize (Hnone a Ha). simpl in Hnone. by destruct (contains r a). }
  destruct (rend r <=? base) eqn:H2; zb.
  - simpl. f_equal. eapply IH; [done|done|]. intros a Ha. by apply Hrest.
  - exfalso. destruct (Hrest (Z.max base (r_base r)) ltac:(lia)) as [Hc _].
    apply contains_false in Hc. unfold rend in *. lia.
Qed.

Lemma added_free base end_ nid flags t :
  regions_wf (regions t) -> 0 <= base < end_ -> (forall a, base <= a < end_ -> tattr t a = None) ->
  added_regions base end_ nid flags t = 1.
Proof.
  intros Hwf Hlt Hnone. unfold added_regions, new_regions.
  destruct Hwf as [[n Hr]|[_ Hwf]]; [|rewrite (ins_free_length _ _ _ _ _ 0); [lia|done|lia|done]].
  rewrite Hr. simpl. rewrite (proj2 (Z.ltb_lt base end_)) by lia.
  unfold rend. simpl. replace (0 >=? end_) with false by lia. by replace (0 + 0 <=? base) with true by lia.
Qed.

Section AllocSpec.
Context `{Arch}.

(** What an allocation attempt gives: nothing changed, or a place that was free
    and is now reserved, the memory map being as it was. *)
Definition allocated (size align start end_ nid flags : Z) (m m' : memblock) (c : Z) : Prop :=
  usable m nid flags (search_lo start) (search_hi m start end_) size align c /\
  exists t, m' = set_reserved t m /\ type_wf t /\
    forall a, tattr t a = if in_range c (c + size) a then Some (0, MAX_NUMNODES) else tattr (reserved m) a.

Lemma find_and_reserve_ok size align start end_ nid flags m :
  search_pre m size align start end_ nid -> type_wf (reserved m) -> cnt (reserved m) < mt_max (reserved m) ->
  exists c m', find_and_reserve size align start end_ nid flags m = Done (c, m') /\
    ((c = 0 /\ m' = m /\ search_result m size align start end_ nid flags 0) \/
     (c <> 0 /\ allocated size align start end_ nid flags m m' c)).
Proof.
  intros Hpre Hwf Hroom. destruct (find_in_range_node_ok m size align start end_ nid flags Hpre)
    as (c & Hfind & Hres & Huse). unfold find_and_reserve. rewrite Hfind. cbn [mbind outcome_bind].
  unfold bool_of. destruct (c =? 0) eqn:Hz; zb; cbn [negb]; [subst c; exists 0, m; split; [done|by left]|].
  specialize (Huse Hz). pose proof Huse as (Hlo & Hhi & _ & Hfree). destruct Hpre.
  assert (Hhi64 : search_hi m start end_ < 2 ^ 64).
  { unfold search_hi, search_lo, is_u64 in *. destruct (end_ =? _); lia. }
  assert (Hc0 : 0 < c) by (unfold search_lo in Hlo; lia).
  assert (Hend : range_end c size = c + size) by (unfold range_end, PHYS_ADDR_MAX; lia).
  assert (Hnone : forall a, c <= a < c + size -> tattr (reserved m) a = None).
  { intros a Ha. by destruct (Hfree a Ha) as (x & _ & _ & ?). }
  destruct (add_range_room double_array RESERVED c size MAX_NUMNODES 0 m Hwf) as (t & Hadd & Ht & Ha & _);
    [unfold is_u64; lia|unfold is_u64; lia| |].
  - simpl. rewrite Hend, added_free; [lia|apply Hwf|lia|done].
  - unfold memblock_reserve, memblock_add_range. rewrite Hadd. cbn [mbind outcome_bind].
    exists c, (set_reserved t m). split; [done|]. right. split; [done|]. split; [done|].
    exists t. split_and!; [done|done|]. intros a. rewrite Ha, Hend. unfold attr_added. simpl.
    destruct (in_range c (c + size) a) eqn:Hin.
    + apply in_range_true in Hin. by rewrite Hnone.
    + by destruct (tattr (reserved m) a).
Qed.

End AllocSpec.

Definition default_align `{Arch} (align : Z) : Z := if align =? 0 then SMP_CACHE_BYTES else align.

(** C24: with a free slot in the reserved array an allocation always returns.
    Either it returns 0, changes nothing, and the request fits in no free range;
    or it returns an aligned block within the bounds every byte of which was
    usable and unreserved memory, and now exactly that block is reserved in
    addition while the memory map is as it was. *)
Theorem memblock_alloc_range_nid_spec `{Arch} size align start end_ nid flags m :
  search_pre m size (default_align align) start end_ nid -> type_wf (reserved m) ->
  cnt (reserved m) < mt_max (reserved m) ->
  exists c m', memblock_alloc_range_nid size align start end_ nid flags m = Done (c, m') /\
    ((c = 0 /\ m' = m /\ search_result m size (default_align align) start end_ nid flags 0) \/
     (c <> 0 /\ allocated size (default_align align) start end_ nid flags m m' c)).
Proof. apply find_and_reserve_ok. Qed.

Lemma memblock_alloc_range_nid_spec_witness :
  exists m', memblock_alloc_range_nid (H := arm64) 0x100000 0 0 0 NUMA_NO_NODE 0 demo_reserved = Done (0xcff00000, m') /\
    allocated (H := arm64) 0x100000 64 0 0 NUMA_NO_NODE 0 demo_reserved m' 0xcff00000.
Proof.
  destruct (@memblock_alloc_range_nid_spec arm64 0x100000 0 0 0 NUMA_NO_NODE 0 demo_reserved)
    as (c & m' & Heq & Hr); [by apply (demo_search_pre _ _ _ 6)|apply demo_reserved_wf|done|].
  pose proof Heq as Hv. vm_compute in Hv. injection Hv as Hc _. rewrite <- Hc in Heq, Hr.
  exists m'. split; [exact Heq|]. destruct Hr as [[? _]|[_ Hr]]; [discriminate|exact Hr].
Defined.

(** Freeing an allocated block undoes the allocation: every address has the
    reserved attributes it had before, and the memory map never changed. *)
Theorem memblock_alloc_free_roundtrip `{Arch} size align start end_ nid flags m c m' :
  search_pre m size (default_align align) start end_ nid -> type_wf (reserved m) ->
  cnt (reserved m) < mt_max (reserved m) ->
  memblock_alloc_range_nid size align start end_ nid flags m = Done (c, m') -> c <> 0 ->
  cnt (reserved m') + 2 <= mt_max (reserved m') ->
  exists m'', memblock_free c size m' = Done (0, m'') /\ memory m'' = memory m /\
    type_wf (reserved m'') /\ forall a, tattr (reserved m'') a = tattr (reserved m) a.
Proof.
  intros Hpre Hwf Hroom Halloc Hc Hroom'.
  destruct (find_and_reserve_ok size (default_align align) start end_ nid flags m Hpre Hwf Hroom)
    as (c1 & m1 & Heq & Hres).
  assert (Hsame : Done (c1, m1) = Done (c, m')) by (rewrite <- Heq; exact Halloc).
  injection Hsame as -> ->. destruct Hres as [[? _]|[_ Hal]]; [done|].
  destruct Hal as ((Hlo & Hhi & _ & Hfree) & t & -> & Ht & Ha). destruct Hpre.
  assert (Hhi64 : search_hi m start end_ < 2 ^ 64).
  { unfold search_hi, search_lo, is_u64 in *. destruct (end_ =? _); lia. }
  assert (Hc0 : 0 < c) by (unfold search_lo in Hlo; lia).
  destruct (remove_range_room double_array RESERVED c size (set_reserved t m)) as (t' & Hrm & Ht' & Ha' & _);
    [done|unfold is_u64; lia|unfold is_u64; lia|done|].
  eexists. split; [apply Hrm|]. split_and!; [done|done|]. intros a. simpl in *. rewrite Ha', Ha.
  unfold attr_removed. replace (range_end c size) with (c + size) by (unfold range_end, PHYS_ADDR_MAX; lia).
  destruct (in_range c (c + size) a) eqn:Hin; [|done]. apply in_range_true in Hin.
  by destruct (Hfree a Hin) as (x & _ & _ & ->).
Qed.

Lemma memblock_alloc_free_roundtrip_witness :
  exists m' m'', memblock_alloc_range_nid (H := arm64) 0x100000 0 0 0 NUMA_NO_NODE 0 demo_reserved
      = Done (0xcff00000, m') /\
    memblock_free (H := arm64) 0xcff00000 0x100000 m' = Done (0, m'') /\
    tattr (reserved m'') 0x48000000 = tattr (reserved demo_reserved) 0x48000000.
Proof.
  eexists. assert (Heq : memblock_alloc_range_nid (H := arm64) 0x100000 0 0 0 NUMA_NO_NODE 0 demo_reserved
    = Done (0xcff00000, _)) by (vm_compute; reflexivity).
  destruct (@memblock_alloc_free_roundtrip arm64 0x100000 0 0 0 NUMA_NO_NODE 0 demo_reserved 0xcff00000 _
    (demo_search_pre 0x100000 64 NUMA_NO_NODE 6 ltac:(done) ltac:(done) ltac:(done) ltac:(done)) demo_reserved_wf ltac:(done) Heq)
    as (m'' & Hfree & _ & _ & Ha); [done|by vm_compute|].
  exists m''. split; [exact Heq|]. split; [exact Hfree|apply Ha].
Defined.
