(* ===== verification/MemblockResize.v ===== *)
(** * memblock: adding and removing memory with resizing

    [memblock_double_array] moves a full array of regions: it takes the new array out of
    memblock itself, frees the old one and reserves the new one.  With room for these two
    in the reserved array the operations on memory always return. *)

From S2P Require Import Prelude MemblockDefs MemblockOps MemblockRegions MemblockSplit MemblockSpec MemblockProps MemblockIter MemblockFind MemblockAlloc MemblockQueries.
#[local] Open Scope Z_scope.

(** ** Sizes of arrays *)
Section Frames.
Context `{Arch}.

(** The same array. *)
Definition same_array (t t' : memblock_type) : Prop := mt_max t' = mt_max t /\ mt_array t' = mt_array t.

#[export] Instance same_array_preorder : PreOrder same_array.
Proof using Type. split; [done|]. intros t1 t2 t3 [? ?] [? ?]. split; congruence. Qed.

Lemma insert_frame t i base size nid flags t' : memblock_insert_region t i base size nid flags = Done t' ->
  same_array t t' /\ cnt t' = cnt t + 1.
Proof using Type.
  unfold memblock_insert_region. destruct (cnt t >=? mt_max t); cbn [BUG_ON mbind outcome_bind]; [done|]. intros [= <-].
  split; [done|]. unfold cnt. simpl. rewrite length_app, length_take. simpl. rewrite length_drop. lia.
Qed.

Lemma add_loop_frame end_ nid flags fuel : forall idx base nr t idx' base' nr' t',
  add_loop fuel true end_ nid flags idx base nr t = Done (idx', base', nr', t') -> same_array t t' /\ cnt t' = cnt t + (nr' - nr).
Proof using Type.
  induction fuel as [|fuel IH]; intros idx base nr t idx' base' nr' t'; [done|]. cbn [add_loop].
  destruct (regions t !! idx) as [r|]; [|intros [= <- <- <- <-]; split; [done|lia]].
  destruct (r_base r >=? end_); [intros [= <- <- <- <-]; split; [done|lia]|]. destruct (_ <=? base); [apply IH|].
  destruct (r_base r >? base); [|apply IH]. intros (t1 & Hi & HD)%bind_Done. apply insert_frame in Hi as [Hs Hc].
  apply IH in HD as [Hs' Hc']. split; [by etransitivity|lia].
Qed.

Lemma add_pass_frame end_ nid flags base t n t' : add_pass true end_ nid flags base t = Done (n, t') -> same_array t t' /\ cnt t' = cnt t + n.
Proof using Type.
  unfold add_pass. intros ([[[idx b] nr] t1] & Hl & HD)%bind_Done. apply add_loop_frame in Hl as [Hs Hc].
  destruct (b <? end_); [|injection HD as <- <-; split; [done|lia]]. apply bind_Done in HD as (t2 & Hi & HD). injection HD as <- <-.
  apply insert_frame in Hi as [Hs' Hc']. split; [by etransitivity|lia].
Qed.

Lemma merge_loop_frame fuel : forall i t t', merge_loop fuel i t = Done t' -> same_array t t' /\ cnt t' <= cnt t.
Proof using Type.
  induction fuel as [|fuel IH]; intros i t t'; [done|]. cbn [merge_loop]. destruct (regions t !! i) as [a|] eqn:Ha; [|intros [= <-]; split; [done|lia]].
  destruct (regions t !! S i) as [b|] eqn:Hb; [|intros [= <-]; split; [done|lia]]. destruct (_ || _ || _).
  - intros (u & _ & HD)%bind_Done. by apply IH in HD.
  - intros HD. apply IH in HD as [Hs Hc]. split; [by etransitivity; [|exact Hs]|]. apply lookup_lt_Some in Hb.
    unfold cnt in Hc |- *. cbn [regions set_regions] in Hc. rewrite length_app, length_take in Hc. cbn [length] in Hc. rewrite length_drop in Hc. lia.
Qed.

Lemma isolate_loop_frame base end_ fuel : forall idx s e t s' e' t', isolate_loop fuel base end_ idx s e t = Done (s', e', t') -> same_array t t'.
Proof using Type.
  induction fuel as [|fuel IH]; intros idx s e t s' e' t'; [done|]. cbn [isolate_loop].
  destruct (regions t !! idx) as [r|]; [|by intros [= <- <- <-]].
  destruct (r_base r >=? end_); [by intros [= <- <- <-]|]. destruct (_ <=? base); [apply IH|]. destruct (r_base r <? base).
  { intros (t1 & Hi & HD)%bind_Done. apply insert_frame in Hi as [Hs _]. apply IH in HD. by etransitivity. }
  destruct (_ >? end_); [|apply IH]. intros (t1 & Hi & HD)%bind_Done. apply insert_frame in Hi as [Hs _]. apply IH in HD. by etransitivity.
Qed.

Lemma remove_loop_frame n s : forall t, same_array t (remove_loop n s t) /\ cnt (remove_loop n s t) <= Z.max 1 (cnt t).
Proof using Type.
  induction n as [|n IH]; intros t; cbn [remove_loop]; [split; [done|lia]|]. destruct (IH (memblock_remove_region t (s + n))) as [Hs Hc].
  assert (Hr : same_array t (memblock_remove_region t (s + n)) /\ cnt (memblock_remove_region t (s + n)) <= Z.max 1 (cnt t)).
  { unfold memblock_remove_region. destruct (_ =? 0); (split; [done|]); unfold cnt; simpl; [lia|]. rewrite length_app, length_take, length_drop. lia. }
  destruct Hr as [Hr1 Hr2]. split; [by etransitivity|lia].
Qed.

(** At most one region for each gap between the old ones. *)
Lemma ins_length_max end_ nid flags rest : forall base, (length (ins end_ nid flags rest base) <= 2 * length rest + 1)%nat.
Proof using Type.
  induction rest as [|r rest IH]; intros base; simpl; [destruct (_ <? _); simpl; lia|].
  pose proof (IH base). pose proof (IH (Z.min (rend r) end_)). repeat zcase; simpl; lia.
Qed.

Lemma added_range base e nid flags t : 0 <= added_regions base e nid flags t <= cnt t + 1.
Proof using Type.
  unfold added_regions, new_regions, cnt. pose proof (ins_length e nid flags (regions t) base). pose proof (ins_length_max e nid flags (regions t) base). lia.
Qed.

Lemma type_cnt t : type_wf t -> 1 <= cnt t <= mt_max t.
Proof using Type.
  intros ([(n & Hr)|[Hne _]] & _ & Hc); split; try done; unfold cnt; [by rewrite Hr|]. destruct (regions t); [done|simpl; lia].
Qed.
End Frames.

Section Room.
Context `{Arch} (dbl : mtype -> Z -> Z -> memblock -> outcome (Z * memblock)).

Lemma set_get_type w m t : set_type w t m = m -> t = get_type w m.
Proof using Type. intros E. by rewrite <- (get_set_type w t m), E. Qed.

Lemma set_type_inj w m t t' : set_type w t m = set_type w t' m -> t = t'.
Proof using Type. intros E. by rewrite <- (get_set_type w t m), E, get_set_type. Qed.

(** Adding with room: the array stays, and has no more new regions than counted. *)
Lemma add_room_frame w base size nid flags m :
  type_wf (get_type w m) -> is_u64 base -> is_u64 size ->
  cnt (get_type w m) + added_regions base (range_end base size) nid flags (get_type w m) <= mt_max (get_type w m) ->
  exists t', memblock_add_range_ dbl w base size nid flags m = Done (0, set_type w t' m) /\ type_wf t' /\
    (forall a, tattr t' a = attr_added base (range_end base size) flags nid (tattr (get_type w m) a) a) /\
    same_array (get_type w m) t' /\ cnt t' <= cnt (get_type w m) + added_regions base (range_end base size) nid flags (get_type w m).
Proof using Type.
  intros Ht Hb Hs Hroom. destruct (add_range_room dbl w base size nid flags m Ht Hb Hs Hroom) as (t' & Hrun & Hwf & Ha & _).
  exists t'. split; [done|]. split; [done|]. split; [done|].
  pose proof (added_range base (range_end base size) nid flags (get_type w m)) as Hadd. destruct (cap_end base size Hb Hs) as (_ & _ & Hle).
  assert (Hsame : memblock_add_range_ dbl w base size nid flags m = Done (0, m) -> same_array (get_type w m) t' /\ cnt t' <= cnt (get_type w m) + added_regions base (range_end base size) nid flags (get_type w m)).
  { rewrite Hrun. intros [= E]. apply set_get_type in E as ->. split; [done|lia]. }
  destruct (Z.eq_dec (range_end base size) base) as [Hz|Hnz]; [by apply Hsame, add_range_zero|].
  destruct (proj1 Ht) as [Hemp|(Hne & Hw)].
  - destruct (cap_end base size Hb Hs) as (Hc & _). unfold memblock_add_range_ in Hrun. rewrite Hc in Hrun. rewrite (proj2 (Z.eqb_neq _ _)) in Hrun by lia.
    rewrite (proj2 (empty_first _ Ht) Hemp) in Hrun. injection Hrun as E. apply set_type_inj in E as <-. split; [done|]. destruct Hemp as (n & Hr). unfold cnt in *. simpl. rewrite Hr in *. simpl in *. lia.
  - rewrite add_range_full in Hrun by done. destruct (added_regions _ _ _ _ _ =? 0) eqn:Hz; [injection Hrun as E; symmetry in E; apply set_get_type in E as ->; split; [done|lia]|].
    unfold ROOM_FUEL in Hrun. rewrite ensure_room_now in Hrun by done. cbn [mbind outcome_bind] in Hrun. change (0 <? 0) with false in Hrun. cbn match in Hrun.
    apply bind_Done in Hrun as ([n2 t2] & Hp & HD). pose proof Hp as Hp'. apply add_pass_frame in Hp as [Hs2 Hc2].
    destruct (add_pass_merge base (range_end base size) nid flags ltac:(unfold is_u64 in *; lia) ltac:(lia) (get_type w m) Ht Hne Hw Hroom) as (t2' & t3 & Hq & _). rewrite Hq in Hp'. injection Hp' as <- <-.
    rewrite Hz in HD. apply bind_Done in HD as (t4 & Hm & HD). injection HD as E. apply set_type_inj in E as <-. unfold memblock_merge_regions in Hm. apply merge_loop_frame in Hm as [Hs4 Hc4].
    split; [by etransitivity|lia].
Qed.

(** Removing splits two regions at most. *)
Lemma remove_room_frame w base size m :
  type_wf (get_type w m) -> is_u64 base -> is_u64 size -> cnt (get_type w m) + 2 <= mt_max (get_type w m) ->
  exists t', memblock_remove_range_ dbl w base size m = Done (0, set_type w t' m) /\ type_wf t' /\
    (forall a, tattr t' a = attr_removed base (range_end base size) (tattr (get_type w m) a) a) /\
    same_array (get_type w m) t' /\ cnt t' <= cnt (get_type w m) + 2.
Proof using Type.
  intros Ht Hb Hs Hroom. destruct (remove_range_room dbl w base size m Ht Hb Hs Hroom) as (t' & Hrun & Hwf & Ha & _).
  exists t'. split; [done|]. split; [done|]. split; [done|].
  destruct (cap_end base size Hb Hs) as (Hc & Hu & Hle). pose proof (type_cnt _ Ht) as Hcnt.
  unfold memblock_remove_range_, memblock_isolate_range_ in Hrun. rewrite Hu, Hc in Hrun. destruct (range_end base size - base =? 0) eqn:Hz.
  { cbn [mbind outcome_bind] in Hrun. change (bool_of 0) with false in Hrun. cbn match in Hrun. injection Hrun as E. cbn [Nat.sub remove_loop] in E. apply set_type_inj in E as <-. split; [done|lia]. }
  apply Z.eqb_neq in Hz. unfold ROOM_FUEL in Hrun. rewrite ensure_room_now in Hrun by done. cbn [mbind outcome_bind] in Hrun. change (0 <? 0) with false in Hrun. cbn match in Hrun.
  destruct (isolate_type base (range_end base size) ltac:(unfold is_u64 in *; lia) ltac:(lia) (get_type w m) Ht Hroom) as (s & e & t1 & Hl & _ & _ & _ & Hcase).
  rewrite Hl in Hrun. cbn [mbind outcome_bind] in Hrun. change (bool_of 0) with false in Hrun. cbn match in Hrun. rewrite get_set_type, set_set_type in Hrun. injection Hrun as E. apply set_type_inj in E as <-.
  apply isolate_loop_frame in Hl. destruct (remove_loop_frame (e - s) s t1) as [Hs2 Hc2]. split; [by etransitivity|].
  assert (cnt t1 <= cnt (get_type w m) + 2); [|lia]. destruct Hcase as [(_ & -> & _)|(mid & -> & Hreg & _ & Hw & _)]; [lia|].
  pose proof (isolated_length base (range_end base size) ltac:(unfold is_u64 in *; lia) ltac:(lia) 0 (regions (get_type w m)) Hw) as Hlen.
  unfold isolated in Hlen. unfold cnt. rewrite Hreg. revert Hlen. repeat zcase; lia.
Qed.
End Room.

(** ** Doubling the array of memory *)
Class MemblockArchSpec `{Arch} : Prop := {
  page_size_power : exists k, 0 <= k < 64 /\ PAGE_SIZE = 2 ^ k;
  kernel_end_range : 0 <= kernel_end_pa;
  nodes_range : 0 <= MAX_NUMNODES;
  region_bytes : 0 < sizeof_memblock_region <= 2 ^ 10;
  page_align_up x : 0 < x < 2 ^ 50 -> x <= PAGE_ALIGN x < 2 ^ 64;
}.

Section Doubling.
Context `{MemblockArchSpec}.

(** The bytes of an array that does not lie in the kernel image. *)
Definition array_bytes (t : memblock_type) (a : Z) : Prop :=
  match mt_array t with InitRegions => False | RegionsAt pa => pa <= a < pa + PAGE_ALIGN (mt_max t * sizeof_memblock_region) end.

(** The arrays are in order and not larger than what 64-bit sizes and 32-bit indices
    can take; [slots] entries of the reserved array are free; the arrays that were taken from memblock
    are reserved and disjoint, so that a new one overwrites neither. *)
Record ready (slots bound : Z) (m : memblock) : Prop := {
  rd_memory : type_wf (memory m);
  rd_reserved : type_wf (reserved m);
  rd_limit : is_u64 (current_limit m);
  rd_max : mt_max (memory m) <= bound /\ mt_max (reserved m) <= 2 ^ 30;
  rd_slots : cnt (reserved m) + slots <= mt_max (reserved m);
  rd_array pa : mt_array (memory m) = RegionsAt pa -> memblock_memory_in_slab m = false -> is_u64 pa;
  rd_memory_held a : memblock_memory_in_slab m = false -> array_bytes (memory m) a -> tattr (reserved m) a <> None;
  rd_reserved_held a : memblock_reserved_in_slab m = false -> array_bytes (reserved m) a -> tattr (reserved m) a <> None;
  rd_disjoint a : memblock_memory_in_slab m = false -> memblock_reserved_in_slab m = false -> array_bytes (memory m) a -> ~ array_bytes (reserved m) a;
}.

Lemma find_in_range_ok slots bound m start end_ size : ready slots bound m -> bound <= 2 ^ 30 -> is_u64 start -> is_u64 end_ -> 0 < size < 2 ^ 64 ->
  exists c, memblock_find_in_range m start end_ size PAGE_SIZE = Done c /\
    (c <> 0 -> 0 < c /\ c + size < 2 ^ 64 /\ forall a, c <= a < c + size -> tattr (reserved m) a = None).
Proof using Type*.
  intros [R1 R2 R3 [R4 R5] R6 _ _ _ _] Hb Hs He Hsz. destruct page_size_power as (k & Hk & Hps). pose proof nodes_range. assert (Hpos : 0 < PAGE_SIZE < 2 ^ 64) by (rewrite Hps; split; [apply Z.pow_pos_nonneg; lia|apply Z.pow_lt_mono_r; lia]).
  pose proof (type_cnt _ R1). pose proof (type_cnt _ R2).
  assert (Hpre : search_pre m size PAGE_SIZE start end_ NUMA_NO_NODE).
  { split; [apply R1|apply R2|lia|lia|apply kernel_end_range|done|done|done|by exists k|unfold NUMA_NO_NODE; lia]. }
  assert (Hhi : search_hi m start end_ < 2 ^ 64) by (unfold search_hi, search_lo, is_u64 in *; destruct (_ =? _); lia).
  assert (Hres : forall flags c, (c <> 0 -> usable m NUMA_NO_NODE flags (search_lo start) (search_hi m start end_) size PAGE_SIZE c) ->
    c <> 0 -> 0 < c /\ c + size < 2 ^ 64 /\ forall a, c <= a < c + size -> tattr (reserved m) a = None).
  { intros flags c Hu Hc. destruct (Hu Hc) as (Hlo & Hhi' & _ & Hfree). unfold search_lo in Hlo. split; [lia|]. split; [lia|].
    intros a Ha. by destruct (Hfree a Ha) as (x & _ & _ & ?). }
  unfold memblock_find_in_range. destruct (find_in_range_node_ok m size PAGE_SIZE start end_ NUMA_NO_NODE (choose_memblock_flags m) Hpre) as (c & -> & _ & Hu). cbn [mbind outcome_bind].
  destruct ((c =? 0) && _); [|exists c; split; [done|by apply (Hres _ c Hu)]].
  destruct (find_in_range_node_ok m size PAGE_SIZE start end_ NUMA_NO_NODE (Z.land (choose_memblock_flags m) (Z.lnot MEMBLOCK_MIRROR)) Hpre) as (c' & -> & _ & Hu').
  exists c'. split; [done|by apply (Hres _ c' Hu')].
Qed.

(** One doubling takes three entries of the reserved array at most. *)
Lemma double_memory_ok depth b s slots bound m : ready (slots + 3) bound m -> 0 <= slots -> 2 * bound <= 2 ^ 30 ->
  exists rc m', memblock_double_array (S depth) MEMORY b s m = Done (rc, m') /\
    ((rc = -1 /\ m' = m) \/ (rc = 0 /\ ready slots (2 * bound) m' /\ regions (memory m') = regions (memory m) /\ mt_max (memory m') = 2 * mt_max (memory m))).
Proof using Type*.
  intros Hrd Hsl Hb. pose proof Hrd as [R1 R2 R3 [R4 R5] R6 R7 R8 R9 R10]. cbn [memblock_double_array get_type]. destruct (memblock_can_resize m); cbn [negb]; [|eexists _, m; split; [done|by left]].
  pose proof (type_cnt _ R1) as Hc1. pose proof (type_cnt _ R2) as Hc2. pose proof region_bytes as Hrb. set (old := mt_max (memory m) * sizeof_memblock_region).
  assert (Hold : 0 < old < 2 ^ 41) by (subst old; nia). rewrite (u64_small old) by (unfold is_u64; lia). rewrite Z.shiftl_mul_pow2 by lia. change (2 ^ 1) with 2. rewrite (u64_small (old * 2)) by (unfold is_u64; lia).
  destruct (page_align_up old ltac:(lia)) as [Ho1 Ho2]. destruct (page_align_up (old * 2) ltac:(lia)) as [Hn1 Hn2].
  assert (Hfind : exists addr, find_new_array MEMORY b s (old * 2) m = Done addr /\
    (slab_is_available = false -> addr <> 0 -> 0 < addr /\ addr + PAGE_ALIGN (old * 2) < 2 ^ 64 /\ forall a, addr <= a < addr + PAGE_ALIGN (old * 2) -> tattr (reserved m) a = None)).
  { unfold find_new_array. destruct slab_is_available; [by eexists|]. cbv zeta. change (u64 (0 + 0)) with 0.
    destruct (find_in_range_ok (slots + 3) bound m 0 (current_limit m) (PAGE_ALIGN (old * 2)) Hrd ltac:(lia) ltac:(done) R3 ltac:(lia)) as (c & -> & Hc). cbn [mbind outcome_bind].
    change (bool_of 0) with false. rewrite andb_false_r. exists c. split; [done|]. intros _. exact Hc. }
  destruct Hfind as (addr & -> & Haddr). cbn [mbind outcome_bind]. destruct (Z.eqb_spec addr 0) as [->|Hne]; [eexists _, m; split; [done|by left]|].
  set (t1 := mk_type (Z.shiftl (mt_max (memory m)) 1) (total_size (memory m)) (regions (memory m)) (RegionsAt addr)).
  assert (Ht1 : type_wf t1 /\ mt_max t1 = 2 * mt_max (memory m)).
  { unfold t1. rewrite Z.shiftl_mul_pow2 by lia. change (2 ^ 1) with 2. split; [|simpl; lia]. destruct R1 as (W1 & W2 & W3). split_and!; [done|done|]. unfold cnt in *. simpl. lia. }
  cbn [set_type]. set (m1 := set_memory t1 m).
  (* the old array *)
  assert (Hfree : exists t2, (if in_slab MEMORY m then Done m1 else match mt_array (memory m) with InitRegions => Done m1 | RegionsAt pa => r ← memblock_free_ (memblock_double_array depth) pa (PAGE_ALIGN old) m1; Done (snd r) end)
      = Done (set_reserved t2 m1) /\ type_wf t2 /\ same_array (reserved m) t2 /\ cnt t2 <= cnt (reserved m) + 2 /\ (forall a, tattr (reserved m) a = None -> tattr t2 a = None) /\
      (forall a, tattr (reserved m) a <> None -> tattr t2 a = None -> memblock_memory_in_slab m = false /\ array_bytes (memory m) a)).
  { assert (Hkeep : Done m1 = Done (set_reserved (reserved m) m1)) by reflexivity. destruct (in_slab MEMORY m) eqn:Hslab; [exists (reserved m); split_and!; try done; lia|].
    destruct (mt_array (memory m)) as [|pa] eqn:Harr; [exists (reserved m); split_and!; try done; lia|]. specialize (R7 pa eq_refl Hslab).
    destruct (remove_room_frame (memblock_double_array depth) RESERVED pa (PAGE_ALIGN old) m1) as (t2 & Hrun & Hwf & Ha & Hmx & Hct); [exact R2|exact R7|unfold is_u64; lia|simpl; lia|].
    exists t2. unfold memblock_free_. rewrite Hrun. split; [done|]. split; [done|]. split; [done|]. split; [done|].
    split; intros a Hn; rewrite Ha; unfold attr_removed; simpl; [rewrite Hn; by destruct (in_range _ _ _)|]. destruct (in_range _ _ a) eqn:Hin; [|done]. intros _. split; [done|].
    unfold array_bytes. rewrite Harr. apply in_range_true in Hin. unfold range_end in Hin. fold old. lia. }
  destruct Hfree as (t2 & -> & Hwf2 & Hs2 & Hct2 & Hat2 & Hlost2). pose proof (proj1 Hs2) as Hmx2. cbn [mbind outcome_bind]. set (m2 := set_reserved t2 m1).
  (* the new array *)
  assert (Hres : exists t3, (if slab_is_available then Done m2 else r ← memblock_reserve_ (memblock_double_array depth) addr (PAGE_ALIGN (old * 2)) m2; _ ← BUG_ON (bool_of (fst r)); Done (snd r))
      = Done (set_reserved t3 m2) /\ type_wf t3 /\ same_array t2 t3 /\ cnt t3 <= cnt (reserved m) + 3 /\
      (forall a, tattr t2 a <> None -> tattr t3 a <> None) /\ (slab_is_available = false -> forall a, addr <= a < addr + PAGE_ALIGN (old * 2) -> tattr t3 a <> None)).
  { destruct slab_is_available; [exists t2; split_and!; try done; lia|]. destruct (Haddr eq_refl Hne) as (Hpos & Hend & Hno).
    assert (Hre : range_end addr (PAGE_ALIGN (old * 2)) = addr + PAGE_ALIGN (old * 2)) by (unfold range_end, PHYS_ADDR_MAX; lia).
    assert (Hone : added_regions addr (range_end addr (PAGE_ALIGN (old * 2))) MAX_NUMNODES 0 t2 = 1).
    { rewrite Hre. apply added_free; [apply Hwf2|lia|]. intros a Ha. by apply Hat2, Hno. }
    destruct (add_room_frame (memblock_double_array depth) RESERVED addr (PAGE_ALIGN (old * 2)) MAX_NUMNODES 0 m2) as (t3 & Hrun & Hwf3 & Ha3 & Hs3 & Hct3); [exact Hwf2|unfold is_u64; lia|unfold is_u64; lia|change (get_type RESERVED m2) with t2; rewrite Hone; lia|].
    change (get_type RESERVED m2) with t2 in *. rewrite Hone in Hct3. exists t3. unfold memblock_reserve_. rewrite Hrun. cbn [mbind outcome_bind fst snd]. change (bool_of 0) with false. cbn [BUG_ON mbind outcome_bind].
    split; [done|]. split; [done|]. split; [done|]. split; [lia|]. rewrite Hre in Ha3. split; [intros a|intros _ a Hin]; rewrite Ha3; unfold attr_added; [by destruct (tattr t2 a)|].
    destruct (tattr t2 a); [done|]. by rewrite (proj2 (in_range_true _ _ _)) by lia. }
  destruct Hres as (t3 & -> & Hwf3 & Hs3 & Hct3 & Hkept & Hnew). cbn [mbind outcome_bind]. eexists _, _. split; [done|]. right. split; [done|]. destruct Ht1 as [Hw1 Hm1]. split; [|split; [done|exact Hm1]].
  assert (Hs : same_array (reserved m) t3) by (by etransitivity). pose proof (proj1 Hs) as Hmx3.
  assert (Hbytes : forall a, array_bytes t1 a -> addr <= a < addr + PAGE_ALIGN (old * 2)).
  { intros a. unfold array_bytes. cbn [mt_array t1]. rewrite Hm1. by replace (2 * mt_max (memory m) * sizeof_memblock_region) with (old * 2) by (subst old; lia). }
  assert (Hsame : forall a, array_bytes t3 a -> array_bytes (reserved m) a) by (unfold array_bytes; destruct Hs as [-> ->]; done).
  split; [exact Hw1|exact Hwf3|exact R3|simpl in *; rewrite Hmx3; lia|simpl; lia|..]; simpl.
  - intros pa [= <-] Hslab. destruct (Haddr Hslab Hne) as (? & ? & _). unfold is_u64. lia.
  - intros a Hslab Hin. apply (Hnew Hslab). by apply Hbytes.
  - intros a Hslab Hin%Hsame. apply Hkept. intros Hn. destruct (Hlost2 a (R9 a Hslab Hin) Hn) as [Hm' Ham]. by apply (R10 a).
  - intros a Hslab Hrs Hin%Hbytes Hin'%Hsame. destruct (Haddr Hslab Hne) as (_ & _ & Hno). by apply (R9 a Hrs Hin'), Hno.
Qed.
End Doubling.

(** ** Operations on memory *)
Section Memory.
Context `{MemblockArchSpec}.

(** Two doublings are enough for what one operation can need. *)
Lemma ensure_memory_ok need b s m : ready 6 (2 ^ 28) m -> cnt (memory m) + need <= 4 * mt_max (memory m) ->
  exists rc m1, ensure_room double_array ROOM_FUEL MEMORY need b s m = Done (rc, m1).
Proof using Type*.
  intros Hrd Hneed. change ROOM_FUEL with (S (S (S 61))). generalize 61%nat as fuel. intros fuel.
  assert (Hstep : forall n m0 slots bound, ready (slots + 3) bound m0 -> 0 <= slots -> 2 * bound <= 2 ^ 30 ->
    (forall m1, ready slots (2 * bound) m1 -> regions (memory m1) = regions (memory m0) -> mt_max (memory m1) = 2 * mt_max (memory m0) -> exists rc m2, ensure_room double_array n MEMORY need b s m1 = Done (rc, m2)) ->
    exists rc m2, ensure_room double_array (S n) MEMORY need b s m0 = Done (rc, m2)).
  { intros n m0 slots bound Hr Hsl Hbd Hnext. cbn [ensure_room]. destruct (_ >? _); [|by eexists _, _]. change double_array with (memblock_double_array (S 3)).
    destruct (double_memory_ok 3 b s slots bound m0 Hr Hsl Hbd) as (rc & m1 & -> & [[-> ->]|(-> & Hr1 & Hreg & Hmx)]); cbn [mbind outcome_bind]; [by eexists _, _|]. change (0 <? 0) with false. cbn match. by apply Hnext. }
  apply (Hstep _ m 3 (2 ^ 28)); [exact Hrd|lia|lia|]. intros m1 Hr1 Hreg1 Hmx1. apply (Hstep _ m1 0 (2 * 2 ^ 28)); [exact Hr1|lia|lia|]. intros m2 _ Hreg2 Hmx2.
  eexists _, _. apply ensure_room_now. cbn [get_type]. unfold cnt in *. rewrite Hreg2, Hreg1. lia.
Qed.

(** Resizing is not allowed yet. *)
Lemma ensure_fixed need b s m : memblock_can_resize m = false -> exists rc m1, ensure_room double_array ROOM_FUEL MEMORY need b s m = Done (rc, m1).
Proof using Type.
  intros Hno. change ROOM_FUEL with (S 63). cbn [ensure_room]. destruct (_ >? _); [|by eexists _, _]. unfold double_array, RESIZE_DEPTH. cbn [memblock_double_array]. rewrite Hno. by eexists _, _.
Qed.

Lemma add_memory_returns base size nid flags m : type_wf (memory m) -> is_u64 base -> is_u64 size ->
  (exists rc m1, ensure_room double_array ROOM_FUEL MEMORY (added_regions base (range_end base size) nid flags (memory m)) base (range_end base size - base) m = Done (rc, m1)) ->
  exists rc m', memblock_add_range MEMORY base size nid flags m = Done (rc, m').
Proof using Type*.
  intros Ht Hb Hs (rc1 & m1 & Hroom). unfold memblock_add_range. destruct (cap_end base size Hb Hs) as (_ & _ & Hle).
  destruct (Z.eq_dec (range_end base size) base) as [Hz|Hnz]; [rewrite add_range_zero by done; by eexists _, _|].
  destruct (proj1 Ht) as [Hemp|(Hne & Hw)]; [destruct (add_range_empty double_array MEMORY base size nid flags m) as (t' & -> & _); try done; by eexists _, _|].
  rewrite add_range_full by done. cbn [get_type]. destruct (added_regions _ _ _ _ _ =? 0) eqn:Hz; [by eexists _, _|]. rewrite Hroom. cbn [mbind outcome_bind].
  apply ensure_room_spec in Hroom as (Hr & Hrc); [|apply _]. destruct Hrc as [(-> & Hfit)| ->]; [|by eexists _, _]. change (0 <? 0) with false. cbn match.
  assert (Hsame : added_regions base (range_end base size) nid flags (memory m1) = added_regions base (range_end base size) nid flags (memory m)) by (unfold added_regions; by rewrite (resized_memory _ _ Hr)).
  destruct (add_pass_merge base (range_end base size) nid flags ltac:(unfold is_u64 in *; lia) ltac:(lia) (memory m1)) as (t2 & t3 & Hp & Hm & _); try (by rewrite (resized_memory _ _ Hr)); [by eapply resized_type_wf|by rewrite Hsame|].
  cbn [get_type]. rewrite Hp. cbn [mbind outcome_bind]. rewrite Hsame, Hz, Hm. by eexists _, _.
Qed.

Lemma remove_memory_returns base size m : type_wf (memory m) -> is_u64 base -> is_u64 size ->
  (exists rc m1, ensure_room double_array ROOM_FUEL MEMORY 2 base (range_end base size - base) m = Done (rc, m1)) ->
  exists rc m', memblock_remove_range MEMORY base size m = Done (rc, m').
Proof using Type*.
  intros Ht Hb Hs (rc1 & m1 & Hroom). unfold memblock_remove_range, memblock_remove_range_, memblock_isolate_range_. destruct (cap_end base size Hb Hs) as (Hc & Hu & Hle). rewrite Hu, Hc.
  destruct (range_end base size - base =? 0) eqn:Hz; [by eexists _, _|]. apply Z.eqb_neq in Hz. rewrite Hroom. cbn [mbind outcome_bind].
  apply ensure_room_spec in Hroom as (Hr & Hrc); [|apply _]. destruct Hrc as [(-> & Hfit)| ->]; [|by eexists _, _]. change (0 <? 0) with false. cbn match.
  destruct (remove_type base (range_end base size) ltac:(unfold is_u64 in *; lia) ltac:(lia) (memory m1)) as (s & e & t1 & t2 & Hl & _); [by eapply resized_type_wf|exact Hfit|].
  cbn [get_type]. rewrite Hl. cbn [mbind outcome_bind]. change (bool_of 0) with false. cbn match. by eexists _, _.
Qed.

(** When an operation that needs [need] more entries of the array of memory is known to return: the
    entries are there, or the array must not be resized, or there are entries of the reserved
    array for two doublings (without them a doubling can itself double the reserved array; see
    [arrays_overlap] below). *)
Definition resizable (need : Z) (m : memblock) : Prop :=
  cnt (memory m) + need <= mt_max (memory m) \/ memblock_can_resize m = false \/ ready 6 (2 ^ 28) m.

Lemma resizable_ok need b s m : type_wf (memory m) -> need <= 2 \/ need <= cnt (memory m) + 1 -> resizable need m ->
  exists rc m1, ensure_room double_array ROOM_FUEL MEMORY need b s m = Done (rc, m1).
Proof using Type*.
  intros Ht Hneed [Hroom|[Hno|Hrd]]; [|by apply ensure_fixed|].
  - change ROOM_FUEL with (S 63). rewrite ensure_room_now by done. by eexists _, _.
  - apply ensure_memory_ok; [done|]. pose proof (type_cnt _ Ht). lia.
Qed.

(** C1: adding a range to the memory type.  Whenever the array of regions has room, must not be resized yet, or
    can be doubled (the reserved array has six free entries and both arrays are in order), the call returns: it fails with
    -ENOMEM, only if the array is full, and leaves the memory map as it was; or it succeeds: the addresses of the range that
    had no attributes get the given flags and node, all others keep what they had, and the array is again a sorted list
    of disjoint regions with the right total. *)
Theorem memblock_add_range_memory base size nid flags m : type_wf (memory m) -> is_u64 base -> is_u64 size ->
  resizable (added_regions base (range_end base size) nid flags (memory m)) m ->
  exists rc m', memblock_add_range MEMORY base size nid flags m = Done (rc, m') /\
    memory_result (attr_added base (range_end base size) flags nid) m rc m' /\
    (rc <> 0 -> mt_max (memory m) < cnt (memory m) + added_regions base (range_end base size) nid flags (memory m)).
Proof using Type*.
  intros Ht Hb Hs Hrs. pose proof (added_range base (range_end base size) nid flags (memory m)).
  destruct (add_memory_returns base size nid flags m Ht Hb Hs) as (rc & m' & Hrun); [apply resizable_ok; [done|right; lia|done]|]. exists rc, m'.
  split; [done|]. split; [by eapply add_memory_sound; [apply _|..]|].
  intros Hrc. destruct (Z.lt_ge_cases (mt_max (memory m)) (cnt (memory m) + added_regions base (range_end base size) nid flags (memory m))) as [|Hroom]; [done|].
  destruct (add_range_room double_array MEMORY base size nid flags m Ht Hb Hs Hroom) as (t & Hrun' & _). unfold memblock_add_range in Hrun. rewrite Hrun' in Hrun. by injection Hrun as <- <-.
Qed.

(** C2: removing a range from the memory type.  Whenever the array of regions has two free entries, must not be
    resized yet, or can be doubled (the reserved array has six free entries and both arrays are in order), the call returns:
    it fails with -ENOMEM, only if fewer than two entries are free, and changes no attribute; or it succeeds and takes the
    attributes of exactly the addresses of the range away. *)
Theorem memblock_remove_range_memory base size m : type_wf (memory m) -> is_u64 base -> is_u64 size -> resizable 2 m ->
  exists rc m', memblock_remove_range MEMORY base size m = Done (rc, m') /\
    memory_result (attr_removed base (range_end base size)) m rc m' /\ (rc <> 0 -> mt_max (memory m) < cnt (memory m) + 2).
Proof using Type*.
  intros Ht Hb Hs Hrs. destruct (remove_memory_returns base size m Ht Hb Hs) as (rc & m' & Hrun); [apply resizable_ok; [done|left; lia|done]|]. exists rc, m'.
  split; [done|]. split; [by eapply remove_memory_sound; [apply _|..]|].
  intros Hrc. destruct (Z.lt_ge_cases (mt_max (memory m)) (cnt (memory m) + 2)) as [|Hroom]; [done|].
  destruct (remove_range_room double_array MEMORY base size m Ht Hb Hs Hroom) as (t & Hrun' & _). unfold memblock_remove_range in Hrun. rewrite Hrun' in Hrun. by injection Hrun as <- <-.
Qed.
End Memory.

(** ** Runs that resize *)
#[export] Instance arm64_spec : @MemblockArchSpec arm64.
Proof.
  split; [by exists 12|done|done|done|]. intros x Hx. cbn [PAGE_ALIGN arm64]. change 4096 with (2 ^ 12). rewrite round_up_pow2 by (unfold is_u64; lia).
  pose proof (Z.div_mod (x + 2 ^ 12 - 1) (2 ^ 12) ltac:(lia)). pose proof (Z.mod_pos_bound (x + 2 ^ 12 - 1) (2 ^ 12) ltac:(lia)). rewrite u64_small by (unfold is_u64; lia). lia.
Qed.

(** The two regions of [demo] in an array of two that was moved to 0x44000000 before; the reserved array has [n] entries, the page of the other one among them. *)
Definition full_demo (n : Z) : memblock :=
  mk_memblock false MEMBLOCK_ALLOC_ANYWHERE (mk_type 2 0x50000000 demo_memory (RegionsAt 0x44000000)) (mk_type n 0x1000 [mk_region 0x44000000 0x1000 0 16] InitRegions) true false false false.

Lemma full_demo_wf : type_wf (memory (full_demo 128)).
Proof. split; [right; split; [done|]|by split; vm_compute]. simpl. unfold region_ok, rend. simpl. repeat split; vm_compute; done. Defined.

Lemma full_demo_ready : ready (H := arm64) 6 (2 ^ 28) (full_demo 128).
Proof.
  split; [apply full_demo_wf| |by apply is_u64_dec|by vm_compute|by vm_compute|intros pa [= <-] _; by apply is_u64_dec|..].
  - split; [right; split; [done|]|by split; vm_compute]. simpl. unfold region_ok, rend. simpl. repeat split; vm_compute; done.
  - intros a _ Ha. change (0x44000000 <= a < 0x44001000) in Ha. change (tattr _ a) with (if in_range 0x44000000 0x44001000 a then Some (0, 16) else None). by rewrite (proj2 (in_range_true _ _ _)) by lia.
  - by intros a _ Ha.
  - by intros a _ _ _ Ha.
Defined.

(** A third region: the array is doubled. *)
Lemma memblock_add_range_memory_witness : exists m', memblock_add_range (H := arm64) MEMORY 0x90000000 0x1000 0 0 (full_demo 128) = Done (0, m') /\
  mt_max (memory m') = 4 /\ regions (reserved m') <> regions (reserved (full_demo 128)) /\ memory_result (attr_added 0x90000000 0x90001000 0 0) (full_demo 128) 0 m'.
Proof.
  destruct (@memblock_add_range_memory arm64 arm64_spec 0x90000000 0x1000 0 0 (full_demo 128) full_demo_wf ltac:(by apply is_u64_dec) ltac:(by apply is_u64_dec) ltac:(right; right; exact full_demo_ready)) as (rc & m' & Hrun & Hres & _).
  pose proof Hrun as Hrun'. vm_compute in Hrun'. injection Hrun' as <- <-. eexists. split; [exact Hrun|]. split; [done|]. split; [done|exact Hres].
Defined.

(** Two splits. *)
Lemma memblock_remove_range_memory_witness : exists m', memblock_remove_range (H := arm64) MEMORY 0x48000000 0x1000 (full_demo 128) = Done (0, m') /\
  mt_max (memory m') = 4 /\ length (regions (memory m')) = 3%nat /\ memory_result (attr_removed 0x48000000 0x48001000) (full_demo 128) 0 m'.
Proof.
  destruct (@memblock_remove_range_memory arm64 arm64_spec 0x48000000 0x1000 (full_demo 128) full_demo_wf ltac:(by apply is_u64_dec) ltac:(by apply is_u64_dec) ltac:(right; right; exact full_demo_ready)) as (rc & m' & Hrun & Hres & _).
  pose proof Hrun as Hrun'. vm_compute in Hrun'. injection Hrun' as <- <-. eexists. split; [exact Hrun|]. split; [done|]. split; [done|exact Hres].
Defined.

(** With one free entry in a reserved array of two, the free of the old array doubles the reserved array while nothing
    holds the new array of memory: both arrays end up in the same page. *)
Example arrays_overlap : exists m', memblock_add_range (H := arm64) MEMORY 0x90000000 0x1000 0 0 (full_demo 2) = Done (0, m') /\
  mt_array (memory m') = RegionsAt 0xcffff000 /\ mt_array (reserved m') = RegionsAt 0xcffff000.
Proof. eexists. split; [vm_compute; reflexivity|]. by split. Qed.

(** Without a free entry in the reserved array and a page for a larger one, reserving the new array stops at the BUG_ON. *)
Example full_reserved_array_bug :
  memblock_add_range (H := arm64) MEMORY 0x90000000 0x1000 0 0
    (mk_memblock false MEMBLOCK_ALLOC_ANYWHERE (mk_type 1 0x2000 [mk_region 0x44000000 0x2000 0 0] InitRegions) (mk_type 1 0x1000 [mk_region 0x44000000 0x1000 0 16] InitRegions) true false false false) = Bug.
Proof. reflexivity. Qed.
