(* ===== verification/MemblockLimits.v ===== *)
(** * memblock: properties of the boot allocation interface, limits and trimming *)

From S2P Require Import Prelude MemblockDefs MemblockOps MemblockRegions MemblockSplit MemblockSpec MemblockProps MemblockFind MemblockAlloc MemblockQueries.

(** ** [memblock_virt_alloc_internal] *)
Section VirtAlloc.
Context `{Arch}.
Variables (size align max_addr : Z) (m : memblock).
Hypothesis pre : forall start nid, is_u64 start -> nid <> MAX_NUMNODES ->
  search_pre m size align start max_addr nid.
Hypothesis wf : type_wf (reserved m).
Hypothesis room : cnt (reserved m) < mt_max (reserved m).
Hypothesis no_node : NUMA_NO_NODE <> MAX_NUMNODES.

Definition no_mirror (flags : Z) : Z := Z.land flags (Z.lnot MEMBLOCK_MIRROR).

(** The block came from one of the attempts: the preferred node or any node,
    above the preferred address or anywhere, mirrored or not. *)
Definition fallback (min_addr nid flags : Z) (start' nid' flags' : Z) : Prop :=
  (start' = min_addr \/ start' = 0) /\ (nid' = nid \/ nid' = NUMA_NO_NODE) /\
  (flags' = flags \/ flags' = no_mirror flags).

Definition virt_result (min_addr nid flags c : Z) (m' : memblock) : Prop :=
  (c = 0 /\ m' = m /\ search_result m size align 0 max_addr NUMA_NO_NODE (no_mirror flags) 0) \/
  (c <> 0 /\ exists start' nid' flags', fallback min_addr nid flags start' nid' flags' /\
     allocated size align start' max_addr nid' flags' m m' c).

Lemma no_mirror_clear flags : Z.land (no_mirror flags) MEMBLOCK_MIRROR = 0.
Proof.
  unfold no_mirror. rewrite <- Z.land_assoc, (Z.land_comm (Z.lnot _)), Z.land_lnot_diag. apply Z.land_0_r.
Qed.

Lemma no_mirror_id flags : Z.land flags MEMBLOCK_MIRROR = 0 -> no_mirror flags = flags.
Proof.
  intros Hf. unfold no_mirror. rewrite <- Z.ldiff_land. apply Z.bits_inj'. intros n Hn.
  rewrite Z.ldiff_spec. assert (Hb := f_equal (fun z => Z.testbit z n) Hf). simpl in Hb.
  rewrite Z.land_spec, Z.bits_0 in Hb. by destruct (Z.testbit flags n), (Z.testbit MEMBLOCK_MIRROR n).
Qed.

(** Rounds that can be left. *)
Definition rounds_left (min_addr flags : Z) : nat :=
  ((if bool_of min_addr then 1 else 0) + (if bool_of (Z.land flags MEMBLOCK_MIRROR) then 1 else 0))%nat.

Lemma virt_alloc_again_ok fuel min_addr nid flags :
  is_u64 min_addr -> nid <> MAX_NUMNODES -> (rounds_left min_addr flags < fuel)%nat ->
  exists c m', virt_alloc_again fuel size align min_addr max_addr nid flags m = Done (c, m') /\
    virt_result min_addr nid flags c m'.
Proof.
  revert min_addr flags. induction fuel as [|fuel IH]; intros min_addr flags Hmin Hnid Hf; [lia|]. simpl.
  assert (Htry : forall nid', nid' <> MAX_NUMNODES -> (nid' = nid \/ nid' = NUMA_NO_NODE) ->
    exists c m', find_and_reserve size align min_addr max_addr nid' flags m = Done (c, m') /\
      ((c = 0 /\ m' = m /\ search_result m size align min_addr max_addr nid' flags 0) \/
       (c <> 0 /\ virt_result min_addr nid flags c m'))).
  { intros nid' Hn' Hor.
    destruct (find_and_reserve_ok size align min_addr max_addr nid' flags m (pre _ _ Hmin Hn') wf room)
      as (c & m' & Heq & [?|[? ?]]); exists c, m'; (split; [done|]); [by left|right]. split; [done|].
    right. split; [done|]. exists min_addr, nid', flags. split; [split_and!; [by left|done|by left]|done]. }
  destruct (Htry nid Hnid ltac:(by left)) as (c & m' & -> & [(-> & -> & Hno)|[Hc Hres]]); cycle 1.
  { cbn [mbind outcome_bind]. unfold bool_of at 1. rewrite (proj2 (Z.eqb_neq c 0)) by done. by exists c, m'. }
  cbn [mbind outcome_bind]. change (bool_of 0) with false. cbn match.
  assert (Hsecond : exists c m', (if negb (nid =? NUMA_NO_NODE)
      then find_and_reserve size align min_addr max_addr NUMA_NO_NODE flags m else Done (0, m)) = Done (c, m') /\
      ((c = 0 /\ m' = m /\ search_result m size align min_addr max_addr NUMA_NO_NODE flags 0) \/
       (c <> 0 /\ virt_result min_addr nid flags c m'))).
  { destruct (nid =? NUMA_NO_NODE) eqn:Hn; zb; simpl; [|apply Htry; [done|by right]].
    exists 0, m. split; [done|]. left. by rewrite Hn in Hno. }
  destruct Hsecond as (c & m' & -> & [(-> & -> & Hno2)|[Hc Hres]]); cycle 1.
  { cbn [mbind outcome_bind]. unfold bool_of at 1. rewrite (proj2 (Z.eqb_neq c 0)) by done. by exists c, m'. }
  cbn [mbind outcome_bind]. change (bool_of 0) with false. cbn match. unfold rounds_left in Hf.
  destruct (bool_of min_addr) eqn:Hm0.
  - destruct (IH 0 flags) as (c & m' & Heq & Hr); [by apply is_u64_dec|done|unfold rounds_left; simpl; lia|].
    exists c, m'. split; [done|]. destruct Hr as [?|(? & s & n & f & (Hs & Hn & Hfl) & ?)]; [by left|].
    right. split; [done|]. exists s, n, f. split; [split_and!; [tauto|done|done]|done].
  - assert (min_addr = 0) as -> by (unfold bool_of in Hm0; zb; done).
    destruct (bool_of (Z.land flags MEMBLOCK_MIRROR)) eqn:Hmir.
    + destruct (IH 0 (no_mirror flags)) as (c & m' & Heq & Hr); [done|done| |].
      { unfold rounds_left. rewrite no_mirror_clear. simpl. lia. }
      exists c, m'. split; [done|].
      unfold virt_result, fallback in *. rewrite (no_mirror_id (no_mirror flags)) in Hr by apply no_mirror_clear.
      destruct Hr as [?|(? & s & n & f & (Hs & Hn & Hfl) & ?)]; [by left|].
      right. split; [done|]. exists s, n, f. split; [split_and!; [done|done|tauto]|done].
    + exists 0, m. split; [done|]. left. rewrite no_mirror_id; [done|]. unfold bool_of in Hmir. by zb.
Qed.

End VirtAlloc.

(** Before the slab is up, and with a free slot in the reserved array, the
    boot-time allocation returns after at most three rounds.  NULL means that the
    request fits nowhere below the limit, on no node and without asking for
    mirrored memory, and nothing changed; otherwise the virtual address is that
    of a block one of the documented fallbacks found free, and the block is
    reserved. *)
Theorem memblock_virt_alloc_internal_spec `{Arch} size align min_addr max_addr nid m
    (nid' := if nid =? MAX_NUMNODES then NUMA_NO_NODE else nid)
    (max' := Z.min max_addr (current_limit m)) :
  slab_is_available = false -> NUMA_NO_NODE <> MAX_NUMNODES -> is_u64 min_addr ->
  (forall start n, is_u64 start -> n <> MAX_NUMNODES ->
     search_pre m size (default_align align) start max' n) ->
  type_wf (reserved m) -> cnt (reserved m) < mt_max (reserved m) ->
  exists c m', virt_result size (default_align align) max' m min_addr nid' (choose_memblock_flags m) c m' /\
    memblock_virt_alloc_internal size align min_addr max_addr nid m
      = Done (if bool_of c then phys_to_virt c else 0, m').
Proof.
  intros Hslab Hnn Hmin Hpre Hwf Hroom. unfold memblock_virt_alloc_internal. rewrite Hslab.
  fold nid' (default_align align).
  replace (if max_addr >? current_limit m then current_limit m else max_addr) with max'
    by (subst max'; zcase; lia).
  destruct (virt_alloc_again_ok size (default_align align) max' m Hpre Hwf Hroom Hnn 3 min_addr nid'
    (choose_memblock_flags m)) as (c & m' & Heq & Hres); [done| | |].
  - subst nid'. by destruct (nid =? MAX_NUMNODES) eqn:Hn; zb.
  - unfold rounds_left. destruct (bool_of min_addr), (bool_of (Z.land _ _)); lia.
  - exists c, m'. split; [done|]. rewrite Heq. done.
Qed.

Lemma memblock_virt_alloc_internal_spec_witness :
  exists c m', virt_result (H := arm64) 0x1000 64 0xc0000000 demo_reserved 0x50000000 0 0 c m' /\
    memblock_virt_alloc_internal (H := arm64) 0x1000 0 0x50000000 0xc0000000 0 demo_reserved
      = Done (if bool_of c then phys_to_virt (Arch := arm64) c else 0, m').
Proof.
  apply (@memblock_virt_alloc_internal_spec arm64 0x1000 0 0x50000000 0xc0000000 0 demo_reserved);
    [done|done|by apply is_u64_dec| |apply demo_reserved_wf|done].
  intros start n Hs Hn. split; [apply demo_memory_wf|apply demo_reserved_wf|done|done|done|
    by apply is_u64_dec|split; [done|by apply is_u64_dec]|done|by exists 6|done].
Defined.

(** ** The memory limit *)

(** The address that [__find_max_addr] returns has [limit] bytes of memory below. *)
Lemma find_max_addr_ok rs lo limit : wf_from lo rs -> 0 <= lo -> 0 < limit < 2 ^ 64 ->
  (sizes rs < limit /\ find_max_addr_loop rs limit = PHYS_ADDR_MAX) \/
  (limit <= sizes rs /\ lo < find_max_addr_loop rs limit <= PHYS_ADDR_MAX /\
   sizes (clips 0 (find_max_addr_loop rs limit) rs) = limit).
Proof.
  revert lo limit. induction rs as [|r rs IH]; intros lo limit Hwf Hlo Hlim; simpl; [left; split; [lia|done]|].
  destruct Hwf as (Hb & Hok & Hwf). pose proof Hok as (H0 & Hs & He). pose proof (sizes_bound _ _ Hwf) as Hpos.
  destruct (limit <=? r_size r) eqn:Hc; zb.
  - right. rewrite u64_small by (unfold is_u64, rend, PHYS_ADDR_MAX in *; lia).
    unfold rend in *. split_and!; [lia|lia|lia|].
    rewrite (clips_above 0 (r_base r + limit) (r_base r + r_size r)) by (done || lia).
    unfold clip, rend. replace (_ <? _) with true by lia. simpl. lia.
  - rewrite u64_small by (unfold is_u64; lia).
    destruct (IH (rend r) (limit - r_size r) Hwf) as [[? ?]|(? & ? & Hsz)]; [unfold rend; lia|lia| |].
    + left. split; [lia|done].
    + right. split_and!; [lia|unfold rend in *; lia|lia|].
      rewrite clip_inside by (done || lia). simpl. lia.
Qed.

(** Enforcing a memory limit leaves min(limit, total) bytes of memory, the
    lowest ones, and drops every reservation above the same address; a limit
    above the memory there is changes nothing. *)
Theorem memblock_enforce_memory_limit_spec `{Arch} limit m :
  memblock_wf m -> 0 < limit < 2 ^ 64 ->
  cnt (memory m) + 2 <= mt_max (memory m) -> cnt (reserved m) + 2 <= mt_max (reserved m) ->
  exists m' x, memblock_enforce_memory_limit limit m = Done m' /\ memblock_wf m' /\
    memblock_phys_mem_size m' = Z.min limit (memblock_phys_mem_size m) /\
    (forall a, tattr (memory m') a = attr_removed x PHYS_ADDR_MAX (tattr (memory m) a) a) /\
    (forall a, tattr (reserved m') a = attr_removed x PHYS_ADDR_MAX (tattr (reserved m) a) a).
Proof.
  intros [Hwm Hwr] Hlim Hrm Hrr. unfold memblock_enforce_memory_limit, __find_max_addr, memblock_phys_mem_size.
  replace (limit =? 0) with false by lia. pose proof Hwm as (Hrs & Htot & _).
  set (x := find_max_addr_loop (regions (memory m)) limit).
  assert (Hx : (x = PHYS_ADDR_MAX /\ total_size (memory m) <= limit) \/
    (0 < x <= PHYS_ADDR_MAX /\ limit <= total_size (memory m) /\ sizes (clips 0 x (regions (memory m))) = limit)).
  { rewrite Htot. destruct Hrs as [[n Hr]|[_ Hwf]].
    - left. subst x. rewrite Hr. simpl. replace (limit <=? 0) with false by lia. split; [done|lia].
    - subst x. destruct (find_max_addr_ok _ 0 limit Hwf ltac:(lia) Hlim) as [[? ->]|(? & ? & ?)]; [left|by right].
      split; [done|lia]. }
  destruct (x =? PHYS_ADDR_MAX) eqn:Hmax; zb.
  { exists m, x. split; [done|]. split; [done|]. split.
    - destruct Hx as [[_ ?]|(_ & ? & Hsz)]; [lia|]. rewrite Htot. rewrite Htot in H0.
      destruct Hrs as [[n Hr]|[_ Hwf]].
      + rewrite Hr in *. simpl in *. lia.
      + rewrite Hmax, (clips_inside 0 0) in Hsz by (done || lia). lia.
    - rewrite Hmax. split; intros a; unfold attr_removed;
        by replace (in_range _ _ a) with false by (symmetry; apply in_range_false; lia). }
  destruct Hx as [[? _]|(Hx & Hle & Hsz)]; [done|].
  assert (Hux : is_u64 x) by (unfold is_u64, PHYS_ADDR_MAX in *; lia).
  assert (Hend : range_end x PHYS_ADDR_MAX = PHYS_ADDR_MAX) by (unfold range_end, PHYS_ADDR_MAX in *; lia).
  destruct (remove_range_room double_array MEMORY x PHYS_ADDR_MAX m) as (t1 & H1 & Hw1 & Ha1 & Hs1);
    [done|done|by apply is_u64_dec|done|]. unfold memblock_remove_range. rewrite H1. cbn [mbind outcome_bind snd].
  destruct (remove_range_room double_array RESERVED x PHYS_ADDR_MAX (set_memory t1 m)) as (t2 & H2 & Hw2 & Ha2 & _);
    [done|done|by apply is_u64_dec|done|]. cbn [set_type]. rewrite H2. cbn [mbind outcome_bind snd].
  exists (set_type RESERVED t2 (set_memory t1 m)), x. rewrite Hend in *. simpl in *.
  split_and!; [done|done| |done|done].
  rewrite Hs1, sizes_app, Hsz by lia. rewrite Z.min_l by done.
  assert (Hnil : forall rs, sizes (clips PHYS_ADDR_MAX PHYS_ADDR_MAX rs) = 0); [|rewrite Hnil; lia].
  induction rs as [|r rs IH]; simpl; [done|]. rewrite sizes_app, IH. unfold clip.
  by replace (_ <? _) with false by lia.
Qed.

Lemma memblock_enforce_memory_limit_spec_witness :
  exists m' x, memblock_enforce_memory_limit (H := arm64) 0x48000000 demo_reserved = Done m' /\
    memblock_phys_mem_size m' = 0x48000000 /\
    (forall a, tattr (memory m') a = attr_removed x PHYS_ADDR_MAX (tattr (memory demo_reserved) a) a).
Proof.
  destruct (@memblock_enforce_memory_limit_spec arm64 0x48000000 demo_reserved)
    as (m' & x & Heq & _ & Hsz & Ha & _); [split; [apply demo_memory_wf|apply demo_reserved_wf]|done|done|done|].
  exists m', x. split; [exact Heq|]. split; [exact Hsz|exact Ha].
Defined.

(** ** Trimming to an alignment *)
Section Trim.
Context `{Arch}.
Variables (align k : Z).
Hypothesis align_pow2 : align = 2 ^ k.
Hypothesis k_range : 0 <= k < 64.

(** Start and end of the aligned part of a region. *)
Definition trim_start (r : memblock_region) : Z := align * ((r_base r + align - 1) / align).
Definition trim_end (r : memblock_region) : Z := rend r - rend r mod align.

Definition trimmed (r : memblock_region) : list memblock_region :=
  if trim_start r <? trim_end r
  then [mk_region (trim_start r) (trim_end r - trim_start r) (r_flags r) (r_nid r)] else [].

Definition trim_all (rs : list memblock_region) : list memblock_region := flat_map trimmed rs.

(** The region does not reach into the last [align] bytes of the address space. *)
Definition trim_ok (r : memblock_region) : Prop := region_ok r /\ rend r + align <= 2 ^ 64.

Lemma trim_bounds r : r_base r <= trim_start r < r_base r + align /\ rend r - align < trim_end r <= rend r.
Proof.
  destruct (ceil_bounds align k align_pow2 k_range (r_base r)) as (? & _).
  destruct (floor_bounds align k align_pow2 k_range (rend r)) as (? & _).
  unfold trim_start, trim_end. lia.
Qed.

Lemma trim_code r : trim_ok r ->
  round_up (r_base r) align = trim_start r /\ round_down (u64 (r_base r + r_size r)) align = trim_end r.
Proof.
  intros [(H0 & Hs & He) Hmax]. pose proof (trim_bounds r) as Hb. unfold rend, PHYS_ADDR_MAX in *.
  rewrite (u64_small (r_base r + r_size r)) by (unfold is_u64; lia).
  rewrite align_pow2, round_up_pow2, round_down_pow2, <- align_pow2 by (unfold is_u64; lia).
  split; [|done]. apply u64_small. unfold is_u64. fold (trim_start r). lia.
Qed.

Lemma trim_dummy_loop fuel t : trim_loop (S (S fuel)) align 0 (set_regions [dummy_region] t) =
  Done (set_regions [dummy_region] t).
Proof.
  simpl. unfold dummy_region. simpl. change (u64 (0 + 0)) with 0.
  rewrite align_pow2, round_up_pow2 by (by apply is_u64_dec || lia).
  rewrite Z.add_0_l, Z.div_small, Z.mul_0_r; [done|].
  pose proof (Z.pow_pos_nonneg 2 k). lia.
Qed.

Lemma set_regions_same t rs : regions t = rs -> set_regions rs t = t.
Proof. intros <-. by destruct t. Qed.

Lemma trim_loop_ok rest pre t fuel :
  regions t = pre ++ rest -> Forall trim_ok rest -> (length rest + 2 <= fuel)%nat -> pre ++ rest <> [] ->
  exists t', trim_loop fuel align (length pre) t = Done t' /\ regions t' = or_dummy (pre ++ trim_all rest).
Proof.
  revert pre t fuel. induction rest as [|r rest IH]; intros pre t fuel Hreg HF Hf Hne.
  { destruct fuel; simpl in *; [lia|]. rewrite app_nil_r in *.
    rewrite (proj2 (lookup_ge_None _ _)) by (rewrite Hreg; lia). exists t. split; [done|].
    rewrite Hreg. by destruct pre. }
  inversion HF as [|? ? Hr HF']; subst. destruct fuel as [|fuel]; simpl in *; [lia|].
  rewrite Hreg, list_lookup_middle by done. destruct (trim_code r Hr) as [-> ->].
  destruct Hr as [(H0 & Hs & He) Hmax].
  pose proof (trim_bounds r) as Hb. unfold trimmed.
  rewrite (u64_small (r_base r + r_size r)) by (unfold is_u64, rend, PHYS_ADDR_MAX in *; lia). fold (rend r).
  assert (Hgo : forall r1 t1, regions t1 = pre ++ r1 :: rest ->
    exists t', trim_loop fuel align (S (length pre)) t1 = Done t' /\
      regions t' = or_dummy (pre ++ [r1] ++ trim_all rest)).
  { intros r1 t1 Hr1. destruct (IH (pre ++ [r1]) t1 fuel) as (t' & Heq & Ht'); [by rewrite <- app_assoc|done|lia|by destruct pre|].
    rewrite length_app, Nat.add_comm in Heq. exists t'. by rewrite <- app_assoc in Ht'. }
  destruct ((trim_start r =? r_base r) && (trim_end r =? rend r)) eqn:Hsame; zb.
  - replace (trim_start r <? trim_end r) with true by (unfold rend in *; lia).
    rewrite (region_eta r) by (unfold rend in *; lia). by apply Hgo.
  - destruct (trim_start r <? trim_end r) eqn:Hlt; zb.
    + apply Hgo. simpl. rewrite insert_split by done.
      by rewrite u64_small by (unfold is_u64, rend, PHYS_ADDR_MAX in *; lia).
    + rewrite (remove_region_ok t pre r rest) by done. simpl.
      destruct (decide (pre ++ rest = [])) as [Hnil|Hnn].
      * apply app_nil in Hnil as [-> ->]. simpl in *.
        destruct fuel as [|[|fuel]]; [lia|lia|].
        change (set_total ?z (set_regions ?l t)) with (set_regions l (set_total z t)).
        rewrite trim_dummy_loop. by eexists.
      * apply IH; [|done|lia|done]. simpl. by destruct (pre ++ rest).
Qed.

Lemma trim_all_wf lo rs : wf_from lo rs -> Forall trim_ok rs -> wf_from lo (trim_all rs).
Proof.
  revert lo. induction rs as [|r rs IH]; intros lo; simpl; [done|].
  intros (Hlo & (H0 & Hs & He) & Hwf) HF. inversion HF as [|? ? Hr HF']; subst.
  specialize (IH _ Hwf HF'). pose proof (trim_bounds r).
  unfold trimmed. destruct (_ <? _) eqn:Hc; zb; simpl.
  - split_and!; [lia| |].
    + unfold region_ok, rend in *. simpl. lia.
    + eapply wf_from_weaken; [|done]. unfold rend at 1. simpl. lia.
  - eapply wf_from_weaken; [|done]. unfold rend in *. lia.
Qed.

(** The aligned block of address [a] lies in the region. *)
Definition block_in (r : memblock_region) (a : Z) : Prop :=
  r_base r <= a - a mod align /\ a - a mod align + align <= rend r.

Lemma trimmed_contains r a : (exists r', r' ∈ trimmed r /\ contains r' a = true) <-> block_in r a.
Proof.
  pose proof (align_pos align k align_pow2 k_range) as Hal.
  destruct (ceil_bounds align k align_pow2 k_range (r_base r)) as (Hc & Hcd & Hleast).
  destruct (floor_bounds align k align_pow2 k_range (rend r)) as (Hf & Hfd & Hgreat).
  destruct (floor_bounds align k align_pow2 k_range a) as (Ha & Had & Hag).
  fold (trim_start r) in *. fold (trim_end r) in *. unfold trimmed, block_in. split.
  - intros (r' & Hin & Hca). destruct (_ <? _) eqn:Hlt; [|by apply elem_of_nil in Hin]. zb.
    apply list_elem_of_singleton in Hin as ->. apply contains_iff in Hca. unfold rend in Hca. simpl in Hca.
    pose proof (Hag (trim_start r) ltac:(lia) Hcd).
    destruct Hfd as [q Hq], Had as [p Hp]. assert (p * align + align <= q * align); [|unfold rend in *; lia].
    assert (p < q) by (apply (Z.mul_lt_mono_pos_r align); lia).
    replace (p * align + align) with ((p + 1) * align) by lia. apply Z.mul_le_mono_nonneg_r; lia.
  - intros [H1 H2]. pose proof (Hleast _ H1 Had) as H3.
    pose proof (Hgreat (a - a mod align + align) ltac:(lia) ltac:(apply Z.divide_add_r; [done|apply Z.divide_refl])).
    replace (_ <? _) with true by lia. eexists. split; [by apply list_elem_of_singleton|].
    apply contains_iff. unfold rend. simpl. lia.
Qed.

Lemma trim_all_attr rs a x : wf_from 0 rs -> Forall trim_ok rs ->
  attr (trim_all rs) a = Some x <->
  exists r, r ∈ rs /\ x = (r_flags r, r_nid r) /\ block_in r a.
Proof.
  intros Hwf HF. pose proof (trim_all_wf _ _ Hwf HF) as Hwf'.
  assert (Hattr : forall r r', r' ∈ trimmed r -> (r_flags r', r_nid r') = (r_flags r, r_nid r)).
  { intros r r'. unfold trimmed. destruct (_ <? _); [by intros ->%list_elem_of_singleton|by intros ?%elem_of_nil]. }
  split.
  - intros (r' & Hin & Hc & ->)%attr_Some_in. apply list_elem_of_In, in_flat_map in Hin as (r & Hr & Hr').
    apply list_elem_of_In in Hr, Hr'. exists r. split; [done|]. split; [by apply Hattr|].
    apply trimmed_contains. by exists r'.
  - intros (r & Hr & -> & (r' & Hr' & Hc)%trimmed_contains). rewrite <- (Hattr r r' Hr').
    eapply attr_in; [done| |done]. apply list_elem_of_In, in_flat_map. exists r. by rewrite <- !list_elem_of_In.
Qed.

End Trim.

(** Trimming the memory map to a power of two always returns, whatever
    regions have to go, and leaves a well-formed array: an address is memory
    afterwards exactly when its whole aligned block lay in one region, with the
    attributes of that region.  (Regions in the last aligned block of the address
    space are excluded: [round_up] wraps around there.) *)
Theorem memblock_trim_memory_spec `{Arch} align k m :
  align = 2 ^ k -> 0 <= k < 64 -> regions (memory m) <> [] -> wf_from 0 (regions (memory m)) ->
  Forall (trim_ok align) (regions (memory m)) ->
  exists m', memblock_trim_memory align m = Done m' /\ reserved m' = reserved m /\
    regions_wf (regions (memory m')) /\
    forall a x, tattr (memory m') a = Some x <->
      exists r, r ∈ regions (memory m) /\ x = (r_flags r, r_nid r) /\ block_in align r a.
Proof.
  intros Ha Hk Hne Hwf HF. unfold memblock_trim_memory.
  destruct (trim_loop_ok align k Ha Hk (regions (memory m)) [] (memory m) _ eq_refl HF (Nat.le_refl _) Hne)
    as (t' & Heq & Ht'). simpl in Heq. rewrite Heq. simpl in *.
  exists (set_memory t' m). split_and!; [done|done| |].
  - simpl. rewrite Ht'. apply or_dummy_wf. by eapply trim_all_wf.
  - intros a x. unfold tattr. simpl. rewrite Ht', or_dummy_attr. by apply (trim_all_attr align k).
Qed.

(** Memory [0x40000800, 0x40003000) and a piece of 0x400 bytes. *)
Definition ragged : memblock :=
  set_memory (mk_type 128 0x2c00 [mk_region 0x40000800 0x2800 0 0; mk_region 0x50000100 0x400 0 0] InitRegions)
    memblock_init.

Lemma memblock_trim_memory_spec_witness :
  exists m', memblock_trim_memory (H := arm64) 0x1000 ragged = Done m' /\
    regions (memory m') = [mk_region 0x40001000 0x2000 0 0] /\ regions_wf (regions (memory m')).
Proof.
  destruct (@memblock_trim_memory_spec arm64 0x1000 12 ragged) as (m' & Heq & _ & Hwf & _); [done|done|done| | |].
  - simpl. unfold region_ok, rend. simpl. repeat split; vm_compute; done.
  - repeat constructor; vm_compute; done.
  - exists m'. split; [exact Heq|]. split; [|exact Hwf].
    vm_compute in Heq. by injection Heq as <-.
Defined.

(** Trimming does not keep the total: a region that shrinks is not taken
    off [total_size] (only a region that goes is), so [memblock_phys_mem_size]
    reports more memory than there is. *)
Theorem memblock_trim_memory_total_stale :
  exists m', memblock_trim_memory (H := arm64) 0x1000 ragged = Done m' /\
    type_wf (memory ragged) /\ sizes (regions (memory m')) = 0x2000 /\ memblock_phys_mem_size m' = 0x2800.
Proof.
  eexists. split; [vm_compute; reflexivity|]. split; [|done].
  split; [right; split; [done|]|by split; vm_compute].
  simpl. unfold region_ok, rend. simpl. repeat split; vm_compute; done.
Qed.
