(* ===== verification/Resource.v ===== *)
(** * The resource tree: data model and operations

    [src/new/kernel/resource.c] and the inline helpers of
    [src/new/include/linux/ioport.h].  A [struct resource *] is an address in a
    heap of [struct resource]; the operations chase and write the [parent],
    [sibling] and [child] pointers the way the code does.  Following a pointer
    that is NULL or was freed is an oops: the result is [Panic].  The names, which
    are only printed, and the locks are left out: every operation holds
    [resource_lock] from its first access to its last. *)

From S2P Require Import Prelude.
From stdpp Require Export gmap.
#[global] Open Scope Z_scope.

(** ** [struct resource] *)
Record resource := mk_resource {
  rs_start : Z;
  rs_end : Z;
  rs_flags : Z;
  rs_desc : Z;
  rs_parent : option Z;
  rs_sibling : option Z;
  rs_child : option Z;
}.

Abbreviation heap := (gmap Z resource).

Definition set_start (v : Z) (r : resource) : resource :=
  mk_resource v (rs_end r) (rs_flags r) (rs_desc r) (rs_parent r) (rs_sibling r) (rs_child r).
Definition set_end (v : Z) (r : resource) : resource :=
  mk_resource (rs_start r) v (rs_flags r) (rs_desc r) (rs_parent r) (rs_sibling r) (rs_child r).
Definition set_parent (v : option Z) (r : resource) : resource :=
  mk_resource (rs_start r) (rs_end r) (rs_flags r) (rs_desc r) v (rs_sibling r) (rs_child r).
Definition set_sibling (v : option Z) (r : resource) : resource :=
  mk_resource (rs_start r) (rs_end r) (rs_flags r) (rs_desc r) (rs_parent r) v (rs_child r).
Definition set_child (v : option Z) (r : resource) : resource :=
  mk_resource (rs_start r) (rs_end r) (rs_flags r) (rs_desc r) (rs_parent r) (rs_sibling r) v.

(** [*l], and a write through [l]. *)
Definition get (h : heap) (l : Z) : outcome resource :=
  match h !! l with Some r => Done r | None => Panic end.
Definition update (h : heap) (l : Z) (f : resource -> resource) : outcome heap :=
  r ← get h l; Done (<[l := f r]> h).

(** A [struct resource **]: the address of a [child] or of a [sibling] field. *)
Inductive slot := ChildOf (l : Z) | SiblingOf (l : Z).

Definition read_slot (h : heap) (p : slot) : outcome (option Z) :=
  match p with
  | ChildOf l => r ← get h l; Done (rs_child r)
  | SiblingOf l => r ← get h l; Done (rs_sibling r)
  end.
Definition write_slot (h : heap) (p : slot) (v : option Z) : outcome heap :=
  match p with
  | ChildOf l => update h l (set_child v)
  | SiblingOf l => update h l (set_sibling v)
  end.

(** Rounds of a loop along a list of siblings, or up the tree. *)
Definition walk_fuel (h : heap) : nat := S (size h).

Definition EINVAL : Z := 22.
Definition EBUSY : Z := 16.
Definition ENOMEM : Z := 12.
Definition IORES_DESC_NONE : Z := 0.
Definition IORESOURCE_TYPE_BITS : Z := 0x1f00.
Definition IORESOURCE_IO : Z := 0x100.
Definition IORESOURCE_MEM : Z := 0x200.
Definition IORESOURCE_SIZEALIGN : Z := 0x40000.
Definition IORESOURCE_STARTALIGN : Z := 0x80000.
Definition IORESOURCE_MUXED : Z := 0x400000.
Definition IORESOURCE_EXT_TYPE_BITS : Z := 0x1000000.
Definition IORESOURCE_SYSRAM : Z := 0x1000000.
Definition IORESOURCE_EXCLUSIVE : Z := 0x8000000.
Definition IORESOURCE_UNSET : Z := 0x20000000.
Definition IORESOURCE_BUSY : Z := 0x80000000.
Definition IORESOURCE_SYSTEM_RAM : Z := Z.lor IORESOURCE_MEM IORESOURCE_SYSRAM.

Definition resource_size (r : resource) : Z := u64 (rs_end r - rs_start r + 1).
Definition resource_type (r : resource) : Z := Z.land (rs_flags r) IORESOURCE_TYPE_BITS.
Definition resource_ext_type (r : resource) : Z := Z.land (rs_flags r) IORESOURCE_EXT_TYPE_BITS.
Definition has_flag (r : resource) (flag : Z) : bool := bool_of (Z.land (rs_flags r) flag).

Definition resource_contains (r1 r2 : resource) : bool :=
  if negb (resource_type r1 =? resource_type r2) then false
  else if has_flag r1 IORESOURCE_UNSET || has_flag r2 IORESOURCE_UNSET then false
  else (rs_start r1 <=? rs_start r2) && (rs_end r1 >=? rs_end r2).

(** ** Traversal *)

(** [while (!p->sibling && p->parent) p = p->parent; return p->sibling;] *)
Fixpoint climb (fuel : nat) (h : heap) (p : Z) : outcome (option Z) :=
  match fuel with
  | O => NoFuel
  | S fuel' =>
      r ← get h p;
      match rs_sibling r, rs_parent r with
      | None, Some q => climb fuel' h q
      | s, _ => Done s
      end
  end.

Definition next_resource (h : heap) (p : Z) (sibling_only : bool) : outcome (option Z) :=
  r ← get h p;
  if sibling_only then Done (rs_sibling r) else
  match rs_child r with
  | Some c => Done (Some c)
  | None => climb (walk_fuel h) h p
  end.

(** ** Requesting *)

(** The loop of [__request_resource].  The result is the conflicting resource,
    [None] for NULL. *)
Fixpoint request_loop (fuel : nat) (h : heap) (root new start end_ : Z) (p : slot)
    : outcome (option Z * heap) :=
  match fuel with
  | O => NoFuel
  | S fuel' =>
      tmp ← read_slot h p;
      let insert :=
        h1 ← update h new (set_sibling tmp);
        h2 ← write_slot h1 p (Some new);
        h3 ← update h2 new (set_parent (Some root));
        Done (None, h3) in
      match tmp with
      | None => insert
      | Some t =>
          rt ← get h t;
          if rs_start rt >? end_ then insert
          else if rs_end rt <? start then request_loop fuel' h root new start end_ (SiblingOf t)
          else Done (Some t, h)
      end
  end.

Definition __request_resource (h : heap) (root new : Z) : outcome (option Z * heap) :=
  rn ← get h new;
  let start := rs_start rn in
  let end_ := rs_end rn in
  if end_ <? start then Done (Some root, h) else
  rr ← get h root;
  if start <? rs_start rr then Done (Some root, h)
  else if end_ >? rs_end rr then Done (Some root, h)
  else request_loop (walk_fuel h) h root new start end_ (ChildOf root).

Definition request_resource_conflict := __request_resource.

Definition request_resource (h : heap) (root new : Z) : outcome (Z * heap) :=
  r ← request_resource_conflict h root new;
  let '(conflict, h') := r in
  Done (match conflict with Some _ => - EBUSY | None => 0 end, h').

(** ** Releasing *)

(** [for (chd = tmp->child;; chd = chd->sibling) { chd->parent = ...; if
    (!chd->sibling) break; }]: returns the last child. *)
Fixpoint reparent_loop (fuel : nat) (h : heap) (chd : Z) (parent : option Z) : outcome (Z * heap) :=
  match fuel with
  | O => NoFuel
  | S fuel' =>
      h1 ← update h chd (set_parent parent);
      r ← get h1 chd;
      match rs_sibling r with
      | None => Done (chd, h1)
      | Some next => reparent_loop fuel' h1 next parent
      end
  end.

Fixpoint release_loop (fuel : nat) (h : heap) (old : Z) (release_child : bool) (p : slot)
    : outcome (Z * heap) :=
  match fuel with
  | O => NoFuel
  | S fuel' =>
      tmp ← read_slot h p;
      match tmp with
      | None => Done (- EINVAL, h)
      | Some t =>
          if t =? old then
            rt ← get h t;
            h1 ← match release_child, rs_child rt with
                 | false, Some c =>
                     r ← reparent_loop (walk_fuel h) h c (rs_parent rt);
                     let '(chd, h1) := r in
                     h2 ← write_slot h1 p (Some c);
                     update h2 chd (set_sibling (rs_sibling rt))
                 | _, _ => write_slot h p (rs_sibling rt)
                 end;
            h2 ← update h1 old (set_parent None);
            Done (0, h2)
          else release_loop fuel' h old release_child (SiblingOf t)
      end
  end.

Definition __release_resource (h : heap) (old : Z) (release_child : bool) : outcome (Z * heap) :=
  ro ← get h old;
  match rs_parent ro with
  | None => Panic
  | Some parent => release_loop (walk_fuel h) h old release_child (ChildOf parent)
  end.

Definition release_resource (h : heap) (old : Z) := __release_resource h old true.
Definition remove_resource (h : heap) (old : Z) := __release_resource h old false.

(** [__release_child_resources]: the recursion goes down the tree, the loop along
    the siblings; [fuel] bounds both. *)
Fixpoint release_children (fuel : nat) (h : heap) (p : option Z) : outcome heap :=
  match fuel with
  | O => NoFuel
  | S fuel' =>
      match p with
      | None => Done h
      | Some tmp =>
          rt ← get h tmp;
          h1 ← update h tmp (fun r => set_sibling None (set_parent None r));
          h2 ← update h1 tmp (set_child None);
          h3 ← release_children fuel' h2 (rs_child rt);
          h4 ← update h3 tmp (fun r => set_end (u64 (resource_size r - 1)) (set_start 0 r));
          release_children fuel' h4 (rs_sibling rt)
      end
  end.

Definition __release_child_resources (h : heap) (r : Z) : outcome heap :=
  rr ← get h r;
  h1 ← update h r (set_child None);
  release_children (walk_fuel h) h1 (rs_child rr).

Definition release_child_resources := __release_child_resources.

(** ** Searching the tree *)

(** [ioport_resource] and [iomem_resource], the two static roots. *)
Definition ioport_resource : Z := 1.
Definition iomem_resource : Z := 2.

(** The part of a resource that [find_next_iomem_res] copies out. *)
Record found := mk_found { f_start : Z; f_end : Z; f_flags : Z; f_desc : Z }.

Definition matches (flags desc : Z) (r : resource) : bool :=
  (Z.land (rs_flags r) flags =? flags) && ((desc =? IORES_DESC_NONE) || (desc =? rs_desc r)).

Fixpoint find_next_loop (fuel : nat) (h : heap) (start end_ flags desc : Z) (first_lvl : bool)
    (p : option Z) : outcome (option resource) :=
  match fuel with
  | O => NoFuel
  | S fuel' =>
      match p with
      | None => Done None
      | Some l =>
          r ← get h l;
          let continue := p' ← next_resource h l first_lvl;
                          find_next_loop fuel' h start end_ flags desc first_lvl p' in
          if negb (matches flags desc r) then continue
          else if rs_start r >? end_ then Done None
          else if (rs_end r >=? start) && (rs_start r <=? end_) then Done (Some r)
          else continue
      end
  end.

(** The return code, and the copy when it is 0. *)
Definition find_next_iomem_res (h : heap) (start end_ flags desc : Z) (first_lvl : bool)
    : outcome (Z * option found) :=
  if start >=? end_ then Done (- EINVAL, None) else
  root ← get h iomem_resource;
  p ← find_next_loop (walk_fuel h) h start end_ flags desc first_lvl (rs_child root);
  match p with
  | None => Done (-1, None)
  | Some r => Done (0, Some (mk_found (Z.max start (rs_start r)) (Z.min end_ (rs_end r))
                               (rs_flags r) (rs_desc r)))
  end.

Section Walk.
Context {A : Type}.

(** The callback returns a code and threads the caller's argument. *)
Fixpoint walk_loop (fuel : nat) (h : heap) (start end_ flags desc : Z) (first_lvl : bool)
    (func : found -> A -> Z * A) (arg : A) (ret : Z) : outcome (Z * A) :=
  match fuel with
  | O => NoFuel
  | S fuel' =>
      if start <? end_ then
        res ← find_next_iomem_res h start end_ flags desc first_lvl;
        match res with
        | (0, Some f) =>
            let '(ret', arg') := func f arg in
            if bool_of ret' then Done (ret', arg')
            else walk_loop fuel' h (u64 (f_end f + 1)) end_ flags desc first_lvl func arg' ret'
        | _ => Done (ret, arg)
        end
      else Done (ret, arg)
  end.

Definition __walk_iomem_res_desc (h : heap) (start end_ flags desc : Z) (first_lvl : bool)
    (func : found -> A -> Z * A) (arg : A) : outcome (Z * A) :=
  walk_loop (walk_fuel h) h start end_ flags desc first_lvl func arg (-1).

Definition walk_iomem_res_desc (h : heap) (desc flags start end_ : Z) (func : found -> A -> Z * A) (arg : A) :=
  __walk_iomem_res_desc h start end_ flags desc false func arg.

Definition walk_system_ram_res (h : heap) (start end_ : Z) (func : found -> A -> Z * A) (arg : A) :=
  __walk_iomem_res_desc h start end_ (Z.lor IORESOURCE_SYSTEM_RAM IORESOURCE_BUSY) IORES_DESC_NONE true func arg.

Definition walk_mem_res (h : heap) (start end_ : Z) (func : found -> A -> Z * A) (arg : A) :=
  __walk_iomem_res_desc h start end_ (Z.lor IORESOURCE_MEM IORESOURCE_BUSY) IORES_DESC_NONE true func arg.

(** [walk_system_ram_range], with [PAGE_SHIFT]: the callback gets a page frame
    and a number of pages.  [ret] keeps its value over a resource that holds no
    whole page. *)
Fixpoint walk_ram_loop (fuel : nat) (PAGE_SHIFT : Z) (h : heap) (start end_ : Z)
    (func : Z -> Z -> A -> Z * A) (arg : A) (ret : Z) : outcome (Z * A) :=
  match fuel with
  | O => NoFuel
  | S fuel' =>
      if start <? end_ then
        res ← find_next_iomem_res h start end_ (Z.lor IORESOURCE_SYSTEM_RAM IORESOURCE_BUSY)
                IORES_DESC_NONE true;
        match res with
        | (0, Some f) =>
            let pfn := Z.shiftr (u64 (f_start f + 2 ^ PAGE_SHIFT - 1)) PAGE_SHIFT in
            let end_pfn := Z.shiftr (u64 (f_end f + 1)) PAGE_SHIFT in
            let '(ret', arg') := if end_pfn >? pfn then func pfn (u64 (end_pfn - pfn)) arg else (ret, arg) in
            if bool_of ret' then Done (ret', arg')
            else walk_ram_loop fuel' PAGE_SHIFT h (u64 (f_end f + 1)) end_ func arg' ret'
        | _ => Done (ret, arg)
        end
      else Done (ret, arg)
  end.

Definition walk_system_ram_range (PAGE_SHIFT : Z) (h : heap) (start_pfn nr_pages : Z)
    (func : Z -> Z -> A -> Z * A) (arg : A) : outcome (Z * A) :=
  let start := u64 (Z.shiftl start_pfn PAGE_SHIFT) in
  let end_ := u64 (u64 (Z.shiftl (u64 (start_pfn + nr_pages)) PAGE_SHIFT) - 1) in
  walk_ram_loop (walk_fuel h) PAGE_SHIFT h start end_ func arg (-1).
End Walk.

Definition __is_ram (pfn nr_pages : Z) (arg : unit) : Z * unit := (1, arg).

Definition page_is_ram (PAGE_SHIFT : Z) (h : heap) (pfn : Z) : outcome bool :=
  r ← walk_system_ram_range PAGE_SHIFT h pfn 1 __is_ram tt;
  Done (fst r =? 1).

(** The results of [region_intersects]. *)
Inductive intersection := REGION_INTERSECTS | REGION_DISJOINT | REGION_MIXED.

(** The loop of [region_intersects]: the counters [type] and [other]. *)
Fixpoint intersects_loop (fuel : nat) (h : heap) (start end_ flags desc : Z) (p : option Z)
    (type other : Z) : outcome (Z * Z) :=
  match fuel with
  | O => NoFuel
  | S fuel' =>
      match p with
      | None => Done (type, other)
      | Some l =>
          r ← get h l;
          let hits := (if (start >=? rs_start r) && (start <=? rs_end r) then 1 else 0)
                    + (if (end_ >=? rs_start r) && (end_ <=? rs_end r) then 1 else 0)
                    + (if (rs_start r >=? start) && (rs_end r <=? end_) then 1 else 0) in
          if matches flags desc r
          then intersects_loop fuel' h start end_ flags desc (rs_sibling r) (type + hits) other
          else intersects_loop fuel' h start end_ flags desc (rs_sibling r) type (other + hits)
      end
  end.

Definition region_intersects (h : heap) (start size flags desc : Z) : outcome intersection :=
  let end_ := u64 (start + size - 1) in
  root ← get h iomem_resource;
  r ← intersects_loop (walk_fuel h) h start end_ flags desc (rs_child root) 0 0;
  let '(type, other) := r in
  Done (if other =? 0 then (if bool_of type then REGION_INTERSECTS else REGION_DISJOINT)
        else if bool_of type then REGION_MIXED else REGION_DISJOINT).

(** ** Allocating a range *)

(** [struct resource_constraint].  A NULL [alignf] is [simple_align_resource];
    a callback gets the free range, the size and the alignment and returns the
    start of the block. *)
Record resource_constraint := mk_constraint {
  rc_min : Z;
  rc_max : Z;
  rc_align : Z;
  rc_alignf : resource -> Z -> Z -> Z;
}.

Definition simple_align_resource (avail : resource) (size align : Z) : Z := rs_start avail.

Definition resource_clip (min max : Z) (r : resource) : resource :=
  let r1 := if rs_start r <? min then set_start min r else r in
  if rs_end r1 >? max then set_end max r1 else r1.

Section Find.
(** [ALIGN(x, a)] of the uapi headers. *)
Variable ALIGN : Z -> Z -> Z.

(** The free range [tmp] as a place for [size] bytes: the code from
    [resource_clip] to the second [if]; [arch_remove_reservations] is the empty
    default.  The clipped [tmp] stays in place for the following round. *)
Definition try_slot (new : resource) (size : Z) (c : resource_constraint) (tmp : resource)
    : option (Z * Z) :=
  let tmp := resource_clip (rc_min c) (rc_max c) tmp in
  let avail := mk_resource (ALIGN (rs_start tmp) (rc_align c)) (rs_end tmp)
                 (Z.land (rs_flags new) (Z.lnot IORESOURCE_UNSET)) 0 None None None in
  if rs_start avail >=? rs_start tmp then
    let start := rc_alignf c avail size (rc_align c) in
    let alloc := mk_resource start (u64 (start + size - 1)) (rs_flags avail) 0 None None None in
    if (rs_start alloc <=? rs_end alloc) && resource_contains avail alloc
    then Some (rs_start alloc, rs_end alloc) else None
  else None.

(** The loop of [__find_resource] from [for(;;)]: [this] and [tmp] are the
    variables of the code; the result is the new range of [new], [None] is
    -EBUSY.  [this == old] never holds for a NULL [old]. *)
Fixpoint find_loop (fuel : nat) (h : heap) (root : resource) (old : option Z) (new : resource)
    (size : Z) (c : resource_constraint) (this : option Z) (tmp : resource)
    : outcome (option (Z * Z)) :=
  match fuel with
  | O => NoFuel
  | S fuel' =>
      tmp ← match this with
            | Some l => r ← get h l;
                        Done (set_end (if bool_decide (Some l = old) then rs_end r
                                       else u64 (rs_start r - 1)) tmp)
            | None => Done (set_end (rs_end root) tmp)
            end;
      let next (tmp : resource) :=
        match this with
        | None => Done None
        | Some l =>
            r ← get h l;
            if rs_end r =? rs_end root then Done None else
            find_loop fuel' h root old new size c (rs_sibling r)
              (if bool_decide (Some l = old) then tmp else set_start (u64 (rs_end r + 1)) tmp)
        end in
      if rs_end tmp <? rs_start tmp then next tmp else
      match try_slot new size c tmp with
      | Some range => Done (Some range)
      | None => next (resource_clip (rc_min c) (rc_max c) tmp)
      end
  end.

Definition __find_resource (h : heap) (root : Z) (old : option Z) (new : resource) (size : Z)
    (c : resource_constraint) : outcome (option (Z * Z)) :=
  rr ← get h root;
  let tmp := set_start (rs_start rr) new in
  match rs_child rr with
  | None => find_loop (walk_fuel h) h rr old new size c None tmp
  | Some l =>
      r ← get h l;
      if rs_start r =? rs_start rr then
        find_loop (walk_fuel h) h rr old new size c (rs_sibling r)
          (set_start (if bool_decide (Some l = old) then rs_start r else u64 (rs_end r + 1)) tmp)
      else find_loop (walk_fuel h) h rr old new size c (Some l) tmp
  end.

Definition find_resource (h : heap) (root : Z) (new : resource) (size : Z) (c : resource_constraint) :=
  __find_resource h root None new size c.

Definition set_range (range : Z * Z) (r : resource) : resource := set_end (snd range) (set_start (fst range) r).

(** [new = *old] and, on success, the range that was found. *)
Definition reallocate_resource (h : heap) (root old newsize : Z) (c : resource_constraint)
    : outcome (Z * heap) :=
  ro ← get h old;
  found ← __find_resource h root (Some old) ro newsize c;
  match found with
  | None => Done (- EBUSY, h)
  | Some range =>
      let new := set_range range ro in
      if resource_contains new ro then h1 ← update h old (set_range range); Done (0, h1)
      else match rs_child ro with
      | Some _ => Done (- EBUSY, h)
      | None =>
          if resource_contains ro new then h1 ← update h old (set_range range); Done (0, h1)
          else
            r ← __release_resource h old true;
            let h1 := <[old := new]> (snd r) in
            r ← __request_resource h1 root old;
            let '(conflict, h2) := r in
            _ ← BUG_ON (match conflict with Some _ => true | None => false end);
            Done (0, h2)
      end
  end.

Definition allocate_resource (h : heap) (root new size min max align : Z)
    (alignf : option (resource -> Z -> Z -> Z)) : outcome (Z * heap) :=
  let c := mk_constraint min max align (default simple_align_resource alignf) in
  rn ← get h new;
  match rs_parent rn with
  | Some _ => reallocate_resource h root new size c
  | None =>
      found ← find_resource h root rn size c;
      match found with
      | None => Done (- EBUSY, h)
      | Some range =>
          h1 ← update h new (set_range range);
          r ← __request_resource h1 root new;
          let '(conflict, h2) := r in
          Done (match conflict with Some _ => - EBUSY | None => 0 end, h2)
      end
  end.
End Find.

Fixpoint lookup_loop (fuel : nat) (h : heap) (res : option Z) (start : Z) : outcome (option Z) :=
  match fuel with
  | O => NoFuel
  | S fuel' =>
      match res with
      | None => Done None
      | Some l => r ← get h l;
                  if rs_start r =? start then Done (Some l) else lookup_loop fuel' h (rs_sibling r) start
      end
  end.

Definition lookup_resource (h : heap) (root start : Z) : outcome (option Z) :=
  rr ← get h root; lookup_loop (walk_fuel h) h (rs_child rr) start.

(** ** Inserting above existing resources *)

(** [for (;; parent = first)]: ends with the result of the function, or with the
    parent and the first conflicting child. *)
Inductive descend_res := Returned (conflict : option Z) (h : heap) | Below (parent first : Z) (h : heap).

Fixpoint insert_descend (fuel : nat) (h : heap) (parent new : Z) : outcome descend_res :=
  match fuel with
  | O => NoFuel
  | S fuel' =>
      r ← __request_resource h parent new;
      let '(conflict, h1) := r in
      match conflict with
      | None => Done (Returned None h1)
      | Some first =>
          if first =? parent then Done (Returned (Some first) h1)
          else if first =? new then Done (Returned (Some first) h1)
          else
            rf ← get h1 first;
            rn ← get h1 new;
            if (rs_start rf >? rs_start rn) || (rs_end rf <? rs_end rn) then Done (Below parent first h1)
            else if (rs_start rf =? rs_start rn) && (rs_end rf =? rs_end rn) then Done (Below parent first h1)
            else insert_descend fuel' h1 first new
      end
  end.

(** [for (next = first; ; next = next->sibling)]: the last conflicting child, or
    a partial overlap. *)
Inductive last_res := Partial (next : Z) | LastConflict (next : Z).

Fixpoint last_conflict (fuel : nat) (h : heap) (next start end_ : Z) : outcome last_res :=
  match fuel with
  | O => NoFuel
  | S fuel' =>
      r ← get h next;
      if (rs_start r <? start) || (rs_end r >? end_) then Done (Partial next)
      else match rs_sibling r with
           | None => Done (LastConflict next)
           | Some s =>
               rs ← get h s;
               if rs_start rs >? end_ then Done (LastConflict next)
               else last_conflict fuel' h s start end_
           end
  end.

(** [for (next = first; next; next = next->sibling) next->parent = new;] *)
Fixpoint adopt_loop (fuel : nat) (h : heap) (next : option Z) (new : Z) : outcome heap :=
  match fuel with
  | O => NoFuel
  | S fuel' =>
      match next with
      | None => Done h
      | Some l => h1 ← update h l (set_parent (Some new));
                  r ← get h1 l; adopt_loop fuel' h1 (rs_sibling r) new
      end
  end.

(** [while (next->sibling != first) next = next->sibling;] *)
Fixpoint before_loop (fuel : nat) (h : heap) (next first : Z) : outcome Z :=
  match fuel with
  | O => NoFuel
  | S fuel' =>
      r ← get h next;
      match rs_sibling r with
      | None => Panic
      | Some s => if s =? first then Done next else before_loop fuel' h s first
      end
  end.

Definition __insert_resource (h : heap) (parent new : Z) : outcome (option Z * heap) :=
  d ← insert_descend (walk_fuel h) h parent new;
  match d with
  | Returned conflict h1 => Done (conflict, h1)
  | Below parent first h =>
      rn ← get h new;
      l ← last_conflict (walk_fuel h) h first (rs_start rn) (rs_end rn);
      match l with
      | Partial next => Done (Some next, h)
      | LastConflict next =>
          rl ← get h next;
          h1 ← update h new (fun r => set_child (Some first) (set_sibling (rs_sibling rl) (set_parent (Some parent) r)));
          h2 ← update h1 next (set_sibling None);
          h3 ← adopt_loop (walk_fuel h) h2 (Some first) new;
          rp ← get h3 parent;
          if bool_decide (rs_child rp = Some first) then
            h4 ← update h3 parent (set_child (Some new)); Done (None, h4)
          else match rs_child rp with
          | None => Panic
          | Some c =>
              prev ← before_loop (walk_fuel h) h3 c first;
              h4 ← update h3 prev (set_sibling (Some new)); Done (None, h4)
          end
      end
  end.

Definition insert_resource_conflict := __insert_resource.

Definition insert_resource (h : heap) (parent new : Z) : outcome (Z * heap) :=
  r ← insert_resource_conflict h parent new;
  let '(conflict, h') := r in
  Done (match conflict with Some _ => - EBUSY | None => 0 end, h').

(** A round grows [new] to cover one more resource that overlaps it partly. *)
Fixpoint expand_loop (fuel : nat) (h : heap) (root new : Z) : outcome heap :=
  match fuel with
  | O => NoFuel
  | S fuel' =>
      r ← __insert_resource h root new;
      let '(conflict, h1) := r in
      match conflict with
      | None => Done h1
      | Some c =>
          if c =? root then Done h1 else
          rc ← get h1 c;
          h2 ← update h1 new (fun rn => if rs_start rc <? rs_start rn then set_start (rs_start rc) rn else rn);
          h3 ← update h2 new (fun rn => if rs_end rc >? rs_end rn then set_end (rs_end rc) rn else rn);
          expand_loop fuel' h3 root new
      end
  end.

Definition insert_resource_expand_to_fit (h : heap) (root new : Z) : outcome heap :=
  rn ← get h new;
  match rs_parent rn with
  | Some _ => Done h
  | None => expand_loop (S (2 * walk_fuel h)) h root new
  end.

(** ** Adjusting *)

(** [for (tmp = res->child; tmp; tmp = tmp->sibling)]: do all children fit? *)
Fixpoint children_fit (fuel : nat) (h : heap) (tmp : option Z) (start end_ : Z) : outcome bool :=
  match fuel with
  | O => NoFuel
  | S fuel' =>
      match tmp with
      | None => Done true
      | Some l => r ← get h l;
                  if (rs_start r <? start) || (rs_end r >? end_) then Done false
                  else children_fit fuel' h (rs_sibling r) start end_
      end
  end.

(** The tests before [skip:]. *)
Definition siblings_allow (h : heap) (res parent start end_ : Z) : outcome bool :=
  rr ← get h res;
  rp ← get h parent;
  if (start <? rs_start rp) || (end_ >? rs_end rp) then Done false else
  right_ok ← match rs_sibling rr with
             | None => Done true
             | Some s => rs ← get h s; Done (negb (rs_start rs <=? end_))
             end;
  if negb right_ok then Done false else
  if bool_decide (rs_child rp = Some res) then Done true else
  match rs_child rp with
  | None => Panic
  | Some c => prev ← before_loop (walk_fuel h) h c res;
              rt ← get h prev; Done (negb (start <=? rs_end rt))
  end.

Definition __adjust_resource (h : heap) (res start size : Z) : outcome (Z * heap) :=
  rr ← get h res;
  let end_ := u64 (start + size - 1) in
  ok ← match rs_parent rr with
       | None => Done true
       | Some parent => siblings_allow h res parent start end_
       end;
  if negb ok then Done (- EBUSY, h) else
  fit ← children_fit (walk_fuel h) h (rs_child rr) start end_;
  if negb fit then Done (- EBUSY, h) else
  h1 ← update h res (set_range (start, end_));
  Done (0, h1).

Definition adjust_resource := __adjust_resource.

Definition resource_alignment (r : resource) : Z :=
  let bits := Z.land (rs_flags r) (Z.lor IORESOURCE_SIZEALIGN IORESOURCE_STARTALIGN) in
  if bits =? IORESOURCE_SIZEALIGN then resource_size r
  else if bits =? IORESOURCE_STARTALIGN then rs_start r
  else 0.
