(* ===== verification/ResourceRegion.v ===== *)
(** * The resource tree: regions

    The part of [src/new/kernel/resource.c] that allocates its own
    [struct resource]s: busy regions, splitting reservations, memory hot-remove
    and the checks on the iomem tree.  A resource comes from the list of boot-time
    resources that were freed, or from the slab; [kzalloc] and [PageSlab] are
    parameters. *)

From S2P Require Import Prelude Resource.

(** The heap and [bootmem_resource_free]. *)
Record res_state := mk_rstate { cells : heap; bootmem_resource_free : option Z }.

Definition zero_resource : resource := mk_resource 0 0 0 0 None None None.

Class Slab := {
  (** the address of a new block, [None] when the allocation fails *)
  kzalloc : heap -> option Z;
  PageSlab : Z -> bool;
}.

Section Regions.
Context `{Slab}.

Definition free_resource (res : option Z) (s : res_state) : outcome res_state :=
  match res with
  | None => Done s
  | Some l =>
      if negb (PageSlab l) then
        h ← update (cells s) l (set_sibling (bootmem_resource_free s));
        Done (mk_rstate h (Some l))
      else Done (mk_rstate (delete l (cells s)) (bootmem_resource_free s))
  end.

Definition alloc_resource (s : res_state) : outcome (option Z * res_state) :=
  match bootmem_resource_free s with
  | Some l =>
      r ← get (cells s) l;
      Done (Some l, mk_rstate (<[l := zero_resource]> (cells s)) (rs_sibling r))
  | None =>
      match kzalloc (cells s) with
      | Some l => Done (Some l, mk_rstate (<[l := zero_resource]> (cells s)) None)
      | None => Done (None, s)
      end
  end.

Definition set_flags_desc (flags desc : Z) (r : resource) : resource :=
  mk_resource (rs_start r) (rs_end r) flags desc (rs_parent r) (rs_sibling r) (rs_child r).

(** ** Reserving around what is there *)

(** The [while (1)] of [__reserve_region_with_split].  A round inserts a piece,
    drops one, or cuts one at a conflict. *)
Fixpoint split_loop (fuel : nat) (s : res_state) (parent res type : Z) (next_res : option Z)
    : outcome res_state :=
  match fuel with
  | O => NoFuel
  | S fuel' =>
      r ← __request_resource (cells s) parent res;
      let '(conflict, h1) := r in
      let s1 := mk_rstate h1 (bootmem_resource_free s) in
      match conflict with
      | None =>
          match next_res with
          | None => Done s1
          | Some n => split_loop fuel' s1 parent n type None
          end
      | Some c =>
          rc ← get (cells s1) c;
          rr ← get (cells s1) res;
          if (rs_start rc <=? rs_start rr) && (rs_end rc >=? rs_end rr)
          then free_resource (Some res) s1
          else if rs_start rc >? rs_start rr then
            let end_ := rs_end rr in
            h2 ← update (cells s1) res (set_end (u64 (rs_start rc - 1)));
            let s2 := mk_rstate h2 (bootmem_resource_free s1) in
            if rs_end rc <? end_ then
              a ← alloc_resource s2;
              let '(n, s3) := a in
              match n with
              | None => free_resource (Some res) s3
              | Some l =>
                  h4 ← update (cells s3) l (fun r => set_flags_desc (Z.lor type IORESOURCE_BUSY) IORES_DESC_NONE
                                                (set_range (u64 (rs_end rc + 1), end_) r));
                  split_loop fuel' (mk_rstate h4 (bootmem_resource_free s3)) parent res type (Some l)
              end
            else split_loop fuel' s2 parent res type next_res
          else
            h2 ← update (cells s1) res (set_start (u64 (rs_end rc + 1)));
            split_loop fuel' (mk_rstate h2 (bootmem_resource_free s1)) parent res type next_res
      end
  end.

Definition __reserve_region_with_split (s : res_state) (root start end_ : Z) : outcome res_state :=
  rr ← get (cells s) root;
  let type := resource_type rr in
  a ← alloc_resource s;
  let '(res, s1) := a in
  match res with
  | None => Done s1
  | Some l =>
      h ← update (cells s1) l (fun r => set_flags_desc (Z.lor type IORESOURCE_BUSY) IORES_DESC_NONE
                                   (set_range (start, end_) r));
      split_loop (4 * walk_fuel h) (mk_rstate h (bootmem_resource_free s1)) root l type None
  end.

Definition reserve_region_with_split (s : res_state) (root start end_ : Z) : outcome res_state :=
  rr ← get (cells s) root;
  if (rs_start rr >? start) || (rs_end rr <? end_) then
    if (start >? rs_end rr) || (end_ <? rs_start rr) then Done s
    else __reserve_region_with_split s root
           (if start <? rs_start rr then rs_start rr else start)
           (if end_ >? rs_end rr then rs_end rr else end_)
  else __reserve_region_with_split s root start end_.

(** ** Busy regions *)

(** How the loop of [__request_region] ends: the region, a refusal, or a wait for
    a muxed region; the caller then sleeps, and goes on from [parent] when it is
    woken. *)
Inductive region_res := Granted (res : Z) | Refused | Wait (parent res : Z).

Fixpoint request_region_loop (fuel : nat) (s : res_state) (parent res flags : Z)
    : outcome (region_res * res_state) :=
  match fuel with
  | O => NoFuel
  | S fuel' =>
      rp ← get (cells s) parent;
      h1 ← update (cells s) res
             (set_flags_desc (Z.lor (Z.lor (resource_type rp) (resource_ext_type rp)) (Z.lor IORESOURCE_BUSY flags))
                (rs_desc rp));
      r ← __request_resource h1 parent res;
      let '(conflict, h2) := r in
      let s2 := mk_rstate h2 (bootmem_resource_free s) in
      match conflict with
      | None => Done (Granted res, s2)
      | Some c =>
          rc ← get h2 c;
          if negb (c =? parent) && negb (has_flag rc IORESOURCE_BUSY) then request_region_loop fuel' s2 c res flags
          else if bool_of (Z.land (Z.land (rs_flags rc) flags) IORESOURCE_MUXED)
          then Done (Wait parent res, s2)
          else s3 ← free_resource (Some res) s2; Done (Refused, s3)
      end
  end.

Definition __request_region (s : res_state) (parent start n flags : Z) : outcome (region_res * res_state) :=
  a ← alloc_resource s;
  let '(res, s1) := a in
  match res with
  | None => Done (Refused, s1)
  | Some l =>
      h ← update (cells s1) l (set_range (start, u64 (start + n - 1)));
      request_region_loop (walk_fuel h) (mk_rstate h (bootmem_resource_free s1)) parent l flags
  end.

(** Whether the region was released, and whether the waiters were woken. *)
Fixpoint release_region_loop (fuel : nat) (s : res_state) (start end_ : Z) (p : slot)
    : outcome (bool * bool * res_state) :=
  match fuel with
  | O => NoFuel
  | S fuel' =>
      q ← read_slot (cells s) p;
      match q with
      | None => Done (false, false, s)
      | Some l =>
          res ← get (cells s) l;
          if (rs_start res <=? start) && (rs_end res >=? end_) then
            if negb (has_flag res IORESOURCE_BUSY) then release_region_loop fuel' s start end_ (ChildOf l)
            else if negb (rs_start res =? start) || negb (rs_end res =? end_) then Done (false, false, s)
            else
              h1 ← write_slot (cells s) p (rs_sibling res);
              s1 ← free_resource (Some l) (mk_rstate h1 (bootmem_resource_free s));
              Done (true, has_flag res IORESOURCE_MUXED, s1)
          else release_region_loop fuel' s start end_ (SiblingOf l)
      end
  end.

Definition __release_region (s : res_state) (parent start n : Z) : outcome (bool * bool * res_state) :=
  release_region_loop (walk_fuel (cells s)) s start (u64 (start + n - 1)) (ChildOf parent).

(** ** Memory hot-remove *)
Fixpoint release_mem_loop (fuel : nat) (s : res_state) (start end_ : Z) (new_res : option Z) (p : slot)
    : outcome (Z * option Z * res_state) :=
  match fuel with
  | O => NoFuel
  | S fuel' =>
      q ← read_slot (cells s) p;
      match q with
      | None => Done (- EINVAL, new_res, s)
      | Some l =>
          res ← get (cells s) l;
          let with_heap h := mk_rstate h (bootmem_resource_free s) in
          if rs_start res >=? end_ then Done (- EINVAL, new_res, s)
          else if (rs_start res >? start) || (rs_end res <? end_)
          then release_mem_loop fuel' s start end_ new_res (SiblingOf l)
          else if negb (has_flag res IORESOURCE_SYSRAM) then Done (0, new_res, s)
          else if negb (has_flag res IORESOURCE_MEM) then Done (- EINVAL, new_res, s)
          else if negb (has_flag res IORESOURCE_BUSY)
          then release_mem_loop fuel' s start end_ new_res (ChildOf l)
          else if (rs_start res =? start) && (rs_end res =? end_) then
            h1 ← write_slot (cells s) p (rs_sibling res);
            s1 ← free_resource (Some l) (with_heap h1);
            Done (0, new_res, s1)
          else if rs_start res =? start then
            r ← __adjust_resource (cells s) l (u64 (end_ + 1)) (u64 (rs_end res - end_));
            Done (fst r, new_res, with_heap (snd r))
          else if rs_end res =? end_ then
            r ← __adjust_resource (cells s) l (rs_start res) (u64 (start - rs_start res));
            Done (fst r, new_res, with_heap (snd r))
          else match new_res with
          | None => Done (- ENOMEM, None, s)
          | Some n =>
              h1 ← update (cells s) n (fun _ => mk_resource (u64 (end_ + 1)) (rs_end res) (rs_flags res)
                                                 (rs_desc res) (rs_parent res) (rs_sibling res) None);
              r ← __adjust_resource h1 l (rs_start res) (u64 (start - rs_start res));
              let '(ret, h2) := r in
              if bool_of ret then Done (ret, Some n, with_heap h2)
              else h3 ← update h2 l (set_sibling (Some n)); Done (0, None, with_heap h3)
          end
      end
  end.

Definition release_mem_region_adjustable (s : res_state) (parent start size : Z)
    : outcome (Z * res_state) :=
  let end_ := u64 (start + size - 1) in
  rp ← get (cells s) parent;
  if (start <? rs_start rp) || (end_ >? rs_end rp) then Done (- EINVAL, s) else
  a ← alloc_resource s;
  let '(new_res, s1) := a in
  r ← release_mem_loop (walk_fuel (cells s1)) s1 start end_ new_res (ChildOf parent);
  let '(ret, new_res', s2) := r in
  s3 ← free_resource new_res' s2;
  Done (ret, s3).

(** ** Checks on the iomem tree *)
Section Checks.
Variable PFN_DOWN : Z -> Z.
Variable PAGE_SIZE : Z.
Variable PAGE_MASK : Z.
(** [strict_iomem_checks] and CONFIG_IO_STRICT_DEVMEM. *)
Variables (strict_iomem_checks io_strict_devmem : bool).

Fixpoint sanity_loop (fuel : nat) (h : heap) (addr size : Z) (p : option Z) : outcome Z :=
  match fuel with
  | O => NoFuel
  | S fuel' =>
      match p with
      | None => Done 0
      | Some l =>
          r ← get h l;
          let continue := p' ← next_resource h l false; sanity_loop fuel' h addr size p' in
          if rs_start r >=? u64 (addr + size) then continue
          else if rs_end r <? addr then continue
          else if (PFN_DOWN (rs_start r) <=? PFN_DOWN addr) &&
                  (PFN_DOWN (rs_end r) >=? PFN_DOWN (u64 (addr + size - 1))) then continue
          else if has_flag r IORESOURCE_BUSY then continue
          else Done (-1)
      end
  end.

Definition iomem_map_sanity_check (h : heap) (addr size : Z) : outcome Z :=
  root ← get h iomem_resource;
  sanity_loop (walk_fuel h) h addr size (rs_child root).

Fixpoint exclusive_loop (fuel : nat) (h : heap) (addr : Z) (p : option Z) : outcome bool :=
  match fuel with
  | O => NoFuel
  | S fuel' =>
      match p with
      | None => Done false
      | Some l =>
          r ← get h l;
          let continue := p' ← next_resource h l false; exclusive_loop fuel' h addr p' in
          if rs_start r >=? u64 (addr + PAGE_SIZE) then Done false
          else if rs_end r <? addr then continue
          else if negb (has_flag r IORESOURCE_BUSY) then continue
          else if io_strict_devmem || has_flag r IORESOURCE_EXCLUSIVE then Done true
          else continue
      end
  end.

Definition iomem_is_exclusive (h : heap) (addr : Z) : outcome bool :=
  if negb strict_iomem_checks then Done false else
  root ← get h iomem_resource;
  exclusive_loop (walk_fuel h) h (Z.land addr PAGE_MASK) (rs_child root).
End Checks.

End Regions.
