(* ===== verification/ResourceTree.v ===== *)
(** * The resource tree: invariant and lemmas

    The children of a resource are a list that the [sibling] pointers spell out.
    [seg] is the list segment, [sorted] the order of the ranges, and [tree_ok]
    the invariant of the whole tree: every live resource has its children in
    increasing order, disjoint and inside its own range, each with its [parent]
    pointer right. *)

From S2P Require Import Prelude Resource.

(** A child: its address and its range. *)
Definition kid : Type := Z * Z * Z.
Definition k_loc (k : kid) : Z := k.1.1.
Definition k_start (k : kid) : Z := k.1.2.
Definition k_end (k : kid) : Z := k.2.

Definition kid_cell (par : Z) (k : kid) (r : resource) : Prop :=
  rs_start r = k_start k /\ rs_end r = k_end k /\ rs_parent r = Some par.

(** From pointer [p] the siblings are [ks], and the last one points to [q]. *)
Fixpoint seg (h : heap) (par : Z) (p : option Z) (ks : list kid) (q : option Z) : Prop :=
  match ks with
  | [] => p = q
  | k :: ks' => p = Some (k_loc k) /\
      exists r, h !! k_loc k = Some r /\ kid_cell par k r /\ seg h par (rs_sibling r) ks' q
  end.

(** Disjoint ranges in increasing order, within [lo, hi]. *)
Fixpoint sorted (lo hi : Z) (ks : list kid) : Prop :=
  match ks with
  | [] => True
  | k :: ks' => lo <= k_start k /\ k_start k <= k_end k /\ k_end k <= hi /\ sorted (k_end k + 1) hi ks'
  end.

Definition children (h : heap) (l : Z) (ks : list kid) : Prop :=
  exists r, h !! l = Some r /\ seg h l (rs_child r) ks None /\ sorted (rs_start r) (rs_end r) ks.

(** The live resources [D]. *)
Definition tree_ok (h : heap) (D : gset Z) : Prop :=
  forall l, l ∈ D -> exists ks, children h l ks /\ Forall (fun k => k_loc k ∈ D) ks.

(** ** Segments *)
Lemma seg_app h par p ks1 ks2 q :
  seg h par p (ks1 ++ ks2) q <-> exists m, seg h par p ks1 m /\ seg h par m ks2 q.
Proof.
  revert p. induction ks1 as [|k ks1 IH]; intros p; simpl.
  - split; [by exists p|]. by intros (m & -> & ?).
  - split.
    + intros (-> & r & ? & ? & (m & ? & ?)%IH). exists m. split; [|done]. split; [done|]. by exists r.
    + intros (m & (-> & r & ? & ? & ?) & ?). split; [done|]. exists r. split_and!; [done|done|]. apply IH. by exists m.
Qed.

(** Two cells that a segment cannot tell apart. *)
Definition same_link (r r' : resource) : Prop :=
  rs_start r' = rs_start r /\ rs_end r' = rs_end r /\ rs_parent r' = rs_parent r /\ rs_sibling r' = rs_sibling r.

Lemma seg_frame h h' par p ks q :
  (forall k r, k ∈ ks -> h !! k_loc k = Some r -> rs_parent r = Some par ->
     exists r', h' !! k_loc k = Some r' /\ same_link r r') ->
  seg h par p ks q -> seg h' par p ks q.
Proof.
  revert p. induction ks as [|k ks IH]; intros p Hf; simpl; [done|].
  intros (-> & r & Hr & (Hs & He & Hp) & Hseg). split; [done|].
  destruct (Hf k r ltac:(by left) Hr Hp) as (r' & Hr' & (? & ? & ? & Hsib)). exists r'.
  split_and!; [done|split_and!; congruence|]. rewrite Hsib. apply IH; [|done].
  intros k' ? ?. apply Hf. by right.
Qed.

Lemma seg_fun h par p ks ks' : seg h par p ks None -> seg h par p ks' None -> ks = ks'.
Proof.
  revert p ks'. induction ks as [|k ks IH]; intros p ks'; simpl.
  - intros ->. destruct ks'; [done|]. by intros (? & _).
  - intros (-> & r & Hr & (? & ? & ?) & Hseg). destruct ks' as [|k' ks']; simpl; [done|].
    intros (Heq & r' & Hr' & (? & ? & ?) & Hseg'). injection Heq as Heq. rewrite <- Heq, Hr in Hr'.
    simplify_eq. f_equal; [|by eapply IH].
    destruct k as [[??]?], k' as [[??]?]; unfold k_loc, k_start, k_end in *; simpl in *; congruence.
Qed.

Lemma seg_cell h par p ks q k : seg h par p ks q -> k ∈ ks ->
  exists r, h !! k_loc k = Some r /\ kid_cell par k r.
Proof.
  revert p. induction ks as [|k' ks IH]; intros p; simpl; [by intros _ ?%elem_of_nil|].
  intros (_ & r & Hr & Hk & Hseg) [->|Hin]%elem_of_cons; [by exists r|by eapply IH].
Qed.

(** ** Order *)
Lemma sorted_weaken lo lo' hi hi' ks : lo' <= lo -> hi <= hi' -> sorted lo hi ks -> sorted lo' hi' ks.
Proof.
  revert lo lo'. induction ks as [|k ks IH]; intros lo lo' ? ?; simpl; [done|].
  intros (? & ? & ? & ?). split_and!; try lia. by eapply IH; [| |done]; lia.
Qed.

Lemma sorted_Forall lo hi ks : sorted lo hi ks -> Forall (fun k => lo <= k_start k <= k_end k /\ k_end k <= hi) ks.
Proof.
  revert lo. induction ks as [|k ks IH]; intros lo; simpl; [done|].
  intros (? & ? & ? & Hs). constructor; [lia|]. apply IH in Hs. eapply Forall_impl; [done|]. simpl. lia.
Qed.

Lemma sorted_app lo hi ks1 ks2 : sorted lo hi (ks1 ++ ks2) <->
  sorted lo hi ks1 /\ sorted (match last ks1 with Some k => k_end k + 1 | None => lo end) hi ks2.
Proof.
  revert lo. induction ks1 as [|k ks1 IH]; intros lo; simpl; [tauto|]. rewrite IH.
  destruct ks1 as [|k' ks1]; simpl; [tauto|].
  destruct (last (k' :: ks1)) eqn:Hl; [simpl in *; tauto|]. by apply last_None in Hl.
Qed.

(** Distinct children have distinct addresses. *)
Lemma seg_sorted_NoDup h par p ks q lo hi :
  seg h par p ks q -> sorted lo hi ks -> NoDup (k_loc <$> ks).
Proof.
  revert p lo. induction ks as [|k ks IH]; intros p lo; simpl; [constructor|].
  intros (_ & r & Hr & (Hs & _) & Hseg) (_ & ? & _ & Hsort). constructor; [|by eapply IH].
  intros (k' & Hloc & Hin)%list_elem_of_fmap. destruct (seg_cell _ _ _ _ _ _ Hseg Hin) as (r' & Hr' & Hs' & _).
  rewrite <- Hloc, Hr in Hr'. simplify_eq. apply sorted_Forall in Hsort. rewrite list.Forall_forall in Hsort.
  apply Hsort in Hin. lia.
Qed.

Lemma seg_dom h par p ks q : seg h par p ks q -> forall k, k ∈ ks -> k_loc k ∈ dom h.
Proof.
  intros Hseg k Hin. destruct (seg_cell _ _ _ _ _ _ Hseg Hin) as (r & Hr & _).
  apply elem_of_dom. by exists r.
Qed.

(** A list of children is not longer than the heap. *)
Lemma seg_length h par p ks q lo hi :
  seg h par p ks q -> sorted lo hi ks -> (length ks <= size h)%nat.
Proof.
  intros Hseg Hsort. pose proof (seg_sorted_NoDup _ _ _ _ _ _ _ Hseg Hsort) as Hnd.
  rewrite <- (length_fmap k_loc), <- (size_list_to_set (C := gset Z) _ Hnd).
  rewrite <- (size_dom (D := gset Z) h). apply subseteq_size. intros l. rewrite elem_of_list_to_set.
  intros (k & -> & Hin)%list_elem_of_fmap. by eapply seg_dom.
Qed.

(** ** Slots *)

(** The slot behind the children [pre] of [root]. *)
Definition slot_after (root : Z) (pre : list kid) : slot :=
  match last pre with Some k => SiblingOf (k_loc k) | None => ChildOf root end.

Lemma slot_after_snoc root pre k : slot_after root (pre ++ [k]) = SiblingOf (k_loc k).
Proof. unfold slot_after. by rewrite last_snoc. Qed.

Lemma seg_snoc h par p ks k q : seg h par p (ks ++ [k]) q <->
  seg h par p ks (Some (k_loc k)) /\ exists r, h !! k_loc k = Some r /\ kid_cell par k r /\ rs_sibling r = q.
Proof.
  rewrite seg_app. simpl. split.
  - intros (m & ? & -> & r & ? & ? & ?). split; [done|]. by exists r.
  - intros (? & r & ? & ? & ?). exists (Some (k_loc k)). split; [done|]. split; [done|]. by exists r.
Qed.

Lemma read_slot_after h root rr pre q :
  h !! root = Some rr -> seg h root (rs_child rr) pre q -> read_slot h (slot_after root pre) = Done q.
Proof.
  intros Hr Hseg. destruct pre as [|k pre _] using rev_ind.
  - simpl in Hseg. unfold slot_after, read_slot, get. simpl. rewrite Hr. simpl. by rewrite Hseg.
  - rewrite slot_after_snoc. apply seg_snoc in Hseg as (_ & r & Hk & _ & <-).
    unfold read_slot, get. by rewrite Hk.
Qed.

(** A cell whose [child] or [sibling] pointer was written. *)
Definition slot_cell (p : slot) (v : option Z) (r : resource) : resource :=
  match p with ChildOf _ => set_child v r | SiblingOf _ => set_sibling v r end.
Definition slot_loc (p : slot) : Z := match p with ChildOf l => l | SiblingOf l => l end.

Lemma write_slot_eq h p v r : h !! slot_loc p = Some r -> write_slot h p v = Done (<[slot_loc p := slot_cell p v r]> h).
Proof. intros Hr. destruct p; simpl in *; unfold update, get; by rewrite Hr. Qed.

(** Writing the slot behind [pre] changes where the segment [pre] ends. *)
Lemma seg_write h root rr pre q v :
  h !! root = Some rr -> seg h root (rs_child rr) pre q -> NoDup (k_loc <$> pre) ->
  exists h' rr', write_slot h (slot_after root pre) v = Done h' /\ h' !! root = Some rr' /\
    seg h' root (rs_child rr') pre v /\
    (exists r, h !! slot_loc (slot_after root pre) = Some r /\
       h' = <[slot_loc (slot_after root pre) := slot_cell (slot_after root pre) v r]> h).
Proof.
  intros Hr Hseg Hnd. destruct pre as [|k pre _] using rev_ind.
  - exists (<[root := set_child v rr]> h), (set_child v rr). unfold slot_after. simpl.
    split; [unfold update, get; by rewrite Hr|]. rewrite lookup_insert_eq. split_and!; [done|done|by exists rr].
  - rewrite slot_after_snoc in *. apply seg_snoc in Hseg as (Hseg & r & Hk & (Hs & He & Hp) & Hq).
    exists (<[k_loc k := set_sibling v r]> h). simpl. unfold update, get. rewrite Hk. simpl.
    rewrite fmap_app, NoDup_app in Hnd. destruct Hnd as (_ & Hnd & _).
    assert (Hmid : forall p, seg h root p pre (Some (k_loc k)) ->
      seg (<[k_loc k := set_sibling v r]> h) root p (pre ++ [k]) v).
    { intros p Hp0. apply seg_snoc. split.
      - eapply seg_frame; [|done]. intros k' r' Hin Hr' _. exists r'. split; [|done].
        rewrite lookup_insert_ne; [done|]. intros Heq. apply (Hnd (k_loc k')).
        + by apply list_elem_of_fmap_2.
        + rewrite <- Heq. by left.
      - exists (set_sibling v r). by rewrite lookup_insert_eq. }
    destruct (decide (k_loc k = root)) as [Heq|Hne].
    + exists (set_sibling v r). split; [done|]. rewrite Heq, Hr in Hk. simplify_eq.
      split_and!; [by rewrite lookup_insert_eq|by apply Hmid|by exists r].
    + exists rr. split; [done|]. rewrite lookup_insert_ne by done. split_and!; [done|by apply Hmid|by exists r].
Qed.

(** A write to a slot or to [new] does not disturb the children of others. *)
Lemma slot_cell_fields p v r : rs_start (slot_cell p v r) = rs_start r /\ rs_end (slot_cell p v r) = rs_end r /\
  rs_parent (slot_cell p v r) = rs_parent r.
Proof. by destruct p. Qed.

(** The children of [l] survive in [h'] when no cell of theirs changed its links
    and [l] kept its range and its [child] pointer. *)
Lemma children_frame h h' l ks :
  children h l ks ->
  (forall r, h !! l = Some r -> exists r', h' !! l = Some r' /\ rs_start r' = rs_start r /\
     rs_end r' = rs_end r /\ rs_child r' = rs_child r) ->
  (forall k r, k ∈ ks -> h !! k_loc k = Some r -> rs_parent r = Some l ->
     exists r', h' !! k_loc k = Some r' /\ same_link r r') ->
  children h' l ks.
Proof.
  intros (r & Hr & Hseg & Hsort) Hl Hks. destruct (Hl r Hr) as (r' & Hr' & Hs & He & Hc).
  exists r'. rewrite Hs, He, Hc. split_and!; [done| |done]. by eapply seg_frame.
Qed.

(** ** Requesting *)

(** The children that end before [start], and the rest. *)
Fixpoint split_before (start : Z) (ks : list kid) : list kid * list kid :=
  match ks with
  | [] => ([], [])
  | k :: ks' => if k_end k <? start then let '(a, b) := split_before start ks' in (k :: a, b) else ([], k :: ks')
  end.

Lemma split_before_app start ks : (split_before start ks).1 ++ (split_before start ks).2 = ks.
Proof.
  induction ks as [|k ks IH]; simpl; [done|]. destruct (_ <? _); [|done].
  destruct (split_before start ks) eqn:E. simpl in *. by rewrite IH.
Qed.

Lemma split_before_low start ks : Forall (fun k => k_end k < start) (split_before start ks).1.
Proof.
  induction ks as [|k ks IH]; simpl; [done|]. destruct (_ <? _) eqn:Hc; zb; [|done].
  destruct (split_before start ks). simpl in *. by constructor.
Qed.

(** The first child that overlaps [start, end_]. *)
Definition conflict_of (start end_ : Z) (ks : list kid) : option Z :=
  match (split_before start ks).2 with
  | k :: _ => if k_start k >? end_ then None else Some (k_loc k)
  | [] => None
  end.

(** What linking [new] into the slot behind [pre] does to the heap. *)
Definition link_in (h : heap) (root new : Z) (p : slot) (next : option Z) : outcome (option Z * heap) :=
  h1 ← update h new (set_sibling next);
  h2 ← write_slot h1 p (Some new);
  h3 ← update h2 new (set_parent (Some root));
  Done (None, h3).

Lemma request_loop_ok h root rr new start end_ ks pre fuel q lo hi :
  h !! root = Some rr -> start <= end_ -> seg h root (rs_child rr) pre q -> seg h root q ks None -> sorted lo hi ks ->
  (length ks < fuel)%nat ->
  request_loop fuel h root new start end_ (slot_after root pre) =
  match conflict_of start end_ ks with
  | Some c => Done (Some c, h)
  | None => link_in h root new (slot_after root (pre ++ (split_before start ks).1))
              (match (split_before start ks).2 with k :: _ => Some (k_loc k) | [] => None end)
  end.
Proof.
  intros Hr Hse. revert pre fuel q lo. induction ks as [|k ks IH]; intros pre fuel q lo Hpre Hseg Hsort Hf;
    (destruct fuel as [|fuel]; [simpl in Hf; lia|]); simpl in *;
    rewrite (read_slot_after h root rr pre q) by done; cbn [mbind outcome_bind].
  { subst q. by rewrite app_nil_r. }
  destruct Hseg as (-> & r & Hk & Hcell & Hseg). pose proof Hcell as (Hs & He & _).
  destruct Hsort as (? & ? & ? & Hsort). unfold get. rewrite Hk. cbn [mbind outcome_bind].
  rewrite Hs, He. unfold conflict_of. simpl. destruct (k_end k <? start) eqn:Hlow; zb.
  - replace (k_start k >? end_) with false by lia.
    specialize (IH (pre ++ [k]) fuel (rs_sibling r) (k_end k + 1)). rewrite slot_after_snoc in IH.
    rewrite IH; [|apply seg_snoc; split; [done|by exists r]|done|done|lia].
    unfold conflict_of. destruct (split_before start ks) as [a b]. simpl. rewrite <- app_assoc. by destruct b.
  - simpl. rewrite app_nil_r. by destruct (k_start k >? end_).
Qed.

Lemma sorted_insert lo hi pre post k :
  sorted lo hi (pre ++ post) -> lo <= k_start k -> k_start k <= k_end k -> k_end k <= hi ->
  Forall (fun x => k_end x < k_start k) pre ->
  match post with x :: _ => k_end k < k_start x | [] => True end ->
  sorted lo hi (pre ++ k :: post).
Proof.
  rewrite !sorted_app. intros [Hpre Hpost] H1 H2 H3 HF Hhead. split; [done|]. simpl. split_and!; try lia.
  - destruct (last pre) as [x|] eqn:Hl; [|done]. rewrite list.Forall_forall in HF.
    apply last_Some_elem_of in Hl. apply HF in Hl. lia.
  - destruct post as [|x post]; [done|]. simpl in *. destruct Hpost as (? & ? & ? & ?). split_and!; done || lia.
Qed.

(** The pointer to a list of children. *)
Definition head_ptr (ks : list kid) : option Z := match ks with k :: _ => Some (k_loc k) | [] => None end.

Lemma seg_head h par p ks : seg h par p ks None -> p = head_ptr ks.
Proof. destruct ks; simpl; [done|]. by intros (-> & _). Qed.

Lemma slot_after_in root pre (D : gset Z) : root ∈ D -> Forall (fun k => k_loc k ∈ D) pre ->
  slot_loc (slot_after root pre) ∈ D.
Proof.
  intros Hr HF. unfold slot_after. destruct (last pre) as [k|] eqn:Hl; [|done]. simpl.
  rewrite list.Forall_forall in HF. apply HF. by apply last_Some_elem_of.
Qed.

(** Whatever changes a [parent] or a [sibling] keeps. *)
Definition same_data (r r' : resource) : Prop :=
  rs_start r' = rs_start r /\ rs_end r' = rs_end r /\ rs_flags r' = rs_flags r /\ rs_desc r' = rs_desc r.

(** Every resource keeps its data; only [except] may get another parent. *)
Definition data_kept (h h' : heap) (except : Z -> Prop) : Prop :=
  forall l r, h !! l = Some r -> exists r', h' !! l = Some r' /\ same_data r r' /\
    (except l \/ rs_parent r' = rs_parent r).

(** Rewriting the slot behind the children [pre] of [root] leaves the children of
    every other live resource alone. *)
Lemma slot_frame h root pre v r l ks (p := slot_after root pre) :
  (forall k, k ∈ pre -> exists rk, h !! k_loc k = Some rk /\ rs_parent rk = Some root) ->
  h !! slot_loc p = Some r -> l <> root -> children h l ks ->
  children (<[slot_loc p := slot_cell p v r]> h) l ks.
Proof.
  intros Hpre Hr Hne Hch. eapply children_frame; [done| |].
  - intros rl Hl. destruct (decide (slot_loc p = l)) as [<-|?].
    + rewrite lookup_insert_eq. exists (slot_cell p v r). rewrite Hr in Hl. simplify_eq.
      split; [done|]. destruct (slot_cell_fields p v rl) as (? & ? & _). split_and!; [done|done|].
      subst p. unfold slot_after in *. by destruct (last pre).
    + exists rl. by rewrite lookup_insert_ne.
  - intros k rk Hk Hrk Hp. destruct (decide (slot_loc p = k_loc k)) as [Heq|?].
    + rewrite Heq, lookup_insert_eq. exists (slot_cell p v r). rewrite Heq, Hrk in Hr. simplify_eq.
      split; [done|]. subst p. unfold slot_after in *. destruct (last pre) as [x|] eqn:Hl; simpl in *; [|done].
      destruct (Hpre x (last_Some_elem_of _ _ Hl)) as (rx & Hx & Hpx). congruence.
    + exists rk. by rewrite lookup_insert_ne.
Qed.

(** Children of [root] that are not in [pre] keep their links. *)
Lemma slot_frame_seg h root pre v r par p ks q (sl := slot_after root pre) :
  h !! slot_loc sl = Some r -> (forall k, k ∈ ks -> k_loc k ∉ (k_loc <$> pre)) ->
  seg h par p ks q -> seg (<[slot_loc sl := slot_cell sl v r]> h) par p ks q.
Proof.
  intros Hr Hd. apply seg_frame. intros k rk Hk Hrk _.
  destruct (decide (slot_loc sl = k_loc k)) as [Heq|?]; [|exists rk; by rewrite lookup_insert_ne].
  rewrite Heq, lookup_insert_eq. exists (slot_cell sl v r). rewrite Heq, Hrk in Hr. simplify_eq.
  split; [done|]. subst sl. unfold slot_after in *. destruct (last pre) as [x|] eqn:Hl; simpl in *; [|done].
  exfalso. apply (Hd k Hk). rewrite <- Heq. apply list_elem_of_fmap_2. by apply last_Some_elem_of.
Qed.

Lemma seg_fresh h par p ks q x r :
  (forall k, k ∈ ks -> k_loc k <> x) -> seg h par p ks q -> seg (<[x := r]> h) par p ks q.
Proof.
  intros Hx. apply seg_frame. intros k rk Hk Hrk _. exists rk. split; [|done].
  rewrite lookup_insert_ne; [done|]. intros ->. by apply (Hx k).
Qed.

Lemma children_fresh h l ks x r :
  l <> x -> (forall k, k ∈ ks -> k_loc k <> x) -> children h l ks -> children (<[x := r]> h) l ks.
Proof.
  intros Hne Hx (rl & Hl & Hseg & Hsort). exists rl. rewrite lookup_insert_ne by done.
  split_and!; [done|by apply seg_fresh|done].
Qed.

Lemma not_new (D : gset Z) new ks : new ∉ D -> Forall (fun k => k_loc k ∈ D) ks -> forall k, k ∈ ks -> k_loc k <> new.
Proof. intros Hn HF k Hk Heq. rewrite list.Forall_forall in HF. apply Hn. rewrite <- Heq. by apply HF. Qed.

Lemma seg_parent h par p ks q : seg h par p ks q ->
  forall k, k ∈ ks -> exists r, h !! k_loc k = Some r /\ rs_parent r = Some par.
Proof. intros Hseg k Hk. destruct (seg_cell _ _ _ _ _ _ Hseg Hk) as (r & ? & _ & _ & ?). by exists r. Qed.

Section LinkIn.
Variables (h : heap) (D : gset Z) (root new : Z) (rr rn : resource) (pre post : list kid).
Hypothesis Htree : tree_ok h D.
Hypothesis Hroot : root ∈ D.
Hypothesis Hnew : new ∉ D.
Hypothesis Hrr : h !! root = Some rr.
Hypothesis Hrn : h !! new = Some rn.
Hypothesis Hleaf : rs_child rn = None.
Hypothesis Hseg : seg h root (rs_child rr) (pre ++ post) None.
Hypothesis Hsort : sorted (rs_start rr) (rs_end rr) (pre ++ post).
Hypothesis Hin : Forall (fun k => k_loc k ∈ D) (pre ++ post).
Definition new_kid : kid := (new, rs_start rn, rs_end rn).
Hypothesis Hsort' : sorted (rs_start rr) (rs_end rr) (pre ++ new_kid :: post).

Let sl := slot_after root pre.
Let rn1 := set_sibling (head_ptr post) rn.
Let rn3 := set_parent (Some root) rn1.

(** The heap after the three writes. *)
Definition linked (r : resource) : heap :=
  <[new := rn3]> (<[slot_loc sl := slot_cell sl (Some new) r]> (<[new := rn1]> h)).

Lemma link_in_run : exists r, h !! slot_loc sl = Some r /\ slot_loc sl ∈ D /\
  link_in h root new sl (head_ptr post) = Done (None, linked r) /\
  exists rr', linked r !! root = Some rr' /\ rs_start rr' = rs_start rr /\ rs_end rr' = rs_end rr /\
    seg (linked r) root (rs_child rr') pre (Some new).
Proof.
  apply Forall_app in Hin as [Hin1 Hin2].
  pose proof (slot_after_in root pre D Hroot Hin1) as HslD. fold sl in HslD.
  pose proof (seg_sorted_NoDup _ _ _ _ _ _ _ Hseg Hsort) as Hnd.
  apply seg_app in Hseg as (m & Hpre & Hpost). pose proof (seg_head _ _ _ _ Hpost). subst m.
  rewrite fmap_app, NoDup_app in Hnd. destruct Hnd as (Hnd & _ & _).
  assert (Hne : forall l, l ∈ D -> l <> new) by (intros l Hl ->; done).
  destruct (seg_write (<[new := rn1]> h) root rr pre (head_ptr post) (Some new))
    as (h2 & rr2 & Hw & Hrr2 & Hseg2 & r2 & Hr2 & ->).
  { by rewrite lookup_insert_ne by (apply not_eq_sym; by apply Hne). }
  { apply seg_fresh; [by apply (not_new D)|done]. }
  { done. }
  fold sl in Hw, Hrr2, Hseg2, Hr2 |- *. rewrite lookup_insert_ne in Hr2 by (apply not_eq_sym; by apply Hne).
  exists r2. split; [done|]. split; [done|]. split.
  - unfold link_in, update, get. rewrite Hrn. cbn [mbind outcome_bind]. fold rn1. rewrite Hw.
    cbn [mbind outcome_bind]. rewrite lookup_insert_ne, lookup_insert_eq by (by apply Hne). done.
  - exists rr2. unfold linked. rewrite lookup_insert_ne by (apply not_eq_sym; by apply Hne).
    split; [done|]. split_and!; [| |apply seg_fresh; [by apply (not_new D)|done]];
    (destruct (decide (slot_loc sl = root)) as [He|He];
      [rewrite He, lookup_insert_eq in Hrr2; rewrite He, Hrr in Hr2; simplify_eq; by apply slot_cell_fields
      |rewrite !lookup_insert_ne in Hrr2 by (done || (apply not_eq_sym; by apply Hne)); congruence]).
Qed.

Lemma link_in_ok : exists h',
  link_in h root new (slot_after root pre) (head_ptr post) = Done (None, h') /\
  children h' root (pre ++ new_kid :: post) /\ tree_ok h' ({[new]} ∪ D) /\
  data_kept h h' (fun l => l = new) /\
  (exists rn', h' !! new = Some rn' /\ rs_parent rn' = Some root).
Proof.
  destruct link_in_run as (r & Hr & HslD & Hrun & rr' & Hrr' & Hs' & He' & Hpre').
  assert (Hne : forall l, l ∈ D -> l <> new) by (intros l Hl ->; done).
  pose proof (seg_sorted_NoDup _ _ _ _ _ _ _ Hseg Hsort) as Hnd.
  rewrite fmap_app, NoDup_app in Hnd. destruct Hnd as (_ & Hdisj & _).
  apply Forall_app in Hin as [Hin1 Hin2]. exists (linked r). fold sl. split; [done|].
  assert (Hr1 : <[new := rn1]> h !! slot_loc sl = Some r)
    by (by rewrite lookup_insert_ne by (apply not_eq_sym; by apply Hne)).
  assert (Hch : children (linked r) root (pre ++ new_kid :: post)).
  { exists rr'. rewrite Hs', He'. split_and!; [done| |done]. apply seg_app. exists (Some new). split; [done|].
    split; [done|]. exists rn3. unfold linked. rewrite lookup_insert_eq. split_and!; [done|done|].
    apply seg_fresh; [by apply (not_new D)|]. apply slot_frame_seg; [done| |apply seg_fresh; [by apply (not_new D)|]].
    - intros k Hk Hp. apply (Hdisj _ Hp). by apply list_elem_of_fmap_2.
    - apply seg_app in Hseg as (m & _ & Hpost). simpl. by rewrite <- (seg_head _ _ _ _ Hpost). }
  split_and!; [done| | |exists rn3; unfold linked; by rewrite lookup_insert_eq].
  - intros l [->%elem_of_singleton|Hl]%elem_of_union.
    { exists []. split; [|done]. exists rn3. unfold linked. rewrite lookup_insert_eq. split_and!; [done|done|done]. }
    destruct (decide (l = root)) as [->|Hlr].
    + exists (pre ++ new_kid :: post). split; [done|]. apply Forall_app. split; [|constructor; [set_solver|]];
        (eapply Forall_impl; [done|]; simpl; set_solver).
    + destruct (Htree l Hl) as (ks & Hks & Hks2). exists ks. split; [|eapply Forall_impl; [done|]; simpl; set_solver].
      unfold linked. apply children_fresh; [by apply Hne|by apply (not_new D)|].
      apply slot_frame; [|done|done|apply children_fresh; [by apply Hne|by apply (not_new D)|done]].
      intros k Hk. apply seg_app in Hseg as (m & Hp & _). destruct (seg_parent _ _ _ _ _ Hp k Hk) as (rk & ? & ?).
      exists rk. rewrite lookup_insert_ne; [done|]. apply not_eq_sym. by apply (not_new D new pre).
  - intros l rl Hl. unfold linked. destruct (decide (l = new)) as [->|Hln].
    + rewrite lookup_insert_eq. rewrite Hrn in Hl. simplify_eq. eexists. split; [done|]. split; [done|by left].
    + rewrite lookup_insert_ne by done. destruct (decide (slot_loc sl = l)) as [<-|?].
      * rewrite lookup_insert_eq. rewrite Hr in Hl. simplify_eq. eexists. split; [done|].
        destruct sl; (split; [done|by right]).
      * rewrite !lookup_insert_ne by done. exists rl. split; [done|]. split; [done|by right].
Qed.

End LinkIn.

(** Range [start, end_] and a child have an address in common. *)
Definition overlaps (start end_ : Z) (k : kid) : Prop := k_start k <= end_ /\ start <= k_end k.

Lemma conflict_Some lo hi start end_ ks c : sorted lo hi ks -> conflict_of start end_ ks = Some c ->
  exists pre k post, ks = pre ++ k :: post /\ k_loc k = c /\ overlaps start end_ k /\
    Forall (fun x => k_end x < start) pre.
Proof.
  intros Hsort Hc. pose proof (split_before_app start ks) as Happ. pose proof (split_before_low start ks) as Hlow.
  unfold conflict_of in Hc. destruct (split_before start ks) as [pre post] eqn:Hsp. simpl in *.
  destruct post as [|k post]; [done|]. destruct (k_start k >? end_) eqn:Hk; [done|]. zb. injection Hc as <-.
  exists pre, k, post. split; [done|]. split; [done|]. split; [|done]. split; [done|].
  clear -Hsp. revert pre Hsp. induction ks as [|x ks IH]; intros pre; simpl; [done|].
  destruct (k_end x <? start) eqn:Hx; zb; [|intros [= <- <- <-]; done].
  destruct (split_before start ks) as [a b]. intros [= <- ->]. by eapply IH.
Qed.

Lemma conflict_None lo hi start end_ ks : sorted lo hi ks -> start <= end_ -> conflict_of start end_ ks = None ->
  forall k, k ∈ ks -> ~ overlaps start end_ k.
Proof.
  intros Hsort Hse Hc k Hk [H1 H2]. pose proof (split_before_app start ks) as Happ.
  pose proof (split_before_low start ks) as Hlow. unfold conflict_of in Hc.
  destruct (split_before start ks) as [pre post]. simpl in *. rewrite <- Happ in Hk, Hsort.
  apply elem_of_app in Hk as [Hk|Hk]; [rewrite list.Forall_forall in Hlow; apply Hlow in Hk; lia|].
  destruct post as [|x post]; [by apply elem_of_nil in Hk|].
  destruct (k_start x >? end_) eqn:Hx; [|done]. zb.
  apply sorted_app in Hsort as [_ (_ & ? & _ & Hs)]. apply elem_of_cons in Hk as [->|Hk]; [lia|].
  apply sorted_Forall in Hs. rewrite list.Forall_forall in Hs. apply Hs in Hk. lia.
Qed.

(** Where a request that meets no child goes. *)
Definition insert_kid (k : kid) (ks : list kid) : list kid :=
  (split_before (k_start k) ks).1 ++ k :: (split_before (k_start k) ks).2.

Lemma insert_kid_sorted lo hi k ks : sorted lo hi ks -> lo <= k_start k -> k_start k <= k_end k -> k_end k <= hi ->
  conflict_of (k_start k) (k_end k) ks = None -> sorted lo hi (insert_kid k ks).
Proof.
  intros Hsort H1 H2 H3 Hc. unfold insert_kid, conflict_of in *.
  pose proof (split_before_app (k_start k) ks) as Happ. pose proof (split_before_low (k_start k) ks) as Hlow.
  destruct (split_before (k_start k) ks) as [pre post]. simpl in *.
  apply sorted_insert; [by rewrite Happ|done|done|done|done|].
  destruct post as [|x post]; [done|]. destruct (k_start x >? k_end k) eqn:Hx; [|done]. by zb.
Qed.

(** The three outcomes of a request. *)
Definition request_result (h : heap) (D : gset Z) (root new : Z) (rr rn : resource) (ks : list kid)
    (res : outcome (option Z * heap)) : Prop :=
  let valid := rs_start rn <= rs_end rn /\ rs_start rr <= rs_start rn /\ rs_end rn <= rs_end rr in
  (~ valid /\ res = Done (Some root, h)) \/
  (valid /\ exists pre k post, ks = pre ++ k :: post /\ overlaps (rs_start rn) (rs_end rn) k /\
     Forall (fun x => k_end x < rs_start rn) pre /\ res = Done (Some (k_loc k), h)) \/
  (valid /\ (forall k, k ∈ ks -> ~ overlaps (rs_start rn) (rs_end rn) k) /\
     exists h', res = Done (None, h') /\ children h' root (insert_kid (new_kid new rn) ks) /\
       tree_ok h' ({[new]} ∪ D) /\ data_kept h h' (fun l => l = new) /\
       exists rn', h' !! new = Some rn' /\ rs_parent rn' = Some root).

Lemma children_in_D h D root rr ks : tree_ok h D -> root ∈ D -> h !! root = Some rr ->
  seg h root (rs_child rr) ks None -> Forall (fun k => k_loc k ∈ D) ks.
Proof.
  intros Htree Hroot Hrr Hseg. destruct (Htree root Hroot) as (ks' & (rr' & Hrr' & Hseg' & _) & Hin).
  rewrite Hrr in Hrr'. injection Hrr' as <-. by rewrite (seg_fun _ _ _ _ _ Hseg' Hseg) in Hin.
Qed.

Lemma request_ok h D root new rr rn ks :
  tree_ok h D -> root ∈ D -> new ∉ D -> h !! root = Some rr -> h !! new = Some rn -> rs_child rn = None ->
  children h root ks -> request_result h D root new rr rn ks (__request_resource h root new).
Proof.
  intros Htree Hroot Hnew Hrr Hrn Hleaf (rr' & Hrr' & Hseg & Hsort). rewrite Hrr in Hrr'. injection Hrr' as <-.
  pose proof (children_in_D h D root _ ks Htree Hroot Hrr Hseg) as Hin.
  unfold __request_resource, request_result, get. rewrite Hrn, Hrr. cbn [mbind outcome_bind].
  destruct (rs_end rn <? rs_start rn) eqn:H1; zb; [left; split; [lia|done]|].
  destruct (rs_start rn <? rs_start rr) eqn:H2; zb; [left; split; [lia|done]|].
  destruct (rs_end rn >? rs_end rr) eqn:H3; zb; [left; split; [lia|done]|]. right.
  pose proof (seg_length _ _ _ _ _ _ _ Hseg Hsort) as Hlen.
  pose proof (request_loop_ok h root rr new (rs_start rn) (rs_end rn) ks [] (walk_fuel h) (rs_child rr) _ _
    Hrr ltac:(lia) eq_refl Hseg Hsort ltac:(unfold walk_fuel; lia)) as Hloop.
  change (slot_after root []) with (ChildOf root) in Hloop. rewrite Hloop.
  destruct (conflict_of _ _ ks) as [c|] eqn:Hc.
  - left. split; [lia|]. destruct (conflict_Some _ _ _ _ _ _ Hsort Hc) as (pre & k & post & ? & <- & ? & ?).
    by exists pre, k, post.
  - right. split; [lia|]. split; [by eapply conflict_None|].
    pose proof (insert_kid_sorted _ _ (new_kid new rn) ks Hsort ltac:(done) ltac:(done) ltac:(done) Hc) as Hs'.
    unfold insert_kid in *. simpl in *. change (k_start (new_kid new rn)) with (rs_start rn) in *.
    pose proof (split_before_app (rs_start rn) ks) as Happ.
    destruct (split_before (rs_start rn) ks) as [pre post]. simpl in *. rewrite <- Happ in Hseg, Hsort, Hin.
    by apply (link_in_ok h D root new rr rn pre post).
Qed.

(** ** Releasing *)

(** The code of [__release_resource] once the slot that points to [old] is
    found. *)
Definition release_at (h : heap) (old : Z) (release_child : bool) (p : slot) : outcome (Z * heap) :=
  rt ← get h old;
  h1 ← match release_child, rs_child rt with
       | false, Some c =>
           r ← reparent_loop (walk_fuel h) h c (rs_parent rt);
           let '(chd, h1) := r in
           h2 ← write_slot h1 p (Some c);
           update h2 chd (set_sibling (rs_sibling rt))
       | _, _ => write_slot h p (rs_sibling rt)
       end;
  h2 ← update h1 old (set_parent None);
  Done (0, h2).

Lemma release_loop_found h root rr old rc pre0 pre k post q fuel :
  h !! root = Some rr -> seg h root (rs_child rr) pre0 q -> seg h root q (pre ++ k :: post) None ->
  k_loc k = old -> old ∉ (k_loc <$> pre) -> (length pre < fuel)%nat ->
  release_loop fuel h old rc (slot_after root pre0) = release_at h old rc (slot_after root (pre0 ++ pre)).
Proof.
  intros Hr. revert pre0 q fuel. induction pre as [|x pre IH]; intros pre0 q fuel Hpre Hseg Hk Hn Hf;
    (destruct fuel as [|fuel]; [lia|]); simpl in *;
    rewrite (read_slot_after h root rr pre0 q) by done; cbn [mbind outcome_bind];
    destruct Hseg as (-> & r & Hx & Hcell & Hseg).
  - rewrite app_nil_r, Hk, Z.eqb_refl. done.
  - apply not_elem_of_cons in Hn as [Hne Hn].
    rewrite (proj2 (Z.eqb_neq (k_loc x) old)) by congruence.
    specialize (IH (pre0 ++ [x]) (rs_sibling r) fuel). rewrite slot_after_snoc in IH.
    rewrite IH; [by rewrite <- app_assoc|apply seg_snoc; split; [done|by exists r]|done|done|done|lia].
Qed.

Lemma release_loop_missing h root rr old rc pre0 ks q fuel :
  h !! root = Some rr -> seg h root (rs_child rr) pre0 q -> seg h root q ks None ->
  old ∉ (k_loc <$> ks) -> (length ks < fuel)%nat ->
  release_loop fuel h old rc (slot_after root pre0) = Done (- EINVAL, h).
Proof.
  intros Hr. revert pre0 q fuel. induction ks as [|x ks IH]; intros pre0 q fuel Hpre Hseg Hn Hf;
    (destruct fuel as [|fuel]; [simpl in *; lia|]); simpl in *;
    rewrite (read_slot_after h root rr pre0 q) by done; cbn [mbind outcome_bind]; [by subst q|].
  destruct Hseg as (-> & r & Hx & Hcell & Hseg). apply not_elem_of_cons in Hn as [Hne Hn].
  rewrite (proj2 (Z.eqb_neq (k_loc x) old)) by congruence.
  specialize (IH (pre0 ++ [x]) (rs_sibling r) fuel). rewrite slot_after_snoc in IH.
  apply IH; [apply seg_snoc; split; [done|by exists r]|done|done|lia].
Qed.

(** Children that moved to another parent. *)
Lemma seg_move h h' par par' p ks q :
  (forall k r, k ∈ ks -> h !! k_loc k = Some r -> rs_parent r = Some par ->
     exists r', h' !! k_loc k = Some r' /\ rs_start r' = rs_start r /\ rs_end r' = rs_end r /\
       rs_sibling r' = rs_sibling r /\ rs_parent r' = Some par') ->
  seg h par p ks q -> seg h' par' p ks q.
Proof.
  revert p. induction ks as [|k ks IH]; intros p Hf; simpl; [done|].
  intros (-> & r & Hr & (Hs & He & Hp) & Hseg). split; [done|].
  destruct (Hf k r ltac:(by left) Hr Hp) as (r' & Hr' & ? & ? & Hsib & ?). exists r'.
  split_and!; [done|split_and!; congruence|]. rewrite Hsib. apply IH; [|done]. intros k' ? ?. apply Hf. by right.
Qed.

Lemma seg_move_last h h' par par' p ks x q0 q :
  last ks = Some x -> NoDup (k_loc <$> ks) ->
  (forall k r, k ∈ ks -> h !! k_loc k = Some r -> rs_parent r = Some par ->
     exists r', h' !! k_loc k = Some r' /\ rs_start r' = rs_start r /\ rs_end r' = rs_end r /\
       rs_parent r' = Some par' /\ rs_sibling r' = if decide (k_loc k = k_loc x) then q else rs_sibling r) ->
  seg h par p ks q0 -> seg h' par' p ks q.
Proof.
  intros [ini ->]%last_Some Hnd Hf. rewrite fmap_app, NoDup_app in Hnd. destruct Hnd as (_ & Hnd & _).
  rewrite !seg_snoc. intros [Hini (r & Hr & (Hs & He & Hp) & _)]. split.
  - eapply seg_move; [|exact Hini]. intros k rk Hk Hrk Hpk.
    destruct (Hf k rk ltac:(apply elem_of_app; by left) Hrk Hpk) as (r' & ? & ? & ? & ? & Hsib). exists r'.
    rewrite decide_False in Hsib; [done|]. intros Heq. apply (Hnd (k_loc k)).
    + by apply list_elem_of_fmap_2.
    + rewrite Heq. by left.
  - destruct (Hf x r ltac:(apply elem_of_app; right; by left) Hr Hp) as (r' & ? & ? & ? & ? & Hsib).
    rewrite decide_True in Hsib by done. exists r'. split_and!; [done|split_and!; congruence|done].
Qed.

(** A child replaced by its own children. *)
Lemma sorted_replace lo hi pre k cks post :
  sorted lo hi (pre ++ k :: post) -> sorted (k_start k) (k_end k) cks -> sorted lo hi (pre ++ cks ++ post).
Proof.
  rewrite !sorted_app. intros [Hpre (H1 & H2 & H3 & H4)] Hc. split; [done|].
  pose proof (sorted_Forall _ _ _ Hc) as HF. rewrite list.Forall_forall in HF. split.
  - by eapply sorted_weaken; [| |exact Hc].
  - eapply sorted_weaken; [| |exact H4]; [|lia]. destruct (last cks) as [x|] eqn:Hl.
    + apply last_Some_elem_of, HF in Hl. lia.
    + destruct (last pre); lia.
Qed.

(** [reparent_loop] gives every child of the list the new parent. *)
Lemma reparent_ok h par p cks c fuel new_par :
  seg h par (Some c) cks None -> cks <> [] -> NoDup (k_loc <$> cks) -> (length cks <= fuel)%nat ->
  p = Some new_par ->
  exists x h', last cks = Some x /\ reparent_loop fuel h c p = Done (k_loc x, h') /\
    forall l, h' !! l = if bool_decide (l ∈ k_loc <$> cks) then set_parent p <$> h !! l else h !! l.
Proof.
  intros Hseg Hne Hnd Hf ->. revert h c fuel Hseg Hf. induction cks as [|k cks IH]; [done|]; intros h c fuel Hseg Hf.
  destruct fuel as [|fuel]; [simpl in Hf; lia|]. destruct Hseg as ([= ->] & r & Hr & Hcell & Hseg).
  cbn [reparent_loop]. unfold update, get. rewrite Hr. cbn [mbind outcome_bind]. rewrite lookup_insert_eq.
  cbn [mbind outcome_bind]. change (rs_sibling (set_parent (Some new_par) r)) with (rs_sibling r).
  rewrite fmap_cons in Hnd. apply NoDup_cons in Hnd as [Hk Hnd].
  destruct cks as [|k' cks].
  - simpl in Hseg. rewrite Hseg. exists k. eexists. split; [done|]. split; [done|]. intros l.
    destruct (decide (l = k_loc k)) as [->|Hl].
    + rewrite lookup_insert_eq, Hr. rewrite bool_decide_true; [done|]. by left.
    + rewrite lookup_insert_ne by done. rewrite bool_decide_false; [done|].
      by intros ?%list_elem_of_singleton.
  - pose proof (seg_head _ _ _ _ Hseg) as Hs. simpl in Hs. rewrite Hs in Hseg |- *.
    destruct (IH ltac:(done) Hnd (<[k_loc k := set_parent (Some new_par) r]> h) (k_loc k') fuel)
      as (x & h' & Hx & Hrun & Hl); [|simpl in *; lia|].
    + apply seg_fresh; [|done]. intros y Hy Heq. apply Hk. rewrite <- Heq. by apply list_elem_of_fmap_2.
    + exists x, h'. split; [done|]. split; [done|]. intros l. rewrite Hl.
      destruct (decide (l = k_loc k)) as [->|Hlk].
      * rewrite bool_decide_false by done. rewrite lookup_insert_eq, Hr, bool_decide_true; [done|by left].
      * rewrite lookup_insert_ne by done. rewrite (fmap_cons _ k).
        by rewrite (bool_decide_ext (l ∈ k_loc k :: _) (l ∈ k_loc <$> k' :: cks)) by (rewrite elem_of_cons; tauto).
Qed.

Section Unlink.
Variables (h : heap) (D : gset Z) (root old : Z) (rr ro : resource) (pre post : list kid) (k : kid).
Hypothesis Htree : tree_ok h D.
Hypothesis Hroot : root ∈ D.
Hypothesis Hne : root <> old.
Hypothesis Hrr : h !! root = Some rr.
Hypothesis Hro : h !! old = Some ro.
Hypothesis Hk : k_loc k = old.
Hypothesis Hseg : seg h root (rs_child rr) (pre ++ k :: post) None.
Hypothesis Hsort : sorted (rs_start rr) (rs_end rr) (pre ++ k :: post).
Hypothesis Hin : Forall (fun x => k_loc x ∈ D) (pre ++ k :: post).

Let sl := slot_after root pre.

Lemma unlink_facts : NoDup (k_loc <$> pre) /\ (old ∉ (k_loc <$> pre)) /\ (old ∉ (k_loc <$> post)) /\
  (forall x, x ∈ post -> k_loc x ∉ (k_loc <$> pre)) /\ rs_parent ro = Some root /\
  seg h root (rs_child rr) pre (Some old) /\ seg h root (rs_sibling ro) post None /\
  slot_loc sl <> old /\ slot_loc sl ∈ D /\ rs_start ro = k_start k /\ rs_end ro = k_end k.
Proof.
  pose proof (seg_sorted_NoDup _ _ _ _ _ _ _ Hseg Hsort) as Hnd.
  rewrite fmap_app, fmap_cons, Hk, NoDup_app, NoDup_cons in Hnd. destruct Hnd as (Hnd & Hd & Hnp & _).
  apply seg_app in Hseg as (m & Hpre & Hrest). destruct Hrest as (-> & r & Hr & (Hs & He & Hp) & Hpost).
  rewrite Hk, Hro in Hr. injection Hr as <-. rewrite Hk in Hpre.
  assert (Hold : old ∉ (k_loc <$> pre)) by (intros Hx; apply (Hd _ Hx); by left).
  split_and!; try done.
  - intros x Hx Hx'. apply (Hd _ Hx'). right. by apply list_elem_of_fmap_2.
  - subst sl. unfold slot_after. destruct (last pre) as [x|] eqn:Hl; [|done]. simpl. intros Hx. apply Hold.
    rewrite <- Hx. apply list_elem_of_fmap_2. by apply last_Some_elem_of.
  - apply Forall_app in Hin as [Hin1 _]. by apply slot_after_in.
Qed.

(** The other children of [root], once [old] is detached. *)
Lemma rest_in_D x : x ∈ pre \/ x ∈ post -> k_loc x ∈ D ∖ {[old]}.
Proof.
  destruct unlink_facts as (_ & Hop & Hoq & _). intros Hx. apply elem_of_difference. split.
  - rewrite list.Forall_forall in Hin. apply Hin.
    rewrite elem_of_app, elem_of_cons. tauto.
  - intros Heq%elem_of_singleton.
    destruct Hx as [Hx|Hx]; [apply Hop|apply Hoq]; rewrite <- Heq; by apply list_elem_of_fmap_2.
Qed.

Lemma release_leaf_ok rc : rc = true \/ rs_child ro = None ->
  exists h', release_at h old rc sl = Done (0, h') /\ children h' root (pre ++ post) /\
    tree_ok h' (D ∖ {[old]}) /\ data_kept h h' (fun l => l = old) /\
    exists ro', h' !! old = Some ro' /\ rs_parent ro' = None.
Proof.
  intros Hrc. destruct unlink_facts as (Hnd & Hop & Hoq & Hd & Hp & Hpre & Hpost & Hslne & HslD & _).
  destruct (seg_write h root rr pre (Some old) (rs_sibling ro) Hrr Hpre Hnd)
    as (h1 & rr1 & Hw & Hrr1 & Hseg1 & r1 & Hr1 & Heq1). fold sl in Hw, Hr1, Heq1.
  assert (Hro1 : h1 !! old = Some ro) by (by rewrite Heq1, lookup_insert_ne).
  set (h2 := <[old := set_parent None ro]> h1). exists h2.
  assert (Hfresh : forall ks : list kid, old ∉ (k_loc <$> ks) -> forall x, x ∈ ks -> k_loc x <> old).
  { intros ks Hks x Hx <-. apply Hks. by apply list_elem_of_fmap_2. }
  assert (Hrange : rs_start rr1 = rs_start rr /\ rs_end rr1 = rs_end rr).
  { rewrite Heq1 in Hrr1. destruct (decide (slot_loc sl = root)) as [He|He].
    - rewrite He, lookup_insert_eq in Hrr1. rewrite He, Hrr in Hr1. simplify_eq.
      by destruct (slot_cell_fields sl (rs_sibling ro) r1) as (? & ? & _).
    - rewrite lookup_insert_ne, Hrr in Hrr1 by done. by simplify_eq. }
  assert (Hch : children h2 root (pre ++ post)).
  { exists rr1. subst h2. rewrite lookup_insert_ne by done. destruct Hrange as [-> ->]. split_and!; [done| |].
    - apply seg_app. exists (rs_sibling ro). split; (apply seg_fresh; [by apply Hfresh|]); [done|].
      rewrite Heq1. by apply slot_frame_seg.
    - apply sorted_app in Hsort as [Hs1 (Hs2 & Hs3 & Hs4 & Hs5)]. apply sorted_app. split; [done|].
      eapply sorted_weaken; [| |exact Hs5]; [|lia]. destruct (last pre); lia. }
  split_and!.
  - unfold release_at, get. rewrite Hro. cbn [mbind outcome_bind].
    destruct Hrc as [->| ->]; [|destruct rc]; rewrite Hw; cbn [mbind outcome_bind]; unfold update, get; by rewrite Hro1.
  - done.
  - intros l [Hl Hlo%not_elem_of_singleton]%elem_of_difference. destruct (decide (l = root)) as [->|Hlr].
    + exists (pre ++ post). split; [done|]. apply list.Forall_forall. intros x [?|?]%elem_of_app; apply rest_in_D; auto.
    + destruct (Htree l Hl) as (ks & Hks & HksD). exists ks.
      assert (Hno : forall x, x ∈ ks -> k_loc x <> old).
      { intros x Hx Hxo. destruct Hks as (rl & _ & Hsl & _). destruct (seg_parent _ _ _ _ _ Hsl x Hx) as (rx & Hrx & Hpx).
        rewrite Hxo, Hro in Hrx. congruence. }
      split; [|apply list.Forall_forall; intros x Hx; apply elem_of_difference;
        rewrite list.Forall_forall in HksD; split; [by apply HksD|]; rewrite elem_of_singleton; by apply Hno].
      subst h2. apply children_fresh; [done|done|]. rewrite Heq1. apply slot_frame; [|done|done|done].
      intros x Hx. by apply (seg_parent _ _ _ _ _ Hpre).
  - intros l rl Hl. subst h2. destruct (decide (l = old)) as [->|Hlo].
    + rewrite lookup_insert_eq. rewrite Hro in Hl. simplify_eq. eexists. split; [done|]. split; [done|by left].
    + rewrite lookup_insert_ne, Heq1 by done. destruct (decide (slot_loc sl = l)) as [<-|?].
      * rewrite lookup_insert_eq. rewrite Hr1 in Hl. simplify_eq. eexists. split; [done|].
        destruct sl; (split; [done|by right]).
      * rewrite lookup_insert_ne by done. exists rl. split; [done|]. split; [done|by right].
  - exists (set_parent None ro). subst h2. by rewrite lookup_insert_eq.
Qed.

(** *** With the children moved up *)
Variable cks : list kid.
Hypothesis Hch : children h old cks.
Hypothesis Hne_c : cks <> [].
Hypothesis HcD : Forall (fun x => k_loc x ∈ D) cks.
Hypothesis Hacyclic : rs_parent rr <> Some old.

(** The heap after the writes: [h1] is the heap with the children moved to
    [root], [x] the last of them. *)
Definition spliced (h1 : heap) (x : kid) (rx rsl : resource) : heap :=
  <[old := set_parent None ro]> (<[k_loc x := set_sibling (rs_sibling ro) (set_parent (Some root) rx)]>
    (<[slot_loc sl := slot_cell sl (head_ptr cks) rsl]> h1)).

Definition moved_up (h1 : heap) : Prop := forall l,
  h1 !! l = if bool_decide (l ∈ k_loc <$> cks) then set_parent (Some root) <$> h !! l else h !! l.

Lemma splice_run : exists h1 x rx rsl, moved_up h1 /\ last cks = Some x /\ h !! k_loc x = Some rx /\
  rs_parent rx = Some old /\ h !! slot_loc sl = Some rsl /\ rs_parent rsl <> Some old /\
  release_at h old false sl = Done (0, spliced h1 x rx rsl) /\
  exists rr', spliced h1 x rx rsl !! root = Some rr' /\
    seg (spliced h1 x rx rsl) root (rs_child rr') pre (head_ptr cks).
Proof.
  destruct unlink_facts as (Hnd & Hop & Hoq & Hd & Hp & Hpre & Hpost & Hslne & HslD & _).
  destruct Hch as (ro' & Hro' & Hcseg & Hcsort). rewrite Hro in Hro'. injection Hro' as <-.
  pose proof (seg_sorted_NoDup _ _ _ _ _ _ _ Hcseg Hcsort) as Hcnd.
  pose proof (seg_head _ _ _ _ Hcseg) as Hhead.
  destruct cks as [|c0 cks'] eqn:Hcks; [done|]. rewrite <- Hcks in *. rewrite Hhead in Hcseg.
  assert (Hhp : head_ptr cks = Some (k_loc c0)) by (by rewrite Hcks). rewrite Hhp in *.
  destruct (reparent_ok h old (rs_parent ro) cks (k_loc c0) (walk_fuel h) root) as (x & h1 & Hx & Hrun & Hh1);
    [done|by rewrite Hcks|done|pose proof (seg_length _ _ _ _ _ _ _ Hcseg Hcsort); unfold walk_fuel; lia|done|].
  assert (Hcpar : forall l r, l ∈ k_loc <$> cks -> h !! l = Some r -> rs_parent r = Some old).
  { intros l r (y & -> & Hy)%list_elem_of_fmap Hr. destruct (seg_parent _ _ _ _ _ Hcseg y Hy) as (ry & ? & ?). congruence. }
  assert (Hkeep : forall l r, h !! l = Some r -> rs_parent r <> Some old -> h1 !! l = Some r).
  { intros l r Hr Hnp. rewrite Hh1, bool_decide_false; [done|]. intros Hl. by apply Hnp, (Hcpar l). }
  rewrite Hp in *.
  assert (Hpre1 : seg h1 root (rs_child rr) pre (Some old)).
  { eapply seg_frame; [|exact Hpre]. intros y r Hy Hr Hpr. exists r. split; [|done]. apply Hkeep; [done|]. congruence. }
  destruct (seg_write h1 root rr pre (Some old) (Some (k_loc c0)) (Hkeep _ _ Hrr Hacyclic) Hpre1 Hnd)
    as (h2 & rr2 & Hw & Hrr2 & Hseg2 & r2 & Hr2 & Heq2). fold sl in Hw, Hr2, Heq2.
  assert (Hxc : k_loc x ∈ k_loc <$> cks) by (apply list_elem_of_fmap_2; by apply last_Some_elem_of).
  destruct (seg_cell _ _ _ _ _ x Hcseg (last_Some_elem_of _ _ Hx)) as (rx & Hrx & _ & _ & Hpx).
  assert (Hslr : exists rsl, h !! slot_loc sl = Some rsl /\ rs_parent rsl <> Some old).
  { subst sl. unfold slot_after. destruct (last pre) as [y|] eqn:Hl; simpl; [|by exists rr].
    destruct (seg_parent _ _ _ _ _ Hpre y (last_Some_elem_of _ _ Hl)) as (ry & ? & ?). exists ry. split; [done|congruence]. }
  destruct Hslr as (rsl & Hrsl & Hpsl).
  assert (r2 = rsl) as -> by (rewrite (Hkeep _ _ Hrsl Hpsl) in Hr2; congruence).
  assert (Hxsl : slot_loc sl <> k_loc x) by (intros He; rewrite He, Hrx in Hrsl; congruence).
  assert (Hxo : k_loc x <> old) by (intros He; rewrite He, Hro in Hrx; congruence).
  assert (Hx2 : h2 !! k_loc x = Some (set_parent (Some root) rx)).
  { rewrite Heq2, lookup_insert_ne, Hh1, bool_decide_true, Hrx by done. done. }
  set (h3 := <[k_loc x := set_sibling (rs_sibling ro) (set_parent (Some root) rx)]> h2).
  assert (Ho3 : h3 !! old = Some ro).
  { subst h3. rewrite lookup_insert_ne, Heq2, lookup_insert_ne by done. apply Hkeep; [done|]. rewrite Hp. congruence. }
  exists h1, x, rx, rsl. split_and!; try done.
  - unfold release_at, get. rewrite Hro. cbn [mbind outcome_bind]. rewrite Hhead, Hp, Hrun. cbn [mbind outcome_bind].
    rewrite Hw. cbn [mbind outcome_bind]. unfold update, get. rewrite Hx2. cbn [mbind outcome_bind].
    unfold spliced. rewrite Hhp, <- Heq2. fold h3. by rewrite Ho3.
  - exists rr2. unfold spliced. rewrite Hhp, <- Heq2. fold h3. split.
    + rewrite lookup_insert_ne by done. subst h3. rewrite lookup_insert_ne; [done|]. intros He.
      rewrite <- He, Hrx in Hrr. congruence.
    + apply seg_fresh; [intros y Hy He; apply Hop; rewrite <- He; by apply list_elem_of_fmap_2|].
      apply seg_fresh; [|done]. intros y Hy He. destruct (seg_parent _ _ _ _ _ Hpre y Hy) as (ry & Hry & Hpy).
      rewrite He, Hrx in Hry. congruence.
Qed.

(** What happened to every cell. *)
Lemma splice_cells h1 x rx rsl : moved_up h1 -> h !! k_loc x = Some rx -> k_loc x ∈ (k_loc <$> cks) ->
  h !! slot_loc sl = Some rsl -> rs_parent rsl <> Some old ->
  forall l r, h !! l = Some r -> exists r', spliced h1 x rx rsl !! l = Some r' /\ same_data r r' /\
    (l <> root -> rs_child r' = rs_child r) /\
    rs_parent r' = (if decide (l = old) then None
                    else if decide (l ∈ k_loc <$> cks) then Some root else rs_parent r) /\
    (rs_sibling r' = (if decide (l = k_loc x) then rs_sibling ro else rs_sibling r) \/ SiblingOf l = sl).
Proof.
  intros Hm Hrx Hxc Hrsl Hpsl l r Hr. destruct unlink_facts as (_ & _ & _ & _ & Hp & _ & _ & Hslne & _).
  assert (Hold : old ∉ (k_loc <$> cks)).
  { intros (y & Hy & Hin')%list_elem_of_fmap. destruct Hch as (? & _ & Hcseg & _).
    destruct (seg_parent _ _ _ _ _ Hcseg y Hin') as (ry & Hry & Hpy). rewrite <- Hy, Hro in Hry. congruence. }
  assert (Hsl : slot_loc sl ∉ (k_loc <$> cks)).
  { intros (y & Hy & Hin')%list_elem_of_fmap. destruct Hch as (? & _ & Hcseg & _).
    destruct (seg_parent _ _ _ _ _ Hcseg y Hin') as (ry & Hry & Hpy). rewrite <- Hy, Hrsl in Hry. congruence. }
  unfold spliced. destruct (decide (l = old)) as [->|Hlo].
  { rewrite lookup_insert_eq. rewrite Hro in Hr. injection Hr as <-. eexists. split; [done|]. split_and!; try done.
    left. destruct (decide (old = k_loc x)) as [He|]; [|done]. by rewrite He in Hold. }
  rewrite lookup_insert_ne by done. destruct (decide (l = k_loc x)) as [->|Hlx].
  { rewrite lookup_insert_eq. rewrite Hrx in Hr. injection Hr as <-. eexists. split; [done|].
    rewrite decide_True by done. split_and!; try done. by left. }
  rewrite lookup_insert_ne by done. destruct (decide (l = slot_loc sl)) as [->|Hls].
  { rewrite lookup_insert_eq. rewrite Hrsl in Hr. injection Hr as <-. eexists. split; [done|].
    rewrite decide_False by done. split_and!.
    - by destruct sl.
    - subst sl. unfold slot_after in *. by destruct (last pre).
    - by destruct sl.
    - destruct sl; [by left|by right]. }
  rewrite lookup_insert_ne, Hm by done. case_bool_decide as Hc.
  - rewrite Hr. eexists. split; [done|]. rewrite decide_True by done. split_and!; try done. by left.
  - exists r. rewrite decide_False by done. split_and!; try done. by left.
Qed.


Lemma release_splice_ok :
  exists h', release_at h old false sl = Done (0, h') /\ children h' root (pre ++ cks ++ post) /\
    tree_ok h' (D ∖ {[old]}) /\ data_kept h h' (fun l => l = old \/ l ∈ (k_loc <$> cks)) /\
    exists ro', h' !! old = Some ro' /\ rs_parent ro' = None.
Proof.
  destruct splice_run as (h1 & x & rx & rsl & Hm & Hx & Hrx & Hpx & Hrsl & Hpsl & Hrun & rr' & Hrr' & Hseg').
  destruct unlink_facts as (Hnd & Hop & Hoq & Hd & Hp & Hpre & Hpost & Hslne & HslD & Hks & Hke).
  destruct Hch as (ro' & Hro' & Hcseg & Hcsort). rewrite Hro in Hro'. injection Hro' as <-.
  pose proof (seg_head _ _ _ _ Hcseg) as Hhead.
  pose proof (seg_sorted_NoDup _ _ _ _ _ _ _ Hcseg Hcsort) as Hcnd.
  assert (Hxc : k_loc x ∈ k_loc <$> cks) by (apply list_elem_of_fmap_2; by apply last_Some_elem_of).
  pose proof (splice_cells h1 x rx rsl Hm Hrx Hxc Hrsl Hpsl) as Hcell.
  set (h' := spliced h1 x rx rsl) in *. exists h'. split; [done|].
  assert (Hcp : forall l r, h !! l = Some r -> rs_parent r <> Some old -> l ∉ (k_loc <$> cks)).
  { intros l r Hr Hnp (y & -> & Hy)%list_elem_of_fmap. destruct (seg_parent _ _ _ _ _ Hcseg y Hy) as (ry & ? & ?). congruence. }
  (* a cell with a parent other than [old] and [root] keeps its links *)
  assert (Hsame : forall l r, h !! l = Some r -> rs_parent r <> Some old ->
    l ∉ (k_loc <$> pre) -> l <> old -> exists r', h' !! l = Some r' /\ same_link r r').
  { intros l r Hr Hnp Hlp Hlo. destruct (Hcell l r Hr) as (r' & Hr' & (? & ? & _) & _ & Hpar & Hsib).
    exists r'. split; [done|]. rewrite decide_False, decide_False in Hpar by (done || by eapply Hcp).
    split_and!; try done. destruct Hsib as [Hsib|Hsib].
    - rewrite decide_False in Hsib; [done|]. intros ->. by apply (Hcp _ _ Hr Hnp).
    - exfalso. apply Hlp. unfold sl, slot_after in Hsib. destruct (last pre) as [y|] eqn:Hl; [|done].
      injection Hsib as ->. apply list_elem_of_fmap_2. by apply last_Some_elem_of. }
  assert (Hchild : children h' root (pre ++ cks ++ post)).
  { destruct (Hcell root rr Hrr) as (rr2 & Hrr2 & (Hs2 & He2 & _) & _). rewrite Hrr' in Hrr2. injection Hrr2 as <-.
    exists rr'. rewrite Hs2, He2. split_and!; [done| |].
    - apply seg_app. exists (head_ptr cks). split; [done|]. apply seg_app. exists (rs_sibling ro). split.
      + rewrite <- Hhead. eapply (seg_move_last h h' old root); [exact Hx|done| |exact Hcseg].
        intros y r Hy Hr Hpr. destruct (Hcell _ r Hr) as (r' & Hr' & (? & ? & _) & _ & Hpar & Hsib). exists r'.
        rewrite decide_False, decide_True in Hpar;
          [|by apply list_elem_of_fmap_2|intros He; rewrite He, Hro in Hr; congruence].
        split_and!; try done. destruct Hsib as [?|Hsib]; [done|]. exfalso.
        change (k_loc y) with (slot_loc (SiblingOf (k_loc y))) in Hr. rewrite Hsib, Hrsl in Hr. congruence.
      + eapply seg_frame; [|exact Hpost]. intros y r Hy Hr Hpr. apply Hsame; [done|congruence|by apply Hd|].
        intros He. apply Hoq. rewrite <- He. by apply list_elem_of_fmap_2.
    - eapply sorted_replace; [done|]. by rewrite <- Hks, <- Hke. }
  split_and!; [done| | |].
  - intros l [Hl Hlo%not_elem_of_singleton]%elem_of_difference. destruct (decide (l = root)) as [->|Hlr].
    + exists (pre ++ cks ++ post). split; [done|]. apply list.Forall_forall.
      intros y [Hy|[Hy|Hy]%elem_of_app]%elem_of_app; [apply rest_in_D; by left| |apply rest_in_D; by right].
      rewrite list.Forall_forall in HcD. apply elem_of_difference. split; [by apply HcD|].
      intros Heq%elem_of_singleton. destruct (seg_parent _ _ _ _ _ Hcseg y Hy) as (ry & Hry & Hpy).
      rewrite Heq, Hro in Hry. congruence.
    + destruct (Htree l Hl) as (ks & Hksl & HksD). exists ks.
      assert (Hkid : forall y r, y ∈ ks -> h !! k_loc y = Some r -> rs_parent r = Some l).
      { intros y r Hy Hr. destruct Hksl as (rl & _ & Hsl & _).
        destruct (seg_parent _ _ _ _ _ Hsl y Hy) as (ry & Hry & Hpy). congruence. }
      split.
      * eapply children_frame; [exact Hksl| |].
        -- intros r Hr. destruct (Hcell l r Hr) as (r' & ? & (? & ? & _) & Hc & _). exists r'. split_and!; auto.
        -- intros y r Hy Hr Hpr. apply Hsame; [done|congruence| |intros He; rewrite He, Hro in Hr; congruence].
           intros (z & Hz & Hzp)%list_elem_of_fmap. destruct (seg_parent _ _ _ _ _ Hpre z Hzp) as (rz & Hrz & Hpz).
           rewrite <- Hz, Hr in Hrz. congruence.
      * apply list.Forall_forall. intros y Hy. rewrite list.Forall_forall in HksD.
        apply elem_of_difference. split; [by apply HksD|]. intros He%elem_of_singleton.
        rewrite (Hkid y ro Hy ltac:(by rewrite He)) in Hp. congruence.
  - intros l r Hr. destruct (Hcell l r Hr) as (r' & Hr' & Hdata & _ & Hpar & _). exists r'.
    split; [done|]. split; [done|]. destruct (decide (l = old)) as [|Hlo]; [left; by left|].
    destruct (decide (l ∈ k_loc <$> cks)); [left; by right|by right].
  - destruct (Hcell old ro Hro) as (r' & Hr' & _ & _ & Hpar & _). exists r'. by rewrite decide_True in Hpar.
Qed.

End Unlink.
