(* ===== verification/ResourceProps.v ===== *)
(** * The resource tree: properties of requesting and releasing *)

From S2P Require Import Prelude Resource ResourceTree.

(** An iomem tree: a root with two children, the first of which has a child, and
    a resource (20) that is not in the tree. *)
Definition demo_heap : heap :=
  list_to_map [(2, mk_resource 0 0xffffffff IORESOURCE_MEM 0 None None (Some 10));
               (10, mk_resource 0x1000 0x1fff IORESOURCE_MEM 0 (Some 2) (Some 12) (Some 11));
               (11, mk_resource 0x1100 0x11ff IORESOURCE_MEM 0 (Some 10) None None);
               (12, mk_resource 0x3000 0x3fff IORESOURCE_MEM 0 (Some 2) None None);
               (20, mk_resource 0x2000 0x2fff IORESOURCE_MEM 0 None None None)].
Definition demo_live : gset Z := {[2; 10; 11; 12]}.
Definition demo_kids : list kid := [(10, 0x1000, 0x1fff); (12, 0x3000, 0x3fff)].

Ltac in_live := apply (bool_decide_unpack _); vm_compute; exact I.
Ltac cell := eexists; split; [vm_compute; reflexivity|]; split; [by vm_compute|]; simpl.

Lemma demo_kids_ok : children demo_heap 2 demo_kids.
Proof.
  eexists. split; [vm_compute; reflexivity|]. split; [|vm_compute; by repeat split].
  simpl. split; [done|]. cell. split; [done|]. cell. done.
Defined.

Lemma demo_tree_ok : tree_ok demo_heap demo_live.
Proof.
  intros l Hl. assert (l = 2 \/ l = 10 \/ l = 11 \/ l = 12) as [->|[->|[->| ->]]] by (unfold demo_live in Hl; rewrite !elem_of_union, !elem_of_singleton in Hl; tauto).
  - exists demo_kids. split; [apply demo_kids_ok|]. repeat constructor; in_live.
  - exists [(11, 0x1100, 0x11ff)]. split; [|repeat constructor; in_live].
    eexists. split; [vm_compute; reflexivity|]. split; [|vm_compute; by repeat split].
    simpl. split; [done|]. cell. done.
  - exists []. split; [|done]. eexists. split; [vm_compute; reflexivity|]. by split.
  - exists []. split; [|done]. eexists. split; [vm_compute; reflexivity|]. by split.
Defined.

(** C18: requesting a resource without children in a well-formed tree always
    returns.  An inverted range or one outside the root is refused with the root
    itself, a range that meets a child with the first such child, and then
    nothing changes; otherwise the resource becomes a child of the root at its
    place in the order, every other resource keeps its data and its parent, and
    the tree is well formed again. *)
Theorem request_resource_spec h D root new rr rn ks :
  tree_ok h D -> root ∈ D -> new ∉ D -> h !! root = Some rr -> h !! new = Some rn -> rs_child rn = None ->
  children h root ks -> request_result h D root new rr rn ks (__request_resource h root new).
Proof. apply request_ok. Qed.

Lemma request_resource_spec_witness :
  exists rr rn, demo_heap !! 2 = Some rr /\ demo_heap !! 20 = Some rn /\
    request_result demo_heap demo_live 2 20 rr rn demo_kids (__request_resource demo_heap 2 20).
Proof.
  eexists _, _. split; [vm_compute; reflexivity|]. split; [vm_compute; reflexivity|].
  apply request_resource_spec; [apply demo_tree_ok|in_live|in_live|
    by vm_compute|by vm_compute|done|apply demo_kids_ok].
Defined.

(** Releasing a child of a live resource unlinks exactly it: 0 is returned,
    the other children keep their order, the children of the released resource
    stay with it, it has no parent any more, and the rest of the tree is well
    formed with all data kept.  A resource that its parent does not list is
    refused with -EINVAL and nothing changes. *)
Theorem release_resource_spec h D root old rr ro ks :
  tree_ok h D -> root ∈ D -> root <> old -> h !! root = Some rr -> h !! old = Some ro ->
  rs_parent ro = Some root -> children h root ks ->
  ((old ∉ (k_loc <$> ks)) /\ release_resource h old = Done (- EINVAL, h)) \/
  exists pre k post h', ks = pre ++ k :: post /\ k_loc k = old /\
    release_resource h old = Done (0, h') /\ children h' root (pre ++ post) /\
    tree_ok h' (D ∖ {[old]}) /\ data_kept h h' (fun l => l = old) /\
    exists ro', h' !! old = Some ro' /\ rs_parent ro' = None.
Proof.
  intros Htree Hroot Hne Hrr Hro Hpar (rr' & Hrr' & Hseg & Hsort). rewrite Hrr in Hrr'. injection Hrr' as <-.
  pose proof (children_in_D h D root rr ks Htree Hroot Hrr Hseg) as Hin.
  unfold release_resource, __release_resource, get. rewrite Hro. cbn [mbind outcome_bind]. rewrite Hpar.
  pose proof (seg_length _ _ _ _ _ _ _ Hseg Hsort) as Hlen. change (ChildOf root) with (slot_after root []).
  destruct (decide (old ∈ k_loc <$> ks)) as [(k & -> & Hk)%list_elem_of_fmap|Hno].
  - right. apply list_elem_of_split in Hk as (pre & post & ->). 
    pose proof (seg_sorted_NoDup _ _ _ _ _ _ _ Hseg Hsort) as Hnd.
    rewrite fmap_app, fmap_cons, NoDup_app in Hnd. destruct Hnd as (_ & Hd & _).
    destruct (release_leaf_ok h D root (k_loc k) rr ro pre post k Htree Hroot Hne Hrr Hro eq_refl Hseg Hsort Hin true)
      as (h' & Hrun & Hrest); [by left|].
    exists pre, k, post, h'. split; [done|]. split; [done|]. split; [|done].
    rewrite (release_loop_found h root rr (k_loc k) true [] pre k post (rs_child rr)); try done.
    + intros Hx. apply (Hd _ Hx). by left.
    + rewrite length_app in Hlen. simpl in Hlen. unfold walk_fuel. lia.
  - left. split; [done|]. apply (release_loop_missing h root rr old true [] ks (rs_child rr)); try done.
    unfold walk_fuel. lia.
Qed.

Lemma release_resource_spec_witness :
  exists h', release_resource demo_heap 10 = Done (0, h') /\ children h' 2 [(12, 0x3000, 0x3fff)].
Proof.
  destruct (release_resource_spec demo_heap demo_live 2 10 (mk_resource 0 0xffffffff IORESOURCE_MEM 0 None None (Some 10))
    (mk_resource 0x1000 0x1fff IORESOURCE_MEM 0 (Some 2) (Some 12) (Some 11)) demo_kids)
    as [[Hno _]|(pre & k & post & h' & Hks & Hk & Hrun & Hch & _)];
    [apply demo_tree_ok|in_live|done|by vm_compute|by vm_compute|done|apply demo_kids_ok| |].
  - exfalso. apply Hno. left.
  - exists h'. split; [exact Hrun|].
    unfold demo_kids in Hks. destruct pre as [|k0 pre]; [injection Hks as <- <-; exact Hch|].
    exfalso. injection Hks as <- Hks. destruct pre as [|k1 pre]; [by injection Hks as <- _|].
    by destruct pre.
Defined.

(** Removing a resource (the inverse of an insertion above others) puts its
    children, if it has any, in its place: the child list of the parent is the
    old one with the resource replaced by its own children, in order, their
    parent pointers are right, and the rest of the tree is as it was. *)
Theorem remove_resource_spec h D root old rr ro pre k post cks :
  tree_ok h D -> root ∈ D -> old ∈ D -> root <> old -> h !! root = Some rr -> h !! old = Some ro ->
  rs_parent rr <> Some old -> k_loc k = old -> children h root (pre ++ k :: post) -> children h old cks ->
  exists h', remove_resource h old = Done (0, h') /\ children h' root (pre ++ cks ++ post) /\
    tree_ok h' (D ∖ {[old]}) /\ data_kept h h' (fun l => l = old \/ l ∈ (k_loc <$> cks)) /\
    exists ro', h' !! old = Some ro' /\ rs_parent ro' = None.
Proof.
  intros Htree Hroot Hold Hne Hrr Hro Hac Hk (rr' & Hrr' & Hseg & Hsort) Hch.
  rewrite Hrr in Hrr'. injection Hrr' as <-.
  pose proof (children_in_D h D root rr _ Htree Hroot Hrr Hseg) as Hin.
  destruct (unlink_facts h D root old rr ro pre post k Hroot Hne Hro Hk Hseg Hsort Hin)
    as (_ & Hop & _ & _ & Hpar & _).
  pose proof (seg_length _ _ _ _ _ _ _ Hseg Hsort) as Hlen. rewrite length_app in Hlen. simpl in Hlen.
  unfold remove_resource, __release_resource, get. rewrite Hro. cbn [mbind outcome_bind]. rewrite Hpar.
  change (ChildOf root) with (slot_after root []).
  rewrite (release_loop_found h root rr old false [] pre k post (rs_child rr)); try done;
    [|unfold walk_fuel; lia].
  destruct Hch as (ro' & Hro' & Hcseg & Hcsort). rewrite Hro in Hro'. injection Hro' as <-.
  destruct cks as [|c cks].
  - simpl in Hcseg.
    destruct (release_leaf_ok h D root old rr ro pre post k Htree Hroot Hne Hrr Hro Hk Hseg Hsort Hin false)
      as (h' & ? & ? & ? & Hdata & ?); [by right|].
    exists h'. split_and!; try done. intros l r Hr. destruct (Hdata l r Hr) as (r' & ? & ? & [?|?]); exists r'; auto.
  - apply (release_splice_ok h D root old rr ro pre post k Htree Hroot Hne Hrr Hro Hk Hseg Hsort Hin (c :: cks));
      [by exists ro|done| |done]. by apply (children_in_D h D old ro).
Qed.

Lemma remove_resource_spec_witness :
  exists h', remove_resource demo_heap 10 = Done (0, h') /\
    children h' 2 [(11, 0x1100, 0x11ff); (12, 0x3000, 0x3fff)].
Proof.
  destruct (remove_resource_spec demo_heap demo_live 2 10 (mk_resource 0 0xffffffff IORESOURCE_MEM 0 None None (Some 10))
    (mk_resource 0x1000 0x1fff IORESOURCE_MEM 0 (Some 2) (Some 12) (Some 11))
    [] (10, 0x1000, 0x1fff) [(12, 0x3000, 0x3fff)] [(11, 0x1100, 0x11ff)]) as (h' & Hrun & Hch & _);
    [apply demo_tree_ok|in_live|in_live|done|by vm_compute|by vm_compute|done|done|apply demo_kids_ok| |].
  - eexists. split; [vm_compute; reflexivity|].
    split; [|by vm_compute]. simpl. split; [done|]. cell. done.
  - exists h'. split; [exact Hrun|exact Hch].
Defined.

(** Releasing what was just requested gives back the child list the root had
    before. *)
Theorem request_release_roundtrip h D root new rr rn ks h' :
  tree_ok h D -> root ∈ D -> new ∉ D -> h !! root = Some rr -> h !! new = Some rn -> rs_child rn = None ->
  children h root ks -> __request_resource h root new = Done (None, h') ->
  exists h'', release_resource h' new = Done (0, h'') /\ children h'' root ks /\ tree_ok h'' D.
Proof.
  intros Htree Hroot Hnew Hrr Hrn Hleaf Hks Hreq.
  destruct (request_ok h D root new rr rn ks Htree Hroot Hnew Hrr Hrn Hleaf Hks)
    as [[_ Hr]|[(_ & ? & ? & ? & _ & _ & _ & Hr)|(Hv & _ & h1 & Hr & Hch & Htree' & Hdata & rn' & Hrn' & Hpar)]];
    rewrite Hreq in Hr; try discriminate. injection Hr as <-.
  assert (Hne : root <> new) by (intros ->; done).
  destruct (Hdata root rr Hrr) as (rr' & Hrr' & _).
  pose proof Hch as (rr2 & Hrr2 & Hseg & Hsort). rewrite Hrr' in Hrr2. injection Hrr2 as <-.
  unfold insert_kid in *. change (k_start (new_kid new rn)) with (rs_start rn) in *.
  pose proof (split_before_app (rs_start rn) ks) as Happ. destruct (split_before (rs_start rn) ks) as [pre post].
  simpl in Happ, Hch, Hseg, Hsort. rewrite <- Happ.
  assert (Hroot' : root ∈ {[new]} ∪ D) by (apply elem_of_union; by right).
  pose proof (children_in_D h' _ root rr' _ Htree' Hroot' Hrr' Hseg) as Hin.
  destruct (unlink_facts h' ({[new]} ∪ D) root new rr' rn' pre post (new_kid new rn) Hroot' Hne Hrn' eq_refl Hseg Hsort Hin)
    as (_ & Hop & _).
  destruct (release_leaf_ok h' ({[new]} ∪ D) root new rr' rn' pre post (new_kid new rn) Htree' Hroot' Hne Hrr' Hrn'
    eq_refl Hseg Hsort Hin true) as (h'' & Hrun & Hch2 & Htree2 & _); [by left|].
  exists h''. split_and!; [|done|].
  - unfold release_resource, __release_resource, get. rewrite Hrn'. cbn [mbind outcome_bind]. rewrite Hpar.
    change (ChildOf root) with (slot_after root []).
    pose proof (seg_length _ _ _ _ _ _ _ Hseg Hsort) as Hlen. rewrite length_app in Hlen. simpl in Hlen.
    rewrite (release_loop_found h' root rr' new true [] pre (new_kid new rn) post (rs_child rr')); try done.
    unfold walk_fuel. lia.
  - replace (({[new]} ∪ D) ∖ {[new]}) with D in Htree2; [done|]. apply set_eq. intros x.
    rewrite elem_of_difference, elem_of_union, elem_of_singleton. split; [|tauto].
    intros Hx. split; [by right|]. by intros ->.
Qed.

Lemma request_release_roundtrip_witness :
  exists h' h'', __request_resource demo_heap 2 20 = Done (None, h') /\
    release_resource h' 20 = Done (0, h'') /\ children h'' 2 demo_kids.
Proof.
  eexists. assert (Hreq : __request_resource demo_heap 2 20 = Done (None, _)) by (vm_compute; reflexivity).
  destruct (request_release_roundtrip demo_heap demo_live 2 20
    (mk_resource 0 0xffffffff IORESOURCE_MEM 0 None None (Some 10))
    (mk_resource 0x2000 0x2fff IORESOURCE_MEM 0 None None None) demo_kids _ demo_tree_ok
    ltac:(in_live) ltac:(in_live) ltac:(by vm_compute) ltac:(by vm_compute) eq_refl demo_kids_ok Hreq)
    as (h'' & Hrel & Hch & _).
  exists h''. split; [exact Hreq|]. split; [exact Hrel|exact Hch].
Defined.
