(* ===== verification/ResourceAlloc.v ===== *)
(** * The resource tree: properties of allocation, adjustment and intersection *)

From S2P Require Import Prelude Resource ResourceTree ResourceProps.

(** ** [__find_resource] *)
Section FindOk.
Variables (ALIGN : Z -> Z -> Z) (h : heap) (root : Z) (rr new : resource) (size : Z) (c : resource_constraint).
Hypothesis root_u64 : 0 <= rs_start rr /\ rs_end rr < 2 ^ 64.

(** A range that [try_slot] accepts: inside the free range [lo, hi] and the
    constraint, of the right size, and at an aligned address when the callback
    keeps the start it is given. *)
Definition place_ok (lo hi : Z) (range : Z * Z) : Prop :=
  Z.max lo (rc_min c) <= range.1 /\ range.1 <= range.2 /\ range.2 <= Z.min hi (rc_max c) /\
  range.2 = u64 (range.1 + size - 1) /\
  (rc_alignf c = simple_align_resource -> exists x, range.1 = ALIGN x (rc_align c)).

Lemma resource_contains_range r1 r2 : resource_contains r1 r2 = true ->
  rs_start r1 <= rs_start r2 /\ rs_end r2 <= rs_end r1.
Proof. unfold resource_contains. repeat case_match; intros; zb; try done. Qed.

Lemma clip_bounds min max r : 
  rs_start (resource_clip min max r) = Z.max (rs_start r) min /\
  rs_end (resource_clip min max r) = Z.min (rs_end r) max.
Proof.
  unfold resource_clip. destruct (rs_start r <? min) eqn:H1; zb; simpl; zcase; simpl; lia.
Qed.

Lemma try_slot_ok tmp range : try_slot ALIGN new size c tmp = Some range ->
  place_ok (rs_start tmp) (rs_end tmp) range.
Proof.
  unfold try_slot. destruct (clip_bounds (rc_min c) (rc_max c) tmp) as [Hs He].
  destruct (_ >=? _) eqn:Hge; [|done]. zb. simpl in Hge.
  destruct (_ && _)%bool eqn:Hok; [|done]. apply andb_prop in Hok as [Hle Hcon]. zb. simpl in Hle.
  apply resource_contains_range in Hcon as [Hc1 Hc2]. simpl in Hc1, Hc2.
  intros [= <-]. unfold place_ok. simpl. split_and!; try lia.
  intros Hal. rewrite Hal. unfold simple_align_resource. simpl. by eexists.
Qed.

Lemma find_loop_ok rest fuel this tmp lo :
  seg h root this rest None -> sorted lo (rs_end rr) rest -> Forall (fun k => 1 <= k_start k) rest ->
  0 <= lo -> rs_start tmp = lo -> (length rest < fuel)%nat ->
  find_loop ALIGN fuel h rr None new size c this tmp = Done None \/
  exists range, find_loop ALIGN fuel h rr None new size c this tmp = Done (Some range) /\
    place_ok lo (rs_end rr) range /\ (forall k, k ∈ rest -> ~ overlaps range.1 range.2 k).
Proof.
  revert fuel this tmp lo. induction rest as [|k rest IH]; intros fuel this tmp lo Hseg Hsort HF Hlo Htmp Hf;
    (destruct fuel as [|fuel]; [simpl in Hf; lia|]); simpl in *.
  - subst this. cbn [mbind outcome_bind]. simpl. case_match; [by left|].
    destruct (try_slot _ _ _ _ _) as [range|] eqn:Htry; [|by left]. right. exists range. split; [done|].
    apply try_slot_ok in Htry. simpl in Htry. rewrite Htmp in Htry. split; [done|]. by intros ? ?%elem_of_nil.
  - destruct Hseg as (-> & r & Hr & (Hs & He & _) & Hseg). destruct Hsort as (Hk1 & Hk2 & Hk3 & Hsort).
    inversion HF as [|? ? Hk0 HF']; subst. unfold get. rewrite Hr. cbn [mbind outcome_bind].
    simpl. rewrite Hs, He. rewrite (u64_small (k_start k - 1)) by (unfold is_u64; lia).
    assert (Hnext : forall tmp', 
      (if k_end k =? rs_end rr then Done None
       else find_loop ALIGN fuel h rr None new size c (rs_sibling r) (set_start (u64 (k_end k + 1)) tmp')) = Done None \/
      exists range, (if k_end k =? rs_end rr then Done None
       else find_loop ALIGN fuel h rr None new size c (rs_sibling r) (set_start (u64 (k_end k + 1)) tmp')) = Done (Some range) /\
        place_ok (rs_start tmp) (rs_end rr) range /\ (forall k', k' ∈ k :: rest -> ~ overlaps range.1 range.2 k')).
    { intros tmp'. destruct (k_end k =? rs_end rr) eqn:Hlast; zb; [by left|].
      destruct (IH fuel (rs_sibling r) (set_start (u64 (k_end k + 1)) tmp') (k_end k + 1))
        as [?|(range & Hrun & Hpl & Hov)]; [done|done|done|lia|simpl; apply u64_small; unfold is_u64; lia|lia|by left|].
      right. exists range. split; [done|]. destruct Hpl as (? & ? & ? & ? & ?). split; [split_and!; done || lia|].
      intros k' [->|Hk']%elem_of_cons; [intros [? ?]; lia|by apply Hov]. }
    destruct (k_start k - 1 <? rs_start tmp); [apply Hnext|]. destruct (try_slot _ _ _ _ _) as [range|] eqn:Htry; [|apply Hnext].
    right. exists range. split; [done|]. apply try_slot_ok in Htry. simpl in Htry.
    destruct Htry as (? & ? & ? & ? & ?). split; [split_and!; done || lia|].
    intros k' [->|Hk']%elem_of_cons [? ?]; [lia|].
    apply sorted_Forall in Hsort. rewrite list.Forall_forall in Hsort. apply Hsort in Hk'. lia.
Qed.

(** When the range of the root ends below the last address, or no child reaches
    its end, a range that is found is free.  (A child that covers a root up to the
    last address makes [this->end + 1] wrap around to 0.) *)
Lemma find_resource_ok ks : h !! root = Some rr -> children h root ks ->
  rs_end rr < 2 ^ 64 - 1 \/ Forall (fun k => k_end k < rs_end rr) ks ->
  find_resource ALIGN h root new size c = Done None \/
  exists range, find_resource ALIGN h root new size c = Done (Some range) /\
    place_ok (rs_start rr) (rs_end rr) range /\ (forall k, k ∈ ks -> ~ overlaps range.1 range.2 k).
Proof.
  intros Hrr (rr' & Hrr' & Hseg & Hsort) Hwrap. rewrite Hrr in Hrr'. injection Hrr' as <-.
  pose proof (seg_length _ _ _ _ _ _ _ Hseg Hsort) as Hlen. destruct root_u64 as [Hr0 Hr1].
  unfold find_resource, __find_resource, get. rewrite Hrr. cbn [mbind outcome_bind].
  destruct ks as [|k ks]; simpl in Hseg.
  { rewrite Hseg. apply find_loop_ok; done || unfold walk_fuel; lia. }
  pose proof Hseg as (-> & r & Hr & Hcell & Hseg'). pose proof Hcell as (Hs & He & _). rewrite Hr.
  cbn [mbind outcome_bind].
  pose proof Hsort as (Hk1 & Hk2 & Hk3 & Hsort'). simpl in Hlen.
  assert (Hlow : Forall (fun x => 1 <= k_start x) ks).
  { apply sorted_Forall in Hsort'. eapply Forall_impl; [done|]. simpl. lia. }
  rewrite Hs. destruct (k_start k =? rs_start rr) eqn:Hfirst; zb.
  - simpl. rewrite He. assert (Hk4 : k_end k + 1 < 2 ^ 64).
    { destruct Hwrap as [?|HF]; [lia|]. inversion HF; subst. lia. }
    destruct (find_loop_ok ks (walk_fuel h) (rs_sibling r) (set_start (u64 (k_end k + 1)) (set_start (rs_start rr) new))
      (k_end k + 1)) as [?|(range & Hrun & Hpl & Hov)];
      [done|done|done|lia|simpl; apply u64_small; unfold is_u64; lia|unfold walk_fuel; lia|by left|].
    right. exists range. split; [done|]. destruct Hpl as (? & ? & ? & ? & ?). split; [split_and!; done || lia|].
    intros k' [->|Hk']%elem_of_cons; [intros [? ?]; lia|by apply Hov].
  - apply (find_loop_ok (k :: ks)); [split; [done|]; exists r; by split_and!|done|constructor; [lia|done]|done|done|simpl; unfold walk_fuel; lia].
Qed.
End FindOk.

(** Allocating a range for a resource that is in no tree always returns.
    0 means that the resource was given a range of the requested size inside the
    root and the bounds, aligned when no callback moves it, which no child
    overlaps, and that it is linked in at its place; -EBUSY leaves everything as
    it was.  (The root must not be filled up to the last address, where the
    search wraps around.) *)
Theorem allocate_resource_spec ALIGN h D root new rr rn ks size min max align alignf :
  tree_ok h D -> root ∈ D -> new ∉ D -> h !! root = Some rr -> h !! new = Some rn ->
  rs_child rn = None -> rs_parent rn = None -> children h root ks ->
  0 <= rs_start rr /\ rs_end rr < 2 ^ 64 ->
  rs_end rr < 2 ^ 64 - 1 \/ Forall (fun k => k_end k < rs_end rr) ks ->
  allocate_resource ALIGN h root new size min max align alignf = Done (- EBUSY, h) \/
  exists h' s e, allocate_resource ALIGN h root new size min max align alignf = Done (0, h') /\
    e = u64 (s + size - 1) /\ Z.max (rs_start rr) min <= s /\ s <= e /\ e <= Z.min (rs_end rr) max /\
    (alignf = None -> exists x, s = ALIGN x align) /\
    children h' root (insert_kid (new, s, e) ks) /\ tree_ok h' ({[new]} ∪ D).
Proof.
  intros Htree Hroot Hnew Hrr Hrn Hleaf Hpar Hks Hu Hwrap. unfold allocate_resource, get.
  rewrite !Hrn. cbn [mbind outcome_bind]. rewrite !Hpar.
  set (c := mk_constraint min max align (default simple_align_resource alignf)).
  destruct (find_resource_ok ALIGN h root rr rn size c Hu ks Hrr Hks Hwrap) as [->|(range & -> & Hpl & Hov)]; [by left|].
  right. cbn [mbind outcome_bind]. unfold update, get. rewrite !Hrn. cbn [mbind outcome_bind].
  set (rn' := set_range range rn). set (h1 := <[new := rn']> h).
  assert (Hne : forall l, l ∈ D -> l <> new) by (intros l Hl ->; done).
  assert (Htree1 : tree_ok h1 D).
  { intros l Hl. destruct (Htree l Hl) as (ks' & Hch & Hin). exists ks'. split; [|done].
    apply children_fresh; [by apply Hne|by apply (not_new D)|done]. }
  assert (Hks1 : children h1 root ks).
  { destruct Hks as (rr' & Hrr' & Hseg & Hsort). apply children_fresh; [by apply Hne| |by exists rr'].
    rewrite Hrr in Hrr'. injection Hrr' as <-. apply (not_new D); [done|]. by apply (children_in_D h D root rr). }
  assert (Hrr1 : h1 !! root = Some rr) by (subst h1; by rewrite lookup_insert_ne by (apply not_eq_sym; by apply Hne)).
  assert (Hrn1 : h1 !! new = Some rn') by (subst h1; by rewrite lookup_insert_eq).
  destruct Hpl as (Hlo & Hle & Hhi & Hsz & Hal). unfold c in Hlo, Hhi, Hal. simpl in Hlo, Hhi, Hal.
  assert (Hr' : rs_start rn' = range.1 /\ rs_end rn' = range.2) by done. destruct Hr' as [Hs' He'].
  destruct (request_ok h1 D root new rr rn' ks Htree1 Hroot Hnew Hrr1 Hrn1 Hleaf Hks1)
    as [[Hv _]|[(_ & pre & k & post & -> & Hk & _)|(_ & _ & h2 & -> & Hch & Htree2 & _)]].
  - exfalso. apply Hv. lia.
  - exfalso. apply (Hov k); [apply elem_of_app; right; by left|]. by rewrite <- Hs', <- He'.
  - exists h2, range.1, range.2. split; [done|]. split_and!; try done; try lia.
    intros ->. by apply Hal.
Qed.

Lemma allocate_resource_spec_witness :
  exists h' s e, allocate_resource round_up demo_heap 2 20 0x800 0x1000 0xffffffff 0x1000 None = Done (0, h') /\
    s <= e /\ children h' 2 (insert_kid (20, s, e) demo_kids).
Proof.
  destruct (allocate_resource_spec round_up demo_heap demo_live 2 20
    (mk_resource 0 0xffffffff IORESOURCE_MEM 0 None None (Some 10))
    (mk_resource 0x2000 0x2fff IORESOURCE_MEM 0 None None None) demo_kids 0x800 0x1000 0xffffffff 0x1000 None
    demo_tree_ok ltac:(in_live) ltac:(in_live) ltac:(by vm_compute) ltac:(by vm_compute) eq_refl eq_refl
    demo_kids_ok ltac:(done) ltac:(by left)) as [Heq|(h' & s & e & Heq & _ & _ & Hle & _ & _ & Hch & _)].
  - exfalso. vm_compute in Heq. discriminate.
  - exists h', s, e. split; [exact Heq|]. split; [exact Hle|exact Hch].
Defined.

(** ** [__adjust_resource] *)

Lemma before_ok h par ks y res p fuel :
  seg h par p (ks ++ [y]) (Some res) -> res ∉ (k_loc <$> (ks ++ [y])) -> (length ks < fuel)%nat ->
  exists c, p = Some c /\ before_loop fuel h c res = Done (k_loc y).
Proof.
  revert p fuel. induction ks as [|x ks IH]; intros p fuel Hseg Hn Hf; (destruct fuel as [|fuel]; [simpl in Hf; lia|]);
    simpl in Hseg; destruct Hseg as (-> & r & Hr & _ & Hseg); eexists; (split; [done|]); simpl; unfold get; rewrite Hr;
    cbn [mbind outcome_bind].
  - rewrite Hseg. by rewrite Z.eqb_refl.
  - destruct (IH (rs_sibling r) fuel Hseg) as (c & Hc & Hrun); [intros Hin; apply Hn; by right|simpl in Hf; lia|].
    rewrite Hc. rewrite (proj2 (Z.eqb_neq c res)); [done|]. intros ->. apply Hn. right.
    destruct ks as [|z ks]; simpl in Hseg; rewrite Hc in Hseg; destruct Hseg as ([= ->] & _); by left.
Qed.

Lemma children_fit_ok h par ks p fuel start end_ :
  seg h par p ks None -> (length ks < fuel)%nat ->
  children_fit fuel h p start end_ = Done (forallb (fun k => (start <=? k_start k) && (k_end k <=? end_)) ks).
Proof.
  revert p fuel. induction ks as [|k ks IH]; intros p fuel Hseg Hf; (destruct fuel as [|fuel]; [simpl in Hf; lia|]);
    simpl in *; [by subst p|].
  destruct Hseg as (-> & r & Hr & (Hs & He & _) & Hseg). unfold get. rewrite Hr. cbn [mbind outcome_bind].
  rewrite Hs, He, Z.gtb_ltb, !Z.leb_antisym.
  destruct (k_start k <? start); simpl; [done|]. destruct (end_ <? k_end k); simpl; [done|].
  apply IH; [done|lia].
Qed.

(** The new range lies in the parent, between the neighbours. *)
Definition slot_allows (rp : resource) (pre post : list kid) (start end_ : Z) : bool :=
  (rs_start rp <=? start) && (end_ <=? rs_end rp) &&
  match post with k :: _ => end_ <? k_start k | [] => true end &&
  match last pre with Some k => k_end k <? start | None => true end.

Lemma siblings_allow_ok h res par rp rr pre k post start end_ :
  h !! par = Some rp -> h !! res = Some rr -> k_loc k = res -> children h par (pre ++ k :: post) ->
  siblings_allow h res par start end_ = Done (slot_allows rp pre post start end_).
Proof.
  intros Hrp Hrr Hk (rp' & Hrp' & Hseg & Hsort). rewrite Hrp in Hrp'. injection Hrp' as <-.
  pose proof (seg_length _ _ _ _ _ _ _ Hseg Hsort) as Hlen. rewrite length_app in Hlen. simpl in Hlen.
  pose proof (seg_sorted_NoDup _ _ _ _ _ _ _ Hseg Hsort) as Hnd.
  rewrite fmap_app, fmap_cons, Hk, NoDup_app in Hnd. destruct Hnd as (_ & Hd & _).
  apply seg_app in Hseg as (m & Hpre & -> & r & Hr & _ & Hpost). rewrite Hk in *. rewrite Hrr in Hr. injection Hr as <-.
  unfold siblings_allow, slot_allows, get. rewrite Hrr, Hrp. cbn [mbind outcome_bind].
  rewrite Z.gtb_ltb, !Z.leb_antisym.
  destruct (start <? rs_start rp); [done|]. destruct (rs_end rp <? end_); [done|]. cbn [orb negb andb].
  assert (Hright : (match rs_sibling rr with None => Done true
      | Some s => rs ← match h !! s with Some r => Done r | None => Panic end; Done (negb (rs_start rs <=? end_)) end)
    = Done (match post with x :: _ => end_ <? k_start x | [] => true end)).
  { destruct post as [|x post]; simpl in Hpost; [by rewrite Hpost|].
    destruct Hpost as (-> & rx & Hrx & (Hsx & _) & _). rewrite Hrx. cbn [mbind outcome_bind].
    by rewrite Hsx, Z.leb_antisym, negb_involutive. }
  unfold get in Hright. rewrite Hright. cbn [mbind outcome_bind].
  destruct (match post with x :: _ => end_ <? k_start x | [] => true end); [|done]. cbn [negb andb].
  destruct pre as [|y pre _] using rev_ind.
  - simpl in Hpre. rewrite bool_decide_true by done. done.
  - rewrite last_snoc. destruct (before_ok h par pre y res (rs_child rp) (walk_fuel h) Hpre) as (c & Hc & Hrun).
    + intros Hx. apply (Hd _ Hx). by left.
    + rewrite length_app in Hlen. simpl in Hlen. unfold walk_fuel. lia.
    + rewrite Hc. apply seg_snoc in Hpre as (Hpre & ry & Hry & (_ & Hey & _) & _).
      assert (Hcr : c <> res).
      { intros ->. apply (Hd res); [|by left]. rewrite fmap_app. destruct pre as [|z pre]; simpl in Hpre; rewrite Hc in Hpre.
        - injection Hpre as ->. by left.
        - destruct Hpre as ([= ->] & _). by left. }
      rewrite bool_decide_false by congruence. rewrite Hrun. cbn [mbind outcome_bind]. rewrite Hry.
      cbn [mbind outcome_bind]. by rewrite Hey, Z.leb_antisym, negb_involutive.
Qed.

Lemma sorted_bounds lo hi start end_ ks : sorted lo hi ks ->
  forallb (fun k => (start <=? k_start k) && (k_end k <=? end_)) ks = true -> sorted start end_ ks.
Proof.
  destruct ks as [|k ks]; [done|]. simpl. intros (_ & H2 & _ & Hs). rewrite !andb_true_iff, !Z.leb_le. intros [[H3 H4] HF].
  split_and!; try done. revert Hs HF. generalize (k_end k + 1) as m. clear. induction ks as [|k ks IH]; intros m; [done|].
  simpl. intros (? & ? & _ & Hs). rewrite !andb_true_iff, !Z.leb_le. intros [[? ?] HF]. split_and!; try done. by apply IH.
Qed.

Lemma slot_allows_sorted rp pre k post start end_ k' :
  sorted (rs_start rp) (rs_end rp) (pre ++ k :: post) -> slot_allows rp pre post start end_ = true ->
  start <= end_ -> k_start k' = start -> k_end k' = end_ -> sorted (rs_start rp) (rs_end rp) (pre ++ k' :: post).
Proof.
  rewrite !sorted_app. intros [Hpre (_ & _ & _ & Hpost)]. unfold slot_allows.
  rewrite !andb_true_iff, !Z.leb_le. intros [[[? ?] Hp] Hl] Hle Hs He. split; [done|]. simpl. rewrite Hs, He.
  split_and!; try lia.
  - destruct (last pre); zb; lia.
  - destruct post as [|x post]; [done|]. zb. simpl in *. destruct Hpost as (? & ? & ? & ?). split_and!; done || lia.
Qed.

(** Adjusting a child of a live resource to a (non-empty, non-wrapping)
    range succeeds exactly when the range lies in the parent, clear of the two
    neighbours, and covers all the children of the resource; the tree with the
    new range is then well formed, and a refusal with -EBUSY changes nothing. *)
Theorem adjust_resource_spec h D res par rr rp pre k post cks start size (end_ := start + size - 1) :
  tree_ok h D -> res ∈ D -> par ∈ D -> par <> res -> h !! res = Some rr -> h !! par = Some rp ->
  k_loc k = res -> children h par (pre ++ k :: post) -> children h res cks ->
  0 <= start -> 0 < size -> start + size <= 2 ^ 64 ->
  if slot_allows rp pre post start end_ && forallb (fun c => (start <=? k_start c) && (k_end c <=? end_)) cks
  then exists h', adjust_resource h res start size = Done (0, h') /\
         children h' par (pre ++ (res, start, end_) :: post) /\ children h' res cks /\ tree_ok h' D
  else adjust_resource h res start size = Done (- EBUSY, h).
Proof.
  intros Htree Hres Hpar Hne Hrr Hrp Hk Hkids Hch H0 Hsz Hmax.
  assert (Hrpar : rs_parent rr = Some par).
  { destruct Hkids as (r & _ & Hseg & _). destruct (seg_parent _ _ _ _ _ Hseg k) as (rk & Hrk & Hp).
    - apply elem_of_app. right. by left.
    - rewrite Hk, Hrr in Hrk. congruence. }
  unfold adjust_resource, __adjust_resource. unfold get at 1 2. rewrite Hrr. cbn [mbind outcome_bind]. rewrite Hrpar.
  rewrite (u64_small (start + size - 1)) by (unfold is_u64; lia). fold end_.
  rewrite (siblings_allow_ok h res par rp rr pre k post) by done. cbn [mbind outcome_bind].
  destruct (slot_allows rp pre post start end_) eqn:Hslot; cbn [negb andb]; [|done].
  pose proof Hch as (rr' & Hrr' & Hcseg & Hcsort). rewrite Hrr in Hrr'. injection Hrr' as <-.
  pose proof (seg_length _ _ _ _ _ _ _ Hcseg Hcsort) as Hlen.
  rewrite (children_fit_ok h res cks) by (done || unfold walk_fuel; lia). cbn [mbind outcome_bind].
  destruct (forallb _ cks) eqn:Hfit; cbn [negb]; [|done].
  unfold update, get. rewrite Hrr. cbn [mbind outcome_bind].
  set (rr' := set_range (start, end_) rr). exists (<[res := rr']> h). split; [done|].
  pose proof Hkids as (rp' & Hrp' & Hseg & Hsort). rewrite Hrp in Hrp'. injection Hrp' as <-.
  pose proof (seg_sorted_NoDup _ _ _ _ _ _ _ Hseg Hsort) as Hnd.
  rewrite fmap_app, fmap_cons, Hk, NoDup_app, NoDup_cons in Hnd. destruct Hnd as (_ & Hd & Hnp & _).
  assert (Hfresh : forall l ks, l <> par -> children h l ks -> forall x, x ∈ ks -> k_loc x <> res).
  { intros l ks Hl (rl & _ & Hs & _) x Hx Heq. destruct (seg_parent _ _ _ _ _ Hs x Hx) as (rx & Hrx & Hpx).
    rewrite Heq, Hrr in Hrx. congruence. }
  assert (Hpar' : children (<[res := rr']> h) par (pre ++ (res, start, end_) :: post)).
  { exists rp. rewrite lookup_insert_ne by done. split_and!; [done| |eapply slot_allows_sorted; try done; subst end_; lia].
    apply seg_app in Hseg as (m & Hpre & -> & r & Hr & _ & Hpost). rewrite Hk in *. rewrite Hrr in Hr. injection Hr as <-.
    apply seg_app. exists (Some res). split.
    - apply seg_fresh; [|done]. intros x Hx Heq. apply (Hd res); [|by left]. rewrite <- Heq. by apply list_elem_of_fmap_2.
    - split; [done|]. exists rr'. unfold k_loc at 1. simpl. rewrite lookup_insert_eq. split_and!; [done|done|].
      apply seg_fresh; [|done]. intros x Hx Heq. apply Hnp. rewrite <- Heq. by apply list_elem_of_fmap_2. }
  assert (Hres' : children (<[res := rr']> h) res cks).
  { exists rr'. rewrite lookup_insert_eq. split_and!; [done| |by eapply sorted_bounds].
    apply seg_fresh; [|done]. by apply (Hfresh res). }
  split_and!; [done|done|]. intros l Hl. destruct (decide (l = par)) as [->|Hlp].
  - eexists. split; [exact Hpar'|]. pose proof (children_in_D h D par rp _ Htree Hpar Hrp Hseg) as Hin.
    rewrite Forall_app, Forall_cons in Hin |- *. destruct Hin as (? & _ & ?). by split_and!.
  - destruct (decide (l = res)) as [->|Hlr].
    + exists cks. split; [done|]. by apply (children_in_D h D res rr).
    + destruct (Htree l Hl) as (ks & Hks & Hin). exists ks. split; [|done].
      apply children_fresh; [done|by apply (Hfresh l)|done].
Qed.

Lemma adjust_resource_spec_witness :
  exists h', adjust_resource demo_heap 10 0x1080 0x1000 = Done (0, h') /\
    children h' 2 ([] ++ (10, 0x1080, 0x207f) :: [(12, 0x3000, 0x3fff)]).
Proof.
  pose proof (adjust_resource_spec demo_heap demo_live 10 2
    (mk_resource 0x1000 0x1fff IORESOURCE_MEM 0 (Some 2) (Some 12) (Some 11))
    (mk_resource 0 0xffffffff IORESOURCE_MEM 0 None None (Some 10))
    [] (10, 0x1000, 0x1fff) [(12, 0x3000, 0x3fff)] [(11, 0x1100, 0x11ff)] 0x1080 0x1000
    demo_tree_ok ltac:(in_live) ltac:(in_live) ltac:(done) ltac:(by vm_compute) ltac:(by vm_compute) eq_refl demo_kids_ok) as Hadj.
  destruct Hadj as (h' & Hrun & Hch & _); [|done|done|done|exists h'; split; [exact Hrun|exact Hch]].
  eexists. split; [vm_compute; reflexivity|]. split; [|by vm_compute]. simpl. split; [done|]. cell. done.
Defined.

(** ** [region_intersects] *)
Section Intersects.
Variables (h : heap) (start end_ flags desc : Z).
Hypothesis range_ok : start <= end_.

(** Some child whose [matches] test is [b] overlaps the range. *)
Definition hit_by (b : bool) (ks : list kid) : Prop :=
  exists k r, k ∈ ks /\ h !! k_loc k = Some r /\ matches flags desc r = b /\ overlaps start end_ k.

Definition hits (k : kid) : Z :=
  (if (start >=? k_start k) && (start <=? k_end k) then 1 else 0)
  + (if (end_ >=? k_start k) && (end_ <=? k_end k) then 1 else 0)
  + (if (k_start k >=? start) && (k_end k <=? end_) then 1 else 0).

Lemma hits_pos k : k_start k <= k_end k -> 0 <= hits k /\ (0 < hits k <-> overlaps start end_ k).
Proof.
  intros Hk. unfold hits, overlaps.
  destruct (start >=? k_start k) eqn:H1, (start <=? k_end k) eqn:H2, (end_ >=? k_start k) eqn:H3,
    (end_ <=? k_end k) eqn:H4, (k_start k >=? start) eqn:H5, (k_end k <=? end_) eqn:H6; zb; simpl; lia.
Qed.

Lemma intersects_loop_ok par ks p fuel lo hi type other :
  seg h par p ks None -> sorted lo hi ks -> (length ks < fuel)%nat -> 0 <= type -> 0 <= other ->
  exists type' other', intersects_loop fuel h start end_ flags desc p type other = Done (type', other') /\
    type <= type' /\ other <= other' /\
    (type < type' <-> hit_by true ks) /\ (other < other' <-> hit_by false ks).
Proof.
  revert p fuel lo type other. induction ks as [|k ks IH]; intros p fuel lo type other Hseg Hsort Hf Ht Ho;
    (destruct fuel as [|fuel]; [simpl in Hf; lia|]); simpl in *.
  { subst p. exists type, other. split_and!; [done|lia|lia| |];
      (split; [lia|]); intros (k & r & Hk & _); by apply elem_of_nil in Hk. }
  destruct Hseg as (-> & r & Hr & (Hs & He & _) & Hseg). destruct Hsort as (_ & Hle & _ & Hsort).
  unfold get. rewrite Hr. cbn [mbind outcome_bind]. rewrite Hs, He. fold (hits k).
  destruct (hits_pos k Hle) as [Hh0 Hh]. 
  assert (Hcons : forall b, hit_by b (k :: ks) <-> (matches flags desc r = b /\ overlaps start end_ k) \/ hit_by b ks).
  { intros b. unfold hit_by. split.
    - intros (k' & r' & [->|Hk']%elem_of_cons & Hr' & Hm & Hov); [left; rewrite Hr in Hr'; by simplify_eq|].
      right. by exists k', r'.
    - intros [[Hm Hov]|(k' & r' & Hk' & ?)]; [exists k, r|exists k', r']; (split; [|done]); [by left|by right]. }
  destruct (matches flags desc r) eqn:Hm.
  - destruct (IH (rs_sibling r) fuel _ (type + hits k) other Hseg Hsort ltac:(lia) ltac:(lia) Ho)
      as (t' & o' & -> & ? & ? & Ht' & Ho'). exists t', o'. rewrite !Hcons, <- Ht', <- Ho', <- Hh.
    split_and!; [done|lia|lia| |]; (split; [|intros [[? ?]|?]; try done; lia]); [|by right].
    intros. destruct (Z.eq_dec (hits k) 0); [right|left]; try split; try done; lia.
  - destruct (IH (rs_sibling r) fuel _ type (other + hits k) Hseg Hsort ltac:(lia) Ht ltac:(lia))
      as (t' & o' & -> & ? & ? & Ht' & Ho'). exists t', o'. rewrite !Hcons, <- Ht', <- Ho', <- Hh.
    split_and!; [done|lia|lia| |]; (split; [|intros [[? ?]|?]; try done; lia]); [by right|].
    intros. destruct (Z.eq_dec (hits k) 0); [right|left]; try split; try done; lia.
Qed.
End Intersects.

(** For a non-empty range that does not wrap around, [region_intersects]
    looks at every first-level resource of the iomem tree: REGION_DISJOINT means
    that no resource of the wanted kind overlaps the range, REGION_INTERSECTS
    that one does and no other resource, REGION_MIXED that both do. *)
Theorem region_intersects_spec h ks start size flags desc (end_ := start + size - 1) :
  children h iomem_resource ks -> 0 <= start -> 0 < size -> start + size <= 2 ^ 64 ->
  exists i, region_intersects h start size flags desc = Done i /\
    match i with
    | REGION_DISJOINT => ~ hit_by h start end_ flags desc true ks
    | REGION_INTERSECTS => hit_by h start end_ flags desc true ks /\ ~ hit_by h start end_ flags desc false ks
    | REGION_MIXED => hit_by h start end_ flags desc true ks /\ hit_by h start end_ flags desc false ks
    end.
Proof.
  intros (rr & Hrr & Hseg & Hsort) H0 Hsz Hmax. unfold region_intersects, get. rewrite Hrr. cbn [mbind outcome_bind].
  rewrite (u64_small (start + size - 1)) by (unfold is_u64; lia). fold end_.
  pose proof (seg_length _ _ _ _ _ _ _ Hseg Hsort) as Hlen.
  destruct (intersects_loop_ok h start end_ flags desc ltac:(lia) _ ks _ (walk_fuel h) _ _ 0 0 Hseg Hsort
    ltac:(unfold walk_fuel; lia) ltac:(lia) ltac:(lia)) as (t & o & -> & ? & ? & Ht & Ho). cbn [mbind outcome_bind].
  unfold bool_of. eexists. split; [done|].
  destruct (o =? 0) eqn:Ho0; destruct (t =? 0) eqn:Ht0; zb; simpl; rewrite <- ?Ht, <- ?Ho; lia.
Qed.

Lemma region_intersects_spec_witness :
  exists i, region_intersects demo_heap 0x1800 0x2000 IORESOURCE_MEM IORES_DESC_NONE = Done i /\
    i = REGION_INTERSECTS /\
    hit_by demo_heap 0x1800 0x37ff IORESOURCE_MEM IORES_DESC_NONE true demo_kids.
Proof.
  destruct (region_intersects_spec demo_heap demo_kids 0x1800 0x2000 IORESOURCE_MEM IORES_DESC_NONE)
    as (i & Hrun & Hi); [apply demo_kids_ok|done|done|done|].
  exists i. split; [exact Hrun|]. vm_compute in Hrun. injection Hrun as <-. split; [done|]. apply Hi.
Defined.

(** ** [walk_system_ram_range]

    The return code starts at -1 and keeps that value over a resource that holds
    no whole page, so such a resource at the front ends the walk: the callback
    never sees the pages behind it. *)
Definition ram_heap : heap :=
  list_to_map [(2, mk_resource 0 0xffffffff IORESOURCE_MEM 0 None None (Some 10));
               (10, mk_resource 0x1100 0x11ff (Z.lor IORESOURCE_SYSTEM_RAM IORESOURCE_BUSY) 0 (Some 2) (Some 11) None);
               (11, mk_resource 0x10000 0x1ffff (Z.lor IORESOURCE_SYSTEM_RAM IORESOURCE_BUSY) 0 (Some 2) None None)].

Definition collect (pfn n : Z) (seen : list (Z * Z)) : Z * list (Z * Z) := (0, seen ++ [(pfn, n)]).

Example walk_stops_at_partial_page :
  walk_system_ram_range 12 ram_heap 0 0x100 collect [] = Done (-1, []) /\
  walk_system_ram_range 12 ram_heap 2 0x100 collect [] = Done (0, [(0x10, 0x10)]).
Proof. by vm_compute. Qed.
