(* ===== verification/Bootmem.v ===== *)
(** * bootmem: the bitmap allocator of the first boot phase

    [src/bootmem.c] with the data of [src/bootmem.h].  A node is a
    [bootmem_data]; the array [bootmem_node_data], the ordered list
    [bdata_list] (indices into the array) and the other module-level variables
    are the record [bootmem].  [unsigned long] is 64 bits wide and its
    arithmetic wraps.  A bitmap is the memory at [node_bootmem_map] read as one
    number whose bit [n] is bit [n] of the map; [bdebug], [WARN_ON], kmemleak and
    the clearing of the returned memory are left out.  Pages handed to the buddy
    allocator are the trace [buddy] of the calls of [__free_pages_bootmem]. *)

From S2P Require Import Prelude.

(** What bootmem takes from headers and subsystems that are not part of the
    tree. *)
Class BootArch := {
  PAGE_SHIFT : Z;
  ALIGN : Z -> Z -> Z;
  DIV_ROUND_UP : Z -> Z -> Z;
  PFN_UP : Z -> Z;
  PFN_DOWN : Z -> Z;
  PFN_PHYS : Z -> Z;
  find_next_zero_bit : Z -> Z -> Z -> Z;
  phys_to_virt : Z -> Z;
  pfn_to_page : Z -> Z;
  virt_to_page : Z -> Z;
  mminit_validate_memmodel_limits : Z -> Z -> Z * Z;
  slab_is_available : bool;
  kzalloc : Z -> Z;
  kzalloc_node : Z -> Z -> Z;
  MAX_DMA32_PFN : Z;
}.

Definition BITS_PER_LONG : Z := 64.
Definition BITS_PER_BYTE : Z := 8.
Definition sizeof_long : Z := 8.
Definition EBUSY : Z := 16.
Definition BOOTMEM_DEFAULT : Z := 0.
Definition BOOTMEM_EXCLUSIVE : Z := Z.shiftl 1 0.
Definition ARCH_LOW_ADDRESS_LIMIT : Z := 0xffffffff.

(** ** Bit operations on a map *)
Definition test_bit (nr map : Z) : bool := Z.testbit map nr.
Definition test_and_set_bit (nr map : Z) : bool * Z := (Z.testbit map nr, Z.setbit map nr).
Definition test_and_clear_bit (nr map : Z) : bool * Z := (Z.testbit map nr, Z.clearbit map nr).

(** [map[i]] of an [unsigned long *]. *)
Definition map_word (map i : Z) : Z := u64 (Z.shiftr map (BITS_PER_LONG * i)).

(** A map that is not NULL: its address and its contents. *)
Record bitmap := mk_bitmap { bm_addr : Z; bm_bits : Z }.

Record bootmem_data := mk_bdata {
  node_min_pfn : Z;
  node_low_pfn : Z;
  node_bootmem_map : option bitmap;
  last_end_off : Z;
  hint_idx : Z;
}.

Record pg_data := mk_pgdat { node_id : Z; bdata : nat; pgdat_end_pfn : Z }.

(** A call [__free_pages_bootmem(page, pfn, order)]. *)
Record freed := mk_freed { f_page : Z; f_pfn : Z; f_order : Z }.

Record bootmem := mk_bootmem {
  bootmem_node_data : list bootmem_data;
  bdata_list : list nat;
  max_low_pfn : Z;
  min_low_pfn : Z;
  totalram_pages : Z;
  (** [managed_pages] of every zone of every online node *)
  managed_pages : list (list Z);
  reset_managed_pages_done : bool;
  buddy : list freed;
}.

Definition set_map (m : option bitmap) (b : bootmem_data) : bootmem_data :=
  mk_bdata (node_min_pfn b) (node_low_pfn b) m (last_end_off b) (hint_idx b).
Definition set_hint (h : Z) (b : bootmem_data) : bootmem_data :=
  mk_bdata (node_min_pfn b) (node_low_pfn b) (node_bootmem_map b) (last_end_off b) h.
Definition set_last (o : Z) (b : bootmem_data) : bootmem_data :=
  mk_bdata (node_min_pfn b) (node_low_pfn b) (node_bootmem_map b) o (hint_idx b).
Definition set_bits (m : Z) (b : bootmem_data) : bootmem_data :=
  set_map ((fun bm => mk_bitmap (bm_addr bm) m) <$> node_bootmem_map b) b.

Definition set_nodes (l : list bootmem_data) (s : bootmem) : bootmem :=
  mk_bootmem l (bdata_list s) (max_low_pfn s) (min_low_pfn s) (totalram_pages s)
    (managed_pages s) (reset_managed_pages_done s) (buddy s).
Definition set_list (l : list nat) (s : bootmem) : bootmem :=
  mk_bootmem (bootmem_node_data s) l (max_low_pfn s) (min_low_pfn s) (totalram_pages s)
    (managed_pages s) (reset_managed_pages_done s) (buddy s).
Definition set_limits (mx mn : Z) (s : bootmem) : bootmem :=
  mk_bootmem (bootmem_node_data s) (bdata_list s) mx mn (totalram_pages s)
    (managed_pages s) (reset_managed_pages_done s) (buddy s).
Definition set_totalram (t : Z) (s : bootmem) : bootmem :=
  mk_bootmem (bootmem_node_data s) (bdata_list s) (max_low_pfn s) (min_low_pfn s) t
    (managed_pages s) (reset_managed_pages_done s) (buddy s).
Definition set_managed (m : list (list Z)) (d : bool) (s : bootmem) : bootmem :=
  mk_bootmem (bootmem_node_data s) (bdata_list s) (max_low_pfn s) (min_low_pfn s)
    (totalram_pages s) m d (buddy s).
Definition set_buddy (f : list freed) (s : bootmem) : bootmem :=
  mk_bootmem (bootmem_node_data s) (bdata_list s) (max_low_pfn s) (min_low_pfn s)
    (totalram_pages s) (managed_pages s) (reset_managed_pages_done s) f.

(** A pointer to a node is an index; one past the array is a wild pointer. *)
Definition get_node (s : bootmem) (i : nat) : outcome bootmem_data :=
  match bootmem_node_data s !! i with Some b => Done b | None => Bug end.
Definition put_node (s : bootmem) (i : nat) (b : bootmem_data) : bootmem :=
  set_nodes (<[i := b]> (bootmem_node_data s)) s.

Section Bootmem.
Context `{BootArch}.

Definition PAGE_SIZE : Z := Z.shiftl 1 PAGE_SHIFT.
Definition PAGE_ALIGN (a : Z) : Z := ALIGN a PAGE_SIZE.

Definition bootmap_bytes (pages : Z) : Z :=
  let bytes := DIV_ROUND_UP pages BITS_PER_BYTE in ALIGN bytes sizeof_long.

Definition bootmem_bootmap_pages (pages : Z) : Z :=
  let bytes := bootmap_bytes pages in Z.shiftr (PAGE_ALIGN bytes) PAGE_SHIFT.

(** ** Registration of nodes *)

Fixpoint link_loop (nodes : list bootmem_data) (min : Z) (i : nat) (l : list nat) : list nat :=
  match l with
  | [] => [i]
  | ent :: l' =>
      match nodes !! ent with
      | Some e => if min <? node_min_pfn e then i :: l else ent :: link_loop nodes min i l'
      | None => ent :: link_loop nodes min i l'
      end
  end.
Definition link_bootmem (i : nat) (s : bootmem) : outcome bootmem :=
  b ← get_node s i;
  Done (set_list (link_loop (bootmem_node_data s) (node_min_pfn b) i (bdata_list s)) s).

(** [memset(map, 0xff, mapsize)] leaves the first [8 * mapsize] bits set. *)
Definition init_bootmem_core (i : nat) (mapstart start end_ : Z) (s : bootmem)
  : outcome (Z * bootmem) :=
  let '(start, end_) := mminit_validate_memmodel_limits start end_ in
  b ← get_node s i;
  let mapsize := bootmap_bytes (u64 (end_ - start)) in
  let map := mk_bitmap (phys_to_virt (PFN_PHYS mapstart)) (Z.ones (BITS_PER_BYTE * mapsize)) in
  s ← link_bootmem i (put_node s i (mk_bdata start end_ (Some map) (last_end_off b) (hint_idx b)));
  Done (mapsize, s).

Definition init_bootmem_node (pgdat : pg_data) (freepfn startpfn endpfn : Z) (s : bootmem)
  : outcome (Z * bootmem) :=
  init_bootmem_core (bdata pgdat) freepfn startpfn endpfn s.

(** [NODE_DATA(0)->bdata] is [&bootmem_node_data[0]]. *)
Definition init_bootmem (start pages : Z) (s : bootmem) : outcome (Z * bootmem) :=
  init_bootmem_core 0 start 0 pages (set_limits pages start s).

(** ** Handing pages to the buddy allocator *)

Definition __free_pages_bootmem (page pfn order : Z) (log : list freed) : list freed :=
  log ++ [mk_freed page pfn order].

Fixpoint late_loop (n : nat) (cursor : Z) (s : bootmem) : bootmem :=
  match n with
  | O => s
  | S n =>
      let s := set_buddy (__free_pages_bootmem (pfn_to_page cursor) cursor 0 (buddy s)) s in
      late_loop n (u64 (cursor + 1)) (set_totalram (u64 (totalram_pages s + 1)) s)
  end.
Definition free_bootmem_late (physaddr size : Z) (s : bootmem) : bootmem :=
  let cursor := PFN_UP physaddr in
  let end_ := PFN_DOWN (u64 (physaddr + size)) in
  late_loop (Z.to_nat (end_ - cursor)) cursor s.

(** [while (vec && cur != start)]: [vec] has 64 bits and loses one each turn. *)
Fixpoint free_word (n : nat) (vec cur stop count : Z) (log : list freed) : Z * list freed :=
  match n with
  | O => (count, log)
  | S n =>
      if (vec =? 0) || (cur =? stop) then (count, log)
      else
        let '(count, log) :=
          if bool_of (Z.land vec 1)
          then (u64 (count + 1), __free_pages_bootmem (pfn_to_page cur) cur 0 log)
          else (count, log) in
        free_word n (Z.shiftr vec 1) (u64 (cur + 1)) stop count log
  end.

(** The word of map bits in front of [start], inverted. *)
Definition free_vec (map min start end_ : Z) : Z :=
  let idx := u64 (start - min) in
  let shift := Z.land idx (BITS_PER_LONG - 1) in
  let vec := u64 (Z.lnot (map_word map (idx / BITS_PER_LONG))) in
  if bool_of shift then
    let vec := Z.shiftr vec shift in
    if u64 (end_ - start) >=? BITS_PER_LONG
    then Z.lor vec (u64 (Z.shiftl (u64 (Z.lnot (map_word map (idx / BITS_PER_LONG + 1))))
                                  (BITS_PER_LONG - shift)))
    else vec
  else vec.

Definition IS_ALIGNED (x a : Z) : bool := Z.land x (a - 1) =? 0.

(** [ilog2(BITS_PER_LONG)] is the constant 6. *)
Fixpoint free_all_loop (fuel : nat) (map min start end_ count : Z) (log : list freed)
  : outcome (Z * list freed) :=
  match fuel with
  | O => NoFuel
  | S fuel =>
      if start <? end_ then
        let vec := free_vec map min start end_ in
        if IS_ALIGNED start BITS_PER_LONG && (vec =? 2 ^ 64 - 1) then
          free_all_loop fuel map min (u64 (start + BITS_PER_LONG)) end_
            (u64 (count + BITS_PER_LONG))
            (__free_pages_bootmem (pfn_to_page start) start (Z.log2 BITS_PER_LONG) log)
        else
          let next := ALIGN (u64 (start + 1)) BITS_PER_LONG in
          let '(count, log) := free_word 64 vec start next count log in
          free_all_loop fuel map min next end_ count log
      else Done (count, log)
  end.

(** [while (pages--) __free_pages_bootmem(page++, cur++, 0)]. *)
Fixpoint free_map_pages (n : nat) (page cur : Z) (log : list freed) : list freed :=
  match n with
  | O => log
  | S n => free_map_pages n (page + 1) (u64 (cur + 1)) (__free_pages_bootmem page cur 0 log)
  end.

Definition free_all_bootmem_core (b : bootmem_data) (log : list freed)
  : outcome (Z * bootmem_data * list freed) :=
  match node_bootmem_map b with
  | None => Done (0, b, log)
  | Some map =>
      let min := node_min_pfn b in
      let end_ := node_low_pfn b in
      r ← free_all_loop (S (Z.to_nat (end_ - min))) (bm_bits map) min min end_ 0 log;
      let '(count, log) := r in
      let pages := bootmem_bootmap_pages (u64 (node_low_pfn b - node_min_pfn b)) in
      Done (u64 (count + pages), set_map None b,
            free_map_pages (Z.to_nat pages) (virt_to_page (bm_addr map)) (node_min_pfn b) log)
  end.

Definition reset_node_managed_pages (zones : list Z) : list Z := (fun _ => 0) <$> zones.
Definition reset_all_zones_managed_pages (s : bootmem) : bootmem :=
  if reset_managed_pages_done s then s
  else set_managed (reset_node_managed_pages <$> managed_pages s) true s.

Fixpoint free_all_nodes (l : list nat) (total : Z) (s : bootmem) : outcome (Z * bootmem) :=
  match l with
  | [] => Done (total, s)
  | i :: l =>
      b ← get_node s i;
      r ← free_all_bootmem_core b (buddy s);
      let '(count, b, log) := r in
      free_all_nodes l (u64 (total + count)) (set_buddy log (put_node s i b))
  end.
Definition free_all_bootmem (s : bootmem) : outcome (Z * bootmem) :=
  let s := reset_all_zones_managed_pages s in
  r ← free_all_nodes (bdata_list s) 0 s;
  let '(total_pages, s) := r in
  Done (total_pages, set_totalram (u64 (totalram_pages s + total_pages)) s).

(** ** Marking ranges *)

Fixpoint free_bits (n : nat) (idx map : Z) : outcome Z :=
  match n with
  | O => Done map
  | S n => let '(old, map) := test_and_clear_bit idx map in
           if old then free_bits n (idx + 1) map else Bug
  end.
Definition __free (b : bootmem_data) (sidx eidx : Z) : outcome bootmem_data :=
  match node_bootmem_map b with
  | None => Done b
  | Some map =>
      let b := if hint_idx b >? sidx then set_hint sidx b else b in
      bits ← free_bits (Z.to_nat (eidx - sidx)) sidx (bm_bits map);
      Done (set_bits bits b)
  end.

(** The index at which an exclusive reservation met a reserved page comes back
    with the bits set so far. *)
Fixpoint reserve_bits (n : nat) (idx : Z) (exclusive : bool) (map : Z) : option Z * Z :=
  match n with
  | O => (None, map)
  | S n => let '(old, map) := test_and_set_bit idx map in
           if old && exclusive then (Some idx, map) else reserve_bits n (idx + 1) exclusive map
  end.
Definition __reserve (b : bootmem_data) (sidx eidx flags : Z) : outcome (Z * bootmem_data) :=
  let exclusive := bool_of (Z.land flags BOOTMEM_EXCLUSIVE) in
  match node_bootmem_map b with
  | None => Done (0, b)
  | Some map =>
      let '(hit, bits) := reserve_bits (Z.to_nat (eidx - sidx)) sidx exclusive (bm_bits map) in
      match hit with
      | Some idx => b ← __free (set_bits bits b) sidx idx; Done (- EBUSY, b)
      | None => Done (0, set_bits bits b)
      end
  end.

Definition mark_bootmem_node (b : bootmem_data) (start end_ : Z) (reserve : bool) (flags : Z)
  : outcome (Z * bootmem_data) :=
  _ ← BUG_ON (start <? node_min_pfn b);
  _ ← BUG_ON (end_ >? node_low_pfn b);
  let sidx := u64 (start - node_min_pfn b) in
  let eidx := u64 (end_ - node_min_pfn b) in
  if reserve then __reserve b sidx eidx flags
  else (b ← __free b sidx eidx; Done (0, b)).

(** The recursive call of [mark_bootmem] frees, and a call that frees does not
    recurse: [undo] is that call. *)
Fixpoint mark_loop (undo : Z -> Z -> bootmem -> outcome bootmem) (l : list nat)
    (start pos end_ : Z) (reserve : bool) (flags : Z) (s : bootmem) : outcome (Z * bootmem) :=
  match l with
  | [] => Bug
  | i :: l =>
      b ← get_node s i;
      if (pos <? node_min_pfn b) || (pos >=? node_low_pfn b) then
        _ ← BUG_ON (negb (pos =? start));
        mark_loop undo l start pos end_ reserve flags s
      else
        let max := Z.min (node_low_pfn b) end_ in
        r ← mark_bootmem_node b pos max reserve flags;
        let '(err, b') := r in
        let s := put_node s i b' in
        if reserve && bool_of err then (s ← undo start pos s; Done (err, s))
        else if max =? end_ then Done (0, s)
        else mark_loop undo l start (node_low_pfn b) end_ reserve flags s
  end.
Definition mark_undo (start end_ : Z) (s : bootmem) : outcome bootmem :=
  r ← mark_loop (fun _ _ s => Done s) (bdata_list s) start start end_ false 0 s; Done r.2.
Definition mark_bootmem (start end_ : Z) (reserve : bool) (flags : Z) (s : bootmem)
  : outcome (Z * bootmem) :=
  mark_loop mark_undo (bdata_list s) start start end_ reserve flags s.

Definition on_node (i : nat) (f : bootmem_data -> outcome (Z * bootmem_data)) (s : bootmem)
  : outcome (Z * bootmem) :=
  b ← get_node s i; r ← f b; Done (r.1, put_node s i r.2).

Definition free_bootmem_node (pgdat : pg_data) (physaddr size : Z) (s : bootmem) : outcome bootmem :=
  let start := PFN_UP physaddr in
  let end_ := PFN_DOWN (u64 (physaddr + size)) in
  r ← on_node (bdata pgdat) (fun b => mark_bootmem_node b start end_ false 0) s; Done r.2.
Definition free_bootmem (physaddr size : Z) (s : bootmem) : outcome bootmem :=
  let start := PFN_UP physaddr in
  let end_ := PFN_DOWN (u64 (physaddr + size)) in
  r ← mark_bootmem start end_ false 0 s; Done r.2.
Definition reserve_bootmem_node (pgdat : pg_data) (physaddr size flags : Z) (s : bootmem)
  : outcome (Z * bootmem) :=
  let start := PFN_DOWN physaddr in
  let end_ := PFN_UP (u64 (physaddr + size)) in
  on_node (bdata pgdat) (fun b => mark_bootmem_node b start end_ true flags) s.
Definition reserve_bootmem (addr size flags : Z) (s : bootmem) : outcome (Z * bootmem) :=
  let start := PFN_DOWN addr in
  let end_ := PFN_UP (u64 (addr + size)) in
  mark_bootmem start end_ true flags s.

(** ** Allocation from one node *)

Definition align_idx (b : bootmem_data) (idx step : Z) : Z :=
  let base := node_min_pfn b in u64 (ALIGN (u64 (base + idx)) step - base).
Definition align_off (b : bootmem_data) (off align : Z) : Z :=
  let base := PFN_PHYS (node_min_pfn b) in u64 (ALIGN (u64 (base + off)) align - base).

(** The first reserved page among [n] pages from [i]. *)
Fixpoint first_set (n : nat) (i map : Z) : option Z :=
  match n with
  | O => None
  | S n => if test_bit i map then Some i else first_set n (i + 1) map
  end.

(** The search from the label [find_block]; every turn moves [sidx] up. *)
Fixpoint find_block (fuel : nat) (b : bootmem_data) (map size step midx sidx : Z)
  : outcome (option Z) :=
  match fuel with
  | O => NoFuel
  | S fuel =>
      let sidx := find_next_zero_bit map midx sidx in
      let sidx := align_idx b sidx step in
      let eidx := u64 (sidx + PFN_UP size) in
      if (sidx >=? midx) || (eidx >? midx) then Done None
      else
        match first_set (Z.to_nat (eidx - sidx)) sidx map with
        | Some i =>
            let sidx := align_idx b i step in
            let sidx := if sidx =? i then u64 (sidx + step) else sidx in
            find_block fuel b map size step midx sidx
        | None => Done (Some sidx)
        end
  end.

(** The pages from [sidx] on are free: take them, and the tail of the page of
    the last allocation when it ends just before them. *)
Definition take_block (b : bootmem_data) (size align sidx : Z) : outcome (Z * bootmem_data) :=
  let start_off :=
    if bool_of (Z.land (last_end_off b) (PAGE_SIZE - 1)) &&
       (u64 (PFN_DOWN (last_end_off b) + 1) =? sidx)
    then align_off b (last_end_off b) align
    else PFN_PHYS sidx in
  let merge := Z.b2z (PFN_DOWN start_off <? sidx) in
  let end_off := u64 (start_off + size) in
  let b := set_hint (PFN_UP end_off) (set_last end_off b) in
  r ← __reserve b (u64 (PFN_DOWN start_off + merge)) (PFN_UP end_off) BOOTMEM_EXCLUSIVE;
  let '(err, b) := r in
  _ ← BUG_ON (bool_of err);
  Done (phys_to_virt (u64 (PFN_PHYS (node_min_pfn b) + start_off)), b).

Definition alloc_bootmem_bdata (b : bootmem_data) (size align goal limit : Z)
  : outcome (Z * bootmem_data) :=
  _ ← BUG_ON (size =? 0);
  _ ← BUG_ON (bool_of (Z.land align (u64 (align - 1))));
  _ ← BUG_ON (bool_of limit && (u64 (goal + size) >? limit));
  match node_bootmem_map b with
  | None => Done (0, b)
  | Some bm =>
      let map := bm_bits bm in
      let min := node_min_pfn b in
      let max := node_low_pfn b in
      let goal := Z.shiftr goal PAGE_SHIFT in
      let limit := Z.shiftr limit PAGE_SHIFT in
      let max := if bool_of limit && (max >? limit) then limit else max in
      if max <=? min then Done (0, b)
      else
        let step := Z.max (Z.shiftr align PAGE_SHIFT) 1 in
        let start := if bool_of goal && (min <? goal) && (goal <? max)
                     then ALIGN goal step else ALIGN min step in
        let sidx := u64 (start - node_min_pfn b) in
        let midx := u64 (max - node_min_pfn b) in
        let '(fallback, sidx) :=
          if hint_idx b >? sidx
          then (u64 (sidx + 1), align_idx b (hint_idx b) step) else (0, sidx) in
        let fuel := S (S (Z.to_nat midx)) in
        r ← find_block fuel b map size step midx sidx;
        match r with
        | Some sidx => take_block b size align sidx
        | None =>
            if bool_of fallback then
              r ← find_block fuel b map size step midx (align_idx b (u64 (fallback - 1)) step);
              match r with
              | Some sidx => take_block b size align sidx
              | None => Done (0, b)
              end
            else Done (0, b)
        end
  end.

(** ** Allocation from any node *)

Fixpoint core_loop (l : list nat) (size align goal limit : Z) (s : bootmem)
  : outcome (Z * bootmem) :=
  match l with
  | [] => Done (0, s)
  | i :: l =>
      b ← get_node s i;
      if bool_of goal && (node_low_pfn b <=? PFN_DOWN goal) then core_loop l size align goal limit s
      else if bool_of limit && (node_min_pfn b >=? PFN_DOWN limit) then Done (0, s)
      else
        r ← alloc_bootmem_bdata b size align goal limit;
        let '(region, b) := r in
        if bool_of region then Done (region, put_node s i b)
        else core_loop l size align goal limit (put_node s i b)
  end.
Definition alloc_bootmem_core (size align goal limit : Z) (s : bootmem) : outcome (Z * bootmem) :=
  if slab_is_available then Done (kzalloc size, s)
  else core_loop (bdata_list s) size align goal limit s.

Definition ___alloc_bootmem_nopanic (size align goal limit : Z) (s : bootmem)
  : outcome (Z * bootmem) :=
  r ← alloc_bootmem_core size align goal limit s;
  let '(ptr, s) := r in
  if bool_of ptr then Done (ptr, s)
  else if bool_of goal then alloc_bootmem_core size align 0 limit s
  else Done (0, s).

Definition __alloc_bootmem_nopanic (size align goal : Z) (s : bootmem) : outcome (Z * bootmem) :=
  ___alloc_bootmem_nopanic size align goal 0 s.

Definition ___alloc_bootmem (size align goal limit : Z) (s : bootmem) : outcome (Z * bootmem) :=
  r ← ___alloc_bootmem_nopanic size align goal limit s;
  if bool_of r.1 then Done r else Panic.

Definition __alloc_bootmem (size align goal : Z) (s : bootmem) : outcome (Z * bootmem) :=
  ___alloc_bootmem size align goal 0 s.

(** One turn of the loop at the label [again]; the limit it drops stays
    dropped. *)
Definition node_turn (pgdat : pg_data) (size align goal limit : Z) (s : bootmem)
  : outcome (Z * bootmem) :=
  r ← on_node (bdata pgdat) (fun b => alloc_bootmem_bdata b size align goal limit) s;
  let '(ptr, s) := r in
  if bool_of ptr then Done (ptr, s) else alloc_bootmem_core size align goal limit s.
Definition node_limit (size goal limit : Z) : Z :=
  if bool_of limit && (u64 (goal + size) >? limit) then 0 else limit.

Definition ___alloc_bootmem_node_nopanic (pgdat : pg_data) (size align goal limit : Z) (s : bootmem)
  : outcome (Z * bootmem) :=
  if slab_is_available then Done (kzalloc_node size (node_id pgdat), s)
  else
    let limit := node_limit size goal limit in
    r ← node_turn pgdat size align goal limit s;
    let '(ptr, s) := r in
    if bool_of ptr then Done (ptr, s)
    else if bool_of goal then
      let limit := node_limit size 0 limit in
      node_turn pgdat size align 0 limit s
    else Done (0, s).

Definition __alloc_bootmem_node_nopanic (pgdat : pg_data) (size align goal : Z) (s : bootmem)
  : outcome (Z * bootmem) :=
  ___alloc_bootmem_node_nopanic pgdat size align goal 0 s.

(** The limit is an argument of the function that its body does not use. *)
Definition ___alloc_bootmem_node (pgdat : pg_data) (size align goal limit : Z) (s : bootmem)
  : outcome (Z * bootmem) :=
  r ← ___alloc_bootmem_node_nopanic pgdat size align goal 0 s;
  if bool_of r.1 then Done r else Panic.

Definition __alloc_bootmem_node (pgdat : pg_data) (size align goal : Z) (s : bootmem)
  : outcome (Z * bootmem) :=
  if slab_is_available then Done (kzalloc_node size (node_id pgdat), s)
  else ___alloc_bootmem_node pgdat size align goal 0 s.

(** MAX_DMA32_PFN is defined, as on 64-bit x86. *)
Definition __alloc_bootmem_node_high (pgdat : pg_data) (size align goal : Z) (s : bootmem)
  : outcome (Z * bootmem) :=
  if slab_is_available then Done (kzalloc_node size (node_id pgdat), s)
  else
    let end_pfn := pgdat_end_pfn pgdat in
    if (end_pfn >? u64 (MAX_DMA32_PFN + Z.shiftr 128 (20 - PAGE_SHIFT))) &&
       (Z.shiftr goal PAGE_SHIFT <? MAX_DMA32_PFN)
    then
      let new_goal := u64 (Z.shiftl MAX_DMA32_PFN PAGE_SHIFT) in
      r ← on_node (bdata pgdat) (fun b => alloc_bootmem_bdata b size align new_goal 0) s;
      let '(ptr, s) := r in
      if bool_of ptr then Done (ptr, s) else __alloc_bootmem_node pgdat size align goal s
    else __alloc_bootmem_node pgdat size align goal s.

Definition __alloc_bootmem_low (size align goal : Z) (s : bootmem) : outcome (Z * bootmem) :=
  ___alloc_bootmem size align goal ARCH_LOW_ADDRESS_LIMIT s.

Definition __alloc_bootmem_low_nopanic (size align goal : Z) (s : bootmem) : outcome (Z * bootmem) :=
  ___alloc_bootmem_nopanic size align goal ARCH_LOW_ADDRESS_LIMIT s.

Definition __alloc_bootmem_low_node (pgdat : pg_data) (size align goal : Z) (s : bootmem)
  : outcome (Z * bootmem) :=
  if slab_is_available then Done (kzalloc_node size (node_id pgdat), s)
  else ___alloc_bootmem_node pgdat size align goal ARCH_LOW_ADDRESS_LIMIT s.

End Bootmem.

(** What bootmem relies on: the rounding macros on arguments for which they do
    not overflow, the bit search, and a linear map of 64 TB that does not
    reach NULL. *)
Class BootArchSpec `{BootArch} : Prop := {
  page_shift_range : 0 <= PAGE_SHIFT <= 20;
  ALIGN_spec x k : 0 <= x -> 0 <= k < 64 -> x + 2 ^ k - 1 < 2 ^ 64 ->
    ALIGN x (2 ^ k) = 2 ^ k * ((x + 2 ^ k - 1) / 2 ^ k);
  DIV_ROUND_UP_spec n d : 0 <= n -> 0 < d -> n + d - 1 < 2 ^ 64 ->
    DIV_ROUND_UP n d = (n + d - 1) / d;
  PFN_DOWN_spec x : is_u64 x -> PFN_DOWN x = x / PAGE_SIZE;
  PFN_UP_spec x : 0 <= x -> x + PAGE_SIZE - 1 < 2 ^ 64 ->
    PFN_UP x = (x + PAGE_SIZE - 1) / PAGE_SIZE;
  PFN_PHYS_spec x : 0 <= x -> x * PAGE_SIZE < 2 ^ 64 -> PFN_PHYS x = x * PAGE_SIZE;
  find_next_zero_bit_spec map size off : 0 <= off < size ->
    off <= find_next_zero_bit map size off <= size /\
    (forall i, off <= i < find_next_zero_bit map size off -> Z.testbit map i = true) /\
    (find_next_zero_bit map size off < size ->
       Z.testbit map (find_next_zero_bit map size off) = false);
  find_next_zero_bit_end map size off : size <= off -> find_next_zero_bit map size off = size;
  phys_to_virt_inj pa pb : 0 <= pa < 2 ^ 46 -> 0 <= pb < 2 ^ 46 ->
    phys_to_virt pa = phys_to_virt pb -> pa = pb;
  phys_to_virt_nonnull pa : 0 <= pa < 2 ^ 46 -> phys_to_virt pa <> 0;
}.
