(* ===== verification/BootmemMark.v ===== *)
(** * bootmem: marking ranges of pages

    The loops of [__free] and [__reserve] as operations on sets of bits, what
    [mark_bootmem] does to the pages of one node and of neighbouring nodes, and
    the order of the list of nodes. *)

From S2P Require Import Prelude Bootmem.

(** ** Ranges of bits *)

Definition set_range (map s e : Z) : Z := Z.lor map (Z.shiftl (Z.ones (e - s)) s).
Definition clear_range (map s e : Z) : Z := Z.ldiff map (Z.shiftl (Z.ones (e - s)) s).

Lemma range_testbit s e i :
  0 <= s <= e -> 0 <= i -> Z.testbit (Z.shiftl (Z.ones (e - s)) s) i = in_range s e i.
Proof.
  intros Hs Hi. unfold in_range. rewrite Z.shiftl_spec by done.
  destruct (Z.leb_spec s i); simpl.
  - rewrite Z.testbit_ones_nonneg by lia.
    destruct (Z.ltb_spec (i - s) (e - s)), (Z.ltb_spec i e); lia || done.
  - apply Z.testbit_neg_r. lia.
Qed.

Lemma set_range_bit map s e i :
  0 <= s <= e -> 0 <= i -> Z.testbit (set_range map s e) i = Z.testbit map i || in_range s e i.
Proof. intros. unfold set_range. by rewrite Z.lor_spec, range_testbit. Qed.

Lemma clear_range_bit map s e i :
  0 <= s <= e -> 0 <= i ->
  Z.testbit (clear_range map s e) i = Z.testbit map i && negb (in_range s e i).
Proof. intros. unfold clear_range. by rewrite Z.ldiff_spec, range_testbit. Qed.

(** Splits on the membership of every bit in every range of the goal. *)
Ltac ranges :=
  repeat match goal with
  | |- context [in_range ?s ?e ?i] =>
      let H := fresh "Hr" in
      destruct (in_range s e i) eqn:H;
      [apply in_range_true in H | apply in_range_false in H]
  | H : context [in_range ?s ?e ?i] |- _ =>
      let H1 := fresh "Hr" in
      destruct (in_range s e i) eqn:H1;
      [apply in_range_true in H1 | apply in_range_false in H1]
  end; simpl; try lia.

Lemma range_empty map s : set_range map s s = map /\ clear_range map s s = map.
Proof.
  unfold set_range, clear_range. rewrite Z.sub_diag.
  change (Z.ones 0) with 0. rewrite Z.shiftl_0_l. by rewrite Z.lor_0_r, Z.ldiff_0_r.
Qed.

(** All pages of a range are free, or all reserved. *)
Definition all_clear (map s e : Z) : Prop := forall i, s <= i < e -> Z.testbit map i = false.
Definition all_set (map s e : Z) : Prop := forall i, s <= i < e -> Z.testbit map i = true.

Lemma clear_set_range map s e :
  0 <= s <= e -> all_clear map s e -> clear_range (set_range map s e) s e = map.
Proof.
  intros Hs Hc. apply Z.bits_inj'. intros i Hi.
  rewrite clear_range_bit, set_range_bit by lia.
  ranges; [by rewrite Hc | by rewrite orb_false_r, andb_true_r].
Qed.

Lemma set_clear_range map s e :
  0 <= s <= e -> all_set map s e -> set_range (clear_range map s e) s e = map.
Proof.
  intros Hs Hc. apply Z.bits_inj'. intros i Hi.
  rewrite set_range_bit, clear_range_bit by lia.
  ranges; [by rewrite Hc | by rewrite andb_true_r, orb_false_r].
Qed.

Lemma free_bits_step map s e :
  0 <= s < e -> clear_range (Z.clearbit map s) (s + 1) e = clear_range map s e.
Proof.
  intros Hs. apply Z.bits_inj'. intros i Hi.
  rewrite !clear_range_bit, Z.clearbit_eqb by lia.
  destruct (Z.eqb_spec s i) as [->|]; ranges; rewrite ?andb_false_r, ?andb_true_r; try done; lia.
Qed.

Lemma set_bits_step map s e :
  0 <= s < e -> set_range (Z.setbit map s) (s + 1) e = set_range map s e.
Proof.
  intros Hs. apply Z.bits_inj'. intros i Hi.
  rewrite !set_range_bit, Z.setbit_eqb by lia.
  destruct (Z.eqb_spec s i) as [->|]; ranges; rewrite ?orb_true_r, ?orb_false_r; try done; lia.
Qed.

(** ** The loops *)

Lemma free_bits_ok n : forall s map,
  0 <= s -> all_set map s (s + Z.of_nat n) ->
  free_bits n s map = Done (clear_range map s (s + Z.of_nat n)).
Proof.
  induction n as [|n IH]; intros s map Hs Ha.
  - rewrite Z.add_0_r. cbn [free_bits]. by rewrite (proj2 (range_empty map s)).
  - cbn [free_bits test_and_clear_bit]. rewrite (Ha s) by lia.
    replace (s + Z.of_nat (S n)) with ((s + 1) + Z.of_nat n) by lia.
    rewrite IH; [by rewrite free_bits_step by lia | lia |].
    intros i Hi. rewrite Z.clearbit_neq by lia. apply Ha. lia.
Qed.

Lemma free_bits_bug n : forall s map i,
  0 <= s -> s <= i < s + Z.of_nat n -> Z.testbit map i = false -> free_bits n s map = Bug.
Proof.
  induction n as [|n IH]; intros s map i Hs Hi Hb; [lia|].
  cbn [free_bits test_and_clear_bit].
  destruct (Z.eq_dec s i) as [->|]; [by rewrite Hb|].
  destruct (Z.testbit map s); [|done].
  apply (IH _ _ i); [lia|lia|]. by rewrite Z.clearbit_neq by lia.
Qed.

Lemma reserve_bits_shared n : forall s map,
  0 <= s -> reserve_bits n s false map = (None, set_range map s (s + Z.of_nat n)).
Proof.
  induction n as [|n IH]; intros s map Hs.
  - rewrite Z.add_0_r. cbn [reserve_bits]. by rewrite (proj1 (range_empty map s)).
  - cbn [reserve_bits test_and_set_bit]. rewrite andb_false_r.
    replace (s + Z.of_nat (S n)) with ((s + 1) + Z.of_nat n) by lia.
    rewrite IH by lia. by rewrite set_bits_step by lia.
Qed.

Lemma reserve_bits_exclusive n : forall s map, 0 <= s ->
  all_clear map s (s + Z.of_nat n) /\
    reserve_bits n s true map = (None, set_range map s (s + Z.of_nat n)) \/
  exists i, s <= i < s + Z.of_nat n /\ all_clear map s i /\ Z.testbit map i = true /\
    reserve_bits n s true map = (Some i, set_range map s i).
Proof.
  induction n as [|n IH]; intros s map Hs.
  - left. rewrite Z.add_0_r. cbn [reserve_bits]. rewrite (proj1 (range_empty map s)).
    split; [|done]. intros i Hi. lia.
  - cbn [reserve_bits test_and_set_bit]. destruct (Z.testbit map s) eqn:Hb; cbn [andb].
    + right. exists s. split_and!; [lia|lia|intros i Hi; lia|done|].
      f_equal. rewrite (proj1 (range_empty map s)). apply Z.bits_inj'. intros i Hi.
      rewrite Z.setbit_eqb by lia. destruct (Z.eqb_spec s i) as [->|]; simpl; [by rewrite Hb|done].
    + destruct (IH (s + 1) (Z.setbit map s)) as [[Hc Hr]|(i & Hi & Hc & Hs1 & Hr)]; [lia| |].
      * left. split.
        -- intros i Hi. destruct (Z.eq_dec i s) as [->|]; [done|].
           rewrite <- (Hc i) by lia. by rewrite Z.setbit_neq by lia.
        -- rewrite Hr. f_equal. rewrite set_bits_step by lia. f_equal. lia.
      * right. exists i. split_and!; [lia|lia| | |].
        -- intros j Hj. destruct (Z.eq_dec j s) as [->|]; [done|].
           rewrite <- (Hc j) by lia. by rewrite Z.setbit_neq by lia.
        -- by rewrite Z.setbit_neq in Hs1 by lia.
        -- rewrite Hr. by rewrite set_bits_step by lia.
Qed.

(** ** One node *)

Lemma set_bits_same b bm :
  node_bootmem_map b = Some bm -> set_bits (bm_bits bm) b = b.
Proof. intros Hm. destruct b, bm. unfold set_bits, set_map. simpl in *. by rewrite Hm. Qed.

Lemma set_bits_twice m1 m2 b : set_bits m1 (set_bits m2 b) = set_bits m1 b.
Proof. unfold set_bits, set_map. simpl. by destruct (node_bootmem_map b). Qed.

Lemma __free_ok b bm s e :
  node_bootmem_map b = Some bm -> 0 <= s <= e -> all_set (bm_bits bm) s e ->
  __free b s e = Done (set_bits (clear_range (bm_bits bm) s e) (set_hint (Z.min (hint_idx b) s) b)).
Proof.
  intros Hm Hs Ha. unfold __free. rewrite Hm.
  rewrite free_bits_ok; rewrite ?Z2Nat.id by lia; [|lia|by replace (s + (e - s)) with e by lia].
  replace (s + (e - s)) with e by lia. cbn [mbind outcome_bind]. do 2 f_equal.
  destruct (Z.gtb_spec (hint_idx b) s); destruct b; unfold set_hint; simpl in *; f_equal; lia.
Qed.

Lemma __free_bug b bm s e i :
  node_bootmem_map b = Some bm -> 0 <= s -> s <= i < e -> Z.testbit (bm_bits bm) i = false ->
  __free b s e = Bug.
Proof.
  intros Hm Hs Hi Hb. unfold __free. rewrite Hm.
  rewrite (free_bits_bug _ _ _ i); [done|lia|lia|done].
Qed.

Lemma __reserve_shared b bm s e flags :
  node_bootmem_map b = Some bm -> 0 <= s <= e -> bool_of (Z.land flags BOOTMEM_EXCLUSIVE) = false ->
  __reserve b s e flags = Done (0, set_bits (set_range (bm_bits bm) s e) b).
Proof.
  intros Hm Hs Hf. unfold __reserve. rewrite Hm, Hf, reserve_bits_shared by lia.
  by replace (s + Z.of_nat (Z.to_nat (e - s))) with e by lia.
Qed.

Lemma __reserve_exclusive b bm s e flags :
  node_bootmem_map b = Some bm -> 0 <= s <= e -> bool_of (Z.land flags BOOTMEM_EXCLUSIVE) = true ->
  all_clear (bm_bits bm) s e /\
    __reserve b s e flags = Done (0, set_bits (set_range (bm_bits bm) s e) b) \/
  (exists i, s <= i < e /\ Z.testbit (bm_bits bm) i = true) /\
    __reserve b s e flags = Done (- EBUSY, set_hint (Z.min (hint_idx b) s) b).
Proof.
  intros Hm Hs Hf. unfold __reserve. rewrite Hm, Hf.
  destruct (reserve_bits_exclusive (Z.to_nat (e - s)) s (bm_bits bm)) as [[Hc Hr]|(i & Hi & Hc & Hb & Hr)];
    [lia| |]; rewrite Hr.
  - left. replace (s + Z.of_nat (Z.to_nat (e - s))) with e in * by lia. done.
  - right. split; [exists i; split; [lia|done]|].
    rewrite (__free_ok _ (mk_bitmap (bm_addr bm) (set_range (bm_bits bm) s i))).
    + cbn [mbind outcome_bind bm_bits]. rewrite clear_set_range by (done || lia).
      do 2 f_equal. unfold set_bits, set_hint, set_map; simpl. rewrite Hm. simpl. by destruct bm.
    + unfold set_bits. simpl. by rewrite Hm.
    + lia.
    + intros j Hj. cbn [bm_bits]. rewrite set_range_bit by lia. ranges.
Qed.

Lemma all_set_dec map s e : all_set map s e \/ exists i, s <= i < e /\ Z.testbit map i = false.
Proof.
  destruct (decide (Forall (fun i => Z.testbit map i = true) (seqZ s (e - s)))) as [Ha|Ha].
  - left. rewrite Forall_seqZ in Ha. intros i Hi. apply Ha. lia.
  - right. apply not_Forall_Exists in Ha; [|apply _].
    apply list.Exists_exists in Ha as (i & Hi & Hb). apply elem_of_seqZ in Hi.
    exists i. split; [lia|]. by apply not_true_is_false.
Qed.

Lemma set_hint_same b : set_hint (hint_idx b) b = b.
Proof. by destruct b. Qed.

(** A reservation that returned set bits and moved the hint down; a free that
    returned cleared bits that were set. *)
Lemma __reserve_Done b bm s e flags err b' :
  node_bootmem_map b = Some bm -> 0 <= s <= e -> 0 <= hint_idx b ->
  __reserve b s e flags = Done (err, b') ->
  exists bits' h, b' = set_bits bits' (set_hint h b) /\ 0 <= h <= hint_idx b /\
    forall i, 0 <= i -> Z.testbit (bm_bits bm) i = true -> Z.testbit bits' i = true.
Proof.
  intros Hm Hs Hh. assert (Hset : forall i, 0 <= i -> Z.testbit (bm_bits bm) i = true ->
    Z.testbit (set_range (bm_bits bm) s e) i = true).
  { intros i Hi Hb. by rewrite set_range_bit, Hb by done. }
  assert (Hdone : exists bits' h, set_bits (set_range (bm_bits bm) s e) b = set_bits bits' (set_hint h b) /\
    0 <= h <= hint_idx b /\ forall i, 0 <= i -> Z.testbit (bm_bits bm) i = true -> Z.testbit bits' i = true).
  { exists (set_range (bm_bits bm) s e), (hint_idx b). rewrite set_hint_same. split_and!; [done|lia|lia|done]. }
  destruct (bool_of (Z.land flags BOOTMEM_EXCLUSIVE)) eqn:Hf.
  - destruct (__reserve_exclusive b bm s e flags Hm Hs Hf) as [[_ ->]|[_ ->]]; intros [= _ <-]; [done|].
    exists (bm_bits bm), (Z.min (hint_idx b) s).
    rewrite (set_bits_same (set_hint _ b)) by done. split_and!; [done|lia|lia|done].
  - rewrite (__reserve_shared b bm) by done. intros [= _ <-]. done.
Qed.

Lemma __free_Done b bm s e b' :
  node_bootmem_map b = Some bm -> 0 <= s <= e -> __free b s e = Done b' ->
  all_set (bm_bits bm) s e /\
  b' = set_bits (clear_range (bm_bits bm) s e) (set_hint (Z.min (hint_idx b) s) b).
Proof.
  intros Hm Hs. destruct (all_set_dec (bm_bits bm) s e) as [Ha|(i & Hi & Hb)].
  - rewrite (__free_ok b bm) by done. by intros [= <-].
  - by rewrite (__free_bug b bm s e i) by (done || lia).
Qed.

(** A registered node: a range of pages that is not empty, and a map. *)
Definition node_ok (b : bootmem_data) : Prop :=
  0 <= node_min_pfn b < node_low_pfn b /\ node_low_pfn b < 2 ^ 64 /\ is_Some (node_bootmem_map b).

(** Whether a page of the node is reserved. *)
Definition page_of (b : bootmem_data) (p : Z) : option bool :=
  match node_bootmem_map b with
  | Some bm => if in_range (node_min_pfn b) (node_low_pfn b) p
               then Some (Z.testbit (bm_bits bm) (p - node_min_pfn b)) else None
  | None => None
  end.

Lemma page_of_Some b p v :
  page_of b p = Some v -> node_min_pfn b <= p < node_low_pfn b.
Proof. unfold page_of. destruct (node_bootmem_map b); [|done]. ranges; done. Qed.

Lemma page_of_in b p :
  node_ok b -> node_min_pfn b <= p < node_low_pfn b -> is_Some (page_of b p).
Proof. intros (_ & _ & [bm Hm]) Hp. unfold page_of. rewrite Hm. ranges. done. Qed.

(** The two nodes have the same extent and both have a map. *)
Definition same_node (b b' : bootmem_data) : Prop :=
  node_min_pfn b' = node_min_pfn b /\ node_low_pfn b' = node_low_pfn b /\
  (is_Some (node_bootmem_map b) -> is_Some (node_bootmem_map b')).

(** Whether a page that is (not) reserved may be marked: freeing wants it
    reserved, an exclusive reservation wants it free. *)
Definition allowed (reserve exclusive v : bool) : bool :=
  if reserve then negb exclusive || negb v else v.

Lemma page_of_bit b bm p :
  node_bootmem_map b = Some bm -> node_min_pfn b <= p < node_low_pfn b ->
  page_of b p = Some (Z.testbit (bm_bits bm) (p - node_min_pfn b)).
Proof. intros Hm Hp. unfold page_of. rewrite Hm. ranges. done. Qed.

Lemma same_node_set_bits b m : same_node b (set_bits m b).
Proof. split_and!; [done..|]. intros [bm Hm]. unfold set_bits. simpl. rewrite Hm. by eexists. Qed.

Lemma same_node_set_hint b h : same_node b (set_hint h b).
Proof. by split_and!. Qed.

(** Setting or clearing a range of bits marks that range of pages. *)
Lemma page_of_mark b bm start end_ (reserve : bool) :
  node_bootmem_map b = Some bm -> node_min_pfn b <= start <= end_ -> end_ <= node_low_pfn b ->
  forall p, page_of (set_bits ((if reserve then set_range else clear_range) (bm_bits bm)
                         (start - node_min_pfn b) (end_ - node_min_pfn b)) b) p =
            if in_range start end_ p then Some reserve else page_of b p.
Proof.
  intros Hm Hs He p. unfold page_of, set_bits. simpl. rewrite Hm. simpl.
  ranges; try done; f_equal; destruct reserve;
    rewrite ?set_range_bit, ?clear_range_bit by lia; ranges;
    by rewrite ?orb_true_r, ?orb_false_r, ?andb_false_r, ?andb_true_r.
Qed.

(** Either every bit of the range may be marked, or a first one may not. *)
Lemma bits_cases b bm start end_ reserve ex :
  node_bootmem_map b = Some bm -> node_min_pfn b <= start <= end_ -> end_ <= node_low_pfn b ->
  (forall p v, start <= p < end_ -> page_of b p = Some v -> allowed reserve ex v = true) /\
    (forall i, start - node_min_pfn b <= i < end_ - node_min_pfn b ->
       allowed reserve ex (Z.testbit (bm_bits bm) i) = true) \/
  exists i, start <= i < end_ /\
    allowed reserve ex (Z.testbit (bm_bits bm) (i - node_min_pfn b)) = false.
Proof.
  intros Hm Hs He.
  destruct (decide (Forall (fun p => allowed reserve ex (Z.testbit (bm_bits bm) (p - node_min_pfn b)) = true)
    (seqZ start (end_ - start)))) as [Ha|Ha].
  - left. rewrite Forall_seqZ in Ha. split.
    + intros p v Hp Hv. rewrite (page_of_bit b bm) in Hv by (done || lia). injection Hv as <-.
      apply Ha. lia.
    + intros i Hi. specialize (Ha (i + node_min_pfn b) ltac:(lia)).
      by replace (i + node_min_pfn b - node_min_pfn b) with i in Ha by lia.
  - right. apply not_Forall_Exists in Ha; [|apply _].
    apply list.Exists_exists in Ha as (i & Hi & Hb). apply elem_of_seqZ in Hi.
    exists i. split; [lia|]. by apply not_true_is_false.
Qed.

(** The answer of [mark_bootmem_node] on each of its branches. *)
Lemma mark_bootmem_node_cases b start end_ reserve flags
    (ex := bool_of (Z.land flags BOOTMEM_EXCLUSIVE)) :
  node_ok b -> node_min_pfn b <= start <= end_ -> end_ <= node_low_pfn b ->
  (forall p v, start <= p < end_ -> page_of b p = Some v -> allowed reserve ex v = true) /\
    (exists b', mark_bootmem_node b start end_ reserve flags = Done (0, b') /\ same_node b b' /\
       forall p, page_of b' p = if in_range start end_ p then Some reserve else page_of b p) \/
  (exists p v, start <= p < end_ /\ page_of b p = Some v /\ allowed reserve ex v = false) /\
    (if reserve
     then exists b', mark_bootmem_node b start end_ reserve flags = Done (- EBUSY, b') /\
            same_node b b' /\ forall p, page_of b' p = page_of b p
     else mark_bootmem_node b start end_ reserve flags = Bug).
Proof.
  intros Hok Hs He. pose proof Hok as (Hmin & Hlow & [bm Hm]).
  unfold mark_bootmem_node.
  destruct (Z.ltb_spec start (node_min_pfn b)); [lia|].
  destruct (Z.gtb_spec end_ (node_low_pfn b)); [lia|]. cbn [mbind outcome_bind BUG_ON].
  rewrite !u64_small by (unfold is_u64; lia).
  destruct (bits_cases b bm start end_ reserve ex Hm Hs He) as [[Hc Ha]|(i & Hi & Hb)].
  - left. split; [done|]. destruct reserve.
    + exists (set_bits (set_range (bm_bits bm) (start - node_min_pfn b) (end_ - node_min_pfn b)) b).
      split_and!; [|by apply same_node_set_bits|intros p; by apply (page_of_mark b bm start end_ true)].
      destruct (bool_of (Z.land flags BOOTMEM_EXCLUSIVE)) eqn:Hex; [|by apply __reserve_shared; [|lia|]].
      destruct (__reserve_exclusive b bm (start - node_min_pfn b) (end_ - node_min_pfn b) flags)
        as [[_ Hr]|[(i & Hi & Hb) _]]; [done|lia|done|done|].
      specialize (Ha i Hi). rewrite Hb in Ha. done.
    + rewrite (__free_ok b bm) by (done || lia). eexists. split; [done|].
      split; [by apply (same_node_set_bits (set_hint _ b))|]. intros p.
      by apply (page_of_mark (set_hint _ b) bm start end_ false).
  - right. split; [by exists i, (Z.testbit (bm_bits bm) (i - node_min_pfn b)); auto using page_of_bit with lia|].
    destruct reserve.
    + subst ex. destruct (bool_of _) eqn:Hex; [|done].
      destruct (__reserve_exclusive b bm (start - node_min_pfn b) (end_ - node_min_pfn b) flags)
        as [[Hc _]|[_ Hr]]; [done|lia|done| |].
      * specialize (Hc (i - node_min_pfn b) ltac:(lia)). rewrite Hc in Hb. done.
      * eexists. split; [done|]. done.
    + by rewrite (__free_bug b bm _ _ (i - node_min_pfn b)) by (done || lia).
Qed.

(** ** The list of nodes *)

(** The nodes of the list are registered and follow one another. *)
Fixpoint chain (nodes : list bootmem_data) (l : list nat) : Prop :=
  match l with
  | [] => True
  | i :: l =>
      (exists b, nodes !! i = Some b /\ node_ok b /\
         forall j c, j ∈ l -> nodes !! j = Some c -> node_low_pfn b <= node_min_pfn c) /\
      chain nodes l
  end.

(** Whether a page is reserved; [None] for a page of no node. *)
Fixpoint page_in (nodes : list bootmem_data) (l : list nat) (p : Z) : option bool :=
  match l with
  | [] => None
  | i :: l => match nodes !! i ≫= (fun b => page_of b p) with
              | Some v => Some v
              | None => page_in nodes l p
              end
  end.
Definition page (s : bootmem) (p : Z) : option bool := page_in (bootmem_node_data s) (bdata_list s) p.

Definition same_nodes : list bootmem_data -> list bootmem_data -> Prop := Forall2 same_node.

#[export] Instance same_node_preorder : PreOrder same_node.
Proof.
  split; [by intros b|]. intros b c d (H1 & H2 & H3) (H4 & H5 & H6).
  split_and!; [congruence..|]. auto.
Qed.

Lemma same_nodes_insert nodes i b b' :
  nodes !! i = Some b -> same_node b b' -> same_nodes nodes (<[i := b']> nodes).
Proof.
  intros Hi Hb. rewrite <- (list_insert_id nodes i b) at 1 by done.
  apply Forall2_insert; [|done]. unfold same_nodes. reflexivity.
Qed.

Lemma node_ok_same b b' : same_node b b' -> node_ok b -> node_ok b'.
Proof. intros (Hm & Hl & Hs) (H1 & H2 & H3). unfold node_ok. rewrite Hm, Hl. auto. Qed.

Lemma chain_same nodes nodes' l : same_nodes nodes nodes' -> chain nodes l -> chain nodes' l.
Proof.
  intros Hs. induction l as [|i l IH]; [done|]. intros [(b & Hb & Hok & Hlt) Hl].
  split; [|by apply IH].
  destruct (Forall2_lookup_l _ _ _ _ _ Hs Hb) as (b' & Hb' & Hbb).
  exists b'. split_and!; [done|by eapply node_ok_same|]. intros j c' Hj Hc'.
  destruct (Forall2_lookup_r _ _ _ _ _ Hs Hc') as (c & Hc & Hcc).
  destruct Hbb as (_ & -> & _), Hcc as (-> & _ & _). by apply (Hlt j).
Qed.

Lemma chain_head_notin nodes i l : chain nodes (i :: l) -> i ∉ l.
Proof.
  intros [(b & Hb & Hok & Hlt) _] Hi. specialize (Hlt i b Hi Hb). destruct Hok. lia.
Qed.

Lemma page_in_ext nodes nodes' l p :
  (forall i, i ∈ l -> nodes' !! i = nodes !! i) -> page_in nodes' l p = page_in nodes l p.
Proof.
  induction l as [|i l IH]; intros He; [done|]. cbn [page_in].
  rewrite He by apply list_elem_of_here. rewrite IH; [done|].
  intros j Hj. apply He. by apply list_elem_of_further.
Qed.

Lemma page_in_Some nodes l p v :
  page_in nodes l p = Some v -> exists i b, i ∈ l /\ nodes !! i = Some b /\ page_of b p = Some v.
Proof.
  induction l as [|i l IH]; [done|]. cbn [page_in].
  destruct (nodes !! i) as [b|] eqn:Hb; cbn [mbind option_bind].
  - destruct (page_of b p) eqn:Hp.
    + intros [= ->]. exists i, b. split_and!; [apply list_elem_of_here|done|done].
    + intros H. destruct (IH H) as (j & c & Hj & ?). exists j, c.
      split; [by apply list_elem_of_further|done].
  - intros H. destruct (IH H) as (j & c & Hj & ?). exists j, c.
    split; [by apply list_elem_of_further|done].
Qed.

Lemma page_in_elem nodes l i b p v :
  i ∈ l -> nodes !! i = Some b -> page_of b p = Some v -> is_Some (page_in nodes l p).
Proof.
  induction l as [|j l IH]; intros Hi Hb Hv; [by apply not_elem_of_nil in Hi|]. cbn [page_in].
  apply elem_of_cons in Hi as [->|Hi].
  - rewrite Hb. cbn [mbind option_bind]. rewrite Hv. by eexists.
  - destruct (nodes !! j ≫= _); [by eexists|]. by apply IH.
Qed.

Lemma page_in_below nodes l lo p :
  (forall j c, j ∈ l -> nodes !! j = Some c -> lo <= node_min_pfn c) -> p < lo ->
  page_in nodes l p = None.
Proof.
  intros Hlo Hp. destruct (page_in nodes l p) as [v|] eqn:Hv; [|done].
  apply page_in_Some in Hv as (i & b & Hi & Hb & Hv). apply page_of_Some in Hv.
  specialize (Hlo i b Hi Hb). lia.
Qed.

Lemma page_in_cons nodes i l b p :
  nodes !! i = Some b ->
  page_in nodes (i :: l) p = match page_of b p with Some v => Some v | None => page_in nodes l p end.
Proof. intros Hi. cbn [page_in]. by rewrite Hi. Qed.

Lemma page_of_None b p : ~ (node_min_pfn b <= p < node_low_pfn b) -> page_of b p = None.
Proof. intros Hp. unfold page_of. destruct (node_bootmem_map b); [|done]. by ranges. Qed.

(** The pages of the list after the head node was replaced. *)
Lemma page_in_head nodes i l b' p :
  i ∉ l -> (i < length nodes)%nat ->
  page_in (<[i := b']> nodes) (i :: l) p =
    match page_of b' p with Some v => Some v | None => page_in nodes l p end.
Proof.
  intros Hi Hlt. rewrite (page_in_cons _ i l b') by (by apply list_lookup_insert_eq).
  rewrite (page_in_ext nodes); [done|]. intros j Hj. apply list_lookup_insert_ne. by intros ->.
Qed.

(** [nodes'] is [nodes] with the pages of [pos, q) of the listed nodes marked. *)
Definition marked (nodes nodes' : list bootmem_data) (l : list nat) (pos q : Z) (v : bool) : Prop :=
  same_nodes nodes nodes' /\ (forall i, i ∉ l -> nodes' !! i = nodes !! i) /\
  forall p, page_in nodes' l p = if in_range pos q p then Some v else page_in nodes l p.

Lemma marked_skip nodes nodes' i l b pos q v :
  i ∉ l -> nodes !! i = Some b -> node_low_pfn b <= pos ->
  marked nodes nodes' l pos q v -> marked nodes nodes' (i :: l) pos q v.
Proof.
  intros Hi Hb Hlow (Hs & Ho & Hp). split_and!; [done| |].
  - intros j Hj. apply Ho. intros ?. by apply Hj, list_elem_of_further.
  - intros p. rewrite (page_in_cons _ i l b) by (by rewrite Ho).
    rewrite (page_in_cons nodes i l b), Hp by done.
    ranges; [|done]. by rewrite page_of_None by lia.
Qed.

Lemma marked_take nodes nodes' i l b b' pos q v :
  i ∉ l -> nodes !! i = Some b -> same_node b b' -> node_low_pfn b <= q ->
  (forall p, page_of b' p = if in_range pos (node_low_pfn b) p then Some v else page_of b p) ->
  pos <= node_low_pfn b ->
  marked (<[i := b']> nodes) nodes' l (node_low_pfn b) q v ->
  marked nodes nodes' (i :: l) pos q v.
Proof.
  intros Hi Hb Hsame Hq Hpg Hpos (Hs & Ho & Hp).
  assert (Hlt : (i < length nodes)%nat) by (by eapply lookup_lt_Some).
  split_and!.
  - etrans; [by eapply same_nodes_insert|done].
  - intros j Hj. rewrite Ho by (intros ?; by apply Hj, list_elem_of_further).
    apply list_lookup_insert_ne. intros ->. apply Hj, list_elem_of_here.
  - intros p. rewrite (page_in_cons _ i l b') by (rewrite Ho by done; by apply list_lookup_insert_eq).
    rewrite (page_in_cons nodes i l b), Hp, Hpg by done.
    rewrite (page_in_ext nodes) by (intros j Hj; apply list_lookup_insert_ne; by intros ->).
    ranges; try done. by rewrite page_of_None by lia.
Qed.

Lemma marked_head nodes i l b b' pos q v :
  i ∉ l -> nodes !! i = Some b -> same_node b b' ->
  (forall p, page_of b' p = if in_range pos q p then Some v else page_of b p) ->
  marked nodes (<[i := b']> nodes) (i :: l) pos q v.
Proof.
  intros Hi Hb Hsame Hpg.
  split_and!; [by eapply same_nodes_insert| |].
  - intros j Hj. apply list_lookup_insert_ne. intros ->. apply Hj, list_elem_of_here.
  - intros p. rewrite page_in_head, Hpg, (page_in_cons nodes i l b) by (done || by eapply lookup_lt_Some).
    by ranges.
Qed.

Section MarkLoop.
Variables (undo : Z -> Z -> bootmem -> outcome bootmem) (start end_ : Z) (reserve : bool) (flags : Z).
Let ex := bool_of (Z.land flags BOOTMEM_EXCLUSIVE).

(** What the loop answers from [pos] on. *)
Definition loop_result (s : bootmem) (l : list nat) (pos : Z) : Prop :=
  let nodes := bootmem_node_data s in
  let out := mark_loop undo l start pos end_ reserve flags s in
  (forall p v, pos <= p < end_ -> page_in nodes l p = Some v -> allowed reserve ex v = true) /\
    (exists nodes', out = Done (0, set_nodes nodes' s) /\ marked nodes nodes' l pos end_ reserve) \/
  (exists p v, pos <= p < end_ /\ page_in nodes l p = Some v /\ allowed reserve ex v = false) /\
    (if reserve
     then exists nodes' q, pos <= q < end_ /\
       out = (undo start q (set_nodes nodes' s) ≫= fun s' => Done (- EBUSY, s')) /\
       (forall p v, pos <= p < q -> page_in nodes l p = Some v -> allowed reserve ex v = true) /\
       marked nodes nodes' l pos q true
     else out = Bug).

Lemma loop_skip s i l b pos :
  i ∉ l -> bootmem_node_data s !! i = Some b -> node_low_pfn b <= pos -> pos = start ->
  loop_result s l pos -> loop_result s (i :: l) pos.
Proof using Type.
  intros Hi Hb Hlow Hpos. unfold loop_result. cbn [mark_loop].
  replace (get_node s i) with (Done b) by (unfold get_node; by rewrite Hb). cbn [mbind outcome_bind].
  replace ((pos <? node_min_pfn b) || (pos >=? node_low_pfn b)) with true by lia.
  replace (negb (pos =? start)) with false by lia. cbn [mbind outcome_bind BUG_ON].
  assert (Hc : forall p, pos <= p -> page_in (bootmem_node_data s) (i :: l) p =
                                     page_in (bootmem_node_data s) l p).
  { intros p Hp. by rewrite (page_in_cons _ i l b), page_of_None by (done || lia). }
  intros [(Ha & nodes' & Hout & Hm)|((p & v & Hp & Hv & Hbad) & Hrest)]; [left|right].
  - split; [intros p v Hp; rewrite Hc by lia; by apply Ha|].
    exists nodes'. split; [done|by eapply marked_skip].
  - split; [exists p, v; by rewrite Hc by lia|]. destruct reserve; [|done].
    destruct Hrest as (nodes' & q & Hq & Hout & Ha & Hm). exists nodes', q.
    split_and!; [lia|lia|done| |by eapply marked_skip].
    intros p' v' Hp'. rewrite Hc by lia. by apply Ha.
Qed.

(** The head node holds [pos]: its answer, and the rest of the list when the
    range goes on behind it. *)
Lemma loop_take s i l b pos :
  chain (bootmem_node_data s) (i :: l) -> bootmem_node_data s !! i = Some b ->
  node_min_pfn b <= pos < node_low_pfn b -> pos <= end_ ->
  (node_low_pfn b < end_ -> forall b', same_node b b' ->
     loop_result (put_node s i b') l (node_low_pfn b)) ->
  loop_result s (i :: l) pos.
Proof using Type.
  intros Hch Hb Hin Hend Hnext. pose proof (chain_head_notin _ _ _ Hch) as Hi.
  destruct Hch as [(b0 & Hb0 & Hok & Hlt) Hch]. rewrite Hb in Hb0. injection Hb0 as <-.
  assert (Hc : forall p v, page_of b p = Some v -> page_in (bootmem_node_data s) (i :: l) p = Some v).
  { intros p v Hv. by rewrite (page_in_cons _ i l b), Hv by done. }
  assert (Hc' : forall p v, pos <= p < node_low_pfn b ->
            page_in (bootmem_node_data s) (i :: l) p = Some v -> page_of b p = Some v).
  { intros p v Hp. rewrite (page_in_cons _ i l b) by done.
    destruct (page_of_in b p Hok ltac:(lia)) as [w ->]. done. }
  unfold loop_result. cbn [mark_loop].
  replace (get_node s i) with (Done b) by (unfold get_node; by rewrite Hb). cbn [mbind outcome_bind].
  replace ((pos <? node_min_pfn b) || (pos >=? node_low_pfn b)) with false by lia.
  set (max := Z.min (node_low_pfn b) end_).
  destruct (mark_bootmem_node_cases b pos max reserve flags Hok ltac:(lia) ltac:(lia))
    as [(Ha & b' & Hout & Hsame & Hpg)|((p & v & Hp & Hv & Hbad) & Hrest)].
  - rewrite Hout. cbn [mbind outcome_bind]. rewrite andb_false_r.
    destruct (Z.eqb_spec max end_) as [Hmax|Hmax].
    + left. rewrite Hmax in *. split; [intros p v Hp Hv; apply (Ha p); [done|apply Hc'; [lia|done]]|].
      eexists. split; [done|by eapply marked_head].
    + assert (Hm : max = node_low_pfn b) by lia. rewrite Hm in *.
      assert (Hcl : forall p, node_low_pfn b <= p ->
                page_in (bootmem_node_data s) (i :: l) p = page_in (<[i:=b']> (bootmem_node_data s)) l p).
      { intros p Hp. rewrite (page_in_cons _ i l b), page_of_None by (done || lia).
        symmetry. apply page_in_ext. intros j Hj. apply list_lookup_insert_ne. by intros ->. }
      destruct (Hnext ltac:(lia) b' Hsame) as [(Ha2 & nodes' & -> & Hmk)|((p & v & Hp & Hv & Hbad) & Hrest)];
        [left|right].
      * split; [|eexists; split; [done|by eapply marked_take; eauto; lia]].
        intros p v Hp Hv. destruct (Z.ltb_spec p (node_low_pfn b)); [by apply (Ha p); [lia|apply Hc'; [lia|done]]|].
        apply (Ha2 p); [lia|]. by rewrite <- Hcl by lia.
      * split; [exists p, v; rewrite Hcl by lia; split_and!; [lia|lia|done|done]|].
        destruct reserve; [|done]. destruct Hrest as (nodes' & q & Hq & Hout2 & Ha2 & Hmk).
        exists nodes', q. split_and!; [lia|lia|done| |by eapply marked_take; eauto; lia].
        intros p' v' Hp' Hv'. destruct (Z.ltb_spec p' (node_low_pfn b)).
        -- apply (Ha p'); [lia|apply Hc'; [lia|done]].
        -- apply (Ha2 p'); [lia|]. by rewrite <- Hcl by lia.
  - right. split; [exists p, v; split_and!; [lia|lia|by apply Hc|done]|].
    destruct reserve; [|by rewrite Hrest].
    destruct Hrest as (b' & -> & Hsame & Hpg). cbn [mbind outcome_bind].
    exists (<[i:=b']> (bootmem_node_data s)), pos.
    split_and!; [lia|lia|done|intros; lia|]. eapply marked_head; eauto. intros p'. by ranges.
Qed.

Lemma mark_loop_cases l : forall s pos,
  chain (bootmem_node_data s) l -> pos <= end_ ->
  is_Some (page_in (bootmem_node_data s) l pos) ->
  (forall p, pos <= p < end_ -> is_Some (page_in (bootmem_node_data s) l p)) ->
  (pos = start \/ forall j c, j ∈ l -> bootmem_node_data s !! j = Some c -> pos <= node_min_pfn c) ->
  loop_result s l pos.
Proof using Type.
  induction l as [|i l IH]; intros s pos Hch Hend Hpos Hcov Hstart; [by destruct Hpos|].
  pose proof (chain_head_notin _ _ _ Hch) as Hi. pose proof Hch as [(b & Hb & Hok & Hlt) Hl].
  assert (Hout : forall p, p < node_min_pfn b -> page_in (bootmem_node_data s) (i :: l) p = None).
  { intros p Hp. rewrite (page_in_cons _ i l b), page_of_None by (done || lia).
    apply (page_in_below _ _ (node_min_pfn b)); [|done].
    intros j c Hj Hc. specialize (Hlt j c Hj Hc). destruct Hok. lia. }
  destruct (Z.ltb_spec pos (node_min_pfn b)); [rewrite Hout in Hpos by done; by destruct Hpos|].
  destruct (Z.leb_spec (node_low_pfn b) pos).
  - assert (Hpg : forall p, pos <= p -> page_in (bootmem_node_data s) (i :: l) p =
                              page_in (bootmem_node_data s) l p)
      by (intros p Hp; by rewrite (page_in_cons _ i l b), page_of_None by (done || lia)).
    destruct Hstart as [Hstart|Hstart].
    2:{ specialize (Hstart i b (list_elem_of_here _ _) Hb). destruct Hok. lia. }
    eapply loop_skip; [done|done|lia|done|].
    apply IH; [done|done|by rewrite <- Hpg| |by left].
    intros p Hp. rewrite <- Hpg by lia. by apply Hcov.
  - eapply loop_take; [done|done|lia|done|]. intros Hlow b' Hsame.
    assert (Hpg : forall p, node_low_pfn b <= p ->
              page_in (<[i:=b']> (bootmem_node_data s)) l p = page_in (bootmem_node_data s) (i :: l) p).
    { intros p Hp. rewrite (page_in_cons _ i l b), page_of_None by (done || lia).
      apply page_in_ext. intros j Hj. apply list_lookup_insert_ne. by intros ->. }
    apply IH; cbn [put_node set_nodes bootmem_node_data].
    + eapply chain_same; [by eapply same_nodes_insert|done].
    + lia.
    + rewrite Hpg by lia. apply Hcov. lia.
    + intros p Hp. rewrite Hpg by lia. apply Hcov. lia.
    + right. intros j c Hj Hc. rewrite list_lookup_insert_ne in Hc by (by intros ->).
      by apply (Hlt j).
Qed.
End MarkLoop.

(** ** Linking a node *)

Lemma link_loop_perm nodes min i l : link_loop nodes min i l ≡ₚ i :: l.
Proof.
  induction l as [|e l IH]; [done|]. cbn [link_loop].
  destruct (nodes !! e) as [c|]; [destruct (_ <? _); [done|]|]; rewrite IH; apply Permutation_swap.
Qed.

Lemma chain_lookup nodes l j c :
  chain nodes l -> j ∈ l -> nodes !! j = Some c -> node_ok c.
Proof.
  induction l as [|i l IH]; intros Hch Hj Hc; [by apply not_elem_of_nil in Hj|].
  destruct Hch as [(b & Hb & Hok & _) Hch]. apply elem_of_cons in Hj as [->|Hj]; [|auto].
  rewrite Hb in Hc. by injection Hc as <-.
Qed.

(** Two ranges without a common page. *)
Definition apart (b c : bootmem_data) : Prop :=
  node_low_pfn b <= node_min_pfn c \/ node_low_pfn c <= node_min_pfn b.

Section Link.
Variables (nodes : list bootmem_data) (i : nat) (new : bootmem_data).
Hypotheses (Hnew : nodes !! i = Some new) (Hok : node_ok new).

Lemma link_loop_chain l :
  chain nodes l -> (forall j c, j ∈ l -> nodes !! j = Some c -> apart new c) ->
  chain nodes (link_loop nodes (node_min_pfn new) i l).
Proof using All.
  induction l as [|e l IH]; intros Hch Hap.
  - split; [|done]. exists new. split_and!; [done|apply Hok..|]. intros j c Hj. by apply not_elem_of_nil in Hj.
  - pose proof Hch as [(b & Hb & Hbok & Hlt) Hl]. cbn [link_loop]. rewrite Hb.
    pose proof (Hap e b (list_elem_of_here _ _) Hb) as Hab.
    destruct Hok as (Hn & _), Hbok as (Hbn & _ & _). unfold apart in Hab.
    destruct (Z.ltb_spec (node_min_pfn new) (node_min_pfn b)).
    + split; [|done]. exists new. split_and!; [done|done|]. intros j c Hj Hc.
      apply elem_of_cons in Hj as [->|Hj].
      * rewrite Hb in Hc. injection Hc as <-. lia.
      * specialize (Hlt j c Hj Hc). lia.
    + split; [|apply IH; [done|]; intros j c Hj; apply (Hap j); by apply list_elem_of_further].
      exists b. split_and!; [done|by apply (chain_lookup nodes (e :: l) e); [| apply list_elem_of_here|]|].
      intros j c Hj Hc. rewrite (link_loop_perm nodes) in Hj.
      apply elem_of_cons in Hj as [->|Hj]; [|by apply (Hlt j)].
      rewrite Hnew in Hc. injection Hc as <-. lia.
Qed.

Lemma link_loop_pages l p :
  chain nodes l -> (forall j c, j ∈ l -> nodes !! j = Some c -> apart new c) ->
  page_in nodes (link_loop nodes (node_min_pfn new) i l) p =
    match page_of new p with Some v => Some v | None => page_in nodes l p end.
Proof using All.
  induction l as [|e l IH]; intros Hch Hap.
  - cbn [link_loop]. by rewrite (page_in_cons _ i [] new).
  - pose proof Hch as [(b & Hb & Hbok & Hlt) Hl]. cbn [link_loop]. rewrite Hb.
    pose proof (Hap e b (list_elem_of_here _ _) Hb) as Hab. unfold apart in Hab.
    destruct (Z.ltb_spec (node_min_pfn new) (node_min_pfn b)); [by rewrite (page_in_cons _ i _ new)|].
    rewrite !(page_in_cons _ e _ b), IH by (done || intros j c Hj; apply (Hap j); by apply list_elem_of_further).
    destruct (page_of b p) as [v|] eqn:Hv, (page_of new p) as [w|] eqn:Hw; try done.
    apply page_of_Some in Hv, Hw. lia.
Qed.
End Link.

Lemma chain_ext nodes nodes' l :
  (forall i, i ∈ l -> nodes' !! i = nodes !! i) -> chain nodes l -> chain nodes' l.
Proof.
  induction l as [|i l IH]; intros He; [done|]. intros [(b & Hb & Hok & Hlt) Hl].
  split; [|apply IH; [|done]; intros j Hj; apply He; by apply list_elem_of_further].
  exists b. rewrite He by apply list_elem_of_here. split_and!; [done|apply Hok..|].
  intros j c Hj. rewrite He by (by apply list_elem_of_further). by apply Hlt.
Qed.
