(* ===== verification/BootmemProps.v ===== *)
(** * bootmem: what the operations on ranges of pages promise

    The list of nodes with their bitmaps implements a finite map from page
    frames to "reserved": registering a node, reserving and freeing. *)

From S2P Require Import Prelude Bootmem BootmemMark.

(** ** A concrete architecture *)

Fixpoint next_zero (fuel : nat) (map size off : Z) : Z :=
  match fuel with
  | O => size
  | S fuel => if size <=? off then size
              else if Z.testbit map off then next_zero fuel map size (off + 1) else off
  end.

Definition x86_64 : BootArch := {|
  PAGE_SHIFT := 12;
  ALIGN := fun x a => Z.land (u64 (x + (a - 1))) (u64 (Z.lnot (a - 1)));
  DIV_ROUND_UP := fun n d => u64 (n + d - 1) / d;
  PFN_UP := fun x => Z.shiftr (u64 (x + 4095)) 12;
  PFN_DOWN := fun x => Z.shiftr x 12;
  PFN_PHYS := fun p => u64 (Z.shiftl p 12);
  find_next_zero_bit := fun map size off => next_zero (Z.to_nat (size - off)) map size off;
  phys_to_virt := fun pa => u64 (pa + 0xffff888000000000);
  pfn_to_page := fun p => p;
  virt_to_page := fun v => Z.shiftr (u64 (v - 0xffff888000000000)) 12;
  mminit_validate_memmodel_limits := fun s e => (s, e);
  slab_is_available := false;
  kzalloc := fun _ => 0;
  kzalloc_node := fun _ _ => 0;
  MAX_DMA32_PFN := 0x100000;
|}.

Lemma next_zero_spec n : forall map size off, off < size -> (Z.to_nat (size - off) <= n)%nat ->
  off <= next_zero n map size off <= size /\
  (forall i, off <= i < next_zero n map size off -> Z.testbit map i = true) /\
  (next_zero n map size off < size -> Z.testbit map (next_zero n map size off) = false).
Proof.
  induction n as [|n IH]; intros map size off Hlt Hn; [lia|]. cbn [next_zero].
  destruct (Z.leb_spec size off); [lia|].
  destruct (Z.testbit map off) eqn:Hb; [|split_and!; try lia; done].
  destruct (Z.eq_dec (off + 1) size) as [He|].
  - assert (next_zero n map size (off + 1) = size) as ->.
    { destruct n; cbn [next_zero]; [done|]. by destruct (Z.leb_spec size (off + 1)); [|lia]. }
    split_and!; [lia|lia| |lia]. intros i Hi. by replace i with off by lia.
  - destruct (IH map size (off + 1)) as (H1 & H2 & H3); [lia|lia|].
    split_and!; [lia|lia| |done]. intros i Hi.
    destruct (Z.eq_dec i off) as [->|]; [done|]. apply H2. lia.
Qed.

Lemma x86_64_spec : @BootArchSpec x86_64.
Proof.
  split; cbn.
  - lia.
  - intros x k Hx Hk Hm. assert (0 < 2 ^ k) by (apply Z.pow_pos_nonneg; lia).
    rewrite u64_small by (unfold is_u64; lia).
    replace (2 ^ k - 1) with (Z.ones k) by (rewrite Z.ones_equiv; lia).
    rewrite Z.ones_equiv at 1.
    rewrite land_lnot_ones_64 by (unfold is_u64; lia).
    replace (x + Z.pred (2 ^ k)) with (x + 2 ^ k - 1) by lia.
    pose proof (Z.div_mod (x + 2 ^ k - 1) (2 ^ k)). lia.
  - intros n d Hn Hd Hm. by rewrite u64_small by (unfold is_u64; lia).
  - intros x Hx. by rewrite Z.shiftr_div_pow2 by lia.
  - change (@PAGE_SIZE x86_64) with 4096. intros x Hx Hm. rewrite u64_small by (unfold is_u64; lia).
    rewrite Z.shiftr_div_pow2 by lia. change (2 ^ 12) with 4096. f_equal. lia.
  - change (@PAGE_SIZE x86_64) with 4096. intros x Hx Hm. rewrite Z.shiftl_mul_pow2 by lia.
    change (2 ^ 12) with 4096. by rewrite u64_small by (unfold is_u64; lia).
  - intros map size off Hoff. apply next_zero_spec; lia.
  - intros map size off Hoff. by replace (Z.to_nat (size - off)) with 0%nat by lia.
  - intros pa pb Hpa Hpb. rewrite !u64_small by (unfold is_u64; lia). lia.
  - intros pa Hpa. rewrite u64_small by (unfold is_u64; lia). lia.
Qed.

(** ** Two neighbouring nodes for the examples

    Pages 16 to 79 on node 0, 80 to 143 on node 1; pages 20 to 99 are free. *)
Definition demo_node (min low bits : Z) : bootmem_data :=
  mk_bdata min low (Some (mk_bitmap 0xffff888000001000 bits)) 0 0.
Definition demo_boot : bootmem :=
  mk_bootmem [demo_node 16 80 (clear_range (Z.ones 64) 4 64);
              demo_node 80 144 (clear_range (Z.ones 64) 0 20)]
    [0; 1]%nat 0 0 0 [] false [].

Definition boot_ok (s : bootmem) : Prop := chain (bootmem_node_data s) (bdata_list s).

Lemma demo_boot_ok : boot_ok demo_boot.
Proof.
  split; [|split; [|done]].
  - eexists. split; [done|]. split; [split_and!; [simpl; lia..|by eexists]|].
    intros j c Hj Hc. apply list_elem_of_singleton in Hj as ->. injection Hc as <-. simpl. lia.
  - eexists. split; [done|]. split; [split_and!; [simpl; lia..|by eexists]|].
    intros j c Hj. inversion Hj.
Qed.

Lemma demo_pages p : 16 <= p < 144 -> is_Some (page demo_boot p).
Proof.
  intros Hp. unfold page, page_in, page_of. simpl. ranges; by eexists.
Qed.

Lemma demo_free p : 20 <= p < 100 -> page demo_boot p = Some false.
Proof.
  assert (Hall : Forall (fun p => page demo_boot p = Some false) (seqZ 20 80)).
  { apply (bool_decide_unpack _). by vm_compute. }
  intros Hp. rewrite Forall_seqZ in Hall. apply Hall. lia.
Qed.

(** ** Marking *)

Lemma mark_undo_ok s start q :
  boot_ok s -> start <= q -> is_Some (page s start) ->
  (forall p, start <= p < q -> page s p = Some true) ->
  exists s', mark_undo start q s = Done s' /\ boot_ok s' /\
    forall p, page s' p = if in_range start q p then Some false else page s p.
Proof.
  intros Hok Hq Hs Hall. unfold mark_undo.
  destruct (mark_loop_cases (fun _ _ s => Done s) start q false 0 (bdata_list s) s start)
    as [(_ & nodes' & Hout & Hsame & _ & Hp)|((p & v & Hp & Hv & Hbad) & _)];
    [done|done|done| |by left| |].
  - intros p Hp. unfold page in Hall. rewrite Hall by lia. by eexists.
  - rewrite Hout. cbn [mbind outcome_bind]. eexists. split; [done|].
    split; [by eapply chain_same|]. exact Hp.
  - unfold page in Hall. rewrite Hall in Hv by lia. injection Hv as <-. done.
Qed.

(** C27: [mark_bootmem] implements an update of one map from page frames to
    "reserved", whatever nodes the range crosses: when the range lies in the
    memory of the nodes and every page may be marked (a page to free is
    reserved, a page to reserve exclusively is free), it answers 0 and exactly
    the pages of the range change; otherwise an exclusive reservation answers
    [-EBUSY] and, what it had already marked on this and on earlier nodes
    having been undone, no page has changed, and a free stops at a [BUG]. *)
Theorem mark_bootmem_spec s start end_ reserve flags
    (ex := bool_of (Z.land flags BOOTMEM_EXCLUSIVE)) :
  boot_ok s -> start <= end_ -> is_Some (page s start) ->
  (forall p, start <= p < end_ -> is_Some (page s p)) ->
  (forall p v, start <= p < end_ -> page s p = Some v -> allowed reserve ex v = true) /\
    (exists s', mark_bootmem start end_ reserve flags s = Done (0, s') /\ boot_ok s' /\
       forall p, page s' p = if in_range start end_ p then Some reserve else page s p) \/
  (exists p v, start <= p < end_ /\ page s p = Some v /\ allowed reserve ex v = false) /\
    (if reserve
     then exists s', mark_bootmem start end_ reserve flags s = Done (- EBUSY, s') /\ boot_ok s' /\
            forall p, page s' p = page s p
     else mark_bootmem start end_ reserve flags s = Bug).
Proof.
  intros Hok Hend Hs Hcov.
  destruct (mark_loop_cases mark_undo start end_ reserve flags (bdata_list s) s start)
    as [(Ha & nodes' & Hout & Hsame & _ & Hp)|(Hbad & Hrest)]; [done|done|done|done|by left| |].
  - left. split; [done|]. eexists. split; [done|]. split; [by eapply chain_same|exact Hp].
  - right. split; [done|]. destruct reserve; [|done].
    destruct Hrest as (nodes' & q & Hq & Hout & Ha & Hsame & _ & Hp).
    assert (Hex : ex = true) by (destruct Hbad as (? & v & _ & _ & Hv); fold ex in Hv; unfold allowed in Hv; clearbody ex; by destruct ex, v).
    destruct (mark_undo_ok (set_nodes nodes' s) start q) as (s' & Hun & Hok' & Hp').
    + by eapply chain_same.
    + lia.
    + unfold page. cbn [set_nodes bootmem_node_data bdata_list]. rewrite Hp. ranges; [by eexists|done].
    + intros p Hpq. unfold page. cbn [set_nodes bootmem_node_data bdata_list]. rewrite Hp. by ranges.
    + unfold mark_bootmem. rewrite Hout, Hun. eexists. split; [done|]. split; [done|].
      intros p. rewrite Hp'. unfold page. cbn [set_nodes bootmem_node_data bdata_list]. rewrite Hp.
      ranges; [|done]. destruct (Hcov p ltac:(lia)) as [v Hv]. unfold page in Hv. rewrite Hv.
      specialize (Ha p v ltac:(lia) Hv). fold ex in Ha. rewrite Hex in Ha. by destruct v.
Qed.

Lemma mark_bootmem_spec_witness :
  exists s', mark_bootmem 70 110 true BOOTMEM_EXCLUSIVE demo_boot = Done (- EBUSY, s') /\ boot_ok s' /\
    forall p, page s' p = page demo_boot p.
Proof.
  destruct (mark_bootmem_spec demo_boot 70 110 true BOOTMEM_EXCLUSIVE) as [[Ha _]|[_ Hr]].
  - apply demo_boot_ok.
  - lia.
  - by eexists.
  - intros p Hp. apply demo_pages. lia.
  - specialize (Ha 105 true ltac:(lia) eq_refl). discriminate Ha.
  - exact Hr.
Defined.

(** A node that holds no page of the range is apart from it. *)
Lemma chain_apart s j c new :
  boot_ok s -> j ∈ bdata_list s -> bootmem_node_data s !! j = Some c ->
  (forall p, node_min_pfn new <= p < node_low_pfn new -> page s p = None) ->
  node_min_pfn new < node_low_pfn new -> apart new c.
Proof.
  intros Hok Hj Hc Hnone Hne. unfold apart.
  pose proof (chain_lookup _ _ _ _ Hok Hj Hc) as Hcok. pose proof Hcok as (? & _).
  destruct (Z.leb_spec (node_low_pfn new) (node_min_pfn c)); [by left|].
  destruct (Z.leb_spec (node_low_pfn c) (node_min_pfn new)); [by right|].
  exfalso. pose (p := Z.max (node_min_pfn new) (node_min_pfn c)).
  destruct (page_of_in c p Hcok ltac:(lia)) as [v Hv].
  destruct (page_in_elem _ _ _ _ _ _ Hj Hc Hv) as [w Hw].
  specialize (Hnone p ltac:(lia)). unfold page in Hnone. rewrite Hw in Hnone. done.
Qed.

(** ** Byte ranges *)
Section Ranges.
Context `{BootArchSpec}.

Lemma page_size_pos : 0 < PAGE_SIZE.
Proof. unfold PAGE_SIZE. rewrite Z.shiftl_1_l. pose proof page_shift_range. apply Z.pow_pos_nonneg; lia. Qed.

Lemma page_size_le : PAGE_SIZE <= 2 ^ 20.
Proof. unfold PAGE_SIZE. rewrite Z.shiftl_1_l. pose proof page_shift_range. apply Z.pow_le_mono_r; lia. Qed.

(** A page frame has a byte in [addr, addr + size). *)
Definition touches (addr size p : Z) : Prop :=
  p * PAGE_SIZE < addr + size /\ addr < (p + 1) * PAGE_SIZE.

(** A page frame lies inside [addr, addr + size). *)
Definition inside (addr size p : Z) : Prop :=
  addr <= p * PAGE_SIZE /\ (p + 1) * PAGE_SIZE <= addr + size.

Lemma pfn_up_le x p : 0 <= x -> x + PAGE_SIZE - 1 < 2 ^ 64 -> PFN_UP x <= p <-> x <= p * PAGE_SIZE.
Proof.
  intros Hx Hm. pose proof page_size_pos. rewrite PFN_UP_spec by done.
  generalize dependent PAGE_SIZE. intros sz Hm Hsz. 
  pose proof (Z.div_mod (x + sz - 1) sz ltac:(lia)).
  pose proof (Z.mod_pos_bound (x + sz - 1) sz ltac:(lia)). split; intros; nia.
Qed.

Lemma pfn_down_le x p : is_u64 x -> p <= PFN_DOWN x <-> p * PAGE_SIZE <= x.
Proof.
  intros Hx. pose proof page_size_pos. rewrite PFN_DOWN_spec by done.
  generalize dependent PAGE_SIZE. intros sz Hsz.
  pose proof (Z.div_mod x sz ltac:(lia)).
  pose proof (Z.mod_pos_bound x sz ltac:(lia)). split; intros; nia.
Qed.

(** The map has a bit for every page. *)
Lemma bootmap_bytes_enough n : 0 <= n -> n + 14 < 2 ^ 64 -> n <= BITS_PER_BYTE * bootmap_bytes n.
Proof.
  intros Hn Hm. unfold bootmap_bytes, BITS_PER_BYTE, sizeof_long.
  rewrite DIV_ROUND_UP_spec by lia. change 8 with (2 ^ 3) at 4.
  rewrite ALIGN_spec; change (2 ^ 3) with 8; [|apply Z.div_pos; lia|lia|].
  - pose proof (Z.div_mod (n + 8 - 1) 8). pose proof (Z.mod_pos_bound (n + 8 - 1) 8).
    pose proof (Z.div_mod ((n + 8 - 1) / 8 + 8 - 1) 8).
    pose proof (Z.mod_pos_bound ((n + 8 - 1) / 8 + 8 - 1) 8). lia.
  - assert ((n + 8 - 1) / 8 <= n + 7) by (apply Z.div_le_upper_bound; lia). lia.
Qed.

(** Registering a node whose pages belong to no other node:
    [init_bootmem_core] answers the size of a bitmap with a bit for every page,
    the list of nodes gains the node at the place that keeps it in ascending
    order of addresses, every page of the node starts out reserved and no other
    page changes. *)
Theorem init_bootmem_core_spec s i b0 mapstart start0 end0 start end_ :
  boot_ok s -> bootmem_node_data s !! i = Some b0 -> i ∉ bdata_list s ->
  mminit_validate_memmodel_limits start0 end0 = (start, end_) ->
  0 <= start < end_ -> end_ + 14 < 2 ^ 64 ->
  (forall p, start <= p < end_ -> page s p = None) ->
  exists s', init_bootmem_core i mapstart start0 end0 s = Done (bootmap_bytes (end_ - start), s') /\
    end_ - start <= BITS_PER_BYTE * bootmap_bytes (end_ - start) /\
    boot_ok s' /\ bdata_list s' ≡ₚ i :: bdata_list s /\
    forall p, page s' p = if in_range start end_ p then Some true else page s p.
Proof.
  intros Hok Hi Hni Hlim Hse Hend Hfree. unfold init_bootmem_core. rewrite Hlim.
  unfold get_node. rewrite Hi. cbn [mbind outcome_bind].
  rewrite (u64_small (end_ - start)) by (unfold is_u64; lia).
  pose proof (bootmap_bytes_enough (end_ - start) ltac:(lia) ltac:(lia)) as Hbits.
  set (new := mk_bdata _ _ _ _ _). unfold link_bootmem, get_node.
  cbn [put_node set_nodes set_list bootmem_node_data bdata_list].
  assert (Hnew : <[i := new]> (bootmem_node_data s) !! i = Some new)
    by (apply list_lookup_insert_eq; by eapply lookup_lt_Some).
  assert (Hext : forall j, j ∈ bdata_list s ->
            <[i := new]> (bootmem_node_data s) !! j = bootmem_node_data s !! j)
    by (intros j Hj; apply list_lookup_insert_ne; by intros ->).
  rewrite Hnew. cbn [mbind outcome_bind].
  assert (Hnok : node_ok new) by (split_and!; [simpl; lia..|by eexists]).
  assert (Hch : chain (<[i := new]> (bootmem_node_data s)) (bdata_list s)) by (by eapply chain_ext).
  assert (Hap : forall j c, j ∈ bdata_list s ->
            <[i := new]> (bootmem_node_data s) !! j = Some c -> apart new c).
  { intros j c Hj Hc. pose proof (chain_lookup _ _ _ _ Hch Hj Hc) as Hcok.
    eapply chain_apart; [done|done|by rewrite <- Hext|exact Hfree|simpl; lia]. }
  eexists. split; [done|]. split; [done|]. split_and!.
  - by apply link_loop_chain.
  - apply link_loop_perm.
  - intros p. unfold page. cbn [set_list set_nodes put_node bootmem_node_data bdata_list].
    rewrite link_loop_pages by done. rewrite (page_in_ext (bootmem_node_data s)) by done.
    unfold page_of. cbn [new node_bootmem_map node_min_pfn node_low_pfn bm_bits].
    ranges; [|done]. by rewrite Z.ones_spec_low by lia.
Qed.

(** The two roundings: [reserve_bootmem] works on the pages the range touches,
    [free_bootmem] on those inside it. *)
Lemma touches_range addr size p :
  0 <= addr -> 0 <= size -> addr + size + PAGE_SIZE <= 2 ^ 64 ->
  PFN_DOWN addr <= p < PFN_UP (u64 (addr + size)) <-> touches addr size p.
Proof.
  intros Ha Hs Hm. pose proof page_size_pos. unfold touches.
  rewrite u64_small by (unfold is_u64; lia).
  pose proof (pfn_up_le (addr + size) p). pose proof (pfn_down_le addr (p + 1)).
  unfold is_u64 in *. lia.
Qed.

Lemma inside_range addr size p :
  0 <= addr -> 0 <= size -> addr + size + PAGE_SIZE <= 2 ^ 64 ->
  PFN_UP addr <= p < PFN_DOWN (u64 (addr + size)) <-> inside addr size p.
Proof.
  intros Ha Hs Hm. pose proof page_size_pos. unfold inside.
  rewrite u64_small by (unfold is_u64; lia).
  pose proof (pfn_up_le addr p). pose proof (pfn_down_le (addr + size) (p + 1)).
  unfold is_u64 in *. lia.
Qed.

Lemma inside_touches addr size p : inside addr size p -> touches addr size p.
Proof. pose proof page_size_pos. unfold inside, touches. lia. Qed.

(** Reserving a byte range whose pages are all free and freeing the same
    range: the exclusive reservation answers 0 and reserves exactly the pages
    that have a byte in the range, partial ones included; [free_bootmem] then
    frees exactly the pages that lie inside the range, so that a partial page
    at either end stays reserved and every other page is as it was. *)
Theorem reserve_free_roundtrip s addr size :
  boot_ok s -> 0 <= addr -> addr + size + PAGE_SIZE <= 2 ^ 64 ->
  (exists p, inside addr size p) ->
  (forall p, touches addr size p -> page s p = Some false) ->
  exists s1 s2,
    reserve_bootmem addr size BOOTMEM_EXCLUSIVE s = Done (0, s1) /\
    free_bootmem addr size s1 = Done s2 /\ boot_ok s2 /\
    forall p,
      (touches addr size p -> page s1 p = Some true) /\
      (~ touches addr size p -> page s1 p = page s p) /\
      (inside addr size p -> page s2 p = Some false) /\
      (~ inside addr size p -> page s2 p = page s1 p).
Proof.
  intros Hok Ha Hm [q Hq] Hfree. pose proof page_size_pos as Hps.
  assert (Hsz : 0 <= size) by (unfold inside in Hq; lia).
  pose proof (fun p => touches_range addr size p Ha Hsz Hm) as Ht.
  pose proof (fun p => inside_range addr size p Ha Hsz Hm) as Hi.
  pose proof (proj2 (Ht q) (inside_touches _ _ _ Hq)). pose proof (proj2 (Hi q) Hq).
  unfold reserve_bootmem, free_bootmem.
  set (st := PFN_DOWN addr) in *. set (en := PFN_UP (u64 (addr + size))) in *.
  set (st' := PFN_UP addr) in *. set (en' := PFN_DOWN (u64 (addr + size))) in *.
  destruct (mark_bootmem_spec s st en true BOOTMEM_EXCLUSIVE)
    as [(_ & s1 & Hr1 & Hok1 & Hp1)|((p & v & Hp & Hv & Hbad) & _)]; [done|lia| | | |].
  - rewrite Hfree by (apply Ht; lia). by eexists.
  - intros p Hp. rewrite Hfree by (by apply Ht). by eexists.
  - assert (Hset : forall p, st' <= p < en' -> page s1 p = Some true).
    { intros p Hp. rewrite Hp1. ranges; [done|]. apply Hi, inside_touches, Ht in Hp. lia. }
    destruct (mark_bootmem_spec s1 st' en' false 0)
      as [(_ & s2 & Hr2 & Hok2 & Hp2)|((p & v & Hp & Hv & Hbad) & _)]; [done|lia| | | |].
    + rewrite Hset by lia. by eexists.
    + intros p Hp. rewrite Hset by lia. by eexists.
    + exists s1, s2. rewrite Hr1, Hr2. split_and!; [done|done|done|].
      intros p. rewrite <- Ht, <- Hi, Hp2, Hp1. split_and!; intros; ranges; done.
    + rewrite Hset in Hv by done. injection Hv as <-. done.
  - rewrite Hfree in Hv by (by apply Ht). injection Hv as <-. done.
Qed.
End Ranges.

Lemma reserve_free_roundtrip_witness :
  exists s1 s2,
    @reserve_bootmem x86_64 0x46100 0x12000 BOOTMEM_EXCLUSIVE demo_boot = Done (0, s1) /\
    @free_bootmem x86_64 0x46100 0x12000 s1 = Done s2 /\
    page s1 70 = Some true /\ page s2 70 = Some true /\ page s2 71 = Some false /\
    page s2 88 = Some true /\ page s2 89 = Some false.
Proof.
  destruct (@reserve_free_roundtrip x86_64 x86_64_spec demo_boot 0x46100 0x12000)
    as (s1 & s2 & H1 & H2 & _ & Hp).
  - apply demo_boot_ok.
  - lia.
  - change (@PAGE_SIZE x86_64) with 4096. lia.
  - exists 75. unfold inside. change (@PAGE_SIZE x86_64) with 4096. lia.
  - intros p. unfold touches. change (@PAGE_SIZE x86_64) with 4096. intros Hp.
    assert (Hin : 70 <= p <= 88) by lia.
    apply demo_free. lia.
  - exists s1, s2. split; [done|]. split; [done|].
    vm_compute in H1. injection H1 as <-. vm_compute in H2. injection H2 as <-. done.
Defined.

(** A second node registered below the first one comes before it. *)
Definition one_node : bootmem :=
  mk_bootmem [demo_node 80 144 (Z.ones 64); mk_bdata 0 0 None 0 0] [0]%nat 0 0 0 [] false [].

Lemma init_bootmem_core_spec_witness :
  exists s', @init_bootmem_core x86_64 1 3 16 80 one_node = Done (8, s') /\
    boot_ok s' /\ bdata_list s' = [1; 0]%nat /\ page s' 16 = Some true /\ page s' 15 = None.
Proof.
  destruct (@init_bootmem_core_spec x86_64 x86_64_spec one_node 1 (mk_bdata 0 0 None 0 0) 3 16 80 16 80)
    as (s' & Hr & _ & Hok & _ & Hp).
  - split; [|done]. eexists. split; [done|]. split; [split_and!; [simpl; lia..|by eexists]|].
    intros j c Hj. inversion Hj.
  - done.
  - intros Hin. by apply list_elem_of_singleton in Hin.
  - done.
  - lia.
  - lia.
  - intros p Hp. unfold page, page_in, page_of. simpl. by ranges.
  - exists s'. vm_compute in Hr. split; [exact Hr|]. split; [done|].
    rewrite !Hp. injection Hr as <-. done.
Defined.
