(* ===== verification/BootmemAlloc.v ===== *)
(** * bootmem: allocation from a node

    The first-fit search of [alloc_bootmem_bdata] finds a block exactly when one
    exists, the block it takes is aligned, free and inside the node, and, as
    long as the page in which the last allocation ends is not freed, the byte
    ranges handed out never overlap. *)

From S2P Require Import Prelude Bootmem BootmemMark BootmemProps.

(** ** Rounding up *)
Definition up (x m : Z) : Z := m * ((x + m - 1) / m).

Lemma up_bounds x m : 0 < m -> x <= up x m < x + m.
Proof.
  intros Hm. unfold up. pose proof (Z.div_mod (x + m - 1) m). pose proof (Z.mod_pos_bound (x + m - 1) m). lia.
Qed.

Lemma up_divide x m : (m | up x m).
Proof. unfold up. apply Z.divide_factor_l. Qed.

Lemma up_least x m y : 0 < m -> x <= y -> (m | y) -> up x m <= y.
Proof.
  intros Hm Hy [q ->]. unfold up. rewrite (Z.mul_comm q). apply Z.mul_le_mono_nonneg_l; [lia|].
  enough ((x + m - 1) / m < q + 1) by lia. apply Z.div_lt_upper_bound; nia.
Qed.

Lemma up_id x m : 0 < m -> (m | x) -> up x m = x.
Proof. intros Hm Hd. pose proof (up_bounds x m Hm). pose proof (up_least x m x Hm ltac:(lia) Hd). lia. Qed.

(** A multiple of [m] above a multiple is at least [m] further on. *)
Lemma divide_next x y m : 0 < m -> (m | x) -> (m | y) -> x < y -> x + m <= y.
Proof. intros Hm [a ->] [b ->] Hlt. apply Z.mul_lt_mono_pos_r in Hlt; [|done]. nia. Qed.

Lemma first_set_spec map k : forall i,
  match first_set k i map with
  | Some x => i <= x < i + Z.of_nat k /\ Z.testbit map x = true
  | None => all_clear map i (i + Z.of_nat k)
  end.
Proof.
  induction k as [|k IH]; intros i; cbn [first_set]; [intros x Hx; lia|].
  unfold test_bit. destruct (Z.testbit map i) eqn:Hb; [split; [lia|done]|].
  specialize (IH (i + 1)). destruct (first_set k (i + 1) map).
  - split; [lia|tauto].
  - intros x Hx. destruct (Z.eq_dec x i) as [->|]; [done|]. apply IH. lia.
Qed.

Section Alloc.
Context `{BootArchSpec}.

(** A node of at most 64 TB whose allocation state is consistent: the page in
    which the last allocation ends is still reserved. *)
Definition alloc_ok (b : bootmem_data) : Prop :=
  node_ok b /\ node_low_pfn b * PAGE_SIZE <= 2 ^ 46 /\
  0 <= hint_idx b <= node_low_pfn b - node_min_pfn b /\
  0 <= last_end_off b <= (node_low_pfn b - node_min_pfn b) * PAGE_SIZE /\
  forall bm, node_bootmem_map b = Some bm -> last_end_off b mod PAGE_SIZE <> 0 ->
    Z.testbit (bm_bits bm) (last_end_off b / PAGE_SIZE) = true.

Lemma align_idx_up b idx j :
  0 <= node_min_pfn b -> 0 <= idx -> node_min_pfn b + idx < 2 ^ 62 -> 0 <= j <= 62 ->
  align_idx b idx (2 ^ j) = up (node_min_pfn b + idx) (2 ^ j) - node_min_pfn b.
Proof.
  intros Hm Hi Hb Hj. unfold align_idx.
  assert (0 < 2 ^ j) by (apply Z.pow_pos_nonneg; lia).
  assert (2 ^ j <= 2 ^ 62) by (apply Z.pow_le_mono_r; lia).
  rewrite (u64_small (node_min_pfn b + idx)) by (unfold is_u64; lia).
  rewrite ALIGN_spec by lia. fold (up (node_min_pfn b + idx) (2 ^ j)).
  pose proof (up_bounds (node_min_pfn b + idx) (2 ^ j)).
  apply u64_small. unfold is_u64. lia.
Qed.

(** ** The search *)
Section Search.
Variables (b : bootmem_data) (map size j midx : Z).
Let step := 2 ^ j.
Let n := PFN_UP size.
Hypotheses (Hmin : 0 <= node_min_pfn b) (Hmidx : 0 <= midx) (Hend : node_min_pfn b + midx < 2 ^ 61)
  (Hj : 0 <= j <= 62) (Hn : 1 <= n < 2 ^ 62).

(** A block of free pages of the wanted length and alignment at index [r]. *)
Definition fits (r : Z) : Prop :=
  all_clear map r (r + n) /\ r + n <= midx /\ (step | node_min_pfn b + r).

Lemma step_pos : 0 < step /\ step <= 2 ^ 62.
Proof using All. split; [apply Z.pow_pos_nonneg; lia|apply Z.pow_le_mono_r; lia]. Qed.

Lemma align_step idx : 0 <= idx <= midx ->
  align_idx b idx step = up (node_min_pfn b + idx) step - node_min_pfn b.
Proof using All. intros Hi. apply align_idx_up; lia. Qed.

(** From [sidx], no aligned block starts before the aligned index behind the
    next free page. *)
Lemma no_fit_before_zero sidx (z := find_next_zero_bit map midx sidx) r :
  0 <= sidx -> sidx <= r -> fits r -> z <= r /\ up (node_min_pfn b + z) step <= node_min_pfn b + r.
Proof using All.
  intros Hs Hr (Hc & He & Hd). pose proof step_pos as [Hp _].
  destruct (find_next_zero_bit_spec map midx sidx ltac:(lia)) as (_ & Hset & _). fold z in Hset.
  assert (Hz : z <= r).
  { destruct (Z.leb_spec z r); [done|]. specialize (Hset r ltac:(lia)). rewrite Hc in Hset by lia. done. }
  split; [done|]. apply up_least; [done|lia|done].
Qed.

Lemma zero_bounds sidx : 0 <= sidx -> 0 <= find_next_zero_bit map midx sidx <= midx /\
  Z.min sidx midx <= find_next_zero_bit map midx sidx.
Proof using All.
  intros Hs. destruct (Z.ltb_spec sidx midx).
  - destruct (find_next_zero_bit_spec map midx sidx ltac:(lia)) as (? & _). lia.
  - rewrite find_next_zero_bit_end by lia. lia.
Qed.

(** The search ends; it answers the first block at or above [sidx], or that
    there is none. *)
Lemma find_block_spec fuel : forall sidx,
  0 <= sidx -> Z.of_nat fuel > Z.max 0 (midx - sidx) ->
  exists res, find_block fuel b map size step midx sidx = Done res /\
    match res with
    | Some r => sidx <= r /\ fits r /\ forall r', sidx <= r' < r -> ~ fits r'
    | None => forall r', sidx <= r' -> ~ fits r'
    end.
Proof using All.
  induction fuel as [|fuel IH]; intros sidx Hs Hfuel; [lia|]. cbn [find_block]. fold n.
  pose proof step_pos as [Hp Hp62].
  pose proof (zero_bounds sidx Hs) as [Hz Hzs]. pose proof (no_fit_before_zero sidx) as Hbefore.
  cbn zeta in Hbefore. set (z := find_next_zero_bit map midx sidx) in *.
  rewrite (align_step z) by lia.
  pose proof (up_bounds (node_min_pfn b + z) step Hp) as Hu.
  pose proof (up_divide (node_min_pfn b + z) step) as Hud.
  set (u := up (node_min_pfn b + z) step) in *. remember (u - node_min_pfn b) as a eqn:Ha.
  rewrite (u64_small (a + n)) by (unfold is_u64; lia).
  destruct ((a >=? midx) || (a + n >? midx)) eqn:Hbreak.
  { exists None. split; [done|]. intros r' Hr' Hf. specialize (Hbefore r' Hs Hr' Hf).
    destruct Hf as (_ & He & _). apply orb_true_iff in Hbreak as [Hb|Hb]; lia. }
  apply orb_false_iff in Hbreak as [Hb1 Hb2].
  assert (Hsa : sidx <= a) by lia.
  pose proof (first_set_spec map (Z.to_nat (a + n - a)) a) as Hfs.
  replace (a + Z.of_nat (Z.to_nat (a + n - a))) with (a + n) in Hfs by lia.
  destruct (first_set _ a map) as [i|].
  - destruct Hfs as [Hi Hbit]. rewrite (align_step i) by lia.
    pose proof (up_bounds (node_min_pfn b + i) step Hp) as Hui.
    pose proof (up_divide (node_min_pfn b + i) step) as Hudi.
    set (v := up (node_min_pfn b + i) step) in *.
    set (next := if v - node_min_pfn b =? i then u64 (v - node_min_pfn b + step) else v - node_min_pfn b).
    assert (Hnext : i < next /\ forall r', sidx <= r' < next -> ~ fits r').
    { assert (Hno : forall r', sidx <= r' <= i -> ~ fits r').
      { intros r' Hr' Hf. specialize (Hbefore r' Hs ltac:(lia) Hf). destruct Hf as (Hc & _ & _).
        rewrite Hc in Hbit by (lia). done. }
      subst next. destruct (Z.eqb_spec (v - node_min_pfn b) i) as [Heq|Hne].
      - rewrite u64_small by (unfold is_u64; lia). split; [lia|].
        intros r' Hr' Hf. destruct (Z.leb_spec r' i); [by apply (Hno r'); [lia|]|].
        destruct Hf as (_ & _ & Hd). pose proof (divide_next v (node_min_pfn b + r') step Hp Hudi Hd). lia.
      - split; [lia|]. intros r' Hr' Hf. destruct (Z.leb_spec r' i); [by apply (Hno r'); [lia|]|].
        destruct Hf as (_ & _ & Hd).
        pose proof (up_least (node_min_pfn b + i) step (node_min_pfn b + r') Hp ltac:(lia) Hd).
        lia. }
    destruct Hnext as [Hin Hno]. destruct (IH next) as (res & Hres & Hspec); [lia|lia|].
    exists res. split; [exact Hres|]. destruct res as [r|].
    + destruct Hspec as (H1 & H2 & H3). split_and!; [lia|done|].
      intros r' Hr'. destruct (Z.ltb_spec r' next); [apply Hno; lia|apply H3; lia].
    + intros r' Hr'. destruct (Z.ltb_spec r' next); [apply Hno; lia|apply Hspec; lia].
  - exists (Some a). split; [done|]. split_and!; [lia| |].
    + split_and!; [done|lia|]. by replace (node_min_pfn b + a) with u by lia.
    + intros r' Hr' Hf. specialize (Hbefore r' Hs ltac:(lia) Hf). lia.
Qed.
End Search.

(** ** Taking the block *)

Lemma page_size_pow : PAGE_SIZE = 2 ^ PAGE_SHIFT.
Proof. unfold PAGE_SIZE. by rewrite Z.shiftl_1_l. Qed.

Lemma page_mask x : bool_of (Z.land x (PAGE_SIZE - 1)) = negb (x mod PAGE_SIZE =? 0).
Proof.
  pose proof page_shift_range. rewrite page_size_pow.
  replace (2 ^ PAGE_SHIFT - 1) with (Z.ones PAGE_SHIFT) by (rewrite Z.ones_equiv; lia).
  by rewrite Z.land_ones by lia.
Qed.

(** The step of the search covers the alignment in bytes. *)
Definition step_of (k : Z) : Z := Z.max (k - PAGE_SHIFT) 0.

Lemma align_divides k x : 0 <= k -> (2 ^ step_of k | x) -> (2 ^ k | x * PAGE_SIZE).
Proof.
  intros Hk [q ->]. pose proof page_shift_range. rewrite page_size_pow. unfold step_of.
  destruct (Z.leb_spec PAGE_SHIFT k).
  - exists q. rewrite Z.max_l by lia. rewrite <- Z.mul_assoc, <- Z.pow_add_r by lia. do 2 f_equal. lia.
  - exists (q * 2 ^ (PAGE_SHIFT - k)). rewrite Z.max_r by lia.
    rewrite Z.pow_0_r, Z.mul_1_r, <- Z.mul_assoc, <- Z.pow_add_r by lia. do 2 f_equal. lia.
Qed.

Lemma step_pow k : 0 <= k -> Z.max (Z.shiftr (2 ^ k) PAGE_SHIFT) 1 = 2 ^ step_of k.
Proof.
  intros Hk. pose proof page_shift_range. unfold step_of. rewrite Z.shiftr_div_pow2 by lia.
  destruct (Z.leb_spec PAGE_SHIFT k).
  - rewrite <- Z.pow_sub_r, (Z.max_l (k - PAGE_SHIFT)) by lia.
    assert (0 < 2 ^ (k - PAGE_SHIFT)) by (apply Z.pow_pos_nonneg; lia). lia.
  - rewrite (Z.max_r (k - PAGE_SHIFT)) by lia. rewrite Z.div_small; [done|].
    split; [apply Z.pow_nonneg; lia|apply Z.pow_lt_mono_r; lia].
Qed.

(** Where in the block the new region starts. *)
Definition region_off (b : bootmem_data) (align r : Z) : Z :=
  if bool_of (Z.land (last_end_off b) (PAGE_SIZE - 1)) &&
     (u64 (PFN_DOWN (last_end_off b) + 1) =? r)
  then align_off b (last_end_off b) align
  else PFN_PHYS r.

Lemma region_off_spec b k r :
  alloc_ok b -> 0 <= k <= 62 -> 0 <= r -> r <= node_low_pfn b - node_min_pfn b ->
  (2 ^ step_of k | node_min_pfn b + r) ->
  (2 ^ k | node_min_pfn b * PAGE_SIZE + region_off b (2 ^ k) r) /\
  (region_off b (2 ^ k) r = r * PAGE_SIZE \/
   last_end_off b mod PAGE_SIZE <> 0 /\ last_end_off b / PAGE_SIZE + 1 = r /\
   last_end_off b <= region_off b (2 ^ k) r < r * PAGE_SIZE).
Proof.
  intros ((Hm & _ & _) & Hdir & _ & Hlast & _) Hk Hr Hrm Hd. pose proof page_size_pos as Hps.
  assert (Hpk : 0 < 2 ^ k) by (apply Z.pow_pos_nonneg; lia).
  assert (Hpk2 : 2 ^ k <= 2 ^ 62) by (apply Z.pow_le_mono_r; lia).
  pose proof (align_divides k _ ltac:(lia) Hd) as Hdk. rewrite Z.mul_add_distr_r in Hdk.
  assert (Hrp : 0 <= r * PAGE_SIZE /\ (node_min_pfn b + r) * PAGE_SIZE <= 2 ^ 46) by nia.
  assert (Hbp : 0 <= node_min_pfn b * PAGE_SIZE) by nia.
  unfold region_off. rewrite page_mask.
  rewrite (PFN_DOWN_spec (last_end_off b)) by (unfold is_u64; lia).
  pose proof (Z.div_mod (last_end_off b) PAGE_SIZE) as Hdm.
  pose proof (Z.mod_pos_bound (last_end_off b) PAGE_SIZE Hps) as Hmb.
  set (q := last_end_off b / PAGE_SIZE) in *. assert (Hq : 0 <= q <= 2 ^ 46) by nia.
  rewrite u64_small by (unfold is_u64; lia).
  destruct (Z.eqb_spec (last_end_off b mod PAGE_SIZE) 0) as [H0'|Hne]; cbn [negb andb];
    [rewrite PFN_PHYS_spec by lia; by auto|].
  destruct (Z.eqb_spec (q + 1) r) as [Hqr|Hqr]; [|rewrite PFN_PHYS_spec by lia; by auto].
  unfold align_off. rewrite PFN_PHYS_spec by lia.
  rewrite (u64_small (_ + last_end_off b)) by (unfold is_u64; lia).
  rewrite ALIGN_spec by lia.
  fold (up (node_min_pfn b * PAGE_SIZE + last_end_off b) (2 ^ k)).
  pose proof (up_bounds (node_min_pfn b * PAGE_SIZE + last_end_off b) (2 ^ k) Hpk) as Hub.
  pose proof (up_divide (node_min_pfn b * PAGE_SIZE + last_end_off b) (2 ^ k)) as Hud.
  assert (Hlr : last_end_off b <= r * PAGE_SIZE) by (rewrite <- Hqr; lia).
  assert (Hle : node_min_pfn b * PAGE_SIZE + last_end_off b <= node_min_pfn b * PAGE_SIZE + r * PAGE_SIZE)
    by lia.
  pose proof (up_least _ _ _ Hpk Hle Hdk) as Hul.
  set (v := up _ (2 ^ k)) in *. rewrite u64_small by (unfold is_u64; lia).
  split; [by replace (node_min_pfn b * PAGE_SIZE + (v - node_min_pfn b * PAGE_SIZE)) with v by lia|].
  destruct (Z.eq_dec v (node_min_pfn b * PAGE_SIZE + r * PAGE_SIZE)); [left; lia|].
  right. split_and!; [done|lia|lia|lia].
Qed.

Lemma page_le x y : x <= y -> x * PAGE_SIZE <= y * PAGE_SIZE.
Proof. pose proof page_size_pos. intros. apply Z.mul_le_mono_nonneg_r; lia. Qed.

Lemma pfn_up_bounds x :
  0 <= x -> x + PAGE_SIZE - 1 < 2 ^ 64 -> x <= PFN_UP x * PAGE_SIZE < x + PAGE_SIZE.
Proof.
  intros Hx Hm. pose proof page_size_pos as Hps.
  pose proof (proj1 (pfn_up_le x (PFN_UP x) Hx Hm) (Z.le_refl _)).
  pose proof (pfn_up_le x (PFN_UP x - 1) Hx Hm) as Hn. lia.
Qed.

(** The node after a region that ends at offset [e] was taken from index [r]. *)
Definition taken (b : bootmem_data) (bits r e : Z) : bootmem_data :=
  set_bits (set_range bits r (PFN_UP e)) (set_hint (PFN_UP e) (set_last e b)).

Section Take.
Variables (b : bootmem_data) (bm : bitmap) (size k midx r : Z).
Let off := region_off b (2 ^ k) r.
Hypotheses (Hok : alloc_ok b) (Hmap : node_bootmem_map b = Some bm) (Hsize : 0 < size < 2 ^ 62)
  (Hk : 0 <= k <= 62) (Hr : 0 <= r) (Hmidx : midx <= node_low_pfn b - node_min_pfn b)
  (Hfit : fits b (bm_bits bm) size (step_of k) midx r).

(** The region lies in the block, or starts in the page in front of it behind
    the last allocation. *)
Lemma region_bounds :
  off <= r * PAGE_SIZE /\ 0 <= off /\ (r - 1) * PAGE_SIZE < off /\
  off + size <= (r + PFN_UP size) * PAGE_SIZE /\ off + size <= 2 ^ 46 /\
  (node_min_pfn b * PAGE_SIZE + off) + size <= 2 ^ 46 /\
  r <= PFN_UP (off + size) <= r + PFN_UP size.
Proof using All.
  pose proof page_size_pos as Hps. pose proof page_size_le as Hpl.
  pose proof Hok as ((Hm & _ & _) & Hdir & _ & Hlast & _). destruct Hfit as (_ & He & Hd).
  pose proof (pfn_up_bounds size ltac:(lia) ltac:(lia)) as Hn.
  assert (Hn1 : 0 < PFN_UP size) by (pose proof (page_le (PFN_UP size) 0); lia).
  destruct (region_off_spec b k r Hok Hk Hr ltac:(lia) Hd) as [_ Hoff]. fold off in Hoff.
  pose proof (Z.div_mod (last_end_off b) PAGE_SIZE) as Hdm.
  pose proof (Z.mod_pos_bound (last_end_off b) PAGE_SIZE Hps) as Hmb.
  set (q := last_end_off b / PAGE_SIZE) in *. set (n := PFN_UP size) in *.
  assert (Hend : node_min_pfn b * PAGE_SIZE + (r + n) * PAGE_SIZE <= 2 ^ 46)
    by (pose proof (page_le (node_min_pfn b + (r + n)) (node_low_pfn b)); lia).
  assert (Hb0 : 0 <= node_min_pfn b * PAGE_SIZE) by (apply (page_le 0); lia).
  assert (Hr0 : 0 <= r * PAGE_SIZE) by (apply (page_le 0); lia).
  assert (H1 : off <= r * PAGE_SIZE) by lia.
  assert (H2 : (r - 1) * PAGE_SIZE < off /\ 0 <= off).
  { destruct Hoff as [->|(Hne & Hq & Hlo & _)]; [lia|]. rewrite <- Hq. lia. }
  pose proof (pfn_up_le (off + size) (r - 1)). pose proof (pfn_up_le (off + size) (r + n)). lia.
Qed.

Lemma take_block_spec :
  take_block b size (2 ^ k) r =
    Done (phys_to_virt (node_min_pfn b * PAGE_SIZE + off), taken b (bm_bits bm) r (off + size)).
Proof using All.
  pose proof page_size_pos as Hps. pose proof region_bounds as (H1 & H2 & H3 & H4 & H5 & H6 & H7).
  pose proof Hok as ((Hm & _ & _) & Hdir & _). destruct Hfit as (Hc & He & _).
  assert (Hb0 : 0 <= node_min_pfn b * PAGE_SIZE) by (apply (page_le 0); lia).
  unfold take_block. fold (region_off b (2 ^ k) r). fold off.
  rewrite (u64_small (off + size)) by (unfold is_u64; lia).
  assert (Hidx : u64 (PFN_DOWN off + Z.b2z (PFN_DOWN off <? r)) = r).
  { pose proof (pfn_down_le off r ltac:(unfold is_u64; lia)).
    pose proof (pfn_down_le off (r - 1) ltac:(unfold is_u64; lia)).
    pose proof (pfn_down_le off (r + 1) ltac:(unfold is_u64; lia)).
    assert (r < 2 ^ 47) by (pose proof (page_le (2 ^ 47) r); lia).
    destruct (Z.ltb_spec (PFN_DOWN off) r); cbn [Z.b2z]; rewrite u64_small by (unfold is_u64; lia); lia. }
  rewrite Hidx. assert (Hre : 0 <= r <= PFN_UP (off + size)) by lia.
  destruct (__reserve_exclusive (set_hint (PFN_UP (off + size)) (set_last (off + size) b)) bm r
    (PFN_UP (off + size)) BOOTMEM_EXCLUSIVE Hmap Hre eq_refl) as [[_ ->]|[(i & Hi & Hb) _]].
  - cbn [mbind outcome_bind bool_of BUG_ON Z.eqb negb node_min_pfn set_bits set_map set_hint set_last].
    rewrite PFN_PHYS_spec by lia. by rewrite u64_small by (unfold is_u64; lia).
  - rewrite Hc in Hb by lia. done.
Qed.

(** The consistency of the node outlives the allocation. *)
Lemma taken_ok : alloc_ok (taken b (bm_bits bm) r (off + size)).
Proof using All.
  pose proof page_size_pos as Hps. pose proof region_bounds as (H1 & H2 & H3 & H4 & H5 & H6 & H7).
  pose proof Hok as (Hnode & Hdir & _ & _ & Htail). pose proof Hfit as (Hc & He & Hd).
  assert (Hrn : (r + PFN_UP size) * PAGE_SIZE <= (node_low_pfn b - node_min_pfn b) * PAGE_SIZE)
    by (apply page_le; lia).
  split; [|split_and!].
  - eapply node_ok_same; [|exact Hnode]. apply (same_node_set_bits (set_hint _ (set_last _ b))).
  - done.
  - simpl. lia.
  - simpl. lia.
  - simpl. lia.
  - simpl. lia.
  - intros bm' Hbm'. simpl in Hbm'. rewrite Hmap in Hbm'. injection Hbm' as <-.
    cbn [taken set_bits set_map set_hint set_last last_end_off bm_bits]. intros Hne.
    pose proof (Z.div_mod (off + size) PAGE_SIZE) as Hdm.
    pose proof (Z.mod_pos_bound (off + size) PAGE_SIZE Hps) as Hmb.
    set (q := (off + size) / PAGE_SIZE) in *.
    pose proof (pfn_up_le (off + size) q) as Hup. pose proof (page_le q (r - 2)) as Hq2. pose proof page_size_le as Hpl.
    assert (Hq0 : 0 <= q) by (apply Z.div_pos; lia).
    rewrite set_range_bit by lia. apply orb_true_iff.
    destruct (Z.leb_spec r q); [right; apply in_range_true; lia|left].
    destruct (region_off_spec b k r Hok Hk Hr ltac:(lia) Hd) as [_ [Ho|(Hl0 & Hl & Ho)]]; fold off in Ho.
    + pose proof (page_le q (r - 1)). lia.
    + replace q with (last_end_off b / PAGE_SIZE) by lia. by apply Htail.
Qed.
End Take.

(** ** The whole allocation *)

(** The page frame behind the searched part of the node. *)
Definition search_end (b : bootmem_data) (limit : Z) : Z :=
  let limit := Z.shiftr limit PAGE_SHIFT in
  if bool_of limit && (node_low_pfn b >? limit) then limit else node_low_pfn b.

(** The first index at which a block may start. *)
Definition search_from (b : bootmem_data) (goal limit : Z) : Z :=
  let goal := Z.shiftr goal PAGE_SHIFT in
  if bool_of goal && (node_min_pfn b <? goal) && (goal <? search_end b limit)
  then goal - node_min_pfn b else 0.

Lemma pow2_guard k : 0 <= k <= 62 -> bool_of (Z.land (2 ^ k) (u64 (2 ^ k - 1))) = false.
Proof.
  intros Hk. assert (0 < 2 ^ k) by (apply Z.pow_pos_nonneg; lia).
  assert (2 ^ k <= 2 ^ 62) by (apply Z.pow_le_mono_r; lia).
  rewrite u64_small by (unfold is_u64; lia).
  replace (2 ^ k - 1) with (Z.ones k) by (rewrite Z.ones_equiv; lia).
  rewrite Z.land_ones, Z.mod_same by lia. done.
Qed.

Lemma shiftr_page_le x : 0 <= x -> 0 <= Z.shiftr x PAGE_SHIFT /\ Z.shiftr x PAGE_SHIFT * PAGE_SIZE <= x.
Proof.
  intros Hx. pose proof page_shift_range. pose proof page_size_pos.
  rewrite Z.shiftr_div_pow2, <- page_size_pow by lia.
  split; [by apply Z.div_pos|]. rewrite Z.mul_comm. by apply Z.mul_div_le.
Qed.

(** What the node answers when the search ended: the rest of the function. *)
Definition alloc_finish (b : bootmem_data) (size align : Z) (res : option Z) : outcome (Z * bootmem_data) :=
  match res with
  | Some r => take_block b size align r
  | None => Done (0, b)
  end.

Section Whole.
Variables (b : bootmem_data) (bm : bitmap) (size k goal limit : Z).
Let max := search_end b limit.
Let midx := max - node_min_pfn b.
Let from := search_from b goal limit.
Let fit := fits b (bm_bits bm) size (step_of k) midx.
Hypotheses (Hok : alloc_ok b) (Hmap : node_bootmem_map b = Some bm) (Hsize : 0 < size < 2 ^ 62)
  (Hk : 0 <= k <= 62) (Hgoal : is_u64 goal) (Hlimit : is_u64 limit)
  (Hgl : limit = 0 \/ goal + size <= limit).

Lemma search_bounds : 0 <= from /\ max <= node_low_pfn b /\ (max > node_min_pfn b -> from <= midx) /\
  node_low_pfn b <= 2 ^ 46 /\ 1 <= PFN_UP size < 2 ^ 62.
Proof using All.
  pose proof page_size_pos as Hps. pose proof page_size_le as Hpl.
  pose proof Hok as ((Hm & _ & _) & Hdir & _).
  pose proof (shiftr_page_le goal ltac:(unfold is_u64 in Hgoal; lia)) as [Hg _].
  assert (Hmax : max <= node_low_pfn b) by (unfold max, search_end; destruct (_ && _) eqn:He; zb; lia).
  assert (Hlow : node_low_pfn b <= 2 ^ 46)
    by (pose proof (Z.mul_le_mono_nonneg_l 1 PAGE_SIZE (node_low_pfn b)); lia).
  pose proof (pfn_up_bounds size) as Hn. pose proof (page_le (PFN_UP size) 0).
  pose proof (page_le (2 ^ 62) (PFN_UP size)). pose proof (pfn_up_le size (2 ^ 62 - 1)).
  assert (Hfm : 0 <= from /\ (max > node_min_pfn b -> from <= midx)).
  { subst from midx. unfold search_from. fold max. destruct (_ && _) eqn:He; zb; lia. }
  split_and!; try tauto; try lia.
Qed.

(** The search of the code, written with the index the blocks start from. *)
Lemma find_from fuel sidx :
  0 <= sidx -> node_min_pfn b < max -> Z.of_nat fuel > Z.max 0 (midx - sidx) ->
  exists res, find_block fuel b (bm_bits bm) size (2 ^ step_of k) midx sidx = Done res /\
    match res with
    | Some r => sidx <= r /\ fit r /\ forall r', sidx <= r' < r -> ~ fit r'
    | None => forall r', sidx <= r' -> ~ fit r'
    end.
Proof using All.
  intros Hs Hmax Hf. pose proof search_bounds as (H1 & H2 & H3 & H4 & H5).
  pose proof Hok as ((Hm & _ & _) & _). pose proof page_shift_range.
  apply find_block_spec; unfold step_of, midx in *; lia.
Qed.

(** The allocation takes a block that fits, at or above the first index, or
    there is none. *)
Lemma alloc_search : exists res,
  alloc_bootmem_bdata b size (2 ^ k) goal limit = alloc_finish b size (2 ^ k) res /\
  match res with
  | Some r => from <= r /\ fit r
  | None => forall r, from <= r -> ~ fit r
  end.
Proof using All.
  pose proof search_bounds as (Hfrom & Hmaxl & Hfm & Hlow & Hn).
  pose proof Hok as ((Hm & _ & _) & _ & Hhint & _). pose proof page_shift_range as Hsh.
  unfold alloc_bootmem_bdata. rewrite pow2_guard, Hmap by done.
  destruct (Z.eqb_spec size 0); [lia|]. cbn [mbind outcome_bind BUG_ON].
  assert (bool_of limit && (u64 (goal + size) >? limit) = false) as ->.
  { destruct Hgl as [->|Hgl']; [done|]. apply andb_false_iff. right.
    unfold is_u64 in *. rewrite u64_small by (unfold is_u64; lia). lia. }
  cbn [mbind outcome_bind BUG_ON]. rewrite step_pow by lia. fold (search_end b limit). fold max.
  destruct (Z.leb_spec max (node_min_pfn b)) as [Hle|Hgt].
  { exists None. split; [done|]. intros r Hr (_ & He & _). unfold midx in He. lia. }
  assert (Hj : 0 <= step_of k <= 62) by (unfold step_of; lia).
  assert (Hstep : 0 < 2 ^ step_of k <= 2 ^ 62) by (split; [apply Z.pow_pos_nonneg; lia|apply Z.pow_le_mono_r; lia]).
  pose (a0 := up (node_min_pfn b + from) (2 ^ step_of k) - node_min_pfn b).
  pose proof (up_bounds (node_min_pfn b + from) (2 ^ step_of k) ltac:(lia)) as Hup.
  assert (Hstart : u64 ((if bool_of (goal ≫ PAGE_SHIFT) && (node_min_pfn b <? goal ≫ PAGE_SHIFT) &&
      (goal ≫ PAGE_SHIFT <? max) then ALIGN (goal ≫ PAGE_SHIFT) (2 ^ step_of k)
      else ALIGN (node_min_pfn b) (2 ^ step_of k)) - node_min_pfn b) = a0).
  { subst a0. specialize (Hfm ltac:(lia)). unfold from, search_from in *. fold max in Hup, Hfm |- *.
    destruct (_ && _) eqn:He; rewrite ALIGN_spec by (unfold midx in *; lia);
      [replace (node_min_pfn b + (goal ≫ PAGE_SHIFT - node_min_pfn b)) with (goal ≫ PAGE_SHIFT) in * by lia
      |rewrite Z.add_0_r in *]; apply u64_small; unfold is_u64, up, midx in *; lia. }
  rewrite Hstart. clear Hstart. rewrite (u64_small (max - node_min_pfn b)) by (unfold is_u64; lia). fold midx.
  assert (Ha0 : 0 <= a0) by (unfold a0; lia).
  assert (Hfit : forall r, from <= r -> fit r -> a0 <= r).
  { intros r Hr (_ & _ & Hd).
    pose proof (up_least (node_min_pfn b + from) (2 ^ step_of k) (node_min_pfn b + r) ltac:(lia) ltac:(lia) Hd).
    lia. }
  assert (Hfa : from <= a0) by (unfold a0; lia).
  destruct (Z.gtb_spec (hint_idx b) a0) as [Hh|Hh].
  - rewrite (align_idx_up b (hint_idx b)) by lia.
    pose proof (up_bounds (node_min_pfn b + hint_idx b) (2 ^ step_of k) ltac:(lia)) as Huh.
    destruct (find_from (S (S (Z.to_nat midx))) (up (node_min_pfn b + hint_idx b) (2 ^ step_of k) - node_min_pfn b))
      as (res0 & -> & Hres0); [lia|lia|unfold midx; lia|].
    cbn [mbind outcome_bind]. destruct res0 as [r|].
    { exists (Some r). split; [done|]. destruct Hres0 as (? & ? & _). split; [lia|done]. }
    rewrite (u64_small (a0 + 1)), (u64_small (a0 + 1 - 1)) by (unfold is_u64; lia).
    replace (bool_of (a0 + 1)) with true by (unfold bool_of; lia).
    replace (a0 + 1 - 1) with a0 by lia. rewrite align_idx_up by lia.
    rewrite up_id; [|lia|unfold a0; replace (node_min_pfn b + (_ - node_min_pfn b))
      with (up (node_min_pfn b + from) (2 ^ step_of k)) by lia; apply up_divide].
    replace (node_min_pfn b + a0 - node_min_pfn b) with a0 by lia.
    destruct (find_from (S (S (Z.to_nat midx))) a0) as (res & -> & Hres); [lia|lia|unfold midx; lia|].
    exists res. split; [by destruct res|]. destruct res as [r|]; [destruct Hres as (? & ? & _); split; [lia|done]|].
    intros r Hr Hf. apply (Hres r); [by apply Hfit|done].
  - destruct (find_from (S (S (Z.to_nat midx))) a0) as (res & -> & Hres); [lia|lia|unfold midx; lia|].
    exists res. split; [by destruct res|]. destruct res as [r|]; [destruct Hres as (? & ? & _); split; [lia|done]|].
    intros r Hr Hf. apply (Hres r); [by apply Hfit|done].
Qed.
End Whole.

(** Everything about a region that was handed out: [pa] is its physical
    address, [r] the index of the block it was taken from. *)
Definition region_ok (b : bootmem_data) (bits size k goal limit r pa : Z) : Prop :=
  search_from b goal limit <= r /\
  fits b bits size (step_of k) (search_end b limit - node_min_pfn b) r /\
  (2 ^ k | pa) /\ node_min_pfn b * PAGE_SIZE <= pa /\ pa + size <= search_end b limit * PAGE_SIZE /\
  (pa = (node_min_pfn b + r) * PAGE_SIZE \/
   last_end_off b mod PAGE_SIZE <> 0 /\ last_end_off b / PAGE_SIZE + 1 = r /\
   node_min_pfn b * PAGE_SIZE + last_end_off b <= pa < (node_min_pfn b + r) * PAGE_SIZE).

Lemma alloc_bdata_cases b bm size k goal limit :
  alloc_ok b -> node_bootmem_map b = Some bm -> 0 < size < 2 ^ 62 -> 0 <= k <= 62 ->
  is_u64 goal -> is_u64 limit -> limit = 0 \/ goal + size <= limit ->
  (forall r, search_from b goal limit <= r ->
     ~ fits b (bm_bits bm) size (step_of k) (search_end b limit - node_min_pfn b) r) /\
    alloc_bootmem_bdata b size (2 ^ k) goal limit = Done (0, b) \/
  exists r pa b', region_ok b (bm_bits bm) size k goal limit r pa /\
    alloc_bootmem_bdata b size (2 ^ k) goal limit = Done (phys_to_virt pa, b') /\
    phys_to_virt pa <> 0 /\ alloc_ok b' /\
    b' = taken b (bm_bits bm) r (pa + size - node_min_pfn b * PAGE_SIZE).
Proof.
  intros Hok Hmap Hsize Hk Hgoal Hlimit Hgl.
  pose proof (search_bounds b bm size k goal limit Hok Hmap Hsize Hk Hgoal Hlimit Hgl)
    as (Hfrom & Hmax & _ & _ & _).
  destruct (alloc_search b bm size k goal limit Hok Hmap Hsize Hk Hgoal Hlimit Hgl)
    as ([r|] & -> & Hres); [right|by left].
  destruct Hres as [Hr Hfit]. pose proof Hok as ((Hm & _ & _) & _).
  assert (Hr0 : 0 <= r) by lia.
  assert (Hml : search_end b limit - node_min_pfn b <= node_low_pfn b - node_min_pfn b) by lia.
  pose proof (region_bounds b bm size k _ r Hok Hmap Hsize Hk Hr0 Hml Hfit) as (H1 & H2 & H3 & H4 & H5 & H6 & H7).
  pose proof Hfit as (_ & He & Hd).
  assert (Hrl : r <= node_low_pfn b - node_min_pfn b).
  { pose proof (pfn_up_le size 0). pose proof (page_le (PFN_UP size) 0). pose proof page_size_le. lia. }
  destruct (region_off_spec b k r Hok Hk Hr0 Hrl Hd) as [Hal Hoff].
  assert (Hb0 : 0 <= node_min_pfn b * PAGE_SIZE) by (apply (page_le 0); lia).
  assert (Hlast : (node_min_pfn b + (r + PFN_UP size)) * PAGE_SIZE <= search_end b limit * PAGE_SIZE)
    by (apply page_le; lia).
  exists r, (node_min_pfn b * PAGE_SIZE + region_off b (2 ^ k) r),
    (taken b (bm_bits bm) r (region_off b (2 ^ k) r + size)).
  split_and!.
  - split_and!; [done|done|done|lia|lia|].
    destruct Hoff as [Hoff|(Hne & Hq & Hlo)]; [left; lia|right; split; [done|split; [done|lia]]].
  - cbn [alloc_finish]. by apply (take_block_spec b bm size k (search_end b limit - node_min_pfn b)).
  - apply phys_to_virt_nonnull. lia.
  - by apply (taken_ok b bm size k (search_end b limit - node_min_pfn b)).
  - f_equal. lia.
Qed.

(** [alloc_bootmem_bdata] on a consistent node always returns.  It answers
    NULL and leaves the node alone exactly when no aligned run of free pages of
    the wanted length starts at or above the goal and ends below the limit.
    Otherwise it answers an address that is aligned as requested, inside the
    node and below the limit, that starts a run of pages that were free, or
    the tail of the last allocation's page in front of such a run; exactly the
    pages of the run that the region reaches become reserved, and the node stays
    consistent. *)
Theorem alloc_bootmem_bdata_spec b bm size k goal limit :
  alloc_ok b -> node_bootmem_map b = Some bm -> 0 < size < 2 ^ 62 -> 0 <= k <= 62 ->
  is_u64 goal -> is_u64 limit -> limit = 0 \/ goal + size <= limit ->
  (forall r, search_from b goal limit <= r ->
     ~ fits b (bm_bits bm) size (step_of k) (search_end b limit - node_min_pfn b) r) /\
    alloc_bootmem_bdata b size (2 ^ k) goal limit = Done (0, b) \/
  exists r pa b', region_ok b (bm_bits bm) size k goal limit r pa /\
    alloc_bootmem_bdata b size (2 ^ k) goal limit = Done (phys_to_virt pa, b') /\
    phys_to_virt pa <> 0 /\ alloc_ok b' /\
    b' = taken b (bm_bits bm) r (pa + size - node_min_pfn b * PAGE_SIZE).
Proof. apply alloc_bdata_cases. Qed.
End Alloc.

(** ** An example node: pages 16 to 79, the first four and page 30 reserved, the
    last allocation ended 100 bytes into page 19. *)
Definition alloc_node : bootmem_data :=
  mk_bdata 16 80 (Some (mk_bitmap 0xffff888000001000 (Z.setbit (Z.ones 4) 14))) (3 * 4096 + 100) 4.

Lemma alloc_node_ok : @alloc_ok x86_64 alloc_node.
Proof.
  split; [split_and!; [simpl; lia..|by eexists]|].
  split; [apply Z.leb_le; reflexivity|]. split; [simpl; lia|]. split.
  { change (@PAGE_SIZE x86_64) with 4096. simpl. lia. }
  intros bm [= <-] _. reflexivity.
Qed.

Lemma alloc_bootmem_bdata_spec_witness :
  exists pa b', @alloc_bootmem_bdata x86_64 alloc_node 0x9000 (2 ^ 6) 0 0 = Done (@phys_to_virt x86_64 pa, b') /\
    @phys_to_virt x86_64 pa <> 0 /\ @alloc_ok x86_64 b' /\ pa = 0x13080 /\ hint_idx b' = 13.
Proof.
  destruct (@alloc_bootmem_bdata_spec x86_64 x86_64_spec alloc_node
    (mk_bitmap 0xffff888000001000 (Z.setbit (Z.ones 4) 14)) 0x9000 6 0 0)
    as [[_ Hr]|(r & pa & b' & Hreg & Hr & Hnz & Hok & Hb')].
  - apply alloc_node_ok.
  - done.
  - lia.
  - lia.
  - unfold is_u64. lia.
  - unfold is_u64. lia.
  - by left.
  - exfalso. vm_compute in Hr. discriminate Hr.
  - exists pa, b'. split; [exact Hr|]. split; [done|]. split; [done|].
    destruct Hreg as (_ & _ & _ & Hlo & Hhi & _).
    change (@PAGE_SIZE x86_64) with 4096 in Hlo, Hhi. change (node_min_pfn alloc_node * 4096) with 65536 in Hlo.
    change (@search_end x86_64 alloc_node 0 * 4096) with 327680 in Hhi.
    change (@phys_to_virt x86_64 pa) with (u64 (pa + 0xffff888000000000)) in Hr.
    rewrite u64_small in Hr by (unfold is_u64; lia).
    assert (Hcomp : exists c, @alloc_bootmem_bdata x86_64 alloc_node 0x9000 (2 ^ 6) 0 0 =
      Done (0x13080 + 0xffff888000000000, c) /\ hint_idx c = 13) by (eexists; vm_compute; done).
    destruct Hcomp as (c & Hc & Hh). rewrite Hc in Hr. injection Hr as Hpa Hcb. subst c. split; [lia|done].
Defined.
