(* ===== verification/BootmemLive.v ===== *)
(** * bootmem: regions in use never overlap

    The operations on one node as a step relation on the node and the list of
    byte ranges its callers hold, and the invariant by which ranges handed out
    later are disjoint from those still held. *)

From stdpp Require Import relations.
From S2P Require Import Prelude Bootmem BootmemMark BootmemProps BootmemAlloc.

Section Live.
Context `{BootArchSpec}.

(** A physical address and a size in bytes. *)
Abbreviation region := (Z * Z)%type.

Definition disjoint (x y : region) : Prop := x.1 + x.2 <= y.1 \/ y.1 + y.2 <= x.1.

Definition base (b : bootmem_data) : Z := node_min_pfn b * PAGE_SIZE.

(** One operation: an allocation whose result the caller keeps, a caller that
    gives a region up, a reservation, and a free of pages of which nobody holds
    a byte and that leaves the page of the last allocation alone. *)
Inductive boot_step : bootmem_data * list region -> bootmem_data * list region -> Prop :=
| step_alloc b L size k goal limit pa b' :
    0 < size < 2 ^ 62 -> 0 <= k <= 62 -> is_u64 goal -> is_u64 limit ->
    limit = 0 \/ goal + size <= limit -> 0 <= pa < 2 ^ 46 ->
    alloc_bootmem_bdata b size (2 ^ k) goal limit = Done (phys_to_virt pa, b') ->
    boot_step (b, L) (b', (pa, size) :: L)
| step_drop b L1 x L2 : boot_step (b, L1 ++ x :: L2) (b, L1 ++ L2)
| step_reserve b L s e flags err b' :
    0 <= s <= e -> __reserve b s e flags = Done (err, b') -> boot_step (b, L) (b', L)
| step_free b L s e b' :
    0 <= s <= e ->
    (forall x p, x ∈ L -> touches x.1 x.2 p -> ~ (s <= p - node_min_pfn b < e)) ->
    (last_end_off b mod PAGE_SIZE <> 0 -> ~ (s <= last_end_off b / PAGE_SIZE < e)) ->
    __free b s e = Done b' -> boot_step (b, L) (b', L).

(** What holds of a region in use: it lies on the node, its pages are reserved
    and it keeps out of the rest of the page of the last allocation. *)
Definition region_inv (b : bootmem_data) (bits : Z) (x : region) : Prop :=
  base b <= x.1 /\ 0 < x.2 /\
  (forall p, touches x.1 x.2 p -> Z.testbit bits (p - node_min_pfn b) = true) /\
  (x.1 + x.2 <= base b + last_end_off b \/ base b + PFN_UP (last_end_off b) * PAGE_SIZE <= x.1).

Definition live_inv (st : bootmem_data * list region) : Prop :=
  exists bm, alloc_ok st.1 /\ node_bootmem_map st.1 = Some bm /\
    Forall (region_inv st.1 (bm_bits bm)) st.2 /\ ForallOrdPairs disjoint st.2.

Lemma touches_byte pa size x : pa <= x < pa + size -> touches pa size (x / PAGE_SIZE).
Proof.
  intros Hx. pose proof page_size_pos as Hps. unfold touches.
  pose proof (Z.div_mod x PAGE_SIZE) as Hdm. pose proof (Z.mod_pos_bound x PAGE_SIZE Hps) as Hmb.
  set (q := x / PAGE_SIZE) in *. lia.
Qed.

Lemma pfn_up_tail x : 0 <= x < 2 ^ 62 -> x mod PAGE_SIZE <> 0 -> PFN_UP x = x / PAGE_SIZE + 1.
Proof.
  intros Hx Hne. pose proof page_size_pos as Hps. pose proof page_size_le as Hpl.
  pose proof (Z.div_mod x PAGE_SIZE) as Hdm. pose proof (Z.mod_pos_bound x PAGE_SIZE Hps) as Hmb.
  set (q := x / PAGE_SIZE) in *.
  pose proof (pfn_up_le x q). pose proof (pfn_up_le x (q + 1)). lia.
Qed.

Lemma pfn_up_multiple x : 0 <= x < 2 ^ 62 -> x mod PAGE_SIZE = 0 -> PFN_UP x * PAGE_SIZE = x.
Proof.
  intros Hx He. pose proof page_size_pos as Hps. pose proof page_size_le as Hpl.
  pose proof (Z.div_mod x PAGE_SIZE) as Hdm. set (q := x / PAGE_SIZE) in *.
  pose proof (pfn_up_bounds x) as Hb. pose proof (pfn_up_le x q).
  pose proof (page_le (PFN_UP x) q). lia.
Qed.

(** A region meets another one where some page of both is. *)
Lemma disjoint_by_page (x y : region) :
  (forall i, x.1 <= i < x.1 + x.2 -> y.1 <= i < y.1 + y.2 -> False) ->
  0 < x.2 -> 0 < y.2 -> disjoint x y.
Proof.
  intros Hno Hx Hy. unfold disjoint.
  destruct (Z.leb_spec (x.1 + x.2) y.1); [by left|].
  destruct (Z.leb_spec (y.1 + y.2) x.1); [by right|].
  exfalso. apply (Hno (Z.max x.1 y.1)); lia.
Qed.

(** ** Allocation *)

(** The region behind an address that was handed out. *)
Lemma alloc_node_region b bm size k goal limit pa b' :
  alloc_ok b -> node_bootmem_map b = Some bm -> 0 < size < 2 ^ 62 -> 0 <= k <= 62 ->
  is_u64 goal -> is_u64 limit -> limit = 0 \/ goal + size <= limit -> 0 <= pa < 2 ^ 46 ->
  alloc_bootmem_bdata b size (2 ^ k) goal limit = Done (phys_to_virt pa, b') ->
  exists r, region_ok b (bm_bits bm) size k goal limit r pa /\ alloc_ok b' /\
    b' = taken b (bm_bits bm) r (pa + size - base b).
Proof.
  intros Hok Hmap Hsize Hk Hg Hl Hgl Hpa Halloc.
  destruct (alloc_bdata_cases b bm size k goal limit Hok Hmap Hsize Hk Hg Hl Hgl)
    as [[_ Hr]|(r & pb & b0 & Hreg & Hr & Hnz & Hok' & Hb0)]; rewrite Halloc in Hr.
  - injection Hr as Hz _. by destruct (phys_to_virt_nonnull pa Hpa).
  - injection Hr as Hpp Hbb. subst b0. exists r.
    assert (pb = pa) as <-; [|done].
    symmetry. apply phys_to_virt_inj; [done| |done].
    destruct Hreg as (_ & _ & _ & Hlo & Hhi & _). pose proof Hok as ((Hm & _ & _) & Hdir & _).
    assert (0 <= node_min_pfn b * PAGE_SIZE) by (apply (page_le 0); lia).
    assert (search_end b limit * PAGE_SIZE <= node_low_pfn b * PAGE_SIZE).
    { apply page_le. unfold search_end. destruct (_ && _) eqn:Hb; zb; lia. }
    lia.
Qed.

Section Taken.
Variables (b : bootmem_data) (bm : bitmap) (size k goal limit r pa : Z).
Hypotheses (Hok : alloc_ok b) (Hmap : node_bootmem_map b = Some bm) (Hsize : 0 < size < 2 ^ 62)
  (Hpa : 0 <= pa < 2 ^ 46) (Hreg : region_ok b (bm_bits bm) size k goal limit r pa).
Let e := pa + size - base b.
Let b' := taken b (bm_bits bm) r e.
Let bits' := set_range (bm_bits bm) r (PFN_UP e).

(** The pages of the block, and what lies in front of it. *)
Lemma taken_geometry :
  0 <= r /\ (forall i, r <= i < PFN_UP e -> Z.testbit (bm_bits bm) i = false) /\
  0 < e <= 2 ^ 46 /\ r <= PFN_UP e /\ (r - 1) * PAGE_SIZE < e /\
  (pa = base b + r * PAGE_SIZE \/
   last_end_off b mod PAGE_SIZE <> 0 /\ last_end_off b / PAGE_SIZE = r - 1 /\
   PFN_UP (last_end_off b) = r /\ base b + last_end_off b <= pa < base b + r * PAGE_SIZE).
Proof using All.
  pose proof page_size_pos as Hps. pose proof page_size_le as Hpl.
  pose proof Hok as ((Hm & _ & _) & Hdir & _ & Hlast & _).
  destruct Hreg as (Hfrom & (Hc & He & _) & _ & Hlo & Hhi & Hpos).
  assert (Hr : 0 <= r).
  { etrans; [|exact Hfrom]. unfold search_from. destruct (_ && _) eqn:Hb; zb; lia. }
  assert (Hmax : search_end b limit <= node_low_pfn b)
    by (unfold search_end; destruct (_ && _) eqn:Hb; zb; lia).
  assert (Hml : search_end b limit * PAGE_SIZE <= node_low_pfn b * PAGE_SIZE) by (by apply page_le).
  assert (Hb0 : 0 <= node_min_pfn b * PAGE_SIZE) by (apply (page_le 0); lia).
  pose proof (pfn_up_bounds size) as Hn. unfold base in *.
  assert (Hee : e = pa + size - node_min_pfn b * PAGE_SIZE) by done.
  assert (He' : 0 < e <= 2 ^ 46) by lia.
  assert (Hpa' : pa <= node_min_pfn b * PAGE_SIZE + r * PAGE_SIZE /\
                 (r - 1) * PAGE_SIZE < pa - node_min_pfn b * PAGE_SIZE).
  { destruct Hpos as [->|(Hne & Hq & Hlp)]; [lia|].
    pose proof (Z.div_mod (last_end_off b) PAGE_SIZE) as Hdm.
    pose proof (Z.mod_pos_bound (last_end_off b) PAGE_SIZE Hps) as Hmb.
    rewrite <- Hq in *. set (q := last_end_off b / PAGE_SIZE) in *. lia. }
  pose proof (pfn_up_le e (r + PFN_UP size)). pose proof (pfn_up_le e (r - 1)).
  split_and!; [done|intros i Hi; apply Hc; lia|lia|lia|lia|lia|].
  destruct Hpos as [->|(Hne & Hq & Hlp)]; [left; lia|right].
  assert (0 <= last_end_off b < 2 ^ 62)
    by (pose proof (page_le (node_low_pfn b - node_min_pfn b) (node_low_pfn b)); lia).
  rewrite pfn_up_tail by done. split_and!; [done|lia|lia|lia|lia].
Qed.

Lemma taken_bit i : 0 <= i -> Z.testbit bits' i = Z.testbit (bm_bits bm) i || in_range r (PFN_UP e) i.
Proof using All.
  intros Hi. pose proof taken_geometry as (? & _ & _ & ? & _).
  unfold bits'. apply set_range_bit; lia.
Qed.

(** A page the new region touches is a page of the block, or the page of the
    last allocation. *)
Lemma taken_page p : touches pa size p ->
  r <= p - node_min_pfn b < PFN_UP e \/
  p - node_min_pfn b = r - 1 /\ last_end_off b mod PAGE_SIZE <> 0 /\
    last_end_off b / PAGE_SIZE = p - node_min_pfn b.
Proof using All.
  intros [H1 H2]. pose proof page_size_pos as Hps. pose proof page_size_le as Hpl.
  pose proof taken_geometry as (Hr & _ & He & Hre & Her & Hpos).
  pose proof (pfn_up_le e (p - node_min_pfn b)) as Hup. unfold base in *.
  assert (Hee : e = pa + size - node_min_pfn b * PAGE_SIZE) by done.
  assert (Hlt : p - node_min_pfn b < PFN_UP e) by lia.
  destruct (Z.leb_spec r (p - node_min_pfn b)); [by left|right].
  pose proof (page_le (p + 1) (node_min_pfn b + r)) as Hp1.
  pose proof (page_le (p + 1) (node_min_pfn b + (r - 1))) as Hp2.
  destruct Hpos as [->|(Hne & Hq & Hur & Hlp)]; [lia|].
  pose proof (pfn_up_bounds (last_end_off b)) as Hub. rewrite Hur in Hub.
  pose proof Hok as (_ & Hdir & _ & Hlast & _).
  pose proof (page_le (node_low_pfn b - node_min_pfn b) (node_low_pfn b)).
  pose proof Hok as ((Hm & _ & _) & _). rewrite Hq. split_and!; [lia|done|lia].
Qed.

Lemma taken_new : region_inv b' bits' (pa, size).
Proof using All.
  pose proof taken_geometry as (Hr & _ & He & Hre & Her & Hpos).
  pose proof Hok as (_ & _ & _ & _ & Htail). pose proof Hreg as (_ & _ & _ & Hlo & _).
  split_and!; [done|simpl; lia| |left; simpl; unfold e, base; simpl; lia].
  intros p Hp. simpl in Hp. change (node_min_pfn b') with (node_min_pfn b).
  destruct (taken_page p Hp) as [Hin|(Hp1 & Hne & Hq)].
  - rewrite taken_bit by lia. by ranges; rewrite orb_true_r.
  - assert (0 <= p - node_min_pfn b).
    { rewrite <- Hq. apply Z.div_pos; [|apply page_size_pos]. pose proof Hok as (_ & _ & _ & ? & _). lia. }
    rewrite taken_bit by lia. apply orb_true_iff. left. rewrite <- Hq. by apply Htail.
Qed.

(** A region in use before stays in order and does not meet the new one. *)
Lemma taken_old x : region_inv b (bm_bits bm) x -> region_inv b' bits' x /\ disjoint (pa, size) x.
Proof using All.
  intros (Hlo & Hsz & Hset & Htl). pose proof page_size_pos as Hps. pose proof page_size_le as Hpl.
  pose proof taken_geometry as (Hr & Hc & He & Hre & Her & Hpos).
  pose proof Hok as ((Hm & _ & _) & _ & _ & Hlast & _).
  assert (Hpg : forall p, touches x.1 x.2 p -> 0 <= p - node_min_pfn b).
  { intros p [_ Hp]. pose proof (page_le (p + 1) (node_min_pfn b)). unfold base in *. lia. }
  assert (Hee : base b + e = pa + size) by (unfold e; lia).
  pose proof (pfn_up_bounds e) as Hub.
  assert (Hno : forall y, x.1 <= y < x.1 + x.2 -> ~ (pa <= y < base b + PFN_UP e * PAGE_SIZE)).
  { intros y Hy Hin. pose proof (touches_byte x.1 x.2 y Hy) as Ht.
    pose proof (Z.div_mod y PAGE_SIZE) as Hdm. pose proof (Z.mod_pos_bound y PAGE_SIZE Hps) as Hmb.
    specialize (Hset _ Ht). set (q := y / PAGE_SIZE) in *. unfold base in *.
    destruct (Z.leb_spec r (q - node_min_pfn b)).
    - pose proof (page_le (node_min_pfn b + PFN_UP e) q). rewrite Hc in Hset by lia. done.
    - pose proof (page_le (q + 1) (node_min_pfn b + r)).
      destruct Hpos as [->|(_ & _ & Hur & Hlp)]; [lia|]. rewrite Hur in Htl. lia. }
  split.
  - split_and!; [done|done| |].
    + intros p Hp. change (node_min_pfn b') with (node_min_pfn b).
      rewrite taken_bit by (by apply Hpg). by rewrite Hset.
    + change (last_end_off b') with e. change (base b') with (base b).
      destruct (Z.leb_spec (x.1 + x.2) (base b + e)); [by left|right].
      destruct (Z.leb_spec (base b + PFN_UP e * PAGE_SIZE) x.1); [done|exfalso].
      apply (Hno (Z.max x.1 (base b + e - 1))); lia.
  - apply disjoint_by_page; [|simpl; lia|done]. intros i Hi Hx. simpl in Hi. apply (Hno i); lia.
Qed.
End Taken.

(** ** The invariant *)

Lemma region_inv_ext b b' bits bits' x :
  node_min_pfn b' = node_min_pfn b -> last_end_off b' = last_end_off b ->
  (forall p, touches x.1 x.2 p -> Z.testbit bits' (p - node_min_pfn b) = Z.testbit bits (p - node_min_pfn b)
     \/ Z.testbit bits' (p - node_min_pfn b) = true) ->
  region_inv b bits x -> region_inv b' bits' x.
Proof.
  intros Hm Hl Hb (H1 & H2 & H3 & H4). unfold region_inv, base. rewrite Hm, Hl.
  split_and!; [done|done| |done]. intros p Hp. destruct (Hb p Hp) as [->|]; auto.
Qed.

Lemma ordpairs_drop {A} (R : A -> A -> Prop) l1 x l2 :
  ForallOrdPairs R (l1 ++ x :: l2) -> ForallOrdPairs R (l1 ++ l2).
Proof.
  induction l1 as [|y l1 IH]; simpl; [by inversion 1|]. inversion 1 as [|? ? Hy Hl]; subst.
  constructor; [|by apply IH]. rewrite Forall_app in Hy. destruct Hy as [Hy1 Hy2]. inversion Hy2; subst.
  apply Forall_app. done.
Qed.

(** Marking bits that are not those of a region in use keeps the invariant. *)
Lemma live_inv_bits b L bm bits' h :
  alloc_ok b -> node_bootmem_map b = Some bm -> 0 <= h <= hint_idx b ->
  (forall i, 0 <= i -> Z.testbit bits' i = false -> Z.testbit (bm_bits bm) i = true ->
     (last_end_off b mod PAGE_SIZE <> 0 -> i <> last_end_off b / PAGE_SIZE) /\
     forall x p, x ∈ L -> touches x.1 x.2 p -> p - node_min_pfn b <> i) ->
  Forall (region_inv b (bm_bits bm)) L -> ForallOrdPairs disjoint L ->
  live_inv (set_bits bits' (set_hint h b), L).
Proof.
  intros Hok Hmap Hh Hbits HL Hdis. pose proof Hok as (Hnode & Hdir & Hhint & Hlast & Htail).
  pose proof page_size_pos as Hps.
  exists (mk_bitmap (bm_addr bm) bits'). simpl. rewrite Hmap. split_and!; [|done| |done].
  - split; [eapply node_ok_same; [|exact Hnode]; apply (same_node_set_bits (set_hint h b))|].
    split_and!; [done|simpl; lia..|]. intros bm' Hbm' Hne. simpl in Hbm', Hne |- *.
    rewrite Hmap in Hbm'. injection Hbm' as <-. simpl.
    assert (Hq : 0 <= last_end_off b / PAGE_SIZE) by (apply Z.div_pos; lia).
    destruct (Z.testbit bits' (last_end_off b / PAGE_SIZE)) eqn:Hb; [done|].
    destruct (Hbits _ Hq Hb) as [Hno _]; [by apply Htail|]. by destruct (Hno Hne).
  - rewrite list.Forall_forall in HL |- *. intros x Hx. specialize (HL x Hx).
    eapply region_inv_ext; [| | |exact HL]; [done..|]. intros p Hp. simpl.
    destruct HL as (Hlo & _ & Hset & _).
    destruct (Z.testbit bits' (p - node_min_pfn b)) eqn:Hb; [by right|left].
    assert (0 <= p - node_min_pfn b).
    { destruct Hp as [_ Hp]. pose proof (page_le (p + 1) (node_min_pfn b)). unfold base in *. lia. }
    destruct (Hbits _ ltac:(done) Hb (Hset p Hp)) as [_ Hno]. by destruct (Hno x p Hx Hp).
Qed.

Lemma boot_step_inv st st' : boot_step st st' -> live_inv st -> live_inv st'.
Proof.
  intros Hstep (bm & Hok & Hmap & HL & Hdis). destruct Hstep as
    [b L size k goal limit pa b' Hsize Hk Hg Hl Hgl Hpa Halloc|b L1 x L2|b L s e flags err b' Hse Hres
    |b L s e b' Hse Hlive Htail Hfree]; simpl in *.
  - destruct (alloc_node_region b bm size k goal limit pa b') as (r & Hreg & Hok' & ->);
      try done.
    exists (mk_bitmap (bm_addr bm) (set_range (bm_bits bm) r (PFN_UP (pa + size - base b)))).
    split; [exact Hok'|]. split; [simpl; by rewrite Hmap|]. simpl. split.
    + constructor; [by eapply taken_new|]. rewrite list.Forall_forall in HL |- *. intros x Hx.
      by apply (taken_old b bm size k goal limit r pa Hok Hmap Hsize Hpa Hreg x (HL x Hx)).
    + constructor; [|done]. rewrite list.Forall_forall in HL |- *. intros x Hx.
      by apply (taken_old b bm size k goal limit r pa Hok Hmap Hsize Hpa Hreg x (HL x Hx)).
  - exists bm. split_and!; [done|done| |by eapply ordpairs_drop].
    simpl in *. rewrite Forall_app in HL |- *. destruct HL as [? HL]. by inversion HL.
  - pose proof Hok as (_ & _ & Hh & _).
    destruct (__reserve_Done b bm s e flags err b') as (bits' & h & -> & Hh' & Hb); [done|done|lia|done|].
    apply (live_inv_bits _ _ bm); [done..| |done|done].
    intros i Hi Hb0 Hb1. rewrite (Hb i Hi Hb1) in Hb0. done.
  - pose proof Hok as (_ & _ & Hh & _). destruct (__free_Done b bm s e b' Hmap Hse Hfree) as [Ha ->].
    apply (live_inv_bits _ _ bm); [done|done|lia| |done|done].
    intros i Hi Hb0 Hb1. rewrite clear_range_bit, Hb1 in Hb0 by lia.
    assert (s <= i < e) by (revert Hb0; by ranges). split.
    + intros Hne ->. by apply (Htail Hne).
    + intros x p Hx Hp <-. by apply (Hlive x p Hx Hp).
Qed.

(** C19: The regions that callers of one node's allocator hold never overlap:
    after any sequence of allocations, reservations, regions given up, and frees
    of pages of which nobody holds a byte and that leave the page of the last
    allocation alone, all regions still held lie on the node and are pairwise
    disjoint, though several of them may share a page. *)
Theorem live_regions_disjoint b bm b' L :
  alloc_ok b -> node_bootmem_map b = Some bm -> rtc boot_step (b, []) (b', L) ->
  ForallOrdPairs disjoint L /\ Forall (fun x => node_min_pfn b' * PAGE_SIZE <= x.1) L.
Proof.
  intros Hok Hmap Hsteps.
  assert (Hinv : live_inv (b', L)).
  { refine (rtc_ind_r (fun st => live_inv st) (b, []) _ _ _ Hsteps).
    - exists bm. split_and!; [done|done|constructor|constructor].
    - intros y z _ Hyz. by apply boot_step_inv. }
  destruct Hinv as (bm' & _ & _ & HL & Hd). split; [done|].
  eapply list.Forall_impl; [exact HL|]. by intros x (Hx & _).
Qed.
End Live.

(** Two allocations that share page 20 of the example node. *)
Lemma live_regions_disjoint_witness : exists b' L,
  rtc (@boot_step x86_64) (alloc_node, []) (b', L) /\ length L = 2%nat /\ ForallOrdPairs disjoint L.
Proof.
  pose (b1 := @taken x86_64 alloc_node (Z.setbit (Z.ones 4) 14) 4 0x43f0).
  pose (b2 := @taken x86_64 b1 (Z.setbit (Z.ones 5) 14) 5 0x443c).
  exists b2, [(0x14400, 60); (0x13068, 5000)].
  assert (Hrtc : rtc (@boot_step x86_64) (alloc_node, []) (b2, [(0x14400, 60); (0x13068, 5000)])).
  { apply rtc_l with (b1, [(0x13068, 5000)]); [|apply rtc_once].
    - apply (@step_alloc x86_64 _ _ 5000 3 0 0 0x13068); [lia|lia|unfold is_u64; lia..|by left|lia|].
      by vm_compute.
    - apply (@step_alloc x86_64 _ _ 60 6 0 0 0x14400); [lia|lia|unfold is_u64; lia..|by left|lia|].
      by vm_compute. }
  split; [exact Hrtc|]. split; [done|].
  eapply (@live_regions_disjoint x86_64 x86_64_spec alloc_node _ _ _ alloc_node_ok eq_refl Hrtc).
Defined.

(** ** Two behaviours callers have to know *)

(** A node of two free pages, 16 and 17. *)
Definition two_pages : bootmem :=
  mk_bootmem [demo_node 16 18 (Z.ldiff (Z.ones 64) (Z.ones 2))] [0]%nat 0 0 0 [] false [].

(** The condition of [live_regions_disjoint] on the page of the last
    allocation is needed.  When a caller allocates 100 bytes and gives the page
    back with [free_bootmem], [last_end_off] still points into it, and the next
    allocation from the page behind it starts inside the freed page without
    reserving it: a further allocation is handed the same bytes, so two regions
    in use overlap. *)
Theorem alloc_after_free_overlaps : exists s1 s2 s3 s4,
  @__alloc_bootmem_nopanic x86_64 100 64 0 two_pages = Done (@phys_to_virt x86_64 0x10000, s1) /\
  @free_bootmem x86_64 0x10000 0x1000 s1 = Done s2 /\
  @__alloc_bootmem_nopanic x86_64 0x1000 64 0x11000 s2 = Done (@phys_to_virt x86_64 0x10080, s3) /\
  @__alloc_bootmem_nopanic x86_64 0x1000 64 0 s3 = Done (@phys_to_virt x86_64 0x10000, s4) /\
  ~ disjoint (0x10080, 0x1000) (0x10000, 0x1000).
Proof.
  do 4 eexists. split; [by vm_compute|]. split; [by vm_compute|]. split; [by vm_compute|].
  split; [by vm_compute|]. unfold disjoint. simpl. lia.
Qed.

(** A node of one free page at 8 GB. *)
Definition high_page : bootmem :=
  mk_bootmem [demo_node 0x200000 0x200001 (Z.ldiff (Z.ones 64) 1)] [0]%nat 0 0 0 [] false [].

(** [__alloc_bootmem_low_node] does not keep to low memory: its limit is
    dropped on the way ([___alloc_bootmem_node] passes 0 on), so it is
    [__alloc_bootmem_node] on every input, and on a node above 4 GB it returns
    memory above [ARCH_LOW_ADDRESS_LIMIT], where [__alloc_bootmem_low] with the
    same limit finds no memory and panics. *)
Theorem alloc_low_node_ignores_limit :
  (forall (A : BootArch) pgdat size align goal s,
     __alloc_bootmem_low_node pgdat size align goal s = __alloc_bootmem_node pgdat size align goal s) /\
  (exists s', @__alloc_bootmem_low_node x86_64 (mk_pgdat 0 0 0x200001) 4096 4096 0 high_page =
     Done (@phys_to_virt x86_64 0x200000000, s')) /\
  ARCH_LOW_ADDRESS_LIMIT < 0x200000000 /\
  @__alloc_bootmem_low x86_64 4096 4096 0 high_page = Panic.
Proof.
  split; [done|]. split; [eexists; by vm_compute|]. split; by vm_compute.
Qed.
