(* ===== verification/BootmemFree.v ===== *)
(** * bootmem: handing the free pages to the buddy allocator

    [free_all_bootmem_core] gives every free page of a node away exactly once,
    in ascending order, word by word of the bitmap, when the node starts at a
    multiple of the word size. *)

From S2P Require Import Prelude Bootmem BootmemMark BootmemProps.

(** The pages of a call of [__free_pages_bootmem], and of a sequence of calls. *)
Definition freed_pages (f : freed) : list Z := seqZ (f_pfn f) (2 ^ f_order f).
Definition all_freed (log : list freed) : list Z := log ≫= freed_pages.

Definition bit_pages (vec base n : Z) : list Z :=
  filter (fun p => Z.testbit vec (p - base) = true) (seqZ base n).

Lemma filter_seqZ_ext (P Q : Z -> Prop) `{!forall x, Decision (P x)} `{!forall x, Decision (Q x)} b n :
  (forall p, b <= p < b + n -> P p <-> Q p) -> filter P (seqZ b n) = filter Q (seqZ b n).
Proof.
  intros HPQ. assert (Hall : Forall (fun p => P p <-> Q p) (seqZ b n)) by (by apply Forall_seqZ).
  induction Hall as [|p l Hp _ IH]; [done|]. rewrite !filter_cons, IH.
  by destruct (decide (P p)), (decide (Q p)); tauto || done.
Qed.

Lemma filter_seqZ_none (P : Z -> Prop) `{!forall x, Decision (P x)} b n :
  (forall p, b <= p < b + n -> ~ P p) -> filter P (seqZ b n) = [].
Proof.
  intros Hn. rewrite (filter_seqZ_ext P (fun _ => False)) by (intros p Hp; specialize (Hn p Hp); tauto).
  induction (seqZ b n); [done|]. by rewrite filter_cons.
Qed.

Lemma filter_seqZ_all (P : Z -> Prop) `{!forall x, Decision (P x)} b n :
  (forall p, b <= p < b + n -> P p) -> filter P (seqZ b n) = seqZ b n.
Proof.
  intros Ha. rewrite (filter_seqZ_ext P (fun _ => True)) by (intros p Hp; specialize (Ha p Hp); tauto).
  induction (seqZ b n) as [|p l IH]; [done|]. rewrite filter_cons, IH. by rewrite decide_True.
Qed.

Section FreeAll.
Context `{BootArchSpec}.

(** A call for the page frame [p], whose struct page it passes along. *)
Definition good_call (f : freed) : Prop := f_page f = pfn_to_page (f_pfn f).

(** [log'] adds calls to [log] that free exactly the given pages, and [count']
    counts them. *)
Definition frees (log log' : list freed) (count count' : Z) (pages : list Z) : Prop :=
  exists evs, log' = log ++ evs /\ Forall good_call evs /\ all_freed evs = pages /\
    count' = u64 (count + Z.of_nat (length pages)).

Lemma frees_nil log count : is_u64 count -> frees log log count count [].
Proof. intros Hc. exists []. rewrite app_nil_r. split_and!; [done..|]. by rewrite Z.add_0_r, u64_small. Qed.

Lemma frees_app log log1 log2 c c1 c2 p1 p2 :
  frees log log1 c c1 p1 -> frees log1 log2 c1 c2 p2 -> frees log log2 c c2 (p1 ++ p2).
Proof.
  intros (e1 & -> & Hg1 & Hp1 & Hc1) (e2 & -> & Hg2 & Hp2 & Hc2). exists (e1 ++ e2).
  rewrite app_assoc. split_and!; [done|by apply Forall_app| |].
  - unfold all_freed in *. by rewrite bind_app, Hp1, Hp2.
  - rewrite Hc2, Hc1, u64_add_idemp_l, length_app. f_equal. lia.
Qed.

Lemma frees_call log count pfn order :
  0 <= order -> is_u64 count ->
  frees log (__free_pages_bootmem (pfn_to_page pfn) pfn order log) count (u64 (count + 2 ^ order))
    (seqZ pfn (2 ^ order)).
Proof.
  intros Ho Hc. exists [mk_freed (pfn_to_page pfn) pfn order].
  split_and!; [done|by repeat constructor|by unfold all_freed; simpl; rewrite app_nil_r|].
  rewrite length_seqZ, Z2Nat.id by (apply Z.pow_nonneg; lia). done.
Qed.

(** The inner loop gives away the pages of the bits of [vec]. *)
Lemma free_word_spec n : forall vec cur count log,
  0 <= vec < 2 ^ Z.of_nat n -> 0 <= cur -> cur + Z.of_nat n < 2 ^ 64 -> is_u64 count ->
  exists count' log', free_word n vec cur (cur + Z.of_nat n) count log = (count', log') /\
    is_u64 count' /\ frees log log' count count' (bit_pages vec cur (Z.of_nat n)).
Proof.
  induction n as [|n IH]; intros vec cur count log Hv Hcur Hend Hc.
  { exists count, log. split_and!; [done|apply Hc..|]. by apply frees_nil. }
  cbn [free_word]. destruct (Z.eqb_spec vec 0) as [->|Hnz]; cbn [orb].
  { exists count, log. split_and!; [done|apply Hc..|]. unfold bit_pages.
    rewrite filter_seqZ_none by (intros p _; by rewrite Z.bits_0). by apply frees_nil. }
  destruct (Z.eqb_spec cur (cur + Z.of_nat (S n))); [lia|].
  assert (Hpages : bit_pages vec cur (Z.of_nat (S n)) =
    (if Z.testbit vec 0 then [cur] else []) ++ bit_pages (Z.shiftr vec 1) (cur + 1) (Z.of_nat n)).
  { unfold bit_pages. rewrite seqZ_cons by lia. rewrite filter_cons, Z.sub_diag.
    replace (Z.pred (Z.of_nat (S n))) with (Z.of_nat n) by lia. replace (Z.succ cur) with (cur + 1) by lia.
    rewrite (filter_seqZ_ext _ (fun p => Z.testbit (Z.shiftr vec 1) (p - (cur + 1)) = true)).
    - by destruct (Z.testbit vec 0).
    - intros p Hp. rewrite Z.shiftr_spec by lia. by replace (p - (cur + 1) + 1) with (p - cur) by lia. }
  rewrite Hpages. clear Hpages.
  assert (Hbit : bool_of (Z.land vec 1) = Z.testbit vec 0).
  { change 1 with (Z.ones 1). rewrite Z.land_ones by lia. rewrite Z.pow_1_r, Z.bit0_odd, Zodd_mod. unfold bool_of.
    pose proof (Z.mod_pos_bound vec 2). lia. }
  rewrite Hbit, (u64_small (cur + 1)) by (unfold is_u64; lia).
  assert (Hsh : 0 <= Z.shiftr vec 1 < 2 ^ Z.of_nat n).
  { rewrite Z.shiftr_div_pow2 by lia. change (2 ^ 1) with 2. rewrite Nat2Z.inj_succ, Z.pow_succ_r in Hv by lia.
    split; [apply Z.div_pos; lia|apply Z.div_lt_upper_bound; lia]. }
  replace (cur + Z.of_nat (S n)) with (cur + 1 + Z.of_nat n) by lia.
  destruct (Z.testbit vec 0).
  - destruct (IH (Z.shiftr vec 1) (cur + 1) (u64 (count + 1)) (__free_pages_bootmem (pfn_to_page cur) cur 0 log))
      as (c' & l' & -> & Hc' & Hf); [done|lia|lia|apply u64_range|].
    exists c', l'. split_and!; [done|apply Hc'..|]. eapply frees_app; [|exact Hf].
    by apply (frees_call log count cur 0).
  - destruct (IH (Z.shiftr vec 1) (cur + 1) count log) as (c' & l' & -> & Hc' & Hf); [done|lia|lia|done|].
    by exists c', l'.
Qed.

(** ** The outer loop *)
Section Node.
Variables (map min end_ : Z).
Hypotheses (Hmin : 0 <= min) (Halign : (64 | min)) (Hend : end_ + 128 < 2 ^ 64)
  (Hpad : all_set map (end_ - min) (64 * ((end_ - min + 63) / 64))).

(** The free pages among [n] pages from [start]. *)
Definition clear_pages (start n : Z) : list Z :=
  filter (fun p => Z.testbit map (p - min) = false) (seqZ start n).

Lemma clear_pages_app start n m : 0 <= n -> 0 <= m ->
  clear_pages start (n + m) = clear_pages start n ++ clear_pages (start + n) m.
Proof using Type. intros. unfold clear_pages. by rewrite seqZ_app, list.filter_app by done. Qed.

(** Bits behind the last page count as reserved. *)
Lemma clear_pages_word q : let start := min + 64 * q in
  0 <= q -> start < end_ ->
  clear_pages start (end_ - start) =
    clear_pages start 64 ++ clear_pages (start + 64) (Z.max 0 (end_ - (start + 64))).
Proof using All.
  intros start Hq Hs. destruct (Z.leb_spec 64 (end_ - start)).
  - rewrite Z.max_r by lia. rewrite <- clear_pages_app by lia. f_equal. lia.
  - rewrite Z.max_l by lia. unfold clear_pages at 3. rewrite app_nil_r.
    replace 64 with ((end_ - start) + (64 - (end_ - start))) by lia.
    rewrite clear_pages_app by lia. unfold clear_pages at 3.
    rewrite filter_seqZ_none, app_nil_r; [done|]. intros p Hp. rewrite Hpad; [done|].
    split; [lia|]. enough (q + 1 <= (end_ - min + 63) / 64) by (unfold start in *; lia).
    apply Z.div_le_lower_bound; unfold start in *; lia.
Qed.

Lemma vec_bit q i (vec := u64 (Z.lnot (map_word map q))) :
  0 <= q -> 0 <= i < 64 -> Z.testbit vec i = negb (Z.testbit map (64 * q + i)).
Proof using Type.
  intros Hq Hi. unfold vec, map_word, u64, BITS_PER_LONG.
  rewrite Z.mod_pow2_bits_low, Z.lnot_spec, Z.mod_pow2_bits_low, Z.shiftr_spec by lia.
  do 2 f_equal. lia.
Qed.

Lemma free_vec_aligned q : 0 <= q -> min + 64 * q < end_ ->
  free_vec map min (min + 64 * q) end_ = u64 (Z.lnot (map_word map q)).
Proof using All.
  intros Hq Hs. unfold free_vec. replace (min + 64 * q - min) with (64 * q) by lia.
  rewrite (u64_small (64 * q)) by (unfold is_u64; lia). unfold BITS_PER_LONG.
  change (64 - 1) with (Z.ones 6). rewrite Z.land_ones by lia. change (2 ^ 6) with 64.
  rewrite (Z.mul_comm 64), Z.mod_mul, Z.div_mul by lia. done.
Qed.

Lemma word_pages q : 0 <= q ->
  bit_pages (u64 (Z.lnot (map_word map q))) (min + 64 * q) 64 = clear_pages (min + 64 * q) 64.
Proof using Type.
  intros Hq. apply filter_seqZ_ext. intros p Hp. rewrite vec_bit by lia.
  replace (64 * q + (p - (min + 64 * q))) with (p - min) by lia.
  by destruct (Z.testbit map (p - min)).
Qed.

Lemma free_all_loop_spec fuel : forall q count log, let start := min + 64 * q in
  0 <= q -> start < end_ + 64 -> Z.of_nat fuel > Z.max 0 (end_ - start) -> is_u64 count ->
  exists count' log', free_all_loop fuel map min start end_ count log = Done (count', log') /\
    frees log log' count count' (clear_pages start (Z.max 0 (end_ - start))).
Proof using All.
  induction fuel as [|fuel IH]; intros q count log start Hq Hs Hf Hc; [lia|].
  cbn [free_all_loop]. destruct (Z.ltb_spec start end_) as [Hlt|Hlt].
  2:{ exists count, log. split; [done|]. rewrite Z.max_l by lia. by apply frees_nil. }
  rewrite Z.max_r by lia. pose proof (clear_pages_word q Hq Hlt) as Hcw.
  fold start in Hcw. rewrite Hcw. clear Hcw.
  replace (free_vec map min start end_) with (u64 (Z.lnot (map_word map q)))
    by (symmetry; by apply free_vec_aligned).
  assert (Hal : IS_ALIGNED start BITS_PER_LONG = true).
  { unfold IS_ALIGNED, BITS_PER_LONG. change (64 - 1) with (Z.ones 6). rewrite Z.land_ones by lia.
    change (2 ^ 6) with 64. apply Z.eqb_eq. apply Z.mod_divide; [lia|].
    unfold start. apply Z.divide_add_r; [done|]. apply Z.divide_factor_l. }
  assert (Hnext : ALIGN (u64 (start + 1)) BITS_PER_LONG = start + 64).
  { rewrite u64_small by (unfold is_u64; lia). unfold BITS_PER_LONG. change 64 with (2 ^ 6) at 1.
    rewrite ALIGN_spec by lia. change (2 ^ 6) with 64. destruct Halign as [a Ha]. unfold start.
    replace (min + 64 * q + 1 + 64 - 1) with ((a + q + 1) * 64) by lia. rewrite Z.div_mul by lia. lia. }
  rewrite Hal, Hnext. replace (start + 64) with (min + 64 * (q + 1)) by lia.
  cbn [andb]. destruct (Z.eqb_spec (u64 (Z.lnot (map_word map q))) (2 ^ 64 - 1)) as [Hfull|Hfull].
  - change BITS_PER_LONG with 64. rewrite (u64_small (start + 64)) by (unfold is_u64; lia).
    replace (start + 64) with (min + 64 * (q + 1)) by lia.
    assert (Hall : clear_pages start 64 = seqZ start 64).
    { unfold start. rewrite <- word_pages, Hfull by done. unfold bit_pages. apply filter_seqZ_all. intros p Hp. change (2 ^ 64 - 1) with (Z.ones 64). apply Z.ones_spec_low. lia. }
    rewrite Hall. edestruct IH as (c' & l' & -> & Hfr);
      [shelve|shelve|shelve|shelve|].
    exists c', l'. split; [done|]. eapply frees_app; [|exact Hfr]. by apply (frees_call log count start 6).
    Unshelve. all: try lia. apply u64_range.
  - destruct (free_word_spec 64 (u64 (Z.lnot (map_word map q))) start count log)
      as (c1 & l1 & Hw & Hc1 & Hfr1); [apply u64_range|lia|lia|done|].
    change (Z.of_nat 64) with 64 in *. unfold start in Hfr1. rewrite word_pages in Hfr1 by done. fold start in Hfr1.
    replace (start + 64) with (min + 64 * (q + 1)) in Hw by lia.
    rewrite Hw.
    destruct (IH (q + 1) c1 l1) as (c' & l' & -> & Hfr); [lia|lia|lia|done|].
    exists c', l'. split; [done|]. by eapply frees_app.
Qed.
End Node.
End FreeAll.

Section Core.
Context `{BootArchSpec}.

Lemma free_map_pages_spec n : forall page cur log, exists evs,
  free_map_pages n page cur log = log ++ evs /\ f_page <$> evs = seqZ page (Z.of_nat n) /\
  Forall (fun f => f_order f = 0) evs.
Proof.
  induction n as [|n IH]; intros page cur log; cbn [free_map_pages].
  - exists []. by rewrite app_nil_r.
  - destruct (IH (page + 1) (u64 (cur + 1)) (__free_pages_bootmem page cur 0 log)) as (evs & -> & Hp & Ho).
    exists (mk_freed page cur 0 :: evs). split_and!.
    + unfold __free_pages_bootmem. by rewrite <- app_assoc.
    + rewrite fmap_cons, Hp. rewrite (seqZ_cons page) by lia. cbn [f_page]. do 2 f_equal; lia.
    + by constructor.
Qed.

(** C28: When the memory of a node starts at a multiple of 64 pages and the
    bits behind its last page are set, [free_all_bootmem_core] gives exactly
    the free pages of the node to the buddy allocator, each once and in
    ascending order, single pages and blocks of 64 alike with the [struct page]
    of their frame; then the pages that hold the bitmap; it drops the bitmap and
    answers how many pages it gave away. *)
Theorem free_all_bootmem_core_spec b bm log
    (pages := bootmem_bootmap_pages (node_low_pfn b - node_min_pfn b)) :
  node_ok b -> node_bootmem_map b = Some bm -> (64 | node_min_pfn b) -> node_low_pfn b + 128 < 2 ^ 64 ->
  all_set (bm_bits bm) (node_low_pfn b - node_min_pfn b)
    (64 * ((node_low_pfn b - node_min_pfn b + 63) / 64)) ->
  exists evs mapevs free, free = filter (fun p => page_of b p = Some false)
      (seqZ (node_min_pfn b) (node_low_pfn b - node_min_pfn b)) /\
    free_all_bootmem_core b log =
      Done (u64 (Z.of_nat (length free) + pages), set_map None b, log ++ evs ++ mapevs) /\
    all_freed evs = free /\ Forall good_call evs /\
    f_page <$> mapevs = seqZ (virt_to_page (bm_addr bm)) (Z.of_nat (Z.to_nat pages)) /\
    Forall (fun f => f_order f = 0) mapevs.
Proof.
  intros (Hm & Hl & _) Hmap Hal Hend Hpad. unfold free_all_bootmem_core. rewrite Hmap.
  destruct (free_all_loop_spec (bm_bits bm) (node_min_pfn b) (node_low_pfn b) ltac:(lia) Hal Hend Hpad
    (S (Z.to_nat (node_low_pfn b - node_min_pfn b))) 0 0 log) as (c & l & Hr & Hfr);
    [lia|lia|lia|unfold is_u64; lia|].
  rewrite Z.mul_0_r, Z.add_0_r in Hr, Hfr. rewrite Hr. cbn [mbind outcome_bind].
  rewrite Z.max_r in Hfr by lia. destruct Hfr as (evs & -> & Hg & Hall & ->).
  rewrite (u64_small (node_low_pfn b - node_min_pfn b)) by (unfold is_u64; lia). fold pages.
  destruct (free_map_pages_spec (Z.to_nat pages) (virt_to_page (bm_addr bm)) (node_min_pfn b) (log ++ evs))
    as (mapevs & -> & Hmp & Hmo).
  exists evs, mapevs, (all_freed evs). split_and!; [| |done..].
  - rewrite Hall. apply filter_seqZ_ext. intros p Hp.
    rewrite (page_of_bit b bm) by (done || lia). split; [by intros ->|by intros [= ->]].
  - rewrite u64_add_idemp_l, Hall, <- app_assoc. done.
Qed.
End Core.

(** Pages 64 to 163, all free but the first. *)
Definition free_node : bootmem_data := demo_node 64 164 (Z.setbit (clear_range (Z.ones 128) 0 100) 0).

Lemma free_all_bootmem_core_spec_witness : exists evs mapevs,
  @free_all_bootmem_core x86_64 free_node [] = Done (100, set_map None free_node, [] ++ evs ++ mapevs) /\
  all_freed evs = seqZ 65 99 /\ f_page <$> mapevs = [1].
Proof.
  destruct (@free_all_bootmem_core_spec x86_64 x86_64_spec free_node
    (mk_bitmap 0xffff888000001000 (Z.setbit (clear_range (Z.ones 128) 0 100) 0)) [])
    as (evs & mapevs & free & Hfree & Hr & Ha & _ & Hmp & _).
  - split_and!; [simpl; lia..|by eexists].
  - done.
  - by exists 1.
  - simpl. lia.
  - intros i Hi. assert (Hi1 : 100 <= i < 128) by exact Hi. cbn [bm_bits].
    rewrite Z.setbit_neq, clear_range_bit by lia. rewrite Z.ones_spec_low by lia. by ranges.
  - assert (Hv : free = seqZ 65 99) by (rewrite Hfree; by vm_compute).
    exists evs, mapevs. rewrite Hv in Hr, Ha. split; [exact Hr|]. split; [exact Ha|]. exact Hmp.
Defined.

(** Without that alignment free pages are lost.  On a node whose memory
    starts at page 4 the loop reads map words that straddle the boundary of
    [unsigned long]s, and it takes the second half only when 64 pages are left:
    the free pages 68 to 99 at the end of this node are never handed to the
    buddy allocator, though the bitmap that knew of them is dropped. *)
Theorem free_all_unaligned_leaks :
  let b := demo_node 4 100 (clear_range (Z.ones 128) 0 96) in
  exists log, @free_all_bootmem_core x86_64 b [] = Done (65, set_map None b, log) /\
    (forall p, 4 <= p < 100 -> page_of b p = Some false) /\
    all_freed log = seqZ 4 64 ++ [4].
Proof.
  cbn zeta. eexists. split; [by vm_compute|]. split; [|by vm_compute].
  assert (Hall : Forall (fun p => page_of (demo_node 4 100 (clear_range (Z.ones 128) 0 96)) p = Some false)
    (seqZ 4 96)) by (apply (bool_decide_unpack _); by vm_compute).
  intros p Hp. rewrite Forall_seqZ in Hall. apply Hall. lia.
Qed.
