(* ===== verification/Notifier.v ===== *)
(** * Notifier chains

    [src/new/kernel/notifier.c] with the blocks and return codes of
    [src/new/include/linux/notifier.h].  The store holds the chain heads and the
    notifier blocks, both by address, so that a block linked twice or a callback
    that unlinks itself is seen as such; a pointer to a pointer ([nl]) is a
    [slot].  The locks around the four kinds of chains and RCU order the
    operations and are left out; the operations are whole steps. *)

From stdpp Require Import gmap.
From S2P Require Import Prelude.

Definition NOTIFY_DONE : Z := 0x0000.
Definition NOTIFY_OK : Z := 0x0001.
Definition NOTIFY_STOP_MASK : Z := 0x8000.
Definition NOTIFY_BAD : Z := Z.lor NOTIFY_STOP_MASK 0x0002.
Definition NOTIFY_STOP : Z := Z.lor NOTIFY_OK NOTIFY_STOP_MASK.
Definition ENOENT : Z := 2.

(** Errors as return codes of a callback; [int] is 32 bits wide. *)
Definition notifier_from_errno (err : Z) : Z :=
  if bool_of err then Z.lor NOTIFY_STOP_MASK (s32 (NOTIFY_OK - err)) else NOTIFY_OK.
Definition notifier_to_errno (ret : Z) : Z :=
  let ret := Z.land ret (Z.lnot NOTIFY_STOP_MASK) in
  if ret >? NOTIFY_OK then NOTIFY_OK - ret else 0.

(** [notifier_call] is the address of the function. *)
Record notifier_block := mk_block { notifier_call : Z; next : option Z; priority : Z }.

Record store := mk_store { heads : gmap Z (option Z); blocks : gmap Z notifier_block }.

(** A pointer to a link: the [head] field of a chain or the [next] of a block. *)
Inductive slot := HeadOf (nh : Z) | NextOf (n : Z).

#[export] Instance slot_eq_dec : EqDecision slot.
Proof. solve_decision. Defined.

Definition get_block (st : store) (n : Z) : outcome notifier_block :=
  match blocks st !! n with Some b => Done b | None => Bug end.
Definition put_block (st : store) (n : Z) (b : notifier_block) : store :=
  mk_store (heads st) (<[n := b]> (blocks st)).
Definition set_next (p : option Z) (b : notifier_block) : notifier_block :=
  mk_block (notifier_call b) p (priority b).

Definition read_slot (st : store) (sl : slot) : outcome (option Z) :=
  match sl with
  | HeadOf nh => match heads st !! nh with Some p => Done p | None => Bug end
  | NextOf n => b ← get_block st n; Done (next b)
  end.
Definition write_slot (st : store) (sl : slot) (p : option Z) : outcome store :=
  match sl with
  | HeadOf nh => match heads st !! nh with
                 | Some _ => Done (mk_store (<[nh := p]> (heads st)) (blocks st))
                 | None => Bug
                 end
  | NextOf n => b ← get_block st n; Done (put_block st n (set_next p b))
  end.

(** Sets [n->next] to what the link held and the link to [n]. *)
Definition link_at (st : store) (nl : slot) (n : Z) : outcome store :=
  cur ← read_slot st nl;
  b ← get_block st n;
  write_slot (put_block st n (set_next cur b)) nl (Some n).

Fixpoint register_loop (fuel : nat) (st : store) (nl : slot) (n : Z) : outcome store :=
  match fuel with
  | O => NoFuel
  | S fuel =>
      cur ← read_slot st nl;
      match cur with
      | None => link_at st nl n
      | Some c =>
          bn ← get_block st n;
          bc ← get_block st c;
          if priority bn >? priority bc then link_at st nl n
          else register_loop fuel st (NextOf c) n
      end
  end.

Fixpoint cond_register_loop (fuel : nat) (st : store) (nl : slot) (n : Z) : outcome store :=
  match fuel with
  | O => NoFuel
  | S fuel =>
      cur ← read_slot st nl;
      match cur with
      | None => link_at st nl n
      | Some c =>
          if c =? n then Done st
          else
            bn ← get_block st n;
            bc ← get_block st c;
            if priority bn >? priority bc then link_at st nl n
            else cond_register_loop fuel st (NextOf c) n
      end
  end.

Fixpoint unregister_loop (fuel : nat) (st : store) (nl : slot) (n : Z) : outcome (Z * store) :=
  match fuel with
  | O => NoFuel
  | S fuel =>
      cur ← read_slot st nl;
      match cur with
      | None => Done (- ENOENT, st)
      | Some c =>
          if c =? n then
            bn ← get_block st n;
            st ← write_slot st nl (next bn);
            Done (0, st)
          else unregister_loop fuel st (NextOf c) n
      end
  end.

(** A chain without a cycle has at most one link per block. *)
Definition chain_fuel (st : store) : nat := S (size (blocks st)).

Definition notifier_chain_register (nl : slot) (n : Z) (st : store) : outcome (Z * store) :=
  st ← register_loop (chain_fuel st) st nl n; Done (0, st).
Definition notifier_chain_cond_register (nl : slot) (n : Z) (st : store) : outcome (Z * store) :=
  st ← cond_register_loop (chain_fuel st) st nl n; Done (0, st).
Definition notifier_chain_unregister (nl : slot) (n : Z) (st : store) : outcome (Z * store) :=
  unregister_loop (chain_fuel st) st nl n.

(** ** Calling a chain *)

(** [struct die_args], the argument of the die chain. *)
Record die_args := mk_die_args { regs : Z; str : Z; err : Z; trapnr : Z; signr : Z }.

(** What is passed to the callbacks: an opaque pointer, or the address of the
    arguments of [notify_die]. *)
Inductive data := Ptr (v : Z) | DieArgs (a : die_args).

(** The world a callback runs in: the store, which it may change, and the rest
    of the kernel. *)
Record world (S : Type) := mk_world { wstore : store; rest : S }.
Arguments mk_world {S} _ _.
Arguments wstore {S} _.
Arguments rest {S} _.

Section Chains.
Context {S : Type}.
(** Running the callback at an address, and, with CONFIG_DEBUG_NOTIFIERS, the
    test whether it is kernel text. *)
Variable call : Z -> Z -> Z -> data -> world S -> Z * world S.
Variable debug_notifiers : bool.
Variable func_ptr_is_kernel_text : Z -> bool.
(** [system_state == SYSTEM_BOOTING], and what [init_srcu_struct] returns. *)
Variable booting : bool.
Variable init_srcu_struct : Z.

(** The result, the value of [*nr_calls] ([None] for NULL) and the world. *)
Fixpoint call_loop (fuel : nat) (nb : option Z) (val : Z) (v : data) (nr_to_call ret : Z)
    (nr_calls : option Z) (w : world S) : outcome (Z * option Z * world S) :=
  match fuel with
  | O => NoFuel
  | Datatypes.S fuel =>
      match nb with
      | None => Done (ret, nr_calls, w)
      | Some n =>
          if nr_to_call =? 0 then Done (ret, nr_calls, w)
          else
            b ← get_block (wstore w) n;
            let next_nb := next b in
            if debug_notifiers && negb (func_ptr_is_kernel_text (notifier_call b)) then
              call_loop fuel next_nb val v nr_to_call ret nr_calls w
            else
              let '(ret, w) := call (notifier_call b) n val v w in
              let nr_calls := (fun c => s32 (c + 1)) <$> nr_calls in
              if bool_of (Z.land ret NOTIFY_STOP_MASK) then Done (ret, nr_calls, w)
              else call_loop fuel next_nb val v (s32 (nr_to_call - 1)) ret nr_calls w
      end
  end.

Definition notifier_call_chain (nl : slot) (val : Z) (v : data) (nr_to_call : Z)
    (nr_calls : option Z) (w : world S) : outcome (Z * option Z * world S) :=
  nb ← read_slot (wstore w) nl;
  call_loop (chain_fuel (wstore w)) nb val v nr_to_call NOTIFY_DONE nr_calls w.

(** ** The four kinds of chains *)

Definition atomic_notifier_chain_register (nh n : Z) (st : store) : outcome (Z * store) :=
  notifier_chain_register (HeadOf nh) n st.
Definition atomic_notifier_chain_unregister (nh n : Z) (st : store) : outcome (Z * store) :=
  notifier_chain_unregister (HeadOf nh) n st.
Definition __atomic_notifier_call_chain (nh val : Z) (v : data) (nr_to_call : Z)
    (nr_calls : option Z) (w : world S) : outcome (Z * option Z * world S) :=
  notifier_call_chain (HeadOf nh) val v nr_to_call nr_calls w.
Definition atomic_notifier_call_chain (nh val : Z) (v : data) (w : world S)
  : outcome (Z * world S) :=
  r ← __atomic_notifier_call_chain nh val v (-1) None w; Done (r.1.1, r.2).

(** Registration takes the rwsem except while booting. *)
Definition blocking_notifier_chain_register (nh n : Z) (st : store) : outcome (Z * store) :=
  if booting then notifier_chain_register (HeadOf nh) n st
  else notifier_chain_register (HeadOf nh) n st.
Definition blocking_notifier_chain_cond_register (nh n : Z) (st : store) : outcome (Z * store) :=
  notifier_chain_cond_register (HeadOf nh) n st.
Definition blocking_notifier_chain_unregister (nh n : Z) (st : store) : outcome (Z * store) :=
  if booting then notifier_chain_unregister (HeadOf nh) n st
  else notifier_chain_unregister (HeadOf nh) n st.
Definition __blocking_notifier_call_chain (nh val : Z) (v : data) (nr_to_call : Z)
    (nr_calls : option Z) (w : world S) : outcome (Z * option Z * world S) :=
  head ← read_slot (wstore w) (HeadOf nh);
  match head with
  | Some _ => notifier_call_chain (HeadOf nh) val v nr_to_call nr_calls w
  | None => Done (NOTIFY_DONE, nr_calls, w)
  end.
Definition blocking_notifier_call_chain (nh val : Z) (v : data) (w : world S)
  : outcome (Z * world S) :=
  r ← __blocking_notifier_call_chain nh val v (-1) None w; Done (r.1.1, r.2).

Definition raw_notifier_chain_register (nh n : Z) (st : store) : outcome (Z * store) :=
  notifier_chain_register (HeadOf nh) n st.
Definition raw_notifier_chain_unregister (nh n : Z) (st : store) : outcome (Z * store) :=
  notifier_chain_unregister (HeadOf nh) n st.
Definition __raw_notifier_call_chain (nh val : Z) (v : data) (nr_to_call : Z)
    (nr_calls : option Z) (w : world S) : outcome (Z * option Z * world S) :=
  notifier_call_chain (HeadOf nh) val v nr_to_call nr_calls w.
Definition raw_notifier_call_chain (nh val : Z) (v : data) (w : world S) : outcome (Z * world S) :=
  r ← __raw_notifier_call_chain nh val v (-1) None w; Done (r.1.1, r.2).

Definition srcu_notifier_chain_register (nh n : Z) (st : store) : outcome (Z * store) :=
  if booting then notifier_chain_register (HeadOf nh) n st
  else notifier_chain_register (HeadOf nh) n st.
Definition srcu_notifier_chain_unregister (nh n : Z) (st : store) : outcome (Z * store) :=
  if booting then notifier_chain_unregister (HeadOf nh) n st
  else notifier_chain_unregister (HeadOf nh) n st.
Definition __srcu_notifier_call_chain (nh val : Z) (v : data) (nr_to_call : Z)
    (nr_calls : option Z) (w : world S) : outcome (Z * option Z * world S) :=
  notifier_call_chain (HeadOf nh) val v nr_to_call nr_calls w.
Definition srcu_notifier_call_chain (nh val : Z) (v : data) (w : world S) : outcome (Z * world S) :=
  r ← __srcu_notifier_call_chain nh val v (-1) None w; Done (r.1.1, r.2).
Definition srcu_init_notifier_head (nh : Z) (st : store) : outcome store :=
  _ ← BUG_ON (init_srcu_struct <? 0);
  Done (mk_store (<[nh := None]> (heads st)) (blocks st)).

(** ** The die chain *)
Definition die_chain : Z := 0.

Definition notify_die (val : Z) (str regs err trap sig : Z) (w : world S) : outcome (Z * world S) :=
  atomic_notifier_call_chain die_chain val (DieArgs (mk_die_args regs str err trap sig)) w.
Definition register_die_notifier (nb : Z) (st : store) : outcome (Z * store) :=
  atomic_notifier_chain_register die_chain nb st.
Definition unregister_die_notifier (nb : Z) (st : store) : outcome (Z * store) :=
  atomic_notifier_chain_unregister die_chain nb st.

End Chains.
