(* ===== verification/NotifierProps.v ===== *)
(** * Notifier chains: order, registration and calls

    A chain as the list of its blocks, what registering and unregistering do to
    that list, and which callbacks a call runs, also when callbacks take
    themselves off the chain. *)

From Stdlib Require Import Sorted.
From stdpp Require Import gmap.
From S2P Require Import Prelude Notifier.

(** ** Links *)

(** The links from [sl] on run through the blocks of [l] and end. *)
Fixpoint list_at (st : store) (sl : slot) (l : list Z) : Prop :=
  match l with
  | [] => read_slot st sl = Done None
  | n :: l => read_slot st sl = Done (Some n) /\ list_at st (NextOf n) l
  end.

Definition prio (st : store) (n : Z) : Z :=
  match blocks st !! n with Some b => priority b | None => 0 end.

(** A chain: its blocks, the most urgent first. *)
Definition chain_ok (st : store) (nh : Z) (l : list Z) : Prop :=
  list_at st (HeadOf nh) l /\ NoDup l /\ StronglySorted (fun a b => prio st b <= prio st a) l.

(** The stores differ in their links only. *)
Definition same_info (st st' : store) : Prop :=
  forall n, (set_next None <$> blocks st' !! n) = (set_next None <$> blocks st !! n).

(** Setting a link, whatever it is. *)
Definition upd (st : store) (sl : slot) (p : option Z) : store :=
  match sl with
  | HeadOf nh => mk_store (<[nh := p]> (heads st)) (blocks st)
  | NextOf n => mk_store (heads st) (alter (set_next p) n (blocks st))
  end.

Lemma read_upd st sl p q : read_slot st sl = Done q -> read_slot (upd st sl p) sl = Done p.
Proof.
  destruct sl as [nh|n]; simpl; [by rewrite lookup_insert_eq|].
  unfold get_block. simpl. rewrite lookup_alter_eq. by destruct (blocks st !! n).
Qed.

Lemma read_upd_ne st sl sl' p : sl <> sl' -> read_slot (upd st sl p) sl' = read_slot st sl'.
Proof.
  intros Hne. destruct sl as [nh|n], sl' as [nh'|n']; simpl; try done.
  - rewrite lookup_insert_ne; congruence.
  - unfold get_block. simpl. rewrite lookup_alter_ne; congruence.
Qed.

Lemma same_info_upd st sl p : same_info st (upd st sl p).
Proof.
  intros n. destruct sl as [nh|m]; [done|]. simpl.
  destruct (decide (m = n)) as [->|]; [rewrite lookup_alter_eq|by rewrite lookup_alter_ne].
  by destruct (blocks st !! n).
Qed.

Lemma same_info_trans st1 st2 st3 : same_info st1 st2 -> same_info st2 st3 -> same_info st1 st3.
Proof. intros H1 H2 n. by rewrite H2. Qed.

Lemma same_info_prio st st' n : same_info st st' -> prio st' n = prio st n.
Proof.
  intros Hs. specialize (Hs n). unfold prio.
  destruct (blocks st' !! n) as [b'|], (blocks st !! n) as [b|]; simpl in Hs; try done.
  unfold set_next in Hs. by injection Hs.
Qed.

Lemma write_slot_upd st sl p q : read_slot st sl = Done q -> write_slot st sl p = Done (upd st sl p).
Proof.
  destruct sl as [nh|n]; simpl; [by destruct (heads st !! nh)|].
  unfold get_block. destruct (blocks st !! n) as [b|] eqn:Hb; [|done]. intros _. simpl.
  unfold put_block. do 2 f_equal. apply map_eq. intros m. destruct (decide (n = m)) as [<-|].
  - by rewrite lookup_insert_eq, lookup_alter_eq, Hb.
  - by rewrite lookup_insert_ne, lookup_alter_ne.
Qed.

Lemma link_at_upd st sl n cur : read_slot st sl = Done cur -> is_Some (blocks st !! n) -> sl <> NextOf n ->
  link_at st sl n = Done (upd (upd st (NextOf n) cur) sl (Some n)).
Proof.
  intros Hr [b Hb] Hne. unfold link_at, get_block. rewrite Hr, Hb. cbn [mbind outcome_bind].
  replace (put_block st n (set_next cur b)) with (upd st (NextOf n) cur).
  - eapply write_slot_upd. by rewrite read_upd_ne.
  - unfold upd, put_block. f_equal. apply map_eq. intros m. destruct (decide (n = m)) as [<-|].
    + by rewrite lookup_insert_eq, lookup_alter_eq, Hb.
    + by rewrite lookup_insert_ne, lookup_alter_ne.
Qed.

Lemma list_at_frame st st' l : forall sl,
  (forall s, s = sl \/ s ∈ (NextOf <$> l) -> read_slot st' s = read_slot st s) ->
  list_at st sl l -> list_at st' sl l.
Proof.
  induction l as [|n l IH]; intros sl Hf; cbn [list_at].
  - intros <-. apply Hf. by left.
  - intros [<- Hl]. split; [apply Hf; by left|]. apply IH; [|done].
    intros s Hs. apply Hf. right. rewrite fmap_cons, elem_of_cons. tauto.
Qed.

Lemma list_at_blocks st l : forall sl n, list_at st sl l -> n ∈ l -> is_Some (blocks st !! n).
Proof.
  induction l as [|m l IH]; intros sl n Hl Hn; [by apply not_elem_of_nil in Hn|].
  destruct Hl as [_ Hl]. apply elem_of_cons in Hn as [->|Hn]; [|by eapply IH].
  assert (Hr : exists q, read_slot st (NextOf m) = Done q) by (destruct l; [|destruct Hl]; eauto).
  destruct Hr as [q Hr]. simpl in Hr. unfold get_block in Hr. by destruct (blocks st !! m).
Qed.

Lemma chain_fuel_enough st sl l : list_at st sl l -> NoDup l -> (length l < chain_fuel st)%nat.
Proof.
  intros Hl Hd. unfold chain_fuel. rewrite <- size_dom, <- (size_list_to_set (C := gset Z) l) by done.
  apply Nat.lt_succ_r, subseteq_size. intros n Hn. apply elem_of_list_to_set in Hn.
  apply elem_of_dom. by eapply list_at_blocks.
Qed.

(** The head is not the [next] of a listed block. *)
Lemma next_inj (l : list Z) n : NextOf n ∈ (NextOf <$> l) <-> n ∈ l.
Proof.
  rewrite list_elem_of_fmap. split; [intros (m & [= ->] & ?); done|eauto].
Qed.

(** ** Registering *)

(** The place of a block: behind all that are at least as urgent. *)
Fixpoint ins (st : store) (n : Z) (l : list Z) : list Z :=
  match l with
  | [] => [n]
  | c :: l' => if prio st n >? prio st c then n :: l else c :: ins st n l'
  end.

Lemma get_block_prio st n : is_Some (blocks st !! n) ->
  exists b, get_block st n = Done b /\ priority b = prio st n.
Proof. intros [b Hb]. exists b. unfold get_block, prio. by rewrite Hb. Qed.

Lemma register_loop_ok st n : is_Some (blocks st !! n) -> forall l fuel sl,
  list_at st sl l -> NoDup l -> n ∉ l -> sl <> NextOf n -> (sl ∉ (NextOf <$> l)) ->
  (length l < fuel)%nat ->
  exists st', register_loop fuel st sl n = Done st' /\ list_at st' sl (ins st n l) /\
    same_info st st' /\
    forall s, s <> sl -> s <> NextOf n -> (s ∉ (NextOf <$> l)) -> read_slot st' s = read_slot st s.
Proof.
  intros Hn. assert (Hlink : forall sl l cur, read_slot st sl = Done cur -> sl <> NextOf n -> n ∉ l ->
    (sl ∉ (NextOf <$> l)) -> (forall st', (forall s, s ∈ (NextOf <$> l) -> read_slot st' s = read_slot st s) ->
       read_slot st' (NextOf n) = Done cur -> list_at st' (NextOf n) l) ->
    exists st', link_at st sl n = Done st' /\ list_at st' sl (n :: l) /\ same_info st st' /\
      forall s, s <> sl -> s <> NextOf n -> read_slot st' s = read_slot st s).
  { intros sl l cur Hr Hne Hnl Hsl Hl. rewrite (link_at_upd st sl n cur) by done.
    destruct (get_block_prio st n Hn) as (b & Hb & _).
    eexists. split; [done|]. split_and!.
    - cbn [list_at]. split; [eapply read_upd; by rewrite read_upd_ne|]. apply Hl.
      + intros s Hs. assert (s <> sl) by (by intros ->). assert (s <> NextOf n) by (intros ->; by apply Hnl, next_inj).
        rewrite !read_upd_ne by done. done.
      + rewrite read_upd_ne by done. eapply read_upd. simpl. by rewrite Hb.
    - eapply same_info_trans; apply same_info_upd.
    - intros s H1 H2. by rewrite !read_upd_ne by done. }
  induction l as [|c l IH]; intros fuel sl Hl Hd Hnl Hne Hsl Hf; (destruct fuel as [|fuel]; [simpl in Hf; lia|]);
    cbn [register_loop ins].
  - rewrite Hl. cbn [mbind outcome_bind].
    destruct (Hlink sl [] None Hl Hne Hnl Hsl) as (st' & Hr & H1 & H2 & H3); [by intros st' _ H|].
    exists st'. split_and!; [done|apply H1..|done|]. intros s ? ? _. by apply H3.
  - destruct Hl as [Hr Hl]. rewrite Hr. cbn [mbind outcome_bind].
    apply list.NoDup_cons in Hd as [Hcl Hd]. apply not_elem_of_cons in Hnl as [Hnc Hnl].
    rewrite fmap_cons, not_elem_of_cons in Hsl. destruct Hsl as [Hslc Hsl].
    destruct (get_block_prio st n Hn) as (bn & -> & Hpn).
    destruct (get_block_prio st c) as (bc & Hbc & Hpc).
    { apply (list_at_blocks st (c :: l) sl); [done|apply list_elem_of_here]. }
    rewrite Hbc. cbn [mbind outcome_bind]. rewrite Hpn, Hpc.
    destruct (Z.gtb_spec (prio st n) (prio st c)).
    + destruct (Hlink sl (c :: l) (Some c) Hr Hne) as (st' & Hr' & H1 & H2 & H3).
      * apply not_elem_of_cons; done.
      * rewrite fmap_cons, not_elem_of_cons. done.
      * intros st' Hfr Hnx. split; [done|]. eapply list_at_frame; [|exact Hl].
        intros s [->|Hs]; apply Hfr; rewrite fmap_cons, elem_of_cons; auto.
      * exists st'. split_and!; [done|apply H1..|done|]. intros s ? ? _. by apply H3.
    + destruct (IH fuel (NextOf c)) as (st' & Hr' & H1 & H2 & H3);
        [done|done|done|congruence|by rewrite next_inj|simpl in Hf; lia|].
      exists st'. split_and!; [done|split; [by rewrite H3|exact H1]|done|].
      intros s H4 H5. rewrite fmap_cons, not_elem_of_cons. intros [H6 H7]. by apply H3.
Qed.

Abbreviation by_prio st := (StronglySorted (fun a b => prio st b <= prio st a)).

Lemma ins_split st n l : by_prio st l ->
  exists l1 l2, l = l1 ++ l2 /\ ins st n l = l1 ++ n :: l2 /\
    Forall (fun c => prio st n <= prio st c) l1 /\ Forall (fun c => prio st c < prio st n) l2.
Proof.
  induction l as [|c l IH]; intros Hs; cbn [ins]; [by exists [], []|].
  apply StronglySorted_inv in Hs as [Hs Hc]. destruct (Z.gtb_spec (prio st n) (prio st c)).
  - exists [], (c :: l). split_and!; [done|done|constructor|]. constructor; [lia|].
    eapply list.Forall_impl; [exact Hc|]. simpl. lia.
  - destruct (IH Hs) as (l1 & l2 & -> & -> & H1 & H2). exists (c :: l1), l2.
    split_and!; [done|done|by constructor|done].
Qed.

Lemma sorted_ext st st' l : (forall n, prio st' n = prio st n) -> by_prio st l -> by_prio st' l.
Proof.
  intros He. induction 1 as [|a l Hs IH Ha]; constructor; [done|].
  eapply list.Forall_impl; [exact Ha|]. intros b. by rewrite !He.
Qed.

Lemma by_prio_app st l1 l2 :
  by_prio st (l1 ++ l2) <->
  by_prio st l1 /\ by_prio st l2 /\ Forall (fun a => Forall (fun b => prio st b <= prio st a) l2) l1.
Proof.
  induction l1 as [|a l1 IH]; cbn [app]; [split; [intros; split_and!; try done; constructor|tauto]|].
  split.
  - intros H. apply StronglySorted_inv in H as [H Ha]. apply IH in H as (H1 & H2 & H3).
    rewrite Forall_app in Ha. destruct Ha. split_and!; [by constructor|done|by constructor].
  - intros (H1 & H2 & H3). apply StronglySorted_inv in H1 as [H1 Ha]. apply list.Forall_cons in H3 as [H3 H4].
    constructor; [by apply IH|]. by apply Forall_app.
Qed.

Lemma sorted_insert_block st l1 n l2 :
  by_prio st (l1 ++ l2) -> Forall (fun c => prio st n <= prio st c) l1 ->
  Forall (fun c => prio st c < prio st n) l2 -> by_prio st (l1 ++ n :: l2).
Proof.
  rewrite !by_prio_app. intros (H1 & H2 & H3) Hl1 Hl2. split_and!; [done| |].
  - constructor; [done|]. eapply list.Forall_impl; [exact Hl2|]. simpl. lia.
  - rewrite list.Forall_forall in H3, Hl1 |- *. intros a Ha. constructor; [by apply Hl1|by apply H3].
Qed.

(** Another chain keeps its blocks when a chain without a common block changes. *)
Definition other_kept (st st' : store) (nh n : Z) (l : list Z) : Prop :=
  forall nh' l', nh' <> nh -> (forall m, m ∈ l' -> (m ∉ l) /\ m <> n) ->
    list_at st (HeadOf nh') l' -> list_at st' (HeadOf nh') l'.

Lemma other_kept_frame st st' nh n l :
  (forall s, s <> HeadOf nh -> s <> NextOf n -> (s ∉ (NextOf <$> l)) -> read_slot st' s = read_slot st s) ->
  other_kept st st' nh n l.
Proof.
  intros Hf nh' l' Hne Hdis Hl. eapply list_at_frame; [|exact Hl]. intros s [->|Hs].
  - apply Hf; [congruence|done|]. intros Hin. apply list_elem_of_fmap in Hin as (? & [=] & _).
  - apply list_elem_of_fmap in Hs as (m & -> & Hm). destruct (Hdis m Hm) as [H1 H2].
    apply Hf; [done|congruence|by rewrite next_inj].
Qed.

Lemma register_ok st nh n l :
  chain_ok st nh l -> n ∉ l -> is_Some (blocks st !! n) ->
  exists st' l1 l2, notifier_chain_register (HeadOf nh) n st = Done (0, st') /\
    l = l1 ++ l2 /\ chain_ok st' nh (l1 ++ n :: l2) /\
    Forall (fun c => prio st n <= prio st c) l1 /\ Forall (fun c => prio st c < prio st n) l2 /\
    same_info st st' /\ other_kept st st' nh n l.
Proof.
  intros (Hl & Hd & Hs) Hn Hb. unfold notifier_chain_register.
  destruct (register_loop_ok st n Hb l (chain_fuel st) (HeadOf nh)) as (st' & -> & Hl' & Hi & Hf);
    [done|done|done|done| |by eapply chain_fuel_enough|].
  { intros Hin. apply list_elem_of_fmap in Hin as (? & [=] & _). }
  destruct (ins_split st n l Hs) as (l1 & l2 & -> & Hins & H1 & H2). rewrite Hins in Hl'.
  exists st', l1, l2. split_and!; [done|done| |done|done|done|by apply other_kept_frame].
  split_and!; [done| |].
  - rewrite <- Permutation_middle. by apply list.NoDup_cons.
  - eapply sorted_ext; [intros m; by apply same_info_prio|]. by apply sorted_insert_block.
Qed.

(** ** Conditional registration *)

Lemma cond_loop_absent n l : forall fuel st sl, list_at st sl l -> n ∉ l ->
  cond_register_loop fuel st sl n = register_loop fuel st sl n.
Proof.
  induction l as [|c l IH]; intros [|fuel] st sl Hl Hn; cbn [cond_register_loop register_loop]; try done.
  - by rewrite Hl.
  - destruct Hl as [-> Hl]. cbn [mbind outcome_bind]. apply not_elem_of_cons in Hn as [Hc Hn].
    destruct (Z.eqb_spec c n); [congruence|].
    destruct (get_block st n); [|done..]. cbn [mbind outcome_bind].
    destruct (get_block st c); [|done..]. cbn [mbind outcome_bind].
    destruct (_ >? _); [done|]. by apply IH.
Qed.

Lemma cond_loop_present st n l : forall fuel sl, list_at st sl l -> by_prio st l -> n ∈ l ->
  (length l < fuel)%nat -> cond_register_loop fuel st sl n = Done st.
Proof.
  induction l as [|c l IH]; intros fuel sl Hl Hs Hn Hf; [by apply not_elem_of_nil in Hn|].
  destruct fuel as [|fuel]; [lia|]. cbn [cond_register_loop].
  pose proof (list_at_blocks _ _ _ _ Hl Hn) as Hbn.
  pose proof (list_at_blocks _ _ _ c Hl (list_elem_of_here _ _)) as Hbc.
  destruct Hl as [-> Hl]. cbn [mbind outcome_bind].
  destruct (Z.eqb_spec c n) as [|Hne]; [done|].
  apply elem_of_cons in Hn as [?|Hn]; [congruence|].
  apply StronglySorted_inv in Hs as [Hs Hc]. rewrite list.Forall_forall in Hc. specialize (Hc n Hn).
  destruct (get_block_prio st n Hbn) as (bn & -> & Hpn), (get_block_prio st c Hbc) as (bc & -> & Hpc).
  cbn [mbind outcome_bind]. rewrite Hpn, Hpc. destruct (Z.gtb_spec (prio st n) (prio st c)); [lia|].
  apply IH; [done|done|done|simpl in Hf; lia].
Qed.

(** ** Unregistering *)

Lemma unregister_loop_found st n l1 : forall fuel sl l2,
  list_at st sl (l1 ++ n :: l2) -> NoDup (l1 ++ n :: l2) -> (sl ∉ (NextOf <$> (l1 ++ n :: l2))) ->
  (length (l1 ++ n :: l2) < fuel)%nat ->
  exists st', unregister_loop fuel st sl n = Done (0, st') /\ list_at st' sl (l1 ++ l2) /\
    same_info st st' /\
    forall s, s <> sl -> (s ∉ (NextOf <$> l1)) -> read_slot st' s = read_slot st s.
Proof.
  induction l1 as [|c l1 IH]; intros fuel sl l2 Hl Hd Hsl Hf; (destruct fuel as [|fuel]; [simpl in Hf; lia|]);
    cbn [unregister_loop app] in *.
  - pose proof (list_at_blocks _ _ _ n Hl (list_elem_of_here _ _)) as [b Hb].
    destruct Hl as [Hr Hl]. rewrite Hr. cbn [mbind outcome_bind].
    rewrite Z.eqb_refl. unfold get_block. rewrite Hb. cbn [mbind outcome_bind].
    rewrite (write_slot_upd st sl (next b) (Some n) Hr). cbn [mbind outcome_bind].
    rewrite fmap_cons, not_elem_of_cons in Hsl. destruct Hsl as [Hsn Hsl].
    assert (Hnext : read_slot st (NextOf n) = Done (next b)) by (simpl; unfold get_block; by rewrite Hb).
    eexists. split; [done|]. split_and!; [|apply same_info_upd|intros s ? _; by apply read_upd_ne].
    destruct l2 as [|m l2]; cbn [list_at] in *.
    + rewrite Hl in Hnext. injection Hnext as <-. by eapply read_upd.
    + destruct Hl as [Hm Hl]. rewrite Hm in Hnext. injection Hnext as <-.
      split; [by eapply read_upd|]. eapply list_at_frame; [|exact Hl].
      intros s Hs. apply read_upd_ne. intros ->. rewrite fmap_cons, not_elem_of_cons in Hsl.
      destruct Hsl, Hs; congruence || done.
  - destruct Hl as [Hr Hl]. rewrite Hr. cbn [mbind outcome_bind].
    apply list.NoDup_cons in Hd as [Hc Hd]. rewrite fmap_cons, not_elem_of_cons in Hsl. destruct Hsl as [Hsc Hsl].
    destruct (Z.eqb_spec c n) as [->|Hne].
    { exfalso. apply Hc, elem_of_app. right. apply list_elem_of_here. }
    destruct (IH fuel (NextOf c) l2) as (st' & -> & H1 & H2 & H3); [done|done|by rewrite next_inj|simpl in Hf; lia|].
    assert (Hsl1 : sl ∉ (NextOf <$> l1)).
    { intros Hin. apply Hsl. rewrite fmap_app. apply elem_of_app. by left. }
    exists st'. split_and!; [done|split; [by rewrite H3|exact H1]|done|].
    intros s Hs1. rewrite fmap_cons, not_elem_of_cons. intros [Hs2 Hs3]. by apply H3.
Qed.

Lemma unregister_loop_absent st n l : forall fuel sl,
  list_at st sl l -> n ∉ l -> (length l < fuel)%nat ->
  unregister_loop fuel st sl n = Done (- ENOENT, st).
Proof.
  induction l as [|c l IH]; intros fuel sl Hl Hn Hf; (destruct fuel as [|fuel]; [simpl in Hf; lia|]);
    cbn [unregister_loop].
  - by rewrite Hl.
  - destruct Hl as [-> Hl]. cbn [mbind outcome_bind]. apply not_elem_of_cons in Hn as [Hc Hn].
    destruct (Z.eqb_spec c n); [congruence|]. apply IH; [done|done|simpl in Hf; lia].
Qed.

Lemma unregister_ok st nh n l :
  chain_ok st nh l -> n ∈ l -> exists st' l1 l2, l = l1 ++ n :: l2 /\
    notifier_chain_unregister (HeadOf nh) n st = Done (0, st') /\
    chain_ok st' nh (l1 ++ l2) /\ same_info st st' /\ other_kept st st' nh n l.
Proof.
  intros (Hl & Hd & Hs) Hn. apply list_elem_of_split in Hn as (l1 & l2 & ->).
  destruct (unregister_loop_found st n l1 (chain_fuel st) (HeadOf nh) l2) as (st' & Hr & Hl' & Hi & Hf);
    [done|done| |by eapply chain_fuel_enough|].
  { intros Hin. apply list_elem_of_fmap in Hin as (? & [=] & _). }
  exists st', l1, l2. split_and!; [done|done| |done|].
  - split_and!; [done| |].
    + rewrite <- Permutation_middle in Hd. by apply list.NoDup_cons in Hd as [_ Hd].
    + eapply sorted_ext; [intros m; by apply same_info_prio|].
      rewrite by_prio_app in Hs |- *. destruct Hs as (H1 & H2 & H3). apply StronglySorted_inv in H2 as [H2 _].
      split_and!; [done|done|]. eapply list.Forall_impl; [exact H3|].
      intros a Ha. by apply list.Forall_cons in Ha as [_ Ha].
  - apply other_kept_frame. intros s H1 H2 H3. apply Hf; [done|].
    intros Hin. apply H3. rewrite fmap_app. apply elem_of_app. by left.
Qed.

Lemma NoDup_split_unique (n : Z) l1 l2 m1 m2 :
  NoDup (l1 ++ n :: l2) -> l1 ++ n :: l2 = m1 ++ n :: m2 -> m1 = l1 /\ m2 = l2.
Proof.
  revert m1. induction l1 as [|a l1 IH]; intros [|b m1] Hd Heq; cbn [app] in *.
  - by injection Heq as ->.
  - injection Heq as -> Heq. apply list.NoDup_cons in Hd as [Hn _]. exfalso. apply Hn. rewrite Heq.
    apply elem_of_app. right. apply list_elem_of_here.
  - injection Heq as -> Heq. apply list.NoDup_cons in Hd as [Hn _]. exfalso.
    apply Hn, elem_of_app. right. apply list_elem_of_here.
  - injection Heq as -> Heq. apply list.NoDup_cons in Hd as [_ Hd]. by destruct (IH m1 Hd Heq) as [-> ->].
Qed.

(** ** Calls *)
Section Calls.
Context {S : Type}.
Variable call : Z -> Z -> Z -> data -> world S -> Z * world S.
Variables (debug : bool) (text : Z -> bool) (val : Z) (v : data).

Definition fn_of (st : store) (n : Z) : Z :=
  match blocks st !! n with Some b => notifier_call b | None => 0 end.
Definition stops (ret : Z) : bool := bool_of (Z.land ret NOTIFY_STOP_MASK).

(** Running the callbacks of some blocks, all of them, one after the other:
    their answers and the world behind them. *)
Fixpoint run_all (fn : Z -> Z) (l : list Z) (w : world S) : list Z * world S :=
  match l with
  | [] => ([], w)
  | n :: l => let '(ret, w1) := call (fn n) n val v w in
              let '(rets, w2) := run_all fn l w1 in (ret :: rets, w2)
  end.

(** No callback of the run touches a block behind its own on the chain; it may
    take its own block off. *)
Fixpoint behind_kept (fn : Z -> Z) (l : list Z) (w : world S) : Prop :=
  match l with
  | [] => True
  | n :: l =>
      if debug && negb (text (fn n)) then behind_kept fn l w
      else let w1 := (call (fn n) n val v w).2 in
           (forall m, m ∈ l -> blocks (wstore w1) !! m = blocks (wstore w) !! m) /\
           (stops (call (fn n) n val v w).1 = false -> behind_kept fn l w1)
  end.

(** The blocks whose callbacks are eligible. *)
Definition eligible (fn : Z -> Z) (l : list Z) : list Z :=
  filter (fun n => debug && negb (text (fn n)) = false) l.

(** How far a call goes through the eligible blocks [l]: it runs the first [k],
    none of which stops it but possibly the last, and ends because the blocks
    are used up, the budget is used up, or the last one stopped it. *)
Definition call_result (fn : Z -> Z) (l : list Z) (nr ret : Z) (calls : option Z) (w : world S)
    (out : Z * option Z * world S) : Prop :=
  exists (k : nat) (rets : list Z) (w' : world S), run_all fn (take k l) w = (rets, w') /\
    out = (List.last rets ret, (fun c => s32 (c + Z.of_nat k)) <$> calls, w') /\
    (k <= length l)%nat /\ (0 <= nr -> Z.of_nat k <= nr) /\
    Forall (fun r => stops r = false) (removelast rets) /\
    (k = length l \/ Z.of_nat k = nr \/ stops (List.last rets ret) = true).

Definition calls_ok (calls : option Z) : Prop := forall c, calls = Some c -> - 2 ^ 31 <= c < 2 ^ 31.

Lemma calls_next calls : calls_ok ((fun c => s32 (c + 1)) <$> calls).
Proof using Type.
  intros c Hc. destruct calls as [c0|]; [|done]. injection Hc as <-.
  unfold s32. pose proof (Z.mod_pos_bound (c0 + 1 + 2 ^ 31) (2 ^ 32)). lia.
Qed.

Lemma call_result_none fn l nr ret calls w :
  calls_ok calls -> l = [] \/ nr = 0 -> call_result fn l nr ret calls w (ret, calls, w).
Proof using Type.
  intros Hc Hend. exists 0%nat, [], w. split_and!; [done| |lia|done|constructor|].
  - simpl. do 2 f_equal. destruct calls as [c|]; [|done]. simpl. f_equal.
    rewrite Z.add_0_r, s32_small; [done|]. by apply Hc.
  - destruct Hend as [->| ->]; [by left|by right; left].
Qed.

Lemma call_result_stop fn n l nr ret calls w r w1 :
  nr <> 0 -> call (fn n) n val v w = (r, w1) -> stops r = true ->
  call_result fn (n :: l) nr ret calls w (r, (fun c => s32 (c + 1)) <$> calls, w1).
Proof using Type.
  intros Hnr Hcall Hst. exists 1%nat, [r], w1. cbn [take run_all]. rewrite Hcall.
  split_and!; [done|done|simpl; lia|lia|constructor|by right; right].
Qed.

Lemma s32_add a b : s32 (s32 a + b) = s32 (a + b).
Proof using Type.
  unfold s32. f_equal. replace ((a + 2 ^ 31) mod 2 ^ 32 - 2 ^ 31 + b + 2 ^ 31) with ((a + 2 ^ 31) mod 2 ^ 32 + b) by lia.
  rewrite Zplus_mod_idemp_l. f_equal. lia.
Qed.

Lemma call_result_next fn n l nr ret calls w r w1 out :
  nr <> 0 -> call (fn n) n val v w = (r, w1) -> stops r = false ->
  call_result fn l (nr - 1) r ((fun c => s32 (c + 1)) <$> calls) w1 out ->
  call_result fn (n :: l) nr ret calls w out.
Proof using Type.
  intros Hnr Hcall Hst (k & rets & w' & Hrun & -> & Hk & Hkn & Hall & Hend).
  exists (Datatypes.S k), (r :: rets), w'. cbn [take run_all]. rewrite Hcall, Hrun.
  rewrite Prelude.last_cons. split_and!; [done| |simpl; lia|lia| |].
  - do 2 f_equal. destruct calls as [c|]; [|done]. simpl. f_equal. rewrite s32_add. f_equal. lia.
  - destruct rets; [constructor|]. cbn [removelast]. by constructor.
  - destruct Hend as [->|[Hk'|Hs]]; [by left|right; left; lia|by right; right].
Qed.

(** Blocks whose links lead through [l], from the second on. *)
Definition tail_at (st : store) (l : list Z) : Prop :=
  match l with [] => True | n :: l => list_at st (NextOf n) l end.

Lemma tail_at_step st n l : tail_at st (n :: l) ->
  exists b, blocks st !! n = Some b /\ next b = list.head l /\ tail_at st l.
Proof using Type.
  intros Ht. simpl in Ht.
  assert (Hr : read_slot st (NextOf n) = Done (list.head l) /\ tail_at st l) by (by destruct l).
  destruct Hr as [Hr Hl]. simpl in Hr. unfold get_block in Hr.
  destruct (blocks st !! n) as [b|]; [|done]. injection Hr as Hr. by exists b.
Qed.

Lemma call_loop_ok st0 l : forall fuel w nr ret calls,
  (forall n, n ∈ l -> blocks (wstore w) !! n = blocks st0 !! n) -> tail_at st0 l ->
  behind_kept (fn_of st0) l w -> (length l < fuel)%nat -> calls_ok calls ->
  - 2 ^ 31 <= nr - Z.of_nat (length l) -> nr < 2 ^ 31 ->
  exists out, call_loop call debug text fuel (list.head l) val v nr ret calls w = Done out /\
    call_result (fn_of st0) (eligible (fn_of st0) l) nr ret calls w out.
Proof using Type.
  induction l as [|n l IH]; intros fuel w nr ret calls Hb Ht Hk Hf Hc Hlo Hhi;
    (destruct fuel as [|fuel]; [simpl in Hf; lia|]); cbn [call_loop list.head].
  { eexists. split; [done|]. apply call_result_none; [done|by left]. }
  destruct (Z.eqb_spec nr 0) as [->|Hnr].
  { eexists. split; [done|]. apply call_result_none; [done|by right]. }
  apply tail_at_step in Ht as (b & Hbn & Hnext & Ht).
  unfold get_block. rewrite Hb, Hbn by apply list_elem_of_here. cbn [mbind outcome_bind]. rewrite Hnext.
  assert (Hfn : fn_of st0 n = notifier_call b) by (unfold fn_of; by rewrite Hbn).
  assert (Hb' : forall m, m ∈ l -> blocks (wstore w) !! m = blocks st0 !! m)
    by (intros m Hm; apply Hb; by apply list_elem_of_further).
  unfold eligible. rewrite filter_cons, Hfn. fold (eligible (fn_of st0) l). cbn [length behind_kept] in *.
  rewrite Hfn in Hk.
  destruct (debug && negb (text (notifier_call b))) eqn:Hdbg.
  { rewrite decide_False by done. apply IH; [done|done|done|lia|done|lia|lia]. }
  rewrite decide_True by done. destruct (call (notifier_call b) n val v w) as [r w1] eqn:Hcall.
  rewrite <- Hfn in Hcall. cbn [fst snd] in Hk. destruct Hk as [Hk1 Hk2].
  destruct (bool_of (Z.land r NOTIFY_STOP_MASK)) eqn:Hst.
  { eexists. split; [done|]. by eapply call_result_stop. }
  rewrite s32_small by lia.
  destruct (IH fuel w1 (nr - 1) r ((fun c => s32 (c + 1)) <$> calls)) as (out & -> & Hout);
    [|done|by apply Hk2|lia|apply calls_next|lia|lia|].
  - intros m Hm. rewrite <- Hb' by done. by apply Hk1.
  - eexists. split; [done|]. by eapply call_result_next.
Qed.
End Calls.

(** ** What the operations promise *)

(** Blocks 10, 20 and 30 on the chain of head 0, block 40 on none. *)
Definition demo_store : store :=
  mk_store {[0 := Some 10; 1 := None]}
    {[10 := mk_block 1 (Some 20) 5; 20 := mk_block 2 (Some 30) 3; 30 := mk_block 3 None 1;
      40 := mk_block 4 None 3]}.

Lemma demo_chain_ok : chain_ok demo_store 0 [10; 20; 30].
Proof.
  split_and!; [done..|by apply (bool_decide_unpack _)|].
  repeat constructor; by vm_compute.
Qed.

(** C29: registering a block on a chain ordered by priority always returns 0.
    [notifier_chain_register] links a block that is not on the chain behind all
    blocks that are at least as urgent and in front of all others, so that the
    chain stays in order; no other field of any block and no chain without a
    common block changes.  [notifier_chain_cond_register] does the same for
    such a block and nothing at all for one that is on the chain already. *)
Theorem notifier_register_spec st nh n l :
  chain_ok st nh l -> is_Some (blocks st !! n) ->
  ((n ∉ l) -> exists st' l1 l2,
     notifier_chain_register (HeadOf nh) n st = Done (0, st') /\
     notifier_chain_cond_register (HeadOf nh) n st = Done (0, st') /\
     l = l1 ++ l2 /\ chain_ok st' nh (l1 ++ n :: l2) /\
     Forall (fun c => prio st n <= prio st c) l1 /\ Forall (fun c => prio st c < prio st n) l2 /\
     same_info st st' /\ other_kept st st' nh n l) /\
  (n ∈ l -> notifier_chain_cond_register (HeadOf nh) n st = Done (0, st)).
Proof.
  intros Hok Hb. pose proof Hok as (Hl & Hd & Hs). split; intros Hn.
  - destruct (register_ok st nh n l Hok Hn Hb) as (st' & l1 & l2 & Hr & H1 & H2 & H3 & H4 & H5 & H6).
    exists st', l1, l2. split_and!; try done.
    unfold notifier_chain_cond_register. by rewrite (cond_loop_absent n l).
  - unfold notifier_chain_cond_register.
    by rewrite (cond_loop_present st n l) by (done || by eapply chain_fuel_enough).
Qed.

Lemma notifier_register_spec_witness : exists st' l1 l2,
  notifier_chain_register (HeadOf 0) 40 demo_store = Done (0, st') /\
  [10; 20; 30] = l1 ++ l2 /\ chain_ok st' 0 (l1 ++ 40 :: l2) /\ prio demo_store 40 = 3.
Proof.
  destruct (notifier_register_spec demo_store 0 40 [10; 20; 30]) as [Hreg _].
  - apply demo_chain_ok.
  - by eexists.
  - destruct Hreg as (st' & l1 & l2 & Hr & _ & Hl & Hok & _); [by apply (bool_decide_unpack _)|].
    by exists st', l1, l2.
Defined.

(** [notifier_chain_unregister] takes exactly the given block off an
    ordered chain and answers 0, leaving the order of the others, all other
    fields and all chains without a common block as they were; for a block that
    is not on the chain it answers [-ENOENT] and changes nothing.  A block that
    was registered and is unregistered again leaves the chain as it was. *)
Theorem notifier_unregister_spec st nh n l :
  chain_ok st nh l -> is_Some (blocks st !! n) ->
  (n ∈ l -> exists st' l1 l2, l = l1 ++ n :: l2 /\
     notifier_chain_unregister (HeadOf nh) n st = Done (0, st') /\
     chain_ok st' nh (l1 ++ l2) /\ same_info st st' /\ other_kept st st' nh n l) /\
  ((n ∉ l) -> notifier_chain_unregister (HeadOf nh) n st = Done (- ENOENT, st) /\
     exists st1 st2, notifier_chain_register (HeadOf nh) n st = Done (0, st1) /\
       notifier_chain_unregister (HeadOf nh) n st1 = Done (0, st2) /\ chain_ok st2 nh l).
Proof.
  intros Hok Hb. split; intros Hn; [by apply unregister_ok|].
  split.
  - destruct Hok as (Hl & Hd & Hs).
    by apply (unregister_loop_absent st n l); [| |by eapply chain_fuel_enough].
  - destruct (register_ok st nh n l Hok Hn Hb) as (st1 & l1 & l2 & Hr & -> & Hok1 & _).
    destruct (unregister_ok st1 nh n (l1 ++ n :: l2) Hok1) as (st2 & m1 & m2 & Heq & Hu & Hok2 & _).
    { apply elem_of_app. right. apply list_elem_of_here. }
    exists st1, st2. split_and!; [done|done|].
    enough (Hm : m1 = l1 /\ m2 = l2) by (by destruct Hm as [-> ->]).
    apply (NoDup_split_unique n); [apply Hok1|done].
Qed.

Lemma notifier_unregister_spec_witness :
  (exists st' l1 l2, [10; 20; 30] = l1 ++ 20 :: l2 /\
     notifier_chain_unregister (HeadOf 0) 20 demo_store = Done (0, st') /\ chain_ok st' 0 (l1 ++ l2)) /\
  notifier_chain_unregister (HeadOf 0) 40 demo_store = Done (- ENOENT, demo_store).
Proof.
  destruct (notifier_unregister_spec demo_store 0 20 [10; 20; 30]) as [H20 _].
  - apply demo_chain_ok.
  - by eexists.
  - destruct (notifier_unregister_spec demo_store 0 40 [10; 20; 30]) as [_ H40].
    + apply demo_chain_ok.
    + by eexists.
    + split; [|by apply H40; apply (bool_decide_unpack _)].
      destruct H20 as (st' & l1 & l2 & Hl & Hr & Hok & _); [by apply (bool_decide_unpack _)|].
      by exists st', l1, l2.
Defined.

(** Calling an ordered chain always returns, also when callbacks take their
    own block off the chain, as long as none touches the blocks behind it.  It
    runs callbacks in the order of the chain, most urgent first, each once:
    exactly the first [k] of those that pass the debug check, where the call ends
    because the chain ends, because [nr_to_call] callbacks have run, or because
    the last one answered with [NOTIFY_STOP_MASK] and none before it did.  The
    result is the last callback's answer ([NOTIFY_DONE] if none ran), and
    [*nr_calls] has grown by [k]. *)
Theorem notifier_call_chain_spec {S} call debug text nh val v nr calls (w : world S) l
    (fn := fn_of (wstore w)) :
  chain_ok (wstore w) nh l -> Z.of_nat (length l) < 2 ^ 31 -> -1 <= nr < 2 ^ 31 -> calls_ok calls ->
  behind_kept call debug text val v fn l w ->
  exists out, notifier_call_chain call debug text (HeadOf nh) val v nr calls w = Done out /\
    call_result call val v fn (eligible debug text fn l) nr NOTIFY_DONE calls w out.
Proof.
  intros (Hl & Hd & _) Hlen Hnr Hc Hk. unfold notifier_call_chain.
  assert (Hr : read_slot (wstore w) (HeadOf nh) = Done (list.head l) /\ tail_at (wstore w) l).
  { destruct l as [|n l]; [done|]. destruct Hl. done. }
  destruct Hr as [-> Ht]. cbn [mbind outcome_bind].
  by apply call_loop_ok; [| | |eapply chain_fuel_enough| |lia|lia].
Qed.

(** Callbacks that log their block; the one at address 2 takes its block off
    the chain, the one at address 3 stops the call. *)
Definition demo_call (fn n val : Z) (v : data) (w : world (list Z)) : Z * world (list Z) :=
  let log := rest w ++ [n] in
  if fn =? 2 then
    match notifier_chain_unregister (HeadOf 0) n (wstore w) with
    | Done (_, st) => (NOTIFY_OK, mk_world st log)
    | _ => (NOTIFY_BAD, mk_world (wstore w) log)
    end
  else if fn =? 3 then (NOTIFY_STOP, mk_world (wstore w) log)
  else (NOTIFY_OK, mk_world (wstore w) log).

Lemma notifier_call_chain_spec_witness : exists out,
  notifier_call_chain demo_call false (fun _ => true) (HeadOf 0) 7 (Ptr 0) (-1) (Some 0)
    (mk_world demo_store []) = Done out /\
  call_result demo_call 7 (Ptr 0) (fn_of demo_store) [10; 20; 30] (-1) NOTIFY_DONE (Some 0)
    (mk_world demo_store []) out /\
  out.1 = (NOTIFY_STOP, Some 3) /\ rest out.2 = [10; 20; 30] /\ list_at (wstore out.2) (HeadOf 0) [10; 30].
Proof.
  destruct (notifier_call_chain_spec demo_call false (fun _ => true) 0 7 (Ptr 0) (-1) (Some 0)
    (mk_world demo_store []) [10; 20; 30]) as (out & Hr & Hres).
  - apply demo_chain_ok.
  - simpl. lia.
  - lia.
  - intros c [= <-]. lia.
  - cbn. split; [done|]. intros _. split; [|intros _; split; [done|discriminate]].
    intros m Hm. apply list_elem_of_singleton in Hm as ->. by vm_compute.
  - exists out. split; [exact Hr|]. split; [exact Hres|].
    vm_compute in Hr. injection Hr as <-. by vm_compute.
Defined.

(** ** A block registered twice *)

Lemma register_loop_again st n l2 : forall l1 fuel sl,
  list_at st sl (l1 ++ n :: l2) -> by_prio st (l1 ++ n :: l2) ->
  Forall (fun c => prio st c < prio st n) l2 -> (length (l1 ++ n :: l2) < fuel)%nat ->
  register_loop fuel st sl n = link_at st (NextOf n) n.
Proof.
  intros l1. induction l1 as [|c l1 IH]; intros fuel sl Hl Hs Hlow Hf;
    (destruct fuel as [|fuel]; [simpl in Hf; lia|]); cbn [app register_loop] in *.
  - pose proof (list_at_blocks _ _ _ n Hl (list_elem_of_here _ _)) as Hbn.
    destruct (get_block_prio st n Hbn) as (bn & Hgn & Hpn).
    destruct Hl as [-> Hl]. cbn [mbind outcome_bind]. rewrite Hgn. cbn [mbind outcome_bind].
    destruct (Z.gtb_spec (priority bn) (priority bn)); [lia|].
    destruct fuel as [|fuel]; [simpl in Hf; lia|]. cbn [register_loop].
    destruct l2 as [|c l2]; [by rewrite Hl|].
    pose proof (list_at_blocks _ _ _ c Hl (list_elem_of_here _ _)) as Hbc.
    destruct (get_block_prio st c Hbc) as (bc & Hgc & Hpc). destruct Hl as [-> _]. cbn [mbind outcome_bind].
    rewrite Hgn, Hgc. cbn [mbind outcome_bind]. apply list.Forall_cons in Hlow as [Hlow _].
    by destruct (Z.gtb_spec (priority bn) (priority bc)); [|lia].
  - assert (Hin : n ∈ c :: l1 ++ n :: l2).
    { apply list_elem_of_further, elem_of_app. right. apply list_elem_of_here. }
    pose proof (list_at_blocks _ _ _ n Hl Hin) as Hbn.
    pose proof (list_at_blocks _ _ _ c Hl (list_elem_of_here _ _)) as Hbc.
    destruct (get_block_prio st n Hbn) as (bn & Hgn & Hpn), (get_block_prio st c Hbc) as (bc & Hgc & Hpc).
    destruct Hl as [-> Hl]. cbn [mbind outcome_bind]. rewrite Hgn, Hgc. cbn [mbind outcome_bind].
    apply StronglySorted_inv in Hs as [Hs Hc]. rewrite list.Forall_forall in Hc.
    specialize (Hc n). destruct (Z.gtb_spec (priority bn) (priority bc)).
    + rewrite Hpn, Hpc in *. enough (prio st n <= prio st c) by lia. apply Hc.
      apply elem_of_app. right. apply list_elem_of_here.
    + apply IH; [done|done|done|simpl in Hf; lia].
Qed.

Lemma link_at_self st n b : blocks st !! n = Some b ->
  link_at st (NextOf n) n = Done (put_block st n (set_next (Some n) b)).
Proof.
  intros Hb. unfold link_at. simpl. unfold get_block. rewrite Hb. cbn [mbind outcome_bind].
  simpl. rewrite lookup_insert_eq. cbn [mbind outcome_bind].
  unfold put_block, set_next. simpl. by rewrite insert_insert_eq.
Qed.

(** Links that lead to a block that is its own successor do not end. *)
Lemma self_loop_endless st n l : read_slot st (NextOf n) = Done (Some n) -> ~ list_at st (NextOf n) l.
Proof.
  intros Hn. induction l as [|m l IH]; cbn [list_at]; rewrite Hn; [discriminate|].
  intros [[= <-] Hl]. by apply IH.
Qed.

Lemma self_loop_reached st st' n l1 : forall sl l l2,
  list_at st sl (l1 ++ n :: l2) -> read_slot st' (NextOf n) = Done (Some n) ->
  (forall s, s = sl \/ s ∈ (NextOf <$> l1) -> read_slot st' s = read_slot st s) -> ~ list_at st' sl l.
Proof.
  induction l1 as [|c l1 IH]; intros sl l l2 [Hr Hl] Hn Hf Hl'.
  - rewrite <- (Hf sl) in Hr by (by left).
    destruct l as [|m l]; cbn [list_at] in Hl'; [congruence|].
    destruct Hl' as [Hm Hl']. rewrite Hr in Hm. injection Hm as <-. by eapply self_loop_endless.
  - rewrite <- (Hf sl) in Hr by (by left).
    destruct l as [|m l]; cbn [list_at] in Hl'; [congruence|].
    destruct Hl' as [Hm Hl']. rewrite Hr in Hm. injection Hm as <-.
    eapply (IH (NextOf c)); [exact Hl|done| |exact Hl'].
    intros s Hs. apply Hf. right. rewrite fmap_cons, elem_of_cons. tauto.
Qed.

Lemma self_loop_calls {S} (call : Z -> Z -> Z -> data -> world S -> Z * world S) st n b val v :
  (forall fn m val v w, stops (call fn m val v w).1 = false /\ wstore (call fn m val v w).2 = wstore w) ->
  blocks st !! n = Some b -> next b = Some n ->
  forall fuel nr ret w, wstore w = st -> nr < 0 -> - 2 ^ 31 < nr - Z.of_nat fuel ->
    call_loop call false (fun _ => true) fuel (Some n) val v nr ret None w = NoFuel.
Proof.
  intros Hcall Hb Hnext. induction fuel as [|fuel IH]; intros nr ret w Hw Hnr Hf; [done|].
  cbn [call_loop]. destruct (Z.eqb_spec nr 0); [lia|].
  unfold get_block. rewrite Hw, Hb. cbn [mbind outcome_bind andb].
  destruct (Hcall (notifier_call b) n val v w) as [Hst Hw1].
  destruct (call (notifier_call b) n val v w) as [r w1]. cbn [fst snd] in *. unfold stops in Hst.
  rewrite Hst, Hnext. cbn [fmap option_fmap option_map]. rewrite s32_small by lia.
  apply IH; [congruence|lia|lia].
Qed.

(** [notifier_chain_register] does not notice a block that is on the chain
    already.  When the blocks behind it are all less urgent, registering it once
    more answers 0 and makes the block its own successor: the links from the
    head no longer end, and a call whose callbacks neither stop it nor change
    the chain runs that block's callback over and over, so that more than
    2^31 - 2 turns are not enough for it to return. *)
Theorem double_register_loops {S} st nh n l1 l2 (call : Z -> Z -> Z -> data -> world S -> Z * world S) :
  chain_ok st nh (l1 ++ n :: l2) -> Forall (fun c => prio st c < prio st n) l2 ->
  (forall fn m val v w, stops (call fn m val v w).1 = false /\ wstore (call fn m val v w).2 = wstore w) ->
  exists st', notifier_chain_register (HeadOf nh) n st = Done (0, st') /\
    read_slot st' (NextOf n) = Done (Some n) /\
    (forall l, ~ list_at st' (HeadOf nh) l) /\
    forall fuel val v ret s, Z.of_nat fuel < 2 ^ 31 - 1 ->
      call_loop call false (fun _ => true) fuel (Some n) val v (-1) ret None (mk_world st' s) = NoFuel.
Proof.
  intros (Hl & Hd & Hs) Hlow Hcall. unfold notifier_chain_register.
  assert (Hn : n ∈ l1 ++ n :: l2) by (apply elem_of_app; right; apply list_elem_of_here).
  destruct (list_at_blocks _ _ _ _ Hl Hn) as [b Hb].
  rewrite (register_loop_again st n l2 l1), (link_at_self st n b)
    by (done || by eapply chain_fuel_enough).
  assert (Hb' : blocks (put_block st n (set_next (Some n) b)) !! n = Some (set_next (Some n) b))
    by apply lookup_insert_eq.
  eexists. split; [done|]. split_and!.
  - simpl. unfold get_block. by rewrite Hb'.
  - intros l. eapply self_loop_reached; [exact Hl|simpl; unfold get_block; by rewrite Hb'|].
    intros s [->|Hs']; [done|]. apply list_elem_of_fmap in Hs' as (m & -> & Hm). simpl. unfold get_block.
    simpl. rewrite lookup_insert_ne; [done|]. intros <-.
    rewrite <- Permutation_middle in Hd. apply list.NoDup_cons in Hd as [Hni _].
    apply Hni, elem_of_app. by left.
  - intros fuel val v ret s Hf. by eapply self_loop_calls; [exact Hcall|exact Hb'|..|lia].
Qed.

Lemma double_register_loops_witness : exists st',
  notifier_chain_register (HeadOf 0) 20 demo_store = Done (0, st') /\
  read_slot st' (NextOf 20) = Done (Some 20) /\ forall l, ~ list_at st' (HeadOf 0) l.
Proof.
  destruct (double_register_loops demo_store 0 20 [10] [30]
    (fun _ _ _ _ (w : world unit) => (NOTIFY_OK, w))) as (st' & Hr & Hn & Hl & _).
  - apply demo_chain_ok.
  - constructor; [by vm_compute|constructor].
  - done.
  - by exists st'.
Defined.

(** An error code travels through a chain unchanged: for every errno a
    callback can report (0 down to -32766, which includes all of 1..4095 negated)
    [notifier_to_errno] recovers what [notifier_from_errno] encoded, and the
    encoding stops the chain exactly when there is an error. *)
Theorem notifier_errno_roundtrip err :
  - 0x7ffe <= err <= 0 ->
  notifier_to_errno (notifier_from_errno err) = err /\
  stops (notifier_from_errno err) = negb (err =? 0).
Proof.
  intros Herr. unfold notifier_from_errno, bool_of.
  destruct (Z.eqb_spec err 0) as [->|Hne]; cbn [negb]; [done|].
  unfold NOTIFY_OK, NOTIFY_STOP_MASK. rewrite s32_small by lia.
  set (x := 1 - err). assert (Hx : 0 <= x < 2 ^ 15) by lia.
  assert (Hland : Z.land 0x8000 x = 0) by (rewrite Z.land_comm; by apply (land_shiftl_low x 1 15)).
  assert (Hclr : Z.land (Z.lor 0x8000 x) (Z.lnot 0x8000) = x).
  { rewrite <- Z.ldiff_land. apply Z.bits_inj'. intros i Hi. rewrite Z.ldiff_spec, Z.lor_spec.
    assert (Hb := f_equal (fun z => Z.testbit z i) Hland). simpl in Hb. rewrite Z.land_spec, Z.bits_0 in Hb.
    by destruct (Z.testbit 32768 i), (Z.testbit x i). }
  split.
  - unfold notifier_to_errno, NOTIFY_STOP_MASK, NOTIFY_OK. rewrite Hclr.
    destruct (Z.gtb_spec x 1); lia.
  - unfold stops, NOTIFY_STOP_MASK.
    rewrite Z.land_lor_distr_l, (Z.land_comm x), Hland. done.
Qed.

Lemma notifier_errno_roundtrip_witness :
  notifier_to_errno (notifier_from_errno (-22)) = -22 /\ stops (notifier_from_errno (-22)) = true.
Proof. apply (notifier_errno_roundtrip (-22)). lia. Defined.
