(* ===== verification/Timecounter.v ===== *)
(** * Nanosecond counters on wrapping cycle counters

    [src/new/kernel/time/timecounter.c] and
    [src/new/include/linux/timecounter.h]: the state of a counter, reading it,
    and converting cycle stamps; and the theorem that reading keeps the exact
    time, without drift, over any number of wraps of the cycle counter. *)

From S2P Require Import Prelude.

Section Timecounter.
(** The state of the hardware behind [cc->read]. *)
Context {hw : Type}.

Record cyclecounter := mk_cc { cc_read : hw -> Z; cc_mask : Z; cc_mult : Z; cc_shift : Z }.

(** [tc->cc] never changes once set; [tc_mask] is the mask of the fraction. *)
Record timecounter := mk_tc {
  tc_cc : cyclecounter;
  cycle_last : Z;
  nsec : Z;
  tc_mask : Z;
  frac : Z;
}.

Definition CYCLECOUNTER_MASK (bits : Z) : Z :=
  if bits <? 64 then u64 (Z.shiftl 1 bits) - 1 else u64 (-1).

Definition cyclecounter_cyc2ns (cc : cyclecounter) (cycles mask frac : Z) : Z * Z :=
  let ns := u64 (u64 (cycles * cc_mult cc) + frac) in
  (Z.shiftr ns (cc_shift cc), Z.land ns mask).

Definition timecounter_adjtime (tc : timecounter) (delta : Z) : timecounter :=
  mk_tc (tc_cc tc) (cycle_last tc) (u64 (nsec tc + delta)) (tc_mask tc) (frac tc).

Definition timecounter_init (cc : cyclecounter) (start_tstamp : Z) (h : hw) : timecounter :=
  mk_tc cc (cc_read cc h) start_tstamp (u64 (u64 (Z.shiftl 1 (cc_shift cc)) - 1)) 0.

Definition timecounter_read_delta (tc : timecounter) (h : hw) : Z * timecounter :=
  let cycle_now := cc_read (tc_cc tc) h in
  let cycle_delta := Z.land (u64 (cycle_now - cycle_last tc)) (cc_mask (tc_cc tc)) in
  let '(ns_offset, frac') := cyclecounter_cyc2ns (tc_cc tc) cycle_delta (tc_mask tc) (frac tc) in
  (ns_offset, mk_tc (tc_cc tc) cycle_now (nsec tc) (tc_mask tc) frac').

Definition timecounter_read (tc : timecounter) (h : hw) : Z * timecounter :=
  let '(ns, tc) := timecounter_read_delta tc h in
  let ns := u64 (ns + nsec tc) in
  (ns, mk_tc (tc_cc tc) (cycle_last tc) ns (tc_mask tc) (frac tc)).

(** The mask is an argument of the function that its body does not use. *)
Definition cc_cyc2ns_backwards (cc : cyclecounter) (cycles mask frac : Z) : Z :=
  Z.shiftr (u64 (u64 (cycles * cc_mult cc) - frac)) (cc_shift cc).

Definition timecounter_cyc2time (tc : timecounter) (cycle_tstamp : Z) : Z :=
  let delta := Z.land (u64 (cycle_tstamp - cycle_last tc)) (cc_mask (tc_cc tc)) in
  if delta >? cc_mask (tc_cc tc) / 2 then
    let delta := Z.land (u64 (cycle_last tc - cycle_tstamp)) (cc_mask (tc_cc tc)) in
    u64 (nsec tc - cc_cyc2ns_backwards (tc_cc tc) delta (tc_mask tc) (frac tc))
  else
    u64 (nsec tc + (cyclecounter_cyc2ns (tc_cc tc) delta (tc_mask tc) (frac tc)).1).

(** ** The exact clock *)
Section Exact.
Variables (cc : cyclecounter) (bits start : Z).
(** The cycles the hardware has really seen, of which the counter shows the low
    [bits] bits. *)
Variable count : hw -> Z.
Hypotheses (Hbits : 1 <= bits <= 64) (Hmask : cc_mask cc = CYCLECOUNTER_MASK bits)
  (Hshift : 0 <= cc_shift cc < 64) (Hmult : 0 <= cc_mult cc < 2 ^ 32)
  (Hread : forall h, cc_read cc h = count h mod 2 ^ bits).

(** Nanoseconds after [x] cycles, and the fraction left over. *)
Definition ns_after (x : Z) : Z := x * cc_mult cc / 2 ^ cc_shift cc.
Definition frac_after (x : Z) : Z := (x * cc_mult cc) mod 2 ^ cc_shift cc.

(** The counter stands at the true count [c], [x] cycles after its start. *)
Definition keeps (tc : timecounter) (c x : Z) : Prop :=
  tc_cc tc = cc /\ cycle_last tc = c mod 2 ^ bits /\ nsec tc = u64 (start + ns_after x) /\
  tc_mask tc = 2 ^ cc_shift cc - 1 /\ frac tc = frac_after x.

Lemma mask_ones : CYCLECOUNTER_MASK bits = Z.ones bits.
Proof using Hbits.
  unfold CYCLECOUNTER_MASK. rewrite Z.ones_equiv. destruct (Z.ltb_spec bits 64).
  - rewrite Z.shiftl_1_l, u64_small; [lia|]. split; [apply Z.pow_nonneg; lia|apply Z.pow_lt_mono_r; lia].
  - by replace bits with 64 by lia.
Qed.

(** The masked difference of two readings is the number of cycles between
    them, if that is less than one turn of the counter. *)
Lemma delta_exact a b : 0 <= b - a < 2 ^ bits ->
  Z.land (u64 (b mod 2 ^ bits - a mod 2 ^ bits)) (cc_mask cc) = b - a.
Proof using Hbits Hmask.
  intros Hd. rewrite Hmask, mask_ones, Z.land_ones by lia. unfold u64.
  assert (Hp : 0 < 2 ^ bits) by (apply Z.pow_pos_nonneg; lia).
  rewrite Z.mod_mod_divide by (exists (2 ^ (64 - bits)); rewrite <- Z.pow_add_r by lia; f_equal; lia).
  rewrite <- Zminus_mod. by apply Z.mod_small.
Qed.

Lemma fuse x d : 0 <= cc_shift cc ->
  ns_after (x + d) = ns_after x + (d * cc_mult cc + frac_after x) / 2 ^ cc_shift cc /\
  frac_after (x + d) = (d * cc_mult cc + frac_after x) mod 2 ^ cc_shift cc.
Proof using Hshift.
  intros Hs. unfold ns_after, frac_after. assert (Hp : 0 < 2 ^ cc_shift cc) by (apply Z.pow_pos_nonneg; lia).
  set (m := 2 ^ cc_shift cc) in *. set (X := x * cc_mult cc).
  replace ((x + d) * cc_mult cc) with (d * cc_mult cc + X mod m + X / m * m)
    by (pose proof (Z.div_mod X m); unfold X in *; lia).
  rewrite Z.div_add, Z.mod_add by lia. lia.
Qed.

Lemma cyc2ns_exact x d :
  0 <= d -> d * cc_mult cc + 2 ^ cc_shift cc <= 2 ^ 64 ->
  cyclecounter_cyc2ns cc d (2 ^ cc_shift cc - 1) (frac_after x) =
    (ns_after (x + d) - ns_after x, frac_after (x + d)).
Proof using Hshift Hmult.
  intros Hd Hov. destruct (fuse x d ltac:(lia)) as [Hns Hfr]. rewrite Hns, Hfr.
  assert (Hp : 0 < 2 ^ cc_shift cc) by (apply Z.pow_pos_nonneg; lia).
  assert (Hf : 0 <= frac_after x < 2 ^ cc_shift cc) by (apply Z.mod_pos_bound; lia).
  assert (Hm : 0 <= d * cc_mult cc) by (apply Z.mul_nonneg_nonneg; lia).
  unfold cyclecounter_cyc2ns. rewrite (u64_small (d * cc_mult cc)) by (unfold is_u64; lia).
  rewrite u64_small by (unfold is_u64; lia).
  replace (2 ^ cc_shift cc - 1) with (Z.ones (cc_shift cc)) by (rewrite Z.ones_equiv; lia).
  rewrite Z.land_ones, Z.shiftr_div_pow2 by lia. f_equal. lia.
Qed.

(** One reading [d] cycles later. *)
Lemma read_keeps tc h c x d :
  keeps tc c x -> count h = c + d -> 0 <= d < 2 ^ bits ->
  d * cc_mult cc + 2 ^ cc_shift cc <= 2 ^ 64 ->
  (timecounter_read tc h).1 = u64 (start + ns_after (x + d)) /\
  keeps (timecounter_read tc h).2 (c + d) (x + d).
Proof using All.
  intros (Hcc & Hlast & Hns & Htm & Hfr) Hc Hd Hov.
  unfold timecounter_read, timecounter_read_delta. rewrite Hcc, Hread, Hc, Hlast.
  rewrite delta_exact by lia. replace (c + d - c) with d by lia.
  rewrite Htm, Hfr, cyc2ns_exact by lia. cbn [nsec tc_cc cycle_last tc_mask frac fst snd].
  assert (Hu : u64 (ns_after (x + d) - ns_after x + nsec tc) = u64 (start + ns_after (x + d))).
  { rewrite Hns, u64_add_idemp_r. f_equal. lia. }
  rewrite Hu. by split_and!.
Qed.

(** Readings at successive hardware states. *)
Fixpoint read_all (tc : timecounter) (hs : list hw) : timecounter :=
  match hs with [] => tc | h :: hs => read_all (timecounter_read tc h).2 hs end.

(** Read often enough: less than one turn of the counter and no overflow of the
    product between two readings. *)
Fixpoint timely (c : Z) (hs : list hw) : Prop :=
  match hs with
  | [] => True
  | h :: hs => c <= count h < c + 2 ^ bits /\
               (count h - c) * cc_mult cc + 2 ^ cc_shift cc <= 2 ^ 64 /\ timely (count h) hs
  end.

Lemma read_all_keeps hs : forall tc c x,
  keeps tc c x -> timely c hs ->
  keeps (read_all tc hs) (List.last (count <$> hs) c) (x + (List.last (count <$> hs) c - c)).
Proof using All.
  induction hs as [|h hs IH]; intros tc c x Hk Ht.
  - simpl. by replace (x + (c - c)) with x by lia.
  - destruct Ht as (Hc & Hov & Ht). cbn [read_all].
    destruct (read_keeps tc h c x (count h - c) Hk) as [_ Hk']; [lia|lia|lia|].
    replace (c + (count h - c)) with (count h) in Hk' by lia.
    specialize (IH _ _ _ Hk' Ht). rewrite fmap_cons.
    rewrite Prelude.last_cons. by replace (x + (count h - c) + (List.last (count <$> hs) (count h) - count h))
      with (x + (List.last (count <$> hs) (count h) - c)) in IH by lia.
Qed.

Lemma init_keeps h : keeps (timecounter_init cc (u64 start) h) (count h) 0.
Proof using All.
  unfold keeps, timecounter_init, ns_after, frac_after. simpl.
  rewrite Zdiv_0_l, Zmod_0_l, Z.add_0_r. split_and!; [done|by rewrite Hread|done| |done].
  assert (Hp : 0 < 2 ^ cc_shift cc) by (apply Z.pow_pos_nonneg; lia).
  assert (2 ^ cc_shift cc < 2 ^ 64) by (apply Z.pow_lt_mono_r; lia).
  rewrite Z.shiftl_1_l, !u64_small; unfold is_u64; rewrite ?u64_small by (unfold is_u64; lia); lia.
Qed.

Lemma timely_app hs h : forall c, timely c (hs ++ [h]) ->
  timely c hs /\ timely (List.last (count <$> hs) c) [h].
Proof using Type.
  induction hs as [|a hs IH]; intros c Ht; [done|]. destruct Ht as (H1 & H2 & H3).
  destruct (IH _ H3) as [H4 H5]. rewrite fmap_cons, Prelude.last_cons. done.
Qed.

(** How much the conversion backwards is late: one nanosecond unless the cycles
    back end on a whole one. *)
Definition backward_slip (x d : Z) : Z :=
  if (d * cc_mult cc - frac_after x) mod 2 ^ cc_shift cc =? 0 then 0 else 1.

Lemma backward_slip_range x d : 0 <= backward_slip x d <= 1.
Proof using Type. unfold backward_slip. destruct (_ =? 0); lia. Qed.

Lemma cyc2ns_backwards_exact x d mask :
  0 <= d -> frac_after x <= d * cc_mult cc -> d * cc_mult cc + 2 ^ cc_shift cc <= 2 ^ 64 ->
  u64 (u64 (start + ns_after x) - cc_cyc2ns_backwards cc d mask (frac_after x)) =
    u64 (start + ns_after (x - d) + backward_slip x d).
Proof using Hshift Hmult.
  intros Hd Hf Hov. rewrite u64_sub_idemp_l. f_equal.
  assert (Hp : 0 < 2 ^ cc_shift cc) by (apply Z.pow_pos_nonneg; lia).
  pose proof (Z.mod_pos_bound (x * cc_mult cc) (2 ^ cc_shift cc) Hp) as Hfr. fold (frac_after x) in Hfr.
  unfold cc_cyc2ns_backwards. rewrite (u64_small (d * cc_mult cc)) by (unfold is_u64; lia).
  rewrite u64_small by (unfold is_u64; lia). rewrite Z.shiftr_div_pow2 by lia.
  unfold ns_after, backward_slip. set (m := 2 ^ cc_shift cc) in *.
  pose proof (Z.div_mod (x * cc_mult cc) m ltac:(lia)) as HX. fold (frac_after x) in HX.
  change ((x * cc_mult cc) mod m) with (frac_after x) in HX.
  set (A := x * cc_mult cc / m) in *. set (D := d * cc_mult cc - frac_after x) in *.
  pose proof (Z.div_mod D m ltac:(lia)) as HD. pose proof (Z.mod_pos_bound D m Hp) as HDm.
  replace ((x - d) * cc_mult cc) with (A * m - D) by (unfold D; lia).
  destruct (Z.eqb_spec (D mod m) 0) as [Hz|Hz].
  - replace (A * m - D) with ((A - D / m) * m) by lia. rewrite Z.div_mul by lia. lia.
  - replace (A * m - D) with ((m - D mod m) + (A - D / m - 1) * m) by lia.
    rewrite Z.div_add, (Z.div_small (m - D mod m)) by lia. lia.
Qed.
End Exact.

(** ** Theorems *)

(** What makes [count] the true cycle count of a counter of [bits] bits. *)
Definition counts (cc : cyclecounter) (bits : Z) (count : hw -> Z) : Prop :=
  1 <= bits <= 64 /\ cc_mask cc = CYCLECOUNTER_MASK bits /\ 0 <= cc_shift cc < 64 /\
  0 <= cc_mult cc < 2 ^ 32 /\ forall h, cc_read cc h = count h mod 2 ^ bits.

(** C30: a time counter keeps exact time however often the cycle counter wraps.
    After [timecounter_init] and any number of readings, each less than one turn
    of the counter after the one before and early enough that the product does
    not overflow 64 bits, a further reading answers the start stamp plus the
    cycles since the start times [mult] / 2^[shift], rounded down once: the
    fractions carried in [frac] add up without drift. *)
Theorem timecounter_read_exact cc bits count start h0 hs h :
  counts cc bits count -> timely cc bits count (count h0) (hs ++ [h]) ->
  (timecounter_read (read_all (timecounter_init cc (u64 start) h0) hs) h).1 =
    u64 (start + (count h - count h0) * cc_mult cc / 2 ^ cc_shift cc).
Proof.
  intros (Hb & Hm & Hs & Hmu & Hr) Ht.
  pose proof (init_keeps cc bits start count Hb Hm Hs Hmu Hr h0) as Hk.
  apply timely_app in Ht as [Ht Hlast].
  apply (read_all_keeps cc bits start count Hb Hm Hs Hmu Hr hs) in Hk; [|done].
  destruct Hlast as (Hc & Hov & _). set (c := List.last (count <$> hs) (count h0)) in *.
  destruct (read_keeps cc bits start count Hb Hm Hs Hmu Hr _ h _ _ (count h - c) Hk) as [-> _]; [lia..|].
  unfold ns_after. do 3 f_equal. lia.
Qed.

(** Converting a cycle stamp.  For a counter that has just been read at the
    true count [c], [timecounter_cyc2time] answers for a stamp up to half a turn
    ahead exactly what a reading at that moment would; for a stamp up to half a
    turn behind, if the cycles back outweigh the carried fraction, it answers
    the time that a reading at that moment gave or one nanosecond more, since
    the conversion backwards rounds towards the stored time. *)
Theorem timecounter_cyc2time_spec cc bits count start tc c x d :
  counts cc bits count -> keeps cc bits start tc c x -> 0 <= d ->
  d * cc_mult cc + 2 ^ cc_shift cc <= 2 ^ 64 ->
  (d < 2 ^ (bits - 1) ->
   timecounter_cyc2time tc ((c + d) mod 2 ^ bits) = u64 (start + (x + d) * cc_mult cc / 2 ^ cc_shift cc)) /\
  (0 < d <= 2 ^ (bits - 1) -> frac tc <= d * cc_mult cc ->
   exists e, 0 <= e <= 1 /\
     timecounter_cyc2time tc ((c - d) mod 2 ^ bits) =
       u64 (start + (x - d) * cc_mult cc / 2 ^ cc_shift cc + e)).
Proof.
  intros (Hb & Hm & Hs & Hmu & Hr) (Hcc & Hlast & Hns & Htm & Hfr) Hd Hov.
  assert (Hp : 2 ^ bits = 2 * 2 ^ (bits - 1)) by (rewrite <- Z.pow_succ_r by lia; f_equal; lia).
  assert (Hp1 : 0 < 2 ^ (bits - 1)) by (apply Z.pow_pos_nonneg; lia).
  assert (Hhalf : cc_mask cc / 2 = 2 ^ (bits - 1) - 1).
  { rewrite Hm, (mask_ones bits Hb), Z.ones_equiv, Hp.
    replace (Z.pred (2 * 2 ^ (bits - 1))) with (1 + (2 ^ (bits - 1) - 1) * 2) by lia.
    rewrite Z.div_add by lia. done. }
  unfold timecounter_cyc2time. rewrite Hcc, Hlast, Hhalf. split; [intros Hd2|intros Hd2 Hfd].
  - rewrite (delta_exact cc bits Hb Hm) by lia. replace (c + d - c) with d by lia.
    destruct (Z.gtb_spec d (2 ^ (bits - 1) - 1)); [lia|].
    rewrite Htm, Hfr, cyc2ns_exact by lia. cbn [fst]. rewrite Hns, u64_add_idemp_l.
    unfold ns_after. f_equal. lia.
  - assert (Hback : Z.land (u64 ((c - d) mod 2 ^ bits - c mod 2 ^ bits)) (cc_mask cc) = 2 ^ bits - d).
    { rewrite <- (Z.mod_add (c - d) 1 (2 ^ bits)) by lia. rewrite (delta_exact cc bits Hb Hm) by lia. lia. }
    rewrite Hback. destruct (Z.gtb_spec (2 ^ bits - d) (2 ^ (bits - 1) - 1)); [|lia].
    rewrite (delta_exact cc bits Hb Hm) by lia. replace (c - (c - d)) with d by lia.
    exists (backward_slip cc x d). split; [by apply backward_slip_range|].
    rewrite Hns, Hfr. rewrite Hfr in Hfd. by apply cyc2ns_backwards_exact.
Qed.
End Timecounter.

(** ** An 8-bit counter at 2.5 ns per cycle *)
Definition demo_cc : @cyclecounter Z := mk_cc (fun h => h mod 256) 255 10 2.

Lemma demo_counts : counts demo_cc 8 (fun h => h).
Proof. split_and!; done. Qed.

(** Readings at cycles 100, 300 and 550: the counter has wrapped twice. *)
Lemma timecounter_read_exact_witness :
  (timecounter_read (read_all (timecounter_init demo_cc (u64 1000) 7) [100; 300]) 550).1 = 2357.
Proof.
  rewrite (timecounter_read_exact demo_cc 8 (fun h => h) 1000 7 [100; 300] 550).
  - reflexivity.
  - exact demo_counts.
  - simpl. lia.
Defined.

Lemma timecounter_cyc2time_spec_witness :
  timecounter_cyc2time (timecounter_init demo_cc (u64 1000) 300) ((300 + 30) mod 2 ^ 8) = 1075 /\
  exists e, 0 <= e <= 1 /\
    timecounter_cyc2time (timecounter_init demo_cc (u64 1000) 300) ((300 - 3) mod 2 ^ 8) = u64 (992 + e).
Proof.
  assert (Hk : keeps demo_cc 8 1000 (timecounter_init demo_cc (u64 1000) 300) 300 0) by (by split_and!).
  destruct (timecounter_cyc2time_spec demo_cc 8 (fun h => h) 1000 _ 300 0 30 demo_counts Hk) as [Hf _];
    [lia|simpl; lia|].
  destruct (timecounter_cyc2time_spec demo_cc 8 (fun h => h) 1000 _ 300 0 3 demo_counts Hk) as [_ Hb];
    [lia|simpl; lia|].
  split; [apply Hf; simpl; lia|]. apply Hb; [simpl; lia|]. vm_compute. discriminate.
Defined.

(** The condition on the fraction is needed.  A counter at 0.04 ns per cycle
    that carries 200/256 of a nanosecond converts the stamp of one cycle ago to
    a time 2^56 ns in the past: the difference [10 - 200] wraps around. *)
Example cyc2time_underflow :
  let cc := @mk_cc Z (fun h => h) (2 ^ 64 - 1) 10 8 in
  timecounter_cyc2time (mk_tc cc 1000 (2 ^ 60) 255 200) 999 = 2 ^ 60 - (2 ^ 56 - 1).
Proof. reflexivity. Qed.
