(* ===== verification/Hexdump.v ===== *)
(** * Hexadecimal conversion and dumps: data and operations

    [src/new/lib/hexdump.c] with the digit macros of
    [src/new/include/linux/kernel.h].  A character or byte is a [Z] in 0..255.
    The memory a pointer leads to is the list of its bytes; a read or write
    behind its end is [Bug], so that a theorem that an operation returns also
    says that it stays inside its buffers. *)

From S2P Require Import Prelude.

(** Character classes, [is_power_of_2] and unaligned reads come from headers
    that are not part of the tree. *)
Class Ctype := {
  tolower : Z -> Z;
  isascii : Z -> bool;
  isprint : Z -> bool;
  is_power_of_2 : Z -> bool;
  (** the value of the bytes at the pointer, in the byte order of the machine *)
  get_unaligned : list Z -> Z;
}.

Class CtypeSpec `{Ctype} : Prop := {
  (** upper-case letters map to lower case, other ASCII characters to
      themselves, the rest of the characters to none of ASCII *)
  tolower_upper c : 65 <= c <= 90 -> tolower c = c + 32;
  tolower_other c : 0 <= c < 65 \/ 90 < c < 128 -> tolower c = c;
  tolower_high c : 128 <= c < 256 -> 128 <= tolower c < 256;
  (** NUL is a control character *)
  isprint_nul : isprint 0 = false;
  is_power_of_2_spec n : 0 < n < 2 ^ 64 -> is_power_of_2 n = true <-> exists k, 0 <= k /\ n = 2 ^ k;
  is_power_of_2_zero : is_power_of_2 0 = false;
  get_unaligned_range bs : 0 <= get_unaligned bs < 2 ^ (8 * Z.of_nat (length bs));
}.

Definition EINVAL : Z := 22.
Definition SPACE : Z := 32.
Definition DOT : Z := 46.

(** "0123456789abcdef" *)
Definition hex_asc : list Z := [48; 49; 50; 51; 52; 53; 54; 55; 56; 57; 97; 98; 99; 100; 101; 102].
(** "0123456789ABCDEF" *)
Definition hex_asc_upper : list Z := [48; 49; 50; 51; 52; 53; 54; 55; 56; 57; 65; 66; 67; 68; 69; 70].

Definition hex_asc_lo (x : Z) : Z := nth (Z.to_nat (Z.land x 0x0f)) hex_asc 0.
Definition hex_asc_hi (x : Z) : Z := nth (Z.to_nat (Z.shiftr (Z.land x 0xf0) 4)) hex_asc 0.
Definition hex_asc_upper_lo (x : Z) : Z := nth (Z.to_nat (Z.land x 0x0f)) hex_asc_upper 0.
Definition hex_asc_upper_hi (x : Z) : Z := nth (Z.to_nat (Z.shiftr (Z.land x 0xf0) 4)) hex_asc_upper 0.

(** ** Memory *)
Definition peek (mem : list Z) (i : nat) : outcome Z :=
  match mem !! i with Some c => Done c | None => Bug end.
Definition peek_range (mem : list Z) (i n : nat) : outcome (list Z) :=
  if (i + n <=? length mem)%nat then Done (take n (drop i mem)) else Bug.
Definition poke (mem : list Z) (i : nat) (c : Z) : outcome (list Z) :=
  match mem !! i with Some _ => Done (<[i := c]> mem) | None => Bug end.

(** ** Packing and conversion *)

(** Both return the memory and the position behind what they wrote. *)
Definition hex_byte_pack (mem : list Z) (buf : nat) (byte : Z) : outcome (list Z * nat) :=
  mem ← poke mem buf (hex_asc_hi byte);
  mem ← poke mem (S buf) (hex_asc_lo byte);
  Done (mem, S (S buf)).
Definition hex_byte_pack_upper (mem : list Z) (buf : nat) (byte : Z) : outcome (list Z * nat) :=
  mem ← poke mem buf (hex_asc_upper_hi byte);
  mem ← poke mem (S buf) (hex_asc_upper_lo byte);
  Done (mem, S (S buf)).

Fixpoint bin2hex (mem : list Z) (dst : nat) (src : list Z) (i count : nat) : outcome (list Z * nat) :=
  match count with
  | O => Done (mem, dst)
  | S count =>
      b ← peek src i;
      r ← hex_byte_pack mem dst b;
      bin2hex r.1 r.2 src (S i) count
  end.

Section Ctype.
Context `{Ctype}.

Definition hex_to_bin (ch : Z) : Z :=
  if (ch >=? 48) && (ch <=? 57) then ch - 48
  else
    let ch := tolower ch in
    if (ch >=? 97) && (ch <=? 102) then ch - 97 + 10 else -1.

Fixpoint hex2bin (mem : list Z) (dst : nat) (src : list Z) (i count : nat) : outcome (Z * list Z) :=
  match count with
  | O => Done (0, mem)
  | S count =>
      c1 ← peek src i;
      c2 ← peek src (S i);
      let hi := hex_to_bin c1 in
      let lo := hex_to_bin c2 in
      if (hi <? 0) || (lo <? 0) then Done (- EINVAL, mem)
      else
        mem ← poke mem dst (Z.lor (Z.shiftl hi 4) lo);
        hex2bin mem (S dst) src (S (S i)) count
  end.

(** ** [snprintf] with a format of a string and a hexadecimal number of fixed
    width *)

(** ["%W.Wx"]: the [w] low digits of a value, which has no more. *)
Fixpoint hex_digits (w : nat) (v : Z) : list Z :=
  match w with
  | O => []
  | S w => hex_digits w (Z.shiftr v 4) ++ [hex_asc_lo v]
  end.

(** Writes at most [size - 1] characters of the text and a NUL, and answers the
    length of the whole text; nothing is written when [size] is 0. *)
Fixpoint poke_all (mem : list Z) (i : nat) (text : list Z) : outcome (list Z) :=
  match text with
  | [] => Done mem
  | c :: text => mem ← poke mem i c; poke_all mem (S i) text
  end.
Definition snprintf (mem : list Z) (i size : nat) (text : list Z) : outcome (nat * list Z) :=
  match size with
  | O => Done (length text, mem)
  | S size => mem ← poke_all mem i (take size text ++ [0]); Done (length text, mem)
  end.

(** ** One line of a dump *)

(** Why the body of [hex_dump_to_buffer] left the normal flow: at [nil] with the
    line done, at [overflow1], or at [overflow2], each with the memory and [lx]. *)
Inductive dump_exit := Go (mem : list Z) (lx : nat) | Overflow1 (mem : list Z) | Overflow2 (mem : list Z) (lx : nat).

(** The loops over groups of [g] bytes, [n] groups from [j] on. *)
Fixpoint dump_groups (n g j : nat) (buf mem : list Z) (linebuflen lx : nat) : outcome dump_exit :=
  match n with
  | O => Done (Go mem lx)
  | S n =>
      bs ← peek_range buf (g * j) g;
      let text := (if (j =? 0)%nat then [] else [SPACE]) ++ hex_digits (2 * g) (get_unaligned bs) in
      r ← snprintf mem lx (linebuflen - lx) text;
      let '(ret, mem) := r in
      if (linebuflen - lx <=? ret)%nat then Done (Overflow1 mem)
      else dump_groups n g (S j) buf mem linebuflen (lx + ret)
  end.

(** [if (linebuflen < lx + 2) goto overflow2;] *)
Definition room (linebuflen : nat) (mem : list Z) (lx : nat) (k : outcome dump_exit) : outcome dump_exit :=
  if (linebuflen <? lx + 2)%nat then Done (Overflow2 mem lx) else k.
(** The same and [linebuf[lx++] = c;] *)
Definition put (linebuflen : nat) (c : Z) (mem : list Z) (lx : nat)
    (k : list Z -> nat -> outcome dump_exit) : outcome dump_exit :=
  room linebuflen mem lx (mem ← poke mem lx c; k mem (S lx)).

Fixpoint dump_bytes (n j : nat) (buf mem : list Z) (linebuflen lx : nat) : outcome dump_exit :=
  match n with
  | O => Done (Go mem (if (j =? 0)%nat then lx else lx - 1))
  | S n =>
      room linebuflen mem lx (
      ch ← peek buf j;
      mem ← poke mem lx (hex_asc_hi ch);
      put linebuflen (hex_asc_lo ch) mem (S lx) (fun mem lx =>
      put linebuflen SPACE mem lx (fun mem lx =>
      dump_bytes n (S j) buf mem linebuflen lx)))
  end.

(** [while (lx < ascii_column)], with [n] columns left. *)
Fixpoint dump_pad (n : nat) (mem : list Z) (linebuflen lx : nat)
    (k : list Z -> nat -> outcome dump_exit) : outcome dump_exit :=
  match n with
  | O => k mem lx
  | S n => put linebuflen SPACE mem lx (fun mem lx => dump_pad n mem linebuflen lx k)
  end.

Fixpoint dump_ascii (n j : nat) (buf mem : list Z) (linebuflen lx : nat) : outcome dump_exit :=
  match n with
  | O => Done (Go mem lx)
  | S n =>
      room linebuflen mem lx (
      ch ← peek buf j;
      mem ← poke mem lx (if isascii ch && isprint ch then ch else DOT);
      dump_ascii n (S j) buf mem linebuflen (S lx))
  end.

Definition dump_rowsize (rowsize : Z) : Z :=
  if negb (rowsize =? 16) && negb (rowsize =? 32) then 16 else rowsize.
Definition dump_len (len rowsize : Z) : Z := if len >? rowsize then rowsize else len.
Definition dump_groupsize (len groupsize : Z) : Z :=
  let groupsize := if negb (is_power_of_2 (u64 groupsize)) || (groupsize >? 8) then 1 else groupsize in
  if negb (len mod groupsize =? 0) then 1 else groupsize.

(** The result and the memory of [linebuf]. *)
Definition hex_dump_to_buffer (buf : list Z) (len rowsize groupsize : Z)
    (linebuf : list Z) (linebuflen : nat) (ascii : bool) : outcome (Z * list Z) :=
  let rowsize := dump_rowsize rowsize in
  let len := dump_len len rowsize in
  let groupsize := dump_groupsize len groupsize in
  let ngroups := len / groupsize in
  let ascii_column := rowsize * 2 + rowsize / groupsize + 1 in
  let overflow1 mem := Done ((if ascii then ascii_column + len else (groupsize * 2 + 1) * ngroups - 1), mem) in
  let overflow2 mem lx := mem ← poke mem lx 0; overflow1 mem in
  let nil mem lx := mem ← poke mem lx 0; Done (Z.of_nat lx, mem) in
  if (linebuflen =? 0)%nat then overflow1 linebuf
  else if len =? 0 then nil linebuf 0%nat
  else
    e ← (if (groupsize =? 8) || (groupsize =? 4) || (groupsize =? 2)
         then dump_groups (Z.to_nat ngroups) (Z.to_nat groupsize) 0 buf linebuf linebuflen 0
         else dump_bytes (Z.to_nat len) 0 buf linebuf linebuflen 0);
    e ← match e with
        | Go mem lx =>
            if negb ascii then Done e
            else dump_pad (Z.to_nat ascii_column - lx) mem linebuflen lx (fun mem lx =>
                 dump_ascii (Z.to_nat len) 0 buf mem linebuflen lx)
        | _ => Done e
        end;
    match e with
    | Go mem lx => nil mem lx
    | Overflow1 mem => overflow1 mem
    | Overflow2 mem lx => overflow2 mem lx
    end.

(** ** Whole dumps *)

Inductive prefix := DUMP_PREFIX_NONE | DUMP_PREFIX_ADDRESS | DUMP_PREFIX_OFFSET.

(** A line given to [printk]: what it starts with and the string in [linebuf]. *)
Inductive printed :=
| PrintAddress (level prefix_str : list Z) (offset : Z) (line : list Z)
| PrintOffset (level prefix_str : list Z) (offset : Z) (line : list Z)
| PrintPlain (level prefix_str : list Z) (line : list Z).

(** [%s]: the characters up to the first NUL. *)
Fixpoint c_string (mem : list Z) : list Z :=
  match mem with
  | [] => []
  | c :: mem => if c =? 0 then [] else c :: c_string mem
  end.

Definition linebuf_size : nat := 32 * 3 + 2 + 32 + 1.

(** [i], [linelen] and [remaining] are [int]s; the comparison with [len] takes
    [i] to [size_t].  [linebuf] is not initialised; every turn reuses it. *)
Fixpoint print_loop (fuel : nat) (level prefix_str : list Z) (prefix_type : prefix)
    (rowsize groupsize : Z) (buf : list Z) (len : Z) (ascii : bool)
    (i remaining : Z) (linebuf : list Z) : outcome (list printed) :=
  match fuel with
  | O => NoFuel
  | S fuel =>
      if u64 i <? len then
        let linelen := Z.min remaining rowsize in
        r ← hex_dump_to_buffer (drop (Z.to_nat i) buf) (u64 linelen) rowsize groupsize linebuf linebuf_size ascii;
        let linebuf := r.2 in
        let line := match prefix_type with
                    | DUMP_PREFIX_ADDRESS => PrintAddress level prefix_str i (c_string linebuf)
                    | DUMP_PREFIX_OFFSET => PrintOffset level prefix_str i (c_string linebuf)
                    | DUMP_PREFIX_NONE => PrintPlain level prefix_str (c_string linebuf)
                    end in
        rest ← print_loop fuel level prefix_str prefix_type rowsize groupsize buf len ascii
                 (s32 (i + rowsize)) (s32 (remaining - rowsize)) linebuf;
        Done (line :: rest)
      else Done []
  end.
Definition print_hex_dump (level prefix_str : list Z) (prefix_type : prefix) (rowsize groupsize : Z)
    (buf : list Z) (len : Z) (ascii : bool) (linebuf : list Z) : outcome (list printed) :=
  let rowsize := dump_rowsize rowsize in
  print_loop (S (Z.to_nat len)) level prefix_str prefix_type rowsize groupsize buf len ascii 0 (s32 len) linebuf.

Definition KERN_DEBUG : list Z := [1; 55].
Definition print_hex_dump_bytes (prefix_str : list Z) (prefix_type : prefix) (buf : list Z) (len : Z)
    (linebuf : list Z) : outcome (list printed) :=
  print_hex_dump KERN_DEBUG prefix_str prefix_type 16 1 buf len true linebuf.

End Ctype.
