(* ===== verification/HexdumpProps.v ===== *)
(** * Hexadecimal conversion and dumps: theorems

    Conversion to text and back, and what [hex_dump_to_buffer] leaves in its
    buffer: a prefix of the line it describes, always terminated and never past
    the given length. *)

From S2P Require Import Prelude Hexdump.

(** ** Writing into a buffer

    [at_end mem0 T mem]: the buffer [mem0] with the text [T] written to its
    front; the byte behind the text may have been written, too. *)
Definition at_end (mem0 T mem : list Z) : Prop :=
  exists x, mem = T ++ x :: drop (S (length T)) mem0.

Lemma at_end_start mem0 : (0 < length mem0)%nat -> at_end mem0 [] mem0.
Proof. destruct mem0 as [|x mem0]; simpl; [lia|]. by exists x. Qed.

Lemma poke_end mem0 T mem c :
  at_end mem0 T mem -> poke mem (length T) c = Done (T ++ c :: drop (S (length T)) mem0).
Proof.
  intros [x ->]. unfold poke. rewrite (lookup_middle T) by done. by rewrite insert_split.
Qed.

Lemma at_end_snoc mem0 T c :
  (S (length T) < length mem0)%nat -> at_end mem0 (T ++ [c]) (T ++ c :: drop (S (length T)) mem0).
Proof.
  intros Hlen. destruct (lookup_lt_is_Some_2 mem0 (S (length T)) Hlen) as [x Hx].
  exists x. rewrite length_app, Nat.add_1_r, <- app_assoc. cbn [app]. by rewrite <- (drop_S mem0 x).
Qed.

Lemma poke_all_end mem0 t z : forall T mem,
  at_end mem0 T mem -> (length T + length t < length mem0)%nat ->
  poke_all mem (length T) (t ++ [z]) = Done ((T ++ t) ++ z :: drop (S (length (T ++ t))) mem0).
Proof.
  induction t as [|c t IH]; intros T mem Hat Hlen; cbn [poke_all app].
  - rewrite (poke_end mem0) by done. by rewrite app_nil_r.
  - rewrite (poke_end mem0) by done. cbn [mbind outcome_bind]. simpl in Hlen.
    assert (Hl : length (T ++ [c]) = S (length T)) by (rewrite length_app; simpl; lia).
    specialize (IH (T ++ [c]) _ (at_end_snoc mem0 T c ltac:(lia))). rewrite Hl, <- (app_assoc T) in IH.
    apply IH. lia.
Qed.

Lemma length_hex_digits w : forall v, length (hex_digits w v) = w.
Proof.
  induction w as [|w IH]; intros v; [done|]. cbn [hex_digits]. rewrite length_app, IH. simpl. lia.
Qed.

Section Line.
Context `{CtypeSpec}.
Variables (mem0 : list Z) (n : nat).
Hypotheses (Hn : (0 < n <= length mem0)%nat).

(** How far a line [F] has been written when the code leaves a loop. *)
Definition wrote (F : list Z) (e : dump_exit) : Prop :=
  match e with
  | Go mem lx => at_end mem0 F mem /\ lx = length F /\ (length F < n)%nat
  | Overflow1 mem => mem = take (n - 1) F ++ 0 :: drop n mem0 /\ (n - 1 <= length F)%nat
  | Overflow2 mem lx => at_end mem0 (take (n - 1) F) mem /\ lx = (n - 1)%nat /\ (n - 1 <= length F)%nat
  end.

(** What was cut off earlier is cut off of the longer line as well. *)
Lemma wrote_longer F1 F2 e :
  (forall mem lx, e <> Go mem lx) -> wrote F1 e -> wrote (F1 ++ F2) e.
Proof using Hn.
  intros Hne. destruct e as [mem lx|mem|mem lx]; [by destruct (Hne mem lx)| |]; simpl;
    rewrite length_app; intros Hw; rewrite take_app_le by lia; intuition lia.
Qed.

(** A checked character. *)
Lemma put_ok T c F mem k :
  at_end mem0 T mem -> (length T < n)%nat -> T `prefix_of` F ->
  (forall mem', (length (T ++ [c]) < n)%nat -> at_end mem0 (T ++ [c]) mem' ->
     mem' = (T ++ [c]) ++ drop (length (T ++ [c])) mem0 ->
     exists e, k mem' (length (T ++ [c])) = Done e /\ wrote F e) ->
  exists e, put n c mem (length T) k = Done e /\ wrote F e.
Proof using Hn.
  intros Hat HT [F' ->] Hk. unfold put, room. destruct (Nat.ltb_spec n (length T + 2)).
  - eexists. split; [done|]. simpl. assert (n - 1 = length T)%nat as -> by lia.
    rewrite take_app_length, length_app. split_and!; [done|done|lia].
  - rewrite (poke_end mem0) by done. cbn [mbind outcome_bind].
    replace (length (T ++ [c])) with (S (length T)) in Hk by (rewrite length_app; simpl; lia).
    apply Hk; [lia|apply at_end_snoc; lia|]. by rewrite <- app_assoc.
Qed.

(** The printed form of a byte in the ASCII column. *)
Definition ascii_char (ch : Z) : Z := if isascii ch && isprint ch then ch else DOT.

Lemma dump_ascii_ok buf F m : forall j T mem,
  (j + m <= length buf)%nat -> at_end mem0 T mem -> (length T < n)%nat ->
  F = T ++ (ascii_char <$> take m (drop j buf)) ->
  exists e, dump_ascii m j buf mem n (length T) = Done e /\ wrote F e.
Proof using Hn.
  induction m as [|m IH]; intros j T mem Hj Hat HT HF; cbn [dump_ascii].
  { rewrite app_nil_r in HF. subst F. by eexists. }
  destruct (lookup_lt_is_Some_2 buf j ltac:(lia)) as [ch Hch].
  unfold peek. rewrite Hch. cbn [mbind outcome_bind].
  rewrite (drop_S _ _ _ Hch) in HF. cbn [take] in HF. rewrite fmap_cons in HF.
  apply (put_ok T _ _ _ (fun mem lx => dump_ascii m (S j) buf mem n lx)); [done|done|eexists; exact HF|]. intros mem' HT' Hat' _.
  apply (IH (S j)); [lia|done|done|]. by rewrite <- app_assoc.
Qed.

Lemma dump_pad_ok F k m : forall T mem,
  at_end mem0 T mem -> (length T < n)%nat -> (T ++ replicate m SPACE) `prefix_of` F ->
  (forall mem', (length (T ++ replicate m SPACE) < n)%nat -> at_end mem0 (T ++ replicate m SPACE) mem' ->
     exists e, k mem' (length (T ++ replicate m SPACE)) = Done e /\ wrote F e) ->
  exists e, dump_pad m mem n (length T) k = Done e /\ wrote F e.
Proof using Hn.
  induction m as [|m IH]; intros T mem Hat HT HF Hk; cbn [dump_pad].
  { cbn [replicate] in Hk. rewrite app_nil_r in Hk. by apply Hk. }
  cbn [replicate] in HF, Hk. rewrite cons_middle in HF, Hk. rewrite app_assoc in HF, Hk.
  apply (put_ok T); [done|done|etrans; [|exact HF]; rewrite <- app_assoc; by apply prefix_app_r|].
  intros mem' HT' Hat' _. by apply IH.
Qed.

(** Groups with a space between them. *)
Definition sep {A} (l : list A) : list Z := match l with [] => [] | _ => [SPACE] end.
Fixpoint join (l : list (list Z)) : list Z :=
  match l with [] => [] | x :: l => x ++ sep l ++ join l end.

Lemma join_snoc l x : join (l ++ [x]) = join l ++ sep l ++ x.
Proof using Type.
  induction l as [|y l IH]; [by simpl; rewrite app_nil_r|]. cbn [app join]. rewrite IH.
  destruct l; simpl; rewrite ?app_nil_r; [done|]. repeat (rewrite <- app_assoc; simpl). done.
Qed.

Lemma join_prefix l1 l2 : join l1 `prefix_of` join (l1 ++ l2).
Proof using Type.
  induction l2 as [|x l2 IH] using rev_ind; [by rewrite app_nil_r|].
  rewrite app_assoc, join_snoc. etrans; [exact IH|]. by apply prefix_app_r.
Qed.

(** The groups of [g] bytes of a line, printed. *)
Definition group (g : nat) (buf : list Z) (j : nat) : list Z :=
  if (g =? 1)%nat then [hex_asc_hi (nth j buf 0); hex_asc_lo (nth j buf 0)]
  else hex_digits (2 * g) (get_unaligned (take g (drop (g * j) buf))).
Definition groups (g m : nat) (buf : list Z) : list (list Z) := group g buf <$> seq 0 m.

Lemma groups_S g m buf : groups g (S m) buf = groups g m buf ++ [group g buf m].
Proof using Type. unfold groups. by rewrite seq_S, fmap_app. Qed.

Lemma groups_prefix g a m buf : join (groups g a buf) `prefix_of` join (groups g (a + m) buf).
Proof using Type. unfold groups. rewrite seq_app, fmap_app. apply join_prefix. Qed.

Lemma sep_groups g m buf : sep (groups g m buf) = if (m =? 0)%nat then [] else [SPACE].
Proof using Type. by destruct m. Qed.

Lemma dump_bytes_ok buf m : forall j T mem,
  (j + m <= length buf)%nat -> (0 < j + m)%nat ->
  T = join (groups 1 j buf) ++ sep (groups 1 j buf) -> (length T < n)%nat ->
  at_end mem0 T mem -> mem = T ++ drop (length T) mem0 ->
  exists e, dump_bytes m j buf mem n (length T) = Done e /\ wrote (join (groups 1 (j + m) buf)) e.
Proof using Hn.
  induction m as [|m IH]; intros j T mem Hj Hpos HT HTn Hat Hmem; cbn [dump_bytes].
  - rewrite Nat.add_0_r. rewrite sep_groups in HT. destruct (Nat.eqb_spec j 0); [lia|].
    eexists. split; [done|]. subst T. rewrite length_app in *. cbn [length] in *. simpl.
    split_and!; [|lia|lia]. exists SPACE. rewrite Hmem, <- app_assoc. cbn [app].
    by rewrite Nat.add_1_r.
  - destruct (lookup_lt_is_Some_2 buf j ltac:(lia)) as [ch Hch].
    unfold peek. rewrite Hch. cbn [mbind outcome_bind].
    assert (Hgrp : group 1 buf j = [hex_asc_hi ch; hex_asc_lo ch]).
    { unfold group. cbn [Nat.eqb]. by rewrite (nth_lookup_Some _ _ _ _ Hch). }
    assert (Hnext : join (groups 1 (S j) buf) = (T ++ [hex_asc_hi ch]) ++ [hex_asc_lo ch]).
    { rewrite groups_S, join_snoc, Hgrp, HT, <- !app_assoc. done. }
    replace (j + S m)%nat with (S j + m)%nat in * by lia.
    pose proof (groups_prefix 1 (S j) m buf) as Hpre. rewrite Hnext in Hpre.
    apply (put_ok T _ _ _ (fun mem lx => put n (hex_asc_lo ch) mem lx (fun mem lx => put n SPACE mem lx
             (fun mem lx => dump_bytes m (S j) buf mem n lx))));
      [done|done|etrans; [|exact Hpre]; rewrite <- app_assoc; by apply prefix_app_r|].
    intros mem1 HT1 Hat1 _.
    apply put_ok; [done|done|etrans; [|exact Hpre]; by apply prefix_app_r|].
    intros mem2 HT2 Hat2 _. rewrite <- Hnext in *.
    apply put_ok; [done|done|by apply groups_prefix|].
    intros mem3 HT3 Hat3 Hmem3. apply (IH (S j)); [lia|lia| |done|done|done].
    by rewrite sep_groups.
Qed.

(** One [snprintf] into what is left of the buffer. *)
Lemma snprintf_ok T t F mem k :
  at_end mem0 T mem -> (length T < n)%nat -> (T ++ t) `prefix_of` F ->
  (forall mem', (length (T ++ t) < n)%nat -> at_end mem0 (T ++ t) mem' ->
     exists e, k mem' (length T + length t)%nat = Done e /\ wrote F e) ->
  exists e, (r ← snprintf mem (length T) (n - length T) t;
             let '(ret, mem) := r in
             if (n - length T <=? ret)%nat then Done (Overflow1 mem)
             else k mem (length T + ret)%nat) = Done e /\ wrote F e.
Proof using Hn.
  intros Hat HT [F' ->] Hk. unfold snprintf.
  destruct (n - length T)%nat as [|size] eqn:Hsize; [lia|].
  destruct (Nat.leb_spec (S size) (length t)) as [Hle|Hgt].
  - rewrite (poke_all_end mem0) by (done || rewrite length_take; lia). cbn [mbind outcome_bind].
    destruct (Nat.leb_spec (S size) (length t)); [|lia].
    eexists. split; [done|]. simpl. rewrite !length_app. split; [|lia].
    assert (n - 1 = length T + size)%nat as -> by lia.
    rewrite <- (app_assoc T t F'), take_app_add, take_app_le by lia.
    rewrite length_take. do 3 f_equal. lia.
  - rewrite take_ge by lia. rewrite (poke_all_end mem0) by (done || lia). cbn [mbind outcome_bind].
    destruct (Nat.leb_spec (S size) (length t)); [lia|].
    apply Hk; [rewrite length_app; lia|]. by exists 0.
Qed.

Lemma dump_groups_ok g buf m : g <> 1%nat -> forall j T mem,
  (g * (j + m) <= length buf)%nat ->
  T = join (groups g j buf) -> (length T < n)%nat -> at_end mem0 T mem ->
  exists e, dump_groups m g j buf mem n (length T) = Done e /\ wrote (join (groups g (j + m) buf)) e.
Proof using Hn.
  intros Hg. induction m as [|m IH]; intros j T mem Hlen HT HTn Hat; cbn [dump_groups].
  - rewrite Nat.add_0_r, <- HT. eexists. split; [done|]. by split_and!.
  - replace (j + S m)%nat with (S j + m)%nat in * by lia.
    unfold peek_range. destruct (Nat.leb_spec (g * j + g) (length buf)) as [_|]; [|nia].
    cbn [mbind outcome_bind].
    set (t := (if (j =? 0)%nat then [] else [SPACE]) ++ _).
    assert (Hnext : join (groups g (S j) buf) = T ++ t).
    { rewrite groups_S, join_snoc, sep_groups, HT. unfold t, group. by destruct (Nat.eqb_spec g 1). }
    apply (snprintf_ok T t _ _ (fun mem' lx => dump_groups m g (S j) buf mem' n lx)); [done|done|rewrite <- Hnext; apply groups_prefix|].
    intros mem' HT' Hat'. rewrite <- length_app. apply (IH (S j)); [done|by rewrite Hnext|done|done].
Qed.
End Line.

(** ** The parameters of a line *)
Section Params.
Context `{CtypeSpec}.

Lemma dump_rowsize_cases rowsize : dump_rowsize rowsize = 16 \/ dump_rowsize rowsize = 32.
Proof using Type.
  unfold dump_rowsize. destruct (Z.eqb_spec rowsize 16), (Z.eqb_spec rowsize 32); simpl; lia.
Qed.

Lemma is_power_of_2_int g : - 2 ^ 31 <= g <= 8 -> is_power_of_2 (u64 g) = true ->
  g = 1 \/ g = 2 \/ g = 4 \/ g = 8.
Proof using All.
  intros Hg Hp. destruct (Z.eq_dec g 0) as [->|Hne].
  { change (u64 0) with 0 in Hp. by rewrite is_power_of_2_zero in Hp. }
  assert (Hu : 0 < u64 g < 2 ^ 64).
  { pose proof (u64_range g) as Hr. unfold is_u64 in Hr.
    destruct (Z.eq_dec (u64 g) 0) as [Hz|]; [|lia].
    unfold u64 in Hz. apply Z.mod_divide in Hz; [|lia]. destruct Hz as [q Hq]. lia. }
  apply is_power_of_2_spec in Hp; [|done]. destruct Hp as (k & Hk & Hpow).
  destruct (Z_lt_dec g 0) as [Hneg|Hpos].
  - assert (Hg64 : u64 g = g + 2 ^ 64).
    { unfold u64. rewrite <- (Z.mod_add g 1) by lia. rewrite Z.mod_small; lia. }
    assert (k < 64) by (apply (Z.pow_lt_mono_r_iff 2); lia).
    assert (2 ^ k <= 2 ^ 63) by (apply Z.pow_le_mono_r; lia). lia.
  - rewrite u64_small in Hpow by (unfold is_u64; lia).
    assert (k < 4) by (apply (Z.pow_lt_mono_r_iff 2); lia).
    assert (Hc : k = 0 \/ k = 1 \/ k = 2 \/ k = 3) by lia.
    destruct Hc as [-> | [-> | [-> | ->]]]; simpl in Hpow; lia.
Qed.

Lemma dump_groupsize_cases len g : - 2 ^ 31 <= g < 2 ^ 31 ->
  let g' := dump_groupsize len g in
  (g' = 1 \/ g' = 2 \/ g' = 4 \/ g' = 8) /\ len mod g' = 0.
Proof using All.
  intros Hg. unfold dump_groupsize.
  set (g1 := if negb _ || _ then 1 else g).
  assert (Hg1 : g1 = 1 \/ g1 = 2 \/ g1 = 4 \/ g1 = 8).
  { unfold g1. destruct (is_power_of_2 (u64 g)) eqn:Hp; simpl; [|lia].
    destruct (Z.gtb_spec g 8); [lia|]. apply is_power_of_2_int; [lia|done]. }
  destruct (Z.eqb_spec (len mod g1) 0); simpl; [done|]. split; [lia|]. apply Z.mod_1_r.
Qed.

Lemma length_group g buf j : length (group g buf j) = (2 * g)%nat.
Proof using Type.
  unfold group. destruct (Nat.eqb_spec g 1) as [->|]; [done|]. apply length_hex_digits.
Qed.

Lemma length_join_groups g m buf :
  length (join (groups g (S m) buf)) = (S m * (2 * g + 1) - 1)%nat.
Proof using Type.
  induction m as [|m IH].
  - cbn. rewrite app_nil_r, length_group. lia.
  - rewrite groups_S, join_snoc, sep_groups, !length_app, IH, length_group. simpl. lia.
Qed.

(** The line [hex_dump_to_buffer] describes, were there room for it: the groups
    in hexadecimal and, if wanted, the characters from the ASCII column on. *)
Definition dump_line (buf : list Z) (len rowsize groupsize : Z) (ascii : bool) : list Z :=
  let rowsize := dump_rowsize rowsize in
  let len := dump_len len rowsize in
  let groupsize := dump_groupsize len groupsize in
  let column := rowsize * 2 + rowsize / groupsize + 1 in
  let hex := join (groups (Z.to_nat groupsize) (Z.to_nat (len / groupsize)) buf) in
  if len =? 0 then []
  else if ascii then hex ++ replicate (Z.to_nat column - length hex) SPACE ++
                     (ascii_char <$> take (Z.to_nat len) buf)
  else hex.
End Params.

(** ** The line *)
Section Dump.
Context `{CtypeSpec}.
Variables (mem0 : list Z) (n : nat).
Hypotheses (Hn : (0 < n <= length mem0)%nat).

(** Leaving the body terminates what has been written. *)
Lemma dump_finish F e v :
  wrote mem0 n F e -> v = Z.of_nat (length F) ->
  match e with
  | Go mem lx => mem ← poke mem lx 0; Done (Z.of_nat lx, mem)
  | Overflow1 mem => Done (v, mem)
  | Overflow2 mem lx => mem ← poke mem lx 0; Done (v, mem)
  end = Done (Z.of_nat (length F),
              take (n - 1) F ++ 0 :: drop (S (length (take (n - 1) F))) mem0).
Proof using Hn.
  intros Hw ->. destruct e as [mem lx|mem|mem lx]; simpl in Hw.
  - destruct Hw as (Hat & -> & Hlt). rewrite (poke_end mem0) by done. cbn [mbind outcome_bind].
    by rewrite take_ge by lia.
  - destruct Hw as [-> Hle]. rewrite length_take.
    by replace (S ((n - 1) `min` length F)) with n by lia.
  - destruct Hw as (Hat & -> & Hle).
    assert (Hl : length (take (n - 1) F) = (n - 1)%nat) by (rewrite length_take; lia).
    rewrite <- Hl at 1. rewrite (poke_end mem0) by done. done.
Qed.

(** The hexadecimal part, by either kind of loop. *)
Lemma dump_hex_ok buf len g :
  g = 1 \/ g = 2 \/ g = 4 \/ g = 8 -> 0 < len -> len mod g = 0 -> len <= Z.of_nat (length buf) ->
  exists e,
    (if (g =? 8) || (g =? 4) || (g =? 2)
     then dump_groups (Z.to_nat (len / g)) (Z.to_nat g) 0 buf mem0 n 0
     else dump_bytes (Z.to_nat len) 0 buf mem0 n 0) = Done e /\
    wrote mem0 n (join (groups (Z.to_nat g) (Z.to_nat (len / g)) buf)) e.
Proof using Hn.
  intros Hg Hlen Hmod Hbuf.
  assert (Hat : at_end mem0 [] mem0) by (apply at_end_start; lia).
  destruct (Z.eq_dec g 1) as [->|Hne].
  - simpl orb. rewrite Z.div_1_r.
    apply (dump_bytes_ok mem0 n Hn buf (Z.to_nat len) 0 [] mem0); simpl; [lia|lia|done|lia|done|done].
  - assert ((g =? 8) || (g =? 4) || (g =? 2) = true) as ->.
    { destruct Hg as [-> | [-> | [-> | ->]]]; done. }
    apply (dump_groups_ok mem0 n Hn (Z.to_nat g) buf (Z.to_nat (len / g)) ltac:(lia) 0 [] mem0);
      simpl; [|done|lia|done].
    assert (len = g * (len / g)) by (pose proof (Z.div_mod len g); lia).
    rewrite <- Z2Nat.inj_mul by (try apply Z.div_pos; lia). lia.
Qed.
End Dump.

Section Theorems.
Context `{CtypeSpec}.

Lemma length_hex_part buf len g :
  0 < g -> 0 < len -> len mod g = 0 ->
  Z.of_nat (length (join (groups (Z.to_nat g) (Z.to_nat (len / g)) buf))) = (g * 2 + 1) * (len / g) - 1.
Proof using Type.
  intros Hg Hlen Hmod. pose proof (Z.div_mod len g ltac:(lia)) as Hdm.
  assert (0 < len / g) by nia.
  destruct (Z.to_nat (len / g)) as [|m] eqn:Hm; [lia|]. rewrite length_join_groups.
  assert (Z.of_nat (S m) = len / g) by lia. nia.
Qed.

(** What the code answers on overflow is the length of the whole line. *)
Lemma length_dump_line buf len rowsize groupsize ascii :
  let row := dump_rowsize rowsize in
  let l := dump_len len row in
  let g := dump_groupsize l groupsize in
  - 2 ^ 31 <= groupsize < 2 ^ 31 -> 0 < l -> l <= Z.of_nat (length buf) ->
  Z.of_nat (length (dump_line buf len rowsize groupsize ascii)) =
  if ascii then row * 2 + row / g + 1 + l else (g * 2 + 1) * (l / g) - 1.
Proof using All.
  intros row l g Hgs Hl Hbuf. unfold dump_line. fold row. fold l. fold g.
  destruct (Z.eqb_spec l 0); [lia|].
  destruct (dump_groupsize_cases l groupsize Hgs) as [Hg Hmod]. fold g in Hg, Hmod.
  pose proof (length_hex_part buf l g ltac:(lia) ltac:(lia) Hmod) as Hhex.
  destruct ascii; [|done]. rewrite !length_app, length_replicate, length_fmap, length_take.
  assert (Hrow : l <= row) by (unfold l, dump_len; destruct (Z.gtb_spec len row); lia).
  assert (l / g <= row / g) by (apply Z.div_le_mono; lia).
  pose proof (Z.div_mod l g ltac:(lia)). nia.
Qed.

(** The hexadecimal part leaves the ASCII column free. *)
Lemma dump_ascii_part_ok mem0 n buf F hex column len mem :
  (0 < n <= length mem0)%nat -> (len <= length buf)%nat ->
  at_end mem0 hex mem -> (length hex < n)%nat ->
  F = hex ++ replicate (column - length hex) SPACE ++ (ascii_char <$> take len buf) ->
  exists e, dump_pad (column - length hex) mem n (length hex)
              (fun mem lx => dump_ascii len 0 buf mem n lx) = Done e /\ wrote mem0 n F e.
Proof using Type.
  intros Hn Hlen Hat Hhex ->.
  apply dump_pad_ok; [done|done|done|rewrite app_assoc; by apply prefix_app_r|].
  intros mem' HT' Hat'. apply dump_ascii_ok; [done|done|done|done|]. by rewrite drop_0, app_assoc.
Qed.

Lemma dump_second_ok mem0 n buf F hex column len (ascii : bool) e :
  (0 < n <= length mem0)%nat -> (len <= length buf)%nat -> wrote mem0 n hex e ->
  F = (if ascii then hex ++ replicate (column - length hex) SPACE ++ (ascii_char <$> take len buf)
       else hex) ->
  exists e', match e with
        | Go mem lx =>
            if negb ascii then Done e
            else dump_pad (column - lx) mem n lx (fun mem lx => dump_ascii len 0 buf mem n lx)
        | _ => Done e
        end = Done e' /\ wrote mem0 n F e'.
Proof using Type.
  intros Hn Hlen Hw ->. destruct ascii; simpl negb; cbv iota.
  2:{ exists e. by destruct e. }
  destruct e as [mem lx|mem|mem lx]; [|(eexists; split; [done|by apply wrote_longer])..].
  destruct Hw as (Hat & -> & Hlt). by apply dump_ascii_part_ok.
Qed.

Lemma dump_len_cases len rowsize : 0 <= len ->
  let l := dump_len len (dump_rowsize rowsize) in 0 <= l /\ (l = 0 <-> len = 0).
Proof using Type.
  intros Hlen l. unfold l, dump_len. pose proof (dump_rowsize_cases rowsize).
  destruct (Z.gtb_spec len (dump_rowsize rowsize)); lia.
Qed.

Lemma hex_dump_no_room buf len rowsize groupsize linebuf ascii :
  let row := dump_rowsize rowsize in
  let l := dump_len len row in
  0 <= len -> - 2 ^ 31 <= groupsize < 2 ^ 31 -> l <= Z.of_nat (length buf) ->
  hex_dump_to_buffer buf len rowsize groupsize linebuf 0 ascii =
  Done (if len =? 0 then if ascii then row * 2 + row / dump_groupsize 0 groupsize + 1 else -1
        else Z.of_nat (length (dump_line buf len rowsize groupsize ascii)), linebuf).
Proof using All.
  intros row l Hlen Hgs Hbuf. destruct (dump_len_cases len rowsize Hlen) as [Hl Hl0]. fold row l in Hl, Hl0.
  unfold hex_dump_to_buffer. fold row. fold l. change (0 =? 0)%nat with true. cbv iota.
  destruct (Z.eqb_spec len 0) as [Hz|Hz].
  - assert (l = 0) as -> by tauto. destruct (dump_groupsize_cases 0 groupsize Hgs) as [Hg _].
    rewrite Z.div_0_l by lia. by rewrite Z.mul_0_r, Z.add_0_r.
  - rewrite length_dump_line; [done|done|fold row l; lia|done].
Qed.

Lemma hex_dump_to_buffer_total buf len rowsize groupsize linebuf n ascii :
  let row := dump_rowsize rowsize in
  let l := dump_len len row in
  let F := dump_line buf len rowsize groupsize ascii in
  0 <= len -> - 2 ^ 31 <= groupsize < 2 ^ 31 ->
  l <= Z.of_nat (length buf) -> (n <= length linebuf)%nat ->
  hex_dump_to_buffer buf len rowsize groupsize linebuf n ascii =
  Done match n with
       | O => (if len =? 0 then if ascii then row * 2 + row / dump_groupsize 0 groupsize + 1 else -1
               else Z.of_nat (length F), linebuf)
       | S n => (Z.of_nat (length F), take n F ++ 0 :: drop (S (length (take n F))) linebuf)
       end.
Proof using All.
  intros row l F Hlen Hgs Hbuf Hn.
  destruct (dump_len_cases len rowsize Hlen) as [Hl Hl0]. fold row l in Hl, Hl0.
  destruct n as [|n]; [by apply hex_dump_no_room|].
  unfold hex_dump_to_buffer. fold row. fold l. set (g := dump_groupsize l groupsize).
  change (S n =? 0)%nat with false. cbv iota.
  destruct (dump_groupsize_cases l groupsize Hgs) as [Hg Hmod]. fold g in Hg, Hmod.
  destruct (Z.eqb_spec l 0) as [Hz|Hz].
  { unfold F, dump_line. fold row l. rewrite Hz. destruct linebuf as [|x linebuf]; [simpl in Hn; lia|].
    by destruct n. }
  pose proof (length_dump_line buf len rowsize groupsize ascii Hgs ltac:(fold row l; lia) Hbuf) as HF.
  fold row l g F in HF.
  destruct (dump_hex_ok linebuf (S n) ltac:(lia) buf l g Hg ltac:(lia) Hmod Hbuf) as (e & -> & Hw).
  cbn [mbind outcome_bind]. set (hex := join _) in Hw.
  assert (Hfin : exists e', match e with
        | Go mem lx =>
            if negb ascii then Done e
            else dump_pad (Z.to_nat (row * 2 + row / g + 1) - lx) mem (S n) lx (fun mem lx =>
                 dump_ascii (Z.to_nat l) 0 buf mem (S n) lx)
        | _ => Done e
        end = Done e' /\ wrote linebuf (S n) F e').
  { apply dump_second_ok with hex; [lia|lia|done|].
    unfold F, dump_line. fold row l g hex. by destruct (Z.eqb_spec l 0). }
  destruct Hfin as (e' & -> & Hw'). cbn [mbind outcome_bind].
  etrans; [apply (dump_finish linebuf (S n) ltac:(lia) F e' _ Hw'); by rewrite HF|].
  by replace (S n - 1)%nat with n by lia.
Qed.

(** C31: [hex_dump_to_buffer] never reads or writes outside of its buffers.
    With [linebuflen] above 0 it answers the length of the whole line and leaves
    in [linebuf] as much of the line as fits, terminated, and nothing behind the
    terminator changes.  With [linebuflen] 0 nothing is written; the answer is the
    length of the whole line when [len] is above 0, and for [len] 0 the ASCII
    column, or -1 without one. *)
Theorem hex_dump_to_buffer_spec buf len rowsize groupsize linebuf n ascii :
  let row := dump_rowsize rowsize in
  let l := dump_len len row in
  let F := dump_line buf len rowsize groupsize ascii in
  0 <= len -> - 2 ^ 31 <= groupsize < 2 ^ 31 ->
  l <= Z.of_nat (length buf) -> (n <= length linebuf)%nat ->
  hex_dump_to_buffer buf len rowsize groupsize linebuf n ascii =
  Done match n with
       | O => (if len =? 0 then if ascii then row * 2 + row / dump_groupsize 0 groupsize + 1 else -1
               else Z.of_nat (length F), linebuf)
       | S n => (Z.of_nat (length F), take n F ++ 0 :: drop (S (length (take n F))) linebuf)
       end.
Proof using All. apply hex_dump_to_buffer_total. Qed.
End Theorems.

(** ** Text to bytes and back *)

Lemma poke_at (mem0 T : list Z) c :
  (length T < length mem0)%nat ->
  poke (T ++ drop (length T) mem0) (length T) c = Done ((T ++ [c]) ++ drop (length (T ++ [c])) mem0).
Proof.
  intros HT. destruct (lookup_lt_is_Some_2 mem0 _ HT) as [x Hx].
  rewrite (drop_S _ _ _ Hx), (poke_end mem0) by (by exists x).
  by rewrite length_app, Nat.add_1_r, <- app_assoc.
Qed.

(** The two digits of a byte. *)
Definition hex_pair (b : Z) : list Z := [hex_asc_hi b; hex_asc_lo b].

Lemma length_hex_pairs bs : length (bs ≫= hex_pair) = (2 * length bs)%nat.
Proof. induction bs as [|b bs IH]; [done|]. cbn. rewrite IH. lia. Qed.

Lemma bin2hex_at mem0 src : forall count i T,
  (i + count <= length src)%nat -> (length T + 2 * count <= length mem0)%nat ->
  bin2hex (T ++ drop (length T) mem0) (length T) src i count =
  let text := T ++ (take count (drop i src) ≫= hex_pair) in
  Done (text ++ drop (length text) mem0, length text).
Proof.
  induction count as [|count IH]; intros i T Hi HT; cbn [bin2hex].
  { cbn. by rewrite app_nil_r. }
  destruct (lookup_lt_is_Some_2 src i ltac:(lia)) as [b Hb]. unfold peek. rewrite Hb.
  cbn [mbind outcome_bind]. unfold hex_byte_pack. rewrite poke_at by lia. cbn [mbind outcome_bind].
  replace (S (length T)) with (length (T ++ [hex_asc_hi b])) by (rewrite length_app; simpl; lia).
  rewrite poke_at by (rewrite length_app; simpl; lia). cbn [mbind outcome_bind fst snd].
  rewrite <- (app_assoc T). cbn [app].
  replace (S (length (T ++ [hex_asc_hi b]))) with (length (T ++ hex_pair b))
    by (rewrite !length_app; simpl; lia).
  change [hex_asc_hi b; hex_asc_lo b] with (hex_pair b).
  rewrite IH by (rewrite ?length_app; simpl; lia).
  rewrite (drop_S _ _ _ Hb). cbn [take]. rewrite bind_cons, (app_assoc T). done.
Qed.

Section Decode.
Context `{CtypeSpec}.

(** The value of a hexadecimal digit, of either case. *)
Definition digit_value (c : Z) : option Z :=
  if (48 <=? c) && (c <=? 57) then Some (c - 48)
  else if (65 <=? c) && (c <=? 70) then Some (c - 55)
  else if (97 <=? c) && (c <=? 102) then Some (c - 87)
  else None.

Lemma hex_to_bin_value c : 0 <= c < 256 -> hex_to_bin c = default (-1) (digit_value c).
Proof using All.
  intros Hc. unfold hex_to_bin, digit_value. rewrite !Z.geb_leb.
  destruct (Z.leb_spec 48 c), (Z.leb_spec c 57); simpl; try done.
  all: destruct (Z_lt_dec c 65);
    [rewrite tolower_other by lia
    |destruct (Z_le_dec c 90);
      [rewrite tolower_upper by lia
      |destruct (Z_lt_dec c 128);
        [rewrite tolower_other by lia|pose proof (tolower_high c ltac:(lia))]]].
  all: repeat match goal with |- context [?a <=? ?b] => destruct (Z.leb_spec a b); simpl; try lia end.
Qed.

Lemma digit_value_range c v : digit_value c = Some v -> 0 <= v < 16.
Proof using Type.
  unfold digit_value.
  repeat match goal with |- context [?a <=? ?b] => destruct (Z.leb_spec a b); simpl end;
    intros; simplify_eq; lia.
Qed.

(** The bytes of a text, up to the first pair that has no value; whether there
    is none. *)
Fixpoint decode (count : nat) (s : list Z) : list Z * bool :=
  match count, s with
  | S count, c1 :: c2 :: s =>
      match digit_value c1, digit_value c2 with
      | Some hi, Some lo => let '(bs, ok) := decode count s in (16 * hi + lo :: bs, ok)
      | _, _ => ([], false)
      end
  | _, _ => ([], true)
  end.

Lemma byte_of_digits hi lo : 0 <= hi < 16 -> 0 <= lo < 16 -> Z.lor (Z.shiftl hi 4) lo = 16 * hi + lo.
Proof using Type.
  intros Hhi Hlo.
  assert (Hall : Forall (fun h => Forall (fun l => Z.lor (Z.shiftl h 4) l = 16 * h + l) (seqZ 0 16)) (seqZ 0 16))
    by (vm_compute; repeat constructor).
  rewrite list.Forall_forall in Hall. specialize (Hall hi ltac:(apply elem_of_seqZ; lia)).
  rewrite list.Forall_forall in Hall. apply Hall, elem_of_seqZ. lia.
Qed.

Lemma hex2bin_at mem0 s : forall count i T,
  Forall (fun c => 0 <= c < 256) s ->
  (i + 2 * count <= length s)%nat -> (length T + count <= length mem0)%nat ->
  hex2bin (T ++ drop (length T) mem0) (length T) s i count =
  let '(bs, ok) := decode count (drop i s) in
  Done (if ok then 0 else - EINVAL, (T ++ bs) ++ drop (length (T ++ bs)) mem0).
Proof using All.
  induction count as [|count IH]; intros i T Hs Hi HT; cbn [hex2bin].
  { cbn. by rewrite app_nil_r. }
  destruct (lookup_lt_is_Some_2 s i ltac:(lia)) as [c1 Hc1].
  destruct (lookup_lt_is_Some_2 s (S i) ltac:(lia)) as [c2 Hc2].
  unfold peek. rewrite Hc1. cbn [mbind outcome_bind]. rewrite Hc2. cbn [mbind outcome_bind].
  rewrite (drop_S _ _ _ Hc1), (drop_S _ _ _ Hc2). cbn [decode].
  rewrite (hex_to_bin_value c1) by exact (proj1 (list.Forall_lookup _ _) Hs _ _ Hc1).
  rewrite (hex_to_bin_value c2) by exact (proj1 (list.Forall_lookup _ _) Hs _ _ Hc2).
  destruct (digit_value c1) as [hi|] eqn:Hhi; cbn [default id];
    [|by destruct (digit_value c2); simpl; rewrite app_nil_r].
  apply digit_value_range in Hhi. destruct (Z.ltb_spec hi 0); [lia|].
  destruct (digit_value c2) as [lo|] eqn:Hlo; cbn [default id]; [|by simpl; rewrite app_nil_r].
  apply digit_value_range in Hlo. destruct (Z.ltb_spec lo 0); [lia|]. cbn [orb].
  rewrite poke_at by lia. cbn [mbind outcome_bind].
  replace (S (length T)) with (length (T ++ [Z.lor (Z.shiftl hi 4) lo])) by (rewrite length_app; simpl; lia).
  rewrite IH by (done || rewrite ?length_app; simpl; lia). rewrite byte_of_digits by lia.
  destruct (decode count (drop (S (S i)) s)) as [bs ok]. by rewrite <- (app_assoc T).
Qed.

(** A check of every byte. *)
Lemma byte_cases (P : Z -> bool) : forallb P (seqZ 0 256) = true -> forall b, 0 <= b < 256 -> P b = true.
Proof using Type.
  intros HP b Hb. rewrite forallb_forall in HP. apply HP, list_elem_of_In, elem_of_seqZ. lia.
Qed.

Lemma digits_of_byte b : 0 <= b < 256 ->
  digit_value (hex_asc_hi b) = Some (b / 16) /\ digit_value (hex_asc_lo b) = Some (b mod 16) /\
  0 <= hex_asc_hi b < 256 /\ 0 <= hex_asc_lo b < 256.
Proof using Type.
  intros Hb. set (P b := bool_decide (digit_value (hex_asc_hi b) = Some (b / 16) /\
    digit_value (hex_asc_lo b) = Some (b mod 16) /\ 0 <= hex_asc_hi b < 256 /\ 0 <= hex_asc_lo b < 256)).
  assert (HP : forallb P (seqZ 0 256) = true) by (vm_compute; reflexivity).
  apply (bool_decide_eq_true_1 _ (byte_cases P HP b Hb)).
Qed.

Lemma decode_pairs bs rest :
  Forall (fun b => 0 <= b < 256) bs -> decode (length bs) ((bs ≫= hex_pair) ++ rest) = (bs, true).
Proof using Type.
  induction 1 as [|b bs Hb _ IH]; [done|]. rewrite bind_cons. cbn [length hex_pair app decode].
  destruct (digits_of_byte b Hb) as (-> & -> & _). rewrite IH. do 2 f_equal.
  pose proof (Z.div_mod b 16). lia.
Qed.

(** [hex2bin] accepts exactly the texts of hexadecimal digits of either
    case and stores their values; at the first pair with another character it
    stops with [-EINVAL], the bytes before that pair being stored, and it stays
    inside of its buffers. *)
Theorem hex2bin_spec mem s count :
  Forall (fun c => 0 <= c < 256) s -> (2 * count <= length s)%nat -> (count <= length mem)%nat ->
  hex2bin mem 0 s 0 count =
  let '(bs, ok) := decode count s in
  Done (if ok then 0 else - EINVAL, bs ++ drop (length bs) mem).
Proof using All. intros Hs Hc Hm. by apply (hex2bin_at mem s count 0 []). Qed.

(** What [bin2hex] writes, [hex2bin] reads back to the same bytes; the
    memory behind both destinations stays as it was. *)
Theorem hex_roundtrip src text mem :
  Forall (fun b => 0 <= b < 256) src -> Forall (fun b => 0 <= b < 256) text ->
  (2 * length src <= length text)%nat -> (length src <= length mem)%nat ->
  exists text', bin2hex text 0 src 0 (length src) = Done (text', 2 * length src)%nat /\
    drop (2 * length src) text' = drop (2 * length src) text /\
    hex2bin mem 0 text' 0 (length src) = Done (0, src ++ drop (length src) mem).
Proof using All.
  intros Hsrc Htext Hlt Hlm. pose proof (bin2hex_at text src (length src) 0 [] ltac:(lia) Hlt) as Hb.
  cbn [length app] in Hb. cbn zeta in Hb. rewrite !drop_0, firstn_all, length_hex_pairs in Hb. eexists. split; [exact Hb|].
  split; [by rewrite drop_app_length' by (by rewrite length_hex_pairs)|].
  rewrite (hex2bin_at mem _ (length src) 0 []);
    [by rewrite drop_0, decode_pairs| |rewrite length_app, length_hex_pairs; lia|done].
  apply Forall_app_2; [|by apply Forall_drop].
  clear -Hsrc. induction Hsrc as [|b bs Hbyte _ IH]; [constructor|]. rewrite bind_cons.
  destruct (digits_of_byte b Hbyte) as (_ & _ & H1 & H2).
  cbn [hex_pair app]. apply list.Forall_cons. split; [done|]. apply list.Forall_cons. by split.
Qed.
End Decode.

(** ** Whole dumps *)
Section Print.
Context `{CtypeSpec}.

Abbreviation nonzero := (Forall (fun c : Z => c <> 0)).

Lemma hex_asc_nonzero x : hex_asc_lo x <> 0.
Proof using Type.
  unfold hex_asc_lo. change 0x0f with (Z.ones 4). rewrite Z.land_ones by lia.
  pose proof (Z.mod_pos_bound x (2 ^ 4) ltac:(lia)) as Hx.
  assert (Hall : nonzero hex_asc) by (by repeat constructor).
  apply (proj1 (Forall_nth _ _) Hall). simpl. lia.
Qed.

Lemma hex_asc_hi_lo x : hex_asc_hi x = hex_asc_lo (Z.shiftr x 4).
Proof using Type. unfold hex_asc_hi, hex_asc_lo. by rewrite Z.shiftr_land. Qed.

Lemma hex_digits_nonzero w : forall v, nonzero (hex_digits w v).
Proof using Type.
  induction w as [|w IH]; intros v; cbn [hex_digits]; [constructor|].
  apply Forall_app_2; [apply IH|]. constructor; [apply hex_asc_nonzero|constructor].
Qed.

Lemma group_nonzero g buf j : nonzero (group g buf j).
Proof using Type.
  unfold group. destruct (g =? 1)%nat; [|apply hex_digits_nonzero].
  repeat constructor; rewrite ?hex_asc_hi_lo; apply hex_asc_nonzero.
Qed.

Lemma join_nonzero l : Forall nonzero l -> nonzero (join l).
Proof using Type.
  induction 1 as [|x l Hx _ IH]; cbn [join]; [constructor|].
  apply Forall_app_2; [done|]. apply Forall_app_2; [|done]. by destruct l; repeat constructor.
Qed.

Lemma dump_line_nonzero buf len rowsize groupsize ascii :
  nonzero (dump_line buf len rowsize groupsize ascii).
Proof using All.
  unfold dump_line. destruct (_ =? 0); [constructor|].
  assert (Hhex : forall g m, nonzero (join (groups g m buf))).
  { intros g m. apply join_nonzero, list.Forall_fmap, Forall_true. intros j. apply group_nonzero. }
  destruct ascii; [|apply Hhex]. apply Forall_app_2; [apply Hhex|].
  apply Forall_app_2; [by apply Forall_replicate|]. apply list.Forall_fmap, Forall_true.
  intros c. unfold compose, ascii_char. destruct (isascii c && isprint c) eqn:Hc; [|done].
  intros ->. rewrite isprint_nul in Hc. by destruct (isascii 0).
Qed.

Lemma c_string_line F rest : nonzero F -> c_string (F ++ 0 :: rest) = F.
Proof using Type.
  induction 1 as [|c F Hc _ IH]; [done|]. cbn [app c_string]. destruct (Z.eqb_spec c 0); [done|].
  by rewrite IH.
Qed.

(** No line is longer than the buffer of [print_hex_dump]. *)
Lemma dump_line_fits buf len rowsize groupsize ascii :
  0 <= len -> - 2 ^ 31 <= groupsize < 2 ^ 31 ->
  dump_len len (dump_rowsize rowsize) <= Z.of_nat (length buf) ->
  (length (dump_line buf len rowsize groupsize ascii) < linebuf_size)%nat.
Proof using All.
  intros Hlen Hgs Hbuf. destruct (dump_len_cases len rowsize Hlen) as [Hl Hl0].
  pose proof (dump_rowsize_cases rowsize) as Hrow.
  set (row := dump_rowsize rowsize) in *. set (l := dump_len len row) in *.
  change linebuf_size with 131%nat.
  destruct (Z.eq_dec l 0) as [Hz|Hz].
  { unfold dump_line. fold row l. rewrite Hz. simpl. lia. }
  pose proof (length_dump_line buf len rowsize groupsize ascii Hgs ltac:(fold row l; lia) Hbuf) as HF.
  cbn zeta in HF. fold row l in HF.
  destruct (dump_groupsize_cases l groupsize Hgs) as [Hg _]. set (g := dump_groupsize l groupsize) in *.
  assert (l <= row) by (unfold l, dump_len; destruct (Z.gtb_spec len row); lia).
  assert (l / g <= row / g) by (apply Z.div_le_mono; lia).
  assert (row / g <= row) by (apply Z.div_le_upper_bound; nia).
  assert (g * (l / g) <= l) by (apply Z.mul_div_le; lia).
  destruct ascii; nia.
Qed.

(** What is printed for the chunk of a dump that starts at [i]. *)
Definition chunk_line (level prefix_str : list Z) (prefix_type : prefix) (row groupsize : Z)
    (buf : list Z) (len : Z) (ascii : bool) (i : Z) : printed :=
  let line := dump_line (drop (Z.to_nat i) buf) (Z.min (len - i) row) row groupsize ascii in
  match prefix_type with
  | DUMP_PREFIX_ADDRESS => PrintAddress level prefix_str i line
  | DUMP_PREFIX_OFFSET => PrintOffset level prefix_str i line
  | DUMP_PREFIX_NONE => PrintPlain level prefix_str line
  end.

Section Loop.
Variables (level prefix_str : list Z) (prefix_type : prefix) (groupsize : Z).
Variables (buf : list Z) (len : Z) (ascii : bool) (row : Z).
Hypotheses (Hgs : - 2 ^ 31 <= groupsize < 2 ^ 31) (Hrow : row = 16 \/ row = 32).
Hypotheses (Hlen : 0 <= len < 2 ^ 31 - 32) (Hbuf : len <= Z.of_nat (length buf)).

Lemma dump_rowsize_row : dump_rowsize row = row.
Proof using Hrow. unfold dump_rowsize. destruct Hrow as [-> | ->]; done. Qed.

(** One turn of the loop. *)
Lemma print_chunk i linebuf :
  0 <= i < len -> length linebuf = linebuf_size ->
  exists ret linebuf', hex_dump_to_buffer (drop (Z.to_nat i) buf) (u64 (Z.min (len - i) row)) row groupsize
              linebuf linebuf_size ascii = Done (ret, linebuf') /\
    length linebuf' = linebuf_size /\
    c_string linebuf' = dump_line (drop (Z.to_nat i) buf) (Z.min (len - i) row) row groupsize ascii.
Proof using All.
  intros Hi Hlb. rewrite u64_small by (unfold is_u64; lia).
  set (l := Z.min (len - i) row). set (b := drop (Z.to_nat i) buf).
  assert (Hl : 0 <= l) by (unfold l; lia).
  assert (Hb : dump_len l (dump_rowsize row) <= Z.of_nat (length b)).
  { rewrite dump_rowsize_row. unfold dump_len, l, b. rewrite length_drop.
    destruct (Z.gtb_spec (Z.min (len - i) row) row); lia. }
  pose proof (dump_line_fits b l row groupsize ascii Hl Hgs Hb) as Hfit.
  rewrite hex_dump_to_buffer_total by (done || lia). change linebuf_size with (S 130) in *.
  set (F := dump_line b l row groupsize ascii) in *.
  cbv iota. rewrite (take_ge F) by lia. do 2 eexists. split; [done|].
  split; [rewrite length_app; cbn [length]; rewrite length_drop; lia|].
  apply c_string_line, dump_line_nonzero.
Qed.

Lemma print_loop_ok m : forall fuel i linebuf,
  0 <= i -> i < 2 ^ 31 -> (m < fuel)%nat -> length linebuf = linebuf_size ->
  (forall k, 0 <= k < Z.of_nat m -> i + k * row < len) -> len <= i + Z.of_nat m * row ->
  print_loop fuel level prefix_str prefix_type row groupsize buf len ascii i (len - i) linebuf =
  Done ((fun k => chunk_line level prefix_str prefix_type row groupsize buf len ascii (i + Z.of_nat k * row))
          <$> seq 0 m).
Proof using All.
  induction m as [|m IH]; intros fuel i linebuf Hi Hi31 Hfuel Hlb Hin Hout;
    (destruct fuel as [|fuel]; [lia|]); cbn [print_loop]; rewrite u64_small by (unfold is_u64; lia).
  { destruct (Z.ltb_spec i len); [lia|]. done. }
  assert (i < len) by (specialize (Hin 0); lia). destruct (Z.ltb_spec i len); [|lia].
  destruct (print_chunk i linebuf ltac:(lia) Hlb) as (ret & lb & -> & Hlb' & Hstr).
  cbn [mbind outcome_bind fst snd]. rewrite Hstr.
  rewrite (s32_small (i + row)), (s32_small (len - i - row)) by lia.
  replace (len - i - row) with (len - (i + row)) by lia.
  rewrite IH; [|lia|lia|lia|done|intros k Hk; specialize (Hin (k + 1) ltac:(lia)); lia|lia].
  cbn [mbind outcome_bind]. f_equal. cbn [seq]. rewrite fmap_cons, <- fmap_S_seq, <- list_fmap_compose.
  f_equal.
  - unfold chunk_line. by rewrite Z.mul_0_l, Z.add_0_r.
  - apply list_fmap_ext. intros _ k _. unfold compose. f_equal. lia.
Qed.
End Loop.

(** [print_hex_dump] of at most 2 GiB ends and prints one line per chunk of
    16 or 32 bytes, in order, each with its offset and none of them cut off by
    the line buffer. *)
Theorem print_hex_dump_lines level prefix_str prefix_type rowsize groupsize buf len ascii linebuf :
  let row := dump_rowsize rowsize in
  - 2 ^ 31 <= groupsize < 2 ^ 31 -> 0 <= len < 2 ^ 31 - 32 -> len <= Z.of_nat (length buf) ->
  length linebuf = linebuf_size ->
  print_hex_dump level prefix_str prefix_type rowsize groupsize buf len ascii linebuf =
  Done ((fun k => chunk_line level prefix_str prefix_type row groupsize buf len ascii (Z.of_nat k * row))
          <$> seq 0 (Z.to_nat ((len + row - 1) / row))).
Proof using All.
  intros row Hgs Hlen Hbuf Hlb. unfold print_hex_dump. fold row.
  pose proof (dump_rowsize_cases rowsize) as Hrow. fold row in Hrow.
  rewrite s32_small by lia. replace len with (len - 0) at 3 by lia.
  pose proof (Z.div_mod (len + row - 1) row ltac:(lia)) as Hdm.
  pose proof (Z.mod_pos_bound (len + row - 1) row ltac:(lia)) as Hmod.
  set (m := (len + row - 1) / row) in *. assert (0 <= m) by nia.
  rewrite (print_loop_ok _ _ _ _ _ _ _ row Hgs Hrow Hlen Hbuf (Z.to_nat m)); [done|lia|lia|nia|done| |nia].
  intros k Hk. nia.
Qed.
End Print.

(** ** Instances *)

(** The C locale, little endian. *)
#[export] Instance ascii_ctype : Ctype := {|
  tolower c := if (65 <=? c) && (c <=? 90) then c + 32 else c;
  isascii c := (0 <=? c) && (c <? 128);
  isprint c := (32 <=? c) && (c <? 127);
  is_power_of_2 n := (0 <? n) && (n =? 2 ^ Z.log2 n);
  get_unaligned := fold_right (fun b acc => b mod 256 + 256 * acc) 0;
|}.

#[export] Instance ascii_ctype_spec : CtypeSpec.
Proof.
  split; cbn [tolower isascii isprint is_power_of_2 get_unaligned ascii_ctype].
  - intros c Hc. destruct (Z.leb_spec 65 c), (Z.leb_spec c 90); simpl; lia.
  - intros c Hc. destruct (Z.leb_spec 65 c), (Z.leb_spec c 90); simpl; lia.
  - intros c Hc. destruct (Z.leb_spec 65 c), (Z.leb_spec c 90); simpl; lia.
  - done.
  - intros n Hn. rewrite andb_true_iff, Z.ltb_lt, Z.eqb_eq. split.
    + intros [_ Heq]. exists (Z.log2 n). split; [apply Z.log2_nonneg|done].
    + intros (k & Hk & ->). rewrite Z.log2_pow2 by done. split; [lia|done].
  - done.
  - induction bs as [|b bs IH]; [done|]. cbn [fold_right length].
    pose proof (Z.mod_pos_bound b 256 ltac:(lia)).
    replace (8 * Z.of_nat (S (length bs))) with (8 + 8 * Z.of_nat (length bs)) by lia.
    rewrite Z.pow_add_r by lia. change (2 ^ 8) with 256. lia.
Qed.

(** "Hi!" and a control character, as one group of four bytes. *)
Definition dump_bytes_example : list Z := [72; 105; 33; 7].

(** The line is cut off by a buffer of 6 bytes: five characters and the NUL. *)
Lemma hex_dump_to_buffer_spec_witness :
  hex_dump_to_buffer dump_bytes_example 4 16 4 (replicate 8 255) 6 false =
  Done (8, [48; 55; 50; 49; 54; 0; 255; 255]).
Proof.
  rewrite (hex_dump_to_buffer_spec dump_bytes_example 4 16 4 (replicate 8 255) 6 false);
    [by vm_compute|lia|lia|vm_compute; discriminate|simpl; lia].
Defined.

(** "4869" is read; "48g9" is refused after the first byte. *)
Lemma hex2bin_spec_witness :
  hex2bin [0; 0; 9] 0 [52; 56; 54; 57] 0 2 = Done (0, [72; 105; 9]) /\
  hex2bin [0; 0; 9] 0 [52; 56; 103; 57] 0 2 = Done (- EINVAL, [72; 0; 9]).
Proof.
  split; (rewrite hex2bin_spec; [by vm_compute|repeat (apply list.Forall_cons; split; [lia|]); constructor|simpl; lia|simpl; lia]).
Defined.

Lemma hex_roundtrip_witness :
  exists text', bin2hex [0; 0; 0; 0; 7] 0 [72; 255] 0 2 = Done (text', 4%nat) /\
    drop 4 text' = [7] /\ hex2bin [1; 2; 3] 0 text' 0 2 = Done (0, [72; 255; 3]).
Proof.
  apply (hex_roundtrip [72; 255] [0; 0; 0; 0; 7] [1; 2; 3]);
    [repeat (apply list.Forall_cons; split; [lia|]); constructor|repeat (apply list.Forall_cons; split; [lia|]); constructor|simpl; lia|simpl; lia].
Defined.

(** 20 bytes make a line of 16 and one of 4. *)
Lemma print_hex_dump_lines_witness :
  exists l1 l2, print_hex_dump KERN_DEBUG [] DUMP_PREFIX_OFFSET 16 1 (replicate 20 65) 20 true
                  (replicate linebuf_size 0) =
                Done [PrintOffset KERN_DEBUG [] 0 l1; PrintOffset KERN_DEBUG [] 16 l2] /\
    length l1 = 65%nat /\ length l2 = 53%nat.
Proof.
  do 2 eexists. split.
  - rewrite (print_hex_dump_lines KERN_DEBUG [] DUMP_PREFIX_OFFSET 16 1 (replicate 20 65) 20 true);
      [vm_compute; reflexivity|lia|lia|simpl; lia|done].
  - split; reflexivity.
Defined.
