(* ===== verification/Buddy.v ===== *)
(** * Buddy allocator: data and operations

    The core of [src/new/mm/page_alloc.c]: the free lists of one zone, freeing
    with coalescing, allocation with splitting, and the fallback to the lists of
    other migrate types.  A page is its frame number; [mem_map] holds what the
    code reads and writes of its descriptor.  [zone->lock] is held throughout,
    so that operations are functions on the zone.

    The configuration is the one with [CONFIG_DEBUG_VM], [CONFIG_CMA],
    [CONFIG_MEMORY_ISOLATION], [CONFIG_SPARSEMEM] and [CONFIG_HOLES_IN_ZONE] and
    without [CONFIG_DEBUG_PAGEALLOC]; a [VM_BUG_ON] that fires is [Bug]. *)

From S2P Require Import Prelude.

Definition MAX_ORDER : Z := 11.

Definition MIGRATE_UNMOVABLE : Z := 0.
Definition MIGRATE_MOVABLE : Z := 1.
Definition MIGRATE_RECLAIMABLE : Z := 2.
Definition MIGRATE_PCPTYPES : Z := 3.
Definition MIGRATE_HIGHATOMIC : Z := MIGRATE_PCPTYPES.
Definition MIGRATE_CMA : Z := 4.
Definition MIGRATE_ISOLATE : Z := 5.
Definition MIGRATE_TYPES : Z := 6.

Definition is_migrate_cma (migratetype : Z) : bool := migratetype =? MIGRATE_CMA.
Definition is_migrate_highatomic (migratetype : Z) : bool := migratetype =? MIGRATE_HIGHATOMIC.

Definition PB_migrate : Z := 0.
Definition PB_migratetype_bits : Z := 3.
Definition PB_migrate_end : Z := PB_migrate + PB_migratetype_bits - 1.
Definition PB_migrate_skip : Z := PB_migrate_end + 1.
Definition NR_PAGEBLOCK_BITS : Z := PB_migrate_skip + 1.
Definition NR_MIGRATETYPE_BITS : Z := PB_migrate_end - PB_migrate + 1.
Definition MIGRATETYPE_MASK : Z := Z.shiftl 1 NR_MIGRATETYPE_BITS - 1.
Definition BITS_PER_LONG : Z := 64.

Definition ALLOC_OOM : Z := 0x08.
Definition ALLOC_HARDER : Z := 0x10.
Definition ALLOC_HIGH : Z := 0x20.
Definition ALLOC_CMA : Z := 0x80.
Definition ALLOC_NOFRAGMENT : Z := 0x100.
Definition ALLOC_KSWAPD : Z := 0x200.

(** What is configured or lives in headers outside of the tree. *)
Class PageAllocConfig := {
  (** [HUGETLB_PAGE_ORDER], or [MAX_ORDER - 1] without huge pages *)
  pageblock_order : Z;
  PFN_SECTION_SHIFT : Z;
  pfn_valid_within : Z -> bool;
  (** the zone bits of the flags of a page, which never change *)
  page_zone_id : Z -> Z;
  (** the node of a page and of a zone *)
  page_to_nid : Z -> Z;
  zone_to_nid : Z -> Z;
  PAGE_FLAGS_CHECK_AT_PREP : Z;
  PAGE_FLAGS_CHECK_AT_FREE : Z;
  __PG_HWPOISON : Z;
  (** of the migrate type, and of [nr_isolate_pageblock] *)
  is_migrate_isolate : Z -> bool;
  has_isolate_pageblock : Z -> bool;
  (** of the flags and of the mapping of a page *)
  PageLRU : Z -> bool;
  __PageMovable : Z -> bool;
  page_group_by_mobility_disabled : bool;
  watermark_boost_factor : Z;
}.

Record page := Page {
  PageBuddy : bool;
  page_private : Z;
  page_count : Z;
  page_flags : Z;
  page_mapping : Z;
  (** [_mapcount], when the page is not marked as [PageBuddy] there *)
  page_mapcount : Z;
  page_index : Z;
}.

Record zone := Zone {
  zone_id : Z;
  zone_start_pfn : Z;
  spanned_pages : Z;
  initialized : bool;
  nr_isolate_pageblock : Z;
  mem_map : Z -> page;
  (** [free_area[order].free_list[migratetype]], the first entry in front *)
  free_list : Z -> Z -> list Z;
  nr_free : Z -> Z;
  vm_free_pages : Z;
  vm_free_cma_pages : Z;
  wmark_min : Z;
  wmark_high : Z;
  watermark_boost : Z;
  boosted_watermark : bool;
  nr_reserved_highatomic : Z;
  lowmem_reserve : Z -> Z;
  (** the pageblock bitmap: section, word *)
  pageblock_flags : Z -> Z -> Z;
}.

(** ** Assignments *)
Definition set_mem_map (z : zone) (m : Z -> page) : zone :=
  Zone (zone_id z) (zone_start_pfn z) (spanned_pages z) (initialized z) (nr_isolate_pageblock z) m
    (free_list z) (nr_free z) (vm_free_pages z) (vm_free_cma_pages z) (wmark_min z) (wmark_high z) (watermark_boost z)
    (boosted_watermark z) (nr_reserved_highatomic z) (lowmem_reserve z) (pageblock_flags z).
Definition set_free_list (z : zone) (l : Z -> Z -> list Z) : zone :=
  Zone (zone_id z) (zone_start_pfn z) (spanned_pages z) (initialized z) (nr_isolate_pageblock z) (mem_map z)
    l (nr_free z) (vm_free_pages z) (vm_free_cma_pages z) (wmark_min z) (wmark_high z) (watermark_boost z)
    (boosted_watermark z) (nr_reserved_highatomic z) (lowmem_reserve z) (pageblock_flags z).
Definition set_nr_free (z : zone) (order n : Z) : zone :=
  Zone (zone_id z) (zone_start_pfn z) (spanned_pages z) (initialized z) (nr_isolate_pageblock z) (mem_map z)
    (free_list z) (upd (nr_free z) order n) (vm_free_pages z) (vm_free_cma_pages z) (wmark_min z) (wmark_high z)
    (watermark_boost z) (boosted_watermark z) (nr_reserved_highatomic z) (lowmem_reserve z) (pageblock_flags z).
Definition set_vm_stat (z : zone) (free cma : Z) : zone :=
  Zone (zone_id z) (zone_start_pfn z) (spanned_pages z) (initialized z) (nr_isolate_pageblock z) (mem_map z)
    (free_list z) (nr_free z) free cma (wmark_min z) (wmark_high z) (watermark_boost z)
    (boosted_watermark z) (nr_reserved_highatomic z) (lowmem_reserve z) (pageblock_flags z).
Definition set_boost (z : zone) (boost : Z) (flag : bool) : zone :=
  Zone (zone_id z) (zone_start_pfn z) (spanned_pages z) (initialized z) (nr_isolate_pageblock z) (mem_map z)
    (free_list z) (nr_free z) (vm_free_pages z) (vm_free_cma_pages z) (wmark_min z) (wmark_high z) boost
    flag (nr_reserved_highatomic z) (lowmem_reserve z) (pageblock_flags z).
Definition set_bitmap (z : zone) (b : Z -> Z -> Z) : zone :=
  Zone (zone_id z) (zone_start_pfn z) (spanned_pages z) (initialized z) (nr_isolate_pageblock z) (mem_map z)
    (free_list z) (nr_free z) (vm_free_pages z) (vm_free_cma_pages z) (wmark_min z) (wmark_high z) (watermark_boost z)
    (boosted_watermark z) (nr_reserved_highatomic z) (lowmem_reserve z) b.

Definition set_page_private (z : zone) (p v : Z) : zone :=
  let d := mem_map z p in
  set_mem_map z (upd (mem_map z) p
    (Page (PageBuddy d) v (page_count d) (page_flags d) (page_mapping d) (page_mapcount d) (page_index d))).
Definition __SetPageBuddy (z : zone) (p : Z) (b : bool) : zone :=
  let d := mem_map z p in
  set_mem_map z (upd (mem_map z) p
    (Page b (page_private d) (page_count d) (page_flags d) (page_mapping d) (page_mapcount d) (page_index d))).
Definition set_pcppage_migratetype (z : zone) (p migratetype : Z) : zone :=
  let d := mem_map z p in
  set_mem_map z (upd (mem_map z) p
    (Page (PageBuddy d) (page_private d) (page_count d) (page_flags d) (page_mapping d) (page_mapcount d) migratetype)).
Definition get_pcppage_migratetype (z : zone) (p : Z) : Z := page_index (mem_map z p).

Definition set_page_order (z : zone) (p order : Z) : zone :=
  __SetPageBuddy (set_page_private z p order) p true.
Definition rmv_page_order (z : zone) (p : Z) : zone :=
  set_page_private (__SetPageBuddy z p false) p 0.
Definition page_order (z : zone) (p : Z) : Z := page_private (mem_map z p).

(** ** Lists *)
Definition upd2 (f : Z -> Z -> list Z) (o t : Z) (l : list Z) : Z -> Z -> list Z :=
  fun o' t' => if (o' =? o) && (t' =? t) then l else f o' t'.
Definition list_add (z : zone) (p order migratetype : Z) : zone :=
  set_free_list z (upd2 (free_list z) order migratetype (p :: free_list z order migratetype)).
Definition list_add_tail (z : zone) (p order migratetype : Z) : zone :=
  set_free_list z (upd2 (free_list z) order migratetype (free_list z order migratetype ++ [p])).

Definition orders : list Z := seqZ 0 MAX_ORDER.
Definition migratetypes : list Z := seqZ 0 MIGRATE_TYPES.

(** [list_del] unlinks the page from the list it is on; a page that is on none
    has links that lead nowhere. *)
Definition listed (z : zone) (p : Z) : bool :=
  existsb (fun o => existsb (fun t => bool_decide (p ∈ free_list z o t)) migratetypes) orders.
Definition list_del (z : zone) (p : Z) : outcome zone :=
  if listed z p
  then Done (set_free_list z (fun o t => filter (fun q => q <> p) (free_list z o t)))
  else Bug.
Definition list_move (z : zone) (p order migratetype : Z) : outcome zone :=
  z ← list_del z p;
  Done (list_add z p order migratetype).

Definition nr_free_inc (z : zone) (order : Z) : zone := set_nr_free z order (nr_free z order + 1).
Definition nr_free_dec (z : zone) (order : Z) : zone := set_nr_free z order (nr_free z order - 1).

Definition __mod_zone_freepage_state (z : zone) (nr_pages migratetype : Z) : zone :=
  let z := set_vm_stat z (vm_free_pages z + nr_pages) (vm_free_cma_pages z) in
  if is_migrate_cma migratetype
  then set_vm_stat z (vm_free_pages z) (vm_free_cma_pages z + nr_pages) else z.

Definition zone_end_pfn (z : zone) : Z := zone_start_pfn z + spanned_pages z.
Definition zone_spans_pfn (z : zone) (pfn : Z) : bool := (zone_start_pfn z <=? pfn) && (pfn <? zone_end_pfn z).

(** [1 << order] *)
Abbreviation pages order := (Z.shiftl 1 order).

Section PageAlloc.
Context `{PageAllocConfig}.

Definition pageblock_nr_pages : Z := Z.shiftl 1 pageblock_order.
Definition PAGES_PER_SECTION : Z := Z.shiftl 1 PFN_SECTION_SHIFT.
Definition pfn_to_section_nr (pfn : Z) : Z := Z.shiftr pfn PFN_SECTION_SHIFT.

(** ** The migrate type of a block of pages *)
Definition pfn_to_bitidx (pfn : Z) : Z :=
  let pfn := Z.land pfn (PAGES_PER_SECTION - 1) in
  Z.shiftr pfn pageblock_order * NR_PAGEBLOCK_BITS.

Definition __get_pfnblock_flags_mask (z : zone) (pfn end_bitidx mask : Z) : Z :=
  let bitmap := pageblock_flags z (pfn_to_section_nr pfn) in
  let bitidx := pfn_to_bitidx pfn in
  let word_bitidx := bitidx / BITS_PER_LONG in
  let bitidx := Z.land bitidx (BITS_PER_LONG - 1) in
  let word := bitmap word_bitidx in
  let bitidx := bitidx + end_bitidx in
  Z.land (Z.shiftr word (BITS_PER_LONG - bitidx - 1)) mask.
Definition get_pfnblock_migratetype (z : zone) (pfn : Z) : Z :=
  __get_pfnblock_flags_mask z pfn PB_migrate_end MIGRATETYPE_MASK.
Definition get_pageblock_migratetype (z : zone) (pfn : Z) : Z :=
  __get_pfnblock_flags_mask z pfn PB_migrate_end MIGRATETYPE_MASK.

(** Nobody else writes the word, so that the first [cmpxchg] succeeds. *)
Definition set_pfnblock_flags_mask (z : zone) (flags pfn end_bitidx mask : Z) : outcome zone :=
  let section := pfn_to_section_nr pfn in
  let bitmap := pageblock_flags z section in
  let bitidx := pfn_to_bitidx pfn in
  let word_bitidx := bitidx / BITS_PER_LONG in
  let bitidx := Z.land bitidx (BITS_PER_LONG - 1) in
  _ ← BUG_ON (negb (zone_spans_pfn z pfn));
  let bitidx := bitidx + end_bitidx in
  let mask := u64 (Z.shiftl mask (BITS_PER_LONG - bitidx - 1)) in
  let flags := u64 (Z.shiftl flags (BITS_PER_LONG - bitidx - 1)) in
  let word := bitmap word_bitidx in
  Done (set_bitmap z (upd (pageblock_flags z) section
          (upd bitmap word_bitidx (Z.lor (Z.land word (u64 (Z.lnot mask))) flags)))).
Definition set_pageblock_migratetype (z : zone) (pfn migratetype : Z) : outcome zone :=
  let migratetype :=
    if page_group_by_mobility_disabled && (migratetype <? MIGRATE_PCPTYPES)
    then MIGRATE_UNMOVABLE else migratetype in
  set_pfnblock_flags_mask z migratetype pfn PB_migrate_end
    (Z.shiftl 1 (PB_migrate_end - PB_migrate + 1) - 1).

(** The mark compaction leaves on a block. *)
Definition get_pageblock_skip (z : zone) (pfn : Z) : Z :=
  __get_pfnblock_flags_mask z pfn PB_migrate_skip (Z.shiftl 1 (PB_migrate_skip - PB_migrate_skip + 1) - 1).
Definition set_pageblock_skip (z : zone) (pfn : Z) : outcome zone :=
  set_pfnblock_flags_mask z 1 pfn PB_migrate_skip (Z.shiftl 1 (PB_migrate_skip - PB_migrate_skip + 1) - 1).
Definition clear_pageblock_skip (z : zone) (pfn : Z) : outcome zone :=
  set_pfnblock_flags_mask z 0 pfn PB_migrate_skip (Z.shiftl 1 (PB_migrate_skip - PB_migrate_skip + 1) - 1).

(** ** Freeing *)
Definition page_outside_zone_boundaries (z : zone) (pfn : Z) : bool := negb (zone_spans_pfn z pfn).
Definition page_is_consistent (z : zone) (pfn : Z) : bool :=
  if negb (pfn_valid_within pfn) then false
  else if negb (zone_id z =? page_zone_id pfn) then false else true.
Definition bad_range (z : zone) (pfn : Z) : bool :=
  if page_outside_zone_boundaries z pfn then true
  else if negb (page_is_consistent z pfn) then true else false.

Definition __find_buddy_pfn (page_pfn order : Z) : Z := Z.lxor page_pfn (pages order).

(** No page is a guard page. *)
Definition page_is_buddy (z : zone) (page buddy order : Z) : outcome bool :=
  if PageBuddy (mem_map z buddy) && (page_order z buddy =? order) then
    if negb (page_zone_id page =? page_zone_id buddy) then Done false
    else
      _ ← BUG_ON (negb (page_count (mem_map z buddy) =? 0));
      Done true
  else Done false.

(** The loops up to [done_merging]: the zone, the page frame and the order that
    were reached and [buddy_pfn], which is not initialised at first. *)
Fixpoint merge (fuel : nat) (z : zone) (pfn order max_order migratetype : Z) (buddy_pfn : option Z)
    : outcome (zone * Z * Z * option Z) :=
  match fuel with
  | O => NoFuel
  | S fuel =>
      if order <? max_order - 1 then
        let buddy_pfn := __find_buddy_pfn pfn order in
        let buddy := pfn + (buddy_pfn - pfn) in
        if negb (pfn_valid_within buddy_pfn) then Done (z, pfn, order, Some buddy_pfn)
        else
          is_buddy ← page_is_buddy z pfn buddy order;
          if negb is_buddy then Done (z, pfn, order, Some buddy_pfn)
          else
            z ← list_del z buddy;
            let z := nr_free_dec z order in
            let z := rmv_page_order z buddy in
            let combined_pfn := Z.land buddy_pfn pfn in
            merge fuel z combined_pfn (order + 1) max_order migratetype (Some buddy_pfn)
      else if max_order <? MAX_ORDER then
        if has_isolate_pageblock (nr_isolate_pageblock z) then
          let buddy_pfn := __find_buddy_pfn pfn order in
          let buddy := pfn + (buddy_pfn - pfn) in
          let buddy_mt := get_pageblock_migratetype z buddy in
          if negb (migratetype =? buddy_mt) && (is_migrate_isolate migratetype || is_migrate_isolate buddy_mt)
          then Done (z, pfn, order, Some buddy_pfn)
          else merge fuel z pfn order (max_order + 1) migratetype (Some buddy_pfn)
        else merge fuel z pfn order (max_order + 1) migratetype buddy_pfn
      else Done (z, pfn, order, buddy_pfn)
  end.
(** Every turn raises [order] or [max_order]. *)
Definition merge_fuel : nat := 2 * Z.to_nat MAX_ORDER + 1.

(** Whether the buddy of the next-highest order is free. *)
Definition add_to_tail (z : zone) (pfn order : Z) (buddy_pfn : option Z) : outcome bool :=
  if order <? MAX_ORDER - 2 then
    match buddy_pfn with
    | None => Bug
    | Some buddy_pfn =>
        if pfn_valid_within buddy_pfn then
          let combined_pfn := Z.land buddy_pfn pfn in
          let higher_page := pfn + (combined_pfn - pfn) in
          let buddy_pfn := __find_buddy_pfn combined_pfn (order + 1) in
          let higher_buddy := higher_page + (buddy_pfn - combined_pfn) in
          if pfn_valid_within buddy_pfn then page_is_buddy z higher_page higher_buddy (order + 1)
          else Done false
        else Done false
    end
  else Done false.

Definition __free_one_page (z : zone) (pfn order migratetype : Z) : outcome zone :=
  let max_order := Z.min MAX_ORDER (pageblock_order + 1) in
  _ ← BUG_ON (negb (initialized z));
  _ ← BUG_ON (bool_of (Z.land (page_flags (mem_map z pfn)) PAGE_FLAGS_CHECK_AT_PREP));
  _ ← BUG_ON (migratetype =? -1);
  let z := if negb (is_migrate_isolate migratetype)
           then __mod_zone_freepage_state z (pages order) migratetype else z in
  _ ← BUG_ON (bool_of (Z.land pfn (pages order - 1)));
  _ ← BUG_ON (bad_range z pfn);
  r ← merge merge_fuel z pfn order max_order migratetype None;
  let '(z, pfn, order, buddy_pfn) := r in
  let z := set_page_order z pfn order in
  tail ← add_to_tail z pfn order buddy_pfn;
  let z := if tail : bool then list_add_tail z pfn order migratetype else list_add z pfn order migratetype in
  Done (nr_free_inc z order).

Definition free_one_page (z : zone) (pfn order migratetype : Z) : outcome zone :=
  let migratetype :=
    if has_isolate_pageblock (nr_isolate_pageblock z) || is_migrate_isolate migratetype
    then get_pfnblock_migratetype z pfn else migratetype in
  __free_one_page z pfn order migratetype.

(** ** Allocation *)

(** [n] is [high - low]; [set_page_guard] marks nothing. *)
Fixpoint expand_loop (n : nat) (z : zone) (page high size migratetype : Z) : outcome zone :=
  match n with
  | O => Done z
  | S n =>
      let high := high - 1 in
      let size := Z.shiftr size 1 in
      _ ← BUG_ON (bad_range z (page + size));
      let z := list_add z (page + size) high migratetype in
      let z := nr_free_inc z high in
      let z := set_page_order z (page + size) high in
      expand_loop n z page high size migratetype
  end.
Definition expand (z : zone) (page low high migratetype : Z) : outcome zone :=
  expand_loop (Z.to_nat (high - low)) z page high (pages high) migratetype.

(** [n] is [MAX_ORDER - current_order]. *)
Fixpoint rmqueue_smallest_loop (n : nat) (z : zone) (order current_order migratetype : Z)
    : outcome (zone * option Z) :=
  match n with
  | O => Done (z, None)
  | S n =>
      match free_list z current_order migratetype with
      | [] => rmqueue_smallest_loop n z order (current_order + 1) migratetype
      | page :: _ =>
          z ← list_del z page;
          let z := rmv_page_order z page in
          let z := nr_free_dec z current_order in
          z ← expand z page order current_order migratetype;
          Done (set_pcppage_migratetype z page migratetype, Some page)
      end
  end.
Definition __rmqueue_smallest (z : zone) (order migratetype : Z) : outcome (zone * option Z) :=
  rmqueue_smallest_loop (Z.to_nat (MAX_ORDER - order)) z order order migratetype.
Definition __rmqueue_cma_fallback (z : zone) (order : Z) : outcome (zone * option Z) :=
  __rmqueue_smallest z order MIGRATE_CMA.

End PageAlloc.
