(* ===== verification/BuddyInv.v ===== *)
(** * Buddy allocator: invariant

    The free lists partition the free pages of a zone into aligned blocks.  Every
    operation is a sequence of the two steps shown here to keep that: taking a
    block off of its list and putting a block that overlaps no other on one. *)

From S2P Require Import Prelude Buddy.

(** ** Arithmetic of buddies *)
Definition aligned (p o : Z) : Prop := exists m, 0 <= m /\ p = m * 2 ^ o.

Lemma pages_pow o : 0 <= o -> pages o = 2 ^ o.
Proof. intros. rewrite Z.shiftl_mul_pow2 by lia. lia. Qed.

Lemma pow_pos o : 0 <= o -> 0 < 2 ^ o.
Proof. intros. apply Z.pow_pos_nonneg; lia. Qed.

Lemma pow_S o : 0 <= o -> 2 ^ (o + 1) = 2 * 2 ^ o.
Proof. intros. rewrite Z.pow_add_r by lia. lia. Qed.

Lemma lxor_even k : Z.lxor (2 * k) 1 = 2 * k + 1.
Proof.
  rewrite <- Z.add_nocarry_lxor; [done|].
  apply Z.bits_inj'. intros n Hn. rewrite Z.land_spec, Z.bits_0.
  destruct (Z.eq_dec n 0) as [->|]; [by rewrite Z.testbit_even_0|].
  by rewrite (Z.bits_above_log2 1) by (simpl; lia); rewrite andb_false_r.
Qed.

Lemma lxor_odd k : Z.lxor (2 * k + 1) 1 = 2 * k.
Proof. by rewrite <- lxor_even, Z.lxor_assoc, Z.lxor_nilpotent, Z.lxor_0_r. Qed.

Lemma land_even_odd k : Z.land (2 * k) (2 * k + 1) = 2 * k.
Proof.
  apply Z.bits_inj'. intros n Hn. rewrite Z.land_spec.
  destruct (Z.eq_dec n 0) as [->|]; [by rewrite Z.testbit_even_0|].
  replace n with (Z.succ (n - 1)) by lia.
  rewrite Z.testbit_even_succ, Z.testbit_odd_succ by lia. apply andb_diag.
Qed.

(** The two halves of a block are each other's buddies. *)
Lemma buddy_low p o : 0 <= o -> aligned p (o + 1) ->
  __find_buddy_pfn p o = p + 2 ^ o /\ Z.land (p + 2 ^ o) p = p.
Proof.
  intros Ho (m & Hm & ->). rewrite pow_S by lia. unfold __find_buddy_pfn.
  replace (m * (2 * 2 ^ o)) with (Z.shiftl (2 * m) o) by (rewrite Z.shiftl_mul_pow2 by lia; lia).
  replace (Z.shiftl (2 * m) o + 2 ^ o) with (Z.shiftl (2 * m + 1) o)
    by (rewrite !Z.shiftl_mul_pow2 by lia; lia).
  rewrite <- Z.shiftl_lxor, lxor_even. split; [done|].
  by rewrite <- Z.shiftl_land, Z.land_comm, land_even_odd.
Qed.

Lemma buddy_high p o : 0 <= o -> aligned p (o + 1) ->
  __find_buddy_pfn (p + 2 ^ o) o = p /\ Z.land p (p + 2 ^ o) = p.
Proof.
  intros Ho (m & Hm & ->). rewrite pow_S by lia. unfold __find_buddy_pfn.
  replace (m * (2 * 2 ^ o)) with (Z.shiftl (2 * m) o) by (rewrite Z.shiftl_mul_pow2 by lia; lia).
  replace (Z.shiftl (2 * m) o + 2 ^ o) with (Z.shiftl (2 * m + 1) o)
    by (rewrite !Z.shiftl_mul_pow2 by lia; lia).
  rewrite <- Z.shiftl_lxor, lxor_odd. split; [done|].
  by rewrite <- Z.shiftl_land, land_even_odd.
Qed.

(** A block and its buddy are the halves of the block they combine to. *)
Lemma buddy_cases p o : 0 <= o -> aligned p o ->
  let b := __find_buddy_pfn p o in
  let c := Z.land b p in
  aligned c (o + 1) /\ ((p = c /\ b = c + 2 ^ o) \/ (p = c + 2 ^ o /\ b = c)).
Proof.
  intros Ho (m & Hm & ->) b c.
  destruct (Z.Even_or_Odd m) as [[k ->]|[k ->]].
  - assert (Ha : aligned (2 * k * 2 ^ o) (o + 1)) by (exists k; rewrite pow_S by lia; lia).
    destruct (buddy_low _ o Ho Ha) as [Hb Hc]. unfold c, b in *. rewrite Hb, Hc. eauto.
  - set (q := k * 2 ^ (o + 1)). assert (Ha : aligned q (o + 1)) by (exists k; lia).
    assert (Hq : (2 * k + 1) * 2 ^ o = q + 2 ^ o) by (unfold q; rewrite pow_S by lia; lia).
    destruct (buddy_high q o Ho Ha) as [Hb Hc]. unfold c, b in *. rewrite Hq, Hb, Hc. eauto.
Qed.

Lemma aligned_nonneg p o : 0 <= o -> aligned p o -> 0 <= p.
Proof. intros Ho (m & Hm & ->). pose proof (pow_pos o Ho). nia. Qed.

Lemma aligned_le p o o' : 0 <= o' <= o -> aligned p o -> aligned p o'.
Proof.
  intros Ho (m & Hm & ->). exists (m * 2 ^ (o - o')).
  split; [pose proof (pow_pos (o - o')); nia|].
  rewrite <- Z.mul_assoc, <- Z.pow_add_r by lia. do 2 f_equal. lia.
Qed.

Lemma aligned_add p o o' : 0 <= o <= o' -> aligned p o -> aligned (p + 2 ^ o') o.
Proof.
  intros Ho (m & Hm & ->). exists (m + 2 ^ (o' - o)).
  split; [pose proof (pow_pos (o' - o)); lia|].
  rewrite Z.mul_add_distr_r, <- Z.pow_add_r by lia. do 2 f_equal. lia.
Qed.

Lemma aligned_mask p o : 0 <= o -> aligned p o -> Z.land p (pages o - 1) = 0.
Proof.
  intros Ho (m & Hm & ->). rewrite pages_pow by lia. replace (2 ^ o - 1) with (Z.ones o) by (rewrite Z.ones_equiv; lia).
  rewrite Z.land_ones by lia. apply Z.mod_mul. pose proof (pow_pos o Ho). lia.
Qed.

(** Aligned blocks overlap only if the smaller lies in the larger. *)
Lemma aligned_nested p o q o' : 0 <= o <= o' -> aligned p o -> aligned q o' ->
  (q <= p /\ p + 2 ^ o <= q + 2 ^ o') \/ p + 2 ^ o <= q \/ q + 2 ^ o' <= p.
Proof.
  intros Ho (m & Hm & ->) (k & Hk & ->).
  replace o' with (o + (o' - o)) by lia. rewrite Z.pow_add_r by lia.
  pose proof (pow_pos o) as H1. pose proof (pow_pos (o' - o)) as H2.
  set (a := 2 ^ o) in *. set (r := 2 ^ (o' - o)) in *.
  destruct (Z_lt_dec m (k * r)); [right; left; nia|].
  destruct (Z_lt_dec m ((k + 1) * r)); [left; nia|right; right; nia].
Qed.

(** ** Sums over the lists of an order *)
Lemma sum_list_with_S {A} (f g : A -> nat) t l :
  NoDup l -> t ∈ l -> f t = S (g t) -> (forall t', t' <> t -> f t' = g t') ->
  sum_list_with f l = S (sum_list_with g l).
Proof.
  intros Hnd Ht Hf Hne. induction Hnd as [|x l Hx Hnd IH]; [by apply elem_of_nil in Ht|].
  simpl. apply elem_of_cons in Ht as [->|Ht].
  - rewrite Hf. assert (sum_list_with f l = sum_list_with g l) as ->; [|done].
    clear -Hx Hne. induction l as [|y l IH]; [done|]. simpl. rewrite not_elem_of_cons in Hx.
    destruct Hx. rewrite (Hne y) by done. f_equal. auto.
  - rewrite (Hne x) by (by intros ->). rewrite IH by done. lia.
Qed.

Lemma sum_list_with_ext {A} (f g : A -> nat) l :
  (forall t, f t = g t) -> sum_list_with f l = sum_list_with g l.
Proof. intros Hfg. induction l as [|x l IH]; [done|]. simpl. by rewrite Hfg, IH. Qed.

Lemma length_filter_ne (p : Z) (l : list Z) : NoDup l -> p ∈ l -> length l = S (length (filter (fun q => q <> p) l)).
Proof.
  induction 1 as [|x l Hx Hnd IH]; intros Hp; [by apply elem_of_nil in Hp|].
  apply elem_of_cons in Hp as [->|Hp].
  - rewrite filter_cons_False by tauto. by rewrite filter_ne_id.
  - rewrite filter_cons_True by (by intros ->). simpl. by rewrite IH at 1.
Qed.

(** ** The invariant *)
Section Inv.
Context `{PageAllocConfig}.

Definition head (z : zone) (p o t : Z) : Prop := p ∈ free_list z o t.

(** All pages of a block belong to the zone. *)
Definition in_zone (z : zone) (p o : Z) : Prop := forall q, p <= q < p + 2 ^ o -> bad_range z q = false.

(** No page of a block is in use. *)
Definition unused (z : zone) (p o : Z) : Prop := forall q, p <= q < p + 2 ^ o -> page_count (mem_map z q) = 0.

Definition disjoint_blocks (p o q o' : Z) : Prop := p + 2 ^ o <= q \/ q + 2 ^ o' <= p.

Definition list_count (z : zone) (o : Z) : nat := sum_list_with (fun t => length (free_list z o t)) migratetypes.

Record wf (z : zone) : Prop := {
  wf_order p o t : head z p o t -> 0 <= o < MAX_ORDER;
  wf_type p o t : head z p o t -> 0 <= t < MIGRATE_TYPES;
  wf_aligned p o t : head z p o t -> aligned p o;
  wf_in_zone p o t : head z p o t -> in_zone z p o;
  wf_marked p o t : head z p o t ->
    PageBuddy (mem_map z p) = true /\ page_order z p = o;
  wf_block_unused p o t : head z p o t -> unused z p o;
  (** of all zones *)
  wf_unused p : PageBuddy (mem_map z p) = true -> page_count (mem_map z p) = 0;
  wf_listed p : PageBuddy (mem_map z p) = true -> page_zone_id p = zone_id z ->
    exists t, head z p (page_order z p) t;
  wf_nodup o t : NoDup (free_list z o t);
  wf_type_unique p o t t' : head z p o t -> head z p o t' -> t = t';
  wf_disjoint p o t q o' t' : head z p o t -> head z q o' t' -> p <> q -> disjoint_blocks p o q o';
  wf_nr_free o : 0 <= o < MAX_ORDER -> nr_free z o = Z.of_nat (list_count z o);
}.

(** A block of which no page is free. *)
Record clear (z : zone) (p o : Z) : Prop := {
  clear_order : 0 <= o < MAX_ORDER;
  clear_aligned : aligned p o;
  clear_in_zone : in_zone z p o;
  clear_disjoint q o' t : head z q o' t -> disjoint_blocks p o q o';
}.

Definition free_page (z : zone) (q : Z) : Prop := exists p o t, head z p o t /\ p <= q < p + 2 ^ o.

(** What no operation on the lists changes. *)
Record same_zone (z z' : zone) : Prop := {
  same_id : zone_id z' = zone_id z;
  same_start : zone_start_pfn z' = zone_start_pfn z;
  same_spanned : spanned_pages z' = spanned_pages z;
  same_init : initialized z' = initialized z;
  same_isolate : nr_isolate_pageblock z' = nr_isolate_pageblock z;
  same_count p : page_count (mem_map z' p) = page_count (mem_map z p);
  same_flags p : page_flags (mem_map z' p) = page_flags (mem_map z p);
  same_mapping p : page_mapping (mem_map z' p) = page_mapping (mem_map z p);
  same_mapcount p : page_mapcount (mem_map z' p) = page_mapcount (mem_map z p);
}.

(** The migrate types the pages are remembered with. *)
Definition same_index (z z' : zone) : Prop := forall p, get_pcppage_migratetype z' p = get_pcppage_migratetype z p.

#[global] Instance same_index_preorder : PreOrder same_index.
Proof using Type. split; [done|]. intros x y w H1 H2 p. by rewrite H2, H1. Qed.

#[global] Instance same_zone_preorder : PreOrder same_zone.
Proof using Type.
  split; [by split|]. intros x y w [] []. split; congruence.
Qed.

Lemma bad_range_same z z' q : same_zone z z' -> bad_range z' q = bad_range z q.
Proof using Type.
  intros []. unfold bad_range, page_outside_zone_boundaries, page_is_consistent, zone_spans_pfn, zone_end_pfn.
  by rewrite same_id0, same_start0, same_spanned0.
Qed.

Lemma in_zone_same z z' p o : same_zone z z' -> in_zone z p o -> in_zone z' p o.
Proof using Type. intros Hs Hz q Hq. rewrite (bad_range_same z) by done. by apply Hz. Qed.

Lemma unused_same z z' p o : same_zone z z' -> unused z p o -> unused z' p o.
Proof using Type. intros Hs Hu q Hq. rewrite (same_count _ _ Hs). by apply Hu. Qed.

Lemma head_order_unique z p o t o' t' : wf z -> head z p o t -> head z p o' t' -> o = o' /\ t = t'.
Proof using Type.
  intros Hwf H1 H2. destruct (wf_marked z Hwf _ _ _ H1) as [_ <-].
  destruct (wf_marked z Hwf _ _ _ H2) as [_ Ho]. subst o'. split; [done|]. by eapply wf_type_unique.
Qed.

(** The lists and descriptors are all that the invariant depends on. *)
Record same_lists (z z' : zone) : Prop := {
  lists_same : same_zone z z';
  lists_buddy p : PageBuddy (mem_map z' p) = PageBuddy (mem_map z p);
  lists_order p : page_order z' p = page_order z p;
  lists_free o t : free_list z' o t = free_list z o t;
  lists_nr o : nr_free z' o = nr_free z o;
}.

Lemma head_lists z z' p o t : same_lists z z' -> head z' p o t <-> head z p o t.
Proof using Type. intros []. unfold head. by rewrite lists_free0. Qed.

Lemma wf_lists z z' : same_lists z z' -> wf z -> wf z'.
Proof using Type.
  intros Hl Hwf. pose proof (lists_same _ _ Hl) as Hs.
  pose proof (fun p o t => proj1 (head_lists z z' p o t Hl)) as Hh.
  split.
  - intros p o t Hp%Hh. by eapply wf_order.
  - intros p o t Hp%Hh. by eapply wf_type.
  - intros p o t Hp%Hh. by eapply wf_aligned.
  - intros p o t Hp%Hh. eapply in_zone_same; [done|]. by eapply wf_in_zone.
  - intros p o t Hp%Hh. rewrite (lists_buddy _ _ Hl), (lists_order _ _ Hl). by eapply wf_marked.
  - intros p o t Hp%Hh. eapply unused_same; [done|]. by eapply wf_block_unused.
  - intros p. rewrite (lists_buddy _ _ Hl), (same_count _ _ Hs). by apply wf_unused.
  - intros p. rewrite (lists_buddy _ _ Hl), (same_id _ _ Hs), (lists_order _ _ Hl). intros Hb Hid.
    destruct (wf_listed z Hwf p Hb Hid) as [t Ht]. exists t. by apply (head_lists z).
  - intros o t. rewrite (lists_free _ _ Hl). by apply wf_nodup.
  - intros p o t t' H1%Hh H2%Hh. by eapply wf_type_unique.
  - intros p o t q o' t' H1%Hh H2%Hh. by eapply wf_disjoint.
  - intros o Ho. rewrite (lists_nr _ _ Hl), (wf_nr_free z Hwf) by done. f_equal.
    apply sum_list_with_ext. intros t. by rewrite (lists_free _ _ Hl).
Qed.

Lemma clear_lists z z' p o : same_lists z z' -> clear z p o -> clear z' p o.
Proof using Type.
  intros Hl []. split; [done|done| |].
  - eapply in_zone_same; [by destruct Hl|done].
  - intros q o' t Hq. rewrite (head_lists z) in Hq by done. by eapply clear_disjoint0.
Qed.

Lemma free_lists z z' q : same_lists z z' -> free_page z' q <-> free_page z q.
Proof using Type. intros Hl. unfold free_page. by setoid_rewrite (head_lists z z'). Qed.

(** ** Taking a block off of its list *)
Definition remove_block (z : zone) (p o : Z) : zone :=
  rmv_page_order (nr_free_dec
    (set_free_list z (fun o t => filter (fun q => q <> p) (free_list z o t))) o) p.

Lemma remove_same z p o : same_zone z (remove_block z p o).
Proof using Type.
  split; try done; intros q; simpl; unfold upd; destruct (Z.eqb_spec q p) as [->|]; try done;
    simpl; by rewrite Z.eqb_refl.
Qed.

Lemma remove_index z p o : same_index z (remove_block z p o).
Proof using Type.
  intros q. unfold get_pcppage_migratetype. simpl. unfold upd. destruct (Z.eqb_spec q p) as [->|]; [|done].
  simpl. by rewrite Z.eqb_refl.
Qed.

Lemma head_remove z p o q o' t : head (remove_block z p o) q o' t <-> head z q o' t /\ q <> p.
Proof using Type. unfold head. simpl. rewrite list_elem_of_filter. tauto. Qed.

Lemma mem_remove z p o q : q <> p -> mem_map (remove_block z p o) q = mem_map z q.
Proof using Type. intros Hq. simpl. unfold upd. by destruct (Z.eqb_spec q p). Qed.

Lemma buddy_remove z p o : PageBuddy (mem_map (remove_block z p o) p) = false.
Proof using Type. simpl. unfold upd. by rewrite !Z.eqb_refl. Qed.

Lemma count_remove z p o t o' : wf z -> head z p o t -> 0 <= o' < MAX_ORDER ->
  nr_free (remove_block z p o) o' = Z.of_nat (list_count (remove_block z p o) o').
Proof using Type.
  intros Hwf Hp Ho'. simpl. unfold upd. destruct (Z.eqb_spec o' o) as [->|Hne].
  - rewrite (wf_nr_free z Hwf) by done. unfold list_count.
    rewrite (sum_list_with_S (fun t => length (free_list z o t))
               (fun t => length (free_list (remove_block z p o) o t)) t).
    + lia.
    + apply NoDup_seqZ.
    + apply elem_of_seqZ. by apply (wf_type z Hwf) in Hp.
    + apply length_filter_ne; [by apply wf_nodup|done].
    + intros t' Ht'. simpl. rewrite filter_ne_id; [done|].
      intros Hin. apply Ht'. by eapply (wf_type_unique z Hwf).
  - rewrite (wf_nr_free z Hwf) by done. f_equal. unfold list_count.
    apply sum_list_with_ext. intros t'. cbn [free_list remove_block rmv_page_order set_page_private __SetPageBuddy
      nr_free_dec set_mem_map set_nr_free set_free_list]. rewrite filter_ne_id; [done|].
    intros Hin. apply Hne. by apply (head_order_unique z p o' t' o t).
Qed.

Lemma wf_remove z p o t : wf z -> head z p o t -> wf (remove_block z p o).
Proof using Type.
  intros Hwf Hp. pose proof (remove_same z p o) as Hs. split.
  - intros q o' t' [Hq _]%head_remove. by eapply wf_order.
  - intros q o' t' [Hq _]%head_remove. by eapply wf_type.
  - intros q o' t' [Hq _]%head_remove. by eapply wf_aligned.
  - intros q o' t' [Hq _]%head_remove. eapply in_zone_same; [done|]. by eapply wf_in_zone.
  - intros q o' t' [Hq Hne]%head_remove. unfold page_order. rewrite !mem_remove by done. by eapply wf_marked.
  - intros q o' t' [Hq _]%head_remove. eapply unused_same; [done|]. by eapply wf_block_unused.
  - intros q Hb. destruct (Z.eq_dec q p) as [->|Hne]; [by rewrite buddy_remove in Hb|].
    rewrite mem_remove in * by done. by apply wf_unused.
  - intros q Hb Hid. destruct (Z.eq_dec q p) as [->|Hne]; [by rewrite buddy_remove in Hb|].
    unfold page_order. rewrite mem_remove in * by done.
    destruct (wf_listed z Hwf q Hb Hid) as [t' Ht']. exists t'. by apply head_remove.
  - intros o' t'. apply list.NoDup_filter. by apply wf_nodup.
  - intros q o' t1 t2 [H1 _]%head_remove [H2 _]%head_remove. by eapply wf_type_unique.
  - intros q o' t1 r o2 t2 [H1 _]%head_remove [H2 _]%head_remove. by eapply wf_disjoint.
  - intros o'. by apply count_remove with t.
Qed.

Lemma clear_remove z p o t : wf z -> head z p o t -> clear (remove_block z p o) p o.
Proof using Type.
  intros Hwf Hp. split; [by eapply wf_order|by eapply wf_aligned| |].
  - eapply in_zone_same; [apply remove_same|]. by eapply wf_in_zone.
  - intros q o' t' [Hq Hne]%head_remove. by eapply wf_disjoint.
Qed.

Lemma clear_remove_other z p o q o' : clear z p o -> clear (remove_block z q o') p o.
Proof using Type.
  intros []. split; [done|done| |].
  - eapply in_zone_same; [apply remove_same|done].
  - intros r o2 t [Hr _]%head_remove. by eapply clear_disjoint0.
Qed.

Lemma free_remove z p o t q : wf z -> head z p o t ->
  free_page (remove_block z p o) q <-> free_page z q /\ ~ (p <= q < p + 2 ^ o).
Proof using Type.
  intros Hwf Hp. split.
  - intros (r & o' & t' & [Hr Hne]%head_remove & Hin). split; [by exists r, o', t'|].
    destruct (wf_disjoint z Hwf _ _ _ _ _ _ Hr Hp Hne); lia.
  - intros [(r & o' & t' & Hr & Hin) Hout]. exists r, o', t'. split; [|done]. apply head_remove. split; [done|].
    intros ->. destruct (head_order_unique z _ _ _ _ _ Hwf Hr Hp) as [-> _]. tauto.
Qed.

(** ** Putting a block on a list *)
Definition insert_block (tail : bool) (z : zone) (p o t : Z) : zone :=
  let z := set_page_order z p o in
  nr_free_inc (if tail then list_add_tail z p o t else list_add z p o t) o.

Lemma insert_same tail z p o t : same_zone z (insert_block tail z p o t).
Proof using Type.
  split; try (by destruct tail); intros q; destruct tail; simpl; unfold upd;
    destruct (Z.eqb_spec q p) as [->|]; try done; simpl; by rewrite Z.eqb_refl.
Qed.

Lemma insert_index tail z p o t : same_index z (insert_block tail z p o t).
Proof using Type.
  intros q. unfold get_pcppage_migratetype. destruct tail; simpl; unfold upd;
    (destruct (Z.eqb_spec q p) as [->|]; [|done]); simpl; by rewrite Z.eqb_refl.
Qed.

Lemma head_insert tail z p o t q o' t' :
  head (insert_block tail z p o t) q o' t' <-> head z q o' t' \/ (q = p /\ o' = o /\ t' = t).
Proof using Type.
  unfold head. destruct tail; simpl; unfold upd2;
    destruct (Z.eqb_spec o' o) as [->|], (Z.eqb_spec t' t) as [->|]; simpl;
    rewrite ?elem_of_app, ?elem_of_cons, ?elem_of_nil; tauto.
Qed.

Lemma mem_insert tail z p o t q : q <> p -> mem_map (insert_block tail z p o t) q = mem_map z q.
Proof using Type. intros Hq. destruct tail; simpl; unfold upd; by destruct (Z.eqb_spec q p). Qed.

Lemma marked_insert tail z p o t :
  let z' := insert_block tail z p o t in
  PageBuddy (mem_map z' p) = true /\ page_order z' p = o /\
  page_count (mem_map z' p) = page_count (mem_map z p).
Proof using Type. unfold page_order. destruct tail; simpl; unfold upd; by rewrite !Z.eqb_refl. Qed.

Lemma count_insert tail z p o t o' : wf z -> 0 <= t < MIGRATE_TYPES -> 0 <= o' < MAX_ORDER ->
  nr_free (insert_block tail z p o t) o' = Z.of_nat (list_count (insert_block tail z p o t) o').
Proof using Type.
  intros Hwf Ht Ho'.
  assert (Hnr : nr_free (insert_block tail z p o t) = upd (nr_free z) o (nr_free z o + 1))
    by (by destruct tail).
  rewrite Hnr. unfold upd. destruct (Z.eqb_spec o' o) as [->|Hne]; rewrite (wf_nr_free z Hwf) by done.
  - unfold list_count.
    rewrite (sum_list_with_S (fun t' => length (free_list (insert_block tail z p o t) o t'))
               (fun t' => length (free_list z o t')) t); [lia|apply NoDup_seqZ|by apply elem_of_seqZ| |].
    + destruct tail; simpl; unfold upd2; rewrite !Z.eqb_refl; simpl; [|done]. rewrite length_app. simpl. lia.
    + intros t' Hne. destruct tail; simpl; unfold upd2; rewrite Z.eqb_refl;
        by destruct (Z.eqb_spec t' t).
  - f_equal. unfold list_count. apply sum_list_with_ext. intros t'.
    destruct tail; cbn [insert_block free_list nr_free_inc set_nr_free list_add list_add_tail set_free_list
      set_page_order set_page_private __SetPageBuddy set_mem_map]; unfold upd2; by destruct (Z.eqb_spec o' o).
Qed.

(** A block no page of which is free is on no list. *)
Lemma clear_not_head z p o o' t : wf z -> clear z p o -> ~ head z p o' t.
Proof using Type.
  intros Hwf Hc Hp. pose proof (wf_order z Hwf _ _ _ Hp) as Ho'.
  pose proof (pow_pos o (proj1 (clear_order _ _ _ Hc))). pose proof (pow_pos o' (proj1 Ho')).
  destruct (clear_disjoint _ _ _ Hc _ _ _ Hp); lia.
Qed.

Lemma nodup_insert tail z p o t o' t' : wf z -> clear z p o ->
  NoDup (free_list (insert_block tail z p o t) o' t').
Proof using Type.
  intros Hwf Hc. assert (Hnd : NoDup (free_list z o' t')) by (by apply wf_nodup).
  destruct tail; simpl; unfold upd2; destruct (Z.eqb_spec o' o) as [->|]; simpl; try done;
    destruct (Z.eqb_spec t' t) as [->|]; simpl; try done;
    pose proof (clear_not_head z p o o t Hwf Hc) as Hnot.
  - apply list.NoDup_app. split_and!; [done| |apply NoDup_singleton].
    intros x Hx ->%list_elem_of_singleton. done.
  - by apply list.NoDup_cons.
Qed.

Lemma wf_insert tail z p o t : wf z -> clear z p o -> unused z p o ->
  0 <= t < MIGRATE_TYPES -> wf (insert_block tail z p o t).
Proof using Type.
  intros Hwf Hc Hcount Ht. pose proof (insert_same tail z p o t) as Hs.
  assert (Hne : forall q o' t', head z q o' t' -> q <> p).
  { intros q o' t' Hq ->. by eapply clear_not_head. }
  pose proof (fun q o' t' => proj1 (head_insert tail z p o t q o' t')) as Hhead.
  destruct (marked_insert tail z p o t) as (Hm1 & Hm2 & Hm3). split.
  - intros q o' t' [Hq|(-> & -> & ->)]%Hhead; [by eapply wf_order|by apply clear_order in Hc].
  - intros q o' t' [Hq|(-> & -> & ->)]%Hhead; [by eapply wf_type|done].
  - intros q o' t' [Hq|(-> & -> & ->)]%Hhead; [by eapply wf_aligned|by apply clear_aligned in Hc].
  - intros q o' t' Hq%Hhead. eapply in_zone_same; [done|].
    destruct Hq as [Hq|(-> & -> & ->)]; [by eapply wf_in_zone|by apply clear_in_zone in Hc].
  - intros q o' t' [Hq|(-> & -> & ->)]%Hhead; [|done].
    unfold page_order. rewrite !mem_insert by eauto. by eapply wf_marked.
  - intros q o' t' Hq%Hhead. eapply unused_same; [done|].
    destruct Hq as [Hq|(-> & -> & ->)]; [by eapply wf_block_unused|done].
  - intros q Hb. destruct (Z.eq_dec q p) as [->|Hqp].
    { rewrite Hm3. apply Hcount. pose proof (pow_pos o (proj1 (clear_order _ _ _ Hc))). lia. }
    rewrite mem_insert in * by done. by apply wf_unused.
  - intros q Hb Hid. destruct (Z.eq_dec q p) as [->|Hqp].
    + exists t. rewrite Hm2. apply head_insert. tauto.
    + unfold page_order. rewrite mem_insert in * by done. rewrite (same_id _ _ Hs) in Hid.
      destruct (wf_listed z Hwf q Hb Hid) as [t' Ht']. exists t'. apply head_insert. by left.
  - intros o' t'. by apply nodup_insert.
  - intros q o' t1 t2 H1%Hhead H2%Hhead.
    destruct H1 as [H1|(Hq1 & Ho1 & Ht1)], H2 as [H2|(Hq2 & Ho2 & Ht2)];
      [by eapply wf_type_unique|by destruct (Hne _ _ _ H1)|by destruct (Hne _ _ _ H2)|congruence].
  - intros q o1 t1 r o2 t2 [H1|(-> & -> & ->)]%Hhead [H2|(-> & -> & ->)]%Hhead Hqr; [by eapply wf_disjoint| | |done].
    + destruct (clear_disjoint _ _ _ Hc _ _ _ H1); [by right|by left].
    + by eapply clear_disjoint.
  - intros o' Ho'. by apply count_insert.
Qed.

Lemma clear_insert tail z p o t q o' : clear z q o' -> disjoint_blocks q o' p o ->
  clear (insert_block tail z p o t) q o'.
Proof using Type.
  intros [] Hd. split; [done|done| |].
  - eapply in_zone_same; [apply insert_same|done].
  - intros r o2 t2 [Hr|(-> & -> & ->)]%head_insert; [by eapply clear_disjoint0|done].
Qed.

Lemma free_insert tail z p o t q :
  free_page (insert_block tail z p o t) q <-> free_page z q \/ p <= q < p + 2 ^ o.
Proof using Type.
  split.
  - intros (r & o' & t' & [Hr|(-> & -> & ->)]%head_insert & Hin); [left; by exists r, o', t'|by right].
  - intros [(r & o' & t' & Hr & Hin)|Hin]; [exists r, o', t'|exists p, o, t];
      (split; [apply head_insert|done]); tauto.
Qed.

(** ** Coalescing *)

(** No two buddies below an order are free. *)
Definition coalesced (lim : Z) (z : zone) : Prop := forall p o t t',
  head z p o t -> o < lim -> ~ head z (__find_buddy_pfn p o) o t'.

Lemma coalesced_lists lim z z' : same_lists z z' -> coalesced lim z -> coalesced lim z'.
Proof using Type.
  intros Hl Hc p o t t'. rewrite !(head_lists z z') by done. apply Hc.
Qed.

Lemma coalesced_remove lim z p o : coalesced lim z -> coalesced lim (remove_block z p o).
Proof using Type.
  intros Hc q o' t t' [Hq _]%head_remove Ho [Hb _]%head_remove. exact (Hc _ _ _ _ Hq Ho Hb).
Qed.

Lemma buddy_involutive p o : __find_buddy_pfn (__find_buddy_pfn p o) o = p.
Proof using Type. unfold __find_buddy_pfn. by rewrite Z.lxor_assoc, Z.lxor_nilpotent, Z.lxor_0_r. Qed.

Lemma buddy_ne p o : 0 <= o -> aligned p o -> __find_buddy_pfn p o <> p.
Proof using Type.
  intros Ho Ha. pose proof (pow_pos o Ho). destruct (buddy_cases p o Ho Ha) as [_ [[]|[]]]; lia.
Qed.

Lemma coalesced_insert lim tail z p o t :
  coalesced lim z -> 0 <= o -> aligned p o ->
  (o < lim -> forall t', ~ head z (__find_buddy_pfn p o) o t') ->
  coalesced lim (insert_block tail z p o t).
Proof using Type.
  intros Hc Ho Ha Hb q o' t1 t2 Hq Hlt Hh. apply head_insert in Hq, Hh.
  destruct Hq as [Hq|(Hqp & Hop & _)], Hh as [Hh|(Heq & Ho' & _)]; subst.
  - exact (Hc _ _ _ _ Hq Hlt Hh).
  - rewrite buddy_involutive in Hb. exact (Hb Hlt _ Hq).
  - exact (Hb Hlt _ Hh).
  - by apply (buddy_ne p o).
Qed.

(** ** Reading the invariant off of the code's tests *)
Lemma listed_head z p o t : wf z -> head z p o t -> listed z p = true.
Proof using Type.
  intros Hwf Hp. apply existsb_exists. exists o. split.
  - apply list_elem_of_In, elem_of_seqZ. by apply (wf_order z Hwf) in Hp.
  - apply existsb_exists. exists t. split; [|by apply bool_decide_eq_true].
    apply list_elem_of_In, elem_of_seqZ. by apply (wf_type z Hwf) in Hp.
Qed.

Lemma list_del_head z p o t : wf z -> head z p o t ->
  list_del z p = Done (set_free_list z (fun o t => filter (fun q => q <> p) (free_list z o t))).
Proof using Type. intros Hwf Hp. unfold list_del. by rewrite (listed_head z p o t). Qed.

Lemma bad_range_false z q : bad_range z q = false ->
  zone_spans_pfn z q = true /\ pfn_valid_within q = true /\ page_zone_id q = zone_id z.
Proof using Type.
  unfold bad_range, page_outside_zone_boundaries, page_is_consistent.
  destruct (zone_spans_pfn z q), (pfn_valid_within q), (Z.eqb_spec (zone_id z) (page_zone_id q));
    simpl; intros; simplify_eq; done.
Qed.

Lemma in_zone_first z p o : 0 <= o -> in_zone z p o -> bad_range z p = false.
Proof using Type. intros Ho Hz. apply Hz. pose proof (pow_pos o Ho). lia. Qed.

Lemma page_is_buddy_head z p b o : wf z -> page_zone_id p = zone_id z ->
  exists r, page_is_buddy z p b o = Done r /\ (r = true <-> exists t, head z b o t).
Proof using Type.
  intros Hwf Hid. unfold page_is_buddy.
  destruct (PageBuddy (mem_map z b)) eqn:Hb; cbn [andb].
  2:{ exists false. split; [done|]. split; [done|]. intros [t Ht].
      by destruct (wf_marked z Hwf _ _ _ Ht) as [Hb' _]; rewrite Hb in Hb'. }
  destruct (Z.eqb_spec (page_order z b) o) as [Ho|Ho].
  2:{ exists false. split; [done|]. split; [done|]. intros [t Ht].
      by destruct (wf_marked z Hwf _ _ _ Ht). }
  destruct (Z.eqb_spec (page_zone_id p) (page_zone_id b)) as [He|He]; cbn [negb].
  - rewrite (wf_unused z Hwf b Hb). exists true. split; [done|]. split; [|done]. intros _.
    subst o. apply wf_listed; [done|done|congruence].
  - exists false. split; [done|]. split; [done|]. intros [t Ht]. destruct He.
    pose proof (wf_order z Hwf _ _ _ Ht).
    apply (wf_in_zone z Hwf), in_zone_first, bad_range_false in Ht; [|lia]. by destruct Ht as (_ & _ & ->).
Qed.

(** For pages of other zones as well the test stops nothing. *)
Lemma page_is_buddy_total z p b o : wf z -> exists r, page_is_buddy z p b o = Done r.
Proof using Type.
  intros Hwf. unfold page_is_buddy.
  destruct (PageBuddy (mem_map z b)) eqn:Hb; cbn [andb]; [|by eexists].
  destruct (_ =? o); [|by eexists]. destruct (negb (page_zone_id p =? _)); [by eexists|].
  rewrite (wf_unused z Hwf b Hb). by eexists.
Qed.

(** ** The number of free pages *)
Definition total (z : zone) : Z := foldr (fun o acc => nr_free z o * 2 ^ o + acc) 0 orders.

Lemma total_upd (f g : Z -> Z) o d : 0 <= o < MAX_ORDER ->
  (forall o', g o' = if o' =? o then f o' + d else f o') ->
  foldr (fun o acc => g o * 2 ^ o + acc) 0 orders = foldr (fun o acc => f o * 2 ^ o + acc) 0 orders + d * 2 ^ o.
Proof using Type.
  intros Ho Hg. assert (Hin : o ∈ orders) by (by apply elem_of_seqZ).
  assert (Hnd : NoDup orders) by apply NoDup_seqZ.
  revert Hin Hnd. generalize orders as l. induction l as [|x l IH]; intros Hin Hnd; [by apply elem_of_nil in Hin|].
  apply list.NoDup_cons in Hnd as [Hx Hnd]. cbn [foldr]. rewrite Hg. destruct (Z.eqb_spec x o) as [->|Hne].
  - assert (foldr (fun o acc => g o * 2 ^ o + acc) 0 l = foldr (fun o acc => f o * 2 ^ o + acc) 0 l) as ->; [|lia].
    clear -Hx Hg. induction l as [|y l IH]; [done|]. rewrite not_elem_of_cons in Hx. destruct Hx as [Hy Hl].
    cbn [foldr]. rewrite IH by done. rewrite Hg. by destruct (Z.eqb_spec y o).
  - apply elem_of_cons in Hin as [->|Hin]; [done|]. rewrite IH by done. lia.
Qed.

Lemma total_ext z z' : (forall o, nr_free z' o = nr_free z o) -> total z' = total z.
Proof using Type.
  intros Hn. unfold total. induction orders as [|x l IH]; [done|]. cbn [foldr]. by rewrite Hn, IH.
Qed.

Lemma total_remove z p o : 0 <= o < MAX_ORDER -> total (remove_block z p o) = total z - 2 ^ o.
Proof using Type.
  intros Ho. unfold total. rewrite (total_upd (nr_free z) _ o (-1)); [lia|done|].
  intros o'. simpl. unfold upd. destruct (Z.eqb_spec o' o) as [->|]; lia.
Qed.

Lemma total_insert tail z p o t : 0 <= o < MAX_ORDER -> total (insert_block tail z p o t) = total z + 2 ^ o.
Proof using Type.
  intros Ho. unfold total. rewrite (total_upd (nr_free z) _ o 1); [lia|done|].
  intros o'. destruct tail; simpl; unfold upd; destruct (Z.eqb_spec o' o) as [->|]; lia.
Qed.
End Inv.
