(* ===== verification/BuddyFree.v ===== *)
(** * Buddy allocator: freeing

    Freeing adds exactly the pages of the block to the free ones and merges
    buddies as far as they go. *)

From S2P Require Import Prelude Buddy BuddyInv.

Class PageAllocSpec `{PageAllocConfig} : Prop := {
  pageblock_order_range : 0 < pageblock_order < MAX_ORDER;
  (** sections hold blocks of the highest order *)
  section_shift_range : MAX_ORDER - 1 <= PFN_SECTION_SHIFT;
  is_migrate_isolate_type t : is_migrate_isolate t = (t =? MIGRATE_ISOLATE);
}.

Section Free.
Context `{PageAllocConfig}.

(** Counters that taking and putting blocks leaves alone. *)
Definition same_stat (z z' : zone) : Prop :=
  vm_free_pages z' = vm_free_pages z /\ vm_free_cma_pages z' = vm_free_cma_pages z /\
  pageblock_flags z' = pageblock_flags z.

#[global] Instance same_stat_preorder : PreOrder same_stat.
Proof using Type. split; [done|]. unfold same_stat. intros x y w (?&?&?) (?&?&?). split_and!; congruence. Qed.

Lemma remove_stat z p o : same_stat z (remove_block z p o).
Proof using Type. done. Qed.
Lemma insert_stat tail z p o t : same_stat z (insert_block tail z p o t).
Proof using Type. by destruct tail. Qed.

(** A block and its buddy, taken off of its list, make a block twice the size. *)
Lemma clear_combine z p o t :
  wf z -> clear z p o -> o + 1 < MAX_ORDER -> head z (__find_buddy_pfn p o) o t ->
  let z' := remove_block z (__find_buddy_pfn p o) o in
  let c := Z.land (__find_buddy_pfn p o) p in
  clear z' c (o + 1) /\
  (forall q, c <= q < c + 2 ^ (o + 1) <->
     p <= q < p + 2 ^ o \/ __find_buddy_pfn p o <= q < __find_buddy_pfn p o + 2 ^ o).
Proof using Type.
  intros Hwf Hc Ho Hb z' c.
  pose proof (clear_order _ _ _ Hc) as Hor. pose proof (clear_aligned _ _ _ Hc) as Ha.
  destruct (buddy_cases p o ltac:(lia) Ha) as [Hca Hcases]. fold c in Hca, Hcases.
  pose proof (clear_remove z _ _ _ Hwf Hb) as Hcb.
  pose proof (clear_remove_other z p o (__find_buddy_pfn p o) o Hc) as Hcp. fold z' in Hcb, Hcp.
  pose proof (pow_S o ltac:(lia)) as Hpow. pose proof (pow_pos o ltac:(lia)).
  set (b := __find_buddy_pfn p o) in *.
  assert (Hunion : forall q, c <= q < c + 2 ^ (o + 1) <-> p <= q < p + 2 ^ o \/ b <= q < b + 2 ^ o) by lia.
  split; [|exact Hunion]. split; [lia|done| |].
  - intros q [Hq|Hq]%Hunion; [by apply (clear_in_zone _ _ _ Hcp)|by apply (clear_in_zone _ _ _ Hcb)].
  - intros q o' t' Hq. pose proof (clear_disjoint _ _ _ Hcp _ _ _ Hq) as H1.
    pose proof (clear_disjoint _ _ _ Hcb _ _ _ Hq) as H2.
    assert (0 < 2 ^ o') by (apply head_remove in Hq as [Hq _]; apply (wf_order z Hwf) in Hq; apply pow_pos; lia).
    unfold disjoint_blocks in *. lia.
Qed.

(** What the merging loop reaches. *)
Record merged (lim : Z) (z : zone) (p o : Z) (z' : zone) (p' o' : Z) (b : option Z) : Prop := {
  merged_wf : wf z';
  merged_clear : clear z' p' o';
  merged_coalesced : coalesced lim z';
  merged_same : same_zone z z';
  merged_stat : same_stat z z';
  merged_unused : unused z' p' o';
  merged_pages q : free_page z' q \/ p' <= q < p' + 2 ^ o' <-> free_page z q \/ p <= q < p + 2 ^ o;
  merged_order : o <= o';
  merged_index : same_index z z';
  merged_total : total z' + 2 ^ o' = total z + 2 ^ o;
  merged_buddy t : o' < lim -> ~ head z' (__find_buddy_pfn p' o') o' t;
  merged_init : o' < MAX_ORDER - 2 -> is_Some b;
}.

Lemma merged_stop lim z p o b :
  wf z -> clear z p o -> coalesced lim z -> unused z p o ->
  (forall t, o < lim -> ~ head z (__find_buddy_pfn p o) o t) -> (o < MAX_ORDER - 2 -> is_Some b) ->
  merged lim z p o z p o b.
Proof using Type. intros. by split. Qed.

Lemma merged_step lim z p o t z' p' o' b :
  wf z -> clear z p o -> o + 1 < MAX_ORDER -> head z (__find_buddy_pfn p o) o t ->
  merged lim (remove_block z (__find_buddy_pfn p o) o) (Z.land (__find_buddy_pfn p o) p) (o + 1) z' p' o' b ->
  merged lim z p o z' p' o' b.
Proof using Type.
  intros Hwf Hc Ho Hb []. destruct (clear_combine z p o t Hwf Hc Ho Hb) as [_ Hunion].
  split; try done.
  - etrans; [apply remove_same|done].
  - intros q. rewrite merged_pages0, Hunion, (free_remove z _ _ t) by done.
    set (b0 := __find_buddy_pfn p o) in *.
    assert (Hin : b0 <= q < b0 + 2 ^ o -> free_page z q) by (intros; by exists b0, o, t).
    assert (b0 <= q < b0 + 2 ^ o \/ ~ (b0 <= q < b0 + 2 ^ o)) by lia. tauto.
  - lia.
  - etrans; [apply remove_index|done].
  - rewrite merged_total0, total_remove by exact (wf_order z Hwf _ _ _ Hb). pose proof (clear_order _ _ _ Hc).
    rewrite pow_S by lia. lia.
Qed.

Lemma combined_unused z p o t :
  wf z -> clear z p o -> o + 1 < MAX_ORDER -> head z (__find_buddy_pfn p o) o t -> unused z p o ->
  unused (remove_block z (__find_buddy_pfn p o) o) (Z.land (__find_buddy_pfn p o) p) (o + 1).
Proof using Type.
  intros Hwf Hc Ho Hb Hp. apply (unused_same z); [apply remove_same|].
  destruct (clear_combine z p o t Hwf Hc Ho Hb) as [_ Hunion].
  intros q [Hq|Hq]%Hunion; [by apply Hp|]. by apply (wf_block_unused z Hwf _ _ _ Hb).
Qed.

Lemma merge_ok lim migratetype : lim <= MAX_ORDER - 1 -> forall fuel z p o max_order b,
  wf z -> clear z p o -> coalesced lim z -> unused z p o ->
  max_order <= MAX_ORDER -> (has_isolate_pageblock (nr_isolate_pageblock z) = true -> lim <= max_order - 1) ->
  MAX_ORDER - o + (MAX_ORDER - max_order) < Z.of_nat fuel ->
  exists z' p' o' b', merge fuel z p o max_order migratetype b = Done (z', p', o', b') /\
    merged lim z p o z' p' o' b'.
Proof using Type.
  intros Hlim. induction fuel as [|fuel IH];
    intros z p o max_order b Hwf Hc Hco Hcount Hmax Hiso Hfuel;
    pose proof (clear_order _ _ _ Hc) as Hor; [lia|]. cbn [merge].
  destruct (Z.ltb_spec o (max_order - 1)) as [Hlt|Hge].
  - replace (p + (__find_buddy_pfn p o - p)) with (__find_buddy_pfn p o) by lia.
    assert (Hid : page_zone_id p = zone_id z).
    { eapply bad_range_false, in_zone_first; [|by apply (clear_in_zone _ _ _ Hc)]; lia. }
    destruct (pfn_valid_within (__find_buddy_pfn p o)) eqn:Hv; cbn [negb].
    2:{ do 4 eexists. split; [done|]. apply merged_stop; try done. intros t _ Ht.
        apply (wf_in_zone z Hwf), in_zone_first, bad_range_false in Ht; [|lia].
        destruct Ht as (_ & Hv' & _). by rewrite Hv in Hv'. }
    destruct (page_is_buddy_head z p (__find_buddy_pfn p o) o Hwf Hid) as (r & -> & Hr).
    cbn [mbind outcome_bind]. destruct r; cbn [negb].
    + destruct (proj1 Hr eq_refl) as [t Ht]. rewrite (list_del_head z _ o t) by done. cbn [mbind outcome_bind].
      change (rmv_page_order (nr_free_dec (set_free_list z _) o) _) with (remove_block z (__find_buddy_pfn p o) o).
      destruct (clear_combine z p o t Hwf Hc ltac:(lia) Ht) as [Hcc _].
      destruct (IH (remove_block z (__find_buddy_pfn p o) o) (Z.land (__find_buddy_pfn p o) p) (o + 1) max_order
                  (Some (__find_buddy_pfn p o))) as (z' & p' & o' & b' & -> & Hm);
        [by eapply wf_remove|done|by apply coalesced_remove|eapply combined_unused; [done|done|lia|done|done]|done|done|lia|].
      do 4 eexists. split; [done|]. eapply merged_step; [done|done|lia|done|done].
    + do 4 eexists. split; [done|]. apply merged_stop; try done. intros t _ Ht.
      discriminate (proj2 Hr (ex_intro _ t Ht)).
  - destruct (Z.ltb_spec max_order MAX_ORDER) as [Hlt|Hge'].
    2:{ do 4 eexists. split; [done|]. apply merged_stop; try done; intros; lia. }
    destruct (has_isolate_pageblock (nr_isolate_pageblock z)) eqn:Hi.
    2:{ apply IH; try done; [lia|by rewrite Hi|lia]. }
    destruct (_ && _).
    + do 4 eexists. split; [done|]. apply merged_stop; try done. intros. specialize (Hiso eq_refl). lia.
    + apply IH; try done; [lia|intros; specialize (Hiso eq_refl); lia|lia].
Qed.

Lemma add_to_tail_total z p o b : wf z -> (o < MAX_ORDER - 2 -> is_Some b) ->
  exists r, add_to_tail (set_page_order z p o) p o b = Done r.
Proof using Type.
  intros Hwf Hb. unfold add_to_tail. destruct (Z.ltb_spec o (MAX_ORDER - 2)); [|by eexists].
  destruct (Hb ltac:(lia)) as [b' ->]. destruct (pfn_valid_within b'); [|by eexists].
  set (c := Z.land b' p). set (h := __find_buddy_pfn c (o + 1)).
  destruct (pfn_valid_within h); [|by eexists].
  replace (p + (c - p) + (h - c)) with h by lia. replace (p + (c - p)) with c by lia.
  destruct (Z.eq_dec h p) as [Heq|Hne].
  - rewrite Heq. unfold page_is_buddy, page_order. simpl. unfold upd. rewrite !Z.eqb_refl. simpl.
    destruct (Z.eqb_spec o (o + 1)); [lia|]. by eexists.
  - assert (Hmem : mem_map (set_page_order z p o) h = mem_map z h).
    { simpl. unfold upd. by destruct (Z.eqb_spec h p). }
    destruct (page_is_buddy_total z c h (o + 1) Hwf) as [r Hr]. exists r. rewrite <- Hr.
    unfold page_is_buddy, page_order. by rewrite Hmem.
Qed.

(** Up to which order buddies are merged: an isolated block stays apart from
    its neighbours. *)
Definition merge_limit (z : zone) : Z :=
  if has_isolate_pageblock (nr_isolate_pageblock z)
  then Z.min MAX_ORDER (pageblock_order + 1) - 1 else MAX_ORDER - 1.

Lemma merge_limit_same z z' : same_zone z z' -> merge_limit z' = merge_limit z.
Proof using Type. intros Hs. unfold merge_limit. by rewrite (same_isolate _ _ Hs). Qed.

Lemma mod_state_lists z n t : same_lists z (__mod_zone_freepage_state z n t).
Proof using Type. unfold __mod_zone_freepage_state. by destruct (is_migrate_cma t). Qed.

(** A block that may be freed. *)
Record freeable (z : zone) (p o : Z) : Prop := {
  freeable_clear : clear z p o;
  freeable_unused : unused z p o;
  freeable_flags : Z.land (page_flags (mem_map z p)) PAGE_FLAGS_CHECK_AT_PREP = 0;
}.

(** What the free pages and the counters are afterwards. *)
Record freed (z : zone) (p o t : Z) (z' : zone) : Prop := {
  freed_wf : wf z';
  freed_coalesced : coalesced (merge_limit z) z';
  freed_same : same_zone z z';
  freed_pages q : free_page z' q <-> free_page z q \/ p <= q < p + 2 ^ o;
  freed_nr : vm_free_pages z' = vm_free_pages z + if is_migrate_isolate t then 0 else 2 ^ o;
  freed_cma : vm_free_cma_pages z' = vm_free_cma_pages z +
    if negb (is_migrate_isolate t) && is_migrate_cma t then 2 ^ o else 0;
  freed_flags : pageblock_flags z' = pageblock_flags z;
  freed_index : same_index z z';
  freed_total : total z' = total z + 2 ^ o;
}.

End Free.

Section FreePage.
Context `{PageAllocSpec}.

Lemma __free_one_page_ok z p o t :
  wf z -> initialized z = true -> coalesced (merge_limit z) z -> freeable z p o ->
  0 <= t < MIGRATE_TYPES ->
  exists z', __free_one_page z p o t = Done z' /\ freed z p o t z'.
Proof using All.
  intros Hwf Hinit Hco [Hc Hcount Hflags] Ht. unfold __free_one_page.
  rewrite Hinit, Hflags. cbn [negb BUG_ON mbind outcome_bind]. change (bool_of 0) with false.
  destruct (Z.eqb_spec t (-1)); [lia|]. cbn [BUG_ON mbind outcome_bind].
  pose proof (clear_order _ _ _ Hc) as Ho.
  rewrite aligned_mask by (lia || by apply (clear_aligned _ _ _ Hc)). change (bool_of 0) with false.
  set (z0 := if negb (is_migrate_isolate t) then _ else z).
  assert (Hl : same_lists z z0) by (unfold z0; destruct (negb _); [apply mod_state_lists|done]).
  pose proof (wf_lists z z0 Hl Hwf) as Hwf0. pose proof (clear_lists z z0 p o Hl Hc) as Hc0.
  cbn [BUG_ON mbind outcome_bind].
  rewrite (in_zone_first z0 p o) by (lia || by apply clear_in_zone). cbn [BUG_ON mbind outcome_bind].
  set (lim := merge_limit z) in *.
  assert (Hlim : lim <= MAX_ORDER - 1) by (unfold lim, merge_limit; destruct (has_isolate_pageblock _); lia).
  destruct (merge_ok lim t Hlim merge_fuel z0 p o (Z.min MAX_ORDER (pageblock_order + 1)) None)
    as (z1 & p1 & o1 & b1 & -> & []);
    [done|done|by eapply coalesced_lists|eapply unused_same; [apply (lists_same _ _ Hl)|done]|lia| | |].
  { rewrite (same_isolate _ _ (lists_same _ _ Hl)). intros Hi. unfold lim, merge_limit. rewrite Hi. lia. }
  { pose proof pageblock_order_range. change (Z.of_nat merge_fuel) with 23. change MAX_ORDER with 11 in *. lia. }
  cbn [mbind outcome_bind].
  destruct (add_to_tail_total z1 p1 o1 b1 merged_wf0 merged_init0) as [tail ->]. cbn [mbind outcome_bind].
  change (nr_free_inc _ _) with (insert_block tail z1 p1 o1 t). eexists. split; [done|].
  destruct merged_stat0 as (Hv & Hcma & Hpb). destruct (insert_stat tail z1 p1 o1 t) as (Hv' & Hcma' & Hpb').
  assert (Ho1 : 0 <= o1) by apply (clear_order _ _ _ merged_clear0).
  split.
  - by apply wf_insert.
  - apply coalesced_insert; [done|lia|by apply clear_aligned in merged_clear0|]. intros Hlt t'. by apply merged_buddy0.
  - etrans; [apply (lists_same _ _ Hl)|]. etrans; [done|apply insert_same].
  - intros q. rewrite free_insert, merged_pages0. by rewrite (free_lists z z0).
  - rewrite Hv', Hv. unfold z0, __mod_zone_freepage_state. rewrite pages_pow by lia.
    destruct (is_migrate_isolate t); simpl; [lia|]. by destruct (is_migrate_cma t).
  - rewrite Hcma', Hcma. unfold z0, __mod_zone_freepage_state. rewrite pages_pow by lia.
    destruct (is_migrate_isolate t); simpl; [lia|]. destruct (is_migrate_cma t); simpl; lia.
  - rewrite Hpb', Hpb. unfold z0, __mod_zone_freepage_state.
    destruct (is_migrate_isolate t); simpl; [done|]. by destruct (is_migrate_cma t).
  - etrans; [|etrans; [exact merged_index0|apply insert_index]].
    unfold z0, __mod_zone_freepage_state. destruct (is_migrate_isolate t); simpl; [done|]. by destruct (is_migrate_cma t).
  - rewrite total_insert, merged_total0 by (by apply clear_order in merged_clear0).
    rewrite (total_ext z z0); [done|]. intros o'. apply (lists_nr _ _ Hl).
Qed.
End FreePage.
