(* ===== verification/BuddyAlloc.v ===== *)
(** * Buddy allocator: allocation from the free lists

    Allocation takes an aligned block out of the smallest that is large enough
    and gives the rest back. *)

From S2P Require Import Prelude Buddy BuddyInv BuddyFree.

Section Alloc.
Context `{PageAllocConfig}.

Lemma clear_sub z p o q o' : clear z p o -> 0 <= o' <= o -> aligned q o' -> p <= q -> q + 2 ^ o' <= p + 2 ^ o ->
  clear z q o'.
Proof using Type.
  intros [Ho _ Hz Hd] Ho' Ha Hl Hr. split; [lia|done| |].
  - intros r Hr'. apply Hz. lia.
  - intros r o2 t Hh. destruct (Hd _ _ _ Hh); [left|right]; lia.
Qed.

Lemma unused_sub z p o q o' : unused z p o -> p <= q -> q + 2 ^ o' <= p + 2 ^ o -> unused z q o'.
Proof using Type. intros Hu Hl Hr r Hin. apply Hu. lia. Qed.

(** What is left of a block after its upper parts were given back. *)
Record split_off (lim : Z) (z : zone) (p high low : Z) (z' : zone) : Prop := {
  split_wf : wf z';
  split_clear : clear z' p low;
  split_coalesced : coalesced lim z';
  split_same : same_zone z z';
  split_stat : same_stat z z';
  split_pages q : free_page z' q <-> free_page z q \/ p + 2 ^ low <= q < p + 2 ^ high;
  split_index : same_index z z';
  split_total : total z' = total z + 2 ^ high - 2 ^ low;
}.

Lemma expand_ok lim t : 0 <= t < MIGRATE_TYPES -> forall n z p high size,
  wf z -> clear z p high -> unused z p high -> coalesced lim z ->
  size = 2 ^ high -> Z.of_nat n <= high ->
  exists z', expand_loop n z p high size t = Done z' /\ split_off lim z p high (high - Z.of_nat n) z'.
Proof using Type.
  intros Ht. induction n as [|n IH]; intros z p high size Hwf Hc Hu Hco -> Hn; cbn [expand_loop].
  { exists z. split; [done|]. rewrite Z.sub_0_r. split; try done; [|lia].
    intros q. split; [tauto|]. intros [Hq|Hq]; [done|lia]. }
  pose proof (clear_order _ _ _ Hc) as Ho. pose proof (clear_aligned _ _ _ Hc) as Ha.
  set (h := high - 1). replace high with (h + 1) in * by (unfold h; lia).
  pose proof (pow_S h ltac:(lia)) as Hpow. pose proof (pow_pos h ltac:(lia)) as Hpos.
  assert (Hsize : Z.shiftr (2 ^ (h + 1)) 1 = 2 ^ h).
  { rewrite Z.shiftr_div_pow2, Hpow by lia. change (2 ^ 1) with 2. rewrite Z.mul_comm. by apply Z.div_mul. }
  rewrite Hsize. replace (h + 1 - 1) with h by lia.
  assert (Hlow : aligned p h) by (apply (aligned_le p (h + 1)); [lia|done]).
  assert (Hup : aligned (p + 2 ^ h) h) by (apply aligned_add; [lia|done]).
  rewrite (in_zone_first z (p + 2 ^ h) h);
    [|lia|intros q Hq; apply (clear_in_zone _ _ _ Hc); lia].
  cbn [BUG_ON mbind outcome_bind].
  change (set_page_order (nr_free_inc (list_add z (p + 2 ^ h) h t) h) (p + 2 ^ h) h)
    with (insert_block false z (p + 2 ^ h) h t).
  set (z1 := insert_block false z (p + 2 ^ h) h t).
  assert (Hcu : clear z (p + 2 ^ h) h) by (apply (clear_sub z p (h + 1)); [done|lia|done|lia|lia]).
  assert (Hcl : clear z1 p h).
  { apply clear_insert; [apply (clear_sub z p (h + 1)); [done|lia|done|lia|lia]|left; lia]. }
  destruct (IH z1 p h (2 ^ h)) as (z' & -> & []).
  - apply wf_insert; [done|done|apply (unused_sub z p (h + 1)); [done|lia|lia]|done].
  - done.
  - apply (unused_same z); [apply insert_same|apply (unused_sub z p (h + 1)); [done|lia|lia]].
  - apply coalesced_insert; [done|lia|done|]. intros _ t'.
    destruct (buddy_high p h ltac:(lia) Ha) as [-> _]. by eapply clear_not_head.
  - done.
  - lia.
  - exists z'. split; [done|].
    replace (h + 1 - Z.of_nat (S n)) with (h - Z.of_nat n) by lia. split; try done.
    + etrans; [apply insert_same|done].
    + intros q. rewrite split_pages0. unfold z1. rewrite free_insert.
      assert (2 ^ (h - Z.of_nat n) <= 2 ^ h) by (apply Z.pow_le_mono_r; lia).
      rewrite Hpow. split; [intros [[|]|]; [tauto|right; lia..]|].
      intros [|Hq]; [tauto|]. destruct (Z_lt_dec q (p + 2 ^ h)); [right; lia|left; right; lia].
    + etrans; [apply insert_index|done].
    + rewrite split_total0. unfold z1. rewrite total_insert by (by apply (clear_order _ _ _ Hcu)). lia.
Qed.

(** A block taken out of the free pages. *)
Record taken (lim : Z) (z : zone) (p o : Z) (z' : zone) : Prop := {
  taken_wf : wf z';
  taken_coalesced : coalesced lim z';
  taken_same : same_zone z z';
  taken_stat : same_stat z z';
  taken_clear : clear z' p o;
  taken_unused : unused z' p o;
  taken_was_free q : p <= q < p + 2 ^ o -> free_page z q;
  taken_pages q : free_page z' q <-> free_page z q /\ ~ (p <= q < p + 2 ^ o);
  taken_index q : q <> p -> get_pcppage_migratetype z' q = get_pcppage_migratetype z q;
  taken_total : total z' = total z - 2 ^ o;
}.

Lemma pcppage_lists z p t : same_lists z (set_pcppage_migratetype z p t).
Proof using Type.
  split; try done; [split; try done|..]; intros q; unfold page_order; simpl; unfold upd;
    by destruct (Z.eqb_spec q p) as [->|].
Qed.

Lemma taken_lists lim z p o z' z'' : same_lists z' z'' -> same_stat z' z'' ->
  (forall q, q <> p -> get_pcppage_migratetype z'' q = get_pcppage_migratetype z' q) ->
  taken lim z p o z' -> taken lim z p o z''.
Proof using Type.
  intros Hl Hst Hix []. split.
  - by eapply wf_lists.
  - by eapply coalesced_lists.
  - etrans; [done|by destruct Hl].
  - by etrans.
  - by eapply clear_lists.
  - eapply unused_same; [by destruct Hl|done].
  - done.
  - intros q. by rewrite (free_lists z' z'').
  - intros q Hq. rewrite Hix by done. auto.
  - rewrite (total_ext z' z''); [done|apply (lists_nr _ _ Hl)].
Qed.

(** Taking the front of a list and splitting it. *)
Lemma take_front lim z p c o t : wf z -> coalesced lim z -> head z p c t -> 0 <= o <= c ->
  exists z', expand (nr_free_dec (rmv_page_order
      (set_free_list z (fun o t => filter (fun q => q <> p) (free_list z o t))) p) c) p o c t = Done z' /\
    taken lim z p o z'.
Proof using Type.
  intros Hwf Hco Hp Ho. unfold expand.
  change (nr_free_dec (rmv_page_order (set_free_list z _) p) c) with (remove_block z p c).
  pose proof (clear_remove z p c t Hwf Hp) as Hc. pose proof (clear_order _ _ _ Hc) as Hor.
  assert (Hu : unused (remove_block z p c) p c).
  { apply (unused_same z); [apply remove_same|]. by eapply wf_block_unused. }
  destruct (expand_ok lim t (wf_type z Hwf _ _ _ Hp) (Z.to_nat (c - o)) (remove_block z p c) p c (pages c))
    as (z' & -> & []);
    [by eapply wf_remove|done|done|by apply coalesced_remove|apply pages_pow; lia|lia|].
  exists z'. split; [done|].
  replace (c - Z.of_nat (Z.to_nat (c - o))) with o in * by lia.
  assert (2 ^ o <= 2 ^ c) by (apply Z.pow_le_mono_r; lia).
  split; try done.
  - etrans; [apply remove_same|done].
  - apply (unused_same _ _ _ _ split_same0). apply (unused_sub _ p c); [done|lia|lia].
  - intros q Hq. exists p, c, t. split; [done|lia].
  - intros q. rewrite split_pages0, (free_remove z p c t) by done.
    assert (Hin : p <= q < p + 2 ^ c -> free_page z q) by (intros; by exists p, c, t).
    pose proof (pow_pos o ltac:(lia)).
    split; [intros [[Hq Hn]|Hq]; (split; [|lia]); [done|apply Hin; lia]|]. intros [Hq Hn].
    destruct (decide (p <= q < p + 2 ^ c)); [right; lia|left; auto].
  - intros q _. by rewrite split_index0, remove_index.
  - rewrite split_total0, total_remove by done. lia.
Qed.

Lemma rmqueue_smallest_loop_ok lim z order t : wf z -> coalesced lim z -> 0 <= order ->
  forall n c, n = Z.to_nat (MAX_ORDER - c) -> order <= c ->
  (exists c' p l z', c <= c' < MAX_ORDER /\ free_list z c' t = p :: l /\
     (forall c2, c <= c2 < c' -> free_list z c2 t = []) /\
     rmqueue_smallest_loop n z order c t = Done (z', Some p) /\
     taken lim z p order z' /\ get_pcppage_migratetype z' p = t) \/
  ((forall c2, c <= c2 < MAX_ORDER -> free_list z c2 t = []) /\
   rmqueue_smallest_loop n z order c t = Done (z, None)).
Proof using Type.
  intros Hwf Hco Horder n. induction n as [|n IH]; intros c Hn Hc; cbn [rmqueue_smallest_loop].
  { right. split; [|done]. intros; lia. }
  destruct (free_list z c t) as [|p l] eqn:Hl.
  - destruct (IH (c + 1) ltac:(lia) ltac:(lia)) as [(c' & p & l & z' & Hc' & Hl' & Hmin & Hr)|[Hnone Hr]].
    + left. exists c', p, l, z'. split; [lia|]. split; [done|]. split; [|done]. intros c2 Hc2.
      destruct (Z.eq_dec c2 c) as [->|]; [done|]. apply Hmin. lia.
    + right. split; [|done]. intros c2 Hc2. destruct (Z.eq_dec c2 c) as [->|]; [done|]. apply Hnone. lia.
  - left. assert (Hp : head z p c t) by (unfold head; rewrite Hl; apply list_elem_of_here).
    rewrite (list_del_head z p c t) by done. cbn [mbind outcome_bind].
    destruct (take_front lim z p c order t Hwf Hco Hp ltac:(lia)) as (z' & -> & Ht). cbn [mbind outcome_bind].
    exists c, p, l, (set_pcppage_migratetype z' p t).
    split; [pose proof (wf_order z Hwf _ _ _ Hp); lia|]. split; [done|]. split; [intros; lia|].
    split; [done|]. split.
    { eapply taken_lists; [apply pcppage_lists|done| |done]. intros q Hq.
      unfold get_pcppage_migratetype. simpl. unfold upd. by destruct (Z.eqb_spec q p). }
    unfold get_pcppage_migratetype. simpl. unfold upd. by rewrite Z.eqb_refl.
Qed.
End Alloc.
