(* ===== verification/BuddySteal.v ===== *)
(** * Buddy allocator: falling back to other migrate types

    When the lists of a migrate type have no block that is large enough, the
    code of [src/new/mm/page_alloc.c] modelled here moves one of another type,
    and possibly the free pages around it, to the lists that were asked. *)

From S2P Require Import Prelude Buddy.

(** [fallbacks[migratetype]]; entries that are not given are 0. *)
Definition fallbacks (migratetype : Z) : list Z :=
  if migratetype =? MIGRATE_UNMOVABLE then [MIGRATE_RECLAIMABLE; MIGRATE_MOVABLE; MIGRATE_TYPES; 0]
  else if migratetype =? MIGRATE_MOVABLE then [MIGRATE_RECLAIMABLE; MIGRATE_UNMOVABLE; MIGRATE_TYPES; 0]
  else if migratetype =? MIGRATE_RECLAIMABLE then [MIGRATE_UNMOVABLE; MIGRATE_MOVABLE; MIGRATE_TYPES; 0]
  else if migratetype =? MIGRATE_CMA then [MIGRATE_TYPES; 0; 0; 0]
  else if migratetype =? MIGRATE_ISOLATE then [MIGRATE_TYPES; 0; 0; 0]
  else if migratetype =? MIGRATE_HIGHATOMIC then [0; 0; 0; 0]
  else [].

Definition list_empty (l : list Z) : bool := match l with [] => true | _ => false end.

Section Steal.
Context `{PageAllocConfig}.

(** ** Moving the free pages of a range *)
Fixpoint move_freepages_loop (fuel : nat) (z : zone) (page end_page migratetype : Z)
    (pages_moved num_movable : Z) : outcome (zone * Z * Z) :=
  match fuel with
  | O => NoFuel
  | S fuel =>
      if page <=? end_page then
        if negb (pfn_valid_within page)
        then move_freepages_loop fuel z (page + 1) end_page migratetype pages_moved num_movable
        else
          _ ← BUG_ON (negb (page_to_nid page =? zone_to_nid (zone_id z)));
          if negb (PageBuddy (mem_map z page)) then
            let num_movable :=
              if PageLRU (page_flags (mem_map z page)) || __PageMovable (page_mapping (mem_map z page))
              then num_movable + 1 else num_movable in
            move_freepages_loop fuel z (page + 1) end_page migratetype pages_moved num_movable
          else
            let order := page_order z page in
            z ← list_move z page order migratetype;
            move_freepages_loop fuel z (page + pages order) end_page migratetype
              (pages_moved + pages order) num_movable
      else Done (z, pages_moved, num_movable)
  end.
(** Every turn moves on by a page at least. *)
Definition move_freepages (z : zone) (start_page end_page migratetype num_movable : Z) : outcome (zone * Z * Z) :=
  move_freepages_loop (Z.to_nat (end_page - start_page + 2)) z start_page end_page migratetype 0 num_movable.

(** The zone, the number of pages moved and [num_movable], which is not null. *)
Definition move_freepages_block (z : zone) (page migratetype : Z) : outcome (zone * Z * Z) :=
  let num_movable := 0 in
  let start_pfn := Z.land page (u64 (Z.lnot (pageblock_nr_pages - 1))) in
  let start_page := start_pfn in
  let end_page := start_page + pageblock_nr_pages - 1 in
  let end_pfn := start_pfn + pageblock_nr_pages - 1 in
  let start_page := if negb (zone_spans_pfn z start_pfn) then page else start_page in
  if negb (zone_spans_pfn z end_pfn) then Done (z, 0, num_movable)
  else move_freepages z start_page end_page migratetype num_movable.

Fixpoint change_pageblock_loop (nr_pageblocks : nat) (z : zone) (pageblock_page migratetype : Z) : outcome zone :=
  match nr_pageblocks with
  | O => Done z
  | S nr_pageblocks =>
      z ← set_pageblock_migratetype z pageblock_page migratetype;
      change_pageblock_loop nr_pageblocks z (pageblock_page + pageblock_nr_pages) migratetype
  end.
Definition change_pageblock_range (z : zone) (pageblock_page start_order migratetype : Z) : outcome zone :=
  change_pageblock_loop (Z.to_nat (Z.shiftl 1 (start_order - pageblock_order))) z pageblock_page migratetype.

(** ** Stealing *)
Definition can_steal_fallback (order start_mt : Z) : bool :=
  if order >=? pageblock_order then true
  else if (order >=? pageblock_order / 2) || (start_mt =? MIGRATE_RECLAIMABLE) ||
          (start_mt =? MIGRATE_UNMOVABLE) || page_group_by_mobility_disabled
  then true else false.

Definition mult_frac (x numer denom : Z) : Z :=
  let quot := x / denom in
  let rem := x mod denom in
  u64 (u64 (quot * numer) + u64 (rem * numer) / denom).

Definition boost_watermark (z : zone) : zone :=
  if watermark_boost_factor =? 0 then z
  else
    let max_boost := mult_frac (wmark_high z) watermark_boost_factor 10000 in
    if max_boost =? 0 then z
    else
      let max_boost := Z.max pageblock_nr_pages max_boost in
      set_boost z (Z.min (u64 (watermark_boost z + pageblock_nr_pages)) max_boost) (boosted_watermark z).

Definition steal_suitable_fallback (z : zone) (page alloc_flags start_type : Z) (whole_block : bool) : outcome zone :=
  let current_order := page_order z page in
  let single_page z := list_move z page current_order start_type in
  let old_block_type := get_pageblock_migratetype z page in
  if is_migrate_highatomic old_block_type then single_page z
  else if current_order >=? pageblock_order then
    z ← change_pageblock_range z page current_order start_type;
    single_page z
  else
    let z := boost_watermark z in
    let z := if bool_of (Z.land alloc_flags ALLOC_KSWAPD) then set_boost z (watermark_boost z) true else z in
    if negb whole_block then single_page z
    else
      r ← move_freepages_block z page start_type;
      let '(z, free_pages, movable_pages) := r in
      let alike_pages :=
        if start_type =? MIGRATE_MOVABLE then movable_pages
        else if old_block_type =? MIGRATE_MOVABLE then pageblock_nr_pages - (free_pages + movable_pages)
        else 0 in
      if free_pages =? 0 then single_page z
      else if (free_pages + alike_pages >=? Z.shiftl 1 (pageblock_order - 1)) || page_group_by_mobility_disabled
      then set_pageblock_migratetype z page start_type
      else Done z.

(** [fallback_mt] and [*can_steal] *)
Fixpoint find_fallback_loop (row : list Z) (z : zone) (order migratetype : Z) (only_stealable can_steal : bool)
    : outcome (Z * bool) :=
  match row with
  | [] => Bug
  | fallback_mt :: row =>
      if fallback_mt =? MIGRATE_TYPES then Done (-1, can_steal)
      else if list_empty (free_list z order fallback_mt)
      then find_fallback_loop row z order migratetype only_stealable can_steal
      else
        let can_steal := if can_steal_fallback order migratetype then true else can_steal in
        if negb only_stealable then Done (fallback_mt, can_steal)
        else if can_steal then Done (fallback_mt, can_steal)
        else find_fallback_loop row z order migratetype only_stealable can_steal
  end.
Definition find_suitable_fallback (z : zone) (order migratetype : Z) (only_stealable can_steal : bool)
    : outcome (Z * bool) :=
  if nr_free z order =? 0 then Done (-1, can_steal)
  else find_fallback_loop (fallbacks migratetype) z order migratetype only_stealable false.

(** Where the search for the largest block ends. *)
Inductive fallback_choice :=
| NoFallback
| FindSmallest (can_steal : bool)
| DoSteal (current_order fallback_mt : Z) (can_steal : bool).

(** [n] is [current_order - min_order + 1]. *)
Fixpoint find_largest_loop (n : nat) (z : zone) (order current_order start_migratetype : Z) (can_steal : bool)
    : outcome fallback_choice :=
  match n with
  | O => Done NoFallback
  | S n =>
      r ← find_suitable_fallback z current_order start_migratetype false can_steal;
      let '(fallback_mt, can_steal) := r in
      if fallback_mt =? -1 then find_largest_loop n z order (current_order - 1) start_migratetype can_steal
      else if negb can_steal && (start_migratetype =? MIGRATE_MOVABLE) && (current_order >? order)
      then Done (FindSmallest can_steal)
      else Done (DoSteal current_order fallback_mt can_steal)
  end.
(** [n] is [MAX_ORDER - current_order]; [VM_BUG_ON(current_order == MAX_ORDER)] at the end. *)
Fixpoint find_smallest_loop (n : nat) (z : zone) (current_order start_migratetype : Z) (can_steal : bool)
    : outcome (Z * Z * bool) :=
  match n with
  | O => Bug
  | S n =>
      r ← find_suitable_fallback z current_order start_migratetype false can_steal;
      let '(fallback_mt, can_steal) := r in
      if negb (fallback_mt =? -1) then Done (current_order, fallback_mt, can_steal)
      else find_smallest_loop n z (current_order + 1) start_migratetype can_steal
  end.

Definition do_steal (z : zone) (current_order fallback_mt start_migratetype alloc_flags : Z) (can_steal : bool)
    : outcome (zone * bool) :=
  match free_list z current_order fallback_mt with
  | [] => Bug
  | page :: _ =>
      z ← steal_suitable_fallback z page alloc_flags start_migratetype can_steal;
      Done (z, true)
  end.

Definition __rmqueue_fallback (z : zone) (order start_migratetype alloc_flags : Z) : outcome (zone * bool) :=
  let min_order := if bool_of (Z.land alloc_flags ALLOC_NOFRAGMENT) then pageblock_order else order in
  choice ← find_largest_loop (Z.to_nat (MAX_ORDER - min_order)) z order (MAX_ORDER - 1) start_migratetype false;
  match choice with
  | NoFallback => Done (z, false)
  | FindSmallest can_steal =>
      r ← find_smallest_loop (Z.to_nat (MAX_ORDER - order)) z order start_migratetype can_steal;
      let '(current_order, fallback_mt, can_steal) := r in
      do_steal z current_order fallback_mt start_migratetype alloc_flags can_steal
  | DoSteal current_order fallback_mt can_steal =>
      do_steal z current_order fallback_mt start_migratetype alloc_flags can_steal
  end.

(** [goto retry] *)
Fixpoint __rmqueue (fuel : nat) (z : zone) (order migratetype alloc_flags : Z) : outcome (zone * option Z) :=
  match fuel with
  | O => NoFuel
  | S fuel =>
      r ← __rmqueue_smallest z order migratetype;
      let '(z, page) := r in
      match page with
      | Some page => Done (z, Some page)
      | None =>
          r ← (if migratetype =? MIGRATE_MOVABLE then __rmqueue_cma_fallback z order else Done (z, None));
          let '(z, page) := r in
          match page with
          | Some page => Done (z, Some page)
          | None =>
              r ← __rmqueue_fallback z order migratetype alloc_flags;
              let '(z, found) := r in
              if found : bool then __rmqueue fuel z order migratetype alloc_flags else Done (z, None)
          end
      end
  end.
(** One turn per free block and two more: a retry either finds what was moved, or has moved one block
    more to the lists of [migratetype]; see [rmqueue_spec]. *)
Definition free_blocks (z : zone) : nat := sum_list_with (fun o => Z.to_nat (nr_free z o)) orders.
Definition rmqueue_fuel (z : zone) : nat := S (S (free_blocks z)).

(** The list of the caller, the number of pages put there and the pages removed
    from the buddy system; [check_pcp_refill] is false. *)
Fixpoint rmqueue_bulk_loop (n : nat) (z : zone) (order i alloced : Z) (l : list Z) (migratetype alloc_flags : Z)
    : outcome (zone * list Z * Z * Z) :=
  match n with
  | O => Done (z, l, alloced, i)
  | S n =>
      r ← __rmqueue (rmqueue_fuel z) z order migratetype alloc_flags;
      let '(z, page) := r in
      match page with
      | None => Done (z, l, alloced, i)
      | Some page =>
          let l := l ++ [page] in
          let z := if is_migrate_cma (get_pcppage_migratetype z page)
                   then set_vm_stat z (vm_free_pages z) (vm_free_cma_pages z - pages order) else z in
          rmqueue_bulk_loop n z order (i + 1) (alloced + 1) l migratetype alloc_flags
      end
  end.
Definition rmqueue_bulk (z : zone) (order count : Z) (l : list Z) (migratetype alloc_flags : Z)
    : outcome (zone * list Z * Z) :=
  r ← rmqueue_bulk_loop (Z.to_nat count) z order 0 0 l migratetype alloc_flags;
  let '(z, l, alloced, i) := r in
  let z := set_vm_stat z (vm_free_pages z - Z.shiftl i order) (vm_free_cma_pages z) in
  Done (z, l, alloced).

End Steal.
