(* ===== verification/BuddyBlocks.v ===== *)
(** * Buddy allocator: the pageblock bitmap

    Four bits per pageblock, packed into words from the top: what is written for
    one block is read back for it and leaves the others alone. *)

From S2P Require Import Prelude Buddy.

(** ** Bit fields of a word *)
Definition get_field (word s m : Z) : Z := Z.land (Z.shiftr word s) m.
Definition put_field (word s m f : Z) : Z :=
  Z.lor (Z.land word (u64 (Z.lnot (u64 (Z.shiftl m s))))) (u64 (Z.shiftl f s)).

Lemma testbit_u64 x i : 0 <= i < 64 -> Z.testbit (u64 x) i = Z.testbit x i.
Proof.
  intros Hi. unfold u64. rewrite <- Z.land_ones by lia.
  rewrite Z.land_spec, Z.ones_spec_low by lia. apply andb_true_r.
Qed.

(** [testbit_put]: a field of [w] bits at [s] is the new value, the other bits
    stay. *)
Lemma testbit_put word s w f i : 0 <= s -> 0 <= w -> 0 <= f < 2 ^ w -> 0 <= i < 64 ->
  Z.testbit (put_field word s (Z.ones w) f) i =
  if (s <=? i) && (i <? s + w) then Z.testbit f (i - s) else Z.testbit word i.
Proof.
  intros Hs Hw Hf Hi. unfold put_field.
  rewrite Z.lor_spec, Z.land_spec, !testbit_u64, Z.lnot_spec, testbit_u64, !Z.shiftl_spec by lia.
  destruct (Z.leb_spec s i) as [Hsi|Hsi]; simpl.
  2:{ by rewrite !(Z.testbit_neg_r _ (i - s)), orb_false_r, andb_true_r by lia. }
  destruct (Z.ltb_spec i (s + w)).
  - rewrite Z.ones_spec_low by lia. by rewrite andb_false_r.
  - rewrite Z.ones_spec_high by lia. simpl. rewrite andb_true_r.
    replace (Z.testbit f (i - s)) with false; [apply orb_false_r|]. symmetry.
    destruct (Z.eq_dec f 0) as [->|]; [apply Z.bits_0|].
    apply Z.bits_above_log2; [lia|]. apply Z.log2_lt_pow2; [lia|].
    apply Z.lt_le_trans with (2 ^ w); [lia|]. apply Z.pow_le_mono_r; lia.
Qed.

Lemma testbit_get word s w i : 0 <= s -> 0 <= w -> 0 <= i ->
  Z.testbit (get_field word s (Z.ones w)) i = if i <? w then Z.testbit word (i + s) else false.
Proof.
  intros Hs Hw Hi. unfold get_field. rewrite Z.land_spec, Z.shiftr_spec by lia.
  destruct (Z.ltb_spec i w); [rewrite Z.ones_spec_low by lia; apply andb_true_r|].
  rewrite Z.ones_spec_high by lia. apply andb_false_r.
Qed.

Lemma get_put_same word s w f : 0 <= s -> 0 <= w -> s + w <= 64 -> 0 <= f < 2 ^ w ->
  get_field (put_field word s (Z.ones w) f) s (Z.ones w) = f.
Proof.
  intros Hs Hw Hsw Hf. apply Z.bits_inj'. intros i Hi. rewrite testbit_get by lia.
  destruct (Z.ltb_spec i w).
  - rewrite testbit_put by lia. replace (i + s - s) with i by lia.
    destruct (Z.leb_spec s (i + s)), (Z.ltb_spec (i + s) (s + w)); simpl; (done || lia).
  - symmetry. destruct (Z.eq_dec f 0) as [->|]; [apply Z.bits_0|].
    apply Z.bits_above_log2; [lia|]. apply Z.log2_lt_pow2; [lia|].
    apply Z.lt_le_trans with (2 ^ w); [lia|]. apply Z.pow_le_mono_r; lia.
Qed.

Lemma get_put_other word s w f s' w' : 0 <= s -> 0 <= w -> 0 <= s' -> 0 <= w' -> s' + w' <= 64 ->
  0 <= f < 2 ^ w -> s + w <= s' \/ s' + w' <= s ->
  get_field (put_field word s (Z.ones w) f) s' (Z.ones w') = get_field word s' (Z.ones w').
Proof.
  intros Hs Hw Hs' Hw' Hsw Hf Hd. apply Z.bits_inj'. intros i Hi. rewrite !testbit_get by lia.
  destruct (Z.ltb_spec i w'); [|done]. rewrite testbit_put by lia.
  destruct (Z.leb_spec s (i + s')), (Z.ltb_spec (i + s') (s + w)); simpl; (done || lia).
Qed.

(** ** Blocks and their bits *)
Section Blocks.
Context `{PageAllocConfig}.
Hypotheses (Hpb : 0 <= pageblock_order <= PFN_SECTION_SHIFT).

Definition block_idx (p : Z) : Z := p mod 2 ^ PFN_SECTION_SHIFT / 2 ^ pageblock_order.

Lemma bitidx_block p : pfn_to_bitidx p = 4 * block_idx p.
Proof using Hpb.
  unfold pfn_to_bitidx, PAGES_PER_SECTION, block_idx.
  replace (Z.shiftl 1 PFN_SECTION_SHIFT - 1) with (Z.ones PFN_SECTION_SHIFT)
    by (rewrite Z.ones_equiv, Z.shiftl_mul_pow2 by lia; lia).
  rewrite Z.land_ones, Z.shiftr_div_pow2 by lia. change NR_PAGEBLOCK_BITS with 4. lia.
Qed.

(** Section and index make up the number of the block. *)
Lemma same_block p q : 0 <= p -> 0 <= q ->
  Z.shiftr p pageblock_order = Z.shiftr q pageblock_order <->
  pfn_to_section_nr p = pfn_to_section_nr q /\ block_idx p = block_idx q.
Proof using Hpb.
  intros Hp Hq. unfold pfn_to_section_nr, block_idx. rewrite !Z.shiftr_div_pow2 by lia.
  set (a := 2 ^ pageblock_order). set (r := 2 ^ (PFN_SECTION_SHIFT - pageblock_order)).
  assert (Hsplit : 2 ^ PFN_SECTION_SHIFT = a * r)
    by (unfold a, r; rewrite <- Z.pow_add_r by lia; f_equal; lia).
  assert (0 < a) by (apply Z.pow_pos_nonneg; lia). assert (0 < r) by (apply Z.pow_pos_nonneg; lia).
  rewrite Hsplit.
  assert (Hx : forall x, 0 <= x -> x / a = x / (a * r) * r + x mod (a * r) / a /\ 0 <= x mod (a * r) / a < r).
  { intros x Hx. pose proof (Z.div_mod x (a * r) ltac:(nia)) as Hdm.
    pose proof (Z.mod_pos_bound x (a * r) ltac:(nia)). split.
    - rewrite Hdm at 1. replace (a * r * (x / (a * r)) + x mod (a * r)) with (x mod (a * r) + x / (a * r) * r * a) by lia.
      rewrite Z.div_add by lia. lia.
    - split; [apply Z.div_pos; lia|apply Z.div_lt_upper_bound; lia]. }
  destruct (Hx p Hp) as [-> Hp'], (Hx q Hq) as [-> Hq']. split; [|intros [-> ->]; done].
  intros Heq. assert (Hd : p / (a * r) = q / (a * r)) by nia. rewrite Hd in *. split; [done|lia].
Qed.

Lemma bit_in_word n : Z.land (4 * n) (BITS_PER_LONG - 1) = 4 * (n mod 16) /\ 4 * n / BITS_PER_LONG = n / 16.
Proof using Type.
  change (BITS_PER_LONG - 1) with (Z.ones 6). rewrite Z.land_ones by lia. change BITS_PER_LONG with (4 * 16).
  change (2 ^ 6) with (4 * 16). rewrite Z.mul_mod_distr_l, Z.div_mul_cancel_l by lia. done.
Qed.

(** A field that ends at bit [e] of the four bits of a block. *)
Definition field_shift (p e : Z) : Z := 63 - 4 * (block_idx p mod 16) - e.

Lemma get_flags_field z p e m :
  __get_pfnblock_flags_mask z p e m =
  get_field (pageblock_flags z (pfn_to_section_nr p) (block_idx p / 16)) (field_shift p e) m.
Proof using Hpb.
  unfold __get_pfnblock_flags_mask. rewrite bitidx_block.
  destruct (bit_in_word (block_idx p)) as [-> ->]. unfold get_field, field_shift. do 2 f_equal.
  change BITS_PER_LONG with 64. lia.
Qed.

Lemma set_flags_field z p e m f : zone_spans_pfn z p = true ->
  set_pfnblock_flags_mask z f p e m =
  let s := pfn_to_section_nr p in
  let w := block_idx p / 16 in
  Done (set_bitmap z (upd (pageblock_flags z) s (upd (pageblock_flags z s) w
    (put_field (pageblock_flags z s w) (field_shift p e) m f)))).
Proof using Hpb.
  intros Hs. unfold set_pfnblock_flags_mask. rewrite Hs, bitidx_block.
  destruct (bit_in_word (block_idx p)) as [-> ->]. cbn [negb BUG_ON mbind outcome_bind].
  unfold put_field, field_shift. change BITS_PER_LONG with 64.
  by replace (64 - (4 * (block_idx p mod 16) + e) - 1) with (63 - 4 * (block_idx p mod 16) - e) by lia.
Qed.

(** Writing a field of [w] bits and reading one of [w'] bits. *)
Lemma get_set_flags z p q e w f e' w' z' : 0 <= p -> 0 <= q ->
  0 <= e <= 3 -> 0 < w <= e + 1 -> 0 <= e' <= 3 -> 0 < w' <= e' + 1 -> 0 <= f < 2 ^ w ->
  (e' < e - w + 1 \/ e < e' - w' + 1 \/ (e' = e /\ w' = w)) ->
  zone_spans_pfn z p = true -> set_pfnblock_flags_mask z f p e (Z.ones w) = Done z' ->
  __get_pfnblock_flags_mask z' q e' (Z.ones w') =
  if (Z.shiftr q pageblock_order =? Z.shiftr p pageblock_order) && (e' =? e) then f
  else __get_pfnblock_flags_mask z q e' (Z.ones w').
Proof using Hpb.
  intros Hp Hq He Hw He' Hw' Hf Hdis Hs Hset. rewrite (set_flags_field z p e _ f Hs) in Hset.
  cbn zeta in Hset. injection Hset as <-.
  rewrite !get_flags_field. cbn [pageblock_flags set_bitmap]. unfold upd.
  pose proof (Z.mod_pos_bound (block_idx p) 16 ltac:(lia)). pose proof (Z.mod_pos_bound (block_idx q) 16 ltac:(lia)).
  pose proof (Z.div_mod (block_idx p) 16). pose proof (Z.div_mod (block_idx q) 16).
  destruct (Z.eqb_spec (Z.shiftr q pageblock_order) (Z.shiftr p pageblock_order)) as [Hb|Hb].
  - apply same_block in Hb as [Hsec Hidx]; [|done|done]. rewrite Hsec, Hidx, !Z.eqb_refl. unfold field_shift.
    rewrite Hidx. simpl. destruct (Z.eqb_spec e' e) as [->|].
    + assert (w' = w) as -> by lia. apply get_put_same; lia.
    + apply get_put_other; lia.
  - simpl. destruct (Z.eqb_spec (pfn_to_section_nr q) (pfn_to_section_nr p)) as [Hsec|]; [|done].
    destruct (Z.eqb_spec (block_idx q / 16) (block_idx p / 16)) as [Hword|]; [|by rewrite Hsec].
    rewrite Hsec, Hword. assert (Hne : block_idx p <> block_idx q).
    { intros Heq. apply Hb, same_block; [done|done|]. by rewrite Hsec, Heq. }
    unfold field_shift. apply get_put_other; lia.
Qed.

Lemma set_flags_Done z f p e m : zone_spans_pfn z p = true ->
  exists z', set_pfnblock_flags_mask z f p e m = Done z'.
Proof using Hpb. intros Hs. rewrite set_flags_field by done. by eexists. Qed.
End Blocks.
