(* ===== verification/BuddyFallback.v ===== *)
(** * Buddy allocator: the fallback keeps the free pages

    Stealing moves blocks between the lists of migrate types and nothing else,
    and leaves a block that is large enough where the allocation looks next. *)

From S2P Require Import Prelude Buddy BuddyInv BuddyFree BuddyAlloc BuddySteal BuddyBlocks.

Section Fallback.
Context `{PageAllocSpec}.

(** Zones do not interleave. *)
Record contiguous (z : zone) : Prop := {
  contiguous_start : 0 <= zone_start_pfn z;
  contiguous_end : zone_end_pfn z <= 2 ^ 64;
  contiguous_zone q : zone_spans_pfn z q = true -> pfn_valid_within q = true -> page_zone_id q = zone_id z;
  contiguous_node q : zone_spans_pfn z q = true -> pfn_valid_within q = true ->
    page_to_nid q = zone_to_nid (zone_id z);
}.

Lemma spans_same z z' q : same_zone z z' -> zone_spans_pfn z' q = zone_spans_pfn z q.
Proof using Type.
  intros Hs. unfold zone_spans_pfn, zone_end_pfn. by rewrite (same_start _ _ Hs), (same_spanned _ _ Hs).
Qed.

Lemma contiguous_same z z' : same_zone z z' -> contiguous z -> contiguous z'.
Proof using Type.
  intros Hs [H1 H2 H3 H4]. unfold zone_end_pfn in *.
  split; unfold zone_end_pfn; rewrite ?(same_start _ _ Hs), ?(same_spanned _ _ Hs); try done;
    intros q; rewrite (spans_same z z' q Hs), (same_id _ _ Hs); auto.
Qed.

(** Every pageblock has a type. *)
Definition types_ok (z : zone) : Prop :=
  forall q, 0 <= q -> 0 <= get_pageblock_migratetype z q < MIGRATE_TYPES.

Lemma types_flags z z' : pageblock_flags z' = pageblock_flags z -> types_ok z -> types_ok z'.
Proof using Type.
  intros Hf Ht q Hq. unfold get_pageblock_migratetype, __get_pfnblock_flags_mask. rewrite Hf. by apply Ht.
Qed.

(** The same blocks, on the lists of whatever type. *)
Record restocked (z z' : zone) : Prop := {
  restocked_wf : wf z';
  restocked_same : same_zone z z';
  restocked_nr : vm_free_pages z' = vm_free_pages z;
  restocked_cma : vm_free_cma_pages z' = vm_free_cma_pages z;
  restocked_index : same_index z z';
  restocked_types : types_ok z -> types_ok z';
  restocked_nr_free o : nr_free z' o = nr_free z o;
  restocked_heads p o : (exists t, head z' p o t) <-> (exists t, head z p o t);
}.

Lemma restocked_refl z : wf z -> restocked z z.
Proof using Type. intros. by split. Qed.

Lemma restocked_trans z z' z'' : restocked z z' -> restocked z' z'' -> restocked z z''.
Proof using Type.
  intros [] []. split; [done|by etrans|congruence|congruence|by etrans|auto|congruence|].
  intros p o. by rewrite restocked_heads1.
Qed.

Lemma restocked_lists z z' z'' : restocked z z' -> same_lists z' z'' ->
  vm_free_pages z'' = vm_free_pages z' -> vm_free_cma_pages z'' = vm_free_cma_pages z' ->
  same_index z' z'' -> (types_ok z' -> types_ok z'') -> restocked z z''.
Proof using Type.
  intros [] Hl Hv Hc Hi Ht.
  split; [by eapply wf_lists|etrans; [done|by destruct Hl]|congruence|congruence|by etrans|auto| |].
  { intros o. by rewrite (lists_nr _ _ Hl). }
  intros p o. rewrite <- restocked_heads0. by setoid_rewrite (head_lists z' z'').
Qed.

Lemma restocked_free z z' q : restocked z z' -> free_page z' q <-> free_page z q.
Proof using Type.
  intros []. split; intros (p & o & t & Hp & Hin).
  - destruct (proj1 (restocked_heads0 p o)) as [t' Ht']; [by exists t|]. by exists p, o, t'.
  - destruct (proj2 (restocked_heads0 p o)) as [t' Ht']; [by exists t|]. by exists p, o, t'.
Qed.

Lemma restocked_coalesced lim z z' : restocked z z' -> coalesced lim z -> coalesced lim z'.
Proof using Type.
  intros [] Hco p o t t' Hp Ho Hb.
  destruct (proj1 (restocked_heads0 p o)) as [t1 H1]; [by exists t|].
  destruct (proj1 (restocked_heads0 (__find_buddy_pfn p o) o)) as [t2 H2]; [by exists t'|].
  exact (Hco _ _ _ _ H1 Ho H2).
Qed.

(** ** Moving a block to another list *)
Lemma list_move_ok z p o t t' : wf z -> head z p o t -> 0 <= t' < MIGRATE_TYPES ->
  exists z', list_move z p o t' = Done z' /\ restocked z z' /\ same_stat z z' /\
    forall q o' t2, head z' q o' t2 <-> (q <> p /\ head z q o' t2) \/ (q = p /\ o' = o /\ t2 = t').
Proof using Type.
  intros Hwf Hp Ht'. unfold list_move. rewrite (list_del_head z p o t) by done. cbn [mbind outcome_bind].
  set (z1 := set_free_list z _). set (z2 := insert_block false (remove_block z p o) p o t').
  assert (Hwf2 : wf z2).
  { apply wf_insert; [by eapply wf_remove|by eapply clear_remove| |done].
    apply (unused_same z); [apply remove_same|]. by eapply wf_block_unused. }
  assert (Hl : same_lists z2 (list_add z1 p o t')).
  { destruct (wf_marked z Hwf _ _ _ Hp) as [Hb Ho]. unfold page_order in Ho. split.
    - split; try done; intros q; simpl; unfold upd; destruct (Z.eqb_spec q p) as [->|]; simpl;
        rewrite ?Z.eqb_refl; done.
    - intros q. simpl. unfold upd. destruct (Z.eqb_spec q p) as [->|]; simpl; done.
    - intros q. unfold page_order. simpl. unfold upd. destruct (Z.eqb_spec q p) as [->|]; simpl;
        rewrite ?Z.eqb_refl; done.
    - done.
    - intros o'. simpl. unfold upd. destruct (Z.eqb_spec o' o) as [->|]; simpl; [|done].
      rewrite Z.eqb_refl. lia. }
  exists (list_add z1 p o t'). split; [done|].
  assert (Hh : forall q o' t2, head (list_add z1 p o t') q o' t2 <->
            (q <> p /\ head z q o' t2) \/ (q = p /\ o' = o /\ t2 = t')).
  { intros q o' t2. rewrite (head_lists z2) by done. unfold z2. rewrite head_insert, head_remove. tauto. }
  split; [|by split_and!]. split; [by eapply wf_lists| |done|done|done|by apply types_flags|done|].
  - split; try done.
  - intros q o'. split; intros [t2 H2].
    + apply Hh in H2. destruct H2 as [[_ H2]|(-> & -> & _)]; eauto.
    + destruct (Z.eq_dec q p) as [->|Hne].
      * destruct (head_order_unique z _ _ _ _ _ Hwf H2 Hp) as [-> _]. exists t'. apply Hh. tauto.
      * exists t2. apply Hh. tauto.
Qed.

(** The number of blocks on the lists of a type. *)
Definition type_count (z : zone) (t : Z) : nat := sum_list_with (fun o => length (free_list z o t)) orders.

Lemma type_count_lists z z' t : same_lists z z' -> type_count z' t = type_count z t.
Proof using Type. intros Hl. apply sum_list_with_ext. intros o. by rewrite (lists_free _ _ Hl). Qed.

Lemma list_move_count z z' p o t t' : wf z -> head z p o t -> t <> t' -> list_move z p o t' = Done z' ->
  type_count z' t' = S (type_count z t').
Proof using Type.
  intros Hwf Hp Hne. unfold list_move. rewrite (list_del_head z p o t) by done. intros [= <-].
  assert (Hid : forall o', filter (fun q => q <> p) (free_list z o' t') = free_list z o' t').
  { intros o'. apply filter_ne_id. intros Hin. destruct (head_order_unique z _ _ _ _ _ Hwf Hp Hin) as [-> ->]. done. }
  unfold type_count. apply (sum_list_with_S _ _ o); [apply NoDup_seqZ|apply elem_of_seqZ; by apply (wf_order z Hwf) in Hp| |].
  - simpl. unfold upd2. rewrite !Z.eqb_refl. cbn [andb length]. by rewrite Hid.
  - intros o' Ho'. simpl. unfold upd2. destruct (Z.eqb_spec o' o); [done|]. cbn [andb]. by rewrite Hid.
Qed.

Lemma type_count_le z t : wf z -> 0 <= t < MIGRATE_TYPES -> (type_count z t <= free_blocks z)%nat.
Proof using Type.
  intros Hwf Ht. unfold type_count, free_blocks.
  assert (Hall : forall o, o ∈ orders -> (length (free_list z o t) <= Z.to_nat (nr_free z o))%nat).
  { intros o Ho%elem_of_seqZ. rewrite (wf_nr_free z Hwf), Nat2Z.id by lia.
    assert (Hin : t ∈ migratetypes) by (by apply elem_of_seqZ). unfold list_count.
    induction migratetypes as [|x l IH]; [by apply elem_of_nil in Hin|].
    cbn [sum_list_with]. apply elem_of_cons in Hin as [->|Hin]; [lia|]. specialize (IH Hin). lia. }
  induction orders as [|o l IH]; [done|]. cbn [sum_list_with].
  pose proof (Hall o ltac:(apply list_elem_of_here)). specialize (IH ltac:(intros; apply Hall; by apply list_elem_of_further)). lia.
Qed.

Lemma head_spans z p o t q : wf z -> head z p o t -> p <= q < p + 2 ^ o ->
  zone_spans_pfn z q = true /\ pfn_valid_within q = true /\ page_zone_id q = zone_id z.
Proof using Type. intros Hwf Hp Hq. apply bad_range_false. by apply (wf_in_zone z Hwf _ _ _ Hp). Qed.

(** ** Moving the free pages of a range *)
Lemma move_loop_ok migratetype end_page : 0 <= migratetype < MIGRATE_TYPES ->
  forall fuel z page moved movable,
  wf z -> contiguous z -> (forall q, page <= q <= end_page -> zone_spans_pfn z q = true) ->
  Z.max 0 (end_page - page + 1) < Z.of_nat fuel ->
  exists z' moved' movable',
    move_freepages_loop fuel z page end_page migratetype moved movable = Done (z', moved', movable') /\
    restocked z z' /\ same_stat z z' /\
    (forall p o, head z p o migratetype -> head z' p o migratetype) /\
    (forall p o t, page <= p <= end_page -> head z p o t -> head z' p o migratetype).
Proof using Type.
  intros Hmt. induction fuel as [|fuel IH]; intros z page moved movable Hwf Hcont Hspan Hfuel; [lia|].
  cbn [move_freepages_loop]. destruct (Z.leb_spec page end_page) as [Hle|Hgt].
  2:{ do 3 eexists. split; [done|]. split; [by apply restocked_refl|]. split; [done|]. split; [done|].
      intros; lia. }
  assert (Hskip : (forall o t, ~ head z page o t) ->
    forall moved movable, exists z' moved' movable',
      move_freepages_loop fuel z (page + 1) end_page migratetype moved movable = Done (z', moved', movable') /\
      restocked z z' /\ same_stat z z' /\
      (forall p o, head z p o migratetype -> head z' p o migratetype) /\
      (forall p o t, page <= p <= end_page -> head z p o t -> head z' p o migratetype)).
  { intros Hno moved1 movable1.
    destruct (IH z (page + 1) moved1 movable1) as (z' & m1 & m2 & Hr & Hre & Hst & Hmt' & Hall);
      [done|done|intros; apply Hspan; lia|lia|].
    do 3 eexists. split; [done|]. split; [done|]. split; [done|]. split; [done|]. intros p o t Hp Hh.
    destruct (Z.eq_dec p page) as [->|]; [by destruct (Hno o t)|]. apply (Hall p o t); [lia|done]. }
  destruct (pfn_valid_within page) eqn:Hv; cbn [negb].
  2:{ apply Hskip. intros o t Hh. pose proof (wf_order z Hwf _ _ _ Hh).
      destruct (head_spans z page o t page Hwf Hh) as (_ & Hv' & _); [pose proof (pow_pos o ltac:(lia)); lia|congruence]. }
  rewrite (contiguous_node z Hcont) by (done || apply Hspan; lia). rewrite Z.eqb_refl.
  cbn [negb BUG_ON mbind outcome_bind].
  destruct (PageBuddy (mem_map z page)) eqn:Hb; cbn [negb].
  2:{ apply Hskip. intros o t Hh. destruct (wf_marked z Hwf _ _ _ Hh). congruence. }
  destruct (wf_listed z Hwf page Hb) as [t Ht]; [apply contiguous_zone; [done|apply Hspan; lia|done]|].
  destruct (list_move_ok z page _ t migratetype Hwf Ht Hmt) as (z1 & -> & Hre & Hst & Hh1).
  cbn [mbind outcome_bind]. set (o := page_order z page) in *.
  pose proof (wf_order z Hwf _ _ _ Ht) as Ho. pose proof (pow_pos o ltac:(lia)).
  rewrite pages_pow by lia.
  destruct (IH z1 (page + 2 ^ o) (moved + 2 ^ o) movable) as (z' & m1 & m2 & Hr & Hre' & Hst' & Hmt' & Hall).
  - by apply Hre.
  - eapply contiguous_same; [apply Hre|done].
  - intros q Hq. rewrite (spans_same z) by apply Hre. apply Hspan. lia.
  - lia.
  - do 3 eexists. split; [done|]. split; [by eapply restocked_trans|]. split; [by etrans|]. split.
    + intros p o' Hp. apply Hmt', Hh1. destruct (Z.eq_dec p page) as [->|]; [|tauto].
      destruct (head_order_unique z _ _ _ _ _ Hwf Hp Ht) as [-> _]. tauto.
    + intros p o' t' Hp Hh. destruct (Z.eq_dec p page) as [->|Hne].
      * destruct (head_order_unique z _ _ _ _ _ Hwf Hh Ht) as [-> _]. apply Hmt', Hh1. tauto.
      * pose proof (wf_order z Hwf _ _ _ Hh) as Ho'. pose proof (pow_pos o' ltac:(lia)).
        apply (Hall p o' t'); [|apply Hh1; tauto].
        destruct (wf_disjoint z Hwf _ _ _ _ _ _ Hh Ht Hne); lia.
Qed.

(** ** Stealing *)

(** Neither lists nor counters differ. *)
Definition unchanged (z z' : zone) : Prop :=
  same_lists z z' /\ vm_free_pages z' = vm_free_pages z /\ vm_free_cma_pages z' = vm_free_cma_pages z /\
  same_index z z' /\ (types_ok z -> types_ok z').

Lemma restocked_unchanged z z' z'' : restocked z z' -> unchanged z' z'' -> restocked z z''.
Proof using Type. intros Hr (Hl & Hv & Hc & Hi & Ht). by eapply restocked_lists. Qed.

Lemma unchanged_trans z z' z'' : unchanged z z' -> unchanged z' z'' -> unchanged z z''.
Proof using Type.
  intros (Hl & Hv & Hc & Hi & Ht) (Hl' & Hv' & Hc' & Hi' & Ht').
  split_and!; [|congruence|congruence|by etrans|auto]. split.
  - etrans; [apply (lists_same _ _ Hl)|apply (lists_same _ _ Hl')].
  - intros p. by rewrite (lists_buddy _ _ Hl'), (lists_buddy _ _ Hl).
  - intros p. by rewrite (lists_order _ _ Hl'), (lists_order _ _ Hl).
  - intros o t. by rewrite (lists_free _ _ Hl'), (lists_free _ _ Hl).
  - intros o. by rewrite (lists_nr _ _ Hl'), (lists_nr _ _ Hl).
Qed.

Lemma set_pageblock_ok z p t : contiguous z -> 0 <= t < MIGRATE_TYPES -> zone_spans_pfn z p = true ->
  exists z', set_pageblock_migratetype z p t = Done z' /\ unchanged z z'.
Proof using All.
  intros Hcont Ht Hs. assert (Hp : 0 <= p).
  { pose proof (contiguous_start z Hcont). unfold zone_spans_pfn in Hs.
    apply andb_true_iff in Hs as [Hs%Z.leb_le _]. lia. }
  assert (Hpb : 0 <= pageblock_order <= PFN_SECTION_SHIFT).
  { pose proof pageblock_order_range. pose proof section_shift_range. lia. }
  unfold set_pageblock_migratetype. set (f := if _ && _ then _ else t).
  assert (Hf : 0 <= f < MIGRATE_TYPES).
  { unfold f, MIGRATE_UNMOVABLE. destruct (_ && _); change MIGRATE_TYPES with 6 in *; lia. }
  destruct (set_flags_Done Hpb z f p PB_migrate_end (Z.ones 3) Hs) as [z' Hz'].
  exists z'. split; [exact Hz'|].
  assert (Htypes : types_ok z -> types_ok z').
  { intros Hty q Hq. change MIGRATE_TYPES with 6 in *.
    pose proof (get_set_flags Hpb z p q 2 3 f 2 3 z' Hp Hq ltac:(lia) ltac:(lia) ltac:(lia) ltac:(lia)
                  ltac:(lia) ltac:(lia) Hs Hz') as Hget.
    change (0 <= __get_pfnblock_flags_mask z' q 2 (Z.ones 3) < 6). rewrite Hget.
    destruct ((Z.shiftr q pageblock_order =? _) && _); [lia|]. by apply Hty. }
  rewrite (set_flags_field Hpb z p _ _ f Hs) in Hz'. cbn zeta in Hz'. injection Hz' as <-. done.
Qed.

Lemma change_pageblock_ok t : 0 <= t < MIGRATE_TYPES -> forall n z p, contiguous z ->
  (forall q, p <= q < p + Z.of_nat n * pageblock_nr_pages -> zone_spans_pfn z q = true) ->
  exists z', change_pageblock_loop n z p t = Done z' /\ unchanged z z'.
Proof using All.
  assert (Hpos : 0 < pageblock_nr_pages).
  { unfold pageblock_nr_pages. pose proof pageblock_order_range. rewrite pages_pow by lia. apply pow_pos. lia. }
  intros Ht. induction n as [|n IH]; intros z p Hcont Hs; cbn [change_pageblock_loop]; [by eexists|].
  destruct (set_pageblock_ok z p t) as (z1 & -> & Hu1); [done|done|apply Hs; lia|]. cbn [mbind outcome_bind].
  destruct (IH z1 (p + pageblock_nr_pages)) as (z2 & -> & Hu2).
  { eapply contiguous_same; [apply Hu1|done]. }
  { intros q Hq. rewrite (spans_same z) by apply Hu1. apply Hs. lia. }
  eexists. split; [done|]. by eapply unchanged_trans.
Qed.

Lemma boost_unchanged z : unchanged z (boost_watermark z).
Proof using Type. unfold boost_watermark. destruct (watermark_boost_factor =? 0); [done|]. by destruct (mult_frac _ _ _ =? 0). Qed.

Lemma move_block_ok z p o t start_type : wf z -> contiguous z -> head z p o t -> o < pageblock_order ->
  0 <= start_type < MIGRATE_TYPES ->
  exists z' n m, move_freepages_block z p start_type = Done (z', n, m) /\ restocked z z' /\
    (n <> 0 -> head z' p o start_type) /\ exists t', head z' p o t'.
Proof using All.
  intros Hwf Hcont Hp Ho Hst. pose proof pageblock_order_range as Hpb.
  pose proof (wf_order z Hwf _ _ _ Hp) as Hor. pose proof (pow_pos o ltac:(lia)).
  destruct (head_spans z p o t p Hwf Hp ltac:(lia)) as (Hsp & _ & _).
  pose proof Hcont as [Hcs Hce _ _].
  assert (Hspan : forall q, zone_spans_pfn z q = true <-> zone_start_pfn z <= q < zone_end_pfn z).
  { intros q. unfold zone_spans_pfn. rewrite andb_true_iff, Z.leb_le, Z.ltb_lt. done. }
  unfold move_freepages_block, pageblock_nr_pages. rewrite pages_pow by lia.
  assert (Hp64 : is_u64 p) by (apply Hspan in Hsp; unfold is_u64; lia).
  replace (2 ^ pageblock_order - 1) with (Z.ones pageblock_order) by (rewrite Z.ones_equiv; lia).
  change MAX_ORDER with 11 in *. rewrite land_lnot_ones_64 by (done || lia).
  assert (Hpp : 0 < 2 ^ pageblock_order) by (apply pow_pos; lia).
  pose proof (Z.mod_pos_bound p (2 ^ pageblock_order) Hpp) as Hmod.
  set (start := p - p mod 2 ^ pageblock_order) in *.
  replace (start + 2 ^ pageblock_order - 1) with (start + (2 ^ pageblock_order - 1)) by lia.
  set (last := start + (2 ^ pageblock_order - 1)).
  destruct (zone_spans_pfn z last) eqn:Hlast; cbn [negb].
  2:{ exists z, 0, 0. split; [done|]. split; [by apply restocked_refl|]. split; [done|]. by exists t. }
  set (from := if negb (zone_spans_pfn z start) then p else start).
  assert (Hfrom : from <= p <= last /\ zone_spans_pfn z from = true).
  { unfold from, last. destruct (zone_spans_pfn z start) eqn:Hs; cbn [negb]; (split; [lia|done]). }
  unfold move_freepages.
  destruct (move_loop_ok start_type last Hst (Z.to_nat (last - from + 2)) z from 0 0)
    as (z' & n & m & Hr & Hre & _ & _ & Hall); [done|done| |lia|].
  { intros q Hq. apply Hspan. destruct Hfrom as [_ Hf]. apply Hspan in Hf, Hlast. lia. }
  exists z', n, m. split; [done|]. split; [done|].
  assert (Hh : head z' p o start_type) by (apply (Hall p o t); [lia|done]). eauto.
Qed.

Lemma steal_ok z p o t flags start_type whole : wf z -> contiguous z -> head z p o t ->
  0 <= start_type < MIGRATE_TYPES ->
  exists z', steal_suitable_fallback z p flags start_type whole = Done z' /\ restocked z z' /\
    head z' p o start_type.
Proof using All.
  intros Hwf Hcont Hp Hst. unfold steal_suitable_fallback.
  destruct (wf_marked z Hwf _ _ _ Hp) as [_ ->]. pose proof (wf_order z Hwf _ _ _ Hp) as Ho.
  assert (Hsingle : forall z1, restocked z z1 -> exists z', list_move z1 p o start_type = Done z' /\
            restocked z z' /\ head z' p o start_type).
  { intros z1 Hr. destruct (proj2 (restocked_heads _ _ Hr p o)) as [t1 H1]; [by exists t|].
    destruct (list_move_ok z1 p o t1 start_type) as (z' & -> & Hr' & _ & Hh); [apply Hr|done|done|].
    exists z'. split; [done|]. split; [by eapply restocked_trans|]. apply Hh. tauto. }
  destruct (is_migrate_highatomic _); [by apply Hsingle, restocked_refl|].
  rewrite Z.geb_leb. destruct (Z.leb_spec pageblock_order o) as [Hbig|Hsmall].
  - unfold change_pageblock_range. pose proof pageblock_order_range as Hpb.
    destruct (change_pageblock_ok start_type Hst (Z.to_nat (pages (o - pageblock_order))) z p Hcont) as (z1 & -> & Hu).
    { unfold pageblock_nr_pages. rewrite !pages_pow by lia. assert (0 < 2 ^ (o - pageblock_order)) by (apply pow_pos; lia).
      rewrite Z2Nat.id, <- Z.pow_add_r by lia. replace (o - pageblock_order + pageblock_order) with o by lia.
      intros q Hq. by eapply (head_spans z p o t q). }
    cbn [mbind outcome_bind]. apply Hsingle. eapply restocked_unchanged; [by apply restocked_refl|done].
  - set (z1 := if bool_of _ then _ else _).
    assert (Hu1 : unchanged z z1).
    { eapply unchanged_trans; [apply boost_unchanged|]. unfold z1. by destruct (bool_of _). }
    assert (Hr1 : restocked z z1) by (eapply restocked_unchanged; [by apply restocked_refl|done]).
    destruct whole; cbn [negb]; [|by apply Hsingle].
    destruct (move_block_ok z1 p o t start_type) as (z2 & n & m & -> & Hr2 & Hh2 & _);
      [apply Hr1|eapply contiguous_same; [apply Hr1|done]|by apply (head_lists z z1), Hp; apply Hu1|done|done|].
    cbn [mbind outcome_bind]. assert (Hr : restocked z z2) by (by eapply restocked_trans).
    destruct (Z.eqb_spec n 0) as [Hn|Hn]; [by apply Hsingle|].
    destruct (_ || _); [|by exists z2; auto].
    destruct (set_pageblock_ok z2 p start_type) as (z3 & -> & Hu3);
      [eapply contiguous_same; [apply Hr|done]|done| |].
    { rewrite (spans_same z) by apply Hr. eapply (head_spans z p o t p Hwf Hp). pose proof (pow_pos o ltac:(lia)). lia. }
    exists z3. split; [done|]. split; [by eapply restocked_unchanged|].
    apply (head_lists z2 z3); [apply Hu3|auto].
Qed.

(** A block that fills pageblocks moves alone. *)
Lemma steal_big_count z p o t flags start_type whole z' : wf z -> contiguous z -> head z p o t -> t <> start_type ->
  0 <= start_type < MIGRATE_TYPES -> pageblock_order <= o -> steal_suitable_fallback z p flags start_type whole = Done z' ->
  type_count z' start_type = S (type_count z start_type).
Proof using All.
  intros Hwf Hcont Hp Hne Hst Hbig. unfold steal_suitable_fallback.
  destruct (wf_marked z Hwf _ _ _ Hp) as [_ ->]. destruct (is_migrate_highatomic _); [by apply list_move_count with t|].
  rewrite Z.geb_leb. destruct (Z.leb_spec pageblock_order o) as [_|]; [|lia].
  unfold change_pageblock_range. pose proof pageblock_order_range as Hpb.
  destruct (change_pageblock_ok start_type Hst (Z.to_nat (pages (o - pageblock_order))) z p Hcont) as (z1 & -> & Hu).
  { unfold pageblock_nr_pages. rewrite !pages_pow by lia. assert (0 < 2 ^ (o - pageblock_order)) by (apply pow_pos; lia).
    rewrite Z2Nat.id, <- Z.pow_add_r by lia. replace (o - pageblock_order + pageblock_order) with o by lia.
    intros q Hq. by eapply (head_spans z p o t q). }
  cbn [mbind outcome_bind]. intros Hm. rewrite <- (type_count_lists z z1) by apply Hu.
  eapply list_move_count; [by eapply wf_lists; [apply Hu|]|by apply (head_lists z z1); [apply Hu|exact Hp]|done|done].
Qed.

(** ** Looking for a block of another type *)
Lemma count_zero z o : wf z -> 0 <= o < MAX_ORDER -> nr_free z o = 0 -> forall t, free_list z o t = [].
Proof using Type.
  intros Hwf Ho Hz t. destruct (free_list z o t) as [|p l] eqn:Hl; [done|]. exfalso.
  assert (Hp : head z p o t) by (unfold head; rewrite Hl; apply list_elem_of_here).
  rewrite (wf_nr_free z Hwf) in Hz by done.
  assert (Hin : t ∈ migratetypes) by (apply elem_of_seqZ; by apply (wf_type z Hwf) in Hp).
  assert (Hle : (length (free_list z o t) <= list_count z o)%nat).
  { unfold list_count. induction migratetypes as [|x l' IH]; [by apply elem_of_nil in Hin|].
    simpl. apply elem_of_cons in Hin as [->|Hin]; [lia|]. specialize (IH Hin). lia. }
  rewrite Hl in Hle. simpl in Hle. lia.
Qed.

(** What the lists of an order have for a type to fall back to. *)
Definition no_fallback (z : zone) (c mt : Z) : Prop :=
  forall t, 0 <= t < MIGRATE_PCPTYPES -> t <> mt -> free_list z c t = [].
Definition is_fallback (z : zone) (c mt t : Z) : Prop :=
  0 <= t < MIGRATE_PCPTYPES /\ t <> mt /\ free_list z c t <> [].

Lemma find_suitable_fallback_ok z c mt cs : wf z -> 0 <= c < MAX_ORDER -> 0 <= mt < MIGRATE_PCPTYPES ->
  exists r cs', find_suitable_fallback z c mt false cs = Done (r, cs') /\
    ((r = -1 /\ no_fallback z c mt) \/ (r <> -1 /\ is_fallback z c mt r)).
Proof using Type.
  intros Hwf Hc Hmt. unfold find_suitable_fallback.
  destruct (Z.eqb_spec (nr_free z c) 0) as [Hz|_].
  { do 2 eexists. split; [done|]. left. split; [done|]. intros t _ _. by apply count_zero. }
  assert (Hrow : exists a b, fallbacks mt = [a; b; MIGRATE_TYPES; 0] /\ 0 <= a < MIGRATE_PCPTYPES /\
            0 <= b < MIGRATE_PCPTYPES /\ a <> mt /\ b <> mt /\
            forall t, 0 <= t < MIGRATE_PCPTYPES -> t <> mt -> t = a \/ t = b).
  { change MIGRATE_PCPTYPES with 3 in *. assert (Hcase : mt = 0 \/ mt = 1 \/ mt = 2) by lia.
    destruct Hcase as [-> | [-> | ->]]; do 2 eexists; (split; [reflexivity|]);
      unfold MIGRATE_RECLAIMABLE, MIGRATE_UNMOVABLE, MIGRATE_MOVABLE; split_and!; lia. }
  destruct Hrow as (a & b & -> & Ha & Hb & Hna & Hnb & Hall). cbn [find_fallback_loop negb].
  assert (Hta : (a =? MIGRATE_TYPES) = false) by (apply Z.eqb_neq; change MIGRATE_TYPES with 6; change MIGRATE_PCPTYPES with 3 in *; lia).
  assert (Htb : (b =? MIGRATE_TYPES) = false) by (apply Z.eqb_neq; change MIGRATE_TYPES with 6; change MIGRATE_PCPTYPES with 3 in *; lia).
  rewrite Hta, Htb. destruct (free_list z c a) as [|x l] eqn:Hla; cbn [list_empty].
  2:{ do 2 eexists. split; [done|]. right. split; [lia|]. split_and!; try lia. by rewrite Hla. }
  destruct (free_list z c b) as [|x l] eqn:Hlb; cbn [list_empty].
  2:{ do 2 eexists. split; [done|]. right. split; [lia|]. split_and!; try lia. by rewrite Hlb. }
  do 2 eexists. split; [reflexivity|]. left. split; [done|].
  intros t Ht Hne. by destruct (Hall t Ht Hne) as [-> | ->].
Qed.

Lemma find_largest_ok z order mt : wf z -> 0 <= order -> 0 <= mt < MIGRATE_PCPTYPES -> forall n c cs,
  Z.of_nat n <= c + 1 -> c < MAX_ORDER ->
  exists choice, find_largest_loop n z order c mt cs = Done choice /\
    match choice with
    | NoFallback => forall c', c - Z.of_nat n < c' <= c -> no_fallback z c' mt
    | FindSmallest _ => exists c' t, order < c' < MAX_ORDER /\ is_fallback z c' mt t
    | DoSteal c' t _ => c - Z.of_nat n < c' <= c /\ is_fallback z c' mt t /\ forall c2, c' < c2 <= c -> no_fallback z c2 mt
    end.
Proof using Type.
  intros Hwf Ho Hmt. induction n as [|n IH]; intros c cs Hn Hc; cbn [find_largest_loop].
  { eexists. split; [done|]. cbn. intros c' Hc'. exfalso. lia. }
  destruct (find_suitable_fallback_ok z c mt cs Hwf ltac:(lia) Hmt) as (r & cs' & -> & Hr).
  cbn [mbind outcome_bind]. destruct Hr as [[-> Hno]|[Hne His]].
  - destruct (IH (c - 1) cs' ltac:(lia) ltac:(lia)) as (choice & -> & Hch). exists choice. split; [done|].
    destruct choice as [|cs2|c' t cs2]; [|done|].
    + intros c' Hc'. destruct (Z.eq_dec c' c) as [->|]; [done|]. apply Hch. lia.
    + destruct Hch as (Hc' & Ht & Hlarge). split; [lia|]. split; [done|].
      intros c2 Hc2. destruct (Z.eq_dec c2 c) as [->|]; [done|]. apply Hlarge. lia.
  - destruct (Z.eqb_spec r (-1)); [done|].
    destruct (_ && _ && _) eqn:Hcond.
    + eexists. split; [done|]. apply andb_true_iff in Hcond as [_ Hgt%Z.gtb_lt]. exists c, r. split; [lia|done].
    + eexists. split; [done|]. split; [lia|]. split; [done|]. intros c2 Hc2. exfalso. lia.
Qed.

Lemma find_smallest_ok z mt c0 t0 : wf z -> 0 <= mt < MIGRATE_PCPTYPES -> c0 < MAX_ORDER -> is_fallback z c0 mt t0 ->
  forall n c cs, n = Z.to_nat (MAX_ORDER - c) -> 0 <= c <= c0 ->
  exists c' t cs', find_smallest_loop n z c mt cs = Done (c', t, cs') /\ c <= c' < MAX_ORDER /\ is_fallback z c' mt t.
Proof using Type.
  intros Hwf Hmt Hc0 Hf. induction n as [|n IH]; intros c cs Hn Hc; cbn [find_smallest_loop]; [lia|].
  destruct (find_suitable_fallback_ok z c mt cs Hwf ltac:(lia) Hmt) as (r & cs' & -> & Hr).
  cbn [mbind outcome_bind]. destruct Hr as [[-> Hno]|[Hne His]].
  - destruct (Z.eq_dec c c0) as [->|Hcc].
    { destruct Hf as (H1 & H2 & H3). by destruct H3; apply Hno. }
    destruct (IH (c + 1) cs' ltac:(lia) ltac:(lia)) as (c' & t & cs2 & Hr & Hc' & Ht).
    do 3 eexists. split; [exact Hr|]. split; [lia|done].
  - destruct (Z.eqb_spec r (-1)); [done|]. do 3 eexists. split; [done|]. split; [lia|done].
Qed.

Lemma do_steal_ok z c t mt flags cs : wf z -> contiguous z -> 0 <= mt < MIGRATE_PCPTYPES -> is_fallback z c mt t ->
  exists z', do_steal z c t mt flags cs = Done (z', true) /\ restocked z z' /\ (exists p, head z' p c mt) /\
    (pageblock_order <= c -> type_count z' mt = S (type_count z mt)).
Proof using All.
  intros Hwf Hcont Hmt (Ht & Hnt & Hne). unfold do_steal. destruct (free_list z c t) as [|p l] eqn:Hl; [done|].
  assert (Hp : head z p c t) by (unfold head; rewrite Hl; apply list_elem_of_here).
  assert (Hmt' : 0 <= mt < MIGRATE_TYPES) by (change MIGRATE_PCPTYPES with 3 in *; change MIGRATE_TYPES with 6; lia).
  destruct (steal_ok z p c t flags mt cs Hwf Hcont Hp Hmt') as (z' & Hs & Hr & Hh). rewrite Hs. cbn [mbind outcome_bind].
  exists z'. split; [done|]. split; [done|]. split; [by exists p|]. intros Hbig. by apply (steal_big_count z p c t flags mt cs).
Qed.

(** The orders a fallback looks at. *)
Definition min_order (order flags : Z) : Z :=
  if bool_of (Z.land flags ALLOC_NOFRAGMENT) then pageblock_order else order.

(** What a fallback moved is large enough, or, when only whole pageblocks may be taken for a request that is
    larger, there is one block more on the lists of the type. *)
Lemma rmqueue_fallback_ok z order mt flags : wf z -> contiguous z -> 0 <= order < MAX_ORDER ->
  0 <= mt < MIGRATE_PCPTYPES ->
  exists z' found, __rmqueue_fallback z order mt flags = Done (z', found) /\ restocked z z' /\
    if found : bool then
      (exists p c, order <= c < MAX_ORDER /\ head z' p c mt) \/
      (min_order order flags < order /\ type_count z' mt = S (type_count z mt) /\ forall c, order <= c < MAX_ORDER -> no_fallback z c mt)
    else z' = z /\ forall c, min_order order flags <= c < MAX_ORDER -> no_fallback z c mt.
Proof using All.
  intros Hwf Hcont Ho Hmt. unfold __rmqueue_fallback. fold (min_order order flags).
  set (m := min_order order flags) in *.
  assert (Hm : 0 <= m < MAX_ORDER /\ (m = order \/ m = pageblock_order)).
  { unfold m, min_order. pose proof pageblock_order_range. destruct (bool_of _); (split; [lia|auto]). }
  destruct (find_largest_ok z order mt Hwf ltac:(lia) Hmt (Z.to_nat (MAX_ORDER - m)) (MAX_ORDER - 1) false)
    as (choice & -> & Hch); [lia|lia|]. cbn [mbind outcome_bind].
  destruct choice as [|cs|c t cs].
  - do 2 eexists. split; [done|]. split; [by apply restocked_refl|]. split; [done|]. intros c Hc. apply Hch. lia.
  - destruct Hch as (c0 & t0 & Hc0 & Ht0).
    destruct (find_smallest_ok z mt c0 t0 Hwf Hmt ltac:(lia) Ht0 (Z.to_nat (MAX_ORDER - order)) order cs eq_refl ltac:(lia))
      as (c & t & cs' & -> & Hc & Ht). cbn [mbind outcome_bind].
    destruct (do_steal_ok z c t mt flags cs' Hwf Hcont Hmt Ht) as (z' & -> & Hr & (p & Hp) & _).
    do 2 eexists. split; [done|]. split; [done|]. left. by exists p, c.
  - destruct Hch as (Hc & Ht & Hlarge).
    destruct (do_steal_ok z c t mt flags cs Hwf Hcont Hmt Ht) as (z' & -> & Hr & (p & Hp) & Hcount).
    do 2 eexists. split; [done|]. split; [done|]. destruct (Z_le_gt_dec order c) as [Hle|Hgt].
    + left. exists p, c. split; [lia|done].
    + right. split; [lia|]. split; [apply Hcount; lia|]. intros c2 Hc2. apply Hlarge. lia.
Qed.

(** ** The whole allocation *)
Record allocated (lim : Z) (z : zone) (p o : Z) (z' : zone) : Prop := {
  allocated_wf : wf z';
  allocated_coalesced : coalesced lim z';
  allocated_same : same_zone z z';
  allocated_nr : vm_free_pages z' = vm_free_pages z;
  allocated_cma : vm_free_cma_pages z' = vm_free_cma_pages z;
  allocated_clear : clear z' p o;
  allocated_unused : unused z' p o;
  allocated_was_free q : p <= q < p + 2 ^ o -> free_page z q;
  allocated_pages q : free_page z' q <-> free_page z q /\ ~ (p <= q < p + 2 ^ o);
  allocated_total : total z' = total z - 2 ^ o;
  allocated_index q : q <> p -> get_pcppage_migratetype z' q = get_pcppage_migratetype z q;
  allocated_types : types_ok z -> types_ok z';
}.

Lemma taken_allocated lim z z1 p o z' : restocked z z1 -> taken lim z1 p o z' -> allocated lim z p o z'.
Proof using Type.
  intros Hr [T1 T2 T3 (Hv & Hc & Hf) T5 T6 T7 T8 TI T9]. split; try done.
  - etrans; [apply Hr|done].
  - rewrite Hv. apply Hr.
  - rewrite Hc. apply Hr.
  - intros q Hq. apply (restocked_free z z1); auto.
  - intros q. by rewrite T8, (restocked_free z z1).
  - rewrite T9, (total_ext z z1); [done|apply Hr].
  - intros q Hq. rewrite TI by done. apply Hr.
  - intros Hty. apply (types_flags z1 z' Hf). by apply Hr.
Qed.

(** No list that may be used has a block that is large enough. *)
Definition exhausted (z : zone) (order mt flags : Z) : Prop :=
  forall c, order <= c < MAX_ORDER ->
    free_list z c mt = [] /\ (mt = MIGRATE_MOVABLE -> free_list z c MIGRATE_CMA = []) /\
    (min_order order flags <= c -> no_fallback z c mt).

Lemma rmqueue_smallest_ok lim z order t : wf z -> coalesced lim z -> 0 <= order ->
  (exists c p l z', order <= c < MAX_ORDER /\ free_list z c t = p :: l /\
     (forall c2, order <= c2 < c -> free_list z c2 t = []) /\
     __rmqueue_smallest z order t = Done (z', Some p) /\
     taken lim z p order z' /\ get_pcppage_migratetype z' p = t) \/
  ((forall c2, order <= c2 < MAX_ORDER -> free_list z c2 t = []) /\
   __rmqueue_smallest z order t = Done (z, None)).
Proof using Type. intros Hwf Hco Ho. by apply rmqueue_smallest_loop_ok. Qed.

(** The type an allocated page is remembered with. *)
Definition remembered (z : zone) (p mt : Z) : Prop :=
  get_pcppage_migratetype z p = mt \/ get_pcppage_migratetype z p = MIGRATE_CMA.

Lemma allocated_restocked lim z z1 p o z' : restocked z z1 -> allocated lim z1 p o z' -> allocated lim z p o z'.
Proof using Type.
  intros Hr [A1 A2 A3 A4 A5 A6 A7 A8 A9 A10 A11 A12]. split; try done.
  - etrans; [apply Hr|done].
  - rewrite A4. apply Hr.
  - rewrite A5. apply Hr.
  - intros q Hq. apply (restocked_free z z1); auto.
  - intros q. by rewrite A9, (restocked_free z z1).
  - rewrite A10, (total_ext z z1); [done|apply Hr].
  - intros q Hq. rewrite A11 by done. apply Hr.
  - intros Hty. by apply A12, Hr.
Qed.

Lemma free_blocks_restocked z z' : restocked z z' -> free_blocks z' = free_blocks z.
Proof using Type. intros Hr. apply sum_list_with_ext. intros o. by rewrite (restocked_nr_free _ _ Hr). Qed.

(** NULL: the same blocks, none of them large enough; a request for less than a pageblock moves none. *)
Definition refused (z : zone) (order mt flags : Z) (z' : zone) : Prop :=
  restocked z z' /\ exhausted z order mt flags /\ exhausted z' order mt flags /\ (order <= min_order order flags -> z' = z).

(** The blocks that are not on the lists of the type bound the retries. *)
Lemma rmqueue_retries lim order mt flags : 0 <= order < MAX_ORDER -> 0 <= mt < MIGRATE_PCPTYPES ->
  forall fuel z, wf z -> coalesced lim z -> contiguous z ->
  (free_blocks z + 2 <= fuel + type_count z mt)%nat \/ (2 <= fuel)%nat /\ order <= min_order order flags ->
  (exists p z', __rmqueue fuel z order mt flags = Done (z', Some p) /\ allocated lim z p order z' /\ remembered z' p mt) \/
  (exists z', __rmqueue fuel z order mt flags = Done (z', None) /\ refused z order mt flags z').
Proof using All.
  intros Ho Hmt. induction fuel as [|fuel IH]; intros z Hwf Hco Hcont Hfuel.
  { pose proof (type_count_le z mt Hwf) as Hle. change MIGRATE_PCPTYPES with 3 in *. change MIGRATE_TYPES with 6 in *. lia. }
  cbn [__rmqueue]. assert (Hr0 : restocked z z) by (by apply restocked_refl).
  destruct (rmqueue_smallest_ok lim z order mt Hwf Hco ltac:(lia))
    as [(c & p & l & z' & _ & _ & _ & -> & Ht & Hix)|[Hnone ->]]; cbn [mbind outcome_bind].
  { left. do 2 eexists. split; [done|]. split; [by eapply taken_allocated|by left]. }
  assert (Hcma : (exists p z', (if mt =? MIGRATE_MOVABLE then __rmqueue_cma_fallback z order else Done (z, None))
              = Done (z', Some p) /\ allocated lim z p order z' /\ remembered z' p mt) \/
            ((if mt =? MIGRATE_MOVABLE then __rmqueue_cma_fallback z order else Done (z, None)) = Done (z, None) /\
             (mt = MIGRATE_MOVABLE -> forall c, order <= c < MAX_ORDER -> free_list z c MIGRATE_CMA = []))).
  { destruct (Z.eqb_spec mt MIGRATE_MOVABLE) as [_|]; [|by right].
    destruct (rmqueue_smallest_ok lim z order MIGRATE_CMA Hwf Hco ltac:(lia))
      as [(c & p & l & z' & _ & _ & _ & Heq & Ht & Hix)|[Hn Heq]].
    - left. do 2 eexists. split; [exact Heq|]. split; [by eapply taken_allocated|by right].
    - right. split; [exact Heq|auto]. }
  destruct Hcma as [(p & z' & -> & Ha)|[-> Hcma]]; cbn [mbind outcome_bind]; [left; by do 2 eexists|].
  destruct (rmqueue_fallback_ok z order mt flags Hwf Hcont Ho Hmt) as (z1 & found & -> & Hr & Hf).
  cbn [mbind outcome_bind]. destruct found.
  2:{ destruct Hf as [-> Hf]. right. exists z.
      assert (Hex : exhausted z order mt flags) by (intros c Hc; split; [by apply Hnone|]; split; [auto|]; intros Hmc; apply Hf; lia).
      by split. }
  destruct Hf as [(q & c & Hc & Hq)|(Hmin & Hcount & Hno)].
  - destruct fuel as [|fuel].
    { pose proof (type_count_le z mt Hwf) as Hle. change MIGRATE_PCPTYPES with 3 in *. change MIGRATE_TYPES with 6 in *. lia. }
    cbn [__rmqueue]. destruct (rmqueue_smallest_ok lim z1 order mt) as [(c' & p & l & z' & _ & _ & _ & -> & Ht & Hix)|[Hn _]];
      [apply Hr|by eapply restocked_coalesced|lia| |].
    + left. cbn [mbind outcome_bind]. do 2 eexists. split; [done|]. split; [by eapply taken_allocated|by left].
    + unfold head in Hq. rewrite Hn in Hq by lia. by apply elem_of_nil in Hq.
  - destruct (IH z1) as [(p & z' & Hrun & Ha & Hrem)|(z' & Hrun & Hr' & Hex & Hex' & _)];
      [apply Hr|by eapply restocked_coalesced|eapply contiguous_same; [apply Hr|done]| | |].
    + left. rewrite (free_blocks_restocked z z1 Hr). lia.
    + left. do 2 eexists. split; [exact Hrun|]. split; [by eapply allocated_restocked|done].
    + right. exists z'. split; [exact Hrun|]. split; [by eapply restocked_trans|]. split; [|split; [done|lia]].
      intros c Hc. split; [by apply Hnone|]. split; [auto|]. intros _. by apply Hno.
Qed.

Lemma rmqueue_ok lim z order mt flags fuel : wf z -> coalesced lim z -> contiguous z -> 0 <= order < MAX_ORDER ->
  0 <= mt < MIGRATE_PCPTYPES -> (rmqueue_fuel z <= fuel)%nat ->
  (exists p z', __rmqueue fuel z order mt flags = Done (z', Some p) /\ allocated lim z p order z' /\ remembered z' p mt) \/
  (exists z', __rmqueue fuel z order mt flags = Done (z', None) /\ refused z order mt flags z').
Proof using All. intros Hwf Hco Hcont Ho Hmt Hfuel. apply rmqueue_retries; try done. left. unfold rmqueue_fuel in Hfuel. lia. Qed.

End Fallback.
