(* ===== verification/BuddyProps.v ===== *)
(** * Buddy allocator: theorems

    The free lists are determined by the free pages; blocks that were handed out
    stay apart; the properties, each with a run on a zone of 32 pages. *)

From S2P Require Import Prelude Buddy BuddyInv BuddyFree BuddyAlloc BuddySteal BuddyFallback BuddyBlocks.

(** ** The blocks are determined by the free pages *)
Section Canonical.
Context `{PageAllocConfig}.

(** An aligned block of free pages lies in one block of the lists. *)
Lemma covered z p o : wf z -> coalesced (MAX_ORDER - 1) z -> 0 <= o ->
  o < MAX_ORDER -> aligned p o -> (forall q, p <= q < p + 2 ^ o -> free_page z q) ->
  exists c o' t, head z c o' t /\ o <= o' /\ c <= p /\ p + 2 ^ o <= c + 2 ^ o'.
Proof using Type.
  intros Hwf Hco Ho. revert p. pattern o. apply natlike_ind; [| |done]; clear o Ho.
  - intros p _ _ Hf. destruct (Hf p ltac:(simpl; lia)) as (c & o' & t & Hh & Hin).
    exists c, o', t. apply (wf_order z Hwf) in Hh as Ho'. simpl. split; [done|lia].
  - intros o Ho IH p Hmax Ha Hf. change (Z.succ o) with (o + 1) in *.
    pose proof (pow_S o Ho) as Hpow. pose proof (pow_pos o Ho) as Hpos.
    assert (Ha1 : aligned p o) by (apply (aligned_le p (o + 1)); [lia|done]).
    destruct (IH p ltac:(lia) Ha1) as (c1 & o1 & t1 & Hh1 & Ho1 & Hc1 & Hc1'); [intros; apply Hf; lia|].
    assert (Ha2 : aligned (p + 2 ^ o) o) by (apply aligned_add; [lia|done]).
    destruct (IH (p + 2 ^ o) ltac:(lia) Ha2) as (c2 & o2 & t2 & Hh2 & Ho2 & Hc2 & Hc2'); [intros; apply Hf; lia|].
    assert (Hbig : forall c o' t, head z c o' t -> o + 1 <= o' -> c < p + 2 ^ (o + 1) -> p < c + 2 ^ o' ->
              exists c o' t, head z c o' t /\ o + 1 <= o' /\ c <= p /\ p + 2 ^ (o + 1) <= c + 2 ^ o').
    { intros c o' t Hh Ho' Hl Hr. exists c, o', t. split; [done|]. split; [done|].
      destruct (aligned_nested p (o + 1) c o') as [|[|]]; [lia|done|by eapply wf_aligned|done|lia|lia]. }
    destruct (Z.eq_dec o1 o) as [->|]; [|apply (Hbig c1 o1 t1); [done|lia|lia|lia]].
    destruct (Z.eq_dec o2 o) as [->|]; [|apply (Hbig c2 o2 t2); [done|lia|lia|lia]].
    assert (c1 = p) as -> by lia. assert (c2 = p + 2 ^ o) as -> by lia.
    destruct (buddy_low p o Ho Ha) as [Hb _]. rewrite <- Hb in Hh2.
    destruct (Hco _ _ _ _ Hh1 ltac:(lia) Hh2).
Qed.

Lemma canonical z z' p o t :
  wf z -> wf z' -> coalesced (MAX_ORDER - 1) z -> coalesced (MAX_ORDER - 1) z' ->
  (forall q, free_page z q <-> free_page z' q) -> head z p o t -> exists t', head z' p o t'.
Proof using Type.
  intros Hwf Hwf' Hco Hco' Heq Hp. pose proof (wf_order z Hwf _ _ _ Hp) as Ho.
  pose proof (pow_pos o ltac:(lia)).
  destruct (covered z' p o) as (c & o' & t' & Hc & Hle & Hc1 & Hc2);
    [done|done|lia|lia|exact (wf_aligned z Hwf _ _ _ Hp)| |].
  { intros q Hq. apply Heq. by exists p, o, t. }
  pose proof (wf_order z' Hwf' _ _ _ Hc) as Ho'.
  destruct (covered z c o') as (d & o2 & t2 & Hd & Hle2 & Hd1 & Hd2);
    [done|done|lia|lia|exact (wf_aligned z' Hwf' _ _ _ Hc)| |].
  { intros q Hq. apply Heq. by exists c, o', t'. }
  assert (d = p) as ->.
  { destruct (Z.eq_dec d p) as [|Hne]; [done|]. destruct (wf_disjoint z Hwf _ _ _ _ _ _ Hd Hp Hne); lia. }
  destruct (head_order_unique z _ _ _ _ _ Hwf Hd Hp) as [-> _].
  assert (o' = o) as -> by lia. assert (c = p) as -> by lia. by exists t'.
Qed.
End Canonical.

(** ** Blocks that were handed out *)
Section Run.
Context `{PageAllocSpec}.

Definition in_block (b : Z * Z) (q : Z) : Prop := b.1 <= q < b.1 + 2 ^ b.2.
Definition apart (b c : Z * Z) : Prop := forall q, in_block b q -> in_block c q -> False.

Fixpoint pairwise_apart (l : list (Z * Z)) : Prop :=
  match l with [] => True | b :: l => Forall (apart b) l /\ pairwise_apart l end.

#[local] Instance pairwise_apart_perm : Proper ((≡ₚ) ==> iff) pairwise_apart.
Proof using Type.
  assert (Hdir : forall l l', l ≡ₚ l' -> pairwise_apart l -> pairwise_apart l').
  { induction 1 as [|b l l' Hp IH|b c l|l l2 l3 _ IH1 _ IH2]; simpl; auto.
    - intros [Hf Hl]. split; [|auto]. by rewrite <- Hp.
    - intros [Hf [Hf' Hl]]. apply list.Forall_cons in Hf as [Hbc Hb]. split; [|done].
      apply list.Forall_cons. split; [|done]. intros q Hq Hq'. by apply (Hbc q). }
  intros l l' Hp. split; apply Hdir; [done|by symmetry].
Qed.

(** Nothing of the zone has been lost or handed out twice. *)
Record safe (z0 z : zone) (live : list (Z * Z)) : Prop := {
  safe_wf : wf z;
  safe_coalesced : coalesced (merge_limit z) z;
  safe_same : same_zone z0 z;
  safe_live : Forall (fun b => clear z b.1 b.2 /\ unused z b.1 b.2) live;
  safe_apart : pairwise_apart live;
  safe_pages q : free_page z0 q <-> free_page z q \/ Exists (fun b => in_block b q) live;
}.

(** No page of a block that is clear is free, and conversely. *)
Lemma clear_not_free z p o q : clear z p o -> p <= q < p + 2 ^ o -> ~ free_page z q.
Proof using Type.
  intros Hc Hq (r & o' & t & Hr & Hin). destruct (clear_disjoint _ _ _ Hc _ _ _ Hr); lia.
Qed.

Lemma clear_by_pages z z' p o : wf z' -> same_zone z z' -> clear z p o ->
  (forall q, p <= q < p + 2 ^ o -> ~ free_page z' q) -> clear z' p o.
Proof using Type.
  intros Hwf Hs [Ho Ha Hz _] Hf. split; [done|done|by eapply in_zone_same|].
  intros r o' t Hr. pose proof (wf_order z' Hwf _ _ _ Hr) as Ho'.
  pose proof (pow_pos o ltac:(lia)). pose proof (pow_pos o' ltac:(lia)).
  unfold disjoint_blocks. destruct (Z_le_dec (p + 2 ^ o) r), (Z_le_dec (r + 2 ^ o') p); try lia. exfalso.
  apply (Hf (Z.max p r)); [lia|]. exists r, o', t. split; [done|lia].
Qed.

(** The live blocks keep out of what becomes free. *)
Lemma live_kept z z' live : wf z' -> same_zone z z' ->
  (forall b q, b ∈ live -> in_block b q -> ~ free_page z' q) ->
  Forall (fun b => clear z b.1 b.2 /\ unused z b.1 b.2) live ->
  Forall (fun b => clear z' b.1 b.2 /\ unused z' b.1 b.2) live.
Proof using Type.
  intros Hwf Hs Hf Hlive. rewrite !list.Forall_forall in *. intros b Hb.
  destruct (Hlive b Hb) as [Hc Hu]. split; [|by eapply unused_same].
  apply (clear_by_pages z); [done|done|done|]. intros q Hq. by apply (Hf b).
Qed.

Lemma safe_alloc z0 z live p o z' :
  safe z0 z live -> allocated (merge_limit z) z p o z' -> safe z0 z' ((p, o) :: live).
Proof using Type.
  intros [Hwf Hco Hs Hlive Hap Hpages] [A1 A2 A3 A4 A5 A6 A7 A8 A9 _ _ _].
  assert (Hnot : forall b q, b ∈ live -> in_block b q -> ~ free_page z q).
  { intros b q Hb Hq. rewrite list.Forall_forall in Hlive. destruct (Hlive b Hb) as [Hc _].
    by apply (clear_not_free z b.1 b.2). }
  split; [done| |by etrans| | |].
  - by rewrite (merge_limit_same z z') by done.
  - apply list.Forall_cons. split; [done|]. apply (live_kept z); [done|done| |done].
    intros b q Hb Hq Hf. apply A9 in Hf as [Hf _]. by apply (Hnot b q).
  - split; [|done]. apply list.Forall_forall. intros b Hb q Hq Hq'. apply (Hnot b q); [done|done|by apply A8].
  - intros q. rewrite Hpages, Exists_cons, A9. unfold in_block at 2. simpl.
    assert (Hd : p <= q < p + 2 ^ o \/ ~ (p <= q < p + 2 ^ o)) by lia. specialize (A8 q). tauto.
Qed.

Lemma safe_free z0 z live i p o t z' :
  safe z0 z live -> live !! i = Some (p, o) -> freed z p o t z' -> safe z0 z' (delete i live).
Proof using Type.
  intros [Hwf Hco Hs Hlive Hap Hpages] Hi [F1 F2 F3 F4 _ _ _ _ _].
  pose proof (delete_Permutation live i (p, o) Hi) as Hperm. set (rest := delete i live) in *.
  rewrite Hperm in Hlive, Hap. apply list.Forall_cons in Hlive as [_ Hlive].
  destruct Hap as [Hp Hap]. split; [done| |by etrans| |done|].
  - by rewrite (merge_limit_same z z') by done.
  - apply (live_kept z); [done|done| |done]. intros b q Hb Hq Hf.
    rewrite list.Forall_forall in Hlive, Hp. destruct (Hlive b Hb) as [Hc _].
    apply F4 in Hf as [Hf|Hf]; [by apply (clear_not_free z b.1 b.2 q)|]. by apply (Hp b Hb q).
  - intros q. rewrite Hpages, F4, Hperm, Exists_cons. unfold in_block at 1. simpl. tauto.
Qed.

End Run.

(** ** The properties *)
Section Theorems.
Context `{PageAllocSpec}.

(** C6: freeing a block of which no page is free always succeeds and adds
    exactly its pages to the free ones.  The lists stay a partition of the free
    pages into aligned blocks, no two free buddies are left unmerged (up to the
    pageblock order while blocks are isolated), and the counters grow by the
    size of the block, but for isolated ones. *)
Theorem free_one_page_spec z p o t :
  wf z -> initialized z = true -> coalesced (merge_limit z) z -> freeable z p o ->
  0 <= t < MIGRATE_TYPES ->
  exists z', __free_one_page z p o t = Done z' /\ wf z' /\ coalesced (merge_limit z) z' /\
    (forall q, free_page z' q <-> free_page z q \/ p <= q < p + 2 ^ o) /\
    vm_free_pages z' = vm_free_pages z + (if is_migrate_isolate t then 0 else 2 ^ o).
Proof using All.
  intros Hwf Hi Hco Hf Ht. destruct (__free_one_page_ok z p o t Hwf Hi Hco Hf Ht) as (z' & -> & []).
  by exists z'.
Qed.

(** [__rmqueue_smallest] takes the front of the list of the smallest order
    that is large enough and has any, and answers NULL, changing nothing, only
    if there is none.  The block it answers is aligned, of pages that were all
    free; exactly these are free no more, the rest of a larger block goes back
    on the lists, and no buddies are left unmerged. *)
Theorem rmqueue_smallest_spec lim z order t : wf z -> coalesced lim z -> 0 <= order ->
  (exists c p l z', order <= c < MAX_ORDER /\ free_list z c t = p :: l /\
     (forall c2, order <= c2 < c -> free_list z c2 t = []) /\
     __rmqueue_smallest z order t = Done (z', Some p) /\
     wf z' /\ coalesced lim z' /\ aligned p order /\ get_pcppage_migratetype z' p = t /\
     (forall q, p <= q < p + 2 ^ order -> free_page z q) /\
     (forall q, free_page z' q <-> free_page z q /\ ~ (p <= q < p + 2 ^ order))) \/
  ((forall c2, order <= c2 < MAX_ORDER -> free_list z c2 t = []) /\
   __rmqueue_smallest z order t = Done (z, None)).
Proof using Type.
  intros Hwf Hco Ho.
  destruct (rmqueue_smallest_ok lim z order t Hwf Hco Ho) as [(c & p & l & z' & Hc & Hl & Hmin & Hr & [] & Hi)|Hn];
    [left|by right].
  exists c, p, l, z'. split_and!; try done; [lia|lia|by eapply clear_aligned].
Qed.

(** C7: giving an allocated block back restores the lists: when no pageblock of
    the zone is isolated and the first page of the block carries none of the
    flags that are checked when pages are handed out, the same blocks of the same
    orders are free as before the allocation, whatever was split and merged in
    between and whichever type the block is given back with. *)
Theorem rmqueue_free_roundtrip z order t t' z' p :
  wf z -> coalesced (MAX_ORDER - 1) z -> has_isolate_pageblock (nr_isolate_pageblock z) = false ->
  initialized z = true -> Z.land (page_flags (mem_map z p)) PAGE_FLAGS_CHECK_AT_PREP = 0 ->
  0 <= order -> 0 <= t' < MIGRATE_TYPES ->
  __rmqueue_smallest z order t = Done (z', Some p) ->
  exists z'', __free_one_page z' p order t' = Done z'' /\
    forall q o, (exists t, head z'' q o t) <-> (exists t, head z q o t).
Proof using All.
  intros Hwf Hco Hiso Hinit Hflags Ho Ht' Hr.
  destruct (rmqueue_smallest_ok (MAX_ORDER - 1) z order t Hwf Hco Ho)
    as [(c & p' & l & z1 & _ & _ & _ & Hr' & [T1 T2 T3 T4 T5 T6 T7 T8 _ _] & _)|[_ Hr']]; rewrite Hr in Hr'; simplify_eq.
  assert (Hlim : merge_limit z1 = MAX_ORDER - 1).
  { rewrite (merge_limit_same z) by done. unfold merge_limit. by rewrite Hiso. }
  destruct (__free_one_page_ok z1 p' order t') as (z2 & -> & [F1 F2 _ F4 _ _ _ _ _]); [done| | | |done|].
  { by rewrite (same_init _ _ T3). }
  { by rewrite Hlim. }
  { split; [done|done|]. by rewrite (same_flags _ _ T3). }
  rewrite Hlim in F2. exists z2. split; [done|].
  assert (Hpages : forall q, free_page z2 q <-> free_page z q).
  { intros q. rewrite F4, T8. specialize (T7 q).
    assert (p' <= q < p' + 2 ^ order \/ ~ (p' <= q < p' + 2 ^ order)) by lia. tauto. }
  intros q o. split; intros [t1 H1].
  - by apply (canonical z2 z q o t1).
  - by apply (canonical z z2 q o t1).
Qed.

(** C25: [__rmqueue] for an ordinary type returns, for all orders and flags: with
    an aligned block of free pages, taken out of them exactly, also when it had
    to be stolen from the lists of another type; or with NULL and the same free
    blocks, when neither the lists of the type, nor the CMA lists for movable
    pages, nor those it may fall back to have a block that is large enough.  The
    retries are bounded by the number of free blocks; there is one at most, and
    NULL changes nothing, unless [ALLOC_NOFRAGMENT] is set for an order above
    [pageblock_order], where each retry moves a block that is too small to the
    lists of the type. *)
Theorem rmqueue_spec lim z order mt flags fuel : wf z -> coalesced lim z -> contiguous z ->
  0 <= order < MAX_ORDER -> 0 <= mt < MIGRATE_PCPTYPES ->
  (rmqueue_fuel z <= fuel)%nat \/ (2 <= fuel)%nat /\ order <= min_order order flags ->
  (exists p z', __rmqueue fuel z order mt flags = Done (z', Some p) /\
     wf z' /\ coalesced lim z' /\ aligned p order /\
     (forall q, p <= q < p + 2 ^ order -> free_page z q) /\
     (forall q, free_page z' q <-> free_page z q /\ ~ (p <= q < p + 2 ^ order))) \/
  (exists z', __rmqueue fuel z order mt flags = Done (z', None) /\ wf z' /\ exhausted z order mt flags /\
     (forall q o, (exists t, head z' q o t) <-> (exists t, head z q o t)) /\ (order <= min_order order flags -> z' = z)).
Proof using All.
  intros Hwf Hco Hcont Ho Hmt Hfuel.
  destruct (rmqueue_retries lim order mt flags Ho Hmt fuel z) as [(p & z' & Hr & [] & _)|(z' & Hr & Hre & Hex & _ & Heq)]; try done.
  - destruct Hfuel as [Hf|Hf]; [left; unfold rmqueue_fuel in Hf; lia|by right].
  - left. exists p, z'. split_and!; try done. by eapply clear_aligned.
  - right. exists z'. split_and!; try done; apply Hre.
Qed.

(** The migrate type written for a page is read back for every page of its
    pageblock, or [MIGRATE_UNMOVABLE] for an ordinary type when grouping is
    disabled; the types of all other blocks and every skip mark stay. *)
Theorem pageblock_migratetype_roundtrip z p t :
  0 <= pageblock_order <= PFN_SECTION_SHIFT -> zone_spans_pfn z p = true -> 0 <= p -> 0 <= t < MIGRATE_TYPES ->
  exists z', set_pageblock_migratetype z p t = Done z' /\ forall q, 0 <= q ->
    get_pageblock_migratetype z' q =
      (if Z.shiftr q pageblock_order =? Z.shiftr p pageblock_order
       then if page_group_by_mobility_disabled && (t <? MIGRATE_PCPTYPES) then MIGRATE_UNMOVABLE else t
       else get_pageblock_migratetype z q) /\
    get_pageblock_skip z' q = get_pageblock_skip z q.
Proof using Type.
  intros Hpb Hs Hp Ht. unfold set_pageblock_migratetype.
  set (f := if page_group_by_mobility_disabled && _ then _ else t).
  assert (Hf : 0 <= f < 2 ^ 3).
  { unfold f, MIGRATE_UNMOVABLE. change MIGRATE_TYPES with 6 in Ht. destruct (_ && _); lia. }
  destruct (set_flags_Done Hpb z f p PB_migrate_end (Z.ones 3) Hs) as [z' Hz'].
  exists z'. split; [exact Hz'|]. intros q Hq. split.
  - etrans; [exact (get_set_flags Hpb z p q 2 3 f 2 3 z' Hp Hq ltac:(lia) ltac:(lia) ltac:(lia) ltac:(lia) Hf
                      ltac:(lia) Hs Hz')|]. by rewrite andb_true_r.
  - etrans; [exact (get_set_flags Hpb z p q 2 3 f 3 1 z' Hp Hq ltac:(lia) ltac:(lia) ltac:(lia) ltac:(lia) Hf
                      ltac:(lia) Hs Hz')|]. by rewrite andb_false_r.
Qed.
End Theorems.

(** ** A zone of 32 pages *)

(** Pageblocks of four pages. *)
#[export] Instance small_config : PageAllocConfig := {|
  pageblock_order := 2;
  PFN_SECTION_SHIFT := 15;
  pfn_valid_within _ := true;
  page_zone_id _ := 1;
  page_to_nid _ := 0;
  zone_to_nid _ := 0;
  PAGE_FLAGS_CHECK_AT_PREP := 0xff;
  PAGE_FLAGS_CHECK_AT_FREE := 0x0f;
  __PG_HWPOISON := 0x100;
  is_migrate_isolate t := t =? MIGRATE_ISOLATE;
  has_isolate_pageblock n := negb (n =? 0);
  PageLRU _ := false;
  __PageMovable _ := false;
  page_group_by_mobility_disabled := false;
  watermark_boost_factor := 15000;
|}.
#[export] Instance small_spec : PageAllocSpec.
Proof. split; cbn; unfold MAX_ORDER; lia || done. Qed.

(** Nothing is free yet. *)
Definition zone0 : zone :=
  Zone 1 0 32 true 0 (fun _ => Page false 0 0 0 0 (-1) 0) (fun _ _ => []) (fun _ => 0) 0 0 0 0 0 false 0
    (fun _ => 0) (fun _ _ => 0).

Lemma zone0_wf : wf zone0.
Proof.
  split; unfold head; simpl; try (by intros; match goal with X : _ ∈ [] |- _ => by apply elem_of_nil in X end);
    try done.
  intros. constructor.
Qed.

Lemma zone0_coalesced lim : coalesced lim zone0.
Proof. intros p o t t' Hp. by apply elem_of_nil in Hp. Qed.

Lemma zone0_contiguous : contiguous zone0.
Proof. split; done. Qed.

Lemma zone0_freeable p o : 0 <= o < MAX_ORDER -> aligned p o -> 0 <= p -> p + 2 ^ o <= 32 -> freeable zone0 p o.
Proof.
  intros Ho Ha Hp Hle. split; [split; [done|done| |]|done|done].
  - intros q Hq. unfold bad_range, page_outside_zone_boundaries, zone_spans_pfn, zone_end_pfn. simpl.
    replace (0 <=? q) with true by (symmetry; apply Z.leb_le; lia).
    by replace (q <? 0 + 32) with true by (symmetry; apply Z.ltb_lt; lia).
  - intros q o' t Hq. by apply elem_of_nil in Hq.
Qed.

(** The zone after its 16 lower pages were freed as one movable block. *)
Definition zone1 : zone :=
  match __free_one_page zone0 0 4 MIGRATE_MOVABLE with Done z => z | _ => zone0 end.

Lemma zone1_freed : freed zone0 0 4 MIGRATE_MOVABLE zone1.
Proof.
  destruct (__free_one_page_ok zone0 0 4 MIGRATE_MOVABLE) as (z & Heq & Hf);
    [apply zone0_wf|done|apply zone0_coalesced| |done|].
  - apply zone0_freeable; [done|exists 0; lia|done|done].
  - unfold zone1. by rewrite Heq.
Qed.

Lemma zone1_wf : wf zone1.
Proof. apply zone1_freed. Qed.
Lemma zone1_coalesced : coalesced (MAX_ORDER - 1) zone1.
Proof. exact (freed_coalesced _ _ _ _ _ zone1_freed). Qed.
Lemma zone1_contiguous : contiguous zone1.
Proof. eapply contiguous_same; [apply zone1_freed|apply zone0_contiguous]. Qed.
Lemma zone1_flags q : Z.land (page_flags (mem_map zone1 q)) PAGE_FLAGS_CHECK_AT_PREP = 0.
Proof. by rewrite (same_flags _ _ (freed_same _ _ _ _ _ zone1_freed)). Qed.

Lemma free_one_page_spec_witness :
  exists z', __free_one_page zone0 4 2 MIGRATE_MOVABLE = Done z' /\ vm_free_pages z' = 4 /\ free_page z' 7.
Proof.
  destruct (free_one_page_spec zone0 4 2 MIGRATE_MOVABLE) as (z' & Hr & _ & _ & Hp & Hn);
    [apply zone0_wf|reflexivity|apply zone0_coalesced| |vm_compute; split; congruence|].
  - apply zone0_freeable; [vm_compute; split; congruence|exists 1; lia|lia|lia].
  - exists z'. split; [exact Hr|]. split; [rewrite Hn; reflexivity|]. apply Hp. right. lia.
Defined.

(** The block of 16 pages is split for two. *)
Lemma rmqueue_smallest_spec_witness :
  exists z', __rmqueue_smallest zone1 1 MIGRATE_MOVABLE = Done (z', Some 0) /\ ~ free_page z' 1 /\ free_page z' 2.
Proof.
  destruct (rmqueue_smallest_spec (MAX_ORDER - 1) zone1 1 MIGRATE_MOVABLE)
    as [(c & p & l & z' & Hc & Hl & Hmin & Hr & _ & _ & _ & _ & Hwas & Hp)|[Hn _]];
    [apply zone1_wf|apply zone1_coalesced|lia| |].
  - assert (Hp0 : p = 0).
    { assert (Hc4 : c = 4).
      { destruct (Z_lt_dec 4 c) as [Hlt|Hge].
        - specialize (Hmin 4 ltac:(lia)). vm_compute in Hmin. discriminate.
        - assert (Hcase : c = 1 \/ c = 2 \/ c = 3 \/ c = 4) by lia.
          destruct Hcase as [-> | [-> | [-> | ->]]]; [vm_compute in Hl; discriminate..|reflexivity]. }
      subst c. vm_compute in Hl. congruence. }
    subst p. exists z'. split; [exact Hr|]. rewrite !Hp. split; [lia|]. split; [|lia].
    apply (freed_pages _ _ _ _ _ zone1_freed). right. lia.
  - specialize (Hn 4 ltac:(vm_compute; split; congruence)). vm_compute in Hn. discriminate.
Defined.

Lemma rmqueue_free_roundtrip_witness :
  exists z' z'', __rmqueue_smallest zone1 1 MIGRATE_MOVABLE = Done (z', Some 0) /\
    __free_one_page z' 0 1 MIGRATE_UNMOVABLE = Done z'' /\ exists t, head z'' 0 4 t.
Proof.
  set (z' := match __rmqueue_smallest zone1 1 MIGRATE_MOVABLE with Done (z, _) => z | _ => zone1 end).
  assert (Hr : __rmqueue_smallest zone1 1 MIGRATE_MOVABLE = Done (z', Some 0)) by (vm_compute; reflexivity).
  destruct (rmqueue_free_roundtrip zone1 1 MIGRATE_MOVABLE MIGRATE_UNMOVABLE z' 0) as (z'' & Hf & Hh);
    [apply zone1_wf|apply zone1_coalesced|reflexivity|reflexivity|apply zone1_flags|lia
    |vm_compute; split; congruence|exact Hr|].
  exists z', z''. split; [exact Hr|]. split; [exact Hf|]. apply Hh. exists MIGRATE_MOVABLE.
  unfold head. change (free_list zone1 4 MIGRATE_MOVABLE) with [0]. apply list_elem_of_here.
Defined.

(** An unmovable request steals from the movable block. *)
Lemma rmqueue_spec_witness :
  exists p z', __rmqueue (rmqueue_fuel zone1) zone1 3 MIGRATE_UNMOVABLE 0 = Done (z', Some p) /\ aligned p 3 /\
    forall q, p <= q < p + 2 ^ 3 -> ~ free_page z' q.
Proof.
  destruct (rmqueue_spec (MAX_ORDER - 1) zone1 3 MIGRATE_UNMOVABLE 0 (rmqueue_fuel zone1))
    as [(p & z' & Hr & _ & _ & Ha & _ & Hp)|(_ & _ & _ & Hex & _)];
    [apply zone1_wf|apply zone1_coalesced|apply zone1_contiguous|vm_compute; split; congruence
    |vm_compute; split; congruence|left; lia| |].
  - exists p, z'. split; [exact Hr|]. split; [exact Ha|]. intros q Hq. rewrite Hp. tauto.
  - destruct (Hex 4 ltac:(vm_compute; split; congruence)) as (_ & _ & Hf).
    specialize (Hf ltac:(vm_compute; congruence) MIGRATE_MOVABLE ltac:(vm_compute; split; congruence)
                  ltac:(vm_compute; congruence)). vm_compute in Hf. discriminate.
Defined.

Lemma pageblock_migratetype_roundtrip_witness :
  exists z', set_pageblock_migratetype zone1 5 MIGRATE_RECLAIMABLE = Done z' /\
    get_pageblock_migratetype z' 7 = MIGRATE_RECLAIMABLE /\ get_pageblock_migratetype z' 8 = MIGRATE_UNMOVABLE.
Proof.
  destruct (pageblock_migratetype_roundtrip zone1 5 MIGRATE_RECLAIMABLE) as (z' & Hr & Hget);
    [vm_compute; split; congruence|reflexivity|lia|vm_compute; split; congruence|].
  exists z'. split; [exact Hr|].
  split; [rewrite (proj1 (Hget 7 ltac:(lia)))|rewrite (proj1 (Hget 8 ltac:(lia)))]; reflexivity.
Defined.

(** [ALLOC_NOFRAGMENT] starts the fallback at the pageblock order even for a
    request of a higher one: a block that is too small is stolen, and the
    allocation fails all the same. *)
Definition zone2 : zone :=
  match __free_one_page zone0 0 2 MIGRATE_MOVABLE with Done z => z | _ => zone0 end.
Example nofragment_steals_for_nothing :
  free_list zone2 2 MIGRATE_MOVABLE = [0] /\
  match __rmqueue (rmqueue_fuel zone2) zone2 3 MIGRATE_UNMOVABLE ALLOC_NOFRAGMENT with
  | Done (z, None) => free_list z 2 MIGRATE_MOVABLE = [] /\ free_list z 2 MIGRATE_UNMOVABLE = [0]
  | _ => False
  end.
Proof. vm_compute. done. Qed.

(** With two such blocks it retries twice. *)
Definition zone3 : zone :=
  match __free_one_page zone2 8 2 MIGRATE_MOVABLE with Done z => z | _ => zone0 end.
Example nofragment_retries_per_block :
  __rmqueue 2 zone3 3 MIGRATE_UNMOVABLE ALLOC_NOFRAGMENT = NoFuel /\
  match __rmqueue (rmqueue_fuel zone3) zone3 3 MIGRATE_UNMOVABLE ALLOC_NOFRAGMENT with
  | Done (z, None) => free_list z 2 MIGRATE_UNMOVABLE = [0; 8]
  | _ => False
  end.
Proof. vm_compute. done. Qed.
