(* ===== verification/BuddyMarks.v ===== *)
(** * Buddy allocator: watermarks and isolation

    The watermark checks of [src/new/mm/page_alloc.c] on a zone and taking one
    free block out of it for compaction; and the theorem that a zone that passes
    the check for a higher order can serve it. *)

From S2P Require Import Prelude Buddy BuddyInv BuddyFree BuddyAlloc BuddySteal BuddyFallback.

(** [zone_page_state], with [CONFIG_SMP] *)
Definition zone_page_state (x : Z) : Z := if x <? 0 then 0 else x.

Definition has_flag (alloc_flags f : Z) : bool := bool_of (Z.land alloc_flags f).

(** The search for a suitable page, [n] being [MAX_ORDER - o]. *)
Fixpoint watermark_loop (n : nat) (z : zone) (o alloc_flags : Z) (alloc_harder : bool) : bool :=
  match n with
  | O => false
  | S n =>
      if nr_free z o =? 0 then watermark_loop n z (o + 1) alloc_flags alloc_harder
      else if existsb (fun mt => negb (list_empty (free_list z o mt))) (seqZ 0 MIGRATE_PCPTYPES) then true
      else if has_flag alloc_flags ALLOC_CMA && negb (list_empty (free_list z o MIGRATE_CMA)) then true
      else if alloc_harder && negb (list_empty (free_list z o MIGRATE_HIGHATOMIC)) then true
      else watermark_loop n z (o + 1) alloc_flags alloc_harder
  end.

Definition __zone_watermark_ok (z : zone) (order mark classzone_idx alloc_flags free_pages : Z) : bool :=
  let min := s64 mark in
  let alloc_harder := has_flag alloc_flags (Z.lor ALLOC_HARDER ALLOC_OOM) in
  let free_pages := free_pages - (Z.shiftl 1 order - 1) in
  let min := if has_flag alloc_flags ALLOC_HIGH then min - Z.quot min 2 else min in
  let '(free_pages, min) :=
    if negb alloc_harder then (s64 (free_pages - nr_reserved_highatomic z), min)
    else if has_flag alloc_flags ALLOC_OOM then (free_pages, min - Z.quot min 2)
    else (free_pages, min - Z.quot min 4) in
  let free_pages :=
    if negb (has_flag alloc_flags ALLOC_CMA)
    then s64 (free_pages - zone_page_state (vm_free_cma_pages z)) else free_pages in
  if free_pages <=? min + lowmem_reserve z classzone_idx then false
  else if order =? 0 then true
  else watermark_loop (Z.to_nat (MAX_ORDER - order)) z order alloc_flags alloc_harder.

Definition zone_watermark_ok (z : zone) (order mark classzone_idx alloc_flags : Z) : bool :=
  __zone_watermark_ok z order mark classzone_idx alloc_flags (zone_page_state (vm_free_pages z)).

(** The comparison with [mark], an [unsigned long], is unsigned. *)
Definition zone_watermark_fast (z : zone) (order mark classzone_idx alloc_flags : Z) : bool :=
  let free_pages := zone_page_state (vm_free_pages z) in
  let cma_pages :=
    if negb (has_flag alloc_flags ALLOC_CMA) then zone_page_state (vm_free_cma_pages z) else 0 in
  if (order =? 0) && (u64 (free_pages - cma_pages) >? u64 (mark + lowmem_reserve z classzone_idx)) then true
  else __zone_watermark_ok z order mark classzone_idx alloc_flags free_pages.

Definition min_wmark_pages (z : zone) : Z := u64 (wmark_min z + watermark_boost z).

Section Isolate.
Context `{PageAllocConfig}.

(** [for (; page < endpage; page += pageblock_nr_pages)] *)
Fixpoint isolate_types_loop (fuel : nat) (z : zone) (page endpage : Z) : outcome zone :=
  match fuel with
  | O => NoFuel
  | S fuel =>
      if page <? endpage then
        let mt := get_pageblock_migratetype z page in
        z ← (if negb (is_migrate_isolate mt) && negb (is_migrate_cma mt) && negb (is_migrate_highatomic mt)
             then set_pageblock_migratetype z page MIGRATE_MOVABLE else Done z);
        isolate_types_loop fuel z (page + pageblock_nr_pages) endpage
      else Done z
  end.

Definition __isolate_free_page (z : zone) (page order : Z) : outcome (zone * Z) :=
  _ ← BUG_ON (negb (PageBuddy (mem_map z page)));
  let mt := get_pageblock_migratetype z page in
  let watermark := u64 (min_wmark_pages z + Z.shiftl 1 order) in
  if negb (is_migrate_isolate mt) && negb (zone_watermark_ok z 0 watermark 0 ALLOC_CMA) then Done (z, 0)
  else
    let z := if negb (is_migrate_isolate mt) then __mod_zone_freepage_state z (- Z.shiftl 1 order) mt else z in
    z ← list_del z page;
    let z := nr_free_dec z order in
    let z := rmv_page_order z page in
    z ← (if order >=? pageblock_order - 1
         then isolate_types_loop (Z.to_nat (Z.shiftl 1 order)) z page (page + Z.shiftl 1 order - 1)
         else Done z);
    Done (z, Z.shiftl 1 order).
End Isolate.

Section Marks.
Context `{PageAllocSpec}.

(** A block the check counts on. *)
Definition usable (z : zone) (o flags : Z) (harder : bool) : Prop :=
  exists t, free_list z o t <> [] /\
    (0 <= t < MIGRATE_PCPTYPES \/ (has_flag flags ALLOC_CMA = true /\ t = MIGRATE_CMA) \/
     (harder = true /\ t = MIGRATE_HIGHATOMIC)).

Lemma list_empty_false l : negb (list_empty l) = true <-> l <> [].
Proof using Type. destruct l; simpl; [by split|split; [done|]]. done. Qed.

Lemma watermark_loop_ok z flags harder : wf z -> forall n o, 0 <= o -> n = Z.to_nat (MAX_ORDER - o) ->
  watermark_loop n z o flags harder = true <-> exists c, o <= c < MAX_ORDER /\ usable z c flags harder.
Proof using Type.
  intros Hwf. induction n as [|n IH]; intros o Ho Hn; cbn [watermark_loop].
  { split; [done|]. intros (c & Hc & _). lia. }
  assert (Hstep : (~ usable z o flags harder) ->
    watermark_loop n z (o + 1) flags harder = true <-> exists c, o <= c < MAX_ORDER /\ usable z c flags harder).
  { intros Hno. rewrite IH by lia. split; intros (c & Hc & Hu); exists c; (split; [|done]); [lia|].
    destruct (Z.eq_dec c o) as [->|]; [done|lia]. }
  assert (Hhere : usable z o flags harder -> exists c, o <= c < MAX_ORDER /\ usable z c flags harder).
  { intros Hu. exists o. split; [lia|done]. }
  destruct (Z.eqb_spec (nr_free z o) 0) as [Hz|_].
  { apply Hstep. intros (t & Ht & _). destruct Ht. apply count_zero; [done|lia|done]. }
  destruct (existsb _ _) eqn:Hex.
  { split; [intros _|done]. apply Hhere. apply existsb_exists in Hex as (t & Hin & Ht).
    apply list_elem_of_In, elem_of_seqZ in Hin. apply list_empty_false in Ht. exists t. split; [done|]. lia. }
  destruct (has_flag flags ALLOC_CMA && _) eqn:Hcma.
  { split; [intros _|done]. apply Hhere. apply andb_true_iff in Hcma as [Hf Ht%list_empty_false].
    exists MIGRATE_CMA. tauto. }
  destruct (harder && _) eqn:Hh.
  { split; [intros _|done]. apply Hhere. apply andb_true_iff in Hh as [Hf Ht%list_empty_false].
    exists MIGRATE_HIGHATOMIC. tauto. }
  apply Hstep. intros (t & Ht & [Hr|[[Hf ->]|[Hf ->]]]).
  - apply not_true_iff_false in Hex. apply Hex, existsb_exists. exists t.
    split; [apply list_elem_of_In, elem_of_seqZ; lia|by apply list_empty_false].
  - rewrite Hf in Hcma. simpl in Hcma. by apply list_empty_false in Ht; rewrite Hcma in Ht.
  - rewrite Hf in Hh. simpl in Hh. by apply list_empty_false in Ht; rewrite Hh in Ht.
Qed.

Lemma watermark_usable z order mark idx flags free : wf z -> 0 < order ->
  __zone_watermark_ok z order mark idx flags free = true ->
  exists c, order <= c < MAX_ORDER /\ usable z c flags (has_flag flags (Z.lor ALLOC_HARDER ALLOC_OOM)).
Proof using Type.
  intros Hwf Ho Hok. unfold __zone_watermark_ok in Hok.
  set (harder := has_flag flags (Z.lor ALLOC_HARDER ALLOC_OOM)) in *.
  destruct (if negb harder then _ else _) as [f m]. destruct (_ <=? _) in Hok; [done|].
  destruct (Z.eqb_spec order 0); [lia|]. by apply (watermark_loop_ok z flags harder Hwf _ order ltac:(lia) eq_refl).
Qed.

(** C26: a zone that passes the watermark check for an order above 0 serves an
    allocation of that order, under four conditions: the type is an ordinary one;
    neither [ALLOC_HARDER] nor [ALLOC_OOM] is set, which make the check count the
    reserve of atomic requests; [ALLOC_NOFRAGMENT], which forbids to take part of
    a pageblock of another type, is not set; and [ALLOC_CMA] is set for movable
    pages only. *)
Theorem watermark_ok_serves lim z order mark idx mt flags fuel :
  wf z -> coalesced lim z -> contiguous z -> 0 < order < MAX_ORDER -> 0 <= mt < MIGRATE_PCPTYPES ->
  has_flag flags (Z.lor ALLOC_HARDER ALLOC_OOM) = false ->
  has_flag flags ALLOC_NOFRAGMENT = false -> (has_flag flags ALLOC_CMA = true -> mt = MIGRATE_MOVABLE) ->
  (2 <= fuel)%nat ->
  zone_watermark_ok z order mark idx flags = true ->
  exists p z', __rmqueue fuel z order mt flags = Done (z', Some p).
Proof using All.
  intros Hwf Hco Hcont Ho Hmt Hharder Hfrag Hcma Hfuel Hok.
  assert (Hmin : min_order order flags = order) by (unfold min_order; unfold has_flag in Hfrag; by rewrite Hfrag).
  apply watermark_usable in Hok as (c & Hc & t & Ht & Hcase); [|done|lia].
  destruct (rmqueue_retries lim order mt flags ltac:(lia) Hmt fuel z) as [(p & z' & Hr & _)|(_ & _ & _ & Hex & _)]; try done.
  { right. rewrite Hmin. split; [done|lia]. }
  { by exists p, z'. }
  destruct (Hex c Hc) as (H1 & H2 & H3). rewrite Hmin in H3. destruct Ht.
  destruct Hcase as [Hr|[[Hf ->]|[Hf _]]]; [|by apply H2, Hcma|by rewrite Hharder in Hf].
  destruct (Z.eq_dec t mt) as [->|Hne]; [done|]. apply H3; [lia|done|done].
Qed.

(** ** Isolating a free block *)
Lemma isolate_types_ok endpage : forall fuel z page, contiguous z ->
  (forall q, page <= q < endpage -> zone_spans_pfn z q = true) ->
  Z.max 0 (endpage - page) < Z.of_nat fuel ->
  exists z', isolate_types_loop fuel z page endpage = Done z' /\ unchanged z z'.
Proof using All.
  assert (Hpos : 0 < pageblock_nr_pages).
  { unfold pageblock_nr_pages. pose proof pageblock_order_range. rewrite pages_pow by lia. apply pow_pos. lia. }
  induction fuel as [|fuel IH]; intros z page Hcont Hs Hf; [lia|]. cbn [isolate_types_loop].
  destruct (Z.ltb_spec page endpage) as [Hlt|]; [|by eexists].
  assert (Hset : exists z1, (if negb (is_migrate_isolate (get_pageblock_migratetype z page)) &&
      negb (is_migrate_cma (get_pageblock_migratetype z page)) &&
      negb (is_migrate_highatomic (get_pageblock_migratetype z page))
      then set_pageblock_migratetype z page MIGRATE_MOVABLE else Done z) = Done z1 /\ unchanged z z1).
  { destruct (_ && _ && _); [apply set_pageblock_ok; [done|done|apply Hs; lia]|by eexists]. }
  destruct Hset as (z1 & -> & Hu1). cbn [mbind outcome_bind].
  destruct (IH z1 (page + pageblock_nr_pages)) as (z2 & -> & Hu2); [eapply contiguous_same; [apply Hu1|done]| |lia|].
  { intros q Hq. rewrite (spans_same z) by apply Hu1. apply Hs. lia. }
  eexists. split; [done|]. by eapply unchanged_trans.
Qed.

(** Isolating a free block either obeys the watermark, changing nothing and
    answering 0, or takes exactly that block out of the free pages and answers
    its size, keeping the lists a coalesced partition of what is left and, for a
    block that is not isolated already, the counter in step with them. *)
Theorem isolate_free_page_spec lim z p o t : wf z -> coalesced lim z -> contiguous z -> head z p o t ->
  let isolated := is_migrate_isolate (get_pageblock_migratetype z p) in
  let ok := zone_watermark_ok z 0 (u64 (min_wmark_pages z + 2 ^ o)) 0 ALLOC_CMA in
  (isolated = false /\ ok = false /\ __isolate_free_page z p o = Done (z, 0)) \/
  ((isolated = true \/ ok = true) /\
   exists z', __isolate_free_page z p o = Done (z', 2 ^ o) /\ wf z' /\ coalesced lim z' /\
     (forall q, free_page z' q <-> free_page z q /\ ~ (p <= q < p + 2 ^ o)) /\
     total z' = total z - 2 ^ o /\
     vm_free_pages z' = vm_free_pages z - (if isolated then 0 else 2 ^ o)).
Proof using All.
  intros Hwf Hco Hcont Hp isolated ok. unfold __isolate_free_page.
  destruct (wf_marked z Hwf _ _ _ Hp) as [-> _]. cbn [negb BUG_ON mbind outcome_bind].
  pose proof (wf_order z Hwf _ _ _ Hp) as Ho. rewrite pages_pow by lia. fold isolated. fold ok.
  destruct (negb isolated && negb ok) eqn:Hno.
  { left. apply andb_true_iff in Hno as [Hi%negb_true_iff Hk%negb_true_iff]. done. }
  right. split; [destruct isolated, ok; simpl in Hno; auto; done|].
  set (z0 := if negb isolated then _ else z).
  assert (Hl0 : same_lists z z0) by (unfold z0; destruct (negb isolated); [apply mod_state_lists|done]).
  assert (Hv0 : vm_free_pages z0 = vm_free_pages z - (if isolated then 0 else 2 ^ o)).
  { unfold z0, __mod_zone_freepage_state. destruct isolated; simpl; [lia|]. by destruct (is_migrate_cma _). }
  pose proof (wf_lists z z0 Hl0 Hwf) as Hwf0.
  assert (Hp0 : head z0 p o t) by (by apply (head_lists z)).
  rewrite (list_del_head z0 p o t) by done. cbn [mbind outcome_bind].
  change (rmv_page_order (nr_free_dec (set_free_list z0 _) o) p) with (remove_block z0 p o).
  assert (Htypes : exists z', (if o >=? pageblock_order - 1
      then isolate_types_loop (Z.to_nat (2 ^ o)) (remove_block z0 p o) p (p + 2 ^ o - 1)
      else Done (remove_block z0 p o)) = Done z' /\ unchanged (remove_block z0 p o) z').
  { destruct (o >=? pageblock_order - 1); [|by eexists].
    pose proof (pow_pos o ltac:(lia)). apply isolate_types_ok; [|
      |lia].
    { eapply contiguous_same; [|exact Hcont]. etrans; [apply (lists_same _ _ Hl0)|apply remove_same]. }
    intros q Hq. rewrite (spans_same z0) by apply remove_same. eapply (head_spans z0 p o t); [done|done|lia]. }
  destruct Htypes as (z' & -> & Hl & Hv & _ & _). cbn [mbind outcome_bind]. exists z'. split; [done|].
  split_and!.
  - eapply wf_lists; [done|]. by eapply wf_remove.
  - eapply coalesced_lists; [done|]. apply coalesced_remove. by eapply coalesced_lists.
  - intros q. by rewrite (free_lists _ _ q Hl), (free_remove z0 p o t), (free_lists z z0).
  - rewrite (total_ext _ _ (lists_nr _ _ Hl)), total_remove by done.
    by rewrite (total_ext z z0 (lists_nr _ _ Hl0)).
  - rewrite Hv. exact Hv0.
Qed.
End Marks.
