(* ===== verification/BuddyBulk.v ===== *)
(** * Buddy allocator: batches for the per-CPU lists

    [rmqueue_bulk] as a sequence of allocations: what it hands out, what is left
    and that the counter of free pages follows; and runs of the watermark and
    isolation theorems on the example zone. *)

From S2P Require Import Prelude Buddy BuddyInv BuddyFree BuddyAlloc BuddySteal BuddyFallback BuddyProps BuddyMarks.

Section Bulk.
Context `{PageAllocSpec}.

(** The blocks of a list of pages of an order. *)
Definition blocks (order : Z) (l : list Z) : list (Z * Z) := (fun p => (p, order)) <$> l.

Record batch (lim : Z) (z : zone) (order mt : Z) (new : list Z) (z' : zone) : Prop := {
  batch_wf : wf z';
  batch_coalesced : coalesced lim z';
  batch_same : same_zone z z';
  batch_nr : vm_free_pages z' = vm_free_pages z;
  batch_total : total z' = total z - Z.of_nat (length new) * 2 ^ order;
  batch_aligned : Forall (fun p => aligned p order) new;
  batch_free q : Exists (fun b => in_block b q) (blocks order new) -> free_page z q;
  batch_apart : pairwise_apart (blocks order new);
  batch_pages q : free_page z' q <-> free_page z q /\ ~ Exists (fun b => in_block b q) (blocks order new);
  batch_remembered : Forall (fun p => remembered z' p mt) new;
  batch_index q : q ∉ new -> get_pcppage_migratetype z' q = get_pcppage_migratetype z q;
  batch_types : types_ok z -> types_ok z';
}.

Lemma batch_nil lim z order mt : wf z -> coalesced lim z -> batch lim z order mt [] z.
Proof using Type.
  intros Hwf Hco. split; [done|done|done|done|simpl; lia|constructor| |done| |constructor|done|done].
  - intros q Hq. by rewrite Exists_nil in Hq.
  - intros q. rewrite Exists_nil. tauto.
Qed.

(** A block of the batch starts with a page that was free. *)
Lemma batch_start_free lim z order mt new z' p : 0 <= order ->
  batch lim z order mt new z' -> p ∈ new -> free_page z p.
Proof using Type.
  intros Ho Hb Hp. apply (batch_free _ _ _ _ _ _ Hb), list.Exists_exists. exists (p, order).
  split; [apply list_elem_of_fmap; by exists p|]. unfold in_block. simpl. pose proof (pow_pos order Ho). lia.
Qed.

Lemma batch_cons lim z order mt p z1 z1' new z2 : 0 <= order ->
  allocated lim z p order z1 -> remembered z1 p mt ->
  same_lists z1 z1' -> vm_free_pages z1' = vm_free_pages z1 -> same_index z1 z1' -> (types_ok z1 -> types_ok z1') ->
  batch lim z1' order mt new z2 -> batch lim z order mt (p :: new) z2.
Proof using Type.
  intros Ho [A1 A2 A3 A4 A5 A6 A7 A8 A9 A10 AI AT] Hrem Hl Hv Hi Ht Hb.
  pose proof (batch_start_free _ _ _ _ _ _ p Ho Hb) as Hstart. pose proof (pow_pos order Ho) as Hpos.
  destruct Hb as [B1 B2 B3 B4 B5 B6 B7 B8 B9 BR BI BT].
  assert (Hf : forall q, free_page z1' q <-> free_page z1 q) by (intros; by apply free_lists).
  assert (Hp : p ∉ new) by (intros Hp; apply Hstart, Hf, A9 in Hp; lia).
  split; try done.
  - etrans; [done|]. etrans; [apply (lists_same _ _ Hl)|done].
  - congruence.
  - rewrite B5, (total_ext z1 z1' (lists_nr _ _ Hl)), A10. cbn [length]. lia.
  - apply list.Forall_cons. split; [by eapply clear_aligned|done].
  - intros q. cbn [blocks fmap list_fmap]. rewrite Exists_cons. intros [Hq|Hq]; [by apply A8|].
    specialize (B7 q Hq). apply Hf, A9 in B7. tauto.
  - cbn [blocks fmap list_fmap pairwise_apart]. split; [|done]. apply list.Forall_forall. intros b Hb q Hq Hq'.
    assert (Hfq : free_page z1' q) by (apply B7, list.Exists_exists; by exists b).
    apply Hf, A9 in Hfq as [_ Hfq]. by apply Hfq.
  - intros q. rewrite B9, Hf, A9. cbn [blocks fmap list_fmap]. rewrite Exists_cons. unfold in_block at 2. simpl. tauto.
  - apply list.Forall_cons. split; [|done]. unfold remembered. rewrite BI, Hi by done. done.
  - intros q Hq. rewrite not_elem_of_cons in Hq. destruct Hq. rewrite BI, Hi, AI by done. done.
  - auto.
Qed.

Lemma bulk_loop_ok lim order mt flags : 0 <= order < MAX_ORDER -> 0 <= mt < MIGRATE_PCPTYPES ->
  order <= min_order order flags -> forall n z i alloced l,
  wf z -> coalesced lim z -> contiguous z ->
  exists z' new, rmqueue_bulk_loop n z order i alloced l mt flags =
      Done (z', l ++ new, alloced + Z.of_nat (length new), i + Z.of_nat (length new)) /\
    (length new <= n)%nat /\ batch lim z order mt new z' /\
    ((length new < n)%nat -> exhausted z' order mt flags).
Proof using All.
  intros Ho Hmt Hmin. induction n as [|n IH]; intros z i alloced l Hwf Hco Hcont; cbn [rmqueue_bulk_loop].
  { exists z, []. rewrite app_nil_r, !Z.add_0_r. split; [done|]. split; [done|].
    split; [by apply batch_nil|simpl; lia]. }
  destruct (rmqueue_ok lim z order mt flags (rmqueue_fuel z)) as [(p & z1 & -> & Ha & Hrem)|(z1 & -> & _ & Hex & _ & Hz)];
    try done; cbn [mbind outcome_bind].
  2:{ rewrite (Hz Hmin). exists z, []. rewrite app_nil_r, !Z.add_0_r. split; [done|]. split; [simpl; lia|]. split; [by apply batch_nil|done]. }
  set (z2 := if is_migrate_cma _ then _ else z1).
  assert (Hl : same_lists z1 z2) by (unfold z2; by destruct (is_migrate_cma _)).
  assert (Hv : vm_free_pages z2 = vm_free_pages z1) by (unfold z2; by destruct (is_migrate_cma _)).
  assert (Hi : same_index z1 z2) by (unfold z2; by destruct (is_migrate_cma _)).
  assert (Hpf : pageblock_flags z2 = pageblock_flags z1) by (unfold z2; by destruct (is_migrate_cma _)).
  pose proof Ha as [A1 A2 A3 _ _ _ _ _ _ _ _ _].
  destruct (IH z2 (i + 1) (alloced + 1) (l ++ [p])) as (z' & new & -> & Hlen & Hb & Hex).
  - by eapply wf_lists.
  - by eapply coalesced_lists.
  - eapply contiguous_same; [|done]. etrans; [done|apply (lists_same _ _ Hl)].
  - exists z', (p :: new). split.
    { rewrite <- app_assoc. cbn [length app]. rewrite Nat2Z.inj_succ, <- !Z.add_1_l, !Z.add_assoc. done. }
    split; [simpl; lia|]. split; [|intros Hn; apply Hex; simpl in Hn; lia].
    eapply (batch_cons lim z order mt p z1 z2); try done; [lia|by apply types_flags].
Qed.

(** The counters come last. *)
Lemma rmqueue_bulk_ok lim z order count l mt flags :
  wf z -> coalesced lim z -> contiguous z -> 0 <= order < MAX_ORDER -> 0 <= mt < MIGRATE_PCPTYPES ->
  order <= min_order order flags ->
  exists z1 z' new, rmqueue_bulk z order count l mt flags = Done (z', l ++ new, Z.of_nat (length new)) /\
    (length new <= Z.to_nat count)%nat /\ batch lim z order mt new z1 /\
    z' = set_vm_stat z1 (vm_free_pages z1 - Z.of_nat (length new) * 2 ^ order) (vm_free_cma_pages z1) /\
    ((length new < Z.to_nat count)%nat -> exhausted z1 order mt flags).
Proof using All.
  intros Hwf Hco Hcont Ho Hmt Hmin. unfold rmqueue_bulk.
  destruct (bulk_loop_ok lim order mt flags Ho Hmt Hmin (Z.to_nat count) z 0 0 l Hwf Hco Hcont)
    as (z1 & new & -> & Hlen & Hb & Hex).
  cbn [mbind outcome_bind]. rewrite !Z.add_0_l, Z.shiftl_mul_pow2 by lia. by do 3 eexists.
Qed.

(** [rmqueue_bulk] returns and appends at most [count] aligned blocks to
    the caller's list, disjoint and all of pages that were free; exactly their
    pages are free no more, the counter of free pages keeps its distance to the
    number of pages on the lists, and a short batch means that no list it may use
    has a block that is large enough. *)
Theorem rmqueue_bulk_spec lim z order count l mt flags :
  wf z -> coalesced lim z -> contiguous z -> 0 <= order < MAX_ORDER -> 0 <= mt < MIGRATE_PCPTYPES ->
  order <= min_order order flags ->
  exists z' new, rmqueue_bulk z order count l mt flags = Done (z', l ++ new, Z.of_nat (length new)) /\
    (length new <= Z.to_nat count)%nat /\ Forall (fun p => aligned p order) new /\
    pairwise_apart (blocks order new) /\
    (forall q, Exists (fun b => in_block b q) (blocks order new) -> free_page z q) /\
    wf z' /\ coalesced lim z' /\
    (forall q, free_page z' q <-> free_page z q /\ ~ Exists (fun b => in_block b q) (blocks order new)) /\
    vm_free_pages z' - total z' = vm_free_pages z - total z /\
    ((length new < Z.to_nat count)%nat -> exhausted z' order mt flags).
Proof using All.
  intros Hwf Hco Hcont Ho Hmt Hmin.
  destruct (rmqueue_bulk_ok lim z order count l mt flags)
    as (z1 & z' & new & Hr & Hlen & [B1 B2 B3 B4 B5 B6 B7 B8 B9 _ _ _] & Hz' & Hex); try done.
  assert (Hl : same_lists z1 z') by (by subst).
  exists z', new. split_and!; try done.
  - by eapply wf_lists.
  - by eapply coalesced_lists.
  - intros q. by rewrite (free_lists z1).
  - rewrite (total_ext z1 z' (lists_nr _ _ Hl)). subst. cbn [vm_free_pages set_vm_stat]. lia.
  - by subst.
Qed.
End Bulk.

(** ** Runs on the example zone *)

(** Three pairs of pages for the unmovable type, out of the movable block. *)
Lemma rmqueue_bulk_spec_witness :
  exists z', rmqueue_bulk zone1 1 3 [] MIGRATE_UNMOVABLE 0 = Done (z', [0; 2; 4], 3) /\
    vm_free_pages z' = total z' /\ ~ free_page z' 5.
Proof.
  destruct (rmqueue_bulk_spec (MAX_ORDER - 1) zone1 1 3 [] MIGRATE_UNMOVABLE 0)
    as (z' & new & Hr & _ & _ & _ & _ & _ & _ & Hp & Hv & _);
    [apply zone1_wf|apply zone1_coalesced|apply zone1_contiguous|vm_compute; split; congruence
    |vm_compute; split; congruence|vm_compute; congruence|].
  assert (Hnew : match rmqueue_bulk zone1 1 3 [] MIGRATE_UNMOVABLE 0 with
                 | Done (_, l, n) => l = [0; 2; 4] /\ n = 3 | _ => False end) by (vm_compute; split; reflexivity).
  rewrite Hr in Hnew. destruct Hnew as [Hn Hc]. cbn [app] in Hn. subst new. rewrite Hc in Hr.
  exists z'. split; [exact Hr|]. change (vm_free_pages zone1 - total zone1) with 0 in Hv.
  split; [lia|]. rewrite Hp. intros [_ Hno]. apply Hno. right. right. left. vm_compute. split; congruence.
Defined.

Lemma watermark_ok_serves_witness :
  exists p z', __rmqueue 2 zone1 3 MIGRATE_UNMOVABLE 0 = Done (z', Some p).
Proof.
  apply (watermark_ok_serves (MAX_ORDER - 1) zone1 3 2 0 MIGRATE_UNMOVABLE 0 2);
    [apply zone1_wf|apply zone1_coalesced|apply zone1_contiguous|vm_compute; split; congruence
    |vm_compute; split; congruence|reflexivity|reflexivity|vm_compute; congruence|lia|vm_compute; reflexivity].
Defined.

(** One page more than the block is counted as free, so that the watermark of 16
    pages holds. *)
Definition zone1_more : zone := set_vm_stat zone1 17 0.
Lemma isolate_free_page_spec_witness :
  exists z', __isolate_free_page zone1_more 0 4 = Done (z', 2 ^ 4) /\ vm_free_pages z' = 1 /\ ~ free_page z' 3.
Proof.
  assert (Hl : same_lists zone1 zone1_more) by (split; reflexivity || (split; reflexivity)).
  destruct (isolate_free_page_spec (MAX_ORDER - 1) zone1_more 0 4 MIGRATE_MOVABLE)
    as [(_ & Hok & _)|(_ & z' & Hr & _ & _ & Hp & _ & Hv)];
    [exact (wf_lists _ _ Hl zone1_wf)|exact (coalesced_lists _ _ _ Hl zone1_coalesced)
    |exact (contiguous_same _ _ (lists_same _ _ Hl) zone1_contiguous)
    |unfold head; change (free_list zone1_more 4 MIGRATE_MOVABLE) with [0]; apply list_elem_of_here
    |vm_compute in Hok; discriminate|].
  exists z'. split; [exact Hr|]. split; [rewrite Hv; vm_compute; reflexivity|]. rewrite Hp. intros [_ Hno]. apply Hno. lia.
Defined.

(** The fast check compares as unsigned: when the counter of CMA pages runs ahead
    of that of free pages, a zone without a free page passes it. *)
Example watermark_fast_wraps :
  let z := set_vm_stat zone0 0 1 in
  zone_watermark_fast z 0 100 0 0 = true /\ zone_watermark_ok z 0 100 0 0 = false.
Proof. vm_compute. done. Qed.
