(* ===== verification/PerCpu.v ===== *)
(** * Per-CPU page lists and the allocation of pages from a zone

    The layer of [src/new/mm/page_alloc.c] above the free lists: single pages go
    through a cache per CPU, larger blocks to the buddy system.  A page enters
    and leaves the allocator through the checks of its descriptor.  Pages are not
    compound; memory cgroups, poisoning and the other debugging hooks are off. *)

From S2P Require Import Prelude Buddy BuddySteal.

Definition PAGE_MAPPING_FLAGS : Z := 0x3.

Record per_cpu_pages := Pcp {
  pcp_count : Z;
  pcp_high : Z;
  pcp_batch : Z;
  (** the most recently freed page in front *)
  pcp_lists : Z -> list Z;
}.

Definition set_pcp_list (pcp : per_cpu_pages) (count migratetype : Z) (l : list Z) : per_cpu_pages :=
  Pcp count (pcp_high pcp) (pcp_batch pcp) (upd (pcp_lists pcp) migratetype l).

(** A zone with its pagesets. *)
Record page_alloc := PageAlloc { pa_zone : zone; pageset : Z -> per_cpu_pages }.

Definition set_page_flags (z : zone) (p v : Z) : zone :=
  let d := mem_map z p in
  set_mem_map z (upd (mem_map z) p
    (Page (PageBuddy d) (page_private d) (page_count d) v (page_mapping d) (page_mapcount d) (page_index d))).
Definition set_page_mapping (z : zone) (p v : Z) : zone :=
  let d := mem_map z p in
  set_mem_map z (upd (mem_map z) p
    (Page (PageBuddy d) (page_private d) (page_count d) (page_flags d) v (page_mapcount d) (page_index d))).
(** Also takes the mark of the buddy system away. *)
Definition page_mapcount_reset (z : zone) (p : Z) : zone :=
  let d := mem_map z p in
  set_mem_map z (upd (mem_map z) p
    (Page false (page_private d) (page_count d) (page_flags d) (page_mapping d) (-1) (page_index d))).

Section PerCpu.
Context `{PageAllocConfig}.

(** ** Checks of the descriptor *)

(** [_mapcount] is not -1 for a page with the mark of the buddy system. *)
Definition page_expected_state (z : zone) (p check_flags : Z) : bool :=
  let d := mem_map z p in
  if PageBuddy d || negb (page_mapcount d =? -1) then false
  else if bool_of (Z.lor (Z.lor (page_mapping d) (page_count d)) (Z.land (page_flags d) check_flags)) then false
  else true.

(** What [bad_page] changes. *)
Definition bad_page (z : zone) (p : Z) : zone := page_mapcount_reset z p.

Definition free_pages_check (z : zone) (p : Z) : zone * Z :=
  if page_expected_state z p PAGE_FLAGS_CHECK_AT_FREE then (z, 0) else (bad_page z p, 1).
Definition check_new_page (z : zone) (p : Z) : zone * bool :=
  if page_expected_state z p (Z.lor PAGE_FLAGS_CHECK_AT_PREP __PG_HWPOISON) then (z, false)
  else (bad_page z p, true).
Definition check_new_pcp (z : zone) (p : Z) : zone * bool := check_new_page z p.

(** [n] pages from [page + i] on. *)
Fixpoint check_new_loop (n : nat) (z : zone) (p : Z) : zone * bool :=
  match n with
  | O => (z, false)
  | S n => let '(z, bad) := check_new_page z p in
           if bad then (z, true) else check_new_loop n z (p + 1)
  end.
Definition check_new_pages (z : zone) (page order : Z) : zone * bool :=
  check_new_loop (Z.to_nat (pages order)) z page.

Definition clear_prep_flags (z : zone) (p : Z) : zone :=
  set_page_flags z p (Z.land (page_flags (mem_map z p)) (Z.lnot PAGE_FLAGS_CHECK_AT_PREP)).

(** The tail pages, [n] of them from [page + i] on. *)
Fixpoint prepare_loop (n : nat) (z : zone) (p bad : Z) : zone * Z :=
  match n with
  | O => (z, bad)
  | S n =>
      let '(z, c) := free_pages_check z p in
      if bool_of c then prepare_loop n z (p + 1) (bad + 1)
      else prepare_loop n (clear_prep_flags z p) (p + 1) bad
  end.
Definition free_pages_prepare (z : zone) (page order : Z) (check_free : bool) : zone * bool :=
  let '(z, bad) := if bool_of order then prepare_loop (Z.to_nat (pages order - 1)) z (page + 1) 0 else (z, 0) in
  let z := if bool_of (Z.land (page_mapping (mem_map z page)) PAGE_MAPPING_FLAGS)
           then set_page_mapping z page 0 else z in
  let '(z, bad) := if check_free then let '(z, c) := free_pages_check z page in (z, bad + c) else (z, bad) in
  if bool_of bad then (z, false) else (clear_prep_flags z page, true).
Definition free_pcp_prepare (z : zone) (page : Z) : zone * bool := free_pages_prepare z page 0 true.

(** ** Giving cached pages back *)

(** The inner [do ... while (list_empty(list))]: [migratetype] and [batch_free]. *)
Fixpoint next_list (fuel : nat) (pcp : per_cpu_pages) (migratetype batch_free : Z) : outcome (Z * Z) :=
  match fuel with
  | O => NoFuel
  | S fuel =>
      let batch_free := batch_free + 1 in
      let migratetype := migratetype + 1 in
      let migratetype := if migratetype =? MIGRATE_PCPTYPES then 0 else migratetype in
      if list_empty (pcp_lists pcp migratetype) then next_list fuel pcp migratetype batch_free
      else Done (migratetype, batch_free)
  end.

(** [do ... while (--count && --batch_free && !list_empty(list))] *)
Fixpoint take_last_loop (fuel : nat) (pcp : per_cpu_pages) (migratetype count batch_free : Z) (head : list Z)
    : outcome (per_cpu_pages * Z * Z * list Z) :=
  match fuel with
  | O => NoFuel
  | S fuel =>
      match list.last (pcp_lists pcp migratetype) with
      | None => Bug
      | Some page =>
          let l := take (length (pcp_lists pcp migratetype) - 1) (pcp_lists pcp migratetype) in
          let pcp := set_pcp_list pcp (pcp_count pcp - 1) migratetype l in
          let head := head ++ [page] in
          let count := count - 1 in
          if count =? 0 then Done (pcp, count, batch_free, head)
          else
            let batch_free := batch_free - 1 in
            if batch_free =? 0 then Done (pcp, count, batch_free, head)
            else if list_empty l then Done (pcp, count, batch_free, head)
            else take_last_loop fuel pcp migratetype count batch_free head
      end
  end.

(** [while (count)] *)
Fixpoint collect_loop (fuel : nat) (pcp : per_cpu_pages) (count migratetype batch_free : Z) (head : list Z)
    : outcome (per_cpu_pages * list Z) :=
  match fuel with
  | O => NoFuel
  | S fuel =>
      if bool_of count then
        r ← next_list (Z.to_nat MIGRATE_PCPTYPES) pcp migratetype batch_free;
        let '(migratetype, batch_free) := r in
        let batch_free := if batch_free =? MIGRATE_PCPTYPES then count else batch_free in
        r ← take_last_loop (Z.to_nat count) pcp migratetype count batch_free head;
        let '(pcp, count, batch_free, head) := r in
        collect_loop fuel pcp count migratetype batch_free head
      else Done (pcp, head)
  end.

Fixpoint drain_loop (z : zone) (isolated_pageblocks : bool) (head : list Z) : outcome zone :=
  match head with
  | [] => Done z
  | page :: head =>
      let mt := get_pcppage_migratetype z page in
      _ ← BUG_ON (is_migrate_isolate mt);
      let mt := if isolated_pageblocks then get_pageblock_migratetype z page else mt in
      z ← __free_one_page z page 0 mt;
      drain_loop z isolated_pageblocks head
  end.

(** Every turn of the outer loop takes a page at least. *)
Definition free_pcppages_bulk (z : zone) (count : Z) (pcp : per_cpu_pages) : outcome (zone * per_cpu_pages) :=
  r ← collect_loop (S (Z.to_nat count)) pcp count 0 0 [];
  let '(pcp, head) := r in
  z ← drain_loop z (has_isolate_pageblock (nr_isolate_pageblock z)) head;
  Done (z, pcp).

Definition drain_zone_pages (z : zone) (pcp : per_cpu_pages) : outcome (zone * per_cpu_pages) :=
  let batch := pcp_batch pcp in
  let to_drain := Z.min (pcp_count pcp) batch in
  if to_drain >? 0 then free_pcppages_bulk z to_drain pcp else Done (z, pcp).
Definition drain_pages_zone (s : page_alloc) (cpu : Z) : outcome page_alloc :=
  let pcp := pageset s cpu in
  if bool_of (pcp_count pcp) then
    r ← free_pcppages_bulk (pa_zone s) (pcp_count pcp) pcp;
    Done (PageAlloc r.1 (upd (pageset s) cpu r.2))
  else Done s.

(** ** Freeing *)
Definition free_unref_page_prepare (z : zone) (page : Z) : zone * bool :=
  let '(z, ok) := free_pcp_prepare z page in
  if negb ok then (z, false)
  else (set_pcppage_migratetype z page (get_pfnblock_migratetype z page), true).

Definition free_unref_page_commit (s : page_alloc) (cpu page : Z) : outcome page_alloc :=
  let z := pa_zone s in
  let migratetype := get_pcppage_migratetype z page in
  if (migratetype >=? MIGRATE_PCPTYPES) && is_migrate_isolate migratetype then
    z ← free_one_page z page 0 migratetype;
    Done (PageAlloc z (pageset s))
  else
    let migratetype := if migratetype >=? MIGRATE_PCPTYPES then MIGRATE_MOVABLE else migratetype in
    let pcp := pageset s cpu in
    let pcp := set_pcp_list pcp (pcp_count pcp + 1) migratetype (page :: pcp_lists pcp migratetype) in
    if pcp_count pcp >=? pcp_high pcp then
      r ← free_pcppages_bulk z (pcp_batch pcp) pcp;
      Done (PageAlloc r.1 (upd (pageset s) cpu r.2))
    else Done (PageAlloc z (upd (pageset s) cpu pcp)).

Definition free_unref_page (s : page_alloc) (cpu page : Z) : outcome page_alloc :=
  let '(z, ok) := free_unref_page_prepare (pa_zone s) page in
  let s := PageAlloc z (pageset s) in
  if negb ok then Done s else free_unref_page_commit s cpu page.

Definition __free_pages_ok (s : page_alloc) (page order : Z) : outcome page_alloc :=
  let '(z, ok) := free_pages_prepare (pa_zone s) page order true in
  if negb ok then Done (PageAlloc z (pageset s))
  else
    let migratetype := get_pfnblock_migratetype z page in
    z ← free_one_page z page order migratetype;
    Done (PageAlloc z (pageset s)).

Definition free_the_page (s : page_alloc) (cpu page order : Z) : outcome page_alloc :=
  if order =? 0 then free_unref_page s cpu page else __free_pages_ok s page order.

(** ** Allocation *)

(** [do ... while (check_new_pcp(page))] *)
Fixpoint __rmqueue_pcplist (fuel : nat) (z : zone) (migratetype alloc_flags : Z) (pcp : per_cpu_pages)
    : outcome (zone * per_cpu_pages * option Z) :=
  match fuel with
  | O => NoFuel
  | S fuel =>
      r ← (if list_empty (pcp_lists pcp migratetype) then
             r ← rmqueue_bulk z 0 (pcp_batch pcp) (pcp_lists pcp migratetype) migratetype alloc_flags;
             let '(z, l, n) := r in
             Done (z, set_pcp_list pcp (pcp_count pcp + n) migratetype l)
           else Done (z, pcp));
      let '(z, pcp) := r in
      match pcp_lists pcp migratetype with
      | [] => Done (z, pcp, None)
      | page :: l =>
          let pcp := set_pcp_list pcp (pcp_count pcp - 1) migratetype l in
          let '(z, bad) := check_new_pcp z page in
          if bad then __rmqueue_pcplist fuel z migratetype alloc_flags pcp else Done (z, pcp, Some page)
      end
  end.
(** A turn that does not end the loop loses a page of the zone. *)
Definition check_fuel (z : zone) : nat := S (Z.to_nat (spanned_pages z)).
Definition rmqueue_pcplist (s : page_alloc) (cpu migratetype alloc_flags : Z) : outcome (page_alloc * option Z) :=
  r ← __rmqueue_pcplist (check_fuel (pa_zone s)) (pa_zone s) migratetype alloc_flags (pageset s cpu);
  let '(z, pcp, page) := r in
  Done (PageAlloc z (upd (pageset s) cpu pcp), page).

(** [do ... while (page && check_new_pages(page, order))] *)
Fixpoint rmqueue_loop (fuel : nat) (z : zone) (order migratetype alloc_flags : Z) : outcome (zone * option Z) :=
  match fuel with
  | O => NoFuel
  | S fuel =>
      r ← (if bool_of (Z.land alloc_flags ALLOC_HARDER) then __rmqueue_smallest z order MIGRATE_HIGHATOMIC
           else Done (z, None));
      let '(z, page) := r in
      r ← match page with
          | Some page => Done (z, Some page)
          | None => __rmqueue (rmqueue_fuel z) z order migratetype alloc_flags
          end;
      let '(z, page) := r in
      match page with
      | None => Done (z, None)
      | Some page =>
          let '(z, bad) := check_new_pages z page order in
          if bad then rmqueue_loop fuel z order migratetype alloc_flags else Done (z, Some page)
      end
  end.

Definition rmqueue (s : page_alloc) (cpu order alloc_flags migratetype : Z) : outcome (page_alloc * option Z) :=
  r ← (if order =? 0 then rmqueue_pcplist s cpu migratetype alloc_flags
       else
         r ← rmqueue_loop (check_fuel (pa_zone s)) (pa_zone s) order migratetype alloc_flags;
         let '(z, page) := r in
         match page with
         | None => Done (PageAlloc z (pageset s), None)
         | Some page =>
             let z := __mod_zone_freepage_state z (- pages order) (get_pcppage_migratetype z page) in
             Done (PageAlloc z (pageset s), Some page)
         end);
  let '(s, page) := r in
  if negb (order =? 0) && match page with None => true | _ => false end then Done (s, None)
  else
    let z := pa_zone s in
    let z := if boosted_watermark z then set_boost z (watermark_boost z) false else z in
    _ ← BUG_ON match page with Some page => bad_range z page | None => false end;
    Done (PageAlloc z (pageset s), page).

End PerCpu.
