(* ===== verification/PerCpuProps.v ===== *)
(** * Per-CPU page lists: theorems

    The pages on the lists of the CPUs count as blocks that were handed out; every
    operation of [PerCpu] moves pages between the buddy system, these lists and
    the caller, and loses none. *)

From S2P Require Import Prelude Buddy BuddyInv BuddyFree BuddyAlloc BuddySteal BuddyFallback BuddyProps BuddyMarks BuddyBulk PerCpu.

(** ** The lists of one CPU *)
Section Lists.
Context `{PageAllocConfig}.

(** All pages of a CPU. *)
Definition flat (pcp : per_cpu_pages) : list Z := pcp_lists pcp 0 ++ pcp_lists pcp 1 ++ pcp_lists pcp 2.

Definition pcp_type (t : Z) : Prop := t = 0 \/ t = 1 \/ t = 2.

Lemma pcp_type_range t : 0 <= t < MIGRATE_PCPTYPES -> pcp_type t.
Proof using Type. unfold pcp_type, MIGRATE_PCPTYPES. lia. Qed.

(** The list of a type against those of the others. *)
Lemma flat_set pcp t n : pcp_type t -> exists rest, flat pcp ≡ₚ pcp_lists pcp t ++ rest /\
  forall l, flat (set_pcp_list pcp n t l) ≡ₚ l ++ rest.
Proof using Type.
  intros [-> | [-> | ->]]; unfold flat; simpl; unfold upd; simpl.
  - exists (pcp_lists pcp 1 ++ pcp_lists pcp 2). done.
  - exists (pcp_lists pcp 0 ++ pcp_lists pcp 2). split; [|intros l]; by rewrite Permutation_app_swap_app.
  - exists (pcp_lists pcp 0 ++ pcp_lists pcp 1).
    split; [|intros l]; by rewrite app_assoc, (Permutation_app_comm _ (_ ++ _)).
Qed.

Lemma flat_set_same pcp t n l : pcp_type t -> pcp_lists pcp t ≡ₚ l -> flat (set_pcp_list pcp n t l) ≡ₚ flat pcp.
Proof using Type.
  intros Ht Hl. destruct (flat_set pcp t n Ht) as (rest & H1 & H2). by rewrite H2, H1, Hl.
Qed.

Lemma next_list_ok pcp t b : pcp_type t -> flat pcp <> [] ->
  exists t' b', next_list (Z.to_nat MIGRATE_PCPTYPES) pcp t b = Done (t', b') /\
    pcp_type t' /\ pcp_lists pcp t' <> [] /\ b < b'.
Proof using Type.
  intros Ht Hf. change (Z.to_nat MIGRATE_PCPTYPES) with 3%nat.
  assert (Hne : pcp_lists pcp 0 <> [] \/ pcp_lists pcp 1 <> [] \/ pcp_lists pcp 2 <> []).
  { unfold flat in Hf. destruct (pcp_lists pcp 0), (pcp_lists pcp 1), (pcp_lists pcp 2); naive_solver. }
  unfold pcp_type.
  assert (Hstep : forall k, pcp_type k -> (if k + 1 =? MIGRATE_PCPTYPES then 0 else k + 1) =
    if k =? 0 then 1 else if k =? 1 then 2 else 0) by (intros k [-> | [-> | ->]]; done).
  destruct Ht as [-> | [-> | ->]]; cbn [next_list]; rewrite !Hstep by (unfold pcp_type; simpl; tauto); simpl;
    destruct (pcp_lists pcp 0) eqn:E0, (pcp_lists pcp 1) eqn:E1, (pcp_lists pcp 2) eqn:E2; simpl;
    try (by destruct Hne as [?|[?|?]]); do 2 eexists; (split; [reflexivity|]);
    rewrite ?E0, ?E1, ?E2; (split; [tauto|]; split; [done|lia]).
Qed.

(** What a drain of [count] pages leaves. *)
Record drained (pcp : per_cpu_pages) (new : list Z) (pcp' : per_cpu_pages) : Prop := {
  drained_count : pcp_count pcp' = pcp_count pcp - Z.of_nat (length new);
  drained_high : pcp_high pcp' = pcp_high pcp;
  drained_batch : pcp_batch pcp' = pcp_batch pcp;
  drained_flat : flat pcp ≡ₚ new ++ flat pcp';
}.

Lemma drained_nil pcp : drained pcp [] pcp.
Proof using Type. split; simpl; [lia|done..]. Qed.

Lemma drained_app pcp new pcp1 new' pcp2 : drained pcp new pcp1 -> drained pcp1 new' pcp2 -> drained pcp (new ++ new') pcp2.
Proof using Type.
  intros [C H1 B F] [C' H1' B' F']. split; [rewrite length_app; lia|congruence..|]. by rewrite F, F', app_assoc.
Qed.

Lemma drained_last pcp t l p : pcp_type t -> pcp_lists pcp t = l ++ [p] ->
  drained pcp [p] (set_pcp_list pcp (pcp_count pcp - 1) t l).
Proof using Type.
  intros Ht Hl. split; [simpl; lia|done|done|].
  destruct (flat_set pcp t (pcp_count pcp - 1) Ht) as (rest & H1 & H2).
  rewrite H2, H1, Hl. rewrite (Permutation_app_comm l [p]). by rewrite app_assoc.
Qed.

Lemma take_last_ok t : pcp_type t -> forall fuel pcp count b hd,
  pcp_lists pcp t <> [] -> 0 < count <= Z.of_nat fuel -> 0 < b ->
  exists pcp' b' new, take_last_loop fuel pcp t count b hd =
      Done (pcp', count - Z.of_nat (length new), b', hd ++ new) /\
    new <> [] /\ 0 <= count - Z.of_nat (length new) /\ 0 <= b' /\ drained pcp new pcp'.
Proof using Type.
  intros Ht. induction fuel as [|fuel IH]; intros pcp count b hd Hne Hc Hb; [lia|]. cbn [take_last_loop].
  destruct (exists_last Hne) as (l & p & Hl). rewrite Hl, last_snoc.
  rewrite length_app. simpl (length [p]). rewrite Nat.add_sub, take_app_length.
  set (pcp1 := set_pcp_list _ _ _ _).
  assert (Hd : drained pcp [p] pcp1) by (by apply drained_last).
  assert (Hdone : forall b', 0 <= b' -> exists pcp' b2 new,
    Done (pcp1, count - 1, b', hd ++ [p]) = Done (pcp', count - Z.of_nat (length new), b2, hd ++ new) /\
    new <> [] /\ 0 <= count - Z.of_nat (length new) /\ 0 <= b2 /\ drained pcp new pcp').
  { intros b' Hb'. exists pcp1, b', [p]. split_and!; [done|done|simpl; lia|done|done]. }
  destruct (Z.eqb_spec (count - 1) 0); [apply Hdone; lia|].
  destruct (Z.eqb_spec (b - 1) 0); [apply Hdone; lia|].
  destruct l as [|x l]; cbn [list_empty]; [apply Hdone; lia|].
  destruct (IH pcp1 (count - 1) (b - 1) (hd ++ [p])) as (pcp' & b' & new & Hr & Hn & Hc' & Hb' & Hd').
  { simpl. unfold upd. by rewrite Z.eqb_refl. }
  { lia. }
  { lia. }
  exists pcp', b', (p :: new). rewrite Hr. split_and!; [|done|simpl; lia|done|by eapply (drained_app _ [p])].
  rewrite <- app_assoc. cbn [length app].
  by replace (count - 1 - Z.of_nat (length new)) with (count - Z.of_nat (S (length new))) by lia.
Qed.

(** Every turn of the outer loop takes a page at least, so that the loop ends. *)
Lemma collect_loop_ok : forall fuel pcp count t b hd, pcp_type t -> 0 <= b ->
  0 <= count < Z.of_nat fuel -> count <= Z.of_nat (length (flat pcp)) ->
  exists pcp' new, collect_loop fuel pcp count t b hd = Done (pcp', hd ++ new) /\
    Z.of_nat (length new) = count /\ drained pcp new pcp'.
Proof using Type.
  induction fuel as [|fuel IH]; intros pcp count t b hd Ht Hb Hc Hlen; [lia|]. cbn [collect_loop].
  unfold bool_of. destruct (Z.eqb_spec count 0) as [->|Hne]; cbn [negb].
  { exists pcp, []. rewrite app_nil_r. split_and!; [done|done|apply drained_nil]. }
  destruct (next_list_ok pcp t b Ht) as (t1 & b1 & -> & Ht1 & Hl1 & Hb1).
  { intros Hf. rewrite Hf in Hlen. simpl in Hlen. lia. }
  cbn [mbind outcome_bind]. set (b2 := if b1 =? _ then count else b1).
  assert (Hb2 : 0 < b2) by (unfold b2; destruct (b1 =? _); lia).
  destruct (take_last_ok t1 Ht1 (Z.to_nat count) pcp count b2 hd Hl1) as (pcp1 & b3 & new & -> & Hn & Hc1 & Hb3 & Hd);
    [lia|lia|]. cbn [mbind outcome_bind].
  assert (Hpos : (0 < length new)%nat) by (destruct new; [done|simpl; lia]).
  assert (Hflat : length (flat pcp) = (length new + length (flat pcp1))%nat).
  { by rewrite (drained_flat _ _ _ Hd), length_app. }
  destruct (IH pcp1 (count - Z.of_nat (length new)) t1 b3 (hd ++ new) Ht1 Hb3) as (pcp2 & new2 & -> & Hlen2 & Hd2);
    [lia|lia|].
  exists pcp2, (new ++ new2). rewrite app_assoc, length_app. split_and!; [done|lia|by eapply drained_app].
Qed.
End Lists.

(** ** Pages that were handed out *)
Section Held.
Context `{PageAllocSpec}.
#[local] Existing Instance pairwise_apart_perm.

Lemma safe_perm z0 z held held' : held ≡ₚ held' -> safe z0 z held -> safe z0 z held'.
Proof using Type.
  intros Hp [S1 S2 S3 S4 S5 S6]. split; [done|done|done|by rewrite <- Hp|by rewrite <- Hp|].
  intros q. by rewrite S6, Hp.
Qed.

Lemma safe_lists z0 z z' held : same_lists z z' -> safe z0 z held -> safe z0 z' held.
Proof using Type.
  intros Hl [S1 S2 S3 S4 S5 S6]. pose proof (lists_same _ _ Hl) as Hs. split; [by eapply wf_lists| | | |done|].
  - rewrite (merge_limit_same z z') by done. by eapply coalesced_lists.
  - by etrans.
  - eapply list.Forall_impl; [exact S4|]. intros b [Hc Hu]. split; [by eapply clear_lists|by eapply unused_same].
  - intros q. by rewrite (free_lists z z'), S6.
Qed.

Lemma safe_restocked z0 z z' held : restocked z z' -> safe z0 z held -> safe z0 z' held.
Proof using Type.
  intros Hr [S1 S2 S3 S4 S5 S6]. pose proof (restocked_same _ _ Hr) as Hs. split; [apply Hr| | | |done|].
  - rewrite (merge_limit_same z z') by done. by eapply restocked_coalesced.
  - by etrans.
  - eapply list.Forall_impl; [exact S4|]. intros b [[C1 C2 C3 C4] Hu]. split; [|by eapply unused_same].
    split; [done|done|by eapply in_zone_same|]. intros q o' t Hq.
    destruct (proj1 (restocked_heads _ _ Hr q o')) as [t' Ht']; [by exists t|]. by apply (C4 q o' t').
  - intros q. by rewrite (restocked_free z z'), S6.
Qed.

Lemma safe_release z0 z p o t z' rest : safe z0 z ((p, o) :: rest) -> freed z p o t z' -> safe z0 z' rest.
Proof using Type. intros Hs Hf. exact (safe_free z0 z _ 0 p o t z' Hs eq_refl Hf). Qed.

Lemma held_clear z0 z held p o : safe z0 z held -> (p, o) ∈ held -> clear z p o /\ unused z p o.
Proof using Type. intros Hs Hb. pose proof (safe_live _ _ _ Hs) as Hl. rewrite list.Forall_forall in Hl. by apply (Hl (p, o)). Qed.

(** Pages that were free are a block of the zone once they are free no more. *)
Lemma was_free_clear z z' p o : wf z -> wf z' -> same_zone z z' -> 0 <= o < MAX_ORDER -> aligned p o ->
  (forall q, p <= q < p + 2 ^ o -> free_page z q) -> (forall q, p <= q < p + 2 ^ o -> ~ free_page z' q) ->
  clear z' p o /\ unused z' p o.
Proof using Type.
  intros Hwf Hwf' Hs Ho Ha Hf Hn. split; [split; [done|done| |]|].
  - intros q Hq. rewrite (bad_range_same z) by done. destruct (Hf q Hq) as (r & o' & t & Hr & Hin).
    exact (wf_in_zone z Hwf _ _ _ Hr q Hin).
  - intros r o' t Hr. pose proof (wf_order z' Hwf' _ _ _ Hr) as Ho'.
    pose proof (pow_pos o ltac:(lia)). pose proof (pow_pos o' ltac:(lia)).
    unfold disjoint_blocks. destruct (Z_le_dec (p + 2 ^ o) r), (Z_le_dec (r + 2 ^ o') p); try lia. exfalso.
    apply (Hn (Z.max p r)); [lia|]. exists r, o', t. split; [done|lia].
  - intros q Hq. rewrite (same_count _ _ Hs). destruct (Hf q Hq) as (r & o' & t & Hr & Hin).
    exact (wf_block_unused z Hwf _ _ _ Hr q Hin).
Qed.

Lemma pairwise_apart_app l l' : pairwise_apart l -> pairwise_apart l' ->
  (forall b c, b ∈ l -> c ∈ l' -> apart b c) -> pairwise_apart (l ++ l').
Proof using Type.
  intros Hl Hl' Hx. induction l as [|b l IH]; [done|]. destruct Hl as [Hb Hl]. cbn [app pairwise_apart]. split.
  - apply Forall_app. split; [done|]. apply list.Forall_forall. intros c Hc. apply Hx; [apply list_elem_of_here|done].
  - apply IH; [done|]. intros c d Hc Hd. apply Hx; [by apply list_elem_of_further|done].
Qed.

Lemma safe_batch z0 z order mt new z' held : 0 <= order < MAX_ORDER ->
  safe z0 z held -> batch (merge_limit z) z order mt new z' -> safe z0 z' (blocks order new ++ held).
Proof using Type.
  intros Ho [S1 S2 S3 S4 S5 S6] [B1 B2 B3 B4 B5 B6 B7 B8 B9 _ _ _].
  assert (Hnot : forall b q, b ∈ held -> in_block b q -> ~ free_page z q).
  { intros b q Hb Hq. rewrite list.Forall_forall in S4. destruct (S4 b Hb) as [Hc _].
    by apply (clear_not_free z b.1 b.2). }
  assert (Hin : forall b q, b ∈ blocks order new -> in_block b q -> Exists (fun b => in_block b q) (blocks order new)).
  { intros b q Hb Hq. apply list.Exists_exists. by exists b. }
  split; [done| |by etrans| | |].
  - by rewrite (merge_limit_same z z') by done.
  - apply Forall_app. split.
    + apply list.Forall_forall. intros b Hb. pose proof (Hin b) as Hinb. unfold blocks in Hb. apply list_elem_of_fmap in Hb as (p & -> & Hp).
      rewrite list.Forall_forall in B6. apply (was_free_clear z); [done|done|done|done|by apply B6| |];
        intros q Hq; [apply B7|rewrite B9; intros [_ Hno]; apply Hno];
        (apply (Hinb q); [apply list_elem_of_fmap; by exists p|exact Hq]).
    + apply (live_kept z); [done|done| |done]. intros b q Hb Hq Hf. apply B9 in Hf as [Hf _]. by apply (Hnot b q).
  - apply pairwise_apart_app; [done|done|]. intros b c Hb Hc q Hq Hq'. apply (Hnot c q); [done|done|].
    apply B7. by apply (Hin b).
  - intros q. rewrite S6, Exists_app, B9. specialize (B7 q).
    assert (Hd : Decision (Exists (fun b => in_block b q) (blocks order new)))
      by (apply Exists_dec; intros b; change (Decision (b.1 <= q < b.1 + 2 ^ b.2)); apply _). destruct Hd; tauto.
Qed.

(** ** Descriptors *)
Record pristine (d : page) : Prop := {
  pristine_count : page_count d = 0;
  pristine_mapping : page_mapping d = 0;
  pristine_mapcount : page_mapcount d = -1;
  pristine_free : Z.land (page_flags d) PAGE_FLAGS_CHECK_AT_FREE = 0;
  pristine_prep : Z.land (page_flags d) (Z.lor PAGE_FLAGS_CHECK_AT_PREP __PG_HWPOISON) = 0;
}.

Lemma pristine_at_prep d : pristine d -> Z.land (page_flags d) PAGE_FLAGS_CHECK_AT_PREP = 0.
Proof using Type. intros Hd. pose proof (pristine_prep _ Hd) as Hp. rewrite Z.land_lor_distr_r in Hp. by apply Z.lor_eq_0_iff in Hp as [? _]. Qed.

Definition good (z : zone) (p n : Z) : Prop :=
  forall q, p <= q < p + n -> PageBuddy (mem_map z q) = false /\ pristine (mem_map z q).

Lemma pristine_same z z' q : same_zone z z' -> pristine (mem_map z q) -> pristine (mem_map z' q).
Proof using Type.
  intros [] []. split; congruence.
Qed.

Lemma good_lists z z' p n : same_lists z z' -> good z p n -> good z' p n.
Proof using Type.
  intros Hl Hg q Hq. destruct (Hg q Hq). rewrite (lists_buddy _ _ Hl). split; [done|].
  by apply (pristine_same z); [apply (lists_same _ _ Hl)|].
Qed.

Lemma expected z p f : good z p 1 -> Z.land (page_flags (mem_map z p)) f = 0 -> page_expected_state z p f = true.
Proof using Type.
  intros Hg Hf. destruct (Hg p ltac:(lia)) as [Hb [Hc Hm Hmc _ _]]. unfold page_expected_state.
  by rewrite Hb, Hc, Hm, Hmc, Hf.
Qed.

Lemma free_pages_check_ok z p : good z p 1 -> free_pages_check z p = (z, 0).
Proof using Type.
  intros Hg. unfold free_pages_check. rewrite expected; [done|done|]. apply (Hg p). lia.
Qed.

Lemma check_new_page_ok z p : good z p 1 -> check_new_page z p = (z, false).
Proof using Type.
  intros Hg. unfold check_new_page. rewrite expected; [done|done|]. apply (Hg p). lia.
Qed.

Lemma good_sub z p n q m : good z p n -> p <= q -> q + m <= p + n -> good z q m.
Proof using Type. intros Hg H1 H2 r Hr. apply Hg. lia. Qed.

Lemma check_new_loop_ok z : forall n p, good z p (Z.of_nat n) -> check_new_loop n z p = (z, false).
Proof using Type.
  induction n as [|n IH]; intros p Hg; [done|]. cbn [check_new_loop].
  rewrite check_new_page_ok by (apply (good_sub _ _ _ _ _ Hg); lia). apply IH, (good_sub _ _ _ _ _ Hg); lia.
Qed.
End Held.

(** ** Preparing pages to be freed *)
Section Prepare.
Context `{PageAllocSpec}.

(** Nothing that matters has changed. *)
Definition touched (z z' : zone) : Prop := same_lists z z' /\ same_index z z' /\ same_stat z z'.

Lemma same_lists_trans z z' z'' : same_lists z z' -> same_lists z' z'' -> same_lists z z''.
Proof using Type. intros [? ? ? ? ?] []. split; [by etrans|congruence..]. Qed.

Lemma touched_refl z : touched z z.
Proof using Type. done. Qed.
Lemma touched_trans z z' z'' : touched z z' -> touched z' z'' -> touched z z''.
Proof using Type.
  intros (L1 & I1 & S1) (L2 & I2 & S2). split_and!; [by eapply same_lists_trans|by etrans|by etrans].
Qed.

Lemma land_lnot_disjoint f m : Z.land f m = 0 -> Z.land f (Z.lnot m) = f.
Proof using Type.
  intros Hz. apply Z.bits_inj'. intros n Hn. rewrite Z.land_spec, Z.lnot_spec by done.
  assert (Hb : Z.testbit (Z.land f m) n = false) by (rewrite Hz; apply Z.bits_0).
  rewrite Z.land_spec in Hb. destruct (Z.testbit f n), (Z.testbit m n); done.
Qed.

Lemma clear_prep_ok z p : good z p 1 -> touched z (clear_prep_flags z p).
Proof using Type.
  intros Hg. destruct (Hg p ltac:(lia)) as [_ Hp].
  assert (Hf : Z.land (page_flags (mem_map z p)) (Z.lnot PAGE_FLAGS_CHECK_AT_PREP) = page_flags (mem_map z p))
    by (by apply land_lnot_disjoint, pristine_at_prep).
  unfold touched. split_and!; [split; try done; [split; try done|..]| |done];
    intros q; unfold page_order, get_pcppage_migratetype; simpl; unfold upd; destruct (Z.eqb_spec q p) as [->|]; done.
Qed.

Lemma prepare_loop_ok : forall n z p bad, good z p (Z.of_nat n) ->
  exists z', prepare_loop n z p bad = (z', bad) /\ touched z z'.
Proof using Type.
  induction n as [|n IH]; intros z p bad Hg; cbn [prepare_loop]; [by eexists|].
  assert (Hg1 : good z p 1) by (apply (good_sub _ _ _ _ _ Hg); lia).
  rewrite free_pages_check_ok by done. change (bool_of 0) with false. cbv iota.
  pose proof (clear_prep_ok z p Hg1) as Ht.
  destruct (IH (clear_prep_flags z p) (p + 1) bad) as (z' & Hr & Ht').
  { apply (good_lists z); [apply Ht|]. apply (good_sub _ _ _ _ _ Hg); lia. }
  exists z'. split; [done|]. by eapply touched_trans.
Qed.

Lemma free_pages_prepare_ok z p o : 0 <= o -> good z p (2 ^ o) ->
  exists z', free_pages_prepare z p o true = (z', true) /\ touched z z'.
Proof using Type.
  intros Ho Hg. pose proof (pow_pos o Ho) as Hpos. unfold free_pages_prepare.
  assert (Htail : exists z1, (if bool_of o then prepare_loop (Z.to_nat (pages o - 1)) z (p + 1) 0 else (z, 0)) = (z1, 0) /\ touched z z1).
  { destruct (bool_of o); [|by eexists]. rewrite pages_pow by done. apply prepare_loop_ok.
    apply (good_sub _ _ _ _ _ Hg); lia. }
  destruct Htail as (z1 & -> & Ht1).
  assert (Hg1 : good z1 p 1) by (apply (good_lists z); [apply Ht1|apply (good_sub _ _ _ _ _ Hg); lia]).
  destruct (Hg1 p ltac:(lia)) as [_ Hp]. rewrite (pristine_mapping _ Hp). change (bool_of (Z.land 0 _)) with false.
  cbv iota. rewrite free_pages_check_ok by done. change (bool_of (0 + 0)) with false. cbv iota.
  eexists. split; [done|]. eapply touched_trans; [done|]. by apply clear_prep_ok.
Qed.

(** ** Giving pages back *)

(** The type a cached page is remembered with is not that of isolated blocks. *)
Definition cached_ok (z : zone) (l : list Z) : Prop :=
  Forall (fun p => 0 <= get_pcppage_migratetype z p < MIGRATE_TYPES /\
                   get_pcppage_migratetype z p <> MIGRATE_ISOLATE) l.

Lemma cached_index z z' l : (forall p, p ∈ l -> get_pcppage_migratetype z' p = get_pcppage_migratetype z p) ->
  cached_ok z l -> cached_ok z' l.
Proof using Type.
  intros Hi Hc. unfold cached_ok in *. rewrite list.Forall_forall in *. intros p Hp. rewrite Hi by done. by apply Hc.
Qed.

Context (z0 : zone) (Hcont : contiguous z0) (Hinit : initialized z0 = true)
  (Hpristine : forall q, free_page z0 q -> pristine (mem_map z0 q)).

Lemma held_good z held p o : safe z0 z held -> (p, o) ∈ held -> good z p (2 ^ o).
Proof using All.
  intros Hs Hb q Hq. destruct (held_clear _ _ _ _ _ Hs Hb) as [Hc _]. split.
  - destruct (PageBuddy (mem_map z q)) eqn:Hbud; [exfalso|done].
    destruct (bad_range_false z q (clear_in_zone _ _ _ Hc q Hq)) as (_ & _ & Hid).
    destruct (wf_listed z (safe_wf _ _ _ Hs) q Hbud Hid) as [t Ht].
    pose proof (wf_order z (safe_wf _ _ _ Hs) _ _ _ Ht) as Ho.
    apply (clear_not_free z p o q Hc Hq). exists q, (page_order z q), t. split; [done|].
    pose proof (pow_pos (page_order z q) ltac:(lia)). lia.
  - apply (pristine_same z0); [apply Hs|]. apply Hpristine, (safe_pages _ _ _ Hs). right.
    apply list.Exists_exists. by exists (p, o).
Qed.

Lemma release_ok z p o t rest : safe z0 z ((p, o) :: rest) -> 0 <= t < MIGRATE_TYPES ->
  exists z', __free_one_page z p o t = Done z' /\ freed z p o t z' /\ safe z0 z' rest.
Proof using All.
  intros Hs Ht. destruct (held_clear _ _ _ p o Hs ltac:(apply list_elem_of_here)) as [Hc Hu].
  pose proof (pow_pos o ltac:(destruct Hc; lia)) as Hpos.
  destruct (__free_one_page_ok z p o t) as (z' & Hr & Hf); [apply Hs| |apply Hs| |done|].
  - by rewrite (same_init _ _ (safe_same _ _ _ Hs)).
  - split; [done|done|]. apply pristine_at_prep.
    apply (held_good z _ p o Hs ltac:(apply list_elem_of_here) p). lia.
  - exists z'. split_and!; [done|done|by eapply safe_release].
Qed.

Lemma drain_loop_ok iso rest : forall l z,
  safe z0 z (blocks 0 l ++ rest) -> types_ok z -> cached_ok z l ->
  exists z', drain_loop z iso l = Done z' /\ safe z0 z' rest /\ types_ok z' /\ same_index z z'.
Proof using All.
  induction l as [|p l IH]; intros z Hs Ht Hc; cbn [drain_loop]; [by eexists|].
  apply list.Forall_cons in Hc as [[Hr Hni] Hc]. rewrite is_migrate_isolate_type.
  destruct (Z.eqb_spec (get_pcppage_migratetype z p) MIGRATE_ISOLATE); [done|]. cbn [BUG_ON mbind outcome_bind].
  set (mt := if iso then _ else _).
  assert (Hp : 0 <= p).
  { destruct (held_clear _ _ _ p 0 Hs ltac:(apply list_elem_of_here)) as [Hcl _].
    destruct Hcl as [Ho Ha _ _]. apply (aligned_nonneg p 0); [lia|done]. }
  assert (Hmt : 0 <= mt < MIGRATE_TYPES) by (unfold mt; destruct iso; [by apply Ht|done]).
  destruct (release_ok z p 0 mt (blocks 0 l ++ rest) Hs Hmt) as (z1 & -> & Hf & Hs1). cbn [mbind outcome_bind].
  destruct (IH z1 Hs1) as (z' & Hd & Hs' & Ht' & Hi').
  - by apply (types_flags z); [apply Hf|].
  - apply (cached_index z); [|done]. intros q _. apply Hf.
  - exists z'. split_and!; [done|done|done|]. etrans; [apply Hf|done].
Qed.
End Prepare.

(** ** The state of the allocator *)
Record pcp_ok (pcp : per_cpu_pages) : Prop := {
  pcp_ok_count : pcp_count pcp = Z.of_nat (length (flat pcp));
  pcp_ok_batch : 0 < pcp_batch pcp <= pcp_high pcp;
}.

(** The pages on the lists of all CPUs. *)
Definition cached (cpus : list Z) (s : page_alloc) : list Z := cpus ≫= (fun c => flat (pageset s c)).

Lemma pcp_ok_drained pcp new pcp' : pcp_ok pcp -> drained pcp new pcp' -> pcp_ok pcp'.
Proof.
  intros [Hc Hb] [Dc Dh Db Df]. split; [|congruence]. rewrite Df, length_app in Hc. lia.
Qed.

Lemma cached_upd_other cpus c s z pcp : c ∉ cpus -> cached cpus (PageAlloc z (upd (pageset s) c pcp)) = cached cpus s.
Proof.
  intros Hc. unfold cached. induction cpus as [|x cpus IH]; [done|]. rewrite not_elem_of_cons in Hc. destruct Hc.
  rewrite !bind_cons, IH by done. f_equal. simpl. unfold upd.
  destruct (Z.eqb_spec x c); [congruence|done].
Qed.

Lemma cached_at l1 c l2 s : cached (l1 ++ c :: l2) s = cached l1 s ++ flat (pageset s c) ++ cached l2 s.
Proof. unfold cached. by rewrite bind_app, bind_cons. Qed.

(** The pages of one CPU against those of the others. *)
Lemma cached_split cpus c s : NoDup cpus -> c ∈ cpus -> exists rest,
  cached cpus s ≡ₚ flat (pageset s c) ++ rest /\
  forall z pcp, cached cpus (PageAlloc z (upd (pageset s) c pcp)) ≡ₚ flat pcp ++ rest.
Proof.
  intros Hnd Hc. apply list_elem_of_split in Hc as (l1 & l2 & ->).
  apply list.NoDup_app in Hnd as (_ & Hx & Hnd). apply list.NoDup_cons in Hnd as [Hl2 _].
  assert (Hl1 : c ∉ l1) by (intros Hi; by apply (Hx c Hi), list_elem_of_here).
  exists (cached l1 s ++ cached l2 s). split; [|intros z pcp]; rewrite cached_at.
  - apply Permutation_app_swap_app.
  - rewrite !cached_upd_other by done. simpl. unfold upd. rewrite Z.eqb_refl. apply Permutation_app_swap_app.
Qed.

Section State.
Context `{PageAllocSpec}.
Context (z0 : zone) (Hcont : contiguous z0) (Hinit : initialized z0 = true)
  (Hpristine : forall q, free_page z0 q -> pristine (mem_map z0 q)).
Context (cpus : list Z) (Hnd : NoDup cpus).

Record pa_ok (s : page_alloc) (live : list (Z * Z)) : Prop := {
  pa_safe : safe z0 (pa_zone s) (live ++ blocks 0 (cached cpus s));
  pa_types : types_ok (pa_zone s);
  pa_cached : cached_ok (pa_zone s) (cached cpus s);
  pa_pcp c : c ∈ cpus -> pcp_ok (pageset s c);
}.

Lemma blocks_app o l l' : blocks o (l ++ l') = blocks o l ++ blocks o l'.
Proof using Type. apply fmap_app. Qed.

#[local] Instance blocks_perm o : Proper ((≡ₚ) ==> (≡ₚ)) (blocks o).
Proof using Type. intros l l' Hp. unfold blocks. by rewrite Hp. Qed.

#[local] Instance cached_ok_perm z : Proper ((≡ₚ) ==> iff) (cached_ok z).
Proof using Type. intros l l' Hp. unfold cached_ok. by rewrite Hp. Qed.

(** What is known of the lists of one CPU, and what it takes to put new ones in their place. *)
Lemma pa_open s live c : pa_ok s live -> c ∈ cpus -> exists rest,
  safe z0 (pa_zone s) (blocks 0 (flat (pageset s c)) ++ live ++ blocks 0 rest) /\
  cached_ok (pa_zone s) (flat (pageset s c)) /\ cached_ok (pa_zone s) rest /\
  forall z pcp live', safe z0 z (blocks 0 (flat pcp) ++ live' ++ blocks 0 rest) -> types_ok z ->
    cached_ok z (flat pcp) -> cached_ok z rest -> pcp_ok pcp -> pa_ok (PageAlloc z (upd (pageset s) c pcp)) live'.
Proof using Hnd.
  intros [Hs Ht Hc Hp] Hcpu. destruct (cached_split cpus c s Hnd Hcpu) as (rest & H1 & H2).
  exists rest. rewrite H1 in Hc. apply Forall_app in Hc as [Hc1 Hc2]. split_and!; [|done|done|].
  - eapply safe_perm; [|exact Hs]. by rewrite H1, blocks_app, Permutation_app_swap_app.
  - intros z pcp live' Hs' Ht' Hf Hr Hpcp. split; [|done| |].
    + eapply safe_perm; [|exact Hs']. by rewrite H2, blocks_app, (Permutation_app_swap_app live').
    + rewrite H2. by apply Forall_app.
    + intros c' Hc'. simpl. unfold upd. destruct (c' =? c); [done|]. by apply Hp.
Qed.

Lemma free_pcppages_bulk_ok z n pcp rest : safe z0 z (blocks 0 (flat pcp) ++ rest) -> types_ok z ->
  cached_ok z (flat pcp) -> pcp_ok pcp -> 0 <= n <= pcp_count pcp ->
  exists z' pcp' new, free_pcppages_bulk z n pcp = Done (z', pcp') /\ Z.of_nat (length new) = n /\
    drained pcp new pcp' /\ pcp_ok pcp' /\ safe z0 z' (blocks 0 (flat pcp') ++ rest) /\ types_ok z' /\ same_index z z'.
Proof using Hcont Hinit Hpristine H0.
  intros Hs Ht Hc Hok Hn. unfold free_pcppages_bulk.
  destruct (collect_loop_ok (S (Z.to_nat n)) pcp n 0 0 []) as (pcp' & new & -> & Hlen & Hd);
    [by left|lia|lia|rewrite <- (pcp_ok_count _ Hok); lia|].
  cbn [mbind outcome_bind app].
  pose proof (drained_flat _ _ _ Hd) as Hf. rewrite Hf in Hc. apply Forall_app in Hc as [Hc1 _].
  destruct (drain_loop_ok z0 Hcont Hinit Hpristine (has_isolate_pageblock (nr_isolate_pageblock z))
              (blocks 0 (flat pcp') ++ rest) new z) as (z' & -> & Hs' & Ht' & Hi'); [|done|done|].
  { eapply safe_perm; [|exact Hs]. by rewrite Hf, blocks_app, app_assoc. }
  cbn [mbind outcome_bind]. exists z', pcp', new. split_and!; try done. by eapply pcp_ok_drained.
Qed.

(** Replacing the lists of a CPU by what a bulk free leaves of them. *)
Lemma bulk_pa_ok s live c z pcp n rest :
  (forall z pcp live', safe z0 z (blocks 0 (flat pcp) ++ live' ++ blocks 0 rest) -> types_ok z ->
    cached_ok z (flat pcp) -> cached_ok z rest -> pcp_ok pcp -> pa_ok (PageAlloc z (upd (pageset s) c pcp)) live') ->
  safe z0 z (blocks 0 (flat pcp) ++ live ++ blocks 0 rest) -> types_ok z -> cached_ok z (flat pcp) ->
  cached_ok z rest -> pcp_ok pcp -> 0 <= n <= pcp_count pcp ->
  exists z' pcp', free_pcppages_bulk z n pcp = Done (z', pcp') /\ pcp_count pcp' = pcp_count pcp - n /\
    pa_ok (PageAlloc z' (upd (pageset s) c pcp')) live.
Proof using Hcont Hinit Hpristine H0.
  intros Hclose Hs Ht Hc Hr Hok Hn.
  destruct (free_pcppages_bulk_ok z n pcp (live ++ blocks 0 rest) Hs Ht Hc Hok Hn)
    as (z' & pcp' & new & -> & Hlen & Hd & Hok' & Hs' & Ht' & Hi). exists z', pcp'. split; [done|].
  split; [rewrite (drained_count _ _ _ Hd); lia|].
  apply Hclose; [done|done| | |done]; (apply (cached_index z); [by intros; apply Hi|]); [|done].
  rewrite (drained_flat _ _ _ Hd) in Hc. by apply Forall_app in Hc as [_ ?].
Qed.

Lemma drain_pages_zone_ok s live c : pa_ok s live -> c ∈ cpus ->
  exists s', drain_pages_zone s c = Done s' /\ pa_ok s' live /\ 
    forall c', pcp_count (pageset s' c') = if c' =? c then 0 else pcp_count (pageset s c').
Proof using All.
  intros Hok Hc. unfold drain_pages_zone, bool_of. pose proof (pa_pcp _ _ Hok c Hc) as Hp.
  destruct (Z.eqb_spec (pcp_count (pageset s c)) 0) as [|Hne]; cbn [negb].
  { exists s. split_and!; [done|done|]. intros c'. by destruct (Z.eqb_spec c' c) as [->|]. }
  destruct (pa_open s live c Hok Hc) as (rest & Hs & Hc1 & Hc2 & Hclose).
  destruct (bulk_pa_ok s live c (pa_zone s) (pageset s c) (pcp_count (pageset s c)) rest)
    as (z' & pcp' & -> & Hn & Hok'); try done; [apply Hok|destruct Hp; lia|].
  cbn [mbind outcome_bind fst snd]. eexists. split; [done|]. split; [done|]. intros c'. simpl. unfold upd.
  destruct (c' =? c); [lia|done].
Qed.

Lemma drain_zone_pages_ok s live c : pa_ok s live -> c ∈ cpus ->
  exists z' pcp', drain_zone_pages (pa_zone s) (pageset s c) = Done (z', pcp') /\
    pa_ok (PageAlloc z' (upd (pageset s) c pcp')) live.
Proof using All.
  intros Hok Hc. unfold drain_zone_pages. pose proof (pa_pcp _ _ Hok c Hc) as Hp.
  destruct (pa_open s live c Hok Hc) as (rest & Hs & Hc1 & Hc2 & Hclose).
  destruct (Z.gtb_spec (Z.min (pcp_count (pageset s c)) (pcp_batch (pageset s c))) 0).
  - destruct (bulk_pa_ok s live c (pa_zone s) (pageset s c)
      (Z.min (pcp_count (pageset s c)) (pcp_batch (pageset s c))) rest)
      as (z' & pcp' & -> & Hn & Hok'); try done; [apply Hok|lia|]. by do 2 eexists.
  - do 2 eexists. split; [done|]. apply Hclose; try done. apply Hok.
Qed.

(** ** Freeing *)
Lemma held_fresh z held p o : safe z0 z ((p, o) :: held) -> (p, o) ∉ held.
Proof using Type.
  intros Hs Hin. destruct (held_clear _ _ _ p o Hs ltac:(apply list_elem_of_here)) as [Hc _].
  pose proof (pow_pos o ltac:(destruct Hc; lia)). destruct (safe_apart _ _ _ Hs) as [Ha _].
  rewrite list.Forall_forall in Ha. apply (Ha (p, o) Hin p); unfold in_block; simpl; lia.
Qed.

Lemma block_elem o p l : p ∈ l -> (p, o) ∈ blocks o l.
Proof using Type. intros Hp. apply list_elem_of_fmap. by exists p. Qed.

(** The page passes the checks and is remembered with the type of its block. *)
Lemma unref_prepare_ok z p l rest : safe z0 z ((p, 0) :: blocks 0 l ++ rest) -> types_ok z -> cached_ok z l ->
  exists z', free_unref_page_prepare z p = (z', true) /\ safe z0 z' ((p, 0) :: blocks 0 l ++ rest) /\ types_ok z' /\
    cached_ok z' l /\ 0 <= get_pcppage_migratetype z' p < MIGRATE_TYPES /\ 0 <= p.
Proof using Hcont Hinit Hpristine H0.
  intros Hs Ht Hc. unfold free_unref_page_prepare, free_pcp_prepare.
  destruct (free_pages_prepare_ok z p 0) as (z1 & -> & Hl & Hi & Hst); [lia| |].
  { eapply held_good; [done..|apply list_elem_of_here]. }
  cbn [negb]. eexists. split; [reflexivity|]. set (mt := get_pfnblock_migratetype z1 p).
  assert (Hp : 0 <= p).
  { destruct (held_clear _ _ _ p 0 Hs ltac:(apply list_elem_of_here)) as [[Ho Ha _ _] _].
    apply (aligned_nonneg p 0); [lia|done]. }
  assert (Ht1 : types_ok z1) by (apply (types_flags z); [apply Hst|done]).
  split; [|split; [|split; [|split; [|done]]]].
  - eapply safe_lists; [apply pcppage_lists|]. by eapply safe_lists.
  - by apply (types_flags z1).
  - apply (cached_index z); [|done]. intros q Hq. rewrite <- Hi. unfold get_pcppage_migratetype. simpl. unfold upd.
    destruct (Z.eqb_spec q p) as [->|]; [exfalso|done]. apply held_fresh in Hs. apply Hs, elem_of_app. left.
    by apply block_elem.
  - unfold get_pcppage_migratetype. simpl. unfold upd. rewrite Z.eqb_refl. simpl. by apply (Ht1 p).
Qed.

Lemma free_one_page_held z p o t rest : safe z0 z ((p, o) :: rest) -> types_ok z -> 0 <= t < MIGRATE_TYPES ->
  exists z', free_one_page z p o t = Done z' /\ safe z0 z' rest /\ types_ok z' /\ same_index z z'.
Proof using Hcont Hinit Hpristine H0.
  intros Hs Ht Hr. unfold free_one_page. set (mt := if _ || _ then _ else t).
  assert (Hp : 0 <= p).
  { destruct (held_clear _ _ _ p o Hs ltac:(apply list_elem_of_here)) as [[Ho Ha _ _] _].
    apply (aligned_nonneg p o); [lia|done]. }
  assert (Hmt : 0 <= mt < MIGRATE_TYPES) by (unfold mt; destruct (_ || _); [by apply (Ht p)|done]).
  destruct (release_ok z0 Hcont Hinit Hpristine z p o mt rest Hs Hmt) as (z' & -> & Hf & Hs').
  exists z'. split_and!; [done|done| |apply Hf]. apply (types_flags z); [apply Hf|done].
Qed.

Lemma pa_same_pcp s live c z : (forall c, c ∈ cpus -> pcp_ok (pageset s c)) -> c ∈ cpus ->
  pa_ok (PageAlloc z (upd (pageset s) c (pageset s c))) live -> pa_ok (PageAlloc z (pageset s)) live.
Proof using Hnd.
  intros Hok Hc [S1 S2 S3 S4]. destruct (cached_split cpus c s Hnd Hc) as (rest & H1 & H2).
  assert (Hcache : cached cpus (PageAlloc z (upd (pageset s) c (pageset s c))) ≡ₚ cached cpus (PageAlloc z (pageset s)))
    by (rewrite H2, <- H1; done).
  split; [|done|by rewrite <- Hcache|apply Hok]. eapply safe_perm; [|exact S1]. by rewrite Hcache.
Qed.

Lemma free_unref_page_ok s live c p : pa_ok s ((p, 0) :: live) -> c ∈ cpus ->
  exists s', free_unref_page s c p = Done s' /\ pa_ok s' live.
Proof using All.
  intros Hok Hc. destruct (pa_open s _ c Hok Hc) as (rest & Hs & Hc1 & Hc2 & Hclose).
  pose proof (pa_pcp _ _ Hok c Hc) as Hp. unfold free_unref_page.
  set (pcp := pageset s c) in *.
  destruct (unref_prepare_ok (pa_zone s) p (flat pcp ++ rest) live) as (z & -> & Hs' & Ht & Hcz & Hmt & Hp0).
  { eapply safe_perm; [|exact Hs]. rewrite blocks_app.
    cbn [app]. rewrite <- Permutation_middle, <- app_assoc. apply perm_skip, Permutation_app_head, Permutation_app_comm. }
  { apply Hok. }
  { by apply Forall_app. }
  apply Forall_app in Hcz as [Hcz1 Hcz2]. cbn [negb]. unfold free_unref_page_commit. cbn [pa_zone pageset].
  set (mt := get_pcppage_migratetype z p) in *. rewrite is_migrate_isolate_type.
  destruct (Z.eqb_spec mt MIGRATE_ISOLATE) as [Hiso|Hni].
  - rewrite Hiso. change (_ && true) with true. cbv iota.
    destruct (free_one_page_held z p 0 MIGRATE_ISOLATE _ Hs' Ht) as (z' & -> & Hs'' & Ht' & Hi); [done|].
    cbn [mbind outcome_bind]. eexists. split; [done|]. apply (pa_same_pcp s live c z'); [apply Hok|done|].
    apply Hclose; [|done|apply (cached_index z); [by intros; apply Hi|done]..|done].
    eapply safe_perm; [|exact Hs'']. rewrite blocks_app, <- app_assoc. apply Permutation_app_head, Permutation_app_comm.
  - rewrite andb_false_r. set (mt' := if mt >=? _ then _ else mt).
    assert (Hmt' : pcp_type mt').
    { apply pcp_type_range. unfold mt', MIGRATE_MOVABLE. change MIGRATE_PCPTYPES with 3.
      destruct (Z.geb_spec mt 3); lia. }
    set (pcp1 := set_pcp_list _ _ _ _).
    destruct (flat_set pcp mt' (pcp_count pcp + 1) Hmt') as (others & Hf1 & Hf2).
    assert (Hflat : flat pcp1 ≡ₚ p :: flat pcp) by (by rewrite Hf1; apply Hf2).
    assert (Hok1 : pcp_ok pcp1).
    { destruct Hp as [Hcnt Hb]. split; [|done]. rewrite Hflat. change (pcp_count pcp1) with (pcp_count pcp + 1).
      cbn [length]. lia. }
    assert (Hs1 : safe z0 z (blocks 0 (flat pcp1) ++ live ++ blocks 0 rest)).
    { eapply safe_perm; [|exact Hs']. rewrite Hflat, blocks_app. cbn [blocks fmap list_fmap app].
      rewrite <- app_assoc. apply perm_skip, Permutation_app_head, Permutation_app_comm. }
    assert (Hcz : cached_ok z (flat pcp1)) by (rewrite Hflat; apply list.Forall_cons; done).
    destruct (Z.geb_spec (pcp_count pcp1) (pcp_high pcp1)) as [Hge|Hlt].
    + destruct (bulk_pa_ok s live c z pcp1 (pcp_batch pcp1) rest) as (z' & pcp' & -> & _ & Hok'); try done.
      { pose proof (pcp_ok_batch _ Hok1). lia. }
      cbn [mbind outcome_bind fst snd]. by eexists.
    + eexists. split; [done|]. by apply Hclose.
Qed.

(** Only the zone has changed. *)
Lemma pa_zone_only s live z live' : pa_ok s live -> safe z0 z (live' ++ blocks 0 (cached cpus s)) -> types_ok z ->
  (forall p, p ∈ cached cpus s -> get_pcppage_migratetype z p = get_pcppage_migratetype (pa_zone s) p) ->
  pa_ok (PageAlloc z (pageset s)) live'.
Proof using Type.
  intros [_ _ Hc Hp] Hs Ht Hi. split; [done|done| |done]. by apply (cached_index (pa_zone s)).
Qed.

Lemma free_pages_ok_ok s live p o : 0 <= o -> pa_ok s ((p, o) :: live) ->
  exists s', __free_pages_ok s p o = Done s' /\ pa_ok s' live.
Proof using Hcont Hinit Hpristine H0.
  intros Ho Hok. pose proof (pa_safe _ _ Hok) as Hs. unfold __free_pages_ok.
  destruct (free_pages_prepare_ok (pa_zone s) p o Ho) as (z & -> & Hl & Hi & Hst).
  { eapply held_good; [done..|apply list_elem_of_here]. }
  cbn [negb]. assert (Ht : types_ok z) by (apply (types_flags (pa_zone s)); [apply Hst|apply Hok]).
  apply (safe_lists z0 (pa_zone s) z) in Hs; [|done].
  assert (Hp : 0 <= p).
  { destruct (held_clear _ _ _ p o Hs ltac:(apply list_elem_of_here)) as [[Ho' Ha _ _] _]. by apply (aligned_nonneg p o). }
  destruct (free_one_page_held z p o (get_pfnblock_migratetype z p) _ Hs Ht) as (z' & -> & Hs' & Ht' & Hi').
  { by apply (Ht p). }
  cbn [mbind outcome_bind]. eexists. split; [done|]. apply (pa_zone_only s _ z' live Hok); [done|done|].
  intros q _. by rewrite Hi', Hi.
Qed.

Lemma free_the_page_ok s live c p o : 0 <= o -> pa_ok s ((p, o) :: live) -> c ∈ cpus ->
  exists s', free_the_page s c p o = Done s' /\ pa_ok s' live.
Proof using All.
  intros Ho Hok Hc. unfold free_the_page. destruct (Z.eqb_spec o 0) as [->|].
  - by apply free_unref_page_ok.
  - by apply free_pages_ok_ok.
Qed.

(** ** Allocation *)

(** A page that was allocated, or none because there is none. *)
Definition served (r : outcome (page_alloc * option Z)) (live : list (Z * Z)) (order mt flags : Z) : Prop :=
  exists s' page, r = Done (s', page) /\
    match page with
    | Some p => pa_ok s' ((p, order) :: live)
    | None => pa_ok s' live /\ exhausted (pa_zone s') order mt flags
    end.

(** The lists of the CPU after a refill. *)
Lemma refill_ok z pcp held mt flags : safe z0 z held -> types_ok z -> 0 <= mt < MIGRATE_PCPTYPES ->
  0 <= min_order 0 flags -> 0 < pcp_batch pcp ->
  exists z' new, rmqueue_bulk z 0 (pcp_batch pcp) [] mt flags = Done (z', new, Z.of_nat (length new)) /\
    safe z0 z' (blocks 0 new ++ held) /\ types_ok z' /\ cached_ok z' new /\
    (forall q, (q, 0) ∈ held -> get_pcppage_migratetype z' q = get_pcppage_migratetype z q) /\
    (new = [] -> exhausted z' 0 mt flags).
Proof using Hcont Hinit Hpristine H0.
  intros Hs Ht Hmt Hmin Hb.
  destruct (rmqueue_bulk_ok (merge_limit z) z 0 (pcp_batch pcp) [] mt flags)
    as (z1 & z' & new & -> & Hlen & Hbatch & -> & Hex); try done; try apply Hs.
  { eapply contiguous_same; [apply Hs|done]. }
  eexists _, new. split; [reflexivity|]. set (z' := set_vm_stat _ _ _).
  assert (Hs1 : safe z0 z1 (blocks 0 new ++ held)) by (by eapply safe_batch).
  split_and!.
  - by eapply (safe_lists z0 z1).
  - apply (types_flags z1); [done|]. by apply Hbatch.
  - pose proof (batch_remembered _ _ _ _ _ _ Hbatch) as Hr. eapply list.Forall_impl; [exact Hr|].
    intros p [Hp|Hp]; change (get_pcppage_migratetype z' p) with (get_pcppage_migratetype z1 p); rewrite Hp;
      change MIGRATE_PCPTYPES with 3 in *; change MIGRATE_TYPES with 6; change MIGRATE_ISOLATE with 5;
      change MIGRATE_CMA with 4; lia.
  - intros q Hq. apply (batch_index _ _ _ _ _ _ Hbatch). intros Hin. apply list_elem_of_split in Hin as (l1 & l2 & ->).
    assert (Hs2 : safe z0 z1 ((q, 0) :: blocks 0 (l1 ++ l2) ++ held)).
    { eapply safe_perm; [|exact Hs1]. by rewrite <- (Permutation_middle l1 l2). }
    apply held_fresh in Hs2. apply Hs2, elem_of_app. by right.
  - intros ->. apply Hex. simpl. lia.
Qed.

Lemma min_order_0 flags : 0 <= min_order 0 flags.
Proof using H0. unfold min_order. pose proof pageblock_order_range. destruct (bool_of _); lia. Qed.

(** Taking the front of a list, where the page passes the check. *)
Lemma pcplist_pop fuel z pcp mt flags p l rest : 0 <= mt < MIGRATE_PCPTYPES -> pcp_ok pcp ->
  pcp_lists pcp mt = p :: l -> safe z0 z (blocks 0 (flat pcp) ++ rest) -> cached_ok z (flat pcp) ->
  exists pcp', __rmqueue_pcplist (S fuel) z mt flags pcp = Done (z, pcp', Some p) /\
    pcp_ok pcp' /\ flat pcp ≡ₚ p :: flat pcp'.
Proof using Hcont Hinit Hpristine H0.
  intros Hmt Hok Hl Hs Hc. cbn [__rmqueue_pcplist]. rewrite Hl. cbn [list_empty mbind outcome_bind]. rewrite Hl.
  apply pcp_type_range in Hmt. destruct (flat_set pcp mt (pcp_count pcp - 1) Hmt) as (others & H1 & H2).
  rewrite Hl in H1. specialize (H2 l). set (pcp' := set_pcp_list _ _ _ _) in *.
  assert (Hf : flat pcp ≡ₚ p :: flat pcp') by (by rewrite H1, H2).
  unfold check_new_pcp. rewrite check_new_page_ok.
  - exists pcp'. split_and!; [done| |done]. destruct Hok as [Hcnt Hb]. split; [|done].
    rewrite Hf in Hcnt. cbn [length] in Hcnt. change (pcp_count pcp') with (pcp_count pcp - 1). lia.
  - change 1 with (2 ^ 0). eapply held_good; [done..|]. apply elem_of_app. left. apply block_elem. rewrite Hf.
    apply list_elem_of_here.
Qed.

(** The lists of a CPU after a refill of an empty one. *)
Lemma pcplist_refill z pcp mt flags live rest : pcp_ok pcp -> pcp_lists pcp mt = [] -> 0 <= mt < MIGRATE_PCPTYPES ->
  safe z0 z (blocks 0 (flat pcp) ++ live ++ blocks 0 rest) -> types_ok z -> cached_ok z (flat pcp) -> cached_ok z rest ->
  exists z1 new, rmqueue_bulk z 0 (pcp_batch pcp) [] mt flags = Done (z1, new, Z.of_nat (length new)) /\
    let pcp1 := set_pcp_list pcp (pcp_count pcp + Z.of_nat (length new)) mt new in
    pcp_lists pcp1 mt = new /\ pcp_ok pcp1 /\ safe z0 z1 (blocks 0 (flat pcp1) ++ live ++ blocks 0 rest) /\
    types_ok z1 /\ cached_ok z1 (flat pcp1) /\ cached_ok z1 rest /\ (new = [] -> exhausted z1 0 mt flags).
Proof using Hcont Hinit Hpristine H0.
  intros Hp Hl Hmt Hs Ht Hc1 Hc2.
  destruct (refill_ok z pcp _ mt flags Hs Ht Hmt (min_order_0 flags)) as
    (z1 & new & Hr & Hs1 & Ht1 & Hc3 & Hi & Hex); [by apply Hp|].
  exists z1, new. split; [done|]. cbv zeta. set (pcp1 := set_pcp_list _ _ _ _).
  destruct (flat_set pcp mt (pcp_count pcp + Z.of_nat (length new)) (pcp_type_range mt Hmt)) as (others & H1 & H2).
  rewrite Hl in H1. specialize (H2 new). fold pcp1 in H2. simpl in H1.
  assert (Hf : flat pcp1 ≡ₚ new ++ flat pcp) by (by rewrite H1, H2).
  assert (Hkeep : forall q, q ∈ flat pcp ++ rest -> get_pcppage_migratetype z1 q = get_pcppage_migratetype z q).
  { intros q Hq. apply Hi. rewrite Permutation_app_swap_app, elem_of_app. right. rewrite <- blocks_app.
    by apply block_elem. }
  split_and!; [| | |done| | |done].
  - simpl. unfold upd. by rewrite Z.eqb_refl.
  - destruct Hp as [Hcnt Hb]. split; [|done]. rewrite Hf, length_app.
    change (pcp_count pcp1) with (pcp_count pcp + Z.of_nat (length new)). lia.
  - eapply safe_perm; [|exact Hs1]. by rewrite Hf, blocks_app, app_assoc.
  - rewrite Hf. apply Forall_app. split; [done|]. apply (cached_index z); [|done]. intros q Hq. apply Hkeep, elem_of_app. by left.
  - apply (cached_index z); [|done]. intros q Hq. apply Hkeep, elem_of_app. by right.
Qed.

Lemma rmqueue_pcplist_ok s live c mt flags : pa_ok s live -> c ∈ cpus -> 0 <= mt < MIGRATE_PCPTYPES ->
  served (rmqueue_pcplist s c mt flags) live 0 mt flags.
Proof using All.
  intros Hok Hc Hmt. destruct (pa_open s _ c Hok Hc) as (rest & Hs & Hc1 & Hc2 & Hclose).
  pose proof (pa_pcp _ _ Hok c Hc) as Hp. pose proof (pa_types _ _ Hok) as Ht. unfold rmqueue_pcplist, check_fuel.
  set (pcp := pageset s c) in *. set (z := pa_zone s) in *. set (n := Z.to_nat (spanned_pages z)).
  assert (Hpop : forall z pcp p l, pcp_ok pcp -> pcp_lists pcp mt = p :: l -> types_ok z ->
    safe z0 z (blocks 0 (flat pcp) ++ live ++ blocks 0 rest) -> cached_ok z (flat pcp) -> cached_ok z rest ->
    exists pcp', __rmqueue_pcplist (S n) z mt flags pcp = Done (z, pcp', Some p) /\
      pa_ok (PageAlloc z (upd (pageset s) c pcp')) ((p, 0) :: live)).
  { intros z1 pcp1 p l Hp1 Hl1 Ht1 Hs1 Hc3 Hc4.
    destruct (pcplist_pop n z1 pcp1 mt flags p l _ Hmt Hp1 Hl1 Hs1 Hc3) as (pcp' & Hr & Hp' & Hf).
    exists pcp'. split; [done|]. apply Hclose; [|done| |done|done].
    - eapply safe_perm; [|exact Hs1]. rewrite Hf. cbn [blocks fmap list_fmap app]. by rewrite <- Permutation_middle.
    - rewrite Hf in Hc3. by apply list.Forall_cons in Hc3 as [_ ?]. }
  destruct (pcp_lists pcp mt) as [|p l] eqn:Hl.
  2:{ destruct (Hpop z pcp p l) as (pcp' & -> & Hok'); try done. cbn [mbind outcome_bind]. by do 2 eexists. }
  destruct (pcplist_refill z pcp mt flags live rest Hp Hl Hmt Hs Ht Hc1 Hc2)
    as (z1 & new & Hr & Hl1 & Hp1 & Hs1 & Ht1 & Hc3 & Hc4 & Hex). cbv zeta in *.
  set (pcp1 := set_pcp_list _ _ _ _) in *. destruct new as [|p l].
  - cbn [__rmqueue_pcplist]. rewrite Hl. cbn [list_empty mbind outcome_bind]. rewrite Hr. cbn [mbind outcome_bind].
    fold pcp1. rewrite Hl1. cbn [mbind outcome_bind]. do 2 eexists. split; [done|]. split; [by apply Hclose|by apply Hex].
  - destruct (Hpop z1 pcp1 p l) as (pcp' & Hr1 & Hok'); try done.
    assert (Heq : __rmqueue_pcplist (S n) z mt flags pcp = __rmqueue_pcplist (S n) z1 mt flags pcp1).
    { cbn [__rmqueue_pcplist]. rewrite Hl, Hl1. cbn [list_empty mbind outcome_bind]. rewrite Hr. done. }
    rewrite Heq, Hr1. cbn [mbind outcome_bind]. by do 2 eexists.
Qed.

(** Blocks of more than a page, the reserve of atomic requests first. *)
Lemma rmqueue_loop_ok n z held order mt flags : safe z0 z held -> 0 <= order < MAX_ORDER ->
  0 <= mt < MIGRATE_PCPTYPES ->
  exists z' page, rmqueue_loop (S n) z order mt flags = Done (z', page) /\
    match page with
    | Some p => allocated (merge_limit z) z p order z'
    | None => restocked z z' /\ exhausted z' order mt flags
    end.
Proof using Hcont Hinit Hpristine H0.
  intros Hs Ho Hmt. cbn [rmqueue_loop]. pose proof (safe_wf _ _ _ Hs) as Hwf.
  pose proof (safe_coalesced _ _ _ Hs) as Hco.
  assert (Hcheck : forall p z', allocated (merge_limit z) z p order z' -> check_new_pages z' p order = (z', false)).
  { intros p z' Ha. unfold check_new_pages. rewrite pages_pow by lia. apply check_new_loop_ok.
    pose proof (pow_pos order ltac:(lia)). rewrite Z2Nat.id by lia.
    eapply (held_good z0 Hcont Hinit Hpristine z' ((p, order) :: held)); [by eapply safe_alloc|apply list_elem_of_here]. }
  assert (Hharder : (exists p z', (if bool_of (Z.land flags ALLOC_HARDER) then __rmqueue_smallest z order MIGRATE_HIGHATOMIC
      else Done (z, None)) = Done (z', Some p) /\ allocated (merge_limit z) z p order z') \/
    (if bool_of (Z.land flags ALLOC_HARDER) then __rmqueue_smallest z order MIGRATE_HIGHATOMIC else Done (z, None)) = Done (z, None)).
  { destruct (bool_of _); [|by right].
    destruct (rmqueue_smallest_ok (merge_limit z) z order MIGRATE_HIGHATOMIC Hwf Hco ltac:(lia))
      as [(c & p & l & z' & _ & _ & _ & -> & Ht & _)|[_ ->]]; [left|by right].
    do 2 eexists. split; [done|]. eapply taken_allocated; [by apply restocked_refl|done]. }
  destruct Hharder as [(p & z' & -> & Ha)| ->]; cbn [mbind outcome_bind].
  { rewrite Hcheck by done. by do 2 eexists. }
  destruct (rmqueue_ok (merge_limit z) z order mt flags (rmqueue_fuel z)) as [(p & z' & -> & Ha & _)|(z' & -> & Hr & _ & Hex & _)]; try done.
  - eapply contiguous_same; [apply Hs|done].
  - cbn [mbind outcome_bind]. rewrite Hcheck by done. by do 2 eexists.
  - cbn [mbind outcome_bind]. by do 2 eexists.
Qed.

Lemma pa_alloc s live p order z z' : pa_ok s live -> allocated (merge_limit (pa_zone s)) (pa_zone s) p order z ->
  same_lists z z' -> same_index z z' -> pageblock_flags z' = pageblock_flags z ->
  pa_ok (PageAlloc z' (pageset s)) ((p, order) :: live).
Proof using Type.
  intros Hok Ha Hl Hi Hf. pose proof (pa_safe _ _ Hok) as Hs.
  apply (pa_zone_only s live z' ((p, order) :: live) Hok).
  - apply (safe_lists z0 z); [done|]. by apply (safe_alloc z0 (pa_zone s)).
  - apply (types_flags z); [done|]. apply Ha, Hok.
  - intros q Hq. rewrite Hi. apply (allocated_index _ _ _ _ _ Ha). intros ->.
    destruct (held_clear z0 (pa_zone s) _ p 0 Hs) as [Hc _]; [apply elem_of_app; right; by apply block_elem|].
    apply (clear_not_free (pa_zone s) p 0 p Hc); [simpl; lia|]. apply (allocated_was_free _ _ _ _ _ Ha).
    pose proof (clear_order _ _ _ (allocated_clear _ _ _ _ _ Ha)) as Ho. pose proof (pow_pos order ltac:(lia)). lia.
Qed.

(** The end of [rmqueue]: the mark of a boosted watermark is cleared. *)
Lemma pa_unboost s live : pa_ok s live ->
  pa_ok (PageAlloc (if boosted_watermark (pa_zone s) then set_boost (pa_zone s) (watermark_boost (pa_zone s)) false
                    else pa_zone s) (pageset s)) live.
Proof using Type.
  intros Hok. destruct s as [z ps]. cbn [pa_zone pageset]. destruct (boosted_watermark z); [|done].
  apply (pa_zone_only (PageAlloc z ps) live); [done| |by apply (types_flags z), Hok|done].
  apply (safe_lists z0 z); [done|apply Hok].
Qed.

Lemma rmqueue_served s live c order mt flags : pa_ok s live -> c ∈ cpus -> 0 <= order < MAX_ORDER ->
  0 <= mt < MIGRATE_PCPTYPES ->
  served (rmqueue s c order flags mt) live order mt flags.
Proof using All.
  intros Hok Hc Ho Hmt. unfold rmqueue.
  set (first := if order =? 0 then _ else _). assert (Hfirst : served first live order mt flags).
  { unfold first, check_fuel. destruct (Z.eqb_spec order 0) as [->|Hne]; [by apply rmqueue_pcplist_ok|].
    destruct (rmqueue_loop_ok (Z.to_nat (spanned_pages (pa_zone s))) (pa_zone s) _ order mt flags (pa_safe _ _ Hok))
      as (z & page & -> & Hp); [done..|]. cbn [mbind outcome_bind].
    destruct page as [p|]; do 2 eexists; (split; [done|]).
    - eapply pa_alloc; [done|done|apply mod_state_lists|..]; unfold __mod_zone_freepage_state; by destruct (is_migrate_cma _).
    - destruct Hp as [Hr Hex]. split; [|done]. apply (pa_zone_only s live z live Hok); [apply (safe_restocked z0 (pa_zone s) z _ Hr), Hok| |].
      + apply Hr, Hok.
      + intros q _. apply Hr. }
  destruct Hfirst as (s' & page & -> & Hp). cbn [mbind outcome_bind]. destruct page as [p|].
  - rewrite andb_false_r. pose proof (pa_unboost _ _ Hp) as Hb. set (z := if boosted_watermark _ then _ else _) in *.
    assert (Hbad : bad_range z p = false).
    { destruct (held_clear _ _ _ p order (pa_safe _ _ Hb) ltac:(apply list_elem_of_here)) as [Hcl _].
      apply (in_zone_first z p order); [lia|apply Hcl]. }
    rewrite Hbad. cbn [BUG_ON mbind outcome_bind]. by do 2 eexists.
  - destruct Hp as [Hok' Hex]. destruct (negb (order =? 0)); cbn [andb]; [by do 2 eexists|].
    cbn [BUG_ON mbind outcome_bind]. do 2 eexists. split; [done|]. split; [by apply pa_unboost|].
    cbn [pa_zone]. by destruct (boosted_watermark _).
Qed.
End State.

(** ** Sequences of requests *)

(** Requests of the CPUs: for a block, to give the [i]-th of the live blocks back,
    and to return cached pages, all or a batch of them. *)
Inductive pa_request :=
| PaAlloc (cpu order migratetype alloc_flags : Z)
| PaFree (cpu : Z) (i : nat)
| PaDrain (cpu : Z)
| PaDrainBatch (cpu : Z).

Section Requests.
Context `{PageAllocSpec}.

Definition pa_serve (s : page_alloc) (live : list (Z * Z)) (r : pa_request) : outcome (page_alloc * list (Z * Z)) :=
  match r with
  | PaAlloc cpu order mt flags =>
      r ← rmqueue s cpu order flags mt;
      Done (r.1, match r.2 with Some p => (p, order) :: live | None => live end)
  | PaFree cpu i =>
      match live !! i with
      | Some (p, o) => s ← free_the_page s cpu p o; Done (s, delete i live)
      | None => Done (s, live)
      end
  | PaDrain cpu => s ← drain_pages_zone s cpu; Done (s, live)
  | PaDrainBatch cpu =>
      r ← drain_zone_pages (pa_zone s) (pageset s cpu);
      Done (PageAlloc r.1 (upd (pageset s) cpu r.2), live)
  end.
Fixpoint pa_serve_all (s : page_alloc) (live : list (Z * Z)) (rs : list pa_request)
    : outcome (page_alloc * list (Z * Z)) :=
  match rs with
  | [] => Done (s, live)
  | r :: rs => s ← pa_serve s live r; pa_serve_all s.1 s.2 rs
  end.

Definition pa_valid (cpus : list Z) (r : pa_request) : Prop :=
  match r with
  | PaAlloc cpu order mt flags =>
      cpu ∈ cpus /\ 0 <= order < MAX_ORDER /\ 0 <= mt < MIGRATE_PCPTYPES
  | PaFree cpu _ | PaDrain cpu | PaDrainBatch cpu => cpu ∈ cpus
  end.

Context (z0 : zone) (Hcont : contiguous z0) (Hinit : initialized z0 = true)
  (Hpristine : forall q, free_page z0 q -> pristine (mem_map z0 q)).
Context (cpus : list Z) (Hnd : NoDup cpus).

Lemma pa_ok_perm s live live' : live ≡ₚ live' -> pa_ok z0 cpus s live -> pa_ok z0 cpus s live'.
Proof using Type. intros Hp [S1 S2 S3 S4]. split; try done. eapply safe_perm; [|exact S1]. by rewrite Hp. Qed.

Lemma pa_serve_ok s live r : pa_ok z0 cpus s live -> pa_valid cpus r ->
  exists s' live', pa_serve s live r = Done (s', live') /\ pa_ok z0 cpus s' live'.
Proof using All.
  intros Hok Hr. destruct r as [c order mt flags|c i|c|c]; cbn [pa_serve pa_valid] in *.
  - destruct Hr as (Hc & Ho & Hmt).
    destruct (rmqueue_served z0 Hcont Hinit Hpristine cpus Hnd s live c order mt flags) as (s' & page & -> & Hp); try done.
    cbn [mbind outcome_bind fst snd]. destruct page; [by do 2 eexists|]. destruct Hp. by do 2 eexists.
  - destruct (live !! i) as [[p o]|] eqn:Hi; [|by do 2 eexists].
    pose proof (delete_Permutation live i (p, o) Hi) as Hperm. apply (pa_ok_perm _ _ _ Hperm) in Hok.
    destruct (free_the_page_ok z0 Hcont Hinit Hpristine cpus Hnd s (delete i live) c p o) as (s' & -> & Hok'); try done.
    { destruct (held_clear _ _ _ p o (pa_safe _ _ _ _ Hok) ltac:(apply list_elem_of_here)) as [[Ho _ _ _] _]. lia. }
    cbn [mbind outcome_bind]. by do 2 eexists.
  - destruct (drain_pages_zone_ok z0 Hcont Hinit Hpristine cpus Hnd s live c Hok Hr) as (s' & -> & Hok' & _).
    cbn [mbind outcome_bind]. by do 2 eexists.
  - destruct (drain_zone_pages_ok z0 Hcont Hinit Hpristine cpus Hnd s live c Hok Hr) as (z' & pcp' & -> & Hok').
    cbn [mbind outcome_bind fst snd]. by do 2 eexists.
Qed.

Lemma pa_serve_all_ok rs : Forall (pa_valid cpus) rs -> forall s live, pa_ok z0 cpus s live ->
  exists s' live', pa_serve_all s live rs = Done (s', live') /\ pa_ok z0 cpus s' live'.
Proof using All.
  induction 1 as [|r rs Hr _ IH]; intros s live Hok; cbn [pa_serve_all]; [by do 2 eexists|].
  destruct (pa_serve_ok s live r Hok Hr) as (s1 & live1 & -> & Hok1). cbn [mbind outcome_bind fst snd]. by apply IH.
Qed.

(** Draining CPU after CPU. *)
Lemma drain_cpus_ok live : forall cs s, pa_ok z0 cpus s live -> (forall c, c ∈ cs -> c ∈ cpus) ->
  exists s', pa_serve_all s live (PaDrain <$> cs) = Done (s', live) /\ pa_ok z0 cpus s' live /\
    forall c, (c ∈ cs \/ pcp_count (pageset s c) = 0) -> pcp_count (pageset s' c) = 0.
Proof using All.
  induction cs as [|c cs IH]; intros s Hok Hin; cbn [fmap list_fmap pa_serve_all pa_serve].
  { exists s. split_and!; [done|done|]. intros c [Hc|Hc]; [by apply elem_of_nil in Hc|done]. }
  destruct (drain_pages_zone_ok z0 Hcont Hinit Hpristine cpus Hnd s live c Hok) as (s1 & -> & Hok1 & Hn1).
  { apply Hin, list_elem_of_here. }
  cbn [mbind outcome_bind fst snd].
  destruct (IH s1 Hok1) as (s' & Hr & Hok' & Hn'); [intros; apply Hin; by apply list_elem_of_further|].
  exists s'. split_and!; [done|done|]. intros c' Hc'. apply Hn'. rewrite Hn1.
  destruct (Z.eqb_spec c' c); [by right|]. rewrite elem_of_cons in Hc'. tauto.
Qed.

Lemma cached_nil s live : pa_ok z0 cpus s live -> (forall c, c ∈ cpus -> pcp_count (pageset s c) = 0) -> cached cpus s = [].
Proof using Type.
  intros Hok Hz. pose proof (pa_pcp _ _ _ _ Hok) as Hp. unfold cached. clear Hnd Hok.
  induction cpus as [|c cs IH]; [done|]. rewrite bind_cons, IH.
  - rewrite app_nil_r. apply length_zero_iff_nil. pose proof (pcp_ok_count _ (Hp c ltac:(apply list_elem_of_here))).
    specialize (Hz c ltac:(apply list_elem_of_here)). lia.
  - intros c' Hc'. apply Hz. by apply list_elem_of_further.
  - intros c' Hc'. apply Hp. by apply list_elem_of_further.
Qed.
End Requests.

(** ** The properties *)

(** A zone whose free pages are in order and CPUs that cache none yet. *)
Record pa_start `{PageAllocConfig} (cpus : list Z) (s : page_alloc) : Prop := {
  start_wf : wf (pa_zone s);
  start_coalesced : coalesced (merge_limit (pa_zone s)) (pa_zone s);
  start_contiguous : contiguous (pa_zone s);
  start_initialized : initialized (pa_zone s) = true;
  start_types : types_ok (pa_zone s);
  start_pristine q : free_page (pa_zone s) q -> pristine (mem_map (pa_zone s) q);
  start_cpus : NoDup cpus;
  start_count c : c ∈ cpus -> pcp_count (pageset s c) = 0;
  start_batch c : c ∈ cpus -> 0 < pcp_batch (pageset s c) <= pcp_high (pageset s c);
  start_lists c t : c ∈ cpus -> pcp_lists (pageset s c) t = [];
}.

Section Properties.
Context `{PageAllocSpec}.

Lemma start_cached cpus s : pa_start cpus s -> cached cpus s = [].
Proof using Type.
  intros [_ _ _ _ _ _ _ _ _ Hl]. unfold cached. induction cpus as [|c cs IH]; [done|]. rewrite bind_cons, IH.
  - unfold flat. by rewrite !Hl by apply list_elem_of_here.
  - intros c' t Hc'. apply Hl. by apply list_elem_of_further.
Qed.

Lemma start_ok cpus s : pa_start cpus s -> pa_ok (pa_zone s) cpus s [].
Proof using Type.
  intros Hst. pose proof (start_cached cpus s Hst) as Hc. destruct Hst as [S1 S2 S3 S4 S5 S6 S7 S8 S9 S10].
  split; [|done|rewrite Hc; constructor|].
  - rewrite Hc. split; [done|done|done|constructor|done|]. intros q. rewrite Exists_nil. tauto.
  - intros c Hcpu. split; [|by apply S9]. unfold flat. rewrite !S10 by done. by apply S8.
Qed.

(** C4: starting from a contiguous zone with well-formed merged free lists, clean
    descriptors of the free pages and empty lists of the CPUs, over any sequence of
    requests of the CPUs (allocations of ordinary types with all orders and flags, with
    the caches, refills, fallbacks, splits and merges behind them, frees and drains) every operation returns and no check fires.  The live blocks and the
    pages cached by the CPUs are pairwise disjoint, every page that was free at
    the start is either free or in exactly one of these, and each CPU counts its
    pages correctly.  Draining all CPUs then leaves every page that is not live
    on the free lists. *)
Theorem page_alloc_never_overlaps cpus s rs : pa_start cpus s -> Forall (pa_valid cpus) rs ->
  exists s' live, pa_serve_all s [] rs = Done (s', live) /\ wf (pa_zone s') /\
    pairwise_apart (live ++ blocks 0 (cached cpus s')) /\
    (forall q, free_page (pa_zone s) q <->
       free_page (pa_zone s') q \/ Exists (fun b => in_block b q) (live ++ blocks 0 (cached cpus s'))) /\
    (forall q, free_page (pa_zone s') q -> ~ Exists (fun b => in_block b q) (live ++ blocks 0 (cached cpus s'))) /\
    (forall c, c ∈ cpus -> pcp_count (pageset s' c) = Z.of_nat (length (flat (pageset s' c)))) /\
    exists s2, pa_serve_all s' live (PaDrain <$> cpus) = Done (s2, live) /\ cached cpus s2 = [] /\
      forall q, free_page (pa_zone s) q <-> free_page (pa_zone s2) q \/ Exists (fun b => in_block b q) live.
Proof using All.
  intros Hst Hrs. pose proof (start_ok cpus s Hst) as Hok. destruct Hst as [_ _ S3 S4 _ S6 S7 _ _ _].
  destruct (pa_serve_all_ok (pa_zone s) S3 S4 S6 cpus S7 rs Hrs s [] Hok) as (s' & live & -> & Hok').
  exists s', live. pose proof (pa_safe _ _ _ _ Hok') as Hs. split_and!; [done|apply Hs..| | |].
  - intros q Hf Hex. rewrite list.Exists_exists in Hex. destruct Hex as ((p & o) & Hb & Hq).
    destruct (held_clear _ _ _ p o Hs Hb) as [Hc _]. by apply (clear_not_free (pa_zone s') p o q).
  - intros c Hc. apply (pa_pcp _ _ _ _ Hok' c Hc).
  - destruct (drain_cpus_ok (pa_zone s) S3 S4 S6 cpus S7 live cpus s' Hok') as (s2 & Hr & Hok2 & Hn2); [done|].
    exists s2. assert (Hnil : cached cpus s2 = []) by (apply (cached_nil (pa_zone s) cpus s2 live Hok2); auto).
    split_and!; [done|done|]. pose proof (safe_pages _ _ _ (pa_safe _ _ _ _ Hok2)) as Hp. rewrite Hnil in Hp.
    cbn [blocks fmap list_fmap] in Hp. by rewrite app_nil_r in Hp.
Qed.
End Properties.

(** ** A run of two CPUs on the example zone *)
Definition pa1 : page_alloc := PageAlloc zone1 (fun _ => Pcp 0 4 2 (fun _ => [])).

Lemma pa1_start : pa_start [0; 1] pa1.
Proof.
  pose proof (freed_same _ _ _ _ _ zone1_freed) as Hs.
  split; cbn [pa_zone pageset pa1];
    [apply zone1_wf|exact zone1_coalesced|apply zone1_contiguous|reflexivity| | | |done|done|done].
  - apply (types_flags zone0); [apply zone1_freed|]. intros q _. unfold get_pageblock_migratetype, __get_pfnblock_flags_mask.
    cbn [zone0 pageblock_flags]. by rewrite Z.shiftr_0_l, Z.land_0_l.
  - intros q _. by apply (pristine_same zone0).
  - by apply (bool_decide_unpack _).
Qed.

Definition pa1_requests : list pa_request :=
  [PaAlloc 0 0 MIGRATE_UNMOVABLE 0; PaAlloc 1 3 MIGRATE_MOVABLE 0; PaFree 1 1; PaAlloc 1 0 MIGRATE_MOVABLE 0;
   PaAlloc 0 3 MIGRATE_UNMOVABLE ALLOC_NOFRAGMENT].

(** CPU 0 still caches one of the two pages of its refill; the other one was
    given back on CPU 1, and a block was asked for that must not break up a pageblock. *)
Lemma page_alloc_never_overlaps_witness :
  exists s' live, pa_serve_all pa1 [] pa1_requests = Done (s', live) /\ length live = 2%nat /\
    pairwise_apart (live ++ blocks 0 (cached [0; 1] s')) /\ pcp_count (pageset s' 0) = 1.
Proof.
  destruct (page_alloc_never_overlaps [0; 1] pa1 pa1_requests) as (s' & live & Hr & _ & Ha & _).
  - exact pa1_start.
  - repeat (apply list.Forall_cons; split; [cbn [pa_valid]; split_and?; (by apply (bool_decide_unpack _)) || (vm_compute; congruence)|]). constructor.
  - exists s', live. split; [exact Hr|].
    assert (Hl : match pa_serve_all pa1 [] pa1_requests with
                 | Done (s', l) => length l = 2%nat /\ pcp_count (pageset s' 0) = 1 | _ => False end)
      by (vm_compute; split; reflexivity).
    rewrite Hr in Hl. destruct Hl as [Hlen Hn]. split; [exact Hlen|]. split; [exact Ha|exact Hn].
Defined.

(** With [ALLOC_OOM] the watermark check counts the reserve of atomic requests,
    which [rmqueue] hands out for [ALLOC_HARDER] only. *)
Definition zone_reserve : zone :=
  match __free_one_page zone0 0 3 MIGRATE_HIGHATOMIC with Done z => set_vm_stat z 8 0 | _ => zone0 end.
Example oom_mark_not_served :
  zone_watermark_ok zone_reserve 3 0 0 ALLOC_OOM = true /\
  match rmqueue_loop (check_fuel zone_reserve) zone_reserve 3 MIGRATE_UNMOVABLE ALLOC_OOM with
  | Done (_, page) => page = None
  | _ => False
  end.
Proof. vm_compute. done. Qed.
