(* ===== verification/WaitQueue.v ===== *)
(** * Wait queues: data and operations

    [src/new/kernel/sched/wait.c] with the inline part in
    [src/new/include/linux/wait.h].  An entry and a task are addresses into the
    state; the queue is the list behind [wq_head->head].  What [wq_head->lock]
    protects is one function on the state; sections of an operation between which
    the lock is dropped are separate functions, so that what other tasks do in
    between can be told apart.  Memory is sequentially consistent. *)

From S2P Require Import Prelude.

Definition WQ_FLAG_EXCLUSIVE : Z := 0x01.
Definition WQ_FLAG_WOKEN : Z := 0x02.
Definition WQ_FLAG_BOOKMARK : Z := 0x04.
Definition WAITQUEUE_WALK_BREAK_CNT : Z := 64.

Definition TASK_RUNNING : Z := 0x0000.
Definition TASK_INTERRUPTIBLE : Z := 0x0001.
Definition TASK_UNINTERRUPTIBLE : Z := 0x0002.
Definition TASK_WAKEKILL : Z := 0x0100.
Definition TASK_KILLABLE : Z := Z.lor TASK_WAKEKILL TASK_UNINTERRUPTIBLE.
Definition TASK_NORMAL : Z := Z.lor TASK_INTERRUPTIBLE TASK_UNINTERRUPTIBLE.
Definition ERESTARTSYS : Z := 512.

(** The functions an entry can point to: those of the file, and others. *)
Inductive wait_queue_func_t :=
| DefaultWake
| AutoremoveWake
| WokenWake
| OtherWake (f : Z).

Record wait_queue_entry := WqEntry {
  wq_flags : Z;
  wq_private : Z;
  wq_func : wait_queue_func_t;
}.

Record task := Task {
  t_state : Z;
  (** [TIF_SIGPENDING], and a pending [SIGKILL] *)
  t_sigpending : bool;
  t_fatal : bool;
  (** [PF_KTHREAD] and [KTHREAD_SHOULD_STOP] *)
  t_should_stop : bool;
}.

Record wq_state := WqState {
  entries : Z -> wait_queue_entry;
  queue : list Z;
  tasks : Z -> task;
}.

(** Functions of other modules that entries point to. *)
Class WakeFunctions := {
  wake_function : Z -> wq_state -> Z -> Z -> Z -> Z -> wq_state * Z;
}.

(** ** Assignments *)
Definition set_entry (s : wq_state) (e : Z) (v : wait_queue_entry) : wq_state :=
  WqState (upd (entries s) e v) (queue s) (tasks s).
Definition set_queue (s : wq_state) (q : list Z) : wq_state := WqState (entries s) q (tasks s).
Definition set_flags (s : wq_state) (e v : Z) : wq_state :=
  set_entry s e (WqEntry v (wq_private (entries s e)) (wq_func (entries s e))).
Definition set_task_state (s : wq_state) (p v : Z) : wq_state :=
  let t := tasks s p in
  WqState (entries s) (queue s) (upd (tasks s) p (Task v (t_sigpending t) (t_fatal t) (t_should_stop t))).

Definition flag_of (s : wq_state) (e f : Z) : bool := bool_of (Z.land (wq_flags (entries s e)) f).

(** ** Lists *)

(** An entry that was initialised and is on no list is linked to itself. *)
Definition list_empty (s : wq_state) (e : Z) : bool := bool_decide (e ∉ queue s).
Definition list_del_init (s : wq_state) (e : Z) : wq_state := set_queue s (filter (fun x => x <> e) (queue s)).

(** Linking an entry twice, or unlinking one that is not linked, corrupts the list. *)
Definition __add_wait_queue (s : wq_state) (e : Z) : outcome wq_state :=
  if list_empty s e then Done (set_queue s (e :: queue s)) else Bug.
Definition __add_wait_queue_entry_tail (s : wq_state) (e : Z) : outcome wq_state :=
  if list_empty s e then Done (set_queue s (queue s ++ [e])) else Bug.
Definition __remove_wait_queue (s : wq_state) (e : Z) : outcome wq_state :=
  if list_empty s e then Bug else Done (list_del_init s e).

(** What follows an entry; [None] is the head. *)
Fixpoint next_in (q : list Z) (e : Z) : outcome (option Z) :=
  match q with
  | [] => Bug
  | x :: q => if x =? e then Done (list.head q) else next_in q e
  end.
Fixpoint insert_before (q : list Z) (e b : Z) : outcome (list Z) :=
  match q with
  | [] => Bug
  | x :: q => if x =? e then Done (b :: x :: q) else q ← insert_before q e b; Done (x :: q)
  end.

Definition __add_wait_queue_exclusive (s : wq_state) (e : Z) : outcome wq_state :=
  __add_wait_queue (set_flags s e (Z.lor (wq_flags (entries s e)) WQ_FLAG_EXCLUSIVE)) e.
Definition __add_wait_queue_entry_tail_exclusive (s : wq_state) (e : Z) : outcome wq_state :=
  __add_wait_queue_entry_tail (set_flags s e (Z.lor (wq_flags (entries s e)) WQ_FLAG_EXCLUSIVE)) e.

Definition waitqueue_active (s : wq_state) : bool := match queue s with [] => false | _ => true end.
Definition wq_has_sleeper (s : wq_state) : bool := waitqueue_active s.
Definition __init_waitqueue_head (s : wq_state) : wq_state := set_queue s [].

Definition add_wait_queue (s : wq_state) (e : Z) : outcome wq_state :=
  __add_wait_queue (set_flags s e (Z.land (wq_flags (entries s e)) (Z.lnot WQ_FLAG_EXCLUSIVE))) e.
Definition add_wait_queue_exclusive (s : wq_state) (e : Z) : outcome wq_state :=
  __add_wait_queue_entry_tail (set_flags s e (Z.lor (wq_flags (entries s e)) WQ_FLAG_EXCLUSIVE)) e.
Definition remove_wait_queue (s : wq_state) (e : Z) : outcome wq_state := __remove_wait_queue s e.

Definition init_waitqueue_entry (s : wq_state) (e p : Z) : wq_state := set_entry s e (WqEntry 0 p DefaultWake).
Definition init_waitqueue_func_entry (s : wq_state) (e : Z) (func : wait_queue_func_t) : wq_state :=
  set_entry s e (WqEntry 0 0 func).
Definition init_wait_entry (s : wq_state) (current e flags : Z) : wq_state :=
  set_entry s e (WqEntry flags current AutoremoveWake).

(** ** Waking *)

(** The scheduler's part is reduced to the state of the task. *)
Definition try_to_wake_up (s : wq_state) (p state : Z) : wq_state * Z :=
  if negb (bool_of (Z.land (t_state (tasks s p)) state)) then (s, 0) else (set_task_state s p TASK_RUNNING, 1).
Definition default_wake_function (s : wq_state) (curr mode wake_flags key : Z) : wq_state * Z :=
  try_to_wake_up s (wq_private (entries s curr)) mode.
Definition autoremove_wake_function (s : wq_state) (e mode sync key : Z) : wq_state * Z :=
  let '(s, ret) := default_wake_function s e mode sync key in
  let s := if bool_of ret then list_del_init s e else s in
  (s, ret).
Definition woken_wake_function (s : wq_state) (e mode sync key : Z) : wq_state * Z :=
  let s := set_flags s e (Z.lor (wq_flags (entries s e)) WQ_FLAG_WOKEN) in
  default_wake_function s e mode sync key.

Section WaitQueue.
Context `{WakeFunctions}.

Definition call_func (s : wq_state) (e mode wake_flags key : Z) : wq_state * Z :=
  match wq_func (entries s e) with
  | DefaultWake => default_wake_function s e mode wake_flags key
  | AutoremoveWake => autoremove_wake_function s e mode wake_flags key
  | WokenWake => woken_wake_function s e mode wake_flags key
  | OtherWake f => wake_function f s e mode wake_flags key
  end.

(** [list_for_each_entry_safe_from]: [next] is read before the function is called. *)
Fixpoint wake_loop (fuel : nat) (s : wq_state) (curr : option Z) (mode nr_exclusive wake_flags key : Z)
    (bookmark : option Z) (cnt : Z) : outcome (wq_state * Z) :=
  match fuel with
  | O => NoFuel
  | S fuel =>
      match curr with
      | None => Done (s, nr_exclusive)
      | Some curr =>
          next ← next_in (queue s) curr;
          if flag_of s curr WQ_FLAG_BOOKMARK
          then wake_loop fuel s next mode nr_exclusive wake_flags key bookmark cnt
          else
            let exclusive := flag_of s curr WQ_FLAG_EXCLUSIVE in
            let '(s, ret) := call_func s curr mode wake_flags key in
            if ret <? 0 then Done (s, nr_exclusive)
            else
              let counts := bool_of ret && exclusive in
              let nr_exclusive := if counts then s32 (nr_exclusive - 1) else nr_exclusive in
              if counts && (nr_exclusive =? 0) then Done (s, nr_exclusive)
              else
                match bookmark, next with
                | Some b, Some n =>
                    let cnt := cnt + 1 in
                    if cnt >? WAITQUEUE_WALK_BREAK_CNT then
                      q ← insert_before (queue s) n b;
                      Done (set_queue (set_flags s b WQ_FLAG_BOOKMARK) q, nr_exclusive)
                    else wake_loop fuel s next mode nr_exclusive wake_flags key bookmark cnt
                | _, _ => wake_loop fuel s next mode nr_exclusive wake_flags key bookmark cnt
                end
      end
  end.

(** One turn per entry that is on the queue at the start. *)
Definition __wake_up_common (s : wq_state) (mode nr_exclusive wake_flags key : Z) (bookmark : option Z)
    : outcome (wq_state * Z) :=
  r ← match bookmark with
      | Some b =>
          if flag_of s b WQ_FLAG_BOOKMARK then
            curr ← next_in (queue s) b;
            Done (set_flags (list_del_init s b) b 0, curr)
          else Done (s, list.head (queue s))
      | None => Done (s, list.head (queue s))
      end;
  let '(s, curr) := r in
  match curr with
  | None => Done (s, nr_exclusive)
  | Some _ => wake_loop (S (length (queue s))) s curr mode nr_exclusive wake_flags key bookmark 0
  end.

(** [while (bookmark.flags & WQ_FLAG_BOOKMARK)] *)
Fixpoint wake_rest (fuel : nat) (s : wq_state) (mode nr_exclusive wake_flags key b : Z) : outcome wq_state :=
  match fuel with
  | O => NoFuel
  | S fuel =>
      if flag_of s b WQ_FLAG_BOOKMARK then
        r ← __wake_up_common s mode nr_exclusive wake_flags key (Some b);
        wake_rest fuel r.1 mode r.2 wake_flags key b
      else Done s
  end.

(** [b] is where the bookmark is on the stack.  Every section moves on by an entry
    at least. *)
Definition __wake_up_common_lock (s : wq_state) (mode nr_exclusive wake_flags key b : Z) : outcome wq_state :=
  let s := set_entry s b (WqEntry 0 0 (OtherWake 0)) in
  r ← __wake_up_common s mode nr_exclusive wake_flags key (Some b);
  wake_rest (S (length (queue s))) r.1 mode r.2 wake_flags key b.

Definition __wake_up (s : wq_state) (mode nr_exclusive key b : Z) : outcome wq_state :=
  __wake_up_common_lock s mode nr_exclusive 0 key b.
Definition __wake_up_locked (s : wq_state) (mode nr : Z) : outcome wq_state :=
  r ← __wake_up_common s mode nr 0 0 None; Done r.1.
Definition __wake_up_locked_key (s : wq_state) (mode key : Z) : outcome wq_state :=
  r ← __wake_up_common s mode 1 0 key None; Done r.1.
Definition __wake_up_locked_key_bookmark (s : wq_state) (mode key : Z) (bookmark : Z) : outcome wq_state :=
  r ← __wake_up_common s mode 1 0 key (Some bookmark); Done r.1.
(** The head is there, so that the check for a null pointer is not repeated. *)
Definition __wake_up_sync_key (s : wq_state) (mode nr_exclusive key b : Z) : outcome wq_state :=
  let wake_flags := 1 in
  let wake_flags := if negb (nr_exclusive =? 1) then 0 else wake_flags in
  __wake_up_common_lock s mode nr_exclusive wake_flags key b.
Definition __wake_up_sync (s : wq_state) (mode nr_exclusive b : Z) : outcome wq_state :=
  __wake_up_sync_key s mode nr_exclusive 0 b.

Definition wake_up (s : wq_state) (b : Z) : outcome wq_state := __wake_up s TASK_NORMAL 1 0 b.
Definition wake_up_nr (s : wq_state) (nr b : Z) : outcome wq_state := __wake_up s TASK_NORMAL nr 0 b.
Definition wake_up_all (s : wq_state) (b : Z) : outcome wq_state := __wake_up s TASK_NORMAL 0 0 b.

(** ** Waiting *)
Definition signal_pending_state (s : wq_state) (state p : Z) : bool :=
  if negb (bool_of (Z.land state (Z.lor TASK_INTERRUPTIBLE TASK_WAKEKILL))) then false
  else if negb (t_sigpending (tasks s p)) then false
  else bool_of (Z.land state TASK_INTERRUPTIBLE) || t_fatal (tasks s p).

Definition prepare_to_wait (s : wq_state) (current e state : Z) : outcome wq_state :=
  let s := set_flags s e (Z.land (wq_flags (entries s e)) (Z.lnot WQ_FLAG_EXCLUSIVE)) in
  s ← (if list_empty s e then __add_wait_queue s e else Done s);
  Done (set_task_state s current state).
Definition prepare_to_wait_exclusive (s : wq_state) (current e state : Z) : outcome wq_state :=
  let s := set_flags s e (Z.lor (wq_flags (entries s e)) WQ_FLAG_EXCLUSIVE) in
  s ← (if list_empty s e then __add_wait_queue_entry_tail s e else Done s);
  Done (set_task_state s current state).
Definition prepare_to_wait_event (s : wq_state) (current e state : Z) : outcome (wq_state * Z) :=
  if signal_pending_state s state current then Done (list_del_init s e, - ERESTARTSYS)
  else
    s ← (if list_empty s e then
           if flag_of s e WQ_FLAG_EXCLUSIVE then __add_wait_queue_entry_tail s e else __add_wait_queue s e
         else Done s);
    Done (set_task_state s current state, 0).

(** [schedule] is what happens until the task runs again. *)
Definition do_wait_intr (schedule : wq_state -> wq_state) (s : wq_state) (current e : Z) : outcome (wq_state * Z) :=
  s ← (if list_empty s e then __add_wait_queue_entry_tail s e else Done s);
  let s := set_task_state s current TASK_INTERRUPTIBLE in
  if t_sigpending (tasks s current) then Done (s, - ERESTARTSYS) else Done (schedule s, 0).

(** The first part of [finish_wait] runs without the lock. *)
Definition finish_wait (s : wq_state) (current e : Z) : wq_state :=
  let s := set_task_state s current TASK_RUNNING in
  if negb (list_empty s e) then list_del_init s e else s.

Definition wait_woken (schedule_timeout : wq_state -> Z -> wq_state * Z) (s : wq_state) (current e mode timeout : Z)
    : wq_state * Z :=
  let s := set_task_state s current mode in
  let '(s, timeout) :=
    if negb (flag_of s e WQ_FLAG_WOKEN) && negb (t_should_stop (tasks s current))
    then schedule_timeout s timeout else (s, timeout) in
  let s := set_task_state s current TASK_RUNNING in
  let s := set_flags s e (Z.land (wq_flags (entries s e)) (Z.lnot WQ_FLAG_WOKEN)) in
  (s, timeout).

(** For a state that is a constant, as all users pass it. *)
Definition ___wait_is_interruptible (state : Z) : bool :=
  (state =? TASK_INTERRUPTIBLE) || (state =? TASK_KILLABLE).

End WaitQueue.
