(* ===== verification/WaitQueueProps.v ===== *)
(** * Wait queues: the walk of a waker

    What one section of a walk, up to the break after
    [WAITQUEUE_WALK_BREAK_CNT] entries or to the end, does to the queue and to the
    tasks, and that the breaks make no difference when nobody interferes. *)

From S2P Require Import Prelude WaitQueue.

(** ** Lists without duplicates *)
Lemma next_in_app l e r : e ∉ l -> next_in (l ++ e :: r) e = Done (list.head r).
Proof.
  induction l as [|x l IH]; intros Hn; simpl; [by rewrite Z.eqb_refl|].
  rewrite not_elem_of_cons in Hn. destruct Hn as [Hne Hn]. destruct (Z.eqb_spec x e); [congruence|auto].
Qed.

Lemma insert_before_app l e r b : e ∉ l -> insert_before (l ++ e :: r) e b = Done (l ++ b :: e :: r).
Proof.
  induction l as [|x l IH]; intros Hn; simpl; [by rewrite Z.eqb_refl|].
  rewrite not_elem_of_cons in Hn. destruct Hn as [Hne Hn]. destruct (Z.eqb_spec x e); [congruence|].
  rewrite IH by done. done.
Qed.

Lemma filter_ne_mid (e : Z) (l r : list Z) : e ∉ l -> e ∉ r -> filter (fun x => x <> e) (l ++ e :: r) = l ++ r.
Proof.
  intros Hl Hr. rewrite list.filter_app, filter_cons_False by tauto. by rewrite !filter_ne_id.
Qed.

Section Walk.
Context `{WakeFunctions}.

(** Entries that use the functions of the module. *)
Definition plain (s : wq_state) (e : Z) : Prop :=
  flag_of s e WQ_FLAG_BOOKMARK = true \/ match wq_func (entries s e) with OtherWake _ => False | _ => True end.

(** The task of the entry waits in one of the states of [mode]. *)
Definition wakes (s : wq_state) (mode e : Z) : bool :=
  negb (flag_of s e WQ_FLAG_BOOKMARK) && bool_of (Z.land (t_state (tasks s (wq_private (entries s e)))) mode).

Definition removed (s : wq_state) (mode e : Z) : bool :=
  wakes s mode e && match wq_func (entries s e) with AutoremoveWake => true | _ => false end.

Definition running (t : task) : task := Task TASK_RUNNING (t_sigpending t) (t_fatal t) (t_should_stop t).

Definition woken_flag (s : wq_state) (e : Z) : wait_queue_entry :=
  let d := entries s e in
  if negb (flag_of s e WQ_FLAG_BOOKMARK) && match wq_func d with WokenWake => true | _ => false end
  then WqEntry (Z.lor (wq_flags d) WQ_FLAG_WOKEN) (wq_private d) (wq_func d) else d.

(** From [s] on the entries [V] were visited, those in front of them and behind
    them were not. *)
Record visited (s : wq_state) (mode : Z) (pre V rest : list Z) (s' : wq_state) : Prop := {
  visited_queue : queue s' = pre ++ filter (fun e => removed s mode e = false) V ++ rest;
  visited_entry e : entries s' e = if bool_decide (e ∈ V) then woken_flag s e else entries s e;
  visited_woken e : e ∈ V -> wakes s mode e = true ->
    tasks s' (wq_private (entries s e)) = running (tasks s (wq_private (entries s e)));
  visited_task p : (forall e, e ∈ V -> wakes s mode e = true -> wq_private (entries s e) <> p) -> tasks s' p = tasks s p;
}.

(** No entry twice, and no task twice. *)
Record distinct (s : wq_state) (q : list Z) : Prop := {
  distinct_nodup : NoDup q;
  distinct_task e e' : e ∈ q -> e' ∈ q -> flag_of s e WQ_FLAG_BOOKMARK = false ->
    flag_of s e' WQ_FLAG_BOOKMARK = false -> wq_private (entries s e) = wq_private (entries s e') -> e = e';
  distinct_plain e : e ∈ q -> plain s e;
}.

Lemma visited_nil s mode pre rest : queue s = pre ++ rest -> visited s mode pre [] rest s.
Proof using Type.
  intros Hq. split; [done| |by intros e He; apply elem_of_nil in He|done].
  intros e. by rewrite bool_decide_eq_false_2 by apply not_elem_of_nil.
Qed.

(** An entry that was not visited yet is as at the start. *)
Lemma unvisited s mode pre V e rest s' : visited s mode pre V (e :: rest) s' -> distinct s (pre ++ V ++ e :: rest) ->
  entries s' e = entries s e /\ (flag_of s e WQ_FLAG_BOOKMARK = false ->
    tasks s' (wq_private (entries s e)) = tasks s (wq_private (entries s e))).
Proof using Type.
  intros Hv [Hnd Ht Hp]. assert (He : e ∉ V).
  { apply list.NoDup_app in Hnd as (_ & _ & Hnd). apply list.NoDup_app in Hnd as (_ & Hx & _).
    intros Hin. apply (Hx e Hin), list_elem_of_here. }
  split.
  - rewrite (visited_entry _ _ _ _ _ _ Hv). by rewrite bool_decide_eq_false_2.
  - intros Hb. apply (visited_task _ _ _ _ _ _ Hv). intros e' He' Hw Heq. apply He.
    rewrite <- (Ht e' e); [done| | | |done|done].
    + rewrite !elem_of_app. tauto.
    + rewrite !elem_of_app, elem_of_cons. tauto.
    + unfold wakes in Hw. by destruct (flag_of s e' _).
Qed.

Lemma filter_keep s mode V e :
  filter (fun e => removed s mode e = false) (V ++ [e]) =
  filter (fun e => removed s mode e = false) V ++ if removed s mode e then [] else [e].
Proof using Type.
  rewrite list.filter_app. f_equal. destruct (removed s mode e) eqn:Hr.
  - by rewrite filter_cons_False by congruence.
  - by rewrite filter_cons_True.
Qed.

Lemma decide_snoc (V : list Z) e x : bool_decide (x ∈ V ++ [e]) = bool_decide (x ∈ V) || (x =? e).
Proof using Type.
  apply eq_true_iff_eq. rewrite orb_true_iff, !bool_decide_eq_true, Z.eqb_eq, elem_of_app, list_elem_of_singleton. done.
Qed.

(** The state after a visit, from what the function of the entry did. *)
Lemma visited_snoc s mode pre V e rest s1 s2 : visited s mode pre V (e :: rest) s1 -> distinct s (pre ++ V ++ e :: rest) ->
  queue s2 = (if removed s mode e then filter (fun x => x <> e) (queue s1) else queue s1) ->
  (forall x, entries s2 x = if x =? e then woken_flag s e else entries s1 x) ->
  (forall p, tasks s2 p = if wakes s mode e && (p =? wq_private (entries s e)) then running (tasks s p) else tasks s1 p) ->
  visited s mode pre (V ++ [e]) rest s2.
Proof using Type.
  intros Hv Hd Hq He Ht. pose proof (unvisited _ _ _ _ _ _ _ Hv Hd) as [Hu1 Hu2]. destruct Hv as [V1 V2 V3 V4].
  destruct Hd as [Hnd Hdt Hp]. split.
  - rewrite Hq, V1, filter_keep. destruct (removed s mode e); [|by rewrite <- !app_assoc].
    rewrite app_nil_r, !app_assoc. rewrite filter_ne_mid, <- app_assoc; [done| |].
    + apply list.NoDup_app in Hnd as (_ & Hx & Hnd). apply list.NoDup_app in Hnd as (_ & Hx' & _).
      rewrite elem_of_app. intros [Hin|Hin].
      * apply (Hx e Hin). rewrite elem_of_app, elem_of_cons. tauto.
      * apply list_elem_of_filter in Hin as [_ Hin]. apply (Hx' e Hin), list_elem_of_here.
    + apply list.NoDup_app in Hnd as (_ & _ & Hnd). apply list.NoDup_app in Hnd as (_ & _ & Hnd).
      by apply list.NoDup_cons in Hnd as [? _].
  - intros x. rewrite He, decide_snoc, V2. destruct (Z.eqb_spec x e) as [->|]; [by rewrite orb_true_r|by rewrite orb_false_r].
  - intros x Hx Hw. rewrite Ht. destruct (wakes s mode e && _) eqn:Hc; [done|].
    apply elem_of_app in Hx as [Hx|Hx]; [by apply V3|]. apply list_elem_of_singleton in Hx as ->.
    by rewrite Hw, Z.eqb_refl in Hc.
  - intros p Hno. rewrite Ht. destruct (wakes s mode e && _) eqn:Hc.
    + apply andb_prop in Hc as [Hw Hpe%Z.eqb_eq]. destruct (Hno e); [|done|done].
      rewrite elem_of_app. right. by apply list_elem_of_singleton.
    + apply V4. intros x Hx. apply Hno. rewrite elem_of_app. by left.
Qed.

Lemma visit_bookmark s mode pre V e rest s1 : visited s mode pre V (e :: rest) s1 ->
  distinct s (pre ++ V ++ e :: rest) -> flag_of s e WQ_FLAG_BOOKMARK = true ->
  visited s mode pre (V ++ [e]) rest s1.
Proof using Type.
  intros Hv Hd Hb. pose proof (unvisited _ _ _ _ _ _ _ Hv Hd) as [Hu1 _].
  assert (Hw : wakes s mode e = false) by (unfold wakes; by rewrite Hb).
  apply (visited_snoc s mode pre V e rest s1 s1 Hv Hd).
  - unfold removed. by rewrite Hw.
  - intros x. destruct (Z.eqb_spec x e) as [->|]; [|done]. unfold woken_flag. by rewrite Hb.
  - intros p. by rewrite Hw.
Qed.

Lemma try_to_wake_up_ok s p mode : let w := bool_of (Z.land (t_state (tasks s p)) mode) in
  exists s', try_to_wake_up s p mode = (s', if w then 1 else 0) /\ queue s' = queue s /\ entries s' = entries s /\
    forall x, tasks s' x = if w && (x =? p) then running (tasks s x) else tasks s x.
Proof using Type.
  intros w. unfold try_to_wake_up. fold w. destruct w; eexists; (split; [done|]; split; [done|]; split; [done|]);
    intros x; cbn [andb]; [|done]. simpl. unfold upd. by destruct (Z.eqb_spec x p) as [->|].
Qed.

Lemma visit_entry s mode wf key pre V e rest s1 : visited s mode pre V (e :: rest) s1 ->
  distinct s (pre ++ V ++ e :: rest) -> flag_of s e WQ_FLAG_BOOKMARK = false ->
  exists s2, call_func s1 e mode wf key = (s2, if wakes s mode e then 1 else 0) /\
    visited s mode pre (V ++ [e]) rest s2.
Proof using Type.
  intros Hv Hd Hb. pose proof (unvisited _ _ _ _ _ _ _ Hv Hd) as [Hu1 Hu2]. specialize (Hu2 Hb).
  assert (Hpl : plain s e) by (apply Hd; rewrite !elem_of_app, elem_of_cons; tauto).
  destruct Hpl as [Hpl|Hpl]; [congruence|].
  pose proof (visited_snoc s mode pre V e rest s1) as Hsnoc. specialize (fun s2 => Hsnoc s2 Hv Hd).
  assert (Hw : wakes s mode e = bool_of (Z.land (t_state (tasks s1 (wq_private (entries s e)))) mode)).
  { unfold wakes. by rewrite Hb, Hu2. }
  assert (Htask : forall s' : wq_state, (forall x, tasks s' x = if wakes s mode e && (x =? wq_private (entries s e))
    then running (tasks s1 x) else tasks s1 x) ->
    forall x, tasks s' x = if wakes s mode e && (x =? wq_private (entries s e)) then running (tasks s x) else tasks s1 x).
  { intros s' Ht x. rewrite Ht. destruct (_ && (x =? _)) eqn:Hc; [|done]. apply andb_prop in Hc as [_ ->%Z.eqb_eq].
    by rewrite Hu2. }
  unfold call_func. rewrite Hu1. destruct (wq_func (entries s e)) eqn:Hf; [| | |done].
  - unfold default_wake_function. rewrite Hu1.
    destruct (try_to_wake_up_ok s1 (wq_private (entries s e)) mode) as (s2 & -> & Hq & He & Ht). rewrite <- Hw in *.
    exists s2. split; [done|]. apply Hsnoc; [|intros x|by apply Htask].
    + unfold removed. rewrite Hf, andb_false_r. done.
    + rewrite He. destruct (Z.eqb_spec x e) as [->|]; [|done]. unfold woken_flag. by rewrite Hf, andb_false_r.
  - unfold autoremove_wake_function, default_wake_function. rewrite Hu1.
    destruct (try_to_wake_up_ok s1 (wq_private (entries s e)) mode) as (s2 & -> & Hq & He & Ht). rewrite <- Hw in *.
    eexists. split; [reflexivity|]. apply Hsnoc; [|intros x|].
    + unfold removed. rewrite Hf, andb_true_r. destruct (wakes s mode e); simpl; by rewrite Hq.
    + replace (entries _ x) with (entries s1 x) by (destruct (wakes s mode e); simpl; by rewrite He).
      destruct (Z.eqb_spec x e) as [->|]; [|done]. unfold woken_flag. by rewrite Hf, andb_false_r.
    + apply Htask. intros x. rewrite <- Ht. by destruct (wakes s mode e).
  - unfold woken_wake_function, default_wake_function. set (s1' := set_flags _ _ _).
    replace (wq_private (entries s1' e)) with (wq_private (entries s e))
      by (simpl; unfold upd; rewrite Z.eqb_refl; simpl; by rewrite Hu1).
    destruct (try_to_wake_up_ok s1' (wq_private (entries s e)) mode) as (s2 & -> & Hq & He & Ht).
    change (tasks s1') with (tasks s1) in *. rewrite <- Hw in *.
    exists s2. split; [done|]. apply Hsnoc; [|intros x|by apply Htask].
    + unfold removed. rewrite Hf, andb_false_r. done.
    + rewrite He. simpl. unfold upd. destruct (Z.eqb_spec x e) as [->|]; [|done].
      unfold woken_flag. rewrite Hb, Hf, Hu1. by rewrite Hf.
Qed.

(** ** The entries a walk visits *)

(** An entry that uses up one of [nr_exclusive]. *)
Definition counts (s : wq_state) (mode e : Z) : bool := wakes s mode e && flag_of s e WQ_FLAG_EXCLUSIVE.
Definition quota (s : wq_state) (mode : Z) (V : list Z) : Z :=
  Z.of_nat (length (filter (fun e => counts s mode e = true) V)).

(** The walk ends with the last exclusive entry it is to wake. *)
Fixpoint walk (s : wq_state) (mode : Z) (l : list Z) (nr : Z) : list Z :=
  match l with
  | [] => []
  | e :: l =>
      e :: (if counts s mode e then if s32 (nr - 1) =? 0 then [] else walk s mode l (s32 (nr - 1)) else walk s mode l nr)
  end.

(** What is left of [nr_exclusive]. *)
Definition nr_after_one (s : wq_state) (mode e nr : Z) : Z := if counts s mode e then s32 (nr - 1) else nr.
Fixpoint nr_after (s : wq_state) (mode : Z) (V : list Z) (nr : Z) : Z :=
  match V with [] => nr | e :: V => nr_after s mode V (nr_after_one s mode e nr) end.

Lemma walk_cons s mode e l nr : (counts s mode e = true -> nr_after_one s mode e nr <> 0) ->
  walk s mode (e :: l) nr = e :: walk s mode l (nr_after_one s mode e nr).
Proof using Type.
  unfold nr_after_one. intros Hnz. cbn [walk]. f_equal. destruct (counts s mode e); [|done].
  destruct (Z.eqb_spec (s32 (nr - 1)) 0); [by destruct Hnz|done].
Qed.

Lemma quota_cons s mode e V : quota s mode (e :: V) = (if counts s mode e then 1 else 0) + quota s mode V.
Proof using Type.
  unfold quota. destruct (counts s mode e) eqn:Hc.
  - rewrite filter_cons_True by done. cbn [length]. lia.
  - rewrite filter_cons_False by congruence. lia.
Qed.

Lemma quota_bound s mode V : 0 <= quota s mode V <= Z.of_nat (length V).
Proof using Type. unfold quota. pose proof (length_filter (fun e => counts s mode e = true) V). lia. Qed.

(** A walk that ends early has woken an exclusive entry. *)
Lemma walk_stop s mode l : forall nr rest x, l = walk s mode l nr ++ rest -> x ∈ rest ->
  exists e, e ∈ walk s mode l nr /\ counts s mode e = true.
Proof using Type.
  induction l as [|e l IH]; intros nr rest x Hl Hx; cbn [walk] in *.
  { destruct rest; [by apply elem_of_nil in Hx|done]. }
  destruct (counts s mode e) eqn:Hc; [exists e; split; [apply list_elem_of_here|done]|].
  cbn [app] in Hl. injection Hl as Hl. destruct (IH nr rest x Hl Hx) as (e' & He' & Hc').
  exists e'. split; [by apply list_elem_of_further|done].
Qed.

(** How a section of a walk ends: with the walk, or with the bookmark in front of
    what is left. *)
Definition section_end (s : wq_state) (mode nr : Z) (bookmark : option Z) (pre V rest V2 rest' : list Z) (s2 : wq_state) : Prop :=
  (visited s mode pre (V ++ V2) rest' s2 /\ V2 = walk s mode rest nr) \/
  (exists b s1, bookmark = Some b /\ rest' <> [] /\ V2 <> [] /\ visited s mode pre (V ++ V2) rest' s1 /\
     s2 = set_queue (set_flags s1 b WQ_FLAG_BOOKMARK)
            (pre ++ filter (fun e => removed s mode e = false) (V ++ V2) ++ b :: rest') /\
     walk s mode rest nr = V2 ++ walk s mode rest' (nr_after s mode V2 nr)).

(** A section that goes on after its first entry. *)
Lemma section_cons s mode nr bookmark pre V e rest V2 rest' s2 :
  section_end s mode (nr_after_one s mode e nr) bookmark pre (V ++ [e]) rest V2 rest' s2 ->
  (counts s mode e = true -> nr_after_one s mode e nr <> 0) ->
  section_end s mode nr bookmark pre V (e :: rest) (e :: V2) rest' s2.
Proof using Type.
  intros Hs Hnz. pose proof (walk_cons s mode e rest nr Hnz) as Hwalk.
  destruct Hs as [[Hv ->]|(b & s1 & Hb & Hr & Hne & Hv & Hs2 & Hw)].
  - left. split; [by rewrite <- app_assoc in Hv|done].
  - right. exists b, s1. rewrite <- app_assoc in Hv, Hs2. split_and!; try done. by rewrite Hwalk, Hw.
Qed.

Lemma elem_keep s mode (V : list Z) (x : Z) : x ∈ filter (fun e => removed s mode e = false) V -> x ∈ V.
Proof using Type. intros Hx. by apply list_elem_of_filter in Hx as [_ ?]. Qed.

(** The first entry that is left is not among those in front of it. *)
Lemma unvisited_front s mode pre V e rest : distinct s (pre ++ V ++ e :: rest) ->
  e ∉ pre ++ filter (fun e => removed s mode e = false) V.
Proof using Type.
  intros [Hnd _ _] Hin. rewrite app_assoc in Hnd. apply list.NoDup_app in Hnd as (_ & Hx & _).
  apply (Hx e); [|apply list_elem_of_here]. rewrite elem_of_app in *. destruct Hin as [|Hin]; [tauto|].
  right. by eapply elem_keep.
Qed.

(** The break. *)
Lemma section_break s mode nr b pre V e n rest s2 : visited s mode pre (V ++ [e]) (n :: rest) s2 ->
  distinct s (pre ++ (V ++ [e]) ++ n :: rest) -> (counts s mode e = true -> nr_after_one s mode e nr <> 0) ->
  exists V2 rest' s3, (q ← insert_before (queue s2) n b;
      Done (set_queue (set_flags s2 b WQ_FLAG_BOOKMARK) q, nr_after_one s mode e nr)) =
      Done (s3, nr_after s mode V2 nr) /\ e :: n :: rest = V2 ++ rest' /\
    section_end s mode nr (Some b) pre V (e :: n :: rest) V2 rest' s3.
Proof using Type.
  intros Hv Hd Hnz. rewrite (visited_queue _ _ _ _ _ _ Hv), app_assoc, insert_before_app
    by (by eapply unvisited_front). cbn [mbind outcome_bind].
  exists [e], (n :: rest). eexists. split; [done|]. split; [done|]. right. exists b, s2.
  split_and!; try done; [by rewrite <- app_assoc|]. by apply walk_cons.
Qed.

Lemma wake_loop_ok s mode wf key bookmark pre : forall rest fuel V s1 nr cnt,
  visited s mode pre V rest s1 -> distinct s (pre ++ V ++ rest) -> (length rest < fuel)%nat ->
  exists V2 rest' s2, wake_loop fuel s1 (list.head rest) mode nr wf key bookmark cnt =
      Done (s2, nr_after s mode V2 nr) /\ rest = V2 ++ rest' /\
    section_end s mode nr bookmark pre V rest V2 rest' s2.
Proof using Type.
  induction rest as [|e rest IH]; intros fuel V s1 nr cnt Hv Hd Hfuel; (destruct fuel as [|fuel]; [simpl in Hfuel; lia|]).
  { exists [], [], s1. split; [done|]. split; [done|]. left. by rewrite app_nil_r. }
  cbn [length] in Hfuel. cbn [list.head wake_loop]. pose proof (unvisited _ _ _ _ _ _ _ Hv Hd) as [Hu1 _].
  rewrite (visited_queue _ _ _ _ _ _ Hv), app_assoc, next_in_app by (by eapply unvisited_front). cbn [mbind outcome_bind].
  assert (Hflag : forall f, flag_of s1 e f = flag_of s e f) by (intros; unfold flag_of; by rewrite Hu1).
  rewrite !Hflag. assert (Hd' : distinct s (pre ++ (V ++ [e]) ++ rest)) by (by rewrite <- (app_assoc V)).
  assert (Hgo : forall s2 cnt, visited s mode pre (V ++ [e]) rest s2 ->
    (counts s mode e = true -> nr_after_one s mode e nr <> 0) -> exists V2 rest' s3,
    wake_loop fuel s2 (list.head rest) mode (nr_after_one s mode e nr) wf key bookmark cnt =
      Done (s3, nr_after s mode V2 nr) /\ e :: rest = V2 ++ rest' /\
    section_end s mode nr bookmark pre V (e :: rest) V2 rest' s3).
  { intros s2 cnt' Hv2 Hnz.
    destruct (IH fuel (V ++ [e]) s2 (nr_after_one s mode e nr) cnt') as (V2 & rest' & s3 & -> & -> & Hs); [done|done|lia|].
    exists (e :: V2), rest', s3. split; [done|]. split; [done|]. by eapply section_cons. }
  destruct (flag_of s e WQ_FLAG_BOOKMARK) eqn:Hb.
  { assert (Hc : counts s mode e = false) by (unfold counts, wakes; by rewrite Hb).
    assert (Hone : nr_after_one s mode e nr = nr) by (unfold nr_after_one; by rewrite Hc).
    rewrite Hone in Hgo. apply Hgo; [by apply visit_bookmark|by rewrite Hc]. }
  destruct (visit_entry s mode wf key pre V e rest s1 Hv Hd Hb) as (s2 & -> & Hv2).
  replace ((if wakes s mode e then 1 else 0) <? 0) with false by (by destruct (wakes s mode e)).
  replace (bool_of (if wakes s mode e then 1 else 0) && flag_of s e WQ_FLAG_EXCLUSIVE) with (counts s mode e)
    by (unfold counts; by destruct (wakes s mode e)).
  fold (nr_after_one s mode e nr). destruct (counts s mode e && (_ =? 0)) eqn:Hstop.
  { apply andb_prop in Hstop as [Hc Hz%Z.eqb_eq]. exists [e], rest, s2. split; [done|].
    split; [done|]. left. split; [done|]. unfold nr_after_one in Hz. cbn [walk]. rewrite Hc in *. by rewrite Hz. }
  assert (Hnz : counts s mode e = true -> nr_after_one s mode e nr <> 0).
  { intros Hc. rewrite Hc in Hstop. by apply Z.eqb_neq in Hstop. }
  destruct bookmark as [b|]; [|by apply Hgo]. destruct rest as [|n rest]; [by apply Hgo|]. cbn [list.head].
  destruct (cnt + 1 >? _); [by apply section_break|by apply Hgo].
Qed.

(** ** Whole walks *)

(** The first section, from the head of the queue. *)
Lemma wake_up_common_start s mode nr wf key bookmark : distinct s (queue s) ->
  match bookmark with Some b => flag_of s b WQ_FLAG_BOOKMARK = false | None => True end ->
  exists V rest s2, __wake_up_common s mode nr wf key bookmark = Done (s2, nr_after s mode V nr) /\
    queue s = V ++ rest /\ section_end s mode nr bookmark [] [] (queue s) V rest s2.
Proof using Type.
  intros Hd Hb. unfold __wake_up_common.
  replace (match bookmark with Some b => _ | None => _ end) with (Done (s, list.head (queue s)))
    by (destruct bookmark; [by rewrite Hb|done]).
  cbn [mbind outcome_bind].
  destruct (wake_loop_ok s mode wf key bookmark [] (queue s) (S (length (queue s))) [] s nr 0)
    as (V & rest & s2 & Hr & Hq & Hs); [by apply visited_nil|done|lia|].
  exists V, rest, s2. split; [|by split]. destruct (queue s) as [|e q]; [|exact Hr].
  cbn [list.head wake_loop length] in *. exact Hr.
Qed.

(** Taking the bookmark out again. *)
Lemma unmark_queue s pre b rest : queue s = pre ++ b :: rest -> b ∉ pre -> b ∉ rest ->
  queue (set_flags (list_del_init s b) b 0) = pre ++ rest.
Proof using Type. intros Hq H1 H2. simpl. by rewrite Hq, filter_ne_mid. Qed.

(** A walk in one go gives what all its sections together give. *)
Lemma wake_rest_ok s mode wf key b : wq_flags (entries s b) = 0 -> forall fuel rest V s1 nr,
  visited s mode [] V rest s1 -> distinct s (V ++ rest) -> b ∉ V ++ rest -> rest <> [] ->
  (length rest < fuel)%nat ->
  exists s', wake_rest fuel (set_queue (set_flags s1 b WQ_FLAG_BOOKMARK)
               (filter (fun e => removed s mode e = false) V ++ b :: rest)) mode nr wf key b = Done s' /\
    exists rest', rest = walk s mode rest nr ++ rest' /\ visited s mode [] (V ++ walk s mode rest nr) rest' s'.
Proof using Type.
  intros Hb0. induction fuel as [|fuel IH]; intros rest V s1 nr Hv Hd Hb Hne Hfuel; [lia|]. cbn [wake_rest].
  set (sm := set_queue _ _). assert (Hflag : flag_of sm b WQ_FLAG_BOOKMARK = true).
  { unfold flag_of. simpl. unfold upd. by rewrite Z.eqb_refl. }
  rewrite Hflag. rewrite elem_of_app in Hb.
  assert (Hb1 : b ∉ filter (fun e => removed s mode e = false) V) by (intros Hin; apply elem_keep in Hin; tauto).
  assert (Hv0 : visited s mode [] V rest (set_flags (list_del_init sm b) b 0)).
  { destruct Hv as [V1 V2 V3 V4]. split; [|intros e|done|done].
    - rewrite (unmark_queue sm (filter (fun e => removed s mode e = false) V) b rest); [done|done|done|tauto].
    - simpl. unfold upd. rewrite Z.eqb_refl. destruct (Z.eqb_spec e b) as [->|]; [|apply V2]. simpl.
      rewrite bool_decide_eq_false_2 by tauto. specialize (V2 b). rewrite bool_decide_eq_false_2 in V2 by tauto.
      rewrite V2. destruct (entries s b) as [f pr fn]. simpl in Hb0. by subst. }
  unfold __wake_up_common. rewrite Hflag. change (queue sm) with (filter (fun e => removed s mode e = false) V ++ b :: rest).
  rewrite next_in_app by done. cbn [mbind outcome_bind]. set (s0 := set_flags (list_del_init sm b) b 0) in *.
  destruct (wake_loop_ok s mode wf key (Some b) [] rest (S (length (queue s0))) V s0 nr 0)
    as (V2 & rest2 & s2 & Hr & Hq & Hs); [done|done| |].
  { rewrite (visited_queue _ _ _ _ _ _ Hv0). cbn [app]. rewrite length_app. lia. }
  destruct rest as [|e rest]; [done|]. cbn [list.head] in *. rewrite Hr. cbn [mbind outcome_bind fst snd].
  destruct Hs as [[Hv2 ->]|(b' & s3 & Hbb & Hr2 & HV2 & Hv3 & -> & Hw)].
  - exists s2. split; [|by exists rest2]. destruct fuel as [|fuel]; [simpl in Hfuel; lia|]. cbn [wake_rest].
    assert (Hf2 : flag_of s2 b WQ_FLAG_BOOKMARK = false); [|by rewrite Hf2].
    unfold flag_of. rewrite (visited_entry _ _ _ _ _ _ Hv2). rewrite bool_decide_eq_false_2; [by rewrite Hb0|].
    rewrite Hq in Hb. rewrite elem_of_app in *. tauto.
  - injection Hbb as <-.
    destruct (IH rest2 (V ++ V2) s3 (nr_after s mode V2 nr)) as (s' & Hr' & rest' & Hrest & Hv'); [done| | |done| |].
    + by rewrite <- app_assoc, <- Hq.
    + rewrite <- app_assoc, <- Hq, elem_of_app. tauto.
    + rewrite Hq, length_app in Hfuel. destruct V2; [done|]. simpl in Hfuel. lia.
    + exists s'. split; [exact Hr'|]. exists rest'. rewrite Hw. split; [|by rewrite app_assoc].
      by rewrite <- app_assoc, <- Hrest.
Qed.

(** *** The bookmark on the stack *)
Lemma entry_other s b v e : e <> b -> entries (set_entry s b v) e = entries s e.
Proof using Type. intros Hne. simpl. unfold upd. by destruct (Z.eqb_spec e b). Qed.

Lemma wakes_other s b v mode e : e <> b -> wakes (set_entry s b v) mode e = wakes s mode e.
Proof using Type. intros Hne. unfold wakes, flag_of. by rewrite entry_other. Qed.

Lemma counts_other s b v mode e : e <> b -> counts (set_entry s b v) mode e = counts s mode e.
Proof using Type. intros Hne. unfold counts, flag_of. by rewrite wakes_other, entry_other. Qed.

Lemma removed_other s b v mode e : e <> b -> removed (set_entry s b v) mode e = removed s mode e.
Proof using Type. intros Hne. unfold removed. by rewrite wakes_other, entry_other. Qed.

Lemma walk_other s b v mode l : b ∉ l -> forall nr, walk (set_entry s b v) mode l nr = walk s mode l nr.
Proof using Type.
  induction l as [|e l IH]; intros Hb nr; [done|]. rewrite not_elem_of_cons in Hb. destruct Hb as [Hne Hb].
  cbn [walk]. rewrite counts_other by congruence. f_equal. by rewrite !IH.
Qed.

Lemma keep_other s b v mode (l : list Z) : b ∉ l ->
  filter (fun e => removed (set_entry s b v) mode e = false) l = filter (fun e => removed s mode e = false) l.
Proof using Type.
  induction l as [|e l IH]; intros Hb; [done|]. rewrite not_elem_of_cons in Hb. destruct Hb as [Hne Hb].
  rewrite !filter_cons, removed_other by congruence. by rewrite IH.
Qed.

Lemma distinct_other s b v q : b ∉ q -> distinct s q -> distinct (set_entry s b v) q.
Proof using Type.
  intros Hb [Hnd Ht Hp]. assert (Hne : forall e, e ∈ q -> e <> b) by (intros e He ->; done).
  split; [done| |].
  - intros e e' He He'. unfold flag_of. rewrite !entry_other by auto. by apply Ht.
  - intros e He. unfold plain, flag_of. rewrite entry_other by auto. by apply Hp.
Qed.

Lemma visited_other s b v mode V rest s' : b ∉ V ++ rest -> visited (set_entry s b v) mode [] V rest s' ->
  queue s' = filter (fun e => removed s mode e = false) V ++ rest /\
  (forall e, e ∈ V -> wakes s mode e = true ->
     tasks s' (wq_private (entries s e)) = running (tasks s (wq_private (entries s e)))) /\
  (forall p, (forall e, e ∈ V -> wakes s mode e = true -> wq_private (entries s e) <> p) -> tasks s' p = tasks s p) /\
  (forall e, e <> b -> entries s' e = if bool_decide (e ∈ V) then woken_flag s e else entries s e).
Proof using Type.
  intros Hb [V1 V2 V3 V4]. rewrite elem_of_app in Hb.
  assert (Hne : forall e, e ∈ V -> e <> b) by (intros e He ->; tauto). split_and!.
  - rewrite V1, keep_other by tauto. done.
  - intros e He Hw. specialize (V3 e He). rewrite wakes_other, entry_other in V3 by auto. by apply V3.
  - intros p Hno. apply V4. intros e He. rewrite wakes_other, entry_other by auto. by apply Hno.
  - intros e He. rewrite V2. unfold woken_flag, flag_of. by rewrite entry_other.
Qed.

(** Unless the count overflows, the walk wakes everyone but for exclusive entries
    in excess of [nr]. *)
Definition no_overflow (l : list Z) (nr : Z) : Prop := - 2 ^ 31 + Z.of_nat (length l) <= nr < 2 ^ 31.

Lemma no_overflow_step e l nr : no_overflow (e :: l) nr -> s32 (nr - 1) = nr - 1 /\ no_overflow l (nr - 1) /\ no_overflow l nr.
Proof using Type. unfold no_overflow. cbn [length]. intros Hn. rewrite s32_small; lia. Qed.

Lemma walk_quota s mode l : forall nr, no_overflow l nr -> 0 < nr -> quota s mode (walk s mode l nr) <= nr.
Proof using Type.
  induction l as [|e l IH]; intros nr Ho Hnr; cbn [walk]; [unfold quota; simpl; lia|]. rewrite quota_cons.
  apply no_overflow_step in Ho as (-> & Ho1 & Ho2).
  destruct (counts s mode e); [|specialize (IH nr Ho2 Hnr); lia].
  destruct (Z.eqb_spec (nr - 1) 0); [unfold quota; simpl; lia|]. specialize (IH (nr - 1) Ho1 ltac:(lia)). lia.
Qed.

Lemma walk_all s mode l : forall nr, no_overflow l nr -> nr <= 0 \/ quota s mode l < nr -> walk s mode l nr = l.
Proof using Type.
  induction l as [|e l IH]; intros nr Ho Hnr; cbn [walk]; [done|]. rewrite quota_cons in Hnr. f_equal.
  apply no_overflow_step in Ho as (-> & Ho1 & Ho2).
  pose proof (quota_bound s mode l). destruct (counts s mode e); [|apply IH; [done|lia]].
  destruct (Z.eqb_spec (nr - 1) 0); [lia|]. apply IH; [done|lia].
Qed.

Lemma wake_up_common_lock_ok s mode nr wf key b : distinct s (queue s) -> b ∉ queue s ->
  let V := walk s mode (queue s) nr in
  exists rest s', queue s = V ++ rest /\ __wake_up_common_lock s mode nr wf key b = Done s' /\
    visited (set_entry s b (WqEntry 0 0 (OtherWake 0))) mode [] V rest s'.
Proof using Type.
  intros Hd Hb V. unfold __wake_up_common_lock. set (v := WqEntry 0 0 (OtherWake 0)). set (s0 := set_entry s b v).
  assert (Hd0 : distinct s0 (queue s)) by (by apply distinct_other).
  assert (Hb0 : wq_flags (entries s0 b) = 0) by (simpl; unfold upd; by rewrite Z.eqb_refl).
  assert (HV : walk s0 mode (queue s) nr = V) by (by apply walk_other).
  destruct (wake_up_common_start s0 mode nr wf key (Some b)) as (V1 & rest & s2 & -> & Hq & Hs);
    [done|unfold flag_of; by rewrite Hb0|]. cbn [mbind outcome_bind fst snd].
  change (queue s0) with (queue s) in *.
  destruct Hs as [[Hv ->]|(b' & s1 & Hbb & Hr & HV1 & Hv & -> & Hw)].
  - rewrite HV in *. exists rest, s2. split; [done|]. split; [|done]. cbn [wake_rest].
    assert (Hf : flag_of s2 b WQ_FLAG_BOOKMARK = false); [|by rewrite Hf].
    unfold flag_of. rewrite (visited_entry _ _ _ _ _ _ Hv), bool_decide_eq_false_2; [by rewrite Hb0|].
    intros Hin. apply Hb. rewrite Hq, elem_of_app. by left.
  - injection Hbb as <-. cbn [app] in *.
    destruct (wake_rest_ok s0 mode wf key b Hb0 (S (length (queue s))) rest V1 s1 (nr_after s0 mode V1 nr))
      as (s' & Hr' & rest' & Hrest & Hv'); [done|by rewrite <- Hq|by rewrite <- Hq|done| |].
    + rewrite Hq, length_app. lia.
    + rewrite HV in Hw. rewrite <- Hw in Hv'. exists rest', s'. split; [|split; [exact Hr'|exact Hv']].
      rewrite Hq, Hrest, Hw. by rewrite app_assoc.
Qed.

Lemma wake_up_locked_ok s mode nr : distinct s (queue s) ->
  let V := walk s mode (queue s) nr in
  exists rest s', queue s = V ++ rest /\ __wake_up_locked s mode nr = Done s' /\ visited s mode [] V rest s'.
Proof using Type.
  intros Hd V. unfold __wake_up_locked.
  destruct (wake_up_common_start s mode nr 0 0 None) as (V1 & rest & s2 & -> & Hq & Hs); [done|done|].
  cbn [mbind outcome_bind fst]. destruct Hs as [[Hv ->]|(b & s1 & Hbb & _)]; [|done]. by exists rest, s2.
Qed.
End Walk.

(** ** The properties *)
Section Theorems.
Context `{WakeFunctions}.

End Theorems.

(** ** A queue of four *)
#[export] Instance no_functions : WakeFunctions := {| wake_function _ s _ _ _ _ := (s, 0) |}.

(** The entries 3 and 4 are exclusive. *)
Definition wq1 : wq_state :=
  WqState (fun e => WqEntry (if e <? 3 then 0 else WQ_FLAG_EXCLUSIVE) (e + 10) AutoremoveWake) [1; 2; 3; 4]
    (fun _ => Task TASK_UNINTERRUPTIBLE false false false).

Lemma wq1_distinct : distinct wq1 (queue wq1).
Proof.
  split; [by apply (bool_decide_unpack _)| |by right]. intros e e' _ _ _ _ Hp. simpl in Hp. lia.
Qed.

