(* ===== verification/WaitEvent.v ===== *)
(** * Waiting for a condition

    Tasks in the loop of [___wait_event] and wakers that set the condition and walk
    the queue, interleaved at every point where the code lets go of the lock or
    reads what others write. *)

From stdpp Require Import relations.
From S2P Require Import Prelude WaitQueue WaitQueueProps.
#[local] Open Scope Z_scope.

(** The entries and bookmarks are on the stacks of the tasks; a task is known by
    its address. *)
Class WaitEvent := {
  entry_of : Z -> Z;
  mark_of : Z -> Z;
  (** the arguments of [___wait_event] *)
  wait_state : Z -> Z;
  exclusive : Z -> bool;
}.
Class WaitEventSpec `{WaitEvent} : Prop := {
  entry_inj t t' : entry_of t = entry_of t' -> t = t';
  mark_inj w w' : mark_of w = mark_of w' -> w = w';
  entry_mark t w : entry_of t <> mark_of w;
  wait_state_normal t : bool_of (Z.land (wait_state t) TASK_NORMAL) = true;
}.

(** Where a task is in [___wait_event]: in front of [prepare_to_wait_event], of the
    test, in [schedule], in front of [finish_wait], of its test and of its lock. *)
Inductive wphase := Away | Loop | Test (int_ : Z) | Sleep | Finish | Check | Unlink.

(** Where a waker is: in front of [waitqueue_active], of the first section and of a
    further section, with what is left of [nr_exclusive]. *)
Inductive kphase := KIdle | KCheck (nr : Z) | KStart (nr : Z) | KWalk (nr : Z).

Record system := Sys { wq : wq_state; cond : bool; waiter : Z -> wphase; waker : Z -> kphase }.

Section Steps.
Context `{WakeFunctions} `{WaitEvent}.

Definition at_wait (S : system) (t : Z) (s : wq_state) (ph : wphase) : system :=
  Sys s (cond S) (upd (waiter S) t ph) (waker S).
Definition at_wake (S : system) (w : Z) (s : wq_state) (ph : kphase) : system :=
  Sys s (cond S) (waiter S) (upd (waker S) w ph).
Definition after_section (s : wq_state) (w nr : Z) : kphase :=
  if flag_of s (mark_of w) WQ_FLAG_BOOKMARK then KWalk nr else KIdle.
Definition disturbed (s : wq_state) (t : Z) (sig fatal stop wake : bool) : wq_state :=
  WqState (entries s) (queue s)
    (upd (tasks s) t (Task (if wake then TASK_RUNNING else t_state (tasks s t)) sig fatal stop)).

Inductive step : system -> system -> Prop :=
| step_enter S t : waiter S t = Away -> t_state (tasks (wq S) t) = TASK_RUNNING ->
    step S (at_wait S t (init_wait_entry (wq S) t (entry_of t) (if exclusive t then WQ_FLAG_EXCLUSIVE else 0)) Loop)
| step_prepare S t s int_ : waiter S t = Loop ->
    prepare_to_wait_event (wq S) t (entry_of t) (wait_state t) = Done (s, int_) ->
    step S (at_wait S t s (Test int_))
| step_true S t int_ : waiter S t = Test int_ -> cond S = true -> step S (at_wait S t (wq S) Finish)
| step_interrupted S t int_ : waiter S t = Test int_ -> cond S = false ->
    ___wait_is_interruptible (wait_state t) && bool_of int_ = true -> step S (at_wait S t (wq S) Away)
| step_sleep S t int_ : waiter S t = Test int_ -> cond S = false ->
    ___wait_is_interruptible (wait_state t) && bool_of int_ = false -> step S (at_wait S t (wq S) Sleep)
| step_run S t : waiter S t = Sleep -> t_state (tasks (wq S) t) = TASK_RUNNING -> step S (at_wait S t (wq S) Loop)
| step_finish S t : waiter S t = Finish -> step S (at_wait S t (set_task_state (wq S) t TASK_RUNNING) Check)
| step_check S t : waiter S t = Check ->
    step S (at_wait S t (wq S) (if list_empty (wq S) (entry_of t) then Away else Unlink))
| step_unlink S t : waiter S t = Unlink -> step S (at_wait S t (list_del_init (wq S) (entry_of t)) Away)
| step_disturb S t sig fatal stop wake :
    step S (Sys (disturbed (wq S) t sig fatal stop wake) (cond S) (waiter S) (waker S))
| step_clear S : step S (Sys (wq S) false (waiter S) (waker S))
| step_set S w nr (active : bool) : waker S w = KIdle ->
    step S (Sys (wq S) true (waiter S) (upd (waker S) w (if active then KCheck nr else KStart nr)))
| step_wake S w nr : waker S w = KIdle -> step S (at_wake S w (wq S) (KStart nr))
| step_active S w nr : waker S w = KCheck nr ->
    step S (at_wake S w (wq S) (if waitqueue_active (wq S) then KStart nr else KIdle))
| step_first S w nr s nr' : waker S w = KStart nr ->
    __wake_up_common (set_entry (wq S) (mark_of w) (WqEntry 0 0 (OtherWake 0))) TASK_NORMAL nr 0 0 (Some (mark_of w))
      = Done (s, nr') ->
    step S (at_wake S w s (after_section s w nr'))
| step_next S w nr s nr' : waker S w = KWalk nr ->
    __wake_up_common (wq S) TASK_NORMAL nr 0 0 (Some (mark_of w)) = Done (s, nr') ->
    step S (at_wake S w s (after_section s w nr')).

(** Nobody waits, wakes or is on the queue. *)
Record init (S : system) : Prop := {
  init_queue : queue (wq S) = [];
  init_waiter t : waiter S t = Away;
  init_waker w : waker S w = KIdle;
}.
End Steps.

(** ** The order of a queue *)
Fixpoint ahead (q : list Z) (a b : Z) : Prop :=
  match q with [] => False | x :: q => (x = a /\ b ∈ q) \/ ahead q a b end.

Lemma ahead_elem q a b : ahead q a b -> a ∈ q /\ b ∈ q.
Proof. induction q as [|x q IH]; simpl; [done|]. rewrite !elem_of_cons. intros [[-> ?]|Ha]; tauto. Qed.

Lemma ahead_app p q a b : ahead (p ++ q) a b <-> ahead p a b \/ ahead q a b \/ (a ∈ p /\ b ∈ q).
Proof.
  induction p as [|x p IH]; cbn [app ahead]; [rewrite elem_of_nil; tauto|].
  assert (Hs : x = a <-> a = x) by (split; congruence). rewrite IH, elem_of_app, elem_of_cons. tauto.
Qed.

Lemma ahead_filter (P : Z -> Prop) `{!forall x, Decision (P x)} q a b :
  ahead (filter P q) a b <-> ahead q a b /\ P a /\ P b.
Proof.
  induction q as [|x q IH]; [simpl; tauto|]. cbn [ahead]. destruct (decide (P x)) as [Hx|Hx].
  - rewrite filter_cons_True by done. cbn [ahead]. rewrite IH, list_elem_of_filter.
    assert (Ha : x = a -> P a) by (by intros ->). tauto.
  - rewrite filter_cons_False by done. rewrite IH.
    assert (Ha : x = a -> ~ P a) by (by intros ->). tauto.
Qed.

Lemma ahead_nodup q a b : NoDup q -> ahead q a b -> ~ ahead q b a.
Proof.
  induction 1 as [|x q Hx Hnd IH]; [done|]. cbn [ahead]. intros [[-> Hb]|Hab] [[-> Ha]|Hba].
  - done.
  - by apply ahead_elem in Hba as [_ ?].
  - by apply ahead_elem in Hab as [_ ?].
  - by apply IH.
Qed.

(** ** The invariant *)
Section Invariant.
Context `{WakeFunctions} `{WaitEventSpec}.

Definition entry_value (t : Z) : wait_queue_entry :=
  WqEntry (if exclusive t then WQ_FLAG_EXCLUSIVE else 0) t AutoremoveWake.

(** A waker that will still come to the entry of [t]. *)
Definition coming (S : system) (t : Z) : Prop :=
  exists w nr, waker S w = KCheck nr \/ waker S w = KStart nr \/
    (waker S w = KWalk nr /\ ahead (queue (wq S)) (mark_of w) (entry_of t)).

Record inv (S : system) : Prop := {
  inv_nodup : NoDup (queue (wq S));
  (** what is on the queue *)
  inv_queue e : e ∈ queue (wq S) ->
    (exists t, e = entry_of t /\ waiter S t <> Away) \/ (exists w nr, e = mark_of w /\ waker S w = KWalk nr);
  inv_entry t : waiter S t <> Away -> entries (wq S) (entry_of t) = entry_value t;
  inv_mark w nr : waker S w = KWalk nr ->
    wq_flags (entries (wq S) (mark_of w)) = WQ_FLAG_BOOKMARK /\ mark_of w ∈ queue (wq S);
  (** a task that can fall asleep is on the queue *)
  inv_loop t : waiter S t = Loop -> t_state (tasks (wq S) t) = TASK_RUNNING;
  inv_test t i : waiter S t = Test i -> i <> 0 -> t_state (tasks (wq S) t) = TASK_RUNNING /\ entry_of t ∉ queue (wq S);
  inv_state t : (waiter S t = Sleep \/ exists i, waiter S t = Test i) -> t_state (tasks (wq S) t) = TASK_RUNNING \/
    (t_state (tasks (wq S) t) = wait_state t /\ entry_of t ∈ queue (wq S));
  (** exclusive entries come last *)
  inv_order t t' : ahead (queue (wq S)) (entry_of t) (entry_of t') -> exclusive t = true -> exclusive t' = true;
  (** no wakeup is lost *)
  inv_coming t : waiter S t = Sleep -> t_state (tasks (wq S) t) <> TASK_RUNNING -> exclusive t = false ->
    cond S = true -> coming S t;
}.

Lemma inv_init S : init S -> inv S.
Proof using Type.
  intros [Hq Hw Hk]. split; rewrite ?Hq; try (by intros *; rewrite ?Hw, ?Hk).
  - constructor.
  - intros e He. by apply elem_of_nil in He.
  - intros t [?|[i ?]]; congruence.
Qed.
(** ** Steps of a waiter *)

(** Nothing but the task [t] and its entry has changed. *)
Record local (S : system) (t : Z) (s' : wq_state) : Prop := {
  local_entries e : e <> entry_of t -> entries s' e = entries (wq S) e;
  local_tasks p : p <> t -> tasks s' p = tasks (wq S) p;
  local_nodup : NoDup (queue s');
  local_elem e : e <> entry_of t -> e ∈ queue s' <-> e ∈ queue (wq S);
  local_ahead a b : a <> entry_of t -> b <> entry_of t -> ahead (queue s') a b <-> ahead (queue (wq S)) a b;
}.

(** What the step has to establish for [t] itself. *)
Record own (S : system) (t : Z) (s' : wq_state) (ph : wphase) : Prop := {
  own_away : ph = Away -> entry_of t ∉ queue s';
  own_entry : ph <> Away -> entries s' (entry_of t) = entry_value t;
  own_loop : ph = Loop -> t_state (tasks s' t) = TASK_RUNNING;
  own_test i : ph = Test i -> i <> 0 -> t_state (tasks s' t) = TASK_RUNNING /\ entry_of t ∉ queue s';
  own_state : (ph = Sleep \/ exists i, ph = Test i) -> t_state (tasks s' t) = TASK_RUNNING \/
    (t_state (tasks s' t) = wait_state t /\ entry_of t ∈ queue s');
  own_after t' : ahead (queue s') (entry_of t') (entry_of t) -> exclusive t' = true -> exclusive t = true;
  own_before t' : ahead (queue s') (entry_of t) (entry_of t') -> exclusive t = true -> exclusive t' = true;
  own_coming : ph = Sleep -> cond S = true -> t_state (tasks s' t) = TASK_RUNNING;
}.

Lemma entry_ne t t' : t <> t' -> entry_of t <> entry_of t'.
Proof using All. intros Hne He. by apply Hne, entry_inj. Qed.
Lemma mark_ne t w : mark_of w <> entry_of t.
Proof using All. intros He. by apply (entry_mark t w). Qed.

Lemma inv_local S t s' ph : inv S -> local S t s' -> own S t s' ph -> inv (at_wait S t s' ph).
Proof using All.
  intros [I1 I2 I3 I4 I5 I6 I7 I8 I9] [L1 L2 L3 L4 L5] [O1 O2 O3 O4 O5 O6 O7 O8].
  split; cbn [at_wait wq waiter waker cond].
  - done.
  - intros e He. destruct (decide (e = entry_of t)) as [->|Hne].
    { left. exists t. rewrite upd_same. split; [done|]. intros ->. by apply O1. }
    apply L4, I2 in He; [|done]. destruct He as [(t' & -> & Ht')|?]; [left|by right].
    exists t'. rewrite upd_other by congruence. done.
  - intros t' Ht'. destruct (decide (t' = t)) as [->|Hne]; [rewrite upd_same in Ht'; by apply O2|].
    rewrite upd_other in Ht' by done. rewrite L1 by (by apply entry_ne). by apply I3.
  - intros w nr Hw. destruct (I4 w nr Hw) as [Hf Hq]. pose proof (mark_ne t w).
    rewrite L1, L4 by done. done.
  - intros t' Ht'. destruct (decide (t' = t)) as [->|Hne]; [rewrite upd_same in Ht'; by apply O3|].
    rewrite upd_other in Ht' by done. rewrite L2 by done. by apply I5.
  - intros t' i Ht' Hi. destruct (decide (t' = t)) as [->|Hne]; [rewrite upd_same in Ht'; by eapply O4|].
    rewrite upd_other in Ht' by done. rewrite L2, L4 by (done || by apply entry_ne). by eapply I6.
  - intros t' Ht'. destruct (decide (t' = t)) as [->|Hne]; [rewrite upd_same in Ht'; by apply O5|].
    rewrite upd_other in Ht' by done. rewrite L2, L4 by (done || by apply entry_ne). by apply I7.
  - intros t1 t2 Ha. destruct (decide (t1 = t)) as [->|Hn1]; [by apply O7|].
    destruct (decide (t2 = t)) as [->|Hn2]; [by apply O6|]. apply L5 in Ha; [by apply I8|by apply entry_ne..].
  - intros t' Ht' Hs He Hc. destruct (decide (t' = t)) as [->|Hne]; [rewrite upd_same in Ht'; by destruct Hs; apply O8|].
    rewrite upd_other in Ht' by done. rewrite L2 in Hs by done.
    destruct (I9 t' Ht' Hs He Hc) as (w & nr & Hw). exists w, nr. cbn [waker wq at_wait].
    destruct Hw as [?|[?|[Hw Ha]]]; [tauto..|]. right. right. split; [done|].
    apply L5; [apply mark_ne|by apply entry_ne|done].
Qed.

(** The ways a waiter changes the queue. *)
Inductive relinked (e : Z) (q : list Z) : list Z -> Prop :=
| relinked_same : relinked e q q
| relinked_head : e ∉ q -> relinked e q (e :: q)
| relinked_tail : e ∉ q -> relinked e q (q ++ [e])
| relinked_del : relinked e q (filter (fun x => x <> e) q).

Lemma local_intro S t s' : NoDup (queue (wq S)) -> relinked (entry_of t) (queue (wq S)) (queue s') ->
  (forall e, e <> entry_of t -> entries s' e = entries (wq S) e) ->
  (forall p, p <> t -> tasks s' p = tasks (wq S) p) -> local S t s'.
Proof using Type.
  intros Hnd Hr He Ht. split; [done|done| | |].
  - destruct Hr; [done| | |].
    + by apply list.NoDup_cons.
    + apply list.NoDup_app. split; [done|]. split; [|apply list.NoDup_cons; split; [apply not_elem_of_nil|constructor]].
      intros x Hx Hx'. apply list_elem_of_singleton in Hx' as ->. done.
    + by apply list.NoDup_filter.
  - intros e Hne. destruct Hr; [done| | |].
    + rewrite elem_of_cons. tauto.
    + rewrite elem_of_app, list_elem_of_singleton. tauto.
    + rewrite list_elem_of_filter. tauto.
  - intros a b Ha Hb. destruct Hr; [done| | |].
    + cbn [ahead]. split; [intros [[<- _]|?]|]; tauto.
    + rewrite ahead_app, list_elem_of_singleton. cbn [ahead]. rewrite elem_of_nil. tauto.
    + rewrite ahead_filter. tauto.
Qed.

(** Own obligations that the queue alone decides. *)
Lemma own_order S t q' : inv S -> relinked (entry_of t) (queue (wq S)) q' ->
  (entry_of t ∉ queue (wq S) -> entry_of t ∈ q' -> q' = if exclusive t then queue (wq S) ++ [entry_of t] else entry_of t :: queue (wq S)) ->
  (forall t', ahead q' (entry_of t') (entry_of t) -> exclusive t' = true -> exclusive t = true) /\
  (forall t', ahead q' (entry_of t) (entry_of t') -> exclusive t = true -> exclusive t' = true).
Proof using All.
  intros HI Hr Hadd. destruct (decide (entry_of t ∈ queue (wq S))) as [Hin|Hout].
  - destruct Hr as [|?|?|]; [|done|done|].
    + split; intros t' Ha; by eapply inv_order.
    + split; intros t' Ha; apply ahead_filter in Ha as (Ha & H2' & H3'); tauto.
  - destruct (decide (entry_of t ∈ q')) as [Hin'|Hout'].
    + rewrite (Hadd Hout Hin'). destruct (exclusive t) eqn:Hex; split; intros t' Ha; try done.
      * apply ahead_app in Ha as [Ha|[Ha|[Ha Ha']]]; [by apply ahead_elem in Ha as [? _]| |done].
        cbn [ahead] in Ha. destruct Ha as [[_ Ha]|[]]. by apply elem_of_nil in Ha.
      * cbn [ahead] in Ha. destruct Ha as [[_ Ha]|Ha]; [done|].
        by apply ahead_elem in Ha as [_ ?].
    + split; intros t' Ha; apply ahead_elem in Ha as [? ?]; done.
Qed.

(** A step of a waiter that leaves the lists alone. *)
Lemma own_quiet S t s' ph : inv S -> queue s' = queue (wq S) -> entries s' = entries (wq S) ->
  (ph = Away -> entry_of t ∉ queue (wq S)) -> (ph <> Away -> waiter S t <> Away) ->
  (ph = Loop -> t_state (tasks s' t) = TASK_RUNNING) -> (forall i, ph <> Test i) ->
  (ph = Sleep -> cond S = false /\ tasks s' t = tasks (wq S) t /\ exists i, waiter S t = Test i) ->
  own S t s' ph.
Proof using All.
  intros HI Hq He Haway Hnot Hloop Htest Hsleep. rewrite <- Hq in *.
  split; [done| |done|by intros i Hi; destruct (Htest i)| | | |].
  - intros Hph. rewrite He. by apply (inv_entry _ HI), Hnot.
  - intros [->|[i Hi]]; [|by destruct (Htest i)]. destruct (Hsleep eq_refl) as (_ & -> & Hw). rewrite Hq.
    apply (inv_state _ HI). by right.
  - intros t' Ha. rewrite Hq in Ha. by apply (inv_order _ HI).
  - intros t' Ha. rewrite Hq in Ha. by apply (inv_order _ HI).
  - intros ->. destruct (Hsleep eq_refl) as (Hc & _). congruence.
Qed.

Lemma inv_quiet S t s' ph : inv S -> queue s' = queue (wq S) -> entries s' = entries (wq S) ->
  (forall p, p <> t -> tasks s' p = tasks (wq S) p) ->
  (ph = Away -> entry_of t ∉ queue (wq S)) -> (ph <> Away -> waiter S t <> Away) ->
  (ph = Loop -> t_state (tasks s' t) = TASK_RUNNING) -> (forall i, ph <> Test i) ->
  (ph = Sleep -> cond S = false /\ tasks s' t = tasks (wq S) t /\ exists i, waiter S t = Test i) ->
  inv (at_wait S t s' ph).
Proof using All.
  intros HI Hq He Ht Haway Hnot Hloop Htest Hsleep. apply inv_local; [done| |by apply own_quiet].
  apply local_intro; [apply HI|rewrite Hq; constructor|by intros; rewrite He|done].
Qed.

Lemma away_out S t : inv S -> waiter S t = Away -> entry_of t ∉ queue (wq S).
Proof using All.
  intros HI Hw Hin. apply (inv_queue _ HI) in Hin as [(t' & He & Ht')|(w & nr & He & _)].
  - apply entry_inj in He as <-. done.
  - by apply (entry_mark t w).
Qed.

Lemma inv_enter S t : inv S -> waiter S t = Away -> t_state (tasks (wq S) t) = TASK_RUNNING ->
  inv (at_wait S t (init_wait_entry (wq S) t (entry_of t) (if exclusive t then WQ_FLAG_EXCLUSIVE else 0)) Loop).
Proof using All.
  intros HI Hw Hs. pose proof (away_out S t HI Hw) as Hout. apply inv_local; [done| |].
  - apply local_intro; [apply HI|constructor| |done]. intros e He. cbn [init_wait_entry set_entry entries]. by rewrite upd_other.
  - destruct (own_order S t (queue (wq S)) HI) as [Ho1 Ho2]; [constructor|by intros ? ?|].
    split; try done; [|by intros [?|[i ?]]]. intros _. cbn [init_wait_entry set_entry entries]. by rewrite upd_same.
Qed.

(** [prepare_to_wait_event] puts the entry in its place, or takes it away. *)
Lemma inv_prepare S t : inv S -> waiter S t = Loop ->
  exists s i, prepare_to_wait_event (wq S) t (entry_of t) (wait_state t) = Done (s, i) /\ inv (at_wait S t s (Test i)).
Proof using All.
  intros HI Hw. unfold prepare_to_wait_event. pose proof (inv_loop _ HI t Hw) as Hrun.
  assert (Hent : entries (wq S) (entry_of t) = entry_value t) by (apply (inv_entry _ HI); congruence).
  destruct (signal_pending_state _ _ _).
  { do 2 eexists. split; [done|]. set (s' := list_del_init _ _).
    assert (Hout : entry_of t ∉ queue s') by (cbn; rewrite list_elem_of_filter; tauto).
    apply inv_local; [done|apply local_intro; [apply HI|apply relinked_del|done|done]|].
    destruct (own_order S t (queue s') HI) as [Ho1 Ho2]; [apply relinked_del|done|].
    split; try done. intros _. by left. }
  set (q' := if bool_decide (entry_of t ∈ queue (wq S)) then queue (wq S)
             else if exclusive t then queue (wq S) ++ [entry_of t] else entry_of t :: queue (wq S)).
  assert (Hadd : (if list_empty (wq S) (entry_of t) then if flag_of (wq S) (entry_of t) WQ_FLAG_EXCLUSIVE
      then __add_wait_queue_entry_tail (wq S) (entry_of t) else __add_wait_queue (wq S) (entry_of t)
      else Done (wq S)) = Done (set_queue (wq S) q')).
  { unfold __add_wait_queue_entry_tail, __add_wait_queue, list_empty, flag_of, q'. rewrite Hent. cbn [entry_value wq_flags].
    destruct (decide (entry_of t ∈ queue (wq S))) as [Hin|Hin].
    - rewrite (bool_decide_eq_false_2 (_ ∉ _)), bool_decide_eq_true_2 by tauto. by destruct (wq S).
    - rewrite (bool_decide_eq_true_2 (_ ∉ _)), bool_decide_eq_false_2 by done. by destruct (exclusive t). }
  rewrite Hadd. cbn [mbind outcome_bind]. do 2 eexists. split; [done|].
  assert (Hre : relinked (entry_of t) (queue (wq S)) q').
  { unfold q'. destruct (bool_decide_reflect (entry_of t ∈ queue (wq S))); [constructor|].
    destruct (exclusive t); by constructor. }
  assert (Hin : entry_of t ∈ q').
  { unfold q'. destruct (bool_decide_reflect (entry_of t ∈ queue (wq S))); [done|].
    destruct (exclusive t); [rewrite elem_of_app; right; by apply list_elem_of_singleton|apply list_elem_of_here]. }
  apply inv_local; [done|apply local_intro; [apply HI|done|done|]|].
  { intros p Hp. cbn [set_task_state tasks]. by rewrite upd_other. }
  destruct (own_order S t q' HI Hre) as [Ho1 Ho2]; [intros Hout _; unfold q'; by rewrite bool_decide_eq_false_2|].
  split; try done; [by intros i [= <-]|]. intros _. right. split; [|done]. cbn [set_task_state tasks]. by rewrite upd_same.
Qed.

Lemma inv_interrupted S t i : inv S -> waiter S t = Test i -> bool_of i = true -> inv (at_wait S t (wq S) Away).
Proof using All.
  intros HI Hw Hi. apply inv_quiet; try done. intros _. apply (inv_test _ HI t i Hw). intros ->. done.
Qed.

Lemma inv_unlink S t : inv S -> inv (at_wait S t (list_del_init (wq S) (entry_of t)) Away).
Proof using All.
  intros HI. assert (Hout : entry_of t ∉ queue (list_del_init (wq S) (entry_of t))).
  { cbn. rewrite list_elem_of_filter. tauto. }
  apply inv_local; [done|apply local_intro; [apply HI|apply relinked_del|done|done]|].
  destruct (own_order S t (queue (list_del_init (wq S) (entry_of t))) HI) as [Ho1 Ho2]; [apply relinked_del|done|].
  split; try done. intros [?|[i ?]]; done.
Qed.

Lemma inv_disturb S t sig fatal stop wake : inv S ->
  inv (Sys (disturbed (wq S) t sig fatal stop wake) (cond S) (waiter S) (waker S)).
Proof using All.
  intros [I1 I2 I3 I4 I5 I6 I7 I8 I9].
  assert (Hst : forall p, t_state (tasks (disturbed (wq S) t sig fatal stop wake) p) = t_state (tasks (wq S) p) \/
    t_state (tasks (disturbed (wq S) t sig fatal stop wake) p) = TASK_RUNNING).
  { intros p. cbn [disturbed tasks]. unfold upd. destruct (Z.eqb_spec p t) as [->|]; [|by left].
    destruct wake; [by right|by left]. }
  split; try done; cbn [wq waiter waker cond disturbed queue].
  - intros p Hp. destruct (Hst p) as [->| ->]; [by apply I5|done].
  - intros p i Hp Hi. destruct (I6 p i Hp Hi). destruct (Hst p) as [->| ->]; done.
  - intros p Hp. destruct (Hst p) as [->| ->]; [by apply I7|by left].
  - intros p Hp Hs. destruct (Hst p) as [He|He]; rewrite He in Hs; [by apply I9|done].
Qed.

(** ** Steps of a waker outside of the walk *)
Lemma inv_waker S w c ph : inv S -> (forall nr, waker S w <> KWalk nr) -> (forall nr, ph <> KWalk nr) ->
  (forall t, waiter S t = Sleep -> t_state (tasks (wq S) t) <> TASK_RUNNING -> exclusive t = false -> c = true ->
     coming (Sys (wq S) c (waiter S) (upd (waker S) w ph)) t) ->
  inv (Sys (wq S) c (waiter S) (upd (waker S) w ph)).
Proof using Type.
  intros [I1 I2 I3 I4 I5 I6 I7 I8 I9] Hw Hph Hc. split; try done; cbn [wq waiter waker cond].
  - intros e He. apply I2 in He as [?|(w' & nr & -> & Hw')]; [by left|right]. exists w', nr.
    rewrite upd_other; [done|]. intros ->. by destruct (Hw nr).
  - intros w' nr Hw'. apply (I4 w' nr). destruct (decide (w' = w)) as [->|]; [|by rewrite upd_other in Hw'].
    rewrite upd_same in Hw'. by destruct (Hph nr).
Qed.

(** The new waker will come. *)
Lemma coming_new s c wt wk w ph t : (exists nr, ph = KCheck nr \/ ph = KStart nr) -> coming (Sys s c wt (upd wk w ph)) t.
Proof using Type. intros [nr Hph]. exists w, nr. cbn [waker]. rewrite upd_same. tauto. Qed.

Lemma inv_active S w nr : inv S -> waker S w = KCheck nr ->
  inv (at_wake S w (wq S) (if waitqueue_active (wq S) then KStart nr else KIdle)).
Proof using All.
  intros HI Hw. apply inv_waker; [done|congruence|by destruct (waitqueue_active _)|].
  intros t Ht Hs He Hc. unfold waitqueue_active. destruct (queue (wq S)) as [|e q] eqn:Hq.
  - destruct (inv_state _ HI t) as [?|[_ Hin]]; [by left|done|]. rewrite Hq in Hin. by apply elem_of_nil in Hin.
  - apply coming_new. exists nr. by right.
Qed.

Lemma inv_clear S : inv S -> inv (Sys (wq S) false (waiter S) (waker S)).
Proof using Type. intros [I1 I2 I3 I4 I5 I6 I7 I8 I9]. by split. Qed.

(** ** Sections of a walk *)

(** The state a section starts from, with the bookmark of the waker taken out. *)
Record ready (S : system) (w : Z) (s0 : wq_state) (pre rest : list Z) : Prop := {
  ready_queue : queue s0 = pre ++ rest;
  ready_nodup : NoDup (mark_of w :: pre ++ rest);
  ready_elem e : e <> mark_of w -> e ∈ pre ++ rest <-> e ∈ queue (wq S);
  ready_ahead a b : a <> mark_of w -> b <> mark_of w -> ahead (pre ++ rest) a b <-> ahead (queue (wq S)) a b;
  ready_entries e : e <> mark_of w -> entries s0 e = entries (wq S) e;
  ready_tasks : tasks s0 = tasks (wq S);
  ready_pre e : e ∈ pre -> ~ ahead (queue (wq S)) (mark_of w) e /\ exists nr, waker S w = KWalk nr;
}.

Lemma ready_known S w s0 pre rest e : inv S -> ready S w s0 pre rest -> e ∈ pre ++ rest ->
  (exists t, e = entry_of t /\ waiter S t <> Away /\ entries s0 e = entry_value t) \/
  (exists w' nr, e = mark_of w' /\ w' <> w /\ waker S w' = KWalk nr /\ flag_of s0 e WQ_FLAG_BOOKMARK = true).
Proof using All.
  intros HI [R1 R2 R3 R4 R5 R6 R7] He. apply list.NoDup_cons in R2 as [Hb _].
  assert (Hne : e <> mark_of w) by (by intros ->). pose proof He as Hq. apply R3 in Hq; [|done].
  apply (inv_queue _ HI) in Hq as [(t & -> & Ht)|(w' & nr & -> & Hw')]; [left|right].
  - exists t. split_and!; [done|done|]. rewrite R5 by done. by apply (inv_entry _ HI).
  - exists w', nr. split_and!; [done|by intros ->|done|]. unfold flag_of. rewrite R5 by done.
    destruct (inv_mark _ HI w' nr Hw') as [-> _]. done.
Qed.

Lemma flag_bookmark_value s t e : entries s e = entry_value t -> flag_of s e WQ_FLAG_BOOKMARK = false.
Proof using Type. intros He. unfold flag_of. rewrite He. cbn [entry_value wq_flags]. by destruct (exclusive t). Qed.

Lemma ready_distinct S w s0 pre rest : inv S -> ready S w s0 pre rest -> distinct s0 (pre ++ rest).
Proof using All.
  intros HI HR. split.
  - pose proof (ready_nodup _ _ _ _ _ HR) as Hnd. by apply list.NoDup_cons in Hnd as [_ ?].
  - intros e e' He He' Hf Hf' Hp.
    destruct (ready_known _ _ _ _ _ e HI HR He) as [(t & -> & _ & Hv)|(w' & nr & _ & _ & _ & Hb)]; [|congruence].
    destruct (ready_known _ _ _ _ _ e' HI HR He') as [(t' & -> & _ & Hv')|(w' & nr & _ & _ & _ & Hb)]; [|congruence].
    rewrite Hv, Hv' in Hp. cbn [entry_value wq_private] in Hp. by subst.
  - intros e He. destruct (ready_known _ _ _ _ _ e HI HR He) as [(t & -> & _ & Hv)|(w' & nr & _ & _ & _ & Hb)];
      [right; by rewrite Hv|by left].
Qed.

(** An entry of a task that waits is woken when it is visited. *)
Lemma entry_wakes s t : entries s (entry_of t) = entry_value t -> t_state (tasks s t) = wait_state t ->
  wakes s TASK_NORMAL (entry_of t) = true.
Proof using All.
  intros He Hs. unfold wakes. rewrite (flag_bookmark_value s t) by done. rewrite He. cbn [entry_value wq_private].
  rewrite Hs. apply wait_state_normal.
Qed.

(** The queue after a section without the bookmark. *)
Lemma keep_filter s mode pre V rest : NoDup (pre ++ V ++ rest) ->
  pre ++ filter (fun e => removed s mode e = false) V ++ rest =
  filter (fun e => e ∉ V \/ removed s mode e = false) (pre ++ V ++ rest).
Proof using Type.
  intros Hnd. apply list.NoDup_app in Hnd as (_ & Hx & Hnd). apply list.NoDup_app in Hnd as (_ & Hx' & _).
  assert (Hid : forall l : list Z, (forall e, e ∈ l -> e ∉ V) -> filter (fun e => e ∉ V \/ removed s mode e = false) l = l).
  { induction l as [|e l IH]; intros Hl; [done|]. rewrite filter_cons_True, IH; [done| |].
    - intros e' He'. apply Hl. by apply list_elem_of_further.
    - left. apply Hl, list_elem_of_here. }
  rewrite !list.filter_app, (Hid pre) by (intros e He HV; apply (Hx e He); rewrite elem_of_app; by left).
  rewrite (Hid rest) by (intros e He HV; by apply (Hx' e HV)). do 2 f_equal. assert (Hsub : forall l : list Z, (forall e, e ∈ l -> e ∈ V) ->
    filter (fun e => removed s mode e = false) l = filter (fun e => e ∉ V \/ removed s mode e = false) l).
  { induction l as [|e l IH]; intros Hl; [done|]. specialize (IH (fun e' He' => Hl e' (list_elem_of_further _ _ _ He'))).
    pose proof (Hl e (list_elem_of_here _ _)) as He. rewrite !filter_cons, IH.
    destruct (decide (removed s mode e = false)), (decide (e ∉ V \/ removed s mode e = false)); (done || tauto). }
  by apply Hsub.
Qed.

(** What a section has done, whether it ended with the bookmark in the queue or not. *)
Definition stays (s0 : wq_state) (V : list Z) (e : Z) : Prop := e ∉ V \/ removed s0 TASK_NORMAL e = false.

Record swept (S : system) (w : Z) (s0 : wq_state) (V rest' : list Z) (marked : bool) (s2 : wq_state) : Prop := {
  swept_nodup : NoDup (queue s2);
  swept_flag : flag_of s2 (mark_of w) WQ_FLAG_BOOKMARK = marked;
  swept_mark : if marked then mark_of w ∈ queue s2 /\ wq_flags (entries s2 (mark_of w)) = WQ_FLAG_BOOKMARK /\
                  forall e, e ∈ rest' -> ahead (queue s2) (mark_of w) e
               else mark_of w ∉ queue s2;
  swept_elem e : e <> mark_of w -> e ∈ queue s2 <-> e ∈ queue (wq S) /\ stays s0 V e;
  swept_ahead a b : a <> mark_of w -> b <> mark_of w ->
    ahead (queue s2) a b <-> ahead (queue (wq S)) a b /\ stays s0 V a /\ stays s0 V b;
  swept_entries e : e <> mark_of w -> entries s2 e = entries (wq S) e;
  swept_task t : tasks s2 t = tasks (wq S) t \/ t_state (tasks s2 t) = TASK_RUNNING;
  swept_woken t : entry_of t ∈ V -> t_state (tasks (wq S) t) = wait_state t -> t_state (tasks s2 t) = TASK_RUNNING;
}.

Lemma swept_of_visited S w s0 pre V rest' s1 (marked : bool) s2 : inv S -> ready S w s0 pre (V ++ rest') ->
  wq_flags (entries s0 (mark_of w)) = 0 -> visited s0 TASK_NORMAL pre V rest' s1 ->
  s2 = (if marked then set_queue (set_flags s1 (mark_of w) WQ_FLAG_BOOKMARK)
          (pre ++ filter (fun e => removed s0 TASK_NORMAL e = false) V ++ mark_of w :: rest') else s1) ->
  swept S w s0 V rest' marked s2.
Proof using All.
  intros HI HR Hz Hv Hs2. pose proof HR as [R1 R2 R3 R4 R5 R6 R7]. pose proof Hv as [V1 V2 V3 V4].
  apply list.NoDup_cons in R2 as [Hb Hnd]. set (b := mark_of w) in *.
  set (qf := pre ++ filter (fun e => removed s0 TASK_NORMAL e = false) V ++ rest') in *.
  assert (Hqf : qf = filter (stays s0 V) (pre ++ V ++ rest')) by (by apply keep_filter).
  assert (Hbf : b ∉ qf) by (rewrite Hqf, list_elem_of_filter; tauto).
  assert (Hndf : NoDup qf) by (rewrite Hqf; by apply list.NoDup_filter).
  assert (Hq2 : queue s2 = if marked then pre ++ filter (fun e => removed s0 TASK_NORMAL e = false) V ++ b :: rest' else qf)
    by (rewrite Hs2; by destruct marked).
  assert (Hperm : marked = true -> queue s2 ≡ₚ b :: qf).
  { intros ->. rewrite Hq2. unfold qf. by rewrite !app_assoc, <- Permutation_middle. }
  assert (Hf2 : filter (fun e => e <> b) (queue s2) = qf).
  { rewrite Hq2. destruct marked; [|by apply filter_ne_id]. unfold qf in *. rewrite app_assoc in Hbf. rewrite elem_of_app in Hbf.
    by rewrite !app_assoc, filter_ne_mid by tauto. }
  assert (HbV : b ∉ V) by (rewrite !elem_of_app in Hb; tauto).
  assert (He2 : forall e, e <> b -> entries s2 e = entries s1 e).
  { intros e He. rewrite Hs2. destruct marked; [|done]. cbn. by rewrite upd_other. }
  assert (Ht2 : tasks s2 = tasks s1) by (rewrite Hs2; by destruct marked).
  split; fold b.
  - destruct marked; [rewrite Hperm by done; by apply list.NoDup_cons|by rewrite Hq2].
  - unfold flag_of. rewrite Hs2. destruct marked; [cbn; by rewrite upd_same|].
    rewrite V2, bool_decide_eq_false_2 by done. by rewrite Hz.
  - destruct marked; [|by rewrite Hq2]. rewrite Hq2. split; [rewrite !elem_of_app, elem_of_cons; tauto|].
    split; [rewrite Hs2; cbn; by rewrite upd_same|]. intros e He. rewrite !ahead_app. cbn [ahead]. tauto.
  - intros e He. rewrite <- R3 by done.
    assert (Hin : e ∈ queue s2 <-> e ∈ qf) by (rewrite <- Hf2, list_elem_of_filter; tauto).
    rewrite Hin, Hqf, list_elem_of_filter. tauto.
  - intros a a' Ha Ha'. rewrite <- R4 by done.
    assert (Hin : ahead (queue s2) a a' <-> ahead qf a a') by (rewrite <- Hf2, ahead_filter; tauto).
    rewrite Hin, Hqf, ahead_filter. tauto.
  - intros e He. rewrite He2, V2 by done. rewrite <- R5 by done. case_bool_decide as HeV; [|done].
    unfold woken_flag. destruct (ready_known _ _ _ _ _ e HI HR) as [(t & -> & _ & Hval)|(w' & nr & _ & _ & _ & Hbk)].
    + rewrite !elem_of_app. tauto.
    + by rewrite Hval, andb_false_r.
    + by rewrite Hbk.
  - intros t. rewrite Ht2, <- R6.
    destruct (decide (Exists (fun e => wakes s0 TASK_NORMAL e = true /\ wq_private (entries s0 e) = t) V)) as [Hex|Hno].
    + apply list.Exists_exists in Hex as (e & He & Hw & <-). right. by rewrite V3.
    + left. apply V4. intros e He Hw Hp. apply Hno, list.Exists_exists. by exists e.
  - intros t Ht Hst. rewrite Ht2.
    assert (Hval : entries s0 (entry_of t) = entry_value t).
    { destruct (ready_known _ _ _ _ _ (entry_of t) HI HR) as [(t' & Heq & _ & Hval)|(w' & nr & Heq & _)].
      - rewrite !elem_of_app. tauto.
      - by apply entry_inj in Heq as <-.
      - by apply entry_mark in Heq. }
    assert (Hw : wakes s0 TASK_NORMAL (entry_of t) = true) by (apply entry_wakes; [done|by rewrite R6]).
    specialize (V3 (entry_of t) Ht Hw). rewrite Hval in V3. cbn [entry_value wq_private] in V3. by rewrite V3.
Qed.

Lemma mark_stays S w s0 pre rest V w' nr : inv S -> ready S w s0 pre rest -> w' <> w -> waker S w' = KWalk nr ->
  stays s0 V (mark_of w').
Proof using All.
  intros HI HR Hne Hw'. right. assert (Hm : mark_of w' <> mark_of w) by (intros He; by apply Hne, mark_inj).
  destruct (inv_mark _ HI w' nr Hw') as [Hf _]. unfold removed, wakes, flag_of.
  by rewrite (ready_entries _ _ _ _ _ HR), Hf.
Qed.

(** A section that ends the walk leaves nobody who waits behind it, but for
    exclusive entries. *)
Lemma ended_exclusive S w s0 pre nr V rest' t : inv S -> ready S w s0 pre (V ++ rest') ->
  V = walk s0 TASK_NORMAL (V ++ rest') nr -> entry_of t ∈ rest' -> exclusive t = true.
Proof using All.
  intros HI HR HV Ht. destruct (walk_stop s0 TASK_NORMAL (V ++ rest') nr rest' (entry_of t)) as (e & He & Hc).
  { by rewrite <- HV. }
  { done. }
  rewrite <- HV in He. unfold counts in Hc. apply andb_prop in Hc as [Hw Hx].
  assert (Hin : e ∈ pre ++ V ++ rest') by (rewrite !elem_of_app; tauto).
  destruct (ready_known _ _ _ _ _ e HI HR Hin) as [(t' & -> & _ & Hval)|(w' & nr' & _ & _ & _ & Hb)].
  2:{ unfold wakes in Hw. by rewrite Hb in Hw. }
  apply (inv_order _ HI t' t).
  - apply (ready_ahead _ _ _ _ _ HR); [apply entry_mark..|]. rewrite !ahead_app. tauto.
  - unfold flag_of in Hx. rewrite Hval in Hx. cbn [entry_value wq_flags] in Hx. by destruct (exclusive t').
Qed.

Lemma inv_swept S w s0 pre nr V rest' (marked : bool) s2 nr' : inv S -> ready S w s0 pre (V ++ rest') ->
  swept S w s0 V rest' marked s2 -> (marked = false -> V = walk s0 TASK_NORMAL (V ++ rest') nr) ->
  inv (at_wake S w s2 (if marked then KWalk nr' else KIdle)).
Proof using All.
  intros HI HR [W1 W2 W3 W4 W5 W6 W7 W8] Hend. pose proof (ready_nodup _ _ _ _ _ HR) as Hnd.
  apply list.NoDup_cons in Hnd as [Hb _]. set (ph := if marked then _ else _).
  assert (Hrun : forall t, t_state (tasks (wq S) t) = TASK_RUNNING -> t_state (tasks s2 t) = TASK_RUNNING).
  { intros t Ht. destruct (W7 t) as [-> |]; done. }
  split; cbn [at_wake wq waiter waker cond].
  - done.
  - intros e He. destruct (decide (e = mark_of w)) as [->|Hne].
    { right. exists w, nr'. rewrite upd_same. unfold ph. by destruct marked. }
    apply W4 in He as [He _]; [|done]. apply (inv_queue _ HI) in He as [?|(w' & n & -> & Hw')]; [by left|right].
    exists w', n. rewrite upd_other by congruence. done.
  - intros t Ht. rewrite W6 by apply entry_mark. by apply (inv_entry _ HI).
  - intros w' n Hw'. destruct (decide (w' = w)) as [->|Hne].
    { rewrite upd_same in Hw'. unfold ph in Hw'. destruct marked; [|done]. tauto. }
    rewrite upd_other in Hw' by done. assert (Hm : mark_of w' <> mark_of w) by (intros He; by apply Hne, mark_inj).
    destruct (inv_mark _ HI w' n Hw') as [Hf Hq]. rewrite W6 by done. split; [done|]. apply W4; [done|].
    split; [done|]. by eapply mark_stays.
  - intros t Ht. by apply Hrun, (inv_loop _ HI).
  - intros t i Ht Hi. destruct (inv_test _ HI t i Ht Hi) as [Hs Hq]. split; [by apply Hrun|].
    rewrite W4 by apply entry_mark. tauto.
  - intros t Ht. destruct (inv_state _ HI t Ht) as [Hs|[Hs Hq]]; [left; by apply Hrun|].
    destruct (decide (entry_of t ∈ V)) as [HV|HV]; [left; by apply W8|].
    destruct (W7 t) as [-> |]; [right|by left]. split; [done|]. apply W4; [apply entry_mark|]. split; [done|by left].
  - intros t t' Ha. apply W5 in Ha as [Ha _]; [|apply entry_mark..]. by apply (inv_order _ HI).
  - intros t Ht Hs He Hc. assert (Hs' : t_state (tasks (wq S) t) <> TASK_RUNNING) by (intros Hx; by apply Hs, Hrun).
    destruct (inv_state _ HI t) as [|[Hst Hq]]; [by left|done|].
    assert (HV : entry_of t ∉ V) by (intros HV; by apply Hs, W8).
    apply (ready_elem _ _ _ _ _ HR) in Hq; [|apply entry_mark]. rewrite !elem_of_app in Hq.
    destruct Hq as [Hpre|[|Hrest]]; [|done|].
    + destruct (ready_pre _ _ _ _ _ HR _ Hpre) as [Hna [n Hn]].
      destruct (inv_coming _ HI t Ht Hs' He Hc) as (w0 & n0 & Hw0).
      assert (Hne : w0 <> w).
      { intros ->. destruct Hw0 as [?|[?|[_ ?]]]; congruence || done. }
      exists w0, n0. cbn [at_wake waker wq]. rewrite upd_other by done.
      destruct Hw0 as [?|[?|[Hw0 Ha]]]; [tauto..|]. right. right. split; [done|].
      assert (Hm : mark_of w0 <> mark_of w) by (intros Hx; by apply Hne, mark_inj).
      apply W5; [done|apply entry_mark|]. split; [done|]. split; [by eapply mark_stays|by left].
    + destruct marked.
      * exists w, nr'. cbn [at_wake waker wq]. rewrite upd_same. right. right. split; [done|]. by apply W3.
      * rewrite (ended_exclusive S w s0 pre nr V rest' t HI HR (Hend eq_refl) Hrest) in He. done.
Qed.

(** ** The two kinds of sections *)
Lemma inv_section S w s0 pre rest nr V rest' s2 nr' : inv S -> ready S w s0 pre rest ->
  wq_flags (entries s0 (mark_of w)) = 0 -> rest = V ++ rest' ->
  section_end s0 TASK_NORMAL nr (Some (mark_of w)) pre [] rest V rest' s2 ->
  inv (at_wake S w s2 (after_section s2 w nr')).
Proof using All.
  intros HI HR Hz -> Hs. unfold after_section.
  assert (Hsw : exists marked, swept S w s0 V rest' marked s2 /\ (marked = false -> V = walk s0 TASK_NORMAL (V ++ rest') nr)).
  { destruct Hs as [[Hv HV]|(b & s1 & Hb & _ & _ & Hv & Hs2 & _)].
    - exists false. split; [by eapply (swept_of_visited S w s0 pre V rest' s2)|done].
    - injection Hb as <-. exists true. split; [by eapply (swept_of_visited S w s0 pre V rest' s1 true)|done]. }
  destruct Hsw as (marked & Hsw & Hend). rewrite (swept_flag _ _ _ _ _ _ _ Hsw). by eapply inv_swept.
Qed.

Lemma inv_first S w nr : inv S -> waker S w = KStart nr ->
  let s0 := set_entry (wq S) (mark_of w) (WqEntry 0 0 (OtherWake 0)) in
  exists s nr', __wake_up_common s0 TASK_NORMAL nr 0 0 (Some (mark_of w)) = Done (s, nr') /\
    inv (at_wake S w s (after_section s w nr')).
Proof using All.
  intros HI Hw s0. assert (Hb : mark_of w ∉ queue (wq S)).
  { intros Hin. apply (inv_queue _ HI) in Hin as [(t & He & _)|(w' & n & He & Hw')]; [by apply mark_ne in He|].
    apply mark_inj in He as <-. congruence. }
  assert (HR : ready S w s0 [] (queue (wq S))).
  { split; try done; [apply list.NoDup_cons; split; [done|apply HI]| |].
    - intros e He. cbn. by rewrite upd_other.
    - intros e He. by apply elem_of_nil in He. }
  assert (Hz : wq_flags (entries s0 (mark_of w)) = 0) by (cbn; by rewrite upd_same).
  destruct (wake_up_common_start s0 TASK_NORMAL nr 0 0 (Some (mark_of w))) as (V & rest & s2 & -> & Hq & Hs).
  - by eapply (ready_distinct S w s0 []).
  - unfold flag_of. by rewrite Hz.
  - do 2 eexists. split; [done|]. by eapply inv_section.
Qed.

Lemma inv_next S w nr : inv S -> waker S w = KWalk nr ->
  exists s nr', __wake_up_common (wq S) TASK_NORMAL nr 0 0 (Some (mark_of w)) = Done (s, nr') /\
    inv (at_wake S w s (after_section s w nr')).
Proof using All.
  intros HI Hw. destruct (inv_mark _ HI w nr Hw) as [Hf Hin]. set (b := mark_of w) in *.
  apply list_elem_of_split in Hin as (pre & rest & Hq). pose proof (inv_nodup _ HI) as Hnd. rewrite Hq in Hnd.
  assert (Hnd' : NoDup (b :: pre ++ rest)) by (by rewrite (Permutation_middle pre rest b)).
  pose proof Hnd' as Hb. apply list.NoDup_cons in Hb as [Hb _]. rewrite elem_of_app in Hb.
  set (s0 := set_flags (list_del_init (wq S) b) b 0).
  assert (Hq0 : queue s0 = pre ++ rest) by (apply unmark_queue; tauto).
  assert (Hfil : filter (fun e => e <> b) (queue (wq S)) = pre ++ rest) by (rewrite Hq; apply filter_ne_mid; tauto).
  assert (HR : ready S w s0 pre rest).
  { split; try done; fold b.
    - intros e He. rewrite <- Hfil, list_elem_of_filter. tauto.
    - intros a a' Ha Ha'. rewrite <- Hfil, ahead_filter. tauto.
    - intros e He. cbn. by rewrite upd_other.
    - intros e He. split; [|by exists nr]. intros Ha. apply (ahead_nodup (queue (wq S)) b e); [apply HI|done|].
      rewrite Hq, ahead_app, elem_of_cons. tauto. }
  assert (Hz : wq_flags (entries s0 b) = 0) by (cbn; by rewrite upd_same).
  unfold __wake_up_common. replace (flag_of (wq S) b WQ_FLAG_BOOKMARK) with true by (unfold flag_of; by rewrite Hf).
  rewrite Hq, next_in_app by tauto. cbn [mbind outcome_bind]. fold s0.
  destruct (wake_loop_ok s0 TASK_NORMAL 0 0 (Some b) pre rest (Datatypes.S (length (queue s0))) [] s0 nr 0)
    as (V & rest' & s2 & Hr & Hrest & Hs).
  - by apply visited_nil.
  - by apply (ready_distinct S w s0 pre rest).
  - rewrite Hq0, length_app. lia.
  - exists s2. eexists. split; [|by eapply inv_section]. destruct rest as [|e rest]; [|exact Hr].
    cbn [list.head wake_loop] in Hr. exact Hr.
Qed.

Lemma inv_step S S' : step S S' -> inv S -> inv S'.
Proof using All.
  intros Hst HI. destruct Hst as [S t Hw Hs|S t s i Hw Hp|S t i Hw Hc|S t i Hw Hc Hi|S t i Hw Hc Hi|S t Hw Hs|S t Hw|S t Hw
    |S t Hw|S t sig fatal stop wake|S|S w nr active Hw|S w nr Hw|S w nr Hw|S w nr s nr' Hw Hr|S w nr s nr' Hw Hr].
  - by apply inv_enter.
  - destruct (inv_prepare S t HI Hw) as (s' & i' & Hp' & HI'). rewrite Hp in Hp'. by injection Hp' as <- <-.
  - apply inv_quiet; try done. congruence.
  - apply andb_prop in Hi as [_ Hi]. by eapply inv_interrupted.
  - apply inv_quiet; try done; [congruence|]. intros _. split_and!; [done|done|by exists i].
  - apply inv_quiet; try done. congruence.
  - apply inv_quiet; try done; [|congruence]. intros p Hp. cbn. by rewrite upd_other.
  - unfold list_empty. case_bool_decide; (apply inv_quiet; try done; congruence).
  - by apply inv_unlink.
  - by apply inv_disturb.
  - by apply inv_clear.
  - apply inv_waker; [done|congruence|by destruct active|]. intros t _ _ _ _. apply coming_new. exists nr.
    destruct active; tauto.
  - apply inv_waker; [done|congruence|done|]. intros t _ _ _ _. apply coming_new. exists nr. by right.
  - by apply inv_active.
  - destruct (inv_first S w nr HI Hw) as (s' & n' & Hr' & HI'). rewrite Hr in Hr'. by injection Hr' as <- <-.
  - destruct (inv_next S w nr HI Hw) as (s' & n' & Hr' & HI'). rewrite Hr in Hr'. by injection Hr' as <- <-.
Qed.

Lemma inv_reachable S S' : init S -> rtc step S S' -> inv S'.
Proof using All.
  intros Hi Hr. apply inv_init in Hi. induction Hr as [|S1 S2 S3 Hst _ IH]; [done|]. by apply IH, (inv_step S1).
Qed.
End Invariant.

(** ** The properties *)
Section Theorems.
Context `{WakeFunctions} `{WaitEventSpec}.

(** C8: however tasks that wait for a condition and wakers interleave, no wakeup
    is lost: when the condition holds and every waker that has set it is done,
    no task that waits for it without being exclusive sleeps, whether it was on
    its way to sleep when the condition was set, the walk was broken off and
    resumed in between, or the waker skipped the walk because the queue was
    empty. *)
Theorem no_lost_wakeup S S' t : init S -> rtc step S S' -> cond S' = true -> (forall w, waker S' w = KIdle) ->
  exclusive t = false -> waiter S' t = Sleep -> t_state (tasks (wq S') t) = TASK_RUNNING.
Proof using All.
  intros Hi Hr Hc Hk He Ht. pose proof (inv_reachable S S' Hi Hr) as HI.
  destruct (Z.eq_dec (t_state (tasks (wq S') t)) TASK_RUNNING) as [|Hs]; [done|exfalso].
  destruct (inv_coming _ HI t Ht Hs He Hc) as (w & nr & Hw). rewrite (Hk w) in Hw.
  destruct Hw as [?|[?|[? _]]]; done.
Qed.

(** C13: however the tasks interleave, the queue never gets corrupted.  Every
    operation on it returns, no entry is on it twice, and neither the entry of a
    task that has left [wait_event] nor the bookmark of a waker that is not
    between two sections of its walk, all of them on stacks that are gone, is
    still linked. *)
Theorem wait_queue_uncorrupted S S' : init S -> rtc step S S' ->
  NoDup (queue (wq S')) /\
  (forall t, waiter S' t = Away -> entry_of t ∉ queue (wq S')) /\
  (forall w, (forall nr, waker S' w <> KWalk nr) -> mark_of w ∉ queue (wq S')) /\
  (forall t, waiter S' t = Loop -> exists r, prepare_to_wait_event (wq S') t (entry_of t) (wait_state t) = Done r) /\
  (forall w nr, waker S' w = KStart nr -> exists r,
     __wake_up_common (set_entry (wq S') (mark_of w) (WqEntry 0 0 (OtherWake 0))) TASK_NORMAL nr 0 0 (Some (mark_of w)) = Done r) /\
  (forall w nr, waker S' w = KWalk nr -> exists r, __wake_up_common (wq S') TASK_NORMAL nr 0 0 (Some (mark_of w)) = Done r).
Proof using All.
  intros Hi Hr. pose proof (inv_reachable S S' Hi Hr) as HI. split_and!.
  - apply HI.
  - intros t Ht. by apply away_out.
  - intros w Hw Hin. apply (inv_queue _ HI) in Hin as [(t & He & _)|(w' & nr & He & Hw')]; [by apply mark_ne in He|].
    apply mark_inj in He as <-. by apply (Hw nr).
  - intros t Ht. destruct (inv_prepare S' t HI Ht) as (s & i & Hp & _). by exists (s, i).
  - intros w nr Hw. destruct (inv_first S' w nr HI Hw) as (s & i & Hp & _). by exists (s, i).
  - intros w nr Hw. destruct (inv_next S' w nr HI Hw) as (s & i & Hp & _). by exists (s, i).
Qed.
End Theorems.

(** ** A run of two tasks and a waker *)

(** Task 5 is exclusive. *)
#[export] Instance small_wait : WaitEvent := {|
  entry_of t := 2 * t;
  mark_of w := 2 * w + 1;
  wait_state _ := TASK_UNINTERRUPTIBLE;
  exclusive t := t =? 5;
|}.
#[export] Instance small_wait_spec : WaitEventSpec.
Proof. split; cbn; try lia. done. Qed.

Definition sys0 : system :=
  Sys (WqState (fun _ => WqEntry 0 0 DefaultWake) [] (fun _ => Task TASK_RUNNING false false false)) false
    (fun _ => Away) (fun _ => KIdle).

Lemma sys0_init : init sys0.
Proof. by split. Qed.

(** Tasks 1 and 5 fall asleep, and waker 7 sets the condition and walks the queue. *)
Definition get_state (r : outcome (wq_state * Z)) : wq_state := match r with Done (s, _) => s | _ => wq sys0 end.
Definition sys1 : system := at_wait sys0 1 (init_wait_entry (wq sys0) 1 2 0) Loop.
Definition sys2 : system := at_wait sys1 1 (get_state (prepare_to_wait_event (wq sys1) 1 2 TASK_UNINTERRUPTIBLE)) (Test 0).
Definition sys3 : system := at_wait sys2 1 (wq sys2) Sleep.
Definition sys4 : system := at_wait sys3 5 (init_wait_entry (wq sys3) 5 10 WQ_FLAG_EXCLUSIVE) Loop.
Definition sys5 : system := at_wait sys4 5 (get_state (prepare_to_wait_event (wq sys4) 5 10 TASK_UNINTERRUPTIBLE)) (Test 0).
Definition sys6 : system := at_wait sys5 5 (wq sys5) Sleep.
Definition sys7 : system := Sys (wq sys6) true (waiter sys6) (upd (waker sys6) 7 (KCheck 1)).
Definition sys8 : system := at_wake sys7 7 (wq sys7) (KStart 1).
Definition sys9 : system := at_wake sys8 7
  (get_state (__wake_up_common (set_entry (wq sys8) 15 (WqEntry 0 0 (OtherWake 0))) TASK_NORMAL 1 0 0 (Some 15))) KIdle.

Lemma sys9_reachable : rtc step sys0 sys9.
Proof.
  apply rtc_l with sys1; [exact (step_enter sys0 1 eq_refl eq_refl)|].
  apply rtc_l with sys2; [exact (step_prepare sys1 1 (wq sys2) 0 eq_refl eq_refl)|].
  apply rtc_l with sys3; [exact (step_sleep sys2 1 0 eq_refl eq_refl eq_refl)|].
  apply rtc_l with sys4; [exact (step_enter sys3 5 eq_refl eq_refl)|].
  apply rtc_l with sys5; [exact (step_prepare sys4 5 (wq sys5) 0 eq_refl eq_refl)|].
  apply rtc_l with sys6; [exact (step_sleep sys5 5 0 eq_refl eq_refl eq_refl)|].
  apply rtc_l with sys7; [exact (step_set sys6 7 1 true eq_refl)|].
  apply rtc_l with sys8; [exact (step_active sys7 7 1 eq_refl)|].
  apply rtc_once. exact (step_first sys8 7 1 (wq sys9) 0 eq_refl eq_refl).
Qed.

Lemma sys9_idle w : waker sys9 w = KIdle.
Proof. cbn. unfold upd. by destruct (w =? 7). Qed.

Lemma no_lost_wakeup_witness : cond sys9 = true /\ waiter sys9 1 = Sleep /\ t_state (tasks (wq sys9) 1) = TASK_RUNNING.
Proof.
  split; [reflexivity|]. split; [reflexivity|].
  apply (no_lost_wakeup sys0 sys9 1 sys0_init sys9_reachable eq_refl sys9_idle); reflexivity.
Defined.

Lemma wait_queue_uncorrupted_witness : waiter sys9 3 = Away /\ (entry_of 3 ∉ queue (wq sys9)) /\ NoDup (queue (wq sys9)).
Proof.
  destruct (wait_queue_uncorrupted sys0 sys9 sys0_init sys9_reachable) as (Hnd & Haway & _).
  split; [reflexivity|]. split; [apply Haway; reflexivity|exact Hnd].
Defined.
