(* ===== verification/Gfp.v ===== *)
(** * Allocation flags

    Bits of [src/new/include/linux/gfp.h] that the modelled allocators test. *)

From S2P Require Import Prelude.

Definition ___GFP_IO : Z := 0x40.
Definition ___GFP_FS : Z := 0x80.
Definition ___GFP_NOWARN : Z := 0x200.
Definition ___GFP_NORETRY : Z := 0x1000.
Definition ___GFP_ZERO : Z := 0x8000.
Definition ___GFP_NOMEMALLOC : Z := 0x10000.
Definition ___GFP_ACCOUNT : Z := 0x100000.
Definition ___GFP_DIRECT_RECLAIM : Z := 0x200000.
Definition ___GFP_KSWAPD_RECLAIM : Z := 0x400000.
Definition __GFP_RECLAIM : Z := Z.lor ___GFP_DIRECT_RECLAIM ___GFP_KSWAPD_RECLAIM.
Definition GFP_KERNEL : Z := Z.lor (Z.lor __GFP_RECLAIM ___GFP_IO) ___GFP_FS.
(** [__GFP_DMA], [__GFP_HIGHMEM], [__GFP_DMA32] and [__GFP_MOVABLE] *)
Definition GFP_ZONEMASK : Z := Z.lor (Z.lor 0x01 0x02) (Z.lor 0x04 0x08).
Definition gfpflags_allow_blocking (gfp_flags : Z) : bool := bool_of (Z.land gfp_flags ___GFP_DIRECT_RECLAIM).
