(* ===== verification/Runs.v ===== *)
(** * Runs of executable transition systems

    A transition relation whose steps a function makes: sequences of actions give states
    that are reachable. *)

From stdpp Require Import relations.
From S2P Require Import Prelude.

Section Runs.
Context {S A : Type} (step : S -> S -> Prop) (exec : S -> A -> option S).
Hypothesis exec_sound : forall s a s', exec s a = Some s' -> step s s'.

Fixpoint run (s : S) (l : list A) : option S :=
  match l with
  | [] => Some s
  | a :: l => match exec s a with Some s1 => run s1 l | None => None end
  end.

Lemma run_reach l : forall s s', run s l = Some s' -> rtc step s s'.
Proof using exec_sound.
  induction l as [|a l IH]; intros s s' Hr; cbn [run] in Hr; [injection Hr as <-; apply rtc_refl|].
  destruct (exec s a) as [s1|] eqn:He; [|done]. apply (rtc_l _ _ s1); [by apply exec_sound in He|by apply IH].
Qed.

(** The state behind a run that does not get stuck. *)
Lemma run_default l s : match run s l with Some _ => True | None => False end -> rtc step s (default s (run s l)).
Proof using exec_sound. destruct (run s l) as [s'|] eqn:Hr; [|done]. intros _. by apply (run_reach l). Qed.
End Runs.
