(* ===== verification/RadixTree.v ===== *)
(** * Radix tree: data and operations

    [src/new/lib/radix-tree.c].  Nodes are objects of a slab cache at addresses in
    [mem]; an entry is a machine word, either null, an item or the address of a
    node with a tag in its lowest bits, as in the code.  The state has one tree,
    the pool of preloaded nodes of the current CPU, and the nodes that wait for the
    end of a grace period.  Writers exclude each other, so that an operation is a
    function on the state. *)

From S2P Require Import Prelude Gfp.

Definition ENOMEM : Z := 12.
Definition EEXIST : Z := 17.
Definition ENOSPC : Z := 28.
Definition BITS_PER_LONG : Z := 64.

(** Constants and predicates of [radix-tree.h], [xarray.h] and [idr.h]. *)
Class RadixHeaders := {
  RADIX_TREE_MAP_SHIFT : Z;
  RADIX_TREE_MAX_TAGS : Z;
  RADIX_TREE_MAX_PATH : Z;
  RADIX_TREE_INTERNAL_NODE : Z;
  XA_RETRY_ENTRY : Z;
  ROOT_TAG_SHIFT : Z;
  ROOT_IS_IDR : Z;
  IDR_FREE : Z;
  RADIX_TREE_ITER_TAG_MASK : Z;
  RADIX_TREE_ITER_TAGGED : Z;
  RADIX_TREE_ITER_CONTIG : Z;
  CONFIG_LOCKDEP : bool;
  radix_tree_is_internal_node : Z -> bool;
  xa_is_value : Z -> bool;
  (** [__radix_tree_iter_add], of the index of the iterator and a number of slots *)
  __radix_tree_iter_add : Z -> Z -> Z;
}.

(** The slab cache [radix_tree_node_cachep]; a null pointer says that there is no
    memory. *)
Class KmemCache := {
  cache : Type;
  kmem_cache_alloc : cache -> Z -> Z * cache;
  kmem_cache_free : cache -> Z -> cache;
}.

(** ** Data *)
Record radix_tree_node := Node {
  nd_shift : Z;
  nd_offset : Z;
  nd_count : Z;
  nd_nr_values : Z;
  nd_parent : Z;
  nd_slots : Z -> Z;
  (** [tags[tag]]: as [RADIX_TREE_MAP_SIZE] is at most [BITS_PER_LONG], one word each *)
  nd_tags : Z -> Z;
}.

Record radix_tree_iter := Iter { it_index : Z; it_next_index : Z; it_tags : Z; it_node : Z }.

Inductive slotref := HeadSlot | NodeSlot (node offset : Z).

Section RadixTree.
Context `{RadixHeaders} `{KmemCache}.

Record radix_tree_root := Root {
  node_cachep : cache;
  mem : Z -> radix_tree_node;
  rtp_nr : Z;
  rtp_nodes : Z;
  (** nodes given to [call_rcu] *)
  rcu : list Z;
  in_interrupt : bool;
  xa_head : Z;
  xa_flags : Z;
}.

Definition RADIX_TREE_MAP_SIZE : Z := Z.shiftl 1 RADIX_TREE_MAP_SHIFT.
Definition RADIX_TREE_MAP_MASK : Z := RADIX_TREE_MAP_SIZE - 1.
Definition RADIX_TREE_PRELOAD_SIZE : Z := RADIX_TREE_MAX_PATH * 2 - 1.
Definition DIV_ROUND_UP (n d : Z) : Z := (n + d - 1) / d.
Definition IDR_INDEX_BITS : Z := 8 * 4 - 1.
Definition IDR_MAX_PATH : Z := DIV_ROUND_UP IDR_INDEX_BITS RADIX_TREE_MAP_SHIFT.
Definition IDR_PRELOAD_SIZE : Z := IDR_MAX_PATH * 2 - 1.
Definition RADIX_TREE_RETRY : Z := XA_RETRY_ENTRY.
Definition __GFP_BITS_SHIFT : Z := 23 + (if CONFIG_LOCKDEP then 1 else 0).
Definition __GFP_BITS_MASK : Z := Z.shiftl 1 __GFP_BITS_SHIFT - 1.

Definition u8 (z : Z) : Z := z mod 2 ^ 8.

(** *** Assignments *)
Definition set_cache (s : radix_tree_root) (c : cache) : radix_tree_root :=
  Root c (mem s) (rtp_nr s) (rtp_nodes s) (rcu s) (in_interrupt s) (xa_head s) (xa_flags s).
Definition set_mem (s : radix_tree_root) (h : Z -> radix_tree_node) : radix_tree_root :=
  Root (node_cachep s) h (rtp_nr s) (rtp_nodes s) (rcu s) (in_interrupt s) (xa_head s) (xa_flags s).
Definition set_rtp (s : radix_tree_root) (nr nodes : Z) : radix_tree_root :=
  Root (node_cachep s) (mem s) nr nodes (rcu s) (in_interrupt s) (xa_head s) (xa_flags s).
Definition set_rcu (s : radix_tree_root) (l : list Z) : radix_tree_root :=
  Root (node_cachep s) (mem s) (rtp_nr s) (rtp_nodes s) l (in_interrupt s) (xa_head s) (xa_flags s).
Definition set_head (s : radix_tree_root) (e : Z) : radix_tree_root :=
  Root (node_cachep s) (mem s) (rtp_nr s) (rtp_nodes s) (rcu s) (in_interrupt s) e (xa_flags s).
Definition set_flags (s : radix_tree_root) (f : Z) : radix_tree_root :=
  Root (node_cachep s) (mem s) (rtp_nr s) (rtp_nodes s) (rcu s) (in_interrupt s) (xa_head s) f.
Definition set_node (s : radix_tree_root) (a : Z) (n : radix_tree_node) : radix_tree_root :=
  set_mem s (upd (mem s) a n).

Definition with_count (n : radix_tree_node) (c : Z) : radix_tree_node :=
  Node (nd_shift n) (nd_offset n) c (nd_nr_values n) (nd_parent n) (nd_slots n) (nd_tags n).
Definition with_values (n : radix_tree_node) (v : Z) : radix_tree_node :=
  Node (nd_shift n) (nd_offset n) (nd_count n) v (nd_parent n) (nd_slots n) (nd_tags n).
Definition with_parent (n : radix_tree_node) (p : Z) : radix_tree_node :=
  Node (nd_shift n) (nd_offset n) (nd_count n) (nd_nr_values n) p (nd_slots n) (nd_tags n).
Definition with_slot (n : radix_tree_node) (i e : Z) : radix_tree_node :=
  Node (nd_shift n) (nd_offset n) (nd_count n) (nd_nr_values n) (nd_parent n) (upd (nd_slots n) i e) (nd_tags n).
Definition with_tag (n : radix_tree_node) (t w : Z) : radix_tree_node :=
  Node (nd_shift n) (nd_offset n) (nd_count n) (nd_nr_values n) (nd_parent n) (nd_slots n) (upd (nd_tags n) t w).

(** [*slot] *)
Definition load_slot (s : radix_tree_root) (slot : slotref) : Z :=
  match slot with HeadSlot => xa_head s | NodeSlot n i => nd_slots (mem s n) i end.
Definition store_slot (s : radix_tree_root) (slot : slotref) (e : Z) : radix_tree_root :=
  match slot with HeadSlot => set_head s e | NodeSlot n i => set_node s n (with_slot (mem s n) i e) end.

(** ** Entries and tags *)
Definition entry_to_node (ptr : Z) : Z := Z.land ptr (Z.lnot RADIX_TREE_INTERNAL_NODE).
Definition node_to_entry (ptr : Z) : Z := Z.lor ptr RADIX_TREE_INTERNAL_NODE.

Definition get_slot_offset (parent : Z) (slot : slotref) : Z :=
  if bool_of parent then match slot with NodeSlot _ i => i | HeadSlot => 0 end else 0.

(** Returns the offset and the entry. *)
Definition radix_tree_descend (s : radix_tree_root) (parent index : Z) : Z * Z :=
  let offset := Z.land (Z.shiftr index (nd_shift (mem s parent))) RADIX_TREE_MAP_MASK in
  (offset, nd_slots (mem s parent) offset).

Definition root_gfp_mask (s : radix_tree_root) : Z :=
  Z.land (xa_flags s) (Z.land __GFP_BITS_MASK (Z.lnot GFP_ZONEMASK)).

Definition tag_set (s : radix_tree_root) (node tag offset : Z) : radix_tree_root :=
  set_node s node (with_tag (mem s node) tag (Z.setbit (nd_tags (mem s node) tag) offset)).
Definition tag_clear (s : radix_tree_root) (node tag offset : Z) : radix_tree_root :=
  set_node s node (with_tag (mem s node) tag (Z.clearbit (nd_tags (mem s node) tag) offset)).
Definition tag_get (s : radix_tree_root) (node tag offset : Z) : bool := Z.testbit (nd_tags (mem s node) tag) offset.

Definition root_tag_set (s : radix_tree_root) (tag : Z) : radix_tree_root :=
  set_flags s (Z.lor (xa_flags s) (Z.shiftl 1 (tag + ROOT_TAG_SHIFT))).
Definition root_tag_clear (s : radix_tree_root) (tag : Z) : radix_tree_root :=
  set_flags s (Z.land (xa_flags s) (Z.lnot (Z.shiftl 1 (tag + ROOT_TAG_SHIFT)))).
Definition root_tag_clear_all (s : radix_tree_root) : radix_tree_root :=
  set_flags s (Z.land (xa_flags s) (Z.shiftl 1 ROOT_TAG_SHIFT - 1)).
Definition root_tag_get (s : radix_tree_root) (tag : Z) : bool :=
  bool_of (Z.land (xa_flags s) (Z.shiftl 1 (tag + ROOT_TAG_SHIFT))).
Definition root_tags_get (s : radix_tree_root) : Z := Z.shiftr (xa_flags s) ROOT_TAG_SHIFT.
Definition is_idr (s : radix_tree_root) : bool := bool_of (Z.land (xa_flags s) ROOT_IS_IDR).

Definition any_tag_set (s : radix_tree_root) (node tag : Z) : bool := bool_of (nd_tags (mem s node) tag).
Definition all_tag_set (s : radix_tree_root) (node tag : Z) : radix_tree_root :=
  set_node s node (with_tag (mem s node) tag (Z.ones RADIX_TREE_MAP_SIZE)).

(** The lowest bit of a word that is not zero. *)
Fixpoint __ffs_pos (p : positive) : Z :=
  match p with xO p => __ffs_pos p + 1 | _ => 0 end.
Definition __ffs (w : Z) : Z := match w with Zpos p => __ffs_pos p | _ => 0 end.

Definition radix_tree_find_next_bit (s : radix_tree_root) (node tag offset : Z) : Z :=
  if offset <? RADIX_TREE_MAP_SIZE then
    let tmp := Z.shiftr (nd_tags (mem s node) tag) offset in
    if bool_of tmp then __ffs tmp + offset else RADIX_TREE_MAP_SIZE
  else RADIX_TREE_MAP_SIZE.

(** ** Indices *)
Definition shift_maxindex (shift : Z) : Z := u64 (u64 (Z.shiftl RADIX_TREE_MAP_SIZE shift) - 1).
Definition node_maxindex (s : radix_tree_root) (node : Z) : Z := shift_maxindex (nd_shift (mem s node)).
Definition next_index (s : radix_tree_root) (index node offset : Z) : Z :=
  u64 (Z.land index (u64 (Z.lnot (node_maxindex s node))) + u64 (Z.shiftl offset (nd_shift (mem s node)))).

(** ** Nodes *)
Definition radix_tree_node_alloc (s : radix_tree_root) (gfp_mask parent shift offset count nr_values : Z)
    : outcome (Z * radix_tree_root) :=
  let '(ret, s) :=
    if negb (gfpflags_allow_blocking gfp_mask) && negb (in_interrupt s) then
      let '(ret, c) := kmem_cache_alloc (node_cachep s) (Z.lor gfp_mask ___GFP_NOWARN) in
      let s := set_cache s c in
      if bool_of ret then (ret, s)
      else if bool_of (rtp_nr s) then
        let ret := rtp_nodes s in (ret, set_rtp s (rtp_nr s - 1) (nd_parent (mem s ret)))
      else (0, s)
    else
      let '(ret, c) := kmem_cache_alloc (node_cachep s) gfp_mask in (ret, set_cache s c) in
  _ ← BUG_ON (radix_tree_is_internal_node ret);
  Done (ret, if bool_of ret
             then set_node s ret (Node shift offset count nr_values parent (nd_slots (mem s ret)) (nd_tags (mem s ret)))
             else s).

Definition radix_tree_node_free (s : radix_tree_root) (node : Z) : radix_tree_root := set_rcu s (rcu s ++ [node]).

Definition radix_tree_node_ctor : radix_tree_node := Node 0 0 0 0 0 (fun _ => 0) (fun _ => 0).

Definition radix_tree_node_rcu_free (s : radix_tree_root) (node : Z) : radix_tree_root :=
  let n := mem s node in
  let s := set_node s node (Node (nd_shift n) (nd_offset n) (nd_count n) (nd_nr_values n) (nd_parent n)
                              (fun _ => 0) (fun _ => 0)) in
  set_cache s (kmem_cache_free (node_cachep s) node).

(** The end of a grace period: the callbacks of all nodes run. *)
Definition rcu_callbacks (s : radix_tree_root) : radix_tree_root :=
  fold_left radix_tree_node_rcu_free (rcu s) (set_rcu s []).

(** The task stays on its CPU, so that there is one pool. *)
Fixpoint preload_loop (fuel : nat) (s : radix_tree_root) (gfp_mask nr : Z) : outcome (Z * radix_tree_root) :=
  match fuel with
  | O => NoFuel
  | S fuel =>
      if rtp_nr s <? nr then
        let '(node, c) := kmem_cache_alloc (node_cachep s) gfp_mask in
        let s := set_cache s c in
        if node =? 0 then Done (- ENOMEM, s)
        else if rtp_nr s <? nr then
          let s := set_node s node (with_parent (mem s node) (rtp_nodes s)) in
          preload_loop fuel (set_rtp s (rtp_nr s + 1) node) gfp_mask nr
        else preload_loop fuel (set_cache s (kmem_cache_free (node_cachep s) node)) gfp_mask nr
      else Done (0, s)
  end.
Definition __radix_tree_preload (s : radix_tree_root) (gfp_mask nr : Z) : outcome (Z * radix_tree_root) :=
  preload_loop (S (Z.to_nat nr)) s (Z.land gfp_mask (Z.lnot ___GFP_ACCOUNT)) nr.
Definition radix_tree_preload (s : radix_tree_root) (gfp_mask : Z) : outcome (Z * radix_tree_root) :=
  __radix_tree_preload s gfp_mask RADIX_TREE_PRELOAD_SIZE.
Definition radix_tree_maybe_preload (s : radix_tree_root) (gfp_mask : Z) : outcome (Z * radix_tree_root) :=
  if gfpflags_allow_blocking gfp_mask then __radix_tree_preload s gfp_mask RADIX_TREE_PRELOAD_SIZE else Done (0, s).
Definition idr_preload (s : radix_tree_root) (gfp_mask : Z) : outcome radix_tree_root :=
  r ← __radix_tree_preload s gfp_mask IDR_PRELOAD_SIZE; Done r.2.

(** [radix_tree_cpu_dead] empties the pool. *)
Fixpoint cpu_dead_loop (fuel : nat) (s : radix_tree_root) : outcome radix_tree_root :=
  match fuel with
  | O => NoFuel
  | S fuel =>
      if bool_of (rtp_nr s) then
        let node := rtp_nodes s in
        let s := set_rtp s (rtp_nr s) (nd_parent (mem s node)) in
        let s := set_cache s (kmem_cache_free (node_cachep s) node) in
        cpu_dead_loop fuel (set_rtp s (rtp_nr s - 1) (rtp_nodes s))
      else Done s
  end.
Definition radix_tree_cpu_dead (s : radix_tree_root) : outcome radix_tree_root :=
  cpu_dead_loop (S (Z.to_nat (rtp_nr s))) s.

(** ** Height *)

(** Returns the shift, the head and the largest index. *)
Definition radix_tree_load_root (s : radix_tree_root) : Z * Z * Z :=
  let node := xa_head s in
  if radix_tree_is_internal_node node then
    let n := entry_to_node node in
    (nd_shift (mem s n) + RADIX_TREE_MAP_SHIFT, node, node_maxindex s n)
  else (0, node, 0).

(** A path has at most 64 nodes. *)
Definition turns : nat := 66.

Fixpoint maxshift_loop (fuel : nat) (index maxshift : Z) : outcome Z :=
  match fuel with
  | O => NoFuel
  | S fuel => if index >? shift_maxindex maxshift then maxshift_loop fuel index (maxshift + RADIX_TREE_MAP_SHIFT)
              else Done maxshift
  end.

Definition extend_tags (s : radix_tree_root) (node : Z) : radix_tree_root :=
  if is_idr s then
    let s := all_tag_set s node IDR_FREE in
    if negb (root_tag_get s IDR_FREE) then root_tag_set (tag_clear s node IDR_FREE 0) IDR_FREE else s
  else fold_left (fun s tag => if root_tag_get s tag then tag_set s node tag 0 else s)
         (seqZ 0 RADIX_TREE_MAX_TAGS) s.

(** The [do] loop; the result is an error or 0. *)
Fixpoint extend_loop (fuel : nat) (s : radix_tree_root) (gfp entry shift maxshift : Z) : outcome (Z * radix_tree_root) :=
  match fuel with
  | O => NoFuel
  | S fuel =>
      r ← radix_tree_node_alloc s gfp 0 shift 0 1 0;
      let '(node, s) := r in
      if node =? 0 then Done (- ENOMEM, s)
      else
        let s := extend_tags s node in
        _ ← BUG_ON (shift >? BITS_PER_LONG);
        let s :=
          if radix_tree_is_internal_node entry
          then set_node s (entry_to_node entry) (with_parent (mem s (entry_to_node entry)) node)
          else if xa_is_value entry then set_node s node (with_values (mem s node) 1) else s in
        let s := set_node s node (with_slot (mem s node) 0 entry) in
        let entry := node_to_entry node in
        let s := set_head s entry in
        let shift := shift + RADIX_TREE_MAP_SHIFT in
        if shift <=? maxshift then extend_loop fuel s gfp entry shift maxshift else Done (0, s)
  end.

Definition radix_tree_extend (s : radix_tree_root) (gfp index shift : Z) : outcome (Z * radix_tree_root) :=
  maxshift ← maxshift_loop turns index shift;
  let entry := xa_head s in
  if negb (bool_of entry) && (negb (is_idr s) || root_tag_get s IDR_FREE)
  then Done (maxshift + RADIX_TREE_MAP_SHIFT, s)
  else
    r ← extend_loop turns s gfp entry shift maxshift;
    let '(error, s) := r in
    if error <? 0 then Done (error, s) else Done (maxshift + RADIX_TREE_MAP_SHIFT, s).

Fixpoint shrink_loop (fuel : nat) (s : radix_tree_root) (shrunk : bool) : outcome (bool * radix_tree_root) :=
  match fuel with
  | O => NoFuel
  | S fuel =>
      let node := xa_head s in
      if negb (radix_tree_is_internal_node node) then Done (shrunk, s)
      else
        let node := entry_to_node node in
        if negb (nd_count (mem s node) =? 1) then Done (shrunk, s)
        else
          let child := nd_slots (mem s node) 0 in
          if negb (bool_of child) then Done (shrunk, s)
          else if negb (bool_of (nd_shift (mem s node))) && is_idr s then Done (shrunk, s)
          else
            let s := if radix_tree_is_internal_node child
                     then set_node s (entry_to_node child) (with_parent (mem s (entry_to_node child)) 0) else s in
            let s := set_head s child in
            let s := if is_idr s && negb (tag_get s node IDR_FREE 0) then root_tag_clear s IDR_FREE else s in
            let s := set_node s node (with_count (mem s node) 0) in
            let s := if negb (radix_tree_is_internal_node child)
                     then set_node s node (with_slot (mem s node) 0 RADIX_TREE_RETRY) else s in
            shrink_loop fuel (radix_tree_node_free s node) true
  end.
Definition radix_tree_shrink (s : radix_tree_root) : outcome (bool * radix_tree_root) := shrink_loop turns s false.

Fixpoint delete_loop (fuel : nat) (s : radix_tree_root) (node : Z) (deleted : bool) : outcome (bool * radix_tree_root) :=
  match fuel with
  | O => NoFuel
  | S fuel =>
      if bool_of (nd_count (mem s node)) then
        if node_to_entry node =? xa_head s
        then r ← radix_tree_shrink s; Done (deleted || r.1, r.2)
        else Done (deleted, s)
      else
        let parent := nd_parent (mem s node) in
        let s :=
          if bool_of parent then
            let s := set_node s parent (with_slot (mem s parent) (nd_offset (mem s node)) 0) in
            set_node s parent (with_count (mem s parent) (u8 (nd_count (mem s parent) - 1)))
          else
            let s := if negb (is_idr s) then root_tag_clear_all s else s in
            set_head s 0 in
        let s := radix_tree_node_free s node in
        if bool_of parent then delete_loop fuel s parent true else Done (true, s)
  end.
Definition delete_node (s : radix_tree_root) (node : Z) : outcome (bool * radix_tree_root) := delete_loop turns s node false.

(** ** Insertion and lookup *)
Definition incr_count (s : radix_tree_root) (node : Z) : radix_tree_root :=
  set_node s node (with_count (mem s node) (u8 (nd_count (mem s node) + 1))).

(** Returns an error or 0, the node and the slot. *)
Fixpoint create_loop (fuel : nat) (s : radix_tree_root) (gfp index shift offset node child : Z) (slot : slotref)
    : outcome (Z * Z * slotref * radix_tree_root) :=
  match fuel with
  | O => NoFuel
  | S fuel =>
      if negb (shift >? 0) then Done (0, node, slot, s)
      else
        let shift := shift - RADIX_TREE_MAP_SHIFT in
        let down child s :=
          let node := entry_to_node child in
          let '(offset, child) := radix_tree_descend s node index in
          create_loop fuel s gfp index shift offset node child (NodeSlot node offset) in
        if child =? 0 then
          r ← radix_tree_node_alloc s gfp node shift offset 0 0;
          let '(child, s) := r in
          if child =? 0 then Done (- ENOMEM, node, slot, s)
          else
            let s := store_slot s slot (node_to_entry child) in
            let s := if bool_of node then incr_count s node else s in
            down child s
        else if negb (radix_tree_is_internal_node child) then Done (0, node, slot, s)
        else down child s
  end.

Definition __radix_tree_create (s : radix_tree_root) (index : Z) : outcome (Z * Z * slotref * radix_tree_root) :=
  let gfp := root_gfp_mask s in
  let '(shift, child, maxindex) := radix_tree_load_root s in
  if index >? maxindex then
    r ← radix_tree_extend s gfp index shift;
    let '(error, s) := r in
    if error <? 0 then Done (error, 0, HeadSlot, s)
    else create_loop turns s gfp index error 0 0 (xa_head s) HeadSlot
  else create_loop turns s gfp index shift 0 0 child HeadSlot.

Definition insert_entries (s : radix_tree_root) (node : Z) (slot : slotref) (item : Z) : Z * radix_tree_root :=
  if bool_of (load_slot s slot) then (- EEXIST, s)
  else
    let s := store_slot s slot item in
    if bool_of node then
      let s := incr_count s node in
      (1, if xa_is_value item then set_node s node (with_values (mem s node) (u8 (nd_nr_values (mem s node) + 1))) else s)
    else (1, s).

Definition radix_tree_insert (s : radix_tree_root) (index item : Z) : outcome (Z * radix_tree_root) :=
  _ ← BUG_ON (radix_tree_is_internal_node item);
  r ← __radix_tree_create s index;
  let '(error, node, slot, s) := r in
  if bool_of error then Done (error, s)
  else
    let '(error, s) := insert_entries s node slot item in
    if error <? 0 then Done (error, s)
    else if bool_of node then
      let offset := get_slot_offset node slot in
      _ ← BUG_ON (tag_get s node 0 offset);
      _ ← BUG_ON (tag_get s node 1 offset);
      _ ← BUG_ON (tag_get s node 2 offset);
      Done (0, s)
    else
      _ ← BUG_ON (bool_of (root_tags_get s));
      Done (0, s).

(** On [RADIX_TREE_RETRY] the walk starts over at the same head, whose largest index
    was checked before. *)
Fixpoint descend_loop (fuel : nat) (s : radix_tree_root) (index parent node : Z) (slot : slotref) : outcome (Z * Z * slotref) :=
  match fuel with
  | O => NoFuel
  | S fuel =>
      if radix_tree_is_internal_node node then
        let parent := entry_to_node node in
        let '(offset, node) := radix_tree_descend s parent index in
        let slot := NodeSlot parent offset in
        if node =? RADIX_TREE_RETRY then descend_loop fuel s index 0 (xa_head s) HeadSlot
        else if nd_shift (mem s parent) =? 0 then Done (node, parent, slot)
        else descend_loop fuel s index parent node slot
      else Done (node, parent, slot)
  end.

(** Returns the entry, and the node and slot if they are set. *)
Definition __radix_tree_lookup (s : radix_tree_root) (index : Z) : outcome (Z * option (Z * slotref)) :=
  let '(_, node, maxindex) := radix_tree_load_root s in
  if index >? maxindex then Done (0, None)
  else
    r ← descend_loop turns s index 0 node HeadSlot;
    let '(node, parent, slot) := r in
    Done (node, Some (parent, slot)).

Definition radix_tree_lookup_slot (s : radix_tree_root) (index : Z) : outcome (option slotref) :=
  r ← __radix_tree_lookup s index;
  Done (if negb (bool_of r.1) then None else match r.2 with Some (_, slot) => Some slot | None => None end).
Definition radix_tree_lookup (s : radix_tree_root) (index : Z) : outcome Z :=
  r ← __radix_tree_lookup s index; Done r.1.

(** ** Replacing *)
Definition replace_slot (s : radix_tree_root) (slot : slotref) (item node count values : Z) : radix_tree_root :=
  let s :=
    if bool_of node && (bool_of count || bool_of values) then
      let s := set_node s node (with_count (mem s node) (u8 (nd_count (mem s node) + count))) in
      set_node s node (with_values (mem s node) (u8 (nd_nr_values (mem s node) + values)))
    else s in
  store_slot s slot item.

Definition node_tag_get (s : radix_tree_root) (node tag offset : Z) : bool :=
  if bool_of node then tag_get s node tag offset else root_tag_get s tag.

Definition calculate_count (s : radix_tree_root) (node : Z) (slot : slotref) (item old : Z) : Z :=
  let plain := Z.b2z (bool_of item) - Z.b2z (bool_of old) in
  if is_idr s then
    let offset := get_slot_offset node slot in
    let free := node_tag_get s node IDR_FREE offset in
    if negb free then 0 else if negb (bool_of old) then 1 else plain
  else plain.

Definition __radix_tree_replace (s : radix_tree_root) (node : Z) (slot : slotref) (item : Z) : outcome radix_tree_root :=
  let old := load_slot s slot in
  let values := Z.b2z (xa_is_value item) - Z.b2z (xa_is_value old) in
  let count := calculate_count s node slot item old in
  let s := replace_slot s slot item node count values in
  if negb (bool_of node) then Done s else r ← delete_node s node; Done r.2.

Definition radix_tree_replace_slot (s : radix_tree_root) (slot : slotref) (item : Z) : outcome radix_tree_root :=
  __radix_tree_replace s 0 slot item.

(** ** Tags *)
Fixpoint tag_set_up (fuel : nat) (s : radix_tree_root) (node tag offset : Z) : outcome radix_tree_root :=
  match fuel with
  | O => NoFuel
  | S fuel =>
      if bool_of node then
        if tag_get s node tag offset then Done s
        else
          let s := tag_set s node tag offset in
          tag_set_up fuel s (nd_parent (mem s node)) tag (nd_offset (mem s node))
      else Done (if negb (root_tag_get s tag) then root_tag_set s tag else s)
  end.
Definition node_tag_set (s : radix_tree_root) (node tag offset : Z) : outcome radix_tree_root :=
  tag_set_up turns s node tag offset.

Fixpoint tag_set_down (fuel : nat) (s : radix_tree_root) (index tag node : Z) : outcome (Z * radix_tree_root) :=
  match fuel with
  | O => NoFuel
  | S fuel =>
      if radix_tree_is_internal_node node then
        let parent := entry_to_node node in
        let '(offset, node) := radix_tree_descend s parent index in
        _ ← BUG_ON (negb (bool_of node));
        let s := if negb (tag_get s parent tag offset) then tag_set s parent tag offset else s in
        tag_set_down fuel s index tag node
      else Done (node, s)
  end.
Definition radix_tree_tag_set (s : radix_tree_root) (index tag : Z) : outcome (Z * radix_tree_root) :=
  let '(_, node, maxindex) := radix_tree_load_root s in
  _ ← BUG_ON (index >? maxindex);
  r ← tag_set_down turns s index tag node;
  let '(node, s) := r in
  Done (node, if negb (root_tag_get s tag) then root_tag_set s tag else s).

Fixpoint tag_clear_up (fuel : nat) (s : radix_tree_root) (node tag offset : Z) : outcome radix_tree_root :=
  match fuel with
  | O => NoFuel
  | S fuel =>
      if bool_of node then
        if negb (tag_get s node tag offset) then Done s
        else
          let s := tag_clear s node tag offset in
          if any_tag_set s node tag then Done s
          else tag_clear_up fuel s (nd_parent (mem s node)) tag (nd_offset (mem s node))
      else Done (if root_tag_get s tag then root_tag_clear s tag else s)
  end.
Definition node_tag_clear (s : radix_tree_root) (node tag offset : Z) : outcome radix_tree_root :=
  tag_clear_up turns s node tag offset.

(** Returns the entry, the node above it and the offset there. *)
Fixpoint find_down (fuel : nat) (s : radix_tree_root) (index parent offset node : Z) : outcome (Z * Z * Z) :=
  match fuel with
  | O => NoFuel
  | S fuel =>
      if radix_tree_is_internal_node node then
        let parent := entry_to_node node in
        let '(offset, node) := radix_tree_descend s parent index in
        find_down fuel s index parent offset node
      else Done (node, parent, offset)
  end.
Definition radix_tree_tag_clear (s : radix_tree_root) (index tag : Z) : outcome (Z * radix_tree_root) :=
  let '(_, node, maxindex) := radix_tree_load_root s in
  if index >? maxindex then Done (0, s)
  else
    r ← find_down turns s index 0 0 node;
    let '(node, parent, offset) := r in
    if bool_of node then s ← node_tag_clear s parent tag offset; Done (node, s) else Done (node, s).

Fixpoint tag_get_down (fuel : nat) (s : radix_tree_root) (index tag node : Z) : outcome Z :=
  match fuel with
  | O => NoFuel
  | S fuel =>
      if radix_tree_is_internal_node node then
        let parent := entry_to_node node in
        let '(offset, node) := radix_tree_descend s parent index in
        if negb (tag_get s parent tag offset) then Done 0
        else if node =? RADIX_TREE_RETRY then Done 1
        else tag_get_down fuel s index tag node
      else Done 1
  end.
Definition radix_tree_tag_get (s : radix_tree_root) (index tag : Z) : outcome Z :=
  if negb (root_tag_get s tag) then Done 0
  else
    let '(_, node, maxindex) := radix_tree_load_root s in
    if index >? maxindex then Done 0 else tag_get_down turns s index tag node.

Definition radix_tree_tagged (s : radix_tree_root) (tag : Z) : bool := root_tag_get s tag.

(** ** Deletion *)
Definition clear_tags (s : radix_tree_root) (node offset : Z) : outcome radix_tree_root :=
  fold_left (fun r tag => s ← r; node_tag_clear s node tag offset) (seqZ 0 RADIX_TREE_MAX_TAGS) (Done s).

Definition __radix_tree_delete (s : radix_tree_root) (node : Z) (slot : slotref) : outcome (bool * radix_tree_root) :=
  let old := load_slot s slot in
  let values := if xa_is_value old then -1 else 0 in
  let offset := get_slot_offset node slot in
  s ← (if is_idr s then node_tag_set s node IDR_FREE offset else clear_tags s node offset);
  let s := replace_slot s slot 0 node (-1) values in
  if bool_of node then delete_node s node else Done (false, s).

Definition radix_tree_delete_item (s : radix_tree_root) (index item : Z) : outcome (Z * radix_tree_root) :=
  r ← __radix_tree_lookup s index;
  let '(entry, place) := r in
  match place with
  | None => Done (0, s)
  | Some (node, slot) =>
      if negb (bool_of entry) && (negb (is_idr s) || node_tag_get s node IDR_FREE (get_slot_offset node slot))
      then Done (0, s)
      else if bool_of item && negb (entry =? item) then Done (0, s)
      else r ← __radix_tree_delete s node slot; Done (entry, r.2)
  end.
Definition radix_tree_delete (s : radix_tree_root) (index : Z) : outcome (Z * radix_tree_root) :=
  radix_tree_delete_item s index 0.

(** ** Iterators *)
Definition iter_offset (iter : radix_tree_iter) : Z := Z.land (it_index iter) RADIX_TREE_MAP_MASK.

(** There is one word of tags. *)
Definition set_iter_tags (s : radix_tree_root) (iter : radix_tree_iter) (node offset tag : Z) : radix_tree_iter :=
  Iter (it_index iter) (it_next_index iter) (if bool_of node then Z.shiftr (nd_tags (mem s node) tag) offset else 1) (it_node iter).

Definition radix_tree_iter_resume (iter : radix_tree_iter) : radix_tree_iter :=
  let index := __radix_tree_iter_add (it_index iter) 1 in Iter index index 0 (it_node iter).

(** [while (++offset < RADIX_TREE_MAP_SIZE)] *)
Definition next_entry (s : radix_tree_root) (node offset : Z) : Z :=
  match list_find (fun j => nd_slots (mem s node) j <> 0) (seqZ (offset + 1) (RADIX_TREE_MAP_SIZE - (offset + 1))) with
  | Some (_, j) => j
  | None => RADIX_TREE_MAP_SIZE
  end.

(** The end of [radix_tree_next_chunk]. *)
Definition chunk_found (s : radix_tree_root) (iter : radix_tree_iter) (flags tag index node offset : Z) : option slotref * radix_tree_iter :=
  let iter := Iter (Z.lor (Z.land index (u64 (Z.lnot (node_maxindex s node)))) offset)
                (u64 (Z.lor index (node_maxindex s node) + 1)) (it_tags iter) node in
  (Some (NodeSlot node offset), if bool_of (Z.land flags RADIX_TREE_ITER_TAGGED) then set_iter_tags s iter node offset tag else iter).

(** The [do] loop; [restart] is the label before it. *)
Fixpoint chunk_loop (fuel : nat) (restart : Z -> outcome (option slotref * radix_tree_iter)) (s : radix_tree_root) (iter : radix_tree_iter)
    (flags tag index child : Z) : outcome (option slotref * radix_tree_iter) :=
  match fuel with
  | O => NoFuel
  | S fuel =>
      let node := entry_to_node child in
      let '(offset, child) := radix_tree_descend s node index in
      let go index offset child :=
        if negb (bool_of child) then restart index
        else if child =? RADIX_TREE_RETRY then Done (chunk_found s iter flags tag index node offset)
        else if bool_of (nd_shift (mem s node)) && radix_tree_is_internal_node child
             then chunk_loop fuel restart s iter flags tag index child
             else Done (chunk_found s iter flags tag index node offset) in
      if (if bool_of (Z.land flags RADIX_TREE_ITER_TAGGED) then negb (tag_get s node tag offset) else negb (bool_of child)) then
        if bool_of (Z.land flags RADIX_TREE_ITER_CONTIG) then Done (None, iter)
        else
          let offset := if bool_of (Z.land flags RADIX_TREE_ITER_TAGGED)
                        then radix_tree_find_next_bit s node tag (offset + 1) else next_entry s node offset in
          let index := Z.land index (u64 (Z.lnot (node_maxindex s node))) in
          let index := u64 (index + u64 (Z.shiftl offset (nd_shift (mem s node)))) in
          if negb (bool_of index) then Done (None, iter)
          else if offset =? RADIX_TREE_MAP_SIZE then restart index
          else go index offset (nd_slots (mem s node) offset)
      else go index offset child
  end.

Fixpoint chunk_restart (fuel : nat) (s : radix_tree_root) (iter : radix_tree_iter) (flags tag index : Z)
    : outcome (option slotref * radix_tree_iter) :=
  match fuel with
  | O => NoFuel
  | S fuel =>
      let '(_, child, maxindex) := radix_tree_load_root s in
      if index >? maxindex then Done (None, iter)
      else if negb (bool_of child) then Done (None, iter)
      else if negb (radix_tree_is_internal_node child)
           then Done (Some HeadSlot, Iter index (u64 (maxindex + 1)) 1 0)
           else chunk_loop turns (chunk_restart fuel s iter flags tag) s iter flags tag index child
  end.

(** [fuel] bounds how often the walk starts over. *)
Definition radix_tree_next_chunk (fuel : nat) (s : radix_tree_root) (iter : radix_tree_iter) (flags : Z)
    : outcome (option slotref * radix_tree_iter) :=
  let tag := Z.land flags RADIX_TREE_ITER_TAG_MASK in
  if bool_of (Z.land flags RADIX_TREE_ITER_TAGGED) && negb (root_tag_get s tag) then Done (None, iter)
  else
    let index := it_next_index iter in
    if negb (bool_of index) && bool_of (it_index iter) then Done (None, iter)
    else chunk_restart fuel s iter flags tag index.

Definition radix_tree_iter_replace (s : radix_tree_root) (iter : radix_tree_iter) (slot : slotref) (item : Z) : outcome radix_tree_root :=
  __radix_tree_replace s (it_node iter) slot item.

Definition radix_tree_iter_tag_clear (s : radix_tree_root) (iter : radix_tree_iter) (tag : Z) : outcome radix_tree_root :=
  node_tag_clear s (it_node iter) tag (iter_offset iter).

Definition radix_tree_iter_delete (s : radix_tree_root) (iter : radix_tree_iter) (slot : slotref) : outcome (radix_tree_iter * radix_tree_root) :=
  r ← __radix_tree_delete s (it_node iter) slot;
  let '(deleted, s) := r in
  Done (if (deleted : bool) then Iter (it_next_index iter) (it_next_index iter) (it_tags iter) (it_node iter) else iter, s).

End RadixTree.
