(* ===== verification/RadixInv.v ===== *)
(** * Radix tree: the invariant

    What the nodes in memory have to do with each other, with a map from indices to
    items and with sets of tagged indices.  Every condition is about one node, its
    parent and its children; that nodes form a tree whose leaves lie apart follows
    from the parent pointers. *)

From S2P Require Import Prelude Gfp RadixTree.

(** ** What the headers and the slab cache promise *)
Class RadixSpec `{RadixHeaders} : Prop := {
  map_shift_range : 1 <= RADIX_TREE_MAP_SHIFT <= 6;
  max_tags : RADIX_TREE_MAX_TAGS = 3;
  max_path : RADIX_TREE_MAX_PATH = (64 + RADIX_TREE_MAP_SHIFT - 1) / RADIX_TREE_MAP_SHIFT;
  internal_tag : RADIX_TREE_INTERNAL_NODE = 2;
  internal_bits p : radix_tree_is_internal_node p = (Z.land p 3 =? 2);
  value_bits p : xa_is_value p = Z.testbit p 0;
  iter_add i n : __radix_tree_iter_add i n = u64 (i + n);
  retry_entry : 0 < XA_RETRY_ENTRY <= 4096;
  retry_internal : radix_tree_is_internal_node XA_RETRY_ENTRY = true;
  root_tag_shift : 0 <= ROOT_TAG_SHIFT;
  root_is_idr : 0 <= ROOT_IS_IDR < 2 ^ ROOT_TAG_SHIFT;
  idr_free_tag : IDR_FREE = 0;
}.

Lemma turns_S : exists n, turns = S n /\ (64 < n)%nat.
Proof. exists 65%nat. split; [reflexivity|lia]. Qed.

(** An address that an object of the cache can have. *)
Definition is_object (a : Z) : Prop := a mod 4 = 0 /\ 4096 < a.

Class KmemSpec `{KmemCache} := {
  held : cache -> Z -> Prop;
  kmem_alloc_ok c g a c' : kmem_cache_alloc c g = (a, c') ->
    (a = 0 /\ forall x, held c' x <-> held c x) \/
    (is_object a /\ ~ held c a /\ forall x, held c' x <-> x = a \/ held c x);
  kmem_free_ok c a x : held c a -> held (kmem_cache_free c a) x <-> held c x /\ x <> a;
}.

(** ** Indices *)

(** The first index of the aligned range of [2 ^ n] that has [i]. *)
Definition floor (i n : Z) : Z := i - i mod 2 ^ n.

Lemma pow2_pos n : 0 <= n -> 0 < 2 ^ n.
Proof. intros. apply Z.pow_pos_nonneg; lia. Qed.
#[export] Hint Resolve pow2_pos : kernel.

Lemma floor_range i n : 0 <= n -> floor i n <= i < floor i n + 2 ^ n.
Proof. intros Hn. unfold floor. pose proof (Z.mod_pos_bound i (2 ^ n) (pow2_pos n Hn)). lia. Qed.

Lemma floor_mod i n : 0 <= n -> floor i n mod 2 ^ n = 0.
Proof.
  intros Hn. unfold floor. pose proof (pow2_pos n Hn). pose proof (Z.div_mod i (2 ^ n)).
  replace (i - i mod 2 ^ n) with (0 + i / 2 ^ n * 2 ^ n) by lia. rewrite Z.mod_add by lia. apply Z.mod_0_l. lia.
Qed.

Lemma floor_unique b i n : 0 <= n -> b mod 2 ^ n = 0 -> b <= i < b + 2 ^ n -> floor i n = b.
Proof.
  intros Hn Hb Hi. unfold floor. pose proof (pow2_pos n Hn). pose proof (Z.div_mod b (2 ^ n) ltac:(lia)).
  rewrite Hb in *. replace (i mod 2 ^ n) with (i - b); [lia|].
  apply (Z.mod_unique_pos i (2 ^ n) (b / 2 ^ n)); lia.
Qed.

Lemma mod_pow_le b m n : 0 <= n <= m -> b mod 2 ^ m = 0 -> b mod 2 ^ n = 0.
Proof.
  intros Hn Hb. pose proof (pow2_pos m ltac:(lia)). pose proof (pow2_pos n ltac:(lia)).
  apply Z.mod_divide; [lia|]. apply Z.mod_divide in Hb; [|lia].
  apply Z.divide_trans with (2 ^ m); [|done]. replace m with (n + (m - n)) by lia. rewrite Z.pow_add_r by lia. by exists (2 ^ (m - n)); lia.
Qed.

Lemma floor_floor i n m : 0 <= n <= m -> floor (floor i n) m = floor i m.
Proof.
  intros Hn. pose proof (floor_range i n ltac:(lia)). pose proof (floor_range i m ltac:(lia)).
  apply floor_unique; [lia|apply floor_mod; lia|].
  assert (floor i m <= floor i n); [|lia].
  pose proof (floor_mod i m ltac:(lia)) as Hm. apply (mod_pow_le _ m n Hn) in Hm.
  pose proof (floor_mod i n ltac:(lia)) as Hm2. pose proof (pow2_pos n ltac:(lia)).
  pose proof (Z.div_mod (floor i m) (2 ^ n) ltac:(lia)) as E1. pose proof (Z.div_mod (floor i n) (2 ^ n) ltac:(lia)) as E2.
  rewrite Hm, Z.add_0_r in E1. rewrite Hm2, Z.add_0_r in E2. rewrite E1, E2 in *.
  assert (floor i m / 2 ^ n < floor i n / 2 ^ n + 1); [|nia]. apply (Z.mul_lt_mono_pos_l (2 ^ n)); lia.
Qed.

Lemma multiple_step a b m : 0 < m -> a mod m = 0 -> b mod m = 0 -> a < b -> a + m <= b.
Proof.
  intros Hm Ha Hb Hlt. pose proof (Z.div_mod a m ltac:(lia)) as Ea. pose proof (Z.div_mod b m ltac:(lia)) as Eb.
  rewrite Ha in Ea. rewrite Hb in Eb.
  assert (a / m < b / m) by (apply (Z.mul_lt_mono_pos_l m); lia). nia.
Qed.

Section Index.
Context `{RadixSpec}.
Abbreviation SH := RADIX_TREE_MAP_SHIFT.
Abbreviation SIZE := RADIX_TREE_MAP_SIZE.

Definition digit (i n : Z) : Z := Z.land (Z.shiftr i n) RADIX_TREE_MAP_MASK.

Lemma size_pow : SIZE = 2 ^ SH.
Proof using Type*. pose proof map_shift_range. unfold RADIX_TREE_MAP_SIZE. rewrite Z.shiftl_mul_pow2 by lia. lia. Qed.

Lemma size_range : 2 <= SIZE <= 64.
Proof using Type*.
  pose proof map_shift_range. rewrite size_pow. split.
  - change 2 with (2 ^ 1) at 1. apply Z.pow_le_mono_r; lia.
  - change 64 with (2 ^ 6). apply Z.pow_le_mono_r; lia.
Qed.

Lemma digit_div i n : 0 <= n -> digit i n = (i / 2 ^ n) mod SIZE.
Proof using Type*.
  intros Hn. pose proof map_shift_range. unfold digit, RADIX_TREE_MAP_MASK. rewrite size_pow, Z.shiftr_div_pow2 by lia.
  rewrite <- Z.land_ones, Z.ones_equiv by lia. by rewrite <- Z.sub_1_r.
Qed.

Lemma digit_range i n : 0 <= n -> 0 <= digit i n < SIZE.
Proof using Type*. intros Hn. rewrite digit_div by done. apply Z.mod_pos_bound. pose proof size_range. lia. Qed.

Lemma floor_digit i n : 0 <= n -> floor i n = floor i (n + SH) + digit i n * 2 ^ n.
Proof using Type*.
  intros Hn. pose proof map_shift_range. rewrite digit_div by done. rewrite size_pow. unfold floor.
  pose proof (pow2_pos n Hn). assert (0 < 2 ^ SH) by (apply pow2_pos; lia).
  rewrite Z.pow_add_r, Z.rem_mul_r by lia. ring.
Qed.

(** The range of a slot determines the offset. *)
Lemma digit_unique b i n j : 0 <= n -> b = floor i (n + SH) -> b + j * 2 ^ n <= i < b + (j + 1) * 2 ^ n -> j = digit i n.
Proof using Type*.
  intros Hn -> Hi. pose proof (pow2_pos n Hn). pose proof (floor_range i n Hn). pose proof (floor_digit i n Hn). nia.
Qed.

Lemma floor_child b j n : 0 <= n -> 0 <= j < SIZE -> b mod 2 ^ (n + SH) = 0 -> floor (b + j * 2 ^ n) (n + SH) = b.
Proof using Type*.
  intros Hn Hj Hb. pose proof map_shift_range. pose proof (pow2_pos n Hn). apply floor_unique; [lia|done|].
  rewrite Z.pow_add_r by lia. rewrite <- size_pow. nia.
Qed.

Lemma child_mod b j n : 0 <= n -> b mod 2 ^ (n + SH) = 0 -> (b + j * 2 ^ n) mod 2 ^ n = 0.
Proof using Type*.
  intros Hn Hb. pose proof map_shift_range. pose proof (pow2_pos n Hn). rewrite Z.mod_add by lia.
  by apply (mod_pow_le _ (n + SH)); [lia|].
Qed.

Lemma shift_maxindex_eq n : 0 <= n < 64 -> shift_maxindex n = Z.min (2 ^ (n + SH)) (2 ^ 64) - 1.
Proof using Type*.
  intros Hn. pose proof map_shift_range. unfold shift_maxindex. rewrite Z.shiftl_mul_pow2, size_pow, <- Z.pow_add_r by lia.
  rewrite (Z.add_comm SH). unfold u64. destruct (Z.le_gt_cases 64 (n + SH)).
  - assert (Hp : 2 ^ 64 <= 2 ^ (n + SH)) by (apply Z.pow_le_mono_r; lia). rewrite Z.min_r by done.
    replace (n + SH) with (64 + (n + SH - 64)) by lia. rewrite Z.pow_add_r by lia.
    rewrite Z.mul_comm, Z.mod_mul by lia. reflexivity.
  - assert (Hp : 2 ^ (n + SH) < 2 ^ 64) by (apply Z.pow_lt_mono_r; lia). rewrite Z.min_l by lia.
    assert (0 < 2 ^ (n + SH)) by (apply pow2_pos; lia). rewrite (Z.mod_small (2 ^ _)) by lia. apply Z.mod_small. lia.
Qed.

(** ** Entries *)
Lemma object_land a : is_object a -> Z.land a 3 = 0.
Proof using Type*. intros [Ha _]. change 3 with (Z.ones 2). by rewrite Z.land_ones by lia. Qed.

Lemma node_to_entry_add a : is_object a -> node_to_entry a = a + 2.
Proof using Type*.
  intros Ha. unfold node_to_entry. rewrite internal_tag. symmetry. rewrite Z.add_nocarry_lxor.
  - apply Z.bits_inj'. intros n Hn. rewrite Z.lxor_spec, Z.lor_spec.
    assert (Hl : Z.land a 2 = 0); [|].
    { replace 2 with (Z.land 3 2) by reflexivity. by rewrite Z.land_assoc, object_land. }
    apply (f_equal (fun z => Z.testbit z n)) in Hl. rewrite Z.land_spec, Z.bits_0 in Hl.
    by destruct (Z.testbit a n), (Z.testbit 2 n).
  - replace 2 with (Z.land 3 2) by reflexivity. by rewrite Z.land_assoc, object_land.
Qed.

Lemma entry_internal a : is_object a -> radix_tree_is_internal_node (node_to_entry a) = true.
Proof using Type*.
  intros Ha. rewrite internal_bits. unfold node_to_entry. rewrite internal_tag, Z.land_lor_distr_l, object_land by done. done.
Qed.

Lemma entry_to_node_entry a : is_object a -> entry_to_node (node_to_entry a) = a.
Proof using Type*.
  intros Ha. unfold entry_to_node, node_to_entry. rewrite internal_tag, Z.land_lor_distr_l, Z.land_lnot_diag, Z.lor_0_r.
  apply Z.bits_inj'. intros n Hn. rewrite Z.land_spec, Z.lnot_spec by done.
  assert (Hl : Z.land a 2 = 0). { replace 2 with (Z.land 3 2) by reflexivity. by rewrite Z.land_assoc, object_land. }
  apply (f_equal (fun z => Z.testbit z n)) in Hl. rewrite Z.land_spec, Z.bits_0 in Hl.
  by destruct (Z.testbit a n), (Z.testbit 2 n).
Qed.

Lemma entry_to_node_object a : is_object a -> entry_to_node a = a.
Proof using Type*.
  intros Ha. unfold entry_to_node. rewrite internal_tag.
  apply Z.bits_inj'. intros n Hn. rewrite Z.land_spec, Z.lnot_spec by done.
  assert (Hl : Z.land a 2 = 0). { replace 2 with (Z.land 3 2) by reflexivity. by rewrite Z.land_assoc, object_land. }
  apply (f_equal (fun z => Z.testbit z n)) in Hl. rewrite Z.land_spec, Z.bits_0 in Hl.
  by destruct (Z.testbit a n), (Z.testbit 2 n).
Qed.

Lemma entry_inj a b : is_object a -> is_object b -> node_to_entry a = node_to_entry b -> a = b.
Proof using Type*. intros Ha Hb. rewrite !node_to_entry_add by done. lia. Qed.

Lemma entry_nonzero a : is_object a -> node_to_entry a <> 0.
Proof using Type*. intros Ha. rewrite node_to_entry_add by done. destruct Ha. lia. Qed.

Lemma entry_not_retry a : is_object a -> node_to_entry a <> RADIX_TREE_RETRY.
Proof using Type*.
  intros Ha. rewrite node_to_entry_add by done. destruct Ha. unfold RADIX_TREE_RETRY. pose proof retry_entry. lia.
Qed.

Lemma null_not_internal : radix_tree_is_internal_node 0 = false.
Proof using Type*. by rewrite internal_bits. Qed.

Lemma object_not_internal a : is_object a -> radix_tree_is_internal_node a = false.
Proof using Type*. intros Ha. by rewrite internal_bits, object_land. Qed.

Lemma entry_not_value a : is_object a -> xa_is_value (node_to_entry a) = false.
Proof using Type*.
  intros Ha. rewrite value_bits, node_to_entry_add by done. destruct Ha as [Hm _]. rewrite Z.bit0_odd, Z.odd_add.
  rewrite <- Z.bit0_odd. change 4 with (2 ^ 2) in Hm. rewrite <- (Z.mod_pow2_bits_low a 2 0) by lia. by rewrite Hm.
Qed.

Lemma object_nonzero a : is_object a -> a <> 0.
Proof using Type. intros [_ ?]. lia. Qed.
End Index.

#[export] Hint Resolve entry_internal entry_nonzero entry_not_retry null_not_internal object_not_internal object_nonzero
  size_range : kernel.

(** ** The invariant *)
Section Invariant.
Context `{RadixSpec} `{KmemSpec}.
Abbreviation SH := RADIX_TREE_MAP_SHIFT.
Abbreviation SIZE := RADIX_TREE_MAP_SIZE.

(** How many of the slots satisfy [P]. *)
Definition tally (P : Z -> bool) (f : Z -> Z) : Z := Z.of_nat (length (filter (fun j => P (f j) = true) (seqZ 0 SIZE))).

Definition shift_of (s : radix_tree_root) (a : Z) : Z := nd_shift (mem s a).
Definition slots_of (s : radix_tree_root) (a : Z) : Z -> Z := nd_slots (mem s a).

(** [c] hangs in slot [j] of [a]. *)
Record hangs (s : radix_tree_root) (base : Z -> Z) (a j c : Z) : Prop := {
  hg_shift : shift_of s c = shift_of s a - SH;
  hg_parent : nd_parent (mem s c) = a;
  hg_offset : nd_offset (mem s c) = j;
  hg_base : base c = base a + j * 2 ^ shift_of s a;
}.

(** [T] are the nodes of the tree, [base] has the first index of each. *)
Record shape (s : radix_tree_root) (T : Z -> Prop) (base : Z -> Z) : Prop := {
  sh_object a : T a -> is_object a;
  sh_shift a : T a -> 0 <= shift_of s a < 64 /\ shift_of s a mod SH = 0;
  sh_base a : T a -> 0 <= base a < 2 ^ 64 /\ base a mod 2 ^ (shift_of s a + SH) = 0;
  sh_slot a j : T a -> 0 <= j < SIZE -> slots_of s a j <> 0 ->
    if shift_of s a =? 0 then radix_tree_is_internal_node (slots_of s a j) = false
    else exists c, T c /\ slots_of s a j = node_to_entry c /\ hangs s base a j c;
  sh_parent a : T a -> let p := nd_parent (mem s a) in
    (p = 0 /\ xa_head s = node_to_entry a /\ base a = 0 /\ nd_offset (mem s a) = 0) \/
    (T p /\ shift_of s p <> 0 /\ 0 <= nd_offset (mem s a) < SIZE /\ slots_of s p (nd_offset (mem s a)) = node_to_entry a);
  sh_head : radix_tree_is_internal_node (xa_head s) = true -> exists c, T c /\ xa_head s = node_to_entry c /\ nd_parent (mem s c) = 0;
  sh_top a : T a -> radix_tree_is_internal_node (xa_head s) = true /\ shift_of s a <= shift_of s (entry_to_node (xa_head s));
  sh_count a : T a -> nd_count (mem s a) = tally bool_of (slots_of s a);
  sh_values a : T a -> nd_nr_values (mem s a) = tally xa_is_value (slots_of s a);
}.

(** The items are those of the map [M]. *)
Record contents (s : radix_tree_root) (T : Z -> Prop) (base : Z -> Z) (M : Z -> Z) : Prop := {
  ct_leaf a j : T a -> shift_of s a = 0 -> 0 <= j < SIZE -> slots_of s a j = M (base a + j);
  ct_cover i : M i <> 0 -> if radix_tree_is_internal_node (xa_head s)
    then exists a, T a /\ shift_of s a = 0 /\ base a = floor i SH else i = 0;
  ct_single : radix_tree_is_internal_node (xa_head s) = false -> xa_head s = M 0;
}.

(** Bit [j] of a node says whether an index below slot [j] is in the set [G t]. *)
Definition bits_ok (s : radix_tree_root) (base : Z -> Z) (G : Z -> Z -> bool) (a : Z) : Prop :=
  forall t, 0 <= t < RADIX_TREE_MAX_TAGS -> 0 <= nd_tags (mem s a) t < 2 ^ SIZE /\
    forall j, 0 <= j < SIZE -> Z.testbit (nd_tags (mem s a) t) j = true <->
      exists i, base a + j * 2 ^ shift_of s a <= i < base a + (j + 1) * 2 ^ shift_of s a /\ G t i = true.

(** What the tree has room for. *)
Definition span (s : radix_tree_root) : Z :=
  if radix_tree_is_internal_node (xa_head s) then 2 ^ (shift_of s (entry_to_node (xa_head s)) + SH) else 1.

Record tagged (s : radix_tree_root) (T : Z -> Prop) (base : Z -> Z) (G : Z -> Z -> bool) : Prop := {
  tg_bits a : T a -> bits_ok s base G a;
  tg_root t : 0 <= t < RADIX_TREE_MAX_TAGS -> root_tag_get s t = true <-> exists i, 0 <= i < span s /\ G t i = true;
  tg_flags : 0 <= xa_flags s < 2 ^ (ROOT_TAG_SHIFT + RADIX_TREE_MAX_TAGS);
}.

Definition clean (n : radix_tree_node) : Prop := (forall j, nd_slots n j = 0) /\ (forall t, nd_tags n t = 0).

(** The pool is linked through the parent pointers. *)
Fixpoint chain (h : Z -> radix_tree_node) (a : Z) (l : list Z) : Prop :=
  match l with [] => True | x :: l => x = a /\ chain h (nd_parent (h x)) l end.

(** Where the objects of the cache are: in the tree, in the pool, waiting for the end
    of a grace period, or, in [F], just allocated. *)
Record owned (s : radix_tree_root) (T : Z -> Prop) (pool F : list Z) : Prop := {
  ow_held a : held (node_cachep s) a <-> T a \/ a ∈ pool ++ rcu s ++ F;
  ow_object a : held (node_cachep s) a -> is_object a;
  ow_apart a : T a -> a ∉ pool ++ rcu s ++ F;
  ow_nodup : NoDup (pool ++ rcu s ++ F);
  ow_clean a : ~ held (node_cachep s) a \/ a ∈ pool -> clean (mem s a);
  ow_pool : chain (mem s) (rtp_nodes s) pool;
  ow_nr : rtp_nr s = Z.of_nat (length pool);
}.

Record tree (s : radix_tree_root) (T : Z -> Prop) (base : Z -> Z) (pool F : list Z) (M : Z -> Z) (G : Z -> Z -> bool) : Prop := {
  tr_shape : shape s T base;
  tr_contents : contents s T base M;
  tr_tagged : tagged s T base G;
  tr_owned : owned s T pool F;
}.

(** No node but perhaps [p] is empty. *)
Definition tight_but (s : radix_tree_root) (T : Z -> Prop) (p : Z) : Prop := forall a, T a -> a <> p -> nd_count (mem s a) <> 0.

(** ** Counting *)
Lemma seqZ_split j : 0 <= j < SIZE -> seqZ 0 SIZE = seqZ 0 j ++ j :: seqZ (j + 1) (SIZE - j - 1).
Proof using Type.
  intros Hj. replace SIZE with (j + (1 + (SIZE - j - 1))) at 1 by lia. rewrite !seqZ_app by lia. done.
Qed.

Lemma filter_upd_out (P : Z -> bool) f j e (l : list Z) : j ∉ l ->
  filter (fun x => P (upd f j e x) = true) l = filter (fun x => P (f x) = true) l.
Proof using Type.
  intros Hj. induction l as [|x l IH]; [done|]. rewrite not_elem_of_cons in Hj. destruct Hj as [Hx Hj].
  rewrite !filter_cons, IH, upd_other by done. done.
Qed.

Lemma tally_upd P f j e : 0 <= j < SIZE -> tally P (upd f j e) = tally P f - Z.b2z (P (f j)) + Z.b2z (P e).
Proof using Type.
  intros Hj. unfold tally. rewrite (seqZ_split j Hj), !list.filter_app, !filter_cons, upd_same.
  rewrite !filter_upd_out by (rewrite elem_of_seqZ; lia).
  destruct (P e), (P (f j)); simpl; rewrite !length_app; simpl; rewrite ?decide_True, ?decide_False by done; simpl; lia.
Qed.

Lemma tally_zero P f : (forall j, 0 <= j < SIZE -> P (f j) = false) -> tally P f = 0.
Proof using Type.
  intros Hf. unfold tally. destruct (filter _ _) as [|x l] eqn:Hl; [done|].
  assert (Hx : x ∈ filter (fun j => P (f j) = true) (seqZ 0 SIZE)) by (rewrite Hl; apply list_elem_of_here).
  apply list_elem_of_filter in Hx as [Hx Hr]. rewrite elem_of_seqZ in Hr. by rewrite Hf in Hx by lia.
Qed.

Lemma tally_range P f : 0 <= tally P f <= SIZE.
Proof using Type*.
  unfold tally. split; [lia|]. pose proof (length_filter (fun j => P (f j) = true) (seqZ 0 SIZE)) as Hl.
  rewrite length_seqZ in Hl. pose proof size_range. lia.
Qed.

Lemma tally_pos P f j : 0 <= j < SIZE -> P (f j) = true -> 0 < tally P f.
Proof using Type.
  intros Hj Hp. unfold tally. rewrite (seqZ_split j Hj), list.filter_app, filter_cons, decide_True, length_app by done. simpl. lia.
Qed.

(** A single entry in slot 0 is the only one. *)
Lemma tally_one P f j : tally P f = 1 -> P (f 0) = true -> 0 < j < SIZE -> P (f j) = false.
Proof using Type.
  intros Hc Hz Hj. destruct (P (f j)) eqn:Hp; [exfalso|done].
  unfold tally in Hc. rewrite (seqZ_split j) in Hc by lia. replace j with (1 + (j - 1)) in Hc at 1 by lia.
  rewrite seqZ_app, (seqZ_cons 0 1), seqZ_nil in Hc by lia. simpl in Hc.
  rewrite !list.filter_cons, decide_True in Hc by done. rewrite list.filter_app, filter_cons, decide_True in Hc by done.
  simpl in Hc. rewrite length_app in Hc. simpl in Hc. lia.
Qed.

(** ** The tree *)
Section Tree.
Context (s : radix_tree_root) (T : Z -> Prop) (base : Z -> Z) (Hs : shape s T base).

Definition covers (a i : Z) : Prop := T a /\ base a = floor i (shift_of s a + SH).

Lemma shift_nonneg a : T a -> 0 <= shift_of s a < 64.
Proof using Hs. intros Ha. by apply (sh_shift _ _ _ Hs). Qed.

Lemma shift_step a b : T a -> T b -> shift_of s a < shift_of s b -> shift_of s a + SH <= shift_of s b.
Proof using Type*.
  intros Ha Hb Hlt. destruct (sh_shift _ _ _ Hs a Ha) as [_ Hka]. destruct (sh_shift _ _ _ Hs b Hb) as [_ Hkb].
  pose proof map_shift_range. apply multiple_step; [lia|done..].
Qed.

Lemma child_covers a j c i : T a -> T c -> 0 <= j < SIZE -> hangs s base a j c -> shift_of s a <> 0 -> covers a i ->
  base a + j * 2 ^ shift_of s a <= i < base a + (j + 1) * 2 ^ shift_of s a -> covers c i.
Proof using Type*.
  intros Ha Hc Hj [Hh _ _ Hb] Hz [_ Hci] Hi. split; [done|]. rewrite Hh. replace (shift_of s a - SH + SH) with (shift_of s a) by lia.
  pose proof (shift_nonneg a Ha). rewrite floor_digit by lia. rewrite Hb, <- Hci.
  by rewrite <- (digit_unique (base a) i (shift_of s a) j) by (done || lia).
Qed.

(** What is known of a node that is not the root. *)
Lemma parent_facts a : T a -> nd_parent (mem s a) <> 0 -> let p := nd_parent (mem s a) in
  T p /\ 0 <= nd_offset (mem s a) < SIZE /\ slots_of s p (nd_offset (mem s a)) = node_to_entry a /\
  hangs s base p (nd_offset (mem s a)) a /\ shift_of s p <> 0.
Proof using Type*.
  intros Ha Hp p. destruct (sh_parent _ _ _ Hs a Ha) as [[? _]|(Tp & Hz & Ho & Hsl)]; [done|]. fold p in Tp, Hz, Hsl.
  split_and!; [done|lia|lia|done| |done]. pose proof (sh_slot _ _ _ Hs p _ Tp Ho) as Hk. rewrite Hsl in Hk.
  destruct (Z.eqb_spec (shift_of s p) 0) as [|_]; [done|].
  destruct Hk as (c & Tc & Hc & Hg); [apply entry_nonzero; by apply (sh_object _ _ _ Hs)|].
  apply entry_inj in Hc as <-; [done|by apply (sh_object _ _ _ Hs)..].
Qed.

Lemma parent_base a : T a -> nd_parent (mem s a) <> 0 -> forall i, covers a i -> covers (nd_parent (mem s a)) i /\
  nd_offset (mem s a) = digit i (shift_of s a + SH).
Proof using Type*.
  intros Ha Hp i [_ Hci]. destruct (parent_facts a Ha Hp) as (Tp & Ho & _ & [Hh _ _ Hb] & Hz).
  pose proof (shift_nonneg _ Ha). pose proof (shift_nonneg _ Tp). pose proof map_shift_range.
  pose proof (sh_base _ _ _ Hs _ Tp) as [_ Hm]. set (p := nd_parent (mem s a)) in *.
  replace (shift_of s a + SH) with (shift_of s p) in * by lia.
  assert (Hf : base p = floor i (shift_of s p + SH)).
  { rewrite <- (floor_floor i (shift_of s p)) by lia. rewrite <- Hci, Hb. symmetry. apply floor_child; [lia|done..]. }
  split; [by split|]. pose proof (floor_digit i (shift_of s p)). pose proof (pow2_pos (shift_of s p)).
  apply (Z.mul_cancel_r _ _ (2 ^ shift_of s p)); lia.
Qed.

Lemma root_unique a b : T a -> T b -> shift_of s a = shift_of s b -> nd_parent (mem s a) = 0 -> a = b.
Proof using Type*.
  intros Ha Hb Hh Hp. destruct (sh_parent _ _ _ Hs a Ha) as [(_ & Hea & _)|(Tp & _)].
  2:{ rewrite Hp in Tp. apply (sh_object _ _ _ Hs) in Tp as [_ ?]. lia. }
  destruct (sh_parent _ _ _ Hs b Hb) as [(_ & Heb & _)|(Tp & Hz & Ho & Hsl)].
  - apply entry_inj; [by apply (sh_object _ _ _ Hs)..|]. congruence.
  - exfalso. destruct (parent_facts b Hb) as (_ & _ & _ & [Hg _ _ _] & _).
    { intros E. rewrite E in Tp. apply (sh_object _ _ _ Hs) in Tp as [_ ?]. lia. }
    destruct (sh_top _ _ _ Hs _ Tp) as [_ Ht]. rewrite Hea, entry_to_node_entry in Ht by (by apply (sh_object _ _ _ Hs)).
    pose proof map_shift_range. lia.
Qed.

Lemma node_unique_aux n : forall a b i, (Z.to_nat (64 - shift_of s a) <= n)%nat -> shift_of s a = shift_of s b ->
  covers a i -> covers b i -> a = b.
Proof using Type*.
  induction n as [|n IH]; intros a b i Hn Hh Ca Cb.
  { pose proof (shift_nonneg a (proj1 Ca)). lia. }
  destruct (Z.eq_dec (nd_parent (mem s a)) 0) as [Ea|Ea]; [by apply root_unique; [apply Ca|apply Cb|..]|].
  destruct (Z.eq_dec (nd_parent (mem s b)) 0) as [Eb|Eb]; [symmetry; by apply root_unique; [apply Cb|apply Ca|..]|].
  destruct (parent_base a (proj1 Ca) Ea i Ca) as [Cpa Oa]. destruct (parent_base b (proj1 Cb) Eb i Cb) as [Cpb Ob].
  destruct (parent_facts a (proj1 Ca) Ea) as (Tpa & _ & Sa & Ga & _). destruct (parent_facts b (proj1 Cb) Eb) as (_ & _ & Sb & Gb & _).
  pose proof map_shift_range. pose proof (shift_nonneg _ Tpa). pose proof (shift_nonneg _ (proj1 Ca)).
  assert (Hpp : nd_parent (mem s a) = nd_parent (mem s b)).
  { apply (IH _ _ i); [|rewrite (hg_shift _ _ _ _ _ Ga), (hg_shift _ _ _ _ _ Gb) in Hh; lia|done|done].
    pose proof (hg_shift _ _ _ _ _ Ga). lia. }
  rewrite Hpp, Oa, Hh, <- Ob, Sb in Sa. apply entry_inj in Sa; [done|apply (sh_object _ _ _ Hs), Cb|apply (sh_object _ _ _ Hs), Ca].
Qed.

(** At each height one node at most is responsible for an index. *)
Lemma node_unique a b i : shift_of s a = shift_of s b -> covers a i -> covers b i -> a = b.
Proof using Type*. by apply (node_unique_aux (Z.to_nat (64 - shift_of s a))). Qed.

Lemma above_aux n : forall a b i, (Z.to_nat (shift_of s a - shift_of s b) <= n)%nat -> shift_of s b < shift_of s a ->
  covers a i -> covers b i ->
  exists c, T c /\ slots_of s a (digit i (shift_of s a)) = node_to_entry c /\ hangs s base a (digit i (shift_of s a)) c /\
    covers c i /\ shift_of s b <= shift_of s c.
Proof using Type*.
  induction n as [|n IH]; intros a b i Hn Hlt Ca Cb; [lia|].
  assert (Eb : nd_parent (mem s b) <> 0).
  { intros E. destruct (sh_parent _ _ _ Hs b (proj1 Cb)) as [(_ & Heb & _)|(Tp & _)].
    - destruct (sh_top _ _ _ Hs a (proj1 Ca)) as [_ Ht]. rewrite Heb, entry_to_node_entry in Ht by (apply (sh_object _ _ _ Hs), Cb). lia.
    - rewrite E in Tp. apply (sh_object _ _ _ Hs) in Tp as [_ ?]. lia. }
  destruct (parent_base b (proj1 Cb) Eb i Cb) as [Cp Ob].
  destruct (parent_facts b (proj1 Cb) Eb) as (Tp & Ho & Sb & Gb & Hz). pose proof (hg_shift _ _ _ _ _ Gb) as Hh.
  pose proof (shift_step b a (proj1 Cb) (proj1 Ca) Hlt). pose proof map_shift_range.
  destruct (Z.eq_dec (shift_of s (nd_parent (mem s b))) (shift_of s a)) as [Heq|Hne].
  - pose proof (node_unique _ _ i Heq Cp Ca) as Hpa.
    assert (Hob : nd_offset (mem s b) = digit i (shift_of s a)) by (rewrite Ob; f_equal; lia).
    rewrite <- Hob. subst a. exists b. split_and!; [apply Cb|done..|lia].
  - destruct (IH a (nd_parent (mem s b)) i) as (c & H1c & H2c & H3c & H4c & H5c); [lia|lia|done|done|].
    exists c. split_and!; [done..|lia].
Qed.

(** The way down from a node to one below it. *)
Lemma above a b i : shift_of s b < shift_of s a -> covers a i -> covers b i ->
  exists c, T c /\ slots_of s a (digit i (shift_of s a)) = node_to_entry c /\ hangs s base a (digit i (shift_of s a)) c /\
    covers c i /\ shift_of s b <= shift_of s c.
Proof using Type*. by apply (above_aux (Z.to_nat (shift_of s a - shift_of s b))). Qed.

(** Down along an index. *)
Lemma descend a i : covers a i -> shift_of s a <> 0 -> let e := slots_of s a (digit i (shift_of s a)) in
  e = 0 \/ exists c, T c /\ e = node_to_entry c /\ hangs s base a (digit i (shift_of s a)) c /\ covers c i.
Proof using Type*.
  intros [Ta Ca] Hz e. destruct (Z.eq_dec e 0) as [|Hne]; [by left|right].
  pose proof (shift_nonneg a Ta). pose proof (digit_range i (shift_of s a) ltac:(lia)) as Hd.
  pose proof (sh_slot _ _ _ Hs a _ Ta Hd Hne) as Hk. destruct (Z.eqb_spec (shift_of s a) 0); [done|].
  destruct Hk as (c & Tc & Hc & Hg). exists c. split_and!; [done..|]. split; [done|].
  rewrite (hg_shift _ _ _ _ _ Hg), (hg_base _ _ _ _ _ Hg), Ca.
  replace (shift_of s a - SH + SH) with (shift_of s a) by lia. symmetry. apply floor_digit. lia.
Qed.

Lemma head_node : radix_tree_is_internal_node (xa_head s) = true -> let r := entry_to_node (xa_head s) in
  T r /\ xa_head s = node_to_entry r /\ nd_parent (mem s r) = 0 /\ base r = 0 /\ nd_offset (mem s r) = 0.
Proof using Type*.
  intros Hi. destruct (sh_head _ _ _ Hs Hi) as (c & Tc & Hc & Hp). rewrite Hc, entry_to_node_entry by (by apply (sh_object _ _ _ Hs)).
  do 3 (split; [done|]). destruct (sh_parent _ _ _ Hs c Tc) as [(_ & _ & ?)|(Tp & _)]; [done|].
  rewrite Hp in Tp. apply (sh_object _ _ _ Hs) in Tp as [_ ?]. lia.
Qed.

(** The head is responsible for all indices up to the largest of the tree. *)
Lemma head_covers i : radix_tree_is_internal_node (xa_head s) = true -> 0 <= i <= node_maxindex s (entry_to_node (xa_head s)) ->
  covers (entry_to_node (xa_head s)) i.
Proof using Type*.
  intros Hi Hm. destruct (head_node Hi) as (Tr & _ & _ & Hb & _). split; [done|]. rewrite Hb. symmetry.
  pose proof (shift_nonneg _ Tr) as Hn. unfold node_maxindex in Hm. fold (shift_of s (entry_to_node (xa_head s))) in Hm.
  rewrite shift_maxindex_eq in Hm by done. pose proof map_shift_range.
  apply floor_unique; [lia|apply Z.mod_0_l; pose proof (pow2_pos (shift_of s (entry_to_node (xa_head s)) + SH)); lia|lia].
Qed.

Lemma up_to_head n : forall b i, (Z.to_nat (64 - shift_of s b) <= n)%nat -> covers b i -> covers (entry_to_node (xa_head s)) i.
Proof using Type*.
  induction n as [|n IH]; intros b i Hn Cb; [pose proof (shift_nonneg b (proj1 Cb)); lia|].
  destruct (sh_parent _ _ _ Hs b (proj1 Cb)) as [(_ & He & _)|(Tp & _)].
  - rewrite He, entry_to_node_entry; [done|]. apply (sh_object _ _ _ Hs), Cb.
  - assert (Eb : nd_parent (mem s b) <> 0) by (apply object_nonzero; by apply (sh_object _ _ _ Hs)).
    destruct (parent_facts b (proj1 Cb) Eb) as (_ & _ & _ & [Hg _ _ _] & _). destruct (parent_base b (proj1 Cb) Eb i Cb) as [Cp _].
    pose proof (shift_nonneg _ Tp). pose proof map_shift_range. apply (IH (nd_parent (mem s b))); [lia|done].
Qed.

Lemma covers_maxindex a i : covers a i -> is_u64 i -> radix_tree_is_internal_node (xa_head s) = true /\
  0 <= i <= node_maxindex s (entry_to_node (xa_head s)).
Proof using Type*.
  intros Ca Hi. destruct (sh_top _ _ _ Hs a (proj1 Ca)) as [Hh _]. split; [done|]. unfold is_u64 in Hi.
  apply (up_to_head _ a i (le_n _)) in Ca as [_ Cr]. destruct (head_node Hh) as (Tr & _ & _ & Hbr & _).
  set (r := entry_to_node (xa_head s)) in *. pose proof (shift_nonneg _ Tr).
  unfold node_maxindex. fold (shift_of s r). rewrite shift_maxindex_eq by done.
  pose proof map_shift_range. pose proof (floor_range i (shift_of s r + SH)). lia.
Qed.

(** No item is below an empty slot. *)
Lemma empty_below M a j i : contents s T base M -> covers a i -> shift_of s a <> 0 -> j = digit i (shift_of s a) ->
  slots_of s a j = 0 -> M i = 0.
Proof using Type*.
  intros Hc Ca Hz -> Hj. destruct (Z.eq_dec (M i) 0) as [|Hm]; [done|exfalso].
  apply (ct_cover _ _ _ _ Hc) in Hm. rewrite (proj1 (sh_top _ _ _ Hs a (proj1 Ca))) in Hm.
  destruct Hm as (b & Tb & Hb & Hbase). pose proof (shift_nonneg a (proj1 Ca)).
  destruct (above a b i) as (c & Tc & He & _); [lia|done|split; [done|by rewrite Hb]|].
  rewrite Hj in He. symmetry in He. by apply entry_nonzero in He; [|apply (sh_object _ _ _ Hs)].
Qed.

Lemma leaf_index a i : covers a i -> shift_of s a = 0 -> i = base a + digit i 0.
Proof using Type*.
  intros [_ Ca] Hz. rewrite Hz in Ca. pose proof (floor_digit i 0 ltac:(lia)) as Hd. unfold floor in Hd at 1.
  rewrite Z.pow_0_r, Z.mod_1_r in Hd. lia.
Qed.

Lemma leaf_item M a i : contents s T base M -> covers a i -> shift_of s a = 0 -> slots_of s a (digit i 0) = M i.
Proof using Type*.
  intros Hc Ca Hz. pose proof (digit_range i 0 ltac:(lia)). rewrite (ct_leaf _ _ _ _ Hc) by (done || apply Ca).
  by rewrite <- (leaf_index a i).
Qed.
End Tree.
End Invariant.
