(* ===== verification/RadixLookup.v ===== *)
(** * Radix tree: walks that change nothing *)

From S2P Require Import Prelude Gfp RadixTree RadixInv.

Section Lookup.
Context `{RadixSpec} `{KmemSpec}.
Context (s : radix_tree_root) (T : Z -> Prop) (base M : Z -> Z) (G : Z -> Z -> bool).
Context (Hs : shape s T base) (Hc : contents s T base M).

(** Where the walk for an index ends: at the head, at a leaf, or at an empty slot
    above. *)
Inductive place (i : Z) : Z -> slotref -> Prop :=
| place_head : radix_tree_is_internal_node (xa_head s) = false -> i = 0 -> xa_head s = M 0 -> place i 0 HeadSlot
| place_node p : covers s T base p i -> slots_of s p (digit i (shift_of s p)) = M i -> (M i <> 0 -> shift_of s p = 0) ->
    place i p (NodeSlot p (digit i (shift_of s p))).

Lemma descend_loop_stop fuel i parent node slot : radix_tree_is_internal_node node = false ->
  descend_loop (S fuel) s i parent node slot = Done (node, parent, slot).
Proof using Type. intros Hn. cbn [descend_loop]. by rewrite Hn. Qed.

Lemma descend_loop_ok fuel : forall a i parent slot, (Z.to_nat (shift_of s a) + 2 <= fuel)%nat -> covers s T base a i ->
  exists p slot', descend_loop fuel s i parent (node_to_entry a) slot = Done (M i, p, slot') /\ place i p slot'.
Proof using Type*.
  induction fuel as [|fuel IH]; intros a i parent slot Hf Ca; [lia|]. cbn [descend_loop].
  assert (Ho : is_object a) by (apply (sh_object _ _ _ Hs), Ca). rewrite entry_internal, entry_to_node_entry by done.
  unfold radix_tree_descend. fold (digit i (nd_shift (mem s a))). fold (shift_of s a). fold (slots_of s a).
  pose proof (shift_nonneg s T base Hs a (proj1 Ca)). pose proof retry_entry. destruct (Z.eqb_spec (shift_of s a) 0) as [Hz|Hz].
  - pose proof (leaf_item s T base Hs M a i Hc Ca Hz) as Hm. rewrite Hz, Hm.
    destruct (Z.eqb_spec (M i) RADIX_TREE_RETRY) as [Hr|Hr].
    + exfalso. pose proof (sh_slot _ _ _ Hs a (digit i 0) (proj1 Ca) (digit_range i 0 ltac:(lia))) as Hk.
      rewrite Hz, Hm, Hr in Hk. simpl in Hk. unfold RADIX_TREE_RETRY in Hk. rewrite retry_internal in Hk. discriminate Hk. lia.
    + eexists a, _. split; [done|]. rewrite <- Hz. by constructor; rewrite ?Hz.
  - destruct (descend s T base Hs a i Ca Hz) as [He|(c & Tc & He & Hg & Cc)].
    + rewrite He. destruct (Z.eqb_spec 0 RADIX_TREE_RETRY) as [Hr|_]; [unfold RADIX_TREE_RETRY in Hr; lia|].
      destruct fuel as [|fuel]; [lia|]. cbn [descend_loop]. rewrite null_not_internal.
      rewrite (empty_below s T base Hs M a _ i Hc Ca Hz eq_refl He). eexists a, _. split; [done|]. constructor; [done| |].
      * rewrite He. symmetry. by apply (empty_below s T base Hs M a _ i Hc Ca Hz eq_refl).
      * by rewrite (empty_below s T base Hs M a _ i Hc Ca Hz eq_refl He).
    + rewrite He. assert (Hoc : is_object c) by (by apply (sh_object _ _ _ Hs)).
      destruct (Z.eqb_spec (node_to_entry c) RADIX_TREE_RETRY) as [Hr|_]; [by apply entry_not_retry in Hr|].
      apply IH; [|done]. pose proof (hg_shift _ _ _ _ _ Hg). pose proof map_shift_range.
      pose proof (shift_nonneg s T base Hs c Tc). lia.
Qed.

(** [__radix_tree_lookup] returns, with the item and the place of the index. *)
Lemma lookup_place i : is_u64 i -> exists r, __radix_tree_lookup s i = Done (M i, r) /\
  match r with
  | Some (p, slot) => place i p slot
  | None => M i = 0
  end.
Proof using Type*.
  intros Hi. unfold __radix_tree_lookup, radix_tree_load_root. unfold is_u64 in Hi.
  destruct (radix_tree_is_internal_node (xa_head s)) eqn:Hh.
  - destruct (head_node s T base Hs Hh) as (Tr & He & _). destruct (Z.gtb_spec i (node_maxindex s (entry_to_node (xa_head s)))).
    + exists None. cut (M i = 0); [by intros ->|]. destruct (Z.eq_dec (M i) 0) as [|Hm]; [done|].
      apply (ct_cover _ _ _ _ Hc) in Hm. rewrite Hh in Hm. destruct Hm as (b & Tb & Hb & Hbase).
      destruct (covers_maxindex s T base Hs b i); [split; [done|by rewrite Hb]|done|lia].
    + destruct (descend_loop_ok turns (entry_to_node (xa_head s)) i 0 HeadSlot) as (p & slot & Hl & Hp).
      * pose proof (shift_nonneg s T base Hs _ Tr). destruct turns_S as (fuel & -> & ?). lia.
      * apply head_covers; [done|done|lia].
      * rewrite He, Hl. cbn [mbind outcome_bind]. by exists (Some (p, slot)).
  - destruct (Z.gtb_spec i 0).
    + exists None. cut (M i = 0); [by intros ->|]. destruct (Z.eq_dec (M i) 0) as [|Hm]; [done|].
      apply (ct_cover _ _ _ _ Hc) in Hm. rewrite Hh in Hm. lia.
    + assert (i = 0) as -> by lia. destruct turns_S as (fuel & -> & ?). rewrite descend_loop_stop by done. cbn [mbind outcome_bind].
      pose proof (ct_single _ _ _ _ Hc Hh) as Hm. rewrite Hm. exists (Some (0, HeadSlot)). split; [done|]. by constructor.
Qed.

(** The slot of a place holds the item. *)
Lemma place_load i p slot : place i p slot -> load_slot s slot = M i.
Proof using Type. by destruct 1 as [_ -> Hm|p Hp Hm _]. Qed.
End Lookup.
