(* ===== verification/RadixSteps.v ===== *)
(** * Radix tree: the steps all operations consist of

    Allocating a node, linking it below an empty slot, at the head or above the
    head, changing an item, unlinking an empty node and shrinking the tree by a
    level; each keeps the invariant, and only the change of an item changes the
    map. *)

From S2P Require Import Prelude Gfp RadixTree RadixInv.

Section Steps.
Context `{RadixSpec} `{KmemSpec}.
Abbreviation SH := RADIX_TREE_MAP_SHIFT.
Abbreviation SIZE := RADIX_TREE_MAP_SIZE.

(** ** Frames *)
Lemma hangs_eq s s' base base' a j c : shift_of s' a = shift_of s a -> shift_of s' c = shift_of s c ->
  nd_parent (mem s' c) = nd_parent (mem s c) -> nd_offset (mem s' c) = nd_offset (mem s c) -> base' a = base a -> base' c = base c ->
  hangs s base a j c -> hangs s' base' a j c.
Proof using Type. intros Ha Hc Hp Ho Hba Hbc [h1 h2 h3 h4]. split; congruence. Qed.

Lemma bits_eq s s' base base' G a : nd_tags (mem s' a) = nd_tags (mem s a) -> shift_of s' a = shift_of s a -> base' a = base a ->
  bits_ok s base G a -> bits_ok s' base' G a.
Proof using Type. intros Ht Hh Hb Hk. unfold bits_ok. by rewrite Ht, Hh, Hb. Qed.

Lemma chain_frame h h' l : forall a, (forall x, x ∈ l -> nd_parent (h' x) = nd_parent (h x)) -> chain h a l -> chain h' a l.
Proof using Type.
  induction l as [|x l IH]; intros a Hx; [done|]. intros [<- Hl]. split; [done|].
  rewrite Hx by apply list_elem_of_here. apply IH; [|done]. intros y Hy. apply Hx. by apply list_elem_of_further.
Qed.

(** The nodes of the tree, the head and the flags are the same. *)
Record same_tree (s s' : radix_tree_root) (T : Z -> Prop) : Prop := {
  st_mem a : T a -> mem s' a = mem s a;
  st_head : xa_head s' = xa_head s;
  st_flags : xa_flags s' = xa_flags s;
}.

Lemma head_elem s T base : shape s T base -> radix_tree_is_internal_node (xa_head s) = true -> T (entry_to_node (xa_head s)).
Proof using Type*. intros Hs Hi. by apply (head_node s T base Hs). Qed.

Lemma frame_shape s s' T base : same_tree s s' T -> shape s T base -> shape s' T base.
Proof using Type*.
  intros [Hm Hh Hf] Hs. assert (Hsh : forall a, T a -> shift_of s' a = shift_of s a) by (intros a Ha; unfold shift_of; by rewrite Hm).
  assert (Hsl : forall a, T a -> slots_of s' a = slots_of s a) by (intros a Ha; unfold slots_of; by rewrite Hm).
  split.
  - apply Hs.
  - intros a Ha. rewrite Hsh by done. by apply Hs.
  - intros a Ha. rewrite Hsh by done. by apply Hs.
  - intros a j Ha Hj Hn. rewrite Hsl in * by done. rewrite Hsh by done. pose proof (sh_slot _ _ _ Hs a j Ha Hj Hn) as Hk.
    destruct (shift_of s a =? 0); [done|]. destruct Hk as (c & Tc & He & Hg). exists c. split_and!; [done..|].
    apply (hangs_eq s s' base); rewrite ?Hm, ?Hsh by done; done.
  - intros a Ha p. subst p. rewrite Hm by done. destruct (sh_parent _ _ _ Hs a Ha) as [?|(Tp & Hp)]; [left; by rewrite Hh|right].
    by rewrite Hsl, Hsh by done.
  - rewrite Hh. intros Hi. destruct (sh_head _ _ _ Hs Hi) as (c & Tc & Hc). exists c. by rewrite Hm.
  - intros a Ha. rewrite Hh, Hsh by done. destruct (sh_top _ _ _ Hs a Ha) as [Hi Ht]. split; [done|]. rewrite Hsh; [done|].
    by apply (head_elem s T base).
  - intros a Ha. rewrite Hm, Hsl by done. by apply Hs.
  - intros a Ha. rewrite Hm, Hsl by done. by apply Hs.
Qed.

Lemma frame_contents s s' T base M : same_tree s s' T -> contents s T base M -> contents s' T base M.
Proof using Type*.
  intros [Hm Hh Hf] [c1 c2 c3]. split.
  - intros a j Ha. unfold shift_of, slots_of. rewrite Hm by done. by apply c1.
  - intros i Hi. rewrite Hh. specialize (c2 i Hi). destruct (radix_tree_is_internal_node _); [|done].
    destruct c2 as (a & Ta & Hz & Hb). exists a. unfold shift_of. by rewrite Hm.
  - by rewrite Hh.
Qed.

Lemma frame_tagged s s' T base G : same_tree s s' T -> shape s T base -> tagged s T base G -> tagged s' T base G.
Proof using Type*.
  intros [Hm Hh Hf] Hs [t1 t2 t3]. split.
  - intros a Ha. apply (bits_eq s s' base); unfold shift_of; rewrite ?Hm by done; auto.
  - intros t Ht. unfold root_tag_get, span in *. rewrite Hf, Hh. unfold shift_of.
    destruct (radix_tree_is_internal_node (xa_head s)) eqn:Hi; [rewrite Hm by (by apply (head_elem s T base))|]; by apply t2.
  - by rewrite Hf.
Qed.

(** ** Allocation *)

(** What an allocation needs from the slab cache or the pool. *)
Definition nonblocking (s : radix_tree_root) (gfp : Z) : bool := negb (gfpflags_allow_blocking gfp) && negb (in_interrupt s).

Definition fresh (s : radix_tree_root) (a parent shift offset count : Z) : Prop :=
  is_object a /\ nd_parent (mem s a) = parent /\ shift_of s a = shift /\ nd_offset (mem s a) = offset /\
  nd_count (mem s a) = count /\ nd_nr_values (mem s a) = 0 /\ clean (mem s a).

Lemma elem_3 (x : Z) (a b c : list Z) : x ∈ a ++ b ++ c <-> x ∈ a \/ x ∈ b \/ x ∈ c.
Proof using Type. by rewrite !elem_of_app. Qed.

Lemma alloc_mem_owned s s1 T pool a parent shift offset count : owned s1 T pool [a] -> clean (mem s1 a) -> is_object a ->
  mem s1 = mem s ->
  let s' := set_node s1 a (Node shift offset count 0 parent (nd_slots (mem s1 a)) (nd_tags (mem s1 a))) in
  owned s' T pool [a] /\ fresh s' a parent shift offset count.
Proof using Type.
  intros Ho Hcl Hobj Hm s'. assert (Ha : a ∉ pool).
  { pose proof (ow_nodup _ _ _ _ Ho) as Hnd. apply list.NoDup_app in Hnd as (_ & Hd & _). intros Hin.
    apply (Hd a Hin). rewrite elem_of_app. right. by apply list_elem_of_singleton. }
  split.
  - destruct Ho as [o1 o2 o3 o4 o5 o6 o7]. split; try done.
    + intros x Hx. specialize (o5 x Hx). simpl. destruct (Z.eq_dec x a) as [->|Hne]; [rewrite upd_same|by rewrite upd_other].
      apply Hcl.
    + apply (chain_frame (mem s1)); [|done]. intros x Hx. simpl. rewrite upd_other; [done|by intros ->].
  - unfold fresh, shift_of. simpl. rewrite upd_same. done.
Qed.

Lemma owned_take s T pool x : owned s T (x :: pool) [] ->
  owned (set_rtp s (rtp_nr s - 1) (nd_parent (mem s (rtp_nodes s)))) T pool [x] /\ x = rtp_nodes s /\ clean (mem s x) /\ is_object x.
Proof using Type.
  intros [o1 o2 o3 o4 o5 o6 o7]. destruct o6 as [-> o6]. set (x := rtp_nodes s) in *.
  assert (Hp : x :: pool ++ rcu s ≡ₚ pool ++ rcu s ++ [x]) by (rewrite app_assoc; apply Permutation_cons_append).
  rewrite app_nil_r in *. split; [|split_and!; [done|apply o5; right; apply list_elem_of_here|apply o2, o1; right; apply list_elem_of_here]].
  split; simpl.
  - intros a. by rewrite <- Hp.
  - done.
  - intros a Ha. rewrite <- Hp. by apply o3.
  - rewrite <- Hp. done.
  - intros a Ha. apply o5. destruct Ha; [by left|right; by apply list_elem_of_further].
  - done.
  - rewrite o7. simpl. lia.
Qed.

Lemma owned_alloc s T pool g a c : owned s T pool [] -> kmem_cache_alloc (node_cachep s) g = (a, c) ->
  (a = 0 /\ owned (set_cache s c) T pool []) \/ (owned (set_cache s c) T pool [a] /\ clean (mem s a) /\ is_object a).
Proof using Type.
  intros [o1 o2 o3 o4 o5 o6 o7] Ha. rewrite app_nil_r in *.
  apply kmem_alloc_ok in Ha as [[-> Hh]|(Hobj & Hn & Hh)]; [left|right].
  - split; [done|]. split; simpl; rewrite ?app_nil_r; try done.
    + intros x. by rewrite Hh.
    + intros x. rewrite Hh. apply o2.
    + intros x. rewrite Hh. apply o5.
  - assert (Hna : ~ T a /\ a ∉ pool ++ rcu s) by (rewrite o1 in Hn; tauto). split; [|split; [apply o5; by left|done]].
    assert (Hp : a :: pool ++ rcu s ≡ₚ pool ++ rcu s ++ [a]) by (rewrite app_assoc; apply Permutation_cons_append).
    split; simpl; try done.
    + intros x. rewrite Hh, <- Hp, elem_of_cons, o1. tauto.
    + intros x. rewrite Hh. intros [->|Hx]; [done|by apply o2].
    + intros x Hx. rewrite <- Hp, not_elem_of_cons. split; [intros ->; tauto|by apply o3].
    + rewrite <- Hp. constructor; tauto.
    + intros x Hx. apply o5. rewrite Hh in Hx. tauto.
Qed.

Lemma same_tree_out s s1 T a n : (forall x, T x -> x <> a) -> mem s1 = mem s -> xa_head s1 = xa_head s -> xa_flags s1 = xa_flags s ->
  same_tree s (set_node s1 a n) T.
Proof using Type.
  intros Ha Hm Hh Hf. split; [|done..]. intros x Hx. simpl. rewrite upd_other; [by rewrite Hm|by apply Ha].
Qed.

Lemma frame_tree s s' T base pool pool' F F' M G : same_tree s s' T -> tree s T base pool F M G -> owned s' T pool' F' ->
  tree s' T base pool' F' M G.
Proof using Type*.
  intros Hst [h1 h2 h3 _] Ho. split; [by apply (frame_shape s)|by apply (frame_contents s)|by apply (frame_tagged s)|done].
Qed.

Lemma alloc_none s s1 T base pool M G : tree s T base pool [] M G -> mem s1 = mem s -> xa_head s1 = xa_head s ->
  xa_flags s1 = xa_flags s -> owned s1 T pool [] -> same_tree s s1 T /\ tree s1 T base pool [] M G.
Proof using Type*.
  intros Ht Hm Hh Hf Ho. assert (Hst : same_tree s s1 T) by (split; [intros x _; by rewrite Hm|done..]). split; [done|].
  by apply (frame_tree s s1 T base pool pool []).
Qed.

Lemma alloc_some s s1 T base pool pool' M G a parent shift offset count : tree s T base pool [] M G ->
  owned s1 T pool' [a] -> clean (mem s1 a) -> is_object a -> mem s1 = mem s -> xa_head s1 = xa_head s -> xa_flags s1 = xa_flags s ->
  let s' := set_node s1 a (Node shift offset count 0 parent (nd_slots (mem s1 a)) (nd_tags (mem s1 a))) in
  same_tree s s' T /\ ~ T a /\ fresh s' a parent shift offset count /\ tree s' T base pool' [a] M G.
Proof using Type*.
  intros Ht Ho Hcl Hobj Hm Hh Hf s'. destruct (alloc_mem_owned s s1 T pool' a parent shift offset count) as [Ho' Hfr]; [done..|].
  assert (Ha : ~ T a).
  { intros Hx. apply (ow_apart _ _ _ _ Ho a Hx). rewrite elem_3. right. right. by apply list_elem_of_singleton. }
  assert (Hst : same_tree s s' T) by (apply same_tree_out; [by intros x Hx ->|done..]).
  split_and!; [done..|]. by apply (frame_tree s s' T base pool pool' []).
Qed.

(** [radix_tree_node_alloc] either has no memory and changes nothing, or returns a
    node that is not in use.  In a context that may use the pool it fails only if
    the pool is empty. *)
Lemma node_alloc_ok s T base pool M G gfp parent shift offset count : tree s T base pool [] M G ->
  exists a s' pool', radix_tree_node_alloc s gfp parent shift offset count 0 = Done (a, s') /\
    same_tree s s' T /\ in_interrupt s' = in_interrupt s /\ rcu s' = rcu s /\
    ((a = 0 /\ pool' = pool /\ tree s' T base pool [] M G /\ (nonblocking s gfp = true -> pool = [])) \/
     (~ T a /\ fresh s' a parent shift offset count /\ tree s' T base pool' [a] M G /\
      (length pool <= S (length pool'))%nat)).
Proof using Type*.
  intros Ht. pose proof (tr_owned _ _ _ _ _ _ _ Ht) as Ho. unfold radix_tree_node_alloc. fold (nonblocking s gfp).
  destruct (nonblocking s gfp) eqn:Hnb; destruct (kmem_cache_alloc _ _) as [a c] eqn:Ha;
    (destruct (owned_alloc s T pool _ a c Ho Ha) as [[-> Ho']|(Ho' & Hcl & Hobj)];
     [|rewrite ?(bool_of_true a) by (by apply object_nonzero); rewrite object_not_internal by done; cbn [BUG_ON mbind outcome_bind];
       rewrite ?(bool_of_true a) by (by apply object_nonzero);
       destruct (alloc_some s (set_cache s c) T base pool pool M G a parent shift offset count) as (? & ? & ? & ?); [done..|];
       eexists _, _, pool; split; [reflexivity|]; split_and!; [done..|right; split_and!; [done..|lia]]]).
  - change (bool_of 0) with false. cbn iota. destruct pool as [|x pool].
    + assert (rtp_nr (set_cache s c) = 0) as -> by apply (ow_nr _ _ _ _ Ho'). change (bool_of 0) with false. cbn iota.
      rewrite null_not_internal. cbn [BUG_ON mbind outcome_bind]. change (bool_of 0) with false. cbn iota.
      destruct (alloc_none s (set_cache s c) T base [] M G) as [? ?]; [done..|].
      exists 0, (set_cache s c), []. split_and!; try done. by left.
    + pose proof (ow_nr _ _ _ _ Ho') as Hnr. destruct (owned_take (set_cache s c) T pool x) as (Ho'' & -> & Hcl & Hobj); [done|].
      rewrite (bool_of_true (rtp_nr (set_cache s c))) by (rewrite Hnr; done).
      rewrite object_not_internal by done. cbn [BUG_ON mbind outcome_bind].
      rewrite (bool_of_true (rtp_nodes (set_cache s c))) by (by apply object_nonzero).
      destruct (alloc_some s _ T base (rtp_nodes (set_cache s c) :: pool) pool M G (rtp_nodes (set_cache s c)) parent shift offset count Ht Ho'')
        as (? & ? & ? & ?); [done..|].
      eexists _, _, pool. split; [reflexivity|]. split_and!; [done..|by right].
  - rewrite null_not_internal. cbn [BUG_ON mbind outcome_bind]. change (bool_of 0) with false. cbn iota.
    destruct (alloc_none s (set_cache s c) T base pool M G) as [? ?]; [done..|].
    exists 0, (set_cache s c), pool. split_and!; try done. by left.
Qed.

(** ** Changing slots

    A node [p] gets the entry [e] in slot [j], with the counts adjusted. *)
Definition put_slot (n : radix_tree_node) (j e : Z) : radix_tree_node :=
  Node (nd_shift n) (nd_offset n) (nd_count n - Z.b2z (bool_of (nd_slots n j)) + Z.b2z (bool_of e))
    (nd_nr_values n - Z.b2z (xa_is_value (nd_slots n j)) + Z.b2z (xa_is_value e)) (nd_parent n) (upd (nd_slots n) j e) (nd_tags n).

(** Nothing but slot [j] of [p] has changed in the nodes of the tree. *)
Record slot_change (s s' : radix_tree_root) (T : Z -> Prop) (p j e : Z) : Prop := {
  sc_node : mem s' p = put_slot (mem s p) j e;
  sc_mem a : T a -> a <> p -> mem s' a = mem s a;
  sc_head : xa_head s' = xa_head s;
  sc_flags : xa_flags s' = xa_flags s;
}.

Section Change.
Context (s s' : radix_tree_root) (T : Z -> Prop) (p j e : Z).
Context (Hch : slot_change s s' T p j e).

Lemma sc_shift a : T a -> shift_of s' a = shift_of s a.
Proof using Hch.
  intros Ha. unfold shift_of. destruct (Z.eq_dec a p) as [->|Hne]; [by rewrite (sc_node _ _ _ _ _ _ Hch)|by rewrite (sc_mem _ _ _ _ _ _ Hch)].
Qed.
Lemma sc_parent a : T a -> nd_parent (mem s' a) = nd_parent (mem s a).
Proof using Hch.
  intros Ha. destruct (Z.eq_dec a p) as [->|Hne]; [by rewrite (sc_node _ _ _ _ _ _ Hch)|by rewrite (sc_mem _ _ _ _ _ _ Hch)].
Qed.
Lemma sc_offset a : T a -> nd_offset (mem s' a) = nd_offset (mem s a).
Proof using Hch.
  intros Ha. destruct (Z.eq_dec a p) as [->|Hne]; [by rewrite (sc_node _ _ _ _ _ _ Hch)|by rewrite (sc_mem _ _ _ _ _ _ Hch)].
Qed.
Lemma sc_tags a : T a -> nd_tags (mem s' a) = nd_tags (mem s a).
Proof using Hch.
  intros Ha. destruct (Z.eq_dec a p) as [->|Hne]; [by rewrite (sc_node _ _ _ _ _ _ Hch)|by rewrite (sc_mem _ _ _ _ _ _ Hch)].
Qed.
Lemma sc_slots_other a : T a -> a <> p -> slots_of s' a = slots_of s a.
Proof using Hch. intros Ha Hne. unfold slots_of. by rewrite (sc_mem _ _ _ _ _ _ Hch). Qed.
Lemma sc_slots_same : slots_of s' p = upd (slots_of s p) j e.
Proof using Hch. unfold slots_of. by rewrite (sc_node _ _ _ _ _ _ Hch). Qed.
Lemma sc_slot a k : T a -> ~ (a = p /\ k = j) -> slots_of s' a k = slots_of s a k.
Proof using Hch.
  intros Ha Hne. destruct (Z.eq_dec a p) as [->|Hap]; [|by rewrite sc_slots_other].
  rewrite sc_slots_same. rewrite upd_other; [done|]. by intros ->; apply Hne.
Qed.
Lemma sc_hangs base base' a k c : T a -> T c -> base' a = base a -> base' c = base c -> hangs s base a k c -> hangs s' base' a k c.
Proof using Hch. intros Ha Hc Hba Hbc. apply hangs_eq; [by apply sc_shift|by apply sc_shift|by apply sc_parent|by apply sc_offset|done..]. Qed.

Lemma sc_tagged base G : shape s T base -> tagged s T base G -> tagged s' T base G.
Proof using All.
  intros Hs [t1 t2 t3]. split.
  - intros a Ha. apply (bits_eq s s' base); [by apply sc_tags|by apply sc_shift|done|by apply t1].
  - intros t Ht. unfold root_tag_get, span in *. rewrite (sc_flags _ _ _ _ _ _ Hch), (sc_head _ _ _ _ _ _ Hch).
    destruct (radix_tree_is_internal_node (xa_head s)) eqn:Hi; [rewrite sc_shift by (by apply (head_elem s T base))|]; by apply t2.
  - by rewrite (sc_flags _ _ _ _ _ _ Hch).
Qed.

Lemma sc_counts base : shape s T base -> T p -> 0 <= j < SIZE ->
  forall a, T a -> nd_count (mem s' a) = tally bool_of (slots_of s' a) /\ nd_nr_values (mem s' a) = tally xa_is_value (slots_of s' a).
Proof using All.
  intros Hs Hp Hj a Ha. destruct (Z.eq_dec a p) as [->|Hne].
  - rewrite sc_slots_same, !tally_upd by done. rewrite (sc_node _ _ _ _ _ _ Hch). cbn [put_slot nd_count nd_nr_values].
    by rewrite (sh_count _ _ _ Hs p Ha), (sh_values _ _ _ Hs p Ha).
  - rewrite sc_slots_other, (sc_mem _ _ _ _ _ _ Hch) by done. split; by apply Hs.
Qed.
End Change.

(** *** An item of a leaf *)
Lemma set_item_shape s s' T base a j e : shape s T base -> T a -> shift_of s a = 0 -> 0 <= j < SIZE ->
  radix_tree_is_internal_node e = false -> slot_change s s' T a j e -> shape s' T base.
Proof using Type*.
  intros Hs Ta Hz Hj He Hch. pose proof (sc_shift _ _ _ _ _ _ Hch) as Hsh. pose proof (sc_counts _ _ _ _ _ _ Hch base Hs Ta Hj) as Hct. split.
  - apply Hs.
  - intros x Hx. rewrite Hsh by done. by apply Hs.
  - intros x Hx. rewrite Hsh by done. by apply Hs.
  - intros x k Hx Hk Hn. rewrite Hsh by done. destruct (Z.eq_dec x a) as [->|Hne].
    + rewrite Hz. cbn. rewrite (sc_slots_same _ _ _ _ _ _ Hch) in *. unfold upd in *. destruct (Z.eqb_spec k j); [done|].
      pose proof (sh_slot _ _ _ Hs a k Ta Hk Hn) as Hkk. by rewrite Hz in Hkk.
    + rewrite (sc_slots_other _ _ _ _ _ _ Hch) in * by done. pose proof (sh_slot _ _ _ Hs x k Hx Hk Hn) as Hkk.
      destruct (shift_of s x =? 0); [done|]. destruct Hkk as (c & Tc & Hc & Hg). exists c. split_and!; [done..|].
      by apply (sc_hangs _ _ _ _ _ _ Hch base).
  - intros x Hx p. subst p. rewrite (sc_parent _ _ _ _ _ _ Hch), (sc_offset _ _ _ _ _ _ Hch), (sc_head _ _ _ _ _ _ Hch) by done.
    destruct (sh_parent _ _ _ Hs x Hx) as [?|(Tp & Hp & Ho & Hsl)]; [by left|right].
    rewrite Hsh by done. rewrite (sc_slots_other _ _ _ _ _ _ Hch); [done|done|by intros E; rewrite E in Hp].
  - rewrite (sc_head _ _ _ _ _ _ Hch). intros Hi. destruct (sh_head _ _ _ Hs Hi) as (c & Tc & Hc). exists c.
    by rewrite (sc_parent _ _ _ _ _ _ Hch).
  - intros x Hx. rewrite (sc_head _ _ _ _ _ _ Hch), Hsh by done. destruct (sh_top _ _ _ Hs x Hx) as [Hi Ht].
    split; [done|]. rewrite Hsh; [done|by apply (head_elem s T base)].
  - intros x Hx. by apply Hct.
  - intros x Hx. by apply Hct.
Qed.

Lemma set_item_contents s s' T base M a j e : shape s T base -> contents s T base M -> T a -> shift_of s a = 0 -> 0 <= j < SIZE ->
  slot_change s s' T a j e -> contents s' T base (upd M (base a + j) e).
Proof using Type*.
  intros Hs Hc Ta Hz Hj Hch. pose proof (sc_shift _ _ _ _ _ _ Hch) as Hsh.
  destruct (sh_base _ _ _ Hs a Ta) as [_ Hm]. rewrite Hz in Hm. cbn [Z.add] in Hm. pose proof map_shift_range.
  assert (Hfl : forall k, 0 <= k < SIZE -> floor (base a + k) SH = base a).
  { intros k Hk. apply floor_unique; [lia|done|]. rewrite <- size_pow. lia. }
  split.
  - intros b k Tb Hb Hk. rewrite Hsh in Hb by done. destruct (Z.eq_dec b a) as [->|Hne].
    + rewrite (sc_slots_same _ _ _ _ _ _ Hch). unfold upd. destruct (Z.eqb_spec k j) as [->|Hkj]; [by rewrite Z.eqb_refl|].
      destruct (Z.eqb_spec (base a + k) (base a + j)); [lia|]. by apply Hc.
    + rewrite (sc_slots_other _ _ _ _ _ _ Hch), upd_other; [by apply Hc|intros E|done..].
      destruct (sh_base _ _ _ Hs b Tb) as [_ Hmb]. rewrite Hb in Hmb. cbn [Z.add] in Hmb.
      apply Hne, (node_unique s T base Hs b a (base b + k)); [congruence|split; [done|]|split; [done|]].
      * rewrite Hb. symmetry. apply floor_unique; [lia|done|]. rewrite Z.add_0_l, <- size_pow. lia.
      * rewrite Hz, E. symmetry. by apply Hfl.
  - intros i Hi. rewrite (sc_head _ _ _ _ _ _ Hch). destruct (Z.eq_dec i (base a + j)) as [->|Hne].
    + rewrite (proj1 (sh_top _ _ _ Hs a Ta)). exists a. split_and!; [done|by rewrite Hsh|]. by rewrite Hfl.
    + rewrite upd_other in Hi by done. pose proof (ct_cover _ _ _ _ Hc i Hi) as Hk. destruct (radix_tree_is_internal_node _); [|done].
      destruct Hk as (b & Tb & Hb & Hbb). exists b. by rewrite Hsh.
  - rewrite (sc_head _ _ _ _ _ _ Hch). intros Hi. by rewrite (proj1 (sh_top _ _ _ Hs a Ta)) in Hi.
Qed.

(** *** The owners of nodes *)
Lemma owned_frame s s' T pool F : node_cachep s' = node_cachep s -> rcu s' = rcu s -> rtp_nr s' = rtp_nr s -> rtp_nodes s' = rtp_nodes s ->
  (forall x, ~ T x -> x ∉ F -> mem s' x = mem s x) -> owned s T pool F -> owned s' T pool F.
Proof using Type.
  intros Hc Hr Hn Ho Hm [o1 o2 o3 o4 o5 o6 o7].
  assert (Hp : forall x, x ∈ pool -> mem s' x = mem s x).
  { intros x Hx. apply Hm; [intros HT; apply (o3 x HT); by rewrite elem_of_app; left|].
    apply list.NoDup_app in o4 as (_ & Hd & _). specialize (Hd x Hx). rewrite elem_of_app in Hd. tauto. }
  split; rewrite ?Hc, ?Hr, ?Hn, ?Ho; try done.
  - intros a [Ha|Ha]; [|rewrite Hp by done; apply o5; by right]. rewrite Hm; [apply o5; by left|..];
      intros Hx; apply Ha, o1; [by left|right; rewrite elem_3; tauto].
  - apply (chain_frame (mem s)); [|done]. intros x Hx. by rewrite Hp.
Qed.

Lemma owned_link s T pool c F : owned s T pool (c :: F) -> owned s (fun x => T x \/ x = c) pool F.
Proof using Type.
  intros [o1 o2 o3 o4 o5 o6 o7]. assert (Hp : pool ++ rcu s ++ c :: F ≡ₚ c :: pool ++ rcu s ++ F).
  { rewrite !app_assoc. symmetry. apply Permutation_middle. }
  split; try done.
  - intros a. rewrite o1, Hp, elem_of_cons. tauto.
  - intros a [Ha| ->]; [specialize (o3 a Ha); rewrite Hp, not_elem_of_cons in o3; tauto|].
    rewrite Hp, list.NoDup_cons in o4. tauto.
  - rewrite Hp, list.NoDup_cons in o4. tauto.
Qed.

Lemma owned_unlink s T pool F a : owned s T pool F -> T a -> owned (radix_tree_node_free s a) (fun x => T x /\ x <> a) pool F.
Proof using Type.
  intros [o1 o2 o3 o4 o5 o6 o7] Ha. assert (Hp : pool ++ (rcu s ++ [a]) ++ F ≡ₚ a :: pool ++ rcu s ++ F).
  { rewrite <- (app_assoc (rcu s)). cbn [app]. rewrite !app_assoc. symmetry. apply Permutation_middle. }
  split; simpl; try done.
  - intros x. rewrite o1, Hp, elem_of_cons. destruct (Z.eq_dec x a); [subst; tauto|tauto].
  - intros x [Hx Hne]. rewrite Hp, not_elem_of_cons. split; [done|by apply o3].
  - rewrite Hp. constructor; [by apply o3|done].
Qed.

(** *** A change of an item *)
Lemma set_item_ok s s' T base pool F M G a j e : tree s T base pool F M G -> T a -> shift_of s a = 0 -> 0 <= j < SIZE ->
  radix_tree_is_internal_node e = false -> slot_change s s' T a j e -> owned s' T pool F ->
  tree s' T base pool F (upd M (base a + j) e) G.
Proof using Type*.
  intros [h1 h2 h3 h4] Ta Hz Hj He Hch Ho.
  split; [by apply (set_item_shape s s' T base a j e)|by apply (set_item_contents s)|by apply (sc_tagged s s' T a j e)|done].
Qed.

Lemma no_nodes s T base : shape s T base -> radix_tree_is_internal_node (xa_head s) = false -> forall a, ~ T a.
Proof using Type. intros Hs Hh a Ha. by rewrite (proj1 (sh_top _ _ _ Hs a Ha)) in Hh. Qed.

(** A tree without nodes. *)
Lemma head_only_tree s T base pool F M G : radix_tree_is_internal_node (xa_head s) = false -> (forall a, ~ T a) ->
  (forall i, i <> 0 -> M i = 0) -> xa_head s = M 0 ->
  (forall t, 0 <= t < RADIX_TREE_MAX_TAGS -> root_tag_get s t = G t 0) -> 0 <= xa_flags s < 2 ^ (ROOT_TAG_SHIFT + RADIX_TREE_MAX_TAGS) ->
  owned s T pool F -> tree s T base pool F M G.
Proof using Type.
  intros Hh HT HM HM0 HG Hf Ho. split; [| | |done].
  - split; try (intros a Ha; by apply HT in Ha); try (intros a j Ha; by apply HT in Ha). by rewrite Hh.
  - split; [intros a j Ha; by apply HT in Ha| |done].
    intros i Hi. rewrite Hh. destruct (Z.eq_dec i 0) as [|Hne]; [done|]. by rewrite HM in Hi.
  - split; [intros a Ha; by apply HT in Ha| |done]. intros t Ht. rewrite HG by done. unfold span. rewrite Hh. split.
    + intros Hg. exists 0. split; [lia|done].
    + intros (i & Hi & Hg). by assert (i = 0) as -> by lia.
Qed.

(** What a tree without nodes has. *)
Lemma head_only_facts s T base pool F M G : tree s T base pool F M G -> radix_tree_is_internal_node (xa_head s) = false ->
  (forall i, i <> 0 -> M i = 0) /\ xa_head s = M 0 /\ (forall t, 0 <= t < RADIX_TREE_MAX_TAGS -> root_tag_get s t = G t 0).
Proof using Type.
  intros [h1 h2 h3 h4] Hh. split_and!.
  - intros i Hi. destruct (Z.eq_dec (M i) 0) as [|Hm]; [done|]. apply (ct_cover _ _ _ _ h2) in Hm. by rewrite Hh in Hm.
  - by apply (ct_single _ _ _ _ h2).
  - intros t Ht. pose proof (tg_root _ _ _ _ h3 t Ht) as Hr. unfold span in Hr. rewrite Hh in Hr.
    destruct (root_tag_get s t), (G t 0) eqn:Hg; try done.
    + destruct (proj1 Hr eq_refl) as (i & Hi & Hgi). assert (i = 0) as -> by lia. congruence.
    + exfalso. assert (false = true); [apply Hr; exists 0; split; [lia|done]|done].
Qed.

Lemma set_head_item_ok s T base pool F M G e : tree s T base pool F M G -> radix_tree_is_internal_node (xa_head s) = false ->
  radix_tree_is_internal_node e = false -> tree (set_head s e) T base pool F (upd M 0 e) G.
Proof using Type.
  intros Ht Hh He. destruct (head_only_facts _ _ _ _ _ _ _ Ht Hh) as (H1' & H2' & H3'). destruct Ht as [h1 h2 h3 h4].
  apply head_only_tree; try done.
  - by apply (no_nodes s T base).
  - intros i Hi. rewrite upd_other by done. by apply H1'.
  - apply (tg_flags _ _ _ _ h3).
  - by apply (owned_frame s).
Qed.

(** ** Linking a new node *)

(** *** Below a node *)
Lemma link_shape s s' T base p j c : shape s T base -> T p -> shift_of s p <> 0 -> 0 <= j < SIZE -> slots_of s p j = 0 ->
  base p + j * 2 ^ shift_of s p < 2 ^ 64 -> ~ T c -> fresh s c p (shift_of s p - SH) j 0 ->
  slot_change s s' (fun x => T x \/ x = c) p j (node_to_entry c) ->
  shape s' (fun x => T x \/ x = c) (upd base c (base p + j * 2 ^ shift_of s p)).
Proof using Type*.
  intros Hs Tp Hz Hj Hj0 Hb64 Nc (Hobj & Hpar & Hshc & Hoff & Hcnt & Hval & Hcl & _) Hch.
  set (T' := fun x => T x \/ x = c) in *. set (base' := upd base c (base p + j * 2 ^ shift_of s p)).
  pose proof (sc_shift _ _ _ _ _ _ Hch) as Hsh.
  assert (Hne : forall x, T x -> x <> c) by (by intros x Hx ->).
  assert (Hb' : forall x, T x -> base' x = base x) by (intros x Hx; by apply upd_other, Hne).
  assert (Hbc : base' c = base p + j * 2 ^ shift_of s p) by apply upd_same.
  assert (Hmc : mem s' c = mem s c) by (apply (sc_mem _ _ _ _ _ _ Hch); [by right|by intros ->; apply Nc]).
  assert (HT : forall x, T x -> T' x) by (by left). assert (Tc : T' c) by (by right).
  pose proof (shift_nonneg s T base Hs p Tp) as Hnn. destruct (sh_shift _ _ _ Hs p Tp) as [_ Hmod].
  destruct (sh_base _ _ _ Hs p Tp) as [Hbp Hbm]. pose proof map_shift_range. pose proof (pow2_pos (shift_of s p) ltac:(lia)).
  assert (Hge : SH <= shift_of s p) by (pose proof (multiple_step 0 (shift_of s p) SH); rewrite Z.mod_0_l in *; lia).
  assert (Hlc : hangs s' base' p j c).
  { split; [rewrite !Hsh by auto; done|by rewrite Hmc|by rewrite Hmc|rewrite Hbc, Hb', Hsh by auto; done]. }
  assert (Hct : forall x, T' x -> nd_count (mem s' x) = tally bool_of (slots_of s' x) /\ nd_nr_values (mem s' x) = tally xa_is_value (slots_of s' x)).
  { intros x [Hx| ->]; [apply (sc_counts s s' T p j (node_to_entry c)) with base; auto|].
    - destruct Hch as [c1 c2 c3 c4]. split; auto.
    - rewrite Hmc, Hcnt, Hval. unfold slots_of. rewrite Hmc. rewrite (tally_zero bool_of), (tally_zero xa_is_value); [done|..];
        intros k _; rewrite Hcl; [by rewrite value_bits|done]. }
  split.
  - intros x [Hx| ->]; [by apply Hs|done].
  - intros x [Hx| ->]; rewrite Hsh by auto; [by apply Hs|]. rewrite Hshc. split; [lia|].
    rewrite Zminus_mod, Hmod, Z.mod_same by lia. apply Z.mod_0_l. lia.
  - intros x [Hx| ->]; [rewrite Hb', Hsh by auto; by apply Hs|]. rewrite Hbc, Hsh, Hshc by auto. split; [nia|].
    replace (shift_of s p - SH + SH) with (shift_of s p) by lia. apply child_mod; [lia|done].
  - intros x k [Hx| ->] Hk Hn.
    + rewrite Hsh by auto. destruct (decide (x = p /\ k = j)) as [[-> ->]|Hxk].
      * rewrite (sc_slots_same _ _ _ _ _ _ Hch), upd_same. destruct (Z.eqb_spec (shift_of s p) 0); [done|]. exists c. by split_and!.
      * rewrite (sc_slot _ _ _ _ _ _ Hch) in Hn |- * by (auto; tauto). pose proof (sh_slot _ _ _ Hs x k Hx Hk Hn) as Hkk.
        destruct (shift_of s x =? 0); [done|]. destruct Hkk as (d & Td & Hd & Hg). exists d. split_and!; [auto|done|].
        apply (sc_hangs _ _ _ _ _ _ Hch base); auto.
    + exfalso. apply Hn. unfold slots_of. rewrite Hmc. apply Hcl.
  - intros x [Hx| ->] q; subst q.
    + rewrite (sc_parent _ _ _ _ _ _ Hch), (sc_offset _ _ _ _ _ _ Hch), (sc_head _ _ _ _ _ _ Hch), Hb' by auto.
      destruct (sh_parent _ _ _ Hs x Hx) as [?|(Tq & Hq & Ho & Hsl)]; [by left|right]. rewrite Hsh by auto. split_and!; auto; try lia.
      rewrite (sc_slot _ _ _ _ _ _ Hch); [done|auto|]. intros [E1 E2].
      rewrite E1, E2, Hj0 in Hsl. symmetry in Hsl. apply entry_nonzero in Hsl; [done|by apply Hs].
    + right. rewrite Hmc, Hpar, Hoff, Hsh by auto. split_and!; auto; try lia. by rewrite (sc_slots_same _ _ _ _ _ _ Hch), upd_same.
  - rewrite (sc_head _ _ _ _ _ _ Hch). intros Hi. destruct (sh_head _ _ _ Hs Hi) as (d & Td & Hd & Hd0). exists d.
    rewrite (sc_parent _ _ _ _ _ _ Hch) by auto. auto.
  - intros x Hx. rewrite (sc_head _ _ _ _ _ _ Hch). pose proof (sh_top _ _ _ Hs p Tp) as [Hi Hpt].
    rewrite !Hsh by (auto; by apply HT, (head_elem s T base)). split; [done|]. destruct Hx as [Hx| ->]; [by apply Hs|]. rewrite Hshc. lia.
  - intros x Hx. by apply Hct.
  - intros x Hx. by apply Hct.
Qed.

(** The indices below a slot. *)
Lemma slot_range s T base p j i : shape s T base -> T p -> 0 <= j < SIZE ->
  base p + j * 2 ^ shift_of s p <= i < base p + (j + 1) * 2 ^ shift_of s p -> covers s T base p i /\ j = digit i (shift_of s p).
Proof using Type*.
  intros Hs Tp Hj Hi. destruct (sh_base _ _ _ Hs p Tp) as [_ Hm]. pose proof (shift_nonneg s T base Hs p Tp) as Hn. pose proof map_shift_range.
  pose proof (pow2_pos (shift_of s p) ltac:(lia)).
  assert (Hf : base p = floor i (shift_of s p + SH)).
  { symmetry. apply floor_unique; [lia|done|]. rewrite Z.pow_add_r, <- size_pow by lia. nia. }
  split; [by split|]. by apply (digit_unique (base p)); [lia|..].
Qed.

Lemma link_contents s s' T base M p j c : shape s T base -> contents s T base M -> T p -> shift_of s p <> 0 -> 0 <= j < SIZE ->
  slots_of s p j = 0 -> ~ T c -> fresh s c p (shift_of s p - SH) j 0 -> slot_change s s' (fun x => T x \/ x = c) p j (node_to_entry c) ->
  contents s' (fun x => T x \/ x = c) (upd base c (base p + j * 2 ^ shift_of s p)) M.
Proof using Type*.
  intros Hs Hc Tp Hz Hj Hj0 Nc (_ & _ & Hshc & _ & _ & _ & Hcl & _) Hch. pose proof (sc_shift _ _ _ _ _ _ Hch) as Hsh.
  assert (Hne : forall x, T x -> x <> c) by (by intros x Hx ->).
  assert (Hmc : mem s' c = mem s c) by (apply (sc_mem _ _ _ _ _ _ Hch); [by right|by intros ->; apply Nc]).
  pose proof (shift_nonneg s T base Hs p Tp) as Hn.
  split.
  - intros a k [Ha| ->] Hza Hk.
    + rewrite Hsh in Hza by auto. rewrite upd_other by auto. rewrite (sc_slot _ _ _ _ _ _ Hch); [by apply Hc|by left|by intros [-> _]].
    + rewrite upd_same. unfold slots_of. rewrite Hmc, Hcl. rewrite Hsh, Hshc in Hza by auto.
      destruct (slot_range s T base p j (base p + j * 2 ^ shift_of s p + k)) as [Cp Hd]; [done..| |].
      * replace (shift_of s p) with SH by lia. rewrite <- size_pow. lia.
      * symmetry. by apply (empty_below s T base Hs M p j).
  - intros i Hi. rewrite (sc_head _ _ _ _ _ _ Hch). pose proof (ct_cover _ _ _ _ Hc i Hi) as Hk. destruct (radix_tree_is_internal_node _); [|done].
    destruct Hk as (b & Tb & Hb & Hbb). exists b. rewrite Hsh, upd_other by auto. auto.
  - rewrite (sc_head _ _ _ _ _ _ Hch). apply Hc.
Qed.

Lemma link_tagged s s' T base G p j c : shape s T base -> tagged s T base G -> T p -> ~ T c ->
  slot_change s s' (fun x => T x \/ x = c) p j (node_to_entry c) ->
  let base' := upd base c (base p + j * 2 ^ shift_of s p) in bits_ok s base' G c -> tagged s' (fun x => T x \/ x = c) base' G.
Proof using Type*.
  intros Hs [t1 t2 t3] Tp Nc Hch base' Hb. pose proof (sc_shift _ _ _ _ _ _ Hch) as Hsh.
  assert (Hne : forall x, T x -> x <> c) by (by intros x Hx ->). split.
  - intros a [Ha| ->].
    + apply (bits_eq s s' base); [by apply (sc_tags _ _ _ _ _ _ Hch); left|by apply Hsh; left|by apply upd_other, Hne|by apply t1].
    + apply (bits_eq s s' base'); [by apply (sc_tags _ _ _ _ _ _ Hch); right|by apply Hsh; right|done|done].
  - intros t Ht. unfold root_tag_get, span in *. rewrite (sc_flags _ _ _ _ _ _ Hch), (sc_head _ _ _ _ _ _ Hch).
    destruct (radix_tree_is_internal_node (xa_head s)) eqn:Hi; [rewrite Hsh by (left; by apply (head_elem s T base))|]; by apply t2.
  - by rewrite (sc_flags _ _ _ _ _ _ Hch).
Qed.

Lemma link_ok s s' T base pool F M G p j c : tree s T base pool (c :: F) M G -> T p -> shift_of s p <> 0 -> 0 <= j < SIZE ->
  slots_of s p j = 0 -> base p + j * 2 ^ shift_of s p < 2 ^ 64 -> ~ T c -> fresh s c p (shift_of s p - SH) j 0 ->
  slot_change s s' (fun x => T x \/ x = c) p j (node_to_entry c) -> owned s' T pool (c :: F) ->
  let base' := upd base c (base p + j * 2 ^ shift_of s p) in bits_ok s base' G c ->
  tree s' (fun x => T x \/ x = c) base' pool F M G.
Proof using Type*.
  intros [h1 h2 h3 h4] Tp Hz Hj Hj0 Hb Nc Hf Hch Ho base' Hbits.
  split; [by apply (link_shape s)|by apply (link_contents s)|by apply (link_tagged s)|by apply owned_link].
Qed.

(** *** At the head *)
Lemma single_shape s c : is_object c -> xa_head s = node_to_entry c -> nd_parent (mem s c) = 0 -> nd_offset (mem s c) = 0 -> 0 <= shift_of s c < 64 ->
  shift_of s c mod SH = 0 -> nd_count (mem s c) = tally bool_of (slots_of s c) -> nd_nr_values (mem s c) = tally xa_is_value (slots_of s c) ->
  (forall j, 0 <= j < SIZE -> slots_of s c j <> 0 -> shift_of s c = 0 /\ radix_tree_is_internal_node (slots_of s c j) = false) ->
  forall base, shape s (fun x => x = c) (upd base c 0).
Proof using Type*.
  intros Ho Hh Hp Hof Hn Hm Hc Hv Hsl base. assert (Hi : radix_tree_is_internal_node (xa_head s) = true) by (rewrite Hh; by apply entry_internal).
  split.
  - by intros a ->.
  - by intros a ->.
  - intros a ->. rewrite upd_same. split; [lia|]. apply Z.mod_0_l. pose proof map_shift_range. pose proof (pow2_pos (shift_of s c + SH)). lia.
  - intros a j -> Hj Hne. destruct (Hsl j Hj Hne) as [-> ?]. done.
  - intros a -> p. left. by rewrite upd_same.
  - intros _. by exists c.
  - intros a ->. split; [done|]. rewrite Hh, entry_to_node_entry by done. lia.
  - by intros a ->.
  - by intros a ->.
Qed.

Lemma link_head_ok s T base pool F M G c n : tree s T base pool (c :: F) M G -> xa_head s = 0 -> 0 <= n < 64 -> n mod SH = 0 ->
  fresh s c 0 n 0 0 -> bits_ok s (upd base c 0) G c ->
  (forall t i, 0 <= t < RADIX_TREE_MAX_TAGS -> 0 <= i < 2 ^ (n + SH) -> G t i = G t 0) ->
  tree (set_head s (node_to_entry c)) (fun x => x = c) (upd base c 0) pool F M G.
Proof using Type*.
  intros Ht Hh Hn Hm (Hobj & Hp & Hsh & Hof & Hct & Hv & Hcl & _) Hb HG. pose proof map_shift_range.
  assert (Hi : radix_tree_is_internal_node (xa_head s) = false) by (rewrite Hh; apply null_not_internal).
  destruct (head_only_facts _ _ _ _ _ _ _ Ht Hi) as (M1 & M2 & M3). destruct Ht as [h1 h2 h3 h4].
  assert (HM : forall i, M i = 0). { intros i. destruct (Z.eq_dec i 0) as [->|]; [congruence|by apply M1]. }
  assert (Hcl' : forall j, slots_of (set_head s (node_to_entry c)) c j = 0) by apply Hcl.
  split.
  - apply single_shape; try done.
    + by change (shift_of (set_head s (node_to_entry c)) c) with (shift_of s c); rewrite Hsh.
    + by change (shift_of (set_head s (node_to_entry c)) c) with (shift_of s c); rewrite Hsh.
    + change (mem (set_head s (node_to_entry c)) c) with (mem s c). rewrite Hct, tally_zero; [done|]. intros j _. by rewrite Hcl'.
    + change (mem (set_head s (node_to_entry c)) c) with (mem s c). rewrite Hv, tally_zero; [done|]. intros j _. by rewrite Hcl', value_bits.
    + intros j _ Hj. by rewrite Hcl' in Hj.
  - split.
    + intros a j -> _ _. rewrite HM. apply Hcl'.
    + intros i Hi'. by rewrite HM in Hi'.
    + simpl. by rewrite entry_internal.
  - split.
    + intros a ->. by apply (bits_eq s (set_head s (node_to_entry c)) (upd base c 0)).
    + intros t Ht. change (root_tag_get (set_head s (node_to_entry c)) t) with (root_tag_get s t). rewrite M3 by done.
      unfold span. cbn [xa_head set_head]. rewrite entry_internal, entry_to_node_entry by done.
      change (shift_of (set_head s (node_to_entry c)) c) with (shift_of s c). rewrite Hsh. split.
      * intros Hg. exists 0. split; [pose proof (pow2_pos (n + SH)); lia|done].
      * intros (i & Hi' & Hg). by rewrite HG in Hg.
    + apply (tg_flags _ _ _ _ h3).
  - apply owned_link in h4. destruct h4 as [o1 o2 o3 o4 o5 o6 o7]. pose proof (no_nodes s T base h1 Hi) as HT. split; try done.
    + intros a. cbn [node_cachep set_head]. rewrite o1. specialize (HT a). tauto.
    + intros a ->. apply o3. by right.
Qed.

(** *** Above the head *)
Definition raise (s : radix_tree_root) (e c : Z) : radix_tree_root :=
  let s := if radix_tree_is_internal_node e
           then set_node s (entry_to_node e) (with_parent (mem s (entry_to_node e)) c)
           else if xa_is_value e then set_node s c (with_values (mem s c) 1) else s in
  set_head (set_node s c (with_slot (mem s c) 0 e)) (node_to_entry c).

(** A node as [radix_tree_extend] prepares it. *)
Record prepared (s : radix_tree_root) (c n : Z) : Prop := {
  pp_object : is_object c;
  pp_parent : nd_parent (mem s c) = 0;
  pp_shift : shift_of s c = n;
  pp_offset : nd_offset (mem s c) = 0;
  pp_count : nd_count (mem s c) = 1;
  pp_values : nd_nr_values (mem s c) = 0;
  pp_slots j : slots_of s c j = 0;
}.

Lemma tally_first P (f : Z -> Z) e : P 0 = false -> (forall j, f j = 0) -> tally P (upd f 0 e) = Z.b2z (P e).
Proof using Type*.
  intros HP Hf. pose proof size_range. rewrite tally_upd, tally_zero by (try lia; intros; by rewrite Hf). by rewrite Hf, HP; simpl; lia.
Qed.

Lemma value_null : xa_is_value 0 = false.
Proof using Type*. by rewrite value_bits. Qed.

Lemma root_node_tags s s' T base G c n : tagged s T base G -> shift_of s' c = n -> is_object c -> xa_head s' = node_to_entry c ->
  xa_flags s' = xa_flags s -> span s <= 2 ^ (n + SH) ->
  (forall t i, 0 <= t < RADIX_TREE_MAX_TAGS -> 0 <= i < 2 ^ (n + SH) -> G t i = true -> i < span s) ->
  forall t, 0 <= t < RADIX_TREE_MAX_TAGS -> root_tag_get s' t = true <-> exists i, 0 <= i < span s' /\ G t i = true.
Proof using Type*.
  intros [_ t2 _] Hsh Ho Hh Hf Hsp HG t Ht. assert (Hs' : span s' = 2 ^ (n + SH)).
  { unfold span. by rewrite Hh, entry_internal, entry_to_node_entry, Hsh by done. }
  unfold root_tag_get in *. rewrite Hf, t2, Hs' by done. split; intros (i & Hi & Hg); exists i; (split; [|done]).
  - lia.
  - specialize (HG t i Ht Hi Hg). lia.
Qed.

Lemma raise_item_ok s T base pool F M G c : tree s T base pool (c :: F) M G -> radix_tree_is_internal_node (xa_head s) = false ->
  xa_head s <> 0 -> prepared s c 0 -> bits_ok s (upd base c 0) G c ->
  (forall t i, 0 <= t < RADIX_TREE_MAX_TAGS -> 0 <= i < 2 ^ SH -> G t i = true -> i < span s) ->
  tree (raise s (xa_head s) c) (fun x => x = c) (upd base c 0) pool F M G.
Proof using Type*.
  intros Ht Hi Hne [Ho Hp Hsh Hof Hct Hv Hsl] Hb HG. destruct (head_only_facts _ _ _ _ _ _ _ Ht Hi) as (M1 & M2 & M3).
  pose proof (no_nodes s T base (tr_shape _ _ _ _ _ _ _ Ht) Hi) as HT. pose proof map_shift_range. pose proof size_range.
  set (e := xa_head s) in *. set (s' := raise s e c).
  assert (Hmem : mem s' c = Node 0 0 1 (Z.b2z (xa_is_value e)) 0 (upd (slots_of s c) 0 e) (nd_tags (mem s c))).
  { unfold s', raise. rewrite Hi. unfold shift_of in Hsh. destruct (xa_is_value e); simpl; rewrite !upd_same; unfold with_slot, with_values; cbn;
      by rewrite Hsh, Hof, Hct, Hp, ?Hv. }
  assert (Hout : forall x, x <> c -> mem s' x = mem s x).
  { intros x Hx. unfold s', raise. rewrite Hi. destruct (xa_is_value e); simpl; by rewrite !upd_other. }
  assert (Hsl' : forall j, slots_of s' c j = if j =? 0 then e else 0).
  { intros j. unfold slots_of. rewrite Hmem. cbn. unfold upd. destruct (j =? 0); [done|apply Hsl]. }
  assert (Hfr : node_cachep s' = node_cachep s /\ rcu s' = rcu s /\ rtp_nr s' = rtp_nr s /\ rtp_nodes s' = rtp_nodes s /\ xa_flags s' = xa_flags s).
  { unfold s', raise. rewrite Hi. by destruct (xa_is_value e). }
  destruct Hfr as (Hf1 & Hf2 & Hf3 & Hf4 & Hf5).
  assert (Hsh' : shift_of s' c = 0) by (unfold shift_of; by rewrite Hmem).
  split.
  - apply single_shape; try (by rewrite Hmem); rewrite ?Hsh'; try lia; try done.
    + rewrite Hmem. cbn [nd_count]. unfold slots_of. rewrite Hmem. cbn [nd_slots]. rewrite tally_first; [|done|done].
      by rewrite (bool_of_true e).
    + rewrite Hmem. cbn [nd_nr_values]. unfold slots_of. rewrite Hmem. cbn [nd_slots]. by rewrite tally_first by (apply value_null || done).
    + intros j Hj. rewrite Hsl'. by destruct (j =? 0).
  - split.
    + intros a j -> _ Hj. rewrite Hsl', upd_same. destruct (Z.eqb_spec j 0) as [->|Hj0]; [done|]. rewrite M1; [done|lia].
    + intros i Hi'. unfold s', raise. cbn [xa_head set_head]. rewrite entry_internal by done. exists c. split_and!; [done..|].
      rewrite upd_same. destruct (Z.eq_dec i 0) as [->|Hi0]; [|by rewrite M1 in Hi'].
      symmetry. apply floor_unique; [lia|apply Z.mod_0_l|]; pose proof (pow2_pos SH); lia.
    + unfold s', raise. cbn [xa_head set_head]. by rewrite entry_internal.
  - split.
    + intros a ->. apply (bits_eq s s' (upd base c 0)); [by rewrite Hmem|congruence|done|done].
    + apply (root_node_tags s s' T base G c 0 (tr_tagged _ _ _ _ _ _ _ Ht)); try done.
      unfold span. fold e. rewrite Hi. pose proof (pow2_pos (0 + SH)). lia.
    + rewrite Hf5. apply (tg_flags _ _ _ _ (tr_tagged _ _ _ _ _ _ _ Ht)).
  - pose proof (tr_owned _ _ _ _ _ _ _ Ht) as How.
    apply (owned_frame s s') in How; [|done..|intros x _ Hx; apply Hout; rewrite not_elem_of_cons in Hx; tauto].
    apply owned_link in How. destruct How as [o1 o2 o3 o4 o5 o6 o7]. split; try done.
    + intros a. rewrite o1. specialize (HT a). tauto.
    + intros a ->. apply o3. by right.
Qed.

(** The memory after raising a tree that has nodes. *)
Lemma raise_mem s r c : is_object r -> is_object c -> c <> r -> slots_of s c 0 = 0 -> let s' := raise s (node_to_entry r) c in
  mem s' r = with_parent (mem s r) c /\ mem s' c = with_slot (mem s c) 0 (node_to_entry r) /\ (forall x, x <> r -> x <> c -> mem s' x = mem s x).
Proof using Type*.
  intros Hr Hc Hne Hsl s'. unfold s', raise. rewrite entry_internal, entry_to_node_entry by done. cbn [mem set_head set_node set_mem].
  split_and!.
  - by rewrite upd_other, upd_same by done.
  - by rewrite upd_same, upd_other by done.
  - intros x Hx1 Hx2. by rewrite !upd_other by done.
Qed.

Lemma raise_shape s T base c : shape s T base -> radix_tree_is_internal_node (xa_head s) = true -> ~ T c ->
  let n := shift_of s (entry_to_node (xa_head s)) + SH in n < 64 -> prepared s c n ->
  shape (raise s (xa_head s) c) (fun x => T x \/ x = c) (upd base c 0).
Proof using Type*.
  intros Hs Hi Nc n Hn [Ho Hp Hsh Hof Hct Hv Hsl]. destruct (head_node s T base Hs Hi) as (Tr & He & Hpr & Hbr & Hor).
  set (r := entry_to_node (xa_head s)) in *. rewrite He. set (s' := raise s (node_to_entry r) c).
  assert (Hne : forall x, T x -> x <> c) by (by intros x Hx ->). assert (Hor' : is_object r) by (by apply Hs).
  destruct (raise_mem s r c) as (Mr & Mc & Mo); [done|done|by intros ->|done|]. fold s' in Mr, Mc, Mo.
  pose proof map_shift_range. pose proof (shift_nonneg s T base Hs r Tr) as Hnr. pose proof size_range.
  assert (HT : forall x, T x -> shift_of s' x = shift_of s x /\ slots_of s' x = slots_of s x /\ nd_offset (mem s' x) = nd_offset (mem s x) /\
    nd_count (mem s' x) = nd_count (mem s x) /\ nd_nr_values (mem s' x) = nd_nr_values (mem s x)).
  { intros x Hx. unfold shift_of, slots_of. destruct (Z.eq_dec x r) as [->|Hxr]; [by rewrite Mr|by rewrite Mo by auto]. }
  assert (HPar : forall x, T x -> x <> r -> nd_parent (mem s' x) = nd_parent (mem s x)) by (intros x Hx Hxr; by rewrite Mo by auto).
  assert (Hshc : shift_of s' c = n) by (unfold shift_of; by rewrite Mc).
  assert (Hslc : forall j, slots_of s' c j = if j =? 0 then node_to_entry r else 0).
  { intros j. unfold slots_of. rewrite Mc. cbn. unfold upd. destruct (j =? 0); [done|apply Hsl]. }
  assert (Hh' : xa_head s' = node_to_entry c) by (unfold s', raise; by rewrite entry_internal). split.
  - intros a [Ha| ->]; [by apply Hs|done].
  - intros a [Ha| ->]; [destruct (HT a Ha) as [-> _]; by apply Hs|]. rewrite Hshc. unfold n. split; [lia|].
    rewrite Zplus_mod, (proj2 (sh_shift _ _ _ Hs r Tr)), Z.mod_same by lia. apply Z.mod_0_l. lia.
  - intros a [Ha| ->]; [rewrite upd_other by auto; destruct (HT a Ha) as [-> _]; by apply Hs|]. rewrite upd_same. split; [lia|].
    apply Z.mod_0_l. rewrite Hshc. pose proof (pow2_pos (n + SH)). lia.
  - intros a j [Ha| ->] Hj Hnz.
    + destruct (HT a Ha) as (Es & El & _). rewrite Es. rewrite El in Hnz |- *. pose proof (sh_slot _ _ _ Hs a j Ha Hj Hnz) as Hk.
      destruct (Z.eqb_spec (shift_of s a) 0); [done|]. destruct Hk as (d & Td & Hd & Hg). exists d. split_and!; [by left|done|].
      destruct (HT d Td) as (Ed & _ & Eo & _). apply (hangs_eq s s' base); try done; [|by rewrite upd_other by auto..].
      apply HPar; [done|]. intros ->. pose proof (hg_parent _ _ _ _ _ Hg) as Hpp. rewrite Hpr in Hpp.
      by apply (object_nonzero a); [apply Hs|].
    + rewrite Hshc. destruct (Z.eqb_spec n 0) as [|_]; [lia|]. rewrite Hslc in Hnz |- *. destruct (Z.eqb_spec j 0) as [->|]; [|done].
      exists r. split_and!; [by left|done|]. destruct (HT r Tr) as (Er & _ & Eo & _). split.
      * rewrite Er, Hshc. unfold n. lia.
      * by rewrite Mr.
      * by rewrite Eo.
      * rewrite upd_same, upd_other by auto. rewrite Hbr. lia.
  - intros a [Ha| ->] p; subst p.
    + right. destruct (Z.eq_dec a r) as [->|Har].
      * rewrite Mr. cbn [with_parent nd_parent nd_offset]. rewrite Hor, Hshc, Hslc. split_and!; [by right|lia|lia|lia|done].
      * rewrite HPar by done. destruct (HT a Ha) as (_ & _ & Eo & _). rewrite Eo.
        destruct (sh_parent _ _ _ Hs a Ha) as [(_ & Hh & _)|(Tp & Hz & Hoo & Hk)].
        { exfalso. apply Har. apply entry_inj; [by apply Hs|done|congruence]. }
        destruct (HT _ Tp) as (Ep & El & _). rewrite Ep, El. split_and!; [by left|done|lia|lia|done].
    + left. rewrite Mc. cbn [with_slot nd_parent nd_offset]. by rewrite upd_same.
  - intros _. exists c. split_and!; [by right|done|by rewrite Mc].
  - intros a Ha. rewrite Hh', entry_internal, entry_to_node_entry, Hshc by done. split; [done|]. unfold n.
    destruct Ha as [Ha| ->]; [|rewrite Hshc; unfold n; lia]. destruct (HT a Ha) as [-> _]. destruct (sh_top _ _ _ Hs a Ha) as [_ Ht].
    fold r in Ht. lia.
  - intros a [Ha| ->]; [destruct (HT a Ha) as (_ & -> & _ & -> & _); by apply Hs|]. unfold slots_of. rewrite Mc. cbn [with_slot nd_count nd_slots].
    rewrite Hct, tally_first; [by rewrite (bool_of_true (node_to_entry r)) by (by apply entry_nonzero)|done|done].
  - intros a [Ha| ->]; [destruct (HT a Ha) as (_ & -> & _ & _ & ->); by apply Hs|]. unfold slots_of. rewrite Mc. cbn [with_slot nd_nr_values nd_slots].
    by rewrite Hv, tally_first, entry_not_value by (apply value_null || done).
Qed.

Lemma raise_node_ok s T base pool F M G c : tree s T base pool (c :: F) M G -> radix_tree_is_internal_node (xa_head s) = true -> ~ T c ->
  let n := shift_of s (entry_to_node (xa_head s)) + SH in n < 64 -> prepared s c n -> bits_ok s (upd base c 0) G c ->
  (forall t i, 0 <= t < RADIX_TREE_MAX_TAGS -> 0 <= i < 2 ^ (n + SH) -> G t i = true -> i < span s) ->
  tree (raise s (xa_head s) c) (fun x => T x \/ x = c) (upd base c 0) pool F M G.
Proof using Type*.
  intros [h1 h2 h3 h4] Hi Nc n Hn Hpp Hb HG. pose proof (raise_shape s T base c h1 Hi Nc Hn Hpp) as Hs'.
  destruct (head_node s T base h1 Hi) as (Tr & He & _). set (r := entry_to_node (xa_head s)) in *. rewrite He in *.
  destruct Hpp as [Ho Hp Hsh Hof Hct Hv Hsl]. set (s' := raise s (node_to_entry r) c) in *.
  assert (Hne : forall x, T x -> x <> c) by (by intros x Hx ->). assert (Hor : is_object r) by (by apply h1).
  destruct (raise_mem s r c) as (Mr & Mc & Mo); [done|done|by intros ->|done|]. fold s' in Mr, Mc, Mo.
  assert (HT : forall x, T x -> shift_of s' x = shift_of s x /\ slots_of s' x = slots_of s x /\ nd_tags (mem s' x) = nd_tags (mem s x)).
  { intros x Hx. unfold shift_of, slots_of. destruct (Z.eq_dec x r) as [->|Hxr]; [by rewrite Mr|by rewrite Mo by auto]. }
  assert (Hshc : shift_of s' c = n) by (unfold shift_of; by rewrite Mc). pose proof (shift_nonneg s T base h1 r Tr). pose proof map_shift_range.
  assert (Hh' : xa_head s' = node_to_entry c) by (unfold s', raise; by rewrite entry_internal).
  assert (Hfr : node_cachep s' = node_cachep s /\ rcu s' = rcu s /\ rtp_nr s' = rtp_nr s /\ rtp_nodes s' = rtp_nodes s /\ xa_flags s' = xa_flags s).
  { unfold s', raise. by rewrite entry_internal. }
  destruct Hfr as (Hf1 & Hf2 & Hf3 & Hf4 & Hf5). split; [done| | |].
  - split.
    + intros a j [Ha| ->] Hz Hj; [|rewrite Hshc in Hz; unfold n in Hz; lia]. destruct (HT a Ha) as (Es & El & _).
      rewrite El, upd_other by auto. apply h2; [done|congruence|done].
    + intros i Hm. rewrite Hh', entry_internal by done. pose proof (ct_cover _ _ _ _ h2 i Hm) as Hk. rewrite He, entry_internal in Hk by done.
      destruct Hk as (b & Tb & Hb' & Hbb). exists b. destruct (HT b Tb) as (-> & _). rewrite upd_other by auto. auto.
    + by rewrite Hh', entry_internal.
  - split.
    + intros a [Ha| ->]; [destruct (HT a Ha) as (Es & _ & Et); apply (bits_eq s s' base); try done; [by apply upd_other, Hne|by apply h3]|].
      apply (bits_eq s s' (upd base c 0)); [by rewrite Mc|congruence|done|done].
    + apply (root_node_tags s s' T base G c n h3); try done. unfold span. rewrite He, entry_internal, entry_to_node_entry by done.
      apply Z.pow_le_mono_r; unfold n; lia.
    + rewrite Hf5. apply (tg_flags _ _ _ _ h3).
  - apply owned_link, (owned_frame s); try done. intros x Nx Hx. rewrite not_elem_of_cons in Hx. apply Mo; [by intros ->|tauto].
Qed.

(** ** Unlinking *)

(** A node whose slots are all empty has no children. *)
Lemma no_children s T base a x : shape s T base -> T a -> (forall j, 0 <= j < SIZE -> slots_of s a j = 0) -> T x -> nd_parent (mem s x) <> a.
Proof using Type*.
  intros Hs Ta He Tx Hp. assert (Hne : nd_parent (mem s x) <> 0) by (rewrite Hp; apply object_nonzero; by apply Hs).
  destruct (parent_facts s T base Hs x Tx Hne) as (_ & Ho & Hsl & _). rewrite Hp, He in Hsl by done. symmetry in Hsl.
  by apply entry_nonzero in Hsl; [|apply Hs].
Qed.

(** The slot of the parent is cleared, and the node waits for the grace period. *)
Lemma unlink_shape s s' T base a : shape s T base -> T a -> let p := nd_parent (mem s a) in p <> 0 ->
  (forall j, 0 <= j < SIZE -> slots_of s a j = 0) -> slot_change s s' T p (nd_offset (mem s a)) 0 ->
  shape s' (fun x => T x /\ x <> a) base.
Proof using Type*.
  intros Hs Ta p Hp He Hch. destruct (parent_facts s T base Hs a Ta Hp) as (Tp & Hj & Hsl & Hg & Hz). fold p in Tp, Hsl, Hg, Hz.
  pose proof (sc_shift _ _ _ _ _ _ Hch) as Hsh. assert (Hpa : p <> a).
  { intros E. pose proof (hg_shift _ _ _ _ _ Hg) as Hx. rewrite E in Hx. pose proof map_shift_range. lia. }
  assert (Hct := sc_counts _ _ _ _ _ _ Hch base Hs Tp Hj).
  assert (Hra : xa_head s <> node_to_entry a).
  { intros E. assert (Hi : radix_tree_is_internal_node (xa_head s) = true) by (by apply (sh_top _ _ _ Hs a)).
    destruct (head_node s T base Hs Hi) as (_ & _ & Hp0 & _). rewrite E, entry_to_node_entry in Hp0 by (by apply Hs). done. }
  split.
  - intros x [Hx _]. by apply Hs.
  - intros x [Hx _]. rewrite Hsh by done. by apply Hs.
  - intros x [Hx _]. rewrite Hsh by done. by apply Hs.
  - intros x k [Hx Hxa] Hk Hn. rewrite Hsh by done. destruct (decide (x = p /\ k = nd_offset (mem s a))) as [[-> ->]|Hxk].
    + rewrite (sc_slots_same _ _ _ _ _ _ Hch), upd_same in Hn. done.
    + rewrite (sc_slot _ _ _ _ _ _ Hch) in Hn |- * by done. pose proof (sh_slot _ _ _ Hs x k Hx Hk Hn) as Hkk.
      destruct (shift_of s x =? 0); [done|]. destruct Hkk as (d & Td & Hd & Hgd). exists d. split_and!; [done| |done|].
      * intros ->. apply Hxk. split; [symmetry; apply (hg_parent _ _ _ _ _ Hgd)|symmetry; apply (hg_offset _ _ _ _ _ Hgd)].
      * by apply (sc_hangs _ _ _ _ _ _ Hch base).
  - intros x [Hx Hxa] q. subst q. rewrite (sc_parent _ _ _ _ _ _ Hch), (sc_offset _ _ _ _ _ _ Hch), (sc_head _ _ _ _ _ _ Hch) by done.
    destruct (sh_parent _ _ _ Hs x Hx) as [?|(Tq & Hq & Ho & Hsx)]; [by left|right]. rewrite Hsh by done.
    split_and!; [done|by apply (no_children s T base a)|done|lia|lia|].
    rewrite (sc_slot _ _ _ _ _ _ Hch); [done|done|]. intros [E1 E2]. rewrite E1, E2, Hsl in Hsx. apply entry_inj in Hsx; [done|by apply Hs..].
  - rewrite (sc_head _ _ _ _ _ _ Hch). intros Hi. destruct (sh_head _ _ _ Hs Hi) as (d & Td & Hd & Hd0). exists d.
    rewrite (sc_parent _ _ _ _ _ _ Hch) by done. split_and!; [done|by intros ->|done|done].
  - intros x [Hx _]. rewrite (sc_head _ _ _ _ _ _ Hch), Hsh by done. destruct (sh_top _ _ _ Hs x Hx) as [Hi Ht].
    split; [done|]. rewrite Hsh; [done|by apply (head_elem s T base)].
  - intros x [Hx _]. by apply Hct.
  - intros x [Hx _]. by apply Hct.
Qed.

Lemma unlink_contents s s' T base M a : shape s T base -> contents s T base M -> T a -> let p := nd_parent (mem s a) in p <> 0 ->
  (forall j, 0 <= j < SIZE -> slots_of s a j = 0) -> slot_change s s' T p (nd_offset (mem s a)) 0 ->
  contents s' (fun x => T x /\ x <> a) base M.
Proof using Type*.
  intros Hs Hc Ta p Hp He Hch. destruct (parent_facts s T base Hs a Ta Hp) as (Tp & Hj & Hsl & Hg & Hz). fold p in Tp, Hsl, Hg, Hz.
  pose proof (sc_shift _ _ _ _ _ _ Hch) as Hsh. split.
  - intros x k [Hx _] Hzx Hk. rewrite Hsh in Hzx by done. rewrite (sc_slot _ _ _ _ _ _ Hch); [by apply Hc|done|by intros [-> _]].
  - intros i Hi. rewrite (sc_head _ _ _ _ _ _ Hch). pose proof (ct_cover _ _ _ _ Hc i Hi) as Hk. destruct (radix_tree_is_internal_node _); [|done].
    destruct Hk as (b & Tb & Hb & Hbb). exists b. rewrite Hsh by done. split_and!; [done| |done|done]. intros ->.
    apply Hi. rewrite <- (leaf_item s T base Hs M a i Hc); [|by split; [|rewrite Hb]|done]. apply He, digit_range. lia.
  - rewrite (sc_head _ _ _ _ _ _ Hch). apply Hc.
Qed.

Lemma tagged_sub s T T' base G : (forall x, T' x -> T x) -> tagged s T base G -> tagged s T' base G.
Proof using Type. intros Hsub [t1 t2 t3]. split; [intros a Ha; by apply t1, Hsub|done|done]. Qed.

Lemma unlink_ok s s' T base pool M G a : tree s T base pool [] M G -> T a -> let p := nd_parent (mem s a) in p <> 0 ->
  (forall j, 0 <= j < SIZE -> slots_of s a j = 0) -> slot_change s s' T p (nd_offset (mem s a)) 0 -> owned s' T pool [] ->
  tree (radix_tree_node_free s' a) (fun x => T x /\ x <> a) base pool [] M G.
Proof using Type*.
  intros [h1 h2 h3 h4] Ta p Hp He Hch Ho. set (s'' := radix_tree_node_free s' a).
  assert (Hst : same_tree s' s'' (fun x => T x /\ x <> a)) by done.
  pose proof (unlink_shape s s' T base a h1 Ta Hp He Hch) as Hs'. pose proof (sc_tagged _ _ _ _ _ _ Hch base G h1 h3) as Ht'.
  split.
  - by apply (frame_shape s').
  - by apply (frame_contents s'), (unlink_contents s).
  - apply (frame_tagged s'); [done..|]. apply (tagged_sub s' T); [by intros x [? _]|done].
  - by apply owned_unlink.
Qed.

(** *** At the head *)
Lemma own_covers s T base x : shape s T base -> T x -> covers s T base x (base x).
Proof using Type*.
  intros Hs Tx. split; [done|]. destruct (sh_base _ _ _ Hs x Tx) as [_ Hm]. pose proof (shift_nonneg s T base Hs x Tx). pose proof map_shift_range.
  symmetry. apply floor_unique; [lia|done|]. pose proof (pow2_pos (shift_of s x + SH)). lia.
Qed.

(** Everything but the root is below a slot of the root. *)
Lemma below_root s T base a x : shape s T base -> T a -> nd_parent (mem s a) = 0 -> T x -> x <> a ->
  shift_of s a <> 0 /\ exists j, 0 <= j < SIZE /\ slots_of s a j <> 0 /\ base a + j * 2 ^ shift_of s a <= base x < base a + (j + 1) * 2 ^ shift_of s a.
Proof using Type*.
  intros Hs Ta Hp Tx Hne. assert (Ha : a = entry_to_node (xa_head s)).
  { destruct (sh_parent _ _ _ Hs a Ta) as [(_ & -> & _)|(Tp & _)]; [by rewrite entry_to_node_entry by (by apply Hs)|].
    rewrite Hp in Tp. apply Hs in Tp as [_ ?]. lia. }
  destruct (sh_top _ _ _ Hs x Tx) as [_ Ht]. rewrite <- Ha in Ht. pose proof (own_covers s T base x Hs Tx) as Cx.
  assert (Ca : covers s T base a (base x)) by (rewrite Ha; by apply (up_to_head s T base Hs _ x _ (le_n _))).
  destruct (Z.eq_dec (shift_of s x) (shift_of s a)) as [E|E]; [exfalso; by apply Hne, (node_unique s T base Hs x a (base x))|].
  pose proof (shift_nonneg s T base Hs x Tx). split; [lia|].
  destruct (above s T base Hs a x (base x)) as (c & Tc & Hc & _); [lia|done|done|].
  exists (digit (base x) (shift_of s a)). split; [apply digit_range; lia|]. split.
  - rewrite Hc. apply entry_nonzero. by apply Hs.
  - destruct Ca as [_ ->]. pose proof (floor_digit (base x) (shift_of s a)). pose proof (floor_range (base x) (shift_of s a)). lia.
Qed.

Lemma only_root s T base a x : shape s T base -> T a -> nd_parent (mem s a) = 0 -> (forall j, 0 <= j < SIZE -> slots_of s a j = 0) -> T x -> x = a.
Proof using Type*.
  intros Hs Ta Hp He Tx. destruct (Z.eq_dec x a) as [|Hne]; [done|exfalso].
  destruct (below_root s T base a x Hs Ta Hp Tx Hne) as (_ & j & Hj & Hn & _). by apply Hn, He.
Qed.

Lemma unlink_root_ok s s1 T base pool M G a : tree s T base pool [] M G -> T a -> nd_parent (mem s a) = 0 ->
  (forall j, 0 <= j < SIZE -> slots_of s a j = 0) -> same_tree s (set_flags s1 (xa_flags s)) T -> owned s1 T pool [] ->
  (forall t, 0 <= t < RADIX_TREE_MAX_TAGS -> root_tag_get s1 t = false) -> 0 <= xa_flags s1 < 2 ^ (ROOT_TAG_SHIFT + RADIX_TREE_MAX_TAGS) ->
  (forall t i, 0 <= t < RADIX_TREE_MAX_TAGS -> G t i = true -> M i <> 0) ->
  tree (radix_tree_node_free (set_head s1 0) a) (fun x => T x /\ x <> a) base pool [] M G /\ (forall i, M i = 0).
Proof using Type*.
  intros [h1 h2 h3 h4] Ta Hp He Hst Ho Hr Hf HG.
  assert (HM : forall i, M i = 0).
  { intros i. destruct (Z.eq_dec (M i) 0) as [|Hm]; [done|exfalso]. pose proof (ct_cover _ _ _ _ h2 i Hm) as Hk.
    rewrite (proj1 (sh_top _ _ _ h1 a Ta)) in Hk. destruct Hk as (b & Tb & Hb & Hbb).
    assert (b = a) as -> by (by apply (only_root s T base)).
    apply Hm. rewrite <- (leaf_item s T base h1 M a i h2); [apply He, digit_range; lia|by split; [|rewrite Hb]|done]. }
  split; [|done]. apply head_only_tree; try done.
  - apply null_not_internal.
  - intros x [Hx Hxa]. by apply Hxa, (only_root s T base).
  - intros t Ht. change (root_tag_get s1 t = G t 0). rewrite Hr by done. destruct (G t 0) eqn:Hg; [|done]. exfalso. by apply (HG t 0 Ht Hg), HM.
  - apply owned_unlink; [|done]. by apply (owned_frame s1).
Qed.

(** ** Shrinking by a level *)
Definition lower (s : radix_tree_root) (r child : Z) : radix_tree_root :=
  let s := if radix_tree_is_internal_node child
           then set_node s (entry_to_node child) (with_parent (mem s (entry_to_node child)) 0) else s in
  let s := set_head s child in
  let s := set_node s r (with_count (mem s r) 0) in
  let s := if negb (radix_tree_is_internal_node child) then set_node s r (with_slot (mem s r) 0 RADIX_TREE_RETRY) else s in
  radix_tree_node_free s r.

Section Lower.
Context (s : radix_tree_root) (T : Z -> Prop) (base : Z -> Z) (pool : list Z) (M : Z -> Z) (G : Z -> Z -> bool).
Context (Htr : tree s T base pool [] M G).
Context (Hi : radix_tree_is_internal_node (xa_head s) = true).
Let r := entry_to_node (xa_head s).
Context (Hone : nd_count (mem s r) = 1) (Hch : slots_of s r 0 <> 0).

Lemma root_facts : T r /\ xa_head s = node_to_entry r /\ nd_parent (mem s r) = 0 /\ base r = 0 /\ nd_offset (mem s r) = 0.
Proof using All. apply (head_node s T base); [apply Htr|done]. Qed.

Lemma other_slots j : 0 < j < SIZE -> slots_of s r j = 0.
Proof using All.
  intros Hj. destruct root_facts as (Tr & _). pose proof (sh_count _ _ _ (tr_shape _ _ _ _ _ _ _ Htr) r Tr) as Hc. rewrite Hone in Hc.
  pose proof (tally_one bool_of (slots_of s r) j (eq_sym Hc) (bool_of_true _ Hch) Hj) as Hb.
  unfold bool_of in Hb. by apply negb_false_iff, Z.eqb_eq in Hb.
Qed.

Lemma lower_owned : owned (lower s r (slots_of s r 0)) (fun x => T x /\ x <> r) pool [].
Proof using All.
  destruct root_facts as (Tr & _). pose proof (tr_shape _ _ _ _ _ _ _ Htr) as Hs. pose proof size_range.
  unfold lower. apply owned_unlink; [|done].
  assert (Hc : radix_tree_is_internal_node (slots_of s r 0) = true -> T (entry_to_node (slots_of s r 0))).
  { intros Hn. pose proof (sh_slot _ _ _ Hs r 0 Tr ltac:(lia) Hch) as Hk. destruct (shift_of s r =? 0); [congruence|].
    destruct Hk as (c & Tc & -> & _). rewrite entry_to_node_entry; [done|by apply Hs]. }
  apply (owned_frame s); [try by destruct (radix_tree_is_internal_node (slots_of s r 0)).. |apply Htr].
  intros x Hx _. destruct (radix_tree_is_internal_node (slots_of s r 0)); simpl.
  - rewrite !upd_other; [done|by intros ->; apply Hx, Hc|by intros ->].
  - by rewrite !upd_other by (by intros ->).
Qed.

Lemma lower_item_ok : radix_tree_is_internal_node (slots_of s r 0) = false ->
  (forall t i, 0 <= t < RADIX_TREE_MAX_TAGS -> G t i = true -> M i <> 0) ->
  tree (lower s r (slots_of s r 0)) (fun x => T x /\ x <> r) base pool [] M G.
Proof using All.
  intros Hn HG. destruct root_facts as (Tr & He & Hp & Hb & _). pose proof lower_owned as How. destruct Htr as [h1 h2 h3 h4]. pose proof size_range.
  assert (Hz : shift_of s r = 0).
  { pose proof (sh_slot _ _ _ h1 r 0 Tr ltac:(lia) Hch) as Hk. destruct (Z.eqb_spec (shift_of s r) 0); [done|].
    destruct Hk as (c & Tc & Hc & _). rewrite Hc, entry_internal in Hn; [done|by apply h1]. }
  assert (HM : forall i, i <> 0 -> M i = 0).
  { intros i Hi0. destruct (Z.eq_dec (M i) 0) as [|Hm]; [done|exfalso]. pose proof (ct_cover _ _ _ _ h2 i Hm) as Hk.
    rewrite Hi in Hk. destruct Hk as (b & Tb & Hbz & Hbb). assert (b = r) as ->.
    { destruct (Z.eq_dec b r) as [|Hbr]; [done|]. by destruct (below_root s T base r b h1 Tr Hp Tb Hbr) as [? _]. }
    pose proof (floor_range i SH). pose proof map_shift_range. rewrite size_pow in *.
    apply Hm. pose proof (ct_leaf _ _ _ _ h2 r i Tr Hz) as Hl. rewrite Hb in *. rewrite size_pow in Hl. rewrite Z.add_0_l in Hl.
    rewrite <- Hl by lia. apply other_slots. rewrite size_pow. lia. }
  assert (Hh : xa_head (lower s r (slots_of s r 0)) = slots_of s r 0) by (unfold lower; by rewrite Hn).
  assert (Hf : xa_flags (lower s r (slots_of s r 0)) = xa_flags s) by (unfold lower; by rewrite Hn).
  assert (HM0 : slots_of s r 0 = M 0) by (rewrite (ct_leaf _ _ _ _ h2 r 0 Tr Hz) by lia; by rewrite Hb).
  apply head_only_tree; try done.
  - by rewrite Hh.
  - intros x [Hx Hxr]. by destruct (below_root s T base r x h1 Tr Hp Hx Hxr) as [? _].
  - by rewrite Hh.
  - intros t Ht. unfold root_tag_get. rewrite Hf. fold (root_tag_get s t). pose proof (tg_root _ _ _ _ h3 t Ht) as Hr.
    destruct (root_tag_get s t), (G t 0) eqn:Hg; try done.
    + destruct (proj1 Hr eq_refl) as (i & _ & Hgi). destruct (Z.eq_dec i 0) as [->|Hi0]; [congruence|].
      exfalso. by apply (HG t i Ht Hgi), HM.
    + exfalso. assert (false = true); [apply Hr; exists 0|done]. split; [|done]. unfold span. rewrite Hi.
      fold r. rewrite Hz. pose proof (pow2_pos (0 + SH)). pose proof map_shift_range. lia.
  - rewrite Hf. apply (tg_flags _ _ _ _ h3).
Qed.

(** The child becomes the root. *)
Context (Hn : radix_tree_is_internal_node (slots_of s r 0) = true).
Let c := entry_to_node (slots_of s r 0).
Let s' := lower s r (slots_of s r 0).

Lemma only_child : T c /\ slots_of s r 0 = node_to_entry c /\ hangs s base r 0 c /\ shift_of s r <> 0 /\ c <> r.
Proof using All.
  destruct root_facts as (Tr & _). pose proof (tr_shape _ _ _ _ _ _ _ Htr) as Hs. pose proof size_range.
  pose proof (sh_slot _ _ _ Hs r 0 Tr ltac:(lia) Hch) as Hk. destruct (Z.eqb_spec (shift_of s r) 0); [congruence|].
  destruct Hk as (d & Td & Hd & Hg). unfold c. rewrite Hd, entry_to_node_entry by (by apply Hs). split_and!; [done..|].
  intros ->. pose proof (hg_shift _ _ _ _ _ Hg). pose proof map_shift_range. lia.
Qed.

Lemma lower_mem : mem s' c = with_parent (mem s c) 0 /\ (forall x, x <> c -> x <> r -> mem s' x = mem s x) /\
  xa_head s' = node_to_entry c /\ xa_flags s' = xa_flags s.
Proof using All.
  destruct only_child as (_ & He & _ & _ & Hcr). unfold s', lower. rewrite Hn. fold c. simpl. split_and!.
  - by rewrite upd_other, upd_same by done.
  - intros x Hx1 Hx2. by rewrite !upd_other by done.
  - done.
  - done.
Qed.

(** No node but the child hangs below the root. *)
Lemma lower_parent x : T x -> x <> r -> x <> c -> nd_parent (mem s x) <> r /\ nd_parent (mem s x) <> 0.
Proof using All.
  intros Tx Hxr Hxc. pose proof (tr_shape _ _ _ _ _ _ _ Htr) as Hs. destruct root_facts as (Tr & He & _).
  destruct only_child as (Tc & Hec & Hg & _).
  assert (Hp0 : nd_parent (mem s x) <> 0).
  { destruct (sh_parent _ _ _ Hs x Tx) as [(_ & Hh & _)|(Tp & _)]; [|by apply object_nonzero, Hs].
    exfalso. apply Hxr, entry_inj; [by apply Hs|by apply Hs|congruence]. }
  split; [|done]. intros Hp. destruct (parent_facts s T base Hs x Tx Hp0) as (_ & Ho & Hsl & _). rewrite Hp in Hsl.
  destruct (Z.eq_dec (nd_offset (mem s x)) 0) as [E|E].
  - rewrite E, Hec in Hsl. apply entry_inj in Hsl; [by apply Hxc|by apply Hs..].
  - rewrite other_slots in Hsl by lia. symmetry in Hsl. by apply entry_nonzero in Hsl; [|apply Hs].
Qed.

Lemma lower_shape : shape s' (fun x => T x /\ x <> r) base.
Proof using All.
  pose proof (tr_shape _ _ _ _ _ _ _ Htr) as Hs. destruct root_facts as (Tr & Her & Hpr & Hbr & _).
  destruct only_child as (Tc & Hec & Hg & Hz & Hcr). destruct lower_mem as (Mc & Mo & Hh & _).
  assert (HT : forall x, T x -> x <> r -> shift_of s' x = shift_of s x /\ slots_of s' x = slots_of s x /\ nd_offset (mem s' x) = nd_offset (mem s x) /\
    nd_count (mem s' x) = nd_count (mem s x) /\ nd_nr_values (mem s' x) = nd_nr_values (mem s x)).
  { intros x Hx Hxr. unfold shift_of, slots_of. destruct (Z.eq_dec x c) as [->|Hxc]; [by rewrite Mc|by rewrite Mo]. }
  assert (Hoc : is_object c) by (by apply Hs). split.
  - intros x [Hx _]. by apply Hs.
  - intros x [Hx Hxr]. destruct (HT x Hx Hxr) as [-> _]. by apply Hs.
  - intros x [Hx Hxr]. destruct (HT x Hx Hxr) as [-> _]. by apply Hs.
  - intros x j [Hx Hxr] Hj Hnz. destruct (HT x Hx Hxr) as (Es & El & _). rewrite Es. rewrite El in Hnz |- *.
    pose proof (sh_slot _ _ _ Hs x j Hx Hj Hnz) as Hk. destruct (Z.eqb_spec (shift_of s x) 0); [done|].
    destruct Hk as (d & Td & Hd & Hgd). pose proof (hg_parent _ _ _ _ _ Hgd) as Hpd.
    assert (d <> r) by (intros ->; rewrite Hpr in Hpd; by apply (object_nonzero x); [apply Hs|]).
    assert (d <> c) by (intros ->; rewrite (hg_parent _ _ _ _ _ Hg) in Hpd; congruence).
    destruct (HT d Td) as (Ed & _ & Eo & _); [done|]. exists d. split_and!; [done..|].
    apply (hangs_eq s s' base); try done. by rewrite Mo.
  - intros x [Hx Hxr] q. subst q. destruct (HT x Hx Hxr) as (_ & _ & Eo & _). rewrite Eo.
    destruct (Z.eq_dec x c) as [->|Hxc].
    + left. rewrite Mc. cbn [with_parent nd_parent]. split_and!; [done|done| |apply (hg_offset _ _ _ _ _ Hg)].
      rewrite (hg_base _ _ _ _ _ Hg), Hbr. lia.
    + right. destruct (lower_parent x Hx Hxr Hxc) as [Hpn Hp0]. rewrite Mo by done.
      destruct (sh_parent _ _ _ Hs x Hx) as [[? _]|(Tp & Hzp & Ho & Hsl)]; [done|].
      destruct (HT _ Tp Hpn) as (-> & -> & _). done.
  - intros _. exists c. split_and!; [done..|by rewrite Mc].
  - intros x [Hx Hxr]. rewrite Hh, entry_internal, entry_to_node_entry by done. split; [done|].
    destruct (HT x Hx Hxr) as [-> _]. destruct (HT c Tc Hcr) as [-> _].
    destruct (Z.eq_dec (shift_of s x) (shift_of s r)) as [E|E]; [exfalso; apply Hxr; symmetry; by apply (root_unique s T base Hs)|].
    destruct (sh_top _ _ _ Hs x Hx) as [_ Ht]. fold r in Ht. pose proof (shift_step s T base Hs x r Hx Tr).
    pose proof (hg_shift _ _ _ _ _ Hg). lia.
  - intros x [Hx Hxr]. destruct (HT x Hx Hxr) as (_ & -> & _ & -> & _). by apply Hs.
  - intros x [Hx Hxr]. destruct (HT x Hx Hxr) as (_ & -> & _ & _ & ->). by apply Hs.
Qed.

Lemma lower_node_ok : (forall t i, 0 <= t < RADIX_TREE_MAX_TAGS -> G t i = true -> M i <> 0) ->
  tree s' (fun x => T x /\ x <> r) base pool [] M G.
Proof using All.
  intros HG. pose proof lower_shape as Hs'. pose proof lower_owned as How. fold s' in How.
  destruct root_facts as (Tr & Her & Hpr & Hbr & _). destruct only_child as (Tc & Hec & Hg & Hz & Hcr).
  destruct lower_mem as (Mc & Mo & Hh & Hf). destruct Htr as [h1 h2 h3 h4].
  assert (HT : forall x, T x -> x <> r -> shift_of s' x = shift_of s x /\ slots_of s' x = slots_of s x /\ nd_tags (mem s' x) = nd_tags (mem s x)).
  { intros x Hx Hxr. unfold shift_of, slots_of. destruct (Z.eq_dec x c) as [->|Hxc]; [by rewrite Mc|by rewrite Mo]. }
  assert (Hoc : is_object c) by (by apply h1).
  assert (Hcov : forall i, M i <> 0 -> exists a, (T a /\ a <> r) /\ shift_of s' a = 0 /\ base a = floor i SH).
  { intros i Hm. pose proof (ct_cover _ _ _ _ h2 i Hm) as Hk. rewrite Hi in Hk. destruct Hk as (b & Tb & Hb & Hbb).
    assert (b <> r) by (intros ->; done). exists b. by destruct (HT b Tb) as (-> & _). }
  split; [done| | |done].
  - split.
    + intros a j [Ha Har] Hza Hj. destruct (HT a Ha Har) as (Es & El & _). rewrite El. apply h2; [done|congruence|done].
    + intros i Hm. rewrite Hh, entry_internal by done. by apply Hcov.
    + by rewrite Hh, entry_internal.
  - split.
    + intros a [Ha Har]. destruct (HT a Ha Har) as (Es & _ & Et). apply (bits_eq s s' base); try done. by apply h3.
    + intros t Ht. unfold root_tag_get. rewrite Hf. fold (root_tag_get s t). rewrite (tg_root _ _ _ _ h3 t Ht).
      assert (Hsp : span s' <= span s).
      { unfold span. rewrite Hi, Hh, entry_internal, entry_to_node_entry by done. destruct (HT c Tc Hcr) as [-> _].
        apply Z.pow_le_mono_r; [lia|]. pose proof (hg_shift _ _ _ _ _ Hg). fold r. pose proof map_shift_range. lia. }
      split; intros (i & Hir & Hgi); exists i; (split; [|done]); [|lia].
      destruct (Hcov i (HG t i Ht Hgi)) as (b & Tb & Hb & Hbb).
      assert (Cb : covers s' (fun x => T x /\ x <> r) base b i) by (split; [done|by rewrite Hb]).
      apply (up_to_head _ _ _ Hs' _ b i (le_n _)) in Cb as [Cb1 Cb2]. unfold span. rewrite Hh, entry_internal in * by done.
      rewrite entry_to_node_entry in * by done. rewrite (hg_base _ _ _ _ _ Hg), Hbr in Cb2.
      pose proof (floor_range i (shift_of s' c + SH)). pose proof (shift_nonneg s' _ base Hs' c Cb1). pose proof map_shift_range. lia.
    + rewrite Hf. apply (tg_flags _ _ _ _ h3).
Qed.
End Lower.
End Steps.
