(* ===== verification/RadixInsert.v ===== *)
(** * Radix tree: insertion

    Making the tree high enough, creating the path to an index, and inserting an
    item; how many nodes that takes. *)

From S2P Require Import Prelude Gfp RadixTree RadixInv RadixLookup RadixSteps.

Section Insert.
Context `{RadixSpec} `{KmemSpec}.
Abbreviation SH := RADIX_TREE_MAP_SHIFT.
Abbreviation SIZE := RADIX_TREE_MAP_SIZE.

(** Only items are tagged. *)
Definition tags_sub (M : Z -> Z) (G : Z -> Z -> bool) : Prop :=
  forall t i, 0 <= t < RADIX_TREE_MAX_TAGS -> G t i = true -> M i <> 0.

(** What an operation leaves alone while it allocates. *)
Record kept (s s' : radix_tree_root) : Prop := {
  kp_flags : xa_flags s' = xa_flags s;
  kp_irq : in_interrupt s' = in_interrupt s;
  kp_rcu : rcu s' = rcu s;
}.

Lemma kept_refl s : kept s s.
Proof using Type. done. Qed.
Lemma kept_trans s1 s2 s3 : kept s1 s2 -> kept s2 s3 -> kept s1 s3.
Proof using Type. intros [a1 a2 a3] [b1 b2 b3]. split; congruence. Qed.
Lemma kept_nonblocking s s' gfp : kept s s' -> nonblocking s' gfp = nonblocking s gfp.
Proof using Type. intros [_ Hi _]. unfold nonblocking. by rewrite Hi. Qed.

Lemma u8_tally P f k : 0 <= k <= 1 -> u8 (tally P f + k) = tally P f + k.
Proof using Type*. intros Hk. unfold u8. pose proof (tally_range P f). pose proof size_range. apply Z.mod_small. lia. Qed.

Lemma clean_bits s base G a : (forall t, nd_tags (mem s a) t = 0) ->
  (forall t i, 0 <= t < RADIX_TREE_MAX_TAGS -> base a <= i < base a + SIZE * 2 ^ shift_of s a -> G t i = false) -> 0 <= shift_of s a ->
  bits_ok s base G a.
Proof using Type*.
  intros Hc HG Hn t Ht. rewrite Hc. split; [pose proof (pow2_pos SIZE); pose proof size_range; lia|]. intros j Hj. rewrite Z.bits_0.
  split; [done|]. intros (i & Hi & Hg). rewrite HG in Hg; [done|done|]. pose proof (pow2_pos (shift_of s a) Hn). nia.
Qed.

(** A node below an empty slot has no tags to show. *)
Lemma empty_no_tags s T base M G p j : shape s T base -> contents s T base M -> tags_sub M G -> T p -> shift_of s p <> 0 -> 0 <= j < SIZE ->
  slots_of s p j = 0 -> forall t i, 0 <= t < RADIX_TREE_MAX_TAGS ->
  base p + j * 2 ^ shift_of s p <= i < base p + (j + 1) * 2 ^ shift_of s p -> G t i = false.
Proof using Type*.
  intros Hs Hc HG Tp Hz Hj He t i Ht Hi. destruct (G t i) eqn:Hg; [exfalso|done]. apply (HG t i Ht Hg).
  destruct (slot_range s T base p j i Hs Tp Hj Hi) as [Cp Hd]. by apply (empty_below s T base Hs M p j).
Qed.

Lemma shift_min s T base p : shape s T base -> T p -> shift_of s p <> 0 -> SH <= shift_of s p.
Proof using Type*.
  intros Hs Tp Hz. destruct (sh_shift _ _ _ Hs p Tp) as [Hn Hm]. pose proof map_shift_range.
  pose proof (multiple_step 0 (shift_of s p) SH) as Hk. rewrite Z.mod_0_l in Hk by lia. lia.
Qed.

(** ** The path to an index *)
Definition link (s : radix_tree_root) (p j c : Z) : radix_tree_root :=
  incr_count (store_slot s (NodeSlot p j) (node_to_entry c)) p.

Lemma link_change s T base p j c : shape s T base -> T p -> slots_of s p j = 0 -> is_object c ->
  slot_change s (link s p j c) (fun x => T x \/ x = c) p j (node_to_entry c).
Proof using Type*.
  intros Hs Tp Hj Hc. unfold slots_of in Hj. split; try done.
  - unfold link, incr_count. simpl. rewrite !upd_same. unfold with_count, put_slot. simpl.
    rewrite Hj, value_null, entry_not_value, (bool_of_true (node_to_entry c)) by (done || by apply entry_nonzero). simpl.
    rewrite (sh_count _ _ _ Hs p Tp), u8_tally by lia. f_equal; lia.
  - intros a _ Hne. unfold link, incr_count. simpl. by rewrite !upd_other.
Qed.

Lemma create_step s T base pool M G gfp index p : tree s T base pool [] M G -> tags_sub M G -> covers s T base p index -> is_u64 index ->
  shift_of s p <> 0 -> let j := digit index (shift_of s p) in slots_of s p j = 0 ->
  exists c s1, radix_tree_node_alloc s gfp p (shift_of s p - SH) j 0 0 = Done (c, s1) /\
    ((c = 0 /\ tree s1 T base pool [] M G /\ kept s s1 /\ (nonblocking s gfp = true -> pool = [])) \/
     (is_object c /\ exists T' base' pool', tree (link s1 p j c) T' base' pool' [] M G /\ kept s (link s1 p j c) /\
      covers (link s1 p j c) T' base' c index /\ shift_of (link s1 p j c) c = shift_of s p - SH /\ (length pool <= S (length pool'))%nat /\
      (tight_but s T p -> tight_but (link s1 p j c) T' c))).
Proof using Type*.
  intros Ht HG Cp Hi Hz j Hj. pose proof (tr_shape _ _ _ _ _ _ _ Ht) as Hs. pose proof (proj1 Cp) as Tp.
  pose proof (shift_nonneg s T base Hs p Tp) as Hn. pose proof (digit_range index (shift_of s p) ltac:(lia)) as Hjr. fold j in Hjr.
  destruct (node_alloc_ok s T base pool M G gfp p (shift_of s p - SH) j 0 Ht) as (c & s1 & pool' & Ha & Hst & Hirq & Hrcu & Hr).
  exists c, s1. split; [done|]. assert (Hk1 : kept s s1) by (split; [apply Hst|done..]).
  destruct Hr as [(-> & -> & Ht1 & Hp)|(Nc & Hfr & Ht1 & Hl)]; [left|right]; [done|].
  pose proof (proj1 Hfr) as Hobj. split; [done|]. pose proof (tr_shape _ _ _ _ _ _ _ Ht1) as Hs1.
  assert (Hshp : shift_of s1 p = shift_of s p) by (unfold shift_of; by rewrite (st_mem _ _ _ Hst)).
  assert (Hslp : slots_of s1 p j = 0) by (unfold slots_of in *; by rewrite (st_mem _ _ _ Hst)).
  pose proof (link_change s1 T base p j c Hs1 Tp Hslp Hobj) as Hch. rewrite <- Hshp in Hfr.
  destruct Cp as [_ Hb]. pose proof (floor_digit index (shift_of s p) ltac:(lia)) as Hfd. fold j in Hfd. rewrite <- Hb in Hfd.
  pose proof (floor_range index (shift_of s p) ltac:(lia)) as Hfb. unfold is_u64 in Hi. pose proof map_shift_range.
  assert (Hge : SH <= shift_of s1 p) by (rewrite Hshp; by apply (shift_min s T base p)).
  set (base' := upd base c (base p + j * 2 ^ shift_of s1 p)).
  assert (Hbits : bits_ok s1 base' G c).
  { destruct Hfr as (_ & _ & Hsc & _ & _ & _ & _ & Htags). apply clean_bits; [done| |lia].
    intros t i Htt Hir. unfold base' in Hir. rewrite upd_same, Hsc in Hir.
    assert (Hpw : SIZE * 2 ^ (shift_of s1 p - SH) = 2 ^ shift_of s1 p)
      by (rewrite size_pow, <- Z.pow_add_r by lia; f_equal; lia).
    rewrite Hpw in Hir. apply (empty_no_tags s1 T base M G p j Hs1); [apply Ht1|done|done|lia|done|done|done|]. lia. }
  assert (Ht2 : tree (link s1 p j c) (fun x => T x \/ x = c) base' pool' [] M G).
  { apply (link_ok s1 (link s1 p j c) T base pool' [] M G p j c); try done; [lia|rewrite Hshp; lia|].
    apply (owned_frame s1); [done..| |apply Ht1]. intros x Nx _. unfold link, incr_count. simpl. by rewrite !upd_other by (by intros ->). }
  assert (Hsc : shift_of (link s1 p j c) c = shift_of s p - SH).
  { rewrite (sc_shift _ _ _ _ _ _ Hch) by (by right). rewrite <- Hshp. apply Hfr. }
  exists (fun x => T x \/ x = c), base', pool'. split_and!; [done|by apply (kept_trans s s1)| |done|done|].
  2:{ intros Hti a [Ta| ->] Hac; [|done]. destruct (Z.eq_dec a p) as [->|Hap].
      - pose proof (tr_shape _ _ _ _ _ _ _ Ht2) as Hs2. rewrite (sh_count _ _ _ Hs2 p) by (by left).
        assert (0 < tally bool_of (slots_of (link s1 p j c) p)); [|lia]. apply (tally_pos bool_of _ j Hjr).
        rewrite (sc_slots_same _ _ _ _ _ _ Hch), upd_same. by apply bool_of_true, entry_nonzero.
      - rewrite (sc_mem _ _ _ _ _ _ Hch a (or_introl Ta) Hap), (st_mem _ _ _ Hst) by done. by apply Hti. }
  split; [by right|]. unfold base'. rewrite upd_same, Hsc, Hshp. replace (shift_of s p - SH + SH) with (shift_of s p) by lia. lia.
Qed.

(** What [create_loop] has found: the slot of a leaf, or no memory. *)
Definition created (s s' : radix_tree_root) (M : Z -> Z) (G : Z -> Z -> bool) (gfp index : Z) (need : Z) (pool : list Z)
    (Q : Prop) (r : Z * Z * slotref) : Prop :=
  let '(err, node, slot) := r in
  exists T' base' pool', tree s' T' base' pool' [] M G /\ kept s s' /\
    ((err = 0 /\ covers s' T' base' node index /\ shift_of s' node = 0 /\ slot = NodeSlot node (digit index 0) /\
      Z.of_nat (length pool) <= Z.of_nat (length pool') + need /\ (Q -> tight_but s' T' node)) \/
     (err = - ENOMEM /\ (nonblocking s gfp = true -> Z.of_nat (length pool) < need))).

Lemma create_down fuel : forall s T base pool M G gfp index p, tree s T base pool [] M G -> tags_sub M G -> covers s T base p index ->
  is_u64 index -> (Z.to_nat (shift_of s p) < fuel)%nat ->
  let j := digit index (shift_of s p) in
  exists r s', create_loop fuel s gfp index (shift_of s p) j p (slots_of s p j) (NodeSlot p j) = Done (r, s') /\
    created s s' M G gfp index (shift_of s p / SH) pool (tight_but s T p) r.
Proof using Type*.
  induction fuel as [|fuel IH]; intros s T base pool M G gfp index p Ht HG Cp Hi Hf j; [lia|].
  pose proof (tr_shape _ _ _ _ _ _ _ Ht) as Hs. pose proof (shift_nonneg s T base Hs p (proj1 Cp)) as Hn. pose proof map_shift_range.
  cbn [create_loop]. destruct (Z.gtb_spec (shift_of s p) 0) as [Hlt|Hge]; cbn [negb].
  2:{ assert (Hz : shift_of s p = 0) by lia. eexists _, s. split; [reflexivity|]. exists T, base, pool. split; [done|]. split; [done|]. left.
      rewrite Hz. unfold j. rewrite Hz. split_and!; try done. rewrite Z.div_0_l by lia. lia. }
  assert (Hdiv : (shift_of s p - SH) / SH = shift_of s p / SH - 1).
  { replace (shift_of s p - SH) with (shift_of s p + (-1) * SH) by lia. rewrite Z.div_add by lia. lia. }
  destruct (descend s T base Hs p index Cp ltac:(lia)) as [He|(c & Tc & He & Hg & Cc)]; fold j in He; rewrite He.
  - cbn [Z.eqb]. destruct (create_step s T base pool M G gfp index p Ht HG Cp Hi ltac:(lia) He) as (c & s1 & Ha & Hr).
    fold j in Ha, Hr. rewrite Ha. cbn [mbind outcome_bind].
    destruct Hr as [(-> & Ht1 & Hk & Hp)|(Hobj & T' & base' & pool' & Ht1 & Hk & Cc & Hsc & Hl & Hti)]; cbn [Z.eqb].
    + eexists _, s1. split; [reflexivity|]. exists T, base, pool. split; [done|]. split; [done|]. right. split; [done|]. intros Hb. rewrite (Hp Hb).
      simpl. apply Z.div_str_pos. pose proof (shift_min s T base p Hs (proj1 Cp)). lia.
    + destruct (Z.eqb_spec c 0) as [->|_]; [by apply object_nonzero in Hobj|]. fold j.
      rewrite (bool_of_true p) by (apply object_nonzero, Hs, Cp). rewrite entry_to_node_object by done.
      fold (link s1 p j c). unfold radix_tree_descend. cbv zeta. fold (shift_of (link s1 p j c) c).
      fold (digit index (shift_of (link s1 p j c) c)). fold (slots_of (link s1 p j c) c). rewrite <- Hsc.
      destruct (IH (link s1 p j c) T' base' pool' M G gfp index c Ht1 HG Cc Hi) as (r & s' & Hr & Hcr); [rewrite Hsc; lia|].
      exists r, s'. split; [exact Hr|]. destruct r as [[err node] slot]. destruct Hcr as (T2 & base2 & pool2 & Ht2 & Hk2 & Hres).
      rewrite Hsc, Hdiv in Hres.
      exists T2, base2, pool2. split; [done|]. split; [by apply (kept_trans _ (link s1 p j c))|].
      destruct Hres as [(-> & Hc2 & Hz2 & -> & Hl2 & Hti2)|[-> Hno]]; [left; split_and!; try done; [lia|auto]|right; split; [done|]].
      intros Hb. rewrite (kept_nonblocking s) in Hno by done. specialize (Hno Hb). lia.
  - assert (Hobj : is_object c) by (by apply Hs). destruct (Z.eqb_spec (node_to_entry c) 0) as [E|_]; [by apply entry_nonzero in E|].
    rewrite entry_internal, entry_to_node_entry by done. cbn [negb]. unfold radix_tree_descend. cbv zeta. fold (shift_of s c).
    fold (digit index (shift_of s c)). fold (slots_of s c). rewrite <- (hg_shift _ _ _ _ _ Hg).
    pose proof (hg_shift _ _ _ _ _ Hg) as Hsc.
    destruct (IH s T base pool M G gfp index c Ht HG Cc Hi) as (r & s' & Hr & Hcr); [lia|].
    exists r, s'. split; [exact Hr|]. destruct r as [[err node] slot]. destruct Hcr as (T2 & base2 & pool2 & Ht2 & Hk2 & Hres).
    rewrite Hsc, Hdiv in Hres. exists T2, base2, pool2. split; [done|]. split; [done|].
    destruct Hres as [(-> & Hc2 & Hz2 & -> & Hl2 & Hti2)|[-> Hno]]; [left; split_and!; try done; [lia|]|right; split; [done|]].
    { intros Hti. apply Hti2. intros a Ta Hac. destruct (Z.eq_dec a p) as [->|Hap]; [|by apply Hti].
      rewrite (sh_count _ _ _ Hs p Ta). pose proof (digit_range index _ (proj1 Hn)) as Hjr. fold j in Hjr.
      assert (0 < tally bool_of (slots_of s p)); [|lia]. apply (tally_pos bool_of _ j Hjr). rewrite He. by apply bool_of_true, entry_nonzero. }
    intros Hb. specialize (Hno Hb). lia.
Qed.

(** ** Height *)
Lemma maxshift_ok fuel : forall index m, is_u64 index -> 0 <= m < 64 -> m mod SH = 0 -> 64 - m < Z.of_nat fuel ->
  exists m', maxshift_loop fuel index m = Done m' /\ m <= m' < 64 /\ m' mod SH = 0 /\ index <= shift_maxindex m'.
Proof using Type*.
  induction fuel as [|fuel IH]; intros index m Hi Hm Hmod Hf; [lia|]. cbn [maxshift_loop]. pose proof map_shift_range.
  destruct (Z.gtb_spec index (shift_maxindex m)) as [Hgt|]; [|exists m; split_and!; done || lia].
  rewrite shift_maxindex_eq in Hgt by done. unfold is_u64 in Hi.
  assert (Hlt : m + SH < 64). { destruct (Z.le_gt_cases 64 (m + SH)) as [Hle|]; [|done]. pose proof (Z.pow_le_mono_r 2 64 (m + SH)). lia. }
  destruct (IH index (m + SH)) as (m' & Hr & ? & ? & ?); [done|lia| |lia|].
  - by rewrite Zplus_mod, Hmod, Z.mod_same, Z.mod_0_l by lia.
  - exists m'. split_and!; [done|lia|lia|done..].
Qed.

Lemma item_in_span s T base M i : shape s T base -> contents s T base M -> M i <> 0 -> 0 <= i < span s.
Proof using Type*.
  intros Hs Hc Hm. pose proof (ct_cover _ _ _ _ Hc i Hm) as Hk. unfold span. destruct (radix_tree_is_internal_node (xa_head s)) eqn:Hi; [|lia].
  destruct Hk as (b & Tb & Hb & Hbb). assert (Cb : covers s T base b i) by (split; [done|by rewrite Hb]).
  apply (up_to_head s T base Hs _ b i (le_n _)) in Cb as [Tr Cr]. destruct (head_node s T base Hs Hi) as (_ & _ & _ & Hb0 & _). rewrite Hb0 in Cr.
  pose proof (shift_nonneg s T base Hs _ Tr). pose proof map_shift_range.
  pose proof (floor_range i (shift_of s (entry_to_node (xa_head s)) + SH)). lia.
Qed.

(** *** The tags of a new root *)
Record only_tags (s s' : radix_tree_root) (c : Z) : Prop := {
  ot_mem x : x <> c -> mem s' x = mem s x;
  ot_node : mem s' c = Node (nd_shift (mem s c)) (nd_offset (mem s c)) (nd_count (mem s c)) (nd_nr_values (mem s c))
              (nd_parent (mem s c)) (nd_slots (mem s c)) (nd_tags (mem s' c));
  ot_state : s' = set_mem s (mem s');
}.

Lemma only_tags_step s s' c t w : only_tags s s' c -> only_tags s (set_node s' c (with_tag (mem s' c) t w)) c.
Proof using Type.
  intros [o1 o2 o3]. split.
  - intros x Hx. simpl. rewrite upd_other by done. by apply o1.
  - simpl. rewrite upd_same. rewrite o2 at 1. done.
  - simpl. unfold set_node. simpl. rewrite o3 at 1. done.
Qed.

Lemma tag_fold_ok c l : forall s s0, NoDup l -> only_tags s0 s c -> let s' := fold_left (fun s tag => if root_tag_get s tag then tag_set s c tag 0 else s) l s in
  only_tags s0 s' c /\ forall t, nd_tags (mem s' c) t = if bool_decide (t ∈ l) && root_tag_get s0 t then Z.setbit (nd_tags (mem s c) t) 0 else nd_tags (mem s c) t.
Proof using Type.
  induction l as [|x l IH]; intros s s0 Hnd Ho; [split; [done|]; intros t; by rewrite bool_decide_eq_false_2 by apply not_elem_of_nil|].
  apply list.NoDup_cons in Hnd as [Hx Hnd]. cbn [fold_left].
  assert (Hr : forall t, root_tag_get s t = root_tag_get s0 t) by (intros t; rewrite (ot_state _ _ _ Ho); done). rewrite Hr.
  destruct (root_tag_get s0 x) eqn:Hrx.
  - destruct (IH (tag_set s c x 0) s0 Hnd (only_tags_step _ _ _ _ _ Ho)) as [Ho' Ht]. split; [done|]. intros t. rewrite Ht. simpl. rewrite upd_same.
    cbn [with_tag nd_tags]. destruct (Z.eq_dec t x) as [->|Hne].
    + rewrite upd_same, (bool_decide_eq_false_2 (x ∈ l)), (bool_decide_eq_true_2 (x ∈ x :: l)), Hrx; [done|apply list_elem_of_here|done].
    + rewrite upd_other by done. replace (bool_decide (t ∈ x :: l)) with (bool_decide (t ∈ l)); [done|].
      apply bool_decide_ext. rewrite elem_of_cons. tauto.
  - destruct (IH s s0 Hnd Ho) as [Ho' Ht]. split; [done|]. intros t. rewrite Ht. destruct (Z.eq_dec t x) as [->|Hne].
    + by rewrite Hrx, !andb_false_r.
    + replace (bool_decide (t ∈ x :: l)) with (bool_decide (t ∈ l)); [done|]. apply bool_decide_ext. rewrite elem_of_cons. tauto.
Qed.

Lemma extend_tags_ok s c : is_idr s = false -> (forall t, nd_tags (mem s c) t = 0) -> let s' := extend_tags s c in
  only_tags s s' c /\ forall t, 0 <= t < RADIX_TREE_MAX_TAGS -> nd_tags (mem s' c) t = Z.b2z (root_tag_get s t).
Proof using Type*.
  intros Hidr Hc s'. unfold s', extend_tags. rewrite Hidr. destruct (tag_fold_ok c (seqZ 0 RADIX_TREE_MAX_TAGS) s s) as [Ho Ht].
  - apply NoDup_seqZ.
  - split; [done| |by destruct s]. by destruct (mem s c).
  - split; [done|]. intros t Htt. rewrite Ht, Hc, bool_decide_eq_true_2 by (apply elem_of_seqZ; lia). by destruct (root_tag_get s t).
Qed.

Lemma extended_bits s T base pool F M G c n : tree s T base pool F M G -> tags_sub M G ->
  (forall t, 0 <= t < RADIX_TREE_MAX_TAGS -> nd_tags (mem s c) t = Z.b2z (root_tag_get s t)) -> shift_of s c = n -> 0 <= n -> span s = 2 ^ n ->
  bits_ok s (upd base c 0) G c.
Proof using Type*.
  intros [h1 h2 h3 _] HG Htags Hsh Hn Hsp t Htt. rewrite Htags, upd_same, Hsh by done. pose proof size_range.
  pose proof (pow2_pos n Hn). assert (2 ^ 1 <= 2 ^ SIZE) by (apply Z.pow_le_mono_r; lia). split; [destruct (root_tag_get s t); simpl; lia|].
  intros j Hj. pose proof (tg_root _ _ _ _ h3 t Htt) as Hr. rewrite Hsp in Hr.
  assert (Hin : forall i, G t i = true -> 0 <= i < 2 ^ n).
  { intros i Hg. rewrite <- Hsp. apply (item_in_span s T base M); [done|done|by apply (HG t)]. }
  destruct (root_tag_get s t); cbn [Z.b2z].
  - destruct (Z.eq_dec j 0) as [->|Hj0]; [split; [intros _|done]|].
    + destruct (proj1 Hr eq_refl) as (i & Hi & Hg). exists i. split; [lia|done].
    + rewrite Z.bits_above_log2 by (simpl; lia). split; [done|]. intros (i & Hi & Hg). specialize (Hin i Hg). nia.
  - rewrite Z.bits_0. split; [done|]. intros (i & Hi & Hg). apply Hr. exists i. split; [by apply Hin|done].
Qed.

(** The shift of the next root. *)
Definition height (s : radix_tree_root) : Z :=
  if radix_tree_is_internal_node (xa_head s) then shift_of s (entry_to_node (xa_head s)) + SH else 0.

Lemma load_root_height s : (radix_tree_load_root s).1.1 = height s.
Proof using Type. unfold radix_tree_load_root, height. by destruct (radix_tree_is_internal_node (xa_head s)). Qed.

Lemma span_height s : span s = 2 ^ height s.
Proof using Type. unfold span, height. by destruct (radix_tree_is_internal_node (xa_head s)). Qed.

Lemma is_idr_flags s s' : xa_flags s' = xa_flags s -> is_idr s' = is_idr s.
Proof using Type. unfold is_idr. by intros ->. Qed.

Lemma raise_count s e c a : nd_count (mem (raise s e c) a) = nd_count (mem s a).
Proof using Type.
  unfold raise. destruct (radix_tree_is_internal_node e), (xa_is_value e); simpl; unfold upd;
    repeat (match goal with |- context [if ?x =? ?y then _ else _] => destruct (Z.eqb_spec x y) end; simpl; subst; try done).
Qed.

(** One turn of [radix_tree_extend]. *)
Lemma extend_step s T base pool M G gfp : tree s T base pool [] M G -> tags_sub M G -> is_idr s = false -> xa_head s <> 0 ->
  0 <= height s < 64 ->
  exists c s1, radix_tree_node_alloc s gfp 0 (height s) 0 1 0 = Done (c, s1) /\
    ((c = 0 /\ tree s1 T base pool [] M G /\ kept s s1 /\ (nonblocking s gfp = true -> pool = [])) \/
     (is_object c /\ exists T' base' pool', let s2 := raise (extend_tags s1 c) (xa_head s) c in
      tree s2 T' base' pool' [] M G /\ kept s s2 /\ xa_head s2 = node_to_entry c /\ height s2 = height s + SH /\
      (length pool <= S (length pool'))%nat /\ (tight_but s T 0 -> tight_but s2 T' 0))).
Proof using Type*.
  intros Ht HG Hidr He Hn.
  destruct (node_alloc_ok s T base pool M G gfp 0 (height s) 0 1 Ht) as (c & s1 & pool' & Ha & Hst & Hirq & Hrcu & Hr).
  exists c, s1. split; [done|]. assert (Hk1 : kept s s1) by (split; [apply Hst|done..]).
  destruct Hr as [(-> & -> & Ht1 & Hp)|(Nc & Hfr & Ht1 & Hl)]; [left|right]; [done|].
  destruct Hfr as (Hobj & Hpar & Hsh & Hoff & Hcnt & Hval & Hsl & Htags). split; [done|].
  destruct (extend_tags_ok s1 c) as [Hot Htg]; [by rewrite (is_idr_flags s) by apply Hst|done|]. set (s2 := extend_tags s1 c) in *.
  assert (Hst2 : same_tree s1 s2 T) by (split; [intros x Hx; apply (ot_mem _ _ _ Hot); by intros ->|by rewrite (ot_state _ _ _ Hot)..]).
  assert (Ho2 : owned s2 T pool' [c]).
  { apply (owned_frame s1); [by rewrite (ot_state _ _ _ Hot)..| |apply Ht1]. intros x _ Hx. apply (ot_mem _ _ _ Hot). intros ->. apply Hx, list_elem_of_here. }
  pose proof (frame_tree s1 s2 T base pool' pool' [c] [c] M G Hst2 Ht1 Ho2) as Ht2.
  assert (Hh2 : xa_head s2 = xa_head s) by (rewrite (st_head _ _ _ Hst2); apply Hst).
  assert (Hht : height s2 = height s).
  { unfold height. rewrite Hh2. destruct (radix_tree_is_internal_node (xa_head s)) eqn:Hi; [|done]. unfold shift_of.
    pose proof (head_elem s T base (tr_shape _ _ _ _ _ _ _ Ht) Hi) as Tr. by rewrite (st_mem _ _ _ Hst2), (st_mem _ _ _ Hst). }
  assert (Hprep : prepared s2 c (height s)).
  { unfold shift_of in Hsh. split; unfold shift_of, slots_of; try done; rewrite (ot_node _ _ _ Hot); simpl; try done. }
  assert (Hbits : bits_ok s2 (upd base c 0) G c).
  { apply (extended_bits s2 T base pool' [c] M G c (height s) Ht2 HG); [|apply Hprep|lia|by rewrite span_height, Hht].
    intros t Htt. rewrite Htg by done. by rewrite (ot_state _ _ _ Hot). }
  assert (Hspan : forall t i, 0 <= t < RADIX_TREE_MAX_TAGS -> G t i = true -> i < span s2).
  { intros t i Htt Hg. apply (item_in_span s2 T base M); [apply Ht2|apply Ht2|by apply (HG t)]. }
  assert (Hk2 : kept s (raise s2 (xa_head s) c)).
  { apply (kept_trans s s1); [done|]. unfold raise. rewrite (ot_state _ _ _ Hot).
    destruct (radix_tree_is_internal_node (xa_head s)), (xa_is_value (xa_head s)); done. }
  assert (Hh3 : xa_head (raise s2 (xa_head s) c) = node_to_entry c).
  { unfold raise. destruct (radix_tree_is_internal_node (xa_head s)), (xa_is_value (xa_head s)); done. }
  assert (Hsh3 : shift_of (raise s2 (xa_head s) c) c = height s).
  { rewrite <- (pp_shift _ _ _ Hprep). unfold raise, shift_of.
    destruct (radix_tree_is_internal_node (xa_head s)), (xa_is_value (xa_head s)); simpl; rewrite !upd_same; simpl; try done;
      unfold upd; destruct (c =? _) eqn:E; try done; apply Z.eqb_eq in E; by rewrite <- E. }
  assert (Hht3 : height (raise s2 (xa_head s) c) = height s + SH).
  { unfold height at 1. by rewrite Hh3, entry_internal, entry_to_node_entry, Hsh3 by done. }
  assert (Hcnt2 : forall a, T a \/ a = c -> tight_but s T 0 -> nd_count (mem (raise s2 (xa_head s) c) a) <> 0).
  { intros a Ta Hti. rewrite raise_count. destruct Ta as [Ta| ->]; [|rewrite (pp_count _ _ _ Hprep); lia].
    rewrite (st_mem _ _ _ Hst2), (st_mem _ _ _ Hst) by done. apply Hti; [done|]. apply object_nonzero, (sh_object _ _ _ (tr_shape _ _ _ _ _ _ _ Ht)), Ta. }
  destruct (radix_tree_is_internal_node (xa_head s)) eqn:Hi.
  - exists (fun x => T x \/ x = c), (upd base c 0), pool'. split_and!; [|done..|by intros Hti a Ta _; apply Hcnt2]. rewrite <- Hh2 in Hi |- *.
    assert (Hhe : height s2 = shift_of s2 (entry_to_node (xa_head s2)) + SH) by (unfold height; by rewrite Hi).
    apply raise_node_ok; try done; rewrite <- Hhe, Hht; [lia|done|]. intros t i Htt _ Hg. by apply (Hspan t).
  - exists (fun x => x = c), (upd base c 0), pool'. split_and!; [|done..|by intros Hti a -> _; apply Hcnt2; [right|]]. assert (Hz : height s = 0) by (unfold height; by rewrite Hi).
    rewrite Hz in Hprep. rewrite <- Hh2 in Hi, He |- *. apply (raise_item_ok s2 T); try done. intros t i Htt _ Hg. by apply (Hspan t).
Qed.

Lemma extend_loop_ok fuel : forall s T base pool M G gfp maxshift, tree s T base pool [] M G -> tags_sub M G -> is_idr s = false ->
  xa_head s <> 0 -> 0 <= height s <= maxshift -> maxshift < 64 -> maxshift mod SH = 0 -> height s mod SH = 0 -> maxshift - height s < Z.of_nat fuel ->
  exists err s' T' base' pool', extend_loop fuel s gfp (xa_head s) (height s) maxshift = Done (err, s') /\
    tree s' T' base' pool' [] M G /\ kept s s' /\
    ((err = 0 /\ xa_head s' <> 0 /\ height s' = maxshift + SH /\ Z.of_nat (length pool) <= Z.of_nat (length pool') + (maxshift - height s) / SH + 1 /\
      (tight_but s T 0 -> tight_but s' T' 0)) \/
     (err = - ENOMEM /\ (nonblocking s gfp = true -> Z.of_nat (length pool) < (maxshift - height s) / SH + 1))).
Proof using Type*.
  induction fuel as [|fuel IH]; intros s T base pool M G gfp maxshift Ht HG Hidr He Hh Hms Hmm Hhm Hf; [lia|].
  pose proof map_shift_range. cbn [extend_loop].
  destruct (extend_step s T base pool M G gfp Ht HG Hidr He) as (c & s1 & -> & Hr); [lia|]. cbn [mbind outcome_bind].
  assert (Hq : 0 <= (maxshift - height s) / SH) by (apply Z.div_pos; lia).
  destruct Hr as [(-> & Ht1 & Hk & Hp)|(Hobj & T' & base' & pool' & Ht1 & Hk & Hh1 & Hht & Hl & Hti)]; cbn [Z.eqb].
  - eexists _, s1, T, base, pool. split; [reflexivity|]. split_and!; [done..|]. right. split; [done|]. intros Hb. rewrite (Hp Hb). simpl. lia.
  - destruct (Z.eqb_spec c 0) as [->|_]; [by apply object_nonzero in Hobj|].
    destruct (Z.gtb_spec (height s) BITS_PER_LONG); [unfold BITS_PER_LONG in *; lia|]. cbn [BUG_ON mbind outcome_bind].
    fold (raise (extend_tags s1 c) (xa_head s) c). set (s2 := raise (extend_tags s1 c) (xa_head s) c) in *.
    assert (Hq2 : (maxshift - height s2) / SH = (maxshift - height s) / SH - 1).
    { rewrite Hht. replace (maxshift - (height s + SH)) with (maxshift - height s + (-1) * SH) by lia. rewrite Z.div_add by lia. lia. }
    destruct (Z.leb_spec (height s + SH) maxshift) as [Hle|Hgt].
    + destruct (IH s2 T' base' pool' M G gfp maxshift) as (err & s' & T2 & base2 & pool2 & Hr & Ht2 & Hk2 & Hres); try done.
      * rewrite (is_idr_flags s); [done|apply Hk].
      * rewrite Hh1. by apply entry_nonzero.
      * lia.
      * by rewrite Hht, Zplus_mod, Hhm, Z.mod_same, Z.mod_0_l by lia.
      * lia.
      * rewrite Hh1, Hht in Hr. exists err, s', T2, base2, pool2. split; [exact Hr|]. split_and!; [done|by apply (kept_trans s s2)|].
        destruct Hres as [(-> & ? & ? & ? & ?)|[-> Hno]]; [left; split_and!; try done; [lia|auto]|right; split; [done|]].
        intros Hb. rewrite (kept_nonblocking s) in Hno by done. specialize (Hno Hb). lia.
    + assert (Heq : maxshift = height s).
      { destruct (Z.eq_dec maxshift (height s)); [done|]. pose proof (multiple_step (height s) maxshift SH). lia. }
      eexists _, s2, T', base', pool'. split; [reflexivity|]. split_and!; [done..|]. left.
      split_and!; [done|rewrite Hh1; by apply entry_nonzero|lia|lia|done].
Qed.

(** ** [__radix_tree_create] *)
Lemma levels_bound m : 0 <= m < 64 -> 0 <= m / SH /\ m / SH + 1 <= RADIX_TREE_MAX_PATH.
Proof using Type*.
  intros Hm. pose proof map_shift_range. split; [apply Z.div_pos; lia|]. rewrite max_path.
  replace (m / SH + 1) with ((m + SH) / SH) by (replace (m + SH) with (m + 1 * SH) by lia; apply Z.div_add; lia).
  apply Z.div_le_mono; lia.
Qed.

Lemma created_weaken s s' M G gfp index need need' pool (Q Q' : Prop) r : need <= need' -> (Q' -> Q) -> created s s' M G gfp index need pool Q r ->
  created s s' M G gfp index need' pool Q' r.
Proof using Type.
  intros Hle HQ Hc. destruct r as [[err node] slot]. destruct Hc as (T & base & pool' & Ht & Hk & Hres). exists T, base, pool'. split_and!; [done..|].
  destruct Hres as [(-> & ? & ? & -> & ? & ?)|[-> Hno]]; [left; split_and!; try done; [lia|auto]|right; split; [done|]].
  intros Hb. specialize (Hno Hb). lia.
Qed.

Lemma created_trans s s1 s' M G gfp index need need1 pool pool1 (Q : Prop) r : kept s s1 -> created s1 s' M G gfp index need pool1 Q r ->
  Z.of_nat (length pool) <= Z.of_nat (length pool1) + need1 -> created s s' M G gfp index (need + need1) pool Q r.
Proof using Type.
  intros Hk Hc Hl. destruct r as [[err node] slot]. destruct Hc as (T & base & pool' & Ht & Hk' & Hres).
  exists T, base, pool'. split; [done|]. split; [by apply (kept_trans s s1)|].
  destruct Hres as [(-> & ? & ? & -> & ? & ?)|[-> Hno]]; [left; split_and!; try done; lia|right; split; [done|]].
  intros Hb. rewrite (kept_nonblocking s) in Hno by done. specialize (Hno Hb). lia.
Qed.

(** From the head of a tree that is high enough. *)
Lemma create_from_head s T base pool M G gfp index : tree s T base pool [] M G -> tags_sub M G ->
  radix_tree_is_internal_node (xa_head s) = true -> 0 <= index <= node_maxindex s (entry_to_node (xa_head s)) -> is_u64 index ->
  exists r s', create_loop turns s gfp index (height s) 0 0 (xa_head s) HeadSlot = Done (r, s') /\
    created s s' M G gfp index ((height s - SH) / SH) pool (tight_but s T 0) r.
Proof using Type*.
  intros Ht HG Hi Hm Hu. pose proof (tr_shape _ _ _ _ _ _ _ Ht) as Hs. pose proof (head_covers s T base Hs index Hi Hm) as Cr.
  destruct (head_node s T base Hs Hi) as (Tr & He & _). unfold height. rewrite Hi. set (r := entry_to_node (xa_head s)) in *.
  pose proof (shift_nonneg s T base Hs r Tr). pose proof map_shift_range.
  destruct turns_S as (fuel & -> & Hf). cbn [create_loop].
  destruct (Z.gtb_spec (shift_of s r + SH) 0) as [_|]; [|lia]. cbn [negb]. rewrite He.
  destruct (Z.eqb_spec (node_to_entry r) 0) as [E|_]; [by apply entry_nonzero in E; [|apply Hs]|].
  rewrite entry_internal, entry_to_node_entry by (by apply Hs). cbn [negb]. unfold radix_tree_descend. cbv zeta. fold (shift_of s r).
  fold (digit index (shift_of s r)). fold (slots_of s r). replace (shift_of s r + SH - SH) with (shift_of s r) by lia.
  destruct (create_down fuel s T base pool M G gfp index r) as (r' & s' & Hr & Hc); [done..|lia|]. exists r', s'. split; [exact Hr|].
  refine (created_weaken _ _ _ _ _ _ _ _ _ _ _ _ _ _ Hc); [lia|]. intros Hti a Ta _. apply Hti; [done|].
  apply object_nonzero, Hs, Ta.
Qed.

(** From an empty head. *)
Lemma create_empty s T base pool M G gfp index m : tree s T base pool [] M G -> tags_sub M G -> xa_head s = 0 -> is_u64 index ->
  0 <= m < 64 -> m mod SH = 0 -> index <= shift_maxindex m ->
  exists r s', create_loop turns s gfp index (m + SH) 0 0 (xa_head s) HeadSlot = Done (r, s') /\
    created s s' M G gfp index (m / SH + 1) pool True r.
Proof using Type*.
  intros Ht HG Hh Hu Hm Hmod Hix. rewrite Hh. pose proof map_shift_range. destruct turns_S as (fuel & -> & Hf). cbn [create_loop].
  destruct (Z.gtb_spec (m + SH) 0) as [_|]; [|lia]. cbn [negb Z.eqb]. replace (m + SH - SH) with m by lia.
  destruct (node_alloc_ok s T base pool M G gfp 0 m 0 0 Ht) as (c & s1 & pool' & -> & Hst & Hirq & Hrcu & Hr). cbn [mbind outcome_bind].
  assert (Hk1 : kept s s1) by (split; [apply Hst|done..]). destruct (levels_bound m Hm) as [Hq _].
  destruct Hr as [(-> & -> & Ht1 & Hp)|(Nc & Hfr & Ht1 & Hl)].
  { cbn [Z.eqb]. eexists _, s1. split; [reflexivity|]. exists T, base, pool. split_and!; [done..|]. right. split; [done|].
    intros Hb. rewrite (Hp Hb). simpl. lia. }
  pose proof Hfr as (Hobj & Hpar & Hsh & Hoff & Hcnt & Hval & Hcl). destruct (Z.eqb_spec c 0) as [->|_]; [by apply object_nonzero in Hobj|].
  change (bool_of 0) with false. cbn iota. rewrite entry_to_node_object by done. set (s2 := store_slot s1 HeadSlot (node_to_entry c)).
  assert (Hh1 : xa_head s1 = 0) by (rewrite (st_head _ _ _ Hst); done).
  assert (HM : forall i, M i = 0).
  { assert (Hi1 : radix_tree_is_internal_node (xa_head s1) = false) by (rewrite Hh1; apply null_not_internal).
    destruct (head_only_facts _ _ _ _ _ _ _ Ht1 Hi1) as (M1 & M2 & _). intros i. destruct (Z.eq_dec i 0) as [->|]; [congruence|by apply M1]. }
  assert (HGf : forall t i, 0 <= t < RADIX_TREE_MAX_TAGS -> G t i = false).
  { intros t i Htt. destruct (G t i) eqn:Hg; [|done]. exfalso. by apply (HG t i Htt Hg), HM. }
  assert (Ht2 : tree s2 (fun x => x = c) (upd base c 0) pool' [] M G).
  { apply (link_head_ok s1 T base pool' [] M G c m); try done.
    - apply clean_bits; [apply Hcl| |lia]. intros t i Htt _. by apply HGf.
    - intros t i Htt _. by rewrite !HGf. }
  assert (Cc : covers s2 (fun x => x = c) (upd base c 0) c index).
  { split; [done|]. rewrite upd_same. change (shift_of s2 c) with (shift_of s1 c). rewrite Hsh. symmetry. unfold is_u64 in Hu.
    rewrite shift_maxindex_eq in Hix by done. pose proof (pow2_pos (m + SH)). apply floor_unique; [lia|apply Z.mod_0_l; lia|lia]. }
  unfold radix_tree_descend. cbv zeta. fold (shift_of s2 c). fold (digit index (shift_of s2 c)). fold (slots_of s2 c).
  replace m with (shift_of s2 c) by done.
  destruct (create_down fuel s2 _ _ pool' M G gfp index c Ht2 HG Cc Hu) as (r & s' & Hr & Hc); [change (shift_of s2 c) with (shift_of s1 c); lia|].
  exists r, s'. split; [exact Hr|]. apply (created_trans s s2 s' M G gfp index _ _ pool pool'); [by apply (kept_trans s s1)| |lia].
  refine (created_weaken _ _ _ _ _ _ _ _ _ _ _ _ (Z.le_refl _) _ Hc). intros _ a -> Hac. done.
Qed.

Lemma height_facts s T base index : shape s T base -> is_u64 index -> index > (radix_tree_load_root s).2 ->
  0 <= height s < 64 /\ height s mod SH = 0.
Proof using Type*.
  intros Hs Hu Hgt. unfold radix_tree_load_root, height in *. pose proof map_shift_range.
  destruct (radix_tree_is_internal_node (xa_head s)) eqn:Hi; [|split; [lia|apply Z.mod_0_l; lia]]. cbn [snd] in Hgt.
  destruct (head_node s T base Hs Hi) as (Tr & _). destruct (sh_shift _ _ _ Hs _ Tr) as [Hn Hm]. set (r := entry_to_node (xa_head s)) in *.
  unfold node_maxindex in Hgt. fold (shift_of s r) in Hgt. rewrite shift_maxindex_eq in Hgt by done. unfold is_u64 in Hu.
  split; [split; [lia|]|by rewrite Zplus_mod, Hm, Z.mod_same, Z.mod_0_l by lia].
  destruct (Z.le_gt_cases 64 (shift_of s r + SH)); [|done]. pose proof (Z.pow_le_mono_r 2 64 (shift_of s r + SH)). lia.
Qed.

(** The place of an index after [__radix_tree_create]. *)
Definition found (s' : radix_tree_root) (M : Z -> Z) (G : Z -> Z -> bool) (Q : Prop) (index node : Z) (slot : slotref) : Prop :=
  exists T' base' pool', tree s' T' base' pool' [] M G /\ (Q -> tight_but s' T' node) /\
    ((node = 0 /\ slot = HeadSlot /\ radix_tree_is_internal_node (xa_head s') = false /\ index = 0) \/
     (covers s' T' base' node index /\ shift_of s' node = 0 /\ slot = NodeSlot node (digit index 0))).

Definition create_result (s : radix_tree_root) (M : Z -> Z) (G : Z -> Z -> bool) (Q : Prop) (index : Z) (pool : list Z)
    (r : outcome (Z * Z * slotref * radix_tree_root)) : Prop :=
  exists err node slot s', r = Done (err, node, slot, s') /\ kept s s' /\
    ((err = 0 /\ found s' M G Q index node slot) \/
     (err = - ENOMEM /\ (exists T' base' pool', tree s' T' base' pool' [] M G) /\
      (nonblocking s (root_gfp_mask s) = true -> Z.of_nat (length pool) < RADIX_TREE_PRELOAD_SIZE))).

Lemma created_result s s' M G Q index need pool r : created s s' M G (root_gfp_mask s) index need pool Q r -> need <= RADIX_TREE_PRELOAD_SIZE ->
  create_result s M G Q index pool (Done (r, s')).
Proof using Type.
  destruct r as [[err node] slot]. intros (T' & base' & pool' & Ht' & Hk & Hres) Hle. exists err, node, slot, s'. split; [done|]. split; [done|].
  destruct Hres as [(-> & Hc & Hz & -> & _ & Hti)|[-> Hno]]; [left|right]; split; try done.
  - exists T', base', pool'. split_and!; [done..|]. by right.
  - split; [by exists T', base', pool'|]. intros Hb. specialize (Hno Hb). lia.
Qed.

Lemma load_root_eq s : radix_tree_load_root s =
  (height s, xa_head s, if radix_tree_is_internal_node (xa_head s) then node_maxindex s (entry_to_node (xa_head s)) else 0).
Proof using Type. unfold radix_tree_load_root, height. by destruct (radix_tree_is_internal_node (xa_head s)). Qed.

(** The index is in reach. *)
Lemma create_low s T base pool M G index : tree s T base pool [] M G -> tags_sub M G -> is_u64 index ->
  index <= (radix_tree_load_root s).2 -> create_result s M G (tight_but s T 0) index pool (__radix_tree_create s index).
Proof using Type*.
  intros Ht HG Hu Hle. pose proof (tr_shape _ _ _ _ _ _ _ Ht) as Hs. unfold __radix_tree_create. rewrite load_root_eq in *. cbn [snd] in Hle.
  unfold is_u64 in Hu. pose proof map_shift_range. destruct (Z.gtb_spec index (if radix_tree_is_internal_node (xa_head s) then
    node_maxindex s (entry_to_node (xa_head s)) else 0)) as [|_]; [lia|].
  destruct (radix_tree_is_internal_node (xa_head s)) eqn:Hi.
  - destruct (create_from_head s T base pool M G (root_gfp_mask s) index Ht HG Hi) as (r & s' & -> & Hc); [lia|done|].
    refine (created_result _ _ _ _ _ _ _ _ _ Hc _). unfold height. rewrite Hi. destruct (head_node s T base Hs Hi) as (Tr & _).
    destruct (levels_bound (shift_of s (entry_to_node (xa_head s)))) as [? ?]; [by apply (shift_nonneg s T base)|].
    match goal with |- ?x / SH <= _ => replace x with (shift_of s (entry_to_node (xa_head s))) by lia end. unfold RADIX_TREE_PRELOAD_SIZE. lia.
  - unfold height. rewrite Hi. destruct turns_S as (fuel & -> & _). cbn [create_loop]. change (0 >? 0) with false. cbn [negb].
    exists 0, 0, HeadSlot, s. split; [done|]. split; [done|]. left. split; [done|]. exists T, base, pool. split_and!; [done..|]. left. split_and!; done || lia.
Qed.

(** The tree has to grow. *)
Lemma create_high s T base pool M G index : tree s T base pool [] M G -> tags_sub M G -> is_idr s = false -> is_u64 index ->
  index > (radix_tree_load_root s).2 -> create_result s M G (tight_but s T 0) index pool (__radix_tree_create s index).
Proof using Type*.
  intros Ht HG Hidr Hu Hgt. pose proof (tr_shape _ _ _ _ _ _ _ Ht) as Hs. set (gfp := root_gfp_mask s).
  destruct (height_facts s T base index Hs Hu Hgt) as [Hh Hhm]. unfold __radix_tree_create. fold gfp. rewrite load_root_eq in *. cbn [snd] in Hgt.
  destruct (Z.gtb_spec index (if radix_tree_is_internal_node (xa_head s) then node_maxindex s (entry_to_node (xa_head s)) else 0)) as [_|]; [|lia].
  destruct (maxshift_ok turns index (height s) Hu Hh Hhm) as (m & Hm & Hmr & Hmm & Hmi); [destruct turns_S as (fuel & -> & ?); lia|].
  destruct (levels_bound m) as [Hq1 Hq2]; [lia|]. pose proof map_shift_range. unfold is_u64 in Hu.
  assert (Hq3 : (m - height s) / SH <= m / SH) by (apply Z.div_le_mono; lia).
  unfold radix_tree_extend. rewrite Hm. cbn [mbind outcome_bind]. rewrite Hidr. cbn [negb orb]. rewrite andb_true_r.
  destruct (Z.eq_dec (xa_head s) 0) as [He|He].
  - rewrite He. change (bool_of 0) with false. cbn [negb mbind outcome_bind]. destruct (Z.ltb_spec (m + SH) 0) as [|_]; [lia|].
    destruct (create_empty s T base pool M G gfp index m Ht HG He Hu) as (r & s' & Hr & Hc); [lia|done|done|].
    rewrite Hr. refine (created_result _ _ _ _ _ _ _ _ _ (created_weaken _ _ _ _ _ _ _ _ _ _ _ _ (Z.le_refl _) _ Hc) _); [done|].
    unfold RADIX_TREE_PRELOAD_SIZE. lia.
  - rewrite (bool_of_true _ He). cbn [negb].
    destruct (extend_loop_ok turns s T base pool M G gfp m) as (err & s1 & T1 & base1 & pool1 & Hr & Ht1 & Hk1 & Hres);
      try done; [lia|lia|destruct turns_S as (fuel & -> & ?); lia|].
    rewrite Hr. cbn [mbind outcome_bind]. destruct Hres as [(-> & He1 & Hh1 & Hl1 & Hti)|[-> Hno]].
    + change (0 <? 0) with false. cbn [mbind outcome_bind]. destruct (Z.ltb_spec (m + SH) 0) as [|_]; [lia|].
      rewrite <- Hh1. assert (Hi1 : radix_tree_is_internal_node (xa_head s1) = true).
      { unfold height in Hh1. destruct (radix_tree_is_internal_node (xa_head s1)); [done|lia]. }
      destruct (create_from_head s1 T1 base1 pool1 M G gfp index Ht1 HG Hi1) as (r & s' & -> & Hc); [|done|].
      { unfold node_maxindex. fold (shift_of s1 (entry_to_node (xa_head s1))). unfold height in Hh1. rewrite Hi1 in Hh1.
        replace (shift_of s1 (entry_to_node (xa_head s1))) with m by lia. lia. }
      apply (created_result s s' M G (tight_but s T 0) index ((height s1 - SH) / SH + ((m - height s) / SH + 1))).
      * apply (created_trans s s1 s' M G gfp index _ _ pool pool1); [done| |lia].
        exact (created_weaken _ _ _ _ _ _ _ _ _ _ _ _ (Z.le_refl _) Hti Hc).
      * rewrite Hh1. replace (m + SH - SH) with m by lia. unfold RADIX_TREE_PRELOAD_SIZE. lia.
    + change (- ENOMEM <? 0) with true. cbn [mbind outcome_bind]. change (- ENOMEM <? 0) with true. cbn iota.
      eexists _, _, _, s1. split; [reflexivity|]. split; [done|]. right. split; [done|]. split; [by exists T1, base1, pool1|].
      intros Hb. specialize (Hno Hb). unfold RADIX_TREE_PRELOAD_SIZE. lia.
Qed.

Lemma create_ok s T base pool M G index : tree s T base pool [] M G -> tags_sub M G -> is_idr s = false -> is_u64 index ->
  create_result s M G (tight_but s T 0) index pool (__radix_tree_create s index).
Proof using Type*.
  intros Ht HG Hidr Hu. destruct (Z.le_gt_cases index (radix_tree_load_root s).2).
  - by apply (create_low s T base).
  - apply (create_high s T base); [done..|lia].
Qed.

(** ** Insertion *)

(** The bits of the root. *)
Lemma land_bit f k : 0 <= k -> bool_of (Z.land f (Z.shiftl 1 k)) = Z.testbit f k.
Proof using Type.
  intros Hk. rewrite Z.shiftl_1_l. unfold bool_of. destruct (Z.testbit f k) eqn:Hb.
  - destruct (Z.eqb_spec (Z.land f (2 ^ k)) 0) as [E|]; [|done]. apply (f_equal (fun z => Z.testbit z k)) in E.
    by rewrite Z.land_spec, Z.pow2_bits_true, Hb, Z.bits_0 in E.
  - destruct (Z.eqb_spec (Z.land f (2 ^ k)) 0) as [|E]; [done|]. exfalso. apply E, Z.bits_inj'. intros n Hn.
    rewrite Z.land_spec, Z.bits_0. destruct (Z.eq_dec n k) as [->|Hne]; [by rewrite Hb|]. rewrite Z.pow2_bits_false by lia. apply andb_false_r.
Qed.

Lemma root_tag_bit s t : 0 <= t -> root_tag_get s t = Z.testbit (xa_flags s) (t + ROOT_TAG_SHIFT).
Proof using Type*. intros Ht. pose proof root_tag_shift. unfold root_tag_get. apply land_bit. lia. Qed.

Lemma root_tags_zero s : 0 <= xa_flags s < 2 ^ (ROOT_TAG_SHIFT + RADIX_TREE_MAX_TAGS) ->
  (forall t, 0 <= t < RADIX_TREE_MAX_TAGS -> root_tag_get s t = false) -> root_tags_get s = 0.
Proof using Type*.
  intros Hf Ht. pose proof root_tag_shift. pose proof max_tags. apply Z.bits_inj'. intros n Hn. unfold root_tags_get. rewrite Z.shiftr_spec, Z.bits_0 by done.
  destruct (Z.lt_ge_cases n RADIX_TREE_MAX_TAGS) as [Hlt|Hge]; [rewrite <- root_tag_bit by done; by apply Ht|].
  destruct (Z.eq_dec (xa_flags s) 0) as [->|Hne]; [apply Z.bits_0|]. apply Z.bits_above_log2; [lia|].
  apply Z.lt_le_trans with (ROOT_TAG_SHIFT + RADIX_TREE_MAX_TAGS); [apply Z.log2_lt_pow2; lia|lia].
Qed.

(** A radix tree with the items of [M] and the tags of [G], and if [Q] holds without
    empty nodes. *)
Definition radix (Q : Prop) (s : radix_tree_root) (M : Z -> Z) (G : Z -> Z -> bool) : Prop :=
  is_idr s = false /\ tags_sub M G /\ exists T base pool, tree s T base pool [] M G /\ (Q -> tight_but s T 0).

Lemma pool_nr s T base pool F M G : tree s T base pool F M G -> rtp_nr s = Z.of_nat (length pool).
Proof using Type. intros Ht. apply (ow_nr _ _ _ _ (tr_owned _ _ _ _ _ _ _ Ht)). Qed.

Lemma tags_sub_upd M G i e : tags_sub M G -> e <> 0 -> tags_sub (upd M i e) G.
Proof using Type. intros HG He t k Ht Hg. unfold upd. destruct (k =? i); [done|by apply (HG t)]. Qed.

Lemma insert_change s T base p j item : shape s T base -> T p -> slots_of s p j = 0 -> item <> 0 ->
  let s' := (insert_entries s p (NodeSlot p j) item).2 in
  insert_entries s p (NodeSlot p j) item = (1, s') /\ slot_change s s' T p j item /\ kept s s' /\
  (forall pool F, owned s T pool F -> owned s' T pool F).
Proof using Type*.
  intros Hs Tp Hj Hitem s'. pose proof Hj as Hj'. unfold slots_of in Hj'. unfold s', insert_entries. cbn [load_slot]. rewrite Hj'. change (bool_of 0) with false. cbn iota.
  rewrite (bool_of_true p) by (apply object_nonzero; by apply Hs).
  pose proof (sh_count _ _ _ Hs p Tp) as Hc. pose proof (sh_values _ _ _ Hs p Tp) as Hv.
  split; [done|]. cbn [snd]. split_and!.
  - split; try (by destruct (xa_is_value item)).
    + destruct (xa_is_value item) eqn:Hval; simpl; rewrite !upd_same; unfold with_count, with_values, put_slot; simpl;
        rewrite Hj', value_null, Hval, (bool_of_true item) by done; simpl; rewrite Hc, ?Hv, !u8_tally by lia; f_equal; lia.
    + intros a Ta Hne. destruct (xa_is_value item); simpl; by rewrite !upd_other.
  - by destruct (xa_is_value item).
  - intros pool F. apply owned_frame; [by destruct (xa_is_value item)..|]. intros x Nx _.
    destruct (xa_is_value item); simpl; by rewrite !upd_other by (by intros ->).
Qed.

Lemma not_tagged s T base pool M G p index : tree s T base pool [] M G -> tags_sub M G ->
  covers s T base p index -> shift_of s p = 0 -> M index = 0 -> forall t, 0 <= t < RADIX_TREE_MAX_TAGS -> tag_get s p t (digit index 0) = false.
Proof using Type*.
  intros [h1 h2 h3 _] HG Cp Hz HM t Htt. unfold tag_get. destruct (Z.testbit _ _) eqn:Hb; [|done]. exfalso.
  destruct (tg_bits _ _ _ _ h3 p (proj1 Cp) t Htt) as [_ Hbits]. apply Hbits in Hb; [|by apply digit_range].
  destruct Hb as (i & Hi & Hg). rewrite Hz, Z.pow_0_r in Hi. pose proof (leaf_index s T base h1 p index Cp Hz).
  assert (i = index) as -> by lia. by apply (HG t index).
Qed.

(** The end of [radix_tree_insert]. *)
Definition insert_at (s : radix_tree_root) (node : Z) (slot : slotref) (item : Z) : outcome (Z * radix_tree_root) :=
  let '(error, s) := insert_entries s node slot item in
  if error <? 0 then Done (error, s)
  else if bool_of node then
    let offset := get_slot_offset node slot in
    _ ← BUG_ON (tag_get s node 0 offset);
    _ ← BUG_ON (tag_get s node 1 offset);
    _ ← BUG_ON (tag_get s node 2 offset);
    Done (0, s)
  else
    _ ← BUG_ON (bool_of (root_tags_get s));
    Done (0, s).

(** An entry in the one node that could be empty. *)
Lemma tight_entry s T base p j : shape s T base -> tight_but s T p -> 0 <= j < SIZE -> slots_of s p j <> 0 -> tight_but s T 0.
Proof using Type*.
  intros Hs Hti Hj Hn a Ta _. destruct (Z.eq_dec a p) as [->|Hap]; [|by apply Hti]. rewrite (sh_count _ _ _ Hs p Ta).
  pose proof (tally_pos bool_of (slots_of s p) j Hj (bool_of_true _ Hn)). lia.
Qed.

Lemma insert_at_ok Q s M G index node slot item : is_idr s = false -> tags_sub M G -> found s M G Q index node slot ->
  radix_tree_is_internal_node item = false -> item <> 0 ->
  exists err s', insert_at s node slot item = Done (err, s') /\ kept s s' /\
    ((err = 0 /\ M index = 0 /\ radix Q s' (upd M index item) G) \/ (err = - EEXIST /\ M index <> 0 /\ radix Q s' M G)).
Proof using Type*.
  intros Hidr HG (T & base & pool & Ht & Hti & Hpl) Hin Hit. pose proof (tr_shape _ _ _ _ _ _ _ Ht) as Hs.
  pose proof (tr_contents _ _ _ _ _ _ _ Ht) as Hc. pose proof max_tags as Hmt. unfold insert_at.
  destruct Hpl as [(-> & -> & Hi & ->)|(Cn & Hz & ->)].
  - destruct (head_only_facts _ _ _ _ _ _ _ Ht Hi) as (_ & HM0 & Htag). unfold insert_entries. cbn [load_slot]. rewrite HM0.
    destruct (Z.eq_dec (M 0) 0) as [E|E].
    + rewrite E. change (bool_of 0) with false. change (1 <? 0) with false. cbn iota. cbn [store_slot].
      pose proof (set_head_item_ok s T base pool [] M G item Ht Hi Hin) as Ht2.
      rewrite root_tags_zero; [|apply (tr_tagged _ _ _ _ _ _ _ Ht2)|].
      * cbn [BUG_ON mbind outcome_bind]. exists 0, (set_head s item). split_and!; [done..|]. left. split_and!; [done..|].
        split_and!; [done|by apply tags_sub_upd|by exists T, base, pool].
      * intros t Htt. change (root_tag_get s t = false). rewrite Htag by done. destruct (G t 0) eqn:Hg; [|done]. exfalso. by apply (HG t 0).
    + rewrite (bool_of_true _ E). change (- EEXIST <? 0) with true. cbn iota. exists (- EEXIST), s. split_and!; [done..|]. right.
      split_and!; [done..|]. split_and!; [done..|by exists T, base, pool].
  - pose proof (leaf_item s T base Hs M node index Hc Cn Hz) as Hl. pose proof (digit_range index 0 ltac:(lia)) as Hd.
    destruct (Z.eq_dec (M index) 0) as [E|E].
    + rewrite E in Hl. destruct (insert_change s T base node (digit index 0) item Hs (proj1 Cn) Hl Hit) as (Hie & Hch & Hk & Ho).
      rewrite Hie. set (s2 := (insert_entries s node (NodeSlot node (digit index 0)) item).2) in *.
      change (1 <? 0) with false. cbn iota. unfold get_slot_offset. rewrite (bool_of_true node) by (apply object_nonzero, Hs, Cn).
      assert (Htg : forall t, 0 <= t < RADIX_TREE_MAX_TAGS -> tag_get s2 node t (digit index 0) = false).
      { intros t Htt. unfold tag_get. rewrite (sc_tags _ _ _ _ _ _ Hch) by apply Cn. by apply (not_tagged s T base pool M G node index). }
      rewrite !Htg by lia. cbn [BUG_ON mbind outcome_bind]. exists 0, s2. split_and!; [done..|]. left. split_and!; [done..|].
      assert (Ht2 : tree s2 T base pool [] (upd M (base node + digit index 0) item) G).
      { apply (set_item_ok s); try done; [apply Cn|apply Ho, Ht]. }
      split_and!; [by rewrite (is_idr_flags s) by apply Hk|by apply tags_sub_upd|]. exists T, base, pool. split.
      * by rewrite (leaf_index s T base Hs node index Cn Hz) at 1.
      * intros HQ. apply (tight_entry s2 T base node (digit index 0) (tr_shape _ _ _ _ _ _ _ Ht2)); [|done|].
        -- intros a Ta Ha. rewrite (sc_mem _ _ _ _ _ _ Hch) by done. by apply Hti.
        -- by rewrite (sc_slots_same _ _ _ _ _ _ Hch), upd_same.
    + unfold insert_entries. cbn [load_slot]. fold (slots_of s node). rewrite Hl, (bool_of_true _ E). change (- EEXIST <? 0) with true. cbn iota.
      exists (- EEXIST), s. split_and!; [done..|]. right. split_and!; [done..|]. split_and!; [done..|]. exists T, base, pool. split; [done|].
      intros HQ. apply (tight_entry s T base node (digit index 0) Hs); [by apply Hti|done|by rewrite Hl].
Qed.

(** What [radix_tree_insert] does. *)
Lemma insert_ok Q s M G index item : radix Q s M G -> is_u64 index -> radix_tree_is_internal_node item = false -> item <> 0 ->
  exists err s', radix_tree_insert s index item = Done (err, s') /\ rcu s' = rcu s /\
    ((err = 0 /\ M index = 0 /\ radix Q s' (upd M index item) G) \/ (err = - EEXIST /\ M index <> 0 /\ radix Q s' M G) \/
     (err = - ENOMEM /\ radix False s' M G /\ (nonblocking s (root_gfp_mask s) = true -> rtp_nr s < RADIX_TREE_PRELOAD_SIZE))).
Proof using Type*.
  intros (Hidr & HG & T & base & pool & Ht & Hti) Hu Hin Hit. unfold radix_tree_insert. rewrite Hin. cbn [BUG_ON mbind outcome_bind].
  destruct (create_ok s T base pool M G index Ht HG Hidr Hu) as (err & node & slot & s1 & -> & Hk & Hres). cbn [mbind outcome_bind].
  assert (Hidr1 : is_idr s1 = false) by (rewrite (is_idr_flags s) by apply Hk; done).
  destruct Hres as [[-> Hf]|(-> & (T1 & base1 & pool1 & Ht1) & Hno)].
  - change (bool_of 0) with false. cbn iota. fold (insert_at s1 node slot item).
    assert (Hf' : found s1 M G Q index node slot).
    { destruct Hf as (T1 & base1 & pool1 & Ht1 & Hti1 & Hpl). exists T1, base1, pool1. split_and!; auto. }
    destruct (insert_at_ok Q s1 M G index node slot item Hidr1 HG Hf' Hin Hit) as (err & s2 & -> & Hk2 & Hr).
    exists err, s2. split; [done|]. split; [rewrite (kp_rcu _ _ Hk2); apply Hk|]. destruct Hr; [by left|by right; left].
  - change (bool_of (- ENOMEM)) with true. cbn iota. exists (- ENOMEM), s1. split; [done|]. split; [apply Hk|]. right. right.
    split_and!; [done| |by rewrite (pool_nr _ _ _ _ _ _ _ Ht)]. split_and!; [done..|]. exists T1, base1, pool1. split; [done|]. by intros [].
Qed.
End Insert.
