(* ===== verification/RadixTags.v ===== *)
(** * Radix tree: tags

    A tag of an index is a bit in every node on its path and in the root; setting
    it goes down, clearing it goes up as long as nothing else keeps a bit set. *)

From S2P Require Import Prelude Gfp RadixTree RadixInv RadixLookup RadixSteps RadixInsert.

Section Tags.
Context `{RadixSpec} `{KmemSpec}.
Abbreviation SH := RADIX_TREE_MAP_SHIFT.
Abbreviation SIZE := RADIX_TREE_MAP_SIZE.

(** The set of tags with one entry changed. *)
Definition set_tag (G : Z -> Z -> bool) (t i : Z) (b : bool) : Z -> Z -> bool :=
  fun t' i' => if (t' =? t) && (i' =? i) then b else G t' i'.

Lemma set_tag_same G t i b : set_tag G t i b t i = b.
Proof using Type. unfold set_tag. by rewrite !Z.eqb_refl. Qed.
Lemma set_tag_other G t i b t' i' : t' <> t \/ i' <> i -> set_tag G t i b t' i' = G t' i'.
Proof using Type. intros Hne. unfold set_tag. destruct (Z.eqb_spec t' t), (Z.eqb_spec i' i); try done. lia. Qed.

(** ** Changes of tags only *)
Record retagged (s s' : radix_tree_root) (T : Z -> Prop) : Prop := {
  rt_node a : mem s' a = Node (nd_shift (mem s a)) (nd_offset (mem s a)) (nd_count (mem s a)) (nd_nr_values (mem s a))
                (nd_parent (mem s a)) (nd_slots (mem s a)) (nd_tags (mem s' a));
  rt_out a : ~ T a -> mem s' a = mem s a;
  rt_state : s' = set_flags (set_mem s (mem s')) (xa_flags s');
}.

Lemma retagged_refl s T : retagged s s T.
Proof using Type. split; [intros a; by destruct (mem s a)|done|by destruct s]. Qed.

Lemma retagged_trans s1 s2 s3 T : retagged s1 s2 T -> retagged s2 s3 T -> retagged s1 s3 T.
Proof using Type.
  intros [a1 a2 a3] [b1 b2 b3]. split.
  - intros a. rewrite b1. rewrite a1. done.
  - intros a Ha. rewrite b2 by done. by apply a2.
  - rewrite b3. rewrite a3. done.
Qed.

Lemma retagged_step s s' T a t w : retagged s s' T -> T a -> retagged s (set_node s' a (with_tag (mem s' a) t w)) T.
Proof using Type.
  intros [r1 r2 r3] Ta. split.
  - intros x. simpl. unfold upd. destruct (Z.eqb_spec x a) as [->|]; [|apply r1]. rewrite r1 at 1. done.
  - intros x Nx. simpl. rewrite upd_other by (by intros ->). by apply r2.
  - simpl. unfold set_node. rewrite r3 at 1. done.
Qed.

Lemma retagged_flags s s' T f : retagged s s' T -> retagged s (set_flags s' f) T.
Proof using Type. intros [r1 r2 r3]. split; [done|done|]. rewrite r3 at 1. done. Qed.

Section Retag.
Context (s s' : radix_tree_root) (T : Z -> Prop) (base : Z -> Z) (Hr : retagged s s' T).

Lemma rt_shift a : shift_of s' a = shift_of s a.
Proof using Hr. unfold shift_of. by rewrite (rt_node _ _ _ Hr). Qed.
Lemma rt_slots a : slots_of s' a = slots_of s a.
Proof using Hr. unfold slots_of. by rewrite (rt_node _ _ _ Hr). Qed.
Lemma rt_parent a : nd_parent (mem s' a) = nd_parent (mem s a).
Proof using Hr. by rewrite (rt_node _ _ _ Hr). Qed.
Lemma rt_offset a : nd_offset (mem s' a) = nd_offset (mem s a).
Proof using Hr. by rewrite (rt_node _ _ _ Hr). Qed.
Lemma rt_head : xa_head s' = xa_head s.
Proof using Hr. by rewrite (rt_state _ _ _ Hr). Qed.
Lemma rt_span : span s' = span s.
Proof using Hr. unfold span. by rewrite rt_head, rt_shift. Qed.

Lemma rt_shape : shape s T base -> shape s' T base.
Proof using Hr.
  intros Hs. split.
  - apply Hs.
  - intros a. rewrite rt_shift. apply Hs.
  - intros a. rewrite rt_shift. apply Hs.
  - intros a j Ha Hj. rewrite rt_slots, rt_shift. intros Hn. pose proof (sh_slot _ _ _ Hs a j Ha Hj Hn) as Hk.
    destruct (shift_of s a =? 0); [done|]. destruct Hk as (c & Tc & He & Hg). exists c. split_and!; [done..|].
    by apply (hangs_eq s s' base); rewrite ?rt_shift, ?rt_parent, ?rt_offset.
  - intros a Ha. cbv zeta. rewrite rt_parent, rt_offset, rt_shift, rt_slots, rt_head. by apply Hs.
  - rewrite rt_head. intros Hi. destruct (sh_head _ _ _ Hs Hi) as (c & Tc & Hc). exists c. by rewrite rt_parent.
  - intros a Ha. rewrite rt_head, !rt_shift. by apply Hs.
  - intros a Ha. rewrite rt_slots, (rt_node _ _ _ Hr). by apply Hs.
  - intros a Ha. rewrite rt_slots, (rt_node _ _ _ Hr). by apply Hs.
Qed.

Lemma rt_contents M : contents s T base M -> contents s' T base M.
Proof using Hr.
  intros [c1 c2 c3]. split.
  - intros a j. rewrite rt_shift, rt_slots. apply c1.
  - intros i Hi. rewrite rt_head. specialize (c2 i Hi). destruct (radix_tree_is_internal_node _); [|done].
    destruct c2 as (a & Ta & Hz & Hb). exists a. by rewrite rt_shift.
  - by rewrite rt_head.
Qed.

Lemma rt_owned pool F : owned s T pool F -> owned s' T pool F.
Proof using Hr.
  apply owned_frame; [by rewrite (rt_state _ _ _ Hr)..|]. intros x Nx _. by apply (rt_out _ _ _ Hr).
Qed.

Lemma rt_tight p : tight_but s T p -> tight_but s' T p.
Proof using Hr. intros Ht a Ta Hap. rewrite (rt_node _ _ _ Hr). by apply Ht. Qed.

Lemma rt_covers a i : covers s' T base a i <-> covers s T base a i.
Proof using Hr. unfold covers. by rewrite rt_shift. Qed.
End Retag.

(** ** Bits of one node *)
Lemma bits_ext s base G G' a : (forall t i, G t i = G' t i) -> bits_ok s base G a -> bits_ok s base G' a.
Proof using Type.
  intros HG Hb t Ht. destruct (Hb t Ht) as [Hr Hbits]. split; [done|]. intros j Hj. rewrite Hbits by done.
  split; intros (i & Hi & Hg); exists i; (split; [done|]); congruence.
Qed.

(** The bits of the nodes that are not responsible for the index. *)
Lemma bits_elsewhere s T base G a t i b : shape s T base -> T a -> ~ covers s T base a i -> bits_ok s base G a ->
  bits_ok s base (set_tag G t i b) a.
Proof using Type*.
  intros Hs Ta Hn Hb t' Ht. destruct (Hb t' Ht) as [Hr Hbits]. split; [done|]. intros j Hj. rewrite Hbits by done.
  assert (Hne : forall k, base a + j * 2 ^ shift_of s a <= k < base a + (j + 1) * 2 ^ shift_of s a -> k <> i).
  { intros k Hk ->. by apply Hn, (slot_range s T base a j). }
  split; intros (k & Hk & Hg); exists k; (split; [done|]); specialize (Hne k Hk); rewrite set_tag_other in *; auto.
Qed.

(** Bit [digit i] of [a] becomes [b]: right if the change of the set is all that
    matters below that slot. *)
Lemma bits_here s s' T base G a t i (b : bool) : shape s T base -> covers s T base a i -> retagged s s' T ->
  (forall u, u <> t -> nd_tags (mem s' a) u = nd_tags (mem s a) u) ->
  0 <= nd_tags (mem s' a) t < 2 ^ SIZE ->
  (forall j, 0 <= j < SIZE -> Z.testbit (nd_tags (mem s' a) t) j = if j =? digit i (shift_of s a) then b else Z.testbit (nd_tags (mem s a) t) j) ->
  (b = true <-> exists k, base a + digit i (shift_of s a) * 2 ^ shift_of s a <= k < base a + (digit i (shift_of s a) + 1) * 2 ^ shift_of s a /\
     set_tag G t i b t k = true) ->
  bits_ok s base G a -> bits_ok s' base (set_tag G t i b) a.
Proof using Type*.
  intros Hs Ca Hrt Hu Hrange Hbit Hb Hok u Hut. rewrite (rt_shift s s' T Hrt). destruct (Hok u Hut) as [Hr Hbits].
  pose proof (shift_nonneg s T base Hs a (proj1 Ca)) as Hn. destruct (Z.eq_dec u t) as [->|Hne].
  - split; [done|]. intros j Hj. rewrite Hbit by done. destruct (Z.eqb_spec j (digit i (shift_of s a))) as [->|Hjd]; [done|].
    rewrite Hbits by done. split; intros (k & Hk & Hg); exists k; (split; [done|]).
    + rewrite set_tag_other; [done|]. right. intros ->. apply Hjd. apply (digit_unique (base a)); [lia|apply Ca|done].
    + rewrite set_tag_other in Hg; [done|]. right. intros ->. apply Hjd. apply (digit_unique (base a)); [lia|apply Ca|done].
  - rewrite Hu by done. split; [done|]. intros j Hj. rewrite Hbits by done.
    split; intros (k & Hk & Hg); exists k; (split; [done|]); rewrite set_tag_other in *; auto.
Qed.

(** The slot of an index. *)
Lemma own_slot s T base a i : shape s T base -> covers s T base a i ->
  base a + digit i (shift_of s a) * 2 ^ shift_of s a <= i < base a + (digit i (shift_of s a) + 1) * 2 ^ shift_of s a.
Proof using Type*.
  intros Hs [Ta Ca]. pose proof (shift_nonneg s T base Hs a Ta) as Hn. rewrite Ca.
  pose proof (floor_digit i (shift_of s a) ltac:(lia)). pose proof (floor_range i (shift_of s a) ltac:(lia)). lia.
Qed.

Lemma testbit_small w n j : 0 <= n -> 0 <= w < 2 ^ n -> n <= j -> Z.testbit w j = false.
Proof using Type.
  intros Hn Hw Hj. destruct (Z.eq_dec w 0) as [->|]; [apply Z.bits_0|]. apply Z.bits_above_log2; [lia|].
  apply Z.lt_le_trans with n; [apply Z.log2_lt_pow2; lia|done].
Qed.

Lemma bits_range w n : 0 <= n -> 0 <= w -> (forall j, n <= j -> Z.testbit w j = false) -> 0 <= w < 2 ^ n.
Proof using Type.
  intros Hn Hw Hj. split; [done|]. destruct (Z.eq_dec w 0) as [->|]; [by apply pow2_pos|]. apply Z.log2_lt_pow2; [lia|].
  destruct (Z.lt_ge_cases (Z.log2 w) n) as [|Hge]; [done|]. specialize (Hj _ Hge). by rewrite Z.bit_log2 in Hj by lia.
Qed.

Lemma setbit_range w n j : 0 <= w < 2 ^ n -> 0 <= j < n -> 0 <= Z.setbit w j < 2 ^ n.
Proof using Type.
  intros Hw Hj. apply bits_range; [lia|apply Z.lor_nonneg; split; [lia|apply Z.shiftl_nonneg; lia]|].
  intros k Hk. rewrite Z.setbit_eqb by lia. destruct (Z.eqb_spec j k); [lia|]. by apply (testbit_small w n); [lia|..].
Qed.

Lemma clearbit_range w n j : 0 <= n -> 0 <= w < 2 ^ n -> 0 <= Z.clearbit w j < 2 ^ n.
Proof using Type.
  intros Hn Hw. apply bits_range; [lia|apply Z.ldiff_nonneg; lia|].
  intros k Hk. unfold Z.clearbit. rewrite Z.ldiff_spec. by rewrite (testbit_small w n).
Qed.

(** ** The bits of the root *)
Lemma root_set_bit s t u : 0 <= t -> 0 <= u -> root_tag_get (root_tag_set s t) u = (u =? t) || root_tag_get s u.
Proof using Type*.
  intros Ht Hu. pose proof root_tag_shift. rewrite !root_tag_bit by done. simpl. rewrite Z.lor_spec, Z.shiftl_1_l, Z.pow2_bits_eqb by lia.
  rewrite orb_comm. f_equal. destruct (Z.eqb_spec u t), (Z.eqb_spec (t + ROOT_TAG_SHIFT) (u + ROOT_TAG_SHIFT)); try done; lia.
Qed.

Lemma root_clear_bit s t u : 0 <= t -> 0 <= u -> root_tag_get (root_tag_clear s t) u = negb (u =? t) && root_tag_get s u.
Proof using Type*.
  intros Ht Hu. pose proof root_tag_shift. rewrite !root_tag_bit by done. simpl.
  rewrite Z.land_spec, Z.lnot_spec, Z.shiftl_1_l, Z.pow2_bits_eqb, andb_comm by lia.
  f_equal. f_equal. destruct (Z.eqb_spec u t), (Z.eqb_spec (t + ROOT_TAG_SHIFT) (u + ROOT_TAG_SHIFT)); try done; lia.
Qed.

Lemma root_set_range s t : 0 <= xa_flags s < 2 ^ (ROOT_TAG_SHIFT + RADIX_TREE_MAX_TAGS) -> 0 <= t < RADIX_TREE_MAX_TAGS ->
  0 <= xa_flags (root_tag_set s t) < 2 ^ (ROOT_TAG_SHIFT + RADIX_TREE_MAX_TAGS).
Proof using Type*.
  intros Hf Ht. pose proof root_tag_shift. simpl. replace (Z.shiftl 1 (t + ROOT_TAG_SHIFT)) with (1 * 2 ^ (t + ROOT_TAG_SHIFT))
    by (rewrite Z.shiftl_mul_pow2 by lia; done).
  rewrite Z.mul_1_l. rewrite <- Z.setbit_spec'. apply setbit_range; [done|lia].
Qed.

Lemma land_flags_range f g n : 0 <= n -> 0 <= f < 2 ^ n -> 0 <= Z.land f g < 2 ^ n.
Proof using Type.
  intros Hn Hf. apply bits_range; [done|apply Z.land_nonneg; lia|]. intros k Hk. rewrite Z.land_spec. by rewrite (testbit_small f n).
Qed.

Lemma idr_retag s f : (forall n, 0 <= n < ROOT_TAG_SHIFT -> Z.testbit f n = Z.testbit (xa_flags s) n) -> is_idr (set_flags s f) = is_idr s.
Proof using Type*.
  intros Hf. unfold is_idr. simpl. f_equal. apply Z.bits_inj'. intros n Hn. rewrite !Z.land_spec. pose proof root_is_idr. pose proof root_tag_shift.
  destruct (Z.lt_ge_cases n ROOT_TAG_SHIFT) as [Hlt|Hge]; [by rewrite Hf|]. by rewrite (testbit_small ROOT_IS_IDR ROOT_TAG_SHIFT), !andb_false_r.
Qed.

Lemma root_set_idr s t : 0 <= t -> is_idr (root_tag_set s t) = is_idr s.
Proof using Type*.
  intros Ht. apply idr_retag. intros n Hn. rewrite Z.lor_spec, Z.shiftl_1_l, Z.pow2_bits_false by lia. apply orb_false_r.
Qed.
Lemma root_clear_idr s t : 0 <= t -> is_idr (root_tag_clear s t) = is_idr s.
Proof using Type*.
  intros Ht. apply idr_retag. intros n Hn. rewrite Z.land_spec, Z.lnot_spec, Z.shiftl_1_l, Z.pow2_bits_false by lia. apply andb_true_r.
Qed.

(** ** Setting a tag *)

(** The nodes at and above height [n] show the set [G'], those below [G]. *)
Definition between (s : radix_tree_root) (T : Z -> Prop) (base : Z -> Z) (n : Z) (G G' : Z -> Z -> bool) : Prop :=
  forall x, T x -> bits_ok s base (if n <=? shift_of s x then G' else G) x.

Lemma tag_set_here s T base G a t i : shape s T base -> covers s T base a i -> 0 <= t < RADIX_TREE_MAX_TAGS -> bits_ok s base G a ->
  bits_ok (tag_set s a t (digit i (shift_of s a))) base (set_tag G t i true) a.
Proof using Type*.
  intros Hs Ca Ht Hok. pose proof (shift_nonneg s T base Hs a (proj1 Ca)) as Hn. pose proof (digit_range i (shift_of s a) ltac:(lia)) as Hd.
  pose proof size_range. apply (bits_here s _ T); try done.
  - apply retagged_step; [apply retagged_refl|apply Ca].
  - intros u Hu. simpl. rewrite upd_same. simpl. by rewrite upd_other.
  - simpl. rewrite upd_same. simpl. rewrite upd_same. apply setbit_range; [|lia]. by apply Hok.
  - intros j Hj. simpl. rewrite upd_same. simpl. rewrite upd_same, Z.setbit_eqb by lia.
    destruct (Z.eqb_spec j (digit i (shift_of s a))), (Z.eqb_spec (digit i (shift_of s a)) j); try done; lia.
  - split; [|done]. intros _. exists i. split; [by apply (own_slot s T)|apply set_tag_same].
Qed.

(** A step down leaves the height of the change one level lower. *)
Lemma between_down s s' T base G G' a c i : shape s T base -> retagged s s' T -> covers s T base a i ->
  (forall x, T x -> x <> a -> mem s' x = mem s x) -> shift_of s c = shift_of s a - SH ->
  (forall x, T x -> ~ covers s T base x i -> bits_ok s base G x -> bits_ok s base G' x) ->
  bits_ok s' base G' a -> between s T base (shift_of s a + SH) G G' -> between s' T base (shift_of s c + SH) G G'.
Proof using Type*.
  intros Hs Hr Ca Hm Hc HG Ha Hb x Tx. rewrite (rt_shift s s' T Hr), Hc. replace (shift_of s a - SH + SH) with (shift_of s a) by lia.
  destruct (Z.eq_dec x a) as [->|Hne]; [by rewrite Z.leb_refl|].
  assert (Hsame : forall Q, bits_ok s base Q x -> bits_ok s' base Q x).
  { intros Q. apply bits_eq; [by rewrite Hm|apply (rt_shift s s' T Hr)|done]. }
  specialize (Hb x Tx). destruct (Z.leb_spec (shift_of s a) (shift_of s x)) as [Hle|Hlt].
  - apply Hsame. destruct (Z.leb_spec (shift_of s a + SH) (shift_of s x)) as [_|Hlt]; [done|]. apply HG; [done| |done].
    intros Cx. apply Hne, (node_unique s T base Hs x a i); [|done..].
    destruct (Z.eq_dec (shift_of s x) (shift_of s a)); [done|]. pose proof (shift_step s T base Hs a x (proj1 Ca) Tx). lia.
  - apply Hsame. destruct (Z.leb_spec (shift_of s a + SH) (shift_of s x)); [pose proof map_shift_range; lia|done].
Qed.

Lemma bits_eq_pointwise s s' base G a : (forall t, nd_tags (mem s' a) t = nd_tags (mem s a) t) -> shift_of s' a = shift_of s a ->
  bits_ok s base G a -> bits_ok s' base G a.
Proof using Type. intros Ht Hh Hk t. rewrite Ht, Hh. apply Hk. Qed.

(** The bit is set unless it is already. *)
Lemma tag_set_if s T base G a t i : shape s T base -> covers s T base a i -> 0 <= t < RADIX_TREE_MAX_TAGS -> bits_ok s base G a ->
  let d := digit i (shift_of s a) in let s1 := if negb (tag_get s a t d) then tag_set s a t d else s in
  retagged s s1 T /\ (forall x, T x -> x <> a -> mem s1 x = mem s x) /\ xa_flags s1 = xa_flags s /\ bits_ok s1 base (set_tag G t i true) a.
Proof using Type*.
  intros Hs Ca Ht Hok d s1. pose proof (tag_set_here s T base G a t i Hs Ca Ht Hok) as Hset. fold d in Hset.
  pose proof (shift_nonneg s T base Hs a (proj1 Ca)) as Hn. pose proof (digit_range i (shift_of s a) ltac:(lia)) as Hd. fold d in Hd.
  unfold s1. destruct (tag_get s a t d) eqn:Htg; cbn [negb].
  - split_and!; [apply retagged_refl|done..|]. apply (bits_eq_pointwise (tag_set s a t d)); [|unfold shift_of; simpl; by rewrite upd_same|done].
    intros u. simpl. rewrite upd_same. simpl. unfold upd. destruct (Z.eqb_spec u t) as [->|]; [|done].
    apply Z.bits_inj'. intros n Hn0. rewrite Z.setbit_eqb by lia. destruct (Z.eqb_spec d n) as [<-|]; [exact Htg|done].
  - split_and!; [apply retagged_step; [apply retagged_refl|apply Ca]| |done|done]. intros x _ Hx. simpl. by rewrite upd_other.
Qed.

Lemma tag_set_down_ok fuel : forall s T base M G t index a, shape s T base -> contents s T base M -> covers s T base a index -> M index <> 0 ->
  0 <= t < RADIX_TREE_MAX_TAGS -> between s T base (shift_of s a + SH) G (set_tag G t index true) -> (Z.to_nat (shift_of s a) + 1 < fuel)%nat ->
  exists s', tag_set_down fuel s index t (node_to_entry a) = Done (M index, s') /\ retagged s s' T /\ xa_flags s' = xa_flags s /\
    forall x, T x -> bits_ok s' base (set_tag G t index true) x.
Proof using Type*.
  induction fuel as [|fuel IH]; intros s T base M G t index a Hs Hc Ca HM Ht Hb Hf; [lia|]. cbn [tag_set_down].
  assert (Hobj : is_object a) by (apply Hs, Ca). rewrite entry_internal, entry_to_node_entry by done.
  unfold radix_tree_descend. cbv zeta. fold (shift_of s a). fold (digit index (shift_of s a)). fold (slots_of s a).
  pose proof (shift_nonneg s T base Hs a (proj1 Ca)) as Hn. pose proof map_shift_range.
  assert (Hok : bits_ok s base G a). { specialize (Hb a (proj1 Ca)). destruct (Z.leb_spec (shift_of s a + SH) (shift_of s a)); [lia|done]. }
  destruct (tag_set_if s T base G a t index Hs Ca Ht Hok) as (Hr1 & Hm1 & Hf1 & Ha1). cbv zeta in *. set (d := digit index (shift_of s a)) in *.
  set (s1 := if negb (tag_get s a t d) then tag_set s a t d else s) in *.
  assert (HG : forall x, T x -> ~ covers s T base x index -> bits_ok s base G x -> bits_ok s base (set_tag G t index true) x).
  { intros x Tx Hx. by apply (bits_elsewhere s T). }
  destruct (Z.eq_dec (shift_of s a) 0) as [Hz|Hz].
  - assert (Hl : slots_of s a d = M index) by (unfold d; rewrite Hz; by apply (leaf_item s T base)).
    rewrite Hl, (bool_of_true _ HM). cbn [negb BUG_ON mbind outcome_bind]. fold s1.
    assert (Hk : radix_tree_is_internal_node (M index) = false).
    { pose proof (sh_slot _ _ _ Hs a d (proj1 Ca) (digit_range index _ (proj1 Hn))) as Hk. rewrite Hz, Hl in Hk. by apply Hk. }
    destruct fuel as [|fuel]; [lia|]. cbn [tag_set_down]. rewrite Hk. exists s1. split_and!; [done..|].
    intros x Tx. destruct (Z.eq_dec x a) as [->|Hne]; [done|]. apply (bits_eq s s1 base); [by rewrite Hm1|apply (rt_shift s s1 T Hr1)|done|].
    specialize (Hb x Tx). destruct (Z.leb_spec (shift_of s a + SH) (shift_of s x)); [done|]. apply HG; [done| |done].
    intros Cx. apply Hne, (node_unique s T base Hs x a index); [|done..]. pose proof (shift_nonneg s T base Hs x Tx).
    destruct (Z.eq_dec (shift_of s x) 0); [lia|]. pose proof (shift_step s T base Hs a x (proj1 Ca) Tx). lia.
  - destruct (descend s T base Hs a index Ca Hz) as [He|(c & Tc & He & Hg & Cc)]; fold d in He.
    { exfalso. apply HM. by apply (empty_below s T base Hs M a d). }
    rewrite He, (bool_of_true (node_to_entry c)) by (apply entry_nonzero; by apply Hs). cbn [negb BUG_ON mbind outcome_bind]. fold s1.
    pose proof (hg_shift _ _ _ _ _ Hg) as Hsc. pose proof (shift_nonneg s T base Hs c Tc).
    destruct (IH s1 T base M G t index c) as (s' & Hr & Hrt & Hfl & Hall); try done.
    + by apply (rt_shape s).
    + by apply (rt_contents s).
    + by apply (rt_covers s s1).
    + rewrite (rt_shift s s1 T Hr1). by apply (between_down s s1 T base G _ a c index).
    + rewrite (rt_shift s s1 T Hr1). lia.
    + exists s'. split_and!; [done|by apply (retagged_trans s s1)|congruence|done].
Qed.

(** What [radix_tree_tag_set] does with an index that has an item. *)
Lemma tag_set_ok Q s M G index t : radix Q s M G -> is_u64 index -> 0 <= t < RADIX_TREE_MAX_TAGS -> M index <> 0 ->
  exists s', radix_tree_tag_set s index t = Done (M index, s') /\ radix Q s' M (set_tag G t index true) /\ rcu s' = rcu s.
Proof using Type*.
  intros (Hidr & HG & T & base & pool & Ht & Hti) Hu Htt HM. destruct Ht as [h1 h2 h3 h4]. unfold radix_tree_tag_set. rewrite load_root_eq.
  pose proof (item_in_span s T base M index h1 h2 HM) as Hspan.
  assert (HG' : tags_sub M (set_tag G t index true)).
  { intros u i Hut. unfold set_tag. destruct (Z.eqb_spec u t), (Z.eqb_spec i index) as [->|]; cbn [andb]; try done; by apply HG. }
  assert (Hwalk : (index >? (if radix_tree_is_internal_node (xa_head s) then node_maxindex s (entry_to_node (xa_head s)) else 0)) = false /\
    exists s1, tag_set_down turns s index t (xa_head s) = Done (M index, s1) /\ retagged s s1 T /\ xa_flags s1 = xa_flags s /\
    forall x, T x -> bits_ok s1 base (set_tag G t index true) x).
  { unfold is_u64 in Hu. destruct (radix_tree_is_internal_node (xa_head s)) eqn:Hi.
    - destruct (head_node s T base h1 Hi) as (Tr & He & _). pose proof (shift_nonneg s T base h1 _ Tr) as Hn.
      assert (Hmx : index <= node_maxindex s (entry_to_node (xa_head s))).
      { unfold span in Hspan. rewrite Hi in Hspan. unfold node_maxindex. fold (shift_of s (entry_to_node (xa_head s))). rewrite shift_maxindex_eq by done. lia. }
      split; [destruct (Z.gtb_spec index (node_maxindex s (entry_to_node (xa_head s)))); [lia|done]|].
      rewrite He. apply tag_set_down_ok; try done.
      + apply head_covers; [done|done|lia].
      + intros x Tx. destruct (sh_top _ _ _ h1 x Tx) as [_ Htop]. pose proof map_shift_range.
        destruct (Z.leb_spec (shift_of s (entry_to_node (xa_head s)) + SH) (shift_of s x)); [lia|]. by apply h3.
      + destruct turns_S as (fuel & -> & ?). lia.
    - pose proof (no_nodes s T base h1 Hi) as HT. assert (index = 0) as -> by (unfold span in Hspan; rewrite Hi in Hspan; lia).
      split; [done|]. exists s. destruct turns_S as (fuel & -> & _). cbn [tag_set_down]. rewrite Hi, (ct_single _ _ _ _ h2 Hi).
      split_and!; [done|apply retagged_refl|done|]. intros x Tx. by apply HT in Tx. }
  destruct Hwalk as (-> & s1 & -> & Hr1 & Hf1 & Hbits). cbn [BUG_ON mbind outcome_bind].
  set (s2 := if negb (root_tag_get s1 t) then root_tag_set s1 t else s1). exists s2. split; [done|].
  assert (Hg2 : forall u, 0 <= u -> root_tag_get s2 u = (u =? t) || root_tag_get s u).
  { intros u Hu0. assert (Hs1 : root_tag_get s1 u = root_tag_get s u) by (unfold root_tag_get; by rewrite Hf1). rewrite <- Hs1. unfold s2.
    destruct (root_tag_get s1 t) eqn:E; cbn [negb]; [|apply root_set_bit; lia]. destruct (Z.eqb_spec u t) as [->|]; [done|done]. }
  assert (Hr2 : retagged s s2 T) by (unfold s2; destruct (negb _); [by apply retagged_flags|done]).
  assert (Hidr2 : is_idr s2 = false).
  { assert (is_idr s1 = false) by (by rewrite (is_idr_flags s)). unfold s2. destruct (negb _); [by rewrite root_set_idr by lia|done]. }
  split; [|by rewrite (rt_state _ _ _ Hr2)]. split_and!; [done|done|]. exists T, base, pool. split; [|intros HQ; by apply (rt_tight s s2 T Hr2), Hti].
  split; [by apply (rt_shape s)|by apply (rt_contents s)| |by apply (rt_owned s)]. split.
  - intros a Ta. unfold s2. destruct (negb _); [|by apply Hbits]. apply (bits_eq s1 _ base); [done..|by apply Hbits].
  - intros u Hut. rewrite Hg2, (rt_span s s2 T) by (done || lia). destruct (Z.eqb_spec u t) as [->|Hne]; cbn [orb].
    + split; [|done]. intros _. exists index. by rewrite set_tag_same.
    + rewrite (tg_root _ _ _ _ h3 u Hut). split; intros (i & Hi & Hg); exists i; (split; [done|]); rewrite set_tag_other in *; auto.
  - unfold s2. pose proof (tg_flags _ _ _ _ h3) as Hf. rewrite <- Hf1 in Hf. destruct (negb _); [by apply root_set_range|done].
Qed.

(** ** Reading a tag *)
Lemma tag_get_down_ok fuel : forall s T base M G t index a, shape s T base -> contents s T base M -> covers s T base a index ->
  0 <= t < RADIX_TREE_MAX_TAGS -> (forall x, T x -> bits_ok s base G x) -> tags_sub M G -> (Z.to_nat (shift_of s a) + 1 < fuel)%nat ->
  tag_get_down fuel s index t (node_to_entry a) = Done (Z.b2z (G t index)).
Proof using Type*.
  induction fuel as [|fuel IH]; intros s T base M G t index a Hs Hc Ca Ht Hb HG Hf; [lia|]. cbn [tag_get_down].
  assert (Hobj : is_object a) by (apply Hs, Ca). rewrite entry_internal, entry_to_node_entry by done.
  unfold radix_tree_descend. cbv zeta. fold (shift_of s a). fold (digit index (shift_of s a)). fold (slots_of s a).
  pose proof (shift_nonneg s T base Hs a (proj1 Ca)) as Hn. set (d := digit index (shift_of s a)).
  destruct (Hb a (proj1 Ca) t Ht) as [_ Hbit]. specialize (Hbit d (digit_range index _ (proj1 Hn))). fold (tag_get s a t d) in Hbit.
  pose proof (own_slot s T base a index Hs Ca) as Hos. fold d in Hos. pose proof map_shift_range.
  destruct (tag_get s a t d) eqn:Htg; cbn [negb].
  2:{ destruct (G t index) eqn:Hg; [|done]. exfalso. assert (false = true); [apply Hbit; by exists index|done]. }
  destruct (proj1 Hbit eq_refl) as (i & Hi & Hg). pose proof (HG t i Ht Hg) as HMi.
  destruct (Z.eq_dec (shift_of s a) 0) as [Hz|Hz].
  - rewrite Hz, Z.pow_0_r in Hi, Hos. assert (i = index) as -> by lia. rewrite Hg.
    assert (Hl : slots_of s a d = M index) by (unfold d; rewrite Hz; by apply (leaf_item s T base)). rewrite Hl.
    destruct (M index =? RADIX_TREE_RETRY); [done|]. destruct fuel as [|fuel]; [lia|]. cbn [tag_get_down].
    pose proof (sh_slot _ _ _ Hs a d (proj1 Ca) (digit_range index _ (proj1 Hn))) as Hk. rewrite Hz, Hl in Hk. by rewrite Hk.
  - destruct (descend s T base Hs a index Ca Hz) as [He|(c & Tc & He & Hgc & Cc)]; fold d in He.
    { exfalso. apply HMi. destruct (slot_range s T base a d i Hs (proj1 Ca)) as [Ci Hd]; [apply digit_range; lia|done|].
      by apply (empty_below s T base Hs M a d). }
    rewrite He. destruct (Z.eqb_spec (node_to_entry c) RADIX_TREE_RETRY) as [E|_]; [by apply entry_not_retry in E; [|apply Hs]|].
    pose proof (hg_shift _ _ _ _ _ Hgc). pose proof (shift_nonneg s T base Hs c Tc). apply (IH s T base M); try done. lia.
Qed.

(** [radix_tree_tag_get] answers whether the index has the tag. *)
Lemma tag_get_ok Q s M G index t : radix Q s M G -> is_u64 index -> 0 <= t < RADIX_TREE_MAX_TAGS -> radix_tree_tag_get s index t = Done (Z.b2z (G t index)).
Proof using Type*.
  intros (Hidr & HG & T & base & pool & [h1 h2 h3 h4] & _) Hu Ht. unfold radix_tree_tag_get. rewrite load_root_eq.
  pose proof (tg_root _ _ _ _ h3 t Ht) as Hroot.
  assert (Hin : G t index = true -> 0 <= index < span s) by (intros Hg; apply (item_in_span s T base M); [done..|by apply (HG t)]).
  destruct (root_tag_get s t); cbn [negb].
  2:{ destruct (G t index) eqn:Hg; [|done]. assert (false = true); [apply Hroot; exists index; auto|done]. }
  unfold is_u64 in Hu. unfold span in *. destruct (radix_tree_is_internal_node (xa_head s)) eqn:Hi.
  - destruct (head_node s T base h1 Hi) as (Tr & He & _). pose proof (shift_nonneg s T base h1 _ Tr) as Hn.
    destruct (Z.gtb_spec index (node_maxindex s (entry_to_node (xa_head s)))) as [Hgt|Hle].
    + destruct (G t index) eqn:Hg; [exfalso|done]. specialize (Hin eq_refl). unfold node_maxindex in Hgt. fold (shift_of s (entry_to_node (xa_head s))) in Hgt.
      rewrite shift_maxindex_eq in Hgt by done. lia.
    + rewrite He. apply (tag_get_down_ok turns s T base M); try done; [apply head_covers; [done|done|lia]|apply h3|].
      destruct turns_S as (fuel & -> & ?). lia.
  - destruct (Z.gtb_spec index 0) as [Hgt|Hle].
    + destruct (G t index) eqn:Hg; [exfalso|done]. specialize (Hin eq_refl). lia.
    + destruct turns_S as (fuel & -> & _). cbn [tag_get_down]. rewrite Hi. destruct (proj1 Hroot eq_refl) as (i & Hi0 & Hg).
      assert (i = index) as -> by lia. by rewrite Hg.
Qed.

(** ** Clearing a tag *)
Lemma nonzero_bit w n : 0 <= n -> 0 <= w < 2 ^ n -> w <> 0 -> exists j, 0 <= j < n /\ Z.testbit w j = true.
Proof using Type.
  intros Hn Hw Hne. exists (Z.log2 w). split; [split; [apply Z.log2_nonneg|apply Z.log2_lt_pow2; lia]|]. apply Z.bit_log2. lia.
Qed.

(** Another index below the same slot keeps the bit. *)
Lemma bits_keep s T base G a t i k : shape s T base -> covers s T base a i -> set_tag G t i false t k = true ->
  base a + digit i (shift_of s a) * 2 ^ shift_of s a <= k < base a + (digit i (shift_of s a) + 1) * 2 ^ shift_of s a ->
  bits_ok s base G a -> bits_ok s base (set_tag G t i false) a.
Proof using Type*.
  intros Hs Ca Hk Hkr Hok u Hu. destruct (Hok u Hu) as [Hr Hbits]. split; [done|]. intros j Hj. rewrite Hbits by done.
  pose proof (shift_nonneg s T base Hs a (proj1 Ca)) as Hn. split; intros (x & Hx & Hg).
  - destruct (decide (u = t /\ x = i)) as [[-> ->]|Hne].
    + exists k. split; [|done]. by rewrite (digit_unique (base a) i (shift_of s a) j) by (lia || done || apply Ca).
    + exists x. split; [done|]. rewrite set_tag_other; [done|]. destruct (Z.eq_dec u t); [right; intros ->; tauto|by left].
  - exists x. split; [done|]. unfold set_tag in Hg. by destruct ((u =? t) && (x =? i)).
Qed.

Lemma range_covers s T base p i : shape s T base -> T p -> base p <= i < base p + SIZE * 2 ^ shift_of s p <-> covers s T base p i.
Proof using Type*.
  intros Hs Tp. destruct (sh_base _ _ _ Hs p Tp) as [_ Hm]. pose proof (shift_nonneg s T base Hs p Tp) as Hn. pose proof map_shift_range.
  assert (Hpw : SIZE * 2 ^ shift_of s p = 2 ^ (shift_of s p + SH)) by (rewrite size_pow, Z.pow_add_r by lia; lia). rewrite Hpw. split.
  - intros Hi. split; [done|]. symmetry. apply floor_unique; [lia|done|done].
  - intros [_ ->]. apply floor_range. lia.
Qed.

(** A node that covers an index has in one slot everything a node below has. *)
Lemma above_slot s T base p x i k : shape s T base -> covers s T base p i -> covers s T base x i -> covers s T base p k ->
  shift_of s p < shift_of s x ->
  base x + digit i (shift_of s x) * 2 ^ shift_of s x <= k < base x + (digit i (shift_of s x) + 1) * 2 ^ shift_of s x.
Proof using Type*.
  intros Hs [Tp Cp] [Tx Cx] [_ Ck] Hlt. pose proof (shift_nonneg s T base Hs p Tp). pose proof (shift_nonneg s T base Hs x Tx).
  pose proof (shift_step s T base Hs p x Tp Tx Hlt). pose proof map_shift_range.
  assert (Hf : floor k (shift_of s x) = floor i (shift_of s x)).
  { rewrite <- (floor_floor k (shift_of s p + SH)), <- (floor_floor i (shift_of s p + SH)) by lia. congruence. }
  pose proof (floor_range k (shift_of s x) ltac:(lia)). pose proof (floor_digit i (shift_of s x) ltac:(lia)). rewrite Cx. lia.
Qed.

(** Below height [n] the nodes show [G'], from there on [G]. *)
Definition upto (s : radix_tree_root) (T : Z -> Prop) (base : Z -> Z) (n : Z) (G G' : Z -> Z -> bool) : Prop :=
  forall x, T x -> bits_ok s base (if shift_of s x <? n then G' else G) x.

Definition root_ok (s : radix_tree_root) (G : Z -> Z -> bool) : Prop :=
  (forall t, 0 <= t < RADIX_TREE_MAX_TAGS -> root_tag_get s t = true <-> exists i, 0 <= i < span s /\ G t i = true) /\
  0 <= xa_flags s < 2 ^ (ROOT_TAG_SHIFT + RADIX_TREE_MAX_TAGS).

Section ClearStep.
Context (s : radix_tree_root) (T : Z -> Prop) (base : Z -> Z) (G : Z -> Z -> bool) (t index p : Z).
Context (Hs : shape s T base) (Ht : 0 <= t < RADIX_TREE_MAX_TAGS) (Cp : covers s T base p index).
Let G' := set_tag G t index false.
Context (Hb : upto s T base (shift_of s p) G G').
Let d := digit index (shift_of s p).
Context (Hrest : forall i, base p + d * 2 ^ shift_of s p <= i < base p + (d + 1) * 2 ^ shift_of s p -> G' t i = false).
Let s1 := tag_clear s p t d.

Lemma clear_retagged : retagged s s1 T.
Proof using Cp. apply retagged_step; [apply retagged_refl|apply Cp]. Qed.

Lemma own_bits : bits_ok s base G p.
Proof using Hb Cp. specialize (Hb p (proj1 Cp)). by rewrite Z.ltb_irrefl in Hb. Qed.

(** The node itself shows the new set. *)
Lemma clear_here : bits_ok s1 base G' p.
Proof using All.
  pose proof (shift_nonneg s T base Hs p (proj1 Cp)) as Hn. pose proof (digit_range index (shift_of s p) (proj1 Hn)) as Hd. fold d in Hd.
  pose proof size_range. apply (bits_here s s1 T); try done.
  - apply clear_retagged.
  - intros u Hu. unfold s1. simpl. rewrite upd_same. simpl. by rewrite upd_other.
  - unfold s1. simpl. rewrite upd_same. simpl. rewrite upd_same. apply clearbit_range; [lia|]. by apply own_bits.
  - intros j Hj. unfold s1. simpl. rewrite upd_same. simpl. rewrite upd_same, Z.clearbit_eqb by lia. fold d.
    destruct (Z.eqb_spec j d), (Z.eqb_spec d j); try lia; by rewrite ?andb_true_r, ?andb_false_r.
  - split; [done|]. intros (k & Hk & Hg). fold G' in Hg. rewrite Hrest in Hg; done.
  - apply own_bits.
Qed.

(** So do all nodes up to its height. *)
Lemma clear_level x : T x -> shift_of s x <= shift_of s p -> bits_ok s1 base G' x.
Proof using All.
  intros Tx Hle. destruct (Z.eq_dec x p) as [->|Hne]; [apply clear_here|].
  apply (bits_eq s s1 base); [unfold s1; simpl; by rewrite upd_other|apply (rt_shift s s1 T clear_retagged)|done|].
  specialize (Hb x Tx). destruct (Z.ltb_spec (shift_of s x) (shift_of s p)) as [|Hge]; [done|].
  apply (bits_elsewhere s T); [done|done| |done]. intros Cx. apply Hne, (node_unique s T base Hs x p index); [lia|done|done].
Qed.

Lemma clear_above x : T x -> shift_of s p < shift_of s x -> bits_ok s1 base G x.
Proof using All.
  intros Tx Hlt. apply (bits_eq s s1 base); [|apply (rt_shift s s1 T clear_retagged)|done|].
  - unfold s1. simpl. rewrite upd_other; [done|]. intros ->. lia.
  - specialize (Hb x Tx). by destruct (Z.ltb_spec (shift_of s x) (shift_of s p)); [lia|].
Qed.

(** Something else in the node is still tagged. *)
Lemma clear_stop : any_tag_set s1 p t = true -> exists k, covers s T base p k /\ G' t k = true /\ G t k = true.
Proof using All.
  intros Ha. destruct (clear_here t Ht) as [Hr Hbits]. pose proof size_range.
  destruct (nonzero_bit (nd_tags (mem s1 p) t) SIZE) as (j & Hj & Hbit); [lia|done| |].
  { intros E. unfold any_tag_set in Ha. by rewrite E in Ha. }
  apply Hbits in Hbit as (k & Hk & Hg); [|done]. rewrite (rt_shift s s1 T clear_retagged) in Hk. exists k. split_and!; [|done|].
  - apply (slot_range s T base p j k Hs (proj1 Cp) Hj Hk).
  - unfold G', set_tag in Hg. by destruct ((t =? t) && (k =? index)).
Qed.

Lemma clear_empty : any_tag_set s1 p t = false -> forall i, covers s T base p i -> G' t i = false.
Proof using All.
  intros Ha i Ci. destruct (G' t i) eqn:Hg; [exfalso|done]. destruct (clear_here t Ht) as [_ Hbits].
  pose proof (shift_nonneg s T base Hs p (proj1 Cp)) as Hn.
  assert (Hz : nd_tags (mem s1 p) t = 0) by (unfold any_tag_set, bool_of in Ha; by apply negb_false_iff, Z.eqb_eq in Ha).
  specialize (Hbits (digit i (shift_of s p)) (digit_range i _ (proj1 Hn))). rewrite Hz, Z.bits_0, (rt_shift s s1 T clear_retagged) in Hbits.
  assert (false = true); [|done]. apply Hbits. exists i. split; [by apply (own_slot s T)|done].
Qed.
End ClearStep.

(** *** The three ways the walk goes on *)
Section ClearEnd.
Context (s : radix_tree_root) (T : Z -> Prop) (base M : Z -> Z) (G : Z -> Z -> bool) (t index p : Z).
Context (Hs : shape s T base) (Hc : contents s T base M) (HG : tags_sub M G) (Ht : 0 <= t < RADIX_TREE_MAX_TAGS) (Cp : covers s T base p index).
Let G' := set_tag G t index false.
Context (Hb : upto s T base (shift_of s p) G G') (Hroot : root_ok s G).
Let d := digit index (shift_of s p).
Context (Hrest : forall i, base p + d * 2 ^ shift_of s p <= i < base p + (d + 1) * 2 ^ shift_of s p -> G' t i = false).
Let s1 := tag_clear s p t d.

Lemma clear_absent : tag_get s p t d = false -> tagged s T base G'.
Proof using All.
  intros Htg. pose proof (shift_nonneg s T base Hs p (proj1 Cp)) as Hn. destruct (own_bits s T base G t index p Cp Hb t Ht) as [_ Hbit].
  specialize (Hbit d (digit_range index _ (proj1 Hn))). fold (tag_get s p t d) in Hbit. rewrite Htg in Hbit.
  assert (Hgi : G t index = false).
  { destruct (G t index) eqn:Hg; [|done]. exfalso. assert (false = true); [apply Hbit; exists index; split; [by apply (own_slot s T)|done]|done]. }
  assert (Hext : forall u i, G u i = G' u i).
  { intros u i. unfold G', set_tag. destruct (Z.eqb_spec u t) as [->|], (Z.eqb_spec i index) as [->|]; done. }
  destruct Hroot as [Hr Hfl]. split; [|intros u Hu; rewrite Hr by done|done].
  - intros a Ta. specialize (Hb a Ta). destruct (shift_of s a <? shift_of s p); [done|]. by apply (bits_ext s base G).
  - split; intros (i & Hi & Hg); exists i; (split; [done|]); congruence.
Qed.

Lemma clear_tagged_stop : any_tag_set s1 p t = true -> tagged s1 T base G'.
Proof using All.
  intros Hany. pose proof (clear_retagged s T base t index p Cp) as Hr1. fold d in Hr1. fold s1 in Hr1. destruct Hroot as [Hr Hfl].
  destruct (clear_stop s T base G t index p Hs Ht Cp Hb Hrest Hany) as (k & Ck & Hgk' & Hgk). split; [| |done].
  - intros x Tx. destruct (Z.le_gt_cases (shift_of s x) (shift_of s p)) as [Hle|Hgt]; [by apply (clear_level s T base G t index p)|].
    pose proof (clear_above s T base G t index p Hs Ht Cp Hb Hrest x Tx Hgt) as Hx. assert (Hs1 : shape s1 T base) by (by apply (rt_shape s)).
    destruct (decide (base x = floor index (shift_of s x + SH))) as [E|E].
    + assert (Cx : covers s T base x index) by (by split). apply (bits_keep s1 T base G x t index k Hs1); [by apply (rt_covers s s1)|done| |done].
      rewrite (rt_shift s s1 T Hr1). by apply (above_slot s T base p x index k).
    + apply (bits_elsewhere s1 T); [done|done| |done]. rewrite (rt_covers s s1 T base Hr1). by intros [_ ?].
  - intros u Hu. change (root_tag_get s1 u) with (root_tag_get s u). rewrite Hr, (rt_span s s1 T Hr1) by done.
    split; intros (i & Hi & Hg); [|exists i; split; [done|]; unfold G', set_tag in Hg; by destruct ((u =? t) && (i =? index))].
    destruct (decide (u = t)) as [->|Hne]; [|exists i; split; [done|]; unfold G'; rewrite set_tag_other; auto].
    exists k. split; [|done]. apply (item_in_span s T base M); [done|done|by apply (HG t)].
Qed.

Lemma clear_tagged_root : any_tag_set s1 p t = false -> nd_parent (mem s p) = 0 ->
  let s2 := if root_tag_get s1 t then root_tag_clear s1 t else s1 in retagged s s2 T /\ tagged s2 T base G' /\ is_idr s2 = is_idr s.
Proof using All.
  intros Hany Ep s2. pose proof (clear_retagged s T base t index p Cp) as Hr1. fold d in Hr1. fold s1 in Hr1. destruct Hroot as [Hr Hfl].
  pose proof (clear_empty s T base G t index p Hs Ht Cp Hb Hrest Hany) as Hemp. fold G' in Hemp.
  pose proof (shift_nonneg s T base Hs p (proj1 Cp)) as Hn. pose proof map_shift_range.
  destruct (sh_parent _ _ _ Hs p (proj1 Cp)) as [(_ & Hh & Hb0 & _)|(Tq & _)].
  2:{ rewrite Ep in Tq. apply Hs in Tq as [_ ?]. lia. }
  assert (Hr2 : retagged s s2 T) by (unfold s2; destruct (root_tag_get s1 t); [by apply retagged_flags|done]).
  assert (Htop : forall x, T x -> shift_of s x <= shift_of s p).
  { intros x Tx. destruct (sh_top _ _ _ Hs x Tx) as [_ Htop]. by rewrite Hh, entry_to_node_entry in Htop by (apply Hs, Cp). }
  assert (Hg2 : forall u, 0 <= u -> root_tag_get s2 u = negb (u =? t) && root_tag_get s u).
  { intros u Hu. unfold s2. destruct (root_tag_get s1 t) eqn:E; [by rewrite root_clear_bit by lia|]. by destruct (Z.eqb_spec u t) as [->|]. }
  split_and!; [done| |unfold s2; destruct (root_tag_get s1 t); [by rewrite root_clear_idr by lia|done]]. split.
  - intros x Tx. apply (bits_eq s1 s2 base); [unfold s2; by destruct (root_tag_get s1 t)|rewrite (rt_shift s s1 T Hr1), (rt_shift s s2 T Hr2); done|done|].
    apply (clear_level s T base G t index p); try done. by apply Htop.
  - intros u Hu. rewrite Hg2, (rt_span s s2 T Hr2) by lia. destruct (Z.eqb_spec u t) as [->|Hne]; cbn [negb andb].
    + split; [done|]. intros (i & Hi & Hg). rewrite Hemp in Hg; [done|]. apply (range_covers s T base); [done|apply Cp|].
      unfold span in Hi. rewrite Hh, entry_internal, entry_to_node_entry in Hi by (apply Hs, Cp).
      rewrite Hb0, size_pow, <- Z.pow_add_r by lia. rewrite (Z.add_comm SH). lia.
    + rewrite Hr by done. split; intros (i & Hi & Hg); exists i; (split; [done|]); unfold G' in *; rewrite set_tag_other in *; auto.
  - unfold s2. destruct (root_tag_get s1 t); [|done]. simpl. apply land_flags_range; [|done]. pose proof root_tag_shift. pose proof max_tags. lia.
Qed.
End ClearEnd.

Lemma tag_clear_up_ok fuel : forall s T base M G t index p, shape s T base -> contents s T base M -> tags_sub M G ->
  0 <= t < RADIX_TREE_MAX_TAGS -> covers s T base p index -> let G' := set_tag G t index false in upto s T base (shift_of s p) G G' -> root_ok s G ->
  (forall i, base p + digit index (shift_of s p) * 2 ^ shift_of s p <= i < base p + (digit index (shift_of s p) + 1) * 2 ^ shift_of s p -> G' t i = false) ->
  (Z.to_nat (64 - shift_of s p) + 1 < fuel)%nat ->
  exists s', tag_clear_up fuel s p t (digit index (shift_of s p)) = Done s' /\ retagged s s' T /\ tagged s' T base G' /\ is_idr s' = is_idr s.
Proof using Type*.
  induction fuel as [|fuel IH]; intros s T base M G t index p Hs Hc HG Ht Cp G' Hb Hroot Hrest Hf; [lia|]. cbn [tag_clear_up].
  rewrite (bool_of_true p) by (apply object_nonzero, Hs, Cp). pose proof (shift_nonneg s T base Hs p (proj1 Cp)) as Hn. pose proof map_shift_range.
  destruct (tag_get s p t (digit index (shift_of s p))) eqn:Htg; cbn [negb].
  2:{ exists s. split_and!; [done|apply retagged_refl|by apply (clear_absent s T base M G t index p)|done]. }
  pose proof (clear_retagged s T base t index p Cp) as Hr1. set (s1 := tag_clear s p t (digit index (shift_of s p))) in *.
  destruct (any_tag_set s1 p t) eqn:Hany.
  { exists s1. split_and!; [done..|by apply (clear_tagged_stop s T base M G t index p)|done]. }
  rewrite (rt_parent s s1 T Hr1), (rt_offset s s1 T Hr1). assert (Hs1 : shape s1 T base) by (by apply (rt_shape s)).
  destruct (Z.eq_dec (nd_parent (mem s p)) 0) as [Ep|Ep].
  { rewrite Ep. destruct fuel as [|fuel]; [lia|]. cbn [tag_clear_up]. change (bool_of 0) with false. cbn iota.
    destruct (clear_tagged_root s T base M G t index p Hs Hc HG Ht Cp Hb Hroot Hrest Hany Ep) as (? & ? & ?). by eexists. }
  pose proof (clear_empty s T base G t index p Hs Ht Cp Hb Hrest Hany) as Hemp. fold G' in Hemp.
  destruct (parent_facts s T base Hs p (proj1 Cp) Ep) as (Tq & _ & _ & Hg & Hzq). destruct (parent_base s T base Hs p (proj1 Cp) Ep index Cp) as [Cq Ho].
  set (q := nd_parent (mem s p)) in *. pose proof (hg_shift _ _ _ _ _ Hg) as Hsq. pose proof (shift_nonneg s T base Hs q Tq).
  assert (Hso : nd_offset (mem s p) = digit index (shift_of s1 q)) by (rewrite Ho, (rt_shift s s1 T Hr1); f_equal; lia). rewrite Hso.
  destruct (IH s1 T base M G t index q) as (s' & Hr & Hrt & Htag & Hid); try done.
  - by apply (rt_contents s).
  - by apply (rt_covers s s1).
  - intros x Tx. rewrite !(rt_shift s s1 T Hr1). destruct (Z.ltb_spec (shift_of s x) (shift_of s q)) as [Hlt|Hge].
    + apply (clear_level s T base G t index p); try done. pose proof (shift_step s T base Hs x q Tx Tq Hlt). lia.
    + apply (clear_above s T base G t index p); try done. lia.
  - split; [|apply Hroot]. intros u Hu. rewrite (rt_span s s1 T Hr1). by apply Hroot.
  - intros i Hi. rewrite (rt_shift s s1 T Hr1) in Hi. apply Hemp, (range_covers s T base); [done|apply Cp|].
    assert (Hof : digit index (shift_of s q) = nd_offset (mem s p)) by (rewrite Hso, (rt_shift s s1 T Hr1); done). rewrite Hof in Hi.
    rewrite (hg_base _ _ _ _ _ Hg), size_pow. replace (2 ^ SH * 2 ^ shift_of s p) with (2 ^ shift_of s q); [lia|].
    rewrite <- Z.pow_add_r by lia. f_equal. lia.
  - rewrite (rt_shift s s1 T Hr1). lia.
  - exists s'. split_and!; [done|by apply (retagged_trans s s1)|done|]. by rewrite Hid.
Qed.

(** [node_tag_clear] at the place of an index. *)
Lemma node_tag_clear_ok s T base pool M G t index p slot : tree s T base pool [] M G -> tags_sub M G -> 0 <= t < RADIX_TREE_MAX_TAGS ->
  place s T base M index p slot -> (p <> 0 -> shift_of s p = 0) ->
  exists s', node_tag_clear s p t (get_slot_offset p slot) = Done s' /\ retagged s s' T /\ tree s' T base pool [] M (set_tag G t index false) /\
    is_idr s' = is_idr s.
Proof using Type*.
  intros [h1 h2 h3 h4] HG Ht Hp Hz. unfold node_tag_clear.
  assert (Hfin : forall s', retagged s s' T -> tagged s' T base (set_tag G t index false) -> tree s' T base pool [] M (set_tag G t index false)).
  { intros s' Hr Htg. split; [by apply (rt_shape s)|by apply (rt_contents s)|done|by apply (rt_owned s)]. }
  destruct Hp as [Hi -> HM|p Cp Hsl _].
  - pose proof (no_nodes s T base h1 Hi) as HT. destruct turns_S as (fuel & -> & _). cbn [tag_clear_up]. change (bool_of 0) with false. cbn iota.
    set (s2 := if root_tag_get s t then root_tag_clear s t else s). exists s2.
    assert (Hr2 : retagged s s2 T) by (unfold s2; destruct (root_tag_get s t); [apply retagged_flags|]; apply retagged_refl).
    assert (Hg2 : forall u, 0 <= u -> root_tag_get s2 u = negb (u =? t) && root_tag_get s u).
    { intros u Hu. unfold s2. destruct (root_tag_get s t) eqn:E; [by rewrite root_clear_bit by lia|]. by destruct (Z.eqb_spec u t) as [->|]. }
    split_and!; [done|done| |unfold s2; destruct (root_tag_get s t); [by rewrite root_clear_idr by lia|done]]. apply Hfin; [done|]. split.
    + intros a Ta. by apply HT in Ta.
    + intros u Hu. rewrite Hg2, (rt_span s s2 T Hr2) by lia. unfold span. rewrite Hi. destruct (Z.eqb_spec u t) as [->|Hne]; cbn [negb andb].
      * split; [done|]. intros (i & Hi0 & Hg). assert (i = 0) as -> by lia. by rewrite set_tag_same in Hg.
      * rewrite (tg_root _ _ _ _ h3 u Hu). unfold span. rewrite Hi. split; intros (i & Hi0 & Hg); exists i; (split; [done|]); rewrite set_tag_other in *; auto.
    + unfold s2. pose proof (tg_flags _ _ _ _ h3). destruct (root_tag_get s t); [|done]. simpl. apply land_flags_range; [|done].
      pose proof root_tag_shift. pose proof max_tags. lia.
  - assert (Hz0 : shift_of s p = 0) by (apply Hz, object_nonzero, h1, Cp). unfold get_slot_offset.
    rewrite (bool_of_true p) by (apply object_nonzero, h1, Cp).
    destruct (tag_clear_up_ok turns s T base M G t index p) as (s' & Hr & Hrt & Htag & Hid); try done.
    + intros x Tx. destruct (Z.ltb_spec (shift_of s x) (shift_of s p)); [pose proof (shift_nonneg s T base h1 x Tx); lia|]. by apply h3.
    + split; apply h3.
    + intros i Hi. rewrite Hz0, Z.pow_0_r in Hi. pose proof (leaf_index s T base h1 p index Cp Hz0). assert (i = index) as -> by lia. apply set_tag_same.
    + destruct turns_S as (fuel & -> & ?). rewrite Hz0. lia.
    + exists s'. split_and!; [done|done|by apply Hfin|done].
Qed.

(** ** [radix_tree_tag_clear] *)
Lemma find_down_ok fuel : forall s T base M index a parent offset, shape s T base -> contents s T base M -> covers s T base a index ->
  (Z.to_nat (shift_of s a) + 1 < fuel)%nat ->
  exists p, find_down fuel s index parent offset (node_to_entry a) = Done (M index, p, digit index (shift_of s p)) /\
    place s T base M index p (NodeSlot p (digit index (shift_of s p))).
Proof using Type*.
  induction fuel as [|fuel IH]; intros s T base M index a parent offset Hs Hc Ca Hf; [lia|]. cbn [find_down].
  assert (Hobj : is_object a) by (apply Hs, Ca). rewrite entry_internal, entry_to_node_entry by done.
  unfold radix_tree_descend. cbv zeta. fold (shift_of s a). fold (digit index (shift_of s a)). fold (slots_of s a).
  pose proof (shift_nonneg s T base Hs a (proj1 Ca)) as Hn. pose proof map_shift_range.
  destruct (Z.eq_dec (shift_of s a) 0) as [Hz|Hz].
  - assert (Hl : slots_of s a (digit index (shift_of s a)) = M index) by (rewrite Hz; by apply (leaf_item s T base)). rewrite Hl.
    assert (Hk : radix_tree_is_internal_node (M index) = false).
    { destruct (Z.eq_dec (M index) 0) as [->|HM]; [apply null_not_internal|].
      pose proof (sh_slot _ _ _ Hs a _ (proj1 Ca) (digit_range index _ (proj1 Hn))) as Hk. rewrite Hz in Hk. rewrite Hz in Hl. rewrite Hl in Hk. by apply Hk. }
    destruct fuel as [|fuel]; [lia|]. cbn [find_down]. rewrite Hk. exists a. split; [done|]. by constructor.
  - destruct (descend s T base Hs a index Ca Hz) as [He|(c & Tc & He & Hg & Cc)]; rewrite He.
    + pose proof (empty_below s T base Hs M a _ index Hc Ca Hz eq_refl He) as HM. destruct fuel as [|fuel]; [lia|]. cbn [find_down].
      rewrite null_not_internal, HM. exists a. split; [done|]. constructor; [done|congruence|done].
    + pose proof (hg_shift _ _ _ _ _ Hg). pose proof (shift_nonneg s T base Hs c Tc). apply IH; try done. lia.
Qed.

(** [radix_tree_tag_clear] clears the tag of the index and nothing else. *)
Lemma tag_clear_ok Q s M G index t : radix Q s M G -> is_u64 index -> 0 <= t < RADIX_TREE_MAX_TAGS ->
  exists s', radix_tree_tag_clear s index t = Done (M index, s') /\ radix Q s' M (set_tag G t index false) /\ rcu s' = rcu s.
Proof using Type*.
  intros (Hidr & HG & T & base & pool & Ht & Hti) Hu Htt. pose proof Ht as [h1 h2 h3 h4]. unfold radix_tree_tag_clear. rewrite load_root_eq.
  assert (HG' : tags_sub M (set_tag G t index false)).
  { intros u i Hut Hg. unfold set_tag in Hg. destruct ((u =? t) && (i =? index)); [done|]. by apply (HG u). }
  assert (Habsent : M index = 0 -> radix Q s M (set_tag G t index false)).
  { intros HM. assert (Hext : forall u i, 0 <= u < RADIX_TREE_MAX_TAGS -> G u i = set_tag G t index false u i).
    { intros u i Hut. unfold set_tag. destruct (Z.eqb_spec u t) as [->|], (Z.eqb_spec i index) as [->|]; cbn [andb]; try done.
      destruct (G t index) eqn:Hg; [|done]. by apply (HG t) in Hg. }
    split_and!; [done|done|]. exists T, base, pool. split; [|done]. split; [done|done| |done]. split; [| |apply h3].
    - intros a Ta u Hut. destruct (tg_bits _ _ _ _ h3 a Ta u Hut) as [Hr Hbits]. split; [done|]. intros j Hj. rewrite Hbits by done.
      split; intros (i & Hi & Hg); exists i; (split; [done|]); rewrite Hext in *; done.
    - intros u Hut. rewrite (tg_root _ _ _ _ h3 u Hut). split; intros (i & Hi & Hg); exists i; (split; [done|]); rewrite Hext in *; done. }
  assert (Hwalk : forall p slot, place s T base M index p slot ->
    exists s', (if bool_of (M index) then s0 ← node_tag_clear s p t (get_slot_offset p slot); Done (M index, s0) else Done (M index, s)) = Done (M index, s') /\
      radix Q s' M (set_tag G t index false) /\ rcu s' = rcu s).
  { intros p slot Hp. destruct (Z.eq_dec (M index) 0) as [E|E]; [rewrite E; change (bool_of 0) with false; exists s; auto|].
    rewrite (bool_of_true _ E). destruct (node_tag_clear_ok s T base pool M G t index p slot Ht HG Htt Hp) as (s' & -> & Hr & Ht' & Hid).
    { intros Hp0. destruct Hp as [|p Cp _ Hz]; [done|]. by apply Hz. }
    cbn [mbind outcome_bind]. exists s'. split; [done|]. split; [|by rewrite (rt_state _ _ _ Hr)]. split_and!; [congruence|done|]. exists T, base, pool. split; [done|]. intros HQ. by apply (rt_tight s s' T Hr), Hti. }
  unfold is_u64 in Hu. destruct (radix_tree_is_internal_node (xa_head s)) eqn:Hi.
  - destruct (head_node s T base h1 Hi) as (Tr & He & _). pose proof (shift_nonneg s T base h1 _ Tr) as Hn.
    destruct (Z.gtb_spec index (node_maxindex s (entry_to_node (xa_head s)))) as [Hgt|Hle].
    + assert (HM : M index = 0).
      { destruct (Z.eq_dec (M index) 0) as [|HM]; [done|]. pose proof (item_in_span s T base M index h1 h2 HM) as Hsp. unfold span in Hsp. rewrite Hi in Hsp.
        unfold node_maxindex in Hgt. fold (shift_of s (entry_to_node (xa_head s))) in Hgt. rewrite shift_maxindex_eq in Hgt by done. lia. }
      rewrite HM. exists s. auto.
    + destruct (find_down_ok turns s T base M index (entry_to_node (xa_head s)) 0 0 h1 h2) as (p & Hfd & Hp); [apply head_covers; [done|done|lia]| |].
      { destruct turns_S as (fuel & -> & ?). lia. }
      rewrite He, Hfd. cbn [mbind outcome_bind]. assert (Hp0 : p <> 0) by (inversion Hp; subst; apply object_nonzero, h1; by apply H3).
      destruct (Hwalk p _ Hp) as (s' & Hw & Hres). unfold get_slot_offset in Hw. rewrite (bool_of_true _ Hp0) in Hw. by exists s'.
  - destruct (Z.gtb_spec index 0) as [Hgt|Hle].
    + assert (HM : M index = 0).
      { destruct (Z.eq_dec (M index) 0) as [|HM]; [done|]. pose proof (item_in_span s T base M index h1 h2 HM) as Hsp. unfold span in Hsp. rewrite Hi in Hsp. lia. }
      rewrite HM. exists s. auto.
    + assert (index = 0) as -> by lia. destruct turns_S as (fuel & -> & _). cbn [find_down]. rewrite Hi. cbn [mbind outcome_bind].
      rewrite (ct_single _ _ _ _ h2 Hi). apply (Hwalk 0 HeadSlot). constructor; [done|done|by apply (ct_single _ _ _ _ h2)].
Qed.
End Tags.
