(* ===== verification/RadixDelete.v ===== *)
(** * Radix tree: deletion

    Removing an item, the nodes that become empty, and the levels that are not
    needed any more. *)

From S2P Require Import Prelude Gfp RadixTree RadixInv RadixLookup RadixSteps RadixInsert RadixTags.

Section Delete.
Context `{RadixSpec} `{KmemSpec}.
Abbreviation SH := RADIX_TREE_MAP_SHIFT.
Abbreviation SIZE := RADIX_TREE_MAP_SIZE.

Lemma tally_none f : tally bool_of f = 0 -> forall j, 0 <= j < SIZE -> f j = 0.
Proof using Type.
  intros Hz j Hj. destruct (Z.eq_dec (f j) 0) as [|Hn]; [done|]. pose proof (tally_pos bool_of f j Hj (bool_of_true _ Hn)). lia.
Qed.

(** ** Shrinking *)
Lemma lower_eq s r child : is_idr s = false -> let s1 := if radix_tree_is_internal_node child
           then set_node s (entry_to_node child) (with_parent (mem s (entry_to_node child)) 0) else s in
  (let s := set_head s1 child in
   let s := if is_idr s && negb (tag_get s r IDR_FREE 0) then root_tag_clear s IDR_FREE else s in
   let s := set_node s r (with_count (mem s r) 0) in
   let s := if negb (radix_tree_is_internal_node child) then set_node s r (with_slot (mem s r) 0 RADIX_TREE_RETRY) else s in
   radix_tree_node_free s r) = lower s r child.
Proof using Type.
  intros Hid s1. assert (Hid1 : is_idr (set_head s1 child) = false) by (unfold s1; destruct (radix_tree_is_internal_node child); exact Hid).
  cbv zeta. rewrite Hid1. done.
Qed.

Lemma lower_keeps s r child : is_idr (lower s r child) = is_idr s /\ (forall a, a <> r -> nd_count (mem (lower s r child) a) = nd_count (mem s a)).
Proof using Type.
  unfold lower. split; [by destruct (radix_tree_is_internal_node child)|]. intros a Ha.
  destruct (radix_tree_is_internal_node child); simpl; rewrite !upd_other by done; [|done].
  unfold upd. destruct (Z.eqb_spec a (entry_to_node child)) as [->|]; done.
Qed.

Definition rounds (s : radix_tree_root) : Z :=
  if radix_tree_is_internal_node (xa_head s) then shift_of s (entry_to_node (xa_head s)) + 1 else 0.

Lemma shrink_loop_ok fuel : forall s T base pool M G b, tree s T base pool [] M G -> tags_sub M G -> is_idr s = false ->
  (Z.to_nat (rounds s) < fuel)%nat -> exists b' s' T', shrink_loop fuel s b = Done (b', s') /\ tree s' T' base pool [] M G /\ is_idr s' = false /\
    (tight_but s T 0 -> tight_but s' T' 0).
Proof using Type*.
  induction fuel as [|fuel IH]; intros s T base pool M G b Ht HG Hid Hf; [lia|]. cbn [shrink_loop]. pose proof (tr_shape _ _ _ _ _ _ _ Ht) as Hs.
  destruct (radix_tree_is_internal_node (xa_head s)) eqn:Hi; cbn [negb]; [|by exists b, s, T].
  set (r := entry_to_node (xa_head s)). destruct (Z.eqb_spec (nd_count (mem s r)) 1) as [Hone|]; cbn [negb]; [|by exists b, s, T].
  fold (slots_of s r). destruct (Z.eq_dec (slots_of s r 0) 0) as [E|E]; [rewrite E; by exists b, s, T|].
  rewrite (bool_of_true _ E). cbn [negb]. rewrite Hid, andb_false_r. rewrite lower_eq by done.
  destruct (head_node s T base Hs Hi) as (Tr & He & _). pose proof (lower_keeps s r (slots_of s r 0)) as [Hidl Hcl].
  assert (Hti : tight_but s T 0 -> tight_but (lower s r (slots_of s r 0)) (fun x => T x /\ x <> r) 0).
  { intros Hti a [Ta Har] Ha. rewrite Hcl by done. by apply Hti. }
  pose proof (shift_nonneg s T base Hs r Tr). pose proof map_shift_range.
  assert (Hhs : rounds s = shift_of s r + 1) by (unfold rounds; by rewrite Hi).
  destruct (radix_tree_is_internal_node (slots_of s r 0)) eqn:Hn.
  - pose proof (lower_node_ok s T base pool M G Ht Hi Hone E Hn HG) as Ht'.
    destruct (only_child s T base pool M G Ht Hi Hone E Hn) as (Tc & Hec & Hg & Hz & Hcr).
    destruct (lower_mem s T base pool M G Ht Hi Hone E Hn) as (Mc & _ & Hh & _). fold r in Tc, Hec, Hg, Hz, Hcr, Mc, Hh, Ht'.
    destruct (IH _ _ _ _ _ _ true Ht' HG) as (b' & s' & T' & Hr & Ht2 & Hid2 & Hti2); [by rewrite Hidl| |].
    + unfold rounds at 1. rewrite Hh, entry_internal, entry_to_node_entry by (by apply Hs). unfold shift_of. rewrite Mc.
      cbn [with_parent nd_shift]. fold (shift_of s (entry_to_node (slots_of s r 0))). pose proof (hg_shift _ _ _ _ _ Hg) as Hhg.
      pose proof (shift_nonneg s T base Hs _ Tc). lia.
    + exists b', s', T'. split_and!; auto.
  - pose proof (lower_item_ok s T base pool M G Ht Hi Hone E Hn HG) as Ht'. fold r in Ht'.
    destruct (IH _ _ _ _ _ _ true Ht' HG) as (b' & s' & T' & Hr & Ht2 & Hid2 & Hti2); [by rewrite Hidl| |].
    + unfold rounds at 1. assert (Hh : xa_head (lower s r (slots_of s r 0)) = slots_of s r 0) by (unfold lower; by rewrite Hn). rewrite Hh, Hn. lia.
    + exists b', s', T'. split_and!; auto.
Qed.

Lemma rounds_bound s T base : shape s T base -> 0 <= rounds s <= 64.
Proof using Type*.
  intros Hs. unfold rounds. pose proof map_shift_range. destruct (radix_tree_is_internal_node (xa_head s)) eqn:Hi; [|lia].
  destruct (head_node s T base Hs Hi) as (Tr & _). pose proof (shift_nonneg s T base Hs _ Tr). lia.
Qed.

(** ** Freeing empty nodes *)
Lemma unlink_change s T base a : shape s T base -> T a -> let p := nd_parent (mem s a) in p <> 0 ->
  let s1 := set_node s p (with_slot (mem s p) (nd_offset (mem s a)) 0) in
  let s2 := set_node s1 p (with_count (mem s1 p) (u8 (nd_count (mem s1 p) - 1))) in
  slot_change s s2 T p (nd_offset (mem s a)) 0 /\ (forall pool F, owned s T pool F -> owned s2 T pool F).
Proof using Type*.
  intros Hs Ta p Hp s1 s2. destruct (parent_facts s T base Hs a Ta Hp) as (Tp & Hj & Hsl & _). fold p in Tp, Hsl.
  assert (Hne : slots_of s p (nd_offset (mem s a)) <> 0) by (rewrite Hsl; apply entry_nonzero; by apply Hs).
  pose proof (tally_pos bool_of (slots_of s p) _ Hj (bool_of_true _ Hne)). pose proof (tally_range bool_of (slots_of s p)). pose proof size_range. split.
  - split; try done.
    + unfold s2, s1. simpl. rewrite !upd_same. unfold with_count, put_slot. simpl. fold (slots_of s p).
      rewrite (sh_count _ _ _ Hs p Tp), Hsl, (bool_of_true (node_to_entry a)), entry_not_value, value_null by (by apply entry_nonzero, Hs || by apply Hs).
      unfold u8. rewrite Z.mod_small by lia. simpl. unfold slots_of. f_equal; lia.
    + intros x Tx Hx. unfold s2, s1. simpl. by rewrite !upd_other.
  - intros pool F. apply owned_frame; [done..|]. intros x Nx _. unfold s2, s1. simpl. by rewrite !upd_other by (by intros ->).
Qed.

(** The nodes that [delete_node] leaves are those that were not empty. *)
Lemma delete_loop_ok fuel : forall s T base pool M G p b, tree s T base pool [] M G -> tags_sub M G -> is_idr s = false -> T p ->
  (Z.to_nat (64 - shift_of s p) < fuel)%nat ->
  exists b' s' T', delete_loop fuel s p b = Done (b', s') /\ tree s' T' base pool [] M G /\ is_idr s' = false /\
    (tight_but s T p -> tight_but s' T' 0).
Proof using Type*.
  induction fuel as [|fuel IH]; intros s T base pool M G p b Ht HG Hid Tp Hf; [lia|]. cbn [delete_loop].
  pose proof (tr_shape _ _ _ _ _ _ _ Ht) as Hs. pose proof map_shift_range. destruct (Z.eq_dec (nd_count (mem s p)) 0) as [Hc|Hc].
  - rewrite Hc. change (bool_of 0) with false. cbn iota. rewrite (sh_count _ _ _ Hs p Tp) in Hc. pose proof (tally_none _ Hc) as Hemp.
    destruct (Z.eq_dec (nd_parent (mem s p)) 0) as [Ep|Ep].
    + rewrite Ep. change (bool_of 0) with false. cbn iota. rewrite Hid. cbn [negb]. set (s1 := root_tag_clear_all s).
      pose proof root_tag_shift. pose proof max_tags. pose proof (tg_flags _ _ _ _ (tr_tagged _ _ _ _ _ _ _ Ht)) as Hfl.
      destruct (unlink_root_ok s s1 T base pool M G p Ht Tp Ep Hemp) as [Ht' _]; try done.
      * by apply (owned_frame s), Ht.
      * intros t Htt. rewrite root_tag_bit by lia. unfold s1. simpl. rewrite Z.land_spec.
        assert (Hpw : 0 < 2 ^ ROOT_TAG_SHIFT) by (by apply pow2_pos). rewrite Z.shiftl_1_l.
        rewrite (testbit_small (2 ^ ROOT_TAG_SHIFT - 1) ROOT_TAG_SHIFT) by lia. apply andb_false_r.
      * apply land_flags_range; [lia|done].
      * exists true, (radix_tree_node_free (set_head s1 0) p), (fun x => T x /\ x <> p). split_and!; [done|done| |].
        -- change (is_idr s1 = false). unfold s1. rewrite <- Hid. apply idr_retag. intros n Hn. rewrite Z.land_spec, Z.shiftl_1_l.
           replace (2 ^ ROOT_TAG_SHIFT - 1) with (Z.ones ROOT_TAG_SHIFT) by (rewrite Z.ones_equiv; lia).
           rewrite Z.ones_spec_low by lia. apply andb_true_r.
        -- intros Hti a [Ta Hap] _. by apply Hti.
    + rewrite (bool_of_true _ Ep). destruct (unlink_change s T base p Hs Tp Ep) as [Hch Ho]. cbv zeta in Hch, Ho.
      destruct (parent_facts s T base Hs p Tp Ep) as (Tq & _ & _ & Hg & _). set (q := nd_parent (mem s p)) in *.
      match type of Hch with slot_change _ ?x _ _ _ _ => set (s2 := x) in * end.
      pose proof (unlink_ok s s2 T base pool M G p Ht Tp Ep Hemp Hch) as Ht2. specialize (Ht2 (Ho _ _ (tr_owned _ _ _ _ _ _ _ Ht))).
      pose proof (hg_shift _ _ _ _ _ Hg) as Hsq. pose proof (shift_nonneg s T base Hs q Tq).
      assert (Hqp : q <> p) by (intros E; rewrite E in Hsq; lia).
      destruct (IH (radix_tree_node_free s2 p) _ base pool M G q true Ht2 HG) as (b' & s' & T' & Hr & Ht3 & Hid3 & Hti3); try done.
      * change (shift_of (radix_tree_node_free s2 p) q) with (shift_of s2 q). rewrite (sc_shift _ _ _ _ _ _ Hch) by done. lia.
      * exists b', s', T'. split_and!; [done..|]. intros Hti. apply Hti3. intros a [Ta Hap] Haq.
        change (nd_count (mem s2 a) <> 0). rewrite (sc_mem _ _ _ _ _ _ Hch) by done. by apply Hti.
  - rewrite (bool_of_true _ Hc). assert (Hall : tight_but s T p -> tight_but s T 0).
    { intros Hti a Ta _. destruct (Z.eq_dec a p) as [->|Hap]; [done|by apply Hti]. }
    destruct (Z.eqb_spec (node_to_entry p) (xa_head s)); [|exists b, s, T; by split_and!].
    destruct (shrink_loop_ok turns s T base pool M G false Ht HG Hid) as (b' & s' & T' & Hr & Ht' & Hid' & Hti').
    { pose proof (rounds_bound s T base Hs). destruct turns_S as (n & -> & ?). lia. }
    unfold radix_tree_shrink. rewrite Hr. cbn [mbind outcome_bind fst snd]. exists (b || b'), s', T'. split_and!; auto.
Qed.

(** ** Deleting an item *)

(** The index has no tags any more. *)
Definition untag (G : Z -> Z -> bool) (i : Z) : Z -> Z -> bool := fun t i' => if i' =? i then false else G t i'.

Lemma tagged_ext s T base G G' : (forall t i, 0 <= t < RADIX_TREE_MAX_TAGS -> G t i = G' t i) -> tagged s T base G -> tagged s T base G'.
Proof using Type.
  intros He [t1 t2 t3]. split; [| |done].
  - intros a Ta t Ht. destruct (t1 a Ta t Ht) as [Hr Hb]. split; [done|]. intros j Hj. rewrite Hb by done.
    split; intros (i & Hi & Hg); exists i; (split; [done|]); [by rewrite <- He|by rewrite He].
  - intros t Ht. rewrite t2 by done. split; intros (i & Hi & Hg); exists i; (split; [done|]); [by rewrite <- He|by rewrite He].
Qed.

Lemma tags_sub_untag M G t i : tags_sub M G -> tags_sub M (set_tag G t i false).
Proof using Type.
  intros Hg u k Hu Hk. unfold set_tag in Hk. destruct ((u =? t) && (k =? i)); [done|by apply (Hg u)].
Qed.

Lemma tags_sub_delete M G i : tags_sub M G -> tags_sub (upd M i 0) (untag G i).
Proof using Type.
  intros Hg u k Hu Hk. unfold untag in Hk. destruct (Z.eqb_spec k i) as [|Hne]; [done|]. rewrite upd_other by done. by apply (Hg u).
Qed.

Lemma place_retag s s' T base M i p slot : retagged s s' T -> place s T base M i p slot -> place s' T base M i p slot.
Proof using Type.
  intros Hr [Hh Hi Hm|q Cq Hm Hz].
  - constructor; by rewrite ?(rt_head s s' T Hr).
  - rewrite <- (rt_shift s s' T Hr q). constructor; [by rewrite (rt_covers s s' T base Hr)|..]; by rewrite ?(rt_slots s s' T Hr), ?(rt_shift s s' T Hr).
Qed.

Lemma clear_tags_ok s T base pool M G index p slot : tree s T base pool [] M G -> tags_sub M G -> place s T base M index p slot ->
  (p <> 0 -> shift_of s p = 0) ->
  exists s', clear_tags s p (get_slot_offset p slot) = Done s' /\ retagged s s' T /\ tree s' T base pool [] M (untag G index) /\ is_idr s' = is_idr s.
Proof using Type*.
  intros Ht Hg Hp Hz. unfold clear_tags. pose proof max_tags as Hmt. rewrite Hmt. change (seqZ 0 3) with [0; 1; 2]. cbn [fold_left mbind outcome_bind].
  destruct (node_tag_clear_ok s T base pool M G 0 index p slot) as (s1 & -> & R1 & T1 & I1); [done..|lia|done|done|].
  cbn [mbind outcome_bind]. pose proof (tags_sub_untag M G 0 index Hg) as Hg1.
  destruct (node_tag_clear_ok s1 T base pool M _ 1 index p slot T1 Hg1) as (s2 & -> & R2 & T2 & I2);
    [lia|by apply (place_retag s)|by rewrite (rt_shift s s1 T R1)|].
  cbn [mbind outcome_bind]. pose proof (tags_sub_untag M _ 1 index Hg1) as Hg2. pose proof (retagged_trans _ _ _ _ R1 R2) as R12.
  destruct (node_tag_clear_ok s2 T base pool M _ 2 index p slot T2 Hg2) as (s3 & -> & R3 & T3 & I3);
    [lia|by apply (place_retag s)|by rewrite (rt_shift s s2 T R12)|].
  exists s3. split_and!; [done|by eapply retagged_trans| |congruence].
  destruct T3 as [h1 h2 h3 h4]. split; [done..| |done]. revert h3. apply tagged_ext. intros t i Htt. unfold set_tag, untag.
  assert (Htc : t = 0 \/ t = 1 \/ t = 2) by lia. destruct (i =? index); destruct Htc as [->|[->| ->]]; done.
Qed.

Lemma replace_range P f j e : 0 <= j < SIZE -> 0 <= tally P f + (Z.b2z (P e) - Z.b2z (P (f j))) < 2 ^ 8.
Proof using Type*.
  intros Hj. pose proof (tally_upd P f j e Hj). pose proof (tally_range P (upd f j e)). pose proof size_range. lia.
Qed.

(** [replace_slot] at a leaf, with the differences of the counts. *)
Lemma replace_change s T base p j e : shape s T base -> T p -> 0 <= j < SIZE ->
  let s' := replace_slot s (NodeSlot p j) e p (Z.b2z (bool_of e) - Z.b2z (bool_of (slots_of s p j)))
              (Z.b2z (xa_is_value e) - Z.b2z (xa_is_value (slots_of s p j))) in
  slot_change s s' T p j e /\ is_idr s' = is_idr s /\ rcu s' = rcu s /\ (forall pool F, owned s T pool F -> owned s' T pool F).
Proof using Type*.
  intros Hs Tp Hj s'. assert (Hp : bool_of p = true) by (by apply bool_of_true, object_nonzero, Hs).
  pose proof (replace_range bool_of (slots_of s p) j e Hj). pose proof (replace_range xa_is_value (slots_of s p) j e Hj).
  unfold s', replace_slot. rewrite Hp. cbn [andb].
  set (dc := _ - Z.b2z (bool_of _)). set (dv := _ - Z.b2z (xa_is_value _)). split_and!.
  - destruct (bool_of dc || bool_of dv) eqn:E; (split; [|intros x Tx Hx; simpl; by rewrite ?upd_other|done..]); simpl; rewrite ?upd_same;
      unfold with_slot, with_values, with_count, put_slot; simpl; fold (slots_of s p); rewrite (sh_count _ _ _ Hs p Tp), (sh_values _ _ _ Hs p Tp).
    + unfold u8. rewrite !Z.mod_small by (unfold dc, dv; lia). f_equal; unfold dc, dv; lia.
    + apply orb_false_iff in E as [E1 E2]. unfold bool_of in E1, E2. apply negb_false_iff, Z.eqb_eq in E1, E2. unfold dc, dv in E1, E2. f_equal; lia.
  - by destruct (bool_of dc || bool_of dv).
  - by destruct (bool_of dc || bool_of dv).
  - intros pool F. apply owned_frame; try (by destruct (bool_of dc || bool_of dv)). intros x Nx _. assert (x <> p) by (by intros ->).
    by destruct (bool_of dc || bool_of dv); simpl; rewrite !upd_other.
Qed.

(** What [__radix_tree_delete] does at the place of an item. *)
Lemma delete_place_ok Q s T base pool M G index p slot : tree s T base pool [] M G -> tags_sub M G -> is_idr s = false -> (Q -> tight_but s T 0) ->
  place s T base M index p slot -> M index <> 0 ->
  exists b s', __radix_tree_delete s p slot = Done (b, s') /\ radix Q s' (upd M index 0) (untag G index).
Proof using Type*.
  intros Ht Hg Hid Hti Hp Hm. assert (Hz : p <> 0 -> shift_of s p = 0) by (intros Hp0; by destruct Hp as [|q _ _ Hz]; [|apply Hz]).
  unfold __radix_tree_delete. rewrite (place_load s T base M index p slot Hp), Hid.
  destruct (clear_tags_ok s T base pool M G index p slot Ht Hg Hp Hz) as (s1 & -> & R1 & T1 & I1). cbn [mbind outcome_bind].
  rewrite Hid in I1. pose proof (place_retag s s1 T base M index p slot R1 Hp) as Hp1.
  assert (Hg' : tags_sub (upd M index 0) (untag G index)) by (by apply tags_sub_delete).
  assert (Hti1 : Q -> tight_but s1 T 0) by (intros q; apply (rt_tight s s1 T R1), Hti, q).
  destruct Hp1 as [Hh -> Hmh|q Cq Hsl Hzq].
  - change (bool_of 0) with false. cbn iota. unfold replace_slot. change (bool_of 0) with false. cbn [andb store_slot].
    eexists false, _. split; [done|]. split_and!; [done|done|]. exists T, base, pool. split; [|done].
    apply set_head_item_ok; [done|done|apply null_not_internal].
  - pose proof (tr_shape _ _ _ _ _ _ _ T1) as Hs1. specialize (Hzq Hm). rewrite Hzq in *. destruct Cq as [Tq Cq].
    assert (Hq0 : q <> 0) by (by apply object_nonzero, Hs1). rewrite (bool_of_true q Hq0).
    assert (Hd : 0 <= digit index 0 < SIZE) by (apply digit_range; lia).
    destruct (replace_change s1 T base q (digit index 0) 0 Hs1 Tq Hd) as (Hch & Hid2 & _ & Ho). rewrite Hsl, (bool_of_true _ Hm), value_null in Hch, Hid2, Ho.
    replace (if xa_is_value (M index) then -1 else 0) with (Z.b2z false - Z.b2z (xa_is_value (M index))) by (by destruct (xa_is_value (M index))).
    change (-1) with (Z.b2z (bool_of 0) - Z.b2z true) at 1.
    match type of Hch with slot_change _ ?x _ _ _ _ => set (s2 := x) in * end. rewrite I1 in Hid2.
    assert (T2 : tree s2 T base pool [] (upd M index 0) (untag G index)).
    { rewrite (leaf_index s1 T base Hs1 q index (conj Tq Cq) Hzq) at 1. apply (set_item_ok s1); try done; [apply null_not_internal|apply Ho, T1]. }
    destruct (delete_loop_ok turns s2 T base pool _ _ q false T2 Hg' Hid2 Tq) as (b & s' & T' & Hr & Ht' & Hid' & Hti').
    { rewrite (sc_shift _ _ _ _ _ _ Hch) by done. destruct turns_S as (n & -> & ?). lia. }
    exists b, s'. unfold delete_node. rewrite Hr. split; [done|]. split_and!; [done|done|]. exists T', base, pool. split; [done|].
    intros q0. apply Hti'. intros a Ta Haq. rewrite (sc_mem _ _ _ _ _ _ Hch) by done. apply (Hti1 q0); [done|by apply object_nonzero, Hs1].
Qed.

(** [radix_tree_delete_item] removes the item of the index, if it is the one asked
    for. *)
Lemma delete_item_ok Q s M G index item : radix Q s M G -> is_u64 index ->
  if (M index =? 0) || (bool_of item && negb (M index =? item)) then radix_tree_delete_item s index item = Done (0, s)
  else exists s', radix_tree_delete_item s index item = Done (M index, s') /\ radix Q s' (upd M index 0) (untag G index).
Proof using Type*.
  intros (Hid & Hg & T & base & pool & Ht & Hti) Hi. pose proof Ht as [h1 h2 h3 h4].
  destruct (lookup_place s T base M h1 h2 index Hi) as (r & Hl & Hp). unfold radix_tree_delete_item. rewrite Hl. cbn [mbind outcome_bind].
  destruct (Z.eqb_spec (M index) 0) as [E|E]; cbn [orb].
  - destruct r as [[p slot]|]; [|done]. rewrite E, Hid. done.
  - destruct r as [[p slot]|]; [|done]. rewrite (bool_of_true _ E). cbn [negb andb].
    destruct (bool_of item && negb (M index =? item)); [done|].
    destruct (delete_place_ok Q s T base pool M G index p slot Ht Hg Hid Hti Hp E) as (b & s' & -> & Hr). by exists s'.
Qed.

(** ** Replacing an item *)
Lemma tags_sub_replace M G i e : tags_sub M G -> (e = 0 -> forall t, 0 <= t < RADIX_TREE_MAX_TAGS -> G t i = false) -> tags_sub (upd M i e) G.
Proof using Type.
  intros Hg He u k Hu Hk. destruct (Z.eq_dec k i) as [->|Hne]; [|rewrite upd_other by done; by apply (Hg u)].
  rewrite upd_same. intros E. by rewrite He in Hk.
Qed.

(** [__radix_tree_replace] at the place of an item; the slot may become empty if the
    index has no tags. *)
Lemma replace_place_ok Q s T base pool M G index p slot item : tree s T base pool [] M G -> tags_sub M G -> is_idr s = false -> (Q -> tight_but s T 0) ->
  place s T base M index p slot -> M index <> 0 -> radix_tree_is_internal_node item = false ->
  (item = 0 -> forall t, 0 <= t < RADIX_TREE_MAX_TAGS -> G t index = false) ->
  exists s', __radix_tree_replace s p slot item = Done s' /\ radix Q s' (upd M index item) G.
Proof using Type*.
  intros Ht Hg Hid Hti Hp Hm Hit H0t. pose proof (tr_shape _ _ _ _ _ _ _ Ht) as Hs. pose proof (tags_sub_replace M G index item Hg H0t) as Hg'.
  unfold __radix_tree_replace. rewrite (place_load s T base M index p slot Hp). unfold calculate_count. rewrite Hid.
  destruct Hp as [Hh -> Hmh|q Cq Hsl Hzq].
  - unfold replace_slot. change (bool_of 0) with false. cbn [andb negb store_slot]. eexists _. split; [done|]. split_and!; [done|done|].
    exists T, base, pool. split; [|done]. by apply set_head_item_ok.
  - specialize (Hzq Hm). rewrite Hzq in *. destruct Cq as [Tq Cq].
    assert (Hq0 : q <> 0) by (by apply object_nonzero, Hs). rewrite (bool_of_true q Hq0). cbn [negb].
    assert (Hd : 0 <= digit index 0 < SIZE) by (apply digit_range; lia).
    destruct (replace_change s T base q (digit index 0) item Hs Tq Hd) as (Hch & Hid2 & _ & Ho). rewrite Hsl in Hch, Hid2, Ho.
    match type of Hch with slot_change _ ?x _ _ _ _ => set (s2 := x) in * end. rewrite Hid in Hid2.
    assert (T2 : tree s2 T base pool [] (upd M index item) G).
    { rewrite (leaf_index s T base Hs q index (conj Tq Cq) Hzq) at 1. apply (set_item_ok s); try done. apply Ho, Ht. }
    destruct (delete_loop_ok turns s2 T base pool _ _ q false T2 Hg' Hid2 Tq) as (b & s' & T' & Hr & Ht' & Hid' & Hti').
    { rewrite (sc_shift _ _ _ _ _ _ Hch) by done. destruct turns_S as (n & -> & ?). lia. }
    exists s'. unfold delete_node. rewrite Hr. cbn [mbind outcome_bind snd]. split; [done|]. split_and!; [done|done|]. exists T', base, pool. split; [done|].
    intros q0. apply Hti'. intros a Ta Haq. rewrite (sc_mem _ _ _ _ _ _ Hch) by done. apply (Hti q0); [done|by apply object_nonzero, Hs].
Qed.

(** [radix_tree_replace_slot], which does not know the node, with an item of the same
    kind as the old one. *)
Lemma replace_slot_ok Q s T base pool M G index p slot item : tree s T base pool [] M G -> tags_sub M G -> is_idr s = false -> (Q -> tight_but s T 0) ->
  place s T base M index p slot -> M index <> 0 -> radix_tree_is_internal_node item = false -> item <> 0 -> xa_is_value item = xa_is_value (M index) ->
  exists s', radix_tree_replace_slot s slot item = Done s' /\ radix Q s' (upd M index item) G.
Proof using Type*.
  intros Ht Hg Hid Hti Hp Hm Hit Hne Hv. pose proof (tr_shape _ _ _ _ _ _ _ Ht) as Hs.
  assert (Hg' : tags_sub (upd M index item) G) by (by apply tags_sub_upd).
  unfold radix_tree_replace_slot, __radix_tree_replace, replace_slot. change (bool_of 0) with false. cbn [andb negb].
  eexists _. split; [done|]. destruct Hp as [Hh -> Hmh|q Cq Hsl Hzq].
  - split_and!; [done|done|]. exists T, base, pool. split; [|done]. by apply set_head_item_ok.
  - specialize (Hzq Hm). rewrite Hzq in *. destruct Cq as [Tq Cq].
    assert (Hd : 0 <= digit index 0 < SIZE) by (apply digit_range; lia).
    destruct (replace_change s T base q (digit index 0) item Hs Tq Hd) as (Hch & Hid2 & _ & Ho).
    rewrite Hsl, (bool_of_true _ Hm), (bool_of_true _ Hne), Hv, !Z.sub_diag in Hch, Hid2, Ho. unfold replace_slot in Hch, Hid2, Ho.
    change (bool_of 0) with false in Hch, Hid2, Ho. cbn [orb] in Hch, Hid2, Ho. rewrite andb_false_r in Hch, Hid2, Ho.
    split_and!; [by rewrite Hid2|done|]. exists T, base, pool. split.
    + rewrite (leaf_index s T base Hs q index (conj Tq Cq) Hzq) at 2. apply (set_item_ok s); try done. apply Ho, Ht.
    + intros q0 a Ta _. specialize (Hti q0 a Ta (object_nonzero _ (sh_object _ _ _ Hs a Ta))). destruct (Z.eq_dec a q) as [->|Haq].
      * rewrite (sc_node _ _ _ _ _ _ Hch). unfold put_slot. cbn [nd_count]. fold (slots_of s q). rewrite Hsl, (bool_of_true _ Hm), (bool_of_true _ Hne). lia.
      * by rewrite (sc_mem _ _ _ _ _ _ Hch).
Qed.
End Delete.
