(* ===== verification/RadixPool.v ===== *)
(** * Radix tree: the memory of the nodes

    Filling the pool of preloaded nodes, giving back the nodes that waited for the
    end of a grace period, emptying the pool when a CPU goes away. *)

From S2P Require Import Prelude Gfp RadixTree RadixInv RadixLookup RadixSteps RadixInsert RadixDelete.

Section Pool.
Context `{RadixSpec} `{KmemSpec}.
Abbreviation SIZE := RADIX_TREE_MAP_SIZE.

(** An object that was just allocated goes into the pool. *)
Lemma owned_put s T pool a : owned s T pool [a] -> clean (mem s a) ->
  owned (set_rtp (set_node s a (with_parent (mem s a) (rtp_nodes s))) (rtp_nr s + 1) a) T (a :: pool) [].
Proof using Type.
  intros [o1 o2 o3 o4 o5 o6 o7] Hcl.
  assert (Hp : (a :: pool) ++ rcu s ++ [] ≡ₚ pool ++ rcu s ++ [a]) by (rewrite app_nil_r, app_assoc; apply Permutation_cons_append).
  assert (Ha : a ∉ pool). { rewrite <- Hp in o4. apply list.NoDup_cons in o4 as [Hn _]. rewrite elem_of_app in Hn. tauto. }
  split; cbn [node_cachep set_rtp set_node set_mem mem rcu rtp_nr rtp_nodes].
  - intros x. by rewrite Hp.
  - done.
  - intros x Hx. rewrite Hp. by apply o3.
  - by rewrite Hp.
  - intros x Hx. destruct (Z.eq_dec x a) as [->|Hne]; [by rewrite upd_same|]. rewrite upd_other by done. apply o5.
    rewrite elem_of_cons in Hx. tauto.
  - split; [done|]. rewrite upd_same. apply (chain_frame (mem s)); [|done]. intros x Hx. rewrite upd_other; [done|by intros ->].
  - rewrite o7. simpl. lia.
Qed.

(** An object that belongs to nothing else goes back to the cache. *)
Lemma owned_free s s' T pool x F : owned s T pool (x :: F) -> node_cachep s' = kmem_cache_free (node_cachep s) x -> clean (mem s' x) ->
  (forall y, y <> x -> mem s' y = mem s y) -> rcu s' = rcu s -> rtp_nr s' = rtp_nr s -> rtp_nodes s' = rtp_nodes s -> owned s' T pool F.
Proof using Type.
  intros [o1 o2 o3 o4 o5 o6 o7] Hc Hcl Hm Hr Hn Hno.
  assert (Hp : (pool ++ rcu s ++ x :: F) ≡ₚ (x :: pool ++ rcu s ++ F)) by (rewrite !app_assoc; symmetry; apply Permutation_middle).
  assert (Hx : held (node_cachep s) x) by (apply o1; right; rewrite Hp; apply list_elem_of_here).
  assert (Hnd : (x ∉ pool ++ rcu s ++ F) /\ NoDup (pool ++ rcu s ++ F)) by (rewrite Hp in o4; by apply list.NoDup_cons in o4).
  assert (Hf : forall a, held (node_cachep s') a <-> held (node_cachep s) a /\ a <> x) by (intros a; rewrite Hc; by apply kmem_free_ok).
  split; rewrite ?Hr, ?Hn, ?Hno; try done.
  - intros a. rewrite Hf, o1, Hp, elem_of_cons. destruct (Z.eq_dec a x) as [->|]; [|tauto]. split; [tauto|].
    intros [Ha|Ha]; [|tauto]. exfalso. apply (o3 x Ha). rewrite Hp. apply list_elem_of_here.
  - intros a Ha. by apply o2, Hf.
  - intros a Ha. pose proof (o3 a Ha) as Hn'. rewrite Hp, not_elem_of_cons in Hn'. tauto.
  - tauto.
  - intros a Ha. destruct (Z.eq_dec a x) as [->|Hne]; [done|]. rewrite Hm by done. apply o5. rewrite Hf in Ha. tauto.
  - apply (chain_frame (mem s)); [|done]. intros a Ha. rewrite Hm; [done|]. intros ->. rewrite elem_3 in Hnd. tauto.
Qed.

(** ** Preloading *)
Lemma preload_loop_ok g nr fuel : forall s T base pool M G, tree s T base pool [] M G -> (Z.to_nat (nr - rtp_nr s) < fuel)%nat ->
  exists err s' pool', preload_loop fuel s g nr = Done (err, s') /\ tree s' T base pool' [] M G /\ same_tree s s' T /\
    in_interrupt s' = in_interrupt s /\ rcu s' = rcu s /\ rtp_nr s <= rtp_nr s' /\ ((err = 0 /\ nr <= rtp_nr s') \/ err = - ENOMEM).
Proof using Type*.
  induction fuel as [|fuel IH]; intros s T base pool M G Ht Hf; [lia|]. cbn [preload_loop]. destruct (Z.ltb_spec (rtp_nr s) nr) as [Hlt|Hge].
  2:{ exists 0, s, pool. split_and!; try done. left. split; [done|lia]. }
  destruct (kmem_cache_alloc (node_cachep s) g) as [a c] eqn:Ha. pose proof (owned_alloc s T pool g a c (tr_owned _ _ _ _ _ _ _ Ht) Ha) as Ho.
  destruct Ho as [[-> Ho]|(Ho & Hcl & Hobj)].
  - rewrite Z.eqb_refl. exists (- ENOMEM), (set_cache s c), pool. split_and!; try done; [|by right].
    by apply (frame_tree s _ T base pool pool []).
  - destruct (Z.eqb_spec a 0) as [E|_]; [by apply object_nonzero in E|]. cbn [rtp_nr set_cache]. rewrite (proj2 (Z.ltb_lt _ _) Hlt).
    assert (HTa : forall x, T x -> x <> a).
    { intros x Tx ->. apply (ow_apart _ _ _ _ Ho a Tx). rewrite elem_3. do 2 right. by apply list_elem_of_singleton. }
    match goal with |- context [preload_loop fuel ?s1] => set (s1' := s1) end.
    assert (Hst : same_tree s s1' T) by (split; [|done..]; intros x Tx; simpl; by rewrite upd_other by (by apply HTa)).
    destruct (IH s1' T base (a :: pool) M G) as (err & s' & pool' & Hr & Ht' & Hs' & Hi & Hrc & Hle & Hend).
    + apply (frame_tree s _ T base pool (a :: pool) [] []); [done|done|]. by apply (owned_put (set_cache s c)).
    + simpl. lia.
    + exists err, s', pool'. split_and!; try done.
      * destruct Hst as [a1 a2 a3], Hs' as [b1 b2 b3]. split; [intros x Tx; by rewrite b1, a1|congruence..].
      * simpl in Hle. lia.
Qed.

(** [radix_tree_preload] returns with enough nodes or without memory; the tree stays. *)
Lemma preload_ok Q s M G g : radix Q s M G -> exists err s', radix_tree_preload s g = Done (err, s') /\ radix Q s' M G /\
  in_interrupt s' = in_interrupt s /\ xa_flags s' = xa_flags s /\ rcu s' = rcu s /\ ((err = 0 /\ RADIX_TREE_PRELOAD_SIZE <= rtp_nr s') \/ err = - ENOMEM).
Proof using Type*.
  intros (Hid & Hg & T & base & pool & Ht & Hti). unfold radix_tree_preload, __radix_tree_preload.
  destruct (preload_loop_ok (Z.land g (Z.lnot ___GFP_ACCOUNT)) RADIX_TREE_PRELOAD_SIZE (S (Z.to_nat RADIX_TREE_PRELOAD_SIZE)) s T base pool M G Ht)
    as (err & s' & pool' & -> & Ht' & Hst & Hi & Hr & _ & Hend).
  { pose proof (pool_nr _ _ _ _ _ _ _ Ht). lia. }
  exists err, s'. split_and!; try done; [|by apply Hst]. split_and!; [by rewrite (is_idr_flags s s') by apply Hst|done|].
  exists T, base, pool'. split; [done|]. intros q a Ta Ha. rewrite (st_mem _ _ _ Hst) by done. by apply Hti.
Qed.

(** ** The end of a grace period *)
Lemma rcu_fold_ok l : forall s T base pool M G, tree s T base pool l M G -> let s' := fold_left radix_tree_node_rcu_free l s in
  tree s' T base pool [] M G /\ same_tree s s' T /\ rcu s' = rcu s /\ rtp_nr s' = rtp_nr s.
Proof using Type*.
  induction l as [|x l IH]; intros s T base pool M G Ht s'; [by split_and!|]. set (s1 := radix_tree_node_rcu_free s x) in *.
  assert (HT : forall y, T y -> y <> x).
  { intros y Ty ->. apply (ow_apart _ _ _ _ (tr_owned _ _ _ _ _ _ _ Ht) x Ty). rewrite elem_3. do 2 right. apply list_elem_of_here. }
  assert (Hst : same_tree s s1 T) by (split; [|done..]; intros y Ty; simpl; by rewrite upd_other by (by apply HT)).
  destruct (IH s1 T base pool M G) as (Ht' & Hst' & Hr & Hn).
  - apply (frame_tree s s1 T base pool pool (x :: l) l); [done..|]. apply (owned_free s s1 T pool x l); try done; [apply Ht|..].
    + simpl. rewrite upd_same. by split.
    + intros y Hy. simpl. by rewrite upd_other.
  - change s' with (fold_left radix_tree_node_rcu_free l s1). split_and!; [done| |by rewrite Hr|by rewrite Hn].
    destruct Hst as [a1 a2 a3], Hst' as [b1 b2 b3]. split; [intros y Ty; by rewrite b1, a1|congruence..].
Qed.

Lemma grace_ok Q s M G : radix Q s M G -> radix Q (rcu_callbacks s) M G /\ rcu (rcu_callbacks s) = [].
Proof using Type*.
  intros (Hid & Hg & T & base & pool & Ht & Hti). unfold rcu_callbacks.
  destruct (rcu_fold_ok (rcu s) (set_rcu s []) T base pool M G) as (Ht' & Hst & Hr & Hn).
  - apply (frame_tree s _ T base pool pool []); [done..|]. destruct (tr_owned _ _ _ _ _ _ _ Ht) as [o1 o2 o3 o4 o5 o6 o7]. rewrite app_nil_r in *. by split.
  - split; [|done]. split_and!; [by rewrite (is_idr_flags (set_rcu s [])) by apply Hst|done|]. exists T, base, pool. split; [done|].
    intros q a Ta Ha. rewrite (st_mem _ _ _ Hst) by done. by apply Hti.
Qed.

(** ** Emptying the pool *)
Lemma cpu_dead_ok fuel : forall s T base pool M G, tree s T base pool [] M G -> (length pool < fuel)%nat ->
  exists s', cpu_dead_loop fuel s = Done s' /\ tree s' T base [] [] M G /\ same_tree s s' T /\ rcu s' = rcu s.
Proof using Type*.
  induction fuel as [|fuel IH]; intros s T base pool M G Ht Hf; [lia|]. cbn [cpu_dead_loop]. rewrite (pool_nr _ _ _ _ _ _ _ Ht).
  destruct pool as [|x pool]; [by exists s|]. rewrite bool_of_true by (simpl; lia).
  destruct (owned_take s T pool x (tr_owned _ _ _ _ _ _ _ Ht)) as (Ho & Hx & Hcl & Hobj).
  match goal with |- context [cpu_dead_loop fuel ?s1] => set (s1' := s1) end.
  assert (Hst : same_tree s s1' T) by done.
  destruct (IH s1' T base pool M G) as (s' & Hr & Ht' & Hst' & Hrc).
  - apply (frame_tree s _ T base (x :: pool) pool [] []); [done..|].
    apply (owned_free (set_rtp s (rtp_nr s - 1) (nd_parent (mem s (rtp_nodes s)))) s1' T pool x []); try done.
    + by rewrite Hx.
    + cbn [rtp_nr set_rtp set_cache s1']. by rewrite (pool_nr _ _ _ _ _ _ _ Ht).
  - simpl in Hf. lia.
  - exists s'. split_and!; try done. destruct Hst' as [b1 b2 b3]. by split.
Qed.

(** ** Nothing is left *)
Lemma no_items_no_nodes s T base M : shape s T base -> contents s T base M -> tight_but s T 0 -> (forall i, M i = 0) ->
  forall n a, T a -> (Z.to_nat (shift_of s a) <= n)%nat -> False.
Proof using Type*.
  intros Hs Hc Hti HM n. induction n as [|n IH]; intros a Ta Hn; pose proof (shift_nonneg s T base Hs a Ta) as Hsa; pose proof map_shift_range;
    pose proof (Hti a Ta (object_nonzero _ (sh_object _ _ _ Hs a Ta))) as Hct; rewrite (sh_count _ _ _ Hs a Ta) in Hct;
    apply Hct, tally_zero; intros j Hj; unfold bool_of; rewrite negb_false_iff, Z.eqb_eq; destruct (Z.eq_dec (slots_of s a j) 0) as [|Hne]; try done; exfalso;
    pose proof (sh_slot _ _ _ Hs a j Ta Hj Hne) as Hk; destruct (Z.eqb_spec (shift_of s a) 0) as [Hz|Hz]; try lia;
    try (apply Hne; by rewrite (ct_leaf _ _ _ _ Hc a j Ta Hz Hj)).
  destruct Hk as (c & Tc & _ & Hg). pose proof (hg_shift _ _ _ _ _ Hg). pose proof (shift_nonneg s T base Hs c Tc). apply (IH c Tc). lia.
Qed.

(** After the last item is gone the tree has no nodes, and those that were freed and
    preloaded can be given back. *)
Lemma drained_head s M G : radix True s M G -> (forall i, M i = 0) -> xa_head s = 0.
Proof using Type*.
  intros (_ & _ & T & base & pool & [h1 h2 _ _] & Hti) HM. destruct (radix_tree_is_internal_node (xa_head s)) eqn:Hi.
  - exfalso. destruct (head_node s T base h1 Hi) as (Tr & _). by apply (no_items_no_nodes s T base M h1 h2 (Hti I) HM _ _ Tr (le_n _)).
  - by rewrite (ct_single _ _ _ _ h2 Hi).
Qed.

Lemma drained_cpu_dead s M G : radix True s M G -> (forall i, M i = 0) -> exists s', radix_tree_cpu_dead (rcu_callbacks s) = Done s' /\
  forall a, ~ held (node_cachep s') a.
Proof using Type*.
  intros Hr HM. destruct (grace_ok True s M G Hr) as [(_ & _ & T & base & pool & Ht & Hti) Hrc].
  set (s0 := rcu_callbacks s) in *. unfold radix_tree_cpu_dead.
  destruct (cpu_dead_ok (S (Z.to_nat (rtp_nr s0))) s0 T base pool M G Ht) as (s' & Hd & Ht' & Hst & Hrc').
  { rewrite (pool_nr _ _ _ _ _ _ _ Ht). lia. }
  exists s'. split; [done|]. intros a. rewrite (ow_held _ _ _ _ (tr_owned _ _ _ _ _ _ _ Ht')), Hrc', Hrc. cbn [app]. intros [Ta|Hin]; [|by apply elem_of_nil in Hin].
  by apply (no_items_no_nodes s0 T base M (tr_shape _ _ _ _ _ _ _ Ht) (tr_contents _ _ _ _ _ _ _ Ht) (Hti I) HM _ a Ta (le_n _)).
Qed.
End Pool.
