(* ===== verification/RadixIter.v ===== *)
(** * Radix tree: iteration

    [radix_tree_next_chunk] finds the next index that has an item, or the next one
    with a tag. *)

From S2P Require Import Prelude Gfp RadixTree RadixInv RadixLookup RadixSteps RadixInsert RadixTags RadixDelete.

(** ** The lowest bit *)
Lemma ffs_pos_ok p : 0 <= __ffs_pos p /\ Z.testbit (Zpos p) (__ffs_pos p) = true /\ forall j, 0 <= j < __ffs_pos p -> Z.testbit (Zpos p) j = false.
Proof.
  induction p as [p _|p (H1 & H2 & H3)|]; cbn [__ffs_pos]; try (split_and!; [lia|done|lia]).
  rewrite Pos2Z.inj_xO. split_and!; [lia| |].
  - rewrite Z.double_bits_succ || (replace (__ffs_pos p + 1) with (Z.succ (__ffs_pos p)) by lia; rewrite Z.double_bits_succ). done.
  - intros j Hj. destruct (Z.eq_dec j 0) as [->|]; [by rewrite Z.testbit_even_0|].
    replace j with (Z.succ (j - 1)) by lia. rewrite Z.double_bits_succ. apply H3. lia.
Qed.

Lemma ffs_ok w : 0 <= w -> w <> 0 -> 0 <= __ffs w /\ Z.testbit w (__ffs w) = true /\ forall j, 0 <= j < __ffs w -> Z.testbit w j = false.
Proof. intros Hw Hn. destruct w as [|p|p]; [done|apply ffs_pos_ok|lia]. Qed.

Section Iter.
Context `{RadixSpec} `{KmemSpec}.
Abbreviation SH := RADIX_TREE_MAP_SHIFT.
Abbreviation SIZE := RADIX_TREE_MAP_SIZE.

Lemma find_next_bit_ok s a t d : 0 <= nd_tags (mem s a) t < 2 ^ SIZE -> 0 <= d < SIZE -> let o := radix_tree_find_next_bit s a t (d + 1) in
  d < o <= SIZE /\ (forall j, d < j < o -> tag_get s a t j = false) /\ (o < SIZE -> tag_get s a t o = true).
Proof using Type*.
  intros Hw Hd o. unfold o, radix_tree_find_next_bit, tag_get. set (w := nd_tags (mem s a) t) in *. destruct (Z.ltb_spec (d + 1) SIZE) as [Hlt|Hge].
  2:{ split_and!; lia. }
  assert (Hn : 0 <= Z.shiftr w (d + 1)) by (apply Z.shiftr_nonneg; lia). destruct (Z.eq_dec (Z.shiftr w (d + 1)) 0) as [E|E].
  - rewrite E. change (bool_of 0) with false. cbn iota. split_and!; [lia|lia| |lia]. intros j Hj.
    replace j with ((j - (d + 1)) + (d + 1)) by lia. rewrite <- Z.shiftr_spec, E by lia. apply Z.bits_0.
  - rewrite (bool_of_true _ E). destruct (ffs_ok _ Hn E) as (F1 & F2 & F3). rewrite Z.shiftr_spec in F2 by done.
    set (f := __ffs (Z.shiftr w (d + 1))) in *. split_and!.
    + lia.
    + destruct (Z.le_gt_cases SIZE (f + (d + 1))); [|lia]. by rewrite (testbit_small w SIZE) in F2 by lia.
    + intros j Hj. replace j with ((j - (d + 1)) + (d + 1)) by lia. rewrite <- Z.shiftr_spec by lia. apply F3. lia.
    + done.
Qed.

Lemma next_entry_ok s a d : 0 <= d < SIZE -> let o := next_entry s a d in
  d < o <= SIZE /\ (forall j, d < j < o -> slots_of s a j = 0) /\ (o < SIZE -> slots_of s a o <> 0).
Proof using Type*.
  intros Hd o. unfold o, next_entry. fold (slots_of s a). destruct (list_find _ _) as [[k j]|] eqn:E.
  - apply list_find_Some in E as (Hk & Hj & Hb). apply lookup_seqZ in Hk as [-> Hk]. split_and!; [lia|lia| |done].
    intros j Hj'. destruct (Z.eq_dec (slots_of s a j) 0) as [|Hne]; [done|]. exfalso.
    apply (Hb (Z.to_nat (j - (d + 1))) j); [|lia|done]. apply lookup_seqZ. lia.
  - apply list_find_None in E. rewrite list.Forall_forall in E. split_and!; [lia|lia| |lia]. intros j Hj.
    destruct (Z.eq_dec (slots_of s a j) 0) as [|Hne]; [done|]. exfalso. apply (E j); [|done]. apply elem_of_seqZ. lia.
Qed.

(** ** Words *)
Lemma lor_add b o n : 0 <= n -> b mod 2 ^ n = 0 -> 0 <= o < 2 ^ n -> Z.lor b o = b + o.
Proof using Type*.
  intros Hn Hb Ho. assert (Hl : Z.land b o = 0).
  { apply Z.bits_inj'. intros j Hj. rewrite Z.land_spec, Z.bits_0. destruct (Z.lt_ge_cases j n) as [Hlt|Hge].
    - rewrite <- (Z.mod_pow2_bits_low b n j Hlt), Hb, Z.bits_0. done.
    - rewrite (testbit_small o n j) by lia. apply andb_false_r. }
  rewrite Z.add_nocarry_lxor by done. symmetry. by apply Z.lxor_lor.
Qed.

Lemma ldiff_floor i n : 0 <= n -> Z.ldiff i (Z.ones n) = floor i n.
Proof using Type.
  intros Hn. rewrite Z.ldiff_ones_r by done. rewrite Z.shiftl_mul_pow2, Z.shiftr_div_pow2 by done. unfold floor.
  pose proof (pow2_pos n Hn). pose proof (Z.div_mod i (2 ^ n)). lia.
Qed.

Lemma land_lnot_floor i n : 0 <= n <= 64 -> is_u64 i -> Z.land i (u64 (Z.lnot (2 ^ n - 1))) = floor i n.
Proof using Type.
  intros Hn Hi. unfold is_u64 in Hi. unfold u64. rewrite <- Z.land_ones by lia. replace (2 ^ n - 1) with (Z.ones n) by (rewrite Z.ones_equiv; lia).
  rewrite (Z.land_comm (Z.lnot _)), Z.land_assoc, Z.land_ones, Z.mod_small by lia. rewrite <- Z.ldiff_land. apply ldiff_floor. lia.
Qed.

Lemma lor_ones_floor i n : 0 <= n -> Z.lor i (2 ^ n - 1) + 1 = floor i n + 2 ^ n.
Proof using Type*.
  intros Hn. pose proof (pow2_pos n Hn). replace (2 ^ n - 1) with (Z.ones n) by (rewrite Z.ones_equiv; lia).
  assert (Hl : Z.lor i (Z.ones n) = Z.lor (Z.ldiff i (Z.ones n)) (Z.ones n)).
  { apply Z.bits_inj'. intros j Hj. rewrite !Z.lor_spec, Z.ldiff_spec. by destruct (Z.testbit i j), (Z.testbit (Z.ones n) j). }
  rewrite Hl, ldiff_floor, (lor_add _ _ n) by (done || by apply floor_mod || (rewrite Z.ones_equiv; lia)). rewrite Z.ones_equiv. lia.
Qed.

Lemma pow_min n : 0 <= n -> Z.min (2 ^ n) (2 ^ 64) = 2 ^ Z.min n 64.
Proof using Type.
  intros Hn. destruct (Z.le_gt_cases n 64).
  - rewrite (Z.min_l n) by lia. apply Z.min_l. apply Z.pow_le_mono_r; lia.
  - rewrite (Z.min_r n) by lia. apply Z.min_r. apply Z.pow_le_mono_r; lia.
Qed.

Lemma floor_u64 i n : is_u64 i -> 0 <= n -> floor i (Z.min n 64) = floor i n.
Proof using Type.
  intros Hi Hn. unfold is_u64 in Hi. destruct (Z.le_gt_cases n 64) as [|Hgt]; [by rewrite Z.min_l|]. rewrite Z.min_r by lia. unfold floor.
  assert (2 ^ 64 <= 2 ^ n) by (apply Z.pow_le_mono_r; lia). rewrite !Z.mod_small by lia. lia.
Qed.

(** ** The walk *)
Section Walk.
Context (s : radix_tree_root) (T : Z -> Prop) (base : Z -> Z) (pool : list Z) (M : Z -> Z) (G : Z -> Z -> bool) (Htr : tree s T base pool [] M G) (HG : tags_sub M G).
Context (iter : radix_tree_iter) (flags : Z).
Let tagged_flag := bool_of (Z.land flags RADIX_TREE_ITER_TAGGED).
Let contig := bool_of (Z.land flags RADIX_TREE_ITER_CONTIG).
Let tag := Z.land flags RADIX_TREE_ITER_TAG_MASK.
Context (Htag : tagged_flag = true -> 0 <= tag < RADIX_TREE_MAX_TAGS).
Let Hs := tr_shape _ _ _ _ _ _ _ Htr.
Let Hc := tr_contents _ _ _ _ _ _ _ Htr.

(** What the iteration is looking for. *)
Definition hit (i : Z) : bool := if tagged_flag then G tag i else bool_of (M i).

Definition mark (a j : Z) : bool := if tagged_flag then tag_get s a tag j else bool_of (slots_of s a j).

Lemma hit_item i : hit i = true -> M i <> 0.
Proof using Type*.
  unfold hit. destruct tagged_flag eqn:E; [intros Hg; apply (HG tag); [by apply Htag|done]|]. intros Hm E0. by rewrite E0 in Hm.
Qed.

(** A slot without a mark has nothing below it. *)
Lemma mark_false a j i : T a -> 0 <= j < SIZE -> mark a j = false ->
  base a + j * 2 ^ shift_of s a <= i < base a + (j + 1) * 2 ^ shift_of s a -> hit i = false.
Proof using Type*.
  intros Ta Hj Hm Hi. destruct (hit i) eqn:Hh; [exfalso|done]. pose proof (hit_item i Hh) as Hmi. unfold hit, mark in *. destruct tagged_flag eqn:E.
  - destruct (tg_bits _ _ _ _ (tr_tagged _ _ _ _ _ _ _ Htr) a Ta tag (Htag eq_refl)) as [_ Hb]. specialize (Hb j Hj). unfold tag_get in Hm.
    rewrite Hm in Hb. destruct Hb as [_ Hb]. discriminate Hb. by exists i.
  - assert (Hz : slots_of s a j = 0) by (destruct (Z.eq_dec (slots_of s a j) 0) as [|Hne]; [done|by rewrite (bool_of_true _ Hne) in Hm]).
    pose proof (shift_nonneg s T base Hs a Ta). pose proof (pow2_pos (shift_of s a)) as Hpw.
    assert (Ca : covers s T base a i) by (apply (range_covers s T base a i Hs Ta); nia).
    assert (Hd : j = digit i (shift_of s a)) by (apply (digit_unique (base a)); [lia|by destruct Ca|done]).
    apply Hmi. destruct (Z.eq_dec (shift_of s a) 0) as [E0|E0].
    + rewrite <- (leaf_item s T base Hs M a i Hc Ca E0). rewrite E0 in Hd. by rewrite <- Hd.
    + by apply (empty_below s T base Hs M a j i Hc Ca E0 Hd).
Qed.

(** A mark has an entry below it. *)
Lemma mark_entry a j : T a -> 0 <= j < SIZE -> mark a j = true -> slots_of s a j <> 0.
Proof using Type*.
  intros Ta Hj Hm. unfold mark in Hm. destruct tagged_flag eqn:E; [|intros E0; by rewrite E0 in Hm].
  destruct (tg_bits _ _ _ _ (tr_tagged _ _ _ _ _ _ _ Htr) a Ta tag (Htag eq_refl)) as [_ Hb]. specialize (Hb j Hj). unfold tag_get in Hm.
  destruct Hb as [Hb _]. destruct (Hb Hm) as (i & Hi & Hg). apply (HG tag i (Htag eq_refl)) in Hg as Hmi. intros Hz.
  pose proof (shift_nonneg s T base Hs a Ta). pose proof (pow2_pos (shift_of s a)) as Hpw.
  assert (Ca : covers s T base a i) by (apply (range_covers s T base a i Hs Ta); nia).
  assert (Hd : j = digit i (shift_of s a)) by (apply (digit_unique (base a)); [lia|by destruct Ca|done]).
  apply Hmi. destruct (Z.eq_dec (shift_of s a) 0) as [E0|E0].
  - rewrite <- (leaf_item s T base Hs M a i Hc Ca E0). rewrite E0 in Hd. by rewrite <- Hd.
  - by apply (empty_below s T base Hs M a j i Hc Ca E0 Hd).
Qed.

Lemma mark_leaf a j : T a -> shift_of s a = 0 -> 0 <= j < SIZE -> mark a j = hit (base a + j).
Proof using Type*.
  intros Ta Hz Hj. unfold mark, hit. destruct tagged_flag eqn:E; [|by rewrite (ct_leaf _ _ _ _ Hc a j Ta Hz Hj)].
  destruct (tg_bits _ _ _ _ (tr_tagged _ _ _ _ _ _ _ Htr) a Ta tag (Htag eq_refl)) as [_ Hb]. specialize (Hb j Hj). unfold tag_get.
  rewrite Hz, Z.pow_0_r in Hb. destruct (Z.testbit _ j), (G tag (base a + j)) eqn:Hg; try done.
  - destruct Hb as [Hb _]. destruct (Hb eq_refl) as (i & Hi & Hgi). assert (i = base a + j) as -> by lia. congruence.
  - destruct Hb as [_ Hb]. apply Hb. exists (base a + j). split; [lia|done].
Qed.

Lemma next_mark a d : T a -> 0 <= d < SIZE -> let o := if tagged_flag then radix_tree_find_next_bit s a tag (d + 1) else next_entry s a d in
  d < o <= SIZE /\ (forall j, d < j < o -> mark a j = false) /\ (o < SIZE -> mark a o = true).
Proof using Type*.
  intros Ta Hd o. unfold o, mark. destruct tagged_flag eqn:E.
  - apply find_next_bit_ok; [|done]. by destruct (tg_bits _ _ _ _ (tr_tagged _ _ _ _ _ _ _ Htr) a Ta tag (Htag eq_refl)).
  - destruct (next_entry_ok s a d Hd) as (Ho & Hf & Hn). split_and!; [lia|lia| |].
    + intros j Hj. by rewrite Hf.
    + intros Hlt. by apply bool_of_true, Hn.
Qed.

Lemma index_base a i : covers s T base a i -> is_u64 i -> Z.land i (u64 (Z.lnot (node_maxindex s a))) = base a.
Proof using Type*.
  intros [Ta Ca] Hi. unfold node_maxindex. fold (shift_of s a). pose proof (shift_nonneg s T base Hs a Ta) as Hn. pose proof map_shift_range.
  rewrite shift_maxindex_eq, pow_min, land_lnot_floor, floor_u64 by (done || lia). done.
Qed.

(** The index of a slot, or that of the next node. *)
Lemma slot_index a i o : covers s T base a i -> is_u64 i -> 0 < o <= SIZE -> (o < SIZE -> slots_of s a o <> 0) ->
  let i' := u64 (Z.land i (u64 (Z.lnot (node_maxindex s a))) + u64 (Z.shiftl o (shift_of s a))) in
  (i' = 0 /\ 2 ^ 64 <= base a + o * 2 ^ shift_of s a) \/ (i' = base a + o * 2 ^ shift_of s a /\ 0 < i' < 2 ^ 64).
Proof using Type*.
  intros Ca Hi Ho Hne i'. pose proof Ca as [Ta Cb]. pose proof (shift_nonneg s T base Hs a Ta) as Hn. pose proof map_shift_range.
  pose proof (pow2_pos (shift_of s a)) as Hpw. destruct (sh_base _ _ _ Hs a Ta) as [Hb Hbm]. pose proof size_pow as Hsz.
  unfold i'. rewrite index_base, Z.shiftl_mul_pow2 by (done || lia). unfold u64. rewrite Zplus_mod_idemp_r.
  assert (Hle : base a + o * 2 ^ shift_of s a = 2 ^ 64 \/ base a + o * 2 ^ shift_of s a < 2 ^ 64 \/ (2 ^ 64 < base a + o * 2 ^ shift_of s a /\ (2 ^ 64 | base a + o * 2 ^ shift_of s a))).
  { destruct (Z.eq_dec o SIZE) as [->|Hos].
    - replace (SIZE * 2 ^ shift_of s a) with (2 ^ (shift_of s a + SH)) by (rewrite Z.pow_add_r, Hsz by lia; lia).
      destruct (Z.le_gt_cases (shift_of s a + SH) 64) as [Hle|Hgt].
      + assert (base a + 2 ^ (shift_of s a + SH) <= 2 ^ 64); [|lia]. apply multiple_step; [apply pow2_pos; lia|done| |lia].
        replace 64 with (shift_of s a + SH + (64 - (shift_of s a + SH))) by lia. rewrite (Z.pow_add_r 2 (shift_of s a + SH)) by lia.
        rewrite Z.mul_comm. apply Z.mod_mul. pose proof (pow2_pos (shift_of s a + SH)). lia.
      + right. right. assert (base a = 0) as ->.
        { rewrite Cb. unfold floor, is_u64 in *. assert (2 ^ 64 <= 2 ^ (shift_of s a + SH)) by (apply Z.pow_le_mono_r; lia). rewrite Z.mod_small by lia. lia. }
        split; [apply Z.pow_lt_mono_r; lia|]. exists (2 ^ (shift_of s a + SH - 64)). rewrite Z.add_0_l, <- Z.pow_add_r by lia. f_equal. lia.
    - right. left. assert (Hlt : o < SIZE) by lia. specialize (Hne Hlt). pose proof (sh_slot _ _ _ Hs a o Ta ltac:(lia) Hne) as Hk.
      destruct (Z.eqb_spec (shift_of s a) 0) as [E|E].
      + rewrite E in *. rewrite Z.add_0_l in Hbm. assert (base a + SIZE <= 2 ^ 64); [|nia]. rewrite Hsz. apply multiple_step; [apply pow2_pos; lia|done| |lia].
        replace 64 with (SH + (64 - SH)) by lia. rewrite (Z.pow_add_r 2 SH) by lia. rewrite Z.mul_comm. apply Z.mod_mul. pose proof (pow2_pos SH). lia.
      + destruct Hk as (c & Tc & _ & Hg). rewrite <- (hg_base _ _ _ _ _ Hg). by apply (sh_base _ _ _ Hs). }
  destruct Hle as [->|[Hlt|[Hgt Hdiv]]].
  - left. split; [apply Z.mod_same; lia|lia].
  - right. rewrite Z.mod_small by nia. split; [done|nia].
  - left. split; [by apply Z.mod_divide; [lia|]|lia].
Qed.

(** Where the chunk of an index ends. *)
Definition chunk_end (k : Z) : Z := if radix_tree_is_internal_node (xa_head s) then floor k SH + SIZE else 1.

(** The answer for a walk that starts at [i0]. *)
Definition chunk_result (i0 : Z) (r : option slotref * radix_tree_iter) : Prop :=
  match r with
  | (None, it) => it = iter /\ if contig then hit i0 = false else forall i, i0 <= i < 2 ^ 64 -> hit i = false
  | (Some slot, it) =>
      let k := it_index it in
      i0 <= k < 2 ^ 64 /\ hit k = true /\ (forall i, i0 <= i < k -> hit i = false) /\ (contig = true -> k = i0) /\
      place s T base M k (it_node it) slot /\ it_next_index it = u64 (chunk_end k) /\
      (tagged_flag = true -> forall d, 0 <= d -> k + d < chunk_end k -> Z.testbit (it_tags it) d = hit (k + d))
  end.

Lemma leaf_maxindex a : shift_of s a = 0 -> node_maxindex s a = 2 ^ SH - 1.
Proof using Type*.
  intros Hz. pose proof map_shift_range. unfold node_maxindex. fold (shift_of s a). rewrite Hz, shift_maxindex_eq, Z.add_0_l by lia.
  rewrite Z.min_l; [done|]. apply Z.pow_le_mono_r; lia.
Qed.

Lemma found_ok i0 a i : covers s T base a i -> is_u64 i -> shift_of s a = 0 -> mark a (digit i 0) = true -> i0 <= i ->
  (forall x, i0 <= x < i -> hit x = false) -> (contig = true -> i = i0) -> chunk_result i0 (chunk_found s iter flags tag i a (digit i 0)).
Proof using Type*.
  intros Ca Hi Hz Hm Hle Hno Hco. pose proof Ca as [Ta Cb]. pose proof (digit_range i 0 ltac:(lia)) as Hd. pose proof map_shift_range. pose proof size_pow as Hsz.
  pose proof (leaf_index s T base Hs a i Ca Hz) as Hli. rewrite Hz, Z.add_0_l in Cb.
  assert (Hk : Z.lor (Z.land i (u64 (Z.lnot (node_maxindex s a)))) (digit i 0) = i).
  { rewrite index_base, (lor_add _ _ SH) by (done || lia || (rewrite Cb; by apply floor_mod; lia)). lia. }
  assert (Hhit : hit i = true) by (rewrite mark_leaf in Hm by done; by rewrite Hli).
  assert (Hend : u64 (Z.lor i (node_maxindex s a) + 1) = u64 (chunk_end i)).
  { rewrite leaf_maxindex, lor_ones_floor by (done || lia). unfold chunk_end. by rewrite (proj1 (sh_top _ _ _ Hs a Ta)), Hsz. }
  assert (Hpl : place s T base M i a (NodeSlot a (digit i 0))).
  { pose proof (place_node s T base M i a Ca) as Hp. rewrite Hz in Hp. apply Hp; [by apply (leaf_item s T base Hs)|done]. }
  assert (Htg : tagged_flag = true -> forall d, 0 <= d -> i + d < chunk_end i -> Z.testbit (Z.shiftr (nd_tags (mem s a) tag) (digit i 0)) d = hit (i + d)).
  { intros E d Hd0 Hde. unfold chunk_end in Hde. rewrite (proj1 (sh_top _ _ _ Hs a Ta)), <- Cb in Hde. rewrite Z.shiftr_spec by done.
    rewrite Hli at 2. rewrite <- Z.add_assoc, <- mark_leaf by (done || lia). unfold mark. rewrite E. unfold tag_get. f_equal. lia. }
  assert (Ha : bool_of a = true) by (by apply bool_of_true, object_nonzero, Hs). unfold is_u64 in Hi.
  unfold chunk_found. fold tagged_flag. rewrite Hk, Hend. destruct tagged_flag eqn:E; unfold chunk_result, set_iter_tags; cbn [it_index it_next_index it_tags it_node];
    rewrite ?Ha, ?E; split_and!; try done; try lia; auto.
Qed.

Lemma chunk_loop_ok fuel : forall i0 a i restart, covers s T base a i -> is_u64 i -> i0 <= i -> (forall x, i0 <= x < i -> hit x = false) ->
  (contig = true -> i = i0) -> (Z.to_nat (shift_of s a) < fuel)%nat ->
  (forall i', i < i' < 2 ^ 64 -> (forall x, i0 <= x < i' -> hit x = false) -> contig = false -> exists r, restart i' = Done r /\ chunk_result i0 r) ->
  exists r, chunk_loop fuel restart s iter flags tag i (node_to_entry a) = Done r /\ chunk_result i0 r.
Proof using Type*.
  induction fuel as [|fuel IH]; intros i0 a i restart Ca Hi Hle Hno Hco Hf Hre; [lia|]. cbn [chunk_loop]. pose proof Ca as [Ta Cb].
  rewrite entry_to_node_entry by (by apply Hs). unfold radix_tree_descend. cbv zeta. fold (shift_of s a) (slots_of s a).
  fold (digit i (shift_of s a)) tagged_flag contig. pose proof (shift_nonneg s T base Hs a Ta) as Hn. pose proof (pow2_pos (shift_of s a)) as Hpw.
  pose proof (digit_range i (shift_of s a) ltac:(lia)) as Hd. set (d := digit i (shift_of s a)) in *.
  assert (Hgo : forall k, covers s T base a k -> is_u64 k -> i <= k -> (forall x, i0 <= x < k -> hit x = false) -> (contig = true -> k = i0) ->
    let o := digit k (shift_of s a) in mark a o = true -> exists r,
    (if negb (bool_of (slots_of s a o)) then restart k
     else if slots_of s a o =? RADIX_TREE_RETRY then Done (chunk_found s iter flags tag k a o)
     else if bool_of (shift_of s a) && radix_tree_is_internal_node (slots_of s a o) then chunk_loop fuel restart s iter flags tag k (slots_of s a o)
     else Done (chunk_found s iter flags tag k a o)) = Done r /\ chunk_result i0 r).
  { intros k Ck Hk Hik Hnk Hck o Hm. pose proof (digit_range k (shift_of s a) ltac:(lia)) as Ho. fold o in Ho. pose proof (mark_entry a o Ta Ho Hm) as Hne.
    rewrite (bool_of_true _ Hne). cbn [negb]. pose proof (sh_slot _ _ _ Hs a o Ta Ho Hne) as Hk'. destruct (Z.eqb_spec (shift_of s a) 0) as [Hz|Hz].
    - rewrite Hk', andb_false_r. assert (Hfo : chunk_result i0 (chunk_found s iter flags tag k a o)).
      { unfold o in *. rewrite Hz in *. apply found_ok; try done. lia. }
      destruct (slots_of s a o =? RADIX_TREE_RETRY); eexists; (split; [done|exact Hfo]).
    - destruct (descend s T base Hs a k Ck Hz) as [He|(c & Tc & He & Hg & Cc)]; [by fold o in He|]. fold o in He, Hg. rewrite He.
      destruct (Z.eqb_spec (node_to_entry c) RADIX_TREE_RETRY) as [Er|_]; [by apply entry_not_retry in Er; [|apply Hs]|].
      rewrite (bool_of_true _ Hz), entry_internal by (by apply Hs). cbn [andb]. pose proof (hg_shift _ _ _ _ _ Hg). pose proof map_shift_range.
      apply IH; try done; [lia|pose proof (shift_nonneg s T base Hs c Tc); lia|]. intros i' Hi'. apply Hre. lia. }
  destruct (mark a d) eqn:Hm.
  - assert (Ht : (if tagged_flag then negb (tag_get s a tag d) else negb (bool_of (slots_of s a d))) = false).
    { unfold mark in Hm. destruct tagged_flag; by rewrite Hm. }
    rewrite Ht. apply Hgo; try done; lia.
  - assert (Ht : (if tagged_flag then negb (tag_get s a tag d) else negb (bool_of (slots_of s a d))) = true).
    { unfold mark in Hm. destruct tagged_flag; by rewrite Hm. }
    rewrite Ht. pose proof (own_slot s T base a i Hs Ca) as Hown. fold d in Hown. destruct contig eqn:Ec.
    { eexists. split; [done|]. unfold chunk_result. rewrite Ec. split; [done|]. rewrite <- (Hco eq_refl). by apply (mark_false a d i). }
    set (o := if tagged_flag then _ else _). destruct (next_mark a d Ta Hd) as (Ho & Hun & Hon). fold o in Ho, Hun, Hon.
    assert (Hnone : forall x, i0 <= x < base a + o * 2 ^ shift_of s a -> hit x = false).
    { intros x Hx. destruct (Z.lt_ge_cases x i) as [|Hge]; [apply Hno; lia|]. pose proof (digit_range x (shift_of s a) ltac:(lia)) as Hdx.
      assert (Cx : covers s T base a x) by (apply (range_covers s T base a x Hs Ta); nia). pose proof (own_slot s T base a x Hs Cx) as Hox.
      apply (mark_false a (digit x (shift_of s a)) x Ta Hdx); [|done]. destruct (Z.eq_dec (digit x (shift_of s a)) d) as [->|Hxd]; [done|].
      apply Hun. nia. }
    destruct (slot_index a i o Ca Hi) as [[Hi0 Hbig]|[Hio Hpos]]; [lia|intros Hlt; apply mark_entry; [done|lia|by apply Hon]| |].
    + cbv zeta in Hi0. rewrite Hi0. change (bool_of 0) with false. cbn [negb]. eexists. split; [done|]. unfold chunk_result. rewrite Ec. split; [done|].
      intros x Hx. apply Hnone. lia.
    + cbv zeta in Hio, Hpos. rewrite Hio in *. rewrite bool_of_true by lia. cbn [negb]. destruct (Z.eqb_spec o SIZE) as [Hos|Hos].
      * apply Hre; [nia|done|done].
      * assert (Hlt : o < SIZE) by lia. set (k := base a + o * 2 ^ shift_of s a) in *.
        assert (Ck : covers s T base a k) by (apply (range_covers s T base a k Hs Ta); unfold k; nia).
        assert (Hok : o = digit k (shift_of s a)) by (apply (digit_unique (base a)); [lia|by destruct Ck|unfold k; nia]).
        specialize (Hon Hlt). pose proof (Hgo k Ck) as Hg'. cbv zeta in Hg'. rewrite <- Hok in Hg'.
        apply Hg'; try done; unfold is_u64; try lia. unfold k; nia.
Qed.

(** Nothing is found from an index on that is out of reach. *)
Lemma none_ok i0 i : i0 <= i -> (forall x, i0 <= x < i -> hit x = false) -> (forall x, i <= x < 2 ^ 64 -> hit x = false) -> is_u64 i ->
  (contig = true -> i = i0) -> chunk_result i0 (None, iter).
Proof using Type*.
  intros Hle Hno Hrest Hi Hco. unfold is_u64 in Hi. unfold chunk_result. split; [done|]. destruct contig eqn:E.
  - rewrite <- (Hco eq_refl). apply Hrest. lia.
  - intros x Hx. destruct (Z.lt_ge_cases x i); [apply Hno; lia|apply Hrest; lia].
Qed.

Lemma chunk_restart_ok fuel : (tagged_flag = true -> root_tag_get s tag = true) -> forall i0 i, is_u64 i -> i0 <= i -> (forall x, i0 <= x < i -> hit x = false) ->
  (contig = true -> i = i0) -> 2 ^ 64 - i < Z.of_nat fuel -> exists r, chunk_restart fuel s iter flags tag i = Done r /\ chunk_result i0 r.
Proof using Type*.
  intros Hroot. induction fuel as [|fuel IH]; intros i0 i Hi Hle Hno Hco Hf; [unfold is_u64 in Hi; lia|]. cbn [chunk_restart]. rewrite load_root_eq.
  destruct (radix_tree_is_internal_node (xa_head s)) eqn:Hh.
  - destruct (head_node s T base Hs Hh) as (Tr & He & _). set (r := entry_to_node (xa_head s)) in *. destruct (Z.gtb_spec i (node_maxindex s r)) as [Hgt|Hin].
    + eexists. split; [done|]. apply (none_ok i0 i); try done. intros x Hx. destruct (hit x) eqn:Ehx; [|done].
      apply hit_item in Ehx. pose proof (item_in_span s T base M x Hs Hc Ehx) as Hsp. unfold span in Hsp. rewrite Hh in Hsp. fold r in Hsp.
      unfold node_maxindex in Hgt. fold (shift_of s r) in Hgt. rewrite shift_maxindex_eq in Hgt by (by apply (shift_nonneg s T base Hs)). lia.
    + rewrite bool_of_true by (rewrite He; by apply entry_nonzero, Hs). cbn [negb]. rewrite He. apply chunk_loop_ok; try done.
      * apply (head_covers s T base Hs i Hh). unfold is_u64 in Hi. fold r. lia.
      * pose proof (shift_nonneg s T base Hs r Tr). destruct turns_S as (n & -> & ?). lia.
      * intros i' Hi' Hno' Hc'. apply IH; try done; [unfold is_u64; unfold is_u64 in Hi; lia|unfold is_u64 in Hi; lia|by rewrite Hc'|lia].
  - destruct (head_only_facts _ _ _ _ _ _ _ Htr Hh) as (M1 & M2 & _).
    assert (Hh0 : forall x, x <> 0 -> hit x = false) by (intros x Hx; destruct (hit x) eqn:E; [by apply hit_item in E; rewrite M1 in E|done]).
    unfold is_u64 in Hi. destruct (Z.gtb_spec i 0) as [Hgt|Hin].
    + eexists. split; [done|]. apply (none_ok i0 i); try done. intros x Hx. apply Hh0. lia.
    + assert (i = 0) as -> by lia. destruct (Z.eq_dec (xa_head s) 0) as [E|E].
      * rewrite E. change (bool_of 0) with false. cbn [negb]. eexists. split; [done|]. apply (none_ok i0 0); try done. intros x _.
        destruct (Z.eq_dec x 0) as [->|]; [|by apply Hh0]. destruct (hit 0) eqn:E0; [|done]. apply hit_item in E0. congruence.
      * rewrite (bool_of_true _ E). cbn [negb]. eexists. split; [done|].
        assert (Hz : hit 0 = true).
        { unfold hit. destruct tagged_flag eqn:Et; [|by rewrite <- M2, (bool_of_true _ E)].
          pose proof (tg_root _ _ _ _ (tr_tagged _ _ _ _ _ _ _ Htr) tag (Htag eq_refl)) as [Hr _]. destruct (Hr (Hroot eq_refl)) as (x & Hx & Hg).
          unfold span in Hx. rewrite Hh in Hx. by assert (x = 0) as -> by lia. }
        unfold chunk_result, chunk_end. rewrite Hh. cbn [it_index it_next_index it_tags it_node]. split_and!; try done; try lia.
        -- by constructor.
        -- intros _ d Hd0 Hd1. assert (d = 0) as -> by lia. by rewrite Z.add_0_r, Hz.
Qed.

Lemma next_chunk_ok fuel : is_u64 (it_next_index iter) -> (it_next_index iter = 0 -> it_index iter = 0) -> 2 ^ 64 - it_next_index iter < Z.of_nat fuel ->
  exists r, radix_tree_next_chunk fuel s iter flags = Done r /\ chunk_result (it_next_index iter) r.
Proof using Type*.
  intros Hi H0i Hf. unfold radix_tree_next_chunk. fold tagged_flag tag. destruct (tagged_flag && negb (root_tag_get s tag)) eqn:E.
  - apply andb_true_iff in E as [Et Er]. apply negb_true_iff in Er. eexists. split; [done|]. apply (none_ok _ (it_next_index iter)); [lia|intros x Hx; lia| |done|done].
    intros x Hx. unfold hit. rewrite Et. destruct (G tag x) eqn:Eg; [|done]. exfalso.
    pose proof (tg_root _ _ _ _ (tr_tagged _ _ _ _ _ _ _ Htr) tag (Htag Et)) as [_ Hr]. rewrite Hr in Er; [done|]. exists x. split; [|done].
    apply (item_in_span s T base M x Hs Hc). by apply (HG tag x (Htag Et)).
  - destruct (negb (bool_of (it_next_index iter)) && bool_of (it_index iter)) eqn:E1.
    + exfalso. apply andb_true_iff in E1 as [E1 E2]. destruct (Z.eq_dec (it_next_index iter) 0) as [Ez|Ez].
      * by rewrite (H0i Ez) in E2.
      * by rewrite (bool_of_true _ Ez) in E1.
    + apply chunk_restart_ok; [|done|lia|intros x Hx; lia|done|done]. intros Et. rewrite Et in E. by destruct (root_tag_get s tag).
Qed.
End Walk.
End Iter.
