(* ===== verification/RadixProps.v ===== *)
(** * Radix tree: what clients may rely on

    The operations on a tree refine those on a map from indices to items with three
    sets of tagged indices; preloading makes an insertion succeed without memory;
    nodes are given back. *)

From S2P Require Import Prelude Gfp RadixTree RadixInv RadixLookup RadixSteps RadixInsert RadixTags RadixDelete RadixPool RadixIter.

(** ** The abstract tree *)
Record amap := AMap { items : Z -> Z; tags : Z -> Z -> bool }.

Inductive request :=
| Insert (index item : Z)
| Lookup (index : Z)
| Delete (index : Z)
| DeleteItem (index item : Z)
| Replace (index item : Z)
| ReplaceSlot (index item : Z)
| TagSet (index tag : Z)
| TagClear (index tag : Z)
| TagGet (index tag : Z)
| Tagged (tag : Z)
| Preload (gfp : Z)
| GracePeriod.

(** What a client asks may depend on what it was answered. *)
Inductive client := Stop | Call (q : request) (k : Z -> client).

Section Spec.
Context `{RadixHeaders}.

Definition is_tag (t : Z) : Prop := 0 <= t < RADIX_TREE_MAX_TAGS.
Definition is_item (e : Z) : Prop := radix_tree_is_internal_node e = false /\ e <> 0.

(** What a client has to respect. *)
Definition allowed (m : amap) (q : request) : Prop :=
  match q with
  | Insert i e => is_u64 i /\ is_item e
  | Lookup i | Delete i | DeleteItem i _ => is_u64 i
  | Replace i e => is_u64 i /\ items m i <> 0 /\ radix_tree_is_internal_node e = false /\ (e = 0 -> forall t, is_tag t -> tags m t i = false)
  | ReplaceSlot i e => is_u64 i /\ items m i <> 0 /\ is_item e /\ xa_is_value e = xa_is_value (items m i)
  | TagSet i t => is_u64 i /\ is_tag t /\ items m i <> 0
  | TagClear i t | TagGet i t => is_u64 i /\ is_tag t
  | Tagged t => is_tag t
  | Preload _ | GracePeriod => True
  end.

Definition remove (m : amap) (i : Z) : amap := AMap (upd (items m) i 0) (untag (tags m) i).

(** The answers and the next maps that are right. *)
Definition answers (m : amap) (q : request) (r : Z) (m' : amap) : Prop :=
  match q with
  | Insert i e => (r = 0 /\ items m i = 0 /\ m' = AMap (upd (items m) i e) (tags m)) \/
                  (r = - EEXIST /\ items m i <> 0 /\ m' = m) \/ (r = - ENOMEM /\ m' = m)
  | Lookup i => r = items m i /\ m' = m
  | Delete i => r = items m i /\ m' = if items m i =? 0 then m else remove m i
  | DeleteItem i e => if (items m i =? 0) || (bool_of e && negb (items m i =? e)) then r = 0 /\ m' = m
                      else r = items m i /\ m' = remove m i
  | Replace i e | ReplaceSlot i e => m' = AMap (upd (items m) i e) (tags m)
  | TagSet i t => r = items m i /\ m' = AMap (items m) (set_tag (tags m) t i true)
  | TagClear i t => r = items m i /\ m' = AMap (items m) (set_tag (tags m) t i false)
  | TagGet i t => r = Z.b2z (tags m t i) /\ m' = m
  | Tagged t => ((r = 1 /\ exists i, tags m t i = true) \/ (r = 0 /\ forall i, tags m t i = false)) /\ m' = m
  | Preload _ => (r = 0 \/ r = - ENOMEM) /\ m' = m
  | GracePeriod => m' = m
  end.

(** A client that respects the rules whatever it is answered. *)
Fixpoint safe (m : amap) (c : client) : Prop :=
  match c with Stop => True | Call q k => allowed m q /\ forall r m', answers m q r m' -> safe m' (k r) end.

(** Requests and answers lead from one map to another. *)
Fixpoint explains (m : amap) (tr : list (request * Z)) (m' : amap) : Prop :=
  match tr with [] => m' = m | (q, r) :: tr => exists m1, answers m q r m1 /\ explains m1 tr m' end.
End Spec.

Section Serve.
Context `{RadixHeaders} `{KmemCache}.

(** The calls that serve a request. *)
Definition serve (s : radix_tree_root) (q : request) : outcome (Z * radix_tree_root) :=
  match q with
  | Insert i e => radix_tree_insert s i e
  | Lookup i => e ← radix_tree_lookup s i; Done (e, s)
  | Delete i => radix_tree_delete s i
  | DeleteItem i e => radix_tree_delete_item s i e
  | Replace i e =>
      r ← __radix_tree_lookup s i;
      match r.2 with Some (node, slot) => s ← __radix_tree_replace s node slot e; Done (r.1, s) | None => Done (r.1, s) end
  | ReplaceSlot i e =>
      slot ← radix_tree_lookup_slot s i;
      match slot with Some slot => s ← radix_tree_replace_slot s slot e; Done (0, s) | None => Done (0, s) end
  | TagSet i t => radix_tree_tag_set s i t
  | TagClear i t => radix_tree_tag_clear s i t
  | TagGet i t => r ← radix_tree_tag_get s i t; Done (r, s)
  | Tagged t => Done (Z.b2z (radix_tree_tagged s t), s)
  | Preload g => radix_tree_preload s g
  | GracePeriod => Done (0, rcu_callbacks s)
  end.

Fixpoint run (s : radix_tree_root) (c : client) : outcome (list (request * Z) * radix_tree_root) :=
  match c with
  | Stop => Done ([], s)
  | Call q k => r ← serve s q; trs ← run r.2 (k r.1); Done ((q, r.1) :: trs.1, trs.2)
  end.
End Serve.

Section Refinement.
Context `{RadixSpec} `{KmemSpec}.

(** If [Q] holds there are no empty nodes. *)
Definition implements (Q : Prop) (s : radix_tree_root) (m : amap) : Prop := radix Q s (items m) (tags m).

Lemma radix_weaken (Q Q' : Prop) s M G : (Q' -> Q) -> radix Q s M G -> radix Q' s M G.
Proof using Type. intros Hq (Hid & Hg & T & base & pool & Ht & Hti). split_and!; [done..|]. exists T, base, pool. split; [done|]. intros q'. by apply Hti, Hq. Qed.

Lemma lookup_ok Q s M G i : radix Q s M G -> is_u64 i -> radix_tree_lookup s i = Done (M i).
Proof using Type*.
  intros (_ & _ & T & base & pool & [h1 h2 _ _] & _) Hi. unfold radix_tree_lookup.
  by destruct (lookup_place s T base M h1 h2 i Hi) as (r & -> & _).
Qed.

Lemma tagged_ok Q s M G t : radix Q s M G -> is_tag t ->
  if radix_tree_tagged s t then exists i, G t i = true else forall i, G t i = false.
Proof using Type*.
  intros (_ & Hg & T & base & pool & [h1 h2 h3 _] & _) Ht. unfold radix_tree_tagged. pose proof (tg_root _ _ _ _ h3 t Ht) as Hr.
  destruct (root_tag_get s t).
  - destruct Hr as [Hr _]. destruct (Hr eq_refl) as (i & _ & Hi). by exists i.
  - intros i. destruct (G t i) eqn:E; [|done]. destruct Hr as [_ Hr]. symmetry. apply Hr. exists i. split; [|done].
    apply (item_in_span s T base M i h1 h2). by apply (Hg t).
Qed.

Lemma delete_ok Q s M G i : radix Q s M G -> is_u64 i ->
  if M i =? 0 then radix_tree_delete s i = Done (0, s)
  else exists s', radix_tree_delete s i = Done (M i, s') /\ radix Q s' (upd M i 0) (untag G i).
Proof using Type*.
  intros Hr Hi. pose proof (delete_item_ok Q s M G i 0 Hr Hi) as Hd. unfold radix_tree_delete. change (bool_of 0) with false in Hd. cbn [andb] in Hd.
  by rewrite orb_false_r in Hd.
Qed.

(** The place that [Replace] and [ReplaceSlot] find. *)
Lemma replace_ok Q s M G i e : radix Q s M G -> is_u64 i -> M i <> 0 -> radix_tree_is_internal_node e = false ->
  (e = 0 -> forall t, is_tag t -> G t i = false) -> exists s', serve s (Replace i e) = Done (M i, s') /\ radix Q s' (upd M i e) G.
Proof using Type*.
  intros (Hid & Hg & T & base & pool & Ht & Hti) Hi Hm He Ht0. cbn [serve]. pose proof Ht as [h1 h2 _ _].
  destruct (lookup_place s T base M h1 h2 i Hi) as (r & -> & Hp). cbn [mbind outcome_bind fst snd]. destruct r as [[p slot]|]; [|done].
  destruct (replace_place_ok Q s T base pool M G i p slot e Ht Hg Hid Hti Hp Hm He Ht0) as (s' & -> & Hr). by exists s'.
Qed.

Lemma replace_known_ok Q s M G i e : radix Q s M G -> is_u64 i -> M i <> 0 -> is_item e -> xa_is_value e = xa_is_value (M i) ->
  exists s', serve s (ReplaceSlot i e) = Done (0, s') /\ radix Q s' (upd M i e) G.
Proof using Type*.
  intros (Hid & Hg & T & base & pool & Ht & Hti) Hi Hm [He Hne] Hv. cbn [serve]. unfold radix_tree_lookup_slot. pose proof Ht as [h1 h2 _ _].
  destruct (lookup_place s T base M h1 h2 i Hi) as (r & -> & Hp). cbn [mbind outcome_bind fst snd]. rewrite (bool_of_true _ Hm). cbn [negb].
  destruct r as [[p slot]|]; [|done].
  destruct (replace_slot_ok Q s T base pool M G i p slot e Ht Hg Hid Hti Hp Hm He Hne Hv) as (s' & -> & Hr). by exists s'.
Qed.

(** One request; only an insertion that fails may leave empty nodes. *)
Lemma serve_ok Q s m q : implements Q s m -> allowed m q ->
  exists r s' m', serve s q = Done (r, s') /\ answers m q r m' /\ implements (Q /\ r <> - ENOMEM) s' m'.
Proof using Type*.
  intros Hr Ha. cut (exists r s' m', serve s q = Done (r, s') /\ answers m q r m' /\ implements (r <> - ENOMEM /\ Q) s' m').
  { intros (r & s' & m' & Hs & Han & Him). exists r, s', m'. split_and!; [done..|]. by apply (radix_weaken (r <> - ENOMEM /\ Q)); [tauto|]. }
  assert (Hw : forall r s' m', implements Q s' m' -> implements (r <> - ENOMEM /\ Q) s' m') by (intros r s' m'; apply radix_weaken; tauto).
  destruct q as [i e|i|i|i e|i e|i e|i t|i t|i t|t|g|]; cbn [serve allowed answers] in *.
  - destruct Ha as (Hi & He & Hn). destruct (insert_ok Q s (items m) (tags m) i e Hr Hi He Hn) as (err & s' & -> & _ & Hc).
    destruct Hc as [(-> & Hm & Hr')|[(-> & Hm & Hr')|(-> & Hr' & _)]].
    + exists 0, s', (AMap (upd (items m) i e) (tags m)). split; [done|]. split; [by left|by apply Hw].
    + exists (- EEXIST), s', m. split; [done|]. split; [by right; left|by apply Hw].
    + exists (- ENOMEM), s', m. split; [done|]. split; [by right; right|]. by apply (radix_weaken False); [tauto|].
  - rewrite (lookup_ok Q s (items m) (tags m) i Hr Ha). cbn [mbind outcome_bind]. eexists _, s, m. split; [done|]. auto.
  - pose proof (delete_ok Q s (items m) (tags m) i Hr Ha) as Hd. destruct (Z.eqb_spec (items m i) 0) as [E|E].
    + rewrite Hd, E. eexists _, s, m. split; [done|]. auto.
    + destruct Hd as (s' & -> & Hr'). eexists _, s', (remove m i). split; [done|]. auto.
  - pose proof (delete_item_ok Q s (items m) (tags m) i e Hr Ha) as Hd. destruct (_ || _).
    + rewrite Hd. eexists _, s, m. split; [done|]. auto.
    + destruct Hd as (s' & -> & Hr'). eexists _, s', (remove m i). split; [done|]. auto.
  - destruct Ha as (Hi & Hm & He & Ht). destruct (replace_ok Q s (items m) (tags m) i e Hr Hi Hm He Ht) as (s' & Hs' & Hr').
    cbn [serve] in Hs'. rewrite Hs'. eexists _, s', (AMap _ _). split; [done|]. auto.
  - destruct Ha as (Hi & Hm & He & Hv). destruct (replace_known_ok Q s (items m) (tags m) i e Hr Hi Hm He Hv) as (s' & Hs' & Hr').
    cbn [serve] in Hs'. rewrite Hs'. eexists _, s', (AMap _ _). split; [done|]. auto.
  - destruct Ha as (Hi & Ht & Hm). destruct (tag_set_ok Q s (items m) (tags m) i t Hr Hi Ht Hm) as (s' & -> & Hr' & _).
    eexists _, s', (AMap _ _). split; [done|]. auto.
  - destruct Ha as (Hi & Ht). destruct (tag_clear_ok Q s (items m) (tags m) i t Hr Hi Ht) as (s' & -> & Hr' & _).
    eexists _, s', (AMap _ _). split; [done|]. auto.
  - destruct Ha as (Hi & Ht). rewrite (tag_get_ok Q s (items m) (tags m) i t Hr Hi Ht). eexists _, s, m. split; [done|]. auto.
  - pose proof (tagged_ok Q s (items m) (tags m) t Hr Ha) as Hg. eexists _, s, m. split; [done|]. split; [|auto]. split; [|done].
    destruct (radix_tree_tagged s t); [by left|by right].
  - destruct (preload_ok Q s (items m) (tags m) g Hr) as (err & s' & -> & Hr' & _ & _ & _ & Hc). eexists _, s', m.
    split; [done|]. split; [|auto]. split; [|done]. tauto.
  - eexists _, _, m. split; [done|]. split; [done|]. by apply Hw, grace_ok.
Qed.

(** No insertion was out of memory. *)
Definition no_failure (tr : list (request * Z)) : Prop := Forall (fun qr => qr.2 <> - ENOMEM) tr.

Lemma run_ok c : forall Q s m, implements Q s m -> safe m c ->
  exists tr s' m', run s c = Done (tr, s') /\ explains m tr m' /\ implements (Q /\ no_failure tr) s' m'.
Proof using Type*.
  induction c as [|q k IH]; intros Q s m Hr Hl.
  - exists [], s, m. split_and!; [done..|]. by apply (radix_weaken Q); [tauto|].
  - destruct Hl as [Ha Hl]. destruct (serve_ok Q s m q Hr Ha) as (r & s1 & m1 & Hs & Han & Hr1).
    destruct (IH r _ s1 m1 Hr1 (Hl r m1 Han)) as (tr & s' & m' & Hs' & Hans & Hr'). cbn [run]. rewrite Hs. cbn [mbind outcome_bind fst snd].
    rewrite Hs'. exists ((q, r) :: tr), s', m'. split; [done|]. split; [by exists m1|]. apply (radix_weaken ((Q /\ r <> - ENOMEM) /\ no_failure tr)); [|done].
    unfold no_failure. rewrite list.Forall_cons. intros (? & ? & ?). by split_and!.
Qed.

(** ** A new tree *)
Record initial (s : radix_tree_root) : Prop := {
  in_head : xa_head s = 0;
  in_flags : 0 <= xa_flags s < 2 ^ ROOT_TAG_SHIFT;
  in_idr : is_idr s = false;
  in_pool : rtp_nr s = 0;
  in_rcu : rcu s = [];
  in_cache a : ~ held (node_cachep s) a;
  in_mem a : clean (mem s a);
}.

Definition empty : amap := AMap (fun _ => 0) (fun _ _ => false).

Lemma initial_implements s : initial s -> implements True s empty.
Proof using Type*.
  intros [Hh Hf Hid Hn Hr Hc Hm]. pose proof root_tag_shift. pose proof max_tags. split_and!; [done|done|].
  exists (fun _ => False), (fun _ => 0), []. split; [|by intros _ a []]. apply head_only_tree; try done.
  - rewrite Hh. apply null_not_internal.
  - auto.
  - intros t Ht. rewrite root_tag_bit by lia. by apply (testbit_small _ ROOT_TAG_SHIFT); lia.
  - rewrite Z.pow_add_r by lia. pose proof (pow2_pos RADIX_TREE_MAX_TAGS). nia.
  - split; rewrite ?Hr; cbn [app]; try done.
    + intros a. split; [by intros ?%Hc|]. intros [[]|Ha]. by apply elem_of_nil in Ha.
    + intros a Ha. by apply Hc in Ha.
    + constructor.
Qed.

(** ** Reachable nodes *)
Inductive in_tree (s : radix_tree_root) : Z -> Prop :=
| in_root : radix_tree_is_internal_node (xa_head s) = true -> in_tree s (entry_to_node (xa_head s))
| in_child a j : in_tree s a -> 0 <= j < RADIX_TREE_MAP_SIZE -> radix_tree_is_internal_node (nd_slots (mem s a) j) = true ->
    in_tree s (entry_to_node (nd_slots (mem s a) j)).

Lemma in_tree_node s T base a : shape s T base -> in_tree s a -> T a.
Proof using Type*.
  intros Hs. induction 1 as [Hi|a j _ Ta Hj Hi]; [by apply (head_node s T base Hs Hi)|]. fold (slots_of s a) in *.
  assert (Hne : slots_of s a j <> 0) by (intros E; by rewrite E, null_not_internal in Hi).
  pose proof (sh_slot _ _ _ Hs a j Ta Hj Hne) as Hk. destruct (shift_of s a =? 0); [congruence|].
  destruct Hk as (c & Tc & -> & _). rewrite entry_to_node_entry; [done|by apply Hs].
Qed.

Lemma tally_mono (P P' : Z -> bool) f : (forall e, P e = true -> P' e = true) -> tally P f <= tally P' f.
Proof using Type.
  intros Hp. unfold tally. induction (seqZ 0 RADIX_TREE_MAP_SIZE) as [|j l IH]; [done|]. rewrite !filter_cons.
  destruct (P (f j)) eqn:E.
  - rewrite !decide_True by auto. simpl. lia.
  - rewrite decide_False by done. destruct (decide (P' (f j) = true)); simpl; lia.
Qed.

(** What the fields of a node hold. *)
Record well_typed (s : radix_tree_root) (a : Z) : Prop := {
  wt_held : held (node_cachep s) a /\ is_object a;
  wt_shift : 0 <= nd_shift (mem s a) < 64;
  wt_offset : 0 <= nd_offset (mem s a) < RADIX_TREE_MAP_SIZE;
  wt_values : nd_nr_values (mem s a) = Z.of_nat (length (filter (fun j => xa_is_value (nd_slots (mem s a) j) = true) (seqZ 0 RADIX_TREE_MAP_SIZE)));
  wt_bytes : 0 <= nd_nr_values (mem s a) <= nd_count (mem s a) /\ nd_count (mem s a) < 2 ^ 8;
  wt_count : nd_count (mem s a) = Z.of_nat (length (filter (fun j => nd_slots (mem s a) j <> 0) (seqZ 0 RADIX_TREE_MAP_SIZE)));
  wt_parent : let p := nd_parent (mem s a) in
    (p = 0 /\ xa_head s = node_to_entry a) \/
    (in_tree s p /\ nd_slots (mem s p) (nd_offset (mem s a)) = node_to_entry a /\ nd_shift (mem s p) = nd_shift (mem s a) + RADIX_TREE_MAP_SHIFT);
  wt_child j : 0 <= j < RADIX_TREE_MAP_SIZE -> radix_tree_is_internal_node (nd_slots (mem s a) j) = true ->
    let c := entry_to_node (nd_slots (mem s a) j) in nd_parent (mem s c) = a /\ nd_offset (mem s c) = j;
  wt_tags t : is_tag t -> is_u64 (nd_tags (mem s a) t);
}.

(** The child in a slot. *)
Lemma slot_child s T base a j : shape s T base -> T a -> 0 <= j < RADIX_TREE_MAP_SIZE -> radix_tree_is_internal_node (nd_slots (mem s a) j) = true ->
  exists c, T c /\ nd_slots (mem s a) j = node_to_entry c /\ entry_to_node (nd_slots (mem s a) j) = c /\ hangs s base a j c.
Proof using Type*.
  intros Hs Ta Hj Hi. assert (Hne : slots_of s a j <> 0) by (unfold slots_of; intros E; by rewrite E, null_not_internal in Hi).
  pose proof (sh_slot _ _ _ Hs a j Ta Hj Hne) as Hk. unfold slots_of in *. destruct (shift_of s a =? 0); [congruence|].
  destruct Hk as (c & Tc & E & Hg). exists c. rewrite E. split_and!; try done. apply entry_to_node_entry. by apply Hs.
Qed.

Lemma parent_in_tree s T base a : shape s T base -> in_tree s a -> nd_parent (mem s a) = 0 \/ in_tree s (nd_parent (mem s a)).
Proof using Type*.
  intros Hs Ha. destruct Ha as [Hi|a j Ha Hj Hi]; [left; by apply (head_node s T base Hs Hi)|right].
  destruct (slot_child s T base a j Hs (in_tree_node s T base a Hs Ha) Hj Hi) as (c & _ & _ & -> & Hg). by rewrite (hg_parent _ _ _ _ _ Hg).
Qed.

Lemma parent_holds s T base a : shape s T base -> in_tree s a -> let p := nd_parent (mem s a) in
  (p = 0 /\ xa_head s = node_to_entry a) \/
  (in_tree s p /\ nd_slots (mem s p) (nd_offset (mem s a)) = node_to_entry a /\ nd_shift (mem s p) = nd_shift (mem s a) + RADIX_TREE_MAP_SHIFT).
Proof using Type*.
  intros Hs Ha p. pose proof (in_tree_node s T base a Hs Ha) as Ta.
  destruct (sh_parent _ _ _ Hs a Ta) as [(Hp & Hh & _)|(Tp & _ & Ho & E)]; [by left|right]. fold p in Tp, E. unfold slots_of in E.
  split; [|split; [done|]].
  - destruct (parent_in_tree s T base a Hs Ha) as [Hz|]; [|done]. apply (sh_object _ _ _ Hs), object_nonzero in Tp. by destruct Tp.
  - destruct (slot_child s T base p (nd_offset (mem s a)) Hs Tp Ho) as (c & Tc & E' & _ & Hg).
    { rewrite E. apply entry_internal. by apply Hs. }
    rewrite E in E'. apply entry_inj in E'; [subst c|by apply Hs|by apply Hs]. pose proof (hg_shift _ _ _ _ _ Hg) as Hsh. unfold shift_of in Hsh. lia.
Qed.

Lemma tree_typed s T base pool M G a : tree s T base pool [] M G -> in_tree s a -> well_typed s a.
Proof using Type*.
  intros [h1 h2 h3 h4] Ha. pose proof (in_tree_node s T base a h1 Ha) as Ta. pose proof size_range. split.
  - assert (Hh : held (node_cachep s) a) by (apply (ow_held _ _ _ _ h4); by left). split; [done|by apply (ow_object _ _ _ _ h4)].
  - by apply (shift_nonneg s T base h1 a).
  - destruct (sh_parent _ _ _ h1 a Ta) as [(_ & _ & _ & ->)|(_ & _ & Ho & _)]; lia.
  - by rewrite (sh_values _ _ _ h1 a Ta).
  - rewrite (sh_values _ _ _ h1 a Ta), (sh_count _ _ _ h1 a Ta). pose proof (tally_range xa_is_value (slots_of s a)). pose proof (tally_range bool_of (slots_of s a)). split; [|lia].
    split; [lia|]. apply tally_mono. intros e He. apply bool_of_true. intros ->. by rewrite value_null in He.
  - rewrite (sh_count _ _ _ h1 a Ta). unfold tally. f_equal. f_equal. apply list.list_filter_iff. intros j. unfold slots_of, bool_of. by destruct (Z.eqb_spec (nd_slots (mem s a) j) 0).
  - by apply (parent_holds s T base a).
  - intros j Hj Hi. destruct (slot_child s T base a j h1 Ta Hj Hi) as (c & _ & _ & -> & Hg). split; apply Hg.
  - intros t Ht. destruct (tg_bits _ _ _ _ h3 a Ta t Ht) as [Hr _]. unfold is_u64.
    assert (2 ^ RADIX_TREE_MAP_SIZE <= 2 ^ 64) by (apply Z.pow_le_mono_r; lia). lia.
Qed.

(** ** Iteration *)
Definition wants_tag (flags : Z) : bool := bool_of (Z.land flags RADIX_TREE_ITER_TAGGED).
Definition wants_next (flags : Z) : bool := bool_of (Z.land flags RADIX_TREE_ITER_CONTIG).
Definition wanted_tag (flags : Z) : Z := Z.land flags RADIX_TREE_ITER_TAG_MASK.

(** Whether an iteration with these flags stops at an index. *)
Definition visits (m : amap) (flags i : Z) : bool :=
  if wants_tag flags then tags m (wanted_tag flags) i else bool_of (items m i).

(** An iterator that may be asked for its next chunk. *)
Record may_continue (iter : radix_tree_iter) (flags : Z) : Prop := {
  mc_index : is_u64 (it_next_index iter);
  mc_start : it_next_index iter = 0 -> it_index iter = 0;
  mc_tag : wants_tag flags = true -> is_tag (wanted_tag flags);
}.

(** Deleting at the iterator, clearing a tag there, and replacing the item. *)
Lemma iter_ops Q s T base pool M G it slot : tree s T base pool [] M G -> tags_sub M G -> is_idr s = false -> (Q -> tight_but s T 0) ->
  let k := it_index it in place s T base M k (it_node it) slot -> M k <> 0 ->
  (exists it' s', radix_tree_iter_delete s it slot = Done (it', s') /\ radix Q s' (upd M k 0) (untag G k) /\
     (it' = it \/ it' = Iter (it_next_index it) (it_next_index it) (it_tags it) (it_node it))) /\
  (forall t, is_tag t -> exists s', radix_tree_iter_tag_clear s it t = Done s' /\ radix Q s' M (set_tag G t k false)) /\
  (forall e, is_item e -> exists s', radix_tree_iter_replace s it slot e = Done s' /\ radix Q s' (upd M k e) G).
Proof using Type*.
  intros Ht Hg Hid Hti k Hp Hm. assert (Hz : it_node it <> 0 -> shift_of s (it_node it) = 0).
  { intros Hn. by destruct Hp as [|p _ _ Hz]; [|apply Hz]. }
  split_and!.
  - destruct (delete_place_ok Q s T base pool M G k (it_node it) slot Ht Hg Hid Hti Hp Hm) as (b & s' & Hd & Hr).
    unfold radix_tree_iter_delete. rewrite Hd. cbn [mbind outcome_bind]. eexists _, s'. split; [done|]. split; [done|]. destruct b; auto.
  - intros t Htt. destruct (node_tag_clear_ok s T base pool M G t k (it_node it) slot Ht Hg Htt Hp Hz) as (s' & Hd & Hrt & Ht' & Hi').
    exists s'. split.
    + unfold radix_tree_iter_tag_clear. rewrite <- Hd. unfold node_tag_clear, get_slot_offset, iter_offset. fold k. destruct Hp as [Hh|p Cp _ _].
      * destruct turns_S as (n & -> & _). done.
      * assert (Hp0 : p <> 0) by (apply object_nonzero, (tr_shape _ _ _ _ _ _ _ Ht), Cp). rewrite (bool_of_true _ Hp0), (Hz Hp0).
        unfold digit. by rewrite Z.shiftr_0_r.
    + split_and!; [by rewrite Hi'|by apply tags_sub_untag|]. exists T, base, pool. split; [done|]. intros q. by apply (rt_tight s s' T Hrt), Hti.
  - intros e [He Hn]. by apply (replace_place_ok Q s T base pool M G k (it_node it) slot e).
Qed.

(** ** The theorems *)

(** C5: Served by a tree that was new, a client that inserts items other than
    internal entries, replaces and tags indices that have an item, and otherwise
    looks up, deletes and clears what it likes, gets from every call an answer that a
    map from 64-bit indices to items with three sets of tagged indices could give: no
    call runs into a [BUG_ON], loops or fails for another reason than -EEXIST or
    -ENOMEM, and at the end every lookup and tag reads what the map has. *)
Theorem radix_tree_refines_map s c : initial s -> safe empty c ->
  exists tr s' m, run s c = Done (tr, s') /\ explains empty tr m /\
    (forall i, is_u64 i -> radix_tree_lookup s' i = Done (items m i)) /\
    (forall i t, is_u64 i -> is_tag t -> radix_tree_tag_get s' i t = Done (Z.b2z (tags m t i))).
Proof using Type*.
  intros Hi Hl. destruct (run_ok c True s empty (initial_implements s Hi) Hl) as (tr & s' & m & Hs & Ha & Hr).
  exists tr, s', m. split_and!; [done..| |].
  - intros i Hu. by apply (lookup_ok _ s' _ _ i Hr).
  - intros i t Hu Ht. by apply (tag_get_ok _ s' _ _ i t Hr).
Qed.

(** C11: After [radix_tree_preload] has answered 0, an insertion that must not sleep
    finds a node whenever it needs one, whatever the slab cache answers: it cannot
    fail with -ENOMEM, and inserts the item at an index that has none. *)
Theorem preload_guarantees_insert Q s m g index item : implements Q s m -> is_u64 index -> is_item item -> items m index = 0 ->
  gfpflags_allow_blocking (root_gfp_mask s) = false -> in_interrupt s = false ->
  exists err s1, radix_tree_preload s g = Done (err, s1) /\ implements Q s1 m /\ (err = 0 \/ err = - ENOMEM) /\
    (err = 0 -> exists s2, radix_tree_insert s1 index item = Done (0, s2) /\ implements Q s2 (AMap (upd (items m) index item) (tags m))).
Proof using Type*.
  intros Hr Hi [He Hn] Hm Hg Hirq. destruct (preload_ok Q s (items m) (tags m) g Hr) as (err & s1 & Hp & Hr1 & Hi1 & Hf1 & _ & Hc).
  exists err, s1. split_and!; [done|done|tauto|]. intros ->. destruct Hc as [[_ Hnr]|Hc]; [|done].
  destruct (insert_ok Q s1 (items m) (tags m) index item Hr1 Hi He Hn) as (err & s2 & Hs & _ & Hcase).
  destruct Hcase as [(-> & _ & Hr2)|[(_ & Hm' & _)|(_ & _ & Hno)]]; [by exists s2|done|].
  assert (rtp_nr s1 < RADIX_TREE_PRELOAD_SIZE); [|lia]. apply Hno. unfold nonblocking, root_gfp_mask in *. by rewrite Hf1, Hi1, Hg, Hirq.
Qed.

(** C33: No node is lost.  If no insertion has failed for want of memory and the
    items are all deleted, then at the end of a grace period and after the pool of the
    CPU was emptied every object is back in the slab cache. *)
Theorem deleted_tree_frees_all s c : initial s -> safe empty c ->
  exists tr s' m, run s c = Done (tr, s') /\ explains empty tr m /\
    (no_failure tr -> (forall i, items m i = 0) ->
     xa_head s' = 0 /\ exists s'', radix_tree_cpu_dead (rcu_callbacks s') = Done s'' /\ forall a, ~ held (node_cachep s'') a).
Proof using Type*.
  intros Hi Hl. destruct (run_ok c True s empty (initial_implements s Hi) Hl) as (tr & s' & m & Hs & Ha & Hr).
  exists tr, s', m. split_and!; [done..|]. intros Hn HM. assert (Hr' : implements True s' m) by (by revert Hr; apply radix_weaken).
  split; [|by apply (drained_cpu_dead s' (items m) (tags m))]. by apply (drained_head s' (items m) (tags m)).
Qed.

(** C34: Whatever such a client does, each node that a walk from the head can reach is
    an aligned object that the slab cache has handed out and not got back; it is the
    head and has no parent, or its parent is reachable, one level higher, and holds it in
    the slot its offset names, and its own children point back to it in the same way; it
    counts its entries and its values correctly in 8-bit fields, and has a shift below
    64 and tag words of 64 bits. *)
Theorem reachable_nodes_well_typed s c : initial s -> safe empty c ->
  exists tr s', run s c = Done (tr, s') /\ forall a, in_tree s' a -> well_typed s' a.
Proof using Type*.
  intros Hi Hl. destruct (run_ok c True s empty (initial_implements s Hi) Hl) as (tr & s' & m & Hs & _ & _ & _ & T & base & pool & Ht & _).
  exists tr, s'. split; [done|]. intros a. by apply (tree_typed s' T base pool (items m) (tags m)).
Qed.

(** C12: [radix_tree_next_chunk] stops at the first index from the next one of the
    iterator on that has an item, or with RADIX_TREE_ITER_TAGGED the tag, and answers
    null if there is none; with RADIX_TREE_ITER_CONTIG it looks at one index only.
    The slot it returns holds the item, the next index is the end of the chunk, and
    the tag word of the iterator has the tags from the index to there.  The iterator
    may be used to delete or replace that item and to clear its tags. *)
Theorem next_chunk_finds_next Q s m iter flags fuel : implements Q s m -> may_continue iter flags -> 2 ^ 64 - it_next_index iter < Z.of_nat fuel ->
  exists slot it, radix_tree_next_chunk fuel s iter flags = Done (slot, it) /\
    let i0 := it_next_index iter in let k := it_index it in
    match slot with
    | None => it = iter /\ if wants_next flags then visits m flags i0 = false else forall i, i0 <= i < 2 ^ 64 -> visits m flags i = false
    | Some slot =>
        i0 <= k < 2 ^ 64 /\ visits m flags k = true /\ (forall i, i0 <= i < k -> visits m flags i = false) /\ (wants_next flags = true -> k = i0) /\
        load_slot s slot = items m k /\ it_next_index it = u64 (chunk_end s k) /\
        (wants_tag flags = true -> forall d, 0 <= d -> k + d < chunk_end s k -> Z.testbit (it_tags it) d = tags m (wanted_tag flags) (k + d)) /\
        (exists it' s', radix_tree_iter_delete s it slot = Done (it', s') /\ implements Q s' (remove m k)) /\
        (forall t, is_tag t -> exists s', radix_tree_iter_tag_clear s it t = Done s' /\ implements Q s' (AMap (items m) (set_tag (tags m) t k false))) /\
        (forall e, is_item e -> exists s', radix_tree_iter_replace s it slot e = Done s' /\ implements Q s' (AMap (upd (items m) k e) (tags m)))
    end.
Proof using Type*.
  intros (Hid & Hg & T & base & pool & Ht & Hti) [Hi Hst Htg] Hf.
  destruct (next_chunk_ok s T base pool (items m) (tags m) Ht Hg iter flags Htg fuel Hi Hst Hf) as ([[slot|] it] & Hr & Hres);
    eexists _, it; (split; [exact Hr|]); [|exact Hres].
  destruct Hres as (Hk & Hh & Hno & Hco & Hp & Hn & Hw). cbv zeta. assert (Hm : items m (it_index it) <> 0) by (by apply (hit_item s T base pool (items m) (tags m) Ht Hg flags Htg)).
  destruct (iter_ops Q s T base pool (items m) (tags m) it slot Ht Hg Hid Hti Hp Hm) as ((it' & s' & Hd & Hrd & _) & Hcl & Hre).
  split_and!; try done; try lia; auto.
  - by apply (place_load s T base (items m) _ (it_node it)).
  - intros Hwt d Hd0 Hde. rewrite (Hw Hwt d Hd0 Hde). unfold hit. unfold wants_tag in Hwt. by rewrite Hwt.
  - by exists it', s'.
Qed.
End Refinement.

(** ** A configuration *)
#[export] Instance headers64 : RadixHeaders := {|
  RADIX_TREE_MAP_SHIFT := 6; RADIX_TREE_MAX_TAGS := 3; RADIX_TREE_MAX_PATH := 11; RADIX_TREE_INTERNAL_NODE := 2;
  XA_RETRY_ENTRY := 1026; ROOT_TAG_SHIFT := 23; ROOT_IS_IDR := 4; IDR_FREE := 0; RADIX_TREE_ITER_TAG_MASK := 15;
  RADIX_TREE_ITER_TAGGED := 16; RADIX_TREE_ITER_CONTIG := 32; CONFIG_LOCKDEP := false;
  radix_tree_is_internal_node := fun p => Z.land p 3 =? 2; xa_is_value := fun p => Z.testbit p 0; __radix_tree_iter_add := fun i n => u64 (i + n);
|}.
#[export] Instance headers64_spec : RadixSpec.
Proof. by split. Qed.

(** A cache with memory for so many more objects, and the objects in use. *)
#[export] Instance small_cache : KmemCache := {|
  cache := Z * list Z;
  kmem_cache_alloc c _ := if c.1 <=? 0 then (0, c)
    else let a := 4 * (fold_right Z.max 8192 c.2 / 4 + 1) in (a, (c.1 - 1, a :: c.2));
  kmem_cache_free c a := (c.1 + 1, filter (fun x => x <> a) c.2);
|}.

Lemma fold_max_le (l : list Z) x : x ∈ l -> x <= fold_right Z.max 8192 l.
Proof. induction l as [|y l IH]; [by intros ?%elem_of_nil|]. rewrite elem_of_cons. intros [->|Hx]; simpl; [lia|]. specialize (IH Hx). lia. Qed.
Lemma fold_max_ge (l : list Z) : 8192 <= fold_right Z.max 8192 l.
Proof. induction l as [|y l IH]; simpl; lia. Qed.

#[export] Instance small_cache_spec : KmemSpec.
Proof.
  refine (Build_KmemSpec small_cache (fun (c : Z * list Z) (x : Z) => x ∈ c.2) _ _).
  - intros [n l] g a [n' l']. cbn [kmem_cache_alloc small_cache fst snd]. destruct (n <=? 0); intros [= <- <- <-]; [by left|right].
    set (m := fold_right Z.max 8192 l). pose proof (fold_max_ge l) as Hge. fold m in Hge. pose proof (Z.div_mod m 4). pose proof (Z.mod_pos_bound m 4).
    split_and!.
    + split; [|lia]. by rewrite Z.mul_comm, Z.mod_mul.
    + intros Hin. apply fold_max_le in Hin. fold m in Hin. lia.
    + intros x. by rewrite elem_of_cons.
  - intros [n l] a x _. cbn [kmem_cache_free small_cache fst snd]. rewrite list_elem_of_filter. tauto.
Defined.

Definition new_tree (budget : Z) : radix_tree_root := Root (budget, []) (fun _ => radix_tree_node_ctor) 0 0 [] false 0 0.

Lemma new_tree_initial budget : initial (new_tree budget).
Proof. split; try done. intros a Ha. by apply elem_of_nil in Ha. Qed.

Definition answers_of (r : outcome (list (request * Z) * radix_tree_root)) : list Z := match r with Done (tr, _) => map snd tr | _ => [] end.
Definition state_of (r : outcome (list (request * Z) * radix_tree_root)) : radix_tree_root := match r with Done (_, s) => s | _ => new_tree 0 end.
Definition ask (l : list request) : client := fold_right (fun q c => Call q (fun _ => c)) Stop l.

Lemma ask_safe l : Forall (fun q => forall m, allowed m q) l -> forall m, safe m (ask l).
Proof. induction 1 as [|q l Hq _ IH]; intros m; [done|]. split; [by apply Hq|]. intros r m' _. apply IH. Qed.

Lemma ask_trace l : forall s tr s', run s (ask l) = Done (tr, s') -> map fst tr = l.
Proof.
  induction l as [|q l IH]; intros s tr s'; cbn [ask fold_right run]; [by intros [= <- _]|]. fold (ask l).
  destruct (serve s q) as [[r s1]| | |]; cbn [mbind outcome_bind fst snd]; [|done..].
  destruct (run s1 (ask l)) as [[tr1 s2]| | |] eqn:E; cbn [mbind outcome_bind fst snd]; [|done..]. intros [= <- _]. simpl. f_equal. by apply (IH s1 tr1 s2).
Qed.

Ltac solve_allowed := apply ask_safe; repeat (apply list.Forall_cons_2 || apply list.Forall_nil_2); intros m; cbn [allowed];
  unfold is_u64, is_tag, is_item; cbn [RADIX_TREE_MAX_TAGS radix_tree_is_internal_node headers64]; split_and?; try lia; reflexivity.

Definition visitor : client :=
  Call (Insert 0 8) (fun r => if r =? 0 then Call (TagSet 0 1)
    (fun _ => ask [Insert (2 ^ 64 - 1) 17; TagGet 0 1; TagGet (2 ^ 64 - 1) 1; Tagged 1; Delete 0; Tagged 1; Lookup (2 ^ 64 - 1); Delete (2 ^ 64 - 1); GracePeriod])
    else Stop).

Lemma visitor_safe : safe empty visitor.
Proof.
  unfold visitor, is_item, is_u64. split; [by split|]. intros r m' [(-> & _ & ->)|[(-> & Hm & _)|(-> & _)]]; [|done..].
  cbn [Z.eqb]. split; [by split_and!|]. intros _ m1 _. solve_allowed.
Qed.

Lemma radix_tree_refines_map_witness : answers_of (run (new_tree 100) visitor) = [0; 8; 0; 1; 0; 1; 8; 0; 17; 17; 0] /\
  exists tr s' m, run (new_tree 100) visitor = Done (tr, s') /\ explains empty tr m.
Proof.
  split; [vm_compute; reflexivity|].
  destruct (radix_tree_refines_map (new_tree 100) visitor (new_tree_initial 100) visitor_safe) as (tr & s' & m & Hr & He & _).
  exists tr, s', m. exact (conj Hr He).
Defined.

Lemma reachable_nodes_well_typed_witness : exists tr s', run (new_tree 100) visitor = Done (tr, s') /\ forall a, in_tree s' a -> well_typed s' a.
Proof. exact (reachable_nodes_well_typed (new_tree 100) visitor (new_tree_initial 100) visitor_safe). Defined.

Lemma deleted_tree_frees_all_witness : answers_of (run (new_tree 100) (ask [Insert 70 8; Delete 70])) = [0; 8] /\
  exists tr s', run (new_tree 100) (ask [Insert 70 8; Delete 70]) = Done (tr, s') /\
    exists s'', radix_tree_cpu_dead (rcu_callbacks s') = Done s'' /\ forall a, ~ held (node_cachep s'') a.
Proof.
  assert (Ha : answers_of (run (new_tree 100) (ask [Insert 70 8; Delete 70])) = [0; 8]) by (vm_compute; reflexivity). split; [exact Ha|].
  destruct (deleted_tree_frees_all (new_tree 100) (ask [Insert 70 8; Delete 70]) (new_tree_initial 100)) as (tr & s' & m & Hr & He & Hn).
  { solve_allowed. }
  exists tr, s'. split; [exact Hr|]. rewrite Hr in Ha. cbn [answers_of] in Ha.
  pose proof (ask_trace _ _ _ _ Hr) as Hq. destruct tr as [|[q1 r1] [|[q2 r2] [|]]]; try discriminate Ha. injection Ha as -> ->. injection Hq as -> ->.
  apply Hn; [by repeat constructor|]. clear Hn Hr.
  destruct He as (m1 & Hm1 & m2 & Hm2 & ->). destruct Hm1 as [(_ & _ & ->)|[(E & _)|(E & _)]]; [|discriminate E..].
  destruct Hm2 as (_ & ->). intros i. cbn [items empty]. change (upd _ 70 8 70 =? 0) with false. cbn [items remove]. unfold upd. by destruct (i =? 70).
Defined.

(** A tree with an item at 0; preloading takes the 21 objects that there are. *)
Definition one_item : radix_tree_root := set_head (new_tree 21) 8.
Definition one_map : amap := AMap (upd (fun _ => 0) 0 8) (fun _ _ => false).

Lemma one_item_ok : implements True one_item one_map.
Proof.
  destruct (insert_ok True (new_tree 21) (items empty) (tags empty) 0 8) as (err & s' & Hs & _ & Hc); [by apply initial_implements, new_tree_initial|done..|].
  assert (E : radix_tree_insert (new_tree 21) 0 8 = Done (0, one_item)) by reflexivity. rewrite E in Hs. injection Hs as <- <-.
  by destruct Hc as [(_ & _ & Hr)|[(? & _)|(? & _)]].
Qed.

Lemma preload_guarantees_insert_witness : exists s1, radix_tree_preload one_item 0 = Done (0, s1) /\ node_cachep s1 = (0, (node_cachep s1).2) /\
  exists s2, radix_tree_insert s1 (2 ^ 64 - 1) 17 = Done (0, s2).
Proof.
  destruct (preload_guarantees_insert True one_item one_map 0 (2 ^ 64 - 1) 17 one_item_ok) as (err & s1 & Hp & _ & _ & Hn); [done..|].
  assert (Hb : match radix_tree_preload one_item 0 with Done (e, s1) => e = 0 /\ (node_cachep s1).1 = 0 | _ => False end) by (vm_compute; split; reflexivity).
  rewrite Hp in Hb. destruct Hb as [-> Hb]. exists s1. split; [exact Hp|]. split; [by destruct (node_cachep s1); simpl in *; subst|].
  destruct (Hn eq_refl) as (s2 & Hs & _). exists s2. exact Hs.
Defined.

(** One node less would not do. *)
Example preload_size_needed : match __radix_tree_preload one_item 0 (RADIX_TREE_PRELOAD_SIZE - 1) with
  | Done (err, s1) => err = 0 /\ match radix_tree_insert (set_cache s1 (0, [])) (2 ^ 64 - 1) 17 with Done (e, _) => e = - ENOMEM | _ => False end
  | _ => False end.
Proof. vm_compute. split; reflexivity. Qed.

(** An insertion that runs out of memory leaves the nodes it has made; they stay when
    the last item is deleted. *)
Theorem failed_insert_keeps_nodes : let r := run (new_tree 4) (ask [Insert 0 8; Insert 4096 12; Delete 0; GracePeriod]) in
  answers_of r = [0; - ENOMEM; 8; 0] /\ xa_head (state_of r) <> 0 /\ (node_cachep (state_of r)).1 = 2.
Proof. vm_compute. repeat split; discriminate. Qed.

(** A tree with the items 8 at 0 and 17 at 5 and the tag 1 at 5. *)
Definition two_items : client := Call (Insert 0 8) (fun r => if r =? 0 then Call (Insert 5 17) (fun r => if r =? 0 then Call (TagSet 5 1) (fun _ => Stop) else Stop) else Stop).

Lemma two_items_safe : safe empty two_items.
Proof.
  unfold two_items, is_item, is_u64. split; [by split|]. intros r m' [(-> & _ & ->)|[(-> & Hm & _)|(-> & _)]]; [|done..].
  cbn [Z.eqb]. split; [by split|]. intros r m' [(-> & _ & ->)|[(-> & Hm & _)|(-> & _)]]; [|done..]. cbn [Z.eqb]. by split.
Qed.

Lemma next_chunk_finds_next_witness : match run (new_tree 9) two_items with
  | Done (_, s) =>
      (exists fuel it, radix_tree_next_chunk fuel s (Iter 1 (2 ^ 64 - 3) 0 0) 17 = Done (None, it)) /\
      match radix_tree_next_chunk 9 s (Iter 0 0 0 0) 17 with Done (Some slot, it) => it_index it = 5 /\ load_slot s slot = 17 | _ => False end
  | _ => False end.
Proof.
  destruct (run_ok two_items True (new_tree 9) empty (initial_implements _ (new_tree_initial 9)) two_items_safe) as (tr & s & m & Hs & He & Hr).
  assert (Hv : match run (new_tree 9) two_items with
    | Done (_, s) => match radix_tree_next_chunk 9 s (Iter 0 0 0 0) 17 with Done (Some slot, it) => it_index it = 5 /\ load_slot s slot = 17 | _ => False end /\
        match radix_tree_next_chunk 9 s (Iter 1 (2 ^ 64 - 3) 0 0) 17 with Done (None, _) => True | _ => False end
    | _ => False end) by (vm_compute; repeat split; reflexivity).
  rewrite Hs in *. destruct Hv as [Hv1 Hv2]. split; [|exact Hv1].
  destruct (next_chunk_finds_next _ s m (Iter 1 (2 ^ 64 - 3) 0 0) 17 9 Hr) as (slot & it & Hc & _); [by split|reflexivity|].
  rewrite Hc in Hv2. destruct slot; [destruct Hv2|]. exists 9%nat, it. exact Hc.
Defined.
