(* ===== verification/Mempool.v ===== *)
(** * Memory pools: data and operations

    [src/new/mm/mempool.c].  A pool has an array of reserved elements on top of a
    function that allocates them.  What runs under the lock of the pool is one
    function; [mempool_alloc], [mempool_free] and [mempool_resize] drop the lock, so
    that they are given in sections, between which other tasks run. *)

From S2P Require Import Prelude Gfp WaitQueue.

Definition ENOMEM : Z := 12.

(** The allocator below the pool, with the data it is called with, and the one for the
    array of pointers, which answers whether it has memory for so many. *)
Class Backend := {
  backend : Type;
  alloc_fn : backend -> Z -> Z * backend;
  free_fn : backend -> Z -> backend;
  kmalloc_array_node : backend -> Z -> Z -> bool * backend;
}.

(** [elements] is the memory of the array, of its own size. *)
Record mempool_t := Mempool { min_nr : Z; curr_nr : Z; elements : option (list Z) }.

Definition set_min (p : mempool_t) (n : Z) : mempool_t := Mempool n (curr_nr p) (elements p).
Definition set_elements (p : mempool_t) (l : option (list Z)) : mempool_t := Mempool (min_nr p) (curr_nr p) l.

(** [array[i]], a bug outside of it. *)
Definition array_get (l : option (list Z)) (i : Z) : outcome Z :=
  match l with
  | Some l => if i <? 0 then Bug else match l !! Z.to_nat i with Some e => Done e | None => Bug end
  | None => Bug
  end.
Definition array_set (l : option (list Z)) (i e : Z) : outcome (option (list Z)) :=
  match l with
  | Some l => if (0 <=? i) && (i <? Z.of_nat (length l)) then Done (Some (<[Z.to_nat i := e]> l)) else Bug
  | None => Bug
  end.

(** ** Elements *)
Definition add_element (p : mempool_t) (element : Z) : outcome mempool_t :=
  _ ← BUG_ON (curr_nr p >=? min_nr p);
  l ← array_set (elements p) (curr_nr p) element;
  Done (Mempool (min_nr p) (s32 (curr_nr p + 1)) l).

Definition remove_element (p : mempool_t) : outcome (Z * mempool_t) :=
  let p := Mempool (min_nr p) (s32 (curr_nr p - 1)) (elements p) in
  element ← array_get (elements p) (curr_nr p);
  _ ← BUG_ON (curr_nr p <? 0);
  Done (element, p).

Section Mempool.
Context `{Backend}.

(** ** Making and destroying a pool *)
Fixpoint exit_loop (fuel : nat) (b : backend) (p : mempool_t) : outcome (backend * mempool_t) :=
  match fuel with
  | O => NoFuel
  | S fuel =>
      if bool_of (curr_nr p) then
        r ← remove_element p;
        let '(element, p) := r in
        exit_loop fuel (free_fn b element) p
      else Done (b, p)
  end.
Definition mempool_exit (b : backend) (p : mempool_t) : outcome (backend * mempool_t) :=
  r ← exit_loop (S (Z.to_nat (curr_nr p))) b p;
  let '(b, p) := r in
  Done (b, set_elements p None).

(** When an element is missing, those that are there are freed. *)
Fixpoint init_loop (fuel : nat) (b : backend) (p : mempool_t) (gfp_mask : Z) : outcome (Z * backend * mempool_t) :=
  match fuel with
  | O => NoFuel
  | S fuel =>
      if curr_nr p <? min_nr p then
        let '(element, b) := alloc_fn b gfp_mask in
        if element =? 0 then
          r ← mempool_exit b p;
          let '(b, p) := r in
          Done (- ENOMEM, b, p)
        else
          p ← add_element p element;
          init_loop fuel b p gfp_mask
      else Done (0, b, p)
  end.
Definition mempool_init_node (b : backend) (p : mempool_t) (nr gfp_mask : Z) : outcome (Z * backend * mempool_t) :=
  let p := set_min p nr in
  let '(ok, b) := kmalloc_array_node b (min_nr p) gfp_mask in
  if negb (ok : bool) then Done (- ENOMEM, b, set_elements p None)
  else
    let p := set_elements p (Some (replicate (Z.to_nat (min_nr p)) 0)) in
    init_loop (S (Z.to_nat (min_nr p))) b p gfp_mask.
Definition mempool_init (b : backend) (p : mempool_t) (nr : Z) : outcome (Z * backend * mempool_t) :=
  mempool_init_node b p nr GFP_KERNEL.

(** [ok] says whether there is memory for the pool itself. *)
Definition mempool_create_node (ok : bool) (b : backend) (nr gfp_mask : Z) : outcome (option mempool_t * backend) :=
  if negb ok then Done (None, b)
  else
    r ← mempool_init_node b (Mempool 0 0 None) nr gfp_mask;
    let '(err, b, p) := r in
    if bool_of err then Done (None, b) else Done (Some p, b).
Definition mempool_create (ok : bool) (b : backend) (nr : Z) : outcome (option mempool_t * backend) :=
  mempool_create_node ok b nr GFP_KERNEL.
Definition mempool_destroy (b : backend) (pool : option mempool_t) : outcome backend :=
  match pool with
  | None => Done b
  | Some p => r ← mempool_exit b p; Done r.1
  end.

(** ** Allocating *)

(** The mask, and that of the first attempt. *)
Definition alloc_masks (gfp_mask : Z) : Z * Z :=
  let gfp_mask := Z.lor gfp_mask ___GFP_NOMEMALLOC in
  let gfp_mask := Z.lor gfp_mask ___GFP_NORETRY in
  let gfp_mask := Z.lor gfp_mask ___GFP_NOWARN in
  (gfp_mask, Z.land gfp_mask (Z.lnot (Z.lor ___GFP_DIRECT_RECLAIM ___GFP_IO))).

Inductive alloc_next :=
| Got (element : Z)
| Again
| Failed
| Waiting.

Definition init_wait (s : wq_state) (current e : Z) : wq_state := set_entry s e (WqEntry 0 current AutoremoveWake).

(** With the lock, after [pool->alloc] has failed; [e] is the entry on the stack. *)
Definition alloc_locked (p : mempool_t) (s : wq_state) (current e gfp_temp gfp_mask : Z)
    : outcome (alloc_next * mempool_t * wq_state) :=
  if bool_of (curr_nr p) then
    r ← remove_element p;
    let '(element, p) := r in
    Done (Got element, p, s)
  else if negb (gfp_temp =? gfp_mask) then Done (Again, p, s)
  else if negb (bool_of (Z.land gfp_mask ___GFP_DIRECT_RECLAIM)) then Done (Failed, p, s)
  else
    s ← prepare_to_wait (init_wait s current e) current e TASK_UNINTERRUPTIBLE;
    Done (Waiting, p, s).

(** ** Freeing *)

(** The test without the lock. *)
Definition free_test (p : mempool_t) : bool := curr_nr p <? min_nr p.

(** With the lock: whether the element is in the pool. *)
Definition free_locked (p : mempool_t) (element : Z) : outcome (bool * mempool_t) :=
  if curr_nr p <? min_nr p then p ← add_element p element; Done (true, p) else Done (false, p).

(** ** Resizing *)

(** One turn of the first loop: an element to free, or the end. *)
Definition shrink_locked (p : mempool_t) (new_min_nr : Z) : outcome (option Z * mempool_t) :=
  if new_min_nr <? curr_nr p then
    r ← remove_element p;
    let '(element, p) := r in
    Done (Some element, p)
  else Done (None, set_min p new_min_nr).

Inductive resize_next := Shrink (element : Z) | Grow | Resized.

Definition resize_start (p : mempool_t) (new_min_nr : Z) : outcome (resize_next * mempool_t) :=
  _ ← BUG_ON (new_min_nr <=? 0);
  if new_min_nr <=? min_nr p then
    r ← shrink_locked p new_min_nr;
    let '(element, p) := r in
    Done (match element with Some e => Shrink e | None => Resized end, p)
  else Done (Grow, p).

(** The new array has [new_min_nr] words; whether the pool has to be filled. *)
Definition grow_locked (p : mempool_t) (new_min_nr : Z) : outcome (bool * mempool_t) :=
  if new_min_nr <=? min_nr p then Done (false, p)
  else
    match elements p with
    | Some l =>
        if (curr_nr p <? 0) || (Z.of_nat (length l) <? curr_nr p) || (new_min_nr <? curr_nr p) then Bug
        else
          let l := take (Z.to_nat (curr_nr p)) l ++ replicate (Z.to_nat new_min_nr - Z.to_nat (curr_nr p)) 0 in
          let p := Mempool new_min_nr (curr_nr p) (Some l) in
          Done (curr_nr p <? min_nr p, p)
    | None => Bug
    end.

Inductive fill_next := Fill | Filled | Full.

(** With a new element. *)
Definition fill_locked (p : mempool_t) (element : Z) : outcome (fill_next * mempool_t) :=
  if curr_nr p <? min_nr p then
    p ← add_element p element;
    Done (if curr_nr p <? min_nr p then Fill else Filled, p)
  else Done (Full, p).

End Mempool.
