(* ===== verification/MempoolSteps.v ===== *)
(** * Memory pools: tasks that share a pool

    Tasks in [mempool_alloc], [mempool_free] and [mempool_resize], interleaved
    wherever the code lets go of the lock of the pool, sleeps, or reads without the
    lock.  A call of [wake_up] is one step; that others may run while a waker walks
    a long queue is the subject of [WaitEvent]. *)

From stdpp Require Import relations.
From S2P Require Import Prelude Gfp WaitQueue WaitQueueProps Mempool.
#[local] Open Scope Z_scope.

(** The wait entry of [mempool_alloc] and the bookmark of [wake_up] are on the stack of
    the task.  [procs] are the tasks; who calls [mempool_resize] is given. *)
Class Tasks := {
  wait_entry : Z -> Z;
  bookmark_of : Z -> Z;
  procs : list Z;
  may_resize : Z -> Prop;
}.
Class TasksSpec `{Tasks} : Prop := {
  wait_entry_inj t t' : wait_entry t = wait_entry t' -> t = t';
  wait_entry_bookmark t w : wait_entry t <> bookmark_of w;
  procs_nodup : NoDup procs;
}.

(** What a backend promises: it does not hand out what is out already. *)
Class BackendSpec `{Backend} := {
  out : backend -> Z -> Prop;
  alloc_ok b g e b' : alloc_fn b g = (e, b') ->
    (e = 0 /\ forall x, out b' x <-> out b x) \/ (e <> 0 /\ ~ out b e /\ forall x, out b' x <-> x = e \/ out b x);
  free_ok b e x : out b e -> out (free_fn b e) x <-> out b x /\ x <> e;
  array_ok b n g ok b' : kmalloc_array_node b n g = (ok, b') -> forall x, out b' x <-> out b x;
}.

(** Where a task is. *)
Inductive phase :=
| Idle
(** in front of [pool->alloc], and of the lock after it has failed *)
| TryAlloc (gfp_temp gfp_mask : Z)
| TryPool (gfp_temp gfp_mask : Z)
(** in [io_schedule_timeout] *)
| Asleep (gfp_mask : Z)
(** in front of the test without the lock, of the lock, of [wake_up] and of [pool->free] *)
| FreeTest (element : Z)
| FreeLock (element : Z)
| Wake
| Give (element : Z)
(** in [mempool_resize]: in front of the first lock; of [pool->free] and of the lock after
    it; of [kmalloc_array] and the lock after it; of [pool->alloc] and the lock after it *)
| Resize (n : Z)
| ShrinkFree (n element : Z)
| ShrinkLock (n : Z)
| GrowAlloc (n : Z)
| GrowLock (n : Z)
| FillAlloc
| FillLock (element : Z).

(** The elements that are nobody's but the task's, and those that are given to
    [mempool_free] but still count as in use. *)
Definition carries (ph : phase) : option Z :=
  match ph with Give e | ShrinkFree _ e | FillLock e => Some e | _ => None end.
Definition freeing (ph : phase) : option Z :=
  match ph with FreeTest e | FreeLock e => Some e | _ => None end.

Section Steps.
Context `{WakeFunctions} `{Backend} `{Tasks}.

(** [used] are the elements that [mempool_alloc] has returned and that have not gone
    back. *)
Record system := Sys { bk : backend; pool : mempool_t; wq : wq_state; used : list Z; phase_of : Z -> phase }.

Definition without (e : Z) (l : list Z) : list Z := filter (fun x => x <> e) l.
Definition goto (S : system) (t : Z) (ph : phase) : Z -> phase := upd (phase_of S) t ph.

Inductive step : system -> system -> Prop :=
| step_alloc S t gfp_mask mask temp : t ∈ procs -> phase_of S t = Idle -> alloc_masks gfp_mask = (mask, temp) ->
    step S (Sys (bk S) (pool S) (wq S) (used S) (goto S t (TryAlloc temp mask)))
| step_try S t temp mask e b : t ∈ procs -> phase_of S t = TryAlloc temp mask -> alloc_fn (bk S) temp = (e, b) ->
    step S (if e =? 0 then Sys b (pool S) (wq S) (used S) (goto S t (TryPool temp mask))
            else Sys b (pool S) (wq S) (e :: used S) (goto S t Idle))
| step_pool S t temp mask r p s : t ∈ procs -> phase_of S t = TryPool temp mask ->
    alloc_locked (pool S) (wq S) t (wait_entry t) temp mask = Done (r, p, s) ->
    step S (match r with
            | Got e => Sys (bk S) p s (e :: used S) (goto S t Idle)
            | Again => Sys (bk S) p s (used S) (goto S t (TryAlloc mask mask))
            | Failed => Sys (bk S) p s (used S) (goto S t Idle)
            | Waiting => Sys (bk S) p s (used S) (goto S t (Asleep mask))
            end)
| step_timeout S t mask : t ∈ procs -> phase_of S t = Asleep mask ->
    step S (Sys (bk S) (pool S) (set_task_state (wq S) t TASK_RUNNING) (used S) (phase_of S))
| step_resume S t mask : t ∈ procs -> phase_of S t = Asleep mask -> t_state (tasks (wq S) t) = TASK_RUNNING ->
    step S (Sys (bk S) (pool S) (finish_wait (wq S) t (wait_entry t)) (used S) (goto S t (TryAlloc mask mask)))
| step_free S t e : t ∈ procs -> phase_of S t = Idle -> e ∈ used S -> (forall t', t' ∈ procs -> freeing (phase_of S t') <> Some e) ->
    step S (Sys (bk S) (pool S) (wq S) (used S) (goto S t (FreeTest e)))
| step_test S t e : t ∈ procs -> phase_of S t = FreeTest e ->
    step S (if free_test (pool S) then Sys (bk S) (pool S) (wq S) (used S) (goto S t (FreeLock e))
            else Sys (bk S) (pool S) (wq S) (without e (used S)) (goto S t (Give e)))
| step_lock S t e added p : t ∈ procs -> phase_of S t = FreeLock e -> free_locked (pool S) e = Done (added, p) ->
    step S (Sys (bk S) p (wq S) (without e (used S)) (goto S t (if added : bool then Wake else Give e)))
| step_wake S t s : t ∈ procs -> phase_of S t = Wake -> wake_up (wq S) (bookmark_of t) = Done s ->
    step S (Sys (bk S) (pool S) s (used S) (goto S t Idle))
| step_give S t e : t ∈ procs -> phase_of S t = Give e ->
    step S (Sys (free_fn (bk S) e) (pool S) (wq S) (used S) (goto S t Idle))
| step_resize S t n : t ∈ procs -> phase_of S t = Idle -> may_resize t -> 0 < n < 2 ^ 31 ->
    step S (Sys (bk S) (pool S) (wq S) (used S) (goto S t (Resize n)))
| step_resize_start S t n r p : t ∈ procs -> phase_of S t = Resize n -> resize_start (pool S) n = Done (r, p) ->
    step S (Sys (bk S) p (wq S) (used S) (goto S t (match r with Shrink e => ShrinkFree n e | Grow => GrowAlloc n | Resized => Idle end)))
| step_shrink_free S t n e : t ∈ procs -> phase_of S t = ShrinkFree n e ->
    step S (Sys (free_fn (bk S) e) (pool S) (wq S) (used S) (goto S t (ShrinkLock n)))
| step_shrink_lock S t n r p : t ∈ procs -> phase_of S t = ShrinkLock n -> shrink_locked (pool S) n = Done (r, p) ->
    step S (Sys (bk S) p (wq S) (used S) (goto S t (match r with Some e => ShrinkFree n e | None => Idle end)))
| step_grow_alloc S t n (ok : bool) b : t ∈ procs -> phase_of S t = GrowAlloc n -> kmalloc_array_node (bk S) n GFP_KERNEL = (ok, b) ->
    step S (Sys b (pool S) (wq S) (used S) (goto S t (if ok then GrowLock n else Idle)))
| step_grow_lock S t n (more : bool) p : t ∈ procs -> phase_of S t = GrowLock n -> grow_locked (pool S) n = Done (more, p) ->
    step S (Sys (bk S) p (wq S) (used S) (goto S t (if more then FillAlloc else Idle)))
| step_fill_alloc S t e b : t ∈ procs -> phase_of S t = FillAlloc -> alloc_fn (bk S) GFP_KERNEL = (e, b) ->
    step S (Sys b (pool S) (wq S) (used S) (goto S t (if e =? 0 then Idle else FillLock e)))
| step_fill_lock S t e r p : t ∈ procs -> phase_of S t = FillLock e -> fill_locked (pool S) e = Done (r, p) ->
    step S (Sys (bk S) p (wq S) (used S) (goto S t (match r with Fill => FillAlloc | Filled => Idle | Full => Give e end))).

(** A pool that [mempool_init_node] has made, before anyone uses it. *)
Record fresh (S : system) : Prop := {
  fr_idle t : phase_of S t = Idle;
  fr_used : used S = [];
  fr_queue : queue (wq S) = [];
}.
End Steps.
