(* ===== verification/MempoolInv.v ===== *)
(** * Memory pools: the invariant

    Where the elements are, and who has to wake whom. *)

From stdpp Require Import relations.
From S2P Require Import Prelude Gfp WaitQueue WaitQueueProps Mempool MempoolSteps.
#[local] Open Scope Z_scope.

(** ** The array *)

(** [st] are the elements in the pool, in an array of [cap] words. *)
Record pool_ok (p : mempool_t) (cap : Z) (st : list Z) : Prop := {
  po_array : exists l, elements p = Some l /\ Z.of_nat (length l) = cap /\ take (length st) l = st;
  po_curr : curr_nr p = Z.of_nat (length st);
  po_min : curr_nr p <= min_nr p <= cap;
  po_cap : cap < 2 ^ 31;
}.

Lemma add_ok p cap st e : pool_ok p cap st -> curr_nr p < min_nr p ->
  exists p', add_element p e = Done p' /\ pool_ok p' cap (st ++ [e]) /\ min_nr p' = min_nr p.
Proof.
  intros [(l & Hl & Hlen & Hst) Hc Hm Hcap] Hlt. unfold add_element, array_set. rewrite Hl.
  destruct (Z.geb_spec (curr_nr p) (min_nr p)) as [Hge|_]; [lia|]. cbn [BUG_ON mbind outcome_bind].
  rewrite (proj2 (Z.leb_le 0 (curr_nr p))), (proj2 (Z.ltb_lt (curr_nr p) _)) by lia. cbn [andb mbind outcome_bind].
  eexists. split; [done|]. split; [|done]. split; cbn [elements curr_nr min_nr]; rewrite ?s32_small by lia.
  - eexists. split; [done|]. rewrite length_insert. split; [done|]. rewrite length_app. cbn [length]. rewrite Nat.add_1_r.
    rewrite (take_S_r _ _ e) by (rewrite Hc, Nat2Z.id; apply list_lookup_insert_eq; lia). rewrite take_insert_ge by lia. by rewrite Hst.
  - rewrite length_app. cbn [length]. lia.
  - lia.
  - done.
Qed.

Lemma remove_ok p cap st : pool_ok p cap st -> curr_nr p <> 0 ->
  exists e st' p', st = st' ++ [e] /\ remove_element p = Done (e, p') /\ pool_ok p' cap st' /\ min_nr p' = min_nr p.
Proof.
  intros [(l & Hl & Hlen & Hst) Hc Hm Hcap] Hne. destruct st as [|e st' _] using rev_ind; [simpl in Hc; lia|].
  rewrite length_app in Hc, Hst. cbn [length] in Hc, Hst. rewrite Nat.add_1_r in Hst.
  assert (Hle : l !! length st' = Some e).
  { rewrite <- (lookup_take_lt l (S (length st'))) by lia. rewrite Hst. by rewrite lookup_app_r, Nat.sub_diag by lia. }
  unfold remove_element, array_get. cbn [elements curr_nr min_nr]. rewrite Hl, s32_small by lia.
  rewrite (proj2 (Z.ltb_ge (curr_nr p - 1) 0)) by lia. replace (Z.to_nat (curr_nr p - 1)) with (length st') by lia. rewrite Hle.
  cbn [BUG_ON mbind outcome_bind]. exists e, st'. eexists. split; [done|]. split; [done|]. split; [|done].
  split; cbn [elements curr_nr min_nr]; [|lia|lia|done]. exists l. split; [done|]. split; [done|].
  rewrite (take_S_r _ _ e Hle) in Hst. by apply app_inj_tail in Hst as [? _].
Qed.

Lemma shrink_ok p cap st n : pool_ok p cap st -> 0 < n <= cap ->
  exists r p', shrink_locked p n = Done (r, p') /\
    match r with Some e => exists st', st = st' ++ [e] /\ pool_ok p' cap st' | None => pool_ok p' cap st end.
Proof.
  intros Hp Hn. unfold shrink_locked. destruct (Z.ltb_spec n (curr_nr p)) as [Hlt|Hge].
  - destruct (remove_ok p cap st Hp) as (e & st' & p' & -> & -> & Hp' & _); [lia|]. cbn [mbind outcome_bind]. eexists _, p'. split; [done|]. by exists st'.
  - eexists _, _. split; [done|]. destruct Hp as [(l & Hl & Hlen & Hst) Hc Hm Hcap]. split; cbn [set_min elements curr_nr min_nr]; [by exists l|done|lia|done].
Qed.

Lemma grow_ok p cap st n : pool_ok p cap st -> 0 < n < 2 ^ 31 -> exists more p' cap', grow_locked p n = Done (more, p') /\ pool_ok p' cap' st.
Proof.
  intros Hp Hn. unfold grow_locked. destruct (Z.leb_spec n (min_nr p)) as [Hle|Hgt]; [by eexists _, _, cap|].
  destruct Hp as [(l & Hl & Hlen & Hst) Hc Hm Hcap]. rewrite Hl.
  rewrite (proj2 (Z.ltb_ge (curr_nr p) 0)), (proj2 (Z.ltb_ge (Z.of_nat (length l)) _)), (proj2 (Z.ltb_ge n _)) by lia. cbn [orb].
  eexists _, _, n. split; [done|]. split; cbn [elements curr_nr min_nr]; [|done|lia|lia]. eexists. split; [done|].
  rewrite Hc, Nat2Z.id, Hst. split; [rewrite length_app, length_replicate; lia|]. by rewrite take_app_length.
Qed.

(** ** Elements and tasks *)
Definition resizing (ph : phase) : bool :=
  match ph with
  | Resize _ | ShrinkFree _ _ | ShrinkLock _ | GrowAlloc _ | GrowLock _ | FillAlloc | FillLock _ => true
  | _ => false
  end.

Lemma without_out (l : list Z) e : e ∉ l -> without e l = l.
Proof.
  unfold without. induction l as [|x l IH]; [done|]. rewrite not_elem_of_cons. intros [Hx Hl]. rewrite filter_cons_True by congruence. by rewrite IH.
Qed.

Lemma filter_out (l : list Z) e : NoDup l -> e ∈ l -> l ≡ₚ e :: without e l.
Proof.
  induction 1 as [|x l Hx Hl IH]; [by intros ?%elem_of_nil|]. rewrite elem_of_cons. intros [->|He].
  - unfold without. rewrite filter_cons_False by tauto. fold (without x l). by rewrite without_out.
  - unfold without. rewrite filter_cons_True by (by intros ->). fold (without e l). rewrite (IH He) at 1. apply Permutation_swap.
Qed.

Lemma omap_upd_out (f : phase -> option Z) (ph_of : Z -> phase) t ph (l : list Z) : t ∉ l ->
  omap (fun x => f (upd ph_of t ph x)) l = omap (fun x => f (ph_of x)) l.
Proof.
  induction l as [|x l IH]; [done|]. rewrite not_elem_of_cons. intros [Hx Hl]. cbn. rewrite upd_other by congruence. by rewrite IH.
Qed.

Section Memory.
Context `{Backend} `{!BackendSpec} `{Tasks} `{!TasksSpec}.

(** What the tasks have, and what the others than [t] have. *)
Definition having (f : phase -> option Z) (S : system) : list Z := omap (fun t => f (phase_of S t)) procs.
Definition others (f : phase -> option Z) (S : system) (t : Z) : list Z := omap (fun x => f (phase_of S x)) (without t procs).

Lemma having_split f S t : t ∈ procs -> having f S ≡ₚ option_list (f (phase_of S t)) ++ others f S t.
Proof using Type*.
  intros Ht. unfold having, others. rewrite (filter_out procs t procs_nodup Ht) at 1. cbn. by destruct (f (phase_of S t)).
Qed.

Lemma having_upd f S S' t ph : t ∈ procs -> phase_of S' = upd (phase_of S) t ph -> having f S' ≡ₚ option_list (f ph) ++ others f S t.
Proof using Type*.
  intros Ht He. rewrite (having_split f S' t Ht). rewrite He, upd_same. apply Permutation_app_head. unfold others. rewrite He.
  rewrite omap_upd_out; [done|]. unfold without. rewrite list_elem_of_filter. tauto.
Qed.

Definition all (S : system) (st : list Z) : list Z := st ++ used S ++ having carries S.

Record mem_inv (S : system) (cap : Z) (st : list Z) : Prop := {
  mi_pool : pool_ok (pool S) cap st;
  mi_nodup : NoDup (all S st);
  mi_out x : out (bk S) x <-> x ∈ all S st;
  mi_free_nodup : NoDup (having freeing S);
  mi_free e : e ∈ having freeing S -> e ∈ used S;
  mi_shrink t n : (exists e, phase_of S t = ShrinkFree n e) \/ phase_of S t = ShrinkLock n -> 0 < n <= cap;
  mi_grow t n : phase_of S t = Resize n \/ phase_of S t = GrowAlloc n \/ phase_of S t = GrowLock n -> 0 < n < 2 ^ 31;
  mi_resizing t : resizing (phase_of S t) = true -> may_resize t;
  mi_reserve : (forall t, ~ may_resize t) -> min_nr (pool S) <= curr_nr (pool S) + Z.of_nat (length (used S));
}.

(** How the elements move: none comes or goes, one comes from the backend, one goes
    back. *)
Inductive flow (b b' : backend) (old new : list Z) : Prop :=
| flow_same : (forall x, out b' x <-> out b x) -> new ≡ₚ old -> flow b b' old new
| flow_new e : ~ out b e -> (forall x, out b' x <-> x = e \/ out b x) -> new ≡ₚ e :: old -> flow b b' old new
| flow_gone e : b' = free_fn b e -> old ≡ₚ e :: new -> flow b b' old new.

Lemma flow_app b b' old new l : flow b b' old new -> flow b b' (old ++ l) (new ++ l).
Proof using Type.
  intros [Ho Hp|e Hn Ho Hp|e Hb Hp]; [by apply flow_same; [|rewrite Hp]|apply (flow_new _ _ _ _ e); [done..|by rewrite Hp]|
    apply (flow_gone _ _ _ _ e); [done|by rewrite Hp]].
Qed.

Lemma flow_inv b b' old new : flow b b' old new -> NoDup old -> (forall x, out b x <-> x ∈ old) -> NoDup new /\ forall x, out b' x <-> x ∈ new.
Proof using Type.
  intros [Ho Hp|e Hn Ho Hp|e -> Hp] Hnd Hout.
  - rewrite Hp. split; [done|]. intros x. by rewrite Ho, Hp.
  - rewrite Hp. split; [apply list.NoDup_cons; split; [by rewrite <- Hout|done]|]. intros x. by rewrite Ho, Hp, elem_of_cons, Hout.
  - rewrite Hp in Hnd. apply list.NoDup_cons in Hnd as [He Hnd]. split; [done|]. intros x.
    rewrite free_ok by (rewrite Hout, Hp; apply list_elem_of_here). rewrite Hout, Hp, elem_of_cons.
    split; [tauto|]. intros Hx. split; [tauto|by intros ->].
Qed.

(** A step of [t]. *)
Lemma mem_step S S' cap cap' st st' t ph : mem_inv S cap st -> t ∈ procs -> phase_of S' = upd (phase_of S) t ph ->
  pool_ok (pool S') cap' st' -> cap' = cap \/ (resizing (phase_of S t) = true /\ forall t1 t2, may_resize t1 -> may_resize t2 -> t1 = t2) ->
  flow (bk S) (bk S') (st ++ used S ++ option_list (carries (phase_of S t))) (st' ++ used S' ++ option_list (carries ph)) ->
  (forall x, x ∈ used S -> x ∉ used S' -> freeing (phase_of S t) = Some x /\ freeing ph = None) ->
  (forall e, freeing ph = Some e -> e ∈ used S' /\ (freeing (phase_of S t) = Some e \/ forall t', t' ∈ procs -> freeing (phase_of S t') <> Some e)) ->
  (forall n, (exists e, ph = ShrinkFree n e) \/ ph = ShrinkLock n -> 0 < n <= cap') ->
  (forall n, ph = Resize n \/ ph = GrowAlloc n \/ ph = GrowLock n -> 0 < n < 2 ^ 31) ->
  (resizing ph = true -> may_resize t) ->
  ((forall t, ~ may_resize t) -> min_nr (pool S') <= curr_nr (pool S') + Z.of_nat (length (used S'))) ->
  mem_inv S' cap' st'.
Proof using Type*.
  intros [i1 i2 i3 i4 i5 i6 i7 i8 i9] Ht He Hp Hcap Hfl Hout Hfr Hsh Hgr Hre Hrs.
  assert (Hold : all S st ≡ₚ (st ++ used S ++ option_list (carries (phase_of S t))) ++ others carries S t).
  { unfold all. rewrite (having_split carries S t Ht). by rewrite <- !app_assoc. }
  assert (Hnew : all S' st' ≡ₚ (st' ++ used S' ++ option_list (carries ph)) ++ others carries S t).
  { unfold all. rewrite (having_upd carries S S' t ph Ht He). by rewrite <- !app_assoc. }
  destruct (flow_inv _ _ _ _ (flow_app _ _ _ _ (others carries S t) Hfl)) as [Hnd Ho]; [by rewrite <- Hold|intros x; by rewrite i3, Hold|].
  rewrite (having_split freeing S t Ht) in i4. assert (Hof : forall e, e ∈ others freeing S t -> e ∈ used S).
  { intros e Hin. apply i5. rewrite (having_split freeing S t Ht), elem_of_app. by right. }
  assert (Hkeep : forall e, e ∈ others freeing S t -> e ∈ used S').
  { intros e Hin. destruct (decide (e ∈ used S')) as [|Hn]; [done|]. destruct (Hout e (Hof e Hin) Hn) as [Hfe _]. rewrite Hfe in i4. cbn in i4.
    by apply list.NoDup_cons in i4 as [Hx _]. }
  split; [done|by rewrite Hnew|intros x; by rewrite Ho, Hnew| | | | |..].
  - rewrite (having_upd freeing S S' t ph Ht He). apply list.NoDup_app in i4 as (_ & Hd & Hnr). destruct (freeing ph) as [e|] eqn:Ef; [|done]. cbn.
    apply list.NoDup_cons. split; [|done]. destruct (Hfr e eq_refl) as [_ [Hs|Hs]].
    + apply Hd. rewrite Hs. apply list_elem_of_here.
    + intros Hin. unfold others in Hin. apply list_elem_of_omap in Hin as (t' & Ht' & Hx). apply list_elem_of_filter in Ht' as [_ Ht']. by apply (Hs t').
  - intros e. rewrite (having_upd freeing S S' t ph Ht He), elem_of_app. intros [Hin|Hin]; [|by apply Hkeep].
    destruct (freeing ph) as [e'|] eqn:Ef; [|by apply elem_of_nil in Hin]. apply list_elem_of_singleton in Hin as ->. by apply Hfr.
  - intros t' n Hx. rewrite He in Hx. destruct (Z.eq_dec t' t) as [->|Hne]; [rewrite upd_same in Hx; by apply Hsh|].
    rewrite !upd_other in Hx by done. destruct Hcap as [->|[Hrt Huniq]]; [by apply (i6 t')|]. exfalso. apply Hne, Huniq; [|by apply i8].
    apply i8. by destruct Hx as [[e ->]| ->].
  - intros t' n Hx. rewrite He in Hx. destruct (Z.eq_dec t' t) as [->|Hne]; [rewrite upd_same in Hx; by apply Hgr|].
    rewrite !upd_other in Hx by done. by apply (i7 t').
  - intros t' Hx. rewrite He in Hx. destruct (Z.eq_dec t' t) as [->|Hne]; [rewrite upd_same in Hx; by apply Hre|].
    rewrite upd_other in Hx by done. by apply i8.
  - done.
Qed.
End Memory.

(** ** Sleeping tasks *)
Section Waiting.
Context `{WakeFunctions} `{Backend} `{Tasks} `{!TasksSpec}.

Record wait_inv (S : system) : Prop := {
  wi_nodup : NoDup (queue (wq S));
  wi_queue e : e ∈ queue (wq S) -> exists t m, e = wait_entry t /\ phase_of S t = Asleep m;
  wi_entry t m : phase_of S t = Asleep m -> entries (wq S) (wait_entry t) = WqEntry 0 t AutoremoveWake;
  wi_state t m : phase_of S t = Asleep m -> t_state (tasks (wq S) t) = TASK_RUNNING \/
    (t_state (tasks (wq S) t) = TASK_UNINTERRUPTIBLE /\ wait_entry t ∈ queue (wq S));
  wi_wake t m : phase_of S t = Asleep m -> t_state (tasks (wq S) t) <> TASK_RUNNING -> (forall t, ~ may_resize t) ->
    0 < curr_nr (pool S) -> exists w, phase_of S w = Wake;
}.

(** A step of a task that does not sleep and leaves the queue alone. *)
Lemma wait_other S S' t ph : wait_inv S -> wq S' = wq S -> phase_of S' = upd (phase_of S) t ph -> (forall m, phase_of S t <> Asleep m) ->
  (forall m, ph <> Asleep m) -> phase_of S t <> Wake ->
  ((forall t, ~ may_resize t) -> 0 < curr_nr (pool S') -> 0 < curr_nr (pool S) \/ ph = Wake) -> wait_inv S'.
Proof using Type.
  intros [w1 w2 w3 w4 w5] Hq He Ht Hph Hw Hc.
  assert (Ha : forall x m, phase_of S' x = Asleep m -> phase_of S x = Asleep m).
  { intros x m Hx. rewrite He in Hx. destruct (Z.eq_dec x t) as [->|Hne]; [rewrite upd_same in Hx; by destruct (Hph m)|by rewrite upd_other in Hx]. }
  split; rewrite ?Hq; [done| | | |].
  - intros e Hin. destruct (w2 e Hin) as (x & m & -> & Hx). exists x, m. split; [done|]. rewrite He, upd_other; [done|]. intros ->. by apply (Ht m).
  - intros x m Hx. by apply (w3 x m), Ha.
  - intros x m Hx. by apply (w4 x m), Ha.
  - intros x m Hx Hs Hno Hcur. destruct (Hc Hno Hcur) as [Hold| ->].
    + destruct (w5 x m (Ha x m Hx) Hs Hno Hold) as (w & Hww). exists w. rewrite He, upd_other; [done|]. by intros ->.
    + exists t. by rewrite He, upd_same.
Qed.

Lemma prepare_ok S t : wait_inv S -> (forall m, phase_of S t <> Asleep m) ->
  prepare_to_wait (init_wait (wq S) t (wait_entry t)) t (wait_entry t) TASK_UNINTERRUPTIBLE =
  Done (set_task_state (WqState (upd (upd (entries (wq S)) (wait_entry t) (WqEntry 0 t AutoremoveWake)) (wait_entry t) (WqEntry 0 t AutoremoveWake))
          (wait_entry t :: queue (wq S)) (tasks (wq S))) t TASK_UNINTERRUPTIBLE).
Proof using Type*.
  intros HI Ht. assert (Hout : wait_entry t ∉ queue (wq S)).
  { intros Hin. destruct (wi_queue _ HI _ Hin) as (x & m & Hx & Hp). apply wait_entry_inj in Hx as <-. by apply (Ht m). }
  unfold prepare_to_wait, init_wait, set_flags, __add_wait_queue, list_empty. cbn [entries set_entry queue]. rewrite upd_same. cbn [wq_flags wq_private wq_func].
  rewrite (bool_decide_eq_true_2 _ Hout). done.
Qed.

Lemma wait_sleep S t mask s : wait_inv S -> (forall m, phase_of S t <> Asleep m) -> phase_of S t <> Wake -> curr_nr (pool S) = 0 ->
  prepare_to_wait (init_wait (wq S) t (wait_entry t)) t (wait_entry t) TASK_UNINTERRUPTIBLE = Done s ->
  wait_inv (Sys (bk S) (pool S) s (used S) (goto S t (Asleep mask))).
Proof using Type*.
  intros HI Ht Hw Hc Hs. rewrite (prepare_ok S t HI Ht) in Hs. injection Hs as <-. destruct HI as [w1 w2 w3 w4 w5].
  assert (Hout : wait_entry t ∉ queue (wq S)).
  { intros Hin. destruct (w2 _ Hin) as (x & m & Hx & Hp). apply wait_entry_inj in Hx as <-. by apply (Ht m). }
  assert (Ha : forall x m, x <> t -> goto S t (Asleep mask) x = Asleep m -> phase_of S x = Asleep m) by (intros x m Hx; unfold goto; by rewrite upd_other).
  split; cbn [wq queue set_task_state entries tasks phase_of pool].
  - by apply list.NoDup_cons.
  - intros e. rewrite elem_of_cons. intros [->|Hin]; [exists t, mask; unfold goto; by rewrite upd_same|].
    destruct (w2 e Hin) as (x & m & -> & Hx). exists x, m. split; [done|]. unfold goto. rewrite upd_other; [done|]. intros ->. by apply (Ht m).
  - intros x m Hx. destruct (Z.eq_dec x t) as [->|Hne]; [by rewrite upd_same|]. rewrite !upd_other by (intros E; by apply wait_entry_inj in E).
    by apply (w3 x m), Ha.
  - intros x m Hx. destruct (Z.eq_dec x t) as [->|Hne]; [right; rewrite upd_same; split; [done|apply list_elem_of_here]|]. rewrite !upd_other by done.
    destruct (w4 x m (Ha x m Hne Hx)) as [?|[? ?]]; [by left|right; split; [done|by apply list_elem_of_further]].
  - intros x m _ _ _ Hcur. lia.
Qed.

Lemma wait_timeout S t m : wait_inv S -> phase_of S t = Asleep m ->
  wait_inv (Sys (bk S) (pool S) (set_task_state (wq S) t TASK_RUNNING) (used S) (phase_of S)).
Proof using Type*.
  intros [w1 w2 w3 w4 w5] Ht. split; cbn [wq queue set_task_state entries tasks phase_of pool]; try done.
  - intros x mx Hx. destruct (Z.eq_dec x t) as [->|Hne]; [left; by rewrite upd_same|]. rewrite upd_other by done. by apply (w4 x mx).
  - intros x mx Hx Hs. destruct (Z.eq_dec x t) as [->|Hne]; [by rewrite upd_same in Hs|]. rewrite upd_other in Hs by done. by apply (w5 x mx).
Qed.

Lemma finish_queue s t e : queue (finish_wait s t e) = without e (queue s).
Proof using Type.
  unfold finish_wait, list_empty. cbn [queue set_task_state]. destruct (decide (e ∈ queue s)) as [Hin|Hout].
  - by rewrite (bool_decide_eq_false_2 (e ∉ queue s)) by tauto.
  - rewrite (bool_decide_eq_true_2 _ Hout). cbn. by rewrite without_out.
Qed.

Lemma finish_rest s t e : entries (finish_wait s t e) = entries s /\ tasks (finish_wait s t e) = tasks (set_task_state s t TASK_RUNNING).
Proof using Type. unfold finish_wait. by destruct (negb _). Qed.

Lemma wait_resume S t m ph : wait_inv S -> phase_of S t = Asleep m -> (forall m, ph <> Asleep m) ->
  wait_inv (Sys (bk S) (pool S) (finish_wait (wq S) t (wait_entry t)) (used S) (goto S t ph)).
Proof using Type*.
  intros [w1 w2 w3 w4 w5] Ht Hph. destruct (finish_rest (wq S) t (wait_entry t)) as [Hfe Hft].
  assert (Ha : forall x mx, goto S t ph x = Asleep mx -> x <> t /\ phase_of S x = Asleep mx).
  { intros x mx. unfold goto. destruct (Z.eq_dec x t) as [->|Hne]; [rewrite upd_same; intros Hx; by destruct (Hph mx)|by rewrite upd_other]. }
  split; cbn [wq phase_of pool]; rewrite ?finish_queue, ?Hfe, ?Hft; cbn [set_task_state tasks].
  - by apply list.NoDup_filter.
  - intros e Hin. apply list_elem_of_filter in Hin as [Hne Hin]. destruct (w2 e Hin) as (x & mx & -> & Hx). exists x, mx. split; [done|].
    unfold goto. rewrite upd_other; [done|]. by intros ->.
  - intros x mx Hx. by apply (w3 x mx), Ha.
  - intros x mx Hx. destruct (Ha x mx Hx) as [Hne Hx']. rewrite upd_other by done. destruct (w4 x mx Hx') as [?|[? ?]]; [by left|right]. split; [done|].
    apply list_elem_of_filter. split; [|done]. intros E. by apply wait_entry_inj in E.
  - intros x mx Hx Hs Hno Hc. destruct (Ha x mx Hx) as [Hne Hx']. rewrite upd_other in Hs by done. destruct (w5 x mx Hx' Hs Hno Hc) as (w & Hw).
    exists w. unfold goto. rewrite upd_other; [done|]. intros ->. congruence.
Qed.

(** *** [wake_up] *)
Lemma walk_shared s mode l : forall nr, (forall e, e ∈ l -> wq_flags (entries s e) = 0) -> walk s mode l nr = l.
Proof using Type.
  induction l as [|e l IH]; intros nr Hf; [done|]. cbn [walk].
  assert (Hc : counts s mode e = false) by (unfold counts, flag_of; rewrite Hf by apply list_elem_of_here; apply andb_false_r). rewrite Hc. f_equal.
  apply IH. intros x Hx. apply Hf. by apply list_elem_of_further.
Qed.

Lemma wake_ok S w : wait_inv S -> exists s', wake_up (wq S) (bookmark_of w) = Done s' /\
  (forall e, e ∈ queue s' -> e ∈ queue (wq S)) /\ NoDup (queue s') /\ (forall t, entries s' (wait_entry t) = entries (wq S) (wait_entry t)) /\
  (forall t m, phase_of S t = Asleep m -> t_state (tasks s' t) = TASK_RUNNING).
Proof using Type*.
  intros [w1 w2 w3 w4 _]. set (s := wq S) in *.
  assert (Hent : forall e, e ∈ queue s -> exists t, e = wait_entry t /\ entries s e = WqEntry 0 t AutoremoveWake).
  { intros e Hin. destruct (w2 e Hin) as (t & m & -> & Ht). exists t. split; [done|by apply (w3 t m)]. }
  assert (Hb : bookmark_of w ∉ queue s) by (intros Hin; destruct (w2 _ Hin) as (t & m & E & _); by apply (wait_entry_bookmark t w)).
  assert (Hd : distinct s (queue s)).
  { split; [done| |].
    - intros e e' He He' _ _ Hp. destruct (Hent e He) as (t & -> & Ht), (Hent e' He') as (t' & -> & Ht'). rewrite Ht, Ht' in Hp. cbn in Hp. by subst.
    - intros e He. right. destruct (Hent e He) as (t & -> & ->). done. }
  assert (Hfl : forall e, e ∈ queue s -> wq_flags (entries s e) = 0) by (intros e He; destruct (Hent e He) as (t & -> & ->); done).
  destruct (wake_up_common_lock_ok s TASK_NORMAL 1 0 0 (bookmark_of w) Hd Hb) as (rest & s' & Hq & Hr & Hv).
  rewrite walk_shared in Hq, Hv by done. assert (rest = []) as -> by (rewrite <- (app_nil_r (queue s)) in Hq at 1; by apply app_inv_head in Hq).
  destruct (visited_other s (bookmark_of w) (WqEntry 0 0 (OtherWake 0)) TASK_NORMAL (queue s) [] s') as (O1 & O2 & O3 & O4); [by rewrite app_nil_r|done|].
  exists s'. split; [exact Hr|]. rewrite O1, app_nil_r. split_and!.
  - intros e He. by apply list_elem_of_filter in He as [_ ?].
  - by apply list.NoDup_filter.
  - intros t. rewrite O4 by apply wait_entry_bookmark. destruct (bool_decide_reflect (wait_entry t ∈ queue s)) as [Hin|_]; [|done].
    unfold woken_flag. destruct (Hent _ Hin) as (t' & _ & ->). cbn. by rewrite andb_false_r.
  - intros t m Ht. destruct (w4 t m Ht) as [Hrun|[Hst Hin]].
    + rewrite O3; [done|]. intros e He Hwk Hp. unfold wakes in Hwk. rewrite Hp, Hrun in Hwk. cbn in Hwk. by rewrite andb_false_r in Hwk.
    + specialize (O2 (wait_entry t) Hin). rewrite (w3 t m Ht) in O2. cbn [wq_private] in O2. rewrite O2; [done|].
      unfold wakes, flag_of. rewrite (w3 t m Ht). cbn [wq_private wq_flags]. rewrite Hst. done.
Qed.

Lemma wait_after_wake S t s' ph : wait_inv S -> phase_of S t = Wake -> (forall m, ph <> Asleep m) -> (forall e, e ∈ queue s' -> e ∈ queue (wq S)) -> NoDup (queue s') ->
  (forall t, entries s' (wait_entry t) = entries (wq S) (wait_entry t)) -> (forall t m, phase_of S t = Asleep m -> t_state (tasks s' t) = TASK_RUNNING) ->
  wait_inv (Sys (bk S) (pool S) s' (used S) (goto S t ph)).
Proof using Type*.
  intros [w1 w2 w3 w4 w5] Ht Hph Hq Hnd He Hs.
  assert (Ha : forall x mx, goto S t ph x = Asleep mx -> phase_of S x = Asleep mx).
  { intros x mx. unfold goto. destruct (Z.eq_dec x t) as [->|Hne]; [rewrite upd_same; intros Hx; by destruct (Hph mx)|by rewrite upd_other]. }
  split; cbn [wq phase_of pool]; [done| | | |].
  - intros e Hin. destruct (w2 e (Hq e Hin)) as (x & mx & -> & Hx). exists x, mx. split; [done|]. unfold goto. rewrite upd_other; [done|]. intros ->. congruence.
  - intros x mx Hx. rewrite He. by apply (w3 x mx), Ha.
  - intros x mx Hx. left. by apply (Hs x mx), Ha.
  - intros x mx Hx Hns. destruct Hns. by apply (Hs x mx), Ha.
Qed.
End Waiting.
