(* ===== verification/MempoolProps.v ===== *)
(** * Memory pools: what the tasks may rely on

    Elements are never handed out twice and none is lost, no access leaves the array;
    the reserve is always either in the pool or in use, and nobody sleeps while there
    are elements in the pool. *)

From stdpp Require Import relations.
From S2P Require Import Prelude Gfp WaitQueue WaitQueueProps Mempool MempoolSteps MempoolInv.
#[local] Open Scope Z_scope.

Section Props.
Context `{WakeFunctions} `{Backend} `{!BackendSpec} `{Tasks} `{!TasksSpec}.

Definition one_resizer : Prop := forall t1 t2, may_resize t1 -> may_resize t2 -> t1 = t2.

Definition inv (S : system) : Prop := exists cap st, mem_inv S cap st /\ wait_inv S.

Lemma curr_used S cap st : mem_inv S cap st -> curr_nr (pool S) = Z.of_nat (length st).
Proof using Type. intros HM. apply (mi_pool _ _ _ HM). Qed.

(** A step that moves no element. *)
Lemma mem_quiet S S' cap st t ph : mem_inv S cap st -> t ∈ procs -> phase_of S' = upd (phase_of S) t ph -> pool S' = pool S ->
  (forall x, out (bk S') x <-> out (bk S) x) -> used S' = used S -> carries ph = carries (phase_of S t) -> 
  (freeing ph = freeing (phase_of S t) \/ freeing ph = None \/ exists e, freeing ph = Some e /\ e ∈ used S /\ forall t', t' ∈ procs -> freeing (phase_of S t') <> Some e) ->
  (forall n, (exists e, ph = ShrinkFree n e) \/ ph = ShrinkLock n -> 0 < n <= cap) ->
  (forall n, ph = Resize n \/ ph = GrowAlloc n \/ ph = GrowLock n -> 0 < n < 2 ^ 31) ->
  (resizing ph = true -> may_resize t) -> mem_inv S' cap st.
Proof using Type*.
  intros HM Ht He Hp Ho Hu Hc Hf Hsh Hgr Hre. apply (mem_step S S' cap cap st st t ph HM Ht He); try done.
  - rewrite Hp. apply HM.
  - by left.
  - apply flow_same; [done|]. by rewrite Hu, Hc.
  - intros x Hx Hn. by rewrite Hu in Hn.
  - intros e Hfe. rewrite Hu. destruct Hf as [Hf|[Hf|(e' & Hf & Hin & Hno)]].
    + split; [|left; congruence]. apply (mi_free _ _ _ HM). rewrite (having_split freeing S t Ht), <- Hf, Hfe. apply list_elem_of_here.
    + congruence.
    + rewrite Hf in Hfe. injection Hfe as <-. split; [done|by right].
  - intros Hno. rewrite Hp, Hu. by apply (mi_reserve _ _ _ HM).
Qed.

Ltac not_asleep := try (intros ?; congruence); try congruence.
Ltac no_shrink := try (intros ? [[? ?]|?]; congruence); try (intros ? [?|[?|?]]; congruence); try congruence; try done.

(** *** [mempool_alloc] *)
Lemma inv_try S t temp mask e b : inv S -> t ∈ procs -> phase_of S t = TryAlloc temp mask -> alloc_fn (bk S) temp = (e, b) ->
  inv (if e =? 0 then Sys b (pool S) (wq S) (used S) (goto S t (TryPool temp mask)) else Sys b (pool S) (wq S) (e :: used S) (goto S t Idle)).
Proof using Type*.
  intros (cap & st & HM & HW) Ht Hph Ha. exists cap, st. apply alloc_ok in Ha as [[-> Ho]|(Hne & Hn & Ho)].
  - rewrite Z.eqb_refl. split; [|apply (wait_other S _ t (TryPool temp mask)); rewrite ?Hph; try done; by left].
    apply (mem_quiet S _ cap st t (TryPool temp mask)); rewrite ?Hph; no_shrink. by left.
  - destruct (Z.eqb_spec e 0) as [|_]; [done|]. split; [|apply (wait_other S _ t Idle); rewrite ?Hph; try done; by left].
    apply (mem_step S _ cap cap st st t Idle); rewrite ?Hph; cbn [used pool bk carries freeing]; no_shrink.
    + apply HM.
    + by left.
    + apply (flow_new _ _ _ _ e); [done..|]. cbn [option_list]. rewrite app_nil_r. cbn [app]. by rewrite <- Permutation_middle, app_nil_r.
    + intros x Hx Hnx. destruct Hnx. by apply list_elem_of_further.
    + intros Hno. pose proof (mi_reserve _ _ _ HM Hno). cbn [length]. lia.
Qed.

Lemma inv_pool S t temp mask r p s : inv S -> t ∈ procs -> phase_of S t = TryPool temp mask ->
  alloc_locked (pool S) (wq S) t (wait_entry t) temp mask = Done (r, p, s) ->
  inv (match r with
       | Got e => Sys (bk S) p s (e :: used S) (goto S t Idle)
       | Again => Sys (bk S) p s (used S) (goto S t (TryAlloc mask mask))
       | Failed => Sys (bk S) p s (used S) (goto S t Idle)
       | Waiting => Sys (bk S) p s (used S) (goto S t (Asleep mask))
       end).
Proof using Type*.
  intros (cap & st & HM & HW) Ht Hph. unfold alloc_locked. destruct (Z.eq_dec (curr_nr (pool S)) 0) as [Hc|Hc].
  - rewrite Hc. change (bool_of 0) with false. cbn iota. destruct (negb (temp =? mask)).
    { intros [= <- <- <-]. exists cap, st. split; [|apply (wait_other S _ t (TryAlloc mask mask)); rewrite ?Hph; try done; by left].
      apply (mem_quiet S _ cap st t (TryAlloc mask mask)); rewrite ?Hph; no_shrink. by left. }
    destruct (negb (bool_of _)).
    { intros [= <- <- <-]. exists cap, st. split; [|apply (wait_other S _ t Idle); rewrite ?Hph; try done; by left].
      apply (mem_quiet S _ cap st t Idle); rewrite ?Hph; no_shrink. by left. }
    destruct (prepare_to_wait _ _ _ _) as [s'| | |] eqn:Hp; cbn [mbind outcome_bind]; [|done..]. intros [= <- <- <-]. exists cap, st. split.
    + apply (mem_quiet S _ cap st t (Asleep mask)); rewrite ?Hph; no_shrink. by left.
    + apply wait_sleep; rewrite ?Hph; done.
  - rewrite (bool_of_true _ Hc).
    destruct (remove_ok (pool S) cap st (mi_pool _ _ _ HM) Hc) as (e & st' & p' & -> & -> & Hp' & Hmin). cbn [mbind outcome_bind].
    intros [= <- <- <-]. exists cap, st'. pose proof (curr_used S cap _ HM) as Hcu. rewrite length_app in Hcu. cbn [length] in Hcu. split.
    + apply (mem_step S _ cap cap (st' ++ [e]) st' t Idle); rewrite ?Hph; cbn [used pool bk carries freeing]; no_shrink.
      * by left.
      * apply flow_same; [done|]. cbn [option_list]. rewrite !app_nil_r, <- app_assoc. done.
      * intros x Hx Hnx. destruct Hnx. by apply list_elem_of_further.
      * intros Hno. pose proof (mi_reserve _ _ _ HM Hno). rewrite Hmin, (po_curr _ _ _ Hp'). cbn [length]. lia.
    + apply (wait_other S _ t Idle); rewrite ?Hph; try done. intros _ _. left. lia.
Qed.

(** *** [mempool_free] *)
Lemma freeing_used S cap st t e : mem_inv S cap st -> t ∈ procs -> freeing (phase_of S t) = Some e -> e ∈ used S /\ NoDup (used S).
Proof using Type*.
  intros HM Ht Hf. split.
  - apply (mi_free _ _ _ HM). rewrite (having_split freeing S t Ht), Hf. apply list_elem_of_here.
  - pose proof (mi_nodup _ _ _ HM) as Hnd. unfold all in Hnd. apply list.NoDup_app in Hnd as (_ & _ & Hnd). by apply list.NoDup_app in Hnd as (? & _).
Qed.

Lemma without_length (l : list Z) e : NoDup l -> e ∈ l -> length l = S (length (without e l)).
Proof using Type. intros Hl He. pose proof (filter_out l e Hl He) as Hp. by rewrite Hp at 1. Qed.

(** The element leaves the elements in use: for the pool or for the task. *)
Lemma inv_leave S t e p' ph cap st st' : mem_inv S cap st -> wait_inv S -> t ∈ procs -> freeing (phase_of S t) = Some e -> carries (phase_of S t) = None ->
  pool_ok p' cap st' -> min_nr p' = min_nr (pool S) -> st' ++ option_list (carries ph) = st ++ [e] -> ph = Wake \/ ph = Give e ->
  (ph = Give e -> min_nr p' <= curr_nr p') -> inv (Sys (bk S) p' (wq S) (without e (used S)) (goto S t ph)).
Proof using Type*.
  intros HM HW Ht Hf Hcr Hp Hmin Hst Hph Hge. destruct (freeing_used S cap st t e HM Ht Hf) as [Hin Hnd]. pose proof (filter_out _ e Hnd Hin) as Hperm.
  pose proof (without_length _ e Hnd Hin) as Hlen. pose proof (curr_used S cap st HM) as Hcu. pose proof (f_equal length Hst) as Hls.
  rewrite !length_app in Hls. cbn [length] in Hls. exists cap, st'. split.
  - apply (mem_step S _ cap cap st st' t ph); cbn [used pool bk phase_of]; try done; try (solve [destruct Hph as [-> | ->]; no_shrink]).
    + by left.
    + apply flow_same; [done|]. rewrite Hcr. cbn [option_list]. rewrite (Permutation_app_comm (without e (used S))), app_assoc, Hst, app_nil_r, <- app_assoc.
      rewrite Hperm at 2. done.
    + intros x Hx Hnx. rewrite Hf. split; [|by destruct Hph as [-> | ->]]. f_equal. destruct (Z.eq_dec x e) as [|Hne]; [done|]. destruct Hnx.
      apply list_elem_of_filter. by split.
    + intros Hno. pose proof (mi_reserve _ _ _ HM Hno). rewrite Hmin. rewrite (po_curr _ _ _ Hp). destruct Hph as [-> | ->]; simpl in Hls; [lia|].
      specialize (Hge eq_refl). rewrite (po_curr _ _ _ Hp) in Hge. lia.
  - apply (wait_other S _ t ph); cbn [wq pool phase_of]; try done; try (destruct Hph as [-> | ->]; done).
    + intros m E. by rewrite E in Hf.
    + intros E. by rewrite E in Hf.
    + intros Hno Hc. rewrite (po_curr _ _ _ Hp) in Hc. destruct Hph as [-> | ->]; [by right|left]. simpl in Hls. lia.
Qed.

Lemma inv_test S t e : inv S -> t ∈ procs -> phase_of S t = FreeTest e ->
  inv (if free_test (pool S) then Sys (bk S) (pool S) (wq S) (used S) (goto S t (FreeLock e))
       else Sys (bk S) (pool S) (wq S) (without e (used S)) (goto S t (Give e))).
Proof using Type*.
  intros (cap & st & HM & HW) Ht Hph. unfold free_test. destruct (Z.ltb_spec (curr_nr (pool S)) (min_nr (pool S))) as [Hlt|Hge].
  - exists cap, st. split; [|apply (wait_other S _ t (FreeLock e)); rewrite ?Hph; try done; by left].
    apply (mem_quiet S _ cap st t (FreeLock e)); rewrite ?Hph; no_shrink. by left.
  - apply (inv_leave S t e (pool S) (Give e) cap st st); rewrite ?Hph; try done; [apply HM|by right].
Qed.

Lemma inv_lock S t e added p : inv S -> t ∈ procs -> phase_of S t = FreeLock e -> free_locked (pool S) e = Done (added, p) ->
  inv (Sys (bk S) p (wq S) (without e (used S)) (goto S t (if added : bool then Wake else Give e))).
Proof using Type*.
  intros (cap & st & HM & HW) Ht Hph. unfold free_locked. destruct (Z.ltb_spec (curr_nr (pool S)) (min_nr (pool S))) as [Hlt|Hge].
  - destruct (add_ok (pool S) cap st e (mi_pool _ _ _ HM) Hlt) as (p' & -> & Hp' & Hmin). cbn [mbind outcome_bind]. intros [= <- <-].
    apply (inv_leave S t e p' Wake cap st (st ++ [e])); rewrite ?Hph; try done; [by rewrite app_nil_r|by left].
  - intros [= <- <-]. apply (inv_leave S t e (pool S) (Give e) cap st st); rewrite ?Hph; try done; [apply HM|by right].
Qed.

(** An element goes back to the backend. *)
Lemma inv_gone S t e ph : inv S -> t ∈ procs -> carries (phase_of S t) = Some e -> carries ph = None -> freeing ph = None -> freeing (phase_of S t) = None ->
  (forall m, phase_of S t <> Asleep m) -> (forall m, ph <> Asleep m) -> phase_of S t <> Wake ->
  (forall n, (exists e, ph = ShrinkFree n e) \/ ph = ShrinkLock n -> (exists e, phase_of S t = ShrinkFree n e) \/ phase_of S t = ShrinkLock n) ->
  (forall n, ph <> Resize n /\ ph <> GrowAlloc n /\ ph <> GrowLock n) -> (resizing ph = true -> resizing (phase_of S t) = true) ->
  inv (Sys (free_fn (bk S) e) (pool S) (wq S) (used S) (goto S t ph)).
Proof using Type*.
  intros (cap & st & HM & HW) Ht Hc Hc' Hf Hf' Ha Ha' Hw Hsh Hgr Hre. exists cap, st. split.
  - apply (mem_step S _ cap cap st st t ph); cbn [used pool bk phase_of]; try done.
    + apply HM.
    + by left.
    + apply (flow_gone _ _ _ _ e); [done|]. rewrite Hc, Hc'. cbn [option_list]. rewrite app_nil_r, app_assoc. symmetry. apply Permutation_cons_append.
    + intros x Hfx. congruence.
    + intros n Hn. by apply (mi_shrink _ _ _ HM t), Hsh.
    + intros n Hn. destruct (Hgr n) as (? & ? & ?). tauto.
    + intros Hr. by apply (mi_resizing _ _ _ HM), Hre.
    + apply (mi_reserve _ _ _ HM).
  - apply (wait_other S _ t ph); cbn [wq pool phase_of]; try done. by left.
Qed.

(** *** [mempool_resize] *)
Lemma inv_shrink S t n r p ph : inv S -> t ∈ procs -> phase_of S t = Resize n \/ phase_of S t = ShrinkLock n ->
  (phase_of S t = Resize n -> n <= min_nr (pool S)) -> shrink_locked (pool S) n = Done (r, p) ->
  ph = match r with Some e => ShrinkFree n e | None => Idle end -> inv (Sys (bk S) p (wq S) (used S) (goto S t ph)).
Proof using Type*.
  intros (cap & st & HM & HW) Ht Hph Hn Hs ->. assert (Hmay : may_resize t) by (apply (mi_resizing _ _ _ HM); by destruct Hph as [-> | ->]).
  assert (Hcap : 0 < n <= cap).
  { destruct Hph as [Hph|Hph]; [|by apply (mi_shrink _ _ _ HM t); right]. pose proof (mi_grow _ _ _ HM t n (or_introl Hph)).
    pose proof (po_min _ _ _ (mi_pool _ _ _ HM)). specialize (Hn Hph). lia. }
  destruct (shrink_ok (pool S) cap st n (mi_pool _ _ _ HM) Hcap) as (r' & p' & Hs' & Hres). rewrite Hs in Hs'. injection Hs' as <- <-.
  assert (Hno : forall P : Prop, (forall t, ~ may_resize t) -> P) by (intros P Hx; by destruct (Hx t)).
  assert (Hc0 : carries (phase_of S t) = None /\ freeing (phase_of S t) = None) by (by destruct Hph as [-> | ->]). destruct Hc0 as [Hc0 Hf0].
  assert (HW' : forall ph', (forall m, ph' <> Asleep m) -> wait_inv (Sys (bk S) p (wq S) (used S) (goto S t ph'))).
  { intros ph' Hna. apply (wait_other S _ t ph'); cbn [wq pool phase_of]; try done; try (destruct Hph as [-> | ->]; done).
    intros Hx. by apply Hno. }
  destruct r as [e|].
  - destruct Hres as (st' & -> & Hp'). exists cap, st'. split; [|by apply HW'].
    apply (mem_step S _ cap cap (st' ++ [e]) st' t (ShrinkFree n e)); rewrite ?Hc0; cbn [used pool bk carries freeing phase_of]; no_shrink.
    + by left.
    + apply flow_same; [done|]. cbn [option_list]. rewrite app_nil_r, <- app_assoc. apply Permutation_app_head. by rewrite Permutation_app_comm.
    + intros Hx. by apply Hno.
  - exists cap, st. split; [|by apply HW'].
    apply (mem_step S _ cap cap st st t Idle); rewrite ?Hc0; cbn [used pool bk carries freeing phase_of]; no_shrink.
    + by left.
    + by apply flow_same.
    + intros Hx. by apply Hno.
Qed.

Lemma inv_grow S t n more p : one_resizer -> inv S -> t ∈ procs -> phase_of S t = GrowLock n -> grow_locked (pool S) n = Done (more, p) ->
  inv (Sys (bk S) p (wq S) (used S) (goto S t (if more : bool then FillAlloc else Idle))).
Proof using Type*.
  intros Hone (cap & st & HM & HW) Ht Hph Hg. assert (Hmay : may_resize t) by (apply (mi_resizing _ _ _ HM); by rewrite Hph).
  assert (Hno : forall P : Prop, (forall t, ~ may_resize t) -> P) by (intros P Hx; by destruct (Hx t)).
  destruct (grow_ok (pool S) cap st n (mi_pool _ _ _ HM)) as (more' & p' & cap' & Hg' & Hp').
  { apply (mi_grow _ _ _ HM t). by right; right. }
  rewrite Hg in Hg'. injection Hg' as <- <-. exists cap', st. split.
  - apply (mem_step S _ cap cap' st st t (if more then FillAlloc else Idle)); rewrite ?Hph; cbn [used pool bk carries freeing phase_of]; no_shrink;
      try (solve [destruct more; no_shrink]).
    + by right.
    + destruct more; by apply flow_same.
    + intros Hx. by apply Hno.
  - apply (wait_other S _ t (if more then FillAlloc else Idle)); rewrite ?Hph; cbn [wq pool phase_of]; try done; try (by destruct more).
    intros Hx. by apply Hno.
Qed.

Lemma inv_fill_alloc S t e b : inv S -> t ∈ procs -> phase_of S t = FillAlloc -> alloc_fn (bk S) GFP_KERNEL = (e, b) ->
  inv (Sys b (pool S) (wq S) (used S) (goto S t (if e =? 0 then Idle else FillLock e))).
Proof using Type*.
  intros (cap & st & HM & HW) Ht Hph Ha. assert (Hmay : may_resize t) by (apply (mi_resizing _ _ _ HM); by rewrite Hph). exists cap, st.
  apply alloc_ok in Ha as [[-> Ho]|(Hne & Hn & Ho)].
  - rewrite Z.eqb_refl. split; [|apply (wait_other S _ t Idle); rewrite ?Hph; try done; by left].
    apply (mem_quiet S _ cap st t Idle); rewrite ?Hph; no_shrink. by left.
  - destruct (Z.eqb_spec e 0) as [|_]; [done|]. split; [|apply (wait_other S _ t (FillLock e)); rewrite ?Hph; try done; by left].
    apply (mem_step S _ cap cap st st t (FillLock e)); rewrite ?Hph; cbn [used pool bk carries freeing]; no_shrink.
    + apply HM.
    + by left.
    + apply (flow_new _ _ _ _ e); [done..|]. cbn. rewrite app_nil_r, app_assoc. symmetry. apply Permutation_cons_append.
    + intros Hx. by destruct (Hx t).
Qed.

Lemma fill_ok p cap st e : pool_ok p cap st -> exists r p', fill_locked p e = Done (r, p') /\ match r with Full => p' = p | _ => pool_ok p' cap (st ++ [e]) end.
Proof using Type.
  intros Hp. unfold fill_locked. destruct (Z.ltb_spec (curr_nr p) (min_nr p)) as [Hlt|]; [|by eexists _, _].
  destruct (add_ok p cap st e Hp Hlt) as (p' & -> & Hp' & _). cbn [mbind outcome_bind]. eexists _, p'. split; [done|]. by destruct (curr_nr p' <? min_nr p').
Qed.

Lemma inv_fill_lock S t e r p : inv S -> t ∈ procs -> phase_of S t = FillLock e -> fill_locked (pool S) e = Done (r, p) ->
  inv (Sys (bk S) p (wq S) (used S) (goto S t (match r with Fill => FillAlloc | Filled => Idle | Full => Give e end))).
Proof using Type*.
  intros (cap & st & HM & HW) Ht Hph Hf. assert (Hmay : may_resize t) by (apply (mi_resizing _ _ _ HM); by rewrite Hph).
  destruct (fill_ok (pool S) cap st e (mi_pool _ _ _ HM)) as (r' & p' & Hf' & Hp'). rewrite Hf in Hf'. injection Hf' as <- <-.
  assert (HW' : forall ph', (forall m, ph' <> Asleep m) -> wait_inv (Sys (bk S) p (wq S) (used S) (goto S t ph'))).
  { intros ph' Hna. apply (wait_other S _ t ph'); rewrite ?Hph; cbn [wq pool phase_of]; try done. intros Hx. by destruct (Hx t). }
  exists cap, (match r with Full => st | _ => st ++ [e] end). split; [|apply HW'; by destruct r].
  apply (mem_step S _ cap cap st _ t (match r with Fill => FillAlloc | Filled => Idle | Full => Give e end)); rewrite ?Hph; cbn [used pool bk phase_of];
    try (solve [destruct r; no_shrink]).
  - destruct r; try done. rewrite Hp'. apply HM.
  - by left.
  - apply flow_same; [done|]. destruct r; cbn; rewrite ?app_nil_r; try done; rewrite <- app_assoc; apply Permutation_app_head; cbn; apply Permutation_cons_append.
  - intros Hx. by destruct (Hx t).
Qed.

(** ** Every step keeps the invariant *)
Lemma step_inv S S' : one_resizer -> inv S -> step S S' -> inv S'.
Proof using Type*.
  intros Hone HI Hst. destruct Hst as [S t g mask temp Ht Hph Hm|S t temp mask e b Ht Hph Ha|S t temp mask r p s Ht Hph Hl|S t m Ht Hph|S t m Ht Hph Hr|
    S t e Ht Hph He Hno|S t e Ht Hph|S t e added p Ht Hph Hl|S t s Ht Hph Hw|S t e Ht Hph|S t n Ht Hph Hmay Hn|S t n r p Ht Hph Hr|S t n e Ht Hph|
    S t n r p Ht Hph Hs|S t n ok b Ht Hph Ha|S t n more p Ht Hph Hg|S t e b Ht Hph Ha|S t e r p Ht Hph Hf].
  - destruct HI as (cap & st & HM & HW). exists cap, st. split; [|apply (wait_other S _ t (TryAlloc temp mask)); rewrite ?Hph; try done; by left].
    apply (mem_quiet S _ cap st t (TryAlloc temp mask)); rewrite ?Hph; no_shrink. by left.
  - by apply inv_try.
  - by apply (inv_pool S t temp mask).
  - destruct HI as (cap & st & HM & HW). exists cap, st. split; [|by apply (wait_timeout S t m)]. by destruct HM.
  - destruct HI as (cap & st & HM & HW). exists cap, st. split; [|by apply (wait_resume S t m)].
    apply (mem_quiet S _ cap st t (TryAlloc m m)); rewrite ?Hph; no_shrink. by left.
  - destruct HI as (cap & st & HM & HW). exists cap, st. split; [|apply (wait_other S _ t (FreeTest e)); rewrite ?Hph; try done; by left].
    apply (mem_quiet S _ cap st t (FreeTest e)); rewrite ?Hph; no_shrink. right. right. by exists e.
  - by apply inv_test.
  - by apply inv_lock.
  - destruct HI as (cap & st & HM & HW). exists cap, st. split.
    + apply (mem_quiet S _ cap st t Idle); rewrite ?Hph; no_shrink. by left.
    + destruct (wake_ok S t HW) as (s' & Hw' & O1 & O2 & O3 & O4). rewrite Hw in Hw'. injection Hw' as <-. by apply wait_after_wake.
  - apply (inv_gone S t e Idle); rewrite ?Hph; try done. by intros n [[? ?]|?].
  - destruct HI as (cap & st & HM & HW). exists cap, st. split; [|apply (wait_other S _ t (Resize n)); rewrite ?Hph; try done; by left].
    apply (mem_quiet S _ cap st t (Resize n)); rewrite ?Hph; no_shrink. by left.
  - unfold resize_start in Hr. destruct (n <=? 0); [done|]. cbn [BUG_ON mbind outcome_bind] in Hr. destruct (Z.leb_spec n (min_nr (pool S))) as [Hle|Hgt].
    + destruct (shrink_locked (pool S) n) as [[r' p']| | |] eqn:Hs; cbn [mbind outcome_bind] in Hr; [|done..]. injection Hr as <- <-.
      apply (inv_shrink S t n r' p'); try done; [by left|by destruct r'].
    + injection Hr as <- <-. destruct HI as (cap & st & HM & HW). exists cap, st.
      split; [|apply (wait_other S _ t (GrowAlloc n)); rewrite ?Hph; try done; by left]. pose proof (mi_grow _ _ _ HM t n (or_introl Hph)) as Hn.
      apply (mem_quiet S _ cap st t (GrowAlloc n)); rewrite ?Hph; no_shrink; [by left|].
      intros _. apply (mi_resizing _ _ _ HM). by rewrite Hph.
  - apply (inv_gone S t e (ShrinkLock n)); rewrite ?Hph; try done. intros m [[? ?]|[= <-]]; [done|left; by exists e].
  - apply (inv_shrink S t n r p); try done; [by right|]. by rewrite Hph.
  - destruct HI as (cap & st & HM & HW). exists cap, st. pose proof (mi_grow _ _ _ HM t n (or_intror (or_introl Hph))) as Hn.
    split; [|apply (wait_other S _ t (if ok then GrowLock n else Idle)); rewrite ?Hph; try done; [by destruct ok|by left]].
    apply (mem_quiet S _ cap st t (if ok then GrowLock n else Idle)); rewrite ?Hph; try (solve [destruct ok; no_shrink]).
    + by apply (array_ok (bk S) n GFP_KERNEL ok).
    + left. by destruct ok.
    + intros _. apply (mi_resizing _ _ _ HM). by rewrite Hph.
  - by apply (inv_grow S t n).
  - by apply inv_fill_alloc.
  - by apply inv_fill_lock.
Qed.

(** ** Sections return *)
Record returns (S : system) (t : Z) : Prop := {
  re_pool temp mask : phase_of S t = TryPool temp mask -> exists r, alloc_locked (pool S) (wq S) t (wait_entry t) temp mask = Done r;
  re_free e : phase_of S t = FreeLock e -> exists r, free_locked (pool S) e = Done r;
  re_wake : phase_of S t = Wake -> exists s, wake_up (wq S) (bookmark_of t) = Done s;
  re_resize n : phase_of S t = Resize n -> exists r, resize_start (pool S) n = Done r;
  re_shrink n : phase_of S t = ShrinkLock n -> exists r, shrink_locked (pool S) n = Done r;
  re_grow n : phase_of S t = GrowLock n -> exists r, grow_locked (pool S) n = Done r;
  re_fill e : phase_of S t = FillLock e -> exists r, fill_locked (pool S) e = Done r;
}.

Lemma inv_returns S t : inv S -> returns S t.
Proof using Type*.
  intros (cap & st & HM & HW). pose proof (mi_pool _ _ _ HM) as Hp. split.
  - intros temp mask Hph. unfold alloc_locked. destruct (Z.eq_dec (curr_nr (pool S)) 0) as [Hc|Hc].
    + rewrite Hc. change (bool_of 0) with false. cbn iota. destruct (negb (temp =? mask)); [by eexists|]. destruct (negb (bool_of _)); [by eexists|].
      rewrite (prepare_ok S t HW) by (intros m; by rewrite Hph). cbn [mbind outcome_bind]. by eexists.
    + rewrite (bool_of_true _ Hc). destruct (remove_ok _ _ _ Hp Hc) as (e & st' & p' & _ & -> & _). cbn [mbind outcome_bind]. by eexists.
  - intros e Hph. unfold free_locked. destruct (Z.ltb_spec (curr_nr (pool S)) (min_nr (pool S))) as [Hlt|]; [|by eexists].
    destruct (add_ok _ _ _ e Hp Hlt) as (p' & -> & _). cbn [mbind outcome_bind]. by eexists.
  - intros _. destruct (wake_ok S t HW) as (s' & Hw & _). by exists s'.
  - intros n Hph. pose proof (mi_grow _ _ _ HM t n (or_introl Hph)) as Hn. unfold resize_start. rewrite (proj2 (Z.leb_gt n 0)) by lia. cbn [BUG_ON mbind outcome_bind].
    destruct (Z.leb_spec n (min_nr (pool S))) as [Hle|]; [|by eexists]. pose proof (po_min _ _ _ Hp).
    destruct (shrink_ok _ _ _ n Hp) as (r & p' & -> & _); [lia|]. cbn [mbind outcome_bind]. by eexists.
  - intros n Hph. destruct (shrink_ok _ _ _ n Hp) as (r & p' & -> & _); [|by eexists]. apply (mi_shrink _ _ _ HM t). by right.
  - intros n Hph. destruct (grow_ok _ _ _ n Hp) as (more & p' & cap' & -> & _); [|by eexists]. apply (mi_grow _ _ _ HM t). by right; right.
  - intros e Hph. destruct (fill_ok _ _ _ e Hp) as (r & p' & -> & _). by eexists.
Qed.

(** ** Making and destroying a pool *)
Lemma exit_ok O cap fuel : forall b p st, pool_ok p cap st -> NoDup st -> (forall x, out b x <-> x ∈ st \/ O x) -> (forall x, x ∈ st -> ~ O x) ->
  (length st < fuel)%nat -> exists b' p', exit_loop fuel b p = Done (b', p') /\ forall x, out b' x <-> O x.
Proof using Type*.
  induction fuel as [|fuel IH]; intros b p st Hp Hnd Ho Hd Hf; [lia|]. cbn [exit_loop]. destruct (Z.eq_dec (curr_nr p) 0) as [Hc|Hc].
  - rewrite Hc. change (bool_of 0) with false. cbn iota. exists b, p. split; [done|]. rewrite (po_curr _ _ _ Hp) in Hc. destruct st; [|simpl in Hc; lia].
    intros x. rewrite Ho, elem_of_nil. tauto.
  - rewrite (bool_of_true _ Hc). destruct (remove_ok p cap st Hp Hc) as (e & st' & p' & -> & -> & Hp' & _). cbn [mbind outcome_bind].
    rewrite length_app in Hf. cbn [length] in Hf. apply list.NoDup_app in Hnd as (Hnd & Hde & _).
    apply (IH _ p' st' Hp' Hnd); [| |lia].
    + intros x. rewrite free_ok by (rewrite Ho, elem_of_app, list_elem_of_singleton; tauto). rewrite Ho, elem_of_app, list_elem_of_singleton.
      destruct (Z.eq_dec x e) as [->|]; [|tauto]. split; [tauto|]. intros [Hin|Hx]; exfalso.
      * apply (Hde e Hin). by apply list_elem_of_singleton.
      * apply (Hd e); [rewrite elem_of_app, list_elem_of_singleton; tauto|done].
    + intros x Hx. apply Hd. rewrite elem_of_app. by left.
Qed.

Lemma mempool_exit_ok O b p cap st : pool_ok p cap st -> NoDup st -> (forall x, out b x <-> x ∈ st \/ O x) -> (forall x, x ∈ st -> ~ O x) ->
  exists b' p', mempool_exit b p = Done (b', p') /\ forall x, out b' x <-> O x.
Proof using Type*.
  intros Hp Hnd Ho Hd. unfold mempool_exit.
  destruct (exit_ok O cap (S (Z.to_nat (curr_nr p))) b p st Hp Hnd Ho Hd) as (b' & p' & -> & Hb'); [rewrite (po_curr _ _ _ Hp); lia|].
  cbn [mbind outcome_bind]. by eexists b', _.
Qed.

(** What [mempool_init_node] leaves. *)
Definition filled (O : Z -> Prop) (n : Z) (r : Z * backend * mempool_t) : Prop :=
  let '(err, b, p) := r in
  (err = 0 /\ exists st, pool_ok p n st /\ min_nr p = n /\ curr_nr p = n /\ NoDup st /\ (forall x, out b x <-> x ∈ st \/ O x) /\ forall x, x ∈ st -> ~ O x) \/
  (err = - ENOMEM /\ forall x, out b x <-> O x).

Lemma init_loop_ok O g n fuel : forall b p st, pool_ok p n st -> min_nr p = n -> NoDup st -> (forall x, out b x <-> x ∈ st \/ O x) -> (forall x, x ∈ st -> ~ O x) ->
  (Z.to_nat (n - curr_nr p) < fuel)%nat -> exists r, init_loop fuel b p g = Done r /\ filled O n r.
Proof using Type*.
  induction fuel as [|fuel IH]; intros b p st Hp Hm Hnd Ho Hd Hf; [lia|]. cbn [init_loop]. destruct (Z.ltb_spec (curr_nr p) (min_nr p)) as [Hlt|Hge].
  2:{ eexists. split; [done|]. left. split; [done|]. exists st. pose proof (po_min _ _ _ Hp). split_and!; try done. lia. }
  destruct (alloc_fn b g) as [e b1] eqn:Ha. apply alloc_ok in Ha as [[-> Hb]|(Hne & Hn & Hb)].
  - rewrite Z.eqb_refl. destruct (mempool_exit_ok O b1 p n st Hp Hnd) as (b' & p' & -> & Ho'); [intros x; by rewrite Hb, Ho|done|].
    cbn [mbind outcome_bind]. eexists. split; [done|]. by right.
  - destruct (Z.eqb_spec e 0) as [|_]; [done|]. destruct (add_ok p n st e Hp Hlt) as (p' & -> & Hp' & Hm'). cbn [mbind outcome_bind].
    apply (IH b1 p' (st ++ [e])); try done.
    + congruence.
    + rewrite <- Permutation_cons_append. apply list.NoDup_cons. split; [|done]. rewrite Ho in Hn. tauto.
    + intros x. rewrite Hb, Ho, elem_of_app, list_elem_of_singleton. tauto.
    + intros x. rewrite elem_of_app, list_elem_of_singleton. intros [Hx| ->]; [by apply Hd|]. rewrite Ho in Hn. tauto.
    + rewrite (po_curr _ _ _ Hp'), length_app. rewrite (po_curr _ _ _ Hp) in Hf, Hlt. cbn [length]. lia.
Qed.

Lemma init_node_ok b n g : 0 <= n < 2 ^ 31 -> exists r, mempool_init_node b (Mempool 0 0 None) n g = Done r /\ filled (out b) n r.
Proof using Type*.
  intros Hn. unfold mempool_init_node. cbn [set_min min_nr curr_nr elements set_elements]. destruct (kmalloc_array_node b n g) as [ok b1] eqn:Ha.
  pose proof (array_ok b n g ok b1 Ha) as Hb. destruct ok; cbn [negb].
  - apply (init_loop_ok (out b) g n _ b1 _ []); unfold set_elements, set_min; cbn [curr_nr min_nr elements]; try done.
    + split; cbn [elements curr_nr min_nr]; [|done|lia|lia]. eexists. split; [done|]. rewrite length_replicate. split; [lia|done].
    + constructor.
    + intros x. rewrite Hb, elem_of_nil. tauto.
    + intros x Hx. by apply elem_of_nil in Hx.
    + lia.
  - eexists. split; [done|]. by right.
Qed.

Lemma create_destroy_ok ok b n g : 0 <= n < 2 ^ 31 ->
  exists r b1, mempool_create_node ok b n g = Done (r, b1) /\
    match r with
    | None => forall x, out b1 x <-> out b x
    | Some p => curr_nr p = n /\ min_nr p = n /\ exists b2, mempool_destroy b1 (Some p) = Done b2 /\ forall x, out b2 x <-> out b x
    end.
Proof using Type*.
  intros Hn. unfold mempool_create_node. destruct ok; cbn [negb]; [|by eexists _, b].
  destruct (init_node_ok b n g Hn) as ([[err b1] p] & -> & Hfi). cbn [mbind outcome_bind].
  destruct Hfi as [(-> & st & Hp & Hm & Hc & Hnd & Ho & Hd)|[-> Ho]].
  - change (bool_of 0) with false. cbn iota. eexists _, b1. split; [done|]. split; [done|]. split; [done|]. cbn [mempool_destroy].
    destruct (mempool_exit_ok (out b) b1 p n st Hp Hnd Ho Hd) as (b2 & p2 & -> & Hb2). by exists b2.
  - change (bool_of (- ENOMEM)) with true. cbn iota. by eexists _, b1.
Qed.

(** ** Runs *)

(** A pool of [n] elements that was just made, and all that its backend has handed out. *)
Record made (S : system) (n : Z) : Prop := {
  md_fresh : fresh S;
  md_size : 0 <= n < 2 ^ 31;
  md_init : exists b g, (forall x, ~ out b x) /\ mempool_init_node b (Mempool 0 0 None) n g = Done (0, bk S, pool S);
}.

Lemma idle_having f S : f Idle = None -> (forall t, phase_of S t = Idle) -> having f S = [].
Proof using Type. intros Hf Hi. unfold having. induction procs as [|t l IH]; [done|]. cbn. rewrite Hi, Hf. exact IH. Qed.

Lemma made_inv S n : made S n -> inv S /\ min_nr (pool S) = n.
Proof using Type*.
  intros [[Hi Hu Hq] Hn (b & g & Hno & Hr)]. destruct (init_node_ok b n g Hn) as (r & Hr' & Hfi). rewrite Hr in Hr'. injection Hr' as <-.
  destruct Hfi as [(_ & st & Hp & Hm & Hc & Hnd & Ho & _)|[? _]]; [|done]. split; [|done]. exists n, st.
  assert (Hall : all S st = st) by (unfold all; rewrite Hu, (idle_having carries S eq_refl Hi), app_nil_r; done). split.
  - split; rewrite ?Hall, ?(idle_having freeing S eq_refl Hi), ?Hu; try done.
    + intros x. rewrite Ho. split; [intros [?|Hx]; [done|by destruct (Hno x)]|by left].
    + constructor.
    + intros t m. rewrite Hi. by intros [[? ?]|?].
    + intros t m. rewrite Hi. by intros [?|[?|?]].
    + intros t. by rewrite Hi.
    + intros _. cbn [length]. lia.
  - split; rewrite ?Hq; try (intros t m; by rewrite Hi).
    + constructor.
    + intros e He. by apply elem_of_nil in He.
Qed.

Lemma reach_inv S S' : one_resizer -> inv S -> rtc step S S' -> inv S'.
Proof using Type*. intros Hone HI. induction 1 as [|S S1 S2 Hst _ IH]; [done|]. apply IH. by apply (step_inv S). Qed.

(** Without resizing the size stays. *)
Lemma step_min S S' : (forall t, ~ may_resize t) -> inv S -> step S S' -> min_nr (pool S') = min_nr (pool S).
Proof using Type*.
  intros Hno (cap & st & HM & _) Hst. pose proof (mi_pool _ _ _ HM) as Hp.
  assert (Hrs : forall t, resizing (phase_of S t) = true -> min_nr (pool S') = min_nr (pool S)).
  { intros t Hr. exfalso. by apply (Hno t), (mi_resizing _ _ _ HM). }
  destruct Hst as [| S t temp mask e b Ht Hph Ha|S t temp mask r p s Ht Hph Hl| | | |S t e Ht Hph|S t e added p Ht Hph Hl| | | | S t n r p Ht Hph| |
    S t n r p Ht Hph| |S t n more p Ht Hph| |S t e r p Ht Hph]; try done; try (apply (Hrs t); by rewrite Hph).
  - by destruct (e =? 0).
  - clear Hrs. unfold alloc_locked in Hl. assert (Hmin : min_nr p = min_nr (pool S)); [|by destruct r]. destruct (Z.eq_dec (curr_nr (pool S)) 0) as [Hc|Hc].
    + rewrite Hc in Hl. change (bool_of 0) with false in Hl. cbn iota in Hl. destruct (negb (temp =? mask)); [by injection Hl as _ <- _|].
      destruct (negb (bool_of _)); [by injection Hl as _ <- _|]. destruct (prepare_to_wait _ _ _ _); cbn [mbind outcome_bind] in Hl; [by injection Hl as _ <- _|done..].
    + rewrite (bool_of_true _ Hc) in Hl. destruct (remove_ok _ _ _ Hp Hc) as (e & st' & p' & _ & Hr & _ & Hm). rewrite Hr in Hl. cbn [mbind outcome_bind] in Hl.
      by injection Hl as _ <- _.
  - by destruct (free_test (pool S)).
  - clear Hrs. unfold free_locked in Hl. cbn [pool]. destruct (Z.ltb_spec (curr_nr (pool S)) (min_nr (pool S))) as [Hlt|]; [|by injection Hl as _ <-].
    destruct (add_ok _ _ _ e Hp Hlt) as (p' & Hr & _ & Hm). rewrite Hr in Hl. cbn [mbind outcome_bind] in Hl. by injection Hl as _ <-.
Qed.

Lemma no_one : (forall t, ~ may_resize t) -> one_resizer.
Proof using Type. intros Hno t1 t2 Hm. by destruct (Hno t1). Qed.

Lemma reach_min S S' : (forall t, ~ may_resize t) -> inv S -> rtc step S S' -> min_nr (pool S') = min_nr (pool S).
Proof using Type*.
  intros Hno HI. induction 1 as [|S S1 S2 Hst _ IH]; [done|]. rewrite IH by (apply (step_inv S); [by apply no_one|done..]). by apply step_min.
Qed.

(** ** The theorems *)

(** C10: In every interleaving of tasks that allocate, free and, one of them, resize, the
    elements in the pool and in use are distinct and were all handed out by the
    backend, and when nobody is in a call there are no others; the number of elements
    in the pool stays between 0 and [min_nr], which stays within the array.  Every
    section that runs under the lock, and every wakeup, returns: no [BUG_ON] is hit
    and no access leaves the array. *)
Theorem mempool_elements_safe S0 S n : made S0 n -> one_resizer -> rtc step S0 S ->
  exists l, elements (pool S) = Some l /\ 0 <= curr_nr (pool S) <= min_nr (pool S) /\ min_nr (pool S) <= Z.of_nat (length l) /\
    let reserve := take (Z.to_nat (curr_nr (pool S))) l in
    NoDup (reserve ++ used S) /\ (forall x, x ∈ reserve ++ used S -> out (bk S) x) /\
    ((forall t, phase_of S t = Idle) -> forall x, out (bk S) x -> x ∈ reserve ++ used S) /\
    forall t, returns S t.
Proof using Type*.
  intros Hm Hone Hr. destruct (made_inv S0 n Hm) as [HI _]. apply (reach_inv S0 S Hone HI) in Hr as HS. pose proof HS as (cap & st & HM & HW).
  destruct (mi_pool _ _ _ HM) as [(l & Hl & Hlen & Hst) Hc Hmin Hcap]. exists l. cbv zeta. rewrite Hc, Nat2Z.id, Hst.
  pose proof (mi_nodup _ _ _ HM) as Hnd. unfold all in Hnd. rewrite app_assoc in Hnd. split; [done|]. split; [lia|]. split; [lia|]. split_and!.
  - by apply list.NoDup_app in Hnd as (? & _).
  - intros x Hx. apply (mi_out _ _ _ HM). unfold all. rewrite app_assoc, elem_of_app. by left.
  - intros Hi x Hx. apply (mi_out _ _ _ HM) in Hx. unfold all in Hx. by rewrite (idle_having carries S eq_refl Hi), app_nil_r in Hx.
  - intros t. by apply inv_returns.
Qed.

(** C9: The guarantee of a pool.  While nobody resizes it, the elements in the pool and
    those in use are never fewer than the [n] it was made with; so whenever a task
    sleeps in [mempool_alloc], either a wakeup is on its way or [n] elements at least
    are in use, whose return will wake it: with a pool of one element or more a task
    cannot wait for memory that nobody holds. *)
Theorem mempool_reserve_guaranteed S0 S n : made S0 n -> (forall t, ~ may_resize t) -> rtc step S0 S ->
  n <= curr_nr (pool S) + Z.of_nat (length (used S)) /\
  forall t mask, phase_of S t = Asleep mask -> t_state (tasks (wq S) t) <> TASK_RUNNING ->
    (exists w, phase_of S w = Wake) \/ (curr_nr (pool S) = 0 /\ n <= Z.of_nat (length (used S))).
Proof using Type*.
  intros Hm Hno Hr. destruct (made_inv S0 n Hm) as [HI Hn]. pose proof (reach_min S0 S Hno HI Hr) as Hmin.
  apply (reach_inv S0 S (no_one Hno) HI) in Hr as (cap & st & HM & HW). pose proof (mi_reserve _ _ _ HM Hno) as Hres. rewrite Hmin, Hn in Hres. split; [done|].
  intros t mask Ht Hs. pose proof (mi_pool _ _ _ HM) as Hp. pose proof (po_curr _ _ _ Hp) as Hc. destruct (Z.eq_dec (curr_nr (pool S)) 0) as [E|E].
  - right. split; [done|lia].
  - left. apply (wi_wake _ HW t mask Ht Hs Hno). lia.
Qed.

(** [mempool_create_node] makes a pool with [n] elements or changes nothing: when
    an allocation fails those that were made before are freed.  [mempool_destroy] gives
    the elements of a pool back. *)
Theorem mempool_create_destroy ok b n g : 0 <= n < 2 ^ 31 ->
  exists r b1, mempool_create_node ok b n g = Done (r, b1) /\
    match r with
    | None => forall x, out b1 x <-> out b x
    | Some p => curr_nr p = n /\ min_nr p = n /\ exists b2, mempool_destroy b1 (Some p) = Done b2 /\ forall x, out b2 x <-> out b x
    end.
Proof using Type*. apply create_destroy_ok. Qed.
End Props.
