(* ===== verification/MempoolSlab.v ===== *)
(** * Memory pools over a slab cache

    [mempool_alloc_slab] and [mempool_free_slab] make a slab cache the allocator of a
    pool: what the cache promises is what the pool asks for. *)

From S2P Require Import Prelude Gfp WaitQueue RadixTree RadixInv Mempool MempoolSteps MempoolInv MempoolProps.
#[local] Open Scope Z_scope.

Section Slab.
Context `{KmemCache}.

Definition mempool_alloc_slab (gfp_mask : Z) (pool_data : cache) : Z * cache := kmem_cache_alloc pool_data gfp_mask.
Definition mempool_free_slab (element : Z) (pool_data : cache) : cache := kmem_cache_free pool_data element.

(** [array_memory] says whether there is memory for the array of so many pointers. *)
Context (array_memory : Z -> Z -> bool).

Definition slab_backend : Backend := {|
  backend := cache;
  alloc_fn c gfp_mask := mempool_alloc_slab gfp_mask c;
  free_fn c element := mempool_free_slab element c;
  kmalloc_array_node c n gfp_mask := (array_memory n gfp_mask, c);
|}.

Context `{!KmemSpec}.

Definition slab_backend_spec : @BackendSpec slab_backend.
Proof using Type*.
  refine (Build_BackendSpec slab_backend held _ _ _); cbn.
  - intros c g e c' Ha. apply kmem_alloc_ok in Ha as [Ha|([_ Hbig] & Hn & Ho)]; [by left|right]. split; [lia|by split].
  - intros c e x He. by apply kmem_free_ok.
  - intros c n g ok c' [= _ <-]. done.
Defined.

(** A pool over a slab cache is made with all its elements or not at all, and gives
    them back to the cache. *)
Theorem slab_pool_roundtrip ok c n g : 0 <= n < 2 ^ 31 ->
  exists r c1, @mempool_create_node slab_backend ok c n g = Done (r, c1) /\
    match r with
    | None => forall x, held c1 x <-> held c x
    | Some p => exists c2, @mempool_destroy slab_backend c1 (Some p) = Done c2 /\ forall x, held c2 x <-> held c x
    end.
Proof using Type*.
  intros Hn. destruct (@create_destroy_ok slab_backend slab_backend_spec ok c n g Hn) as (r & c1 & Hr & Hp). exists r, c1. split; [exact Hr|].
  destruct r as [p|]; [|exact Hp]. destruct Hp as (_ & _ & c2 & Hd & Ho). by exists c2.
Qed.
End Slab.
