(* ===== verification/MempoolRun.v ===== *)
(** * Memory pools: running tasks

    The step relation of [MempoolSteps] as a function of the task and of what it does,
    runs of it, and configurations in which the theorems apply. *)

From stdpp Require Import relations.
From S2P Require Import Prelude Runs Gfp WaitQueue WaitQueueProps Mempool MempoolSteps MempoolInv MempoolProps.
#[local] Open Scope Z_scope.

Inductive action :=
| CallAlloc (gfp_mask : Z)
| CallFree (element : Z)
| CallResize (n : Z)
| Expire
| Continue.

Section Run.
Context `{WakeFunctions} `{Backend} `{Tasks} `{!forall t, Decision (may_resize t)}.

Definition on_done {A B} (r : outcome A) (f : A -> B) : option B := match r with Done a => Some (f a) | _ => None end.

(** What a task in the middle of a call does next. *)
Definition continue (S : system) (t : Z) : option system :=
  match phase_of S t with
  | Idle => None
  | TryAlloc temp mask =>
      let '(e, b) := alloc_fn (bk S) temp in
      Some (if e =? 0 then Sys b (pool S) (wq S) (used S) (goto S t (TryPool temp mask)) else Sys b (pool S) (wq S) (e :: used S) (goto S t Idle))
  | TryPool temp mask =>
      on_done (alloc_locked (pool S) (wq S) t (wait_entry t) temp mask) (fun '(r, p, s) =>
        match r with
        | Got e => Sys (bk S) p s (e :: used S) (goto S t Idle)
        | Again => Sys (bk S) p s (used S) (goto S t (TryAlloc mask mask))
        | Failed => Sys (bk S) p s (used S) (goto S t Idle)
        | Waiting => Sys (bk S) p s (used S) (goto S t (Asleep mask))
        end)
  | Asleep mask =>
      if t_state (tasks (wq S) t) =? TASK_RUNNING then
        Some (Sys (bk S) (pool S) (finish_wait (wq S) t (wait_entry t)) (used S) (goto S t (TryAlloc mask mask)))
      else None
  | FreeTest e =>
      Some (if free_test (pool S) then Sys (bk S) (pool S) (wq S) (used S) (goto S t (FreeLock e))
            else Sys (bk S) (pool S) (wq S) (without e (used S)) (goto S t (Give e)))
  | FreeLock e =>
      on_done (free_locked (pool S) e) (fun '(added, p) => Sys (bk S) p (wq S) (without e (used S)) (goto S t (if added : bool then Wake else Give e)))
  | Wake => on_done (wake_up (wq S) (bookmark_of t)) (fun s => Sys (bk S) (pool S) s (used S) (goto S t Idle))
  | Give e => Some (Sys (free_fn (bk S) e) (pool S) (wq S) (used S) (goto S t Idle))
  | Resize n =>
      on_done (resize_start (pool S) n) (fun '(r, p) =>
        Sys (bk S) p (wq S) (used S) (goto S t (match r with Shrink e => ShrinkFree n e | Grow => GrowAlloc n | Resized => Idle end)))
  | ShrinkFree n e => Some (Sys (free_fn (bk S) e) (pool S) (wq S) (used S) (goto S t (ShrinkLock n)))
  | ShrinkLock n =>
      on_done (shrink_locked (pool S) n) (fun '(r, p) =>
        Sys (bk S) p (wq S) (used S) (goto S t (match r with Some e => ShrinkFree n e | None => Idle end)))
  | GrowAlloc n =>
      let '(ok, b) := kmalloc_array_node (bk S) n GFP_KERNEL in
      Some (Sys b (pool S) (wq S) (used S) (goto S t (if ok : bool then GrowLock n else Idle)))
  | GrowLock n =>
      on_done (grow_locked (pool S) n) (fun '(more, p) => Sys (bk S) p (wq S) (used S) (goto S t (if more : bool then FillAlloc else Idle)))
  | FillAlloc =>
      let '(e, b) := alloc_fn (bk S) GFP_KERNEL in
      Some (Sys b (pool S) (wq S) (used S) (goto S t (if e =? 0 then Idle else FillLock e)))
  | FillLock e =>
      on_done (fill_locked (pool S) e) (fun '(r, p) =>
        Sys (bk S) p (wq S) (used S) (goto S t (match r with Fill => FillAlloc | Filled => Idle | Full => Give e end)))
  end.

Definition exec (S : system) (ta : Z * action) : option system :=
  let '(t, a) := ta in
  if decide (t ∈ procs) then
    match a, phase_of S t with
    | CallAlloc g, Idle => let '(mask, temp) := alloc_masks g in Some (Sys (bk S) (pool S) (wq S) (used S) (goto S t (TryAlloc temp mask)))
    | CallFree e, Idle =>
        if decide (e ∈ used S /\ Forall (fun t' => freeing (phase_of S t') <> Some e) procs)
        then Some (Sys (bk S) (pool S) (wq S) (used S) (goto S t (FreeTest e))) else None
    | CallResize n, Idle =>
        if decide (may_resize t /\ 0 < n < 2 ^ 31) then Some (Sys (bk S) (pool S) (wq S) (used S) (goto S t (Resize n))) else None
    | Expire, Asleep _ => Some (Sys (bk S) (pool S) (set_task_state (wq S) t TASK_RUNNING) (used S) (phase_of S))
    | Continue, _ => continue S t
    | _, _ => None
    end
  else None.

Lemma continue_step S t S' : t ∈ procs -> continue S t = Some S' -> step S S'.
Proof using Type.
  intros Ht Hs. unfold continue in Hs. destruct (phase_of S t) as [|temp mask|temp mask|mask|e|e| |e|n|n e|n|n|n| |e] eqn:Hph; [done|..].
  - destruct (alloc_fn _ _) eqn:?. injection Hs as <-. by eapply step_try.
  - destruct (alloc_locked _ _ _ _ _ _) as [[[r p] s]| | |] eqn:Hl; cbn [on_done] in Hs; [|done..]. injection Hs as <-. by eapply step_pool.
  - destruct (Z.eqb_spec (t_state (tasks (wq S) t)) TASK_RUNNING); [|done]. injection Hs as <-. by eapply step_resume.
  - injection Hs as <-. by eapply step_test.
  - destruct (free_locked _ _) as [[added p]| | |] eqn:?; cbn [on_done] in Hs; [|done..]. injection Hs as <-. by eapply step_lock.
  - destruct (wake_up _ _) eqn:?; cbn [on_done] in Hs; [|done..]. injection Hs as <-. by eapply step_wake.
  - injection Hs as <-. by eapply step_give.
  - destruct (resize_start _ _) as [[r p]| | |] eqn:?; cbn [on_done] in Hs; [|done..]. injection Hs as <-. by eapply step_resize_start.
  - injection Hs as <-. by eapply step_shrink_free.
  - destruct (shrink_locked _ _) as [[r p]| | |] eqn:?; cbn [on_done] in Hs; [|done..]. injection Hs as <-. by eapply step_shrink_lock.
  - destruct (kmalloc_array_node _ _ _) eqn:?. injection Hs as <-. by eapply step_grow_alloc.
  - destruct (grow_locked _ _) as [[more p]| | |] eqn:?; cbn [on_done] in Hs; [|done..]. injection Hs as <-. by eapply step_grow_lock.
  - destruct (alloc_fn _ _) eqn:?. injection Hs as <-. by eapply step_fill_alloc.
  - destruct (fill_locked _ _) as [[r p]| | |] eqn:?; cbn [on_done] in Hs; [|done..]. injection Hs as <-. by eapply step_fill_lock.
Qed.

(** The function makes the steps of the relation and all of them. *)
Lemma exec_step S S' : step S S' <-> exists ta, exec S ta = Some S'.
Proof using Type.
  split.
  - intros Hst. destruct Hst as [S t g mask temp Ht Hph Hm|S t temp mask e b Ht Hph Ha|S t temp mask r p s Ht Hph Hl|S t m Ht Hph|S t m Ht Hph Hr|
      S t e Ht Hph He Hno|S t e Ht Hph|S t e added p Ht Hph Hl|S t s Ht Hph Hw|S t e Ht Hph|S t n Ht Hph Hmay Hn|S t n r p Ht Hph Hr|S t n e Ht Hph|
      S t n r p Ht Hph Hs|S t n ok b Ht Hph Ha|S t n more p Ht Hph Hg|S t e b Ht Hph Ha|S t e r p Ht Hph Hf];
      [exists (t, CallAlloc g)|exists (t, Continue)|exists (t, Continue)|exists (t, Expire)|exists (t, Continue)|exists (t, CallFree e)|exists (t, Continue)|exists (t, Continue)|exists (t, Continue)|exists (t, Continue)|exists (t, CallResize n)|exists (t, Continue)..];
      unfold exec; (destruct (decide (t ∈ procs)) as [_|]; [|done]); unfold continue; rewrite Hph; rewrite ?Hm, ?Ha, ?Hl, ?Hw, ?Hr, ?Hs, ?Hg, ?Hf, ?Z.eqb_refl; try done.
    + rewrite decide_True; [done|]. split; [done|]. by apply list.Forall_forall.
    + by rewrite decide_True.
  - intros [[t a] He]. unfold exec in He. destruct (decide (t ∈ procs)) as [Ht|]; [|done]. destruct a as [g|e|n| |]; [..|by eapply continue_step];
      destruct (phase_of S t) eqn:Hph; try done.
    + destruct (alloc_masks g) as [mask temp] eqn:Hm. injection He as <-. by eapply step_alloc.
    + destruct (decide _) as [[Hu Hno]|]; [|done]. injection He as <-. eapply step_free; try done. by apply list.Forall_forall.
    + destruct (decide _) as [[Hm Hn]|]; [|done]. injection He as <-. by eapply step_resize.
    + injection He as <-. by eapply step_timeout.
Qed.

Lemma exec_sound S ta S' : exec S ta = Some S' -> step S S'.
Proof using Type. intros He. apply exec_step. by exists ta. Qed.
End Run.

(** ** A configuration *)

(** A backend with memory for so many more elements, and those that are out. *)
#[export] Instance small_backend : Backend := {|
  backend := Z * list Z;
  alloc_fn b _ := if b.1 <=? 0 then (0, b) else let e := fold_right Z.max 0 b.2 + 1 in (e, (b.1 - 1, e :: b.2));
  free_fn b e := (b.1 + 1, filter (fun x => x <> e) b.2);
  kmalloc_array_node b _ _ := (true, b);
|}.

Lemma below_max (l : list Z) : 0 <= fold_right Z.max 0 l /\ forall x, x ∈ l -> x <= fold_right Z.max 0 l.
Proof.
  induction l as [|y l [IH1 IH2]]; simpl; [split; [lia|by intros x ?%elem_of_nil]|]. split; [lia|]. intros x. rewrite elem_of_cons. intros [->|Hx]; [lia|].
  specialize (IH2 x Hx). lia.
Qed.

#[export] Instance small_backend_spec : BackendSpec.
Proof.
  refine (Build_BackendSpec small_backend (fun (b : Z * list Z) (x : Z) => x ∈ b.2) _ _ _).
  - intros [n l] g e [n' l']. cbn [alloc_fn small_backend fst snd]. destruct (below_max l) as [Hge Hle]. destruct (n <=? 0); intros [= <- <- <-]; [by left|right].
    split_and!; [lia| |].
    + intros Hin. specialize (Hle _ Hin). lia.
    + intros x. by rewrite elem_of_cons.
  - intros [n l] e x _. cbn [free_fn small_backend fst snd]. rewrite list_elem_of_filter. tauto.
  - intros b n g ok b'. cbn [kmalloc_array_node small_backend]. by intros [= <- <-].
Defined.

#[export] Instance no_other_wakers : WakeFunctions := {| wake_function _ s _ _ _ _ := (s, 0) |}.

Definition idle_queue : wq_state := WqState (fun _ => WqEntry 0 0 DefaultWake) [] (fun _ => Task TASK_RUNNING false false false).

(** What [mempool_init_node] makes of [n] elements with memory for [n + more]. *)
Definition stocked `{Tasks} (n more : Z) : system :=
  match mempool_init_node (n + more, []) (Mempool 0 0 None) n GFP_KERNEL with
  | Done (_, b, p) => Sys b p idle_queue [] (fun _ => Idle)
  | _ => Sys (0, []) (Mempool 0 0 None) idle_queue [] (fun _ => Idle)
  end.

Definition three_tasks (resizes : Z -> Prop) : Tasks :=
  {| wait_entry t := 2 * t; bookmark_of t := 2 * t + 1; procs := [1; 2; 3]; may_resize := resizes |}.

Lemma three_tasks_spec resizes : @TasksSpec (three_tasks resizes).
Proof.
  split; cbn [wait_entry bookmark_of procs three_tasks]; [lia|lia|]. apply (bool_decide_unpack _). vm_compute. exact I.
Qed.

(** *** Two tasks and one element *)
Module Quiet.
#[local] Instance quiet : Tasks := three_tasks (fun _ => False).
#[local] Instance quiet_spec : TasksSpec := three_tasks_spec _.
#[local] Instance quiet_dec t : Decision (may_resize t) := right (fun F => F).

Lemma nobody t : ~ may_resize t.
Proof. exact (fun F => F). Qed.

Lemma stocked_made : made (stocked 1 0) 1.
Proof. split; [by split|lia|]. exists (1, []), GFP_KERNEL. split; [intros x Hx; by apply elem_of_nil in Hx|reflexivity]. Qed.

(** Task 1 takes the element; task 2 tries with both masks and sleeps. *)
Definition one_sleeps : list (Z * action) :=
  [(1, CallAlloc GFP_KERNEL); (1, Continue); (1, Continue); (2, CallAlloc GFP_KERNEL); (2, Continue); (2, Continue); (2, Continue); (2, Continue)].

Definition sleeping : system := default (stocked 1 0) (run exec (stocked 1 0) one_sleeps).

Lemma sleeping_reached : rtc step (stocked 1 0) sleeping.
Proof. apply (run_default step exec exec_sound one_sleeps). vm_compute. exact I. Qed.

(** A pool of one element that is in use, with one task asleep. *)
Lemma mempool_elements_safe_witness : exists l, elements (pool sleeping) = Some l /\ forall t, returns sleeping t.
Proof.
  destruct (mempool_elements_safe (stocked 1 0) sleeping 1 stocked_made (no_one nobody) sleeping_reached) as (l & Hl & _ & _ & _ & _ & _ & Hr).
  exists l. exact (conj Hl Hr).
Defined.

(** With task 2 asleep, nobody on the way to wake it, the element is in use. *)
Lemma mempool_reserve_guaranteed_witness : phase_of sleeping 2 = Asleep (alloc_masks GFP_KERNEL).1 /\ t_state (tasks (wq sleeping) 2) <> TASK_RUNNING /\
  ((exists w, phase_of sleeping w = Wake) \/ (curr_nr (pool sleeping) = 0 /\ 1 <= Z.of_nat (length (used sleeping)))).
Proof.
  assert (Hph : phase_of sleeping 2 = Asleep (alloc_masks GFP_KERNEL).1) by (vm_compute; reflexivity).
  assert (Hs : t_state (tasks (wq sleeping) 2) <> TASK_RUNNING) by (vm_compute; discriminate).
  split; [exact Hph|]. split; [exact Hs|].
  exact (proj2 (mempool_reserve_guaranteed (stocked 1 0) sleeping 1 stocked_made nobody sleeping_reached) 2 _ Hph Hs).
Defined.
End Quiet.

Definition two_left : backend := (2, []).

(** The third of three elements cannot be had. *)
Lemma mempool_create_destroy_witness : exists r b1, mempool_create_node true two_left 3 GFP_KERNEL = Done (r, b1) /\ r = None.
Proof.
  assert (Hn : 0 <= 3 < 2 ^ 31) by lia. destruct (mempool_create_destroy true two_left 3 GFP_KERNEL Hn) as (r & b1 & Hr & _). exists r, b1. split; [exact Hr|].
  assert (Hv : mempool_create_node true two_left 3 GFP_KERNEL = Done (None, two_left)) by (vm_compute; reflexivity). congruence.
Defined.

(** *** Two tasks resize the pool *)
Module Race.
#[local] Instance race : Tasks := three_tasks (fun _ => True).
#[local] Instance race_dec t : Decision (may_resize t) := left I.

Lemma four_made : made (stocked 4 1) 4.
Proof. split; [by split|lia|]. exists (5, []), GFP_KERNEL. split; [intros x Hx; by apply elem_of_nil in Hx|reflexivity]. Qed.

(** Task 1 starts to shrink a pool of four elements to three; while it frees an element,
    task 2 shrinks the pool to one and lets it grow to two, with an array of two words;
    then task 1 sets [min_nr] to three.  Task 3 allocates an element and frees it. *)
Definition two_resize : list (Z * action) :=
  [(1, CallResize 3); (1, Continue);
   (2, CallResize 1); (2, Continue); (2, Continue); (2, Continue); (2, Continue); (2, Continue);
   (2, CallResize 2); (2, Continue); (2, Continue); (2, Continue); (2, Continue); (2, Continue);
   (1, Continue); (1, Continue);
   (3, CallAlloc GFP_KERNEL); (3, Continue); (3, CallFree 6); (3, Continue)].

Definition raced : system := default (stocked 4 1) (run exec (stocked 4 1) two_resize).
(** C35: [mempool_resize] looks at [min_nr] before it drops the lock to free elements, and
    not again afterwards: when two tasks resize a pool at once, [min_nr] can end up larger
    than the array.  The next [mempool_free] then finds fewer than [min_nr] elements and
    writes behind the array.  (With one task that resizes this cannot happen, see
    [mempool_elements_safe].) *)
Theorem resize_race_overflows : made (stocked 4 1) 4 /\ rtc step (stocked 4 1) raced /\
  phase_of raced 3 = FreeLock 6 /\ min_nr (pool raced) = 3 /\ curr_nr (pool raced) = 2 /\ elements (pool raced) = Some [1; 5] /\
  free_locked (pool raced) 6 = Bug.
Proof.
  split; [exact four_made|]. split; [|vm_compute; split_and!; reflexivity]. apply (run_default step exec exec_sound two_resize). vm_compute. exact I.
Qed.
End Race.
