(* ===== verification/DmaPool.v ===== *)
(** * DMA pools: data and operations

    [src/new/mm/dmapool.c].  A pool cuts pages of coherent memory into blocks of one
    size.  The free blocks of a page are chained through the memory itself: the first
    four bytes of a free block hold the offset of the next one. *)

From S2P Require Import Prelude Gfp.

(** From headers outside of the tree, and the configuration. *)
Class DmaConfig := {
  PAGE_SIZE : Z;
  ALIGN : Z -> Z -> Z;
  DMAPOOL_DEBUG : bool;
  POOL_POISON_FREED : Z;
  POOL_POISON_ALLOCATED : Z;
}.

(** [dma_alloc_coherent] answers with a virtual address and one for the device, or with
    nothing; [kmalloc] is for the headers. *)
Class Coherent := {
  coherent : Type;
  dma_alloc_coherent : coherent -> Z -> Z -> option (Z * Z) * coherent;
  dma_free_coherent : coherent -> Z -> Z -> Z -> coherent;
  kmalloc : coherent -> Z -> bool * coherent;
  (** what is in fresh memory at a virtual address *)
  fresh_byte : coherent -> Z -> Z;
}.

Record dma_pool := DmaPool { size : Z; allocation : Z; boundary : Z }.

(** [data] are the bytes of the page. *)
Record dma_page := DmaPage { vaddr : Z; dma : Z; in_use : Z; offset : Z; data : Z -> Z }.

(** The pools of a device, and whether it has the file that shows them. *)
Record device := Device { dma_pools : list Z; pools_file : bool }.

(** ** Memory of a page *)

(** An [int] in a page of [n] bytes; nothing may be read or written outside. *)
Definition byte_of (v i : Z) : Z := Z.land (Z.shiftr v (8 * i)) 0xff.
Definition load_int (n : Z) (m : Z -> Z) (a : Z) : outcome Z :=
  if (0 <=? a) && (a + 4 <=? n) then
    Done (s32 (m a + Z.shiftl (m (a + 1)) 8 + Z.shiftl (m (a + 2)) 16 + Z.shiftl (m (a + 3)) 24))
  else Bug.
Definition store_int (n : Z) (m : Z -> Z) (a v : Z) : outcome (Z -> Z) :=
  if (0 <=? a) && (a + 4 <=? n) then
    Done (fun x => if (a <=? x) && (x <? a + 4) then byte_of v (x - a) else m x)
  else Bug.
Definition memset (n : Z) (m : Z -> Z) (a c len : Z) : outcome (Z -> Z) :=
  if (0 <=? a) && (a + len <=? n) then Done (fun x => if (a <=? x) && (x <? a + len) then c else m x) else Bug.

Definition set_data (p : dma_page) (m : Z -> Z) : dma_page := DmaPage (vaddr p) (dma p) (in_use p) (offset p) m.

Section DmaPool.
Context `{DmaConfig} `{Coherent}.

(** ** Making a pool *)

(** [ok] says whether there is memory for the pool and [err] what [device_create_file]
    answers; [id] is the pool in the list of the device. *)
Definition dma_pool_create (dev : device) (id : Z) (ok : bool) (err : Z) (size align boundary : Z) : option dma_pool * device :=
  if negb (align =? 0) && bool_of (Z.land align (u64 (align - 1))) then (None, dev)
  else
    let align := if align =? 0 then 1 else align in
    if size =? 0 then (None, dev)
    else
      let size := if size <? 4 then 4 else size in
      let size := if negb (size mod align =? 0) then ALIGN size align else size in
      let allocation := Z.max size PAGE_SIZE in
      if bool_of boundary && ((boundary <? size) || bool_of (Z.land boundary (u64 (boundary - 1)))) then (None, dev)
      else
        let boundary := if bool_of boundary then boundary else allocation in
        if negb ok then (None, dev)
        else
          let retval := DmaPool size allocation boundary in
          let empty := match dma_pools dev with [] => true | _ => false end in
          let dev' := Device (id :: dma_pools dev) (pools_file dev) in
          if empty then
            if bool_of err then (None, Device (filter (fun x => x <> id) (dma_pools dev')) (pools_file dev'))
            else (Some retval, Device (dma_pools dev') true)
          else (Some retval, dev').

(** ** Pages *)

Fixpoint initialise_loop (fuel : nat) (pool : dma_pool) (m : Z -> Z) (offset next_boundary : Z) : outcome (Z -> Z) :=
  match fuel with
  | O => NoFuel
  | S fuel =>
      let next := u32 (u64 (offset + size pool)) in
      let cross := u64 (next + size pool) >=? next_boundary in
      let '(next, next_boundary) := if cross then (next_boundary, u32 (u64 (next_boundary + boundary pool))) else (next, next_boundary) in
      m ← store_int (allocation pool) m offset next;
      if next <? allocation pool then initialise_loop fuel pool m next next_boundary else Done m
  end.
Definition pool_initialise_page (pool : dma_pool) (page : dma_page) : outcome dma_page :=
  m ← initialise_loop (S (Z.to_nat (allocation pool))) pool (data page) 0 (u32 (boundary pool));
  Done (set_data page m).

Definition pool_alloc_page (c : coherent) (pool : dma_pool) (mem_flags : Z) : outcome (option dma_page * coherent) :=
  let '(ok, c) := kmalloc c mem_flags in
  if negb (ok : bool) then Done (None, c)
  else
    match dma_alloc_coherent c (allocation pool) mem_flags with
    | (Some (v, d), c) =>
        let m := fun x => fresh_byte c (v + x) in
        m ← (if DMAPOOL_DEBUG then memset (allocation pool) m 0 POOL_POISON_FREED (allocation pool) else Done m);
        page ← pool_initialise_page pool (DmaPage v d 0 0 m);
        Done (Some (DmaPage (vaddr page) (dma page) 0 0 (data page)), c)
    | (None, c) => Done (None, c)
    end.

Definition is_page_busy (page : dma_page) : bool := negb (in_use page =? 0).

(** The memory of the page is gone afterwards. *)
Definition pool_free_page (c : coherent) (pool : dma_pool) (page : dma_page) : coherent :=
  dma_free_coherent c (allocation pool) (vaddr page) (dma page).

Fixpoint destroy_pages (c : coherent) (pool : dma_pool) (page_list : list dma_page) : coherent :=
  match page_list with
  | [] => c
  | page :: l => destroy_pages (if is_page_busy page then c else pool_free_page c pool page) pool l
  end.

Definition dma_pool_destroy (c : coherent) (dev : device) (id : Z) (pool : option (dma_pool * list dma_page)) : coherent * device :=
  match pool with
  | None => (c, dev)
  | Some (pool, page_list) =>
      let pools := filter (fun x => x <> id) (dma_pools dev) in
      let empty := match pools with [] => true | _ => false end in
      (destroy_pages c pool page_list, Device pools (if empty then false else pools_file dev))
  end.

(** ** Allocating *)

(** The first page with a free block, and the pages in front of it. *)
Fixpoint find_ready (pool : dma_pool) (page_list : list dma_page) : option (list dma_page * dma_page * list dma_page) :=
  match page_list with
  | [] => None
  | page :: l =>
      if offset page <? allocation pool then Some ([], page, l)
      else match find_ready pool l with Some (l1, p, l2) => Some (page :: l1, p, l2) | None => None end
  end.

(** The debugging code reports bytes of a free block that are not poison. *)
Fixpoint corrupted_loop (fuel : nat) (pool : dma_pool) (m : Z -> Z) (a i : Z) : bool :=
  match fuel with
  | O => false
  | S fuel => if i <? size pool then if m (a + i) =? POOL_POISON_FREED then corrupted_loop fuel pool m a (i + 1) else true else false
  end.

(** From [ready] on: the block, its handle, whether it was reported, and the page. *)
Definition alloc_ready (pool : dma_pool) (page : dma_page) (mem_flags : Z) : outcome (Z * Z * bool * dma_page) :=
  let off := offset page in
  next ← load_int (allocation pool) (data page) off;
  let retval := u64 (off + vaddr page) in
  let handle := u64 (off + dma page) in
  let report := DMAPOOL_DEBUG && corrupted_loop (Z.to_nat (size pool)) pool (data page) off 4 in
  let zero := bool_of (Z.land mem_flags ___GFP_ZERO) in
  m ← (if DMAPOOL_DEBUG && negb zero then memset (allocation pool) (data page) off POOL_POISON_ALLOCATED (size pool) else Done (data page));
  m ← (if zero then memset (allocation pool) m off 0 (size pool) else Done m);
  Done (retval, handle, report, DmaPage (vaddr page) (dma page) (u32 (in_use page + 1)) (u32 next) m).

(** The flags for a new page. *)
Definition page_flags (mem_flags : Z) : Z := Z.land mem_flags (Z.lnot ___GFP_ZERO).

(** ** Freeing *)
Fixpoint pool_find_page (pool : dma_pool) (page_list : list dma_page) (d : Z) : option (list dma_page * dma_page * list dma_page) :=
  match page_list with
  | [] => None
  | page :: l =>
      if negb (d <? dma page) && (d - dma page <? allocation pool) then Some ([], page, l)
      else match pool_find_page pool l d with Some (l1, p, l2) => Some (page :: l1, p, l2) | None => None end
  end.

Inductive freed := Freed | BadDma | BadVaddr | AlreadyFree.

(** Whether [off] is in the chain of free blocks. *)
Fixpoint chain_loop (fuel : nat) (pool : dma_pool) (m : Z -> Z) (off chain : Z) : outcome bool :=
  match fuel with
  | O => NoFuel
  | S fuel =>
      if chain <? allocation pool then
        if negb (chain =? off) then
          next ← load_int (allocation pool) m chain;
          chain_loop fuel pool m off (u32 next)
        else Done true
      else Done false
  end.

Definition free_block (pool : dma_pool) (page : dma_page) (v off : Z) : outcome dma_page :=
  m ← (if DMAPOOL_DEBUG then memset (allocation pool) (data page) (v - vaddr page) POOL_POISON_FREED (size pool) else Done (data page));
  m ← store_int (allocation pool) m (v - vaddr page) (offset page);
  Done (DmaPage (vaddr page) (dma page) (u32 (in_use page - 1)) off m).

Definition dma_pool_free (pool : dma_pool) (page_list : list dma_page) (v d : Z) : outcome (freed * list dma_page) :=
  match pool_find_page pool page_list d with
  | None => Done (BadDma, page_list)
  | Some (l1, page, l2) =>
      let off := u32 (u64 (v - vaddr page)) in
      if DMAPOOL_DEBUG && negb (u64 (d - dma page) =? off) then Done (BadVaddr, page_list)
      else
        already ← (if DMAPOOL_DEBUG then chain_loop (S (Z.to_nat (allocation pool))) pool (data page) off (offset page) else Done false);
        if already : bool then Done (AlreadyFree, page_list)
        else
          page ← free_block pool page v off;
          Done (Freed, l1 ++ page :: l2)
  end.
End DmaPool.
