(* ===== verification/DmaPoolInv.v ===== *)
(** * DMA pools: blocks of a page

    Which offsets are blocks, and the chain of free blocks in the memory of a page:
    what the operations on one page do to it. *)

From S2P Require Import Prelude Gfp DmaPool.
#[local] Open Scope Z_scope.

(** ** Integers in memory *)

Lemma byte_of_div v i : 0 <= i -> byte_of v i = v / 2 ^ (8 * i) mod 256.
Proof. intros Hi. unfold byte_of. rewrite Z.shiftr_div_pow2 by lia. change 0xff with (Z.ones 8). by rewrite Z.land_ones by lia. Qed.

Lemma load_ext n m m' a : (forall x, a <= x < a + 4 -> m x = m' x) -> load_int n m a = load_int n m' a.
Proof. intros He. unfold load_int. by rewrite !He by lia. Qed.

Lemma bytes_sum v : 0 <= v < 2 ^ 32 -> byte_of v 0 + Z.shiftl (byte_of v 1) 8 + Z.shiftl (byte_of v 2) 16 + Z.shiftl (byte_of v 3) 24 = v.
Proof.
  intros Hv. rewrite !byte_of_div, !Z.shiftl_mul_pow2 by lia. change (8 * 0) with 0. change (8 * 1) with 8. change (8 * 2) with 16. change (8 * 3) with 24.
  change (2 ^ 0) with 1. change (2 ^ 8) with 256. change (2 ^ 16) with 65536. change (2 ^ 24) with 16777216. change (2 ^ 32) with 4294967296 in Hv. 
  Z.div_mod_to_equations. lia.
Qed.

Lemma u32_s32 v : 0 <= v < 2 ^ 32 -> u32 (s32 v) = v.
Proof. intros Hv. unfold u32, s32. rewrite Zminus_mod_idemp_l. replace (v + 2 ^ 31 - 2 ^ 31) with v by lia. by apply Z.mod_small. Qed.

(** What [store_int] writes [load_int] reads; other bytes stay. *)
Lemma store_ok n m a v : 0 <= a -> a + 4 <= n -> 0 <= v < 2 ^ 32 ->
  exists m', store_int n m a v = Done m' /\ (exists w, load_int n m' a = Done w /\ u32 w = v) /\ forall x, x < a \/ a + 4 <= x -> m' x = m x.
Proof.
  intros Ha Hn Hv. unfold store_int, load_int. rewrite (proj2 (Z.leb_le 0 a)), (proj2 (Z.leb_le (a + 4) n)) by lia. cbn [andb]. eexists. split; [done|]. split.
  - eexists. split; [done|]. rewrite !(proj2 (Z.leb_le a _)), !(proj2 (Z.ltb_lt _ (a + 4))) by lia. cbn [andb].
    replace (a - a) with 0 by lia. replace (a + 1 - a) with 1 by lia. replace (a + 2 - a) with 2 by lia. replace (a + 3 - a) with 3 by lia.
    rewrite bytes_sum by done. by apply u32_s32.
  - intros x Hx. destruct (Z.leb_spec a x), (Z.ltb_spec x (a + 4)); try done. lia.
Qed.

Lemma memset_ok n m a c len : 0 <= a -> a + len <= n ->
  exists m', memset n m a c len = Done m' /\ (forall x, a <= x < a + len -> m' x = c) /\ forall x, x < a \/ a + len <= x -> m' x = m x.
Proof.
  intros Ha Hn. unfold memset. rewrite (proj2 (Z.leb_le 0 a)), (proj2 (Z.leb_le (a + len) n)) by lia. cbn [andb]. eexists. split; [done|].
  split; intros x Hx; destruct (Z.leb_spec a x), (Z.ltb_spec x (a + len)); try done; lia.
Qed.

Lemma filter_none (P : Z -> Prop) `{forall x, Decision (P x)} (l : list Z) : (forall x, x ∈ l -> ~ P x) -> filter P l = [].
Proof.
  intros Hl. induction l as [|x l IH]; [done|]. rewrite filter_cons_False by (apply Hl, list_elem_of_here). apply IH. intros y Hy. by apply Hl, list_elem_of_further.
Qed.

(** ** Blocks *)
Section Blocks.
Context (pool : dma_pool).

(** A block starts at a multiple of the size from the last boundary; but behind the
    first one it has to end before the next boundary. *)
Definition is_block (o : Z) : bool :=
  let r := o mod boundary pool in (r mod size pool =? 0) && ((r =? 0) || (r + size pool <? boundary pool)).

Definition blocks_from (o : Z) : list Z := filter (fun x => is_block x = true) (seqZ o (allocation pool - o)).
Definition blocks : list Z := blocks_from 0.

Record pool_wf : Prop := {
  pw_size : 4 <= size pool;
  pw_boundary : size pool <= boundary pool;
  pw_divides : (boundary pool | allocation pool);
  pw_alloc : 0 < allocation pool < 2 ^ 31;
}.

Hypothesis Hwf : pool_wf.

Lemma elem_blocks o : o ∈ blocks <-> 0 <= o < allocation pool /\ is_block o = true.
Proof using Type. unfold blocks, blocks_from. rewrite list_elem_of_filter, elem_of_seqZ. split; intros [? ?]; split; try done; lia. Qed.

Lemma block_facts o : is_block o = true -> exists k j, o = k * boundary pool + j * size pool /\ 0 <= j /\ j * size pool + size pool <= boundary pool /\ k = o / boundary pool /\
  (j = 0 \/ j * size pool + size pool < boundary pool).
Proof using Hwf.
  destruct Hwf as [Hs Hb _ _]. unfold is_block. cbv zeta. intros [Hm Hr]%andb_prop. apply Z.eqb_eq in Hm.
  pose proof (Z.div_mod o (boundary pool) ltac:(lia)) as Ho. pose proof (Z.div_mod (o mod boundary pool) (size pool) ltac:(lia)) as Hr'. rewrite Hm, Z.add_0_r in Hr'.
  pose proof (Z.mod_pos_bound o (boundary pool) ltac:(lia)) as Hbd.
  exists (o / boundary pool), (o mod boundary pool / size pool). rewrite (Z.mul_comm (o mod boundary pool / size pool)), <- Hr'.
  split; [lia|]. split; [apply Z.div_pos; lia|]. apply orb_prop in Hr as [Hr%Z.eqb_eq|Hr%Z.ltb_lt].
  - rewrite Hr. split_and!; [lia|done|]. left. by rewrite Z.div_0_l by lia.
  - split_and!; [lia|done|]. right. lia.
Qed.

Lemma block_inside o : o ∈ blocks -> 0 <= o /\ o + size pool <= allocation pool.
Proof using Hwf.
  rewrite elem_blocks. intros [Ho Hb]. destruct (block_facts o Hb) as (k & j & -> & Hj & Hf & _). destruct Hwf as [Hs Hbd [q Hq] _].
  split; [lia|]. rewrite Hq in *. assert (k < q) by nia. nia.
Qed.

(** Different blocks do not overlap. *)
Lemma block_apart o o' : o ∈ blocks -> o' ∈ blocks -> o <> o' -> o + size pool <= o' \/ o' + size pool <= o.
Proof using Hwf.
  rewrite !elem_blocks. intros [Ho Hb] [Ho' Hb'] Hne. destruct Hwf as [Hs Hbd _ _].
  destruct (block_facts o Hb) as (k & j & -> & Hj & Hf & _). destruct (block_facts o' Hb') as (k' & j' & -> & Hj' & Hf' & _).
  destruct (Z.lt_trichotomy k k') as [|[->|]]; [left; nia| |right; nia].
  destruct (Z.lt_trichotomy j j') as [|[->|]]; [left; nia|done|right; nia].
Qed.

Lemma blocks_nodup : NoDup blocks.
Proof using Type. apply list.NoDup_filter, NoDup_seqZ. Qed.

Lemma blocks_length : Z.of_nat (length blocks) < 2 ^ 31.
Proof using Hwf.
  unfold blocks, blocks_from. pose proof (length_filter (fun x => is_block x = true) (seqZ 0 (allocation pool - 0))) as Hl. rewrite length_seqZ in Hl. pose proof (pw_alloc Hwf). lia.
Qed.

(** *** The block behind a block *)
Definition after (o : Z) : Z :=
  let r := o mod boundary pool in if boundary pool <=? r + 2 * size pool then o - r + boundary pool else o + size pool.

Lemma after_bounds o : 0 <= o < allocation pool -> is_block o = true -> o < after o <= allocation pool.
Proof using Hwf.
  destruct Hwf as [Hs Hbd [q Hq] Ha]. intros Ho Hb. unfold after. cbv zeta. pose proof (Z.div_mod o (boundary pool) ltac:(lia)) as Hd.
  pose proof (Z.mod_pos_bound o (boundary pool) ltac:(lia)) as Hm. assert (o / boundary pool < q) by (apply Z.div_lt_upper_bound; lia).
  destruct (Z.leb_spec (boundary pool) (o mod boundary pool + 2 * size pool)); nia.
Qed.

Lemma mod_add_small o d : 0 < boundary pool -> 0 <= o mod boundary pool + d < boundary pool -> (o + d) mod boundary pool = o mod boundary pool + d.
Proof using Type. intros Hb Hd. rewrite <- (Zplus_mod_idemp_l o d). by apply Z.mod_small. Qed.

Lemma after_block o : is_block o = true -> is_block (after o) = true.
Proof using Hwf.
  destruct Hwf as [Hs Hbd _ _]. intros Hb. unfold after. cbv zeta. unfold is_block in *. cbv zeta in *. apply andb_prop in Hb as [Hm Hr]. apply Z.eqb_eq in Hm.
  destruct (Z.leb_spec (boundary pool) (o mod boundary pool + 2 * size pool)) as [Hx|Hx].
  - pose proof (Z.div_mod o (boundary pool) ltac:(lia)). replace (o - o mod boundary pool + boundary pool) with ((o / boundary pool + 1) * boundary pool) by lia.
    rewrite Z.mod_mul by lia. by rewrite Z.mod_0_l by lia.
  - pose proof (Z.mod_pos_bound o (boundary pool) ltac:(lia)). rewrite mod_add_small by lia. rewrite <- (Zplus_mod_idemp_l (o mod boundary pool)), Hm, Z.add_0_l, Z_mod_same_full, Z.eqb_refl. cbn [andb]. rewrite (proj2 (Z.ltb_lt (o mod boundary pool + size pool + size pool) (boundary pool))) by lia. by rewrite orb_true_r.
Qed.

Lemma no_block_between o x : 0 <= o -> is_block o = true -> o < x < after o -> is_block x = false.
Proof using Hwf.
  destruct Hwf as [Hs Hbd _ _]. unfold after. cbv zeta. intros Ho Hb Hx. unfold is_block in *. cbv zeta in *. apply andb_prop in Hb as [Hm Hr]. apply Z.eqb_eq in Hm.
  pose proof (Z.mod_pos_bound o (boundary pool) ltac:(lia)) as Hp.
  replace x with (o + (x - o)) by lia. destruct (Z.leb_spec (boundary pool) (o mod boundary pool + 2 * size pool)) as [Hc|Hc]; rewrite mod_add_small by lia;
    rewrite <- (Zplus_mod_idemp_l (o mod boundary pool)), Hm, Z.add_0_l.
  - destruct (Z.eqb_spec ((x - o) mod size pool) 0) as [Hz|]; [|done]. cbn [andb]. pose proof (Z.div_mod (x - o) (size pool) ltac:(lia)) as Hd.
    assert (size pool <= x - o) by (rewrite Hz in Hd; destruct (Z.le_gt_cases ((x - o) / size pool) 0); nia). apply orb_false_intro; [apply Z.eqb_neq; lia|apply Z.ltb_ge; lia].
  - rewrite Z.mod_small by lia. rewrite (proj2 (Z.eqb_neq (x - o) 0)) by lia. done.
Qed.

Lemma blocks_from_step o : 0 <= o < allocation pool -> is_block o = true -> blocks_from o = o :: blocks_from (after o).
Proof using Hwf.
  intros Ho Hb. pose proof (after_bounds o Ho Hb) as Ha. unfold blocks_from. rewrite seqZ_cons by lia. rewrite filter_cons_True by done. f_equal.
  replace (Z.pred (allocation pool - o)) with ((after o - o - 1) + (allocation pool - after o)) by lia. rewrite seqZ_app by lia. rewrite list.filter_app.
  replace (Z.succ o + (after o - o - 1)) with (after o) by lia. rewrite filter_none; [done|].
  intros x. rewrite elem_of_seqZ. intros Hx. rewrite (no_block_between o x); [done|lia|done|lia].
Qed.

Lemma blocks_from_end : blocks_from (allocation pool) = [].
Proof using Type. unfold blocks_from. by rewrite Z.sub_diag. Qed.

Lemma zero_block : is_block 0 = true.
Proof using Hwf. destruct Hwf. unfold is_block. cbv zeta. rewrite Z.mod_0_l by lia. by rewrite Z.mod_0_l by lia. Qed.

(** ** The chain of free blocks *)
Fixpoint chain (m : Z -> Z) (o : Z) (l : list Z) : Prop :=
  match l with
  | [] => allocation pool <= o < 2 ^ 32
  | x :: l => o = x /\ exists w, load_int (allocation pool) m x = Done w /\ chain m (u32 w) l
  end.

Lemma free_chain_ext m m' o l : (forall y x, y ∈ l -> y <= x < y + 4 -> m x = m' x) -> chain m o l -> chain m' o l.
Proof using Type.
  revert o. induction l as [|y l IH]; intros o He; [done|]. cbn [chain]. intros [-> (w & Hw & Hc)]. split; [done|]. exists w. split.
  - rewrite <- Hw. symmetry. apply load_ext. intros x Hx. by apply (He y), Hx; apply list_elem_of_here.
  - apply IH; [|done]. intros y' x Hy. apply He. by apply list_elem_of_further.
Qed.

Lemma initialise_loop_ok fuel : forall m o, 0 <= o < allocation pool -> is_block o = true -> (Z.to_nat (allocation pool - o) < fuel)%nat ->
  exists m', initialise_loop fuel pool m o (o - o mod boundary pool + boundary pool) = Done m' /\ chain m' o (blocks_from o) /\
    forall x, (forall y, y ∈ blocks_from o -> x < y \/ y + 4 <= x) -> m' x = m x.
Proof using Hwf.
  induction fuel as [|fuel IH]; intros m o Ho Hb Hf; [lia|]. pose proof (after_bounds o Ho Hb) as Ha. pose proof (after_block o Hb) as Hab.
  pose proof (blocks_from_step o Ho Hb) as Hst. destruct Hwf as [Hs Hbd Hdv Hal]. cbn [initialise_loop].
  assert (Hin : o + size pool <= allocation pool) by (apply (block_inside o); apply elem_blocks; done).
  assert (Hba : boundary pool <= allocation pool) by (apply Z.divide_pos_le; [lia|done]).
  pose proof (Z.mod_pos_bound o (boundary pool) ltac:(lia)) as Hm. pose proof (Z.mod_le o (boundary pool) ltac:(lia) ltac:(lia)).
  assert (Hend : o - o mod boundary pool + boundary pool <= allocation pool).
  { pose proof (Z.div_mod o (boundary pool) ltac:(lia)). destruct Hdv as [q Hq]. assert (o / boundary pool < q) by (apply Z.div_lt_upper_bound; lia). nia. }
  rewrite (u64_small (o + size pool)) by (unfold is_u64; lia). rewrite (u32_small (o + size pool)) by lia. rewrite (u64_small (o + size pool + size pool)) by (unfold is_u64; lia).
  assert (Hnext : (if o + size pool + size pool >=? o - o mod boundary pool + boundary pool
     then (o - o mod boundary pool + boundary pool, u32 (u64 (o - o mod boundary pool + boundary pool + boundary pool)))
     else (o + size pool, o - o mod boundary pool + boundary pool)) = (after o, after o - after o mod boundary pool + boundary pool)).
  { unfold after. cbv zeta. rewrite Z.geb_leb. destruct (Z.leb_spec (boundary pool) (o mod boundary pool + 2 * size pool)) as [Hx|Hx].
    - rewrite (proj2 (Z.leb_le (o - o mod boundary pool + boundary pool) (o + size pool + size pool))) by lia. f_equal.
      rewrite u64_small, u32_small by (unfold is_u64; lia). pose proof (Z.div_mod o (boundary pool) ltac:(lia)).
      replace (o - o mod boundary pool + boundary pool) with ((o / boundary pool + 1) * boundary pool) by lia. rewrite Z.mod_mul by lia. lia.
    - rewrite (proj2 (Z.leb_gt (o - o mod boundary pool + boundary pool) (o + size pool + size pool))) by lia. f_equal. rewrite mod_add_small by lia. lia. }
  rewrite Hnext. destruct (store_ok (allocation pool) m o (after o)) as (m1 & -> & (w & Hw & Hu) & Hm1); [lia..|]. cbn [mbind outcome_bind].
  rewrite Hst. destruct (Z.ltb_spec (after o) (allocation pool)) as [Hlt|Hge].
  - destruct (IH m1 (after o)) as (m' & -> & Hc & Hm'); [lia|done|lia|]. exists m'. split; [done|].
    assert (Hfar : forall y, y ∈ blocks_from (after o) -> after o <= y) by (intros y; unfold blocks_from; rewrite list_elem_of_filter, elem_of_seqZ; lia).
    assert (Hgap : o + 4 <= after o) by (unfold after; cbv zeta; destruct (Z.leb_spec (boundary pool) (o mod boundary pool + 2 * size pool)); [|lia];
      destruct (block_facts o Hb) as (k & j & Hoj & Hj & Hjf & Hk & _); rewrite Z.mod_eq by lia; rewrite <- Hk; lia).
    split.
    + cbn [chain]. split; [done|]. exists w. rewrite Hu. split; [|done]. rewrite <- Hw. apply load_ext. intros x Hx. apply Hm'. intros y Hy%Hfar. lia.
    + intros x Hx. rewrite Hm', Hm1; [done| |].
      * specialize (Hx o (list_elem_of_here _ _)). lia.
      * intros y Hy. apply Hx. by apply list_elem_of_further.
  - assert (after o = allocation pool) as Hlast by lia. rewrite Hlast, blocks_from_end. exists m1. split; [done|]. split.
    + cbn [chain]. split; [done|]. exists w. split; [done|]. lia.
    + intros x Hx. apply Hm1. specialize (Hx o (list_elem_of_here _ _)). lia.
Qed.

Lemma initialise_page_ok page : exists m', pool_initialise_page pool page = Done (set_data page m') /\ chain m' 0 (blocks) /\
  forall x, (forall y, y ∈ blocks -> x < y \/ y + 4 <= x) -> m' x = data page x.
Proof using Hwf.
  destruct (initialise_loop_ok (S (Z.to_nat (allocation pool))) (data page) 0) as (m' & Hm' & Hc & Hr); [pose proof (pw_alloc Hwf); lia|apply zero_block|lia|].
  exists m'. unfold pool_initialise_page. assert (boundary pool <= allocation pool) by (apply Z.divide_pos_le; [apply Hwf|apply Hwf]).
  pose proof (pw_alloc Hwf). pose proof (pw_size Hwf). pose proof (pw_boundary Hwf).
  rewrite u32_small by lia. rewrite Z.mod_0_l in Hm' by lia. rewrite Z.sub_diag, Z.add_0_l in Hm'. by rewrite Hm'.
Qed.
End Blocks.

(** ** A page *)
Section Page.
Context `{DmaConfig}.
Context (pool : dma_pool) (Hwf : pool_wf pool).

(** Its free blocks in the order of the chain, and those in use. *)
Record page_ok (p : dma_page) (l u : list Z) : Prop := {
  pk_chain : chain pool (data p) (offset p) l;
  pk_blocks : l ++ u ≡ₚ blocks pool;
  pk_in_use : in_use p = Z.of_nat (length u);
  pk_poison : DMAPOOL_DEBUG = true -> forall o i, o ∈ l -> 4 <= i < size pool -> data p (o + i) = POOL_POISON_FREED;
}.

Lemma page_nodup p l u : page_ok p l u -> NoDup (l ++ u).
Proof using Type. intros Hp. rewrite (pk_blocks _ _ _ Hp). apply blocks_nodup. Qed.

Lemma page_block p l u o : page_ok p l u -> o ∈ l \/ o ∈ u -> o ∈ blocks pool.
Proof using Type. intros Hp Ho. rewrite <- (pk_blocks _ _ _ Hp). by apply elem_of_app. Qed.

Lemma page_apart p l u o o' : page_ok p l u -> o ∈ l -> o' ∈ u -> o + size pool <= o' \/ o' + size pool <= o.
Proof using Hwf.
  intros Hp Ho Ho'. apply (block_apart pool Hwf); [by apply (page_block p l u); [|left]|by apply (page_block p l u); [|right]|].
  intros ->. pose proof (page_nodup _ _ _ Hp) as Hnd. apply list.NoDup_app in Hnd as (_ & Hd & _). by apply (Hd o').
Qed.

Lemma page_in_use p l u : page_ok p l u -> in_use p <= Z.of_nat (length (blocks pool)).
Proof using Type. intros Hp. rewrite (pk_in_use _ _ _ Hp), <- (pk_blocks _ _ _ Hp), length_app. lia. Qed.

(** Whether the page has a free block. *)
Lemma page_ready p l u : page_ok p l u -> (offset p <? allocation pool) = match l with [] => false | _ => true end.
Proof using Hwf.
  intros Hp. pose proof (pk_chain _ _ _ Hp) as Hc. destruct l as [|o l]; cbn [chain] in Hc; [apply Z.ltb_ge; lia|]. destruct Hc as [-> _].
  apply Z.ltb_lt. destruct (block_inside pool Hwf o); [apply (page_block p (o :: l) u); [done|left; apply list_elem_of_here]|]. pose proof (pw_size _ Hwf). lia.
Qed.

Lemma not_corrupted m a fuel : forall i, 4 <= i -> (forall k, 4 <= k < size pool -> m (a + k) = POOL_POISON_FREED) -> corrupted_loop fuel pool m a i = false.
Proof using Type.
  induction fuel as [|fuel IH]; intros i Hi Hm; [done|]. cbn [corrupted_loop]. destruct (Z.ltb_spec i (size pool)); [|done]. rewrite Hm by lia. rewrite Z.eqb_refl.
  apply IH; [lia|done].
Qed.

(** Memory that differs in one block that is not free any more. *)
Lemma page_retake p l u o v d n off m : page_ok p (o :: l) u -> (forall x, x < o \/ o + size pool <= x -> m x = data p x) -> chain pool (data p) off l ->
  n = Z.of_nat (S (length u)) -> page_ok (DmaPage v d n off m) l (o :: u).
Proof using Hwf.
  intros Hp Hm Hc Hn. pose proof (page_nodup _ _ _ Hp) as Hnd. rewrite <- app_comm_cons in Hnd. apply list.NoDup_cons in Hnd as [Ho Hnd].
  assert (Hfar : forall y, y ∈ l -> y + size pool <= o \/ o + size pool <= y).
  { intros y Hy. apply (block_apart pool Hwf); [apply (page_block p (o :: l) u); [done|left; by apply list_elem_of_further]|
      apply (page_block p (o :: l) u); [done|left; apply list_elem_of_here]|]. intros ->. apply Ho. apply elem_of_app. by left. }
  pose proof (pw_size _ Hwf). split; cbn [data offset in_use].
  - apply (free_chain_ext pool (data p)); [|done]. intros y x Hy Hx. symmetry. apply Hm. specialize (Hfar y Hy). lia.
  - by rewrite <- (pk_blocks _ _ _ Hp), <- Permutation_middle.
  - exact Hn.
  - intros Hd y i Hy Hi. rewrite Hm by (specialize (Hfar y Hy); lia). apply (pk_poison _ _ _ Hp Hd); [by apply list_elem_of_further|done].
Qed.

(** Memory outside of a block stays, whichever of the fillings are configured. *)
Lemma fill_block (b : bool) m o c : o ∈ blocks pool ->
  exists m', (if b then memset (allocation pool) m o c (size pool) else Done m) = Done m' /\
    (forall x, x < o \/ o + size pool <= x -> m' x = m x) /\ (b = true -> forall x, o <= x < o + size pool -> m' x = c).
Proof using Hwf.
  intros Ho. destruct (block_inside pool Hwf o Ho). destruct b; [|by exists m].
  destruct (memset_ok (allocation pool) m o c (size pool)) as (m' & -> & Hi & Hx); [lia..|]. by exists m'.
Qed.

Lemma alloc_ready_ok p o l u flags : page_ok p (o :: l) u -> vaddr p + allocation pool <= 2 ^ 64 -> dma p + allocation pool <= 2 ^ 64 -> 0 <= vaddr p -> 0 <= dma p ->
  exists p', alloc_ready pool p flags = Done (vaddr p + o, dma p + o, false, p') /\ vaddr p' = vaddr p /\ dma p' = dma p /\ page_ok p' l (o :: u).
Proof using Hwf.
  intros Hp Hv Hd Hv0 Hd0. pose proof (pk_chain _ _ _ Hp) as Hc. cbn [chain] in Hc. destruct Hc as [Hoff (w & Hw & Hc)].
  assert (Hb : o ∈ blocks pool) by (apply (page_block p (o :: l) u); [done|left; apply list_elem_of_here]).
  destruct (block_inside pool Hwf o Hb) as [Ho Hos]. pose proof (pw_size _ Hwf) as Hs. unfold alloc_ready. rewrite Hoff, Hw. cbn [mbind outcome_bind].
  rewrite !u64_small by (unfold is_u64; lia). rewrite (Z.add_comm o (vaddr p)), (Z.add_comm o (dma p)).
  assert (Hrep : DMAPOOL_DEBUG && corrupted_loop (Z.to_nat (size pool)) pool (data p) o 4 = false).
  { destruct DMAPOOL_DEBUG eqn:E; [|done]. cbn [andb]. apply not_corrupted; [lia|]. intros k Hk. apply (pk_poison _ _ _ Hp E); [apply list_elem_of_here|done]. }
  rewrite Hrep. destruct (fill_block (DMAPOOL_DEBUG && negb (bool_of (Z.land flags ___GFP_ZERO))) (data p) o POOL_POISON_ALLOCATED Hb) as (m1 & -> & Hm1 & _).
  cbn [mbind outcome_bind]. destruct (fill_block (bool_of (Z.land flags ___GFP_ZERO)) m1 o 0 Hb) as (m2 & -> & Hm2 & _). cbn [mbind outcome_bind].
  eexists. split; [done|]. split; [done|]. split; [done|]. apply (page_retake p); [done| |done|].
  - intros x Hx. by rewrite Hm2, Hm1.
  - pose proof (page_in_use _ _ _ Hp). pose proof (blocks_length pool Hwf). rewrite u32_small; [rewrite (pk_in_use _ _ _ Hp); lia|]. rewrite (pk_in_use _ _ _ Hp) in *. lia.
Qed.

(** A block comes back. *)
Lemma free_block_ok p l u o : page_ok p l u -> o ∈ u ->
  exists p' u', u ≡ₚ o :: u' /\ free_block pool p (vaddr p + o) o = Done p' /\ vaddr p' = vaddr p /\ dma p' = dma p /\ page_ok p' (o :: l) u'.
Proof using Hwf.
  intros Hp Hu. apply elem_of_Permutation in Hu as [u' Hu']. assert (Hou : o ∈ u) by (rewrite Hu'; apply list_elem_of_here).
  assert (Hb : o ∈ blocks pool) by (apply (page_block p l u); [done|by right]). destruct (block_inside pool Hwf o Hb) as [Ho Hos]. pose proof (pw_size _ Hwf) as Hs.
  unfold free_block. replace (vaddr p + o - vaddr p) with o by lia. destruct (fill_block DMAPOOL_DEBUG (data p) o POOL_POISON_FREED Hb) as (m1 & -> & Hm1 & Hfill).
  cbn [mbind outcome_bind]. pose proof (pk_chain _ _ _ Hp) as Hc. assert (Hoff : 0 <= offset p < 2 ^ 32).
  { destruct l as [|y l]; cbn [chain] in Hc; [pose proof (pw_alloc _ Hwf); lia|]. destruct Hc as [-> _]. destruct (block_inside pool Hwf y) as [? ?].
    - apply (page_block p (y :: l) u); [done|left; apply list_elem_of_here].
    - pose proof (pw_alloc _ Hwf). lia. }
  destruct (store_ok (allocation pool) m1 o (offset p)) as (m2 & -> & (w & Hw & Hwo) & Hm2); [lia..|]. cbn [mbind outcome_bind].
  eexists _, u'. split; [done|]. split; [done|]. split; [done|]. split; [done|].
  assert (Hkeep : forall y x, y ∈ l -> y <= x < y + size pool -> m2 x = data p x).
  { intros y x Hy Hx. pose proof (page_apart p l u y o Hp Hy Hou). rewrite Hm2, Hm1; [done|lia..]. }
  split; cbn [data offset in_use].
  - cbn [chain]. split; [done|]. exists w. split; [done|]. rewrite Hwo. apply (free_chain_ext pool (data p)); [|done]. intros y x Hy Hx. symmetry. apply (Hkeep y); [done|lia].
  - rewrite <- (pk_blocks _ _ _ Hp), Hu'. by rewrite <- Permutation_middle.
  - rewrite (pk_in_use _ _ _ Hp), Hu'. cbn [length]. pose proof (page_in_use _ _ _ Hp) as Hiu. rewrite (pk_in_use _ _ _ Hp), Hu' in Hiu. cbn [length] in Hiu.
    pose proof (blocks_length pool Hwf). rewrite u32_small; lia.
  - intros Hd y i Hy Hi. apply elem_of_cons in Hy as [->|Hy]; [rewrite Hm2 by lia; apply Hfill; [done|lia]|]. rewrite (Hkeep y) by (done || lia).
    by apply (pk_poison _ _ _ Hp Hd).
Qed.

(** The driver writes to its blocks. *)
Lemma write_ok p l u o i b : page_ok p l u -> o ∈ u -> 0 <= i < size pool -> page_ok (set_data p (upd (data p) (o + i) b)) l u.
Proof using Hwf.
  intros Hp Hu Hi. assert (Hkeep : forall y x, y ∈ l -> y <= x < y + size pool -> upd (data p) (o + i) b x = data p x).
  { intros y x Hy Hx. pose proof (page_apart p l u y o Hp Hy Hu). apply upd_other. lia. }
  pose proof (pw_size _ Hwf). split; cbn [set_data data offset in_use]; [| apply Hp..|].
  - apply (free_chain_ext pool (data p)); [|apply Hp]. intros y x Hy Hx. symmetry. apply (Hkeep y); [done|lia].
  - intros Hd y k Hy Hk. rewrite (Hkeep y) by (done || lia). by apply (pk_poison _ _ _ Hp Hd).
Qed.

(** The search of the debugging code. *)
Lemma chain_loop_ok m o fuel : forall c l, chain pool m c l -> (forall x, x ∈ l -> x < allocation pool) -> (length l < fuel)%nat ->
  chain_loop fuel pool m o c = Done (bool_decide (o ∈ l)).
Proof using Type.
  induction fuel as [|fuel IH]; intros c l Hc Hl Hf; [lia|]. cbn [chain_loop]. destruct l as [|x l]; cbn [chain] in Hc.
  - rewrite (proj2 (Z.ltb_ge c _)) by lia. rewrite bool_decide_false; [done|]. by intros ?%elem_of_nil.
  - destruct Hc as [-> (w & Hw & Hc)]. rewrite (proj2 (Z.ltb_lt x _)) by (apply Hl, list_elem_of_here). destruct (Z.eqb_spec x o) as [->|Hne]; cbn [negb].
    + by rewrite bool_decide_true by (apply list_elem_of_here).
    + rewrite Hw. cbn [mbind outcome_bind length] in *. rewrite (IH (u32 w) l Hc); [|intros y Hy; by apply Hl, list_elem_of_further|lia].
      f_equal. apply bool_decide_ext. rewrite elem_of_cons. split; [by right|by intros [->|]].
Qed.
End Page.
