(* ===== verification/DmaPoolSteps.v ===== *)
(** * DMA pools: drivers that share a pool

    Calls of [dma_pool_alloc] and [dma_pool_free], interleaved where the code drops the
    lock of the pool to get a new page, and writes of the drivers to their blocks. *)

From stdpp Require Import relations.
From S2P Require Import Prelude Gfp DmaPool DmaPoolInv.
#[local] Open Scope Z_scope.

Class DmaConfigSpec `{DmaConfig} : Prop := {
  page_size_ok : exists k, 12 <= k <= 16 /\ PAGE_SIZE = 2 ^ k;
  align_ok x k : 0 <= x -> 0 <= k -> x + 2 ^ k <= 2 ^ 64 -> x <= ALIGN x (2 ^ k) < x + 2 ^ k /\ (2 ^ k | ALIGN x (2 ^ k));
}.

(** What [dma_alloc_coherent] promises: memory of its own, at addresses that are aligned
    to a power of two which is not less than the size. *)
Class CoherentSpec `{Coherent} := {
  mapped : coherent -> Z -> Z -> Z -> Prop;
  mapped_bounds c v d n : mapped c v d n -> 0 < v /\ v + n <= 2 ^ 64 /\ 0 <= d /\ d + n <= 2 ^ 64 /\ exists k, 0 <= k /\ n <= 2 ^ k /\ (2 ^ k | v) /\ (2 ^ k | d);
  mapped_apart c v d n v' d' n' : mapped c v d n -> mapped c v' d' n' -> (v, d, n) <> (v', d', n') ->
    (v + n <= v' \/ v' + n' <= v) /\ (d + n <= d' \/ d' + n' <= d);
  coherent_none_ok c n g c' : dma_alloc_coherent c n g = (None, c') -> forall v d n, mapped c' v d n <-> mapped c v d n;
  coherent_alloc_ok c n g v d c' : 0 < n -> dma_alloc_coherent c n g = (Some (v, d), c') ->
    (forall d' n', ~ mapped c v d' n') /\ forall v' d' n', mapped c' v' d' n' <-> (v', d', n') = (v, d, n) \/ mapped c v' d' n';
  coherent_free_ok c n v d : mapped c v d n -> forall v' d' n', mapped (dma_free_coherent c n v d) v' d' n' <-> mapped c v' d' n' /\ (v', d', n') <> (v, d, n);
  kmalloc_ok c g ok c' : kmalloc c g = (ok, c') -> forall v d n, mapped c' v d n <-> mapped c v d n;
}.

Section Steps.
Context `{DmaConfig} `{Coherent}.

(** [wants] are the flags of calls that have found no block and are about to get a
    page, [extra] the pages of such calls that are not in the list of the pool yet, and
    [used] the blocks in use: the virtual address and that for the device. *)
Record dsystem := DSys { coh : coherent; page_list : list dma_page; wants : list Z; extra : list (Z * dma_page); used : list (Z * Z) }.

Context (pool : dma_pool).

Definition write_byte (a b : Z) (p : dma_page) : dma_page :=
  if (vaddr p <=? a) && (a <? vaddr p + allocation pool) then set_data p (upd (data p) (a - vaddr p) b) else p.

Inductive step : dsystem -> dsystem -> Prop :=
| step_found S flags l1 p l2 r h report p' : find_ready pool (page_list S) = Some (l1, p, l2) -> alloc_ready pool p flags = Done (r, h, report, p') ->
    step S (DSys (coh S) (l1 ++ p' :: l2) (wants S) (extra S) ((r, h) :: used S))
| step_none S flags : find_ready pool (page_list S) = None ->
    step S (DSys (coh S) (page_list S) (flags :: wants S) (extra S) (used S))
| step_page S flags w1 w2 r c : wants S = w1 ++ flags :: w2 -> pool_alloc_page (coh S) pool (page_flags flags) = Done (r, c) ->
    step S (DSys c (page_list S) (w1 ++ w2) (match r with Some p => (flags, p) :: extra S | None => extra S end) (used S))
| step_link S flags p e1 e2 r h report p' : extra S = e1 ++ (flags, p) :: e2 -> alloc_ready pool p flags = Done (r, h, report, p') ->
    step S (DSys (coh S) (p' :: page_list S) (wants S) (e1 ++ e2) ((r, h) :: used S))
| step_free S v d u1 u2 r l : used S = u1 ++ (v, d) :: u2 -> dma_pool_free pool (page_list S) v d = Done (r, l) ->
    step S (DSys (coh S) l (wants S) (extra S) (match r with Freed => u1 ++ u2 | _ => used S end))
| step_write S v d i b : (v, d) ∈ used S -> 0 <= i < size pool -> 0 <= b < 256 ->
    step S (DSys (coh S) (map (write_byte (v + i) b) (page_list S)) (wants S) (extra S) (used S)).
End Steps.
