(* ===== verification/DmaPoolRuns.v ===== *)
(** * DMA pools: the invariant

    Every step keeps the chains of all pages intact, and every call returns. *)

From stdpp Require Import relations.
From S2P Require Import Prelude Gfp DmaPool DmaPoolInv DmaPoolSteps.
#[local] Open Scope Z_scope.

Section Props.
Context `{DmaConfig} `{Coherent} `{!CoherentSpec}.
Context (pool : dma_pool) (Hwf : pool_wf pool).

(** ** The invariant *)

(** What was mapped before. *)
Context (others : Z -> Z -> Z -> Prop).

(** A page with its free blocks and those in use. *)
Abbreviation ghost := (dma_page * (list Z * list Z))%type.

Definition handles (g : ghost) : list (Z * Z) := map (fun o => (vaddr g.1 + o, dma g.1 + o)) g.2.2.
Definition all_handles (gs : list ghost) : list (Z * Z) := gs ≫= handles.

Definition owned (c : coherent) (l : list dma_page) : Prop :=
  Forall (fun p => mapped c (vaddr p) (dma p) (allocation pool)) l /\ NoDup (map vaddr l).

Definition places (l : list dma_page) : list (Z * Z) := map (fun p => (vaddr p, dma p)) l.

#[local] Instance places_proper : Proper (Permutation ==> Permutation) places.
Proof using Type. intros l l' Hl. unfold places. by rewrite Hl. Qed.

(** All that is mapped now. *)
Definition account (c : coherent) (l : list dma_page) : Prop :=
  (forall v d n, mapped c v d n <-> others v d n \/ (n = allocation pool /\ (v, d) ∈ places l)) /\ forall v d, (v, d) ∈ places l -> ~ others v d (allocation pool).

Record pool_inv (S : dsystem) (gs : list ghost) : Prop := {
  pi_pages : page_list S = map fst gs;
  pi_ok : Forall (fun g => page_ok pool g.1 g.2.1 g.2.2) gs;
  pi_used : used S ≡ₚ all_handles gs;
  pi_extra : Forall (fun e : Z * dma_page => page_ok pool e.2 (blocks pool) []) (extra S);
  pi_owned : owned (coh S) (page_list S ++ map snd (extra S));
  pi_account : account (coh S) (page_list S ++ map snd (extra S));
}.

Lemma account_perm c l l' : places l ≡ₚ places l' -> account c l -> account c l'.
Proof using Type. intros Hp [HM Ho]. split; [intros v d n; by rewrite <- Hp|intros v d; rewrite <- Hp; apply Ho]. Qed.

Lemma places_same l1 l2 p p' : vaddr p' = vaddr p -> dma p' = dma p -> places (l1 ++ p :: l2) = places (l1 ++ p' :: l2).
Proof using Type. intros Hv Hd. unfold places. rewrite !map_app. cbn [map]. by rewrite Hv, Hd. Qed.

Lemma owned_perm c l l' : l ≡ₚ l' -> owned c l -> owned c l'.
Proof using Type. intros Hp [HF Hn]. split; [by rewrite <- Hp|by rewrite <- Hp]. Qed.

(** Pages at the same addresses. *)
Lemma owned_same c l1 l2 p p' : vaddr p' = vaddr p -> dma p' = dma p -> owned c (l1 ++ p :: l2) -> owned c (l1 ++ p' :: l2).
Proof using Type.
  intros Hv Hd [HF Hn]. split.
  - apply list.Forall_app in HF as [HF1 HF2]. apply list.Forall_cons in HF2 as [Hp HF2]. apply list.Forall_app. split; [done|]. apply list.Forall_cons. by rewrite Hv, Hd.
  - rewrite map_app in *. cbn [map] in *. by rewrite Hv.
Qed.

Lemma owned_bounds c l p : owned c l -> p ∈ l -> 0 < vaddr p /\ vaddr p + allocation pool <= 2 ^ 64 /\ 0 <= dma p /\ dma p + allocation pool <= 2 ^ 64.
Proof using Type. intros [HF _] Hp. rewrite list.Forall_forall in HF. destruct (mapped_bounds _ _ _ _ (HF p Hp)) as (? & ? & ? & ? & _). done. Qed.

(** Another page of the pool is elsewhere. *)
Lemma owned_apart c l1 l2 p q : owned c (l1 ++ p :: l2) -> q ∈ l1 ++ l2 ->
  (vaddr p + allocation pool <= vaddr q \/ vaddr q + allocation pool <= vaddr p) /\ (dma p + allocation pool <= dma q \/ dma q + allocation pool <= dma p).
Proof using Type.
  intros [HF Hn] Hq. rewrite list.Forall_forall in HF. rewrite <- Permutation_middle in Hn. cbn [map] in Hn. apply list.NoDup_cons in Hn as [Hn _].
  apply (mapped_apart c).
  - apply HF. apply elem_of_app. right. apply list_elem_of_here.
  - apply HF. apply elem_of_app in Hq as [?|?]; apply elem_of_app; [by left|right; by apply list_elem_of_further].
  - intros [= Hv _]. apply Hn. rewrite Hv. apply list_elem_of_In, in_map, list_elem_of_In. done.
Qed.

Lemma all_handles_app a b : all_handles (a ++ b) = all_handles a ++ all_handles b.
Proof using Type. apply bind_app. Qed.

Lemma all_handles_middle a g b : all_handles (a ++ g :: b) ≡ₚ handles g ++ all_handles (a ++ b).
Proof using Type. rewrite !all_handles_app. unfold all_handles at 2. rewrite bind_cons. apply Permutation_app_swap_app. Qed.

(** One page of the list changes. *)
Lemma inv_replace S gs1 p l u gs2 p' l' u' us : pool_inv S (gs1 ++ (p, (l, u)) :: gs2) -> page_ok pool p' l' u' -> vaddr p' = vaddr p -> dma p' = dma p ->
  us ≡ₚ handles (p', (l', u')) ++ all_handles (gs1 ++ gs2) ->
  pool_inv (DSys (coh S) (map fst gs1 ++ p' :: map fst gs2) (wants S) (extra S) us) (gs1 ++ (p', (l', u')) :: gs2).
Proof using Type.
  intros [Hpg Hok Hus Hex Hown Hac] Hp' Hv Hd Hu. split; cbn [coh page_list wants extra used].
  - by rewrite map_app.
  - apply list.Forall_app in Hok as [Hok1 Hok2]. apply list.Forall_cons in Hok2 as [_ Hok2]. apply list.Forall_app. split; [done|]. by apply list.Forall_cons.
  - by rewrite all_handles_middle.
  - done.
  - rewrite Hpg, map_app, <- app_assoc in Hown. rewrite <- app_assoc. cbn [map fst] in Hown. rewrite <- app_comm_cons in *. by apply (owned_same _ _ _ p p').
  - rewrite Hpg, map_app, <- app_assoc in Hac. rewrite <- app_assoc. cbn [map fst] in Hac. rewrite <- app_comm_cons in *.
    apply (account_perm _ _ _ (reflexive_eq _ _ (places_same _ _ p p' Hv Hd)) Hac).
Qed.

Lemma split_fst (gs : list ghost) l1 p l2 : map fst gs = l1 ++ p :: l2 ->
  exists gs1 l u gs2, gs = gs1 ++ (p, (l, u)) :: gs2 /\ l1 = map fst gs1 /\ l2 = map fst gs2.
Proof using Type.
  intros Hm. apply (fmap_app_inv fst) in Hm as (gs1 & gs' & -> & Hm & ->). symmetry in Hm.
  apply (fmap_cons_inv fst) in Hm as ([q [l u]] & gs2 & -> & -> & ->).
  by exists gs1, l, u, gs2.
Qed.

Lemma find_ready_ok l : match find_ready pool l with
  | Some (l1, p, l2) => l = l1 ++ p :: l2 /\ (offset p <? allocation pool) = true
  | None => Forall (fun p => (offset p <? allocation pool) = false) l
  end.
Proof using Type.
  induction l as [|p l IH]; cbn [find_ready]; [done|]. destruct (offset p <? allocation pool) eqn:E; [done|].
  destruct (find_ready pool l) as [[[l1 q] l2]|]; [|by apply list.Forall_cons]. destruct IH as [-> ?]. done.
Qed.

Lemma find_page_ok l d : match pool_find_page pool l d with
  | Some (l1, p, l2) => l = l1 ++ p :: l2 /\ dma p <= d < dma p + allocation pool
  | None => Forall (fun p => ~ dma p <= d < dma p + allocation pool) l
  end.
Proof using Type.
  induction l as [|p l IH]; cbn [pool_find_page]; [done|]. destruct (Z.ltb_spec d (dma p)), (Z.ltb_spec (d - dma p) (allocation pool)); cbn [negb andb].
  2, 4: destruct (pool_find_page pool l d) as [[[l1 q] l2]|]; [by destruct IH as [-> ?]|apply list.Forall_cons; split; [lia|done]].
  - destruct (pool_find_page pool l d) as [[[l1 q] l2]|]; [by destruct IH as [-> ?]|apply list.Forall_cons; split; [lia|done]].
  - split; [done|lia].
Qed.

(** ** The steps *)
Lemma handles_cons p l o u l' : handles (p, (l, o :: u)) = (vaddr p + o, dma p + o) :: handles (p, (l', u)).
Proof using Type. done. Qed.

Lemma handles_moved p p' l l' u : vaddr p' = vaddr p -> dma p' = dma p -> handles (p', (l', u)) = handles (p, (l, u)).
Proof using Type. intros Hv Hd. unfold handles. cbn [fst snd]. by rewrite Hv, Hd. Qed.

Lemma ghost_ok S gs g : pool_inv S gs -> g ∈ gs -> page_ok pool g.1 g.2.1 g.2.2.
Proof using Type. intros HI Hg. pose proof (pi_ok _ _ HI) as Hok. rewrite list.Forall_forall in Hok. by apply Hok. Qed.

Lemma ghost_bounds S gs g : pool_inv S gs -> g ∈ gs -> 0 < vaddr g.1 /\ vaddr g.1 + allocation pool <= 2 ^ 64 /\ 0 <= dma g.1 /\ dma g.1 + allocation pool <= 2 ^ 64.
Proof using Type.
  intros HI Hg. apply (owned_bounds (coh S) _ _ (pi_owned _ _ HI)). apply elem_of_app. left. rewrite (pi_pages _ _ HI). by apply (list_elem_of_fmap_2 fst).
Qed.

Lemma elem_middle {A} (l1 l2 : list A) x : x ∈ l1 ++ x :: l2.
Proof using Type. apply elem_of_app. right. apply list_elem_of_here. Qed.

(** A block of a page of the list. *)
Lemma dma_found_ok S gs l1 p l2 flags : pool_inv S gs -> find_ready pool (page_list S) = Some (l1, p, l2) ->
  exists r h p' gs', alloc_ready pool p flags = Done (r, h, false, p') /\ pool_inv (DSys (coh S) (l1 ++ p' :: l2) (wants S) (extra S) ((r, h) :: used S)) gs'.
Proof using Hwf.
  intros HI Hf. pose proof (find_ready_ok (page_list S)) as Hr. rewrite Hf in Hr. destruct Hr as [Hl Hlt]. rewrite (pi_pages _ _ HI) in Hl.
  apply split_fst in Hl as (gs1 & l & u & gs2 & -> & -> & ->). pose proof (ghost_ok _ _ _ HI (elem_middle _ _ _)) as Hok.
  destruct (ghost_bounds _ _ _ HI (elem_middle _ _ _)) as (Hv & Hv' & Hd & Hd'). cbn [fst snd] in *.
  rewrite (page_ready pool Hwf p l u Hok) in Hlt. destruct l as [|o l]; [done|].
  destruct (alloc_ready_ok pool Hwf p o l u flags Hok) as (p' & Ha & Hpv & Hpd & Hok'); [lia..|]. eexists _, _, p', _. split; [exact Ha|].
  apply (inv_replace S gs1 p (o :: l) u gs2 p' l (o :: u)); try done.
  rewrite (pi_used _ _ HI), all_handles_middle. rewrite (handles_cons p' l o u l), Hpv, Hpd. by rewrite (handles_moved p p' (o :: l) l u).
Qed.

(** A new page. *)
Lemma new_page_ok S gs flags w : pool_inv S gs -> exists r c, pool_alloc_page (coh S) pool flags = Done (r, c) /\
  forall f, pool_inv (DSys c (page_list S) w (match r with Some p => (f, p) :: extra S | None => extra S end) (used S)) gs.
Proof using Hwf.
  intros HI. assert (Hsame : forall c, (forall v d n, mapped c v d n <-> mapped (coh S) v d n) -> pool_inv (DSys c (page_list S) w (extra S) (used S)) gs).
  { intros c Hc. destruct HI as [Hpg Hok Hus Hex [HF Hn] [HM Ho]]. split; cbn [coh page_list wants extra used]; try done; (split; [|done]).
    - apply (list.Forall_impl _ _ _ HF). intros p Hp. by apply Hc.
    - intros v d n. by rewrite Hc. }
  unfold pool_alloc_page. destruct (kmalloc (coh S) flags) as [ok c1] eqn:Hk. pose proof (kmalloc_ok _ _ _ _ Hk) as Hc1. destruct ok; cbn [negb].
  2:{ eexists _, c1. split; [done|]. intros f. by apply Hsame. }
  pose proof (pw_alloc _ Hwf) as Hal. pose proof (pw_size _ Hwf) as Hs. destruct (dma_alloc_coherent c1 (allocation pool) flags) as [[[v d]|] c2] eqn:Ha.
  2:{ eexists _, c2. split; [done|]. assert (forall v d n, mapped c2 v d n <-> mapped (coh S) v d n) by (intros; by rewrite (coherent_none_ok _ _ _ _ Ha)).
      intros f. by apply Hsame. }
  destruct (coherent_alloc_ok _ _ _ _ _ _ (proj1 Hal) Ha) as [Hnew Hc2].
  assert (Hfill : exists m, (if DMAPOOL_DEBUG then memset (allocation pool) (fun x => fresh_byte c2 (v + x)) 0 POOL_POISON_FREED (allocation pool)
      else Done (fun x => fresh_byte c2 (v + x))) = Done m /\ (DMAPOOL_DEBUG = true -> forall x, 0 <= x < allocation pool -> m x = POOL_POISON_FREED)).
  { destruct DMAPOOL_DEBUG; [|by eexists]. destruct (memset_ok (allocation pool) (fun x => fresh_byte c2 (v + x)) 0 POOL_POISON_FREED (allocation pool)) as (m & -> & Hm & _); [lia..|].
    exists m. split; [done|]. intros _ x Hx. apply Hm. lia. }
  destruct Hfill as (m & -> & Hm). cbn [mbind outcome_bind]. destruct (initialise_page_ok pool Hwf (DmaPage v d 0 0 m)) as (m' & -> & Hch & Hkeep).
  cbn [mbind outcome_bind set_data vaddr dma data] in *. eexists _, c2. split; [done|].
  assert (Hpok : page_ok pool (DmaPage v d 0 0 m') (blocks pool) []).
  { split; cbn [data offset in_use length]; [done|by rewrite app_nil_r|done|]. intros Hd o i Ho Hi. rewrite Hkeep.
    - apply Hm; [done|]. destruct (block_inside pool Hwf o Ho). lia.
    - intros y Hy. destruct (Z.eq_dec y o) as [->|Hne]; [lia|]. destruct (block_apart pool Hwf y o Hy Ho Hne); lia. }
  intros f. destruct HI as [Hpg Hok Hus Hex [HF Hn] [HM Ho]]. rewrite list.Forall_forall in HF. split; cbn [coh page_list wants extra used map snd]; try done; [by apply list.Forall_cons| |].
  2:{ apply (account_perm _ (DmaPage v d 0 0 m' :: page_list S ++ map snd (extra S))); [unfold places; by rewrite Permutation_middle|].
      unfold account, places. cbn [map vaddr dma]. split.
      - intros v' d' n'. rewrite Hc2, Hc1, HM, elem_of_cons. unfold places. split; [intros [[= -> -> ->]|[?|[-> ?]]]|intros [?|[-> [[= -> ->]|?]]]]; tauto.
      - intros v' d'. rewrite elem_of_cons. intros [[= -> ->]|Hin]; [|by apply Ho]. intros Hoth. apply (Hnew d (allocation pool)). apply Hc1, HM. by left. }
  apply (owned_perm _ (DmaPage v d 0 0 m' :: page_list S ++ map snd (extra S))); [apply Permutation_middle|]. split.
  - apply list.Forall_cons. split; [apply Hc2; by left|]. apply list.Forall_forall. intros q Hq. apply Hc2. right. by apply Hc1, HF.
  - cbn [map vaddr]. apply list.NoDup_cons. split; [|done]. intros Hin. apply (list_elem_of_fmap vaddr) in Hin as (q & Hqv & Hq).
    apply (Hnew (dma q) (allocation pool)). rewrite Hqv. by apply Hc1, HF.
Qed.

(** The first block of a new page, which goes to the front of the list. *)
Lemma dma_link_ok S gs e1 f p e2 flags : pool_inv S gs -> extra S = e1 ++ (f, p) :: e2 ->
  exists r h p' gs', alloc_ready pool p flags = Done (r, h, false, p') /\ pool_inv (DSys (coh S) (p' :: page_list S) (wants S) (e1 ++ e2) ((r, h) :: used S)) gs'.
Proof using Hwf.
  intros [Hpg Hok Hus Hex Hown Hac] He. rewrite He in Hex, Hown, Hac. apply list.Forall_app in Hex as [Hex1 Hex2]. apply list.Forall_cons in Hex2 as [Hp Hex2]. cbn [snd] in Hp.
  assert (Hperm : page_list S ++ map snd (e1 ++ (f, p) :: e2) ≡ₚ p :: page_list S ++ map snd (e1 ++ e2)).
  { rewrite !map_app. cbn [map snd]. rewrite !app_assoc. symmetry. apply Permutation_middle. }
  apply (owned_perm _ _ _ Hperm) in Hown. destruct (owned_bounds _ _ p Hown (list_elem_of_here _ _)) as (Hv & Hv' & Hd & Hd').
  assert (Hbl : blocks pool = 0 :: blocks_from pool (after pool 0)).
  { apply (blocks_from_step pool Hwf); [pose proof (pw_alloc _ Hwf); lia|apply (zero_block pool Hwf)]. }
  rewrite Hbl in Hp. destruct (alloc_ready_ok pool Hwf p 0 _ [] flags Hp) as (p' & Ha & Hpv & Hpd & Hok'); [lia..|].
  eexists _, _, p', ((p', (blocks_from pool (after pool 0), [0])) :: gs). split; [exact Ha|].
  split; cbn [coh page_list wants extra used map fst].
  - by rewrite Hpg.
  - by apply list.Forall_cons.
  - rewrite Hus. unfold all_handles. rewrite bind_cons. unfold handles at 2. cbn [fst snd map app]. by rewrite Hpv, Hpd.
  - by apply list.Forall_app.
  - by apply (owned_same _ [] _ p p').
  - apply (account_perm _ _ (p' :: page_list S ++ map snd (e1 ++ e2))) in Hac; [done|]. rewrite Hperm. by rewrite (places_same [] _ p p' Hpv Hpd : places (p :: _) = _).
Qed.

Lemma map_same {A} (f : A -> A) l : (forall x, x ∈ l -> f x = x) -> map f l = l.
Proof using Type.
  intros Hf. induction l as [|x l IH]; [done|]. cbn [map]. rewrite Hf by apply list_elem_of_here. f_equal. apply IH. intros y Hy. by apply Hf, list_elem_of_further.
Qed.

(** A block in use is a block of one page. *)
Lemma used_block S gs v d : pool_inv S gs -> (v, d) ∈ used S ->
  exists gs1 p l u gs2 o, gs = gs1 ++ (p, (l, u)) :: gs2 /\ o ∈ u /\ v = vaddr p + o /\ d = dma p + o.
Proof using Type.
  intros HI Hu. rewrite (pi_used _ _ HI) in Hu. apply list_elem_of_bind in Hu as ([p [l u]] & Hin & Hg). apply (list_elem_of_fmap _ u) in Hin as (o & [= -> ->] & Ho).
  apply list_elem_of_split in Hg as (gs1 & gs2 & ->). by exists gs1, p, l, u, gs2, o.
Qed.

Lemma ghost_owned S gs1 g gs2 : pool_inv S (gs1 ++ g :: gs2) -> owned (coh S) (map fst gs1 ++ g.1 :: map fst gs2).
Proof using Type.
  intros HI. destruct (pi_owned _ _ HI) as [HF Hn]. rewrite (pi_pages _ _ HI), map_app in HF, Hn. cbn [map] in HF, Hn.
  apply list.Forall_app in HF as [HF _]. rewrite map_app in Hn. apply list.NoDup_app in Hn as (Hn & _). done.
Qed.

Lemma find_page_here l1 p l2 d : (forall q, q ∈ l1 -> ~ dma q <= d < dma q + allocation pool) -> dma p <= d < dma p + allocation pool ->
  pool_find_page pool (l1 ++ p :: l2) d = Some (l1, p, l2).
Proof using Type.
  intros Hl1 Hp. induction l1 as [|q l1 IH]; cbn [app pool_find_page].
  - rewrite (proj2 (Z.ltb_ge d (dma p))), (proj2 (Z.ltb_lt (d - dma p) (allocation pool))) by lia. done.
  - pose proof (Hl1 q (list_elem_of_here _ _)) as Hq. rewrite IH by (intros x Hx; apply Hl1; by apply list_elem_of_further).
    destruct (Z.ltb_spec d (dma q)), (Z.ltb_spec (d - dma q) (allocation pool)); cbn [negb andb]; try done. lia.
Qed.

Lemma block_of S gs1 p l u gs2 o : pool_inv S (gs1 ++ (p, (l, u)) :: gs2) -> o ∈ l \/ o ∈ u -> 0 <= o /\ o + size pool <= allocation pool.
Proof using Hwf. intros HI Ho. apply (block_inside pool Hwf). apply (page_block pool p l u); [|done]. apply (ghost_ok _ _ _ HI (elem_middle _ _ _)). Qed.

(** The page that [dma_pool_free] finds. *)
Lemma find_block S gs1 p l u gs2 o : pool_inv S (gs1 ++ (p, (l, u)) :: gs2) -> o ∈ l \/ o ∈ u ->
  pool_find_page pool (page_list S) (dma p + o) = Some (map fst gs1, p, map fst gs2) /\ u32 (u64 (vaddr p + o - vaddr p)) = o /\ u64 (dma p + o - dma p) = o.
Proof using Hwf.
  intros HI Ho. destruct (block_of _ _ _ _ _ _ _ HI Ho) as [Ho0 Hos]. pose proof (pw_size _ Hwf). pose proof (pw_alloc _ Hwf).
  replace (vaddr p + o - vaddr p) with o by lia. replace (dma p + o - dma p) with o by lia. rewrite !u64_small by (unfold is_u64; lia). rewrite u32_small by lia.
  split; [|done]. rewrite (pi_pages _ _ HI), map_app. cbn [map fst]. pose proof (ghost_owned _ _ _ _ HI) as Hown. cbn [fst] in Hown.
  apply find_page_here; [|lia]. intros q Hq. destruct (owned_apart _ _ _ p q Hown) as [_ Hd]; [apply elem_of_app; by left|lia].
Qed.

Lemma in_chain S gs1 p l u gs2 o : pool_inv S (gs1 ++ (p, (l, u)) :: gs2) ->
  chain_loop (1 + Z.to_nat (allocation pool)) pool (data p) o (offset p) = Done (bool_decide (o ∈ l)).
Proof using Hwf.
  intros HI. pose proof (ghost_ok _ _ _ HI (elem_middle _ _ _)) as Hok. cbn [fst snd] in Hok. apply (chain_loop_ok pool _ _ _ _ _ (pk_chain _ _ _ _ Hok)).
  - intros x Hx. destruct (block_of _ _ _ _ _ _ x HI (or_introl Hx)). pose proof (pw_size _ Hwf). lia.
  - assert (length l <= length (blocks pool))%nat by (rewrite <- (pk_blocks _ _ _ _ Hok), length_app; lia).
    unfold blocks, blocks_from in *. pose proof (length_filter (fun x => is_block pool x = true) (seqZ 0 (allocation pool - 0))) as Hl. rewrite length_seqZ in Hl. lia.
Qed.

Lemma free_ok S gs v d u1 u2 : pool_inv S gs -> used S = u1 ++ (v, d) :: u2 ->
  exists l gs', dma_pool_free pool (page_list S) v d = Done (Freed, l) /\ pool_inv (DSys (coh S) l (wants S) (extra S) (u1 ++ u2)) gs'.
Proof using Hwf.
  intros HI Hu. assert (Hin : (v, d) ∈ used S) by (rewrite Hu; apply elem_middle).
  destruct (used_block _ _ _ _ HI Hin) as (gs1 & p & l & u & gs2 & o & -> & Ho & -> & ->).
  destruct (find_block _ _ _ _ _ _ o HI (or_intror Ho)) as (Hf & Hoff & Hoff'). unfold dma_pool_free. rewrite Hf, Hoff, Hoff', Z.eqb_refl. cbn [negb]. rewrite andb_false_r.
  pose proof (ghost_ok _ _ _ HI (elem_middle _ _ _)) as Hok. cbn [fst snd] in Hok.
  assert (Hnot : bool_decide (o ∈ l) = false).
  { apply bool_decide_false. intros Hl. pose proof (page_nodup pool _ _ _ Hok) as Hnd. apply list.NoDup_app in Hnd as (_ & Hnd & _). by apply (Hnd o). }
  assert (Hch : (if DMAPOOL_DEBUG then chain_loop (1 + Z.to_nat (allocation pool)) pool (data p) o (offset p) else Done false) = Done false).
  { destruct DMAPOOL_DEBUG; [|done]. by rewrite (in_chain _ _ _ _ _ _ _ HI), Hnot. }
  cbn [Nat.add] in Hch. rewrite Hch. cbn [mbind outcome_bind].
  destruct (free_block_ok pool Hwf p l u o Hok Ho) as (p' & u' & Hperm & -> & Hpv & Hpd & Hok'). cbn [mbind outcome_bind].
  eexists _, _. split; [done|]. apply (inv_replace S gs1 p l u gs2 p' (o :: l) u'); try done.
  apply (Permutation_cons_inv (a := (vaddr p + o, dma p + o))). rewrite Permutation_middle, <- Hu, (pi_used _ _ HI), all_handles_middle.
  rewrite (handles_moved p p' l (o :: l) u') by done. rewrite app_comm_cons. f_equiv. unfold handles. cbn [fst snd]. by rewrite Hperm.
Qed.

Lemma write_inv S gs v d i b : pool_inv S gs -> (v, d) ∈ used S -> 0 <= i < size pool ->
  exists gs', pool_inv (DSys (coh S) (map (write_byte pool (v + i) b) (page_list S)) (wants S) (extra S) (used S)) gs'.
Proof using Hwf.
  intros HI Hin Hi. destruct (used_block _ _ _ _ HI Hin) as (gs1 & p & l & u & gs2 & o & -> & Ho & -> & ->).
  pose proof (ghost_ok _ _ _ HI (elem_middle _ _ _)) as Hok. cbn [fst snd] in Hok. destruct (block_of _ _ _ _ _ _ _ HI (or_intror Ho)) as [Ho0 Hos].
  pose proof (ghost_owned _ _ _ _ HI) as Hown. cbn [fst] in Hown.
  assert (Hother : forall q, q ∈ map fst gs1 ++ map fst gs2 -> write_byte pool (vaddr p + o + i) b q = q).
  { intros q Hq. destruct (owned_apart _ _ _ p q Hown Hq) as [Hv _]. unfold write_byte.
    destruct (Z.leb_spec (vaddr q) (vaddr p + o + i)), (Z.ltb_spec (vaddr p + o + i) (vaddr q + allocation pool)); try done. lia. }
  assert (Hp : write_byte pool (vaddr p + o + i) b p = set_data p (upd (data p) (o + i) b)).
  { unfold write_byte. rewrite (proj2 (Z.leb_le _ _)), (proj2 (Z.ltb_lt _ _)) by lia. cbn [andb]. by replace (vaddr p + o + i - vaddr p) with (o + i) by lia. }
  exists (gs1 ++ (set_data p (upd (data p) (o + i) b), (l, u)) :: gs2). rewrite (pi_pages _ _ HI), map_app. cbn [map fst]. rewrite map_app. cbn [map]. rewrite Hp.
  rewrite (map_same _ (map fst gs1)), (map_same _ (map fst gs2)).
  - apply (inv_replace S gs1 p l u gs2 _ l u _ HI); [by apply write_ok|done|done|]. by rewrite (pi_used _ _ HI), all_handles_middle.
  - intros q Hq. apply Hother, elem_of_app. by right.
  - intros q Hq. apply Hother, elem_of_app. by left.
Qed.

(** ** Runs *)
Definition inv (S : dsystem) : Prop := exists gs, pool_inv S gs.

Lemma dma_step_inv S S' : inv S -> step pool S S' -> inv S'.
Proof using Hwf.
  intros [gs HI] Hst. destruct Hst as [S flags l1 p l2 r h report p' Hf Ha|S flags Hf|S flags w1 w2 r c Hw Ha|S flags p e1 e2 r h report p' He Ha|S v d u1 u2 r l Hu Hf|
    S v d i b Hu Hi Hb].
  - destruct (dma_found_ok S gs l1 p l2 flags HI Hf) as (r' & h' & q & gs' & Ha' & HI'). rewrite Ha in Ha'. injection Ha' as <- <- _ <-. by exists gs'.
  - exists gs. by destruct HI.
  - destruct (new_page_ok S gs (page_flags flags) (w1 ++ w2) HI) as (r' & c' & Ha' & HI'). rewrite Ha in Ha'. injection Ha' as <- <-. exists gs. apply (HI' flags).
  - destruct (dma_link_ok S gs e1 flags p e2 flags HI He) as (r' & h' & q & gs' & Ha' & HI'). rewrite Ha in Ha'. injection Ha' as <- <- _ <-. by exists gs'.
  - destruct (free_ok S gs v d u1 u2 HI Hu) as (l' & gs' & Hf' & HI'). rewrite Hf in Hf'. injection Hf' as -> <-. by exists gs'.
  - by apply (write_inv S gs v d).
Qed.

Lemma dma_reach_inv S S' : inv S -> rtc (step pool) S S' -> inv S'.
Proof using Hwf. intros HI. induction 1 as [|S S1 S2 Hst _ IH]; [done|]. apply IH. by apply (dma_step_inv S). Qed.

(** Every call returns, and the debugging code reports nothing. *)
Record serves (S : dsystem) : Prop := {
  sv_ready flags l1 p l2 : find_ready pool (page_list S) = Some (l1, p, l2) -> exists r h p', alloc_ready pool p flags = Done (r, h, false, p');
  sv_page flags : exists r c, pool_alloc_page (coh S) pool flags = Done (r, c);
  sv_link flags p : (flags, p) ∈ extra S -> exists r h p', alloc_ready pool p flags = Done (r, h, false, p');
  sv_free v d : (v, d) ∈ used S -> exists l, dma_pool_free pool (page_list S) v d = Done (Freed, l);
}.

Lemma inv_serves S : inv S -> serves S.
Proof using Hwf.
  intros [gs HI]. split.
  - intros flags l1 p l2 Hf. destruct (dma_found_ok S gs l1 p l2 flags HI Hf) as (r & h & p' & _ & Ha & _). by exists r, h, p'.
  - intros flags. destruct (new_page_ok S gs flags (wants S) HI) as (r & c & Ha & _). by exists r, c.
  - intros flags p He. apply list_elem_of_split in He as (e1 & e2 & He). destruct (dma_link_ok S gs e1 flags p e2 flags HI He) as (r & h & p' & _ & Ha & _). by exists r, h, p'.
  - intros v d Hu. apply list_elem_of_split in Hu as (u1 & u2 & Hu). destruct (free_ok S gs v d u1 u2 HI Hu) as (l & _ & Hf & _). by exists l.
Qed.

(** ** Blocks in use *)
Lemma handles_nodup S gs : pool_inv S gs -> NoDup (used S) /\
  forall v d v' d', (v, d) ∈ used S -> (v', d') ∈ used S -> (v, d) <> (v', d') ->
    (v + size pool <= v' \/ v' + size pool <= v) /\ (d + size pool <= d' \/ d' + size pool <= d).
Proof using Hwf.
  intros HI. split.
  - rewrite (pi_used _ _ HI). pose proof (pi_ok _ _ HI) as Hok. assert (Hown : owned (coh S) (map fst gs)).
    { destruct (pi_owned _ _ HI) as [HF Hn]. rewrite (pi_pages _ _ HI) in HF, Hn. apply list.Forall_app in HF as [HF _]. rewrite map_app in Hn. by apply list.NoDup_app in Hn as (Hn & _). }
    clear HI. induction gs as [|[p [l u]] gs IH]; [constructor|]. unfold all_handles. rewrite bind_cons. apply list.Forall_cons in Hok as [Hp Hok]. cbn [fst snd map] in *.
    apply list.NoDup_app. split; [|split].
    + unfold handles. cbn [fst snd]. apply (NoDup_fmap_2_strong _ u); [intros; congruence || (intros; simplify_eq; lia)|].
      pose proof (page_nodup pool _ _ _ Hp) as Hnd. by apply list.NoDup_app in Hnd as (_ & _ & ?).
    + intros [v d] Hin1 Hin2. apply (list_elem_of_fmap _ u) in Hin1 as (o & [= -> ->] & Ho). apply list_elem_of_bind in Hin2 as ([q [l' u']] & Hin & Hq).
      apply (list_elem_of_fmap _ u') in Hin as (o' & [= Hv Hd] & Ho'). cbn [fst snd] in *.
      rewrite list.Forall_forall in Hok. pose proof (Hok _ Hq) as Hqok. cbn [fst snd] in Hqok.
      destruct (owned_apart _ [] (map fst gs) p q Hown) as [Hap _]; [by apply (list_elem_of_fmap_2 fst gs (q, (l', u')))|].
      destruct (block_inside pool Hwf o) as [? ?]; [apply (page_block pool p l u); [done|by right]|].
      destruct (block_inside pool Hwf o') as [? ?]; [apply (page_block pool q l' u'); [done|by right]|]. pose proof (pw_size _ Hwf). lia.
    + apply IH; [done|]. destruct Hown as [HF Hn]. apply list.Forall_cons in HF as [_ HF]. apply list.NoDup_cons in Hn as [_ Hn]. by split.
  - intros v d v' d' Hu Hu' Hne. destruct (used_block _ _ _ _ HI Hu) as (gs1 & p & l & u & gs2 & o & -> & Ho & -> & ->).
    pose proof (block_of _ _ _ _ _ _ _ HI (or_intror Ho)) as Hob. pose proof (ghost_ok _ _ _ HI (elem_middle _ _ _)) as Hok. cbn [fst snd] in Hok.
    pose proof (ghost_owned _ _ _ _ HI) as Hown. cbn [fst] in Hown.
    rewrite (pi_used _ _ HI), all_handles_middle in Hu'. apply elem_of_app in Hu' as [Hu'|Hu'].
    + apply (list_elem_of_fmap _ u) in Hu' as (o' & [= -> ->] & Ho'). cbn [fst snd] in *.
      assert (o <> o') by (intros ->; done). destruct (block_apart pool Hwf o o') as [?|?]; [apply (page_block pool p l u); [done|by right]..|done| |]; lia.
    + apply list_elem_of_bind in Hu' as ([q [l' u']] & Hin & Hq). apply (list_elem_of_fmap _ u') in Hin as (o' & [= -> ->] & Ho'). cbn [fst snd] in *.
      destruct (owned_apart _ _ _ p q Hown) as [Hv Hd].
      { rewrite <- map_app. by apply (list_elem_of_fmap_2 fst (gs1 ++ gs2) (q, (l', u'))). }
      assert (Hg : (q, (l', u')) ∈ gs1 ++ (p, (l, u)) :: gs2) by (apply elem_of_app in Hq as [?|?]; apply elem_of_app; [by left|right; by apply list_elem_of_further]).
      pose proof (ghost_ok _ _ _ HI Hg) as Hqok. cbn [fst snd] in Hqok. destruct (block_inside pool Hwf o') as [? ?]; [apply (page_block pool q l' u'); [done|by right]|]. lia.
Qed.
End Props.
