(* ===== verification/DmaPoolProps.v ===== *)
(** * DMA pools: what drivers may rely on

    Blocks are apart, aligned and within a boundary; no block is lost; the debugging code
    finds blocks that are freed twice; and what the code does wrong. *)

From stdpp Require Import relations.
From S2P Require Import Prelude Gfp DmaPool DmaPoolInv DmaPoolSteps DmaPoolRuns.
#[local] Open Scope Z_scope.

(** ** Making a pool *)
Section Create.
Context `{DmaConfig} `{!DmaConfigSpec}.

Lemma pow2_divide a b : 0 <= a -> 2 ^ a <= 2 ^ b -> (2 ^ a | 2 ^ b).
Proof using Type.
  intros Ha Hle. destruct (Z.le_gt_cases a b) as [Hab|Hab]; [|assert (2 ^ b < 2 ^ a); [|lia]].
  - exists (2 ^ (b - a)). rewrite <- Z.pow_add_r by lia. f_equal. lia.
  - destruct (Z.le_gt_cases 0 b); [apply Z.pow_lt_mono_r; lia|]. rewrite (Z.pow_neg_r 2 b) by lia. apply Z.pow_pos_nonneg; lia.
Qed.

(** What the arguments become. *)
Record created (sz align bd : Z) (pool : dma_pool) : Prop := {
  cr_wf : pool_wf pool;
  cr_size : sz <= size pool;
  cr_align : exists a, 0 <= a /\ (align <> 0 -> align = 2 ^ a) /\ (2 ^ a | size pool) /\ 2 ^ a <= boundary pool;
  cr_boundary : boundary pool = allocation pool \/ exists b, 0 <= b /\ boundary pool = 2 ^ b;
  cr_given : bd <> 0 -> boundary pool = bd /\ exists b, 0 <= b /\ bd = 2 ^ b;
}.

Lemma land_pred_pow x : 0 < x < 2 ^ 64 -> bool_of (Z.land x (u64 (x - 1))) = false -> exists k, 0 <= k /\ x = 2 ^ k.
Proof using Type.
  intros Hx Hl. rewrite u64_small in Hl by (unfold is_u64; lia). apply pow2_of_land; [lia|]. unfold bool_of in Hl. apply negb_false_iff, Z.eqb_eq in Hl. done.
Qed.

Lemma dma_create_ok dev id ok err sz align bd pool dev' : 0 <= sz < 2 ^ 30 -> 0 <= align <= 2 ^ 30 -> 0 <= bd < 2 ^ 31 ->
  dma_pool_create dev id ok err sz align bd = (Some pool, dev') -> boundary pool <= allocation pool -> created sz align bd pool.
Proof using Type*.
  intros Hsz Hal Hbd. unfold dma_pool_create. destruct (negb (align =? 0) && bool_of (Z.land align (u64 (align - 1)))) eqn:Ea; [done|].
  assert (Hpow : exists a, 0 <= a /\ (if align =? 0 then 1 else align) = 2 ^ a /\ (align <> 0 -> align = 2 ^ a) /\ 2 ^ a <= 2 ^ 30).
  { destruct (Z.eqb_spec align 0) as [|Hne]; [by exists 0|]. cbn [negb andb] in Ea. destruct (land_pred_pow align) as (a & Ha & ->); [lia|done|]. exists a. split_and!; [done|done|done|lia]. }
  destruct Hpow as (a & Ha & -> & Hgiven & Hale). cbv zeta. destruct (Z.eqb_spec sz 0) as [|Hs0]; [done|].
  set (s1 := if sz <? 4 then 4 else sz). assert (Hs1 : sz <= s1 /\ 4 <= s1 < 2 ^ 30) by (unfold s1; destruct (Z.ltb_spec sz 4); lia).
  set (s2 := if negb (s1 mod 2 ^ a =? 0) then ALIGN s1 (2 ^ a) else s1). assert (0 < 2 ^ a) by (apply Z.pow_pos_nonneg; lia).
  assert (Hs2 : s1 <= s2 < 2 ^ 31 /\ (2 ^ a | s2)).
  { unfold s2. destruct (Z.eqb_spec (s1 mod 2 ^ a) 0) as [Hm|Hm]; cbn [negb]; [split; [lia|by apply Z.mod_divide; [lia|]]|].
    destruct (align_ok s1 a) as [Hb Hd]; [lia..|]. split; [lia|done]. }
  clearbody s1 s2. destruct Hs2 as [Hs2 Hdiv]. destruct (page_size_ok) as (k & Hk & Hpage).
  destruct (bool_of bd && ((bd <? s2) || bool_of (Z.land bd (u64 (bd - 1))))) eqn:Eb; [done|]. destruct ok; cbn [negb]; [|done].
  intros Hres Hba. assert (Hpool : pool = DmaPool s2 (Z.max s2 PAGE_SIZE) (if bool_of bd then bd else Z.max s2 PAGE_SIZE)).
  { destruct (dma_pools dev); [destruct (bool_of err); [done|]|]; by injection Hres as <- _. }
  clear Hres. subst pool. cbn [boundary allocation] in Hba. assert (Hp16 : 2 ^ 12 <= PAGE_SIZE <= 2 ^ 16) by (rewrite Hpage; split; apply Z.pow_le_mono_r; lia).
  assert (Has : 2 ^ a <= s2) by (apply Z.divide_pos_le; [lia|done]). unfold bool_of in Eb, Hba |- *. destruct (Z.eqb_spec bd 0) as [->|Hbne]; cbn [negb andb] in *.
  - split; cbn [size allocation boundary]; [split; cbn [size allocation boundary]; [lia|lia|apply Z.divide_refl|lia]|lia| |by left|done].
    exists a. split_and!; [done|done|done|lia].
  - apply orb_false_elim in Eb as [Eb1%Z.ltb_ge Eb2]. destruct (land_pred_pow bd) as (b & Hb & Hbp); [lia|done|].
    split; cbn [size allocation boundary]; [split; cbn [size allocation boundary]; [lia|done| |lia]|lia| |right; by exists b|intros _; split; [done|by exists b]].
    + destruct (Z.max_spec s2 PAGE_SIZE) as [[_ Hm]|[_ Hm]]; rewrite Hm in *; [rewrite Hbp, Hpage in *; by apply pow2_divide|].
      replace bd with s2 by lia. apply Z.divide_refl.
    + exists a. split_and!; [done|done|done|lia].
Qed.
End Create.

Section Theorems.
Context `{DmaConfig} `{!DmaConfigSpec} `{Coherent} `{!CoherentSpec}.

(** A pool that was just made: no pages and no calls. *)
Definition started (S : dsystem) : Prop := page_list S = [] /\ wants S = [] /\ extra S = [] /\ used S = [].

Lemma started_inv pool S : started S -> inv pool (mapped (coh S)) S.
Proof using Type.
  intros (Hp & Hw & He & Hu). exists []. split; rewrite ?Hp, ?He, ?Hu; try done; [split; [done|constructor]|]. split; [|intros v d Hin; by apply elem_of_nil in Hin].
  intros v d n. split; [by left|]. intros [?|[_ Hin]]; [done|]. by apply elem_of_nil in Hin.
Qed.

Lemma run_inv pool S0 S : pool_wf pool -> started S0 -> rtc (step pool) S0 S -> inv pool (mapped (coh S0)) S.
Proof using Type. intros Hwf Hst Hr. apply (dma_reach_inv pool Hwf _ S0); [|done]. by apply started_inv. Qed.

(** Within a multiple of [b] a block that does not cross in the page does not cross. *)
Lemma same_segment b v0 k r n : 0 < b -> (b | v0) -> 0 <= r -> 0 < n -> r + n <= b -> (v0 + (k * b + r)) / b = (v0 + (k * b + r) + n - 1) / b.
Proof using Type.
  intros Hb [q ->] Hr Hn Hin. replace (q * b + (k * b + r)) with (r + (q + k) * b) by ring. replace (r + (q + k) * b + n - 1) with (r + n - 1 + (q + k) * b) by ring.
  rewrite !Z.div_add by lia. by rewrite !Z.div_small by lia.
Qed.

(** Where a block lies: of [v0], or likewise of the address for the device. *)
Lemma block_placed sz align bd pool v0 k o : created sz align bd pool -> allocation pool <= 2 ^ k -> (2 ^ k | v0) -> o ∈ blocks pool ->
  (align <> 0 -> (align | v0 + o)) /\ (bd <> 0 -> (v0 + o) / bd = (v0 + o + size pool - 1) / bd).
Proof using Type.
  intros [Hwf Hsz (a & Ha & Hal & Hdiv & Hab) Hbd Hgiven] Hk Hv Ho. apply elem_blocks in Ho as [Hin Hb].
  destruct (block_facts pool Hwf o Hb) as (s & j & Hoe & Hj & Hjs & Hs & _). destruct Hwf as [Hw1 Hw2 Hw3 Hw4].
  assert (Hba : boundary pool <= allocation pool) by (apply Z.divide_pos_le; [lia|done]). split.
  - intros Hne. rewrite (Hal Hne). apply Z.divide_add_r; [etransitivity; [|exact Hv]; apply pow2_divide; [done|lia]|]. rewrite Hoe.
    apply Z.divide_add_r; [|by apply Z.divide_mul_r]. destruct Hbd as [Hbd|(b & Hb0 & Hbd)].
    + rewrite Hs, Hbd, Z.div_small by lia. apply Z.divide_0_r.
    + apply Z.divide_mul_r. rewrite Hbd in *. by apply pow2_divide.
  - intros Hne. destruct (Hgiven Hne) as [Hgb (b & Hb0 & Hbp)]. rewrite <- Hgb, Hoe. apply same_segment; [lia| |nia|lia|lia].
    rewrite Hgb, Hbp in *. etransitivity; [|exact Hv]. apply pow2_divide; [done|lia].
Qed.

(** C14: Blocks of a DMA pool that [dma_pool_create] made with a boundary of at most one page
    of the pool.  In every interleaving of allocations, frees and writes of the drivers
    to their blocks, the blocks in use have the size that was asked for, lie within memory
    from [dma_alloc_coherent], at the same place for the driver and the device, are aligned, do
    not cross the boundary and do not overlap; every call returns without an access
    outside of the memory of its page, and the debugging code reports nothing. *)
Theorem dma_pool_blocks_safe dev id ok err sz align bd pool dev' S0 S : 0 <= sz < 2 ^ 30 -> 0 <= align <= 2 ^ 30 -> 0 <= bd < 2 ^ 31 ->
  dma_pool_create dev id ok err sz align bd = (Some pool, dev') -> boundary pool <= allocation pool -> started S0 -> rtc (step pool) S0 S ->
  sz <= size pool /\ NoDup (used S) /\ serves pool S /\
  (forall v d, (v, d) ∈ used S ->
    (exists v0 d0, mapped (coh S) v0 d0 (allocation pool) /\ v0 <= v /\ v + size pool <= v0 + allocation pool /\ d - d0 = v - v0) /\
    (align <> 0 -> (align | v) /\ (align | d)) /\
    (bd <> 0 -> v / bd = (v + size pool - 1) / bd /\ d / bd = (d + size pool - 1) / bd)) /\
  (forall v d v' d', (v, d) ∈ used S -> (v', d') ∈ used S -> (v, d) <> (v', d') ->
    (v + size pool <= v' \/ v' + size pool <= v) /\ (d + size pool <= d' \/ d' + size pool <= d)).
Proof using Type*.
  intros Hsz Hal Hbd Hc Hba Hst Hr. pose proof (dma_create_ok _ _ _ _ _ _ _ _ _ Hsz Hal Hbd Hc Hba) as Hcr. pose proof (cr_wf _ _ _ _ Hcr) as Hwf.
  pose proof (run_inv pool S0 S Hwf Hst Hr) as HI. split; [apply Hcr|]. pose proof (inv_serves pool Hwf _ S HI) as Hsv. destruct HI as [gs HI].
  destruct (handles_nodup pool Hwf _ S gs HI) as [Hnd Hap]. split; [done|]. split; [done|]. split; [|done].
  intros v d Hu. destruct (used_block _ _ _ _ _ _ HI Hu) as (gs1 & p & l & u & gs2 & o & -> & Ho & -> & ->).
  pose proof (ghost_owned _ _ _ _ _ _ HI) as [HF _]. cbn [fst] in HF. rewrite list.Forall_forall in HF. specialize (HF p (elem_middle _ _ _)).
  pose proof (ghost_ok _ _ _ _ _ HI (elem_middle _ _ _)) as Hok. cbn [fst snd] in Hok.
  assert (Hob : o ∈ blocks pool) by (apply (page_block pool p l u); [done|by right]). destruct (block_inside pool Hwf o Hob).
  destruct (mapped_bounds _ _ _ _ HF) as (_ & _ & _ & _ & k & Hk & Hak & Hv & Hd).
  destruct (block_placed _ _ _ _ _ _ _ Hcr Hak Hv Hob) as [HA1 HB1]. destruct (block_placed _ _ _ _ _ _ _ Hcr Hak Hd Hob) as [HA2 HB2].
  split; [|split; [intros Hne; split; [by apply HA1|by apply HA2]|intros Hne; split; [by apply HB1|by apply HB2]]].
  exists (vaddr p), (dma p). split; [done|]. lia.
Qed.

(** ** No block is lost *)
Lemma ready_count pool gs : pool_wf pool -> Forall (fun g => page_ok pool g.1 g.2.1 g.2.2) gs ->
  (length (all_handles gs) <= length gs * length (blocks pool))%nat /\
  (find_ready pool (map fst gs) = None <-> length (all_handles gs) = (length gs * length (blocks pool))%nat).
Proof using Type.
  intros Hwf. induction gs as [|[p [l u]] gs IH]; intros Hok; [done|]. apply list.Forall_cons in Hok as [Hp Hok]. destruct (IH Hok) as [Hle Hiff]. cbn [fst snd] in Hp.
  unfold all_handles in *. rewrite bind_cons, length_app. unfold handles at 1 3. cbn [map fst snd length find_ready]. rewrite length_map.
  rewrite (page_ready pool Hwf p l u Hp). pose proof (Permutation_length (pk_blocks _ _ _ _ Hp)) as Hl.
  rewrite length_app in Hl. destruct l as [|o l]; cbn [length] in Hl.
  - split; [lia|]. destruct (find_ready pool (map fst gs)) as [[[? ?] ?]|]; [|split; [intros _; destruct Hiff as [Hi _]; specialize (Hi eq_refl); lia|done]].
    split; [done|]. intros Heq. assert (Hx : length (gs ≫= handles) = (length gs * length (blocks pool))%nat) by lia. by apply Hiff in Hx.
  - split; [lia|]. split; [done|]. lia.
Qed.

(** C36: [dma_pool_alloc] asks for another page only when every block of all pages of the pool is
    in use: no block is lost, however blocks were allocated and freed. *)
Theorem dma_pool_no_block_lost pool S0 S : pool_wf pool -> started S0 -> rtc (step pool) S0 S ->
  find_ready pool (page_list S) = None <-> length (used S) = (length (page_list S) * length (blocks pool))%nat.
Proof using Type*.
  intros Hwf Hst Hr. destruct (run_inv pool S0 S Hwf Hst Hr) as [gs HI]. rewrite (pi_used _ _ _ _ HI), (pi_pages _ _ _ _ HI), length_map.
  by apply ready_count; [|apply HI].
Qed.

(** ** Wrong calls *)

(** C37: With the debugging code [dma_pool_free] refuses a block that is free already, and an
    address for the driver whose offset in the page, cut to 32 bits, is not that of the address for the
    device; with or without it an address for the device outside of all pages is refused.  Nothing changes then. *)
Theorem dma_pool_bad_free_refused pool S0 S : pool_wf pool -> started S0 -> rtc (step pool) S0 S ->
  (forall p o, DMAPOOL_DEBUG = true -> p ∈ page_list S -> o ∈ blocks pool -> (vaddr p + o, dma p + o) ∉ used S ->
    dma_pool_free pool (page_list S) (vaddr p + o) (dma p + o) = Done (AlreadyFree, page_list S)) /\
  (forall p v d, DMAPOOL_DEBUG = true -> p ∈ page_list S -> dma p <= d < dma p + allocation pool -> u32 (u64 (v - vaddr p)) <> d - dma p ->
    dma_pool_free pool (page_list S) v d = Done (BadVaddr, page_list S)) /\
  (forall v d, (forall p, p ∈ page_list S -> ~ dma p <= d < dma p + allocation pool) -> dma_pool_free pool (page_list S) v d = Done (BadDma, page_list S)).
Proof using Type*.
  intros Hwf Hst Hr. destruct (run_inv pool S0 S Hwf Hst Hr) as [gs HI]. split; [|split].
  - intros p o Hdb Hp Ho Hnu. rewrite (pi_pages _ _ _ _ HI) in Hp. apply list_elem_of_split in Hp as (l1 & l2 & Hl). apply split_fst in Hl as (gs1 & l & u & gs2 & -> & -> & ->).
    pose proof (ghost_ok _ _ _ _ _ HI (elem_middle _ _ _)) as Hok. cbn [fst snd] in Hok. rewrite <- (pk_blocks _ _ _ _ Hok) in Ho. apply elem_of_app in Ho.
    destruct (find_block pool Hwf _ S gs1 p l u gs2 o HI Ho) as (Hf & Hoff & Hoff'). unfold dma_pool_free. rewrite Hf, Hoff, Hoff', Z.eqb_refl, Hdb. cbn [negb andb].
    pose proof (in_chain pool Hwf _ S gs1 p l u gs2 o HI) as Hch. cbn [Nat.add] in Hch. rewrite Hch. cbn [mbind outcome_bind].
    rewrite bool_decide_true; [done|]. destruct Ho as [|Ho]; [done|]. exfalso. apply Hnu. rewrite (pi_used _ _ _ _ HI), all_handles_middle, elem_of_app. left.
    by apply (list_elem_of_fmap_2 (fun o => (vaddr p + o, dma p + o)) u o).
  - intros p v d Hdb Hp Hd Hne. rewrite (pi_pages _ _ _ _ HI) in Hp. apply list_elem_of_split in Hp as (l1 & l2 & Hl). pose proof Hl as Hl'.
    apply split_fst in Hl' as (gs1 & l & u & gs2 & -> & -> & ->). pose proof (ghost_owned _ _ _ _ _ _ HI) as Hown. cbn [fst] in Hown.
    unfold dma_pool_free. rewrite (pi_pages _ _ _ _ HI), Hl, find_page_here; [|intros q Hq; destruct (owned_apart _ _ _ _ p q Hown) as [_ Hx]; [apply elem_of_app; by left|lia]|done].
    pose proof (pw_alloc _ Hwf). rewrite (u64_small (d - dma p)) by (unfold is_u64; lia). rewrite Hdb. rewrite (proj2 (Z.eqb_neq _ _)); [done|congruence].
  - intros v d Hno. unfold dma_pool_free. pose proof (find_page_ok pool (page_list S) d) as Hf. destruct (pool_find_page pool (page_list S) d) as [[[l1 p] l2]|]; [|done].
    destruct Hf as [Hl Hd]. exfalso. apply (Hno p); [|done]. rewrite Hl. apply elem_middle.
Qed.

(** ** Destroying a pool *)
Lemma destroy_ok pool l : pool_wf pool -> forall c O, account pool O c l -> NoDup (map vaddr l) -> forall v d n, mapped (destroy_pages c pool l) v d n <->
  O v d n \/ exists p, p ∈ l /\ in_use p <> 0 /\ (v, d, n) = (vaddr p, dma p, allocation pool).
Proof using Type*.
  intros Hwf. induction l as [|p l IH]; intros c O [HM Ho] Hnd v d n; cbn [destroy_pages].
  { rewrite HM. split; [intros [?|[_ Hin]]; [by left|by apply elem_of_nil in Hin]|intros [?|(p & Hp & _)]; [by left|by apply elem_of_nil in Hp]]. }
  cbn [map] in Hnd. apply list.NoDup_cons in Hnd as [Hnp Hnd]. unfold places in HM, Ho. cbn [map] in HM, Ho.
  assert (Hout : (vaddr p, dma p) ∉ places l) by (intros (q & [= Hv _] & Hq)%(list_elem_of_fmap _ l); apply Hnp; rewrite Hv; by apply (list_elem_of_fmap_2 vaddr)).
  unfold is_page_busy. destruct (Z.eqb_spec (in_use p) 0) as [Hz|Hz]; cbn [negb].
  - assert (Hmp : mapped c (vaddr p) (dma p) (allocation pool)) by (apply HM; right; split; [done|apply list_elem_of_here]).
    rewrite (IH (pool_free_page c pool p) O); [|split|done].
    + split; [intros [?|(q & Hq & ?)]; [by left|right; exists q; split; [by apply list_elem_of_further|done]]|].
      intros [?|(q & Hq & Hu & He)]; [by left|]. apply elem_of_cons in Hq as [->|Hq]; [done|]. right. by exists q.
    + intros v' d' n'. unfold pool_free_page. rewrite (coherent_free_ok _ _ _ _ Hmp), HM, elem_of_cons. split.
      * intros [[?|[-> [[= -> ->]|?]]] Hne]; [by left|done|by right].
      * intros [Hx|[-> Hx]]; (split; [tauto|]); intros [= -> ->]; [|done]. apply (Ho (vaddr p) (dma p)); [apply list_elem_of_here|]. by subst.
    + intros v' d' Hin. apply Ho. by apply list_elem_of_further.
  - rewrite (IH c (fun v d n => O v d n \/ (v, d, n) = (vaddr p, dma p, allocation pool))); [|split|done].
    + split; [intros [[?|?]|(q & Hq & ?)]; [by left|right; exists p; split; [apply list_elem_of_here|done]|right; exists q; split; [by apply list_elem_of_further|done]]|].
      intros [?|(q & Hq & Hu & He)]; [left; by left|]. apply elem_of_cons in Hq as [->|Hq]; [left; by right|]. right. by exists q.
    + intros v' d' n'. rewrite HM, elem_of_cons. split; [intros [?|[-> [[= -> ->]|?]]]|intros [[?|[= -> -> ->]]|[-> ?]]]; tauto.
    + intros v' d' Hin [Hx|[= -> ->]]; [|done]. apply (Ho v' d'); [by apply list_elem_of_further|done].
Qed.

(** C38: [dma_pool_destroy] gives the pages of the pool back, except those with blocks in use,
    which it leaks: when no block is in use all memory the pool took is back. *)
Theorem dma_pool_destroy_returns pool S0 S dev id c dev' : pool_wf pool -> started S0 -> rtc (step pool) S0 S -> extra S = [] ->
  dma_pool_destroy (coh S) dev id (Some (pool, page_list S)) = (c, dev') ->
  (forall v d n, mapped c v d n <-> mapped (coh S0) v d n \/ exists p, p ∈ page_list S /\ in_use p <> 0 /\ (v, d, n) = (vaddr p, dma p, allocation pool)) /\
  (used S = [] -> forall v d n, mapped c v d n <-> mapped (coh S0) v d n).
Proof using Type*.
  intros Hwf Hst Hr He. destruct (run_inv pool S0 S Hwf Hst Hr) as [gs HI]. cbn [dma_pool_destroy]. intros [= <- _].
  pose proof (pi_account _ _ _ _ HI) as Hac. pose proof (pi_owned _ _ _ _ HI) as [_ Hnd]. rewrite He in Hac, Hnd. cbn [map] in Hac, Hnd. rewrite app_nil_r in Hac, Hnd.
  pose proof (destroy_ok pool (page_list S) Hwf (coh S) _ Hac Hnd) as Hd. split; [exact Hd|]. intros Hu v d n. rewrite Hd. split; [|by left]. intros [?|(p & Hp & Hin & _)]; [done|].
  exfalso. apply Hin. rewrite (pi_pages _ _ _ _ HI) in Hp. apply list_elem_of_split in Hp as (l1 & l2 & Hl). apply split_fst in Hl as (gs1 & l & u & gs2 & -> & -> & ->).
  pose proof (ghost_ok _ _ _ _ _ HI (elem_middle _ _ _)) as Hok. cbn [fst snd] in Hok. rewrite (pk_in_use _ _ _ _ Hok).
  pose proof (Permutation_length (pi_used _ _ _ _ HI)) as Hlen. rewrite Hu, all_handles_middle, length_app in Hlen. unfold handles in Hlen. cbn [fst snd length] in Hlen.
  rewrite length_map in Hlen. lia.
Qed.
End Theorems.
