(* ===== verification/DmaPoolRun.v ===== *)
(** * DMA pools: configurations and runs

    A source of coherent memory that keeps what it promises, runs of the pool on it, and two
    things the code does wrong. *)

From stdpp Require Import relations.
From S2P Require Import Prelude Runs Gfp DmaPool DmaPoolInv DmaPoolSteps DmaPoolRuns DmaPoolProps.
#[local] Open Scope Z_scope.

(** ** Steps as a function *)
Inductive dma_action := Alloc (flags : Z) | GetPage | LinkPage | FreeNth (n : nat) | WriteNth (n : nat) (i b : Z).

Section Exec.
Context `{DmaConfig} `{Coherent} (pool : dma_pool).

Definition exec (S : dsystem) (a : dma_action) : option dsystem :=
  match a with
  | Alloc flags =>
      match find_ready pool (page_list S) with
      | Some (l1, p, l2) =>
          match alloc_ready pool p flags with
          | Done (r, h, _, p') => Some (DSys (coh S) (l1 ++ p' :: l2) (wants S) (extra S) ((r, h) :: used S))
          | _ => None
          end
      | None => Some (DSys (coh S) (page_list S) (flags :: wants S) (extra S) (used S))
      end
  | GetPage =>
      match wants S with
      | flags :: w =>
          match pool_alloc_page (coh S) pool (page_flags flags) with
          | Done (r, c) => Some (DSys c (page_list S) w (match r with Some p => (flags, p) :: extra S | None => extra S end) (used S))
          | _ => None
          end
      | [] => None
      end
  | LinkPage =>
      match extra S with
      | (flags, p) :: e =>
          match alloc_ready pool p flags with
          | Done (r, h, _, p') => Some (DSys (coh S) (p' :: page_list S) (wants S) e ((r, h) :: used S))
          | _ => None
          end
      | [] => None
      end
  | FreeNth n =>
      match used S !! n with
      | Some (v, d) =>
          match dma_pool_free pool (page_list S) v d with
          | Done (r, l) => Some (DSys (coh S) l (wants S) (extra S) (match r with Freed => take n (used S) ++ drop (1 + n) (used S) | _ => used S end))
          | _ => None
          end
      | None => None
      end
  | WriteNth n i b =>
      match used S !! n with
      | Some (v, _) =>
          if decide (0 <= i < size pool /\ 0 <= b < 256)
          then Some (DSys (coh S) (map (write_byte pool (v + i) b) (page_list S)) (wants S) (extra S) (used S)) else None
      | None => None
      end
  end.

Lemma dma_exec_step S a S' : exec S a = Some S' -> step pool S S'.
Proof using Type.
  destruct a as [flags| | |n|n i b]; cbn [exec].
  - destruct (find_ready pool (page_list S)) as [[[l1 p] l2]|] eqn:Hf; [|intros [= <-]; by apply step_none].
    destruct (alloc_ready pool p flags) as [[[[r h] rep] p']| | |] eqn:Ha; [|done..]. intros [= <-]. by eapply step_found.
  - destruct (wants S) as [|flags w] eqn:Hw; [done|]. destruct (pool_alloc_page _ _ _) as [[r c]| | |] eqn:Ha; [|done..]. intros [= <-]. by apply (step_page pool S flags [] w r c).
  - destruct (extra S) as [|[flags p] e] eqn:He; [done|]. destruct (alloc_ready _ _ _) as [[[[r h] rep] p']| | |] eqn:Ha; [|done..]. intros [= <-].
    by apply (step_link pool S flags p [] e r h rep p').
  - destruct (used S !! n) as [[v d]|] eqn:Hn; [|done]. destruct (dma_pool_free _ _ _ _) as [[r l]| | |] eqn:Hf; [|done..]. intros [= <-].
    apply (step_free pool S v d (take n (used S)) (drop (1 + n) (used S)) r l); [|done]. symmetry. by apply take_drop_middle.
  - destruct (used S !! n) as [[v d]|] eqn:Hn; [|done]. destruct (decide _) as [[Hi Hb]|]; [|done]. intros [= <-].
    apply (step_write pool S v d i b); [by eapply list_elem_of_lookup_2|done|done].
Qed.

End Exec.

(** ** Coherent memory *)

(** Regions are slots of 2^32 bytes; a slot has the size of what is mapped in it. *)
#[export] Instance slots : Coherent := {|
  coherent := list (option Z);
  dma_alloc_coherent c n _ :=
    if (n <=? 2 ^ 32) && (Z.of_nat (length c) <? 2 ^ 20) then (Some ((Z.of_nat (length c) + 1) * 2 ^ 32, (Z.of_nat (length c) + 1) * 2 ^ 32), c ++ [Some n]) else (None, c);
  dma_free_coherent c n v d := <[Z.to_nat (v / 2 ^ 32 - 1) := None]> c;
  kmalloc c _ := (true, c);
  fresh_byte _ _ := 0;
|}.

Definition slot_mapped (c : list (option Z)) (v d n : Z) : Prop :=
  exists i, c !! i = Some (Some n) /\ v = (Z.of_nat i + 1) * 2 ^ 32 /\ d = v /\ 0 < n <= 2 ^ 32 /\ Z.of_nat i < 2 ^ 20.

#[export] Instance slots_spec : CoherentSpec.
Proof.
  refine (Build_CoherentSpec slots slot_mapped _ _ _ _ _ _).
  - intros c v d n (i & _ & -> & -> & Hn & Hi). split_and!; [lia..|]. exists 32. split_and!; [lia|lia|by exists (Z.of_nat i + 1)..].
  - intros c v d n v' d' n' (i & Hl & -> & -> & Hn & Hi) (i' & Hl' & -> & -> & Hn' & Hi') Hne. assert (i <> i') by (intros ->; rewrite Hl in Hl'; injection Hl' as ->; done). lia.
  - intros c n g c'. cbn [dma_alloc_coherent slots]. destruct (_ && _); [done|]. by intros [= <-].
  - intros c n g v d c' Hn. cbn [dma_alloc_coherent slots]. destruct (Z.leb_spec n (2 ^ 32)), (Z.ltb_spec (Z.of_nat (length c)) (2 ^ 20)); cbn [andb]; try done.
    intros [= <- <- <-]. split.
    + intros d' n' (i & Hl & Hv & _). apply lookup_lt_Some in Hl. lia.
    + intros v' d' n'. split.
      * intros (i & Hl & -> & -> & Hn' & Hi). apply lookup_app_Some in Hl as [Hl|[Hge Hl]]; [right; by exists i|]. apply list_lookup_singleton_Some in Hl as [Hi0 [= <-]].
        left. by replace i with (length c) by lia.
      * intros [[= -> -> ->]|(i & Hl & -> & -> & Hn' & Hi)].
        -- exists (length c). rewrite lookup_app_r, Nat.sub_diag by lia. by split_and!; try lia.
        -- exists i. split_and!; try done; try lia. by apply lookup_app_l_Some.
  - intros c n v d (i & Hl & -> & -> & Hn & Hi) v' d' n'. cbn [dma_free_coherent slots]. rewrite Z.div_mul by lia. replace (Z.to_nat (Z.of_nat i + 1 - 1)) with i by lia. split.
    + intros (j & Hj & -> & -> & Hn' & Hj'). destruct (decide (i = j)) as [<-|Hij]; [rewrite list_lookup_insert_eq in Hj by (by apply lookup_lt_Some in Hl); done|].
      rewrite list_lookup_insert_ne in Hj by done. split; [by exists j|]. intros [= ? ?]. lia.
    + intros [(j & Hj & -> & -> & Hn' & Hj') Hne]. exists j. split_and!; try done; try lia. rewrite list_lookup_insert_ne; [done|]. intros <-. rewrite Hl in Hj. injection Hj as ->. done.
  - intros c g ok c'. cbn [kmalloc slots]. by intros [= <- <-].
Defined.

(** Pages of 4096 bytes. *)
Definition config (debug : bool) : DmaConfig :=
  {| PAGE_SIZE := 4096; ALIGN x a := (x + a - 1) / a * a; DMAPOOL_DEBUG := debug; POOL_POISON_FREED := 0xa7; POOL_POISON_ALLOCATED := 0xa9 |}.

Lemma config_spec debug : @DmaConfigSpec (config debug).
Proof.
  split; cbn [PAGE_SIZE ALIGN config]; [by exists 12|]. intros x k Hx Hk Hm. assert (0 < 2 ^ k) by (apply Z.pow_pos_nonneg; lia).
  pose proof (Z.div_mod (x + 2 ^ k - 1) (2 ^ k) ltac:(lia)). pose proof (Z.mod_pos_bound (x + 2 ^ k - 1) (2 ^ k) ltac:(lia)).
  split; [|apply Z.divide_factor_r]. lia.
Qed.

Definition no_pools : device := Device [] false.
Definition fresh_pool : dsystem := DSys (H0 := slots) [] [] [] [] [].

Lemma fresh_started : started fresh_pool.
Proof. by repeat split. Qed.

(** The blocks of a concrete pool, one after the other. *)
Ltac list_blocks Hwf :=
  unfold blocks;
  repeat match goal with
  | |- context [blocks_from ?p ?o] =>
      rewrite (blocks_from_step p Hwf o ltac:(cbn; lia) eq_refl); let a := eval vm_compute in (after p o) in change (after p o) with a
  end;
  match goal with |- context [blocks_from ?p ?o] => change (blocks_from p o) with (blocks_from p (allocation p)) end; rewrite blocks_from_end; reflexivity.

(** *** A pool for blocks of 600 bytes *)

(** They are aligned to 32 bytes and stay within 2048 bytes: each is 608 bytes long. *)
Module Sound.
#[local] Instance cfg : DmaConfig := config true.
#[local] Instance cfg_spec : DmaConfigSpec := config_spec true.

Definition pool : dma_pool := DmaPool 608 4096 2048.

Lemma pool_created : dma_pool_create no_pools 1 true 0 600 32 2048 = (Some pool, Device [1] true).
Proof. reflexivity. Qed.

(** Two blocks are taken, one is written to and freed, and another taken with
    [__GFP_ZERO]. *)
Definition script : list dma_action := [Alloc 0; GetPage; LinkPage; Alloc 0; WriteNth 0 5 17; FreeNth 0; Alloc ___GFP_ZERO].
Definition busy : dsystem := default fresh_pool (run (exec pool) fresh_pool script).

Lemma busy_reached : rtc (step pool) fresh_pool busy.
Proof. apply (run_default (step pool) (exec pool) (dma_exec_step pool) script); vm_compute; exact I. Qed.

Lemma pool_ok : pool_wf pool.
Proof. split; cbn; try lia. by exists 2. Qed.

Lemma pool_blocks : blocks pool = [0; 608; 1216; 2048; 2656; 3264].
Proof. list_blocks pool_ok. Qed.

Lemma dma_pool_blocks_safe_witness : used busy = [(0x100000260, 0x100000260); (0x100000000, 0x100000000)] /\ NoDup (used busy) /\ serves pool busy.
Proof.
  assert (H1 : 0 <= 600 < 2 ^ 30) by lia. assert (H2 : 0 <= 32 <= 2 ^ 30) by lia. assert (H3 : 0 <= 2048 < 2 ^ 31) by lia.
  assert (H4 : boundary pool <= allocation pool) by (cbn; lia).
  destruct (dma_pool_blocks_safe no_pools 1 true 0 600 32 2048 pool (Device [1] true) fresh_pool busy H1 H2 H3 pool_created H4 fresh_started busy_reached) as (_ & Hn & Hs & _).
  split; [vm_compute; reflexivity|]. exact (conj Hn Hs).
Defined.

(** 6 blocks, two of them in use. *)
Lemma dma_pool_no_block_lost_witness : length (used busy) = 2%nat /\ length (blocks pool) = 6%nat /\ find_ready pool (page_list busy) <> None.
Proof.
  assert (Hu : length (used busy) = 2%nat) by (vm_compute; reflexivity). assert (Hb : length (blocks pool) = 6%nat) by (rewrite pool_blocks; reflexivity).
  assert (Hp : length (page_list busy) = 1%nat) by (vm_compute; reflexivity).
  split; [exact Hu|]. split; [exact Hb|]. intros Hn. apply (dma_pool_no_block_lost pool fresh_pool busy pool_ok fresh_started busy_reached) in Hn.
  rewrite Hu, Hb, Hp in Hn. discriminate.
Defined.

Lemma one_page (l : list dma_page) v d : map (fun p => (vaddr p, dma p)) l = [(v, d)] -> exists p, l = [p] /\ vaddr p = v /\ dma p = d.
Proof. destruct l as [|p [|]]; [done| |done]. intros [= <- <-]. by exists p. Qed.

(** The block at 2048 is free. *)
Lemma dma_pool_bad_free_refused_witness : exists p, page_list busy = [p] /\
  dma_pool_free pool (page_list busy) (vaddr p + 2048) (dma p + 2048) = Done (AlreadyFree, page_list busy).
Proof.
  assert (Hpl : map (fun p => (vaddr p, dma p)) (page_list busy) = [(0x100000000, 0x100000000)]) by (vm_compute; reflexivity).
  assert (Hu : used busy = [(0x100000260, 0x100000260); (0x100000000, 0x100000000)]) by (vm_compute; reflexivity).
  pose proof (dma_pool_bad_free_refused pool fresh_pool busy pool_ok fresh_started busy_reached) as [Hfree _].
  apply one_page in Hpl as (p & Hl & Hv & Hd). exists p. split; [exact Hl|]. apply Hfree.
  - reflexivity.
  - rewrite Hl. apply list_elem_of_here.
  - apply elem_blocks. split; [cbn; lia|reflexivity].
  - rewrite Hu, Hv, Hd. refine (bool_decide_unpack _ _). vm_compute. exact I.
Defined.

(** The offset is computed in 32 bits: an address for the driver that is 2^32 too large passes the check, and the links of
    the free blocks are written outside of the pool. *)
Example far_vaddr_not_refused : (0x100000000, 0x100000000) ∈ used busy /\ dma_pool_free pool (page_list busy) (0x100000000 + 2 ^ 32) 0x100000000 = Bug.
Proof. split; [|by vm_compute]. vm_compute. set_solver. Qed.

Definition emptied : dsystem := default fresh_pool (run (exec pool) fresh_pool (script ++ [FreeNth 1; FreeNth 0])).

Lemma emptied_reached : rtc (step pool) fresh_pool emptied.
Proof. apply (run_default (step pool) (exec pool) (dma_exec_step pool) (script ++ [FreeNth 1; FreeNth 0])); vm_compute; exact I. Qed.

Lemma dma_pool_destroy_returns_witness : used emptied = [] /\ length (page_list emptied) = 1%nat /\
  forall v d n, mapped (dma_pool_destroy (coh emptied) (Device [1] true) 1 (Some (pool, page_list emptied))).1 v d n <-> mapped (coh fresh_pool) v d n.
Proof.
  assert (Hu : used emptied = []) by (vm_compute; reflexivity). assert (He : extra emptied = []) by (vm_compute; reflexivity). split; [exact Hu|].
  split; [vm_compute; reflexivity|].
  exact (proj2 (dma_pool_destroy_returns pool fresh_pool emptied (Device [1] true) 1 _ _ pool_ok fresh_started emptied_reached He (surjective_pairing _)) Hu).
Defined.

Lemma exact_ok : pool_wf (DmaPool 1024 4096 2048).
Proof. split; cbn; try lia. by exists 2. Qed.

(** A block that would end exactly at a boundary is not used: four blocks of 1024 bytes fit into
    the page without crossing a multiple of 2048, half of them are wasted. *)
Example boundary_wastes_blocks : dma_pool_create no_pools 1 true 0 1024 32 2048 = (Some (DmaPool 1024 4096 2048), Device [1] true) /\ blocks (DmaPool 1024 4096 2048) = [0; 2048].
Proof. split; [reflexivity|]. list_blocks exact_ok. Qed.
End Sound.

(** *** A boundary larger than a page *)
Module Overrun.
#[local] Instance cfg : DmaConfig := config false.

Definition pool : dma_pool := DmaPool 3000 4096 8192.
Definition script : list dma_action := [Alloc 0; GetPage; LinkPage; Alloc 0].
Definition state : dsystem := default fresh_pool (run (exec pool) fresh_pool script).

(** [dma_pool_create] accepts a boundary that is larger than the memory of a page.  The loop of
    [pool_initialise_page] keeps blocks from crossing the boundary but not from
    crossing the end of the page: of blocks of 3000 bytes with a boundary of 8192, the second
    one that [dma_pool_alloc] returns lies at 3000 in a page of 4096 bytes and reaches
    1904 bytes beyond it; with blocks of 4095 bytes the loop itself writes behind
    the page. *)
Theorem large_boundary_overruns : dma_pool_create no_pools 1 true 0 3000 8 8192 = (Some pool, Device [1] true) /\
  rtc (step pool) fresh_pool state /\ coh state = [Some 4096] /\ used state = [(0x100000000 + 3000, 0x100000000 + 3000); (0x100000000, 0x100000000)] /\
  0x100000000 + 4096 < 0x100000000 + 3000 + size pool /\
  dma_pool_create no_pools 1 true 0 4095 1 8192 = (Some (DmaPool 4095 4096 8192), Device [1] true) /\
  pool_initialise_page (DmaPool 4095 4096 8192) (DmaPage 0x100000000 0x100000000 0 0 (fun _ => 0)) = Bug.
Proof.
  split; [reflexivity|]. split; [apply (run_default (step pool) (exec pool) (dma_exec_step pool) script); vm_compute; exact I|]. vm_compute. split_and!; reflexivity.
Qed.
End Overrun.
