(* ===== verification/Cma.v ===== *)
(** * Contiguous memory areas: data and operations

    [src/new/mm/cma.c] and [src/new/mm/cma.h].  At boot an area is cut out of memblock and
    later given to the page allocator; a bitmap says which of its pages are handed out.
    [cma_alloc] and [cma_release] drop the lock of the bitmap, so that their sections are
    given one by one as well. *)

From S2P Require Import Prelude Gfp MemblockDefs MemblockOps MemblockAlloc.

Definition EINVAL : Z := 22.
Definition ENOSPC : Z := 28.
Definition EBUSY : Z := 16.

(** From the configuration and from headers outside of the tree. *)
Class CmaConfig := {
  PAGE_SHIFT : Z;
  MAX_ORDER : Z;
  pageblock_order : Z;
  MAX_CMA_AREAS : Z;
  ALIGN : Z -> Z -> Z;
  is_power_of_2 : Z -> bool;
  (** [__pa(high_memory - 1)] *)
  last_low_pa : Z;
}.

(** [lib/bitmap.c], which is not part of the tree; a bitmap is the number with its bits. *)
Class BitmapOps := {
  bitmap_set : Z -> Z -> Z -> Z;
  bitmap_clear : Z -> Z -> Z -> Z;
  bitmap_find_next_zero_area_off : Z -> Z -> Z -> Z -> Z -> Z -> Z;
}.

(** The part of the page allocator that moves other users out of a range of pages. *)
Class Contig := {
  contig : Type;
  alloc_contig_range : contig -> Z -> Z -> Z -> Z * contig;
  free_contig_range : contig -> Z -> Z -> contig;
  init_cma_reserved_pageblock : contig -> Z -> contig;
  page_zone : contig -> Z -> Z;
}.

Record cma := Cma { base_pfn : Z; count : Z; bitmap : option Z; order_per_bit : Z }.

(** [cma_areas] up to [cma_area_count]. *)
Record cma_state := CmaState { cma_areas : list cma; totalcma_pages : Z }.
Definition cma_area_count (st : cma_state) : Z := Z.of_nat (length (cma_areas st)).

Definition set_bitmap (a : cma) (b : option Z) : cma := Cma (base_pfn a) (count a) b (order_per_bit a).

Section Cma.
Context `{Arch} `{CmaConfig}.

(** ** Geometry *)
Definition cma_get_base (a : cma) : Z := PFN_PHYS (base_pfn a).
Definition cma_get_size (a : cma) : Z := u64 (Z.shiftl (count a) PAGE_SHIFT).
Definition cma_bitmap_maxno (a : cma) : Z := Z.shiftr (count a) (order_per_bit a).

Definition cma_bitmap_aligned_mask (a : cma) (align_order : Z) : Z :=
  if align_order <=? order_per_bit a then 0 else u64 (Z.shiftl 1 (align_order - order_per_bit a) - 1).
Definition cma_bitmap_aligned_offset (a : cma) (align_order : Z) : Z :=
  Z.shiftr (Z.land (base_pfn a) (u64 (Z.shiftl 1 align_order - 1))) (order_per_bit a).
Definition cma_bitmap_pages_to_bits (a : cma) (pages : Z) : Z :=
  Z.shiftr (ALIGN pages (Z.shiftl 1 (order_per_bit a))) (order_per_bit a).

(** ** Making areas *)

(** The alignment the page allocator asks for. *)
Definition min_alignment : Z := u64 (Z.shiftl PAGE_SIZE (Z.max (MAX_ORDER - 1) pageblock_order)).

Definition IS_ALIGNED (x a : Z) : bool := Z.land x (a - 1) =? 0.

(** [named]: whether a name was given, or there is memory for one. *)
Definition cma_init_reserved_mem (m : memblock) (st : cma_state) (base size order : Z) (named : bool) : Z * cma_state :=
  if cma_area_count st =? MAX_CMA_AREAS then (- ENOSPC, st)
  else if (size =? 0) || negb (memblock_is_region_reserved base size m) then (- EINVAL, st)
  else
    let alignment := min_alignment in
    if negb (IS_ALIGNED (Z.shiftr alignment PAGE_SHIFT) (Z.shiftl 1 order)) then (- EINVAL, st)
    else if negb (ALIGN base alignment =? base) || negb (ALIGN size alignment =? size) then (- EINVAL, st)
    else if negb named then (- ENOMEM, st)
    else
      let a := Cma (PFN_DOWN base) (Z.shiftr size PAGE_SHIFT) None order in
      (0, CmaState (cma_areas st ++ [a]) (u64 (totalcma_pages st + size / PAGE_SIZE))).

(** The search for memory, high memory first; 0 when there is none. *)
Definition declare_range (m : memblock) (base size limit alignment highmem_start : Z) : outcome (Z * memblock) :=
  r ← (if (base <? highmem_start) && (limit >? highmem_start)
       then r ← memblock_alloc_range size alignment highmem_start limit MEMBLOCK_NONE m;
            Done (r, highmem_start)
       else Done (0, m, limit));
  let '(addr, m, limit) := r in
  if addr =? 0 then memblock_alloc_range size alignment base limit MEMBLOCK_NONE m
  else Done (addr, m).

Definition cma_declare_contiguous (m : memblock) (st : cma_state) (base size limit alignment order : Z) (fixed named : bool)
    : outcome (Z * cma_state * memblock) :=
  let memblock_end := memblock_end_of_DRAM m in
  let highmem_start := u64 (last_low_pa + 1) in
  if cma_area_count st =? MAX_CMA_AREAS then Done (- ENOSPC, st, m)
  else if size =? 0 then Done (- EINVAL, st, m)
  else if bool_of alignment && negb (is_power_of_2 alignment) then Done (- EINVAL, st, m)
  else
    let alignment := Z.max alignment min_alignment in
    let base := ALIGN base alignment in
    let size := ALIGN size alignment in
    let limit := Z.land limit (u64 (Z.lnot (alignment - 1))) in
    let fixed := if base =? 0 then false else fixed in
    if negb (IS_ALIGNED (Z.shiftr size PAGE_SHIFT) (Z.shiftl 1 order)) then Done (- EINVAL, st, m)
    else if fixed && (base <? highmem_start) && (u64 (base + size) >? highmem_start) then Done (- EINVAL, st, m)
    else
      let limit := if (limit =? 0) || (limit >? memblock_end) then memblock_end else limit in
      r ← (if fixed then
             if memblock_is_region_reserved base size m then Done (- EBUSY, base, m)
             else
               r ← memblock_reserve base size m;
               let '(rc, m) := r in
               Done (if rc <? 0 then - EBUSY else 0, base, m)
           else
             r ← declare_range m base size limit alignment highmem_start;
             let '(addr, m) := r in
             if addr =? 0 then Done (- ENOMEM, base, m) else Done (0, addr, m));
      let '(ret, base, m) := r in
      if bool_of ret then Done (ret, st, m)
      else
        let '(ret, st) := cma_init_reserved_mem m st base size order named in
        Done (ret, st, m).

(** ** Giving areas to the page allocator *)
Section Pages.
Context `{BitmapOps} `{Contig}.

Fixpoint block_in_zone (n : nat) (c : contig) (zone pfn : Z) : bool :=
  match n with
  | O => true
  | S n => if negb (page_zone c pfn =? zone) then false else block_in_zone n c zone (u64 (pfn + 1))
  end.

(** One turn per page block. *)
Fixpoint activate_loop (fuel : nat) (c : contig) (zone pfn i : Z) : outcome (bool * contig) :=
  match fuel with
  | O => NoFuel
  | S fuel =>
      let base := pfn in
      if negb (block_in_zone (Z.to_nat (Z.shiftl 1 pageblock_order)) c zone pfn) then Done (false, c)
      else
        let c := init_cma_reserved_pageblock c base in
        let i := u32 (i - 1) in
        if bool_of i then activate_loop fuel c zone (u64 (pfn + Z.shiftl 1 pageblock_order)) i else Done (true, c)
  end.

(** [ok]: whether there is memory for the bitmap. *)
Definition cma_activate_area (c : contig) (a : cma) (ok : bool) : outcome (Z * contig * cma) :=
  let i := u32 (Z.shiftr (count a) pageblock_order) in
  if negb ok then Done (- ENOMEM, c, set_bitmap a None)
  else
    let zone := page_zone c (base_pfn a) in
    r ← activate_loop (S (Z.to_nat (count a))) c zone (base_pfn a) i;
    let '(ok, c) := r in
    if ok : bool then Done (0, c, set_bitmap a (Some 0))
    else Done (- EINVAL, c, Cma (base_pfn a) 0 (Some 0) (order_per_bit a)).

Fixpoint init_reserved_loop (c : contig) (done todo : list cma) (oks : list bool) : outcome (Z * contig * list cma) :=
  match todo with
  | [] => Done (0, c, done)
  | a :: todo =>
      r ← cma_activate_area c a (default true (head oks));
      let '(ret, c, a) := r in
      if bool_of ret then Done (ret, c, done ++ a :: todo) else init_reserved_loop c (done ++ [a]) todo (tail oks)
  end.
Definition cma_init_reserved_areas (c : contig) (st : cma_state) (oks : list bool) : outcome (Z * contig * cma_state) :=
  r ← init_reserved_loop c [] (cma_areas st) oks;
  let '(ret, c, areas) := r in
  Done (ret, c, CmaState areas (totalcma_pages st)).

(** ** Allocating *)

(** The bitmap of an area that was never activated is a null pointer. *)
Definition cma_clear_bitmap (a : cma) (pfn n : Z) : outcome cma :=
  let bitmap_no := Z.shiftr (u64 (pfn - base_pfn a)) (order_per_bit a) in
  let bitmap_count := cma_bitmap_pages_to_bits a (u32 n) in
  match bitmap a with
  | None => Bug
  | Some b => Done (set_bitmap a (Some (bitmap_clear b bitmap_no bitmap_count)))
  end.

(** The section with the lock: a free run of bits, which is then taken. *)
Definition claim (a : cma) (start n align : Z) : outcome (option Z * cma) :=
  let maxno := cma_bitmap_maxno a in
  let bitmap_count := cma_bitmap_pages_to_bits a n in
  match bitmap a with
  | None => Bug
  | Some b =>
      let bitmap_no := bitmap_find_next_zero_area_off b maxno start bitmap_count (cma_bitmap_aligned_mask a align) (cma_bitmap_aligned_offset a align) in
      if bitmap_no >=? maxno then Done (None, a)
      else Done (Some bitmap_no, set_bitmap a (Some (bitmap_set b bitmap_no bitmap_count)))
  end.

Definition claimed_pfn (a : cma) (bitmap_no : Z) : Z := u64 (base_pfn a + u64 (Z.shiftl bitmap_no (order_per_bit a))).
Definition next_start (a : cma) (bitmap_no align : Z) : Z := u64 (bitmap_no + cma_bitmap_aligned_mask a align + 1).
Definition contig_flags (no_warn : bool) : Z := Z.lor GFP_KERNEL (if no_warn then ___GFP_NOWARN else 0).

(** The tests in front of the loop. *)
Definition may_alloc (a : cma) (n : Z) : bool :=
  negb (count a =? 0) && negb (n =? 0) && negb (cma_bitmap_pages_to_bits a n >? cma_bitmap_maxno a).

Fixpoint alloc_loop (fuel : nat) (c : contig) (a : cma) (start n align flags : Z) : outcome (option Z * contig * cma) :=
  match fuel with
  | O => NoFuel
  | S fuel =>
      r ← claim a start n align;
      match r with
      | (None, a) => Done (None, c, a)
      | (Some bitmap_no, a) =>
          let pfn := claimed_pfn a bitmap_no in
          let '(ret, c) := alloc_contig_range c pfn (u64 (pfn + n)) flags in
          if ret =? 0 then Done (Some pfn, c, a)
          else
            a ← cma_clear_bitmap a pfn n;
            if negb (ret =? - EBUSY) then Done (None, c, a) else alloc_loop fuel c a (next_start a bitmap_no align) n align flags
      end
  end.
Definition cma_alloc (c : contig) (a : option cma) (n align : Z) (no_warn : bool) : outcome (option Z * contig * option cma) :=
  match a with
  | None => Done (None, c, None)
  | Some a =>
      if negb (may_alloc a n) then Done (None, c, Some a)
      else
        r ← alloc_loop (S (Z.to_nat (cma_bitmap_maxno a))) c a 0 n align (contig_flags no_warn);
        let '(page, c, a) := r in
        Done (page, c, Some a)
  end.

(** ** Releasing *)
Definition in_area (a : cma) (pfn : Z) : bool := negb (pfn <? base_pfn a) && negb (pfn >=? u64 (base_pfn a + count a)).

Definition cma_release (c : contig) (a : option cma) (page : option Z) (n : Z) : outcome (bool * contig * option cma) :=
  match a, page with
  | Some a, Some pfn =>
      if negb (in_area a pfn) then Done (false, c, Some a)
      else
        _ ← BUG_ON (u64 (pfn + n) >? u64 (base_pfn a + count a));
        let c := free_contig_range c pfn n in
        a ← cma_clear_bitmap a pfn n;
        Done (true, c, Some a)
  | _, _ => Done (false, c, a)
  end.
End Pages.
End Cma.
