(* ===== verification/CmaInv.v ===== *)
(** * Contiguous memory areas: calls that share an area

    [cma_alloc] and [cma_release] interleave wherever they do not hold the lock of the
    bitmap: while pages are moved out of a range, and before a range is cleared.  The bits
    of an area are ranges that calls own. *)

From stdpp Require Import relations.
From S2P Require Import Prelude Gfp MemblockDefs MemblockOps MemblockAlloc Cma.
#[local] Open Scope Z_scope.

(** What the code relies on. *)
Class CmaConfigSpec `{Arch} `{CmaConfig} : Prop := {
  page_size_pow : PAGE_SIZE = 2 ^ PAGE_SHIFT /\ 12 <= PAGE_SHIFT <= 16;
  orders_ok : 0 < MAX_ORDER <= 16 /\ 0 <= pageblock_order <= 16;
  align_up x k : 0 <= x -> 0 <= k -> x + 2 ^ k <= 2 ^ 64 -> x <= ALIGN x (2 ^ k) < x + 2 ^ k /\ (2 ^ k | ALIGN x (2 ^ k));
  power_of_2_ok x : 0 < x < 2 ^ 64 -> is_power_of_2 x = true -> exists k, 0 <= k /\ x = 2 ^ k;
  pfn_down_ok x : 0 <= x < 2 ^ 64 -> PFN_DOWN x = x / PAGE_SIZE;
  low_ok : 0 <= last_low_pa < 2 ^ 63;
}.

Class BitmapSpec `{BitmapOps} : Prop := {
  bitmap_set_ok b s n i : 0 <= s -> 0 <= n -> 0 <= i -> Z.testbit (bitmap_set b s n) i = in_range s (s + n) i || Z.testbit b i;
  bitmap_clear_ok b s n i : 0 <= s -> 0 <= n -> 0 <= i -> Z.testbit (bitmap_clear b s n) i = negb (in_range s (s + n) i) && Z.testbit b i;
  bitmap_find_ok b size start n k off : 0 <= start -> 0 < n -> 0 <= k < 64 -> 0 <= off ->
    let r := bitmap_find_next_zero_area_off b size start n (2 ^ k - 1) off in
    (r < size -> start <= r /\ r + n <= size /\ (2 ^ k | r + off) /\ forall i, r <= i < r + n -> Z.testbit b i = false) /\
    (size <= r -> forall r', start <= r' -> r' + n <= size -> (2 ^ k | r' + off) -> exists i, r' <= i < r' + n /\ Z.testbit b i = true);
}.

(** A call of [cma_alloc] in front of the search, with its bits taken, and in front of
    the clearing after [alloc_contig_range] has failed; one of [cma_release] in front of
    the clearing. *)
Inductive call :=
| Search (n align start : Z)
| Claimed (n align bitmap_no : Z)
| Back (n align bitmap_no ret : Z)
| Releasing (pfn n : Z).

Section Steps.
Context `{Arch} `{CmaConfig} `{BitmapOps} `{Contig}.

(** [held] are the pages handed out: the first, their number and the alignment asked for. *)
Record csystem := CSys { area : cma; pages : contig; calls : list call; held : list (Z * Z * Z) }.

Inductive step (flags : Z) : csystem -> csystem -> Prop :=
| step_call S n align : may_alloc (area S) n = true -> 0 < n < 2 ^ 32 -> 0 <= align <= 32 ->
    step flags S (CSys (area S) (pages S) (Search n align 0 :: calls S) (held S))
| step_search S l1 l2 n align start r a : calls S = l1 ++ Search n align start :: l2 -> claim (area S) start n align = Done (r, a) ->
    step flags S (CSys a (pages S) (match r with Some bitmap_no => Claimed n align bitmap_no :: l1 ++ l2 | None => l1 ++ l2 end) (held S))
| step_contig S l1 l2 n align bitmap_no ret c : calls S = l1 ++ Claimed n align bitmap_no :: l2 ->
    alloc_contig_range (pages S) (claimed_pfn (area S) bitmap_no) (u64 (claimed_pfn (area S) bitmap_no + n)) flags = (ret, c) ->
    step flags S (if ret =? 0 then CSys (area S) c (l1 ++ l2) ((claimed_pfn (area S) bitmap_no, n, align) :: held S)
                  else CSys (area S) c (Back n align bitmap_no ret :: l1 ++ l2) (held S))
| step_back S l1 l2 n align bitmap_no ret a : calls S = l1 ++ Back n align bitmap_no ret :: l2 ->
    cma_clear_bitmap (area S) (claimed_pfn (area S) bitmap_no) n = Done a ->
    step flags S (CSys a (pages S) (if ret =? - EBUSY then Search n align (next_start a bitmap_no align) :: l1 ++ l2 else l1 ++ l2) (held S))
| step_release S h1 h2 pfn n align : held S = h1 ++ (pfn, n, align) :: h2 -> in_area (area S) pfn = true ->
    step flags S (CSys (area S) (free_contig_range (pages S) pfn n) (Releasing pfn n :: calls S) (h1 ++ h2))
| step_clear S l1 l2 pfn n a : calls S = l1 ++ Releasing pfn n :: l2 -> cma_clear_bitmap (area S) pfn n = Done a ->
    step flags S (CSys a (pages S) (l1 ++ l2) (held S)).
End Steps.

(** ** Ranges of bits *)
Definition covers (i : Z) (r : Z * Z) : bool := in_range r.1 (r.1 + r.2) i.
Definition cover (l : list (Z * Z)) (i : Z) : nat := length (filter (fun r => covers i r = true) l).

#[export] Instance cover_proper : Proper (Permutation ==> eq ==> eq) cover.
Proof. intros l l' Hl i i' <-. unfold cover. by rewrite Hl. Qed.

Lemma cover_cons r l i : cover (r :: l) i = ((if covers i r then 1 else 0) + cover l i)%nat.
Proof. unfold cover. rewrite filter_cons. destruct (covers i r); [by rewrite decide_True|by rewrite decide_False]. Qed.

Lemma cover_pos r l i : r ∈ l -> covers i r = true -> (0 < cover l i)%nat.
Proof. intros Hr Hi. apply elem_of_Permutation in Hr as [l' ->]. rewrite cover_cons, Hi. lia. Qed.

(** The bits that are set are those of the ranges, and no bit is in two of them. *)
Definition owns (b : Z) (l : list (Z * Z)) : Prop := forall i, 0 <= i -> cover l i = (if Z.testbit b i then 1 else 0)%nat.

Lemma owns_perm b l l' : l ≡ₚ l' -> owns b l -> owns b l'.
Proof. intros Hl Ho i Hi. rewrite <- Hl. by apply Ho. Qed.

Lemma owns_apart b r1 r2 l : owns b (r1 :: r2 :: l) -> 0 <= r1.1 -> 0 <= r2.1 -> 0 < r1.2 -> 0 < r2.2 -> r1.1 + r1.2 <= r2.1 \/ r2.1 + r2.2 <= r1.1.
Proof.
  intros Ho H1 H2 Hn1 Hn2. destruct (Z.le_gt_cases (r1.1 + r1.2) r2.1) as [|Ha]; [by left|]. destruct (Z.le_gt_cases (r2.1 + r2.2) r1.1) as [|Hb]; [by right|]. exfalso.
  specialize (Ho (Z.max r1.1 r2.1) ltac:(lia)). rewrite !cover_cons in Ho. unfold covers in Ho. rewrite !(proj2 (in_range_true _ _ _)) in Ho by lia.
  destruct (Z.testbit b _); lia.
Qed.

Section Bits.
Context `{BitmapOps} `{!BitmapSpec}.

Lemma owns_set b l s n : owns b l -> 0 <= s -> 0 < n -> (forall i, s <= i < s + n -> Z.testbit b i = false) -> owns (bitmap_set b s n) ((s, n) :: l).
Proof using Type*.
  intros Ho Hs Hn Hfree i Hi. rewrite cover_cons, bitmap_set_ok, Ho by lia. unfold covers. cbn [fst snd]. destruct (in_range s (s + n) i) eqn:E; [|done].
  apply in_range_true in E. by rewrite Hfree.
Qed.

Lemma owns_clear b l s n : owns b ((s, n) :: l) -> 0 <= s -> 0 < n -> owns (bitmap_clear b s n) l.
Proof using Type*.
  intros Ho Hs Hn i Hi. specialize (Ho i Hi). rewrite cover_cons in Ho. rewrite bitmap_clear_ok by lia. unfold covers in Ho. cbn [fst snd] in Ho.
  destruct (in_range s (s + n) i); cbn [negb andb]; [destruct (Z.testbit b i); lia|done].
Qed.
End Bits.

(** ** Areas *)
Section Area.
Context `{Arch} `{CmaConfig} `{!CmaConfigSpec}.

Record area_ok (a : cma) : Prop := {
  ao_order : 0 <= order_per_bit a <= 20;
  ao_base : 0 <= base_pfn a /\ (2 ^ order_per_bit a | base_pfn a);
  ao_count : 0 < count a /\ (2 ^ order_per_bit a | count a);
  ao_end : base_pfn a + count a <= 2 ^ 52;
}.

Context (a : cma) (Hok : area_ok a).

Lemma unit_pos : 0 < 2 ^ order_per_bit a <= 2 ^ 20.
Proof using Hok. destruct Hok as [Ho _ _ _]. split; [apply Z.pow_pos_nonneg; lia|]. apply Z.pow_le_mono_r; lia. Qed.

Lemma maxno_eq : cma_bitmap_maxno a * 2 ^ order_per_bit a = count a.
Proof using Hok.
  pose proof unit_pos. destruct Hok as [Ho _ [_ [q Hq]] _]. unfold cma_bitmap_maxno. rewrite Z.shiftr_div_pow2 by lia. rewrite Hq, Z.div_mul by lia. done.
Qed.

Lemma bits_bounds n : 0 < n < 2 ^ 32 -> let c := cma_bitmap_pages_to_bits a n in 0 < c /\ n <= c * 2 ^ order_per_bit a < n + 2 ^ order_per_bit a.
Proof using All.
  intros Hn. cbv zeta. pose proof unit_pos as Hu. destruct Hok as [Ho _ _ _]. unfold cma_bitmap_pages_to_bits. rewrite Z.shiftl_1_l.
  destruct (align_up n (order_per_bit a)) as [Hb [q Hq]]; [lia..|]. rewrite Hq in *. rewrite Z.shiftr_div_pow2, Z.div_mul by lia. nia.
Qed.

(** The mask and the offset of an alignment. *)
Lemma mask_ok align : 0 <= align <= 32 -> exists k, 0 <= k <= 32 /\ cma_bitmap_aligned_mask a align = 2 ^ k - 1 /\
  forall r, (2 ^ k | r + cma_bitmap_aligned_offset a align) <-> (2 ^ align | base_pfn a + r * 2 ^ order_per_bit a).
Proof using Hok.
  intros Hal. pose proof unit_pos as Hu. destruct Hok as [Ho [Hb0 [B HB]] _ _]. unfold cma_bitmap_aligned_mask, cma_bitmap_aligned_offset. set (o := order_per_bit a) in *.
  rewrite !Z.shiftl_1_l. assert (Hp : 0 < 2 ^ align <= 2 ^ 32) by (split; [apply Z.pow_pos_nonneg; lia|apply Z.pow_le_mono_r; lia]).
  rewrite (u64_small (2 ^ align - 1)) by (unfold is_u64; lia). replace (2 ^ align - 1) with (Z.ones align) by (rewrite Z.ones_equiv; lia).
  rewrite Z.land_ones, Z.shiftr_div_pow2 by lia. destruct (Z.leb_spec align o) as [Hle|Hgt].
  - exists 0. split; [lia|]. split; [done|]. intros r. change (2 ^ 0) with 1. split; [intros _|intros _; apply Z.divide_1_l].
    rewrite HB, <- Z.mul_add_distr_r. apply Z.divide_mul_r. exists (2 ^ (o - align)). rewrite <- Z.pow_add_r by lia. f_equal. lia.
  - exists (align - o). split; [lia|]. assert (Hk : 0 < 2 ^ (align - o) <= 2 ^ 32) by (split; [apply Z.pow_pos_nonneg; lia|apply Z.pow_le_mono_r; lia]).
    rewrite u64_small by (unfold is_u64; lia). split; [done|]. intros r.
    assert (Hsplit : 2 ^ align = 2 ^ (align - o) * 2 ^ o) by (rewrite <- Z.pow_add_r by lia; f_equal; lia).
    rewrite HB, Hsplit, Z.mul_mod_distr_r, Z.div_mul by lia. rewrite <- Z.mul_add_distr_r. split.
    + intros [q Hq]. apply Z.mul_divide_mono_r. pose proof (Z.div_mod B (2 ^ (align - o)) ltac:(lia)). exists (q + B / 2 ^ (align - o)). lia.
    + intros Hd. apply Z.mul_divide_cancel_r in Hd as [q Hq]; [|lia]. pose proof (Z.div_mod B (2 ^ (align - o)) ltac:(lia)). exists (q - B / 2 ^ (align - o)). lia.
Qed.

(** Pages of a range of bits. *)
Lemma pfn_ok no : 0 <= no -> no * 2 ^ order_per_bit a <= count a -> claimed_pfn a no = base_pfn a + no * 2 ^ order_per_bit a /\
  Z.shiftr (u64 (claimed_pfn a no - base_pfn a)) (order_per_bit a) = no.
Proof using Hok.
  intros Hno Hle. pose proof unit_pos as Hu. destruct Hok as [Ho [Hb0 _] [Hc0 _] He]. unfold claimed_pfn. rewrite Z.shiftl_mul_pow2 by lia.
  rewrite (u64_small (no * 2 ^ order_per_bit a)) by (unfold is_u64; nia). rewrite (u64_small (base_pfn a + _)) by (unfold is_u64; nia). split; [done|].
  replace (base_pfn a + no * 2 ^ order_per_bit a - base_pfn a) with (no * 2 ^ order_per_bit a) by lia. rewrite u64_small by (unfold is_u64; nia).
  rewrite Z.shiftr_div_pow2, Z.div_mul by lia. done.
Qed.
End Area.

(** ** Sections *)
Section Sections.
Context `{Arch} `{CmaConfig} `{!CmaConfigSpec} `{BitmapOps} `{!BitmapSpec}.

(** A range of bits within the area, for [n] pages. *)
Record place (a : cma) (no n : Z) : Prop := {
  pl_pages : 0 < n < 2 ^ 32;
  pl_low : 0 <= no;
  pl_high : no + cma_bitmap_pages_to_bits a n <= cma_bitmap_maxno a;
}.
Definition aligned (a : cma) (no align : Z) : Prop := (2 ^ align | base_pfn a + no * 2 ^ order_per_bit a).

Lemma place_pfn a no n : area_ok a -> place a no n ->
  claimed_pfn a no = base_pfn a + no * 2 ^ order_per_bit a /\ Z.shiftr (u64 (claimed_pfn a no - base_pfn a)) (order_per_bit a) = no /\
  base_pfn a <= claimed_pfn a no /\ claimed_pfn a no + n <= base_pfn a + count a.
Proof using Type*.
  intros Hok [Hn Hlo Hhi]. pose proof (maxno_eq a Hok) as Hm. pose proof (unit_pos a Hok) as Hu. destruct (bits_bounds a Hok n Hn) as [Hb Hbn].
  destruct (pfn_ok a Hok no) as [Hp Hs]; [done|nia|]. split; [done|]. split; [done|]. rewrite Hp. nia.
Qed.

Lemma claim_raw a b start n align : area_ok a -> bitmap a = Some b -> 0 <= start -> 0 < n < 2 ^ 32 -> 0 <= align <= 32 ->
  let bits := cma_bitmap_pages_to_bits a n in
  (claim a start n align = Done (None, a) /\ forall no, start <= no -> place a no n -> aligned a no align -> exists i, no <= i < no + bits /\ Z.testbit b i = true) \/
  exists no, claim a start n align = Done (Some no, set_bitmap a (Some (bitmap_set b no bits))) /\ (forall i, no <= i < no + bits -> Z.testbit b i = false) /\
    start <= no /\ place a no n /\ aligned a no align.
Proof using Type*.
  intros Hok Hb Hst Hn Hal bits. destruct (bits_bounds a Hok n Hn) as [Hbits _]. destruct (mask_ok a Hok align Hal) as (k & Hk & Hmask & Hdiv).
  unfold claim. rewrite Hb, Hmask. assert (Hoff : 0 <= cma_bitmap_aligned_offset a align).
  { unfold cma_bitmap_aligned_offset. apply Z.shiftr_nonneg, Z.land_nonneg. left. apply Hok. }
  pose proof (bitmap_find_ok b (cma_bitmap_maxno a) start (cma_bitmap_pages_to_bits a n) k (cma_bitmap_aligned_offset a align)) as Hf.
  cbv zeta in Hf. specialize (Hf Hst Hbits ltac:(lia) Hoff). set (r := bitmap_find_next_zero_area_off _ _ _ _ _ _) in *. destruct Hf as [Hf1 Hf2].
  rewrite Z.geb_leb. destruct (Z.leb_spec (cma_bitmap_maxno a) r) as [Hge|Hlt].
  - left. split; [done|]. intros no Hno [_ _ Hhi] Hali. apply Hf2; [done|done|done|]. by apply Hdiv.
  - right. destruct (Hf1 Hlt) as (Hsr & Hrn & Hrd & Hfree). exists r. split; [done|]. split; [done|]. split; [done|].
    split; [split; [done|lia|done]|]. by apply Hdiv.
Qed.

Lemma claim_ok a b l start n align : area_ok a -> bitmap a = Some b -> owns b l -> 0 <= start -> 0 < n < 2 ^ 32 -> 0 <= align <= 32 ->
  claim a start n align = Done (None, a) \/
  exists no b', claim a start n align = Done (Some no, set_bitmap a (Some b')) /\ owns b' ((no, cma_bitmap_pages_to_bits a n) :: l) /\ place a no n /\ aligned a no align.
Proof using Type*.
  intros Hok Hb Ho Hst Hn Hal. destruct (claim_raw a b start n align Hok Hb Hst Hn Hal) as [[Hc _]|(no & Hc & Hfree & _ & Hp & Ha)]; [by left|right].
  eexists no, _. split; [exact Hc|]. split; [|done]. apply owns_set; [done|apply Hp| |done]. by apply (bits_bounds a Hok).
Qed.

Lemma clear_raw a b no n : area_ok a -> bitmap a = Some b -> place a no n ->
  cma_clear_bitmap a (claimed_pfn a no) n = Done (set_bitmap a (Some (bitmap_clear b no (cma_bitmap_pages_to_bits a n)))).
Proof using Type*.
  intros Hok Hb Hp. destruct (place_pfn a no n Hok Hp) as (_ & Hno & _). unfold cma_clear_bitmap. pose proof (pl_pages _ _ _ Hp) as Hn. by rewrite Hb, Hno, u32_small by lia.
Qed.

Lemma clear_ok a b l no n : area_ok a -> bitmap a = Some b -> place a no n -> owns b ((no, cma_bitmap_pages_to_bits a n) :: l) ->
  exists b', cma_clear_bitmap a (claimed_pfn a no) n = Done (set_bitmap a (Some b')) /\ owns b' l.
Proof using Type*.
  intros Hok Hb Hp Ho. eexists. split; [by apply clear_raw|]. apply owns_clear; [done|apply Hp|]. apply (bits_bounds a Hok), Hp.
Qed.

(** ** The invariant *)
Definition call_range (a : cma) (c : call) : list (Z * Z) :=
  match c with
  | Search _ _ _ => []
  | Claimed n _ no | Back n _ no _ => [(no, cma_bitmap_pages_to_bits a n)]
  | Releasing pfn n => [(Z.shiftr (u64 (pfn - base_pfn a)) (order_per_bit a), cma_bitmap_pages_to_bits a n)]
  end.
Definition call_ok (a : cma) (c : call) : Prop :=
  match c with
  | Search n align start => 0 < n < 2 ^ 32 /\ 0 <= align <= 32 /\ 0 <= start
  | Claimed n align no | Back n align no _ => place a no n /\ aligned a no align /\ 0 <= align <= 32
  | Releasing pfn n => exists no, pfn = claimed_pfn a no /\ place a no n
  end.
Definition held_range (a : cma) (h : Z * Z * Z) : Z * Z := (Z.shiftr (u64 (h.1.1 - base_pfn a)) (order_per_bit a), cma_bitmap_pages_to_bits a h.1.2).
Definition held_ok (a : cma) (h : Z * Z * Z) : Prop := exists no, h.1.1 = claimed_pfn a no /\ place a no h.1.2 /\ aligned a no h.2.

Context `{Contig}.

Definition ranges (S : csystem) : list (Z * Z) := (calls S ≫= call_range (area S)) ++ map (held_range (area S)) (held S).

Record cma_inv (S : csystem) (b : Z) : Prop := {
  ci_area : area_ok (area S);
  ci_bitmap : bitmap (area S) = Some b;
  ci_owns : owns b (ranges S);
  ci_calls : Forall (call_ok (area S)) (calls S);
  ci_held : Forall (held_ok (area S)) (held S);
}.

Lemma call_mid S l1 c l2 : calls S = l1 ++ c :: l2 -> ranges S ≡ₚ call_range (area S) c ++ ((l1 ++ l2) ≫= call_range (area S)) ++ map (held_range (area S)) (held S).
Proof using Type. intros Hc. unfold ranges. rewrite Hc, !bind_app, bind_cons. rewrite <- !app_assoc. apply Permutation_app_swap_app. Qed.

Lemma call_facts S b l1 c l2 : cma_inv S b -> calls S = l1 ++ c :: l2 -> call_ok (area S) c /\ Forall (call_ok (area S)) (l1 ++ l2).
Proof using Type.
  intros HI Hc. pose proof (ci_calls _ _ HI) as HF. rewrite Hc in HF. apply list.Forall_app in HF as [HF1 HF2]. apply list.Forall_cons in HF2 as [Hok HF2]. split; [done|].
  by apply list.Forall_app.
Qed.

Lemma place_set a b no n : place a no n -> place (set_bitmap a b) no n.
Proof using Type. intros [Hp1 Hp2 Hp3]. by split. Qed.

Lemma place_unset a b no n : place (set_bitmap a b) no n -> place a no n.
Proof using Type. intros [Hp1 Hp2 Hp3]. by split. Qed.

Lemma call_ok_set a b c : call_ok a c -> call_ok (set_bitmap a b) c.
Proof using Type.
  destruct c as [n al st|n al no|n al no ret|pfn n]; cbn [call_ok]; [done|intros (? & ? & ?)|intros (? & ? & ?)|intros (no & -> & ?)].
  - split; [by apply place_set|done].
  - split; [by apply place_set|done].
  - exists no. split; [done|by apply place_set].
Qed.

Lemma held_ok_set a b h : held_ok a h -> held_ok (set_bitmap a b) h.
Proof using Type. intros (no & Hp & Hpl & Ha). exists no. split; [done|]. split; [by apply place_set|done]. Qed.

(** A state with another bitmap. *)
Lemma inv_intro S b b' c cs hs : cma_inv S b -> owns b' ((cs ≫= call_range (area S)) ++ map (held_range (area S)) hs) -> Forall (call_ok (area S)) cs ->
  Forall (held_ok (area S)) hs -> cma_inv (CSys (set_bitmap (area S) (Some b')) c cs hs) b'.
Proof using Type.
  intros HI Ho Hc Hh. split; [destruct (ci_area _ _ HI); by split|done|exact Ho| |].
  - apply (list.Forall_impl _ _ _ Hc). intros x. apply call_ok_set.
  - apply (list.Forall_impl _ _ _ Hh). intros x. apply held_ok_set.
Qed.

Lemma same_bitmap a b : bitmap a = Some b -> set_bitmap a (Some b) = a.
Proof using Type. destruct a as [? ? ? ?]. cbn. by intros ->. Qed.

Lemma held_of a no n align : area_ok a -> place a no n -> held_range a (claimed_pfn a no, n, align) = (no, cma_bitmap_pages_to_bits a n).
Proof using Type*. intros Hok Hp. unfold held_range. cbn [fst snd]. by destruct (place_pfn a no n Hok Hp) as (_ & -> & _). Qed.
End Sections.
