(* ===== verification/CmaProps.v ===== *)
(** * Contiguous memory areas: what callers may rely on

    Pages handed out are apart, aligned and in the area, whatever other calls do; a call
    ends, and finds a place if there is one. *)

From stdpp Require Import relations.
From S2P Require Import Prelude Gfp MemblockDefs MemblockOps MemblockAlloc Cma CmaInv.
#[local] Open Scope Z_scope.

Section Props.
Context `{Arch} `{CmaConfig} `{!CmaConfigSpec} `{BitmapOps} `{!BitmapSpec} `{Contig}.

(** ** Steps *)
Lemma search_inv S b l1 n align start l2 : cma_inv S b -> calls S = l1 ++ Search n align start :: l2 ->
  exists r a b', claim (area S) start n align = Done (r, a) /\
    cma_inv (CSys a (pages S) (match r with Some no => Claimed n align no :: l1 ++ l2 | None => l1 ++ l2 end) (held S)) b'.
Proof using Type*.
  intros HI Hc. destruct (call_facts _ _ _ _ _ HI Hc) as [(Hn & Hal & Hst) Hrest]. pose proof (ci_owns _ _ HI) as Ho. apply (owns_perm _ _ _ (call_mid _ _ _ _ Hc)) in Ho. cbn [call_range app] in Ho.
  destruct (claim_ok (area S) b _ start n align (ci_area _ _ HI) (ci_bitmap _ _ HI) Ho Hst Hn Hal) as [Hr|(no & b' & Hr & Ho' & Hp & Ha)].
  - eexists None, (area S), b. split; [done|]. rewrite <- (same_bitmap _ _ (ci_bitmap _ _ HI)) at 1. apply (inv_intro S b b); [done|done|done|apply HI].
  - eexists (Some no), _, b'. split; [done|]. apply (inv_intro S b b'); [done|done| |apply HI]. apply list.Forall_cons. by split.
Qed.

Lemma contig_inv S b l1 n align no l2 ret c : cma_inv S b -> calls S = l1 ++ Claimed n align no :: l2 ->
  cma_inv (if ret =? 0 then CSys (area S) c (l1 ++ l2) ((claimed_pfn (area S) no, n, align) :: held S)
           else CSys (area S) c (Back n align no ret :: l1 ++ l2) (held S)) b.
Proof using Type*.
  intros HI Hc. destruct (call_facts _ _ _ _ _ HI Hc) as [(Hp & Ha & Hal) Hrest]. pose proof (ci_owns _ _ HI) as Ho. apply (owns_perm _ _ _ (call_mid _ _ _ _ Hc)) in Ho. cbn [call_range app] in Ho.
  destruct (ret =? 0); rewrite <- (same_bitmap _ _ (ci_bitmap _ _ HI)) at 1; apply (inv_intro S b b); try done.
  - cbn [map]. rewrite (held_of _ no n align (ci_area _ _ HI) Hp). eapply owns_perm; [|exact Ho]. apply Permutation_middle.
  - apply list.Forall_cons. split; [by exists no|apply HI].
  - apply list.Forall_cons. by split.
  - apply HI.
Qed.

Lemma back_inv S b l1 n align no ret l2 : cma_inv S b -> calls S = l1 ++ Back n align no ret :: l2 ->
  exists a b', cma_clear_bitmap (area S) (claimed_pfn (area S) no) n = Done a /\
    cma_inv (CSys a (pages S) (if ret =? - EBUSY then Search n align (next_start a no align) :: l1 ++ l2 else l1 ++ l2) (held S)) b'.
Proof using Type*.
  intros HI Hc. destruct (call_facts _ _ _ _ _ HI Hc) as [(Hp & Ha & Hal) Hrest]. pose proof (ci_owns _ _ HI) as Ho. apply (owns_perm _ _ _ (call_mid _ _ _ _ Hc)) in Ho. cbn [call_range app] in Ho.
  destruct (clear_ok (area S) b _ no n (ci_area _ _ HI) (ci_bitmap _ _ HI) Hp Ho) as (b' & Hr & Ho'). eexists _, b'. split; [done|].
  destruct (ret =? - EBUSY); apply (inv_intro S b b'); try done; try apply HI. apply list.Forall_cons. split; [|done]. cbn [call_ok]. split; [apply Hp|]. split; [done|].
  apply u64_range.
Qed.

Lemma clear_inv S b l1 pfn n l2 : cma_inv S b -> calls S = l1 ++ Releasing pfn n :: l2 ->
  exists a b', cma_clear_bitmap (area S) pfn n = Done a /\ cma_inv (CSys a (pages S) (l1 ++ l2) (held S)) b'.
Proof using Type*.
  intros HI Hc. destruct (call_facts _ _ _ _ _ HI Hc) as [(no & -> & Hp) Hrest]. pose proof (ci_owns _ _ HI) as Ho. apply (owns_perm _ _ _ (call_mid _ _ _ _ Hc)) in Ho. cbn [call_range app] in Ho.
  destruct (place_pfn _ _ _ (ci_area _ _ HI) Hp) as (_ & Hno & _). rewrite Hno in Ho.
  destruct (clear_ok (area S) b _ no n (ci_area _ _ HI) (ci_bitmap _ _ HI) Hp Ho) as (b' & Hr & Ho'). eexists _, b'. split; [done|].
  apply (inv_intro S b b'); try done. apply HI.
Qed.

Lemma release_inv S b h1 pfn n align h2 c : cma_inv S b -> held S = h1 ++ (pfn, n, align) :: h2 ->
  cma_inv (CSys (area S) c (Releasing pfn n :: calls S) (h1 ++ h2)) b.
Proof using Type*.
  intros HI Hh. pose proof (ci_held _ _ HI) as HF. rewrite Hh in HF. apply list.Forall_app in HF as [HF1 HF2]. apply list.Forall_cons in HF2 as [(no & Hno & Hp & Ha) HF2]. cbn [fst snd] in *.
  rewrite <- (same_bitmap _ _ (ci_bitmap _ _ HI)) at 1. apply (inv_intro S b b); [done| | |by apply list.Forall_app].
  - eapply owns_perm; [|apply (ci_owns _ _ HI)]. unfold ranges. rewrite Hh, bind_cons, !map_app. cbn [map call_range app]. unfold held_range at 2. cbn [fst snd].
    rewrite !app_assoc. symmetry. apply Permutation_middle.
  - apply list.Forall_cons. split; [by exists no|apply HI].
Qed.

Lemma cma_step_inv flags S b S' : cma_inv S b -> step flags S S' -> exists b', cma_inv S' b'.
Proof using Type*.
  intros HI Hst. destruct Hst as [S n align Hm Hn Hal|S l1 l2 n align start r a Hc Hr|S l1 l2 n align no ret c Hc Hr|S l1 l2 n align no ret a Hc Hr|S h1 h2 pfn n align Hh Hi|S l1 l2 pfn n a Hc Hr].
  - exists b. rewrite <- (same_bitmap _ _ (ci_bitmap _ _ HI)) at 1. apply (inv_intro S b b); [done|apply HI| |apply HI]. apply list.Forall_cons. split; [by split|apply HI].
  - destruct (search_inv _ _ _ _ _ _ _ HI Hc) as (r' & a' & b' & Hr' & HI'). rewrite Hr in Hr'. injection Hr' as <- <-. by exists b'.
  - exists b. by apply (contig_inv S b l1 n align no l2).
  - destruct (back_inv _ _ _ _ _ _ _ _ HI Hc) as (a' & b' & Hr' & HI'). rewrite Hr in Hr'. injection Hr' as <-. by exists b'.
  - exists b. by apply (release_inv S b h1 pfn n align h2).
  - destruct (clear_inv _ _ _ _ _ _ HI Hc) as (a' & b' & Hr' & HI'). rewrite Hr in Hr'. injection Hr' as <-. by exists b'.
Qed.

Lemma cma_reach_inv flags S b S' : cma_inv S b -> rtc (step flags) S S' -> exists b', cma_inv S' b'.
Proof using Type*.
  intros HI Hr. revert b HI. induction Hr as [S|S S1 S2 Hst _ IH]; intros b HI; [by exists b|]. destruct (cma_step_inv _ _ _ _ HI Hst) as [b1 HI1]. by apply (IH b1).
Qed.

(** Areas keep their place. *)
Lemma step_area flags S S' : step flags S S' -> base_pfn (area S') = base_pfn (area S) /\ count (area S') = count (area S) /\ order_per_bit (area S') = order_per_bit (area S).
Proof using Type.
  assert (Hclaim : forall a start n align r a', claim a start n align = Done (r, a') -> base_pfn a' = base_pfn a /\ count a' = count a /\ order_per_bit a' = order_per_bit a).
  { intros a start n align r a'. unfold claim. destruct (bitmap a); [|done]. destruct (_ >=? _); by intros [= <- <-]. }
  assert (Hclear : forall a pfn n a', cma_clear_bitmap a pfn n = Done a' -> base_pfn a' = base_pfn a /\ count a' = count a /\ order_per_bit a' = order_per_bit a).
  { intros a pfn n a'. unfold cma_clear_bitmap. destruct (bitmap a); [|done]. by intros [= <-]. }
  destruct 1 as [S n align|S l1 l2 n align start r a Hc Hr|S l1 l2 n align no ret c Hc Hr|S l1 l2 n align no ret a Hc Hr|S h1 h2 pfn n align Hh|S l1 l2 pfn n a Hc Hr]; try done.
  - by apply Hclaim in Hr.
  - by destruct (ret =? 0).
  - by apply Hclear in Hr.
  - by apply Hclear in Hr.
Qed.

(** ** Pages that are handed out *)

(** Every section returns, and [cma_release] accepts what [cma_alloc] has returned. *)
Record cma_serves (S : csystem) : Prop := {
  cs_search n align start : Search n align start ∈ calls S -> exists r, claim (area S) start n align = Done r;
  cs_back n align no ret : Back n align no ret ∈ calls S -> exists a, cma_clear_bitmap (area S) (claimed_pfn (area S) no) n = Done a;
  cs_clear pfn n : Releasing pfn n ∈ calls S -> exists a, cma_clear_bitmap (area S) pfn n = Done a;
  cs_release pfn n align : (pfn, n, align) ∈ held S -> exists c a, cma_release (pages S) (Some (area S)) (Some pfn) n = Done (true, c, a);
}.

Lemma in_area_ok a no n : area_ok a -> place a no n -> in_area a (claimed_pfn a no) = true /\ (u64 (claimed_pfn a no + n) >? u64 (base_pfn a + count a)) = false.
Proof using Type*.
  intros Hok Hp. destruct (place_pfn a no n Hok Hp) as (Hc & _ & Hlo & Hhi). pose proof (pl_pages _ _ _ Hp). destruct Hok as [_ [Hb _] [Hc0 _] He]. unfold in_area.
  rewrite !u64_small by (unfold is_u64; lia). split.
  - rewrite Z.geb_leb, (proj2 (Z.ltb_ge _ _)), (proj2 (Z.leb_gt _ _)) by lia. done.
  - rewrite Z.gtb_ltb. apply Z.ltb_ge. lia.
Qed.

Lemma inv_cma_serves S b : cma_inv S b -> cma_serves S.
Proof using Type*.
  intros HI. split.
  - intros n align start Hin. apply list_elem_of_split in Hin as (l1 & l2 & Hc). destruct (search_inv _ _ _ _ _ _ _ HI Hc) as (r & a & _ & Hr & _). by exists (r, a).
  - intros n align no ret Hin. apply list_elem_of_split in Hin as (l1 & l2 & Hc). destruct (back_inv _ _ _ _ _ _ _ _ HI Hc) as (a & _ & Hr & _). by exists a.
  - intros pfn n Hin. apply list_elem_of_split in Hin as (l1 & l2 & Hc). destruct (clear_inv _ _ _ _ _ _ HI Hc) as (a & _ & Hr & _). by exists a.
  - intros pfn n align Hin. pose proof (ci_held _ _ HI) as HF. rewrite list.Forall_forall in HF. destruct (HF _ Hin) as (no & Hno & Hp & _). cbn [fst snd] in *. subst pfn.
    destruct (in_area_ok _ _ _ (ci_area _ _ HI) Hp) as [Hi Hbug]. unfold cma_release. rewrite Hi, Hbug. cbn [negb BUG_ON mbind outcome_bind].
    apply list_elem_of_split in Hin as (h1 & h2 & Hh). pose proof (release_inv S b h1 _ n align h2 (pages S) HI Hh) as HI'.
    destruct (clear_inv _ _ [] _ _ (calls S) HI' eq_refl) as (a & _ & Hr & _). cbn [area] in Hr. rewrite Hr. cbn [mbind outcome_bind]. by eexists _, _.
Qed.

(** An area that was just activated. *)
Definition activated (S : csystem) : Prop := area_ok (area S) /\ bitmap (area S) = Some 0 /\ calls S = [] /\ held S = [].

Lemma activated_inv S : activated S -> cma_inv S 0.
Proof using Type.
  intros (Hok & Hb & Hc & Hh). split; try done; [|by rewrite Hc|by rewrite Hh]. unfold ranges. rewrite Hc, Hh. intros i Hi. cbn. by rewrite Z.testbit_0_l.
Qed.

Lemma place_apart a no n no' n' : area_ok a -> place a no n -> place a no' n' ->
  no + cma_bitmap_pages_to_bits a n <= no' \/ no' + cma_bitmap_pages_to_bits a n' <= no ->
  claimed_pfn a no + n <= claimed_pfn a no' \/ claimed_pfn a no' + n' <= claimed_pfn a no.
Proof using Type*.
  intros Hok Hp Hp' Hd. destruct (place_pfn a no n Hok Hp) as (-> & _). destruct (place_pfn a no' n' Hok Hp') as (-> & _). pose proof (unit_pos a Hok).
  destruct (bits_bounds a Hok n (pl_pages _ _ _ Hp)) as [_ Hb]. destruct (bits_bounds a Hok n' (pl_pages _ _ _ Hp')) as [_ Hb']. nia.
Qed.

(** Two of the ranges do not overlap. *)
Lemma range_apart S b r1 r2 l : cma_inv S b -> ranges S ≡ₚ r1 :: r2 :: l -> 0 <= r1.1 -> 0 <= r2.1 -> 0 < r1.2 -> 0 < r2.2 -> r1.1 + r1.2 <= r2.1 \/ r2.1 + r2.2 <= r1.1.
Proof using Type. intros HI Hp. apply (owns_apart b r1 r2 l). apply (owns_perm _ _ _ Hp), HI. Qed.

(** C15: In every interleaving of [cma_alloc] and [cma_release] on an area, whatever
    [alloc_contig_range] answers, the pages that are handed out are aligned as asked for, lie within
    the area and do not overlap; pages that a call is still working on are not handed out to
    anyone; every section returns, and [cma_release] takes what was handed out. *)
Theorem cma_pages_exclusive flags S0 S : activated S0 -> rtc (step flags) S0 S ->
  cma_serves S /\
  (forall pfn n align, (pfn, n, align) ∈ held S ->
    base_pfn (area S) <= pfn /\ pfn + n <= base_pfn (area S) + count (area S) /\ (2 ^ align | pfn)) /\
  (forall h1 h2 h3 pfn n align pfn' n' align', held S = h1 ++ (pfn, n, align) :: h2 ++ (pfn', n', align') :: h3 -> pfn + n <= pfn' \/ pfn' + n' <= pfn) /\
  (forall pfn n align n' align' no, (pfn, n, align) ∈ held S -> Claimed n' align' no ∈ calls S ->
    pfn + n <= claimed_pfn (area S) no \/ claimed_pfn (area S) no + n' <= pfn).
Proof using Type*.
  intros Hst Hr. destruct (cma_reach_inv _ _ _ _ (activated_inv _ Hst) Hr) as [b HI]. split; [by apply (inv_cma_serves S b)|]. pose proof (ci_area _ _ HI) as Hok.
  pose proof (ci_held _ _ HI) as HF. rewrite list.Forall_forall in HF. pose proof (ci_calls _ _ HI) as HC. rewrite list.Forall_forall in HC.
  assert (Hbits : forall no n, place (area S) no n -> 0 < cma_bitmap_pages_to_bits (area S) n) by (intros no n Hp; apply (bits_bounds (area S) Hok n), Hp).
  split; [|split].
  - intros pfn n align Hin. destruct (HF _ Hin) as (no & Hno & Hp & Ha). cbn [fst snd] in *. subst pfn. destruct (place_pfn _ _ _ Hok Hp) as (He & _ & Hlo & Hhi).
    split; [done|]. split; [done|]. by rewrite He.
  - intros h1 h2 h3 pfn n align pfn' n' align' Hh.
    destruct (HF (pfn, n, align)) as (no & Hno & Hp & _); [rewrite Hh; apply elem_of_app; right; apply list_elem_of_here|].
    destruct (HF (pfn', n', align')) as (no' & Hno' & Hp' & _); [rewrite Hh; apply elem_of_app; right; apply list_elem_of_further, elem_of_app; right; apply list_elem_of_here|].
    cbn [fst snd] in *. subst pfn pfn'. apply (place_apart (area S)); [done..|].
    assert (Hperm : held S ≡ₚ (claimed_pfn (area S) no, n, align) :: (claimed_pfn (area S) no', n', align') :: h1 ++ h2 ++ h3).
    { rewrite Hh, <- Permutation_middle. apply perm_skip. rewrite app_assoc, <- Permutation_middle. by rewrite <- app_assoc. }
    apply (range_apart S b (no, cma_bitmap_pages_to_bits (area S) n) (no', cma_bitmap_pages_to_bits (area S) n')
      (map (held_range (area S)) (h1 ++ h2 ++ h3) ++ (calls S ≫= call_range (area S))) HI); cbn [fst snd]; [|apply Hp|apply Hp'|by apply (Hbits no)|by apply (Hbits no')].
    unfold ranges. rewrite Permutation_app_comm, Hperm. cbn [map]. by rewrite (held_of _ no n align Hok Hp), (held_of _ no' n' align' Hok Hp').
  - intros pfn n align n' align' no Hh Hc. destruct (HF _ Hh) as (no' & Hno & Hp & _). destruct (HC _ Hc) as (Hp' & _). cbn [fst snd] in *. subst pfn.
    apply (place_apart (area S)); [done..|]. apply list_elem_of_split in Hh as (h1 & h2 & Hh). apply list_elem_of_split in Hc as (l1 & l2 & Hc).
    apply (range_apart S b (no', cma_bitmap_pages_to_bits (area S) n) (no, cma_bitmap_pages_to_bits (area S) n') (((l1 ++ l2) ≫= call_range (area S)) ++ map (held_range (area S)) (h1 ++ h2)) HI); cbn [fst snd]; [|apply Hp|apply Hp'|by apply (Hbits no')|by apply (Hbits no)].
    rewrite (call_mid S l1 _ l2 Hc). cbn [call_range app]. rewrite Hh, map_app. cbn [map]. rewrite (held_of _ no' n align Hok Hp), map_app.
    rewrite app_assoc, <- Permutation_middle, <- app_assoc. apply perm_swap.
Qed.

(** ** One call *)

(** Bits as they were, with a range taken or given back. *)
Definition same_bits (b b' : Z) : Prop := forall i, 0 <= i -> Z.testbit b i = Z.testbit b' i.

Lemma set_clear_bits b s n : 0 <= s -> 0 <= n -> (forall i, s <= i < s + n -> Z.testbit b i = false) -> same_bits (bitmap_clear (bitmap_set b s n) s n) b.
Proof using Type*.
  intros Hs Hn Hf i Hi. rewrite bitmap_clear_ok, bitmap_set_ok by lia. destruct (in_range s (s + n) i) eqn:E; [|done]. apply in_range_true in E. by rewrite Hf.
Qed.

Lemma area_ok_set a b : area_ok a -> area_ok (set_bitmap a b).
Proof using Type. intros [Ho1 Ho2 Ho3 Ho4]. by split. Qed.

Lemma next_start_gt a no n align : area_ok a -> place a no n -> 0 <= align <= 32 -> no < next_start a no align.
Proof using Type*.
  intros Hok Hp Hal. destruct (mask_ok a Hok align Hal) as (k & Hk & Hm & _). unfold next_start. rewrite Hm. pose proof (unit_pos a Hok) as Hu. pose proof (maxno_eq a Hok) as Hmx.
  assert (0 < 2 ^ k <= 2 ^ 32) by (split; [apply Z.pow_pos_nonneg; lia|apply Z.pow_le_mono_r; lia]). destruct (place_pfn a no n Hok Hp) as (He & _ & Hlo & Hhi).
  pose proof (pl_low _ _ _ Hp). pose proof (pl_pages _ _ _ Hp). destruct Hok as [_ [Hb _] _ Hend]. rewrite u64_small; [lia|]. unfold is_u64. nia.
Qed.

(** What [cma_alloc] leaves: the pages and their bits, or everything as it was. *)
Definition alloc_result (a : cma) (b n align : Z) (page : option Z) (a' : cma) : Prop :=
  exists b', a' = set_bitmap a (Some b') /\
    match page with
    | Some pfn => exists no, pfn = claimed_pfn a no /\ place a no n /\ aligned a no align /\
        (forall i, no <= i < no + cma_bitmap_pages_to_bits a n -> Z.testbit b i = false) /\
        forall i, 0 <= i -> Z.testbit b' i = in_range no (no + cma_bitmap_pages_to_bits a n) i || Z.testbit b i
    | None => same_bits b' b
    end.

(** No place in the area has only free bits. *)
Definition no_room (a : cma) (b n align : Z) : Prop :=
  forall no, place a no n -> aligned a no align -> exists i, no <= i < no + cma_bitmap_pages_to_bits a n /\ Z.testbit b i = true.

Lemma alloc_loop_ok a b n align flags fuel : area_ok a -> 0 < n < 2 ^ 32 -> 0 <= align <= 32 -> forall c b1 start, same_bits b1 b -> 0 <= start ->
  (Z.to_nat (cma_bitmap_maxno a - start) < fuel)%nat ->
  exists page c' a', alloc_loop fuel c (set_bitmap a (Some b1)) start n align flags = Done (page, c', a') /\ alloc_result a b n align page a' /\
    ((forall c p q f, (alloc_contig_range c p q f).1 = 0) -> page = None -> start = 0 -> no_room a b n align).
Proof using Type*.
  intros Hok Hn Hal. induction fuel as [|fuel IH]; intros c b1 start Hsame Hst Hf; [lia|]. cbn [alloc_loop].
  pose proof (area_ok_set a (Some b1) Hok) as Hok1. destruct (bits_bounds a Hok n Hn) as [Hbits _].
  destruct (claim_raw (set_bitmap a (Some b1)) b1 start n align Hok1 eq_refl Hst Hn Hal) as [[-> Hno]|(no & -> & Hfree & Hsn & Hp & Ha)]; cbn [mbind outcome_bind].
  - eexists None, c, _. split; [done|]. split; [by exists b1|]. intros _ _ -> no Hp Ha. destruct (Hno no) as (i & Hi & Hb); [apply Hp|by apply place_set|done|].
    exists i. split; [done|]. rewrite <- Hsame; [done|]. pose proof (pl_low _ _ _ Hp). lia.
  - change (cma_bitmap_pages_to_bits (set_bitmap a (Some b1)) n) with (cma_bitmap_pages_to_bits a n) in *. set (b2 := bitmap_set b1 no _) in *.
    change (set_bitmap (set_bitmap a (Some b1)) (Some b2)) with (set_bitmap a (Some b2)). change (claimed_pfn (set_bitmap a (Some b2)) no) with (claimed_pfn a no).
    pose proof (pl_low _ _ _ Hp) as Hlo. destruct (alloc_contig_range c _ _ _) as [ret c1] eqn:Hr. destruct (Z.eqb_spec ret 0) as [->|Hne].
    + eexists (Some _), c1, _. split; [done|]. split; [|done]. exists b2. split; [done|]. exists no. split; [done|]. split; [by apply place_unset in Hp|]. split; [done|]. split.
      * intros i Hi. rewrite <- Hsame by lia. by apply Hfree.
      * intros i Hi. unfold b2. rewrite bitmap_set_ok by lia. by rewrite Hsame.
    + pose proof (area_ok_set a (Some b2) Hok) as Hok2. pose proof (place_set _ (Some b2) _ _ Hp) as Hp2.
      rewrite (clear_raw (set_bitmap a (Some b2)) b2 no n Hok2 eq_refl Hp2 : cma_clear_bitmap (set_bitmap a (Some b2)) (claimed_pfn a no) n = _). cbn [mbind outcome_bind].
      change (cma_bitmap_pages_to_bits (set_bitmap a (Some b2)) n) with (cma_bitmap_pages_to_bits a n). set (b3 := bitmap_clear b2 no _).
      assert (Hb3 : same_bits b3 b) by (intros i Hi; unfold b3, b2; rewrite set_clear_bits by (done || lia); by apply Hsame).
      change (set_bitmap (set_bitmap a (Some b2)) (Some b3)) with (set_bitmap a (Some b3)). destruct (ret =? - EBUSY); cbn [negb].
      * pose proof (next_start_gt _ no n align Hok1 Hp Hal) as Hgt. change (next_start (set_bitmap a (Some b1)) no align) with (next_start a no align) in Hgt.
        change (next_start (set_bitmap a (Some b3)) no align) with (next_start a no align). pose proof (pl_high _ _ _ Hp) as Hhi. change (cma_bitmap_maxno (set_bitmap a (Some b1))) with (cma_bitmap_maxno a) in Hhi.
        change (cma_bitmap_pages_to_bits (set_bitmap a (Some b1)) n) with (cma_bitmap_pages_to_bits a n) in Hhi.
        destruct (IH c1 b3 (next_start a no align) Hb3) as (page & c' & a' & Heq & Hres & _); [lia|lia|]. eexists page, c', a'. split; [exact Heq|]. split; [done|].
        intros Hz. specialize (Hz c (claimed_pfn a no) (u64 (claimed_pfn a no + n)) flags). rewrite Hr in Hz. by cbn in Hz.
      * eexists None, c1, _. split; [done|]. split; [by exists b3|]. intros Hz. specialize (Hz c (claimed_pfn a no) (u64 (claimed_pfn a no + n)) flags). rewrite Hr in Hz. by cbn in Hz.
Qed.

End Props.
