(* ===== verification/CmaDeclare.v ===== *)
(** * Contiguous memory areas: memory from memblock

    [cma_declare_contiguous] on top of the theorems about memblock: which memory an area
    gets.  Its pages go to the page
    allocator when it is activated. *)

From S2P Require Import Prelude Gfp MemblockDefs MemblockOps MemblockAlloc MemblockRegions MemblockSpec MemblockProps MemblockFind MemblockQueries Cma CmaInv CmaProps.
#[local] Open Scope Z_scope.

Section Declare.
Context `{Arch} `{CmaConfig} `{!CmaConfigSpec}.

Definition max_order : Z := Z.max (MAX_ORDER - 1) pageblock_order.

Lemma min_alignment_eq : min_alignment = 2 ^ (PAGE_SHIFT + max_order) /\ 0 <= max_order <= 16 /\ 12 <= PAGE_SHIFT + max_order <= 32.
Proof using Type*.
  destruct page_size_pow as [Hp Hps]. destruct orders_ok as [Hm Hpb]. assert (Hmo : 0 <= max_order <= 16) by (unfold max_order; lia). split; [|lia].
  unfold min_alignment. fold max_order. rewrite Z.shiftl_mul_pow2, Hp, <- Z.pow_add_r by lia. apply u64_small. split; [apply Z.pow_nonneg; lia|apply Z.pow_lt_mono_r; lia].
Qed.

Lemma align_same x k : 0 <= x -> 0 <= k -> x + 2 ^ k <= 2 ^ 64 -> (2 ^ k | x) -> ALIGN x (2 ^ k) = x.
Proof using Type*.
  intros Hx Hk Hm [q Hq]. destruct (align_up x k Hx Hk Hm) as [Hb [q' Hq']]. assert (0 < 2 ^ k) by (apply Z.pow_pos_nonneg; lia). rewrite Hq' in *. subst x. f_equal. nia.
Qed.

Lemma multiple_aligned x k : 0 <= k -> (2 ^ k | x) -> IS_ALIGNED x (Z.shiftl 1 k) = true.
Proof using Type.
  intros Hk [q ->]. unfold IS_ALIGNED. rewrite Z.shiftl_1_l. replace (2 ^ k - 1) with (Z.ones k) by (rewrite Z.ones_equiv; lia). rewrite Z.land_ones by lia.
  rewrite Z.mod_mul by (apply Z.pow_nonzero; lia). done.
Qed.

Lemma divide_shiftr x j k : 0 <= j -> 0 <= k -> (2 ^ (j + k) | x) -> (2 ^ k | Z.shiftr x j).
Proof using Type.
  intros Hj Hk [q ->]. rewrite Z.shiftr_div_pow2 by lia. rewrite Z.pow_add_r by lia. exists q. rewrite (Z.mul_comm (2 ^ j)), Z.mul_assoc. apply Z.div_mul. apply Z.pow_nonzero; lia.
Qed.

(** The range that becomes the area, of memory that memblock had not handed out. *)
Record taken (m m' : memblock) (b s : Z) : Prop := {
  tk_free x : b <= x < b + s -> tattr (reserved m) x = None;
  tk_reserved : exists t, m' = set_reserved t m /\ type_wf t /\ forall x, tattr t x = if in_range b (b + s) x then Some (0, MAX_NUMNODES) else tattr (reserved m) x;
}.

Lemma allocated_taken size align start end_ nid flags m m' c : allocated size align start end_ nid flags m m' c -> taken m m' c size.
Proof using Type. intros ((_ & _ & _ & Hfree) & Ht). split; [|done]. intros x Hx. by destruct (Hfree x Hx) as (y & _ & _ & ?). Qed.

(** A free range can be reserved. *)
Lemma reserve_free m b s : type_wf (reserved m) -> cnt (reserved m) < mt_max (reserved m) -> 0 <= b -> 0 < s -> b + s < 2 ^ 64 ->
  (forall x, b <= x < b + s -> tattr (reserved m) x = None) -> exists m', memblock_reserve b s m = Done (0, m') /\ taken m m' b s.
Proof using Type.
  intros Hwf Hroom Hb Hs He Hfree. assert (Hend : range_end b s = b + s) by (unfold range_end, PHYS_ADDR_MAX; lia).
  destruct (add_range_room double_array RESERVED b s MAX_NUMNODES 0 m Hwf) as (t & Hadd & Ht & Ha & _); [unfold is_u64; lia|unfold is_u64; lia| |].
  - simpl. rewrite Hend, added_free; [lia|apply Hwf|lia|done].
  - exists (set_reserved t m). split; [exact Hadd|]. split; [done|]. exists t. split; [done|]. split; [done|]. intros x. rewrite Ha, Hend. unfold attr_added. simpl.
    destruct (in_range b (b + s) x) eqn:Hin; [apply in_range_true in Hin; by rewrite Hfree|by destruct (tattr (reserved m) x)].
Qed.

(** ** Registering *)
Lemma init_reserved_ok m st b s order : cma_area_count st <> MAX_CMA_AREAS -> 0 <= b -> 0 < s -> b + s < 2 ^ 63 -> 0 <= order <= max_order ->
  (min_alignment | b) -> (min_alignment | s) -> memblock_is_region_reserved b s m = true ->
  cma_init_reserved_mem m st b s order true =
    (0, CmaState (cma_areas st ++ [Cma (b / PAGE_SIZE) (s / PAGE_SIZE) None order]) (u64 (totalcma_pages st + s / PAGE_SIZE))).
Proof using Type*.
  intros Hc Hb Hs He Ho Hab Has Hr. destruct min_alignment_eq as (Hm & Hmo & Hsum). destruct page_size_pow as [Hp Hps]. unfold cma_init_reserved_mem.
  rewrite (proj2 (Z.eqb_neq _ _) Hc), Hr, (proj2 (Z.eqb_neq s 0)) by lia. cbn [orb negb]. rewrite Hm in *. assert (2 ^ (PAGE_SHIFT + max_order) <= 2 ^ 32) by (apply Z.pow_le_mono_r; lia).
  rewrite (multiple_aligned (Z.shiftr (2 ^ (PAGE_SHIFT + max_order)) PAGE_SHIFT) order); [|lia|].
  - cbn [negb]. rewrite !align_same by (done || lia). rewrite !Z.eqb_refl. cbn [negb orb]. rewrite pfn_down_ok by lia. rewrite Z.shiftr_div_pow2, <- Hp by lia. done.
  - apply divide_shiftr; [lia|lia|]. exists (2 ^ (max_order - order)). rewrite <- Z.pow_add_r by lia. f_equal. lia.
Qed.

(** ** Memory *)

(** memblock with room for another reservation. *)
Record boot_ok (m : memblock) : Prop := {
  bo_memory : regions_wf (regions (memory m));
  bo_reserved : type_wf (reserved m);
  bo_room : cnt (reserved m) < mt_max (reserved m);
  bo_cnt : cnt (memory m) < 2 ^ 31 - 1 /\ cnt (reserved m) < 2 ^ 31 - 1;
  bo_limit : is_u64 (current_limit m);
  bo_end : 0 < memblock_end_of_DRAM m < 2 ^ 63;
  bo_kernel : 0 <= kernel_end_pa;
  bo_nodes : NUMA_NO_NODE <> MAX_NUMNODES;
}.

Definition all_free (m : memblock) (b s : Z) : Prop := forall x, b <= x < b + s -> free_at NUMA_NO_NODE MEMBLOCK_NONE m x.

Lemma alloc_range_ok m s k start end_ : boot_ok m -> 0 < s < 2 ^ 63 -> 0 <= k < 64 -> is_u64 start -> is_u64 end_ -> end_ <> 0 ->
  exists c m', memblock_alloc_range s (2 ^ k) start end_ MEMBLOCK_NONE m = Done (c, m') /\
    ((c = 0 /\ m' = m) \/ (c <> 0 /\ taken m m' c s /\ all_free m c s /\ 0 < c /\ start <= c /\ c + s <= end_ /\ (2 ^ k | c))).
Proof using Type*.
  intros [Hb1 Hb2 Hb3 Hb4 Hb5 _ Hb7 Hb8] Hs Hk Hst Hen Hen0. destruct page_size_pow as [Hp Hps]. assert (Hps2 : 2 ^ 12 <= PAGE_SIZE <= 2 ^ 16) by (rewrite Hp; split; apply Z.pow_le_mono_r; lia).
  assert (Hpre : search_pre m s (2 ^ k) start end_ NUMA_NO_NODE) by (split; [done|apply Hb2|done|lia|done|done|done|lia|by exists k|done]).
  assert (H2k : 2 ^ k <> 0) by (apply Z.pow_nonzero; lia). unfold memblock_alloc_range, memblock_alloc_range_nid. rewrite (proj2 (Z.eqb_neq _ _) H2k).
  destruct (find_and_reserve_ok s (2 ^ k) start end_ NUMA_NO_NODE MEMBLOCK_NONE m Hpre Hb2 Hb3) as (c & m' & -> & [(-> & -> & _)|[Hc Hal]]).
  - exists 0, m. split; [done|by left].
  - exists c, m'. split; [done|]. right. split; [done|]. split; [by eapply allocated_taken|]. destruct Hal as ((Hlo & Hhi & Hdiv & Hfree) & _). split; [exact Hfree|].
    unfold search_hi, search_lo, MEMBLOCK_ALLOC_ACCESSIBLE in *. rewrite (proj2 (Z.eqb_neq _ _) Hen0) in Hhi. split_and!; [lia..|done].
Qed.

Lemma declare_range_ok m base s limit k hs : boot_ok m -> 0 < s < 2 ^ 63 -> 0 <= k < 64 -> is_u64 base -> is_u64 limit -> 0 < limit -> 0 < hs < 2 ^ 64 ->
  exists c m', declare_range m base s limit (2 ^ k) hs = Done (c, m') /\
    ((c = 0 /\ m' = m) \/ (c <> 0 /\ taken m m' c s /\ all_free m c s /\ 0 < c /\ base <= c /\ c + s <= limit /\ (2 ^ k | c) /\ (c + s <= hs \/ hs <= c))).
Proof using Type*.
  intros Hok Hs Hk Hb Hl Hl0 Hhs. unfold declare_range. rewrite Z.gtb_ltb. unfold is_u64 in *.
  destruct (Z.ltb_spec base hs) as [Hbh|Hbh], (Z.ltb_spec hs limit) as [Hlh|Hlh]; cbn [andb].
  - destruct (alloc_range_ok m s k hs limit Hok Hs Hk) as (c & m1 & -> & Hc); [unfold is_u64; lia..|]. cbn [mbind outcome_bind]. destruct Hc as [[-> ->]|(Hc & Ht & Hf & Hc0 & Hlo & Hhi & Hd)].
    + rewrite Z.eqb_refl. destruct (alloc_range_ok m s k base hs Hok Hs Hk) as (c & m' & -> & Hc); [unfold is_u64; lia..|]. exists c, m'. split; [done|].
      destruct Hc as [?|(Hc & Ht & Hf & Hc0 & Hlo & Hhi & Hd)]; [by left|right]. split_and!; try done; lia.
    + rewrite (proj2 (Z.eqb_neq c 0) Hc). exists c, m1. split; [done|]. right. split_and!; try done; lia.
  - cbn [mbind outcome_bind]. rewrite Z.eqb_refl. destruct (alloc_range_ok m s k base limit Hok Hs Hk) as (c & m' & -> & Hc); [unfold is_u64; lia..|]. exists c, m'. split; [done|].
    destruct Hc as [?|(Hc & Ht & Hf & Hc0 & Hlo & Hhi & Hd)]; [by left|right]. split_and!; try done; lia.
  - cbn [mbind outcome_bind]. rewrite Z.eqb_refl. destruct (alloc_range_ok m s k base limit Hok Hs Hk) as (c & m' & -> & Hc); [unfold is_u64; lia..|]. exists c, m'. split; [done|].
    destruct Hc as [?|(Hc & Ht & Hf & Hc0 & Hlo & Hhi & Hd)]; [by left|right]. split_and!; try done; lia.
  - cbn [mbind outcome_bind]. rewrite Z.eqb_refl. destruct (alloc_range_ok m s k base limit Hok Hs Hk) as (c & m' & -> & Hc); [unfold is_u64; lia..|]. exists c, m'. split; [done|].
    destruct Hc as [?|(Hc & Ht & Hf & Hc0 & Hlo & Hhi & Hd)]; [by left|right]. split_and!; try done; lia.
Qed.

Lemma taken_reserved m m' b s : taken m m' b s -> 0 <= b -> 0 < s -> b + s < 2 ^ 64 -> memblock_is_region_reserved b s m' = true.
Proof using Type.
  intros [_ (t & -> & Ht & Ha)] Hb Hs He. assert (Hend : range_end b s = b + s) by (unfold range_end, PHYS_ADDR_MAX; lia).
  apply is_region_reserved_ok; [apply Ht|unfold is_u64; lia|unfold is_u64; lia|lia|]. exists b. split; [lia|]. cbn [reserved set_reserved].
  change (tattr t b <> None). rewrite Ha, (proj2 (in_range_true _ _ _)) by lia. done.
Qed.

(** ** The contract *)

(** An area of [s] bytes at [b]. *)
Record declared (m : memblock) (st : cma_state) (base size limit alignment order : Z) (fixed : bool) (m' : memblock) (st' : cma_state) (b s : Z) : Prop := {
  de_size : size <= s;
  de_align : (Z.max alignment min_alignment | b) /\ (Z.max alignment min_alignment | s);
  de_taken : taken m m' b s;
  de_state : st' = CmaState (cma_areas st ++ [Cma (b / PAGE_SIZE) (s / PAGE_SIZE) None order]) (u64 (totalcma_pages st + s / PAGE_SIZE));
  de_area : area_ok (Cma (b / PAGE_SIZE) (s / PAGE_SIZE) (Some 0) order);
  de_one_side : b + s <= last_low_pa + 1 \/ last_low_pa + 1 <= b;
  de_where : if fixed && negb (base =? 0) then b = ALIGN base (Z.max alignment min_alignment)
    else all_free m b s /\ base <= b /\ b + s <= memblock_end_of_DRAM m /\ (Z.max alignment min_alignment <= limit -> b + s <= limit);
}.

Lemma alignment_ok alignment : 0 <= alignment <= 2 ^ 40 -> (bool_of alignment && negb (is_power_of_2 alignment)) = false ->
  exists k, PAGE_SHIFT + max_order <= k <= 40 /\ Z.max alignment min_alignment = 2 ^ k.
Proof using Type*.
  intros Ha Hp. destruct min_alignment_eq as (Hm & Hmo & Hsum). destruct page_size_pow as [_ Hps]. unfold bool_of in Hp. destruct (Z.eqb_spec alignment 0) as [->|Hne].
  - exists (PAGE_SHIFT + max_order). split; [lia|]. rewrite Hm. assert (0 < 2 ^ (PAGE_SHIFT + max_order)) by (apply Z.pow_pos_nonneg; lia). lia.
  - cbn [negb andb] in Hp. apply negb_false_iff in Hp. destruct (power_of_2_ok alignment) as (j & Hj & Hpj); [lia|done|]. rewrite Hpj, Hm in *.
    assert (j <= 40) by (destruct (Z.le_gt_cases j 40); [done|]; assert (2 ^ 40 < 2 ^ j) by (apply Z.pow_lt_mono_r; lia); lia).
    destruct (Z.le_gt_cases j (PAGE_SHIFT + max_order)) as [Hle|Hgt].
    + exists (PAGE_SHIFT + max_order). split; [lia|]. apply Z.max_r. apply Z.pow_le_mono_r; lia.
    + exists j. split; [lia|]. apply Z.max_l. apply Z.pow_le_mono_r; lia.
Qed.

Lemma pow_divide j k : 0 <= j <= k -> (2 ^ j | 2 ^ k).
Proof using Type. intros Hj. exists (2 ^ (k - j)). rewrite <- Z.pow_add_r by lia. f_equal. lia. Qed.

(** What an area at [b] is registered as. *)
Lemma new_area_ok b s k order : 0 <= b -> 0 < s -> b + s < 2 ^ 64 -> PAGE_SHIFT + max_order <= k -> (2 ^ k | b) -> (2 ^ k | s) -> 0 <= order <= max_order ->
  area_ok (Cma (b / PAGE_SIZE) (s / PAGE_SIZE) (Some 0) order).
Proof using Type*.
  intros Hb Hs He Hk Hdb Hds Ho. destruct min_alignment_eq as (_ & Hmo & _). destruct page_size_pow as [Hp Hps]. assert (Hpos : 0 < 2 ^ PAGE_SHIFT) by (apply Z.pow_pos_nonneg; lia).
  assert (Hsub : forall x, (2 ^ k | x) -> (2 ^ order | x / PAGE_SIZE) /\ PAGE_SIZE * (x / PAGE_SIZE) = x).
  { intros x Hx. assert (Hx2 : (2 ^ (PAGE_SHIFT + order) | x)) by (etransitivity; [|exact Hx]; apply pow_divide; lia). split.
    - rewrite Hp, <- Z.shiftr_div_pow2 by lia. apply divide_shiftr; [lia|lia|done].
    - rewrite Hp. assert (Hx3 : (2 ^ PAGE_SHIFT | x)) by (etransitivity; [|exact Hx2]; apply pow_divide; lia). destruct Hx3 as [q ->]. rewrite Z.div_mul by lia. lia. }
  destruct (Hsub b Hdb) as [Hb1 Hb2]. destruct (Hsub s Hds) as [Hs1 Hs2]. assert (H12 : 2 ^ 12 <= PAGE_SIZE) by (rewrite Hp; apply Z.pow_le_mono_r; lia).
  split; cbn [order_per_bit base_pfn count]; [lia|split; [apply Z.div_pos; lia|done]|split; [nia|done]|nia].
Qed.

End Declare.

(** ** The activation of an area *)
(** Giving a block away does not move its pages to another zone. *)
Class ContigSpec `{Contig} : Prop := zone_kept c pfn p : page_zone (init_cma_reserved_pageblock c pfn) p = page_zone c p.

Section Activate.
Context `{Arch} `{CmaConfig} `{!CmaConfigSpec} `{BitmapOps} `{!BitmapSpec} `{Contig} `{!ContigSpec}.

(** [k] page blocks from [pfn] on, one after the other. *)
Fixpoint give_blocks (k : nat) (c : contig) (pfn : Z) : contig :=
  match k with
  | O => c
  | S k => give_blocks k (init_cma_reserved_pageblock c pfn) (pfn + 2 ^ pageblock_order)
  end.

Definition one_zone (c : contig) (zone pfn n : Z) : Prop := forall p, pfn <= p < pfn + n -> page_zone c p = zone.

Lemma block_in_zone_ok n c zone : forall pfn, 0 <= pfn -> pfn + Z.of_nat n < 2 ^ 64 ->
  if block_in_zone n c zone pfn then one_zone c zone pfn (Z.of_nat n) else exists p, pfn <= p < pfn + Z.of_nat n /\ page_zone c p <> zone.
Proof using Type.
  induction n as [|n IH]; intros pfn Hp Hn; cbn [block_in_zone]; [intros p Hlt; lia|]. destruct (Z.eqb_spec (page_zone c pfn) zone) as [Hz|Hz]; cbn [negb].
  - rewrite u64_small by (unfold is_u64; lia). specialize (IH (pfn + 1) ltac:(lia) ltac:(lia)). destruct (block_in_zone _ _ _ _).
    + intros p Hlt. destruct (decide (p = pfn)) as [->|Hne]; [done|]. apply IH. lia.
    + destruct IH as (p & Hlt & Hpz). exists p. split; [lia|done].
  - exists pfn. split; [lia|done].
Qed.

Lemma activate_loop_ok zone k : forall fuel c pfn, (k < fuel)%nat -> (0 < k)%nat -> Z.of_nat k < 2 ^ 32 -> 0 <= pfn -> pfn + Z.of_nat k * 2 ^ pageblock_order < 2 ^ 64 ->
  exists ok c', activate_loop fuel c zone pfn (Z.of_nat k) = Done (ok, c') /\
    if ok : bool then c' = give_blocks k c pfn /\ one_zone c zone pfn (Z.of_nat k * 2 ^ pageblock_order)
    else exists p, pfn <= p < pfn + Z.of_nat k * 2 ^ pageblock_order /\ page_zone c p <> zone.
Proof using Type*.
  destruct orders_ok as [_ Hpb]. assert (Hpos : 0 < 2 ^ pageblock_order) by (apply Z.pow_pos_nonneg; lia).
  induction k as [|k IH]; intros [|fuel] c pfn Hf Hk Hk32 Hp Hend; [lia..|]. cbn [activate_loop]. rewrite Z.shiftl_1_l.
  assert (Hone : pfn + 2 ^ pageblock_order <= pfn + Z.of_nat (S k) * 2 ^ pageblock_order) by nia.
  pose proof (block_in_zone_ok (Z.to_nat (2 ^ pageblock_order)) c zone pfn Hp ltac:(lia)) as Hb. rewrite Z2Nat.id in Hb by lia. destruct (block_in_zone _ _ _ _); cbn [negb].
  - rewrite u32_small by lia. replace (Z.of_nat (S k) - 1) with (Z.of_nat k) by lia. destruct k as [|k].
    + change (bool_of (Z.of_nat 0)) with false. cbn iota. eexists true, _. split; [done|]. split; [done|]. by replace (Z.of_nat 1 * 2 ^ pageblock_order) with (2 ^ pageblock_order) by lia.
    + replace (bool_of (Z.of_nat (S k))) with true by (unfold bool_of; by rewrite (proj2 (Z.eqb_neq _ _)) by lia). rewrite u64_small by (unfold is_u64; nia).
      destruct (IH fuel (init_cma_reserved_pageblock c pfn) (pfn + 2 ^ pageblock_order)) as (ok & c' & -> & Hr); [lia|lia|lia|lia|nia|].
      exists ok, c'. split; [done|]. destruct ok.
      * destruct Hr as [-> Hz]. split; [done|]. intros p Hlt. destruct (Z.lt_ge_cases p (pfn + 2 ^ pageblock_order)) as [Hl|Hl]; [apply Hb; lia|]. rewrite <- (zone_kept c pfn). apply Hz. nia.
      * destruct Hr as (p & Hlt & Hz). rewrite zone_kept in Hz. exists p. split; [nia|done].
  - exists false, c. split; [done|]. destruct Hb as (p & Hlt & Hz). exists p. split; [lia|done].
Qed.

(** Areas of whole page blocks, of which there are less than 2^32. *)
Definition whole_blocks (a : cma) : Prop := (2 ^ pageblock_order | count a) /\ count a < 2 ^ 32 * 2 ^ pageblock_order.

(** [cma_activate_area] ends.  On an area of whole page blocks it gives each block to the page
    allocator, from the first to the last, and leaves an area with all pages free on which
    allocations may start; or a page lies in another zone than the first one: then
    the area is left without pages, and [cma_alloc] and [cma_release] refuse it. *)
Theorem cma_activate_area_spec c a : area_ok a -> whole_blocks a ->
  exists ret c' a', cma_activate_area c a true = Done (ret, c', a') /\
    ((ret = 0 /\ c' = give_blocks (Z.to_nat (count a / 2 ^ pageblock_order)) c (base_pfn a) /\ a' = set_bitmap a (Some 0) /\ activated (CSys a' c' [] []) /\
      one_zone c (page_zone c (base_pfn a)) (base_pfn a) (count a)) \/
     (ret = - EINVAL /\ (exists p, base_pfn a <= p < base_pfn a + count a /\ page_zone c p <> page_zone c (base_pfn a)) /\ count a' = 0 /\
      forall c n align w page, cma_alloc c (Some a') n align w = Done (None, c, Some a') /\ cma_release c (Some a') page n = Done (false, c, Some a'))).
Proof using Type*.
  intros Hok [[q Hq] Hlt]. destruct orders_ok as [_ Hpb]. assert (Hpos : 0 < 2 ^ pageblock_order) by (apply Z.pow_pos_nonneg; lia). pose proof Hok as [Ho [Hb0 Hb] [Hc0 Hc] He].
  assert (Hq0 : 0 < q < 2 ^ 32) by nia. assert (Hdiv : count a / 2 ^ pageblock_order = q) by (rewrite Hq; apply Z.div_mul; lia).
  unfold cma_activate_area. cbn [negb]. rewrite Z.shiftr_div_pow2, Hdiv, u32_small by lia.
  destruct (activate_loop_ok (page_zone c (base_pfn a)) (Z.to_nat q) (S (Z.to_nat (count a))) c (base_pfn a)) as (ok & c' & Hl & Hr); [nia|lia|lia|lia|nia|].
  rewrite Z2Nat.id in Hl, Hr by lia. rewrite <- Hq in Hr. rewrite Hl. cbn [mbind outcome_bind]. destruct ok.
  - destruct Hr as [-> Hz]. eexists 0, _, _. split; [done|]. left. split; [done|]. split; [done|]. split; [done|]. split; [|done]. split; [by apply area_ok_set|done].
  - eexists _, c', _. split; [done|]. right. split; [done|]. split; [done|]. split; [done|]. intros c1 n align w page. split; [done|]. unfold cma_release. destruct page as [pfn|]; [|done].
    unfold in_area. cbn [base_pfn count]. rewrite Z.add_0_r, (u64_small (base_pfn a)) by (unfold is_u64; lia). rewrite Z.geb_leb.
    destruct (Z.ltb_spec pfn (base_pfn a)), (Z.leb_spec (base_pfn a) pfn); try done; lia.
Qed.

(** What [cma_declare_contiguous] makes can be activated. *)
Lemma declared_whole_blocks m st base size limit alignment order fixed m' st' b s :
  declared m st base size limit alignment order fixed m' st' b s -> 0 <= s < 2 ^ 44 -> 0 <= alignment <= 2 ^ 40 -> (bool_of alignment && negb (is_power_of_2 alignment)) = false ->
  exists a, cma_areas st' = cma_areas st ++ [a] /\ area_ok a /\ whole_blocks a.
Proof using Type*.
  intros [_ [_ Hal] _ -> Hok _ _] Hs Ha Hp. exists (Cma (b / PAGE_SIZE) (s / PAGE_SIZE) None order). split; [done|]. split; [by destruct Hok|].
  destruct (alignment_ok alignment Ha Hp) as (k & Hk & Hmax). rewrite Hmax in Hal. destruct min_alignment_eq as (_ & Hmo & _). destruct page_size_pow as [Hps Hpr]. destruct orders_ok as [_ Hpb].
  assert (Hle : pageblock_order <= max_order) by (unfold max_order; lia). unfold whole_blocks. cbn [count]. rewrite Hps. split.
  - rewrite <- Z.shiftr_div_pow2 by lia. apply divide_shiftr; [lia..|]. etransitivity; [|exact Hal]. apply pow_divide. lia.
  - assert (2 ^ 12 <= 2 ^ PAGE_SHIFT) by (apply Z.pow_le_mono_r; lia). assert (1 <= 2 ^ pageblock_order) by (pose proof (Z.pow_pos_nonneg 2 pageblock_order); lia).
    apply Z.div_lt_upper_bound; nia.
Qed.
End Activate.
