(* ===== verification/CmaRun.v ===== *)
(** * Contiguous memory areas: configurations and runs

    Bitmaps and a page allocator that keep what they promise, runs on them, and three
    things the code does wrong. *)

From stdpp Require Import relations.
From S2P Require Import Prelude Runs Gfp MemblockDefs MemblockOps MemblockAlloc MemblockRegions MemblockSpec MemblockProps MemblockFind MemblockQueries Cma CmaInv CmaProps CmaDeclare.
#[local] Open Scope Z_scope.

(** ** Bitmaps *)
Definition run_free (b r n : Z) : bool := forallb (fun i => negb (Z.testbit b i)) (seqZ r n).
Definition fits_at (b n mask off r : Z) : bool := ((r + off) mod (mask + 1) =? 0) && run_free b r n.

#[export] Instance bits : BitmapOps := {|
  bitmap_set b s n := Z.lor b (Z.shiftl (Z.ones n) s);
  bitmap_clear b s n := Z.ldiff b (Z.shiftl (Z.ones n) s);
  bitmap_find_next_zero_area_off b size start n mask off :=
    default size (head (filter (fun r => fits_at b n mask off r = true) (seqZ start (size - n - start + 1))));
|}.

Lemma ones_range s n i : 0 <= s -> 0 <= n -> 0 <= i -> Z.testbit (Z.shiftl (Z.ones n) s) i = in_range s (s + n) i.
Proof.
  intros Hs Hn Hi. rewrite Z.shiftl_spec by lia. unfold in_range. destruct (Z.leb_spec s i), (Z.ltb_spec i (s + n)); cbn [andb].
  - apply Z.ones_spec_low. lia.
  - apply Z.ones_spec_high. lia.
  - by apply Z.testbit_neg_r; lia.
  - by apply Z.testbit_neg_r; lia.
Qed.

Lemma run_free_iff b r n : run_free b r n = true <-> forall i, r <= i < r + n -> Z.testbit b i = false.
Proof.
  unfold run_free. rewrite forallb_forall. split.
  - intros Hf i Hi. apply negb_true_iff. apply Hf. apply list_elem_of_In, elem_of_seqZ. lia.
  - intros Hf i Hi. apply list_elem_of_In, elem_of_seqZ in Hi. apply negb_true_iff. by apply Hf.
Qed.

#[export] Instance bits_spec : BitmapSpec.
Proof.
  split.
  - intros b s n i Hs Hn Hi. cbn [bitmap_set bits]. rewrite Z.lor_spec, ones_range by lia. apply orb_comm.
  - intros b s n i Hs Hn Hi. cbn [bitmap_clear bits]. rewrite Z.ldiff_spec, ones_range by lia. apply andb_comm.
  - intros b size start n k off Hst Hn Hk Hoff. cbn [bitmap_find_next_zero_area_off bits]. cbv zeta. set (l := filter _ _). assert (H2k : 0 < 2 ^ k) by (apply Z.pow_pos_nonneg; lia).
    assert (Hl : forall r, r ∈ l <-> start <= r /\ r + n <= size /\ (2 ^ k | r + off) /\ forall i, r <= i < r + n -> Z.testbit b i = false).
    { intros r. unfold l, fits_at. rewrite list_elem_of_filter, elem_of_seqZ, andb_true_iff, run_free_iff, Z.eqb_eq.
      replace (2 ^ k - 1 + 1) with (2 ^ k) by lia. rewrite Z.mod_divide by lia. split.
      - intros [[Hd Hf] Hr]. split_and!; [lia|lia|done|done].
      - intros (H1 & H2 & Hd & Hf). split; [done|lia]. }
    clearbody l. destruct l as [|r l]; cbn [head default]; unfold id.
    + split; [lia|]. intros _ r' H1 H2 H3. destruct (run_free b r' n) eqn:Hrf.
      * exfalso. rewrite run_free_iff in Hrf. assert (Hin : r' ∈ ([] : list Z)) by by apply Hl. by apply elem_of_nil in Hin.
      * apply not_true_iff_false in Hrf. unfold run_free in Hrf. rewrite forallb_forall in Hrf. destruct (decide (Exists (fun i => Z.testbit b i = true) (seqZ r' n))) as [He|He].
        -- apply list.Exists_exists in He as (i & Hi & Hb). apply elem_of_seqZ in Hi. exists i. split; [lia|done].
        -- exfalso. apply Hrf. intros i Hi. apply negb_true_iff. destruct (Z.testbit b i) eqn:Eb; [|done]. exfalso. apply He. apply list.Exists_exists. exists i.
           split; [by apply list_elem_of_In|done].
    + destruct (proj1 (Hl r) (list_elem_of_here _ _)) as (H1 & H2 & H3 & H4). split; [done|lia].
Qed.

(** ** The machine *)

(** Pages cannot be moved so many times. *)
#[export] Instance moves : Contig := {|
  contig := nat;
  alloc_contig_range c _ _ _ := match c with O => (0, O) | S c => (- EBUSY, c) end;
  free_contig_range c _ _ := c;
  init_cma_reserved_pageblock c _ := c;
  page_zone _ _ := 0;
|}.

#[export] Instance machine : Arch := arm64.

#[export] Instance cma_config : CmaConfig := {|
  PAGE_SHIFT := 12; MAX_ORDER := 11; pageblock_order := 9; MAX_CMA_AREAS := 7;
  ALIGN x a := (x + a - 1) / a * a; is_power_of_2 x := x =? 2 ^ Z.log2 x; last_low_pa := 0x7fffffff
|}.

#[export] Instance cma_config_spec : CmaConfigSpec.
Proof.
  split.
  - by split.
  - done.
  - intros x k Hx Hk Hm. cbn [ALIGN cma_config]. assert (0 < 2 ^ k) by (apply Z.pow_pos_nonneg; lia).
    pose proof (Z.div_mod (x + 2 ^ k - 1) (2 ^ k) ltac:(lia)). pose proof (Z.mod_pos_bound (x + 2 ^ k - 1) (2 ^ k) ltac:(lia)). split; [|apply Z.divide_factor_r]. lia.
  - intros x Hx Hp. cbn [is_power_of_2 cma_config] in Hp. apply Z.eqb_eq in Hp. exists (Z.log2 x). split; [apply Z.log2_nonneg|done].
  - intros x Hx. cbn [PFN_DOWN PAGE_SIZE machine arm64]. by rewrite Z.shiftr_div_pow2.
  - done.
Qed.

(** ** Steps as a function *)
Inductive cma_action := CallAlloc (n align : Z) | GoOn (i : nat) | ReleaseNth (i : nat).

Definition without {A} (i : nat) (l : list A) : list A := take i l ++ drop (1 + i) l.

Section Exec.
Context `{Arch} `{CmaConfig} `{BitmapOps} `{Contig} (flags : Z).

(** The next section of a call. *)
Definition go_on (S : csystem) (i : nat) (x : call) : option csystem :=
  let l := without i (calls S) in
  match x with
  | Search n align start =>
      match claim (area S) start n align with
      | Done (Some no, a) => Some (CSys a (pages S) (Claimed n align no :: l) (held S))
      | Done (None, a) => Some (CSys a (pages S) l (held S))
      | _ => None
      end
  | Claimed n align no =>
      let pfn := claimed_pfn (area S) no in
      let '(ret, c) := alloc_contig_range (pages S) pfn (u64 (pfn + n)) flags in
      Some (if ret =? 0 then CSys (area S) c l ((pfn, n, align) :: held S) else CSys (area S) c (Back n align no ret :: l) (held S))
  | Back n align no ret =>
      match cma_clear_bitmap (area S) (claimed_pfn (area S) no) n with
      | Done a => Some (CSys a (pages S) (if ret =? - EBUSY then Search n align (next_start a no align) :: l else l) (held S))
      | _ => None
      end
  | Releasing pfn n =>
      match cma_clear_bitmap (area S) pfn n with
      | Done a => Some (CSys a (pages S) l (held S))
      | _ => None
      end
  end.

Definition exec (S : csystem) (x : cma_action) : option csystem :=
  match x with
  | CallAlloc n align =>
      if may_alloc (area S) n && bool_decide (0 < n < 2 ^ 32 /\ 0 <= align <= 32)
      then Some (CSys (area S) (pages S) (Search n align 0 :: calls S) (held S)) else None
  | GoOn i => x ← calls S !! i; go_on S i x
  | ReleaseNth i =>
      match held S !! i with
      | Some (pfn, n, _) => if in_area (area S) pfn then Some (CSys (area S) (free_contig_range (pages S) pfn n) (Releasing pfn n :: calls S) (without i (held S))) else None
      | None => None
      end
  end.

Lemma go_on_step S i x S' : calls S !! i = Some x -> go_on S i x = Some S' -> step flags S S'.
Proof using Type.
  intros Hx. symmetry in Hx. pose proof (take_drop_middle _ _ _ (eq_sym Hx)) as Hm. symmetry in Hm. unfold go_on, without. destruct x as [n align start|n align no|n align no ret|pfn n].
  - destruct (claim _ _ _ _) as [[[no|] a]| | |] eqn:Hc; try done; intros [= <-]; exact (step_search flags S _ _ _ _ _ _ _ Hm Hc).
  - destruct (alloc_contig_range _ _ _ _) as [ret c] eqn:Hr. intros [= <-]. exact (step_contig flags S _ _ _ _ _ _ _ Hm Hr).
  - destruct (cma_clear_bitmap _ _ _) as [a| | |] eqn:Hr; try done. intros [= <-]. exact (step_back flags S _ _ _ _ _ _ _ Hm Hr).
  - destruct (cma_clear_bitmap _ _ _) as [a| | |] eqn:Hr; try done. intros [= <-]. exact (step_clear flags S _ _ _ _ _ Hm Hr).
Qed.

Lemma cma_exec_step S x S' : exec S x = Some S' -> step flags S S'.
Proof using Type.
  destruct x as [n align|i|i]; cbn [exec].
  - destruct (may_alloc _ _) eqn:Hm; [|done]. cbn [andb]. destruct (bool_decide_reflect (0 < n < 2 ^ 32 /\ 0 <= align <= 32)) as [[Hn Ha]|]; [|done]. intros [= <-]. by apply step_call.
  - destruct (calls S !! i) as [x|] eqn:Hx; [|done]. cbn. by apply go_on_step.
  - destruct (held S !! i) as [[[pfn n] align]|] eqn:Hh; [|done]. destruct (in_area _ _) eqn:Hi; [|done]. intros [= <-].
    apply (step_release flags S _ _ pfn n align); [|done]. symmetry. by apply take_drop_middle.
Qed.
End Exec.

(** ** Two callers at once *)

(** 4 MB at 1 GB, two pages per bit. *)
Definition demo_area (b : Z) : cma := Cma 0x40000 1024 (Some b) 1.
Definition idle : csystem := CSys (H2 := moves) (demo_area 0) 2%nat [] [].

Lemma demo_area_ok b : area_ok (demo_area b).
Proof. split; cbn; [done|split; [done|by exists 0x20000]|split; [done|by exists 512]|done]. Qed.

(** Two calls take places at bits 0 and 8; both are told that the pages are busy, clear their
    bits and look further up; a third call comes in between, and the pages of the first one are
    released again. *)
Definition script : list cma_action :=
  [CallAlloc 3 2; CallAlloc 16 4; GoOn 1; GoOn 1; GoOn 0; GoOn 1; GoOn 0; GoOn 0; GoOn 0; CallAlloc 5 0; GoOn 0; GoOn 0; GoOn 0; GoOn 0; GoOn 0; ReleaseNth 2; GoOn 0].
Definition shared : csystem := default idle (run (exec 0) idle script).

Lemma shared_reached : rtc (step 0) idle shared.
Proof. apply (run_default (step 0) (exec 0) (cma_exec_step 0) script); vm_compute; exact I. Qed.

Lemma cma_pages_exclusive_witness : held shared = [(0x40020, 16, 4); (0x40008, 5, 0)] /\ bitmap (area shared) = Some 0xff0070 /\ (0x40020 + 16 <= 0x40008 \/ 0x40008 + 5 <= 0x40020).
Proof.
  assert (Hh : held shared = [(0x40020, 16, 4); (0x40008, 5, 0)]) by (vm_compute; reflexivity). split; [exact Hh|]. split; [vm_compute; reflexivity|].
  assert (Hi : activated idle) by (split; [apply demo_area_ok|by repeat split]).
  destruct (cma_pages_exclusive 0 idle shared Hi shared_reached) as (_ & _ & Hap & _). exact (Hap [] [] [] _ _ _ _ _ _ Hh).
Defined.


(** ** Declaring areas *)
Lemma cma_boot_ok : boot_ok demo_reserved.
Proof.
  split; [apply demo_memory_wf|apply demo_reserved_wf|done|done|done|done|done|done].
Qed.

Definition no_areas : cma_state := CmaState [] 0.


(** ** Activating areas *)

(** A page allocator that notes the page blocks it is given; a zone ends at 0x50000. *)
Definition zones : Contig := {|
  contig := list Z;
  alloc_contig_range c _ _ _ := (0, c);
  free_contig_range c _ _ := c;
  init_cma_reserved_pageblock c pfn := c ++ [pfn];
  page_zone _ pfn := if pfn <? 0x50000 then 0 else 1;
|}.

Lemma zones_spec : @ContigSpec zones.
Proof. intros c pfn p. reflexivity. Qed.

Definition reserved_area : cma := Cma 0x40000 1024 None 0.

Lemma reserved_area_ok : area_ok reserved_area /\ whole_blocks reserved_area.
Proof. split; [split; cbn; [done|split; [done|by exists 0x40000]|split; [done|by exists 1024]|done]|split; [by exists 2|done]]. Qed.

(** Two page blocks. *)
Lemma cma_activate_area_spec_witness :
  cma_activate_area (H2 := zones) [] reserved_area true = Done (0, [0x40000; 0x40200], set_bitmap reserved_area (Some 0)) /\
  activated (H4 := zones) (CSys (H2 := zones) (set_bitmap reserved_area (Some 0)) [0x40000; 0x40200] [] []).
Proof.
  assert (Hc : cma_activate_area (H2 := zones) [] reserved_area true = Done (0, [0x40000; 0x40200], set_bitmap reserved_area (Some 0))) by (vm_compute; reflexivity).
  split; [exact Hc|]. destruct (cma_activate_area_spec (H4 := zones) (H5 := zones_spec) [] reserved_area (proj1 reserved_area_ok) (proj2 reserved_area_ok)) as (ret & c' & a' & He & Hr).
  rewrite Hc in He. injection He as <- <- <-. destruct Hr as [(_ & _ & _ & Ha & _)|(Hn & _)]; [exact Ha|discriminate].
Defined.

(** An area across the end of a zone. *)
Example area_in_two_zones : cma_activate_area (H2 := zones) [] (Cma 0x4fe00 1024 None 0) true = Done (- EINVAL, [0x4fe00], Cma 0x4fe00 0 (Some 0) 0).
Proof. vm_compute. reflexivity. Qed.

(** ** What goes wrong *)

(** An order that the page allocator does not support is found by [cma_init_reserved_mem],
    after the memory has been reserved: the call fails, the reservation stays. *)
Example declare_failure_keeps_reservation : exists m', cma_declare_contiguous demo_reserved no_areas 0 0x800000 0 0 11 false true = Done (- EINVAL, no_areas, m') /\
  memblock_is_region_reserved 0xcf800000 0x800000 demo_reserved = false /\ memblock_is_region_reserved 0xcf800000 0x800000 m' = true.
Proof. eexists. split; [vm_compute; reflexivity|]. split; vm_compute; reflexivity. Qed.

(** A limit below the alignment is rounded to 0, which stands for no limit: asked for memory
    below 2 MB, the area is at the end of all memory. *)
Example small_limit_is_no_limit :
  cma_declare_contiguous demo_reserved no_areas 0 0x100000 0x200000 0 0 false true = cma_declare_contiguous demo_reserved no_areas 0 0x100000 0 0 0 false true /\
  exists m', cma_declare_contiguous demo_reserved no_areas 0 0x100000 0x200000 0 0 false true = Done (0, CmaState [Cma 0xcfc00 1024 None 0] 1024, m').
Proof. split; [vm_compute; reflexivity|]. eexists. vm_compute. reflexivity. Qed.

(** [cma_init_reserved_areas] stops at the first area that cannot be activated.  That area, if there
    was no memory for its bitmap, and those behind it keep their size with a null bitmap, and
    [cma_alloc] and [cma_release] use it. *)
Example failed_activation_null_bitmap :
  let st := CmaState [Cma 0x40000 1024 None 0; Cma 0x50000 1024 None 0] 2048 in
  cma_init_reserved_areas (H2 := moves) 0%nat st [false; true] = Done (- ENOMEM, 0%nat, st) /\
  (forall a, a ∈ cma_areas st -> cma_alloc (H2 := moves) 0%nat (Some a) 1 0 false = Bug /\ cma_release (H2 := moves) 0%nat (Some a) (Some (base_pfn a)) 1 = Bug).
Proof.
  cbv zeta. split; [vm_compute; reflexivity|]. intros a Ha. cbn [cma_areas] in Ha. rewrite !elem_of_cons in Ha. destruct Ha as [->|[->|Ha]]; [vm_compute; by split..|by apply elem_of_nil in Ha].
Qed.
