(* ===== verification/TimeConv.v ===== *)
(** * Time: conversions between representations

    [src/new/kernel/time/time.c] with [include/linux/jiffies.h] and [include/linux/time64.h]: dates,
    seconds with nanoseconds, and ticks of the timer interrupt.  The preprocessor's choices
    between formulas by [HZ] are conditionals.  Machine words have 64 bits. *)

From S2P Require Import Prelude.

(** [include/linux/math64.h] is not part of the tree. *)
Class Math64 := {
  div_s64_rem : Z -> Z -> Z * Z;
  div_u64_rem : Z -> Z -> Z * Z;
  div_u64 : Z -> Z -> Z;
}.

(** The configured frequency and [generated/timeconst.h], which the build computes from
    it. *)
Class HzConfig := {
  HZ : Z;
  HZ_TO_MSEC_NUM : Z; HZ_TO_MSEC_DEN : Z;
  HZ_TO_USEC_NUM : Z; HZ_TO_USEC_DEN : Z;
  HZ_TO_NSEC_NUM : Z; HZ_TO_NSEC_DEN : Z;
  MSEC_TO_HZ_MUL32 : Z; MSEC_TO_HZ_ADJ32 : Z; MSEC_TO_HZ_SHR32 : Z;
  USEC_TO_HZ_MUL32 : Z; USEC_TO_HZ_ADJ32 : Z; USEC_TO_HZ_SHR32 : Z;
}.

(** ** Constants *)
Definition MSEC_PER_SEC : Z := 1000.
Definition USEC_PER_SEC : Z := 1000000.
Definition NSEC_PER_SEC : Z := 1000000000.
Definition NSEC_PER_USEC : Z := 1000.
Definition TIME64_MAX : Z := 2 ^ 63 - 1.
Definition KTIME_SEC_MAX : Z := (2 ^ 63 - 1) / NSEC_PER_SEC.
Definition USER_HZ : Z := 100.
Definition ULONG_MAX : Z := 2 ^ 64 - 1.
Definition LONG_MAX : Z := 2 ^ 63 - 1.
Definition MAX_JIFFY_OFFSET : Z := Z.shiftr LONG_MAX 1 - 1.

(** ** Dates *)
Definition mktime64 (year0 mon0 day hour min sec : Z) : Z :=
  let mon := u32 (mon0 - 2) in
  let '(mon, year) := if 0 >=? s32 mon then (u32 (mon + 12), u32 (year0 - 1)) else (mon, year0) in
  s64 ((((u32 (year / 4 - year / 100 + year / 400 + u32 (367 * mon) / 12 + day) + u32 (year * 365) - 719499) * 24 + hour) * 60 + min) * 60 + sec).

(** ** Seconds and nanoseconds *)
Record timespec64 := Timespec64 { tv_sec : Z; tv_nsec : Z }.
Record timeval := Timeval { tv_sec_of : Z; tv_usec : Z }.

Definition timespec64_equal (a b : timespec64) : bool := (tv_sec a =? tv_sec b) && (tv_nsec a =? tv_nsec b).
(** The difference of the nanoseconds becomes an [int]. *)
Definition timespec64_compare (lhs rhs : timespec64) : Z :=
  if tv_sec lhs <? tv_sec rhs then -1 else if tv_sec lhs >? tv_sec rhs then 1 else s32 (s64 (tv_nsec lhs - tv_nsec rhs)).
Definition timespec64_valid (ts : timespec64) : bool :=
  if tv_sec ts <? 0 then false else if u64 (tv_nsec ts) >=? NSEC_PER_SEC then false else true.
Definition timespec64_valid_strict (ts : timespec64) : bool :=
  if negb (timespec64_valid ts) then false else if u64 (tv_sec ts) >=? KTIME_SEC_MAX then false else true.
Definition timespec64_to_ns (ts : timespec64) : Z := s64 (tv_sec ts * NSEC_PER_SEC + tv_nsec ts).

(** The two loops; signed arithmetic wraps. *)
Fixpoint norm_down (fuel : nat) (sec nsec : Z) : outcome (Z * Z) :=
  match fuel with
  | O => NoFuel
  | S fuel => if nsec >=? NSEC_PER_SEC then norm_down fuel (s64 (sec + 1)) (s64 (nsec - NSEC_PER_SEC)) else Done (sec, nsec)
  end.
Fixpoint norm_up (fuel : nat) (sec nsec : Z) : outcome (Z * Z) :=
  match fuel with
  | O => NoFuel
  | S fuel => if nsec <? 0 then norm_up fuel (s64 (sec - 1)) (s64 (nsec + NSEC_PER_SEC)) else Done (sec, nsec)
  end.
(** One turn per second, and one more. *)
Definition norm_fuel (nsec : Z) : nat := Z.to_nat (Z.abs nsec / NSEC_PER_SEC + 2).
Definition set_normalized_timespec64 (sec nsec : Z) : outcome timespec64 :=
  '(sec, nsec) ← norm_down (norm_fuel nsec) sec nsec;
  '(sec, nsec) ← norm_up (norm_fuel nsec) sec nsec;
  Done (Timespec64 sec nsec).

Definition timespec64_add (lhs rhs : timespec64) : outcome timespec64 :=
  set_normalized_timespec64 (s64 (tv_sec lhs + tv_sec rhs)) (s64 (tv_nsec lhs + tv_nsec rhs)).
Definition timespec64_sub (lhs rhs : timespec64) : outcome timespec64 :=
  set_normalized_timespec64 (s64 (tv_sec lhs - tv_sec rhs)) (s64 (tv_nsec lhs - tv_nsec rhs)).
Definition timespec64_add_safe (lhs rhs : timespec64) : outcome timespec64 :=
  res ← set_normalized_timespec64 (s64 (u64 (u64 (tv_sec lhs) + u64 (tv_sec rhs)))) (s64 (tv_nsec lhs + tv_nsec rhs));
  Done (if (tv_sec res <? tv_sec lhs) || (tv_sec res <? tv_sec rhs) then Timespec64 TIME64_MAX 0 else res).

Section Conv.
Context `{Math64} `{HzConfig}.

Definition ns_to_timespec64 (nsec : Z) : timespec64 :=
  if negb (bool_of nsec) then Timespec64 0 0
  else
    let '(sec, rem) := div_s64_rem nsec NSEC_PER_SEC in
    if rem <? 0 then Timespec64 (s64 (sec - 1)) (s32 (rem + NSEC_PER_SEC)) else Timespec64 sec rem.
(** A [timespec] has the same fields as a [timespec64]. *)
Definition ns_to_timespec (nsec : Z) : timespec64 :=
  if negb (bool_of nsec) then Timespec64 0 0
  else
    let '(sec, rem) := div_s64_rem nsec NSEC_PER_SEC in
    if rem <? 0 then Timespec64 (s64 (sec - 1)) (s32 (rem + NSEC_PER_SEC)) else Timespec64 sec rem.
Definition ns_to_timeval (nsec : Z) : timeval := let ts := ns_to_timespec nsec in Timeval (tv_sec ts) (Z.quot (tv_nsec ts) 1000).
Definition ns_to_kernel_old_timeval (nsec : Z) : timeval := let ts := ns_to_timespec64 nsec in Timeval (tv_sec ts) (Z.quot (tv_nsec ts) 1000).

(** ** Ticks *)
Definition TICK_NSEC : Z := (NSEC_PER_SEC + HZ / 2) / HZ.

(** Other frequencies do not compile. *)
Definition SHIFT_HZ : Z :=
  if (HZ >=? 12) && (HZ <? 24) then 4 else if (HZ >=? 24) && (HZ <? 48) then 5 else if (HZ >=? 48) && (HZ <? 96) then 6
  else if (HZ >=? 96) && (HZ <? 192) then 7 else if (HZ >=? 192) && (HZ <? 384) then 8 else if (HZ >=? 384) && (HZ <? 768) then 9
  else if (HZ >=? 768) && (HZ <? 1536) then 10 else if (HZ >=? 1536) && (HZ <? 3072) then 11 else if (HZ >=? 3072) && (HZ <? 6144) then 12
  else 13.

Definition SEC_JIFFIE_SC : Z :=
  let sc := 31 - SHIFT_HZ in
  if negb (bool_of (Z.land (Z.shiftl (Z.shiftl NSEC_PER_SEC 2 / TICK_NSEC) (sc - 2)) 0x80000000)) then 32 - SHIFT_HZ else sc.
Definition NSEC_JIFFIE_SC : Z := SEC_JIFFIE_SC + 29.
Definition SEC_CONVERSION : Z := u64 (u64 (Z.shiftl NSEC_PER_SEC SEC_JIFFIE_SC) + TICK_NSEC - 1) / TICK_NSEC.
Definition NSEC_CONVERSION : Z := u64 (u64 (Z.shiftl 1 NSEC_JIFFIE_SC) + TICK_NSEC - 1) / TICK_NSEC.
Definition SH_DIV (NOM DEN LSH : Z) : Z := Z.shiftl (NOM / DEN) LSH + (Z.shiftl (NOM mod DEN) LSH + DEN / 2) / DEN.
Definition MAX_SEC_IN_JIFFIES : Z := SH_DIV (Z.shiftr MAX_JIFFY_OFFSET SEC_JIFFIE_SC * TICK_NSEC) NSEC_PER_SEC 1 - 1.

Definition jiffies_to_msecs (j : Z) : Z :=
  if (HZ <=? MSEC_PER_SEC) && (MSEC_PER_SEC mod HZ =? 0) then u32 (u64 (MSEC_PER_SEC / HZ * j))
  else if (HZ >? MSEC_PER_SEC) && (HZ mod MSEC_PER_SEC =? 0) then u32 (u64 (j + HZ / MSEC_PER_SEC - 1) / (HZ / MSEC_PER_SEC))
  else u32 (u64 (u64 (j * HZ_TO_MSEC_NUM) + HZ_TO_MSEC_DEN - 1) / HZ_TO_MSEC_DEN).
Definition jiffies_to_usecs (j : Z) : Z :=
  if USEC_PER_SEC mod HZ =? 0 then u32 (u64 (USEC_PER_SEC / HZ * j)) else u32 (u64 (j * HZ_TO_USEC_NUM) / HZ_TO_USEC_DEN).
Definition jiffies_to_nsecs (j : Z) : Z := u64 (jiffies_to_usecs j * NSEC_PER_USEC).

Definition _msecs_to_jiffies (m : Z) : Z :=
  if (HZ <=? MSEC_PER_SEC) && (MSEC_PER_SEC mod HZ =? 0) then (m + MSEC_PER_SEC / HZ - 1) / (MSEC_PER_SEC / HZ)
  else if (HZ >? MSEC_PER_SEC) && (HZ mod MSEC_PER_SEC =? 0) then
    if m >? jiffies_to_msecs MAX_JIFFY_OFFSET then MAX_JIFFY_OFFSET else m * (HZ / MSEC_PER_SEC)
  else if (HZ >? MSEC_PER_SEC) && (m >? jiffies_to_msecs MAX_JIFFY_OFFSET) then MAX_JIFFY_OFFSET
  else Z.shiftr (u64 (MSEC_TO_HZ_MUL32 * m + MSEC_TO_HZ_ADJ32)) MSEC_TO_HZ_SHR32.
Definition __msecs_to_jiffies (m : Z) : Z := if s32 m <? 0 then MAX_JIFFY_OFFSET else _msecs_to_jiffies m.

Definition _usecs_to_jiffies (u : Z) : Z :=
  if USEC_PER_SEC mod HZ =? 0 then (u + USEC_PER_SEC / HZ - 1) / (USEC_PER_SEC / HZ)
  else Z.shiftr (u64 (USEC_TO_HZ_MUL32 * u + USEC_TO_HZ_ADJ32)) USEC_TO_HZ_SHR32.
Definition __usecs_to_jiffies (u : Z) : Z := if u >? jiffies_to_usecs MAX_JIFFY_OFFSET then MAX_JIFFY_OFFSET else _usecs_to_jiffies u.

(** For constants the compiler takes the first branch, which does the same. *)
Definition msecs_to_jiffies (constant : bool) (m : Z) : Z :=
  if constant then (if s32 m <? 0 then MAX_JIFFY_OFFSET else _msecs_to_jiffies m) else __msecs_to_jiffies m.
Definition usecs_to_jiffies (constant : bool) (u : Z) : Z :=
  if constant then (if u >? jiffies_to_usecs MAX_JIFFY_OFFSET then MAX_JIFFY_OFFSET else _usecs_to_jiffies u) else __usecs_to_jiffies u.

(** [sec] is a [u64], [nsec] a [long]. *)
Definition __timespec64_to_jiffies (sec nsec : Z) : Z :=
  let nsec := s64 (nsec + TICK_NSEC - 1) in
  let '(sec, nsec) := if sec >=? u64 MAX_SEC_IN_JIFFIES then (u64 MAX_SEC_IN_JIFFIES, 0) else (sec, nsec) in
  Z.shiftr (u64 (u64 (sec * SEC_CONVERSION) + Z.shiftr (u64 (u64 nsec * NSEC_CONVERSION)) (NSEC_JIFFIE_SC - SEC_JIFFIE_SC))) SEC_JIFFIE_SC.
Definition __timespec_to_jiffies (sec nsec : Z) : Z := __timespec64_to_jiffies sec nsec.
Definition timespec64_to_jiffies (value : timespec64) : Z := __timespec64_to_jiffies (u64 (tv_sec value)) (tv_nsec value).
Definition timeval_to_jiffies (value : timeval) : Z := __timespec_to_jiffies (u64 (tv_sec_of value)) (s64 (tv_usec value * NSEC_PER_USEC)).
Definition jiffies_to_timespec64 (jiffies : Z) : timespec64 := let '(sec, rem) := div_u64_rem (u64 (jiffies * TICK_NSEC)) NSEC_PER_SEC in Timespec64 sec rem.
Definition jiffies_to_timeval (jiffies : Z) : timeval := let '(sec, rem) := div_u64_rem (u64 (jiffies * TICK_NSEC)) NSEC_PER_SEC in Timeval sec (rem / NSEC_PER_USEC).

(** ** Ticks of user space *)
Definition jiffies_to_clock_t (x : Z) : Z :=
  if TICK_NSEC mod (NSEC_PER_SEC / USER_HZ) =? 0 then
    if HZ <? USER_HZ then s64 (u64 (x * (USER_HZ / HZ))) else s64 (x / (HZ / USER_HZ))
  else s64 (div_u64 (u64 (x * TICK_NSEC)) (NSEC_PER_SEC / USER_HZ)).
Definition clock_t_to_jiffies (x : Z) : Z :=
  if HZ mod USER_HZ =? 0 then
    if x >=? ULONG_MAX / (HZ / USER_HZ) then ULONG_MAX else u64 (x * (HZ / USER_HZ))
  else if x >=? u64 (ULONG_MAX / HZ * USER_HZ) then ULONG_MAX
  else div_u64 (u64 (x * HZ)) USER_HZ.
Definition jiffies_64_to_clock_t (x : Z) : Z :=
  if TICK_NSEC mod (NSEC_PER_SEC / USER_HZ) =? 0 then
    if HZ <? USER_HZ then div_u64 (u64 (x * USER_HZ)) HZ
    else if HZ >? USER_HZ then div_u64 x (HZ / USER_HZ) else x
  else div_u64 (u64 (x * TICK_NSEC)) (NSEC_PER_SEC / USER_HZ).
Definition nsec_to_clock_t (x : Z) : Z :=
  if NSEC_PER_SEC mod USER_HZ =? 0 then div_u64 x (NSEC_PER_SEC / USER_HZ)
  else if USER_HZ mod 512 =? 0 then div_u64 (u64 (x * USER_HZ) / 512) (NSEC_PER_SEC / 512)
  else div_u64 (u64 (x * 9)) ((9 * NSEC_PER_SEC + USER_HZ / 2) / USER_HZ).
Definition jiffies64_to_nsecs (j : Z) : Z :=
  if NSEC_PER_SEC mod HZ =? 0 then u64 (NSEC_PER_SEC / HZ * j) else div_u64 (u64 (j * HZ_TO_NSEC_NUM)) HZ_TO_NSEC_DEN.
Definition nsecs_to_jiffies64 (n : Z) : Z :=
  if NSEC_PER_SEC mod HZ =? 0 then div_u64 n (NSEC_PER_SEC / HZ)
  else if HZ mod 512 =? 0 then div_u64 (u64 (n * HZ) / 512) (NSEC_PER_SEC / 512)
  else div_u64 (u64 (n * 9)) ((9 * NSEC_PER_SEC + HZ / 2) / HZ).
Definition nsecs_to_jiffies (n : Z) : Z := nsecs_to_jiffies64 n.
End Conv.

(** ** Comparing points in time *)
Definition time_after (a b : Z) : bool := s64 (b - a) <? 0.
Definition time_before (a b : Z) : bool := time_after b a.
Definition time_after_eq (a b : Z) : bool := s64 (a - b) >=? 0.
Definition time_before_eq (a b : Z) : bool := time_after_eq b a.
Definition time_in_range (a b c : Z) : bool := time_after_eq a b && time_before_eq a c.
Definition time_in_range_open (a b c : Z) : bool := time_after_eq a b && time_before a c.
Definition time_after32 (a b : Z) : bool := s32 (u32 (u32 b - u32 a)) <? 0.

(** ** Setting the time of day *)
Record timezone := Timezone { tz_minuteswest : Z; tz_dsttime : Z }.

(** The timekeeper and the security module; [timeval_valid] is in a header that is not
    part of the tree. *)
Class Timekeeper := {
  timeval_valid : timeval -> bool;
  keeper : Type;
  security_settime64 : keeper -> option timespec64 -> option timezone -> Z;
  do_settimeofday64 : keeper -> timespec64 -> Z * keeper;
  timekeeping_warp_clock : keeper -> timezone -> keeper;
  update_vsyscall_tz : keeper -> timezone -> keeper;
}.

Definition EINVAL : Z := 22.
Definition EFAULT : Z := 14.

Section Settime.
Context `{Timekeeper}.

Record wall := Wall { sys_tz : timezone; firsttime : bool; clock : keeper }.

Definition set_timezone (w : wall) (tv : option timespec64) (tz : timezone) : wall :=
  let c := update_vsyscall_tz (clock w) tz in
  let c := if firsttime w then match tv with None => timekeeping_warp_clock c tz | Some _ => c end else c in
  Wall tz false c.

Definition do_sys_settimeofday64 (w : wall) (tv : option timespec64) (tz : option timezone) : Z * wall :=
  if match tv with Some tv => negb (timespec64_valid tv) | None => false end then (- EINVAL, w)
  else
    let error := security_settime64 (clock w) tv tz in
    if bool_of error then (error, w)
    else if match tz with Some tz => (tz_minuteswest tz >? 15 * 60) || (tz_minuteswest tz <? - (15 * 60)) | None => false end then (- EINVAL, w)
    else
      let w := match tz with Some tz => set_timezone w tv tz | None => w end in
      match tv with
      | Some tv => let '(ret, c) := do_settimeofday64 (clock w) tv in (ret, Wall (sys_tz w) (firsttime w) c)
      | None => (0, w)
      end.

(** [tv] and [tz] of user space: absent, not readable, or a value. *)
Definition settimeofday (w : wall) (tv : option (option timeval)) (tz : option (option timezone)) : Z * wall :=
  match tv with
  | Some None => (- EFAULT, w)
  | Some (Some user_tv) =>
      if negb (timeval_valid user_tv) then (- EINVAL, w)
      else
        let new_ts := Timespec64 (tv_sec_of user_tv) (s64 (tv_usec user_tv * NSEC_PER_USEC)) in
        match tz with
        | Some None => (- EFAULT, w)
        | Some (Some new_tz) => do_sys_settimeofday64 w (Some new_ts) (Some new_tz)
        | None => do_sys_settimeofday64 w (Some new_ts) None
        end
  | None =>
      match tz with
      | Some None => (- EFAULT, w)
      | Some (Some new_tz) => do_sys_settimeofday64 w None (Some new_tz)
      | None => do_sys_settimeofday64 w None None
      end
  end.
End Settime.
