(* ===== verification/TimeProps.v ===== *)
(** * Time: what the conversions compute

    Sums and conversions against exact arithmetic on nanoseconds, [mktime64] against a calendar, the ticks
    of [timespec64_to_jiffies] against an exact division, and sequences of calls of [settimeofday]. *)

From S2P Require Import Prelude TimeConv.

(** ** Nanoseconds *)
Class Math64Spec `{Math64} : Prop := {
  div_s64_rem_ok a b : - 2 ^ 63 <= a < 2 ^ 63 -> 0 < b < 2 ^ 31 -> div_s64_rem a b = (Z.quot a b, Z.rem a b);
  div_u64_rem_ok a b : 0 <= a < 2 ^ 64 -> 0 < b < 2 ^ 32 -> div_u64_rem a b = (a / b, a mod b);
  div_u64_ok a b : 0 <= a < 2 ^ 64 -> 0 < b < 2 ^ 32 -> div_u64 a b = a / b;
}.

(** ** Signed arithmetic *)
Lemma s64_range z : - 2 ^ 63 <= s64 z < 2 ^ 63.
Proof. unfold s64. pose proof (Z.mod_pos_bound (z + 2 ^ 63) (2 ^ 64)). lia. Qed.

Lemma s64_cong a b : (a - b) mod 2 ^ 64 = 0 -> s64 a = s64 b.
Proof.
  intros Hm. unfold s64. f_equal. apply Z.mod_divide in Hm as [q Hq]; [|lia]. replace (a + 2 ^ 63) with (b + 2 ^ 63 + q * 2 ^ 64) by lia. apply Z.mod_add. lia.
Qed.

Lemma s64_diff z : (s64 z - z) mod 2 ^ 64 = 0.
Proof. unfold s64. apply Z.mod_divide; [lia|]. exists (- ((z + 2 ^ 63) / 2 ^ 64)). pose proof (Z.div_mod (z + 2 ^ 63) (2 ^ 64)). lia. Qed.

Lemma s64_add_l a b : s64 (s64 a + b) = s64 (a + b).
Proof. apply s64_cong. replace (s64 a + b - (a + b)) with (s64 a - a) by lia. apply s64_diff. Qed.

Lemma s64_u64 a : s64 (u64 a) = s64 a.
Proof. apply s64_cong. unfold u64. apply Z.mod_divide; [lia|]. exists (- (a / 2 ^ 64)). pose proof (Z.div_mod a (2 ^ 64)). lia. Qed.

(** ** Normal form *)
Abbreviation NS := 1000000000.

Lemma norm_down_ok fuel : forall sec nsec, nsec < 2 ^ 63 -> (Z.to_nat (nsec / NS) < fuel)%nat ->
  norm_down fuel (s64 sec) nsec = Done (if nsec <? 0 then (s64 sec, nsec) else (s64 (sec + nsec / NS), nsec mod NS)).
Proof.
  induction fuel as [|fuel IH]; intros sec nsec Hn Hf; [lia|]. cbn [norm_down]. unfold NSEC_PER_SEC. rewrite Z.geb_leb. destruct (Z.leb_spec NS nsec) as [Hge|Hlt].
  - rewrite s64_add_l, (s64_small (nsec - NS)) by lia. assert (Hd : (nsec - NS) / NS = nsec / NS - 1) by (Z.to_euclidean_division_equations; lia).
    assert (1 <= nsec / NS) by (Z.to_euclidean_division_equations; lia). rewrite IH by lia. rewrite Hd. do 2 f_equal.
    destruct (Z.ltb_spec (nsec - NS) 0), (Z.ltb_spec nsec 0); try lia. f_equal; [f_equal; lia|]. rewrite Zminus_mod, Z.mod_same, Z.sub_0_r, Z.mod_mod by lia. done.
  - destruct (Z.ltb_spec nsec 0); [done|]. rewrite Z.div_small, Z.mod_small, Z.add_0_r by lia. done.
Qed.

Lemma norm_up_ok fuel : forall sec nsec, - 2 ^ 63 <= nsec < NS -> (Z.to_nat (- (nsec / NS)) < fuel)%nat ->
  norm_up fuel (s64 sec) nsec = Done (s64 (sec + nsec / NS), nsec mod NS).
Proof.
  induction fuel as [|fuel IH]; intros sec nsec Hn Hf; [lia|]. cbn [norm_up]. unfold NSEC_PER_SEC. destruct (Z.ltb_spec nsec 0) as [Hlt|Hge].
  - replace (s64 sec - 1) with (s64 sec + -1) by lia. rewrite s64_add_l, (s64_small (nsec + NS)) by lia. assert (Hd : (nsec + NS) / NS = nsec / NS + 1) by (Z.to_euclidean_division_equations; lia).
    assert (nsec / NS <= -1) by (Z.to_euclidean_division_equations; lia). rewrite IH by lia. rewrite Hd. do 2 f_equal; [f_equal; lia|].
    rewrite Zplus_mod, Z.mod_same, Z.add_0_r, Z.mod_mod by lia. done.
  - rewrite Z.div_small, Z.mod_small, Z.add_0_r by lia. done.
Qed.

Lemma set_normalized_ok sec nsec : - 2 ^ 63 <= nsec < 2 ^ 63 -> set_normalized_timespec64 (s64 sec) nsec = Done (Timespec64 (s64 (sec + nsec / NS)) (nsec mod NS)).
Proof.
  intros Hn. unfold set_normalized_timespec64, norm_fuel, NSEC_PER_SEC. rewrite norm_down_ok; [|lia|Z.to_euclidean_division_equations; lia]. cbn [mbind outcome_bind].
  pose proof (Z.mod_pos_bound nsec NS ltac:(lia)). destruct (Z.ltb_spec nsec 0) as [Hlt|Hge].
  - rewrite norm_up_ok; [done|lia|Z.to_euclidean_division_equations; lia].
  - rewrite norm_up_ok; [|lia|pose proof (Z.div_pos (Z.abs (nsec mod NS)) NS); rewrite (Z.div_small (nsec mod NS)) by lia; lia]. rewrite (Z.div_small (nsec mod NS)), Z.mod_mod, Z.add_0_r by lia. done.
Qed.

(** ** Sums *)
Definition total (ts : timespec64) : Z := tv_sec ts * NS + tv_nsec ts.
Definition normal (ts : timespec64) : Prop := - 2 ^ 63 <= tv_sec ts < 2 ^ 63 /\ 0 <= tv_nsec ts < NS.

Lemma normal_total ts : normal ts -> total ts / NS = tv_sec ts /\ total ts mod NS = tv_nsec ts.
Proof. intros [Hs Hn]. unfold total. split; [rewrite Z.div_add_l, Z.div_small by lia; lia|]. rewrite Z.add_comm, Z.mod_add, Z.mod_small by lia. done. Qed.

(** [timespec64_add_safe] ends and returns a normal value: the exact sum of two times that are not
    negative, or the largest number of seconds if the seconds of the sum do not fit. *)
Theorem timespec64_add_safe_saturates lhs rhs : normal lhs -> normal rhs -> 0 <= tv_sec lhs -> 0 <= tv_sec rhs ->
  exists res, timespec64_add_safe lhs rhs = Done res /\ normal res /\ 0 <= tv_sec res /\
    if total lhs + total rhs <? 2 ^ 63 * NS then total res = total lhs + total rhs else res = Timespec64 TIME64_MAX 0.
Proof.
  intros [Hs1 Hn1] [Hs2 Hn2] H1 H2. unfold timespec64_add_safe. rewrite (u64_small (tv_sec lhs)), (u64_small (tv_sec rhs)) by (unfold is_u64; lia). rewrite s64_u64, (s64_small (tv_nsec lhs + _)) by lia.
  rewrite set_normalized_ok by lia. cbn [mbind outcome_bind tv_sec]. set (n := tv_nsec lhs + tv_nsec rhs). set (c := n / NS).
  assert (Hc : n = NS * c + n mod NS /\ 0 <= c <= 1 /\ 0 <= n mod NS < NS).
  { split; [apply Z.div_mod; lia|]. split; [|apply Z.mod_pos_bound; lia]. subst c n. Z.to_euclidean_division_equations. lia. }
  destruct Hc as (Hn & Hc & Hm). destruct (Z.lt_ge_cases (tv_sec lhs + tv_sec rhs + c) (2 ^ 63)) as [Hfit|Hover].
  - rewrite s64_small by lia. replace (_ || _) with false by (symmetry; apply orb_false_iff; split; apply Z.ltb_ge; lia).
    eexists. split; [done|]. split; [split; cbn; lia|]. split; [cbn; lia|]. unfold total. cbn [tv_sec tv_nsec]. rewrite (proj2 (Z.ltb_lt _ _)) by lia. lia.
  - assert (Hw : s64 (tv_sec lhs + tv_sec rhs + c) = tv_sec lhs + tv_sec rhs + c - 2 ^ 64).
    { rewrite <- (s64_small (tv_sec lhs + tv_sec rhs + c - 2 ^ 64)) by lia. apply s64_cong. replace (_ - _) with (1 * 2 ^ 64) by lia. apply Z.mod_mul. lia. }
    rewrite Hw, (proj2 (Z.ltb_lt (_ - 2 ^ 64) (tv_sec lhs))) by lia. cbn [orb]. eexists. split; [done|]. unfold TIME64_MAX. split; [split; cbn; lia|]. split; [cbn; lia|].
    unfold total. rewrite (proj2 (Z.ltb_ge _ _)) by lia. done.
Qed.

Lemma timespec64_add_safe_saturates_witness :
  (exists res, timespec64_add_safe (Timespec64 5 700000000) (Timespec64 7 600000000) = Done res /\ total res = 13300000000) /\
  exists res, timespec64_add_safe (Timespec64 (2 ^ 63 - 2) 700000000) (Timespec64 1 600000000) = Done res /\ res = Timespec64 TIME64_MAX 0.
Proof.
  split.
  - destruct (timespec64_add_safe_saturates (Timespec64 5 700000000) (Timespec64 7 600000000)) as (res & He & _ & _ & Ht); [by split|by split|done|done|]. by exists res.
  - destruct (timespec64_add_safe_saturates (Timespec64 (2 ^ 63 - 2) 700000000) (Timespec64 1 600000000)) as (res & He & _ & _ & Ht); [by split|by split|done|done|]. by exists res.
Defined.

(** ** Nanoseconds *)
Section Nanoseconds.
Context `{Math64} `{!Math64Spec}.

Theorem ns_timespec64_roundtrip ns : - 2 ^ 63 <= ns < 2 ^ 63 ->
  normal (ns_to_timespec64 ns) /\ total (ns_to_timespec64 ns) = ns /\ timespec64_to_ns (ns_to_timespec64 ns) = ns.
Proof using Type*.
  intros Hn. assert (Hx : normal (ns_to_timespec64 ns) /\ total (ns_to_timespec64 ns) = ns).
  { unfold ns_to_timespec64, bool_of, NSEC_PER_SEC. destruct (Z.eqb_spec ns 0) as [->|Hne]; [done|]. cbn [negb]. rewrite div_s64_rem_ok by lia.
    destruct (Z.ltb_spec (Z.rem ns NS) 0); unfold normal, total; cbn [tv_sec tv_nsec].
    - rewrite s64_small, s32_small by (Z.to_euclidean_division_equations; lia). Z.to_euclidean_division_equations. lia.
    - Z.to_euclidean_division_equations. lia. }
  destruct Hx as [Hnorm Ht]. split; [done|]. split; [done|]. unfold timespec64_to_ns. fold (total (ns_to_timespec64 ns)). unfold NSEC_PER_SEC.
  change (s64 (total (ns_to_timespec64 ns)) = ns). rewrite Ht. by apply s64_small.
Qed.
End Nanoseconds.

(** ** The calendar: the days of years and months counted one by one *)
(** ** The Gregorian calendar *)
Definition is_leap (y : Z) : bool := (y mod 4 =? 0) && (negb (y mod 100 =? 0) || (y mod 400 =? 0)).
Definition year_days (y : Z) : Z := if is_leap y then 366 else 365.
Definition month_days (y m : Z) : Z :=
  if m =? 2 then if is_leap y then 29 else 28 else if (m =? 4) || (m =? 6) || (m =? 9) || (m =? 11) then 30 else 31.

(** Days of the years from 0 on, and of the months of a year from January on. *)
Fixpoint days_to_year (n : nat) : Z := match n with O => 0 | S n => days_to_year n + year_days (Z.of_nat n) end.
Fixpoint days_to_month (y : Z) (n : nat) : Z := match n with O => 0 | S n => days_to_month y n + month_days y (Z.of_nat n + 1) end.

(** The number of a day, with the first of January of the year 0 as 0. *)
Definition day_number (y m d : Z) : Z := days_to_year (Z.to_nat y) + days_to_month y (Z.to_nat (m - 1)) + (d - 1).
Definition unix_day (y m d : Z) : Z := day_number y m d - day_number 1970 1 1.

(** ** Leap years in closed form *)
Lemma is_leap_count y : 0 <= y ->
  (if is_leap y then 1 else 0) = (y / 4 - y / 100 + y / 400) - ((y - 1) / 4 - (y - 1) / 100 + (y - 1) / 400).
Proof.
  intros Hy. unfold is_leap. destruct (Z.eqb_spec (y mod 4) 0), (Z.eqb_spec (y mod 100) 0), (Z.eqb_spec (y mod 400) 0); cbn [andb orb negb];
    Z.to_euclidean_division_equations; lia.
Qed.

Lemma days_to_year_closed n : days_to_year n = 365 * Z.of_nat n + (Z.of_nat n - 1) / 4 - (Z.of_nat n - 1) / 100 + (Z.of_nat n - 1) / 400 + 1.
Proof.
  induction n as [|n IH]; [reflexivity|]. cbn [days_to_year]. rewrite IH. unfold year_days. pose proof (is_leap_count (Z.of_nat n) ltac:(lia)) as Hl.
  replace (Z.of_nat (S n) - 1) with (Z.of_nat n) by lia. destruct (is_leap (Z.of_nat n)); lia.
Qed.

Lemma day_number_1970 : day_number 1970 1 1 = 719528.
Proof. unfold day_number. rewrite days_to_year_closed. reflexivity. Qed.

(** Months as the code counts them: from March on, with the days of 367/12 months. *)
Lemma month_closed y m : 1 <= m <= 12 ->
  days_to_month y (Z.to_nat (m - 1)) = if m <=? 2 then 367 * (m + 10) / 12 - 336 else 367 * (m - 2) / 12 + 29 + (if is_leap y then 1 else 0).
Proof.
  intros Hm. assert (Hc : m = 1 \/ m = 2 \/ m = 3 \/ m = 4 \/ m = 5 \/ m = 6 \/ m = 7 \/ m = 8 \/ m = 9 \/ m = 10 \/ m = 11 \/ m = 12) by lia.
  repeat (destruct Hc as [->|Hc]); [..|subst m]; cbv -[is_leap]; destruct (is_leap y); reflexivity.
Qed.

(** Days behind the first day of the shifted year, in the arithmetic of the code. *)
Lemma day_formula year mon d : 0 <= year < 11767034 -> 1 <= mon <= 12 -> 1 <= d <= 31 ->
  u32 (year / 4 - year / 100 + year / 400 + u32 (367 * mon) / 12 + d) + u32 (year * 365) = year / 4 - year / 100 + year / 400 + 367 * mon / 12 + d + year * 365.
Proof. intros Hy Hm Hd. rewrite (u32_small (367 * mon)), (u32_small (year * 365)) by lia. rewrite u32_small; [done|]. Z.to_euclidean_division_equations. lia. Qed.

(** C21: [mktime64] is the number of seconds since 1970 of a calendar that counts leap years and
    months one by one, for all dates from the year 1 until 32 bits of days run out behind the year
    11767033, with seconds and hours that run over as in 23:59:60 and 24:00:00. *)
Theorem mktime64_calendar y m d hour min sec : 1 <= y < 11767034 -> 1 <= m <= 12 -> 1 <= d <= month_days y m ->
  0 <= hour < 2 ^ 32 -> 0 <= min < 2 ^ 32 -> 0 <= sec < 2 ^ 32 ->
  mktime64 y m d hour min sec = ((unix_day y m d * 24 + hour) * 60 + min) * 60 + sec.
Proof.
  intros Hy Hm Hd Hh Hmi Hs. assert (Hd31 : d <= 31) by (revert Hd; unfold month_days; destruct (m =? 2), (is_leap y), ((m =? 4) || (m =? 6) || (m =? 9) || (m =? 11)); lia).
  unfold mktime64, unix_day. rewrite day_number_1970. unfold day_number. rewrite days_to_year_closed, (month_closed y m Hm), Z2Nat.id by lia.
  pose proof (is_leap_count y ltac:(lia)) as Hl. destruct (Z.leb_spec m 2) as [Hm2|Hm2].
  - assert (Hc : u32 (m - 2) = m - 2 + (if m =? 1 then 2 ^ 32 else 0)) by (assert (m = 1 \/ m = 2) as [-> | ->] by lia; reflexivity). rewrite Hc.
    replace (0 >=? s32 _) with true by (assert (m = 1 \/ m = 2) as [-> | ->] by lia; reflexivity). replace (u32 (_ + 12)) with (m + 10) by (assert (m = 1 \/ m = 2) as [-> | ->] by lia; reflexivity).
    rewrite (u32_small (y - 1)) by lia. rewrite day_formula by lia. rewrite s64_small; Z.to_euclidean_division_equations; lia.
  - rewrite (u32_small (m - 2)), (s32_small (m - 2)) by lia. replace (0 >=? m - 2) with false by (symmetry; rewrite Z.geb_leb; apply Z.leb_gt; lia).
    rewrite day_formula by lia. rewrite s64_small; destruct (is_leap y); Z.to_euclidean_division_equations; lia.
Qed.

Lemma mktime64_calendar_witness : mktime64 2000 2 29 23 59 60 = 951868800 /\ ((unix_day 2000 2 29 * 24 + 23) * 60 + 59) * 60 + 60 = 951868800.
Proof.
  assert (He : mktime64 2000 2 29 23 59 60 = 951868800) by reflexivity. split; [exact He|]. rewrite <- He. symmetry.
  apply (mktime64_calendar 2000 2 29 23 59 60); [lia|lia|vm_compute; split; discriminate|lia|lia|lia].
Defined.

(** From March 11767034 on the days of the years wrap, and the year 0 starts in 2^32 - 1. *)
Example mktime64_wraps : mktime64 11767034 3 1 0 0 0 <> unix_day 11767034 3 1 * 86400 /\ mktime64 0 1 1 0 0 0 <> unix_day 0 1 1 * 86400.
Proof. unfold unix_day. rewrite day_number_1970. unfold day_number. rewrite !days_to_year_closed. rewrite Z2Nat.id by lia. split; vm_compute; discriminate. Qed.

(** ** Ticks: the scaled arithmetic is exact for every frequency that divides a second into whole nanoseconds *)
Lemma land_bit31 x : 0 <= x < 2 ^ 32 -> bool_of (Z.land x 0x80000000) = (2 ^ 31 <=? x).
Proof.
  intros Hx. replace (Z.land x 0x80000000) with (if Z.testbit x 31 then 2 ^ 31 else 0).
  - pose proof (Z.testbit_spec' x 31 ltac:(lia)) as Ht. destruct (Z.leb_spec (2 ^ 31) x).
    + replace (x / 2 ^ 31) with 1 in Ht by (Z.to_euclidean_division_equations; lia). by destruct (Z.testbit x 31).
    + rewrite Z.div_small in Ht by lia. by destruct (Z.testbit x 31).
  - apply Z.bits_inj'. intros n Hn. rewrite Z.land_spec. change 0x80000000 with (2 ^ 31). rewrite Z.pow2_bits_eqb by lia. destruct (Z.eqb_spec 31 n) as [<-|Hne].
    + destruct (Z.testbit x 31); by rewrite ?andb_true_r.
    + rewrite andb_false_r. destruct (Z.testbit x 31); [|apply Z.testbit_0_l]. rewrite Z.pow2_bits_eqb by lia. by apply Z.eqb_neq.
Qed.

(** Multiplying with a reciprocal that is rounded up is division, for small numbers. *)
Lemma reciprocal_exact x T k B : 0 < T -> 0 <= k -> 0 <= x < B -> B * T <= 2 ^ k -> Z.shiftr (x * ((2 ^ k + T - 1) / T)) k = x / T.
Proof.
  intros HT Hk Hx HB. rewrite Z.shiftr_div_pow2 by lia. assert (H2k : 0 < 2 ^ k) by (apply Z.pow_pos_nonneg; lia). set (c := (2 ^ k + T - 1) / T).
  assert (Hc : 2 ^ k <= c * T < 2 ^ k + T).
  { pose proof (Z.div_mod (2 ^ k + T - 1) T ltac:(lia)) as Hdm. pose proof (Z.mod_pos_bound (2 ^ k + T - 1) T ltac:(lia)). fold c in Hdm. lia. }
  pose proof (Z.div_mod x T ltac:(lia)) as Hd. pose proof (Z.mod_pos_bound x T ltac:(lia)). set (q := x / T) in *. set (r := x mod T) in *.
  assert (Hq : 0 <= q) by (apply Z.div_pos; lia). symmetry. apply Z.div_unique with (r := x * c - q * 2 ^ k); [|lia]. left.
  assert (He : 0 <= c * T - 2 ^ k < T) by lia. set (e := c * T - 2 ^ k) in *. assert (Hxe : x * e < 2 ^ k) by nia. assert (Hcx : (x * c - q * 2 ^ k) * T = r * 2 ^ k + x * e) by (subst e; nia).
  split; [nia|]. apply (Z.mul_lt_mono_pos_r T); [lia|]. rewrite Hcx. nia.
Qed.

Section Ticks.
Context `{Math64} `{!Math64Spec} `{HzConfig}.
Hypothesis HZ_range : 12 <= HZ < 12288.
Hypothesis HZ_divides : (HZ | NSEC_PER_SEC).

Lemma tick_eq : TICK_NSEC * HZ = NS /\ 0 < TICK_NSEC.
Proof using HZ_range HZ_divides.
  destruct HZ_divides as [T HT]. unfold NSEC_PER_SEC in HT. assert (He : TICK_NSEC = T); [|rewrite He; nia]. unfold TICK_NSEC, NSEC_PER_SEC. rewrite HT, Z.div_add_l by lia.
  rewrite (Z.div_small (HZ / 2)); [lia|]. Z.to_euclidean_division_equations. lia.
Qed.

(** The frequency with its scale. *)
Lemma shift_hz : exists lo, 4 <= SHIFT_HZ <= 13 /\ lo <= HZ < 2 * lo /\ 2 ^ SHIFT_HZ * 3 = 4 * lo.
Proof using HZ_range.
  unfold SHIFT_HZ. rewrite !Z.geb_leb.
  repeat match goal with |- context [(?a <=? HZ) && (HZ <? ?b)] => destruct (Z.leb_spec a HZ), (Z.ltb_spec HZ b); cbn [andb]; [exists a; lia|..]; try lia end. exists 6144. lia.
Qed.

Lemma scale_facts : let S := SEC_JIFFIE_SC in 18 <= S <= 28 /\ 2 ^ 31 <= HZ * 2 ^ S < 2 ^ 32 /\ (NS + TICK_NSEC) * TICK_NSEC <= 2 ^ (S + 29).
Proof using HZ_range HZ_divides.
  destruct tick_eq as [HT HT0]. destruct shift_hz as (lo & Hsh & Hlo & Hp). unfold SEC_JIFFIE_SC, NSEC_PER_SEC. cbv zeta. set (h := SHIFT_HZ) in *. clearbody h.
  assert (Hx : Z.shiftl (Z.shiftl NS 2 / TICK_NSEC) (31 - h - 2) = HZ * 2 ^ (31 - h)).
  { rewrite !Z.shiftl_mul_pow2 by lia. replace (NS * 2 ^ 2) with (4 * HZ * TICK_NSEC) by lia. rewrite Z.div_mul by lia. replace (31 - h) with (31 - h - 2 + 2) at 2 by lia. rewrite Z.pow_add_r by lia. lia. }
  assert (Hpow : 2 ^ (31 - h) * 2 ^ h = 2 ^ 31) by (rewrite <- Z.pow_add_r by lia; f_equal; lia). assert (H2h : 0 < 2 ^ h /\ 0 < 2 ^ (31 - h)) by (split; apply Z.pow_pos_nonneg; lia).
  assert (H32 : 2 ^ (32 - h) = 2 * 2 ^ (31 - h)) by (replace (32 - h) with (1 + (31 - h)) by lia; rewrite Z.pow_add_r by lia; lia).
  rewrite Hx, land_bit31 by nia. destruct (Z.leb_spec (2 ^ 31) (HZ * 2 ^ (31 - h))) as [Hset|Hclear]; cbn [negb].
  - split; [lia|]. split; [nia|]. rewrite Z.pow_add_r by lia. assert (2 ^ h <= HZ) by nia. assert (HTh : TICK_NSEC * 2 ^ h <= NS) by nia.
    apply (Z.mul_le_mono_pos_r _ _ (2 ^ h)); [lia|]. replace (2 ^ (31 - h) * 2 ^ 29 * 2 ^ h) with (2 ^ 60) by nia. assert (TICK_NSEC * 12 <= NS) by nia. nia.
  - split; [lia|]. rewrite H32. split; [nia|]. rewrite Z.pow_add_r, H32 by lia. assert (HTh : TICK_NSEC * 2 ^ h * 3 <= 4 * NS) by nia.
    apply (Z.mul_le_mono_pos_r _ _ (2 ^ h)); [lia|]. replace (2 * 2 ^ (31 - h) * 2 ^ 29 * 2 ^ h) with (2 ^ 61) by nia. assert (TICK_NSEC * 12 <= NS) by nia. nia.
Qed.
Lemma sec_conversion_eq : SEC_CONVERSION = HZ * 2 ^ SEC_JIFFIE_SC.
Proof using HZ_range HZ_divides.
  destruct tick_eq as [HT HT0]. destruct scale_facts as (HS & Hhz & _). unfold SEC_CONVERSION, NSEC_PER_SEC. set (S := SEC_JIFFIE_SC) in *. clearbody S. rewrite Z.shiftl_mul_pow2 by lia.
  assert (HTN : TICK_NSEC <= NS) by nia. assert (H2S : 0 < 2 ^ S) by (apply Z.pow_pos_nonneg; lia). assert (Hlt : NS * 2 ^ S < 2 ^ 60) by (assert (2 ^ S <= 2 ^ 28) by (apply Z.pow_le_mono_r; lia); lia).
  rewrite (u64_small (NS * 2 ^ S)), u64_small by (unfold is_u64; lia). replace (NS * 2 ^ S + TICK_NSEC - 1) with (HZ * 2 ^ S * TICK_NSEC + (TICK_NSEC - 1)) by nia. rewrite Z.div_add_l, Z.div_small by lia. lia.
Qed.

Lemma nsec_conversion_eq : NSEC_CONVERSION = (2 ^ (SEC_JIFFIE_SC + 29) + TICK_NSEC - 1) / TICK_NSEC.
Proof using HZ_range HZ_divides.
  destruct tick_eq as [HT HT0]. destruct scale_facts as (HS & _). unfold NSEC_CONVERSION, NSEC_JIFFIE_SC. set (S := SEC_JIFFIE_SC) in *. clearbody S. rewrite Z.shiftl_1_l.
  assert (HTN : TICK_NSEC <= NS) by nia. assert (H2S : 0 < 2 ^ (S + 29) <= 2 ^ 57) by (split; [apply Z.pow_pos_nonneg; lia|apply Z.pow_le_mono_r; lia]).
  rewrite (u64_small (2 ^ (S + 29))), u64_small by (unfold is_u64; lia). done.
Qed.

(** Seconds up to the maximum fit. *)
Lemma max_sec_facts : 0 < MAX_SEC_IN_JIFFIES /\ MAX_SEC_IN_JIFFIES * HZ * 2 ^ SEC_JIFFIE_SC < 2 ^ 63.
Proof using HZ_range HZ_divides.
  destruct tick_eq as [HT HT0]. destruct scale_facts as (HS & Hhz & _). unfold MAX_SEC_IN_JIFFIES, SH_DIV, MAX_JIFFY_OFFSET, LONG_MAX, NSEC_PER_SEC. set (S := SEC_JIFFIE_SC) in *. clearbody S.
  change (Z.shiftr (2 ^ 63 - 1) 1 - 1) with (2 ^ 62 - 2). rewrite Z.shiftr_div_pow2, !Z.shiftl_mul_pow2 by lia.
  assert (H2S : 2 ^ 18 <= 2 ^ S <= 2 ^ 28) by (split; apply Z.pow_le_mono_r; lia). assert (Hp : 2 ^ (62 - S) * 2 ^ S = 2 ^ 62) by (rewrite <- Z.pow_add_r by lia; f_equal; lia).
  assert (Hq : (2 ^ 62 - 2) / 2 ^ S = 2 ^ (62 - S) - 1) by (symmetry; apply Z.div_unique with (r := 2 ^ S - 2); lia). rewrite Hq.
  assert (H62 : 2 ^ 34 <= 2 ^ (62 - S)) by (apply Z.pow_le_mono_r; lia). set (M := (2 ^ (62 - S) - 1) * TICK_NSEC).
  pose proof (Z.div_mod M NS ltac:(lia)) as Hdm. pose proof (Z.mod_pos_bound M NS ltac:(lia)) as Hmb. set (q := M / NS) in *. set (r := M mod NS) in *. clearbody q r.
  change (2 ^ 1) with 2. pose proof (Z.div_mod (r * 2 + NS / 2) NS ltac:(lia)) as Hdm2. pose proof (Z.mod_pos_bound (r * 2 + NS / 2) NS ltac:(lia)) as Hmb2.
  change (NS / 2) with 500000000 in *. set (t := (r * 2 + 500000000) / NS) in *. clearbody t. split; [nia|].
  assert (Ht : (q * 2 + t - 1) * NS <= 2 * M) by lia. rewrite <- HT in Ht. assert (Ht2 : (q * 2 + t - 1) * HZ <= 2 * (2 ^ (62 - S) - 1)) by nia. nia.
Qed.

(** The sum of the two parts, with a second part that is small enough. *)
Lemma scaled_sum sec x : 0 <= sec <= MAX_SEC_IN_JIFFIES -> 0 <= x < NS + TICK_NSEC ->
  Z.shiftr (u64 (u64 (sec * SEC_CONVERSION) + Z.shiftr (u64 (u64 x * NSEC_CONVERSION)) (NSEC_JIFFIE_SC - SEC_JIFFIE_SC))) SEC_JIFFIE_SC = sec * HZ + x / TICK_NSEC.
Proof using HZ_range HZ_divides.
  intros Hsec Hx. destruct tick_eq as [HT HT0]. destruct scale_facts as (HS & Hhz & HB). destruct max_sec_facts as [HM0 HM]. rewrite sec_conversion_eq, nsec_conversion_eq. unfold NSEC_JIFFIE_SC.
  replace (SEC_JIFFIE_SC + 29 - SEC_JIFFIE_SC) with 29 by lia. set (S := SEC_JIFFIE_SC) in *. clearbody S. assert (HTN : TICK_NSEC <= NS) by nia.
  rewrite <- (reciprocal_exact x TICK_NSEC (S + 29) (NS + TICK_NSEC)) by lia. set (c := (2 ^ (S + 29) + TICK_NSEC - 1) / TICK_NSEC).
  assert (H2S : 0 < 2 ^ S) by (apply Z.pow_pos_nonneg; lia). assert (Hc : 0 <= c /\ c * TICK_NSEC <= 2 ^ (S + 29) + TICK_NSEC).
  { assert (HTne : TICK_NSEC <> 0) by (clear - HT0; lia). pose proof (Z.div_mod (2 ^ (S + 29) + TICK_NSEC - 1) TICK_NSEC HTne) as Hdm. pose proof (Z.mod_pos_bound (2 ^ (S + 29) + TICK_NSEC - 1) TICK_NSEC HT0).
    assert (0 < 2 ^ (S + 29)) by (apply Z.pow_pos_nonneg; lia). split; [apply Z.div_pos; lia|]. fold c in Hdm. lia. }
  assert (Hxc : 0 <= x * c < 2 ^ 62).
  { split; [nia|]. rewrite Z.pow_add_r in Hc by lia. assert (Hb : x * c <= (HZ + 1) * (2 ^ S * 2 ^ 29 + TICK_NSEC)) by nia. assert (2 ^ S <= 2 ^ 28) by (apply Z.pow_le_mono_r; lia). nia. }
  rewrite (u64_small x), (u64_small (x * c)), (u64_small (sec * _)) by (unfold is_u64; nia). rewrite !Z.shiftr_div_pow2 by lia.
  assert (Hlow : 0 <= x * c / 2 ^ 29 < 2 ^ 62) by (split; [apply Z.div_pos; lia|apply Z.div_lt_upper_bound; lia]). rewrite u64_small by (unfold is_u64; nia).
  rewrite (Z.add_comm S), Z.pow_add_r, <- Z.div_div by lia. rewrite Z.mul_assoc, Z.div_add_l by lia. done.
Qed.

(** C20: For every frequency that divides a second into whole nanoseconds, [timespec64_to_jiffies] is
    the exact number of ticks, rounded up: a timeout never ends early, and at most one
    tick late.  From [MAX_SEC_IN_JIFFIES] seconds on, and for negative seconds, it is a number of ticks
    that is not larger than [MAX_JIFFY_OFFSET]; ticks that are converted to a time and
    back are the same ticks. *)
Theorem timespec64_to_jiffies_exact ts : normal ts ->
  (0 <= tv_sec ts < MAX_SEC_IN_JIFFIES -> timespec64_to_jiffies ts = (total ts + TICK_NSEC - 1) / TICK_NSEC) /\
  (tv_sec ts < 0 \/ MAX_SEC_IN_JIFFIES <= tv_sec ts -> timespec64_to_jiffies ts = MAX_SEC_IN_JIFFIES * HZ /\ timespec64_to_jiffies ts <= MAX_JIFFY_OFFSET) /\
  (forall j, 0 <= j -> j < MAX_SEC_IN_JIFFIES * HZ -> timespec64_to_jiffies (jiffies_to_timespec64 j) = j).
Proof using Type*.
  destruct tick_eq as [HT HT0]. destruct max_sec_facts as [HM0 HM]. destruct scale_facts as (HS & Hhz & _). assert (HTN : TICK_NSEC <= NS) by nia.
  assert (H2S : 2 ^ 18 <= 2 ^ SEC_JIFFIE_SC) by (apply Z.pow_le_mono_r; lia). assert (HM64 : u64 MAX_SEC_IN_JIFFIES = MAX_SEC_IN_JIFFIES) by (apply u64_small; unfold is_u64; nia).
  assert (Hin : forall ts, normal ts -> 0 <= tv_sec ts < MAX_SEC_IN_JIFFIES -> timespec64_to_jiffies ts = (total ts + TICK_NSEC - 1) / TICK_NSEC).
  { intros t [Hs Hn] Hr. unfold timespec64_to_jiffies, __timespec64_to_jiffies. rewrite HM64, (u64_small (tv_sec t)) by (unfold is_u64; lia). rewrite Z.geb_leb, (proj2 (Z.leb_gt _ _)) by lia.
    rewrite s64_small by lia. rewrite scaled_sum by lia. unfold total. rewrite <- Z.div_add_l by lia. f_equal. nia. }
  intros [Hs Hn]. split; [intros Hr; by apply Hin|]. split.
  - intros Hr. assert (He : timespec64_to_jiffies ts = MAX_SEC_IN_JIFFIES * HZ); [|split; [done|]; rewrite He; change MAX_JIFFY_OFFSET with (2 ^ 62 - 2); nia].
    unfold timespec64_to_jiffies, __timespec64_to_jiffies. rewrite HM64. assert (Hbig : MAX_SEC_IN_JIFFIES <= u64 (tv_sec ts)).
    { destruct Hr as [Hneg|Hbig]; [|rewrite u64_small by (unfold is_u64; lia); lia]. unfold u64. rewrite <- (Z.mod_add _ 1), Z.mod_small by lia. nia. }
    rewrite Z.geb_leb, (proj2 (Z.leb_le _ _)) by lia. rewrite scaled_sum by lia. rewrite Z.div_0_l by lia. lia.
  - intros j Hj Hjm. unfold jiffies_to_timespec64. assert (Hjt : 0 <= j * TICK_NSEC < MAX_SEC_IN_JIFFIES * NS) by nia.
    assert (Hjs : j * TICK_NSEC < 2 ^ 63). { assert (Hj2 : j * 2 ^ SEC_JIFFIE_SC < 2 ^ 63) by nia. apply (Z.mul_lt_mono_pos_r (HZ * 2 ^ SEC_JIFFIE_SC)); [lia|]. nia. }
    rewrite u64_small by (unfold is_u64; lia). rewrite div_u64_rem_ok by (unfold NSEC_PER_SEC; lia). unfold NSEC_PER_SEC.
    pose proof (Z.div_mod (j * TICK_NSEC) NS ltac:(lia)) as Hdm. pose proof (Z.mod_pos_bound (j * TICK_NSEC) NS ltac:(lia)). set (q := j * TICK_NSEC / NS) in *. set (r := (j * TICK_NSEC) mod NS) in *.
    rewrite Hin; [|split; cbn [tv_sec tv_nsec]; nia|cbn [tv_sec]; nia]. unfold total. cbn [tv_sec tv_nsec]. replace (q * NS + r + TICK_NSEC - 1) with (j * TICK_NSEC + (TICK_NSEC - 1)) by lia.
    rewrite Z.div_add_l, Z.div_small by lia. lia.
Qed.
End Ticks.

(** ** Milliseconds and microseconds *)
Section Msecs.
Context `{Math64} `{!Math64Spec} `{HzConfig}.
Hypothesis HZ_pos : 0 < HZ.

Lemma msec_factor : (HZ | MSEC_PER_SEC) -> (HZ <=? MSEC_PER_SEC) && (MSEC_PER_SEC mod HZ =? 0) = true /\ exists k, 0 < k <= 1000 /\ MSEC_PER_SEC / HZ = k /\ k * HZ = 1000.
Proof using HZ_pos.
  intros [k Hk]. unfold MSEC_PER_SEC in *. assert (0 < k) by nia. rewrite Hk, Z.mod_mul, Z.div_mul by lia. split; [|exists k; nia]. rewrite Z.eqb_refl, andb_true_r. apply Z.leb_le. nia.
Qed.

Lemma msecs_negative x : 0 <= x < 2 ^ 32 -> (s32 x <? 0) = (2 ^ 31 <=? x).
Proof using Type. intros Hx. destruct (Z.leb_spec (2 ^ 31) x); [apply Z.ltb_lt|apply Z.ltb_ge]; unfold s32; Z.to_euclidean_division_equations; lia. Qed.

(** Milliseconds become ticks, rounded up, and negative ones the longest timeout; whole ticks
    come back unless they exceed 31 bits of milliseconds. *)
Theorem msecs_to_jiffies_exact m constant : (HZ | MSEC_PER_SEC) -> 0 <= m < 2 ^ 32 ->
  (2 ^ 31 <= m -> msecs_to_jiffies constant m = MAX_JIFFY_OFFSET) /\
  (m < 2 ^ 31 -> m * HZ <= msecs_to_jiffies constant m * MSEC_PER_SEC < m * HZ + MSEC_PER_SEC) /\
  (forall j, 0 <= j -> j * MSEC_PER_SEC < 2 ^ 31 * HZ -> msecs_to_jiffies constant (jiffies_to_msecs j) = j).
Proof using HZ_pos.
  intros Hd Hm. destruct (msec_factor Hd) as (Hb & k & Hk & Hdiv & Hkh). assert (He : forall x, msecs_to_jiffies constant x = if s32 x <? 0 then MAX_JIFFY_OFFSET else (x + k - 1) / k).
  { intros x. unfold msecs_to_jiffies, __msecs_to_jiffies, _msecs_to_jiffies. rewrite Hb, Hdiv. by destruct constant. }
  unfold MSEC_PER_SEC in *. rewrite He, (msecs_negative m Hm). split; [intros Hge; by rewrite (proj2 (Z.leb_le _ _))|]. split.
  - intros Hlt. rewrite (proj2 (Z.leb_gt _ _)) by lia. pose proof (Z.div_mod (m + k - 1) k ltac:(lia)). pose proof (Z.mod_pos_bound (m + k - 1) k ltac:(lia)). nia.
  - intros j Hj Hjm. unfold jiffies_to_msecs. unfold MSEC_PER_SEC. rewrite Hb, Hdiv. assert (Hkj : 0 <= k * j < 2 ^ 31) by nia. rewrite u64_small by (unfold is_u64; lia). rewrite u32_small by lia.
    rewrite He, msecs_negative by lia. rewrite (proj2 (Z.leb_gt _ _)) by lia. replace (k * j + k - 1) with (j * k + (k - 1)) by lia. rewrite Z.div_add_l, Z.div_small by lia. lia.
Qed.
End Msecs.

(** ** Points in time that wrap *)

(** The order of counters is right as long as they are less than half of their range apart. *)
Theorem time_after_order x y : - 2 ^ 63 < x - y < 2 ^ 63 ->
  time_after (u64 x) (u64 y) = (y <? x) /\ time_before (u64 x) (u64 y) = (x <? y) /\ time_after_eq (u64 x) (u64 y) = (y <=? x) /\ time_before_eq (u64 x) (u64 y) = (x <=? y).
Proof.
  intros Hd. assert (He : forall a b, - 2 ^ 63 < a - b < 2 ^ 63 -> s64 (u64 a - u64 b) = a - b).
  { intros a b Hab. rewrite <- (s64_small (a - b)) by lia. apply s64_cong. unfold u64. apply Z.mod_divide; [lia|]. exists (b / 2 ^ 64 - a / 2 ^ 64).
    pose proof (Z.div_mod a (2 ^ 64)). pose proof (Z.div_mod b (2 ^ 64)). lia. }
  unfold time_before, time_before_eq, time_after, time_after_eq. rewrite !Z.geb_leb. rewrite !He by lia.
  split_and!; [destruct (Z.ltb_spec (y - x) 0), (Z.ltb_spec y x); lia || done|destruct (Z.ltb_spec (x - y) 0), (Z.ltb_spec x y); lia || done|
    destruct (Z.leb_spec 0 (x - y)), (Z.leb_spec y x); lia || done|destruct (Z.leb_spec 0 (y - x)), (Z.leb_spec x y); lia || done].
Qed.

(** ** Configurations *)
#[export] Instance math64 : Math64 := {| div_s64_rem a b := (Z.quot a b, Z.rem a b); div_u64_rem a b := (a / b, a mod b); div_u64 a b := a / b |}.
#[export] Instance math64_spec : Math64Spec.
Proof. by split. Qed.

(** The constants of the build are used only by frequencies that do not divide the units. *)
Definition hz (f : Z) : HzConfig :=
  {| HZ := f; HZ_TO_MSEC_NUM := 0; HZ_TO_MSEC_DEN := 1; HZ_TO_USEC_NUM := 0; HZ_TO_USEC_DEN := 1; HZ_TO_NSEC_NUM := 0; HZ_TO_NSEC_DEN := 1;
     MSEC_TO_HZ_MUL32 := 0; MSEC_TO_HZ_ADJ32 := 0; MSEC_TO_HZ_SHR32 := 0; USEC_TO_HZ_MUL32 := 0; USEC_TO_HZ_ADJ32 := 0; USEC_TO_HZ_SHR32 := 0 |}.

(** 250 ticks in a second. *)
Lemma timespec64_to_jiffies_exact_witness : timespec64_to_jiffies (H0 := hz 250) (Timespec64 3 500000001) = 876 /\
  (total (Timespec64 3 500000001) + TICK_NSEC (H0 := hz 250) - 1) / TICK_NSEC (H0 := hz 250) = 876.
Proof.
  assert (He : timespec64_to_jiffies (H0 := hz 250) (Timespec64 3 500000001) = 876) by reflexivity. split; [exact He|]. rewrite <- He. symmetry.
  assert (Hr : 12 <= HZ (HzConfig := hz 250) < 12288) by (cbn; lia). assert (Hd : (HZ (HzConfig := hz 250) | NSEC_PER_SEC)) by (by exists 4000000).
  refine (proj1 (timespec64_to_jiffies_exact (H1 := hz 250) Hr Hd (Timespec64 3 500000001) _) _); [by split|]. vm_compute. by split.
Defined.

(** The limit of [__usecs_to_jiffies] is cut to 32 bits: the last 8 milliseconds of the 71 minutes that
    32 bits of microseconds can say become a timeout of millions of years. *)
Example usecs_limit_truncated : usecs_to_jiffies (H0 := hz 250) false 4294959296 = 1073740 /\ usecs_to_jiffies (H0 := hz 250) false 4294959297 = 2 ^ 62 - 2.
Proof. split; reflexivity. Qed.

(** ** Setting the time of day: the zone stays within bounds, and the clock is warped once at most *)
Section Settime.
Context `{Timekeeper}.

(** What [W] counts is changed by the warp alone. *)
Record counts_warps (W : keeper -> nat) : Prop := {
  cw_warp c tz : W (timekeeping_warp_clock c tz) = S (W c);
  cw_vsyscall c tz : W (update_vsyscall_tz c tz) = W c;
  cw_set c tv ret c' : do_settimeofday64 c tv = (ret, c') -> W c' = W c;
}.

Definition zone_ok (tz : timezone) : Prop := - 900 <= tz_minuteswest tz <= 900.

(** The warp is still to come, or over. *)
Definition warp_left (w : wall) : nat := if firsttime w then 1 else 0.

Lemma set_timezone_warps W w tv tz : counts_warps W -> (W (clock (set_timezone w tv tz)) + warp_left (set_timezone w tv tz) <= W (clock w) + warp_left w)%nat.
Proof using Type.
  intros HW. unfold set_timezone, warp_left. cbn [clock firsttime]. destruct (firsttime w), tv; rewrite ?(cw_warp W HW), ?(cw_vsyscall W HW); lia.
Qed.

Lemma do_sys_settimeofday64_step W w tv tz ret w' : counts_warps W -> do_sys_settimeofday64 w tv tz = (ret, w') ->
  (W (clock w') + warp_left w' <= W (clock w) + warp_left w)%nat /\ (zone_ok (sys_tz w) -> zone_ok (sys_tz w')) /\ (firsttime w = false -> firsttime w' = false).
Proof using Type.
  intros HW. unfold do_sys_settimeofday64. destruct (match tv with Some _ => _ | None => _ end); [by intros [= <- <-]|]. destruct (bool_of _); [by intros [= <- <-]|].
  destruct (match tz with Some _ => _ | None => _ end) eqn:Hz; [by intros [= <- <-]|]. set (w1 := match tz with Some _ => _ | None => _ end).
  assert (H1 : (W (clock w1) + warp_left w1 <= W (clock w) + warp_left w)%nat /\ (zone_ok (sys_tz w) -> zone_ok (sys_tz w1)) /\ (firsttime w = false -> firsttime w1 = false)).
  { destruct tz as [tz|]; [|done]. split; [by apply set_timezone_warps|]. split; [|done]. intros _. unfold w1, set_timezone, zone_ok. cbn [sys_tz].
    apply orb_false_iff in Hz as [Ha Hb]. rewrite Z.gtb_ltb in Ha. apply Z.ltb_ge in Ha, Hb. lia. }
  destruct tv as [tv|]; [|by intros [= <- <-]]. destruct (do_settimeofday64 (clock w1) tv) as [r c] eqn:Hd. intros [= <- <-]. cbn [clock sys_tz firsttime]. unfold warp_left in *. cbn [firsttime].
  by rewrite (cw_set W HW _ _ _ _ Hd).
Qed.

(** The calls one after the other. *)
Fixpoint settime_calls (w : wall) (l : list (option (option timeval) * option (option timezone))) : wall :=
  match l with
  | [] => w
  | (tv, tz) :: l => settime_calls (settimeofday w tv tz).2 l
  end.

Lemma settimeofday_cases w tv tz : (settimeofday w tv tz).2 = w \/ exists tv' tz', settimeofday w tv tz = do_sys_settimeofday64 w tv' tz'.
Proof using Type.
  unfold settimeofday. destruct tv as [[tv|]|]; [destruct (negb _)| |]; try (by left); destruct tz as [[tz|]|]; try (by left); right; by eexists _, _.
Qed.

(** Whatever user space passes, the zone stays within 15 hours, and the clock is warped at most once. *)
Theorem settimeofday_warps_once W w l : counts_warps W -> zone_ok (sys_tz w) ->
  (W (clock (settime_calls w l)) <= W (clock w) + 1)%nat /\ (firsttime w = false -> (W (clock (settime_calls w l)) <= W (clock w))%nat) /\
  zone_ok (sys_tz (settime_calls w l)).
Proof using Type.
  intros HW Hz. assert (Hg : forall w, zone_ok (sys_tz w) -> (W (clock (settime_calls w l)) + warp_left (settime_calls w l) <= W (clock w) + warp_left w)%nat /\ zone_ok (sys_tz (settime_calls w l))).
  { clear w Hz. induction l as [|[tv tz] l IH]; intros w Hz; cbn [settime_calls]; [done|]. destruct (settimeofday_cases w tv tz) as [->|(tv' & tz' & He)]; [by apply IH|].
    rewrite He. destruct (do_sys_settimeofday64 w tv' tz') as [ret w1] eqn:Hd. cbn [snd]. destruct (do_sys_settimeofday64_step W w _ _ _ _ HW Hd) as (Hle & Hz1 & _).
    destruct (IH w1 (Hz1 Hz)) as [Hle2 Hz2]. split; [lia|done]. }
  destruct (Hg w Hz) as [Hle Hz']. split_and!; [unfold warp_left in *; destruct (firsttime w), (firsttime (settime_calls w l)); lia| |done].
  intros Hf. unfold warp_left in Hle. rewrite Hf in Hle. lia.
Qed.
End Settime.

(** A clock that counts its warps and takes only times that it can represent. *)
Definition counting : Timekeeper := {|
  keeper := nat * timespec64;
  timeval_valid tv := (0 <=? tv_sec_of tv) && (0 <=? tv_usec tv) && (tv_usec tv <? USEC_PER_SEC);
  security_settime64 _ _ _ := 0;
  do_settimeofday64 c tv := if timespec64_valid_strict tv then (0, (c.1, tv)) else (- EINVAL, c);
  timekeeping_warp_clock c _ := (S c.1, c.2);
  update_vsyscall_tz c _ := c;
|}.

Lemma counting_warps : counts_warps (H := counting) fst.
Proof.
  split; [done|done|]. intros c tv ret c'. cbn [do_settimeofday64 counting]. destruct (timespec64_valid_strict tv); by intros [= _ <-].
Qed.

Definition at_boot : wall (H := counting) := Wall (H := counting) (Timezone 0 0) true (0%nat, Timespec64 0 0).

(** Two zones are set; only the first one warps the clock. *)
Example two_zones : let w := settime_calls (H := counting) at_boot [(None, Some (Some (Timezone 480 0))); (None, Some (Some (Timezone (-60) 0)))] in
  (clock w).1 = 1%nat /\ tz_minuteswest (sys_tz w) = -60.
Proof. by vm_compute. Qed.

(** A time that is too large is refused after the zone has been changed: the call fails, and
    the next one does not warp the clock any more. *)
Example failed_call_sets_zone : let '(ret, w) := settimeofday (H := counting) at_boot (Some (Some (Timeval 10000000000 0))) (Some (Some (Timezone 480 0))) in
  ret = - EINVAL /\ tz_minuteswest (sys_tz w) = 480 /\ firsttime w = false.
Proof. by vm_compute. Qed.
