(* ===== verification/Clocksource.v ===== *)
(** * Clock sources

    [src/new/kernel/time/clocksource.c]: the list of counters that timekeeping may use, the choice of
    the best one, and the watchdog that compares counters with each other.  Counters are
    numbered; [list_empty] of a counter's link is [bool_decide] of membership.  What runs under
    [clocksource_mutex] is one operation. *)

From stdpp Require Import sorting.
From S2P Require Import Prelude TimeConv.
#[local] Open Scope Z_scope.

(** [do_div], [mul_u64_u32_shr], [clocksource_delta] and [CS_NAME_LEN] are in headers outside of the
    tree. *)
Class ClockMath := {
  do_div : Z -> Z -> Z;
  mul_u64_u32_shr : Z -> Z -> Z -> Z;
  clocksource_delta : Z -> Z -> Z -> Z;
  CS_NAME_LEN : Z;
}.

Definition ENODEV : Z := 19.
Definition EBUSY : Z := 16.
Definition CLOCK_SOURCE_IS_CONTINUOUS : Z := 0x01.
Definition CLOCK_SOURCE_MUST_VERIFY : Z := 0x02.
Definition CLOCK_SOURCE_WATCHDOG : Z := 0x10.
Definition CLOCK_SOURCE_VALID_FOR_HRES : Z := 0x20.
Definition CLOCK_SOURCE_UNSTABLE : Z := 0x40.
Definition CLOCK_SOURCE_SUSPEND_NONSTOP : Z := 0x80.
Definition CLOCK_SOURCE_RESELECT : Z := 0x100.
Definition WATCHDOG_THRESHOLD : Z := Z.shiftr NSEC_PER_SEC 4.

Record clocksource := Clocksource {
  mask : Z; mult : Z; shift : Z; max_idle_ns : Z; maxadj : Z; max_cycles : Z;
  name : list Z; rating : Z; flags : Z; cs_last : Z; wd_last : Z;
}.
Definition set_rating (c : clocksource) (r : Z) : clocksource :=
  Clocksource (mask c) (mult c) (shift c) (max_idle_ns c) (maxadj c) (max_cycles c) (name c) r (flags c) (cs_last c) (wd_last c).
Definition set_flags (c : clocksource) (f : Z) : clocksource :=
  Clocksource (mask c) (mult c) (shift c) (max_idle_ns c) (maxadj c) (max_cycles c) (name c) (rating c) f (cs_last c) (wd_last c).
Definition set_last (c : clocksource) (cs wd : Z) : clocksource :=
  Clocksource (mask c) (mult c) (shift c) (max_idle_ns c) (maxadj c) (max_cycles c) (name c) (rating c) (flags c) cs wd.
Definition set_scale (c : clocksource) (mu sh adj : Z) : clocksource :=
  Clocksource (mask c) mu sh (max_idle_ns c) adj (max_cycles c) (name c) (rating c) (flags c) (cs_last c) (wd_last c).
Definition set_limits (c : clocksource) (idle cycles : Z) : clocksource :=
  Clocksource (mask c) (mult c) (shift c) idle (maxadj c) cycles (name c) (rating c) (flags c) (cs_last c) (wd_last c).

Definition has (c : clocksource) (f : Z) : bool := bool_of (Z.land (flags c) f).
Definition with_flag (c : clocksource) (f : Z) : clocksource := set_flags c (Z.lor (flags c) f).
Definition without_flag (c : clocksource) (f : Z) : clocksource := set_flags c (Z.land (flags c) (Z.lnot f)).

(** ** Scaling *)
Definition clocksource_cyc2ns (cycles mult shift : Z) : Z := s64 (Z.shiftr (u64 (cycles * mult)) shift).

Section Scale.
Context `{ClockMath}.

Definition clocksource_freq2mult (freq shift_constant from : Z) : Z := u32 (do_div (u64 (u64 (Z.shiftl from shift_constant) + freq / 2)) freq).
Definition clocksource_khz2mult (khz shift_constant : Z) : Z := clocksource_freq2mult khz shift_constant 1000000.
Definition clocksource_hz2mult (hz shift_constant : Z) : Z := clocksource_freq2mult hz shift_constant NSEC_PER_SEC.

(** Enough turns for 32 bits. *)
Definition bits_fuel : nat := 33.

(** One turn per bit of [tmp]. *)
Fixpoint sftacc_loop (fuel : nat) (tmp sftacc : Z) : outcome Z :=
  match fuel with
  | O => NoFuel
  | S fuel => if bool_of tmp then sftacc_loop fuel (Z.shiftr tmp 1) (u32 (sftacc - 1)) else Done sftacc
  end.

(** [sft] goes from 32 down to 0; [tmp] keeps what the last turn has computed. *)
Fixpoint shift_loop (sft : nat) (tmp from to sftacc : Z) : Z * Z :=
  match sft with
  | O => (tmp, 0)
  | S sft' =>
      let tmp := do_div (u64 (u64 (Z.shiftl to (Z.of_nat sft)) + from / 2)) from in
      if Z.shiftr tmp sftacc =? 0 then (tmp, Z.of_nat sft) else shift_loop sft' tmp from to sftacc
  end.
Definition clocks_calc_mult_shift (from to maxsec : Z) : outcome (Z * Z) :=
  let tmp := Z.shiftr (u64 (maxsec * from)) 32 in
  sftacc ← sftacc_loop bits_fuel tmp 32;
  let '(tmp, sft) := shift_loop 32 tmp from to sftacc in
  Done (u32 tmp, sft).

Definition clocksource_max_adjustment (c : clocksource) : Z := u32 (do_div (u64 (mult c * 11)) 100).
Definition clocks_calc_max_nsecs (mult shift maxadj mask : Z) : Z * Z :=
  let max_cycles := do_div (2 ^ 64 - 1) (u32 (mult + maxadj)) in
  let max_cycles := Z.min max_cycles mask in
  let max_nsecs := u64 (clocksource_cyc2ns max_cycles (u32 (mult - maxadj)) shift) in
  (Z.shiftr max_nsecs 1, max_cycles).
Definition clocksource_update_max_deferment (c : clocksource) : clocksource :=
  let '(idle, cycles) := clocks_calc_max_nsecs (mult c) (shift c) (maxadj c) (mask c) in set_limits c idle cycles.

(** Each turn halves [mult]. *)
Fixpoint adjust_loop (fuel : nat) (c : clocksource) : outcome clocksource :=
  match fuel with
  | O => NoFuel
  | S fuel =>
      if (u32 (mult c + maxadj c) <? mult c) || (u32 (mult c - maxadj c) >? mult c) then
        let c := set_scale c (Z.shiftr (mult c) 1) (u32 (shift c - 1)) (maxadj c) in
        adjust_loop fuel (set_scale c (mult c) (shift c) (clocksource_max_adjustment c))
      else Done c
  end.
(** A frequency gives the factors. *)
Definition freq_factors (c : clocksource) (scale freq : Z) : outcome clocksource :=
  if bool_of freq then
    let sec := do_div (do_div (mask c) freq) scale in
    let sec := if negb (bool_of sec) then 1 else if (sec >? 600) && (mask c >? 2 ^ 32 - 1) then 600 else sec in
    '(mu, sh) ← clocks_calc_mult_shift freq (NSEC_PER_SEC / scale) (u32 (sec * scale));
    Done (set_scale c mu sh (maxadj c))
  else Done c.
Definition __clocksource_update_freq_scale (c : clocksource) (scale freq : Z) : outcome clocksource :=
  c ← freq_factors c scale freq;
  let c := set_scale c (mult c) (shift c) (clocksource_max_adjustment c) in
  c ← (if bool_of freq then adjust_loop bits_fuel c else Done c);
  Done (clocksource_update_max_deferment c).
End Scale.

(** ** The registry *)

(** Counters and the rest of timekeeping: reading a counter, enabling it, switching to it
    ([timekeeping_notify]), the mode of the tick and callbacks of drivers. *)
Class ClockHw := {
  hw : Type;
  read : hw -> Z -> Z * hw;
  enable : hw -> Z -> bool * hw;
  disable : hw -> Z -> hw;
  suspend_cs : hw -> Z -> hw;
  resume_cs : hw -> Z -> hw;
  mark_unstable : hw -> Z -> hw;
  tick_stable : hw -> Z -> hw;
  tick_clock_notify : hw -> hw;
  tick_oneshot_mode_active : hw -> bool;
  timekeeping_notify : hw -> Z -> Z * hw;
  clocksource_arch_init : Z -> clocksource -> clocksource;
  clocksource_default_clock : Z;
}.

Section Registry.
Context `{ClockMath} `{ClockHw}.

(** [work]: whether [watchdog_work] is scheduled. *)
Record cstate := CState {
  clocks : Z -> clocksource;
  clocksource_list : list Z;
  watchdog_list : list Z;
  curr_clocksource : option Z;
  suspend_clocksource : option Z;
  watchdog : option Z;
  watchdog_running : bool;
  watchdog_reset_pending : Z;
  finished_booting : bool;
  override_name : list Z;
  suspend_start : Z;
  work : bool;
  env : hw;
}.

Definition put (st : cstate) (cs : Z) (c : clocksource) : cstate :=
  CState (upd (clocks st) cs c) (clocksource_list st) (watchdog_list st) (curr_clocksource st) (suspend_clocksource st) (watchdog st) (watchdog_running st)
    (watchdog_reset_pending st) (finished_booting st) (override_name st) (suspend_start st) (work st) (env st).
Definition set_list (st : cstate) (l : list Z) : cstate :=
  CState (clocks st) l (watchdog_list st) (curr_clocksource st) (suspend_clocksource st) (watchdog st) (watchdog_running st)
    (watchdog_reset_pending st) (finished_booting st) (override_name st) (suspend_start st) (work st) (env st).
Definition set_wd_list (st : cstate) (l : list Z) : cstate :=
  CState (clocks st) (clocksource_list st) l (curr_clocksource st) (suspend_clocksource st) (watchdog st) (watchdog_running st)
    (watchdog_reset_pending st) (finished_booting st) (override_name st) (suspend_start st) (work st) (env st).
Definition set_curr (st : cstate) (c : option Z) : cstate :=
  CState (clocks st) (clocksource_list st) (watchdog_list st) c (suspend_clocksource st) (watchdog st) (watchdog_running st)
    (watchdog_reset_pending st) (finished_booting st) (override_name st) (suspend_start st) (work st) (env st).
Definition set_suspend (st : cstate) (c : option Z) : cstate :=
  CState (clocks st) (clocksource_list st) (watchdog_list st) (curr_clocksource st) c (watchdog st) (watchdog_running st)
    (watchdog_reset_pending st) (finished_booting st) (override_name st) (suspend_start st) (work st) (env st).
Definition set_watchdog (st : cstate) (w : option Z) (running : bool) : cstate :=
  CState (clocks st) (clocksource_list st) (watchdog_list st) (curr_clocksource st) (suspend_clocksource st) w running
    (watchdog_reset_pending st) (finished_booting st) (override_name st) (suspend_start st) (work st) (env st).
Definition set_reset_pending (st : cstate) (n : Z) : cstate :=
  CState (clocks st) (clocksource_list st) (watchdog_list st) (curr_clocksource st) (suspend_clocksource st) (watchdog st) (watchdog_running st)
    n (finished_booting st) (override_name st) (suspend_start st) (work st) (env st).
Definition set_override (st : cstate) (s : list Z) : cstate :=
  CState (clocks st) (clocksource_list st) (watchdog_list st) (curr_clocksource st) (suspend_clocksource st) (watchdog st) (watchdog_running st)
    (watchdog_reset_pending st) (finished_booting st) s (suspend_start st) (work st) (env st).
Definition set_suspend_start (st : cstate) (n : Z) : cstate :=
  CState (clocks st) (clocksource_list st) (watchdog_list st) (curr_clocksource st) (suspend_clocksource st) (watchdog st) (watchdog_running st)
    (watchdog_reset_pending st) (finished_booting st) (override_name st) n (work st) (env st).
Definition set_work (st : cstate) (b : bool) : cstate :=
  CState (clocks st) (clocksource_list st) (watchdog_list st) (curr_clocksource st) (suspend_clocksource st) (watchdog st) (watchdog_running st)
    (watchdog_reset_pending st) (finished_booting st) (override_name st) (suspend_start st) b (env st).
Definition set_env (st : cstate) (e : hw) : cstate :=
  CState (clocks st) (clocksource_list st) (watchdog_list st) (curr_clocksource st) (suspend_clocksource st) (watchdog st) (watchdog_running st)
    (watchdog_reset_pending st) (finished_booting st) (override_name st) (suspend_start st) (work st) e.

Definition rating_of (st : cstate) (cs : Z) : Z := rating (clocks st cs).
Definition on_list (st : cstate) (cs : Z) : bool := bool_decide (cs ∈ clocksource_list st).
Definition remove (cs : Z) (l : list Z) : list Z := filter (fun x => x <> cs) l.

(** ** Marking a counter unstable *)
Definition __clocksource_unstable (st : cstate) (cs : Z) : cstate :=
  let c := clocks st cs in
  let c := without_flag c (Z.lor CLOCK_SOURCE_VALID_FOR_HRES CLOCK_SOURCE_WATCHDOG) in
  let c := with_flag c CLOCK_SOURCE_UNSTABLE in
  if negb (on_list st cs) then put st cs (set_rating c 0)
  else
    let st := put st cs c in
    let st := set_env st (mark_unstable (env st) cs) in
    if finished_booting st then set_work st true else st.

Definition clocksource_mark_unstable (st : cstate) (cs : Z) : cstate :=
  if negb (has (clocks st cs) CLOCK_SOURCE_UNSTABLE) then
    let st := if on_list st cs && negb (bool_decide (cs ∈ watchdog_list st)) then set_wd_list st (cs :: watchdog_list st) else st in
    __clocksource_unstable st cs
  else st.

(** ** The watchdog *)

(** A counter that is now verified. *)
Definition watchdog_verified (st : cstate) (wd cs : Z) : cstate :=
  let st := if bool_decide (curr_clocksource st = Some cs) then set_env st (tick_stable (env st) cs) else st in
  let c := clocks st cs in
  if negb (has c CLOCK_SOURCE_VALID_FOR_HRES) && has c CLOCK_SOURCE_IS_CONTINUOUS && has (clocks st wd) CLOCK_SOURCE_IS_CONTINUOUS then
    let st := put st cs (with_flag c CLOCK_SOURCE_VALID_FOR_HRES) in
    if negb (finished_booting st) then st
    else if negb (bool_decide (curr_clocksource st = Some cs)) then
      set_work (put st cs (with_flag (clocks st cs) CLOCK_SOURCE_RESELECT)) true
    else set_env st (tick_clock_notify (env st))
  else st.

(** The time since the last check, by a counter. *)
Definition elapsed (c : clocksource) (now last : Z) : Z := clocksource_cyc2ns (clocksource_delta now last (mask c)) (mult c) (shift c).
Definition skew_too_large (cs_nsec wd_nsec : Z) : bool := Z.abs (s64 (cs_nsec - wd_nsec)) >? WATCHDOG_THRESHOLD.

(** The body of the loop of the timer.  (The second test of [watchdog_reset_pending] is for a resume that comes in
    during the computation; the check of a counter is one step here.) *)
Definition watchdog_check (st : cstate) (cs : Z) : outcome cstate :=
  if has (clocks st cs) CLOCK_SOURCE_UNSTABLE then Done (if finished_booting st then set_work st true else st)
  else
    match watchdog st with
    | None => Bug
    | Some wd =>
        let '(csnow, e) := read (env st) cs in
        let '(wdnow, e) := read e wd in
        let st := set_env st e in
        let c := clocks st cs in
        if negb (has c CLOCK_SOURCE_WATCHDOG) || bool_of (watchdog_reset_pending st) then
          Done (put st cs (set_last (with_flag c CLOCK_SOURCE_WATCHDOG) csnow wdnow))
        else
          let wd_nsec := elapsed (clocks st wd) wdnow (wd_last c) in
          let cs_nsec := elapsed c csnow (cs_last c) in
          let st := put st cs (set_last c csnow wdnow) in
          Done (if bool_of (watchdog_reset_pending st) then st
                else if skew_too_large cs_nsec wd_nsec then __clocksource_unstable st cs else watchdog_verified st wd cs)
    end.

Fixpoint watchdog_loop (st : cstate) (l : list Z) : outcome cstate :=
  match l with
  | [] => Done st
  | cs :: l => st ← watchdog_check st cs; watchdog_loop st l
  end.

(** The timer; it is started again as long as the watchdog is running. *)
Definition clocksource_watchdog (st : cstate) : outcome cstate :=
  if negb (watchdog_running st) then Done st
  else
    let reset_pending := watchdog_reset_pending st in
    st ← watchdog_loop st (watchdog_list st);
    Done (if bool_of reset_pending then set_reset_pending st (s32 (watchdog_reset_pending st - 1)) else st).

Definition clocksource_start_watchdog (st : cstate) : cstate :=
  if watchdog_running st || bool_decide (watchdog st = None) || bool_decide (watchdog_list st = []) then st else set_watchdog st (watchdog st) true.
Definition clocksource_stop_watchdog (st : cstate) : cstate :=
  if negb (watchdog_running st) || (negb (bool_decide (watchdog st = None)) && negb (bool_decide (watchdog_list st = []))) then st else set_watchdog st (watchdog st) false.
Definition clocksource_reset_watchdog (st : cstate) : cstate :=
  foldl (fun st cs => put st cs (without_flag (clocks st cs) CLOCK_SOURCE_WATCHDOG)) st (watchdog_list st).
Definition clocksource_resume_watchdog (st : cstate) : cstate := set_reset_pending st (s32 (watchdog_reset_pending st + 1)).

Definition clocksource_enqueue_watchdog (st : cstate) (cs : Z) : cstate :=
  let c := clocks st cs in
  if has c CLOCK_SOURCE_MUST_VERIFY then put (set_wd_list st (cs :: watchdog_list st)) cs (without_flag c CLOCK_SOURCE_WATCHDOG)
  else if has c CLOCK_SOURCE_IS_CONTINUOUS then put st cs (with_flag c CLOCK_SOURCE_VALID_FOR_HRES)
  else st.

(** The best of the counters that need no verification, in the order of the list. *)
Definition pick_watchdog (st : cstate) (fallback : bool) (old_wd w : option Z) (cs : Z) : option Z :=
  if has (clocks st cs) CLOCK_SOURCE_MUST_VERIFY then w
  else if fallback && bool_decide (Some cs = old_wd) then w
  else match w with
       | None => Some cs
       | Some x => if rating_of st cs >? rating_of st x then Some cs else w
       end.
Definition clocksource_select_watchdog (st : cstate) (fallback : bool) : cstate :=
  let old_wd := watchdog st in
  let w := foldl (pick_watchdog st fallback old_wd) (if fallback then None else old_wd) (clocksource_list st) in
  let w := match w with None => old_wd | Some _ => w end in
  let st := set_watchdog st w (watchdog_running st) in
  let st := if bool_decide (w = old_wd) then st else clocksource_reset_watchdog st in
  clocksource_start_watchdog st.

Definition clocksource_dequeue_watchdog (st : cstate) (cs : Z) : cstate :=
  if negb (bool_decide (watchdog st = Some cs)) && has (clocks st cs) CLOCK_SOURCE_MUST_VERIFY
  then clocksource_stop_watchdog (set_wd_list st (remove cs (watchdog_list st))) else st.

(** ** The list, the best first *)
Fixpoint enqueue_at (r : Z -> Z) (cs : Z) (l : list Z) : list Z :=
  match l with
  | [] => [cs]
  | tmp :: l' => if r tmp <? r cs then cs :: l else tmp :: enqueue_at r cs l'
  end.
Definition clocksource_enqueue (st : cstate) (cs : Z) : cstate := set_list st (enqueue_at (rating_of st) cs (clocksource_list st)).

Definition __clocksource_change_rating (st : cstate) (cs : Z) (r : Z) : cstate :=
  let st := set_list st (remove cs (clocksource_list st)) in
  let st := put st cs (set_rating (clocks st cs) r) in
  clocksource_enqueue st cs.

Definition kthread_check (st : cstate) (sel : bool) (cs : Z) : cstate * bool :=
  let '(st, sel) :=
    if has (clocks st cs) CLOCK_SOURCE_UNSTABLE
    then (__clocksource_change_rating (set_wd_list st (remove cs (watchdog_list st))) cs 0, true) else (st, sel) in
  if has (clocks st cs) CLOCK_SOURCE_RESELECT then (put st cs (without_flag (clocks st cs) CLOCK_SOURCE_RESELECT), true) else (st, sel).
Fixpoint kthread_loop (st : cstate) (sel : bool) (l : list Z) : cstate * bool :=
  match l with
  | [] => (st, sel)
  | cs :: l => let '(st, sel) := kthread_check st sel cs in kthread_loop st sel l
  end.
Definition __clocksource_watchdog_kthread (st : cstate) : cstate * bool :=
  let '(st, sel) := kthread_loop st false (watchdog_list st) in
  (clocksource_stop_watchdog st, sel).

(** ** Suspend *)
Definition clocksource_is_suspend (st : cstate) (cs : Z) : bool := bool_decide (suspend_clocksource st = Some cs).
Definition __clocksource_suspend_select (st : cstate) (cs : Z) : cstate :=
  if negb (has (clocks st cs) CLOCK_SOURCE_SUSPEND_NONSTOP) then st
  else match suspend_clocksource st with
       | None => set_suspend st (Some cs)
       | Some x => if rating_of st cs >? rating_of st x then set_suspend st (Some cs) else st
       end.
Definition clocksource_suspend_select (st : cstate) (fallback : bool) : cstate :=
  let old_suspend := suspend_clocksource st in
  let st := if fallback then set_suspend st None else st in
  foldl (fun st cs => if fallback && bool_decide (Some cs = old_suspend) then st else __clocksource_suspend_select st cs) st (clocksource_list st).

Definition clocksource_start_suspend_timing (st : cstate) (cs start_cycles : Z) : cstate :=
  match suspend_clocksource st with
  | None => st
  | Some s =>
      if clocksource_is_suspend st cs then set_suspend_start st start_cycles
      else
        let '(failed, e) := enable (env st) s in
        let st := set_env st e in
        if failed then st
        else let '(v, e) := read (env st) s in set_suspend_start (set_env st e) v
  end.
Definition clocksource_stop_suspend_timing (st : cstate) (cs cycle_now : Z) : Z * cstate :=
  match suspend_clocksource st with
  | None => (0, st)
  | Some s =>
      let '(now, e) := if clocksource_is_suspend st cs then (cycle_now, env st) else read (env st) s in
      let st := set_env st e in
      let nsec :=
        if now >? suspend_start st
        then mul_u64_u32_shr (clocksource_delta now (suspend_start st) (mask (clocks st s))) (mult (clocks st s)) (shift (clocks st s)) else 0 in
      (nsec, if negb (clocksource_is_suspend st cs) then set_env st (disable (env st) s) else st)
  end.
Definition clocksource_suspend (st : cstate) : cstate := foldl (fun st cs => set_env st (suspend_cs (env st) cs)) st (rev (clocksource_list st)).
Definition clocksource_resume (st : cstate) : cstate :=
  clocksource_resume_watchdog (foldl (fun st cs => set_env st (resume_cs (env st) cs)) st (clocksource_list st)).
Definition clocksource_touch_watchdog (st : cstate) : cstate := clocksource_resume_watchdog st.

(** ** Choosing *)
Fixpoint find_best (st : cstate) (oneshot skipcur : bool) (l : list Z) : option Z :=
  match l with
  | [] => None
  | cs :: l =>
      if skipcur && bool_decide (Some cs = curr_clocksource st) then find_best st oneshot skipcur l
      else if oneshot && negb (has (clocks st cs) CLOCK_SOURCE_VALID_FOR_HRES) then find_best st oneshot skipcur l
      else Some cs
  end.
Definition clocksource_find_best (st : cstate) (oneshot skipcur : bool) : option Z :=
  if negb (finished_booting st) || bool_decide (clocksource_list st = []) then None else find_best st oneshot skipcur (clocksource_list st).

(** The first counter with the name that the user asked for. *)
Fixpoint find_override (st : cstate) (skipcur : bool) (l : list Z) : option Z :=
  match l with
  | [] => None
  | cs :: l =>
      if skipcur && bool_decide (Some cs = curr_clocksource st) then find_override st skipcur l
      else if negb (bool_decide (name (clocks st cs) = override_name st)) then find_override st skipcur l
      else Some cs
  end.

Definition __clocksource_select (st : cstate) (skipcur : bool) : cstate :=
  let oneshot := tick_oneshot_mode_active (env st) in
  match clocksource_find_best st oneshot skipcur with
  | None => st
  | Some best =>
      let '(best, st) :=
        if bool_decide (override_name st = []) then (best, st)
        else match find_override st skipcur (clocksource_list st) with
             | None => (best, st)
             | Some cs =>
                 if negb (has (clocks st cs) CLOCK_SOURCE_VALID_FOR_HRES) && oneshot
                 then (best, if has (clocks st cs) CLOCK_SOURCE_UNSTABLE then set_override st [] else st)
                 else (cs, st)
             end in
      if bool_decide (curr_clocksource st = Some best) then st
      else
        let '(ret, e) := timekeeping_notify (env st) best in
        let st := set_env st e in
        if bool_of ret then st else set_curr st (Some best)
  end.
Definition clocksource_select (st : cstate) : cstate := __clocksource_select st false.
Definition clocksource_select_fallback (st : cstate) : cstate := __clocksource_select st true.

Definition clocksource_watchdog_kthread (st : cstate) : cstate :=
  let '(st, sel) := __clocksource_watchdog_kthread st in if sel then clocksource_select st else st.

Definition clocksource_done_booting (st : cstate) : cstate :=
  let st := set_curr st (Some clocksource_default_clock) in
  let st := CState (clocks st) (clocksource_list st) (watchdog_list st) (curr_clocksource st) (suspend_clocksource st) (watchdog st) (watchdog_running st)
    (watchdog_reset_pending st) true (override_name st) (suspend_start st) (work st) (env st) in
  let '(st, _) := __clocksource_watchdog_kthread st in
  clocksource_select st.

(** ** Registering *)
Definition __clocksource_register_scale (st : cstate) (cs scale freq : Z) : outcome cstate :=
  let c := clocksource_arch_init cs (clocks st cs) in
  c ← __clocksource_update_freq_scale c scale freq;
  let st := put st cs c in
  let st := clocksource_enqueue st cs in
  let st := clocksource_enqueue_watchdog st cs in
  let st := clocksource_select st in
  let st := clocksource_select_watchdog st false in
  Done (__clocksource_suspend_select st cs).

Definition clocksource_change_rating (st : cstate) (cs r : Z) : cstate :=
  let st := __clocksource_change_rating st cs r in
  let st := clocksource_select st in
  let st := clocksource_select_watchdog st false in
  clocksource_suspend_select st false.

Definition clocksource_is_watchdog (st : cstate) (cs : Z) : bool := bool_decide (watchdog st = Some cs).

Definition clocksource_unbind (st : cstate) (cs : Z) : Z * cstate :=
  let st := if clocksource_is_watchdog st cs then clocksource_select_watchdog st true else st in
  if clocksource_is_watchdog st cs then (- EBUSY, st)
  else
    let st := if bool_decide (curr_clocksource st = Some cs) then clocksource_select_fallback st else st in
    if bool_decide (curr_clocksource st = Some cs) then (- EBUSY, st)
    else
      let st := if clocksource_is_suspend st cs then clocksource_suspend_select st true else st in
      let st := clocksource_dequeue_watchdog st cs in
      (0, set_list st (remove cs (clocksource_list st))).
Definition clocksource_unregister (st : cstate) (cs : Z) : Z * cstate :=
  if on_list st cs then clocksource_unbind st cs else (0, st).

(** ** User space *)

(** A C string in a buffer. *)
Fixpoint c_string (l : list Z) : list Z :=
  match l with
  | [] => []
  | b :: l => if b =? 0 then [] else b :: c_string l
  end.

(** The answer, and the string if there is one. *)
Definition sysfs_get_uname (buf : list Z) (cnt : Z) : Z * option (list Z) :=
  if negb (bool_of cnt) || (cnt >=? CS_NAME_LEN) then (- EINVAL, None)
  else
    let n := if default 0 (buf !! Z.to_nat (cnt - 1)) =? 10 then cnt - 1 else cnt in
    (cnt, Some (c_string (take (Z.to_nat n) buf))).

Definition current_clocksource_store (st : cstate) (buf : list Z) (count : Z) : Z * cstate :=
  let '(ret, s) := sysfs_get_uname buf count in
  match s with
  | Some s => (ret, clocksource_select (set_override st s))
  | None => (ret, st)
  end.

Definition unbind_clocksource_store (st : cstate) (buf : list Z) (count : Z) : Z * cstate :=
  let '(ret, s) := sysfs_get_uname buf count in
  match s with
  | None => (ret, st)
  | Some s =>
      match filter (fun cs => name (clocks st cs) = s) (clocksource_list st) with
      | [] => (- ENODEV, st)
      | cs :: _ => let '(ret, st) := clocksource_unbind st cs in (if bool_of ret then ret else count, st)
      end
  end.

(** [strlcpy] into [override_name]. *)
Definition boot_override_clocksource (st : cstate) (str : option (list Z)) : cstate :=
  match str with Some s => set_override st (take (Z.to_nat (CS_NAME_LEN - 1)) s) | None => st end.
Definition boot_override_clock (st : cstate) (str : list Z) : cstate :=
  (* "pmtmr" stands for "acpi_pm" *)
  if bool_decide (str = [112; 109; 116; 109; 114]) then boot_override_clocksource st (Some [97; 99; 112; 105; 95; 112; 109])
  else boot_override_clocksource st (Some str).
End Registry.
