(* ===== verification/ClocksourceInv.v ===== *)
(** * Clock sources: the invariant of the registry

    The list is sorted, and no pointer is left to a counter that is not registered; each operation
    keeps this. *)

From stdpp Require Import sorting.
From S2P Require Import Prelude TimeConv Clocksource.
#[local] Open Scope Z_scope.

(** ** Flags *)
Lemma has_with_other c f g : Z.land f g = 0 -> has (with_flag c f) g = has c g.
Proof. intros Hd. unfold has, with_flag. cbn [flags set_flags]. by rewrite Z.land_lor_distr_l, Hd, Z.lor_0_r. Qed.

Lemma has_without_other c f g : Z.land f g = 0 -> has (without_flag c f) g = has c g.
Proof.
  intros Hd. unfold has, without_flag. cbn [flags set_flags]. f_equal. rewrite <- Z.land_assoc. f_equal. apply Z.bits_inj'. intros n Hn. rewrite Z.land_spec, Z.lnot_spec by lia.
  pose proof (f_equal (fun z => Z.testbit z n) Hd) as Hb. cbv beta in Hb. rewrite Z.land_spec, Z.testbit_0_l in Hb. by destruct (Z.testbit f n), (Z.testbit g n).
Qed.

Lemma has_with_keeps c f g : has c g = true -> has (with_flag c f) g = true.
Proof.
  unfold has, with_flag, bool_of. cbn [flags set_flags]. rewrite !negb_true_iff, !Z.eqb_neq. intros Hg Hz. apply Hg. rewrite Z.land_lor_distr_l in Hz. by apply Z.lor_eq_0_iff in Hz as [? _].
Qed.

Lemma has_with_self c f g : Z.land f g <> 0 -> has (with_flag c f) g = true.
Proof.
  intros Hf. unfold has, with_flag, bool_of. cbn [flags set_flags]. rewrite negb_true_iff, Z.eqb_neq, Z.land_lor_distr_l. intros Hz. by apply Z.lor_eq_0_iff in Hz as [_ ?].
Qed.

(** What of a counter decides about its place. *)
Record keeps (c c' : clocksource) : Prop := {
  kp_rating : rating c' = rating c;
  kp_verify : has c' CLOCK_SOURCE_MUST_VERIFY = has c CLOCK_SOURCE_MUST_VERIFY;
  kp_nonstop : has c' CLOCK_SOURCE_SUSPEND_NONSTOP = has c CLOCK_SOURCE_SUSPEND_NONSTOP;
  kp_unstable : has c CLOCK_SOURCE_UNSTABLE = true -> has c' CLOCK_SOURCE_UNSTABLE = true;
}.

#[export] Instance keeps_preorder : PreOrder keeps.
Proof.
  split; [by split|]. intros a b c [H1 H2 H3 H4] [H5 H6 H7 H8]. split; [congruence..|]. intros Ha. by apply H8, H4.
Qed.

Lemma keeps_last c a b : keeps c (set_last c a b).
Proof. by split. Qed.
Lemma keeps_with c f : Z.land f (Z.lor CLOCK_SOURCE_MUST_VERIFY CLOCK_SOURCE_SUSPEND_NONSTOP) = 0 -> keeps c (with_flag c f).
Proof. intros Hf. rewrite Z.land_lor_distr_r in Hf. apply Z.lor_eq_0_iff in Hf as [H1 H2]. split; [done|by apply has_with_other..|apply has_with_keeps]. Qed.
Lemma keeps_without c f : Z.land f (Z.lor (Z.lor CLOCK_SOURCE_MUST_VERIFY CLOCK_SOURCE_SUSPEND_NONSTOP) CLOCK_SOURCE_UNSTABLE) = 0 -> keeps c (without_flag c f).
Proof.
  intros Hf. rewrite !Z.land_lor_distr_r in Hf. apply Z.lor_eq_0_iff in Hf as [[H1 H2]%Z.lor_eq_0_iff H3]. split; [done|by apply has_without_other..|]. by rewrite has_without_other.
Qed.

Create HintDb clock.
#[export] Hint Resolve keeps_last : clock.
#[export] Hint Extern 1 (keeps _ (with_flag _ _)) => (apply keeps_with; reflexivity) : clock.
#[export] Hint Extern 1 (keeps _ (without_flag _ _)) => (apply keeps_without; reflexivity) : clock.

Section Inv.
Context `{ClockMath} `{ClockHw}.

Definition must_verify (st : cstate) (cs : Z) : bool := has (clocks st cs) CLOCK_SOURCE_MUST_VERIFY.
Definition nonstop (st : cstate) (cs : Z) : bool := has (clocks st cs) CLOCK_SOURCE_SUSPEND_NONSTOP.
Definition unstable (st : cstate) (cs : Z) : bool := has (clocks st cs) CLOCK_SOURCE_UNSTABLE.

Abbreviation better st := (fun a b => rating_of st b <= rating_of st a).

Record reg_inv (st : cstate) : Prop := {
  ri_nodup : NoDup (clocksource_list st);
  ri_sorted : StronglySorted (better st) (clocksource_list st);
  ri_wd_nodup : NoDup (watchdog_list st);
  ri_wd cs : cs ∈ watchdog_list st -> cs ∈ clocksource_list st /\ must_verify st cs = true;
  ri_verified cs : cs ∈ clocksource_list st -> must_verify st cs = true -> cs ∈ watchdog_list st \/ unstable st cs = true;
  ri_watchdog w : watchdog st = Some w -> w ∈ clocksource_list st /\ must_verify st w = false;
  ri_curr c : curr_clocksource st = Some c -> c ∈ clocksource_list st;
  ri_suspend s : suspend_clocksource st = Some s -> s ∈ clocksource_list st /\ nonstop st s = true;
}.

(** The timer runs just when there is something to watch and a watchdog. *)
Definition timer_ok (st : cstate) : Prop := watchdog_running st = true <-> watchdog st <> None /\ watchdog_list st <> [].

(** Everything that changes is of no importance to the invariant. *)
Record reg_same (st st' : cstate) : Prop := {
  rs_clocks cs : keeps (clocks st cs) (clocks st' cs);
  rs_list : clocksource_list st' = clocksource_list st;
  rs_wd_list : watchdog_list st' = watchdog_list st;
  rs_curr : curr_clocksource st' = curr_clocksource st;
  rs_suspend : suspend_clocksource st' = suspend_clocksource st;
  rs_watchdog : watchdog st' = watchdog st;
  rs_running : watchdog_running st' = watchdog_running st;
  rs_booting : finished_booting st' = finished_booting st;
}.

#[export] Instance reg_same_preorder : PreOrder reg_same.
Proof using Type.
  split; [by split|]. intros a b c [H1 H2 H3 H4 H5 H6 H7 H8] [K1 K2 K3 K4 K5 K6 K7 K8]. split; [|congruence..]. intros cs. etransitivity; [apply H1|apply K1].
Qed.

Lemma sorted_ratings r r' (l : list Z) : (forall x, x ∈ l -> r' x = r x) -> StronglySorted (fun a b => r b <= r a) l -> StronglySorted (fun a b => r' b <= r' a) l.
Proof using Type.
  intros He Hs. induction Hs as [|x l Hs IH Hf]; constructor.
  - apply IH. intros y Hy. apply He. by apply list_elem_of_further.
  - rewrite list.Forall_forall in *. intros y Hy. rewrite !He by (apply list_elem_of_here || by apply list_elem_of_further). by apply Hf.
Qed.

Lemma reg_same_inv st st' : reg_same st st' -> reg_inv st -> reg_inv st'.
Proof using Type.
  intros [Hc Hl Hw Hcu Hsu Hwd _ _] [I1 I2 I3 I4 I5 I6 I7 I8]. unfold must_verify, nonstop, unstable in *.
  split; unfold must_verify, nonstop, unstable; rewrite ?Hl, ?Hw, ?Hcu, ?Hsu, ?Hwd; try done.
  - apply (sorted_ratings (rating_of st)); [|done]. intros x _. apply Hc.
  - intros cs Hin. destruct (I4 cs Hin). split; [done|]. by rewrite (kp_verify _ _ (Hc cs)).
  - intros cs Hin Hv. rewrite (kp_verify _ _ (Hc cs)) in Hv. destruct (I5 cs Hin Hv) as [?|Hu]; [by left|right]. by apply (kp_unstable _ _ (Hc cs)).
  - intros w Hw'. destruct (I6 w Hw'). split; [done|]. by rewrite (kp_verify _ _ (Hc w)).
  - intros s Hs. destruct (I8 s Hs). split; [done|]. by rewrite (kp_nonstop _ _ (Hc s)).
Qed.

Lemma reg_same_timer st st' : reg_same st st' -> timer_ok st -> timer_ok st'.
Proof using Type. intros [_ _ Hw _ _ Hwd Hr _]. unfold timer_ok. by rewrite Hw, Hwd, Hr. Qed.

(** ** Operations that change nothing of importance *)
Lemma same_put st cs c : keeps (clocks st cs) c -> reg_same st (put st cs c).
Proof using Type. intros Hk. split; try done. intros x. cbn [clocks put]. unfold upd. destruct (Z.eqb_spec x cs) as [->|]; [done|reflexivity]. Qed.
Lemma same_env st e : reg_same st (set_env st e).
Proof using Type. by split. Qed.
Lemma same_work st b : reg_same st (set_work st b).
Proof using Type. by split. Qed.
Lemma same_override st s : reg_same st (set_override st s).
Proof using Type. by split. Qed.
Lemma same_reset st n : reg_same st (set_reset_pending st n).
Proof using Type. by split. Qed.
Lemma same_start st n : reg_same st (set_suspend_start st n).
Proof using Type. by split. Qed.

Lemma same_foldl {A} (f : cstate -> A -> cstate) l : (forall st a, reg_same st (f st a)) -> forall st, reg_same st (foldl f st l).
Proof using Type. intros Hf. induction l as [|a l IH]; intros st; cbn [foldl]; [reflexivity|]. etransitivity; [apply Hf|apply IH]. Qed.

Lemma same_unstable st cs : cs ∈ clocksource_list st -> reg_same st (__clocksource_unstable st cs).
Proof using Type.
  intros Hin. unfold __clocksource_unstable, on_list. rewrite bool_decide_true by done. cbn [negb]. set (c := with_flag _ _).
  assert (Hk : keeps (clocks st cs) c) by (etransitivity; [|unfold c; eauto with clock]; eauto with clock).
  assert (H1 : reg_same st (set_env (put st cs c) (mark_unstable (env (put st cs c)) cs))) by (etransitivity; [by apply same_put|apply same_env]).
  destruct (finished_booting _); [etransitivity; [exact H1|apply same_work]|done].
Qed.

(** ** The watchdog *)
Lemma same_verified st wd cs : reg_same st (watchdog_verified st wd cs).
Proof using Type.
  unfold watchdog_verified. set (st1 := if bool_decide _ then _ else st). assert (H1 : reg_same st st1) by (unfold st1; destruct (bool_decide _); [apply same_env|reflexivity]). clearbody st1.
  destruct (_ && _); [|done]. cbn [finished_booting put]. set (st2 := put st1 cs _). assert (H2 : reg_same st st2) by (etransitivity; [exact H1|apply same_put; eauto with clock]). clearbody st2.
  destruct (negb (finished_booting st1)); [done|]. destruct (negb _); [|etransitivity; [exact H2|apply same_env]].
  etransitivity; [exact H2|]. etransitivity; [|apply same_work]. apply same_put. eauto with clock.
Qed.

Lemma check_same st cs : cs ∈ clocksource_list st -> watchdog st <> None -> exists st', watchdog_check st cs = Done st' /\ reg_same st st'.
Proof using Type.
  intros Hin Hw. unfold watchdog_check. destruct (has _ CLOCK_SOURCE_UNSTABLE).
  - eexists. split; [done|]. destruct (finished_booting st); [apply same_work|reflexivity].
  - destruct (watchdog st) as [wd|]; [|done]. destruct (read (env st) cs) as [csnow e]. destruct (read e wd) as [wdnow e']. pose proof (same_env st e') as H1. set (st1 := set_env st e') in *.
    destruct (_ || _); eexists; (split; [done|]).
    + etransitivity; [exact H1|]. apply same_put. etransitivity; [|apply keeps_last]. eauto with clock.
    + set (st2 := put st1 cs _). assert (H2 : reg_same st st2) by (etransitivity; [exact H1|apply same_put; eauto with clock]).
      destruct (bool_of (watchdog_reset_pending st2)); [exact H2|].
      destruct (skew_too_large _ _); (etransitivity; [exact H2|]); [by apply same_unstable|apply same_verified].
Qed.

Lemma watchdog_loop_same l : forall st, (forall cs, cs ∈ l -> cs ∈ clocksource_list st) -> watchdog st <> None -> exists st', watchdog_loop st l = Done st' /\ reg_same st st'.
Proof using Type.
  induction l as [|cs l IH]; intros st Hl Hw; cbn [watchdog_loop]; [by exists st|]. destruct (check_same st cs) as (st1 & -> & H1); [apply Hl, list_elem_of_here|done|]. cbn [mbind outcome_bind].
  destruct (IH st1) as (st2 & -> & H2).
  - intros x Hx. rewrite (rs_list _ _ H1). by apply Hl, list_elem_of_further.
  - by rewrite (rs_watchdog _ _ H1).
  - exists st2. split; [done|]. by etransitivity.
Qed.

(** The timer never meets a watchdog that is gone. *)
Lemma watchdog_timer_ok st : reg_inv st -> timer_ok st -> exists st', clocksource_watchdog st = Done st' /\ reg_same st st'.
Proof using Type.
  intros HI Ht. unfold clocksource_watchdog. destruct (watchdog_running st) eqn:Hr; cbn [negb]; [|by exists st]. destruct (proj1 Ht Hr) as [Hw _].
  destruct (watchdog_loop_same (watchdog_list st) st) as (st1 & -> & H1); [intros cs Hin; by apply (ri_wd _ HI)|done|]. cbn [mbind outcome_bind]. eexists. split; [done|].
  destruct (bool_of _); [etransitivity; [exact H1|apply same_reset]|done].
Qed.

(** ** Starting and stopping *)
Lemma bool_decide_nil {A} `{EqDecision A} (l : list A) : bool_decide (l = []) = false <-> l <> [].
Proof using Type. rewrite bool_decide_eq_false. done. Qed.

Lemma set_watchdog_inv st b : reg_inv st -> reg_inv (set_watchdog st (watchdog st) b).
Proof using Type. intros [I1 I2 I3 I4 I5 I6 I7 I8]. by split. Qed.

Lemma set_watchdog_id st : set_watchdog st (watchdog st) (watchdog_running st) = st.
Proof using Type. by destruct st. Qed.

Lemma start_watchdog_eq st : exists b, clocksource_start_watchdog st = set_watchdog st (watchdog st) b.
Proof using Type. unfold clocksource_start_watchdog. destruct (_ || _); [exists (watchdog_running st); by rewrite set_watchdog_id|by exists true]. Qed.
Lemma stop_watchdog_eq st : exists b, clocksource_stop_watchdog st = set_watchdog st (watchdog st) b.
Proof using Type. unfold clocksource_stop_watchdog. destruct (_ || _); [exists (watchdog_running st); by rewrite set_watchdog_id|by exists false]. Qed.

(** Starting is right if the timer did not run for nothing, stopping if it was not missing. *)
Lemma start_watchdog_timer st : (watchdog_running st = true -> watchdog st <> None /\ watchdog_list st <> []) -> timer_ok (clocksource_start_watchdog st).
Proof using Type.
  intros Hr. unfold clocksource_start_watchdog, timer_ok. destruct (watchdog_running st) eqn:E; cbn [orb]; [split; [intros _; by apply Hr|by rewrite E]|].
  destruct (bool_decide_reflect (watchdog st = None)), (bool_decide_reflect (watchdog_list st = [])); cbn [orb]; rewrite ?E; split; try done; by intros [].
Qed.
Lemma stop_watchdog_timer st : (watchdog st <> None /\ watchdog_list st <> [] -> watchdog_running st = true) -> timer_ok (clocksource_stop_watchdog st).
Proof using Type.
  intros Hr. unfold clocksource_stop_watchdog, timer_ok. destruct (watchdog_running st) eqn:E; cbn [negb orb].
  - destruct (bool_decide_reflect (watchdog st = None)), (bool_decide_reflect (watchdog_list st = [])); cbn [orb negb andb]; cbn [watchdog_running set_watchdog watchdog watchdog_list]; rewrite ?E; split; try done; by intros [].
  - rewrite E. split; [done|]. intros Hb. by apply Hr in Hb.
Qed.
End Inv.

(** ** The operations keep the invariant *)
Section Ops.
Context `{ClockMath} `{ClockHw}.

(** ** Lists *)
Lemma enqueue_perm r cs l : enqueue_at r cs l ≡ₚ cs :: l.
Proof using Type. induction l as [|x l IH]; cbn [enqueue_at]; [done|]. destruct (_ <? _); [done|]. rewrite IH. apply perm_swap. Qed.

Lemma enqueue_sorted r cs l : StronglySorted (fun a b => r b <= r a) l -> StronglySorted (fun a b => r b <= r a) (enqueue_at r cs l).
Proof using Type.
  induction 1 as [|x l Hs IH Hf]; cbn [enqueue_at]; [by repeat constructor|]. destruct (Z.ltb_spec (r x) (r cs)) as [Hlt|Hge].
  - constructor; [by constructor|]. constructor; [lia|]. eapply list.Forall_impl; [exact Hf|]. cbn. lia.
  - constructor; [done|]. rewrite (enqueue_perm r cs l). by constructor.
Qed.

Lemma elem_remove cs x l : x ∈ remove cs l <-> x ∈ l /\ x <> cs.
Proof using Type. unfold remove. rewrite list_elem_of_filter. tauto. Qed.

Lemma remove_nodup cs l : NoDup l -> NoDup (remove cs l).
Proof using Type. apply list.NoDup_filter. Qed.

Lemma remove_sorted (R : Z -> Z -> Prop) cs l : StronglySorted R l -> StronglySorted R (remove cs l).
Proof using Type.
  unfold remove. induction 1 as [|x l Hs IH Hf]; [constructor|]. rewrite filter_cons. destruct (decide _); [|done]. constructor; [done|].
  rewrite list.Forall_forall in *. intros y Hy. apply list_elem_of_filter in Hy as [_ Hy]. by apply Hf.
Qed.

(** ** Counters that are not registered *)
Lemma put_outside st cs c : cs ∉ clocksource_list st -> reg_inv st -> reg_inv (put st cs c).
Proof using Type.
  intros Hout [I1 I2 I3 I4 I5 I6 I7 I8]. assert (He : forall x, x ∈ clocksource_list st -> clocks (put st cs c) x = clocks st x).
  { intros x Hx. cbn [clocks put]. unfold upd. destruct (Z.eqb_spec x cs) as [->|]; [done|done]. }
  split; try done; unfold must_verify, nonstop, unstable in *; cbn [clocksource_list watchdog_list watchdog curr_clocksource suspend_clocksource put] in *.
  - apply (sorted_ratings (rating_of st)); [|done]. intros x Hx. unfold rating_of. by rewrite He.
  - intros x Hx. destruct (I4 x Hx). rewrite He; done.
  - intros x Hx. rewrite He by done. by apply I5.
  - intros w Hw. destruct (I6 w Hw). rewrite He; done.
  - intros s Hs. destruct (I8 s Hs). rewrite He; done.
Qed.

(** ** Choosing *)
Lemma set_curr_inv st c : reg_inv st -> (forall x, c = Some x -> x ∈ clocksource_list st) -> reg_inv (set_curr st c).
Proof using Type. intros [I1 I2 I3 I4 I5 I6 I7 I8] Hc. by split. Qed.

Lemma find_best_in st o s l x : find_best st o s l = Some x -> x ∈ l.
Proof using Type.
  induction l as [|y l IH]; cbn [find_best]; [done|]. destruct (s && _); [intros Hf; by apply list_elem_of_further, IH|]. destruct (o && _); [intros Hf; by apply list_elem_of_further, IH|].
  intros [= ->]. apply list_elem_of_here.
Qed.
Lemma find_override_in st s l x : find_override st s l = Some x -> x ∈ l /\ name (clocks st x) = override_name st.
Proof using Type.
  induction l as [|y l IH]; cbn [find_override]; [done|]. destruct (s && _); [intros Hf; destruct (IH Hf); split; [by apply list_elem_of_further|done]|].
  destruct (bool_decide_reflect (name (clocks st y) = override_name st)); cbn [negb]; [|intros Hf; destruct (IH Hf); split; [by apply list_elem_of_further|done]].
  intros [= ->]. split; [apply list_elem_of_here|done].
Qed.

(** A choice changes nothing but the current counter, to a registered one. *)
Lemma select_cases st s : let st' := __clocksource_select st s in
  reg_same st st' \/ exists best, best ∈ clocksource_list st /\ reg_same (set_curr st (Some best)) st' /\ curr_clocksource st <> Some best.
Proof using Type.
  unfold __clocksource_select. cbv zeta. unfold clocksource_find_best. destruct (_ || _); [by left|]. destruct (find_best _ _ _ _) as [best|] eqn:Hb; [|by left]. apply find_best_in in Hb.
  set (r := if bool_decide _ then _ else _). assert (Hr : r.1 ∈ clocksource_list st /\ (r.2 = st \/ r.2 = set_override st [])).
  { unfold r. destruct (bool_decide _); [by split; [|left]|]. destruct (find_override _ _ _) as [cs|] eqn:Ho; [|by split; [|left]]. apply find_override_in in Ho as [Ho _].
    destruct (_ && _); [|by split; [|left]]. destruct (has _ _); split; [done|by right|done|by left]. }
  destruct r as [b st1]. cbn [fst snd] in Hr. destruct Hr as [Hin Hst]. assert (Hsame : reg_same st st1) by (destruct Hst as [->| ->]; [reflexivity|apply same_override]).
  destruct (bool_decide_reflect (curr_clocksource st1 = Some b)) as [|Hne]; [by left|]. destruct (timekeeping_notify (env st1) b) as [ret e].
  destruct (bool_of ret); [left; etransitivity; [exact Hsame|apply same_env]|]. right. exists b. split; [done|]. split; [|rewrite <- (rs_curr _ _ Hsame); exact Hne].
  destruct Hst as [->| ->]; by split.
Qed.

Lemma select_inv st s : reg_inv st -> reg_inv (__clocksource_select st s).
Proof using Type.
  intros HI. destruct (select_cases st s) as [Hs|(b & Hb & Hs & _)]; [by apply (reg_same_inv st)|]. eapply reg_same_inv; [exact Hs|]. apply set_curr_inv; [done|]. by intros x [= <-].
Qed.

(** The other fields. *)
Record sel_frame (st st' : cstate) : Prop := {
  sf_clocks cs : keeps (clocks st cs) (clocks st' cs);
  sf_list : clocksource_list st' = clocksource_list st;
  sf_wd_list : watchdog_list st' = watchdog_list st;
  sf_suspend : suspend_clocksource st' = suspend_clocksource st;
  sf_watchdog : watchdog st' = watchdog st;
  sf_running : watchdog_running st' = watchdog_running st;
  sf_booting : finished_booting st' = finished_booting st;
}.
Lemma select_frame st s : sel_frame st (__clocksource_select st s).
Proof using Type. destruct (select_cases st s) as [[]|(b & _ & [] & _)]; by split. Qed.

Lemma select_timer st s : timer_ok st -> timer_ok (__clocksource_select st s).
Proof using Type. destruct (select_frame st s) as [_ _ Hw _ Hwd Hr _]. unfold timer_ok. by rewrite Hw, Hwd, Hr. Qed.

(** ** The watchdog *)
Lemma pick_ok st fb old l : forall w, (forall x, w = Some x -> x ∈ clocksource_list st /\ must_verify st x = false) -> (forall x, x ∈ l -> x ∈ clocksource_list st) ->
  forall x, foldl (pick_watchdog st fb old) w l = Some x -> x ∈ clocksource_list st /\ must_verify st x = false.
Proof using Type.
  induction l as [|y l IH]; intros w Hw Hl x Hf; cbn [foldl] in Hf; [by apply Hw|]. apply (IH (pick_watchdog st fb old w y)); [|intros z Hz; by apply Hl, list_elem_of_further|done].
  intros z. unfold pick_watchdog, must_verify in *. destruct (has (clocks st y) _) eqn:Hv; [apply Hw|]. destruct (fb && _); [apply Hw|].
  assert (Hy : y ∈ clocksource_list st) by (apply Hl, list_elem_of_here). destruct w as [v|]; [|intros [= ->]; done]. destruct (_ >? _); [intros [= ->]; done|apply Hw].
Qed.

Lemma pick_not_old st old l : forall w, w <> old \/ w = None -> is_Some old -> foldl (pick_watchdog st true old) w l <> old \/ foldl (pick_watchdog st true old) w l = None.
Proof using Type.
  induction l as [|y l IH]; intros w Hw Ho; cbn [foldl]; [done|]. apply IH; [|done]. unfold pick_watchdog. destruct (has _ _); [done|]. cbn [andb].
  destruct (bool_decide_reflect (Some y = old)) as [|Hne]; [done|]. destruct w as [v|]; [|by left]. destruct (_ >? _); [by left|done].
Qed.

Lemma reset_watchdog_same st : reg_same st (clocksource_reset_watchdog st).
Proof using Type. apply same_foldl. intros s cs. apply same_put. eauto with clock. Qed.

(** A registered watchdog that needs no verification, if there is one; the timer is started. *)
Lemma select_watchdog_inv st fb : reg_inv st -> (watchdog_running st = true -> watchdog st <> None /\ watchdog_list st <> []) ->
  let st' := clocksource_select_watchdog st fb in
  reg_inv st' /\ timer_ok st' /\ clocksource_list st' = clocksource_list st /\ watchdog_list st' = watchdog_list st /\ curr_clocksource st' = curr_clocksource st /\
  suspend_clocksource st' = suspend_clocksource st /\ (forall cs, keeps (clocks st cs) (clocks st' cs)) /\ finished_booting st' = finished_booting st.
Proof using Type.
  intros HI Hr. unfold clocksource_select_watchdog. cbv zeta. set (w0 := foldl _ _ _). set (w := match w0 with None => _ | Some _ => _ end).
  assert (Hw : forall x, w = Some x -> x ∈ clocksource_list st /\ must_verify st x = false).
  { intros x Hx. assert (Hw0 : forall x, w0 = Some x -> x ∈ clocksource_list st /\ must_verify st x = false).
    { apply pick_ok; [|done]. intros y Hy. apply (ri_watchdog _ HI). by destruct fb. }
    unfold w in Hx. destruct w0 as [v|]; [by apply Hw0|by apply (ri_watchdog _ HI)]. }
  assert (Hsome : watchdog st <> None -> w <> None) by (unfold w; by destruct w0). set (st1 := set_watchdog st w (watchdog_running st)).
  assert (HI1 : reg_inv st1) by (destruct HI as [I1 I2 I3 I4 I5 I6 I7 I8]; by split). clearbody w w0.
  set (st2 := if bool_decide _ then _ else _). assert (H2 : reg_same st1 st2) by (unfold st2; destruct (bool_decide _); [reflexivity|apply reset_watchdog_same]). clearbody st2.
  destruct (start_watchdog_eq st2) as [b Hb]. split.
  - rewrite Hb. apply set_watchdog_inv. by apply (reg_same_inv st1).
  - split; [apply start_watchdog_timer; rewrite (rs_running _ _ H2), (rs_watchdog _ _ H2), (rs_wd_list _ _ H2); intros Hrun; destruct (Hr Hrun); split; [by apply Hsome|done]|].
    rewrite Hb. cbn [clocksource_list watchdog_list curr_clocksource suspend_clocksource clocks set_watchdog finished_booting]. destruct H2 as [K1 K2 K3 K4 K5 K6 K7 K8]. split_and!; done.
Qed.

(** With [fallback] the old watchdog is replaced unless there is no other. *)
Lemma select_watchdog_fallback st w : watchdog st = Some w -> watchdog (clocksource_select_watchdog st true) = Some w ->
  forall x, x ∈ clocksource_list st -> x <> w -> must_verify st x = true.
Proof using Type.
  intros Hw Hsel x Hx Hne. destruct (must_verify st x) eqn:Hv; [done|exfalso]. revert Hsel. unfold clocksource_select_watchdog. cbv zeta. rewrite Hw.
  set (w0 := foldl _ _ _). assert (Hnot : w0 <> Some w \/ w0 = None) by (apply pick_not_old; [by right|done]).
  assert (Hsome : w0 <> None).
  { assert (Hmono : forall l v, is_Some v -> is_Some (foldl (pick_watchdog st true (Some w)) v l)).
    { induction l as [|y l IH]; intros v Hv'; cbn [foldl]; [done|]. apply IH. unfold pick_watchdog. destruct (has _ _); [done|]. destruct (_ && _); [done|]. destruct v; [|done]. by destruct (_ >? _). }
    apply list_elem_of_split in Hx as (l1 & l2 & Hl). unfold w0. rewrite Hl, foldl_app. cbn [foldl]. apply not_eq_None_Some, Hmono. unfold pick_watchdog at 1. unfold must_verify in Hv. rewrite Hv. cbn [andb].
    rewrite bool_decide_false by congruence. destruct (foldl _ _ l1); [|done]. by destruct (_ >? _). }
  destruct w0 as [v|]; [|done]. assert (Hvw : v <> w) by (destruct Hnot; congruence). rewrite bool_decide_false by congruence. intros Hf.
  match type of Hf with watchdog (clocksource_start_watchdog ?s) = _ => destruct (start_watchdog_eq s) as [b Hb]; rewrite Hb in Hf; cbn [watchdog set_watchdog] in Hf; pose proof (reset_watchdog_same (set_watchdog st (Some v) (watchdog_running st))) as Hs end.
  rewrite (rs_watchdog _ _ Hs) in Hf. cbn in Hf. congruence.
Qed.

(** ** Ratings *)
Lemma change_rating_inv st cs r : reg_inv st -> cs ∈ clocksource_list st ->
  let st' := __clocksource_change_rating st cs r in
  reg_inv st' /\ (forall x, x ∈ clocksource_list st' <-> x ∈ clocksource_list st) /\ watchdog_list st' = watchdog_list st /\ watchdog st' = watchdog st /\
  watchdog_running st' = watchdog_running st /\ curr_clocksource st' = curr_clocksource st /\ suspend_clocksource st' = suspend_clocksource st /\
  finished_booting st' = finished_booting st /\ (forall x, flags (clocks st' x) = flags (clocks st x)).
Proof using Type.
  intros HI Hin. unfold __clocksource_change_rating, clocksource_enqueue. cbv zeta. cbn [clocksource_list set_list put clocks].
  set (st1 := put _ _ _). assert (Hfl : forall x, flags (clocks st1 x) = flags (clocks st x)) by (intros x; cbn; unfold upd; destruct (Z.eqb_spec x cs) as [->|]; done).
  assert (Hmem : forall x, x ∈ enqueue_at (rating_of st1) cs (remove cs (clocksource_list st)) <-> x ∈ clocksource_list st).
  { intros x. rewrite enqueue_perm, elem_of_cons, elem_remove. split; [intros [->|[? _]]; done|]. intros Hx. destruct (decide (x = cs)); [by left|by right]. }
  assert (Hrest : forall x, x <> cs -> rating_of st1 x = rating_of st x) by (intros x Hx; unfold rating_of; cbn; unfold upd; by rewrite (proj2 (Z.eqb_neq x cs))).
  split; [|split_and!; try done]. destruct HI as [I1 I2 I3 I4 I5 I6 I7 I8]. unfold must_verify, nonstop, unstable, has in *.
  split; unfold must_verify, nonstop, unstable, has; cbn [clocksource_list set_list watchdog_list watchdog curr_clocksource suspend_clocksource clocks put st1] in *; fold st1 in Hfl.
  - rewrite enqueue_perm. apply list.NoDup_cons. split; [rewrite elem_remove; by intros [_ []]|by apply remove_nodup].
  - apply (enqueue_sorted (rating_of st1)). apply (sorted_ratings (rating_of st)); [|by apply remove_sorted]. intros x Hx. apply elem_remove in Hx as [_ Hx]. by apply Hrest.
  - done.
  - intros x Hx. destruct (I4 x Hx). split; [by apply Hmem|]. by rewrite Hfl.
  - intros x Hx Hv. rewrite Hfl in *. apply I5; [by apply Hmem|done].
  - intros w Hw. destruct (I6 w Hw). split; [by apply Hmem|]. by rewrite Hfl.
  - intros c Hc. by apply Hmem, I7.
  - intros x Hx. destruct (I8 x Hx). split; [by apply Hmem|]. by rewrite Hfl.
Qed.

Lemma has_flags c c' f : flags c' = flags c -> has c' f = has c f.
Proof using Type. unfold has. by intros ->. Qed.

(** An unstable counter need not be watched. *)
Lemma unwatch_inv st cs : reg_inv st -> unstable st cs = true \/ cs ∉ clocksource_list st -> reg_inv (set_wd_list st (remove cs (watchdog_list st))).
Proof using Type.
  intros [I1 I2 I3 I4 I5 I6 I7 I8] Hu. split; try done; cbn [watchdog_list set_wd_list clocksource_list].
  - by apply remove_nodup.
  - intros x Hx. apply elem_remove in Hx as [Hx _]. by apply I4.
  - intros x Hx Hv. destruct (decide (x = cs)) as [->|Hne]; [right; by destruct Hu|]. destruct (I5 x Hx Hv) as [?|?]; [left; by apply elem_remove|by right].
Qed.

(** What the thread keeps: nothing new is watched. *)
Record thread_frame (st st' : cstate) : Prop := {
  tf_list x : x ∈ clocksource_list st' <-> x ∈ clocksource_list st;
  tf_wd x : x ∈ watchdog_list st' -> x ∈ watchdog_list st;
  tf_watchdog : watchdog st' = watchdog st;
  tf_running : watchdog_running st' = watchdog_running st;
  tf_curr : curr_clocksource st' = curr_clocksource st;
  tf_booting : finished_booting st' = finished_booting st;
  tf_flags x f : f <> CLOCK_SOURCE_RESELECT -> Z.land CLOCK_SOURCE_RESELECT f = 0 -> has (clocks st' x) f = has (clocks st x) f;
  tf_rating x : unstable st x = false -> rating_of st' x = rating_of st x;
  tf_env : env st' = env st;
  tf_override : override_name st' = override_name st;
}.

#[export] Instance thread_frame_preorder : PreOrder thread_frame.
Proof using Type.
  split; [by split|]. intros a b c [H1 H2 H3 H4 H5 H6 H7 H8 H9 H10] [K1 K2 K3 K4 K5 K6 K7 K8 K9 K10]. split; [|by auto|congruence|congruence|congruence|congruence| | |congruence|congruence].
  - intros x. rewrite K1. apply H1.
  - intros x f Hf Hd. rewrite K7 by done. by apply H7.
  - intros x Hx. rewrite K8; [by apply H8|]. unfold unstable. by rewrite H7.
Qed.

Lemma kthread_check_inv st sel cs : reg_inv st -> cs ∈ clocksource_list st ->
  let r := kthread_check st sel cs in
  reg_inv r.1 /\ thread_frame st r.1 /\ (unstable st cs = true -> (cs ∉ watchdog_list r.1) /\ rating_of r.1 cs = 0 /\ r.2 = true).
Proof using Type.
  intros HI Hin. unfold kthread_check. destruct (has (clocks st cs) CLOCK_SOURCE_UNSTABLE) eqn:Hu.
  - set (st1 := set_wd_list st _). assert (HI1 : reg_inv st1) by (apply unwatch_inv; [done|by left]).
    destruct (change_rating_inv st1 cs 0 HI1 Hin) as (HI2 & Hl & Hwl & Hw & Hr & Hc & _ & Hb & Hf). set (st2 := __clocksource_change_rating st1 cs 0) in *.
    assert (Hrat : rating_of st2 cs = 0) by (unfold rating_of, st2, __clocksource_change_rating; cbn; unfold upd; by rewrite Z.eqb_refl).
    assert (Hfr : thread_frame st st2).
    { split; try done; [intros x Hx; rewrite Hwl in Hx; by apply elem_remove in Hx as [? _]|intros x f _ _; by apply has_flags|]. intros x Hx. assert (x <> cs) by (intros ->; unfold unstable in Hx; congruence).
      unfold rating_of, st2, __clocksource_change_rating. cbn [clocks put set_list clocksource_enqueue]. unfold upd. by rewrite (proj2 (Z.eqb_neq x cs)). }
    assert (Hout : cs ∉ watchdog_list st2) by (rewrite Hwl; cbn; rewrite elem_remove; by intros [_ []]).
    destruct (has (clocks st2 cs) CLOCK_SOURCE_RESELECT); [|done]. set (st3 := put st2 cs _). assert (Hs : reg_same st2 st3) by (apply same_put; eauto with clock).
    cbn [fst snd]. split; [by apply (reg_same_inv st2)|]. split; [|intros _; split; [done|]; split; [|done]; unfold rating_of; by rewrite (kp_rating _ _ (rs_clocks _ _ Hs cs))].
    etransitivity; [exact Hfr|]. split; try done; [intros x f Hfne Hd; unfold st3; cbn [clocks put]; unfold upd; destruct (Z.eqb_spec x cs) as [->|]; [by rewrite has_without_other|done]|]. intros x _. apply Hs.
  - destruct (has (clocks st cs) CLOCK_SOURCE_RESELECT); [|split; [done|]; split; [reflexivity|]; unfold unstable; by rewrite Hu]. set (st3 := put st cs _). assert (Hs : reg_same st st3) by (apply same_put; eauto with clock).
    cbn [fst snd]. split; [by apply (reg_same_inv st)|]. split; [|unfold unstable; by rewrite Hu]. split; try done; [intros x f Hfne Hd; unfold st3; cbn [clocks put]; unfold upd; destruct (Z.eqb_spec x cs) as [->|]; [by rewrite has_without_other|done]|]. intros x _. apply Hs.
Qed.

(** The ratings of unstable counters that the thread has seen. *)
Lemma kthread_loop_inv l : forall st sel, reg_inv st -> (forall cs, cs ∈ l -> cs ∈ clocksource_list st) ->
  let r := kthread_loop st sel l in
  reg_inv r.1 /\ thread_frame st r.1 /\ (sel = true -> r.2 = true) /\
  (forall cs, cs ∈ l -> unstable st cs = true -> (cs ∉ watchdog_list r.1) /\ r.2 = true) /\ (forall cs, unstable st cs = true -> cs ∈ l \/ rating_of st cs = 0 -> rating_of r.1 cs = 0).
Proof using Type.
  induction l as [|y l IH]; intros st sel HI Hl; cbn [kthread_loop].
  - cbn [fst snd]. split; [done|]. split; [reflexivity|]. split; [done|]. split; [intros cs Hin; by apply elem_of_nil in Hin|]. intros cs _ [Hin|?]; [by apply elem_of_nil in Hin|done].
  - assert (Hy : y ∈ clocksource_list st) by (apply Hl, list_elem_of_here). pose proof (kthread_check_inv st sel y HI Hy) as Hc. cbv zeta in Hc.
    assert (Hsel : sel = true -> (kthread_check st sel y).2 = true).
    { intros ->. unfold kthread_check. destruct (has (clocks st y) CLOCK_SOURCE_UNSTABLE); destruct (has _ _); done. }
    assert (Hoth : forall x, x <> y -> rating_of (kthread_check st sel y).1 x = rating_of st x).
    { intros x Hx. unfold kthread_check, rating_of. destruct (has (clocks st y) CLOCK_SOURCE_UNSTABLE); destruct (has _ _); cbn; unfold upd; by rewrite ?(proj2 (Z.eqb_neq x y)) by done. }
    destruct (kthread_check st sel y) as [st1 sel1]. cbn [fst snd] in *. destruct Hc as (HI1 & Hf1 & Hu1).
    assert (Hun : forall x, unstable st1 x = unstable st x) by (intros x; by apply (tf_flags _ _ Hf1)).
    destruct (IH st1 sel1 HI1) as (HI2 & Hf2 & Hs2 & Hw2 & Hr2); [intros cs Hcs; by apply (tf_list _ _ Hf1), Hl, list_elem_of_further|].
    split; [done|]. split; [by etransitivity|]. split; [intros Hs; by apply Hs2, Hsel|]. split.
    + intros cs Hcs Hu. apply elem_of_cons in Hcs as [->|Hcs]; [|apply Hw2; [done|by rewrite Hun]]. destruct (Hu1 Hu) as (Ha & _ & Hb). split; [intros Hin; by apply Ha, (tf_wd _ _ Hf2)|by apply Hs2].
    + intros cs Hu Hor. apply Hr2; [by rewrite Hun|]. destruct (decide (cs = y)) as [->|Hne]; [right; by apply Hu1|]. rewrite Hoth by done. destruct Hor as [Hin|?]; [|by right].
      apply elem_of_cons in Hin as [|?]; [done|by left].
Qed.

Lemma kthread_inv st : reg_inv st -> timer_ok st ->
  let r := __clocksource_watchdog_kthread st in
  reg_inv r.1 /\ timer_ok r.1 /\ (exists b, thread_frame st (set_watchdog r.1 (watchdog r.1) b)) /\
  (forall cs, cs ∈ watchdog_list st -> unstable st cs = true -> (cs ∉ watchdog_list r.1) /\ rating_of r.1 cs = 0 /\ r.2 = true).
Proof using Type.
  intros HI Ht. unfold __clocksource_watchdog_kthread. destruct (kthread_loop_inv (watchdog_list st) st false HI) as (HI1 & Hf & _ & Hw & Hr); [intros cs Hin; by apply (ri_wd _ HI)|].
  destruct (kthread_loop st false (watchdog_list st)) as [st1 sel]. cbn [fst snd] in *. destruct (stop_watchdog_eq st1) as [b Hb]. split; [rewrite Hb; by apply set_watchdog_inv|]. split.
  - apply stop_watchdog_timer. rewrite (tf_watchdog _ _ Hf), (tf_running _ _ Hf). intros [Hn Hne]. apply Ht. split; [done|]. intros Hnil. apply Hne. apply elem_of_nil_inv. intros x Hx.
    apply (tf_wd _ _ Hf) in Hx. rewrite Hnil in Hx. by apply elem_of_nil in Hx.
  - rewrite Hb. split.
    + exists (watchdog_running st1). destruct Hf as [F1 F2 F3 F4 F5 F6 F7 F8 F9 F10]. by split.
    + intros cs Hin Hu. destruct (Hw cs Hin Hu) as [Ha Hs]. split; [done|]. split; [|done]. change (rating_of (set_watchdog st1 (watchdog st1) b) cs) with (rating_of st1 cs). by apply Hr; [|left].
Qed.

(** ** Suspend *)
Lemma set_suspend_inv st c : reg_inv st -> (forall x, c = Some x -> x ∈ clocksource_list st /\ nonstop st x = true) -> reg_inv (set_suspend st c).
Proof using Type. intros [I1 I2 I3 I4 I5 I6 I7 I8] Hc. by split. Qed.

(** Only the suspend counter changes. *)
Lemma suspend_one_eq st cs : exists c, __clocksource_suspend_select st cs = set_suspend st c /\ (c = suspend_clocksource st \/ (c = Some cs /\ nonstop st cs = true)).
Proof using Type.
  assert (Hid : st = set_suspend st (suspend_clocksource st)) by (by destruct st). unfold __clocksource_suspend_select, nonstop. destruct (has _ _); cbn [negb].
  - destruct (suspend_clocksource st) as [x|] eqn:Hs; [|exists (Some cs); split; [done|by right]]. destruct (_ >? _); [exists (Some cs); split; [done|by right]|].
    exists (Some x). split; [done|by left].
  - exists (suspend_clocksource st). split; [done|by left].
Qed.

Lemma suspend_fold st fb old l : forall c, exists c', foldl (fun st cs => if fb && bool_decide (Some cs = old) then st else __clocksource_suspend_select st cs) (set_suspend st c) l = set_suspend st c' /\
  (c' = c \/ exists x, c' = Some x /\ x ∈ l /\ nonstop st x = true /\ (fb = true -> Some x <> old)).
Proof using Type.
  induction l as [|y l IH]; intros c; cbn [foldl]; [exists c; split; [done|by left]|]. destruct (fb && bool_decide (Some y = old)) eqn:Hskip.
  - destruct (IH c) as (c' & -> & Hc). exists c'. split; [done|]. destruct Hc as [->|(x & -> & Hx & Hrest)]; [by left|right]. exists x. split; [done|]. split; [by apply list_elem_of_further|done].
  - destruct (suspend_one_eq (set_suspend st c) y) as (c1 & -> & Hc1). change (set_suspend (set_suspend st c) c1) with (set_suspend st c1). destruct (IH c1) as (c' & -> & Hc). exists c'. split; [done|].
    assert (Hy : fb = true -> Some y <> old) by (intros ->; cbn [andb] in Hskip; by apply bool_decide_eq_false in Hskip).
    destruct Hc as [->|(x & -> & Hx & Hrest)].
    + destruct Hc1 as [->|[-> Hn]]; [by left|right]. exists y. split; [done|]. split; [apply list_elem_of_here|]. split; [exact Hn|done].
    + right. exists x. split; [done|]. split; [by apply list_elem_of_further|done].
Qed.

Lemma suspend_select_eq st fb : exists c, clocksource_suspend_select st fb = set_suspend st c /\
  (c = (if fb then None else suspend_clocksource st) \/ exists x, c = Some x /\ x ∈ clocksource_list st /\ nonstop st x = true /\ (fb = true -> Some x <> suspend_clocksource st)).
Proof using Type.
  unfold clocksource_suspend_select. cbv zeta. destruct fb.
  - destruct (suspend_fold st true (suspend_clocksource st) (clocksource_list st) None) as (c & Hc & Hr). exists c. split; [exact Hc|done].
  - destruct (suspend_fold st false (suspend_clocksource st) (clocksource_list st) (suspend_clocksource st)) as (c & Hc & Hr). exists c. split; [|done].
    rewrite <- Hc. by destruct st.
Qed.

Lemma suspend_select_inv st fb : reg_inv st -> reg_inv (clocksource_suspend_select st fb).
Proof using Type.
  intros HI. destruct (suspend_select_eq st fb) as (c & -> & Hc). apply set_suspend_inv; [done|]. intros x ->. destruct Hc as [Hc|(y & [= <-] & Hy & Hn & _)]; [|done].
  destruct fb; [done|]. by apply (ri_suspend _ HI).
Qed.

(** ** Registering *)

(** The counter is put into both lists. *)
Lemma link_inv st cs c : reg_inv st -> cs ∉ clocksource_list st ->
  let st' := clocksource_enqueue_watchdog (clocksource_enqueue (put st cs c) cs) cs in
  reg_inv st' /\ (forall x, x ∈ clocksource_list st' <-> x = cs \/ x ∈ clocksource_list st) /\ (forall x, x ∈ watchdog_list st -> x ∈ watchdog_list st') /\
  watchdog st' = watchdog st /\ watchdog_running st' = watchdog_running st /\ curr_clocksource st' = curr_clocksource st /\ finished_booting st' = finished_booting st /\ rating_of st' cs = rating c.
Proof using Type.
  intros HI Hout. pose proof (put_outside st cs c Hout HI) as HI1. set (st1 := put st cs c) in *. assert (Hc : clocks st1 cs = c) by (cbn; unfold upd; by rewrite Z.eqb_refl).
  change (clocksource_list st) with (clocksource_list st1) in *. change (watchdog_list st) with (watchdog_list st1). change (watchdog st) with (watchdog st1). change (watchdog_running st) with (watchdog_running st1).
  change (curr_clocksource st) with (curr_clocksource st1). change (finished_booting st) with (finished_booting st1). clearbody st1. clear HI. unfold clocksource_enqueue.
  set (l := enqueue_at (rating_of st1) cs (clocksource_list st1)). assert (Hl : forall x, x ∈ l <-> x = cs \/ x ∈ clocksource_list st1) by (intros x; unfold l; by rewrite enqueue_perm, elem_of_cons).
  assert (Hnd : NoDup l) by (unfold l; rewrite enqueue_perm; apply list.NoDup_cons; split; [done|apply HI1]). assert (Hso : StronglySorted (fun a b => rating_of st1 b <= rating_of st1 a) l) by (apply enqueue_sorted, HI1).
  clearbody l. assert (Hwout : cs ∉ watchdog_list st1) by (intros Hin; by apply Hout, (ri_wd _ HI1)). destruct HI1 as [I1 I2 I3 I4 I5 I6 I7 I8].
  unfold clocksource_enqueue_watchdog. cbn [clocks set_list]. destruct (has (clocks st1 cs) CLOCK_SOURCE_MUST_VERIFY) eqn:Hv.
  - set (st2 := put (set_wd_list (set_list st1 l) (cs :: watchdog_list (set_list st1 l))) cs _).
    assert (Hk : forall x, keeps (clocks st1 x) (clocks st2 x)) by (intros x; unfold st2; cbn [clocks put set_wd_list set_list]; unfold upd; destruct (Z.eqb_spec x cs) as [->|]; [eauto with clock|reflexivity]).
    assert (HI2 : reg_inv st2).
    { split; unfold must_verify, nonstop, unstable in *; cbn [clocksource_list watchdog_list watchdog curr_clocksource suspend_clocksource put set_wd_list set_list st2] in *; try done.
      - apply (sorted_ratings (rating_of st1)); [|done]. intros x _. apply Hk.
      - by apply list.NoDup_cons.
      - intros x Hx. rewrite (kp_verify _ _ (Hk x)). apply elem_of_cons in Hx as [->|Hx]; [split; [apply Hl; by left|done]|]. destruct (I4 x Hx). split; [apply Hl; by right|done].
      - intros x Hx Hvx. rewrite (kp_verify _ _ (Hk x)) in Hvx. apply Hl in Hx as [->|Hx]; [left; apply list_elem_of_here|]. destruct (I5 x Hx Hvx) as [?|?]; [left; by apply list_elem_of_further|right; by apply (kp_unstable _ _ (Hk x))].
      - intros w Hw. destruct (I6 w Hw). rewrite (kp_verify _ _ (Hk w)). split; [apply Hl; by right|done].
      - intros x Hx. apply Hl. right. by apply I7.
      - intros x Hx. destruct (I8 x Hx). rewrite (kp_nonstop _ _ (Hk x)). split; [apply Hl; by right|done]. }
    split; [done|]. split; [apply Hl|]. split; [intros x Hx; by apply list_elem_of_further|]. split_and!; try done. unfold rating_of. by rewrite (kp_rating _ _ (Hk cs)), Hc.
  - assert (HI2 : reg_inv (set_list st1 l)).
    { split; unfold must_verify, nonstop, unstable in *; cbn [clocksource_list watchdog_list watchdog curr_clocksource suspend_clocksource set_list clocks] in *; try done.
      - intros x Hx. destruct (I4 x Hx). split; [apply Hl; by right|done].
      - intros x Hx Hvx. apply Hl in Hx as [->|Hx]; [congruence|by apply I5].
      - intros w Hw. destruct (I6 w Hw). split; [apply Hl; by right|done].
      - intros x Hx. apply Hl. right. by apply I7.
      - intros x Hx. destruct (I8 x Hx). split; [apply Hl; by right|done]. }
    set (st2 := if has _ _ then _ else _). assert (Hs : reg_same (set_list st1 l) st2) by (unfold st2; destruct (has (clocks st1 cs) CLOCK_SOURCE_IS_CONTINUOUS); [apply same_put; eauto with clock|reflexivity]). clearbody st2.
    split; [by apply (reg_same_inv (set_list st1 l))|]. destruct Hs as [S1 S2 S3 S4 S5 S6 S7 S8]. cbn [clocksource_list watchdog_list watchdog curr_clocksource watchdog_running finished_booting clocks set_list] in *.
    rewrite S2, S3, S4, S6, S7, S8. split; [apply Hl|]. split; [done|]. split_and!; try done. unfold rating_of. by rewrite (kp_rating _ _ (S1 cs)), Hc.
Qed.

Lemma register_inv st cs scale freq st' : reg_inv st -> timer_ok st -> cs ∉ clocksource_list st -> __clocksource_register_scale st cs scale freq = Done st' ->
  reg_inv st' /\ timer_ok st' /\ forall x, x ∈ clocksource_list st' <-> x = cs \/ x ∈ clocksource_list st.
Proof using Type.
  intros HI Ht Hout. unfold __clocksource_register_scale. destruct (__clocksource_update_freq_scale _ _ _) as [c| | |]; cbn [mbind outcome_bind]; [|done..].
  destruct (link_inv st cs c HI Hout) as (HI1 & Hl & Hwl & Hw & Hr & _ & _ & _). set (st1 := clocksource_enqueue_watchdog _ _) in *. pose proof (select_inv st1 false HI1) as HI2.
  pose proof (select_frame st1 false) as [_ F2 F3 _ F5 F6 _]. fold (clocksource_select st1) in HI2, F2, F3, F5, F6. set (st2 := clocksource_select st1) in *.
  assert (Hrun : watchdog_running st2 = true -> watchdog st2 <> None /\ watchdog_list st2 <> []).
  { rewrite F5, F6, F3, Hw, Hr. intros Hrn. apply Ht in Hrn as [Hn Hne]. split; [done|]. intros Hnil. apply Hne. apply elem_of_nil_inv. intros x Hx. apply Hwl in Hx. rewrite Hnil in Hx. by apply elem_of_nil in Hx. }
  destruct (select_watchdog_inv st2 false HI2 Hrun) as (HI3 & Ht3 & Hl3 & _). set (st3 := clocksource_select_watchdog st2 false) in *. destruct (suspend_one_eq st3 cs) as (s & Hs & Hcase). rewrite Hs.
  intros [= <-]. assert (Hl3' : forall x, x ∈ clocksource_list st3 <-> x = cs \/ x ∈ clocksource_list st) by (intros x; by rewrite Hl3, F2). split; [|split; [done|exact Hl3']].
  apply set_suspend_inv; [done|]. intros x ->. destruct Hcase as [Hc|[[= ->] Hn]]; [by apply (ri_suspend _ HI3)|]. split; [apply Hl3'; by left|done].
Qed.
End Ops.
