(* ===== verification/ClocksourceProps.v ===== *)
(** * Clock sources: what holds after every operation

    Drivers register counters and take them back, mark them as unstable and change their
    ratings, user space chooses, and the watchdog and its thread run in between.  The choice is the
    best counter that can be used, and an unstable counter is given up. *)

From stdpp Require Import sorting relations.
From S2P Require Import Prelude TimeConv Clocksource ClocksourceInv.
#[local] Open Scope Z_scope.

Section Props.
Context `{ClockMath} `{ClockHw}.

(** ** Taking a counter back *)

(** Nothing points to the counter. *)
Record unused (st : cstate) (cs : Z) : Prop := {
  un_watchdog : watchdog st <> Some cs;
  un_curr : curr_clocksource st <> Some cs;
  un_suspend : suspend_clocksource st <> Some cs;
}.

Lemma delete_inv st cs : reg_inv st -> timer_ok st -> unused st cs ->
  let st1 := clocksource_dequeue_watchdog st cs in let st' := set_list st1 (remove cs (clocksource_list st1)) in
  reg_inv st' /\ timer_ok st' /\ clocksource_list st' = remove cs (clocksource_list st) /\ cs ∉ watchdog_list st'.
Proof using Type.
  intros HI Ht [Uw Uc Us]. cbv zeta. unfold clocksource_dequeue_watchdog. rewrite bool_decide_false by done. cbn [negb andb].
  set (wl := remove cs (watchdog_list st)). assert (Hwl : forall x, x ∈ wl <-> x ∈ watchdog_list st /\ x <> cs) by (intros x; apply elem_remove).
  assert (Hdel : forall st1, (exists b, st1 = set_watchdog (set_wd_list st wl) (watchdog st) b) -> reg_inv (set_list st1 (remove cs (clocksource_list st1)))).
  { intros st1 [b ->]. destruct HI as [I1 I2 I3 I4 I5 I6 I7 I8]. unfold must_verify, nonstop, unstable in *.
    split; unfold must_verify, nonstop, unstable; cbn [clocksource_list watchdog_list watchdog curr_clocksource suspend_clocksource set_list set_watchdog set_wd_list clocks].
    - by apply remove_nodup.
    - by apply remove_sorted.
    - by apply remove_nodup.
    - intros x Hx. apply Hwl in Hx as [Hx Hne]. destruct (I4 x Hx). split; [by apply elem_remove|done].
    - intros x Hx Hv. apply elem_remove in Hx as [Hx Hne]. destruct (I5 x Hx Hv) as [?|?]; [left; by apply Hwl|by right].
    - intros w Hw. destruct (I6 w Hw). split; [apply elem_remove; split; [done|congruence]|done].
    - intros c Hc. apply elem_remove. split; [by apply I7|congruence].
    - intros s Hs. destruct (I8 s Hs). split; [apply elem_remove; split; [done|congruence]|done]. }
  destruct (has (clocks st cs) CLOCK_SOURCE_MUST_VERIFY) eqn:Hv.
  - destruct (stop_watchdog_eq (set_wd_list st wl)) as [b Hb]. split; [apply Hdel; exists b; exact Hb|]. split.
    + assert (Ht1 : timer_ok (clocksource_stop_watchdog (set_wd_list st wl))); [|by rewrite Hb in *].
      apply stop_watchdog_timer. cbn [watchdog watchdog_list watchdog_running set_wd_list]. intros [Hn Hne]. apply Ht. split; [done|]. intros Hnil. apply Hne. unfold wl. by rewrite Hnil.
    + rewrite Hb. split; [done|]. cbn [watchdog_list set_list set_watchdog set_wd_list]. rewrite Hwl. by intros [_ []].
  - assert (Hout : cs ∉ watchdog_list st) by (intros Hin; apply (ri_wd _ HI) in Hin as [_ Hm]; unfold must_verify in Hm; congruence).
    assert (Heq : wl = watchdog_list st) by (unfold wl, remove; apply filter_ne_id; exact Hout). split; [|split; [exact Ht|split; [done|exact Hout]]]. apply Hdel. exists (watchdog_running st). rewrite Heq. by destruct st.
Qed.

Lemma unbind_inv st cs ret st' : reg_inv st -> timer_ok st -> clocksource_unbind st cs = (ret, st') ->
  reg_inv st' /\ timer_ok st' /\
  ((ret = 0 /\ unused st' cs /\ (cs ∉ clocksource_list st') /\ (cs ∉ watchdog_list st') /\ (forall x, x ∈ clocksource_list st' <-> x ∈ clocksource_list st /\ x <> cs)) \/
   (ret = - EBUSY /\ clocksource_list st' = clocksource_list st)).
Proof using Type.
  intros HI Ht. unfold clocksource_unbind. set (st1 := if clocksource_is_watchdog st cs then _ else st).
  assert (H1 : reg_inv st1 /\ timer_ok st1 /\ clocksource_list st1 = clocksource_list st).
  { unfold st1. destruct (clocksource_is_watchdog st cs); [|done]. destruct (select_watchdog_inv st true HI) as (A & B & C & _); [intros Hr; by apply Ht|done]. }
  clearbody st1. destruct H1 as (HI1 & Ht1 & Hl1). unfold clocksource_is_watchdog. destruct (bool_decide_reflect (watchdog st1 = Some cs)) as [|Hnw].
  { intros [= <- <-]. split; [done|]. split; [done|]. by right. }
  set (st2 := if bool_decide (curr_clocksource st1 = Some cs) then clocksource_select_fallback st1 else st1). assert (H2 : reg_inv st2 /\ timer_ok st2 /\ clocksource_list st2 = clocksource_list st /\ watchdog st2 = watchdog st1).
  { unfold st2. destruct (bool_decide _); [|done]. pose proof (select_frame st1 true) as [_ F2 _ _ F5 _ _]. split; [by apply select_inv|]. split; [by apply select_timer|]. split; [by rewrite <- Hl1|done]. }
  clearbody st2. destruct H2 as (HI2 & Ht2 & Hl2 & Hw2). destruct (bool_decide_reflect (curr_clocksource st2 = Some cs)) as [|Hnc].
  { intros [= <- <-]. split; [done|]. split; [done|]. by right. }
  set (st3 := if clocksource_is_suspend st2 cs then _ else _).
  assert (H3 : reg_inv st3 /\ timer_ok st3 /\ clocksource_list st3 = clocksource_list st /\ unused st3 cs).
  { unfold st3, clocksource_is_suspend. destruct (bool_decide_reflect (suspend_clocksource st2 = Some cs)) as [Hs|Hs].
    - pose proof (suspend_select_inv st2 true HI2) as HI3. destruct (suspend_select_eq st2 true) as (c & Hc & Hcase). rewrite Hc in *. split; [done|]. split; [done|]. split; [done|].
      split; cbn; [congruence|done|]. destruct Hcase as [->|(x & -> & _ & _ & Hne)]; [done|]. rewrite Hs in Hne. intros [= ->]. by apply Hne.
    - split; [done|]. split; [done|]. split; [done|]. split; [congruence|done|done]. }
  clearbody st3. destruct H3 as (HI3 & Ht3 & Hl3 & Hu). destruct (delete_inv st3 cs HI3 Ht3 Hu) as (HI4 & Ht4 & Hl4 & Hw4). intros [= <- <-]. split; [done|]. split; [done|]. left. split; [done|].
  assert (Hmem : forall x, x ∈ clocksource_list st3 /\ x <> cs <-> x ∈ clocksource_list st /\ x <> cs) by (intros x; by rewrite Hl3).
  split; [|split; [rewrite Hl4, elem_remove; by intros [_ []]|split; [done|intros x; by rewrite Hl4, elem_remove, Hmem]]].
  destruct Hu as [U1 U2 U3]. assert (Hfr : watchdog (clocksource_dequeue_watchdog st3 cs) = watchdog st3 /\ curr_clocksource (clocksource_dequeue_watchdog st3 cs) = curr_clocksource st3 /\ suspend_clocksource (clocksource_dequeue_watchdog st3 cs) = suspend_clocksource st3).
  { unfold clocksource_dequeue_watchdog. destruct (_ && _); [|done]. destruct (stop_watchdog_eq (set_wd_list st3 (remove cs (watchdog_list st3)))) as [b ->]. done. }
  destruct Hfr as (F1 & F2 & F3). split; cbn; [by rewrite F1|by rewrite F2|by rewrite F3].
Qed.

(** ** Unstable counters *)
Lemma mark_unstable_inv st cs : reg_inv st -> timer_ok st -> must_verify st cs = true \/ cs ∉ clocksource_list st ->
  reg_inv (clocksource_mark_unstable st cs) /\ timer_ok (clocksource_mark_unstable st cs) /\ clocksource_list (clocksource_mark_unstable st cs) = clocksource_list st.
Proof using Type.
  intros HI Ht Hc. unfold clocksource_mark_unstable, on_list. destruct (has (clocks st cs) CLOCK_SOURCE_UNSTABLE) eqn:Hu; cbn [negb]; [done|]. destruct (bool_decide_reflect (cs ∈ clocksource_list st)) as [Hin|Hout].
  - destruct Hc as [Hv|]; [|done]. destruct (ri_verified _ HI cs Hin Hv) as [Hw|Hw]; [|unfold unstable in Hw; congruence]. rewrite (bool_decide_true (cs ∈ watchdog_list st)) by done. cbn [negb andb].
    pose proof (same_unstable st cs Hin) as Hs. split; [by apply (reg_same_inv st)|]. split; [by apply (reg_same_timer st)|apply Hs].
  - cbn [andb]. unfold __clocksource_unstable, on_list. rewrite bool_decide_false by done. cbn [negb]. split; [by apply put_outside|done].
Qed.

Lemma done_booting_inv st : reg_inv st -> timer_ok st -> clocksource_default_clock ∈ clocksource_list st ->
  reg_inv (clocksource_done_booting st) /\ timer_ok (clocksource_done_booting st) /\ forall x, x ∈ clocksource_list (clocksource_done_booting st) <-> x ∈ clocksource_list st.
Proof using Type.
  intros HI Ht Hd. unfold clocksource_done_booting. cbv zeta. set (st1 := CState _ _ _ _ _ _ _ _ _ _ _ _ _).
  assert (HI1 : reg_inv st1) by (destruct HI as [I1 I2 I3 I4 I5 I6 I7 I8]; split; try done; intros c [= <-]; exact Hd). assert (Ht1 : timer_ok st1) by done.
  destruct (kthread_inv st1 HI1 Ht1) as (HI2 & Ht2 & [b Hf] & _). destruct (__clocksource_watchdog_kthread st1) as [st2 sel]. cbn [fst] in *. pose proof (tf_list _ _ Hf : forall x, x ∈ clocksource_list st2 <-> _) as Hl2.
  split; [by apply select_inv|]. split; [by apply select_timer|]. intros x. unfold clocksource_select. by rewrite (sf_list _ _ (select_frame st2 false)), Hl2.
Qed.

Lemma watchdog_kthread_inv st : reg_inv st -> timer_ok st ->
  reg_inv (clocksource_watchdog_kthread st) /\ timer_ok (clocksource_watchdog_kthread st) /\ forall x, x ∈ clocksource_list (clocksource_watchdog_kthread st) <-> x ∈ clocksource_list st.
Proof using Type.
  intros HI Ht. unfold clocksource_watchdog_kthread. destruct (kthread_inv st HI Ht) as (HI2 & Ht2 & [b Hf] & _). destruct (__clocksource_watchdog_kthread st) as [st2 sel]. cbn [fst] in *.
  pose proof (tf_list _ _ Hf : forall x, x ∈ clocksource_list st2 <-> _) as Hl2.
  destruct sel; [|done]. split; [by apply select_inv|]. split; [by apply select_timer|]. intros x. unfold clocksource_select. by rewrite (sf_list _ _ (select_frame st2 false)), Hl2.
Qed.

Lemma change_rating_all_inv st cs r : reg_inv st -> timer_ok st -> cs ∈ clocksource_list st ->
  reg_inv (clocksource_change_rating st cs r) /\ timer_ok (clocksource_change_rating st cs r) /\ forall x, x ∈ clocksource_list (clocksource_change_rating st cs r) <-> x ∈ clocksource_list st.
Proof using Type.
  intros HI Ht Hin. unfold clocksource_change_rating. cbv zeta. destruct (change_rating_inv st cs r HI Hin) as (HI1 & Hl1 & Hwl1 & Hw1 & Hr1 & _). set (st1 := __clocksource_change_rating st cs r) in *.
  assert (Ht1 : timer_ok st1) by (unfold timer_ok; by rewrite Hwl1, Hw1, Hr1). pose proof (select_inv st1 false HI1) as HI2. pose proof (select_timer st1 false Ht1) as Ht2.
  pose proof (sf_list _ _ (select_frame st1 false)) as Hl2. fold (clocksource_select st1) in *. set (st2 := clocksource_select st1) in *.
  destruct (select_watchdog_inv st2 false HI2) as (HI3 & Ht3 & Hl3 & _); [intros Hr; by apply Ht2|]. set (st3 := clocksource_select_watchdog st2 false) in *.
  pose proof (suspend_select_inv st3 false HI3) as HI4. destruct (suspend_select_eq st3 false) as (c & Hc & _). rewrite Hc in *. split; [done|]. split; [done|]. intros x.
  change (x ∈ clocksource_list st3 <-> x ∈ clocksource_list st). by rewrite Hl3, Hl2.
Qed.

(** ** Sequences of operations *)

(** Drivers register a counter once, and mark as unstable only counters that are to be
    verified or not registered; a counter that is not registered belongs to its driver. *)
Inductive cstep (st : cstate) : cstate -> Prop :=
| cs_driver cs c : cs ∉ clocksource_list st -> cstep st (put st cs c)
| cs_register cs scale freq st' : cs ∉ clocksource_list st -> __clocksource_register_scale st cs scale freq = Done st' -> cstep st st'
| cs_unregister cs ret st' : clocksource_unregister st cs = (ret, st') -> cstep st st'
| cs_change_rating cs r : cs ∈ clocksource_list st -> cstep st (clocksource_change_rating st cs r)
| cs_mark_unstable cs : must_verify st cs = true \/ cs ∉ clocksource_list st -> cstep st (clocksource_mark_unstable st cs)
| cs_timer st' : clocksource_watchdog st = Done st' -> cstep st st'
| cs_thread : work st = true -> cstep st (clocksource_watchdog_kthread (set_work st false))
| cs_booted : finished_booting st = false -> clocksource_default_clock ∈ clocksource_list st -> cstep st (clocksource_done_booting st)
| cs_choose buf count ret st' : current_clocksource_store st buf count = (ret, st') -> cstep st st'
| cs_unbind buf count ret st' : unbind_clocksource_store st buf count = (ret, st') -> cstep st st'
| cs_boot_override s : cstep st (boot_override_clocksource st s)
| cs_suspend : cstep st (clocksource_suspend st)
| cs_resume : cstep st (clocksource_resume st)
| cs_touch : cstep st (clocksource_touch_watchdog st)
| cs_start_timing cs n : cstep st (clocksource_start_suspend_timing st cs n)
| cs_stop_timing cs n nsec st' : clocksource_stop_suspend_timing st cs n = (nsec, st') -> cstep st st'
| cs_env e : cstep st (set_env st e).

(** Before the first registration. *)
Definition empty_registry (st : cstate) : Prop :=
  clocksource_list st = [] /\ watchdog_list st = [] /\ curr_clocksource st = None /\ suspend_clocksource st = None /\ watchdog st = None /\ watchdog_running st = false.

Lemma empty_inv st : empty_registry st -> reg_inv st /\ timer_ok st.
Proof using Type.
  intros (H1 & H2 & H3 & H4 & H5 & H6). split.
  - split; rewrite ?H1, ?H2, ?H3, ?H4, ?H5; [constructor|constructor|constructor|by intros x Hx%elem_of_nil|by intros x Hx%elem_of_nil|done|done|done].
  - unfold timer_ok. rewrite H2, H5, H6. split; [done|]. by intros [].
Qed.

Lemma same_step st st' : reg_same st st' -> reg_inv st -> timer_ok st -> reg_inv st' /\ timer_ok st'.
Proof using Type. intros Hs HI Ht. split; [by apply (reg_same_inv st)|by apply (reg_same_timer st)]. Qed.

Lemma start_timing_same st cs n : reg_same st (clocksource_start_suspend_timing st cs n).
Proof using Type.
  unfold clocksource_start_suspend_timing. destruct (suspend_clocksource st) as [s|]; [|reflexivity]. destruct (clocksource_is_suspend st cs); [apply same_start|]. destruct (enable _ _) as [[] e]; [apply same_env|].
  destruct (read _ _) as [v e2]. etransitivity; [apply same_env|]. etransitivity; [apply same_env|apply same_start].
Qed.

Lemma stop_timing_same st cs n nsec st' : clocksource_stop_suspend_timing st cs n = (nsec, st') -> reg_same st st'.
Proof using Type.
  unfold clocksource_stop_suspend_timing. destruct (suspend_clocksource st) as [s|]; [|intros [= _ <-]; reflexivity]. destruct (if clocksource_is_suspend st cs then _ else _) as [now e].
  intros [= _ <-]. destruct (negb _); [etransitivity; [apply same_env|apply same_env]|apply same_env].
Qed.

Lemma cstep_inv st st' : reg_inv st -> timer_ok st -> cstep st st' -> reg_inv st' /\ timer_ok st'.
Proof using Type.
  intros HI Ht Hst. destruct Hst as [cs c Hout|cs scale freq st' Hout Hr|cs ret st' Hr|cs r Hin|cs Hc|st' Hr|Hw|Hb Hd|buf count ret st' Hr|buf count ret st' Hr|s| | | |cs n|cs n nsec st' Hr|e].
  - split; [by apply put_outside|done].
  - by destruct (register_inv st cs scale freq st' HI Ht Hout Hr) as (? & ? & _).
  - unfold clocksource_unregister in Hr. destruct (on_list st cs); [|by injection Hr as _ <-]. by destruct (unbind_inv st cs ret st' HI Ht Hr) as (? & ? & _).
  - by destruct (change_rating_all_inv st cs r HI Ht Hin) as (? & ? & _).
  - by destruct (mark_unstable_inv st cs HI Ht Hc) as (? & ? & _).
  - destruct (watchdog_timer_ok st HI Ht) as (st1 & Hr1 & Hs). rewrite Hr in Hr1. injection Hr1 as <-. by apply (same_step st).
  - destruct (same_step st (set_work st false) (same_work _ _) HI Ht) as [HI1 Ht1]. by destruct (watchdog_kthread_inv _ HI1 Ht1) as (? & ? & _).
  - by destruct (done_booting_inv st HI Ht Hd) as (? & ? & _).
  - unfold current_clocksource_store in Hr. destruct (sysfs_get_uname buf count) as [r [s|]]; injection Hr as _ <-; [|done].
    destruct (same_step st (set_override st s) (same_override _ _) HI Ht) as [HI1 Ht1]. split; [by apply select_inv|by apply select_timer].
  - unfold unbind_clocksource_store in Hr. destruct (sysfs_get_uname buf count) as [r [s|]]; [|by injection Hr as _ <-]. destruct (filter _ _) as [|cs l]; [by injection Hr as _ <-|].
    destruct (clocksource_unbind st cs) as [r1 st1] eqn:Hu. injection Hr as _ <-. by destruct (unbind_inv st cs r1 st1 HI Ht Hu) as (? & ? & _).
  - destruct s; [by apply (same_step st); [apply same_override|..]|done].
  - apply (same_step st); [|done|done]. apply same_foldl. intros. apply same_env.
  - apply (same_step st); [|done|done]. etransitivity; [|apply same_reset]. apply same_foldl. intros. apply same_env.
  - apply (same_step st); [apply same_reset|done|done].
  - apply (same_step st); [apply start_timing_same|done|done].
  - apply (same_step st); [by eapply stop_timing_same|done|done].
  - apply (same_step st); [apply same_env|done|done].
Qed.

Lemma clocksource_registry_inv st0 st : empty_registry st0 -> rtc cstep st0 st -> reg_inv st /\ timer_ok st.
Proof using Type. intros H1 Hr. apply empty_inv in H1. induction Hr as [|a b c Hs _ IH]; [done|]. apply IH. destruct H1. by apply (cstep_inv a). Qed.

(** C17: Over any sequence of registrations, removals, changes of rating, marks (of registered counters only those that are
    to be verified are marked), choices of user space, suspend cycles, runs of the watchdog timer and of its thread, the list of counters is sorted by rating without duplicates; the
    current counter, the watchdog and the suspend counter are registered, the watchdog needs no
    verification and the suspend counter does not stop; counters to be verified are watched or unstable,
    and nothing else is watched; the timer runs just when there is something to watch, and never meets a missing watchdog;
    a counter that was taken back with success is not referred to any more. *)
Theorem clocksource_registry_safe st0 st : empty_registry st0 -> rtc cstep st0 st ->
  reg_inv st /\ timer_ok st /\ (exists st', clocksource_watchdog st = Done st') /\
  (forall cs st', cs ∈ clocksource_list st -> clocksource_unregister st cs = (0, st') -> unused st' cs /\ (cs ∉ clocksource_list st') /\ (cs ∉ watchdog_list st')).
Proof using Type.
  intros H1 Hr. destruct (clocksource_registry_inv st0 st H1 Hr) as [HI Ht]. split; [done|]. split; [done|]. split; [destruct (watchdog_timer_ok st HI Ht) as (st' & ? & _); by exists st'|].
  intros cs st' Hin. unfold clocksource_unregister, on_list. rewrite bool_decide_true by done. intros Hu. destruct (unbind_inv st cs 0 st' HI Ht Hu) as (_ & _ & [(_ & ? & ? & ? & _)|[? _]]); done.
Qed.
End Props.

(** ** Which counter is used *)
Section Best.
Context `{ClockMath} `{ClockHw}.

(** A counter that timekeeping can use in the present mode of the tick. *)
Definition usable (st : cstate) (cs : Z) : Prop := cs ∈ clocksource_list st /\ (tick_oneshot_mode_active (env st) = true -> has (clocks st cs) CLOCK_SOURCE_VALID_FOR_HRES = true).

(** Timekeeping accepts the counter. *)
Definition accepts (st : cstate) (cs : Z) : Prop := (timekeeping_notify (env st) cs).1 = 0.

Lemma find_best_spec st l : StronglySorted (fun a b => rating_of st b <= rating_of st a) l -> let o := tick_oneshot_mode_active (env st) in
  match find_best st o false l with
  | Some b => b ∈ l /\ (o = true -> has (clocks st b) CLOCK_SOURCE_VALID_FOR_HRES = true) /\
      forall x, x ∈ l -> (o = true -> has (clocks st x) CLOCK_SOURCE_VALID_FOR_HRES = true) -> rating_of st x <= rating_of st b
  | None => forall x, x ∈ l -> o = true /\ has (clocks st x) CLOCK_SOURCE_VALID_FOR_HRES = false
  end.
Proof using Type.
  cbv zeta. set (o := tick_oneshot_mode_active (env st)). induction 1 as [|y l Hs IH Hf]; cbn [find_best andb]; [by intros x Hx%elem_of_nil|].
  destruct (o && negb (has (clocks st y) CLOCK_SOURCE_VALID_FOR_HRES)) eqn:E.
  - apply andb_true_iff in E as [Eo Ev]. apply negb_true_iff in Ev. destruct (find_best st o false l) as [b|].
    + destruct IH as (Hb & Hu & Hmax). split; [by apply list_elem_of_further|]. split; [done|]. intros x Hx Hux. apply elem_of_cons in Hx as [->|Hx]; [|by apply Hmax]. rewrite Hux in Ev by done. done.
    + intros x Hx. apply elem_of_cons in Hx as [->|Hx]; [done|by apply IH].
  - split; [apply list_elem_of_here|]. split; [intros Ho; rewrite Ho in E; by apply negb_false_iff in E|]. intros x Hx _. apply elem_of_cons in Hx as [->|Hx]; [lia|].
    rewrite list.Forall_forall in Hf. by apply Hf.
Qed.

(** Without a choice of the user. *)
Lemma select_best_ok st : reg_inv st -> finished_booting st = true -> override_name st = [] -> (forall cs, cs ∈ clocksource_list st -> accepts st cs) -> (exists x, usable st x) ->
  exists b, curr_clocksource (clocksource_select st) = Some b /\ usable st b /\ forall x, usable st x -> rating_of st x <= rating_of st b.
Proof using Type.
  intros HI Hb Ho Hacc [x0 Hx0]. pose proof (find_best_spec st (clocksource_list st) (ri_sorted _ HI)) as Hf. cbv zeta in Hf. unfold clocksource_select, __clocksource_select, clocksource_find_best. rewrite Hb. cbn [negb orb].
  rewrite bool_decide_false by (intros Hnil; destruct Hx0 as [Hin _]; rewrite Hnil in Hin; by apply elem_of_nil in Hin).
  destruct (find_best st _ false (clocksource_list st)) as [b|]; [|destruct Hx0 as [Hin Hu]; destruct (Hf x0 Hin) as [H1 H2]; rewrite Hu in H2 by done; done].
  destruct Hf as (Hin & Hu & Hmax). rewrite Ho, bool_decide_true by done. exists b. split; [|split; [by split|intros x [Hx Hux]; by apply Hmax]].
  destruct (bool_decide_reflect (curr_clocksource st = Some b)) as [|Hne]; [done|]. pose proof (Hacc b Hin) as Ha. unfold accepts in Ha. destruct (timekeeping_notify (env st) b) as [ret e]. cbn [fst] in Ha. by rewrite Ha.
Qed.

(** With one. *)
Lemma select_override_ok st cs : reg_inv st -> finished_booting st = true -> override_name st <> [] -> find_override st false (clocksource_list st) = Some cs -> usable st cs -> accepts st cs ->
  curr_clocksource (clocksource_select st) = Some cs.
Proof using Type.
  intros HI Hb Ho Hf Hu Ha. pose proof (find_best_spec st (clocksource_list st) (ri_sorted _ HI)) as Hbest. cbv zeta in Hbest. unfold clocksource_select, __clocksource_select, clocksource_find_best. rewrite Hb. cbn [negb orb].
  destruct Hu as [Hin Hv]. rewrite bool_decide_false by (intros Hnil; rewrite Hnil in Hin; by apply elem_of_nil in Hin).
  destruct (find_best st _ false (clocksource_list st)) as [b|]; [|destruct (Hbest cs Hin) as [H1 H2]; rewrite Hv in H2 by done; done].
  rewrite bool_decide_false, Hf by done. assert (Hok : negb (has (clocks st cs) CLOCK_SOURCE_VALID_FOR_HRES) && tick_oneshot_mode_active (env st) = false).
  { destruct (tick_oneshot_mode_active (env st)); [by rewrite Hv|by rewrite andb_false_r]. }
  rewrite Hok. destruct (bool_decide_reflect (curr_clocksource st = Some cs)) as [|Hne]; [done|]. unfold accepts in Ha. destruct (timekeeping_notify (env st) cs) as [ret e]. cbn [fst] in Ha. by rewrite Ha.
Qed.

(** C22: When the system has booted and the timekeeping code accepts every registered counter: if the user asked for no
    counter, a choice installs one with the highest rating of those that can be used in the mode of the tick; if the
    user asked for a counter and the first one with the name can be used, it installs that one; and if the user asked for
    none, then after a run of the watchdog thread a watched counter that was unstable is not watched, has the rating 0 and is not
    current, provided that another counter is stable, can be used and has a rating above 0. *)
Theorem clocksource_select_best st0 st : empty_registry st0 -> rtc cstep st0 st -> finished_booting st = true -> (forall cs, cs ∈ clocksource_list st -> accepts st cs) ->
  (override_name st = [] -> (exists x, usable st x) ->
    exists b, curr_clocksource (clocksource_select st) = Some b /\ usable st b /\ forall x, usable st x -> rating_of st x <= rating_of st b) /\
  (forall cs, override_name st <> [] -> find_override st false (clocksource_list st) = Some cs -> usable st cs -> curr_clocksource (clocksource_select st) = Some cs) /\
  (forall cs x, override_name st = [] -> cs ∈ watchdog_list st -> unstable st cs = true -> usable st x -> unstable st x = false -> 0 < rating_of st x ->
    let st' := clocksource_watchdog_kthread st in (cs ∉ watchdog_list st') /\ rating_of st' cs = 0 /\ curr_clocksource st' <> Some cs).
Proof using Type.
  intros H1 Hr Hb Hacc. destruct (clocksource_registry_inv st0 st H1 Hr) as [HI Ht]. split; [intros Ho; by apply select_best_ok|]. split.
  - intros cs Ho Hf Hu. apply select_override_ok; try done. apply Hacc, Hu.
  - intros cs x Ho Hin Hun Hux Hst Hpos. cbv zeta. unfold clocksource_watchdog_kthread. destruct (kthread_inv st HI Ht) as (HI2 & Ht2 & [b Hf] & Hw). destruct (__clocksource_watchdog_kthread st) as [st2 sel].
    cbn [fst snd] in *. destruct (Hw cs Hin Hun) as (Hout & Hz & ->). destruct Hf as [F1 F2 F3 F4 F5 F6 F7 F8 F9 F10].
    cbn [set_watchdog clocksource_list watchdog_list env override_name finished_booting clocks] in *.
    assert (Hx2 : usable st2 x) by (destruct Hux as [Hxin Hxv]; split; [by apply F1|]; rewrite F9, F7 by done; exact Hxv).
    assert (Hrx : rating_of st2 x = rating_of st x) by (by apply F8).
    destruct (select_best_ok st2 HI2) as (best & Hc & Hbu & Hmax); [congruence|congruence|intros y Hy; unfold accepts; rewrite F9; by apply Hacc, F1|by exists x|].
    pose proof (select_frame st2 false) as [K1 K2 K3 _ _ _ _]. fold (clocksource_select st2) in *. split; [by rewrite K3|]. split; [unfold rating_of; by rewrite (kp_rating _ _ (K1 cs))|].
    rewrite Hc. intros [= ->]. pose proof (Hmax x Hx2). lia.
Qed.
End Best.
