(* ===== verification/ClocksourceScale.v ===== *)
(** * Clock sources: multipliers and shifts

    The factors by which cycles become nanoseconds: exact to half a unit, as precise as the
    range allows, and without overflow. *)

From S2P Require Import Prelude TimeConv Clocksource.
#[local] Open Scope Z_scope.

Class ClockMathSpec `{ClockMath} : Prop := {
  do_div_ok a b : 0 <= a < 2 ^ 64 -> 0 < b < 2 ^ 32 -> do_div a b = a / b;
  mul_u64_u32_shr_ok a m s : 0 <= a < 2 ^ 64 -> 0 <= m < 2 ^ 32 -> 0 <= s <= 32 -> mul_u64_u32_shr a m s = u64 (Z.shiftr (a * m) s);
}.

Lemma u64_s64 z : u64 (s64 z) = u64 z.
Proof. unfold u64, s64. rewrite Zminus_mod_idemp_l. f_equal. lia. Qed.

Section Scale.
Context `{ClockMath} `{!ClockMathSpec}.

(** ** The range *)

(** [L] is the number of bits of [tmp]. *)
Lemma sftacc_loop_ok fuel : forall tmp acc k, 0 <= k <= acc -> acc < 2 ^ 32 -> 0 <= tmp < 2 ^ k -> (Z.to_nat k < fuel)%nat ->
  exists L, 0 <= L <= k /\ sftacc_loop fuel tmp acc = Done (acc - L) /\ tmp < 2 ^ L /\ (0 < L -> 2 ^ (L - 1) <= tmp).
Proof using Type.
  induction fuel as [|fuel IH]; intros tmp acc k Hk Hacc Ht Hf; [lia|]. cbn [sftacc_loop]. unfold bool_of. destruct (Z.eqb_spec tmp 0) as [->|Hne]; cbn [negb].
  - exists 0. split; [lia|]. split; [f_equal; lia|]. split; [done|lia].
  - assert (Hk1 : 1 <= k) by (destruct (Z.le_gt_cases 1 k); [done|]; assert (k = 0) as -> by lia; change (2 ^ 0) with 1 in Ht; lia).
    assert (H2k : 2 ^ k = 2 * 2 ^ (k - 1)) by (rewrite <- Z.pow_succ_r by lia; f_equal; lia). rewrite Z.shiftr_div_pow2 by lia. change (2 ^ 1) with 2. rewrite u32_small by lia.
    destruct (IH (tmp / 2) (acc - 1) (k - 1)) as (L & HL & -> & Hlt & Hge); [lia|lia|Z.to_euclidean_division_equations; lia|lia|].
    assert (H2L : 2 ^ (L + 1) = 2 * 2 ^ L) by (rewrite Z.pow_add_r by lia; lia).
    exists (L + 1). split; [lia|]. split; [f_equal; lia|]. split; [Z.to_euclidean_division_equations; lia|]. intros _. replace (L + 1 - 1) with L by lia.
    destruct (Z.le_gt_cases L 0) as [HL0|HL0]; [assert (L = 0) as -> by lia; change (2 ^ 0) with 1; lia|]. specialize (Hge HL0).
    assert (2 ^ L = 2 * 2 ^ (L - 1)) by (rewrite <- Z.pow_succ_r by lia; f_equal; lia). Z.to_euclidean_division_equations. lia.
Qed.

(** ** The factor for a shift *)
Definition factor (from to s : Z) : Z := (to * 2 ^ s + from / 2) / from.

Lemma factor_code from to s : 0 < from < 2 ^ 32 -> 0 < to < 2 ^ 32 -> 0 <= s <= 32 -> do_div (u64 (u64 (Z.shiftl to s) + from / 2)) from = factor from to s.
Proof using Type*.
  intros Hf Ht Hs. assert (0 < 2 ^ s <= 2 ^ 32) by (split; [apply Z.pow_pos_nonneg; lia|apply Z.pow_le_mono_r; lia]). rewrite Z.shiftl_mul_pow2 by lia. assert (0 <= from / 2 < 2 ^ 31) by (Z.to_euclidean_division_equations; lia).
  assert (0 <= to * 2 ^ s <= (2 ^ 32 - 1) * 2 ^ 32) by (split; [nia|apply Z.mul_le_mono_nonneg; lia]).
  rewrite (u64_small (to * 2 ^ s)), u64_small by (unfold is_u64; lia). apply do_div_ok; lia.
Qed.

Lemma factor_round from to s : 0 < from -> 0 <= to -> 0 <= s -> 0 <= factor from to s /\ 2 * Z.abs (factor from to s * from - to * 2 ^ s) <= from.
Proof using Type.
  intros Hf Ht Hs. assert (0 < 2 ^ s) by (apply Z.pow_pos_nonneg; lia). unfold factor. pose proof (Z.div_mod (to * 2 ^ s + from / 2) from ltac:(lia)). pose proof (Z.mod_pos_bound (to * 2 ^ s + from / 2) from ltac:(lia)).
  assert (0 <= from / 2 /\ from - 1 <= 2 * (from / 2) <= from) by (Z.to_euclidean_division_equations; lia). split; [apply Z.div_pos; nia|]. nia.
Qed.

(** The first shift, from above, whose factor is small enough. *)
Lemma shift_loop_ok from to acc : 0 < from < 2 ^ 32 -> 0 < to < 2 ^ 32 -> 0 <= acc -> factor from to 1 < 2 ^ acc -> forall n tmp, (1 <= n <= 32)%nat ->
  exists s, 1 <= s <= Z.of_nat n /\ shift_loop n tmp from to acc = (factor from to s, s) /\ factor from to s < 2 ^ acc /\ forall s', s < s' <= Z.of_nat n -> 2 ^ acc <= factor from to s'.
Proof using Type*.
  intros Hf Ht Ha H1. induction n as [|n IH]; intros tmp Hn; [lia|]. cbn [shift_loop]. rewrite factor_code by lia. destruct (factor_round from to (Z.of_nat (S n)) ltac:(lia) ltac:(lia) ltac:(lia)) as [Hpos _].
  rewrite Z.shiftr_div_pow2 by lia. assert (0 < 2 ^ acc) by (apply Z.pow_pos_nonneg; lia). destruct (Z.eqb_spec (factor from to (Z.of_nat (S n)) / 2 ^ acc) 0) as [He|He].
  - apply Z.div_small_iff in He; [|lia]. exists (Z.of_nat (S n)). split; [lia|]. split; [done|]. split; [lia|]. intros s' Hs'. lia.
  - assert (Hbig : 2 ^ acc <= factor from to (Z.of_nat (S n))) by (destruct (Z.le_gt_cases (2 ^ acc) (factor from to (Z.of_nat (S n)))); [done|]; rewrite Z.div_small in He by lia; done).
    destruct n as [|n]; [change (Z.of_nat 1) with 1 in Hbig; lia|]. destruct (IH (factor from to (Z.of_nat (S (S n)))) ltac:(lia)) as (s & Hs & Heq & Hlt & Hmax). exists s. split; [lia|]. split; [exact Heq|].
    split; [done|]. intros s' Hs'. destruct (decide (s' = Z.of_nat (S (S n)))) as [->|]; [done|]. apply Hmax. lia.
Qed.

Lemma factor_mono from to s s' : 0 < from -> 0 <= to -> 0 <= s <= s' -> factor from to s <= factor from to s'.
Proof using Type.
  intros Hf Ht Hs. unfold factor. apply Z.div_le_mono; [lia|]. apply Z.add_le_mono_r, Z.mul_le_mono_nonneg_l; [lia|]. apply Z.pow_le_mono_r; lia.
Qed.

(** None is: the factor of the last turn stays, and the shift is counted down once more. *)
Lemma shift_loop_none from to acc : 0 < from < 2 ^ 32 -> 0 < to < 2 ^ 32 -> 0 <= acc -> 2 ^ acc <= factor from to 1 -> forall n tmp, (1 <= n <= 32)%nat ->
  shift_loop n tmp from to acc = (factor from to 1, 0).
Proof using Type*.
  intros Hf Ht Ha H1. assert (0 < 2 ^ acc) by (apply Z.pow_pos_nonneg; lia). induction n as [|n IH]; intros tmp Hn; [lia|]. cbn [shift_loop]. rewrite factor_code by lia.
  pose proof (factor_mono from to 1 (Z.of_nat (S n)) ltac:(lia) ltac:(lia) ltac:(lia)). rewrite Z.shiftr_div_pow2 by lia.
  destruct (Z.eqb_spec (factor from to (Z.of_nat (S n)) / 2 ^ acc) 0) as [He|_]; [apply Z.div_small_iff in He; lia|]. destruct n as [|n]; [done|]. apply IH. lia.
Qed.

(** ** The limit of the factor *)
Definition bits (x : Z) : Z := if x =? 0 then 0 else Z.log2 x + 1.
(** A factor below it converts [maxsec] seconds within 64 bits: there are as many bits less than 32 as the cycles have
    more than 32. *)
Definition factor_limit (from maxsec : Z) : Z := 2 ^ (32 - bits (maxsec * from / 2 ^ 32)).

Lemma bits_unique x L : 0 <= x < 2 ^ L -> 0 <= L -> (0 < L -> 2 ^ (L - 1) <= x) -> bits x = L.
Proof using Type.
  intros Hx HL Hge. unfold bits. destruct (Z.eqb_spec x 0) as [->|Hne].
  - destruct (Z.le_gt_cases L 0); [lia|]. specialize (Hge ltac:(lia)). assert (0 < 2 ^ (L - 1)) by (apply Z.pow_pos_nonneg; lia). lia.
  - destruct (Z.le_gt_cases L 0) as [HL0|HL0]; [assert (L = 0) as -> by lia; change (2 ^ 0) with 1 in Hx; lia|].
    rewrite (Z.log2_unique x (L - 1)); [lia|lia|]. replace (Z.succ (L - 1)) with L by lia. specialize (Hge HL0). lia.
Qed.

Lemma sftacc_ok from maxsec : 0 < from < 2 ^ 32 -> 0 <= maxsec < 2 ^ 32 -> exists acc, 0 <= acc <= 32 /\
  sftacc_loop bits_fuel (maxsec * from / 2 ^ 32) 32 = Done acc /\ factor_limit from maxsec = 2 ^ acc /\ maxsec * from * 2 ^ acc < 2 ^ 64 /\
  (acc < 32 -> 2 ^ 63 <= maxsec * from * 2 ^ acc).
Proof using Type.
  intros Hf Hm. set (R := maxsec * from). assert (HR : 0 <= R < 2 ^ 64) by (subst R; nia).
  destruct (sftacc_loop_ok bits_fuel (R / 2 ^ 32) 32 32) as (L & HL & Hrun & Hlt & Hge); [lia|lia|Z.to_euclidean_division_equations; lia|unfold bits_fuel; lia|].
  exists (32 - L). split; [lia|]. split; [exact Hrun|]. assert (Hq : 0 <= R / 2 ^ 32) by (apply Z.div_pos; lia).
  split; [unfold factor_limit; fold R; rewrite (bits_unique (R / 2 ^ 32) L); [done|lia|lia|done]|].
  pose proof (Z.div_mod R (2 ^ 32) ltac:(lia)) as Hdm. pose proof (Z.mod_pos_bound R (2 ^ 32) ltac:(lia)) as Hmb. assert (Hp : 0 < 2 ^ (32 - L)) by (apply Z.pow_pos_nonneg; lia). split.
  - assert (HRL : R < 2 ^ (32 + L)) by (rewrite Z.pow_add_r by lia; lia). replace (2 ^ 64) with (2 ^ (32 + L) * 2 ^ (32 - L)) by (rewrite <- Z.pow_add_r by lia; f_equal; lia). by apply Z.mul_lt_mono_pos_r.
  - intros Hacc. specialize (Hge ltac:(lia)). assert (HRge : 2 ^ (31 + L) <= R) by (replace (31 + L) with (32 + (L - 1)) by lia; rewrite Z.pow_add_r by lia; lia).
    replace (2 ^ 63) with (2 ^ (31 + L) * 2 ^ (32 - L)) by (rewrite <- Z.pow_add_r by lia; f_equal; lia). apply Z.mul_le_mono_nonneg_r; lia.
Qed.

(** Any factor that is not below the limit is too large, up to one bit. *)
Lemma factor_limit_ok from maxsec f : 0 < from < 2 ^ 32 -> 0 <= maxsec < 2 ^ 32 -> 0 <= f ->
  (f < factor_limit from maxsec -> f < 2 ^ 32 /\ forall cycles, 0 <= cycles <= maxsec * from -> cycles * f < 2 ^ 64) /\
  (factor_limit from maxsec <= f -> 2 ^ 32 <= f \/ 2 ^ 63 <= maxsec * from * f).
Proof using Type.
  intros Hf Hm Hf0. destruct (sftacc_ok from maxsec Hf Hm) as (acc & Ha & _ & -> & Hlt & Hge). assert (H32 : 2 ^ acc <= 2 ^ 32) by (apply Z.pow_le_mono_r; lia). split.
  - intros Hlim. split; [lia|]. intros cycles Hc. assert (cycles * f <= maxsec * from * 2 ^ acc) by (apply Z.mul_le_mono_nonneg; lia). lia.
  - intros Hlim. destruct (Z.eq_dec acc 32) as [->|Hne]; [by left|right]. specialize (Hge ltac:(lia)). assert (maxsec * from * 2 ^ acc <= maxsec * from * f) by (apply Z.mul_le_mono_nonneg_l; [nia|lia]). lia.
Qed.

Lemma mult_shift_cases from to maxsec : 0 < from < 2 ^ 32 -> 0 < to < 2 ^ 32 -> 0 <= maxsec < 2 ^ 32 ->
  exists mult shift, clocks_calc_mult_shift from to maxsec = Done (mult, shift) /\
    (factor from to 1 < factor_limit from maxsec -> 1 <= shift <= 32 /\ mult = factor from to shift /\ mult < factor_limit from maxsec /\
       forall s, shift < s <= 32 -> factor_limit from maxsec <= factor from to s) /\
    (factor_limit from maxsec <= factor from to 1 -> shift = 0 /\ mult = u32 (factor from to 1)).
Proof using Type*.
  intros Hf Ht Hm. destruct (sftacc_ok from maxsec Hf Hm) as (acc & Ha & Hrun & -> & _). assert (H32 : 2 ^ acc <= 2 ^ 32) by (apply Z.pow_le_mono_r; lia).
  unfold clocks_calc_mult_shift. rewrite u64_small by (unfold is_u64; nia). rewrite Z.shiftr_div_pow2 by lia. rewrite Hrun. cbn [mbind outcome_bind].
  destruct (Z.le_gt_cases (2 ^ acc) (factor from to 1)) as [Hbig|Hfit].
  - rewrite (shift_loop_none from to acc) by lia. eexists _, _. split; [done|]. split; [lia|done].
  - destruct (shift_loop_ok from to acc Hf Ht ltac:(lia) ltac:(lia) 32 (maxsec * from / 2 ^ 32) ltac:(lia)) as (s & Hs & -> & Hlt & Hmax). destruct (factor_round from to s ltac:(lia) ltac:(lia) ltac:(lia)) as [Hp _].
    rewrite u32_small by lia. eexists _, s. split; [done|]. split; [|lia]. intros _. split; [lia|]. split; [done|]. split; [lia|]. intros s' Hs'. apply Hmax. lia.
Qed.

(** Ranges for which a shift is found. *)
Lemma shift_one_fits from to maxsec : 0 < from < 2 ^ 32 -> 0 < to < 2 ^ 31 -> 0 <= maxsec < 2 ^ 32 -> maxsec * from < 2 ^ 32 \/ maxsec * to < 2 ^ 60 -> maxsec * from < 2 ^ 63 ->
  factor from to 1 < factor_limit from maxsec /\ 2 <= factor_limit from maxsec.
Proof using Type*.
  intros Hf Ht Hm Hmt Hmf. destruct (sftacc_ok from maxsec Hf Hm) as (acc & Ha & _ & -> & Hlt & Hge). set (R := maxsec * from) in *.
  assert (H1 : 1 <= acc). { destruct (Z.le_gt_cases 1 acc); [done|]. specialize (Hge ltac:(lia)). assert (acc = 0) as -> by lia. change (2 ^ 0) with 1 in *. lia. }
  assert (H2a : 2 <= 2 ^ acc <= 2 ^ 32) by (split; [change 2 with (2 ^ 1) at 1|]; apply Z.pow_le_mono_r; lia). split; [|lia].
  unfold factor. apply Z.div_lt_upper_bound; [lia|]. assert (2 * (from / 2) <= from) by (Z.to_euclidean_division_equations; lia). destruct (Z.eq_dec acc 32) as [->|Hne]; [nia|].
  specialize (Hge ltac:(lia)). destruct Hmt as [Hsmall|Hmt].
  - exfalso. assert (2 ^ acc <= 2 ^ 31) by (apply Z.pow_le_mono_r; lia). nia.
  - assert (Hprod : 2 ^ 63 <= maxsec * (from * 2 ^ acc)) by (subst R; nia). assert (0 < maxsec) by nia. nia.
Qed.

Lemma mult_shift_ok from to maxsec : 0 < from < 2 ^ 32 -> 0 < to < 2 ^ 31 -> 0 <= maxsec < 2 ^ 32 -> maxsec * from < 2 ^ 32 \/ maxsec * to < 2 ^ 60 -> maxsec * from < 2 ^ 63 ->
  exists mult shift, clocks_calc_mult_shift from to maxsec = Done (mult, shift) /\ 1 <= shift <= 32 /\ 0 < mult < 2 ^ 32.
Proof using Type*.
  intros Hf Ht Hm Hmt Hmf. destruct (shift_one_fits from to maxsec Hf Ht Hm Hmt Hmf) as [H1 H2]. destruct (mult_shift_cases from to maxsec Hf ltac:(lia) Hm) as (mu & s & Hrun & Hcase & _).
  destruct (Hcase H1) as (Hs & -> & Hlt & Hmax). exists (factor from to s), s. split; [done|]. split; [done|]. destruct (factor_round from to s ltac:(lia) ltac:(lia) ltac:(lia)) as [Hp Hacc].
  destruct (factor_limit_ok from maxsec (factor from to s) Hf Hm Hp) as [Hfit _]. split; [|by apply Hfit]. destruct (Z.eq_dec s 32) as [->|Hs32].
  - unfold factor. apply Z.div_str_pos. assert (0 <= from / 2) by (apply Z.div_pos; lia). nia.
  - pose proof (Hmax (s + 1) ltac:(lia)) as Hnext. destruct (factor_round from to (s + 1) ltac:(lia) ltac:(lia) ltac:(lia)) as [_ Hacc2]. rewrite Z.pow_add_r in Hacc2 by lia.
    destruct (Z.eq_dec (factor from to s) 0) as [Hz|]; [|lia]. rewrite Hz in Hacc. assert (2 * from <= factor from to (s + 1) * from) by (apply Z.mul_le_mono_nonneg_r; lia). lia.
Qed.

(** C40: [clocks_calc_mult_shift] ends, for all 32-bit arguments with [from] and [to] above 0.  Let the limit be the power of
    two below which a multiplier has room for the cycles of [maxsec] seconds.  If the multiplier for the shift 1 is below
    it, the answer is the largest shift up to 32 whose multiplier is, with this multiplier, the nearest integer to the exact
    factor; it has at most 32 bits and converts every interval of up to [maxsec] seconds without exceeding 64 bits, and
    with any larger shift it would need more than 32 bits, or an interval would give a product of 2^63 or more.
    Otherwise the answer is the shift 0 with the multiplier for the shift 1.  The first case is that of all [to] below
    2^31 for which [maxsec] seconds are less than 2^32 cycles, or less than 2^60 units of [to] and 2^63 cycles. *)
Theorem clocks_calc_mult_shift_spec from to maxsec : 0 < from < 2 ^ 32 -> 0 < to < 2 ^ 32 -> 0 <= maxsec < 2 ^ 32 ->
  exists mult shift, clocks_calc_mult_shift from to maxsec = Done (mult, shift) /\
    (factor from to 1 < factor_limit from maxsec ->
       1 <= shift <= 32 /\ 0 <= mult < 2 ^ 32 /\ mult < factor_limit from maxsec /\ 2 * Z.abs (mult * from - to * 2 ^ shift) <= from /\
       (forall cycles, 0 <= cycles <= maxsec * from -> cycles * mult < 2 ^ 64) /\
       (forall s, shift < s <= 32 -> factor_limit from maxsec <= factor from to s /\ (2 ^ 32 <= factor from to s \/ 2 ^ 63 <= maxsec * from * factor from to s))) /\
    (factor_limit from maxsec <= factor from to 1 -> shift = 0 /\ mult = u32 (factor from to 1)) /\
    (to < 2 ^ 31 -> maxsec * from < 2 ^ 32 \/ maxsec * to < 2 ^ 60 -> maxsec * from < 2 ^ 63 -> factor from to 1 < factor_limit from maxsec /\ 0 < mult).
Proof using Type*.
  intros Hf Ht Hm. destruct (mult_shift_cases from to maxsec Hf Ht Hm) as (mu & s & Hrun & Hcase & Hnone). exists mu, s. split; [done|]. split; [|split; [done|]].
  - intros H1. destruct (Hcase H1) as (Hs & -> & Hlt & Hmax). destruct (factor_round from to s ltac:(lia) ltac:(lia) ltac:(lia)) as [Hp Hacc].
    destruct (factor_limit_ok from maxsec (factor from to s) Hf Hm Hp) as [Hfit _]. destruct (Hfit Hlt) as [H32 Hcyc]. split; [done|]. split; [lia|]. split; [done|]. split; [done|]. split; [done|].
    intros s' Hs'. pose proof (Hmax s' Hs') as Hbig. split; [done|]. assert (Hp' : 0 <= factor from to s') by (apply factor_round; lia). by apply (factor_limit_ok from maxsec (factor from to s') Hf Hm Hp').
  - intros Ht31 Hmt Hmf. split; [apply (shift_one_fits from to maxsec); [lia|lia|lia|done|done]|]. destruct (mult_shift_ok from to maxsec Hf ltac:(lia) Hm Hmt Hmf) as (mu' & s' & Hrun' & _ & Hpos). rewrite Hrun in Hrun'. injection Hrun' as -> ->. lia.
Qed.

(** ** Counters *)
Lemma max_adjustment_ok c : 0 <= mult c < 2 ^ 32 -> clocksource_max_adjustment c = mult c * 11 / 100 /\ 0 <= mult c * 11 / 100 < 2 ^ 29.
Proof using Type*.
  intros Hm. unfold clocksource_max_adjustment. rewrite u64_small by (unfold is_u64; lia). rewrite do_div_ok by lia. assert (0 <= mult c * 11 / 100 < 2 ^ 29) by (Z.to_euclidean_division_equations; lia).
  by rewrite u32_small by lia.
Qed.

(** Factors with room for the adjustments of the clock. *)
Record adjusted (c : clocksource) : Prop := {
  ad_mult : 0 < mult c /\ mult c + maxadj c < 2 ^ 32;
  ad_adj : maxadj c = mult c * 11 / 100;
}.

Lemma adjust_step fuel c : adjust_loop (S fuel) c =
  if (u32 (mult c + maxadj c) <? mult c) || (u32 (mult c - maxadj c) >? mult c) then
    let c := set_scale c (Z.shiftr (mult c) 1) (u32 (shift c - 1)) (maxadj c) in adjust_loop fuel (set_scale c (mult c) (shift c) (clocksource_max_adjustment c))
  else Done c.
Proof using Type. reflexivity. Qed.

(** One turn is enough. *)
Lemma adjust_loop_ok c : 0 < mult c < 2 ^ 32 -> 1 <= shift c <= 32 -> maxadj c = clocksource_max_adjustment c ->
  exists c', adjust_loop bits_fuel c = Done c' /\ adjusted c' /\ 0 <= shift c' <= 32 /\ mask c' = mask c.
Proof using Type*.
  intros Hm Hs Ha. destruct (max_adjustment_ok c ltac:(lia)) as [He Hb]. rewrite He in Ha. change bits_fuel with (S (S 31)). rewrite adjust_step.
  assert (Hsub : u32 (mult c - maxadj c) = mult c - maxadj c) by (apply u32_small; rewrite Ha; Z.to_euclidean_division_equations; lia).
  rewrite Hsub. rewrite (Z.gtb_ltb _ (mult c)), (proj2 (Z.ltb_ge (mult c) _)), orb_false_r by lia. destruct (Z.lt_ge_cases (mult c + maxadj c) (2 ^ 32)) as [Hfit|Hover].
  - rewrite u32_small, (proj2 (Z.ltb_ge _ _)) by lia. exists c. split; [done|]. split; [by split; [lia|]|]. split; [lia|done].
  - assert (Hw : u32 (mult c + maxadj c) = mult c + maxadj c - 2 ^ 32) by (unfold u32; rewrite <- (Z.mod_add _ (-1)), Z.mod_small by lia; lia). rewrite Hw, (proj2 (Z.ltb_lt _ _)) by lia.
    rewrite Z.shiftr_div_pow2 by lia. change (2 ^ 1) with 2. rewrite (u32_small (shift c - 1)) by lia. set (c1 := set_scale c (mult c / 2) (shift c - 1) (maxadj c)).
    assert (Hm1 : 0 < mult c1 < 2 ^ 31) by (cbn; Z.to_euclidean_division_equations; lia). destruct (max_adjustment_ok c1 ltac:(lia)) as [He1 Hb1]. cbv zeta. fold c1. rewrite He1. set (c2 := set_scale c1 (mult c1) (shift c1) (mult c1 * 11 / 100)).
    rewrite adjust_step. change (mult c2) with (mult c1). change (maxadj c2) with (mult c1 * 11 / 100). assert (Hfit : mult c1 + mult c1 * 11 / 100 < 2 ^ 32) by lia. assert (Hle : mult c1 * 11 / 100 <= mult c1) by (Z.to_euclidean_division_equations; lia).
    rewrite (u32_small (mult c1 + _)), (u32_small (mult c1 - _)) by lia. rewrite (Z.gtb_ltb (mult c1 - _)), !(proj2 (Z.ltb_ge _ _)) by lia. cbn [orb]. exists c2. split; [done|]. split; [split; [change (0 < mult c1 /\ mult c1 + mult c1 * 11 / 100 < 2 ^ 32); lia|done]|]. split; [change (0 <= shift c - 1 <= 32); lia|done].
Qed.

(** The limits of a counter whose factors are known. *)
Lemma max_deferment_ok c : adjusted c -> 0 <= shift c <= 32 -> 0 < mask c < 2 ^ 64 ->
  let c' := clocksource_update_max_deferment c in
  mult c' = mult c /\ maxadj c' = maxadj c /\ shift c' = shift c /\ 0 <= max_cycles c' <= mask c /\
  max_cycles c' * (mult c + maxadj c) < 2 ^ 64 /\ 2 * max_idle_ns c' * 2 ^ shift c <= max_cycles c' * (mult c - maxadj c).
Proof using Type*.
  intros [[Hm0 Hm1] Ha] Hs Hmask. unfold clocksource_update_max_deferment, clocks_calc_max_nsecs. assert (Hadj : 0 <= maxadj c <= mult c) by (rewrite Ha; Z.to_euclidean_division_equations; lia).
  rewrite (u32_small (mult c + _)), (u32_small (mult c - _)) by lia. rewrite do_div_ok by lia. set (M := Z.min ((2 ^ 64 - 1) / (mult c + maxadj c)) (mask c)).
  assert (HM : 0 <= M <= mask c /\ M * (mult c + maxadj c) < 2 ^ 64).
  { assert (Hd : (2 ^ 64 - 1) / (mult c + maxadj c) * (mult c + maxadj c) <= 2 ^ 64 - 1) by (rewrite Z.mul_comm; apply Z.mul_div_le; lia). assert (0 <= (2 ^ 64 - 1) / (mult c + maxadj c)) by (apply Z.div_pos; lia).
    split; [lia|]. apply (Z.le_lt_trans _ ((2 ^ 64 - 1) / (mult c + maxadj c) * (mult c + maxadj c))); [|lia]. apply Z.mul_le_mono_nonneg_r; lia. }
  clearbody M. cbn [mult maxadj shift set_limits max_cycles max_idle_ns]. split; [done|]. split; [done|]. split; [done|]. split; [lia|]. split; [lia|]. unfold clocksource_cyc2ns.
  assert (HMm : 0 <= M * (mult c - maxadj c) < 2 ^ 64) by (split; [apply Z.mul_nonneg_nonneg; lia|]; apply (Z.le_lt_trans _ (M * (mult c + maxadj c))); [apply Z.mul_le_mono_nonneg_l; lia|lia]).
  rewrite (u64_small (M * _)) by (unfold is_u64; lia). rewrite !Z.shiftr_div_pow2 by lia. set (X := M * (mult c - maxadj c)) in *. assert (Hp : 0 < 2 ^ shift c) by (apply Z.pow_pos_nonneg; lia).
  pose proof (Z.mul_div_le X (2 ^ shift c) Hp) as Hx. assert (Hy : 0 <= X / 2 ^ shift c < 2 ^ 64) by (split; [apply Z.div_pos; lia|apply Z.div_lt_upper_bound; nia]). set (y := X / 2 ^ shift c) in *. clearbody y X.
  rewrite u64_s64, u64_small by (unfold is_u64; lia). change (2 ^ 1) with 2. pose proof (Z.mul_div_le y 2 ltac:(lia)). nia.
Qed.

(** The seconds for which the factors are computed: those after which the counter wraps, one at least and ten minutes at most. *)
Lemma seconds_ok m freq scale : 0 < m < 2 ^ 64 -> 1 <= scale <= 10 ^ 6 -> 0 < freq < 2 ^ 32 ->
  let q := m / freq / scale in let sec := if negb (bool_of q) then 1 else if (q >? 600) && (m >? 2 ^ 32 - 1) then 600 else q in
  0 <= sec * scale < 2 ^ 32 /\ sec * scale * freq < 2 ^ 63 /\ (sec <= 600 \/ sec * scale * freq < 2 ^ 32).
Proof using Type.
  intros Hmask Hsc Hf. cbv zeta. set (q := m / freq / scale). assert (Hq : 0 <= m / freq) by (apply Z.div_pos; lia).
  assert (Hqs : 0 <= q /\ q * scale <= m / freq) by (subst q; split; [apply Z.div_pos; lia|]; rewrite Z.mul_comm; apply Z.mul_div_le; lia).
  assert (Hmf : m / freq * freq <= m) by (rewrite Z.mul_comm; apply Z.mul_div_le; lia). set (sec := if negb _ then _ else _).
  assert (Hsec : 1 <= sec /\ (sec <= 600 \/ sec * scale * freq < 2 ^ 32)).
  { unfold sec, bool_of. destruct (Z.eqb_spec q 0) as [|Hq0]; cbn [negb]; [lia|]. rewrite !Z.gtb_ltb.
    destruct (Z.ltb_spec 600 q), (Z.ltb_spec (2 ^ 32 - 1) m); cbn [andb]; [lia| |lia|lia]. split; [lia|]. right. assert (q * scale * freq <= m / freq * freq) by (apply Z.mul_le_mono_nonneg_r; lia). lia. }
  clearbody sec. destruct Hsec as [Hs1 Hcase]. split; [split; [nia|]; destruct Hcase; nia|]. split; [|done]. destruct Hcase as [H600|]; [|lia]. assert (sec * scale <= 600 * 10 ^ 6) by nia. nia.
Qed.

Lemma freq_factors_ok c scale freq : 0 < mask c < 2 ^ 64 -> 1 <= scale <= 10 ^ 6 -> (scale | NSEC_PER_SEC) -> 0 < freq < 2 ^ 32 ->
  exists c', freq_factors c scale freq = Done c' /\ 0 < mult c' < 2 ^ 32 /\ 1 <= shift c' <= 32 /\ mask c' = mask c.
Proof using Type*.
  intros Hmask Hsc [t Ht] Hf. destruct (seconds_ok (mask c) freq scale Hmask Hsc Hf) as (Hs1 & Hs2 & Hs3). unfold freq_factors.
  replace (bool_of freq) with true by (unfold bool_of; by rewrite (proj2 (Z.eqb_neq _ _)) by lia).
  assert (Hq : 0 <= mask c / freq < 2 ^ 64) by (split; [apply Z.div_pos; lia|apply Z.div_lt_upper_bound; nia]). rewrite (do_div_ok (mask c)), (do_div_ok (mask c / freq)) by lia.
  rewrite Ht, Z.div_mul by lia. unfold NSEC_PER_SEC in Ht. set (sec := if negb _ then _ else _) in *. clearbody sec. rewrite (u32_small (sec * scale)) by lia.
  destruct (mult_shift_ok freq t (sec * scale)) as (mu & sh & He & Hsh & Hmu); [lia|nia|lia| |lia|].
  - destruct Hs3 as [H600|?]; [right|by left]. replace (sec * scale * t) with (sec * (t * scale)) by lia. rewrite <- Ht. lia.
  - exists (set_scale c mu sh (maxadj c)). rewrite He. split; [done|]. split; [exact Hmu|]. split; [exact Hsh|done].
Qed.

(** The factors of a counter with a frequency: cycles up to [max_cycles], and no more than
    the counter has, do not overflow, not even with the largest adjustment of the clock; the time that
    may pass unobserved is at most half of that. *)
Theorem clocksource_update_freq_scale_spec c scale freq : 0 < mask c < 2 ^ 64 -> 1 <= scale <= 10 ^ 6 -> (scale | NSEC_PER_SEC) -> 0 < freq < 2 ^ 32 ->
  exists c', __clocksource_update_freq_scale c scale freq = Done c' /\ adjusted c' /\ 0 <= shift c' <= 32 /\ 0 <= max_cycles c' <= mask c /\
    (forall cycles, 0 <= cycles <= max_cycles c' -> cycles * (mult c' + maxadj c') < 2 ^ 64) /\
    2 * max_idle_ns c' * 2 ^ shift c' <= max_cycles c' * (mult c' - maxadj c').
Proof using Type*.
  intros Hmask Hsc Hd Hf. destruct (freq_factors_ok c scale freq Hmask Hsc Hd Hf) as (c0 & E0 & Hmu & Hsh & Hmk0). set (c1 := set_scale c0 (mult c0) (shift c0) (clocksource_max_adjustment c0)).
  destruct (adjust_loop_ok c1 Hmu Hsh eq_refl) as (c2 & E2 & Had & Hs & Hmk). exists (clocksource_update_max_deferment c2). split.
  - unfold __clocksource_update_freq_scale. apply bind_Done. exists c0. split; [exact E0|]. cbv zeta. fold c1. apply bind_Done. exists c2. split; [|done].
    replace (bool_of freq) with true by (unfold bool_of; by rewrite (proj2 (Z.eqb_neq _ _)) by lia). exact E2.
  - change (mask c1) with (mask c0) in Hmk. rewrite <- Hmk0, <- Hmk. rewrite <- Hmk0, <- Hmk in Hmask. destruct (max_deferment_ok c2 Had Hs Hmask) as (B1 & B2 & B3 & B4 & B5 & B6). generalize dependent (clocksource_update_max_deferment c2).
    intros c3 B1 B2 B3 B4 B5 B6. destruct Had as [D1 D2]. rewrite B3. split; [split; rewrite ?B1, ?B2; done|]. split; [done|]. split; [done|]. rewrite B1, B2. split; [|done].
    intros cycles Hc. apply (Z.le_lt_trans _ (max_cycles c3 * (mult c2 + maxadj c2))); [|done]. apply Z.mul_le_mono_nonneg_r; [|lia]. rewrite D2. assert (0 <= mult c2 * 11 / 100) by (apply Z.div_pos; lia). lia.
Qed.
End Scale.
