(* ===== verification/ClocksourceRun.v ===== *)
(** * Clock sources: configurations and runs

    A machine with three counters, one of which begins to drift, and two things the code
    does wrong. *)

From stdpp Require Import sorting relations.
From S2P Require Import Prelude Runs TimeConv Clocksource ClocksourceInv ClocksourceProps ClocksourceScale.
#[local] Open Scope Z_scope.

#[export] Instance arith : ClockMath := {|
  do_div a b := a / b;
  mul_u64_u32_shr a m s := u64 (Z.shiftr (a * m) s);
  clocksource_delta now last mask := Z.land (u64 (now - last)) mask;
  CS_NAME_LEN := 32;
|}.
#[export] Instance arith_spec : ClockMathSpec.
Proof. by split. Qed.

(** ** Steps as a function *)
Inductive clock_action := Driver (cs : Z) (c : clocksource) | Register (cs scale freq : Z) | Unregister (cs : Z) | Rate (cs r : Z) | Mark (cs : Z) | Timer | Thread | Booted | Choose (buf : list Z).

Section Exec.
Context `{ClockHw}.

Definition exec (st : cstate) (a : clock_action) : option cstate :=
  match a with
  | Driver cs c => if bool_decide (cs ∈ clocksource_list st) then None else Some (put st cs c)
  | Register cs scale freq =>
      if bool_decide (cs ∈ clocksource_list st) then None
      else match __clocksource_register_scale st cs scale freq with Done st' => Some st' | _ => None end
  | Unregister cs => Some (clocksource_unregister st cs).2
  | Rate cs r => if bool_decide (cs ∈ clocksource_list st) then Some (clocksource_change_rating st cs r) else None
  | Mark cs => if must_verify st cs then Some (clocksource_mark_unstable st cs) else None
  | Timer => match clocksource_watchdog st with Done st' => Some st' | _ => None end
  | Thread => if work st then Some (clocksource_watchdog_kthread (set_work st false)) else None
  | Booted => if negb (finished_booting st) && bool_decide (clocksource_default_clock ∈ clocksource_list st) then Some (clocksource_done_booting st) else None
  | Choose buf => Some (current_clocksource_store st buf (Z.of_nat (length buf))).2
  end.

Lemma clock_exec_step st a st' : exec st a = Some st' -> cstep st st'.
Proof using Type.
  destruct a as [cs c|cs scale freq|cs|cs r|cs| | | |buf]; cbn [exec].
  - destruct (bool_decide_reflect (cs ∈ clocksource_list st)); [done|]. intros [= <-]. by apply cs_driver.
  - destruct (bool_decide_reflect (cs ∈ clocksource_list st)); [done|]. destruct (__clocksource_register_scale st cs scale freq) eqn:Hr; [|done..]. intros [= <-]. by eapply cs_register.
  - intros [= <-]. apply (cs_unregister st cs (clocksource_unregister st cs).1). by destruct (clocksource_unregister st cs).
  - destruct (bool_decide_reflect (cs ∈ clocksource_list st)); [|done]. intros [= <-]. by apply cs_change_rating.
  - destruct (must_verify st cs) eqn:Hm; [|done]. intros [= <-]. apply cs_mark_unstable. by left.
  - destruct (clocksource_watchdog st) eqn:Hr; [|done..]. intros [= <-]. by apply cs_timer.
  - destruct (work st) eqn:Hw; [|done]. intros [= <-]. by apply cs_thread.
  - destruct (finished_booting st) eqn:Hb; [done|]. destruct (bool_decide_reflect (clocksource_default_clock ∈ clocksource_list st)); [|done]. intros [= <-]. by apply cs_booted.
  - intros [= <-]. apply (cs_choose st buf (Z.of_nat (length buf)) (current_clocksource_store st buf (Z.of_nat (length buf))).1). by destruct (current_clocksource_store st buf _).
Qed.
End Exec.

(** ** A machine *)

(** Half a second between pairs of readings; the counter 2 has a nanosecond per cycle and is a tenth of a
    second ahead in the fourth pair, the counter 1 runs at 14318180 Hz. *)
#[export] Instance machine : ClockHw := {|
  hw := Z;
  read e cs := (if cs =? 2 then (e / 2) * 500000000 + Z.max 0 (e - 5) * 100000000 else (e / 2) * 7159090, e + 1);
  enable e _ := (false, e);
  disable e _ := e;
  suspend_cs e _ := e;
  resume_cs e _ := e;
  mark_unstable e _ := e;
  tick_stable e _ := e;
  tick_clock_notify e := e;
  tick_oneshot_mode_active _ := false;
  timekeeping_notify e _ := (0, e);
  clocksource_arch_init _ c := c;
  clocksource_default_clock := 0;
|}.

Definition counter (r f : Z) : clocksource := Clocksource (2 ^ 56 - 1) 1 0 0 0 0 [r] r f 0 0.
Definition nothing : cstate := CState (H0 := machine) (fun _ => counter 0 0) [] [] None None None false 0 false [] 0 false 0.

Lemma nothing_registered : empty_registry nothing.
Proof. by repeat split. Qed.

(** Ticks, a stable counter and a better one that must be verified. *)
Definition setup : list clock_action :=
  [Driver 0 (counter 1 0); Register 0 1 0; Driver 1 (counter 250 0x81); Register 1 1 14318180; Driver 2 (counter 300 0x03); Register 2 1 1000000000; Booted].
Definition booted : cstate := default nothing (run exec nothing setup).
(** The watchdog looks four times, and finds the drift. *)
Definition drift : list clock_action := setup ++ [Timer; Timer; Timer; Timer].
Definition drifted : cstate := default nothing (run exec nothing drift).

Lemma booted_reached : rtc cstep nothing booted.
Proof. apply (run_default cstep exec clock_exec_step setup); vm_compute; exact I. Qed.
Lemma drifted_reached : rtc cstep nothing drifted.
Proof. apply (run_default cstep exec clock_exec_step drift); vm_compute; exact I. Qed.

(** The best counter is the current one, and the other one watches it; it can be removed
    again. *)
Lemma clocksource_registry_safe_witness : curr_clocksource booted = Some 2 /\ clocksource_list booted = [2; 1; 0] /\ watchdog booted = Some 1 /\ (clocksource_unregister booted 2).1 = 0 /\
  unused (clocksource_unregister booted 2).2 2 /\ reg_inv booted.
Proof.
  assert (Hl : clocksource_list booted = [2; 1; 0]) by (vm_compute; reflexivity). assert (Hr : (clocksource_unregister booted 2).1 = 0) by (vm_compute; reflexivity).
  destruct (clocksource_registry_safe nothing booted nothing_registered booted_reached) as (HI & _ & _ & Hun). split; [vm_compute; reflexivity|]. split; [exact Hl|]. split; [vm_compute; reflexivity|]. split; [exact Hr|].
  split; [|exact HI]. apply (Hun 2 (clocksource_unregister booted 2).2); [rewrite Hl; apply list_elem_of_here|]. rewrite <- Hr. apply surjective_pairing.
Defined.

(** The thread gives up the counter that drifts. *)
Lemma clocksource_select_best_witness : curr_clocksource drifted = Some 2 /\ unstable drifted 2 = true /\ work drifted = true /\
  curr_clocksource (clocksource_watchdog_kthread drifted) <> Some 2 /\ curr_clocksource (clocksource_watchdog_kthread drifted) = Some 1.
Proof.
  assert (Hu : unstable drifted 2 = true) by (vm_compute; reflexivity). split; [vm_compute; reflexivity|]. split; [exact Hu|]. split; [vm_compute; reflexivity|]. split; [|vm_compute; reflexivity].
  assert (Hwl : watchdog_list drifted = [2]) by (vm_compute; reflexivity). assert (Hl : clocksource_list drifted = [2; 1; 0]) by (vm_compute; reflexivity).
  assert (Hb : finished_booting drifted = true) by (vm_compute; reflexivity). assert (Ho : override_name drifted = []) by (vm_compute; reflexivity). assert (Hs : unstable drifted 1 = false) by (vm_compute; reflexivity).
  assert (Hp : 0 < rating_of drifted 1) by (vm_compute; reflexivity). assert (Hux : usable drifted 1) by (split; [rewrite Hl; apply list_elem_of_further, list_elem_of_here|intros Hf; discriminate Hf]).
  assert (Hin : 2 ∈ watchdog_list drifted) by (rewrite Hwl; apply list_elem_of_here). assert (Hacc : forall cs, cs ∈ clocksource_list drifted -> accepts drifted cs) by (intros cs _; reflexivity).
  destruct (clocksource_select_best nothing drifted nothing_registered drifted_reached Hb Hacc) as (_ & _ & Hth). exact (proj2 (proj2 (Hth 2 1 Ho Hin Hu Hux Hs Hp))).
Defined.

(** A counter of 14318180 Hz, for ten minutes; and the factors that are the same whatever the time, where no shift is
    found. *)
Lemma clocks_calc_mult_shift_spec_witness : clocks_calc_mult_shift 14318180 NSEC_PER_SEC 600 = Done (585871109, 23) /\ 2 * Z.abs (585871109 * 14318180 - NSEC_PER_SEC * 2 ^ 23) <= 14318180 /\
  600 * 14318180 * 585871109 < 2 ^ 64 /\ clocks_calc_mult_shift 3000000000 NSEC_PER_SEC (2 ^ 32 - 1) = Done (1, 0).
Proof.
  destruct (clocks_calc_mult_shift_spec 14318180 NSEC_PER_SEC 600) as (mu & sh & He & Hcase & _); [lia|unfold NSEC_PER_SEC; lia|lia|].
  assert (Hc : clocks_calc_mult_shift 14318180 NSEC_PER_SEC 600 = Done (585871109, 23)) by (vm_compute; reflexivity). split; [exact Hc|]. rewrite He in Hc. injection Hc as -> ->.
  destruct (Hcase ltac:(vm_compute; reflexivity)) as (_ & _ & _ & Hacc & Hov & _). split; [exact Hacc|]. split; [apply Hov; lia|].
  destruct (clocks_calc_mult_shift_spec 3000000000 NSEC_PER_SEC (2 ^ 32 - 1)) as (mu & sh & He2 & _ & Hnone & _); [lia|unfold NSEC_PER_SEC; lia|lia|].
  rewrite He2. destruct (Hnone ltac:(vm_compute; congruence)) as [-> ->]. vm_compute. reflexivity.
Defined.

(** ** What goes wrong *)

(** If no shift from 32 down to 1 fits, the loop ends with the factor for the shift 1 and the shift 0: seconds are
    converted with the factor 1 instead of 1/3. *)
Example mult_without_its_shift : clocks_calc_mult_shift 3000000000 NSEC_PER_SEC (2 ^ 32 - 1) = Done (1, 0) /\ factor 3000000000 NSEC_PER_SEC 1 = 1 /\ factor 3000000000 NSEC_PER_SEC 0 = 0.
Proof. by vm_compute. Qed.

(** A counter that need not be verified is put on the list of the watchdog when it is marked as unstable, but not taken
    off it when it is unregistered: the list has a counter that is gone, and the thread
    registers it again. *)
Definition forgotten : cstate :=
  let st := clocksource_mark_unstable booted 1 in
  (clocksource_unregister (clocksource_change_rating st 0 260) 1).2.
Example unstable_watchdog_stays : (clocksource_unregister (clocksource_change_rating (clocksource_mark_unstable booted 1) 0 260) 1).1 = 0 /\ clocksource_list forgotten = [2; 0] /\ watchdog_list forgotten = [1; 2] /\
  clocksource_list (clocksource_watchdog_kthread forgotten) = [2; 0; 1].
Proof. vm_compute. by split_and!. Qed.
